(* ===== verification/_CoqProject ===== *)
-Q . S2P
Prelude.v
CircuitBreaker.v
Cache.v
Tool.v
Truncate.v
Registry.v
Search.v
Workflow.v
Dispatcher.v
Recovery.v
Dag.v
LoopGuards.v
Finops.v
Sanitize.v
Loop.v
Security.v
Float.v
RateLimit.v
Prune.v
Thread.v
Budget.v
Tasks.v
Approval.v
Guard.v
Notify.v
Affinity.v
Gateway.v
Fan.v
Orchestrator.v
Delegation.v
Handoff.v
Paging.v
Worktree.v
Federation.v
Device.v
DeviceManager.v
Middleware.v
Secrets.v
Roadmap.v
RdGuards.v
RdSpecs.v
RdCycle.v
Json.v
Rfc3339.v
A2a.v
Number.v
Bridge.v
A2aJson.v
Multi.v
A2aServer.v
A2aRpc.v
Session.v
A2aClient.v
Auth.v
Memory.v
Wire.v
Resources.v
Prompts.v
Skills.v
Sampling.v
Handler.v
Fulfillment.v
Lifecycle.v
