(* ===== verification/Prelude.v ===== *)
(** * Verification of mcpkit's core

    mcpkit (src/) is a Go toolkit for MCP servers and agents.  This library models
    the parts that carry its own logic and proves what makes them correct.

    ** The program and its model

    A server registers tool definitions in a registry, publishes them with wrapped
    handlers, and answers calls through a chain of middleware; agents run
    workflows, queues of jobs and an autonomous loop on top of the same tools.

    - Prelude.v: machine integers, time, errors, [float64], strings, JSON values,
      and the lemmas, tactics and hints the components share.
    - CircuitBreaker.v: src/resilience/circuit.go.  The breaker's record, one
      definition per method, callers interleaving at its lock ([step]), the
      per-service registry.
    - Cache.v: src/resilience/cache.go.  [CacheEntry], the keyed LRU/TTL cache,
      concurrent [GetOrFetch] as a step relation ([cstep]), [CacheKey].
    - Tool.v: the tool definition of src/registry/registry.go with
      annotations.go, metadata.go and the compat.go shims they use.
    - Truncate.v: the response cap and [wrapHandler] of src/registry/registry.go.
      It fixes the type of handlers and middleware used everywhere else.
    - Registry.v: src/registry/registry.go, deferred.go, dynamic.go: registration,
      listings, filters, statistics, runtime changes, publication.
    - Search.v: src/registry/search.go: tokens, scores, Levenshtein, ranking.
    - Workflow.v: src/workflow/: graph building, the engine ([Run], [Resume]),
      checkpoints, compensation, forks, hooks and node middleware.
    - Dispatcher.v: src/dispatcher/: the binary heap, concurrency groups, and
      submitters, workers and shutdown as a step relation ([dstep]).
    - Recovery.v: src/resilience/error_recovery.go, error_compactor.go and
      middleware.go; it uses CircuitBreaker.v through the breaker registry.
    - Dag.v: src/ralph/dag.go: readiness and Kahn's algorithm.
    - LoopGuards.v: src/ralph/stuckdetect.go, costgovernor.go, circuitbreaker.go.
    - Finops.v: src/finops/finops.go, tracker.go, scope.go, cost.go, estimate.go.
    - Sanitize.v: src/sanitize/, over a model of path/filepath on Unix.
    - Loop.v: src/ralph/loop.go, ralph.go, prompt.go, checkpoint.go: the
      autonomous loop, using Dag.v, LoopGuards.v, Finops.v and Registry.v.
    - Security.v: src/security/: roles and permissions, the audit ring with its
      queue and background writer as steps ([audit_step]), and the middleware.
    - Float.v: facts on binary64 (whole numbers below 2^53 are exact) for the
      components that compute with [float64].
    - RateLimit.v: src/resilience/ratelimit.go: the token bucket, [Allow], [Wait],
      the registry and the middleware of middleware.go.
    - Prune.v: src/ralph/prune.go.
    - Thread.v: src/session/thread.go, event.go, checkpoint.go, context.go: event
      logs in a store of shared objects, the status read from a log, renderings.
    - Session.v: src/session/session.go, eviction.go, external.go, redis.go,
      migrate.go, migrate_stateful.go, middleware.go: sessions as objects of a heap,
      two stores behind one interface ([SessionStore]), migration, HTTP middleware.
    - Budget.v: src/finops/window.go, enforcement.go, models.go, over Finops.v.
    - Tasks.v: src/registry/tasks/: the table of tasks and the interleaving of
      clients and handlers ([task_step]).
    - Approval.v: src/hitools/approval.go, store.go: the gate over any store that
      satisfies [ApprovalStore], waiting, and the in-memory stores.
    - Guard.v: src/protocol/, src/registry/cancellation.go, safety_middleware.go,
      integrity.go, signing.go, signing_middleware.go.
    - Notify.v: src/registry/notify.go: a server wired to the dynamic registry.
    - Affinity.v: src/gateway/affinity.go, with the real CRC-32.
    - Gateway.v: src/gateway/gateway.go, upstream.go, resilience.go, dynamic.go,
      session_affinity.go, over CircuitBreaker.v, Cache.v, RateLimit.v, Registry.v.
    - Fan.v: the bounded parallel run shared by src/orchestrator/fanout.go,
      selector.go, swarm.go and delegation.go ([fan_step]).
    - Orchestrator.v: src/orchestrator/fanout.go, selector.go, pipeline.go, swarm.go,
      dynamic.go, middleware.go; Delegation.v: delegation.go.
    - Handoff.v: src/handoff/: agents that delegate to one another.
    - Paging.v: src/handler/pagination.go: cursors, pages and the result ceiling.
    - Worktree.v: src/worktree/pool.go: the pool's calls as steps between its locks
      ([step]).
    - Federation.v: src/gateway/federation.go, over Gateway.v and Registry.v.
    - Device.v: src/device/midi_parse.go, grid_protocol.go, classify.go;
      DeviceManager.v: manager.go, its goroutines as steps ([step]).
    - Middleware.v: src/middleware/: gates, the text limit, confirmation, prefetching,
      correlation and debug logging.
    - Secrets.v: src/secrets/manager.go, provider.go, sanitize.go.
    - Roadmap.v: src/roadmap/roadmap.go, query.go, module.go.
    - RdGuards.v: src/rdcycle/circuitbreaker.go, costvelocity.go, costadapt.go,
      models.go, strategy.go, learning.go, improve.go; RdSpecs.v: plan.go,
      synthesize.go, synthesizer.go, their sources and schedule.go, over Roadmap.v,
      Dag.v and the loop's own validation (Loop.v); RdCycle.v: orchestrator.go and
      perpetual.go over both.

    Definitions keep the Go names; where two methods share a name the type comes
    first ([Cache_Get], [Registry_Get]), and a field that clashes gets a short
    prefix.  A comment names the file a group of definitions comes from.

    ** Modelling conventions

    - Go's [int] and [int64] are 64-bit; additions that can overflow use [add64] or
      [wrap64].  Lengths and indices, which memory bounds, are plain [Z] or [nat].
      [float64] is IEEE binary64 (Stdlib's [SpecFloat]).
    - An instant is a [Z] of nanoseconds, zero for the zero [time.Time]; durations
      saturate in [Sub] as in Go.
    - Strings are byte sequences.  [ToLower], [TrimSpace] and [Fields] are those of
      ASCII text; search and titles are modelled on ASCII.
    - Maps are [gmap]s.  Where Go walks a map and the order can be seen, the order
      is a parameter or the statement holds for every enumeration.
    - A nil pointer, interface or function is [None]; errors keep the [%w] chain
      ([error], [errors_is]).
    - A handler is a function of context, request and world that returns or
      panics, with the world after it; state it shares with other code (trackers,
      breakers, scopes) is read and written through the world, so a nested call
      can change it.  Mutexes become the atomicity of one step.
    - Parameters stand for what is not in src/ or is pure input/output: the clock,
      [context], encoding/json, SHA-256, net/url, regexp, the file system, the
      sampler, external commands.  Hypotheses about them are documented behaviour
      and each theorem that has one has a witness with concrete functions.

    ** Fuel

    - [evict] runs once per list element and one more; each pass shortens the list.
    - [loop] (Workflow) takes exactly MaxSteps passes, after which the code reports
      that the limit is exceeded; [run_follows_graph] covers that end.
    - [kahn] visits each task at most once, [S (length tasks)] passes.
    - [up] and [down] (Dispatcher) take at most the heap's length of passes.
    - [retry_loop] is given the number of retries, [sample] the number of attempts.
    - [run_loop] (Loop) is given the iterations left and one pass more;
      [Run_terminates] proves that this is enough.
    - [Wait] (RateLimit) and [poll] (Approval) are loops that end only when the clock,
      the context or another party lets them; they take fuel and answer [None] when it
      runs out.  [approval_wait_ends] proves that a wait with a time limit and a clock
      that advances ends; the rate limiter's theorems are about its answers.
    - [run_cycles] (RdCycle) takes one unit per cycle; a run without a limit may never end,
      and [perpetual_run_contract] says how much is enough with one.
    - [midi_loop] and [grid_frames] (Device) are given one pass per byte and prove it
      enough ([midi_stream_safe], [frames_total]).
    - [rev_digits] (Affinity) is given more passes than the number has digits.
    - [Delegate] (Handoff) recurs on the levels left below the limit, which is what the
      code checks; [Delegate_equation] is the code's own equation.

    ** What the theorems show

    - Workflow: a run follows the graph, ends within the limit, resumes from a
      checkpoint as if never interrupted, rolls back exactly the completed nodes in
      reverse, and on a validated graph fails only for outside reasons.
    - Loop, Dag, LoopGuards: tasks complete in dependency order, runs end, completion
      is gated, validation is exact, stalls are bounded and reported.
    - Truncate, Registry, Tool, Search: the cap holds and is never silent, panics
      become errors, the registry keeps its invariant and publishes what it lists,
      metadata agrees with definitions, an exact name is found first.
    - CircuitBreaker, Recovery, Cache, Dispatcher: the breaker follows its automaton
      and does not latch while calls return, retries are bounded, the cache is an
      LRU list with one fetch per key, the queue respects limits and loses nothing.
    - Finops, Sanitize: books balance, budgets bind per scope, paths stay inside
      their base directory.
    - RateLimit, Budget: the limiter is a token bucket, windows partition the usage,
      alerts are sent once and truly.
    - Security, Approval, Guard, Tasks: a tool runs exactly when a role permits it and
      leaves its audit trail; behind the gate only on an answer to that very call;
      tampered tools are found, signatures verify; task records are well formed in
      every interleaving.
    - Thread, Session, Prune: pausing and resuming returns the thread, contexts fit
      their budget, a saved session is loaded back, migrations are all or nothing,
      pruning keeps the essential messages.
    - Gateway, Affinity, Notify: routes, published names and upstreams agree, hashing is
      stable, a wired server lists what the registry holds.
    - Fan, Orchestrator, Delegation, Handoff: parallel runs keep their limit and cannot
      hang, pipelines stop where they should, a broadcast accounts for every peer, a
      delegation without error is complete, chains of agents end at the depth limit.
    - Paging, Worktree, Federation: following the cursors visits every item once, no
      worktree is ever in two hands, published names are what the peers list.
    - Device, DeviceManager: MIDI messages and Grid frames are read back as they were
      sent, however the bytes arrive; the tables, flags and goroutines of the manager
      agree in every interleaving.
    - Middleware, Secrets: a gated tool runs only when it may, texts are cut exactly at
      the limit, secrets come from the best provider and are masked in logs.
    - Roadmap, RdGuards, RdSpecs, RdCycle: what a phase has ready, the cycle breaker as
      its history, which specifications the loop accepts, and the perpetual run's
      limits and ends.
    - Some theorems and lemmas state where the code falls short of its comments
      ([panic_leaks_permit], [single_flight_lost_on_eviction],
      [dispatcher_priority_inversion], [resume_forgets_compensations],
      [unparsable_replies_bypass_guards], [proxy_breaker_never_opens],
      [cancelled_task_completes], [stateful_migration_loses_data_on_redis] and others
      next to them).

    ** How the parts meet

    Middleware is the common interface: [Middleware] of Truncate.v is what Recovery,
    RateLimit, Finops, Budget, Security, Approval, Guard, Tasks and Gateway implement and
    [wrapHandler] composes.  State reached from several places is a [Cell] of the world
    ([CellLaws]).  Registry.v is used by Loop, Notify, Guard and Gateway; the breakers,
    the cache and the limiter by Gateway; the tracker of Finops by Budget, Loop and
    Handoff.  [SessionStore] and [ApprovalStore] are classes: the migration and the gate
    are proved against their laws, which the stores of the same file discharge.

    ** Not modelled

    Network transports, authentication, connections to other servers, exporters,
    process management, platform device drivers, command-line tools and generated
    tables: they are input/output or calls to libraries.  Of the gateway, the adapters
    and fulfilment; of the orchestrator, the polling team of team.go.  Planned next:
    the memory store (src/memory/), triggers and health gates, leases
    (src/gateway/fulfillment/). *)

From stdpp Require Import base tactics list gmap strings pretty relations sorting.
From Stdlib Require Import ZArith Lia Floats.SpecFloat.

Local Open Scope Z_scope.

(** ** Machine integers

    Go's [int] and [int64] are 64-bit two's complement on the supported
    targets.  An [int] is a [Z]; the operations that can leave the range wrap. *)
Definition min_int64 : Z := - 2 ^ 63.
Definition max_int64 : Z := 2 ^ 63 - 1.
Definition in64 (z : Z) : Prop := min_int64 <= z <= max_int64.
Definition wrap64 (z : Z) : Z := (z + 2 ^ 63) mod 2 ^ 64 - 2 ^ 63.
Definition add64 (a b : Z) : Z := wrap64 (a + b).
Definition clamp64 (z : Z) : Z := Z.max min_int64 (Z.min max_int64 z).

(** ** Time

    An instant is the number of nanoseconds since the zero [time.Time]
    (January 1, year 1), so [IsZero] is equality with 0; a [time.Duration] is
    an [int64] of nanoseconds, and [Time.Sub] saturates at its bounds. *)
Definition time := Z.
Definition duration := Z.
Definition time_zero : time := 0.
Definition time_is_zero (t : time) : bool := t =? 0.
Definition time_sub (t u : time) : duration := clamp64 (t - u).
Definition time_add (t : time) (d : duration) : time := t + d.
Definition time_after (t u : time) : bool := u <? t.
Definition time_before (t u : time) : bool := t <? u.
Definition Millisecond : duration := 1000000.
Definition Second : duration := 1000000000.
Definition Minute : duration := 60 * Second.
Definition Hour : duration := 60 * Minute.

(** ** Errors

    A non-nil [error]: one made by [errors.New]/[fmt.Errorf] without [%w], a
    package-level sentinel compared by identity, [fmt.Errorf] with [%w], or the
    [*protocol.CancellationError] of src/protocol/cancellation.go without and with a cause. *)
Inductive error :=
| Err (msg : string)
| ErrSentinel (name msg : string)
| ErrWrap (pre : string) (inner : error) (post : string)
| ErrCancelled (reason : string)
| ErrCancelledBy (reason : string) (cause : error).

Definition cancelled_text (reason : string) : string :=
  "request cancelled" +:+ (if bool_decide (reason ≠ "") then ": " +:+ reason else "").

Fixpoint error_text (e : error) : string :=
  match e with
  | Err msg => msg
  | ErrSentinel _ msg => msg
  | ErrWrap pre e post => pre +:+ error_text e +:+ post
  | ErrCancelled reason => cancelled_text reason
  | ErrCancelledBy reason e => cancelled_text reason +:+ " (" +:+ error_text e +:+ ")"
  end.

#[export] Instance error_eq_dec : EqDecision error.
Proof. solve_decision. Defined.

(** [errors.Is] for a sentinel target: identity along the [%w] chain. *)
Fixpoint errors_is (e target : error) : bool :=
  match e with
  | ErrWrap _ e' _ | ErrCancelledBy _ e' => bool_decide (e = target) || errors_is e' target
  | ErrSentinel n _ =>
      match target with ErrSentinel m _ => bool_decide (n = m) | _ => false end
  | Err _ | ErrCancelled _ => false
  end.

(** The sentinels of package context. *)
Definition DeadlineExceeded : error :=
  ErrSentinel "context.DeadlineExceeded" "context deadline exceeded".
Definition Canceled : error := ErrSentinel "context.Canceled" "context canceled".

(** ** State-passing computations over a world [W] *)
Definition st (W A : Type) : Type := W → A * W.
#[export] Instance st_ret {W} : MRet (st W) := λ A a w, (a, w).
#[export] Instance st_bind {W} : MBind (st W) :=
  λ A B f m w, let '(a, w') := m w in f a w'.

(** ** Shared state

    A pointer shared by several holders is a cell of the world: an interface with
    a read and a write, which a component's operations use and a client's world
    provides. *)
Class Cell (W A : Type) := { peek : W → A; poke : A → W → W }.
Class CellLaws (W A : Type) `{Cell W A} : Prop := { peek_poke (a : A) (w : W) : peek (poke a w) = a }.

(** The world that is the cell, and the one that has it first. *)
#[export] Instance self_cell {A} : Cell A A := {| peek := id; poke := λ a _, a |}.
#[export] Instance self_cell_laws {A} : CellLaws A A.
Proof. done. Qed.
#[export] Instance fst_cell {A B} : Cell (A * B) A := {| peek := fst; poke := λ a w, (a, w.2) |}.
#[export] Instance fst_cell_laws {A B} : CellLaws (A * B) A.
Proof. done. Qed.

(** ** Strings as byte sequences *)
Definition bytes (s : string) : Z := Z.of_nat (String.length s).

Fixpoint has_prefix (p s : string) : bool :=
  match p, s with
  | EmptyString, _ => true
  | String a p', String b s' => bool_decide (a = b) && has_prefix p' s'
  | String _ _, EmptyString => false
  end.

Fixpoint string_drop (n : nat) (s : string) : string :=
  match n, s with
  | O, _ => s
  | S n', String _ s' => string_drop n' s'
  | S _, EmptyString => EmptyString
  end.

Fixpoint string_take (n : nat) (s : string) : string :=
  match n, s with
  | O, _ => EmptyString
  | S n', String a s' => String a (string_take n' s')
  | S _, EmptyString => EmptyString
  end.

Definition has_suffix (p s : string) : bool :=
  (String.length p <=? String.length s)%nat &&
  bool_decide (string_drop (String.length s - String.length p) s = p).

Fixpoint contains (sub s : string) : bool :=
  has_prefix sub s ||
  match s with EmptyString => false | String _ s' => contains sub s' end.

Definition lower_ascii (a : Ascii.ascii) : Ascii.ascii :=
  let n := Ascii.nat_of_ascii a in
  if ((65 <=? n) && (n <=? 90))%nat then Ascii.ascii_of_nat (n + 32) else a.

(** [strings.ToLower] on ASCII; bytes of a multi-byte rune are kept. *)
Fixpoint to_lower (s : string) : string :=
  match s with
  | EmptyString => EmptyString
  | String a s' => String (lower_ascii a) (to_lower s')
  end.

Definition upper_ascii (a : Ascii.ascii) : Ascii.ascii :=
  let n := Ascii.nat_of_ascii a in
  if ((97 <=? n) && (n <=? 122))%nat then Ascii.ascii_of_nat (n - 32) else a.

(** [strings.TrimPrefix], [strings.Join], and decimal formatting ([%d]). *)
Definition trim_prefix (s p : string) : string :=
  if has_prefix p s then string_drop (String.length p) s else s.

Fixpoint join (sep : string) (l : list string) : string :=
  match l with
  | [] => ""
  | [s] => s
  | s :: l' => s +:+ sep +:+ join sep l'
  end.

Definition itoa (z : Z) : string := pretty z.

(** [%q] ([strconv.Quote]): printable ASCII and the bytes of multi-byte runes are
    kept, the rest is escaped. *)
Definition hex_digit (n : nat) : Ascii.ascii :=
  Ascii.ascii_of_nat (if (n <? 10)%nat then 48 + n else 87 + n).
Definition byte_string (n : nat) : string := String (Ascii.ascii_of_nat n) EmptyString.
Definition dquote : string := byte_string 34.
Definition newline : string := byte_string 10.
Definition backslash : string := byte_string 92.
Definition quote_byte (a : Ascii.ascii) : string :=
  let n := Ascii.nat_of_ascii a in
  if (n =? 34)%nat then backslash +:+ dquote
  else if (n =? 92)%nat then backslash +:+ backslash
  else if (n =? 7)%nat then backslash +:+ "a"
  else if (n =? 8)%nat then backslash +:+ "b"
  else if (n =? 9)%nat then backslash +:+ "t"
  else if (n =? 10)%nat then backslash +:+ "n"
  else if (n =? 11)%nat then backslash +:+ "v"
  else if (n =? 12)%nat then backslash +:+ "f"
  else if (n =? 13)%nat then backslash +:+ "r"
  else if ((n <? 32) || (n =? 127))%nat then
    backslash +:+ "x" +:+ String (hex_digit (n / 16)) (String (hex_digit (n mod 16)) EmptyString)
  else String a EmptyString.
Fixpoint quote_body (s : string) : string :=
  match s with
  | EmptyString => EmptyString
  | String a s' => quote_byte a +:+ quote_body s'
  end.
Definition quote (s : string) : string := dquote +:+ quote_body s +:+ dquote.

(** Replace one byte by another, and [strings.Fields] on ASCII white space. *)
Fixpoint replace_byte (a b : Ascii.ascii) (s : string) : string :=
  match s with
  | EmptyString => EmptyString
  | String c s' => String (if bool_decide (c = a) then b else c) (replace_byte a b s')
  end.

Definition is_space (a : Ascii.ascii) : bool :=
  let n := Ascii.nat_of_ascii a in (n =? 32)%nat || ((9 <=? n) && (n <=? 13))%nat.

(** Maximal runs of bytes satisfying [p]; [cur] is the run being read. *)
Fixpoint runs_aux (p : Ascii.ascii → bool) (cur : string) (s : string) : list string :=
  match s with
  | EmptyString => match cur with EmptyString => [] | _ => [cur] end
  | String c s' =>
      if p c then runs_aux p (cur +:+ String c EmptyString) s'
      else match cur with
           | EmptyString => runs_aux p EmptyString s'
           | _ => cur :: runs_aux p EmptyString s'
           end
  end.
Definition fields (s : string) : list string := runs_aux (λ c, negb (is_space c)) "" s.

(** ** [float64]

    IEEE 754 binary64 with round to nearest even ([SpecFloat]). *)
Definition float64 := spec_float.
Definition float_of_int (z : Z) : float64 := binary_normalize 53 1024 z 0 false.
Definition float_add : float64 → float64 → float64 := SFadd 53 1024.
Definition float_sub : float64 → float64 → float64 := SFsub 53 1024.
Definition float_mul : float64 → float64 → float64 := SFmul 53 1024.
Definition float_div : float64 → float64 → float64 := SFdiv 53 1024.
Definition float_le (x y : float64) : bool := SFleb x y.
Definition float_lt (x y : float64) : bool := SFltb x y.
Definition float_zero : float64 := S754_zero false.

(** [int(f)] for a finite [f]: truncation toward zero. *)
Definition int_of_float (f : float64) : Z :=
  match f with
  | S754_finite s m e =>
      let z := if 0 <=? e then Z.pos m * 2 ^ e else Z.pos m / 2 ^ (- e) in
      if s then - z else z
  | _ => 0
  end.

(** [%.4f]: the exact value rounded to four decimals, ties to even. *)
Definition round_half_even (num den : Z) : Z :=
  let q := num / den in
  let r := num mod den in
  if (2 * r <? den) || ((2 * r =? den) && Z.even q) then q else q + 1.
Definition pad4 (s : string) : string := String.substring 0 (4 - String.length s) "0000" +:+ s.
Definition format4 (f : float64) : string :=
  match f with
  | S754_nan => "NaN"
  | S754_infinity s => if s then "-Inf" else "+Inf"
  | S754_zero s => (if s then "-" else "") +:+ "0.0000"
  | S754_finite s m e =>
      let n := if 0 <=? e then Z.pos m * 2 ^ e * 10000
               else round_half_even (Z.pos m * 10000) (2 ^ (- e)) in
      (if s then "-" else "") +:+ itoa (n / 10000) +:+ "." +:+ pad4 (itoa (n mod 10000))
  end.

(** [%.kf] for a small [k]. *)
Definition format_fixed (k : nat) (f : float64) : string :=
  let scale := 10 ^ Z.of_nat k in
  let pad s := String.substring 0 (k - String.length s) "0000000000" +:+ s in
  match f with
  | S754_nan => "NaN"
  | S754_infinity s => if s then "-Inf" else "+Inf"
  | S754_zero s => (if s then "-" else "") +:+ "0." +:+ pad ""
  | S754_finite s m e =>
      let n := if 0 <=? e then Z.pos m * 2 ^ e * scale else round_half_even (Z.pos m * scale) (2 ^ (- e)) in
      (if s then "-" else "") +:+ itoa (n / scale) +:+ "." +:+ pad (itoa (n mod scale))
  end.

(** JSON values; a Go [any] holding one. *)
Inductive json :=
| JNull
| JBool (b : bool)
| JNumber (n : string)
| JString (s : string)
| JArray (l : list json)
| JObject (l : list (string * json)).

#[export] Instance json_eq_dec : EqDecision json.
Proof.
  refine (fix go v w := let _ : EqDecision json := @go in
    match v, w with
    | JNull, JNull => left eq_refl
    | JBool b, JBool b' => cast_if (decide (b = b'))
    | JNumber n, JNumber n' => cast_if (decide (n = n'))
    | JString s, JString s' => cast_if (decide (s = s'))
    | JArray l, JArray l' => cast_if (decide (l = l'))
    | JObject l, JObject l' => cast_if (decide (l = l'))
    | _, _ => right _
    end); abstract congruence.
Defined.

(** The keys of a map as a sorted slice ([sort.Strings]). *)
Definition sort_strings (l : list string) : list string := merge_sort String.le l.
Definition sorted_keys {A} (m : gmap string A) : list string :=
  sort_strings (map_to_list m).*1.

(** The last [n] elements of a slice, [s[len(s)-n:]]. *)
Definition last_n {A} (n : nat) (l : list A) : list A := drop (length l - n) l.

(** ** Tactics *)
Ltac inv_tuple := repeat match goal with
  | H : (_, _) = (_, _) |- _ => injection H as H; subst
  | H : Some _ = Some _ |- _ => injection H as H; subst
  end.
Ltac destruct_cases := repeat (case_match || case_decide); simplify_eq/=.
Ltac bsolve := repeat (case_match || case_decide); simplify_eq/=; try done; try lia.

(** Turn boolean tests into propositions in the whole context. *)
Ltac to_prop := repeat match goal with
  | H : context [(_ <? _) = true] |- _ => rewrite Z.ltb_lt in H
  | H : context [(_ <? _) = false] |- _ => rewrite Z.ltb_ge in H
  | H : context [(_ <=? _) = true] |- _ => rewrite Z.leb_le in H
  | H : context [(_ <=? _) = false] |- _ => rewrite Z.leb_gt in H
  | H : context [(_ =? _) = true] |- _ => rewrite Z.eqb_eq in H
  | H : context [(_ =? _) = false] |- _ => rewrite Z.eqb_neq in H
  | H : bool_decide _ = true |- _ => apply bool_decide_eq_true_1 in H
  | H : bool_decide _ = false |- _ => apply bool_decide_eq_false_1 in H
  | H : andb _ _ = true |- _ => apply andb_true_iff in H as [? ?]
  | H : orb _ _ = false |- _ => apply orb_false_iff in H as [? ?]
  | H : negb _ = true |- _ => apply negb_true_iff in H
  | H : negb _ = false |- _ => apply negb_false_iff in H
  end.

Create HintDb mcpkit.

(** ** Lemmas on machine integers *)
Lemma wrap64_range z : in64 (wrap64 z).
Proof. unfold in64, wrap64, min_int64, max_int64. pose proof (Z.mod_pos_bound (z + 2^63) (2^64)). lia. Qed.

Lemma wrap64_id z : in64 z → wrap64 z = z.
Proof. unfold in64, wrap64, min_int64, max_int64. intros. rewrite Z.mod_small by lia. lia. Qed.

Lemma add64_id a b : in64 (a + b) → add64 a b = a + b.
Proof. apply wrap64_id. Qed.

Lemma wrap64_mod_eq a b : a mod 2 ^ 64 = b mod 2 ^ 64 → wrap64 a = wrap64 b.
Proof.
  intros H. unfold wrap64. f_equal.
  rewrite (Z.add_mod a), (Z.add_mod b) by lia. by rewrite H.
Qed.

Lemma wrap64_congr z : wrap64 z mod 2 ^ 64 = z mod 2 ^ 64.
Proof.
  unfold wrap64. rewrite Zminus_mod, Z.mod_mod, <- Zminus_mod by lia.
  f_equal. lia.
Qed.

Lemma add64_wrap_l a b : add64 (wrap64 a) b = wrap64 (a + b).
Proof.
  apply wrap64_mod_eq. rewrite Z.add_mod, wrap64_congr, <- Z.add_mod by lia. done.
Qed.

Lemma time_sub_exact t u : in64 (t - u) → time_sub t u = t - u.
Proof. unfold in64, time_sub, clamp64. lia. Qed.

(** ** Lemmas on errors *)
Lemma errors_is_sentinel n m m' : errors_is (ErrSentinel n m) (ErrSentinel n m') = true.
Proof. simpl. by apply bool_decide_eq_true. Qed.

Lemma errors_is_wrap pre e post t :
  errors_is e t = true → errors_is (ErrWrap pre e post) t = true.
Proof. simpl. intros ->. apply orb_true_r. Qed.

#[export] Hint Resolve wrap64_range errors_is_sentinel errors_is_wrap : mcpkit.


(** ** Lemmas on strings *)
#[global] Arguments String.append !_ _ / : simpl nomatch.
Lemma string_length_app s t :
  String.length (s +:+ t) = (String.length s + String.length t)%nat.
Proof. induction s as [|a s IH]; simpl; [done|]. by rewrite IH. Qed.

Lemma string_length_take n s :
  String.length (string_take n s) = Nat.min n (String.length s).
Proof. revert s; induction n as [|n IH]; intros [|a s]; simpl; auto. Qed.

Lemma string_take_drop n s : string_take n s +:+ string_drop n s = s.
Proof.
  revert s; induction n as [|n IH]; intros [|a s]; try done.
  change (String a (string_take n s +:+ string_drop n s) = String a s). by rewrite IH.
Qed.

Lemma string_length_drop n s :
  String.length (string_drop n s) = (String.length s - n)%nat.
Proof. revert s; induction n as [|n IH]; intros [|a s]; simpl; auto. Qed.

Lemma string_drop_app s t : string_drop (String.length s) (s +:+ t) = t.
Proof. induction s; simpl; auto. Qed.

Lemma has_prefix_spec p s : has_prefix p s = true ↔ ∃ t, s = p +:+ t.
Proof.
  revert s; induction p as [|a p IH]; intros s; simpl.
  - split; [|done]. intros _. by exists s.
  - destruct s as [|b s]; [naive_solver|].
    rewrite andb_true_iff, bool_decide_eq_true, IH. split.
    + intros [-> [t ->]]. by exists t.
    + intros [t Ht]. injection Ht as -> ->. eauto.
Qed.

Lemma string_app_inj_r s1 s2 t1 t2 :
  String.length t1 = String.length t2 → s1 +:+ t1 = s2 +:+ t2 → s1 = s2 ∧ t1 = t2.
Proof.
  revert s2; induction s1 as [|a s1 IH]; intros [|b s2]; simpl; intros Hl He.
  - done.
  - subst t1. simpl in Hl. rewrite string_length_app in Hl. lia.
  - subst t2. simpl in Hl. rewrite string_length_app in Hl. lia.
  - injection He as -> He. by apply IH in He as [-> ->].
Qed.

Lemma has_suffix_spec p s : has_suffix p s = true ↔ ∃ t, s = t +:+ p.
Proof.
  unfold has_suffix. rewrite andb_true_iff, bool_decide_eq_true, Nat.leb_le. split.
  - intros [Hl Hd]. exists (string_take (String.length s - String.length p) s).
    transitivity (string_take (String.length s - String.length p) s +:+
                  string_drop (String.length s - String.length p) s);
      [by rewrite string_take_drop | by rewrite Hd].
  - intros [t ->]. rewrite string_length_app. split; [lia|].
    replace (String.length t + String.length p - String.length p)%nat
      with (String.length t) by lia. apply string_drop_app.
Qed.

Lemma string_app_assoc a b c : (a +:+ b) +:+ c = a +:+ b +:+ c.
Proof. induction a as [|x a IH]; [done|]. cbn. by rewrite IH. Qed.

Lemma string_app_nil_r a : a +:+ "" = a.
Proof. induction a as [|x a IH]; [done|]. cbn. by rewrite IH. Qed.

(** A byte does not occur in a text. *)
Definition lacks (c : Ascii.ascii) (s : string) : Prop := c ∉ String.list_ascii_of_string s.

Lemma lacks_nil c : lacks c "".
Proof. apply not_elem_of_nil. Qed.
Lemma lacks_cons c a s : lacks c (String a s) ↔ c ≠ a ∧ lacks c s.
Proof. unfold lacks. cbn [String.list_ascii_of_string]. apply not_elem_of_cons. Qed.
Lemma lacks_app c s t : lacks c (s +:+ t) ↔ lacks c s ∧ lacks c t.
Proof.
  induction s as [|a s IH]; [split; [intros H; split; [apply lacks_nil|done]|by intros [_ H]]|].
  change (String a s +:+ t) with (String a (s +:+ t)). rewrite !lacks_cons, IH. tauto.
Qed.

(** A text either lacks a byte or splits at its first occurrence. *)
Lemma split_at c s : lacks c s ∨ ∃ p r, s = p +:+ String c r ∧ lacks c p.
Proof.
  induction s as [|a s IH]; [left; apply lacks_nil|]. destruct (decide (c = a)) as [->|Hne].
  { right. exists "", s. split; [done|apply lacks_nil]. }
  destruct IH as [H|(p & r & -> & H)]; [left; by apply lacks_cons|]. right. exists (String a p), r.
  split; [done|by apply lacks_cons].
Qed.

(** Decimal numbers consist of digits and, when negative, a minus sign. *)
Definition digit_bytes : string := "0123456789".
Lemma lacks_pretty_N_go c x s : lacks c digit_bytes → lacks c s → lacks c (pretty_N_go x s).
Proof.
  intros Hc. unfold digit_bytes in Hc. rewrite !lacks_cons in Hc. revert s.
  induction x as [x IH] using (well_founded_induction N.lt_wf_0). intros s Hs.
  destruct (decide (0 < x)%N) as [Hx|Hx]; [|assert (x = 0%N) as -> by lia; by rewrite pretty_N_go_0].
  rewrite pretty_N_go_step by done. apply IH; [apply N.div_lt; lia|]. apply lacks_cons. split; [|done].
  pose proof (N.mod_lt x 10 ltac:(done)) as H. generalize dependent (x mod 10)%N. intros n Hn.
  assert (n = 0 ∨ n = 1 ∨ n = 2 ∨ n = 3 ∨ n = 4 ∨ n = 5 ∨ n = 6 ∨ n = 7 ∨ n = 8 ∨ n = 9)%N as Hd by lia.
  destruct_or! Hd; subst; apply Hc.
Qed.
Lemma lacks_pretty_N c (n : N) : lacks c digit_bytes → lacks c (pretty n).
Proof.
  intros Hc. unfold pretty, pretty_N. destruct (decide _); [|by apply lacks_pretty_N_go, lacks_nil].
  unfold digit_bytes in Hc. rewrite lacks_cons in Hc. apply lacks_cons. split; [apply Hc|apply lacks_nil].
Qed.
Lemma lacks_itoa_nonneg c z : lacks c digit_bytes → 0 <= z → lacks c (itoa z).
Proof. intros Hc Hz. unfold itoa. destruct z as [|p|p]; [by apply (lacks_pretty_N c 0)|by apply (lacks_pretty_N c (N.pos p))|lia]. Qed.
Lemma lacks_itoa c z : lacks c ("-" +:+ digit_bytes) → lacks c (itoa z).
Proof.
  intros [Hm Hc]%lacks_app. destruct (decide (0 <= z)) as [Hz|Hz]; [by apply lacks_itoa_nonneg|].
  unfold itoa. destruct z as [|p|p]; [lia|lia|]. apply (lacks_app c "-"). split; [done|by apply lacks_pretty_N].
Qed.

(** ** Lemmas on lists *)
Lemma length_last_n {A} n (l : list A) : length (last_n n l) = Nat.min n (length l).
Proof. unfold last_n. rewrite length_drop. lia. Qed.

Lemma last_n_all {A} n (l : list A) : (length l <= n)%nat → last_n n l = l.
Proof. intros. unfold last_n. by replace (length l - n)%nat with 0%nat by lia. Qed.

Lemma last_n_app_r {A} n (l k : list A) : (n <= length k)%nat → last_n n (l ++ k) = last_n n k.
Proof.
  intros. unfold last_n. rewrite length_app, drop_app_ge by lia. f_equal. lia.
Qed.

Lemma omap_ext_in {A B} (f g : A → option B) (l : list A) :
  (∀ x, x ∈ l → f x = g x) → omap f l = omap g l.
Proof.
  induction l as [|x l IH]; intros H; [done|]. csimpl.
  rewrite (H x) by set_solver. rewrite IH by set_solver. done.
Qed.

Lemma filter_all {A} (P : A → Prop) `{∀ x, Decision (P x)} (l : list A) :
  (∀ x, x ∈ l → P x) → filter P l = l.
Proof.
  induction l as [|x l IH]; intros Hp; [done|].
  rewrite filter_cons_True by (apply Hp; set_solver). rewrite IH by set_solver. done.
Qed.

Lemma last_removelast {A} (l : list A) x : last l = Some x → l = removelast l ++ [x].
Proof. intros H. apply last_Some in H as [l' ->]. by rewrite removelast_last. Qed.

(** Sorted key listings. *)
Lemma sort_strings_sorted l : Sorted String.le (sort_strings l).
Proof. apply (Sorted_merge_sort String.le). Qed.

Lemma elem_of_sort_strings l x : x ∈ sort_strings l ↔ x ∈ l.
Proof. unfold sort_strings. by rewrite merge_sort_Permutation. Qed.

Lemma NoDup_sort_strings l : NoDup l → NoDup (sort_strings l).
Proof. unfold sort_strings. by rewrite merge_sort_Permutation. Qed.

Lemma elem_of_sorted_keys {A} (m : gmap string A) k :
  k ∈ sorted_keys m ↔ is_Some (m !! k).
Proof.
  unfold sorted_keys. rewrite elem_of_sort_strings, list_elem_of_fmap. split.
  - intros ([k' x] & -> & H). apply elem_of_map_to_list in H. by exists x.
  - intros [x H]. exists (k, x). split; [done|by apply elem_of_map_to_list].
Qed.

Lemma NoDup_sorted_keys {A} (m : gmap string A) : NoDup (sorted_keys m).
Proof. apply NoDup_sort_strings, NoDup_fst_map_to_list. Qed.

Lemma length_sorted_keys {A} (m : gmap string A) : length (sorted_keys m) = size m.
Proof.
  unfold sorted_keys, sort_strings. rewrite merge_sort_Permutation, length_fmap.
  apply length_map_to_list.
Qed.

#[export] Hint Resolve sort_strings_sorted NoDup_sorted_keys : mcpkit.

(** ** JSON values: induction through their lists *)
Lemma json_ind' (P : json → Prop) :
  P JNull → (∀ b, P (JBool b)) → (∀ n, P (JNumber n)) → (∀ s, P (JString s)) →
  (∀ l, (∀ v, v ∈ l → P v) → P (JArray l)) →
  (∀ l, (∀ p, p ∈ l → P p.2) → P (JObject l)) → ∀ v, P v.
Proof.
  intros H0 H1 H2 H3 H4 H5. fix IH 1. intros [|b|n|s|l|l]; [apply H0|apply H1|apply H2|apply H3|..].
  - apply H4. induction l as [|x l IHl].
    + intros v Hv. destruct (not_elem_of_nil _ Hv).
    + pose proof (IH x) as Hx. intros v Hv.
      apply elem_of_cons in Hv as [Hv|Hv]; [rewrite Hv; exact Hx|exact (IHl _ Hv)].
  - apply H5. induction l as [|[k x] l IHl].
    + intros v Hv. destruct (not_elem_of_nil _ Hv).
    + pose proof (IH x) as Hx. intros v Hv.
      apply elem_of_cons in Hv as [Hv|Hv]; [rewrite Hv; exact Hx|exact (IHl _ Hv)].
Qed.
