(* ===== verification/CircuitBreaker.v ===== *)
(** Circuit breaker (src/resilience/circuit.go): the three-state machine, the
    permits of the half-open state, [Execute], the per-service registry, and a
    step relation for callers that interleave at the mutex boundaries. *)

From stdpp Require Import base tactics list gmap strings relations.
From Stdlib Require Import ZArith Lia.
From S2P Require Import Prelude.

Local Open Scope Z_scope.

(** ** Data *)
Inductive CircuitState := CircuitClosed | CircuitOpen | CircuitHalfOpen.

#[export] Instance CircuitState_eq_dec : EqDecision CircuitState.
Proof. solve_decision. Defined.

Definition CircuitState_String (s : CircuitState) : string :=
  match s with
  | CircuitClosed => "closed"
  | CircuitOpen => "open"
  | CircuitHalfOpen => "half_open"
  end.

Definition ErrCircuitOpen : error :=
  ErrSentinel "resilience.ErrCircuitOpen" "circuit breaker is open".

(** [OnCircuitOpen] records whether a callback is installed; the calls it
    receives are the [CircuitOpened] events below. *)
Record CircuitBreakerConfig := {
  FailureThreshold : Z;
  SuccessThreshold : Z;
  Timeout : duration;
  HalfOpenMaxCalls : Z;
  OnCircuitOpen : bool
}.

Definition DefaultCircuitBreakerConfig : CircuitBreakerConfig := {|
  FailureThreshold := 5;
  SuccessThreshold := 2;
  Timeout := 30 * Second;
  HalfOpenMaxCalls := 1;
  OnCircuitOpen := false
|}.

(** Calls the breaker makes on its metrics sink and on the callback. *)
Inductive event :=
| StateChange (name : string) (from to : CircuitState)
| Rejection (name : string)
| CircuitOpened (name : string).

Record CircuitBreaker := {
  cb_name : string;
  cb_config : CircuitBreakerConfig;
  cb_metrics : bool;
  cb_state : CircuitState;
  failures : Z;
  successes : Z;
  lastFailure : time;
  halfOpenCalls : Z
}.

Definition NewCircuitBreaker (name : string) (config : CircuitBreakerConfig)
    (metrics : bool) : CircuitBreaker := {|
  cb_name := name; cb_config := config; cb_metrics := metrics;
  cb_state := CircuitClosed; failures := 0; successes := 0;
  lastFailure := time_zero; halfOpenCalls := 0
|}.

(** Field updates. *)
Definition set_halfOpenCalls (n : Z) (cb : CircuitBreaker) : CircuitBreaker := {|
  cb_name := cb_name cb; cb_config := cb_config cb; cb_metrics := cb_metrics cb;
  cb_state := cb_state cb; failures := failures cb; successes := successes cb;
  lastFailure := lastFailure cb; halfOpenCalls := n |}.
Definition set_successes (n : Z) (cb : CircuitBreaker) : CircuitBreaker := {|
  cb_name := cb_name cb; cb_config := cb_config cb; cb_metrics := cb_metrics cb;
  cb_state := cb_state cb; failures := failures cb; successes := n;
  lastFailure := lastFailure cb; halfOpenCalls := halfOpenCalls cb |}.
Definition set_failures (n : Z) (cb : CircuitBreaker) : CircuitBreaker := {|
  cb_name := cb_name cb; cb_config := cb_config cb; cb_metrics := cb_metrics cb;
  cb_state := cb_state cb; failures := n; successes := successes cb;
  lastFailure := lastFailure cb; halfOpenCalls := halfOpenCalls cb |}.
Definition set_config (c : CircuitBreakerConfig) (cb : CircuitBreaker) : CircuitBreaker := {|
  cb_name := cb_name cb; cb_config := c; cb_metrics := cb_metrics cb;
  cb_state := cb_state cb; failures := failures cb; successes := successes cb;
  lastFailure := lastFailure cb; halfOpenCalls := halfOpenCalls cb |}.

(** ** Operations: each runs under the breaker's mutex *)
Definition transition (cb : CircuitBreaker) (newState : CircuitState) :
    CircuitBreaker * list event :=
  ({| cb_name := cb_name cb; cb_config := cb_config cb; cb_metrics := cb_metrics cb;
      cb_state := newState; failures := 0; successes := 0;
      lastFailure := lastFailure cb; halfOpenCalls := 0 |},
   (if cb_metrics cb then [StateChange (cb_name cb) (cb_state cb) newState] else []) ++
   (if bool_decide (newState = CircuitOpen) && OnCircuitOpen (cb_config cb)
    then [CircuitOpened (cb_name cb)] else [])).

Definition canExecute (cb : CircuitBreaker) (now : time) :
    bool * CircuitBreaker * list event :=
  match cb_state cb with
  | CircuitClosed => (true, cb, [])
  | CircuitOpen =>
      if Timeout (cb_config cb) <=? time_sub now (lastFailure cb) then
        let '(cb', ev) := transition cb CircuitHalfOpen in
        (true, set_halfOpenCalls 1 cb', ev)
      else (false, cb, [])
  | CircuitHalfOpen =>
      if halfOpenCalls cb <? HalfOpenMaxCalls (cb_config cb) then
        (true, set_halfOpenCalls (add64 (halfOpenCalls cb) 1) cb, [])
      else (false, cb, [])
  end.

Definition recordFailure (cb : CircuitBreaker) (now : time) :
    CircuitBreaker * list event :=
  let cb1 := {|
    cb_name := cb_name cb; cb_config := cb_config cb; cb_metrics := cb_metrics cb;
    cb_state := cb_state cb; failures := add64 (failures cb) 1; successes := 0;
    lastFailure := now; halfOpenCalls := halfOpenCalls cb |} in
  match cb_state cb1 with
  | CircuitClosed =>
      if FailureThreshold (cb_config cb1) <=? failures cb1
      then transition cb1 CircuitOpen else (cb1, [])
  | CircuitHalfOpen => transition cb1 CircuitOpen
  | CircuitOpen => (cb1, [])
  end.

Definition recordSuccess (cb : CircuitBreaker) : CircuitBreaker * list event :=
  match cb_state cb with
  | CircuitClosed => (set_failures 0 cb, [])
  | CircuitHalfOpen =>
      let cb1 := set_successes (add64 (successes cb) 1) cb in
      if SuccessThreshold (cb_config cb1) <=? successes cb1
      then transition cb1 CircuitClosed
      else if 0 <? halfOpenCalls cb1
           then (set_halfOpenCalls (add64 (halfOpenCalls cb1) (-1)) cb1, [])
           else (cb1, [])
  | CircuitOpen => (cb, [])
  end.

Definition recordResult (cb : CircuitBreaker) (now : time) (err : option error) :
    CircuitBreaker * list event :=
  match err with
  | Some _ => recordFailure cb now
  | None => recordSuccess cb
  end.

Definition Reset (cb : CircuitBreaker) : CircuitBreaker * list event :=
  if bool_decide (cb_state cb ≠ CircuitClosed)
  then transition cb CircuitClosed else (cb, []).

(** [Execute] and [ExecuteWithResult].  The protected function receives the
    breaker as [canExecute] left it and returns its outcome, the clock when it
    ends, and the breaker as other callers have left it by then. *)
Definition ExecuteWithResult {T} (zero : T) (cb : CircuitBreaker) (now : time)
    (fn : CircuitBreaker → (T * option error) * time * CircuitBreaker) :
    (T * option error) * CircuitBreaker * list event :=
  match canExecute cb now with
  | (false, cb1, ev) =>
      ((zero, Some (ErrWrap (cb_name cb +:+ ": ") ErrCircuitOpen "")), cb1,
       ev ++ if cb_metrics cb then [Rejection (cb_name cb)] else [])
  | (true, cb1, ev) =>
      let '((result, err), now', cb2) := fn cb1 in
      let '(cb3, ev') := recordResult cb2 now' err in
      ((result, err), cb3, ev ++ ev')
  end.

Definition Execute (cb : CircuitBreaker) (now : time)
    (fn : CircuitBreaker → option error * time * CircuitBreaker) :
    option error * CircuitBreaker * list event :=
  match canExecute cb now with
  | (false, cb1, ev) =>
      (Some (ErrWrap (cb_name cb +:+ ": ") ErrCircuitOpen ""), cb1,
       ev ++ if cb_metrics cb then [Rejection (cb_name cb)] else [])
  | (true, cb1, ev) =>
      let '(err, now', cb2) := fn cb1 in
      let '(cb3, ev') := recordResult cb2 now' err in
      (err, cb3, ev ++ ev')
  end.

(** ** Registry of breakers, one per service *)
Record CircuitBreakerRegistry := {
  breakers : gmap string CircuitBreaker;
  reg_config : CircuitBreakerConfig;
  reg_metrics : bool
}.

Definition NewCircuitBreakerRegistry (metrics : bool)
    (config : list CircuitBreakerConfig) : CircuitBreakerRegistry := {|
  breakers := ∅;
  reg_config := match config with c :: _ => c | [] => DefaultCircuitBreakerConfig end;
  reg_metrics := metrics
|}.

Definition set_breakers (m : gmap string CircuitBreaker) (r : CircuitBreakerRegistry) :
    CircuitBreakerRegistry :=
  {| breakers := m; reg_config := reg_config r; reg_metrics := reg_metrics r |}.

Definition Registry_Get (r : CircuitBreakerRegistry) (service : string) :
    CircuitBreaker * CircuitBreakerRegistry :=
  match breakers r !! service with
  | Some cb => (cb, r)
  | None =>
      let cb := NewCircuitBreaker service (reg_config r) (reg_metrics r) in
      (cb, set_breakers (<[service := cb]> (breakers r)) r)
  end.

Definition Registry_Configure (r : CircuitBreakerRegistry) (service : string)
    (config : CircuitBreakerConfig) : CircuitBreakerRegistry :=
  match breakers r !! service with
  | Some cb => set_breakers (<[service := set_config config cb]> (breakers r)) r
  | None => set_breakers
      (<[service := NewCircuitBreaker service config (reg_metrics r)]> (breakers r)) r
  end.

Definition Registry_Status (r : CircuitBreakerRegistry) : gmap string string :=
  (λ cb, CircuitState_String (cb_state cb)) <$> breakers r.

(** ** Concurrent callers

    Between [canExecute] and [recordResult] a call runs without the lock, so
    the steps of different callers interleave.  [inflight] counts the admitted
    calls that have not recorded a result yet. *)
Record sys := { s_cb : CircuitBreaker; inflight : nat }.

Inductive step : sys → sys → Prop :=
| step_admit cb n now cb' ev :
    canExecute cb now = (true, cb', ev) →
    step {| s_cb := cb; inflight := n |} {| s_cb := cb'; inflight := S n |}
| step_reject cb n now cb' ev :
    canExecute cb now = (false, cb', ev) →
    step {| s_cb := cb; inflight := n |} {| s_cb := cb'; inflight := n |}
| step_done cb n now err cb' ev :
    recordResult cb now err = (cb', ev) →
    step {| s_cb := cb; inflight := S n |} {| s_cb := cb'; inflight := n |}.

(** The operator's [Reset] may also intervene. *)
Inductive step_or_reset : sys → sys → Prop :=
| sr_step s s' : step s s' → step_or_reset s s'
| sr_reset cb n cb' ev :
    Reset cb = (cb', ev) →
    step_or_reset {| s_cb := cb; inflight := n |} {| s_cb := cb'; inflight := n |}.

(** A protected function may also panic: the panic unwinds through [Execute],
    which then records no result. *)
Inductive step_or_panic : sys → sys → Prop :=
| sp_step s s' : step s s' → step_or_panic s s'
| sp_panic cb n :
    step_or_panic {| s_cb := cb; inflight := S n |} {| s_cb := cb; inflight := n |}.

Definition init_sys (name : string) (c : CircuitBreakerConfig) (m : bool) : sys :=
  {| s_cb := NewCircuitBreaker name c m; inflight := 0 |}.

(** The automaton the package documents: which moves between states exist. *)
Inductive edge : CircuitState → CircuitState → Prop :=
| edge_trip : edge CircuitClosed CircuitOpen
| edge_probe : edge CircuitOpen CircuitHalfOpen
| edge_close : edge CircuitHalfOpen CircuitClosed
| edge_reopen : edge CircuitHalfOpen CircuitOpen.

(** Well-formed breakers: permits are only held in the half-open state, never
    more than configured, and never more than the calls in flight. *)
Definition wf (s : sys) : Prop :=
  let cb := s_cb s in
  0 <= halfOpenCalls cb <= Z.of_nat (inflight s) ∧
  halfOpenCalls cb <= Z.max 1 (HalfOpenMaxCalls (cb_config cb)) ∧
  (cb_state cb ≠ CircuitHalfOpen → halfOpenCalls cb = 0) ∧
  (cb_state cb ≠ CircuitHalfOpen → successes cb = 0).

(** Recording a run of failures, oldest first. *)
Fixpoint record_failures (cb : CircuitBreaker) (ts : list time) : CircuitBreaker :=
  match ts with
  | [] => cb
  | t :: ts' => record_failures (recordFailure cb t).1 ts'
  end.

(** The state changes an operation reports to its metrics sink. *)
Definition reported (cb cb' : CircuitBreaker) (ev : list event) : Prop :=
  (cb_state cb' = cb_state cb ∧ ev = []) ∨
  (edge (cb_state cb) (cb_state cb') ∧ ev = (transition cb (cb_state cb')).2).

(** A configuration whose author left [HalfOpenMaxCalls] at its zero value. *)
Definition no_permits : CircuitBreakerConfig := {|
  FailureThreshold := 1; SuccessThreshold := 2; Timeout := Second;
  HalfOpenMaxCalls := 0; OnCircuitOpen := false |}.

(** ** Lemmas *)
Ltac cb_cases := unfold canExecute, recordResult, recordFailure, recordSuccess, Reset,
  transition, set_halfOpenCalls, set_successes, set_failures in *; simpl in *;
  repeat (case_match; simpl in *; simplify_eq/=); to_prop.

#[export] Hint Constructors edge : mcpkit.

Lemma canExecute_config cb now : cb_config (canExecute cb now).1.2 = cb_config cb.
Proof. cb_cases; done. Qed.

Lemma recordResult_config cb now err : cb_config (recordResult cb now err).1 = cb_config cb.
Proof. cb_cases; done. Qed.

Lemma step_config s s' : step_or_reset s s' → cb_config (s_cb s') = cb_config (s_cb s).
Proof.
  intros [? ? [cb n now cb' ev H|cb n now cb' ev H|cb n now err cb' ev H]|cb n cb' ev H]; simpl.
  - pose proof (canExecute_config cb now) as E. by rewrite H in E.
  - pose proof (canExecute_config cb now) as E. by rewrite H in E.
  - pose proof (recordResult_config cb now err) as E. by rewrite H in E.
  - cb_cases; done.
Qed.

Lemma canExecute_wf cb n now ok cb' ev :
  in64 (HalfOpenMaxCalls (cb_config cb)) →
  wf {| s_cb := cb; inflight := n |} → canExecute cb now = (ok, cb', ev) →
  wf {| s_cb := cb'; inflight := if ok then S n else n |}.
Proof.
  unfold wf, in64, min_int64, max_int64. intros Hc Hwf H; cbn in *.
  cb_cases; try rewrite add64_id in * by (unfold in64, min_int64, max_int64; lia);
    intuition (try done; try congruence; try lia).
Qed.

Lemma recordResult_wf cb n now err cb' ev :
  in64 (HalfOpenMaxCalls (cb_config cb)) →
  wf {| s_cb := cb; inflight := S n |} → recordResult cb now err = (cb', ev) →
  wf {| s_cb := cb'; inflight := n |}.
Proof.
  unfold wf, in64, min_int64, max_int64. intros Hc Hwf H; cbn in *.
  cb_cases; try rewrite add64_id in * by (unfold in64, min_int64, max_int64; lia);
    intuition (try done; try congruence; try lia).
Qed.

Lemma step_wf s s' :
  in64 (HalfOpenMaxCalls (cb_config (s_cb s))) → wf s → step_or_reset s s' → wf s'.
Proof.
  intros Hc Hwf Hsr. destruct Hsr as [? ? Hs|cb n cb' ev H].
  - revert Hc Hwf.
    destruct Hs as [cb n now cb' ev H|cb n now cb' ev H|cb n now err cb' ev H]; simpl; intros Hc Hwf.
    + exact (canExecute_wf cb n now true cb' ev Hc Hwf H).
    + exact (canExecute_wf cb n now false cb' ev Hc Hwf H).
    + exact (recordResult_wf cb n now err cb' ev Hc Hwf H).
  - unfold wf in *; simpl in *. cb_cases; intuition (try congruence; try lia).
Qed.

Lemma init_wf name c m : wf (init_sys name c m).
Proof. unfold wf; simpl; intuition lia. Qed.

Lemma reachable_wf name c m s :
  in64 (HalfOpenMaxCalls c) → rtc step_or_reset (init_sys name c m) s →
  wf s ∧ cb_config (s_cb s) = c.
Proof.
  intros Hc Hr. revert s Hr. apply rtc_ind_r.
  - split; [apply init_wf|done].
  - intros y z _ Hstep [Hwf Hcfg]. rewrite (step_config _ _ Hstep).
    split; [|done]. apply (step_wf y); [by rewrite Hcfg|done..].
Qed.

Lemma recordFailure_closed cb t :
  cb_state cb = CircuitClosed → add64 (failures cb) 1 < FailureThreshold (cb_config cb) →
  let cb' := (recordFailure cb t).1 in
  cb_state cb' = CircuitClosed ∧ failures cb' = add64 (failures cb) 1 ∧
  cb_config cb' = cb_config cb.
Proof. intros Hs Hlt. cb_cases; try done; lia. Qed.

Lemma record_failures_below cb ts :
  cb_state cb = CircuitClosed → in64 (FailureThreshold (cb_config cb)) →
  0 <= failures cb →
  failures cb + Z.of_nat (length ts) < FailureThreshold (cb_config cb) →
  let cb' := record_failures cb ts in
  cb_state cb' = CircuitClosed ∧ failures cb' = failures cb + Z.of_nat (length ts) ∧
  cb_config cb' = cb_config cb.
Proof.
  revert cb; induction ts as [|t ts IH]; intros cb Hs Hc Hp Hlt; simpl in *;
    [repeat split; lia || done|].
  assert (Hadd : add64 (failures cb) 1 = failures cb + 1)
    by (apply add64_id; unfold in64, min_int64, max_int64 in *; lia).
  destruct (recordFailure_closed cb t) as (Hs' & Hf' & Hc'); [done|lia|].
  destruct (IH (recordFailure cb t).1) as (? & ? & ?); rewrite ?Hc'; try done; try lia.
  repeat split; try congruence; lia.
Qed.

Lemma step_half_open_stuck s s' :
  wf s → inflight s = O → cb_state (s_cb s) = CircuitHalfOpen →
  HalfOpenMaxCalls (cb_config (s_cb s)) <= 0 → step s s' → s' = s.
Proof.
  unfold wf. intros Hwf Hi Hs Hm Hstep. destruct Hstep; simpl in *; subst.
  - cb_cases; lia.
  - cb_cases; done.
  - done.
Qed.

(** ** Properties *)

(** The interleaving of callers whose functions may panic, with the number of panics so far. *)
Inductive step_tally : sys * nat → sys * nat → Prop :=
| ta_step s s' p : step_or_reset s s' → step_tally (s, p) (s', p)
| ta_panic cb n p : step_tally ({| s_cb := cb; inflight := S n |}, p) ({| s_cb := cb; inflight := n |}, S p).
(** Permits outstanding belong to calls in flight or lost to a panic; successes stay below the threshold. *)
Definition tally_wf (x : sys * nat) : Prop :=
  let cb := s_cb x.1 in
  0 <= halfOpenCalls cb <= Z.of_nat (inflight x.1 + x.2) ∧ halfOpenCalls cb <= Z.max 1 (HalfOpenMaxCalls (cb_config cb)) ∧
  (cb_state cb ≠ CircuitHalfOpen → halfOpenCalls cb = 0) ∧
  0 <= successes cb ∧ (successes cb = 0 ∨ successes cb < SuccessThreshold (cb_config cb)).
Lemma tally_step x y : in64 (HalfOpenMaxCalls (cb_config (s_cb x.1))) → in64 (SuccessThreshold (cb_config (s_cb x.1))) →
  tally_wf x → step_tally x y → tally_wf y ∧ cb_config (s_cb y.1) = cb_config (s_cb x.1).
Proof.
  intros Hc Ht Hwf Hs. destruct Hs as [s s' p Hs|cb n p]; [|split; [|done]; unfold tally_wf in *; cbn in *; intuition lia].
  split; [|by apply step_config in Hs]. unfold in64, min_int64, max_int64 in *. unfold tally_wf in *; cbn [fst snd] in *.
  destruct Hs as [? ? [cb n now cb' ev H|cb n now cb' ev H|cb n now err cb' ev H]|cb n cb' ev H]; cbn in *;
    cb_cases; repeat rewrite add64_id in * by (unfold in64, min_int64, max_int64; intuition lia); intuition (try done; try congruence; try lia).
Qed.
Lemma tally_reachable name c m x : in64 (HalfOpenMaxCalls c) → in64 (SuccessThreshold c) → rtc step_tally (init_sys name c m, O) x →
  tally_wf x ∧ cb_config (s_cb x.1) = c.
Proof.
  intros Hc Ht Hr. revert x Hr. refine (rtc_ind_r (λ x, tally_wf x ∧ cb_config (s_cb x.1) = c) _ _ _).
  - split; [unfold tally_wf; cbn; intuition lia|done].
  - intros y z _ Hs [Hy Hcfg]. destruct (tally_step y z) as [Hz Hz']; rewrite ?Hcfg; try done. by rewrite Hz', Hcfg.
Qed.
(** One call after the other that succeeds. *)
Definition probe (now : time) (cb : CircuitBreaker) : CircuitBreaker :=
  let '(ok, cb', _) := canExecute cb now in if ok then (recordSuccess cb').1 else cb.
Lemma probe_half_open now cb : in64 (HalfOpenMaxCalls (cb_config cb)) → in64 (SuccessThreshold (cb_config cb)) → cb_state cb = CircuitHalfOpen →
  0 <= halfOpenCalls cb < HalfOpenMaxCalls (cb_config cb) → 0 <= successes cb → successes cb = 0 ∨ successes cb < SuccessThreshold (cb_config cb) →
  cb_state (probe now cb) = CircuitClosed ∨
  cb_state (probe now cb) = CircuitHalfOpen ∧ halfOpenCalls (probe now cb) = halfOpenCalls cb ∧ cb_config (probe now cb) = cb_config cb ∧
  successes (probe now cb) = successes cb + 1 ∧ successes cb + 1 < SuccessThreshold (cb_config cb).
Proof.
  unfold probe. intros Hc Ht Hs Hh H0 H1. unfold in64, min_int64, max_int64 in *.
  cb_cases; try rewrite !add64_id in * by (unfold in64, min_int64, max_int64; lia); try lia; try by left.
  rewrite (add64_id (halfOpenCalls cb) 1), (add64_id (successes cb) 1), add64_id by (unfold in64, min_int64, max_int64; lia).
  right. repeat split; lia.
Qed.
Lemma probes_close now k : ∀ cb, in64 (HalfOpenMaxCalls (cb_config cb)) → in64 (SuccessThreshold (cb_config cb)) → cb_state cb = CircuitHalfOpen →
  0 <= halfOpenCalls cb < HalfOpenMaxCalls (cb_config cb) → 0 <= successes cb → successes cb = 0 ∨ successes cb < SuccessThreshold (cb_config cb) →
  SuccessThreshold (cb_config cb) - successes cb <= Z.of_nat k → ∃ n, cb_state (Nat.iter n (probe now) cb) = CircuitClosed.
Proof.
  induction k as [|k IH]; intros cb Hc Ht Hs Hh H0 H1 Hk; destruct (probe_half_open now cb Hc Ht Hs Hh H0 H1) as [Hp|(Hp & E1 & E2 & E3 & E4)];
    try (by exists 1%nat); [lia|].
  destruct (IH (probe now cb)) as [n Hn]; rewrite ?E1, ?E2, ?E3; try done; [lia|by right|lia|].
  exists (S n). by rewrite Nat.iter_succ_r.
Qed.


(** Without a permit the state does latch: a breaker configured with
    [HalfOpenMaxCalls] left at zero and two successes required reaches a
    half-open state with no call in flight that no sequence of calls leaves. *)
Theorem half_open_latches_without_permits name m :
  ∃ s, rtc step (init_sys name no_permits m) s ∧
       cb_state (s_cb s) = CircuitHalfOpen ∧ inflight s = O ∧
       (∀ s', rtc step s s' → s' = s).
Proof.
  eexists {| s_cb := _; inflight := 0 |}. split; [|split; [|split; [done|]]].
  - eapply rtc_l; [eapply (step_admit _ _ 0); reflexivity|].
    eapply rtc_l; [eapply (step_done _ _ 0 (Some (Err "down"))); reflexivity|].
    eapply rtc_l; [eapply (step_admit _ _ Second); reflexivity|].
    eapply rtc_l; [eapply (step_done _ _ Second None); reflexivity|]. apply rtc_refl.
  - done.
  - intros s' Hr. remember ({| s_cb := _; inflight := 0 |}) as s0 eqn:Es.
    induction Hr as [|x y z Hxy Hyz IH]; [done|]. subst x.
    apply step_half_open_stuck in Hxy; [subst; by apply IH|..]; try done; try lia.
Qed.

Lemma exhausted_half_open_stuck s s' :
  inflight s = O → cb_state (s_cb s) = CircuitHalfOpen →
  HalfOpenMaxCalls (cb_config (s_cb s)) <= halfOpenCalls (s_cb s) → step_or_panic s s' → s' = s.
Proof.
  intros Hi Hs Hm Hstep. destruct Hstep as [s s' Hstep|cb n]; [|done].
  destruct Hstep as [cb n now cb' ev H|cb n now cb' ev H|cb n now err cb' ev H]; simpl in *; subst.
  - cb_cases; lia.
  - cb_cases; done.
  - done.
Qed.

(** A panicking probe latches the breaker, even with the default
    configuration: the permit it took is never returned, so the breaker reaches
    a half-open state with no call in flight that nothing but [Reset] leaves. *)
Theorem panic_leaks_permit name m :
  ∃ s, rtc step_or_panic (init_sys name DefaultCircuitBreakerConfig m) s ∧
       cb_state (s_cb s) = CircuitHalfOpen ∧ inflight s = O ∧
       (∀ s', rtc step_or_panic s s' → s' = s) ∧
       (∀ now, (canExecute (s_cb s) now).1.1 = false).
Proof.
  eexists {| s_cb := _; inflight := 0 |}. split; [|split; [|split; [done|split]]].
  - do 5 (eapply rtc_l; [eapply sp_step, (step_admit _ _ 0); reflexivity|];
          eapply rtc_l; [eapply sp_step, (step_done _ _ 0 (Some (Err "down"))); reflexivity|]).
    eapply rtc_l; [eapply sp_step, (step_admit _ _ (30 * Second)); reflexivity|].
    eapply rtc_l; [apply sp_panic|]. apply rtc_refl.
  - done.
  - intros s' Hr. remember ({| s_cb := _; inflight := 0 |}) as s0 eqn:Es.
    induction Hr as [|x y z Hxy Hyz IH]; [done|]. subst x.
    apply exhausted_half_open_stuck in Hxy; [subst; by apply IH|..]; done.
  - done.
Qed.

(** While the circuit is open and its timeout has not elapsed, [Execute]
    fails fast: it returns an error that [errors.Is] recognises as
    [ErrCircuitOpen], whatever the protected function is, and leaves the breaker
    as it was. *)
Theorem open_fails_fast cb now fn :
  cb_state cb = CircuitOpen →
  time_sub now (lastFailure cb) < Timeout (cb_config cb) →
  ∃ e, Execute cb now fn =
         (Some e, cb, if cb_metrics cb then [Rejection (cb_name cb)] else []) ∧
       errors_is e ErrCircuitOpen = true.
Proof.
  intros Hs Hlt. eexists. unfold Execute, canExecute. rewrite Hs.
  destruct (Z.leb_spec (Timeout (cb_config cb)) (time_sub now (lastFailure cb))); [lia|].
  split; [done|]. apply errors_is_wrap, errors_is_sentinel.
Qed.

(** A closed breaker trips on exactly the configured number of consecutive
    failures: fewer leave it closed and counted, one more opens it and stamps the
    time of the last failure. *)
Theorem trips_at_threshold name c m ts t :
  in64 (FailureThreshold c) → 1 <= FailureThreshold c →
  Z.of_nat (length ts) = FailureThreshold c - 1 →
  cb_state (record_failures (NewCircuitBreaker name c m) ts) = CircuitClosed ∧
  cb_state (record_failures (NewCircuitBreaker name c m) (ts ++ [t])) = CircuitOpen ∧
  lastFailure (record_failures (NewCircuitBreaker name c m) (ts ++ [t])) = t.
Proof.
  intros Hc H1 Hl.
  destruct (record_failures_below (NewCircuitBreaker name c m) ts) as (Hs & Hf & Hcf);
    simpl; try done; try lia.
  assert (Happ : ∀ cb k l, record_failures cb (k ++ l) = record_failures (record_failures cb k) l)
    by (intros cb k l; revert cb; induction k; simpl; auto).
  rewrite Happ. simpl. split; [done|].
  unfold recordFailure. simpl. rewrite Hs, Hcf, Hf, Hl. simpl.
  rewrite add64_id by (unfold in64, min_int64, max_int64 in *; lia).
  destruct (Z.leb_spec (FailureThreshold c) (0 + (FailureThreshold c - 1) + 1)); [by split|lia].
Qed.

(** Refinement of the documented automaton: every operation keeps the state
    and reports nothing, or follows one of its four edges (or [Reset]'s) and
    reports exactly that move. *)
Theorem operations_follow_automaton cb now err :
  (let '(_, cb', ev) := canExecute cb now in reported cb cb' ev) ∧
  (let '(cb', ev) := recordResult cb now err in reported cb cb' ev) ∧
  (let '(cb', ev) := Reset cb in
   cb_state cb' = CircuitClosed ∧
   ev = if bool_decide (cb_state cb = CircuitClosed) then []
        else (transition cb CircuitClosed).2).
Proof.
  unfold reported. split; [|split].
  - cb_cases; first [left; by split | right; by auto with mcpkit].
  - cb_cases; first [left; by split | right; by auto with mcpkit].
  - cb_cases; repeat case_bool_decide; try done; congruence.
Qed.

(** The registry creates a breaker once per service: a second [Get]
    returns the one the first created and changes nothing, other services keep
    theirs, and [Configure] replaces the configuration while the state survives. *)
Theorem registry_get_configure r s config :
  let '(cb, r') := Registry_Get r s in
  Registry_Get r' s = (cb, r') ∧
  (∀ s', s' ≠ s → breakers r' !! s' = breakers r !! s') ∧
  breakers (Registry_Configure r' s config) !! s = Some (set_config config cb).
Proof.
  unfold Registry_Get, Registry_Configure.
  destruct (breakers r !! s) as [cb|] eqn:E; simpl.
  - rewrite !E. simpl. by rewrite lookup_insert_eq.
  - rewrite !lookup_insert_eq. simpl. rewrite lookup_insert_eq. repeat split.
    intros s' Hne. by rewrite lookup_insert_ne.
Qed.

(** ** Witnesses *)
Definition one_permit : CircuitBreakerConfig := {|
  FailureThreshold := 1; SuccessThreshold := 2; Timeout := Second;
  HalfOpenMaxCalls := 1; OnCircuitOpen := false |}.

(** A breaker that tripped, probed once successfully, and waits for its second
    success. *)
Definition waiting_sys : sys := {| s_cb := {|
  cb_name := "svc"; cb_config := one_permit; cb_metrics := false; cb_state := CircuitHalfOpen;
  failures := 0; successes := 1; lastFailure := 0; halfOpenCalls := 0 |}; inflight := 0 |}.

Lemma waiting_sys_reachable : rtc step_tally (init_sys "svc" one_permit false, O) (waiting_sys, O).
Proof.
  eapply rtc_l; [apply ta_step, sr_step; eapply (step_admit _ _ 0); reflexivity|].
  eapply rtc_l; [apply ta_step, sr_step; eapply (step_done _ _ 0 (Some (Err "down"))); reflexivity|].
  eapply rtc_l; [apply ta_step, sr_step; eapply (step_admit _ _ Second); reflexivity|].
  eapply rtc_l; [apply ta_step, sr_step; eapply (step_done _ _ Second None); reflexivity|]. apply rtc_refl.
Qed.


Definition tripped : CircuitBreaker := {|
  cb_name := "svc"; cb_config := one_permit; cb_metrics := true; cb_state := CircuitOpen;
  failures := 0; successes := 0; lastFailure := 5; halfOpenCalls := 0 |}.

Lemma open_fails_fast_witness :
  ∃ e, Execute tripped 6 (λ cb, (None, 7, cb)) = (Some e, tripped, [Rejection "svc"]) ∧
       errors_is e ErrCircuitOpen = true.
Proof. apply (open_fails_fast tripped 6); reflexivity. Defined.

Lemma trips_at_threshold_witness :
  cb_state (record_failures (NewCircuitBreaker "svc" DefaultCircuitBreakerConfig false) [1; 2; 3; 4; 5])
    = CircuitOpen.
Proof.
  apply (trips_at_threshold "svc" DefaultCircuitBreakerConfig false [1; 2; 3; 4] 5).
  - split; vm_compute; discriminate.
  - simpl. lia.
  - reflexivity.
Defined.
