(* ===== verification/Cache.v ===== *)
(** Response caches (src/resilience/cache.go): the single-value TTL cache
    [CacheEntry], the keyed LRU/TTL cache [KeyedCache] refined to a list of
    most-recently-used pairs, the interleaving of concurrent [GetOrFetch] calls,
    and the canonical form behind [CacheKey]. *)

From stdpp Require Import base tactics list gmap strings relations sorting.
From Stdlib Require Import ZArith Lia.
From S2P Require Import Prelude.

Local Open Scope Z_scope.

(** ** [CacheEntry]: one value, one TTL *)
Section CacheEntry.
Context {T : Type}.

(** The cached pair; [ce_fetched] says whether it is meaningful. *)
Record CacheEntry := {
  ce_value : option T;
  ce_err : option error;
  ce_fetched : bool;
  ce_fetchAt : time;
  ce_ttl : duration
}.

Definition NewCache (ttl : duration) : CacheEntry := {|
  ce_value := None; ce_err := None; ce_fetched := false;
  ce_fetchAt := time_zero; ce_ttl := ttl |}.

Definition ce_fresh (e : CacheEntry) (now : time) : bool :=
  ce_fetched e && (time_sub now (ce_fetchAt e) <? ce_ttl e).

(** The two looks at the cache happen at [now1] (read lock) and, holding the
    fetch mutex, at [now2]; [others] is what concurrent callers did while this
    one waited for the mutex; the fetch ends at [now3]. *)
Definition CacheEntry_GetOrFetch (e : CacheEntry) (now1 : time)
    (others : CacheEntry → CacheEntry) (now2 : time)
    (fetchFn : option T * option error) (now3 : time) :
    (option T * option error) * CacheEntry * bool :=
  if ce_fresh e now1 then ((ce_value e, ce_err e), e, false) else
  let e2 := others e in
  if ce_fresh e2 now2 then ((ce_value e2, ce_err e2), e2, false) else
  let '(value, err) := fetchFn in
  ((value, err),
   {| ce_value := value; ce_err := err; ce_fetched := true;
      ce_fetchAt := now3; ce_ttl := ce_ttl e2 |}, true).

Definition CacheEntry_Get (e : CacheEntry) (now : time) : option T * bool :=
  if ce_fresh e now then (ce_value e, true) else (None, false).

Definition CacheEntry_Invalidate (e : CacheEntry) : CacheEntry := {|
  ce_value := ce_value e; ce_err := ce_err e; ce_fetched := false;
  ce_fetchAt := ce_fetchAt e; ce_ttl := ce_ttl e |}.

Definition CacheEntry_Set (e : CacheEntry) (value : T) (now : time) : CacheEntry := {|
  ce_value := Some value; ce_err := None; ce_fetched := true;
  ce_fetchAt := now; ce_ttl := ce_ttl e |}.
End CacheEntry.
Arguments CacheEntry : clear implicits.

(** ** [KeyedCache] *)
Section KeyedCache.
Context {T : Type}.

Record keyedCacheEntry := {
  e_value : T;
  e_err : option error;
  e_fetchAt : time
}.

(** [order] lists the keys of the LRU list from front (most recent) to back;
    an entry's list element is the position of its key.  [fetching] maps a key
    to the identity of its fetch mutex; [next_lock] is the next fresh identity. *)
Record KeyedCache := {
  ttl : duration;
  maxSize : Z;
  entries : gmap string keyedCacheEntry;
  order : list string;
  fetching : gmap string nat;
  next_lock : nat
}.

Definition NewKeyedCache (t : duration) (n : Z) : KeyedCache := {|
  ttl := t; maxSize := if n <=? 0 then 1 else n;
  entries := ∅; order := []; fetching := ∅; next_lock := 0 |}.

Definition set_state (en : gmap string keyedCacheEntry) (o : list string)
    (f : gmap string nat) (c : KeyedCache) : KeyedCache :=
  {| ttl := ttl c; maxSize := maxSize c; entries := en; order := o;
     fetching := f; next_lock := next_lock c |}.

(** [order.MoveToFront] and [order.Remove] for the element holding [k]. *)
Definition list_remove (k : string) (l : list string) : list string :=
  filter (λ x, x ≠ k) l.
Definition MoveToFront (k : string) (l : list string) : list string :=
  k :: list_remove k l.

Definition cache_get (c : KeyedCache) (now : time) (key : string) :
    option keyedCacheEntry * KeyedCache :=
  match entries c !! key with
  | None => (None, c)
  | Some e =>
      if ttl c <=? time_sub now (e_fetchAt e) then (None, c)
      else (Some e, set_state (entries c) (MoveToFront key (order c)) (fetching c) c)
  end.

(** The eviction loop of [set]; [fuel] bounds its iterations, one list element
    each. *)
Fixpoint evict (fuel : nat) (c : KeyedCache) : KeyedCache :=
  match fuel with
  | O => c
  | S fuel' =>
      if maxSize c <=? Z.of_nat (size (entries c)) then
        match last (order c) with
        | None => c
        | Some k =>
            evict fuel' (set_state (delete k (entries c)) (removelast (order c))
                           (delete k (fetching c)) c)
        end
      else c
  end.

Definition cache_set (c : KeyedCache) (now : time) (key : string) (value : T)
    (err : option error) : KeyedCache :=
  let e := {| e_value := value; e_err := err; e_fetchAt := now |} in
  match entries c !! key with
  | Some _ => set_state (<[key := e]> (entries c)) (MoveToFront key (order c)) (fetching c) c
  | None =>
      let c' := evict (S (length (order c))) c in
      set_state (<[key := e]> (entries c')) (key :: order c') (fetching c') c'
  end.

Definition lockFor (c : KeyedCache) (key : string) : nat * KeyedCache :=
  match fetching c !! key with
  | Some l => (l, c)
  | None =>
      (next_lock c,
       {| ttl := ttl c; maxSize := maxSize c; entries := entries c; order := order c;
          fetching := <[key := next_lock c]> (fetching c); next_lock := S (next_lock c) |})
  end.

Definition Cache_Get (c : KeyedCache) (now : time) (key : string) :
    option T * KeyedCache :=
  let '(r, c') := cache_get c now key in (e_value <$> r, c').

Definition Cache_Set (c : KeyedCache) (now : time) (key : string) (value : T) : KeyedCache :=
  cache_set c now key value None.

Definition Cache_Len (c : KeyedCache) : nat := size (entries c).

Definition Cache_Invalidate (c : KeyedCache) (key : string) : KeyedCache :=
  match entries c !! key with
  | None => c
  | Some _ => set_state (delete key (entries c)) (list_remove key (order c)) (fetching c) c
  end.

(** One [GetOrFetch] with no other caller in between; the boolean says whether
    the fetch function ran. *)
Definition Cache_GetOrFetch (c : KeyedCache) (now1 now2 now3 : time) (key : string)
    (fetchFn : T * option error) : (T * option error) * KeyedCache * bool :=
  match cache_get c now1 key with
  | (Some e, c1) => ((e_value e, e_err e), c1, false)
  | (None, c1) =>
      let '(_, c2) := lockFor c1 key in
      match cache_get c2 now2 key with
      | (Some e, c3) => ((e_value e, e_err e), c3, false)
      | (None, c3) => (fetchFn, cache_set c3 now3 key fetchFn.1 fetchFn.2, true)
      end
  end.

(** *** Concurrent [GetOrFetch] calls

    The steps of a caller between two mutex operations. *)
Inductive caller :=
| Looking (key : string)             (* before the first [c.get] *)
| Waiting (key : string) (lock : nat)  (* has its key lock, not acquired *)
| Holding (key : string) (lock : nat)  (* acquired; before the second [c.get] *)
| Fetching (key : string) (lock : nat) (* running [fetchFn] *)
| Returned.

Record csys := { cs_cache : KeyedCache; cs_callers : gmap nat caller }.

Definition lock_held (l : nat) (cs : gmap nat caller) : Prop :=
  ∃ i k, cs !! i = Some (Holding k l) ∨ cs !! i = Some (Fetching k l).

Inductive cstep : csys → csys → Prop :=
| cs_hit c cs i k now e c' :
    cs !! i = Some (Looking k) → cache_get c now k = (Some e, c') →
    cstep {| cs_cache := c; cs_callers := cs |}
          {| cs_cache := c'; cs_callers := <[i := Returned]> cs |}
| cs_miss c cs i k now c1 l c2 :
    cs !! i = Some (Looking k) → cache_get c now k = (None, c1) →
    lockFor c1 k = (l, c2) →
    cstep {| cs_cache := c; cs_callers := cs |}
          {| cs_cache := c2; cs_callers := <[i := Waiting k l]> cs |}
| cs_acquire c cs i k l :
    cs !! i = Some (Waiting k l) → ¬ lock_held l cs →
    cstep {| cs_cache := c; cs_callers := cs |}
          {| cs_cache := c; cs_callers := <[i := Holding k l]> cs |}
| cs_hit2 c cs i k l now e c' :
    cs !! i = Some (Holding k l) → cache_get c now k = (Some e, c') →
    cstep {| cs_cache := c; cs_callers := cs |}
          {| cs_cache := c'; cs_callers := <[i := Returned]> cs |}
| cs_miss2 c cs i k l now c' :
    cs !! i = Some (Holding k l) → cache_get c now k = (None, c') →
    cstep {| cs_cache := c; cs_callers := cs |}
          {| cs_cache := c'; cs_callers := <[i := Fetching k l]> cs |}
| cs_store c cs i k l now v err :
    cs !! i = Some (Fetching k l) →
    cstep {| cs_cache := c; cs_callers := cs |}
          {| cs_cache := cache_set c now k v err; cs_callers := <[i := Returned]> cs |}.

(** *** Invariant and abstraction *)
(** Keys and list elements correspond. *)
Definition keys_wf (c : KeyedCache) : Prop :=
  NoDup (order c) ∧ (∀ k, k ∈ order c ↔ is_Some (entries c !! k)).

Definition cache_wf (c : KeyedCache) : Prop :=
  NoDup (order c) ∧ (∀ k, k ∈ order c ↔ is_Some (entries c !! k)) ∧
  1 <= maxSize c ∧ Z.of_nat (size (entries c)) <= maxSize c.

(** The cache as its pairs, most recently used first. *)
Definition lru (c : KeyedCache) : list (string * keyedCacheEntry) :=
  omap (λ k, pair k <$> entries c !! k) (order c).

(** Inserting into an abstract LRU list of capacity [n]. *)
Definition lru_insert (n : nat) (k : string) (e : keyedCacheEntry)
    (l : list (string * keyedCacheEntry)) : list (string * keyedCacheEntry) :=
  take n ((k, e) :: filter (λ p, p.1 ≠ k) l).
End KeyedCache.
Arguments keyedCacheEntry : clear implicits.
Arguments KeyedCache : clear implicits.
Arguments csys : clear implicits.

(** ** Canonical arguments and cache keys *)
(** What [canonicalizeJSONValue] returns: scalars as they were, slices, and the
    [canonicalKV] pairs. *)
Inductive canonical :=
| CScalar (v : json)
| CSlice (l : list canonical)
| CKV (k : string) (v : canonical).

#[export] Instance canonical_eq_dec : EqDecision canonical.
Proof.
  refine (fix go v w := let _ : EqDecision canonical := @go in
    match v, w with
    | CScalar x, CScalar y => cast_if (decide (x = y))
    | CSlice l, CSlice l' => cast_if (decide (l = l'))
    | CKV k x, CKV k' y => cast_if_and (decide (k = k')) (decide (x = y))
    | _, _ => right _
    end); abstract congruence.
Defined.

Definition key_le (p q : string * canonical) : Prop := String.le p.1 q.1.
#[export] Instance key_le_dec : RelDecision key_le.
Proof. intros p q. unfold key_le. apply _. Defined.

Definition kv_slice (l : list (string * canonical)) : canonical :=
  CSlice (map (λ p, CKV p.1 p.2) (merge_sort key_le l)).

Fixpoint canonicalizeJSONValue (v : json) : canonical :=
  match v with
  | JObject l => kv_slice (map (λ p, (p.1, canonicalizeJSONValue p.2)) l)
  | JArray l => CSlice (map canonicalizeJSONValue l)
  | _ => CScalar v
  end.

Section CacheKey.
(** [json.Marshal] of a canonical value, and SHA-256 in hexadecimal. *)
Variable marshal : canonical → string.
Variable sha256_hex : string → string.

Definition CacheKey (toolName : string) (args : list (string * json)) : string :=
  toolName +:+ ":" +:+ sha256_hex (marshal (canonicalizeJSONValue (JObject args))).
End CacheKey.

(** Objects whose keys are distinct, at every depth: the values a Go
    [map[string]any] can hold. *)
Inductive json_ok : json → Prop :=
| ok_null : json_ok JNull
| ok_bool b : json_ok (JBool b)
| ok_number n : json_ok (JNumber n)
| ok_string s : json_ok (JString s)
| ok_array l : (∀ v, v ∈ l → json_ok v) → json_ok (JArray l)
| ok_object l : NoDup l.*1 → (∀ p, p ∈ l → json_ok p.2) → json_ok (JObject l).

(** What the canonical form forgets, at every depth: the order of object keys,
    and the difference between an empty object and an empty array (both become
    an empty slice). *)
Inductive json_equiv : json → json → Prop :=
| je_null : json_equiv JNull JNull
| je_bool b : json_equiv (JBool b) (JBool b)
| je_number n : json_equiv (JNumber n) (JNumber n)
| je_string s : json_equiv (JString s) (JString s)
| je_array l l' : Forall2 json_equiv l l' → json_equiv (JArray l) (JArray l')
| je_object l m l' :
    Forall2 (λ p q, p.1 = q.1 ∧ json_equiv p.2 q.2) l m → m ≡ₚ l' →
    json_equiv (JObject l) (JObject l')
| je_object_array : json_equiv (JObject []) (JArray [])
| je_array_object : json_equiv (JArray []) (JObject []).

(** ** The keyed cache as an abstract machine

    The client-visible operations, and the same operations on a list of pairs
    kept most recently used first. *)
Section Machine.
Context {T : Type}.

Inductive cop :=
| OGet (now : time) (key : string)
| OSet (now : time) (key : string) (value : T)
| OInvalidate (key : string)
| OFetch (now1 now2 now3 : time) (key : string) (res : T * option error).

Inductive cout :=
| RGet (v : option T)
| RFetch (v : T) (err : option error) (fetched : bool)
| RUnit.

Definition run_op (c : KeyedCache T) (o : cop) : cout * KeyedCache T :=
  match o with
  | OGet now k => let '(v, c') := Cache_Get c now k in (RGet v, c')
  | OSet now k v => (RUnit, Cache_Set c now k v)
  | OInvalidate k => (RUnit, Cache_Invalidate c k)
  | OFetch n1 n2 n3 k res =>
      let '((v, err), c', b) := Cache_GetOrFetch c n1 n2 n3 k res in (RFetch v err b, c')
  end.

Definition pairs := list (string * keyedCacheEntry T).

Fixpoint assoc (k : string) (l : pairs) : option (keyedCacheEntry T) :=
  match l with
  | [] => None
  | (k', e) :: l' => if decide (k = k') then Some e else assoc k l'
  end.

Definition spec_get (n : nat) (t : duration) (l : pairs) (now : time) (k : string) :
    option (keyedCacheEntry T) * pairs :=
  match assoc k l with
  | Some e => if t <=? time_sub now (e_fetchAt e) then (None, l)
              else (Some e, lru_insert n k e l)
  | None => (None, l)
  end.

Definition spec_op (n : nat) (t : duration) (l : pairs) (o : cop) : cout * pairs :=
  match o with
  | OGet now k => let '(e, l') := spec_get n t l now k in (RGet (e_value <$> e), l')
  | OSet now k v =>
      (RUnit, lru_insert n k {| e_value := v; e_err := None; e_fetchAt := now |} l)
  | OInvalidate k => (RUnit, filter (λ p, p.1 ≠ k) l)
  | OFetch n1 n2 n3 k (v, err) =>
      match spec_get n t l n1 k with
      | (Some e, l') => (RFetch (e_value e) (e_err e) false, l')
      | (None, l1) =>
          match spec_get n t l1 n2 k with
          | (Some e, l') => (RFetch (e_value e) (e_err e) false, l')
          | (None, l2) =>
              (RFetch v err true,
               lru_insert n k {| e_value := v; e_err := err; e_fetchAt := n3 |} l2)
          end
      end
  end.

Fixpoint run_ops {S} (f : S → cop → cout * S) (s : S) (os : list cop) : list cout * S :=
  match os with
  | [] => ([], s)
  | o :: os' => let '(r, s1) := f s o in
                let '(rs, s2) := run_ops f s1 os' in (r :: rs, s2)
  end.
End Machine.
Arguments cop : clear implicits.
Arguments cout : clear implicits.

(** Callers of the concurrent system, before any of them has looked. *)
Definition looking (ks : gmap nat string) : gmap nat caller := Looking <$> ks.

Definition caller_key (p : caller) : option (string * nat) :=
  match p with
  | Waiting k l | Holding k l | Fetching k l => Some (k, l)
  | Looking _ | Returned => None
  end.
Definition caller_names (p : caller) : option string :=
  match p with
  | Looking k | Waiting k _ | Holding k _ | Fetching k _ => Some k
  | Returned => None
  end.
Definition caller_holds (p : caller) (l : nat) : Prop :=
  match p with Holding _ l' | Fetching _ l' => l' = l | _ => False end.

(** ** Lemmas *)
Section CacheLemmas.
Context {T : Type}.
Implicit Types c : KeyedCache T.

Lemma elem_of_list_remove k x l : x ∈ list_remove k l ↔ x ≠ k ∧ x ∈ l.
Proof. unfold list_remove. by rewrite list_elem_of_filter. Qed.

Lemma list_remove_notin k l : k ∉ l → list_remove k l = l.
Proof.
  unfold list_remove. induction l as [|x l IH]; intros H; [done|].
  rewrite filter_cons_True by set_solver. rewrite IH by set_solver. done.
Qed.

Lemma NoDup_MoveToFront k l : NoDup l → NoDup (MoveToFront k l).
Proof.
  intros H. apply NoDup_cons. split; [rewrite elem_of_list_remove; naive_solver|].
  by apply NoDup_filter.
Qed.

Lemma keys_wf_size c : keys_wf c → size (entries c) = length (order c).
Proof.
  intros [Hnd Hk]. rewrite <- size_dom.
  replace (dom (entries c)) with (list_to_set (C := gset string) (order c)).
  - by apply size_list_to_set.
  - apply set_eq. intros k. rewrite elem_of_list_to_set, elem_of_dom. apply Hk.
Qed.

Lemma lru_keys c : keys_wf c → (lru c).*1 = order c.
Proof.
  intros [_ Hk]. unfold lru.
  assert (H : ∀ k, k ∈ order c → is_Some (entries c !! k)) by naive_solver.
  clear Hk. revert H. induction (order c) as [|k l IH]; intros H; [done|]. csimpl.
  destruct (H k) as [e He]; [apply elem_of_cons; by left|]. rewrite He. csimpl. f_equal.
  apply IH. intros x Hx. apply H, elem_of_cons. by right.
Qed.

Lemma length_lru c : keys_wf c → length (lru c) = length (order c).
Proof. intros H. rewrite <- (lru_keys c H). by rewrite length_map. Qed.

Lemma omap_list_remove k l (m m' : gmap string (keyedCacheEntry T)) :
  (∀ x, x ≠ k → m' !! x = m !! x) →
  omap (λ x, pair x <$> m' !! x) (list_remove k l) =
  filter (λ p, p.1 ≠ k) (omap (λ x, pair x <$> m !! x) l).
Proof.
  intros Hm. unfold list_remove. induction l as [|x l IH]; [done|]. csimpl.
  destruct (decide (x ≠ k)) as [Hx|Hx].
  - rewrite filter_cons_True by done. csimpl. rewrite Hm by done.
    destruct (m !! x); csimpl; [|done]. rewrite filter_cons_True by done. by rewrite IH.
  - rewrite filter_cons_False by done. rewrite IH.
    destruct (m !! x); csimpl; [|done]. by rewrite filter_cons_False.
Qed.

Lemma keys_wf_move c k e :
  keys_wf c → is_Some (entries c !! k) →
  keys_wf (set_state (<[k := e]> (entries c)) (MoveToFront k (order c)) (fetching c) c).
Proof.
  intros [Hnd Hk] Hs. split; simpl; [by apply NoDup_MoveToFront|].
  intros x. unfold MoveToFront. rewrite elem_of_cons, elem_of_list_remove, lookup_insert_is_Some, Hk.
  destruct (decide (x = k)); naive_solver.
Qed.

Lemma lru_move c k e f :
  lru (set_state (<[k := e]> (entries c)) (MoveToFront k (order c)) f c) =
  (k, e) :: filter (λ p, p.1 ≠ k) (lru c).
Proof.
  unfold lru, MoveToFront; csimpl. rewrite lookup_insert_eq. csimpl. f_equal.
  apply omap_list_remove. intros x Hx. by rewrite lookup_insert_ne.
Qed.

Lemma lru_filter_absent c k :
  keys_wf c → k ∉ order c → filter (λ p, p.1 ≠ k) (lru c) = lru c.
Proof.
  intros Hwf Hk. apply filter_all. intros [x e] Hx. simpl. intros ->.
  apply Hk. rewrite <- (lru_keys c Hwf). apply list_elem_of_fmap. by exists (k, e).
Qed.

Lemma evict_one c k :
  keys_wf c → last (order c) = Some k →
  let c' := set_state (delete k (entries c)) (removelast (order c)) (delete k (fetching c)) c in
  keys_wf c' ∧ lru c' = take (length (order c) - 1) (lru c).
Proof.
  intros [Hnd Hk] Hl. apply last_removelast in Hl as Ho. simpl.
  remember (removelast (order c)) as o'. clear Heqo'.
  assert (Hnotin : k ∉ o').
  { rewrite Ho in Hnd. apply NoDup_app in Hnd as (_ & H & _). intros Hx. by apply (H k Hx), list_elem_of_singleton. }
  split; [split; simpl|].
  - rewrite Ho in Hnd. by apply NoDup_app in Hnd as [? _].
  - intros x. rewrite lookup_delete_is_Some, <- Hk, Ho, elem_of_app, list_elem_of_singleton.
    split; [intros Hx; split; [congruence|by left]|naive_solver].
  - transitivity (omap (λ x, pair x <$> entries c !! x) o').
    + unfold lru; simpl. apply omap_ext_in. intros x Hx.
      rewrite lookup_delete_ne; [done|congruence].
    + unfold lru. rewrite Ho at 2. rewrite omap_app.
      replace (length (order c) - 1)%nat with (length o') by (rewrite Ho, length_app; simpl; lia).
      assert (length (omap (λ x, pair x <$> entries c !! x) o') = length o') as Hlen.
      { assert (Ha : ∀ x, x ∈ o' → is_Some (entries c !! x)).
        { intros x Hx. apply Hk. rewrite Ho. set_solver. }
        clear -Ha. induction o' as [|x l IH]; [done|]. csimpl.
        destruct (Ha x) as [e He]; [apply elem_of_cons; by left|]. rewrite He. csimpl. f_equal. apply IH. intros y Hy. apply Ha, elem_of_cons. by right. }
      by rewrite take_app_length' by done.
Qed.

Lemma evict_spec fuel c :
  keys_wf c → 1 <= maxSize c → (length (order c) < fuel)%nat →
  keys_wf (evict fuel c) ∧ maxSize (evict fuel c) = maxSize c ∧
  (∀ x, x ∈ order (evict fuel c) → x ∈ order c) ∧
  Z.of_nat (length (order (evict fuel c))) < maxSize c ∧
  lru (evict fuel c) = take (Z.to_nat (maxSize c) - 1) (lru c).
Proof.
  revert c; induction fuel as [|fuel IH]; intros c Hwf Hm Hf; [lia|]. simpl.
  rewrite (keys_wf_size c Hwf).
  destruct (Z.leb_spec (maxSize c) (Z.of_nat (length (order c)))) as [Hle|Hlt].
  - destruct (last (order c)) as [k|] eqn:Hl.
    + destruct (evict_one c k Hwf Hl) as [Hwf' Hlru'].
      assert (Hlen : length (removelast (order c)) = (length (order c) - 1)%nat).
      { apply last_removelast in Hl. rewrite Hl at 2. rewrite length_app. simpl. lia. }
      match goal with |- keys_wf (evict _ ?c') ∧ _ => destruct (IH c') as (? & Hms & Hin & Hsz & Hl') end;
        [done|done|simpl; lia|].
      split; [done|]. split; [done|]. split; [|split; [done|]].
      * intros x Hx. apply Hin in Hx. simpl in Hx. apply last_removelast in Hl. rewrite Hl. set_solver.
      * rewrite Hl', Hlru', take_take. f_equal. simpl. lia.
    + apply last_None in Hl. rewrite Hl in Hle. simpl in Hle. lia.
  - split; [done|]. split; [done|]. split; [done|]. split; [done|].
    rewrite take_ge; [done|]. rewrite length_lru by done. lia.
Qed.

Lemma cache_wf_keys c : cache_wf c → keys_wf c.
Proof. unfold cache_wf, keys_wf. naive_solver. Qed.

Lemma cache_wf_intro c :
  keys_wf c → 1 <= maxSize c → Z.of_nat (length (order c)) <= maxSize c → cache_wf c.
Proof. intros H Hm Hl. pose proof (keys_wf_size c H). destruct H. unfold cache_wf. repeat split; try done; try naive_solver; lia. Qed.

Lemma cache_wf_length c : cache_wf c → Z.of_nat (length (order c)) <= maxSize c.
Proof. intros H. rewrite <- keys_wf_size by by apply cache_wf_keys. apply H. Qed.

Lemma length_list_remove k l : NoDup l → k ∈ l → S (length (list_remove k l)) = length l.
Proof.
  unfold list_remove. induction l as [|x l IH]; intros Hnd Hk; [set_solver|].
  apply NoDup_cons in Hnd as [Hx Hnd]. destruct (decide (x = k)) as [->|Hne].
  - rewrite filter_cons_False by naive_solver. simpl. f_equal.
    fold (list_remove k l). by rewrite list_remove_notin.
  - rewrite filter_cons_True by done. simpl. f_equal. apply IH; set_solver.
Qed.

Lemma cache_set_lru c now k v err :
  cache_wf c →
  cache_wf (cache_set c now k v err) ∧
  lru (cache_set c now k v err) =
    lru_insert (Z.to_nat (maxSize c)) k
      {| e_value := v; e_err := err; e_fetchAt := now |} (lru c).
Proof.
  intros Hwf. pose proof (cache_wf_keys c Hwf) as Hk. pose proof (cache_wf_length c Hwf) as Hlen.
  destruct Hwf as (_ & _ & Hm & _). unfold cache_set. destruct (entries c !! k) as [e0|] eqn:He.
  - set (e := {| e_value := v; e_err := err; e_fetchAt := now |}).
    pose proof (keys_wf_move c k e Hk ltac:(by rewrite He)) as Hk'.
    assert (Hin : k ∈ order c) by (apply Hk; by rewrite He).
    assert (Hl' : length (MoveToFront k (order c)) = length (order c)).
    { unfold MoveToFront. simpl. apply length_list_remove; [apply Hk|done]. }
    split; [apply cache_wf_intro; cbn [order set_state maxSize]; [done|done|rewrite Hl'; done]|].
    rewrite lru_move. unfold lru_insert. rewrite take_ge; [done|].
    rewrite <- (lru_move c k e (fetching c)), length_lru by done. cbn [order set_state]. rewrite Hl'. lia.
  - set (e := {| e_value := v; e_err := err; e_fetchAt := now |}).
    assert (Hnotin : k ∉ order c).
    { intros Hin. apply Hk in Hin. rewrite He in Hin. by destruct Hin. }
    destruct (evict_spec (S (length (order c))) c Hk Hm ltac:(lia)) as (Hke & Hme & Hin & Hsz & Hl).
    set (c' := evict (S (length (order c))) c) in *.
    assert (Hnotin' : k ∉ order c') by naive_solver.
    split.
    + apply cache_wf_intro; simpl; [|lia|lia]. destruct Hke as [Hnd Hks]. split; simpl.
      * apply NoDup_cons. done.
      * intros x. rewrite elem_of_cons, lookup_insert_is_Some, Hks. destruct (decide (x = k)); naive_solver.
    + unfold lru_insert. rewrite lru_filter_absent by done.
      replace (Z.to_nat (maxSize c)) with (S (Z.to_nat (maxSize c) - 1)) by lia.
      rewrite firstn_cons, <- Hl. unfold lru; csimpl. rewrite lookup_insert_eq. csimpl. f_equal.
      apply omap_ext_in. intros x Hx. rewrite lookup_insert_ne; [done|congruence].
Qed.

Lemma cache_get_lru c now k :
  cache_wf c →
  cache_wf (cache_get c now k).2 ∧
  match (cache_get c now k).1 with
  | Some e => (k, e) ∈ lru c ∧ time_sub now (e_fetchAt e) < ttl c ∧
              lru (cache_get c now k).2 = lru_insert (Z.to_nat (maxSize c)) k e (lru c)
  | None => (cache_get c now k).2 = c ∧
            ∀ e, (k, e) ∈ lru c → ttl c <= time_sub now (e_fetchAt e)
  end.
Proof.
  intros Hwf. pose proof (cache_wf_keys c Hwf) as Hk.
  assert (Hlru : ∀ e, (k, e) ∈ lru c ↔ entries c !! k = Some e).
  { intros e. unfold lru. rewrite list_elem_of_omap. split.
    - intros (x & Hx & Hf). apply fmap_Some in Hf as (e' & He' & [= -> ->]). done.
    - intros He. exists k. rewrite He. split; [|done]. apply Hk. by rewrite He. }
  unfold cache_get. destruct (entries c !! k) as [e|] eqn:He; simpl.
  - destruct (Z.leb_spec (ttl c) (time_sub now (e_fetchAt e))); simpl.
    + split; [done|]. split; [done|]. intros e' He'. apply Hlru in He'. by simplify_eq.
    + pose proof (keys_wf_move c k e Hk ltac:(by rewrite He)) as Hk'.
      pose proof (lru_move c k e (fetching c)) as Hl.
      rewrite (insert_id (entries c)) in Hk', Hl by done.
      assert (Hl' : length (MoveToFront k (order c)) = length (order c)).
      { unfold MoveToFront. simpl. apply length_list_remove; [apply Hk|apply Hk; by rewrite He]. }
      pose proof (cache_wf_length c Hwf). destruct Hwf as (_ & _ & Hm & _).
      split; [apply cache_wf_intro; cbn [order set_state maxSize]; [done|done|rewrite Hl'; done]|].
      split; [by apply Hlru|]. split; [done|]. rewrite Hl. unfold lru_insert.
      rewrite take_ge; [done|]. rewrite <- Hl, length_lru by done. cbn [order set_state]. rewrite Hl'. lia.
  - split; [done|]. split; [done|]. intros e He'. by apply Hlru in He'.
Qed.

Lemma lockFor_lru c k : lru (lockFor c k).2 = lru c ∧ (cache_wf c → cache_wf (lockFor c k).2).
Proof. unfold lockFor. destruct (fetching c !! k); done. Qed.

Lemma Invalidate_lru c k :
  cache_wf c →
  cache_wf (Cache_Invalidate c k) ∧
  lru (Cache_Invalidate c k) = filter (λ p, p.1 ≠ k) (lru c).
Proof.
  intros Hwf. pose proof (cache_wf_keys c Hwf) as Hk. pose proof (cache_wf_length c Hwf) as Hlen.
  unfold Cache_Invalidate. destruct (entries c !! k) as [e|] eqn:He.
  - split.
    + destruct Hk as [Hnd Hks]. apply cache_wf_intro; simpl; [|apply Hwf|].
      * split; simpl; [by apply NoDup_filter|]. intros x.
        rewrite elem_of_list_remove, lookup_delete_is_Some, Hks. naive_solver.
      * pose proof (length_list_remove k (order c) Hnd ltac:(apply Hks; by rewrite He)). lia.
    + unfold lru; simpl. apply omap_list_remove. intros x Hx. by rewrite lookup_delete_ne.
  - split; [done|]. rewrite lru_filter_absent; [done..|].
    intros Hin. apply Hk in Hin. rewrite He in Hin. by destruct Hin.
Qed.
End CacheLemmas.

(** *** Refinement of the abstract machine *)
Section Refinement.
Context {T : Type}.
Implicit Types c : KeyedCache T.

Lemma assoc_lru c k : keys_wf c → assoc k (lru c) = entries c !! k.
Proof.
  intros [_ Hk]. destruct (decide (k ∈ order c)) as [Hin|Hout].
  - clear Hk. unfold lru. induction (order c) as [|x l IH]; [by apply elem_of_nil in Hin|]. csimpl.
    destruct (decide (k = x)) as [<-|Hne].
    + destruct (entries c !! k) as [e|] eqn:He; csimpl; [by rewrite decide_True|].
      clear -He. induction l as [|y l IH]; [done|]. csimpl.
      destruct (entries c !! y) eqn:Hy; csimpl; [|done]. rewrite decide_False; [done|congruence].
    + apply elem_of_cons in Hin as [|Hin]; [done|].
      destruct (entries c !! x); csimpl; [rewrite decide_False by done|]; by apply IH.
  - destruct (entries c !! k) eqn:He; [exfalso; apply Hout, Hk; by rewrite He|].
    clear Hk Hout. unfold lru. induction (order c) as [|x l IH]; [done|]. csimpl.
    destruct (entries c !! x) eqn:Hx; csimpl; [|done]. rewrite decide_False; [done|congruence].
Qed.

Lemma cache_get_refines c now k :
  cache_wf c →
  let '(r, c') := cache_get c now k in
  spec_get (Z.to_nat (maxSize c)) (ttl c) (lru c) now k = (r, lru c') ∧
  cache_wf c' ∧ ttl c' = ttl c ∧ maxSize c' = maxSize c.
Proof.
  intros Hwf. pose proof (cache_get_lru c now k Hwf) as [Hwf' H].
  unfold spec_get. rewrite assoc_lru by by apply cache_wf_keys.
  unfold cache_get in *. destruct (entries c !! k) as [e|] eqn:He; [|done].
  destruct (ttl c <=? time_sub now (e_fetchAt e)); [done|].
  destruct H as (_ & _ & H). simpl in *. by rewrite H.
Qed.

Lemma evict_const fuel c : ttl (evict fuel c) = ttl c ∧ maxSize (evict fuel c) = maxSize c.
Proof.
  revert c; induction fuel as [|f IH]; intros c; simpl; [done|].
  case_match; [|done]. case_match; [|done].
  match goal with |- ttl (evict _ ?c') = _ ∧ _ => by destruct (IH c') as [-> ->] end.
Qed.

Lemma cache_set_const c now k v err :
  ttl (cache_set c now k v err) = ttl c ∧ maxSize (cache_set c now k v err) = maxSize c.
Proof. unfold cache_set. destruct (entries c !! k); [done|]. apply evict_const. Qed.

Lemma lockFor_const c k : ttl (lockFor c k).2 = ttl c ∧ maxSize (lockFor c k).2 = maxSize c.
Proof. unfold lockFor. by destruct (fetching c !! k). Qed.

(** One step of the machine. *)
Lemma run_op_refines c o :
  cache_wf c →
  let '(r, c') := run_op c o in
  spec_op (Z.to_nat (maxSize c)) (ttl c) (lru c) o = (r, lru c') ∧
  cache_wf c' ∧ ttl c' = ttl c ∧ maxSize c' = maxSize c.
Proof.
  intros Hwf. destruct o as [now k|now k v|k|n1 n2 n3 k [v err]]; simpl.
  - unfold Cache_Get. pose proof (cache_get_refines c now k Hwf) as H.
    destruct (cache_get c now k) as [r c']. by destruct H as [-> ?].
  - destruct (cache_set_lru c now k v None Hwf) as [Hw Hl].
    destruct (cache_set_const c now k v None). unfold Cache_Set. by rewrite Hl.
  - destruct (Invalidate_lru c k Hwf) as [Hw Hl]. rewrite Hl.
    unfold Cache_Invalidate in *. by destruct (entries c !! k).
  - unfold Cache_GetOrFetch. pose proof (cache_get_refines c n1 k Hwf) as H.
    destruct (cache_get c n1 k) as [[e|] c1]; destruct H as (-> & Hw1 & Ht1 & Hm1); [done|].
    destruct (lockFor_lru c1 k) as [Hl2 Hw2]. destruct (lockFor_const c1 k) as [Ht2 Hm2].
    destruct (lockFor c1 k) as [l c2]; simpl in *. specialize (Hw2 Hw1).
    pose proof (cache_get_refines c2 n2 k Hw2) as H.
    destruct (cache_get c2 n2 k) as [[e|] c3]; destruct H as (H & Hw3 & Ht3 & Hm3);
      rewrite Hl2, Ht2, Hm2, Ht1, Hm1 in H; rewrite H; simpl; [split; [done|split; [done|split; congruence]]|].
    destruct (cache_set_lru c3 n3 k v err Hw3) as [Hw4 Hl4].
    destruct (cache_set_const c3 n3 k v err). rewrite Hl4, Hm3, Hm2, Hm1. split; [done|split; [done|split; congruence]].
Qed.

Lemma NewKeyedCache_wf t n : cache_wf (T := T) (NewKeyedCache t n).
Proof.
  unfold NewKeyedCache, cache_wf; simpl. split_and!; [apply NoDup_nil_2| | |].
  - intros k. rewrite lookup_empty. split; [by intros ?%elem_of_nil|by intros []].
  - case_match; to_prop; lia.
  - rewrite map_size_empty. case_match; to_prop; lia.
Qed.

Lemma length_lru_bound c : cache_wf c → Z.of_nat (length (lru c)) <= maxSize c.
Proof.
  intros H. rewrite length_lru by by apply cache_wf_keys. by apply cache_wf_length.
Qed.
End Refinement.

(** C6.  Refinement: started empty, the keyed cache answers any sequence of
    [Get], [Set], [Invalidate] and [GetOrFetch] calls exactly as a plain list of
    pairs kept most recently used first and cut at the capacity, reaches the
    same contents, and never holds more entries than the capacity. *)
Theorem keyed_cache_refines_lru {T} (t : duration) (n : Z) (os : list (cop T)) :
  let cap := Z.to_nat (Z.max 1 n) in
  let '(rs, c) := run_ops run_op (NewKeyedCache t n) os in
  run_ops (spec_op cap t) [] os = (rs, lru c) ∧ (Cache_Len c <= cap)%nat.
Proof.
  assert (G : ∀ c, cache_wf c →
    let '(rs, c') := run_ops run_op c os in
    run_ops (spec_op (Z.to_nat (maxSize c)) (ttl c)) (lru c) os = (rs, lru c') ∧
    cache_wf c' ∧ maxSize c' = maxSize c).
  { induction os as [|o os IH]; intros c Hwf; simpl; [done|].
    pose proof (run_op_refines c o Hwf) as H. destruct (run_op c o) as [r c1].
    destruct H as (-> & Hw1 & Ht1 & Hm1). specialize (IH c1 Hw1).
    destruct (run_ops run_op c1 os) as [rs c2]. destruct IH as (IH & Hw2 & Hm2).
    rewrite Ht1, Hm1 in IH. rewrite IH. split; [done|split; [done|congruence]]. }
  specialize (G _ (NewKeyedCache_wf t n)). simpl. destruct (run_ops run_op _ os) as [rs c].
  destruct G as (Hr & Hwf & Hm).
  assert (Hc : maxSize (NewKeyedCache (T := T) t n) = Z.max 1 n).
  { simpl. case_match; to_prop; lia. }
  rewrite Hc in *. split; [exact Hr|]. unfold Cache_Len. destruct Hwf as (_ & _ & _ & ?). lia.
Qed.

(** *** Concurrent fetches *)
Section SingleFlight.
Context {T : Type}.
Implicit Types c : KeyedCache T.

(** The invariant while all keys in use fit in the cache. *)
Definition flight_inv (K : gset string) (s : csys T) : Prop :=
  Z.of_nat (size K) <= maxSize (cs_cache s) ∧ dom (entries (cs_cache s)) ⊆ K ∧
  (∀ i p k, cs_callers s !! i = Some p → caller_names p = Some k → k ∈ K) ∧
  (∀ i p k l, cs_callers s !! i = Some p → caller_key p = Some (k, l) →
     fetching (cs_cache s) !! k = Some l) ∧
  (∀ i j p q l, cs_callers s !! i = Some p → cs_callers s !! j = Some q →
     caller_holds p l → caller_holds q l → i = j).

Lemma cache_get_fields c now k :
  entries (cache_get c now k).2 = entries c ∧ fetching (cache_get c now k).2 = fetching c ∧
  maxSize (cache_get c now k).2 = maxSize c.
Proof. unfold cache_get. by repeat case_match. Qed.

Lemma cache_set_fits (K : gset string) c now k v err :
  Z.of_nat (size K) <= maxSize c → dom (entries c) ⊆ K → k ∈ K →
  fetching (cache_set c now k v err) = fetching c ∧
  dom (entries (cache_set c now k v err)) ⊆ K.
Proof.
  intros Hsz Hd Hk. unfold cache_set. destruct (entries c !! k) eqn:He; simpl.
  - split; [done|]. set_solver.
  - assert (Hlt : Z.of_nat (size (entries c)) < maxSize c).
    { assert (Hs : dom (entries c) ⊆ K ∖ {[k]}).
      { apply not_elem_of_dom in He. set_solver. }
      apply subseteq_size in Hs. rewrite size_dom, size_difference, size_singleton in Hs by set_solver.
      assert (size K ≠ 0%nat) by (rewrite size_non_empty_iff; set_solver). lia. }
    destruct (Z.leb_spec (maxSize c) (Z.of_nat (size (entries c)))); [lia|].
    split; [done|]. simpl. set_solver.
Qed.

(** Updating one caller: what remains to show about the new phase. *)
Lemma flight_inv_update (K : gset string) c cs c' (i : nat) (p p' : caller) :
  flight_inv K {| cs_cache := c; cs_callers := cs |} → cs !! i = Some p →
  maxSize c' = maxSize c → dom (entries c') ⊆ K →
  (∀ k l, fetching c !! k = Some l → fetching c' !! k = Some l) →
  (∀ k, caller_names p' = Some k → caller_names p = Some k) →
  (∀ k l, caller_key p' = Some (k, l) → fetching c' !! k = Some l) →
  (∀ l, caller_holds p' l → caller_holds p l ∨ ¬ lock_held l cs) →
  flight_inv K {| cs_cache := c'; cs_callers := <[i := p']> cs |}.
Proof.
  intros (Hsz & Hd & Hn & Hf & Hu) Hi Hm Hd' Hext Hn' Hf' Hh'.
  assert (Hheld : ∀ j q l, cs !! j = Some q → caller_holds q l → lock_held l cs).
  { intros j q l Hj Hq. exists j. destruct q; simpl in Hq; try done; subst; eexists; [by left|by right]. }
  unfold flight_inv in *; simpl in *. split_and!; [lia|done| | |].
  - intros j q k. rewrite lookup_insert_Some. naive_solver.
  - intros j q k l. rewrite lookup_insert_Some. naive_solver.
  - intros j1 j2 q1 q2 l. rewrite !lookup_insert_Some.
    intros [[<- <-]|[Hne1 H1]] [[<- <-]|[Hne2 H2]] Hq1 Hq2; [done|..].
    + destruct (Hh' l Hq1) as [Hp|Hno]; [by eapply Hu|]. exfalso. by eapply Hno, Hheld.
    + destruct (Hh' l Hq2) as [Hp|Hno]; [by eapply Hu|]. exfalso. by eapply Hno, Hheld.
    + by eapply Hu.
Qed.

Lemma lockFor_fields c k :
  let '(l, c') := lockFor c k in
  fetching c' !! k = Some l ∧ entries c' = entries c ∧ maxSize c' = maxSize c ∧
  (∀ k' l', fetching c !! k' = Some l' → fetching c' !! k' = Some l').
Proof.
  unfold lockFor. destruct (fetching c !! k) as [l|] eqn:E; [done|]. simpl.
  split; [apply lookup_insert_eq|]. split; [done|]. split; [done|].
  intros k' l' H. rewrite lookup_insert_ne; [done|congruence].
Qed.

Lemma cstep_flight_inv K (s s' : csys T) : flight_inv K s → cstep s s' → flight_inv K s'.
Proof.
  intros HI Hs. revert HI.
  destruct Hs as [c cs i k now e c' Hi Hg|c cs i k now c1 l c2 Hi Hg Hl|c cs i k l Hi Hno
                 |c cs i k l now e c' Hi Hg|c cs i k l now c' Hi Hg|c cs i k l now v err Hi];
    intros HI; pose proof HI as (Hsz & Hd & Hn & Hf & _); simpl in *;
    try (pose proof (cache_get_fields c now k) as (He & Hfe & Hms); rewrite Hg in *; simpl in *).
  - eapply flight_inv_update; eauto; rewrite ?He, ?Hfe; done.
  - pose proof (lockFor_fields c1 k) as Hlf. rewrite Hl in Hlf. destruct Hlf as (Hl1 & Hl2 & Hl3 & Hl4).
    rewrite Hfe in Hl4.
    eapply flight_inv_update; eauto; rewrite ?Hl2, ?Hl3, ?He; try done. naive_solver.
  - eapply flight_inv_update; eauto; naive_solver.
  - eapply flight_inv_update; eauto; rewrite ?He, ?Hfe; done.
  - eapply flight_inv_update; eauto; rewrite ?He, ?Hfe; try done; try naive_solver.
  - destruct (cache_set_fits K c now k v err Hsz Hd) as [Hsf Hsd]; [by eapply Hn|].
    eapply flight_inv_update; eauto; rewrite ?Hsf; try done.
    apply cache_set_const.
Qed.
End SingleFlight.

(** Single flight: as long as the keys in use fit in the cache, two calls
    that are running the fetch function for the same key at the same time are
    one call, in every reachable state of any interleaving. *)
Theorem single_flight_within_capacity {T} (t : duration) (n : Z) (ks : gmap nat string)
    (s : csys T) i j k l1 l2 :
  Z.of_nat (size (map_img (SA := gset string) ks)) <= Z.max 1 n →
  rtc cstep {| cs_cache := NewKeyedCache t n; cs_callers := looking ks |} s →
  cs_callers s !! i = Some (Fetching k l1) → cs_callers s !! j = Some (Fetching k l2) → i = j.
Proof.
  intros Hsz Hr. set (K := map_img ks : gset string) in *.
  assert (HI : flight_inv K s).
  { revert s Hr. apply rtc_ind_r; [|intros y z _ Hyz Hy; by eapply cstep_flight_inv].
    unfold flight_inv, looking; simpl. split_and!.
    - case_match; to_prop; lia.
    - set_solver.
    - intros i' p k'. rewrite lookup_fmap. destruct (ks !! i') eqn:E; simpl; [|done].
      intros [= <-] [= <-]. by eapply elem_of_map_img_2.
    - intros i' p k' l'. rewrite lookup_fmap. destruct (ks !! i'); simpl; [|done]. by intros [= <-].
    - intros i' j' p q l'. rewrite !lookup_fmap. destruct (ks !! i'); simpl; [|done]. by intros [= <-]. }
  destruct HI as (_ & _ & _ & Hf & Hu). intros Hi Hj.
  pose proof (Hf _ _ _ _ Hi eq_refl) as H1. pose proof (Hf _ _ _ _ Hj eq_refl) as H2.
  assert (l1 = l2) as -> by congruence. by apply (Hu i j _ _ l2 Hi Hj).
Qed.

Ltac no_holder :=
  let H := fresh in
  intros (? & ? & [H|H]); rewrite !lookup_insert_Some, ?lookup_empty in H; naive_solver.

(** Caller 3 caches A; its entry expires and caller 0 refetches A; caller 1
    stores B, evicting A and A's lock; caller 2 then looks A up. *)
Definition eviction_race : gmap nat string :=
  list_to_map [(0%nat, "A"); (1%nat, "B"); (2%nat, "A"); (3%nat, "A")].

(** The bound in the previous property is needed: with capacity 1, a key
    whose expired entry is being refetched loses its lock when another key's
    store evicts it, and a third caller then fetches the same key at the same
    time. *)
Theorem single_flight_lost_on_eviction :
  ∃ (s : csys nat) l1 l2,
    rtc cstep {| cs_cache := NewKeyedCache 10 1; cs_callers := looking eviction_race |} s ∧
    cs_callers s !! 0%nat = Some (Fetching "A" l1) ∧
    cs_callers s !! 2%nat = Some (Fetching "A" l2).
Proof.
  assert (E : looking eviction_race = <[0%nat := Looking "A"]> (<[1%nat := Looking "B"]>
    (<[2%nat := Looking "A"]> (<[3%nat := Looking "A"]> ∅)))) by reflexivity.
  rewrite E. do 3 eexists. split.
  - eapply rtc_l; [eapply (cs_miss _ _ 3%nat "A" 0); reflexivity|].
    eapply rtc_l; [eapply (cs_acquire _ _ 3%nat "A" 0); [reflexivity|no_holder]|].
    eapply rtc_l; [eapply (cs_miss2 _ _ 3%nat "A" 0%nat 0); reflexivity|].
    eapply rtc_l; [eapply (cs_store _ _ 3%nat "A" 0%nat 0 7%nat None); reflexivity|].
    eapply rtc_l; [eapply (cs_miss _ _ 0%nat "A" 20); reflexivity|].
    eapply rtc_l; [eapply (cs_acquire _ _ 0%nat "A" 0); [reflexivity|no_holder]|].
    eapply rtc_l; [eapply (cs_miss2 _ _ 0%nat "A" 0%nat 20); reflexivity|].
    eapply rtc_l; [eapply (cs_miss _ _ 1%nat "B" 20); reflexivity|].
    eapply rtc_l; [eapply (cs_acquire _ _ 1%nat "B" 1); [reflexivity|no_holder]|].
    eapply rtc_l; [eapply (cs_miss2 _ _ 1%nat "B" 1%nat 20); reflexivity|].
    eapply rtc_l; [eapply (cs_store _ _ 1%nat "B" 1%nat 20 8%nat None); reflexivity|].
    eapply rtc_l; [eapply (cs_miss _ _ 2%nat "A" 20); reflexivity|].
    eapply rtc_l; [eapply (cs_acquire _ _ 2%nat "A" 2); [reflexivity|no_holder]|].
    eapply rtc_l; [eapply (cs_miss2 _ _ 2%nat "A" 2%nat 20); reflexivity|].
    apply rtc_refl.
  - split; reflexivity.
Qed.

#[export] Instance key_le_trans : Transitive key_le.
Proof. intros p q r H1 H2. unfold key_le in *. by transitivity q.1. Qed.
#[export] Instance key_le_total : Total key_le.
Proof. intros p q. unfold key_le. apply String.le_total. Qed.

Lemma sort_keys_unique l l' :
  NoDup l.*1 → l ≡ₚ l' → merge_sort key_le l = merge_sort key_le l'.
Proof.
  intros Hnd Hp. apply (Sorted_unique_strong key_le); try apply (Sorted_merge_sort _).
  - intros [k v] [k' v'] H1 H2 Hle Hle'. rewrite merge_sort_Permutation in H1, H2.
    assert (k = k') as -> by (apply (anti_symm String.le); [exact Hle|exact Hle']).
    f_equal. rewrite <- Hp in H2. clear -Hnd H1 H2.
    apply list_elem_of_lookup in H1 as [i Hi], H2 as [j Hj].
    assert (i = j) as ->; [|congruence].
    apply (NoDup_lookup l.*1 _ _ k' Hnd); rewrite list_lookup_fmap; [by rewrite Hi|by rewrite Hj].
  - by rewrite !merge_sort_Permutation.
Qed.

Lemma map_ckv_inj l l' :
  map (λ p : string * canonical, CKV p.1 p.2) l = map (λ p, CKV p.1 p.2) l' → l = l'.
Proof.
  revert l'; induction l as [|[k v] l IH]; intros [|[k' v'] l']; simpl; try done.
  intros [= -> -> H]. f_equal. by apply IH.
Qed.

Lemma merge_sort_nil l : merge_sort key_le l = [] → l = [].
Proof.
  intros H. apply Permutation_nil_r. by rewrite <- H, merge_sort_Permutation.
Qed.

Lemma canonical_keys l :
  (map (λ p : string * json, (p.1, canonicalizeJSONValue p.2)) l).*1 = l.*1.
Proof. induction l as [|p l IH]; csimpl; [done|]. by rewrite IH. Qed.

Lemma canonical_equiv_1 v1 v2 :
  canonicalizeJSONValue v1 = canonicalizeJSONValue v2 → json_equiv v1 v2.
Proof.
  revert v2. induction v1 as [|b|n|s|l IH|l IH] using json_ind';
    intros [|b2|n2|s2|l2|l2]; simpl; intros H; try discriminate H; try (injection H as ->);
    try (constructor; done); unfold kv_slice in *.
  - injection H as H. apply je_array. revert l2 H.
    induction l as [|v l IHl]; intros [|v2 l2]; simpl; try discriminate; [constructor|].
    intros [= Hv Hl]. constructor; [apply IH; [by left|done]|].
    apply IHl; [|done]. intros w Hw. apply IH. by right.
  - injection H as H. destruct l as [|v l]; simpl in H.
    + symmetry in H. apply map_eq_nil, merge_sort_nil, map_eq_nil in H as ->. constructor.
    + destruct (merge_sort key_le _); [discriminate|]. simpl in H.
      by destruct v.
  - injection H as H. destruct l2 as [|v l2]; simpl in H.
    + apply map_eq_nil, merge_sort_nil, map_eq_nil in H as ->. constructor.
    + destruct (merge_sort key_le _); [discriminate|]. simpl in H. by destruct v.
  - injection H as H. apply map_ckv_inj in H.
    assert (Hp : map (λ p, (p.1, canonicalizeJSONValue p.2)) l2 ≡ₚ
                 map (λ p, (p.1, canonicalizeJSONValue p.2)) l).
    { rewrite <- (merge_sort_Permutation key_le (map _ l2)), <- H.
      by rewrite merge_sort_Permutation. }
    symmetry in Hp. apply Permutation_map_inv in Hp as (m & Hm & Hp).
    apply (je_object l m l2); [|by symmetry]. clear H Hp. revert m Hm.
    induction l as [|p l IHl]; intros [|q m]; simpl; try discriminate; [constructor|].
    intros [= H1 H2 H3]. constructor; [split; [done|apply IH; [by left|done]]|].
    apply IHl; [|done]. intros w Hw. apply IH. by right.
Qed.

Lemma canonical_equiv_2 v1 v2 :
  json_ok v1 → json_equiv v1 v2 → canonicalizeJSONValue v1 = canonicalizeJSONValue v2.
Proof.
  revert v2. induction v1 as [|b|n|s|l IH|l IH] using json_ind'; intros v2 Hok He;
    inversion He as [|?|?|?|? l2 Hf|? m l2 Hf Hp| |]; subst; try done; simpl; unfold kv_slice.
  - f_equal. inversion Hok as [| | | |? Hl|]; subst. clear Hok He.
    induction Hf as [|v v2 l l2 Hv Hf IHf]; [done|]. simpl. f_equal.
    + apply IH; [by left|apply Hl; by left|done].
    + apply IHf; intros; [apply IH; [by right|..]|apply Hl; by right]; done.
  - f_equal. inversion Hok as [| | | | |? Hnd Hl]; subst. f_equal.
    apply sort_keys_unique; [by rewrite canonical_keys|].
    transitivity (map (λ p, (p.1, canonicalizeJSONValue p.2)) m); [|by apply Permutation_map].
    clear Hok He Hnd Hp. apply reflexive_eq.
    induction Hf as [|p q l m [Hk Hv] Hf IHf]; [done|]. simpl. f_equal.
    + rewrite Hk. f_equal. apply IH; [by left|apply Hl; by left|done].
    + apply IHf; intros; [apply IH; [by right|..]|apply Hl; by right]; done.
Qed.

(** What two argument maps must share to get the same cache key: values
    equal up to key order (and up to an empty object against an empty array)
    give equal keys; equal keys give such values, unless the hash of two
    different canonical forms collides. *)
Theorem CacheKey_spec marshal sha256_hex tool a b :
  json_ok (JObject a) →
  (json_equiv (JObject a) (JObject b) →
   CacheKey marshal sha256_hex tool a = CacheKey marshal sha256_hex tool b) ∧
  (CacheKey marshal sha256_hex tool a = CacheKey marshal sha256_hex tool b →
   json_equiv (JObject a) (JObject b) ∨
   ∃ x y, x ≠ y ∧ sha256_hex (marshal x) = sha256_hex (marshal y)).
Proof.
  intros Hok. unfold CacheKey. split.
  - intros He. by rewrite (canonical_equiv_2 _ _ Hok He).
  - intros H. apply (inj (String.append tool)), (inj (String.append ":")) in H.
    destruct (decide (canonicalizeJSONValue (JObject a) = canonicalizeJSONValue (JObject b)))
      as [E|E]; [left; by apply canonical_equiv_1|right; eauto].
Qed.

(** ** Witnesses *)
Lemma single_flight_within_capacity_witness :
  ∃ s : csys nat,
    rtc cstep {| cs_cache := NewKeyedCache 10 1; cs_callers := looking {[0%nat := "A"]} |} s ∧
    ∀ j l, cs_callers s !! j = Some (Fetching "A" l) → 0%nat = j.
Proof.
  assert (E : looking {[0%nat := "A"]} = <[0%nat := Looking "A"]> ∅) by reflexivity.
  assert (H : ∃ s : csys nat,
    rtc cstep {| cs_cache := NewKeyedCache 10 1; cs_callers := looking {[0%nat := "A"]} |} s ∧
    cs_callers s !! 0%nat = Some (Fetching "A" 0)).
  { rewrite E. eexists. split.
    - eapply rtc_l; [eapply (cs_miss _ _ 0%nat "A" 0); reflexivity|].
      eapply rtc_l; [eapply (cs_acquire _ _ 0%nat "A" 0); [reflexivity|no_holder]|].
      eapply rtc_l; [eapply (cs_miss2 _ _ 0%nat "A" 0%nat 0); reflexivity|]. apply rtc_refl.
    - reflexivity. }
  destruct H as (s & Hr & Hs). exists s. split; [exact Hr|]. intros j l Hj.
  apply (single_flight_within_capacity 10 1 {[0%nat := "A"]} s 0%nat j "A" 0%nat l).
  - vm_compute. discriminate.
  - exact Hr.
  - exact Hs.
  - exact Hj.
Defined.

Lemma CacheKey_spec_witness :
  CacheKey (λ c, match c with CSlice [] => "[]" | _ => "v" end) (λ s, s) "tool"
    [("a", JNumber "1"); ("b", JObject [])] =
  CacheKey (λ c, match c with CSlice [] => "[]" | _ => "v" end) (λ s, s) "tool"
    [("b", JArray []); ("a", JNumber "1")].
Proof.
  apply (CacheKey_spec _ _ _ [("a", JNumber "1"); ("b", JObject [])]).
  - constructor.
    + apply (bool_decide_unpack _). vm_compute. exact I.
    + intros p Hp. apply elem_of_cons in Hp as [->|Hp]; [constructor|].
      apply elem_of_cons in Hp as [->|Hp]; [|by apply elem_of_nil in Hp].
      constructor; [constructor|]. intros p Hp. by apply elem_of_nil in Hp.
  - apply (je_object _ [("a", JNumber "1"); ("b", JArray [])]).
    + repeat constructor.
    + apply Permutation_swap.
Defined.
