(* ===== verification/Tool.v ===== *)
(** Tool definitions (src/registry/registry.go, annotations.go, metadata.go):
    the definition record, the name-suffix heuristics behind the MCP hints, and
    the descriptor metadata applied before a tool is published. *)

From stdpp Require Import base tactics list gmap strings.
From Stdlib Require Import ZArith Lia.
From S2P Require Import Prelude.

Local Open Scope Z_scope.

(** ** The SDK's tool descriptor, as far as the registry uses it *)
Record ToolAnnotation := {
  ann_Title : string;
  ReadOnlyHint : option bool;
  DestructiveHint : option bool;
  IdempotentHint : option bool;
  OpenWorldHint : option bool
}.

Record Schema := {
  sch_Type : string; sch_Properties : gmap string json; sch_Required : list string; sch_Additional : option json
}.

Record Tool := {
  Name : string;
  Title : string;
  Description : string;
  Annotations : ToolAnnotation;
  InputSchema : Schema;
  ToolOutputSchema : Schema;
  Meta : option (gmap string json);
  ToolDeferLoading : bool
}.

Section Definitions.
(** The type of handlers. *)
Context {H : Type}.

Record ToolDefinition := {
  td_Tool : Tool;
  Handler : H;
  Category : string;
  Subcategory : string;
  Tags : list string;
  SearchTerms : list string;
  Complexity : string;
  IsWrite : bool;
  Deprecated : bool;
  td_Timeout : duration;
  CircuitBreakerGroup : string;
  RuntimeGroup : string;
  OutputSchema : option Schema;
  MaxResultChars : Z;
  DeferLoading : bool;
  AlwaysLoad : bool;
  SkipRequiresUserInteraction : bool;
  DestructiveOverride : option bool;
  IdempotentOverride : option bool;
  ReadOnlyOverride : option bool
}.

(** Field updates. *)
Definition set_Tool (t : Tool) (d : ToolDefinition) : ToolDefinition := {|
  td_Tool := t; Handler := Handler d; Category := Category d; Subcategory := Subcategory d;
  Tags := Tags d; SearchTerms := SearchTerms d; Complexity := Complexity d;
  IsWrite := IsWrite d; Deprecated := Deprecated d; td_Timeout := td_Timeout d;
  CircuitBreakerGroup := CircuitBreakerGroup d; RuntimeGroup := RuntimeGroup d; OutputSchema := OutputSchema d;
  MaxResultChars := MaxResultChars d; DeferLoading := DeferLoading d;
  AlwaysLoad := AlwaysLoad d;
  SkipRequiresUserInteraction := SkipRequiresUserInteraction d;
  DestructiveOverride := DestructiveOverride d; IdempotentOverride := IdempotentOverride d;
  ReadOnlyOverride := ReadOnlyOverride d |}.
Definition set_IsWrite (w : bool) (d : ToolDefinition) : ToolDefinition := {|
  td_Tool := td_Tool d; Handler := Handler d; Category := Category d; Subcategory := Subcategory d;
  Tags := Tags d; SearchTerms := SearchTerms d; Complexity := Complexity d;
  IsWrite := w; Deprecated := Deprecated d; td_Timeout := td_Timeout d;
  CircuitBreakerGroup := CircuitBreakerGroup d; RuntimeGroup := RuntimeGroup d; OutputSchema := OutputSchema d;
  MaxResultChars := MaxResultChars d; DeferLoading := DeferLoading d;
  AlwaysLoad := AlwaysLoad d;
  SkipRequiresUserInteraction := SkipRequiresUserInteraction d;
  DestructiveOverride := DestructiveOverride d; IdempotentOverride := IdempotentOverride d;
  ReadOnlyOverride := ReadOnlyOverride d |}.
Definition set_RuntimeGroup (g : string) (d : ToolDefinition) : ToolDefinition := {|
  td_Tool := td_Tool d; Handler := Handler d; Category := Category d; Subcategory := Subcategory d;
  Tags := Tags d; SearchTerms := SearchTerms d; Complexity := Complexity d;
  IsWrite := IsWrite d; Deprecated := Deprecated d; td_Timeout := td_Timeout d;
  CircuitBreakerGroup := CircuitBreakerGroup d; RuntimeGroup := g; OutputSchema := OutputSchema d;
  MaxResultChars := MaxResultChars d; DeferLoading := DeferLoading d;
  AlwaysLoad := AlwaysLoad d;
  SkipRequiresUserInteraction := SkipRequiresUserInteraction d;
  DestructiveOverride := DestructiveOverride d; IdempotentOverride := IdempotentOverride d;
  ReadOnlyOverride := ReadOnlyOverride d |}.
Definition set_DeferLoading (b : bool) (d : ToolDefinition) : ToolDefinition := {|
  td_Tool := td_Tool d; Handler := Handler d; Category := Category d; Subcategory := Subcategory d;
  Tags := Tags d; SearchTerms := SearchTerms d; Complexity := Complexity d;
  IsWrite := IsWrite d; Deprecated := Deprecated d; td_Timeout := td_Timeout d;
  CircuitBreakerGroup := CircuitBreakerGroup d; RuntimeGroup := RuntimeGroup d; OutputSchema := OutputSchema d;
  MaxResultChars := MaxResultChars d; DeferLoading := b;
  AlwaysLoad := AlwaysLoad d;
  SkipRequiresUserInteraction := SkipRequiresUserInteraction d;
  DestructiveOverride := DestructiveOverride d; IdempotentOverride := IdempotentOverride d;
  ReadOnlyOverride := ReadOnlyOverride d |}.
End Definitions.
Arguments ToolDefinition : clear implicits.

Definition set_Annotations (a : ToolAnnotation) (t : Tool) : Tool := {|
  Name := Name t; Title := Title t; Description := Description t; Annotations := a;
  InputSchema := InputSchema t; ToolOutputSchema := ToolOutputSchema t; Meta := Meta t;
  ToolDeferLoading := ToolDeferLoading t |}.
Definition set_ToolOutputSchema (s : Schema) (t : Tool) : Tool := {|
  Name := Name t; Title := Title t; Description := Description t; Annotations := Annotations t;
  InputSchema := InputSchema t; ToolOutputSchema := s; Meta := Meta t;
  ToolDeferLoading := ToolDeferLoading t |}.

(** ** Shims over the SDK (compat.go) *)
Definition SetToolTitle (title : string) (t : Tool) : Tool := {|
  Name := Name t; Title := if bool_decide (Title t = "") then title else Title t;
  Description := Description t; Annotations := Annotations t;
  InputSchema := InputSchema t; ToolOutputSchema := ToolOutputSchema t; Meta := Meta t;
  ToolDeferLoading := ToolDeferLoading t |}.

Definition SetToolMetaField (key : string) (value : json) (t : Tool) : Tool := {|
  Name := Name t; Title := Title t; Description := Description t; Annotations := Annotations t;
  InputSchema := InputSchema t; ToolOutputSchema := ToolOutputSchema t;
  Meta := Some (<[key := value]> (default ∅ (Meta t)));
  ToolDeferLoading := ToolDeferLoading t |}.

Definition ToolMetaField (t : Tool) (key : string) : option json :=
  m ← Meta t; m !! key.

Definition SetToolDeferLoading (b : bool) (t : Tool) : Tool := {|
  Name := Name t; Title := Title t; Description := Description t; Annotations := Annotations t;
  InputSchema := InputSchema t; ToolOutputSchema := ToolOutputSchema t; Meta := Meta t;
  ToolDeferLoading := b |}.

Definition OutputSchemaType (t : Tool) : option string :=
  if bool_decide (sch_Type (ToolOutputSchema t) = "") then None
  else Some (sch_Type (ToolOutputSchema t)).

Definition OutputSchemaProperties (t : Tool) : option (gmap string json) :=
  if bool_decide (sch_Properties (ToolOutputSchema t) = ∅) then None
  else Some (sch_Properties (ToolOutputSchema t)).

Definition InputSchemaProperties (s : Schema) : option (gmap string json) :=
  if bool_decide (sch_Properties s = ∅) then None else Some (sch_Properties s).

(** ** Annotations *)
Definition writeSuffixes : list string := [
  "_create"; "_delete"; "_remove"; "_reset"; "_send"; "_post";
  "_update"; "_set"; "_add"; "_apply"; "_import"; "_publish";
  "_start"; "_stop"; "_restart"; "_trigger"; "_execute"; "_run";
  "_record"; "_assign"; "_unassign"; "_move"; "_copy"; "_rename";
  "_enable"; "_disable"; "_clear"; "_flush"; "_purge";
  "_archive"; "_restore"; "_sync"; "_push"; "_deploy"; "_install";
  "_uninstall"; "_register"; "_deregister"; "_subscribe"; "_unsubscribe";
  "_approve"; "_reject"; "_resolve"; "_close"; "_reopen"].

Definition destructiveSuffixes : list string := [
  "_delete"; "_remove"; "_reset"; "_purge"; "_clear"; "_flush"; "_destroy";
  "_restart"; "_expire"].

Definition idempotentSuffixes : list string := [
  "_set"; "_update"; "_sync"; "_enable"; "_disable"; "_assign"; "_restart"].

Definition has_any_suffix (suffixes : list string) (name : string) : bool :=
  existsb (λ s, has_suffix s (to_lower name)) suffixes.

Definition InferIsWrite (name : string) : bool := has_any_suffix writeSuffixes name.

(** [strings.ToUpper(word[:1]) + word[1:]], for ASCII words. *)
Definition capitalize (word : string) : string :=
  match word with
  | EmptyString => EmptyString
  | String c w => String (upper_ascii c) w
  end.

Definition toolNameToTitle (name prefix : string) : string :=
  let name := if bool_decide (prefix ≠ "") then trim_prefix name prefix else name in
  join " " (map capitalize (fields (replace_byte (Ascii.ascii_of_nat 95) (Ascii.ascii_of_nat 32) name))).

Section Metadata.
Context {H : Type}.
Implicit Types td : ToolDefinition H.

Definition ApplyMCPAnnotations td (prefix : string) : ToolDefinition H :=
  let td := match ReadOnlyOverride td with
            | Some b => set_IsWrite (negb b) td
            | None => td
            end in
  let title := toolNameToTitle (Name (td_Tool td)) prefix in
  let tool := SetToolTitle title (td_Tool td) in
  let readOnly := negb (IsWrite td) in
  let destructive := IsWrite td && has_any_suffix destructiveSuffixes (Name (td_Tool td)) in
  let destructive := default destructive (DestructiveOverride td) in
  let idempotent := negb (IsWrite td) || has_any_suffix idempotentSuffixes (Name (td_Tool td)) in
  let idempotent := default idempotent (IdempotentOverride td) in
  set_Tool (set_Annotations {|
      ann_Title := title; ReadOnlyHint := Some readOnly;
      DestructiveHint := Some destructive; IdempotentHint := Some idempotent;
      OpenWorldHint := Some true |} tool) td.

Definition anthropicMaxResultSizeMetaKey := "anthropic/maxResultSizeChars".
Definition anthropicAlwaysLoadMetaKey := "anthropic/alwaysLoad".
Definition anthropicRequiresUserInteractionKey := "anthropic/requiresUserInteraction".
Definition googleMaxResultSizeMetaKey := "google/maxResultSizeChars".
Definition googleAlwaysLoadMetaKey := "google/alwaysLoad".
Definition googleRequiresUserInteractionKey := "google/requiresUserInteraction".
Definition antigravityMaxResultSizeMetaKey := "antigravity/maxResultSizeChars".
Definition antigravityAlwaysLoadMetaKey := "antigravity/alwaysLoad".
Definition antigravityRequiresUserInteractionKey := "antigravity/requiresUserInteraction".

Definition ApplyToolMetadata td (prefix : string) (forceDeferred : bool) : ToolDefinition H :=
  let td := ApplyMCPAnnotations td prefix in
  let t := td_Tool td in
  let t := match OutputSchema td with
           | Some s => set_ToolOutputSchema s t
           | None => t
           end in
  let t := if 0 <? MaxResultChars td then
             let n := JNumber (itoa (MaxResultChars td)) in
             SetToolMetaField antigravityMaxResultSizeMetaKey n
               (SetToolMetaField googleMaxResultSizeMetaKey n
                  (SetToolMetaField anthropicMaxResultSizeMetaKey n t))
           else t in
  let t := if AlwaysLoad td then
             SetToolMetaField antigravityAlwaysLoadMetaKey (JBool true)
               (SetToolMetaField googleAlwaysLoadMetaKey (JBool true)
                  (SetToolMetaField anthropicAlwaysLoadMetaKey (JBool true) t))
           else t in
  let t := if IsWrite td && negb (SkipRequiresUserInteraction td) then
             SetToolMetaField antigravityRequiresUserInteractionKey (JBool true)
               (SetToolMetaField googleRequiresUserInteractionKey (JBool true)
                  (SetToolMetaField anthropicRequiresUserInteractionKey (JBool true) t))
           else t in
  set_Tool (SetToolDeferLoading (forceDeferred || DeferLoading td) t) td.

Definition effectiveMaxResponseSize td (defaultSize : Z) : Z :=
  if (0 <? MaxResultChars td) && ((defaultSize <=? 0) || (MaxResultChars td <? defaultSize))
  then MaxResultChars td else defaultSize.

(** What registration fills in: [RegisterModule], [RegisterDeferredModule] and
    [AddTool] all run this on each definition. *)
Definition complete_definition (mapper : option (string → string)) td : ToolDefinition H :=
  let td := match mapper with
            | Some f => if bool_decide (RuntimeGroup td = "")
                        then set_RuntimeGroup (f (Category td)) td else td
            | None => td
            end in
  match ReadOnlyOverride td with
  | Some b => set_IsWrite (negb b) td
  | None => if IsWrite td then td
            else set_IsWrite (InferIsWrite (Name (td_Tool td))) td
  end.

(** A definition whose write flag is settled: the override decides when there is
    one, and otherwise a write-like name is enough to make it a write tool. *)
Definition write_settled td : Prop :=
  match ReadOnlyOverride td with
  | Some b => IsWrite td = negb b
  | None => InferIsWrite (Name (td_Tool td)) = true → IsWrite td = true
  end.

(** ** Properties *)
Lemma complete_definition_name m td : td_Tool (complete_definition m td) = td_Tool td.
Proof.
  unfold complete_definition. destruct m as [f|]; [case_bool_decide|];
    simpl; destruct (ReadOnlyOverride td); simpl; try done; by destruct (IsWrite td).
Qed.

Lemma complete_definition_settled m td : write_settled (complete_definition m td).
Proof.
  unfold complete_definition, write_settled. destruct m as [f|]; [case_bool_decide|];
    simpl; destruct (ReadOnlyOverride td) eqn:E; simpl; rewrite ?E; try done;
    destruct (IsWrite td) eqn:F; simpl; rewrite ?E; done.
Qed.

Lemma complete_definition_DeferLoading m td :
  DeferLoading (complete_definition m td) = DeferLoading td.
Proof.
  unfold complete_definition. destruct m as [f|]; [case_bool_decide|];
    simpl; destruct (ReadOnlyOverride td); simpl; try done; by destruct (IsWrite td).
Qed.

Lemma meta_field_set k k' v t :
  ToolMetaField (SetToolMetaField k v t) k' =
  if decide (k = k') then Some v else ToolMetaField t k'.
Proof.
  unfold ToolMetaField, SetToolMetaField; simpl. case_decide.
  - subst. by rewrite lookup_insert_eq.
  - rewrite lookup_insert_ne by done. by destruct (Meta t).
Qed.
End Metadata.

#[export] Hint Resolve complete_definition_settled : mcpkit.
#[export] Hint Rewrite @complete_definition_name @complete_definition_DeferLoading : mcpkit.

(** The descriptor a client sees never contradicts the definition: the hints
    say read-only exactly when the tool is not a write tool (after the override),
    a read-only tool is published as idempotent and non-destructive unless
    overridden, and the consent flag is present for every write tool that did
    not opt out, and added for no other. *)
Theorem metadata_sound {H} (td : ToolDefinition H) prefix deferred :
  let w := match ReadOnlyOverride td with Some b => negb b | None => IsWrite td end in
  let t := td_Tool (ApplyToolMetadata td prefix deferred) in
  Name t = Name (td_Tool td) ∧
  ReadOnlyHint (Annotations t) = Some (negb w) ∧
  (w = false → DestructiveOverride td = None → IdempotentOverride td = None →
   DestructiveHint (Annotations t) = Some false ∧ IdempotentHint (Annotations t) = Some true) ∧
  ToolMetaField t anthropicRequiresUserInteractionKey =
    (if w && negb (SkipRequiresUserInteraction td) then Some (JBool true)
     else ToolMetaField (td_Tool td) anthropicRequiresUserInteractionKey) ∧
  ToolDeferLoading t = deferred || DeferLoading td.
Proof.
  assert (Hm : ∀ t b, ToolMetaField (SetToolDeferLoading b t) anthropicRequiresUserInteractionKey =
    ToolMetaField t anthropicRequiresUserInteractionKey) by done.
  unfold ApplyToolMetadata, ApplyMCPAnnotations.
  destruct (ReadOnlyOverride td) as [b|]; simpl;
    destruct (OutputSchema td), (0 <? MaxResultChars td), (AlwaysLoad td),
      (SkipRequiresUserInteraction td); simpl;
    (split; [by repeat case_match|]); (split; [by repeat case_match|]);
    (split; [by intros Hw -> ->; rewrite ?Hw; repeat case_match|]);
    (split; [rewrite Hm|by repeat case_match]);
    repeat (case_match; simpl; try done); by rewrite !meta_field_set.
Qed.
