(* ===== verification/Truncate.v ===== *)
(** Response truncation (the second half of src/registry/registry.go): the
    policy read off a tool definition, [truncateResponse], the refusal message,
    and the handler wrapper that applies them around the middleware chain. *)

From stdpp Require Import base tactics list gmap strings pretty.
From Stdlib Require Import ZArith Lia.
From S2P Require Import Prelude Tool.

Local Open Scope Z_scope.

(** ** Data *)
Inductive Content := TextContent (text : string) | OtherContent (kind : string).

Record CallToolResult := {
  r_Content : list Content;
  StructuredContent : option json;
  IsError : bool
}.

Record truncationPolicy := {
  toolName : string;
  declaresOutputSchema : bool;
  paramNames : list string
}.

Definition MakeTextContent (text : string) : Content := TextContent text.
Definition ExtractTextContent (c : Content) : option string :=
  match c with TextContent t => Some t | OtherContent _ => None end.
Definition MakeErrorResult (text : string) : CallToolResult :=
  {| r_Content := [MakeTextContent text]; StructuredContent := None; IsError := true |}.
Definition IsResultError (r : option CallToolResult) : bool :=
  match r with Some r => IsError r | None => false end.

Definition TruncationMarker : string := "[TRUNCATED:".
Definition ResultTooLargeCode : string := "[RESULT_TOO_LARGE]".
Definition maxListedParams : nat := 16.
Definition narrowingParamHints : list string := [
  "limit"; "offset"; "page"; "cursor"; "max"; "top_n"; "count";
  "since"; "until"; "filter"; "fields"; "scope"; "detail"; "brief"].

(** An em dash, as UTF-8 bytes. *)
Definition em_dash : string :=
  String (Ascii.ascii_of_nat 226) (String (Ascii.ascii_of_nat 128)
    (String (Ascii.ascii_of_nat 148) EmptyString)).

(** ** The policy *)
Definition truncationPolicyFor {H} (name : string) (td : ToolDefinition H) : truncationPolicy := {|
  toolName := name;
  declaresOutputSchema :=
    match OutputSchema td with Some _ => true | None => false end ||
    match OutputSchemaType (td_Tool td) with Some _ => true | None => false end ||
    match OutputSchemaProperties (td_Tool td) with Some _ => true | None => false end;
  paramNames :=
    match InputSchemaProperties (InputSchema (td_Tool td)) with
    | Some props => sorted_keys props
    | None => []
    end
|}.

Definition narrowingParams (p : truncationPolicy) : list string :=
  filter (λ name, existsb (λ hint, contains hint (to_lower name)) narrowingParamHints = true)
         (paramNames p).

Definition capNames (names : list string) (limit : nat) : list string :=
  if (limit <=? 0)%nat || (length names <=? limit)%nat then names
  else take limit names ++
       ["(+" +:+ itoa (Z.of_nat (length names - limit)) +:+ " more)"].

Definition narrowingHint (p : truncationPolicy) : string :=
  match narrowingParams p with
  | [] => "limit/offset/filters"
  | names => join "/" (capNames names 6)
  end.

(** ** Recognising degraded results *)
Definition IsTruncatedResult (r : option CallToolResult) : bool :=
  match r with
  | None => false
  | Some r => existsb (λ c, match ExtractTextContent c with
                            | Some text => contains TruncationMarker text
                            | None => false
                            end) (r_Content r)
  end.

Definition IsResultTooLargeError (r : option CallToolResult) : bool :=
  match r with
  | None => false
  | Some r => IsError r &&
      existsb (λ c, match ExtractTextContent c with
                    | Some text => has_prefix ResultTooLargeCode text
                    | None => false
                    end) (r_Content r)
  end.

(** ** Sizes *)
Fixpoint text_bytes (cs : list Content) : Z :=
  match cs with
  | [] => 0
  | c :: cs' => match ExtractTextContent c with
                | Some t => bytes t + text_bytes cs'
                | None => text_bytes cs'
                end
  end.

(** ** UTF-8: [strings.ToValidUTF8(s, "")] drops the bytes that start no rune.
    [rune_len] is the length of the rune at the front, 0 for an invalid byte. *)
Definition byte_at (s : string) (i : nat) : Z :=
  match String.get i s with Some a => Z.of_nat (Ascii.nat_of_ascii a) | None => -1 end.
Definition between (lo hi z : Z) : bool := (lo <=? z) && (z <=? hi).
Definition continuation (s : string) (i : nat) : bool := between 128 191 (byte_at s i).

Definition rune_len (s : string) : nat :=
  let b0 := byte_at s 0 in
  let b1 := byte_at s 1 in
  if between 0 127 b0 then 1%nat
  else if between 194 223 b0 then if continuation s 1 then 2%nat else 0%nat
  else if between 224 239 b0 then
    let lo := if b0 =? 224 then 160 else 128 in
    let hi := if b0 =? 237 then 159 else 191 in
    if between lo hi b1 && continuation s 2 then 3%nat else 0%nat
  else if between 240 244 b0 then
    let lo := if b0 =? 240 then 144 else 128 in
    let hi := if b0 =? 244 then 143 else 191 in
    if between lo hi b1 && continuation s 2 && continuation s 3 then 4%nat else 0%nat
  else 0%nat.

(** [keep] bytes of the current rune are still to be copied. *)
Fixpoint ToValidUTF8_from (keep : nat) (s : string) : string :=
  match s with
  | EmptyString => EmptyString
  | String a s' =>
      match keep with
      | S k => String a (ToValidUTF8_from k s')
      | O => match rune_len s with
             | O => ToValidUTF8_from 0 s'
             | S k => String a (ToValidUTF8_from k s')
             end
      end
  end.
Definition ToValidUTF8 (s : string) : string := ToValidUTF8_from 0 s.

Definition clampMessage (msg : string) (maxSize : Z) : string :=
  if (maxSize <=? 0) || (bytes msg <=? maxSize) then msg
  else ToValidUTF8 (string_take (Z.to_nat maxSize) msg).

(** ** Messages *)
Definition oversizeErrorMessage (p : truncationPolicy) (maxSize textBytes structBytes : Z) : string :=
  let name := if bool_decide (toolName p = "") then "this tool" else toolName p in
  ResultTooLargeCode +:+ " " +:+ name +:+ " produced a " +:+ itoa (textBytes + structBytes) +:+
  "-byte result (text " +:+ itoa textBytes +:+ " + structuredContent " +:+ itoa structBytes +:+
  "), over its " +:+ itoa maxSize +:+ "-byte response limit." +:+ newline +:+ newline +:+
  "No partial result was returned. This tool declares an outputSchema, and structuredContent cannot be clipped and still satisfy it " +:+
  em_dash +:+ " a truncated success-shaped result is rejected by schema-validating clients with " +:+
  dquote +:+ "has an output schema but did not return structured content" +:+ dquote +:+
  ", which hides the real cause." +:+ newline +:+ newline +:+
  (match narrowingParams p with
   | [] => "Retry with a narrower request." +:+ newline
   | names => "Retry with a narrower request. Narrowing parameters this tool accepts: " +:+
              join ", " (capNames names maxListedParams) +:+ "." +:+ newline
   end) +:+
  (match paramNames p with
   | [] => ""
   | names => "All parameters " +:+ name +:+ " accepts: " +:+
              join ", " (capNames names maxListedParams) +:+ "." +:+ newline
   end).

Definition limit_text (maxSize : Z) : string :=
  if maxSize <? 1024 then itoa maxSize +:+ "B" else itoa (maxSize / 1024) +:+ "KB".

Definition cutMarker (p : truncationPolicy) (maxSize : Z) (droppedStructured : bool) : string :=
  newline +:+ newline +:+ TruncationMarker +:+ " response exceeded " +:+ limit_text maxSize +:+
  " limit" +:+
  (if droppedStructured
   then "; structuredContent omitted for the same reason " +:+ em_dash +:+ " narrow the request (" +:+
        narrowingHint p +:+ ") for a complete result]"
   else "]").

Definition noticeBlock (p : truncationPolicy) (maxSize structBytes : Z) : string :=
  TruncationMarker +:+ " response exceeded " +:+ limit_text maxSize +:+
  " limit; structuredContent (" +:+ itoa structBytes +:+ " bytes) omitted " +:+ em_dash +:+
  " narrow the request (" +:+ narrowingHint p +:+ ") for a complete result]".

Definition reserve (p : truncationPolicy) (maxSize structBytes : Z) (dropped : bool) : Z :=
  let r := bytes (cutMarker p maxSize dropped) in
  if dropped && (r <? bytes (noticeBlock p maxSize structBytes))
  then bytes (noticeBlock p maxSize structBytes) else r.

(** The loop over the content blocks: [remaining] bytes of text are left, [cut]
    says whether a block has overflowed. *)
Fixpoint cut_blocks (marker : string) (remaining : Z) (cut : bool) (cs : list Content) :
    list Content * bool :=
  match cs with
  | [] => ([], cut)
  | c :: cs' =>
      match ExtractTextContent c with
      | None => let '(r, b) := cut_blocks marker remaining cut cs' in (c :: r, b)
      | Some text =>
          if cut then
            let '(r, b) := cut_blocks marker remaining cut cs' in
            ((if bool_decide (text ≠ "") then MakeTextContent "" else c) :: r, b)
          else if bytes text <=? remaining then
            let '(r, b) := cut_blocks marker (remaining - bytes text) cut cs' in (c :: r, b)
          else
            let '(r, b) := cut_blocks marker 0 true cs' in
            (MakeTextContent (string_take (Z.to_nat remaining) text +:+ marker) :: r, b)
      end
  end.

Section Truncation.
(** [json.Marshal] of the structured content; [None] is its error. *)
Variable marshal : json → option string.

Definition structured_bytes (s : option json) : Z :=
  match s with
  | Some v => match marshal v with Some e => bytes e | None => 0 end
  | None => 0
  end.

Definition result_bytes (r : CallToolResult) : Z :=
  text_bytes (r_Content r) + structured_bytes (StructuredContent r).

Definition truncate_result (r : CallToolResult) (maxSize : Z) (p : truncationPolicy) :
    CallToolResult :=
  let textBytes := text_bytes (r_Content r) in
  let structBytes := if textBytes <=? maxSize then structured_bytes (StructuredContent r) else 0 in
  if textBytes + structBytes <=? maxSize then r else
  match StructuredContent r with
  | Some v =>
      if declaresOutputSchema p then
        let structBytes := if structBytes =? 0 then structured_bytes (Some v) else structBytes in
        MakeErrorResult (clampMessage (oversizeErrorMessage p maxSize textBytes structBytes) maxSize)
      else
        let remaining := Z.max 0 (maxSize - reserve p maxSize structBytes true) in
        let '(cs, cut) := cut_blocks (cutMarker p maxSize true) remaining false (r_Content r) in
        {| r_Content := if cut then cs else cs ++ [MakeTextContent (noticeBlock p maxSize structBytes)];
           StructuredContent := None; IsError := IsError r |}
  | None =>
      let remaining := Z.max 0 (maxSize - reserve p maxSize structBytes false) in
      let '(cs, _) := cut_blocks (cutMarker p maxSize false) remaining false (r_Content r) in
      {| r_Content := cs; StructuredContent := None; IsError := IsError r |}
  end.

Definition truncateResponse (result : option CallToolResult) (maxSize : Z)
    (p : truncationPolicy) : option CallToolResult :=
  match result with
  | None => None
  | Some r => if maxSize <=? 0 then Some r else Some (truncate_result r maxSize p)
  end.

(** ** Handlers

    A handler runs on a context (here: whether it carries a deadline) and a
    request, over a world [W], and returns or panics. *)
Context {Ctx Req W : Type}.
Variable has_deadline : Ctx → bool.
Variable with_timeout : Ctx → duration → Ctx.

Inductive outcome :=
| Returns (result : option CallToolResult) (err : option error)
| Panics (value : string).

Definition ToolHandlerFunc := Ctx → Req → st W outcome.
Definition Middleware :=
  string → ToolDefinition ToolHandlerFunc → ToolHandlerFunc → ToolHandlerFunc.

Definition truncationHandler (next : ToolHandlerFunc) (maxSize : Z) (p : truncationPolicy) :
    ToolHandlerFunc :=
  λ ctx request w,
    match next ctx request w with
    | (Returns result err, w') => (Returns (truncateResponse result maxSize p) err, w')
    | (Panics v, w') => (Panics v, w')
    end.

Record Config := {
  DefaultTimeout : duration;
  MaxResponseSize : Z;
  ToolNamePrefix : string;
  RuntimeGroupMapper : option (string → string);
  MiddlewareChain : list Middleware
}.

(** The chain around the truncated handler, outermost first. *)
Definition middleware_chain (cfg : Config) (name : string)
    (td : ToolDefinition ToolHandlerFunc) : ToolHandlerFunc :=
  let maxSize := effectiveMaxResponseSize td (MaxResponseSize cfg) in
  foldr (λ m next, m name td next)
    (truncationHandler (Handler td) maxSize (truncationPolicyFor name td))
    (MiddlewareChain cfg).

(** [stack] is the stack trace of a recovered panic. *)
Definition wrapHandler (cfg : Config) (name : string) (td : ToolDefinition ToolHandlerFunc)
    (stack : string) (ctx : Ctx) (request : Req) (w : W) :
    (option CallToolResult * option error) * W :=
  let maxSize := effectiveMaxResponseSize td (MaxResponseSize cfg) in
  let timeout := if td_Timeout td =? 0 then DefaultTimeout cfg else td_Timeout td in
  let ctx := if has_deadline ctx then ctx else with_timeout ctx timeout in
  match middleware_chain cfg name td ctx request w with
  | (Returns result err, w') =>
      ((truncateResponse result maxSize (truncationPolicyFor name td), err), w')
  | (Panics v, w') =>
      ((Some (MakeErrorResult ("Internal error in " +:+ name +:+ ": recovered from panic")),
        Some (Err ("panic in " +:+ name +:+ ": " +:+ v +:+ newline +:+ stack))), w')
  end.
End Truncation.
Arguments outcome : clear implicits.
Arguments ToolHandlerFunc : clear implicits.
Arguments Middleware : clear implicits.
Arguments Config : clear implicits.

(** Room the notices can take: what the cap must exceed for the bound to hold. *)
Definition room_needed (marshal : json → option string) (p : truncationPolicy) (maxSize : Z)
    (r : CallToolResult) : Z :=
  Z.max (reserve p maxSize 0 true)
        (reserve p maxSize (structured_bytes marshal (StructuredContent r)) true).

(** A middleware that records its tag before it calls the next handler. *)
Definition tracing {Ctx Req : Type} (tag : string) : Middleware Ctx Req (list string) :=
  λ name td next ctx req w, next ctx req (w ++ [tag]).

(** ** Lemmas *)
Lemma bytes_app s t : bytes (s +:+ t) = bytes s + bytes t.
Proof. unfold bytes. rewrite string_length_app. lia. Qed.

Lemma bytes_nonneg s : 0 <= bytes s.
Proof. unfold bytes. lia. Qed.

Lemma bytes_take n s : 0 <= n -> bytes (string_take (Z.to_nat n) s) = Z.min n (bytes s).
Proof. intros. unfold bytes. rewrite string_length_take. lia. Qed.

Lemma text_bytes_nonneg cs : 0 <= text_bytes cs.
Proof.
  induction cs as [|[t|k] cs IH]; simpl; [lia| |lia]. pose proof (bytes_nonneg t). lia.
Qed.

Lemma text_bytes_app cs ds : text_bytes (cs ++ ds) = text_bytes cs + text_bytes ds.
Proof. induction cs as [|[t|k] cs IH]; simpl; lia. Qed.

Lemma ToValidUTF8_from_length k s : bytes (ToValidUTF8_from k s) <= bytes s.
Proof.
  unfold bytes. revert k; induction s as [|a s IH]; intros k; [simpl; lia|].
  cbn [ToValidUTF8_from String.length].
  destruct k as [|k]; [destruct (rune_len (String a s)) as [|k]|]; cbn [String.length];
    [specialize (IH 0%nat)|specialize (IH k)..]; lia.
Qed.

Lemma clampMessage_bytes msg n : 0 < n → bytes (clampMessage msg n) <= n.
Proof.
  intros Hn. unfold clampMessage. destruct (Z.leb_spec n 0); [lia|]. simpl.
  destruct (Z.leb_spec (bytes msg) n); [done|]. unfold ToValidUTF8.
  pose proof (ToValidUTF8_from_length 0 (string_take (Z.to_nat n) msg)) as H1.
  rewrite bytes_take in H1 by lia. lia.
Qed.

Fixpoint all_ascii (s : string) : bool :=
  match s with
  | EmptyString => true
  | String a s' => between 0 127 (Z.of_nat (Ascii.nat_of_ascii a)) && all_ascii s'
  end.

Lemma ToValidUTF8_ascii p s :
  all_ascii p = true → ToValidUTF8 (p +:+ s) = p +:+ ToValidUTF8 s.
Proof.
  unfold ToValidUTF8. induction p as [|a p IH]; [done|]. cbn [all_ascii].
  intros [Ha Hp]%andb_true_iff.
  change (String a p +:+ s) with (String a (p +:+ s)). cbn [ToValidUTF8_from].
  assert (Hr : rune_len (String a (p +:+ s)) = 1%nat).
  { unfold rune_len, byte_at. cbn [String.get]. by rewrite Ha. }
  rewrite Hr, IH by done. done.
Qed.

Lemma string_take_app_ge n p s :
  (String.length p <= n)%nat →
  string_take n (p +:+ s) = p +:+ string_take (n - String.length p) s.
Proof.
  revert n; induction p as [|a p IH]; intros n Hn; simpl in *; [by rewrite Nat.sub_0_r|].
  destruct n as [|n]; [lia|]. simpl. by rewrite IH by lia.
Qed.

Lemma clampMessage_prefix p s n :
  all_ascii p = true → bytes p <= n → has_prefix p (clampMessage (p +:+ s) n) = true.
Proof.
  intros Hp Hn. apply has_prefix_spec. unfold clampMessage.
  destruct ((n <=? 0) || (bytes (p +:+ s) <=? n)); [eauto|].
  rewrite string_take_app_ge by (unfold bytes in Hn; lia).
  rewrite ToValidUTF8_ascii by done. eauto.
Qed.

Lemma contains_app_r sub s t : contains sub s = true → contains sub (t +:+ s) = true.
Proof. intros H. induction t as [|a t IH]; simpl; [done|]. rewrite IH. apply orb_true_r. Qed.

Lemma contains_prefix sub s : contains sub (sub +:+ s) = true.
Proof.
  assert (H : has_prefix sub (sub +:+ s) = true) by (apply has_prefix_spec; eauto).
  destruct (sub +:+ s); simpl in *; by rewrite H.
Qed.

Lemma cutMarker_marked p n d : contains TruncationMarker (cutMarker p n d) = true.
Proof. unfold cutMarker. do 2 apply contains_app_r. apply contains_prefix. Qed.

Lemma noticeBlock_marked p n sb : contains TruncationMarker (noticeBlock p n sb) = true.
Proof. unfold noticeBlock. apply contains_prefix. Qed.

(** The reservation without structured content is the smaller one. *)
Lemma cutMarker_mono p n : bytes (cutMarker p n false) <= bytes (cutMarker p n true).
Proof.
  unfold cutMarker. rewrite !bytes_app.
  assert (bytes "]" = 1) as -> by done.
  set (a := "; structuredContent omitted for the same reason ").
  assert (1 <= bytes a) by (vm_compute; discriminate).
  set (b := " narrow the request ("). set (c := ") for a complete result]"). clearbody a b c.
  pose proof (bytes_nonneg em_dash). pose proof (bytes_nonneg (narrowingHint p)).
  pose proof (bytes_nonneg b). pose proof (bytes_nonneg c). lia.
Qed.

#[local] Opaque cutMarker noticeBlock.

Lemma reserve_ge p n sb d :
  bytes (cutMarker p n d) <= reserve p n sb d ∧
  (d = true → bytes (noticeBlock p n sb) <= reserve p n sb d).
Proof.
  unfold reserve. generalize (bytes (cutMarker p n d)) (bytes (noticeBlock p n sb)).
  intros x y. destruct d; cbn [andb]; [|split; [lia|done]].
  destruct (Z.ltb_spec x y); lia.
Qed.

Lemma reserve_false_le p n sb : reserve p n sb false <= reserve p n 0 true.
Proof.
  assert (reserve p n sb false = bytes (cutMarker p n false)) as ->.
  { unfold reserve. cbn [andb]. reflexivity. }
  etransitivity; [apply cutMarker_mono|]. apply (proj1 (reserve_ge p n 0 true)).
Qed.

(** The loop: once cut, no text follows; otherwise the blocks kept fit in the
    budget, and the one that overflowed takes what was left plus the marker. *)
Lemma cut_blocks_cut m rem cs : ∃ r, cut_blocks m rem true cs = (r, true) ∧ text_bytes r = 0.
Proof.
  revert rem; induction cs as [|[t|k] cs IH]; intros rem; simpl; [by eexists| |].
  - destruct (IH rem) as (r & -> & Hr). eexists; split; [done|]. simpl.
    case_bool_decide as Ht; simpl; [done|].
    destruct (decide (t = "")) as [->|]; [by rewrite Hr|done].
  - destruct (IH rem) as (r & -> & Hr). by eexists.
Qed.

Lemma cut_blocks_spec m rem cs :
  0 <= rem →
  let '(r, b) := cut_blocks m rem false cs in
  if b then text_bytes r = rem + bytes m ∧ rem < text_bytes cs ∧
            (contains TruncationMarker m = true →
             existsb (λ c, match ExtractTextContent c with
                           | Some text => contains TruncationMarker text
                           | None => false
                           end) r = true)
  else r = cs ∧ text_bytes cs <= rem.
Proof.
  revert rem; induction cs as [|[t|k] cs IH]; intros rem Hrem; simpl; [by split| |].
  - destruct (Z.leb_spec (bytes t) rem) as [Hle|Hgt].
    + specialize (IH (rem - bytes t) ltac:(lia)).
      destruct (cut_blocks m (rem - bytes t) false cs) as [r [|]]; simpl; [|intuition (congruence || lia)].
      destruct IH as (H1 & H2 & H3). split; [lia|]. split; [lia|]. intros Hm. rewrite H3 by done. apply orb_true_r.
    + destruct (cut_blocks_cut m 0 cs) as (r & -> & Hr). simpl.
      rewrite Hr, bytes_app, bytes_take by lia. pose proof (text_bytes_nonneg cs).
      split; [lia|]. split; [lia|]. intros Hm. rewrite (contains_app_r _ _ _ Hm). done.
  - specialize (IH rem Hrem). destruct (cut_blocks m rem false cs) as [r [|]]; simpl in *; intuition congruence.
Qed.

Lemma IsResultTooLargeError_text t :
  IsResultTooLargeError (Some (MakeErrorResult t)) = has_prefix ResultTooLargeCode t.
Proof.
  unfold IsResultTooLargeError, MakeErrorResult, MakeTextContent.
  cbn [IsError r_Content existsb ExtractTextContent andb]. apply orb_false_r.
Qed.

Section Bounds.
Context (marshal : json → option string).

Lemma structured_bytes_nonneg s : 0 <= structured_bytes marshal s.
Proof. unfold structured_bytes. repeat case_match; try lia; apply bytes_nonneg. Qed.

Lemma within_cap_unchanged r n p :
  result_bytes marshal r <= n → truncateResponse marshal (Some r) n p = Some r.
Proof.
  unfold result_bytes, truncateResponse, truncate_result. intros H.
  pose proof (structured_bytes_nonneg (StructuredContent r)).
  destruct (n <=? 0); [done|].
  destruct (Z.leb_spec (text_bytes (r_Content r)) n); [|lia].
  destruct (Z.leb_spec (text_bytes (r_Content r) + structured_bytes marshal (StructuredContent r)) n); [done|lia].
Qed.

(** What [truncate_result] returns, by case. *)
Lemma truncate_result_cases r n p :
  0 < n →
  let r' := truncate_result marshal r n p in
  (r' = r ∧ result_bytes marshal r <= n) ∨
  (n < result_bytes marshal r ∧ StructuredContent r ≠ None ∧ declaresOutputSchema p = true ∧
   ∃ msg, r' = MakeErrorResult (clampMessage (ResultTooLargeCode +:+ msg) n)) ∨
  (n < result_bytes marshal r ∧ (StructuredContent r = None ∨ declaresOutputSchema p = false) ∧
   StructuredContent r' = None ∧ IsError r' = IsError r ∧ IsTruncatedResult (Some r') = true ∧
   text_bytes (r_Content r') <= Z.max n (room_needed marshal p n r)).
Proof.
  intros Hn. unfold truncate_result, result_bytes. set (sb := structured_bytes marshal (StructuredContent r)).
  pose proof (structured_bytes_nonneg (StructuredContent r)) as Hsb. fold sb in Hsb.
  set (sb' := if text_bytes (r_Content r) <=? n then sb else 0).
  assert (Hsb' : sb' = sb ∨ sb' = 0) by (unfold sb'; case_match; auto).
  destruct (Z.leb_spec (text_bytes (r_Content r) + sb') n) as [Hle|Hgt].
  { left. split; [done|]. unfold sb' in Hle. destruct (Z.leb_spec (text_bytes (r_Content r)) n); lia. }
  right.
  assert (Hgt' : n < text_bytes (r_Content r) + sb) by lia.
  destruct (StructuredContent r) as [v|] eqn:Es; [destruct (declaresOutputSchema p) eqn:Ed|].
  - left. split; [done|]. split; [done|]. split; [done|]. by eexists.
  - right. set (rem := Z.max 0 (n - reserve p n sb' true)).
    pose proof (cut_blocks_spec (cutMarker p n true) rem (r_Content r) ltac:(lia)) as Hc.
    pose proof (reserve_ge p n sb' true) as [Hr1 Hr2]. specialize (Hr2 eq_refl).
    assert (reserve p n sb' true <= room_needed marshal p n r).
    { unfold room_needed. rewrite Es. change (structured_bytes marshal (Some v)) with sb. destruct Hsb' as [->| ->]; lia. }
    destruct (cut_blocks (cutMarker p n true) rem false (r_Content r)) as [cs [|]]; simpl;
      (split; [done|]; split; [by right|]; split; [done|]; split; [done|]).
    + destruct Hc as (H1 & H2 & H3). split; [by apply H3, cutMarker_marked|]. lia.
    + destruct Hc as (-> & H2). rewrite text_bytes_app. simpl. split; [|lia].
      rewrite existsb_app. apply orb_true_iff. right. simpl. apply orb_true_iff. left.
      apply noticeBlock_marked.
  - right. set (rem := Z.max 0 (n - reserve p n sb' false)).
    pose proof (cut_blocks_spec (cutMarker p n false) rem (r_Content r) ltac:(lia)) as Hc.
    pose proof (reserve_ge p n sb' false) as [Hr1 _].
    pose proof (reserve_false_le p n sb') as Hrf.
    assert (reserve p n sb' false <= room_needed marshal p n r) by (unfold room_needed; lia).
    pose proof (bytes_nonneg (cutMarker p n false)).
    destruct (cut_blocks (cutMarker p n false) rem false (r_Content r)) as [cs [|]]; simpl.
    + destruct Hc as (H1 & H2 & H3).
      split; [done|]. split; [by left|]. split; [done|]. split; [done|]. split; [by apply H3, cutMarker_marked|]. lia.
    + destruct Hc as (-> & H2). simpl in sb. unfold sb in *. lia.
Qed.

Lemma truncate_result_bound r n p :
  0 < n → room_needed marshal p n r <= n → result_bytes marshal (truncate_result marshal r n p) <= n.
Proof.
  intros Hn Hroom.
  destruct (truncate_result_cases r n p Hn) as [[-> H]|[(_ & _ & _ & msg & ->)|(_ & _ & H1 & _ & _ & H2)]].
  - done.
  - unfold result_bytes, MakeErrorResult, MakeTextContent.
    cbn [r_Content StructuredContent text_bytes structured_bytes ExtractTextContent].
    pose proof (clampMessage_bytes (ResultTooLargeCode +:+ msg) n Hn). lia.
  - unfold result_bytes. rewrite H1. simpl. lia.
Qed.
End Bounds.

(** C5.  The cap holds over the whole result, structured half included, and a
    second pass changes nothing: for any result and any tool policy, provided
    the cap has room for the notice itself. *)
Theorem truncation_bounded_idempotent marshal r n p :
  0 < n → room_needed marshal p n r <= n →
  ∃ r', truncateResponse marshal (Some r) n p = Some r' ∧ result_bytes marshal r' <= n ∧
        truncateResponse marshal (Some r') n p = Some r'.
Proof.
  intros Hn Hroom. eexists. unfold truncateResponse at 1.
  destruct (Z.leb_spec n 0); [lia|]. split; [done|].
  pose proof (truncate_result_bound marshal r n p Hn Hroom) as H1. split; [done|].
  by apply within_cap_unchanged.
Qed.

(** Nothing is cut silently, and no schema-declaring tool ever returns a
    success-shaped result whose structured half was dropped: a result is passed
    on untouched exactly when it fits; otherwise it is refused with
    [RESULT_TOO_LARGE] as an error, when the tool declares an output schema and
    had structured content, or it carries the truncation marker. *)
Theorem truncation_never_silent marshal r n p :
  bytes ResultTooLargeCode <= n →
  let r' := truncate_result marshal r n p in
  if result_bytes marshal r <=? n then r' = r
  else if match StructuredContent r with Some _ => declaresOutputSchema p | None => false end
  then IsError r' = true ∧ IsResultTooLargeError (Some r') = true
  else IsTruncatedResult (Some r') = true ∧ StructuredContent r' = None ∧ IsError r' = IsError r.
Proof.
  intros Hn. assert (0 < n) as Hp by (unfold bytes in Hn; simpl in Hn; lia).
  pose proof (truncate_result_cases marshal r n p Hp) as H. cbv zeta in *.
  destruct (Z.leb_spec (result_bytes marshal r) n) as [Hle|Hgt].
  - pose proof (within_cap_unchanged marshal r n p Hle) as Hw. unfold truncateResponse in Hw.
    destruct (Z.leb_spec n 0); [lia|]. by injection Hw.
  - destruct H as [[_ ?]|[(_ & Hs & Hd & msg & ->)|(_ & Hs & H1 & H2 & H3 & _)]]; [lia| |].
    + destruct (StructuredContent r); [|done]. rewrite Hd. split; [done|].
      rewrite IsResultTooLargeError_text. by apply clampMessage_prefix.
    + destruct (StructuredContent r) as [v|]; [destruct Hs as [Hs|Hs]; [done|]; rewrite Hs|]; done.
Qed.

(** The room condition is needed: under a cap smaller than the marker, the
    bounded result exceeds the cap, and the second pass stamps another marker
    that no longer says the structured content was omitted. *)
Theorem tiny_cap_overshoots :
  let marshal := λ _ : json, Some "null" in
  let p := {| toolName := "t"; declaresOutputSchema := false; paramNames := [] |} in
  let r := {| r_Content := [TextContent "0123456789abcdef"]; StructuredContent := Some JNull;
              IsError := false |} in
  let r1 := truncate_result marshal r 10 p in
  10 < result_bytes marshal r1 ∧ truncate_result marshal r1 10 p ≠ r1.
Proof.
  split; [vm_compute; reflexivity|]. intros H.
  apply (f_equal (λ r, map (λ c, match c with TextContent t => t | _ => "" end) (r_Content r))) in H.
  vm_compute in H. discriminate H.
Qed.

(** *** What a client is delivered
    The blocks behind the one that was cut keep their kind and lose their text. *)
Definition blanked (c : Content) : Content := match c with TextContent _ => TextContent "" | OtherContent k => OtherContent k end.
(** [cs'] is [cs] with one text cut short and marked, and no text behind it. *)
Definition clipped (cs cs' : list Content) : Prop :=
  ∃ front text rest k marker, cs = front ++ TextContent text :: rest ∧
    cs' = front ++ TextContent (string_take k text +:+ marker) :: map blanked rest ∧
    (k < String.length text)%nat ∧ contains TruncationMarker marker = true.
(** [cs'] is [cs] with a notice behind it. *)
Definition noticed (cs cs' : list Content) : Prop := ∃ notice, cs' = cs ++ [TextContent notice] ∧ contains TruncationMarker notice = true.
(** What a result over the cap [n] becomes: a refusal if the tool declares an output schema and there is structured content to drop;
    else the result without its structured content, cut or with a notice. *)
Definition delivered (marshal : json → option string) (n : Z) (p : truncationPolicy) (r r' : CallToolResult) : Prop :=
  if decide (n <= 0 ∨ result_bytes marshal r <= n) then r' = r
  else if match StructuredContent r with Some _ => declaresOutputSchema p | None => false end
  then IsError r' = true ∧ StructuredContent r' = None ∧ (∃ text, r_Content r' = [TextContent text] ∧ bytes text <= n) ∧
       (bytes ResultTooLargeCode <= n → IsResultTooLargeError (Some r') = true)
  else IsError r' = IsError r ∧ StructuredContent r' = None ∧
       (clipped (r_Content r) (r_Content r') ∨ StructuredContent r ≠ None ∧ noticed (r_Content r) (r_Content r')) ∧
       (room_needed marshal p n r <= n → result_bytes marshal r' <= n).

Lemma cut_blocks_blanked m rem cs : cut_blocks m rem true cs = (map blanked cs, true).
Proof.
  revert rem. induction cs as [|[t|k] cs IH]; intros rem; [done|..]; cbn [cut_blocks ExtractTextContent map blanked]; rewrite IH; [|done].
  case_bool_decide as Ht; [done|]. destruct (decide (t = "")) as [->|]; done.
Qed.
Lemma cut_blocks_clipped m rem cs : 0 <= rem → contains TruncationMarker m = true →
  let '(r, b) := cut_blocks m rem false cs in if b then clipped cs r else r = cs.
Proof.
  intros Hrem Hm. revert rem Hrem. induction cs as [|[t|k] cs IH]; intros rem Hrem; [done|..]; cbn [cut_blocks ExtractTextContent].
  - destruct (Z.leb_spec (bytes t) rem) as [Hle|Hgt].
    + specialize (IH (rem - bytes t) ltac:(lia)). destruct (cut_blocks m (rem - bytes t) false cs) as [r [|]]; [|by subst].
      destruct IH as (front & text & rest & k & mk & -> & -> & Hk). by exists (TextContent t :: front), text, rest, k, mk.
    + rewrite cut_blocks_blanked. exists [], t, cs, (Z.to_nat rem), m. split; [done|]. split; [done|]. split; [|done]. unfold bytes in Hgt. lia.
  - specialize (IH rem Hrem). destruct (cut_blocks m rem false cs) as [r [|]]; [|by subst].
    destruct IH as (front & text & rest & k' & mk & -> & -> & Hk). by exists (OtherContent k :: front), text, rest, k', mk.
Qed.
Lemma truncate_delivered marshal r n p : 0 < n → delivered marshal n p r (truncate_result marshal r n p).
Proof.
  intros Hn. unfold delivered. destruct (decide _) as [Hfit|Hbig].
  { destruct Hfit as [?|Hfit]; [lia|]. pose proof (within_cap_unchanged marshal r n p Hfit) as H. unfold truncateResponse in H.
    destruct (Z.leb_spec n 0); [lia|]. by injection H. }
  assert (n < result_bytes marshal r) as Hgt by lia. pose proof (truncate_result_cases marshal r n p Hn) as Hcases.
  pose proof (truncate_result_bound marshal r n p Hn) as Hbound. unfold truncate_result in *.
  unfold result_bytes in Hgt. set (sb := structured_bytes marshal (StructuredContent r)) in *.
  set (sb' := if text_bytes (r_Content r) <=? n then sb else 0) in *.
  assert (text_bytes (r_Content r) + sb' <=? n = false) as Hnot.
  { unfold sb'. destruct (Z.leb_spec (text_bytes (r_Content r)) n); apply Z.leb_gt; lia. }
  rewrite Hnot in *. destruct (StructuredContent r) as [v|] eqn:Es; [destruct (declaresOutputSchema p) eqn:Ed|].
  - split; [done|]. split; [done|]. split; [eexists; split; [done|by apply clampMessage_bytes]|]. intros Hcode.
    rewrite IsResultTooLargeError_text. by apply clampMessage_prefix.
  - set (rem := Z.max 0 (n - reserve p n sb' true)) in *.
    pose proof (cut_blocks_clipped (cutMarker p n true) rem (r_Content r) ltac:(lia) (cutMarker_marked _ _ _)) as Hc.
    destruct (cut_blocks (cutMarker p n true) rem false (r_Content r)) as [cs [|]]; cbn [IsError StructuredContent r_Content] in *;
      (split; [done|]; split; [done|]; split; [|done]); [by left|right]. subst cs. split; [done|]. eexists. split; [done|]. apply noticeBlock_marked.
  - set (rem := Z.max 0 (n - reserve p n sb' false)) in *.
    pose proof (cut_blocks_clipped (cutMarker p n false) rem (r_Content r) ltac:(lia) (cutMarker_marked _ _ _)) as Hc.
    pose proof (cut_blocks_spec (cutMarker p n false) rem (r_Content r) ltac:(lia)) as Hs.
    pose proof (reserve_ge p n sb' false) as [Hr1 _]. pose proof (bytes_nonneg (cutMarker p n false)).
    destruct (cut_blocks (cutMarker p n false) rem false (r_Content r)) as [cs [|]]; cbn [IsError StructuredContent r_Content] in *.
    + split; [done|]. split; [done|]. split; [by left|done].
    + destruct Hs as [-> Hs]. change sb with 0 in Hgt. unfold reserve in *. cbn [andb] in *. lia.
Qed.
Definition option_delivered (marshal : json → option string) (n : Z) (p : truncationPolicy) (r r' : option CallToolResult) : Prop :=
  match r, r' with None, None => True | Some r, Some r' => delivered marshal n p r r' | _, _ => False end.
Lemma truncateResponse_delivered marshal r n p : option_delivered marshal n p r (truncateResponse marshal r n p).
Proof.
  destruct r as [r|]; [|done]. cbn [truncateResponse]. destruct (Z.leb_spec n 0) as [Hn|Hn]; [|by apply truncate_delivered].
  cbn. unfold delivered. by destruct (decide _) as [|[]]; [|left].
Qed.

(** *** The chain
    [hs] are the handlers from the outermost to the innermost, each made by its middleware from the next. *)
Definition layers {Ctx Req W : Type} (chain : list (Middleware Ctx Req W)) name td (hs : list (ToolHandlerFunc Ctx Req W)) : Prop :=
  length hs = S (length chain) ∧
  ∀ i m, chain !! i = Some m → ∃ next, hs !! S i = Some next ∧ hs !! i = Some (m name td next).
Lemma layers_chain {Ctx Req W : Type} (chain : list (Middleware Ctx Req W)) name td inner :
  ∃ hs, layers chain name td hs ∧ hs !! 0%nat = Some (foldr (λ m next, m name td next) inner chain) ∧ last hs = Some inner.
Proof.
  induction chain as [|m chain IH].
  - exists [inner]. split; [split; [done|]|done]. intros i m H. by rewrite lookup_nil in H.
  - destruct IH as (hs & [Hl Hh] & H0 & Hlast). exists (foldr (λ m next, m name td next) inner (m :: chain) :: hs). split; [split; [cbn; by rewrite Hl|]|].
    + intros [|i] m' Hi; [injection Hi as <-; by eexists|]. exact (Hh i m' Hi).
    + split; [done|]. destruct hs; [done|]. exact Hlast.
Qed.

(** C33.  The handler the server gets runs the layers of the chain, the first middleware outermost, around the tool's own handler, whose
    result is delivered within the cap, in a context with the tool's time limit unless it has a deadline already.  If the outermost layer
    returns, its error is answered, and its result as delivered: the result itself if it fits; else a refusal if the tool declares
    an output schema and there was structured content; else its content cut at one block and marked, or with a notice, with
    the same error flag and, when the cap has room for the notice, within the cap.  A panic anywhere becomes an error result and
    an error. *)
Theorem wrapHandler_contract {Ctx Req W : Type} marshal (hd : Ctx → bool) (wt : Ctx → duration → Ctx)
    (cfg : Config Ctx Req W) name td stack (ctx : Ctx) (req : Req) (w : W) :
  let n := effectiveMaxResponseSize td (MaxResponseSize cfg) in
  let p := truncationPolicyFor name td in
  let ctx' := if hd ctx then ctx else wt ctx (if td_Timeout td =? 0 then DefaultTimeout cfg else td_Timeout td) in
  ∃ hs outer inner, layers (MiddlewareChain cfg) name td hs ∧ hs !! 0%nat = Some outer ∧ last hs = Some inner ∧
    (∀ c q w, match Handler td c q w with
              | (Returns r e, w1) => ∃ r', option_delivered marshal n p r r' ∧ inner c q w = (Returns r' e, w1)
              | (Panics v, w1) => inner c q w = (Panics v, w1)
              end) ∧
    let '((res, err), w') := wrapHandler marshal hd wt cfg name td stack ctx req w in
    match outer ctx' req w with
    | (Returns r e, w1) => err = e ∧ w' = w1 ∧ option_delivered marshal n p r res
    | (Panics v, w1) => IsResultError res = true ∧ err ≠ None ∧ w' = w1
    end.
Proof.
  cbv zeta. set (n := effectiveMaxResponseSize td (MaxResponseSize cfg)). set (p := truncationPolicyFor name td).
  destruct (layers_chain (MiddlewareChain cfg) name td (truncationHandler marshal (Handler td) n p)) as (hs & Hl & H0 & Hlast).
  exists hs, (middleware_chain marshal cfg name td), (truncationHandler marshal (Handler td) n p). do 3 (split; [done|]). split.
  - intros c q w0. unfold truncationHandler. destruct (Handler td c q w0) as [[r e|v] w1]; [|done].
    eexists. split; [apply truncateResponse_delivered|done].
  - unfold wrapHandler. destruct (middleware_chain _ _ _ _ _ _ _) as [[r e|v] w1]; [|done].
    split; [done|]. split; [done|]. apply truncateResponse_delivered.
Qed.

Lemma chain_tracing {Ctx Req : Type} marshal (cfg : Config Ctx Req (list string)) tags name td ctx req w :
  MiddlewareChain cfg = map tracing tags →
  middleware_chain marshal cfg name td ctx req w =
  truncationHandler marshal (Handler td) (effectiveMaxResponseSize td (MaxResponseSize cfg))
    (truncationPolicyFor name td) ctx req (w ++ tags).
Proof.
  intros H. unfold middleware_chain. rewrite H. clear H. revert w.
  induction tags as [|t tags IH]; intros w; simpl; [by rewrite app_nil_r|].
  unfold tracing at 1. rewrite IH. by rewrite <- app_assoc.
Qed.

(** Middleware runs in configuration order, outermost first, and the tool's
    handler runs after all of it, exactly once. *)
Theorem middleware_outermost_first {Ctx Req : Type} marshal (hd : Ctx → bool) (wt : Ctx → duration → Ctx)
    (cfg : Config Ctx Req (list string))
    tags name td stack (ctx : Ctx) (req : Req) w :
  hd ctx = true → MiddlewareChain cfg = map tracing tags →
  (wrapHandler marshal hd wt cfg name td stack ctx req w).2 = (Handler td ctx req (w ++ tags)).2.
Proof.
  intros Hd Hc. unfold wrapHandler. rewrite Hd. rewrite (chain_tracing marshal cfg tags) by done.
  unfold truncationHandler. by destruct (Handler td ctx req (w ++ tags)) as [[r e|v] w1].
Qed.

(** ** Witnesses *)
Definition big_result : CallToolResult := {|
  r_Content := [TextContent (string_take 300 (join "," (repeat "0123456789" 40)))];
  StructuredContent := Some JNull; IsError := false |}.
Definition schema_policy : truncationPolicy :=
  {| toolName := "t"; declaresOutputSchema := true; paramNames := ["limit"] |}.

Lemma truncation_bounded_idempotent_witness :
  ∃ r', truncateResponse (λ _, Some "null") (Some big_result) 250 schema_policy = Some r' ∧
        result_bytes (λ _, Some "null") r' <= 250 ∧
        truncateResponse (λ _, Some "null") (Some r') 250 schema_policy = Some r'.
Proof.
  apply (truncation_bounded_idempotent (λ _, Some "null") big_result 250 schema_policy).
  - lia.
  - vm_compute. discriminate.
Defined.

Lemma truncation_never_silent_witness :
  let r' := truncate_result (λ _, Some "null") big_result 250 schema_policy in
  if result_bytes (λ _, Some "null") big_result <=? 250 then r' = big_result
  else if match StructuredContent big_result with
          | Some _ => declaresOutputSchema schema_policy | None => false end
  then IsError r' = true ∧ IsResultTooLargeError (Some r') = true
  else IsTruncatedResult (Some r') = true ∧ StructuredContent r' = None ∧ IsError r' = IsError big_result.
Proof.
  apply (truncation_never_silent (λ _, Some "null") big_result 250 schema_policy).
  vm_compute. discriminate.
Defined.

Definition plain_tool : Tool := {|
  Name := "get"; Title := ""; Description := "";
  Annotations := {| ann_Title := ""; ReadOnlyHint := None; DestructiveHint := None;
                    IdempotentHint := None; OpenWorldHint := None |};
  InputSchema := {| sch_Type := ""; sch_Properties := ∅; sch_Required := []; sch_Additional := None |};
  ToolOutputSchema := {| sch_Type := ""; sch_Properties := ∅; sch_Required := []; sch_Additional := None |};
  Meta := None; ToolDeferLoading := false |}.
Definition plain_definition {H} (h : H) (t : Tool) : ToolDefinition H := {|
  td_Tool := t; Handler := h; Category := ""; Subcategory := ""; Tags := []; SearchTerms := [];
  Complexity := "simple"; IsWrite := false; Deprecated := false; td_Timeout := 0; CircuitBreakerGroup := "";
  RuntimeGroup := "";
  OutputSchema := None; MaxResultChars := 0; DeferLoading := false; AlwaysLoad := false;
  SkipRequiresUserInteraction := false; DestructiveOverride := None; IdempotentOverride := None;
  ReadOnlyOverride := None |}.

Lemma middleware_outermost_first_witness :
  (wrapHandler (λ _, None) (λ _ : unit, true) (λ c _, c)
     {| DefaultTimeout := Second; MaxResponseSize := 100; ToolNamePrefix := "";
        RuntimeGroupMapper := None; MiddlewareChain := map tracing ["auth"; "log"] |}
     "get" (plain_definition (λ (_ : unit) (_ : unit) w, (Returns None None, w ++ ["handler"])) plain_tool)
     "" tt tt []).2 = ["auth"; "log"; "handler"].
Proof.
  apply (middleware_outermost_first (λ _, None) (λ _ : unit, true) (λ c _, c)
     {| DefaultTimeout := Second; MaxResponseSize := 100; ToolNamePrefix := "";
        RuntimeGroupMapper := None; MiddlewareChain := map tracing ["auth"; "log"] |} ["auth"; "log"]).
  - reflexivity.
  - reflexivity.
Defined.
