(* ===== verification/Registry.v ===== *)
(** The tool registry (src/registry/registry.go, deferred.go, dynamic.go):
    registration, lookup, listings, statistics, deferred loading, filters,
    runtime changes with notification, and publication to a server. *)

From stdpp Require Import base tactics list gmap strings sorting relations.
From Stdlib Require Import ZArith Lia.
From S2P Require Import Prelude Tool Truncate.

Local Open Scope Z_scope.

Section Registry.
Context {Ctx Req W : Type}.
Variable marshal : json → option string.
Variable has_deadline : Ctx → bool.
Variable with_timeout : Ctx → duration → Ctx.
(** The stack trace a recovered panic would carry. *)
Variable stack : string.

(** Handlers and definitions. *)
Definition Handler_t := ToolHandlerFunc Ctx Req W.
Definition TD := ToolDefinition Handler_t.
Definition Cfg := Config Ctx Req W.

(** ** Data *)
Record ToolModule := {
  mod_Name : string;
  mod_Description : string;
  mod_Tools : list TD
}.

Record ToolRegistry := {
  modules : gmap string ToolModule;
  tools : gmap string TD;
  deferred : gmap string bool;
  config : Cfg
}.

(** A server's tool table: a descriptor and the handler published for it. *)
Definition MCPServer :=
  gmap string (Tool * (Ctx → Req → W → (option CallToolResult * option error) * W)).

Definition DefaultToolTimeout : duration := 30 * Second.
Definition DefaultMaxResponseSize : Z := 128 * 1024.

Definition zero_Config : Cfg := {|
  DefaultTimeout := 0; MaxResponseSize := 0; ToolNamePrefix := "";
  RuntimeGroupMapper := None; MiddlewareChain := [] |}.

Definition NewToolRegistry (cfgs : list Cfg) : ToolRegistry :=
  let cfg := match cfgs with c :: _ => c | [] => zero_Config end in {|
  modules := ∅; tools := ∅; deferred := ∅;
  config := {|
    DefaultTimeout := if DefaultTimeout cfg =? 0 then DefaultToolTimeout else DefaultTimeout cfg;
    MaxResponseSize := if MaxResponseSize cfg =? 0 then DefaultMaxResponseSize else MaxResponseSize cfg;
    ToolNamePrefix := ToolNamePrefix cfg;
    RuntimeGroupMapper := RuntimeGroupMapper cfg;
    MiddlewareChain := MiddlewareChain cfg |} |}.

(** Field updates. *)
Definition set_maps (m : gmap string ToolModule) (t : gmap string TD) (d : gmap string bool)
    (r : ToolRegistry) : ToolRegistry :=
  {| modules := m; tools := t; deferred := d; config := config r |}.

Definition SetMiddleware (r : ToolRegistry) (mws : list (Middleware Ctx Req W)) : ToolRegistry := {|
  modules := modules r; tools := tools r; deferred := deferred r;
  config := {|
    DefaultTimeout := DefaultTimeout (config r); MaxResponseSize := MaxResponseSize (config r);
    ToolNamePrefix := ToolNamePrefix (config r);
    RuntimeGroupMapper := RuntimeGroupMapper (config r); MiddlewareChain := mws |} |}.

(** ** Registration *)
Definition tool_name (td : TD) : string := Name (td_Tool td).

Definition register_tool (r : ToolRegistry) (td : TD) : ToolRegistry :=
  let td := complete_definition (RuntimeGroupMapper (config r)) td in
  set_maps (modules r) (<[tool_name td := td]> (tools r)) (deferred r) r.

Definition RegisterModule (r : ToolRegistry) (m : ToolModule) : ToolRegistry :=
  foldl register_tool
    (set_maps (<[mod_Name m := m]> (modules r)) (tools r) (deferred r) r) (mod_Tools m).

Definition register_deferred_tool (deferredTools : gmap string bool) (r : ToolRegistry) (td : TD) :
    ToolRegistry :=
  let td := complete_definition (RuntimeGroupMapper (config r)) td in
  let mark := default false (deferredTools !! tool_name td) in
  let td := if mark then set_DeferLoading true td else td in
  set_maps (modules r) (<[tool_name td := td]> (tools r))
    (if mark then <[tool_name td := true]> (deferred r) else deferred r) r.

Definition RegisterDeferredModule (r : ToolRegistry) (m : ToolModule)
    (deferredTools : gmap string bool) : ToolRegistry :=
  foldl (register_deferred_tool deferredTools)
    (set_maps (<[mod_Name m := m]> (modules r)) (tools r) (deferred r) r) (mod_Tools m).

Definition SetDeferred (r : ToolRegistry) (name : string) (b : bool) : ToolRegistry :=
  match tools r !! name with
  | None => r
  | Some td =>
      set_maps (modules r) (<[name := set_DeferLoading b td]> (tools r))
        (if b then <[name := true]> (deferred r) else delete name (deferred r)) r
  end.

(** ** Lookup and listings *)
Definition GetTool (r : ToolRegistry) (name : string) : option TD := tools r !! name.
Definition GetModule (r : ToolRegistry) (name : string) : option ToolModule := modules r !! name.
Definition ListModules (r : ToolRegistry) : list string := sorted_keys (modules r).
Definition ListTools (r : ToolRegistry) : list string := sorted_keys (tools r).
Definition ListToolsByCategory (r : ToolRegistry) (c : string) : list string :=
  sorted_keys (filter (λ p : string * TD, Category p.2 = c) (tools r)).
Definition ListToolsByRuntimeGroup (r : ToolRegistry) (g : string) : list string :=
  sorted_keys (filter (λ p : string * TD, RuntimeGroup p.2 = g) (tools r)).
Definition ToolCount (r : ToolRegistry) : nat := size (tools r).
Definition ModuleCount (r : ToolRegistry) : nat := size (modules r).

(** Go iterates over a map in no fixed order: an unsorted listing is one
    enumeration of the entries. *)
Definition GetAllToolDefinitions (r : ToolRegistry) : list TD := (map_to_list (tools r)).*2.

Definition is_deferred (r : ToolRegistry) (name : string) (td : TD) : bool :=
  default false (deferred r !! name) || DeferLoading td.
Definition ListEagerTools (r : ToolRegistry) : list string :=
  (filter (λ p, is_deferred r p.1 p.2 = false) (map_to_list (tools r))).*1.
Definition ListDeferredTools (r : ToolRegistry) : list string :=
  (filter (λ p, is_deferred r p.1 p.2 = true) (map_to_list (tools r))).*1.
Definition IsDeferred (r : ToolRegistry) (name : string) : bool :=
  default false (deferred r !! name) ||
  from_option (λ td : TD, DeferLoading td) false (tools r !! name).

(** ** Statistics *)
Definition incr (k : string) (m : gmap string Z) : gmap string Z :=
  <[k := default 0 (m !! k) + 1]> m.
Definition group_or_unassigned (td : TD) : string :=
  if bool_decide (RuntimeGroup td = "") then "unassigned" else RuntimeGroup td.

Record ToolStats := {
  TotalTools : Z;
  StatsModuleCount : Z;
  ByCategory : gmap string Z;
  ByComplexity : gmap string Z;
  ByRuntimeGroup : gmap string Z;
  WriteToolsCount : Z;
  ReadOnlyCount : Z;
  DeprecatedCount : Z
}.

Definition GetRuntimeGroupStats (r : ToolRegistry) : gmap string Z :=
  foldl (λ m td, incr (group_or_unassigned td) m) ∅ (GetAllToolDefinitions r).

Definition stats_step (s : ToolStats) (td : TD) : ToolStats := {|
  TotalTools := TotalTools s; StatsModuleCount := StatsModuleCount s;
  ByCategory := incr (Category td) (ByCategory s);
  ByComplexity := incr (Complexity td) (ByComplexity s);
  ByRuntimeGroup := incr (group_or_unassigned td) (ByRuntimeGroup s);
  WriteToolsCount := if IsWrite td then WriteToolsCount s + 1 else WriteToolsCount s;
  ReadOnlyCount := if IsWrite td then ReadOnlyCount s else ReadOnlyCount s + 1;
  DeprecatedCount := if Deprecated td then DeprecatedCount s + 1 else DeprecatedCount s |}.

Definition GetToolStats (r : ToolRegistry) : ToolStats :=
  foldl stats_step {|
    TotalTools := Z.of_nat (size (tools r)); StatsModuleCount := Z.of_nat (size (modules r));
    ByCategory := ∅; ByComplexity := ∅; ByRuntimeGroup := ∅;
    WriteToolsCount := 0; ReadOnlyCount := 0; DeprecatedCount := 0 |} (GetAllToolDefinitions r).

Definition GetToolCatalog (r : ToolRegistry) : gmap string (gmap string (list TD)) :=
  foldl (λ cat td,
      let sub := if bool_decide (Subcategory td = "") then "general" else Subcategory td in
      let m := default ∅ (cat !! Category td) in
      <[Category td := <[sub := default [] (m !! sub) ++ [td]]> m]> cat)
    ∅ (GetAllToolDefinitions r).

(** ** Filters *)
Definition ToolFilter := TD → bool.
Definition FilterByCategory (c : string) : ToolFilter := λ td, bool_decide (Category td = c).
Definition FilterByRuntimeGroup (g : string) : ToolFilter := λ td, bool_decide (RuntimeGroup td = g).
Definition ReadOnly : ToolFilter := λ td, negb (IsWrite td).
Definition Not (f : ToolFilter) : ToolFilter := λ td, negb (f td).
Definition And (fs : list ToolFilter) : ToolFilter := λ td, forallb (λ f, f td) fs.
Definition Exclude (names : list string) : ToolFilter :=
  λ td, negb (bool_decide (tool_name td ∈ names)).
Definition NotDeferred (d : gmap string bool) : ToolFilter :=
  λ td, negb (default false (d !! tool_name td)).

Definition name_le (a b : TD) : Prop := String.le (tool_name a) (tool_name b).
#[export] Instance name_le_dec : RelDecision name_le.
Proof. intros a b. unfold name_le. apply _. Defined.

Definition FilteredTools (r : ToolRegistry) (f : ToolFilter) : list TD :=
  merge_sort name_le (filter (λ td, f td = true) (GetAllToolDefinitions r)).

(** ** Publication *)
Definition AddToolToServer (s : MCPServer) (t : Tool)
    (h : Ctx → Req → W → (option CallToolResult * option error) * W) : MCPServer :=
  <[Name t := (t, h)]> s.

Definition publish (r : ToolRegistry) (transform : option (TD → TD)) (s : MCPServer) (td : TD) :
    MCPServer :=
  let annotated := ApplyToolMetadata td (ToolNamePrefix (config r))
                     (default false (deferred r !! tool_name td)) in
  let annotated := match transform with Some f => f annotated | None => annotated end in
  AddToolToServer s (td_Tool annotated)
    (wrapHandler marshal has_deadline with_timeout (config r) (tool_name td) td stack).

Definition RegisterWithServer (r : ToolRegistry) (s : MCPServer) : MCPServer :=
  foldl (publish r None) s (GetAllToolDefinitions r).

Definition RegisterFilteredWithServerTransform (r : ToolRegistry) (s : MCPServer)
    (f : ToolFilter) (transform : option (TD → TD)) : MCPServer :=
  foldl (publish r transform) s (filter (λ td, f td = true) (GetAllToolDefinitions r)).

Definition RegisterFilteredWithServer (r : ToolRegistry) (s : MCPServer) (f : ToolFilter) :
    MCPServer := RegisterFilteredWithServerTransform r s f None.

(** ** Runtime changes

    [notifiers] are the listeners in registration order; [notified] records the
    calls they received. *)
Record DynamicRegistry := {
  d_reg : ToolRegistry;
  notifiers : list nat;
  notified : list nat
}.

Definition NewDynamicRegistry (cfgs : list Cfg) : DynamicRegistry :=
  {| d_reg := NewToolRegistry cfgs; notifiers := []; notified := [] |}.
Definition OnChange (d : DynamicRegistry) (fn : nat) : DynamicRegistry :=
  {| d_reg := d_reg d; notifiers := notifiers d ++ [fn]; notified := notified d |}.
Definition notify (d : DynamicRegistry) : DynamicRegistry :=
  {| d_reg := d_reg d; notifiers := notifiers d; notified := notified d ++ notifiers d |}.
Definition set_reg (r : ToolRegistry) (d : DynamicRegistry) : DynamicRegistry :=
  {| d_reg := r; notifiers := notifiers d; notified := notified d |}.

Definition AddTool (d : DynamicRegistry) (td : TD) : DynamicRegistry :=
  notify (set_reg (register_tool (d_reg d) td) d).

Definition RemoveTool (d : DynamicRegistry) (name : string) : bool * DynamicRegistry :=
  match tools (d_reg d) !! name with
  | Some _ =>
      let r := d_reg d in
      (true, notify (set_reg (set_maps (modules r) (delete name (tools r))
                                (delete name (deferred r)) r) d))
  | None => (false, d)
  end.

Definition DynamicRegisterModule (d : DynamicRegistry) (m : ToolModule) : DynamicRegistry :=
  notify (set_reg (RegisterModule (d_reg d) m) d).

(** ** All the operations that change a registry *)
Inductive rop :=
| OpRegisterModule (m : ToolModule)
| OpRegisterDeferredModule (m : ToolModule) (d : gmap string bool)
| OpSetDeferred (name : string) (b : bool)
| OpSetMiddleware (mws : list (Middleware Ctx Req W))
| OpAddTool (td : TD)
| OpRemoveTool (name : string)
| OpOnChange (fn : nat).

Definition run_rop (d : DynamicRegistry) (o : rop) : DynamicRegistry :=
  match o with
  | OpRegisterModule m => DynamicRegisterModule d m
  | OpRegisterDeferredModule m dt => set_reg (RegisterDeferredModule (d_reg d) m dt) d
  | OpSetDeferred n b => set_reg (SetDeferred (d_reg d) n b) d
  | OpSetMiddleware mws => set_reg (SetMiddleware (d_reg d) mws) d
  | OpAddTool td => AddTool d td
  | OpRemoveTool n => (RemoveTool d n).2
  | OpOnChange fn => OnChange d fn
  end.

(** The invariant: tools are stored under their own name with a settled write
    flag, and only stored tools are marked deferred. *)
Definition reg_wf (r : ToolRegistry) : Prop :=
  (∀ name td, tools r !! name = Some td → tool_name td = name ∧ write_settled td) ∧
  (∀ name, is_Some (deferred r !! name) → is_Some (tools r !! name)).
End Registry.
Arguments ToolModule : clear implicits.
Arguments ToolRegistry : clear implicits.
Arguments DynamicRegistry : clear implicits.
Arguments TD : clear implicits.
Arguments Cfg : clear implicits.
Arguments rop : clear implicits.

(** ** Lemmas *)
Section RegistryLemmas.
Context {Ctx Req W : Type}.
Implicit Types r : ToolRegistry Ctx Req W.
Implicit Types d : DynamicRegistry Ctx Req W.
Implicit Types td : TD Ctx Req W.

Lemma set_DeferLoading_settled b td : write_settled td → write_settled (set_DeferLoading b td).
Proof. done. Qed.

Lemma register_tool_wf r td : reg_wf r → reg_wf (register_tool r td).
Proof.
  intros [H1 H2]. unfold register_tool, reg_wf; simpl. split.
  - intros name td'. rewrite lookup_insert_Some. intros [[<- <-]|[_ ?]]; [|by apply H1].
    split; [done|]. apply complete_definition_settled.
  - intros name Hd. rewrite lookup_insert_is_Some'. right. by apply H2.
Qed.

Lemma register_deferred_tool_wf dt r td : reg_wf r → reg_wf (register_deferred_tool dt r td).
Proof.
  intros [H1 H2]. unfold register_deferred_tool, reg_wf; simpl.
  set (c := complete_definition (RuntimeGroupMapper (config r)) td).
  destruct (default false (dt !! tool_name c)); simpl; split.
  - intros name td'. rewrite lookup_insert_Some. intros [[<- <-]|[_ ?]]; [|by apply H1].
    split; [done|]. apply set_DeferLoading_settled, complete_definition_settled.
  - intros name. rewrite !lookup_insert_is_Some'. intros [?|?]; [by left|right; by apply H2].
  - intros name td'. rewrite lookup_insert_Some. intros [[<- <-]|[_ ?]]; [|by apply H1].
    split; [done|]. apply complete_definition_settled.
  - intros name Hd. rewrite lookup_insert_is_Some'. right. by apply H2.
Qed.

Lemma foldl_preserves {A B} (P : A → Prop) (f : A → B → A) l a :
  (∀ a b, P a → P (f a b)) → P a → P (foldl f a l).
Proof. intros Hf. revert a; induction l as [|b l IH]; intros a Ha; simpl; auto. Qed.

Lemma run_rop_wf d o : reg_wf (d_reg d) → reg_wf (d_reg (run_rop d o)).
Proof.
  intros Hwf. destruct o as [m|m dt|name b|mws|td|name|fn]; simpl; try done.
  - apply (foldl_preserves reg_wf); [by intros; apply register_tool_wf|done].
  - apply (foldl_preserves reg_wf); [by intros; apply register_deferred_tool_wf|done].
  - unfold SetDeferred. destruct (tools (d_reg d) !! name) as [td|] eqn:E; [|done].
    destruct Hwf as [H1 H2]. split; simpl.
    + intros name' td'. rewrite lookup_insert_Some. intros [[<- <-]|[_ ?]]; [|by apply H1].
      destruct (H1 _ _ E) as [Hn Hs]. split; [done|]. by apply set_DeferLoading_settled.
    + intros name'. rewrite lookup_insert_is_Some'. destruct b.
      * rewrite lookup_insert_is_Some'. intros [?|?]; [by left|right; by apply H2].
      * rewrite lookup_delete_is_Some. intros [? ?]. right. by apply H2.
  - by apply register_tool_wf.
  - unfold RemoveTool. destruct (tools (d_reg d) !! name); [|done]. destruct Hwf as [H1 H2].
    split; simpl.
    + intros name' td'. rewrite lookup_delete_Some. intros [_ ?]. by apply H1.
    + intros name'. rewrite !lookup_delete_is_Some. intros [? ?]. split; [done|by apply H2].
Qed.

Lemma run_rops_wf cfgs os :
  reg_wf (d_reg (foldl run_rop (NewDynamicRegistry (Ctx := Ctx) (Req := Req) (W := W) cfgs) os)).
Proof.
  apply (foldl_preserves (λ d, reg_wf (d_reg d))).
  - intros d o. apply run_rop_wf.
  - split; simpl; intros name; rewrite ?lookup_empty; [done|]. by intros [??].
Qed.

Lemma sorted_keys_filter {A} (P : string * A → Prop) `{∀ x, Decision (P x)} (m : gmap string A) k :
  k ∈ sorted_keys (filter P m) ↔ ∃ x, m !! k = Some x ∧ P (k, x).
Proof.
  rewrite elem_of_sorted_keys. split.
  - intros [x Hx]. apply map_lookup_filter_Some in Hx. eauto.
  - intros (x & Hx & HP). exists x. by apply map_lookup_filter_Some.
Qed.

Lemma elem_of_GetAll r td : td ∈ GetAllToolDefinitions r ↔ ∃ name, tools r !! name = Some td.
Proof.
  unfold GetAllToolDefinitions. rewrite list_elem_of_fmap. split.
  - intros ([name td'] & -> & H). apply elem_of_map_to_list in H. eauto.
  - intros [name H]. exists (name, td). by rewrite elem_of_map_to_list.
Qed.

Lemma elem_of_by_deferred r b name :
  name ∈ (filter (λ p, is_deferred r p.1 p.2 = b) (map_to_list (tools r))).*1 ↔
  ∃ td, tools r !! name = Some td ∧ is_deferred r name td = b.
Proof.
  rewrite list_elem_of_fmap. split.
  - intros ([n td] & -> & H). apply list_elem_of_filter in H as [H1 H2].
    apply elem_of_map_to_list in H2. eauto.
  - intros (td & H1 & H2). exists (name, td). split; [done|].
    apply list_elem_of_filter. split; [done|]. by apply elem_of_map_to_list.
Qed.

(** Names of a well-formed registry's definitions are pairwise different. *)
Lemma names_GetAll r :
  reg_wf r → tool_name <$> GetAllToolDefinitions r = (map_to_list (tools r)).*1.
Proof.
  intros [H1 _]. unfold GetAllToolDefinitions. rewrite <- list_fmap_compose.
  apply list_fmap_ext. intros i [name td] Hi. simpl.
  apply list_elem_of_lookup_2, elem_of_map_to_list in Hi. by apply H1.
Qed.

Lemma NoDup_names_GetAll r : reg_wf r → NoDup (tool_name <$> GetAllToolDefinitions r).
Proof. intros H. rewrite names_GetAll by done. apply NoDup_fst_map_to_list. Qed.
End RegistryLemmas.

#[export] Hint Resolve run_rops_wf register_tool_wf : mcpkit.

(** *** What the operations say of a name
    The history of registrations, removals and marks, read name by name. *)
Inductive entry {Ctx Req W : Type} := Registered (td : TD Ctx Req W) (mark : bool) | Removed (name : string) | Marked (name : string) (b : bool).
Arguments entry : clear implicits.
Section Account.
Context {Ctx Req W : Type}.
Implicit Types r : ToolRegistry Ctx Req W.
Definition account (o : rop Ctx Req W) : list (entry Ctx Req W) :=
  match o with
  | OpRegisterModule m => (λ td, Registered td false) <$> mod_Tools m
  | OpRegisterDeferredModule m dt => (λ td, Registered td (default false (dt !! tool_name td))) <$> mod_Tools m
  | OpAddTool td => [Registered td false]
  | OpRemoveTool n => [Removed n]
  | OpSetDeferred n b => [Marked n b]
  | OpSetMiddleware _ | OpOnChange _ => []
  end.
(** The definition registered last under the name and not removed since, whether it is to load lazily, and whether the name is marked. *)
Definition recall (name : string) (acc : option (TD Ctx Req W * bool * bool)) (e : entry Ctx Req W) : option (TD Ctx Req W * bool * bool) :=
  match e with
  | Registered td mark => if decide (tool_name td = name)
      then Some (td, mark || DeferLoading td, mark || match acc with Some (_, _, m) => m | None => false end) else acc
  | Removed n => if decide (n = name) then None else acc
  | Marked n b => if decide (n = name) then (λ x, (x.1.1, b, b)) <$> acc else acc
  end.
Definition recalled (name : string) (l : list (entry Ctx Req W)) : option (TD Ctx Req W * bool * bool) := foldl (recall name) None l.
(** What is stored: the definition as it was given, but for its group, its write flag and its lazy loading. *)
Definition settled (mapper : option (string → string)) (td : TD Ctx Req W) (lazy : bool) : TD Ctx Req W :=
  set_DeferLoading lazy (set_IsWrite (match ReadOnlyOverride td with Some b => negb b | None => IsWrite td || InferIsWrite (tool_name td) end)
    (set_RuntimeGroup (match mapper with Some f => if decide (RuntimeGroup td = "") then f (Category td) else RuntimeGroup td | None => RuntimeGroup td end) td)).

Lemma complete_is_settled mapper (td : TD Ctx Req W) : complete_definition mapper td = settled mapper td (DeferLoading td).
Proof.
  unfold complete_definition, settled, tool_name. destruct td as [t h c s tg st cx w dp to cg g os mr dl al su de io ro]; cbn.
  destruct mapper as [f|]; cbn; [case_bool_decide; case_decide; try done|]; cbn; (destruct ro as [b|]; [done|]; by destruct w).
Qed.
Definition tells (mapper : option (string → string)) (l : list (entry Ctx Req W)) r : Prop :=
  RuntimeGroupMapper (config r) = mapper ∧ ∀ name,
    tools r !! name = (λ x, settled mapper x.1.1 x.1.2) <$> recalled name l ∧
    deferred r !! name = if match recalled name l with Some (_, _, m) => m | None => false end then Some true else None.
Lemma recalled_snoc name l e : recalled name (l ++ [e]) = recall name (recalled name l) e.
Proof. unfold recalled. by rewrite foldl_app. Qed.
Lemma tells_deferred mapper l r td dt : tells mapper l r →
  tells mapper (l ++ [Registered td (default false (dt !! tool_name td))]) (register_deferred_tool dt r td).
Proof.
  intros [Hm Hn]. unfold register_deferred_tool. rewrite Hm, complete_is_settled. split; [done|]. intros name. rewrite recalled_snoc.
  change (tool_name (settled mapper td (DeferLoading td))) with (tool_name td). destruct (Hn name) as [H1 H2]. cbn [recall].
  destruct (dt !! tool_name td) as [[]|] eqn:Ed; cbn [default from_option id orb tools deferred set_maps];
    (destruct (decide (tool_name td = name)) as [<-|Hne]; [rewrite ?lookup_insert_eq|rewrite ?lookup_insert_ne by done; by rewrite H1, H2]).
  all: split; try done; by rewrite H2.
Qed.
Lemma tells_tool mapper l r td : tells mapper l r → tells mapper (l ++ [Registered td false]) (register_tool r td).
Proof. intros H. exact (tells_deferred mapper l r td ∅ H). Qed.
Lemma tells_modules mapper l r m : tells mapper l r → tells mapper l (set_maps m (tools r) (deferred r) r).
Proof. done. Qed.
Lemma tells_fold mapper (f : ToolRegistry Ctx Req W → TD Ctx Req W → ToolRegistry Ctx Req W) (g : TD Ctx Req W → entry Ctx Req W) tds : 
  (∀ l r td, tells mapper l r → tells mapper (l ++ [g td]) (f r td)) → ∀ l r, tells mapper l r → tells mapper (l ++ (g <$> tds)) (foldl f r tds).
Proof.
  intros Hf. induction tds as [|td tds IH]; intros l r H; [by rewrite app_nil_r|]. cbn [fmap list_fmap foldl].
  rewrite cons_middle, app_assoc. by apply IH, Hf.
Qed.
Lemma tells_rop mapper l d o : tells mapper l (d_reg d) → tells mapper (l ++ account o) (d_reg (run_rop d o)).
Proof.
  intros H. destruct o as [m|m dt|name b|mws|td|name|fn]; cbn [account run_rop]; rewrite ?app_nil_r; try done.
  - apply (tells_fold mapper register_tool); [by intros; apply tells_tool|done].
  - apply (tells_fold mapper (register_deferred_tool dt)); [by intros; apply tells_deferred|done].
  - destruct H as [Hm Hn]. unfold SetDeferred. cbn [set_reg d_reg]. destruct (tools (d_reg d) !! name) as [td|] eqn:E; (split; [done|]); intros n;
      rewrite recalled_snoc; cbn [recall]; destruct (Hn n) as [H1 H2]; (destruct (decide (name = n)) as [<-|Hne]; [|cbn [tools deferred set_maps];
      destruct b; rewrite ?lookup_insert_ne, ?lookup_delete_ne by done; by rewrite H1, H2]); pose proof (eq_trans (eq_sym H1) E) as E';
      destruct (recalled name l) as [[[td0 dl] mk]|]; try done.
    + injection E' as <-. cbn [tools deferred set_maps fmap option_fmap option_map fst snd]. rewrite lookup_insert_eq. split; [done|].
      destruct b; [by rewrite lookup_insert_eq|by rewrite lookup_delete_eq].
  - by apply tells_tool.
  - destruct H as [Hm Hn]. unfold RemoveTool. destruct (tools (d_reg d) !! name) as [td|] eqn:E; (split; [done|]); intros n;
      rewrite recalled_snoc; cbn [recall]; destruct (Hn n) as [H1 H2]; destruct (decide (name = n)) as [<-|Hne]; cbn; rewrite ?lookup_delete_eq, ?lookup_delete_ne by done;
      try (by rewrite H1, H2); try done.
    pose proof (eq_trans (eq_sym H1) E) as E'. destruct (recalled name l); [done|]. by rewrite H1, H2.
Qed.
Lemma tells_rops cfgs os : tells (RuntimeGroupMapper (config (NewToolRegistry cfgs))) (os ≫= account) (d_reg (foldl run_rop (NewDynamicRegistry cfgs) os)).
Proof.
  induction os as [|o os IH] using rev_ind; [by split|]. rewrite foldl_app, bind_app. cbn [mbind list_bind foldl]. rewrite app_nil_r.
  by apply tells_rop.
Qed.
End Account.


(** The eager and the deferred listing split the registered tools: every
    registered name is in exactly one of them, as [IsDeferred] says, and
    [SetDeferred] moves the named tool to the side asked for and no other. *)
Theorem eager_deferred_partition {Ctx Req W : Type} (r : ToolRegistry Ctx Req W) name b other :
  (is_Some (GetTool r name) ↔ name ∈ ListEagerTools r ∨ name ∈ ListDeferredTools r) ∧
  (name ∈ ListEagerTools r ↔ is_Some (GetTool r name) ∧ IsDeferred r name = false) ∧
  (name ∈ ListDeferredTools r ↔ is_Some (GetTool r name) ∧ IsDeferred r name = true) ∧
  IsDeferred (SetDeferred r name b) name = (match GetTool r name with
                                            | Some _ => b | None => IsDeferred r name end) ∧
  (other ≠ name → IsDeferred (SetDeferred r name b) other = IsDeferred r other).
Proof.
  assert (He : ∀ c, (∃ td, tools r !! name = Some td ∧ is_deferred r name td = c) ↔
                    is_Some (tools r !! name) ∧ IsDeferred r name = c).
  { intros c. unfold is_deferred, IsDeferred. split.
    - intros (td & Ht & H). rewrite Ht. split; [by eexists|exact H].
    - intros [[td Ht] H]. rewrite Ht in H. by exists td. }
  unfold ListEagerTools, ListDeferredTools, GetTool. rewrite !elem_of_by_deferred, !He.
  split; [destruct (IsDeferred r name); naive_solver|]. split; [reflexivity|]. split; [reflexivity|].
  unfold SetDeferred, IsDeferred. destruct (tools r !! name) as [td|] eqn:E; simpl; [|by rewrite E].
  split.
  - rewrite lookup_insert_eq. destruct b; simpl; [by rewrite lookup_insert_eq|].
    by rewrite lookup_delete_eq.
  - intros Hne. rewrite lookup_insert_ne by done. destruct b; simpl.
    + by rewrite lookup_insert_ne.
    + by rewrite lookup_delete_ne.
Qed.

Section Publication.
Context {Ctx Req W : Type} (marshal : json → option string) (hd : Ctx → bool)
  (wt : Ctx → duration → Ctx) (stack : string).
Implicit Types r : ToolRegistry Ctx Req W.
Implicit Types td : TD Ctx Req W.

Lemma ApplyToolMetadata_name td prefix b :
  Name (td_Tool (ApplyToolMetadata td prefix b)) = Name (td_Tool td).
Proof.
  unfold ApplyToolMetadata, ApplyMCPAnnotations. simpl. by repeat case_match.
Qed.

Lemma publish_all r s l name :
  NoDup (tool_name <$> l) →
  foldl (publish marshal hd wt stack r None) s l !! name =
  match list_find (λ td, tool_name td = name) l with
  | Some (_, td) =>
      Some (td_Tool (ApplyToolMetadata td (ToolNamePrefix (config r)) (default false (deferred r !! name))),
            wrapHandler marshal hd wt (config r) name td stack)
  | None => s !! name
  end.
Proof.
  revert s; induction l as [|td l IH]; intros s Hnd; [done|].
  rewrite fmap_cons in Hnd. apply NoDup_cons in Hnd as [Hx Hnd].
  cbn [foldl list_find]. rewrite IH by done. clear IH.
  unfold publish at 1, AddToolToServer at 1. rewrite ApplyToolMetadata_name. fold (tool_name td).
  destruct (decide (tool_name td = name)) as [<-|Hne].
  - destruct (list_find _ l) as [[i td']|] eqn:Ef.
    + apply list_find_Some in Ef as (Hl & He & _). exfalso. apply Hx.
      rewrite <- He. apply list_elem_of_fmap. exists td'. split; [done|]. by eapply list_elem_of_lookup_2.
    + apply (lookup_insert_eq (M := gmap string)).
  - destruct (list_find _ l) as [[i td']|]; simpl; [done|]. by apply (lookup_insert_ne (M := gmap string)).
Qed.

Lemma list_find_GetAll r name :
  reg_wf r →
  match list_find (λ td, tool_name td = name) (GetAllToolDefinitions r) with
  | Some (_, td) => tools r !! name = Some td
  | None => tools r !! name = None
  end.
Proof.
  intros Hwf. destruct (list_find _ _) as [[i td]|] eqn:E.
  - apply list_find_Some in E as (Hl & He & _). apply list_elem_of_lookup_2, elem_of_GetAll in Hl as [n Hn].
    destruct Hwf as [H1 _]. destruct (H1 _ _ Hn) as [H _]. congruence.
  - apply list_find_None in E. destruct (tools r !! name) as [td|] eqn:Ht; [|done].
    exfalso. rewrite Forall_forall in E. apply (E td); [apply elem_of_GetAll; eauto|].
    destruct Hwf as [H1 _]. by apply (H1 _ _ Ht).
Qed.
End Publication.

(** Publication is complete and faithful, in whatever order the map is
    walked: a fresh server ends with exactly the registered names, each with
    its annotated descriptor and the wrapped handler of its own definition. *)
Theorem RegisterWithServer_spec {Ctx Req W : Type} marshal (hd : Ctx → bool) (wt : Ctx → duration → Ctx)
    stack (cfgs : list (Cfg Ctx Req W)) os name :
  let r := d_reg (foldl run_rop (NewDynamicRegistry cfgs) os) in
  RegisterWithServer marshal hd wt stack r ∅ !! name =
  (λ td, (td_Tool (ApplyToolMetadata td (ToolNamePrefix (config r)) (default false (deferred r !! name))),
          wrapHandler marshal hd wt (config r) name td stack)) <$> GetTool r name.
Proof.
  intros r. pose proof (run_rops_wf cfgs os) as Hwf. fold r in Hwf.
  unfold RegisterWithServer. rewrite publish_all by by apply NoDup_names_GetAll.
  pose proof (list_find_GetAll r name Hwf) as Hf. unfold GetTool.
  destruct (list_find _ _) as [[i td]|]; by rewrite Hf.
Qed.

(** [FilteredTools] returns exactly the registered definitions that pass
    the filter, in name order, and the combinators mean what they say. *)
Theorem FilteredTools_spec {Ctx Req W : Type} (r : ToolRegistry Ctx Req W) (f g : ToolFilter) names td :
  Sorted name_le (FilteredTools r f) ∧
  (td ∈ FilteredTools r f ↔ (∃ name, GetTool r name = Some td) ∧ f td = true) ∧
  (td ∈ FilteredTools r (And [f; Not g; Exclude names]) ↔
   (∃ name, GetTool r name = Some td) ∧ f td = true ∧ g td = false ∧ tool_name td ∉ names).
Proof.
  assert (Htot : Total (name_le (Ctx := Ctx) (Req := Req) (W := W))).
  { intros a b. unfold name_le. apply String.le_total. }
  assert (E : ∀ h, td ∈ FilteredTools r h ↔ (∃ name, GetTool r name = Some td) ∧ h td = true).
  { intros h. unfold FilteredTools. rewrite merge_sort_Permutation, list_elem_of_filter, elem_of_GetAll.
    unfold GetTool. naive_solver. }
  split; [apply (Sorted_merge_sort _)|]. split; [apply E|]. rewrite E.
  unfold And, Not, Exclude. simpl. rewrite !andb_true_iff, !negb_true_iff, bool_decide_eq_false.
  naive_solver.
Qed.

(** Runtime changes are announced exactly when there is one: adding a tool
    notifies every listener once, removing a tool notifies them once if it was
    registered and not at all otherwise, and the removed name is gone. *)
Theorem dynamic_notifications {Ctx Req W : Type} (d : DynamicRegistry Ctx Req W) td name :
  notified (AddTool d td) = notified d ++ notifiers d ∧
  is_Some (GetTool (d_reg (AddTool d td)) (tool_name td)) ∧
  (let '(existed, d') := RemoveTool d name in
   existed = bool_decide (is_Some (GetTool (d_reg d) name)) ∧
   GetTool (d_reg d') name = None ∧
   notified d' = notified d ++ (if existed then notifiers d else [])).
Proof.
  split; [done|]. split.
  - unfold GetTool, AddTool, register_tool; simpl. unfold tool_name. rewrite complete_definition_name.
    rewrite lookup_insert_eq. by eexists.
  - unfold RemoveTool, GetTool. destruct (tools (d_reg d) !! name) as [td'|] eqn:E; simpl.
    + rewrite lookup_delete_eq. done.
    + rewrite E, app_nil_r. done.
Qed.

Section Stats.
Context {Ctx Req W : Type}.
Implicit Types r : ToolRegistry Ctx Req W.

Definition total (m : gmap string Z) : Z := map_fold (λ _ n acc, n + acc) 0 m.

Lemma total_insert_new k n (m : gmap string Z) : m !! k = None → total (<[k := n]> m) = n + total m.
Proof.
  intros H. unfold total. rewrite map_fold_insert_L; [done|intros; lia|done].
Qed.

Lemma total_incr k (m : gmap string Z) : total (incr k m) = total m + 1.
Proof.
  unfold incr. destruct (m !! k) as [n|] eqn:E; simpl.
  - rewrite <- (insert_delete_id m k n) at 2 by done.
    rewrite <- (insert_delete_eq m k (n + 1)).
    rewrite !total_insert_new by apply lookup_delete_eq. lia.
  - rewrite total_insert_new by done. lia.
Qed.

Lemma stats_fold (s : ToolStats) (l : list (TD Ctx Req W)) :
  let s' := foldl stats_step s l in
  TotalTools s' = TotalTools s ∧
  total (ByCategory s') = total (ByCategory s) + Z.of_nat (length l) ∧
  total (ByComplexity s') = total (ByComplexity s) + Z.of_nat (length l) ∧
  total (ByRuntimeGroup s') = total (ByRuntimeGroup s) + Z.of_nat (length l) ∧
  WriteToolsCount s' + ReadOnlyCount s' = WriteToolsCount s + ReadOnlyCount s + Z.of_nat (length l) ∧
  0 <= DeprecatedCount s' - DeprecatedCount s <= Z.of_nat (length l).
Proof.
  revert s; induction l as [|td l IH]; intros s; cbn [foldl length]; [split_and!; lia|].
  destruct (IH (stats_step s td)) as (H1 & H2 & H3 & H4 & H5 & H6). cbv zeta in *.
  rewrite H1, H2, H3, H4, H5. unfold stats_step in *; simpl in *. rewrite !total_incr.
  destruct (IsWrite td), (Deprecated td); split_and!; try lia; reflexivity.
Qed.
End Stats.

(** The statistics add up: every tool is counted once by category, by
    complexity and by runtime group, and as a write or a read-only tool. *)
Theorem stats_consistent {Ctx Req W : Type} (r : ToolRegistry Ctx Req W) :
  let s := GetToolStats r in
  TotalTools s = Z.of_nat (ToolCount r) ∧
  total (ByCategory s) = TotalTools s ∧ total (ByComplexity s) = TotalTools s ∧
  total (ByRuntimeGroup s) = TotalTools s ∧
  WriteToolsCount s + ReadOnlyCount s = TotalTools s ∧
  0 <= DeprecatedCount s <= TotalTools s.
Proof.
  unfold GetToolStats.
  match goal with |- context [foldl stats_step ?s0 ?l] => pose proof (stats_fold s0 l) as H end.
  assert (Hl : length (GetAllToolDefinitions r) = ToolCount r).
  { unfold GetAllToolDefinitions. rewrite length_fmap. apply length_map_to_list. }
  simpl in *. rewrite Hl in H. unfold ToolCount in *.
  assert (total ∅ = 0) as E0 by done. rewrite E0 in H. cbv zeta in *. intuition lia.
Qed.

(** Registering a tool again does not clear an earlier deferral: after
    [SetDeferred] and a plain re-registration whose definition does not ask for
    deferred loading, the tool is still excluded from the eager listing. *)
Theorem reregistration_keeps_deferral {Ctx Req W : Type} (r : ToolRegistry Ctx Req W) td :
  is_Some (GetTool r (tool_name td)) →
  let r' := RegisterModule (SetDeferred r (tool_name td) true)
              {| mod_Name := "m"; mod_Description := ""; mod_Tools := [td] |} in
  (DeferLoading <$> GetTool r' (tool_name td)) = Some (DeferLoading td) ∧
  IsDeferred r' (tool_name td) = true ∧ tool_name td ∉ ListEagerTools r'.
Proof.
  intros [td0 H0]. unfold GetTool in H0. cbv zeta.
  assert (Hd : IsDeferred (RegisterModule (SetDeferred r (tool_name td) true)
              {| mod_Name := "m"; mod_Description := ""; mod_Tools := [td] |}) (tool_name td) = true).
  { unfold IsDeferred, RegisterModule, SetDeferred. unfold TD in *. rewrite H0. simpl. by rewrite lookup_insert_eq. }
  split; [|split; [done|]].
  - unfold GetTool, RegisterModule; simpl. unfold tool_name at 2. rewrite complete_definition_name.
    rewrite lookup_insert_eq. simpl. by rewrite complete_definition_DeferLoading.
  - unfold ListEagerTools. rewrite elem_of_by_deferred. intros (td' & Ht & Hf).
    unfold IsDeferred in Hd. rewrite Ht in Hd. unfold is_deferred in Hf. simpl in Hd, Hf.
    rewrite Hf in Hd. discriminate Hd.
Qed.

(** ** Witnesses *)
Definition idle_handler : ToolHandlerFunc unit unit unit := λ _ _ w, (Returns None None, w).
Definition get_tool : TD unit unit unit := plain_definition idle_handler plain_tool.

Lemma reregistration_keeps_deferral_witness :
  let r := RegisterModule (NewToolRegistry []) {| mod_Name := "m"; mod_Description := ""; mod_Tools := [get_tool] |} in
  let r' := RegisterModule (SetDeferred r "get" true)
              {| mod_Name := "m"; mod_Description := ""; mod_Tools := [get_tool] |} in
  IsDeferred r' "get" = true.
Proof.
  apply (reregistration_keeps_deferral
    (RegisterModule (NewToolRegistry []) {| mod_Name := "m"; mod_Description := ""; mod_Tools := [get_tool] |})
    get_tool).
  eexists. vm_compute. reflexivity.
Defined.

(** A tool registered as deferred is listed, and published (marked to load lazily), like any other. *)
Lemma deferred_tools_are_listed :
  let r := RegisterDeferredModule (NewToolRegistry []) {| mod_Name := "m"; mod_Description := ""; mod_Tools := [get_tool] |} {["get" := true]} in
  IsDeferred r "get" = true ∧ ListTools r = ["get"] ∧
  dom (RegisterWithServer (λ _, None) (λ _, false) (λ c _, c) "" r ∅) = {["get"]}.
Proof. split; [by vm_compute|]. split; [by vm_compute|]. apply leibniz_equiv. by vm_compute. Qed.
