(* ===== verification/Search.v ===== *)
(** Tool search (src/registry/search.go): tokenisation, the per-token scoring,
    Levenshtein distance, the relevance floor and the ranking.

    Distances are between the runes of UTF-8 text ([runes]); tokens are those of ASCII text,
    where letters and digits are the ASCII ones. *)

From stdpp Require Import base tactics list gmap strings sorting.
From Stdlib Require Import ZArith Lia.
From S2P Require Import Prelude Tool Truncate Registry.

Local Open Scope Z_scope.

(** ** Data *)
Definition searchWeightName := 90.
Definition searchWeightTag := 80.
Definition searchWeightSearchTerm := 75.
Definition searchWeightCategory := 60.
Definition searchWeightRuntimeGroup := 60.
Definition searchWeightDescription := 30.

Definition searchStopwords : list string := [
  "a"; "an"; "the"; "is"; "are"; "was"; "were";
  "be"; "been"; "being"; "do"; "does"; "did";
  "please"; "can"; "could"; "would"; "should"; "me";
  "my"; "our"; "us"; "on"; "in"; "at"; "by";
  "for"; "from"; "into"; "of"; "to"; "with";
  "and"; "or"; "then"; "this"; "that"; "these";
  "those"; "it"; "its"].

Record searchField := { matchType : string; weight : Z; tokens : list string }.

Record searchTokenMatch := { m_score : Z; m_matchType : string; m_strong : bool }.

Definition no_match : searchTokenMatch := {| m_score := 0; m_matchType := ""; m_strong := false |}.

(** ** Tokens *)
Definition is_alnum (a : Ascii.ascii) : bool :=
  let n := Ascii.nat_of_ascii a in
  ((48 <=? n) && (n <=? 57) || (65 <=? n) && (n <=? 90) || (97 <=? n) && (n <=? 122))%nat.

Definition searchTokens (text : string) : list string := map to_lower (runs_aux is_alnum "" text).

Definition filterSearchStopwords (ts : list string) : list string :=
  filter (λ t, t ∉ searchStopwords) ts.

(** ** Levenshtein distance

    [lev_row] computes one row left to right: [left] is the cell just written,
    [diag] the previous row's cell above it, [ups] the rest of the previous row. *)
Section Levenshtein.
Context {A : Type} `{EqDecision A}.

Fixpoint lev_row (a : A) (left diag : Z) (bs : list A) (ups : list Z) : list Z :=
  match bs, ups with
  | b :: bs', up :: ups' =>
      let cost := if decide (a = b) then 0 else 1 in
      let insert := left + 1 in
      let delete := up + 1 in
      let substitute := diag + cost in
      let minimum := insert in
      let minimum := if delete <? minimum then delete else minimum in
      let minimum := if substitute <? minimum then substitute else minimum in
      minimum :: lev_row a minimum up bs' ups'
  | _, _ => []
  end.

(** The outer loop: [prev] is row [i - 1]. *)
Fixpoint lev_rows (i : Z) (as_ bs : list A) (prev : list Z) : list Z :=
  match as_ with
  | [] => prev
  | a :: as' =>
      let curr := match prev with
                  | [] => [i]
                  | diag :: ups => i :: lev_row a i diag bs ups
                  end in
      lev_rows (i + 1) as' bs curr
  end.

Definition levenshtein_list (as_ bs : list A) : Z :=
  if bool_decide (length as_ = 0%nat) then Z.of_nat (length bs)
  else if bool_decide (length bs = 0%nat) then Z.of_nat (length as_)
  else List.last (lev_rows 1 as_ bs (map Z.of_nat (seq 0 (S (length bs))))) 0.

(** Turning one word into another with [n] insertions, deletions and
    substitutions. *)
Inductive edits : list A → list A → Z → Prop :=
| ed_nil : edits [] [] 0
| ed_keep x a b n : edits a b n → edits (x :: a) (x :: b) n
| ed_subst x y a b n : edits a b n → edits (x :: a) (y :: b) (n + 1)
| ed_delete x a b n : edits a b n → edits (x :: a) b (n + 1)
| ed_insert y a b n : edits a b n → edits a (y :: b) (n + 1).

(** The textbook recursion. *)
Fixpoint lev (a : list A) : list A → Z :=
  match a with
  | [] => λ b, Z.of_nat (length b)
  | x :: a' => fix lev_a (b : list A) : Z :=
      match b with
      | [] => Z.of_nat (length a)
      | y :: b' => Z.min (lev_a b' + 1)
                     (Z.min (lev a' b + 1) (lev a' b' + if decide (x = y) then 0 else 1))
      end
  end.
End Levenshtein.

(** [[]rune(s)]: the runes of UTF-8 text; a byte that starts none counts as U+FFFD. *)
Definition low (b : Z) : Z := Z.land b 63.
Definition rune_of (s : string) (n : nat) : Z :=
  let b i := byte_at s i in
  match n with
  | 1%nat => b 0%nat
  | 2%nat => Z.lor (Z.shiftl (Z.land (b 0%nat) 31) 6) (low (b 1%nat))
  | 3%nat => Z.lor (Z.shiftl (Z.land (b 0%nat) 15) 12) (Z.lor (Z.shiftl (low (b 1%nat)) 6) (low (b 2%nat)))
  | 4%nat => Z.lor (Z.shiftl (Z.land (b 0%nat) 7) 18)
               (Z.lor (Z.shiftl (low (b 1%nat)) 12) (Z.lor (Z.shiftl (low (b 2%nat)) 6) (low (b 3%nat))))
  | _ => 65533
  end.
(** [skip] bytes of the current rune are behind us. *)
Fixpoint runes_from (skip : nat) (s : string) : list Z :=
  match s with
  | EmptyString => []
  | String _ s' =>
      match skip with
      | S k => runes_from k s'
      | O => rune_of s (rune_len s) :: runes_from (rune_len s - 1) s'
      end
  end.
Definition runes (s : string) : list Z := runes_from 0 s.
Definition levenshtein (a b : string) : Z := levenshtein_list (runes a) (runes b).

(** ** Scoring *)
Definition scoreSearchToken (queryToken candidateToken : string) (weight : Z) : Z * bool :=
  if bool_decide (queryToken = candidateToken) then (weight, true) else
  let queryLen := Z.of_nat (length (runes queryToken)) in
  let candidateLen := Z.of_nat (length (runes candidateToken)) in
  if (5 <=? queryLen) && (queryLen <=? candidateLen) &&
     has_prefix queryToken candidateToken && (candidateLen * 60 <=? queryLen * 100)
  then (weight / 2, true) else
  let maxDistance := if 8 <=? queryLen then 2 else if 4 <=? queryLen then 1 else 0 in
  if (maxDistance =? 0) || (maxDistance <? Z.abs (queryLen - candidateLen)) then (0, false) else
  let distance := levenshtein queryToken candidateToken in
  if (distance =? 0) || (maxDistance <? distance) then (0, false)
  else (weight / 3, false).

Definition token_step (queryToken : string) (f : searchField) (best : searchTokenMatch)
    (candidate : string) : searchTokenMatch :=
  let '(score, strong) := scoreSearchToken queryToken candidate (weight f) in
  if m_score best <? score
  then {| m_score := score; m_matchType := matchType f; m_strong := strong |} else best.

Definition bestSearchTokenMatch (queryToken : string) (fs : list searchField) : searchTokenMatch :=
  foldl (λ best f, foldl (token_step queryToken f) best (tokens f)) no_match fs.

Definition passesSearchFloor (queryCount matchedCount strongCount : Z) : bool :=
  if matchedCount =? 0 then false
  else if queryCount =? 1 then true
  else if strongCount =? 0 then false
  else if queryCount =? 2 then 1 <=? matchedCount
  else 2 <=? matchedCount.

(** The loop over the query tokens: matched, strong, total, best. *)
Record tally := { t_matched : Z; t_strong : Z; t_total : Z; t_best : searchTokenMatch }.

Definition tally_step (fs : list searchField) (t : tally) (q : string) : tally :=
  let m := bestSearchTokenMatch q fs in
  if m_score m =? 0 then t else
  {| t_matched := t_matched t + 1;
     t_strong := if m_strong m then t_strong t + 1 else t_strong t;
     t_total := t_total t + m_score m;
     t_best := if m_score (t_best t) <? m_score m then m else t_best t |}.

Definition tally_tokens (fs : list searchField) (qs : list string) : tally :=
  foldl (tally_step fs) {| t_matched := 0; t_strong := 0; t_total := 0; t_best := no_match |} qs.

Section Search.
Context {Ctx Req W : Type}.
Notation TD := (TD Ctx Req W).

Record ToolSearchResult := { sr_Tool : TD; Score : Z; MatchType : string }.

Record rankedToolSearchResult := {
  result : ToolSearchResult;
  exactWholeName : bool;
  exactWholeSearchTerm : bool;
  allTokensMatched : bool;
  matchedCount : Z
}.

Definition toolSearchFields (td : TD) : list searchField :=
  [{| matchType := "name"; weight := searchWeightName; tokens := searchTokens (tool_name td) |}] ++
  map (λ t, {| matchType := "tag"; weight := searchWeightTag; tokens := searchTokens t |}) (Tags td) ++
  map (λ t, {| matchType := "search_term"; weight := searchWeightSearchTerm;
               tokens := searchTokens t |}) (SearchTerms td) ++
  [{| matchType := "category"; weight := searchWeightCategory; tokens := searchTokens (Category td) |};
   {| matchType := "runtime_group"; weight := searchWeightRuntimeGroup;
      tokens := searchTokens (RuntimeGroup td) |};
   {| matchType := "description"; weight := searchWeightDescription;
      tokens := searchTokens (Description (td_Tool td)) |}].

Definition phrase (s : string) : string := join " " (searchTokens s).

Definition rank (queryPhrase : string) (queryTokens : list string) (td : TD) :
    option rankedToolSearchResult :=
  let t := tally_tokens (toolSearchFields td) queryTokens in
  let n := Z.of_nat (length queryTokens) in
  if passesSearchFloor n (t_matched t) (t_strong t) then
    let name := bool_decide (phrase (tool_name td) = queryPhrase) in
    let term := existsb (λ s, bool_decide (phrase s = queryPhrase)) (SearchTerms td) in
    Some {|
      result := {| sr_Tool := td; Score := t_total t;
                   MatchType := if name then "name" else if term then "search_term"
                                else m_matchType (t_best t) |};
      exactWholeName := name; exactWholeSearchTerm := term;
      allTokensMatched := t_matched t =? n; matchedCount := t_matched t |}
  else None.

(** [less] of the sort, and the order it induces. *)
Definition ranked_less (l r : rankedToolSearchResult) : bool :=
  if negb (eqb (exactWholeName l) (exactWholeName r)) then exactWholeName l
  else if negb (eqb (exactWholeSearchTerm l) (exactWholeSearchTerm r)) then exactWholeSearchTerm l
  else if negb (eqb (allTokensMatched l) (allTokensMatched r)) then allTokensMatched l
  else if negb (matchedCount l =? matchedCount r) then matchedCount r <? matchedCount l
  else if negb (Score (result l) =? Score (result r)) then Score (result r) <? Score (result l)
  else bool_decide (String.le (tool_name (sr_Tool (result l))) (tool_name (sr_Tool (result r)))) &&
       negb (bool_decide (tool_name (sr_Tool (result l)) = tool_name (sr_Tool (result r)))).
Definition ranked_le (l r : rankedToolSearchResult) : Prop := ranked_less r l = false.
#[export] Instance ranked_le_dec : RelDecision ranked_le.
Proof. intros l r. unfold ranked_le. apply _. Defined.

Definition SearchTools (r : ToolRegistry Ctx Req W) (query : string) : list ToolSearchResult :=
  let all := searchTokens query in
  match all with
  | [] => []
  | _ =>
      let qs := filterSearchStopwords all in
      match qs with
      | [] => []
      | _ => map result (merge_sort ranked_le
               (omap (rank (join " " all) qs) (GetAllToolDefinitions r)))
      end
  end.
End Search.
Arguments ToolSearchResult : clear implicits.
Arguments rankedToolSearchResult : clear implicits.

(** ** Levenshtein: the table computes the edit distance *)
Section LevenshteinProofs.
Context {A : Type} `{EqDecision A}.
Implicit Types a b pre bs : list A.

Fixpoint cells a pre bs : list Z :=
  match bs with
  | [] => []
  | y :: bs' => lev a (y :: pre) :: cells a (y :: pre) bs'
  end.

Lemma lev_nil_r a : lev a [] = Z.of_nat (length a).
Proof. by destruct a. Qed.

Lemma lev_cons x a y b :
  lev (x :: a) (y :: b) =
  Z.min (lev (x :: a) b + 1) (Z.min (lev a (y :: b) + 1) (lev a b + if decide (x = y) then 0 else 1)).
Proof. done. Qed.

Lemma lev_row_cells x a pre bs :
  lev_row x (lev (x :: a) pre) (lev a pre) bs (cells a pre bs) = cells (x :: a) pre bs.
Proof.
  revert pre; induction bs as [|y bs IH]; intros pre; [done|].
  cbn [lev_row cells].
  match goal with |- ?m :: _ = _ => assert (m = lev (x :: a) (y :: pre)) as -> end.
  { rewrite lev_cons. generalize (if decide (x = y) then 0 else 1). intros c.
    generalize (lev a (y :: pre)) (lev (x :: a) pre) (lev a pre). intros u l d.
    destruct (Z.ltb_spec (u + 1) (l + 1)).
    - destruct (Z.ltb_spec (d + c) (u + 1)); lia.
    - destruct (Z.ltb_spec (d + c) (l + 1)); lia. }
  by rewrite IH.
Qed.

Lemma lev_rows_cells xs a bs :
  lev_rows (Z.of_nat (length a) + 1) xs bs (lev a [] :: cells a [] bs) =
  lev (rev xs ++ a) [] :: cells (rev xs ++ a) [] bs.
Proof.
  revert a; induction xs as [|x xs IH]; intros a; [done|]. cbn [lev_rows rev].
  assert (E : Z.of_nat (length a) + 1 = lev (x :: a) []) by (rewrite lev_nil_r; simpl; lia).
  rewrite E at 2 3. rewrite lev_row_cells.
  replace (Z.of_nat (length a) + 1 + 1) with (Z.of_nat (length (x :: a)) + 1) by (simpl; lia).
  rewrite IH. by rewrite <- app_assoc.
Qed.

Lemma cells_init (pre : list A) bs :
  map Z.of_nat (seq (S (length pre)) (length bs)) = cells [] pre bs.
Proof.
  revert pre; induction bs as [|y bs IH]; intros pre; [done|]. cbn [length seq map cells].
  f_equal. apply (IH (y :: pre)).
Qed.

Lemma cells_last a pre bs d :
  List.last (lev a pre :: cells a pre bs) d = lev a (rev bs ++ pre).
Proof.
  revert pre; induction bs as [|y bs IH]; intros pre; [done|].
  cbn [cells rev]. rewrite <- app_assoc.
  change (List.last (lev a pre :: ?c :: ?l) d) with (List.last (c :: l) d). apply IH.
Qed.

Lemma levenshtein_list_lev a b : levenshtein_list a b = lev (rev a) (rev b).
Proof.
  unfold levenshtein_list. case_bool_decide as Ha.
  { apply length_zero_iff_nil in Ha as ->. simpl. by rewrite length_rev. }
  case_bool_decide as Hb.
  { apply length_zero_iff_nil in Hb as ->. cbn [rev]. by rewrite lev_nil_r, length_rev. }
  change (seq 0 (S (length b))) with (0%nat :: seq 1 (length b)). cbn [map].
  rewrite (cells_init []). pose proof (lev_rows_cells a [] b) as H. cbn [length] in H.
  change (lev ([] : list A) []) with (Z.of_nat 0) in H. change (Z.of_nat 0 + 1) with 1 in H.
  rewrite H, app_nil_r, cells_last. by rewrite app_nil_r.
Qed.

Lemma edits_app a b n a' b' m : edits a b n → edits a' b' m → edits (a ++ a') (b ++ b') (n + m).
Proof.
  intros H1 H2. induction H1; simpl; rewrite <- ?Z.add_assoc, ?(Z.add_comm 1 m), ?Z.add_assoc;
    try (by constructor). done.
Qed.

Lemma edits_rev a b n : edits a b n → edits (rev a) (rev b) n.
Proof.
  induction 1 as [|x a b n _ IH|x y a b n _ IH|x a b n _ IH|y a b n _ IH]; simpl.
  - constructor.
  - rewrite <- (Z.add_0_r n). apply edits_app; [done|]. do 2 constructor.
  - apply edits_app; [done|]. apply (ed_subst x y [] [] 0). constructor.
  - rewrite <- (app_nil_r (rev b)). apply edits_app; [done|]. apply (ed_delete x [] [] 0). constructor.
  - rewrite <- (app_nil_r (rev a)). apply edits_app; [done|]. apply (ed_insert y [] [] 0). constructor.
Qed.

Lemma edits_nil_l b : edits [] b (Z.of_nat (length b)).
Proof.
  induction b as [|y b IH]; [constructor|]. cbn [length].
  replace (Z.of_nat (S (length b))) with (Z.of_nat (length b) + 1) by lia. by constructor.
Qed.

Lemma edits_nil_r a : edits a [] (Z.of_nat (length a)).
Proof.
  induction a as [|y a IH]; [constructor|]. cbn [length].
  replace (Z.of_nat (S (length a))) with (Z.of_nat (length a) + 1) by lia. by constructor.
Qed.

Lemma lev_edits a b : edits a b (lev a b).
Proof.
  revert b; induction a as [|x a IHa]; [apply edits_nil_l|].
  induction b as [|y b IHb]; [apply edits_nil_r|]. rewrite lev_cons.
  assert (H3 : edits (x :: a) (y :: b) (lev a b + if decide (x = y) then 0 else 1)).
  { case_decide as E; [subst; rewrite Z.add_0_r|]; by constructor. }
  pose proof (ed_insert y _ _ _ IHb). pose proof (ed_delete x _ _ _ (IHa (y :: b))).
  destruct (Z.min_spec (lev (x :: a) b + 1) (Z.min (lev a (y :: b) + 1)
    (lev a b + if decide (x = y) then 0 else 1))) as [[_ ->]|[_ ->]]; [done|].
  destruct (Z.min_spec (lev a (y :: b) + 1) (lev a b + if decide (x = y) then 0 else 1))
    as [[_ ->]|[_ ->]]; done.
Qed.

Lemma lev_min a b n : edits a b n → lev a b <= n.
Proof.
  induction 1 as [|x a b n _ IH|x y a b n _ IH|x a b n _ IH|y a b n _ IH].
  - done.
  - rewrite lev_cons, decide_True by done. lia.
  - rewrite lev_cons. case_decide; lia.
  - destruct b as [|y b]; [rewrite lev_nil_r in *; simpl; lia|]. rewrite lev_cons. lia.
  - destruct a as [|x a]; [simpl in *; lia|]. rewrite lev_cons. lia.
Qed.
End LevenshteinProofs.

(** C25.  The two-row table is the edit distance: some sequence of that many
    insertions, deletions and substitutions of runes turns one word into the other, and
    no shorter one does. *)
Theorem levenshtein_is_edit_distance (a b : string) :
  let l := runes a in
  let m := runes b in
  edits l m (levenshtein a b) ∧ ∀ n, edits l m n → levenshtein a b <= n.
Proof.
  intros l m. unfold levenshtein. rewrite levenshtein_list_lev. split.
  - rewrite <- (rev_involutive l), <- (rev_involutive m) at 1. apply edits_rev, lev_edits.
  - intros n Hn. apply lev_min. by apply edits_rev.
Qed.

(** ** Scores *)
Lemma scoreSearchToken_bounds q c w :
  0 < w → let '(s, strong) := scoreSearchToken q c w in
  0 <= s <= w ∧ (s = w ↔ q = c) ∧ (q = c → strong = true).
Proof.
  intros Hw. unfold scoreSearchToken. case_bool_decide as E; [split; [lia|]; tauto|].
  assert (0 <= w / 2 < w) by (split; [apply Z.div_pos|apply Z.div_lt]; lia).
  assert (0 <= w / 3 < w) by (split; [apply Z.div_pos|apply Z.div_lt]; lia).
  assert (Hb : ∀ s b, 0 <= s < w → 0 <= s <= w ∧ (s = w ↔ q = c) ∧ (q = c → b = true)).
  { intros s b Hs. split; [lia|]. split; [split; [intros ->; lia|done]|done]. }
  destruct (_ && _); [by apply Hb|]. destruct (_ || _); [apply Hb; lia|].
  destruct (_ || _); apply Hb; lia.
Qed.

(** A best match so far: bounded by 90, and exact when it reaches 90. *)
Definition match_ok (m : searchTokenMatch) : Prop :=
  0 <= m_score m <= 90 ∧ (m_score m = 90 → m_strong m = true).

Lemma token_step_ok q f m c :
  0 < weight f <= 90 → match_ok m → match_ok (token_step q f m c) ∧ m_score m <= m_score (token_step q f m c).
Proof.
  intros Hw [H1 H2]. unfold token_step. pose proof (scoreSearchToken_bounds q c (weight f) ltac:(lia)) as H.
  destruct (scoreSearchToken q c (weight f)) as [s strong]. destruct H as (Hs & Heq & Hst).
  destruct (Z.ltb_spec (m_score m) s); [|by split; [|lia]]. split; simpl; [|lia].
  split; simpl; [lia|]. intros ->. apply Hst, Heq. lia.
Qed.

Lemma token_fold_ok q f m cs :
  0 < weight f <= 90 → match_ok m →
  match_ok (foldl (token_step q f) m cs) ∧ m_score m <= m_score (foldl (token_step q f) m cs).
Proof.
  intros Hw. revert m; induction cs as [|c cs IH]; intros m Hm; simpl; [by split; [|lia]|].
  destruct (token_step_ok q f m c Hw Hm) as [Hm' Hle]. destruct (IH _ Hm'). split; [done|lia].
Qed.

Lemma token_fold_exact q f m cs :
  weight f = 90 → match_ok m → q ∈ cs → m_score (foldl (token_step q f) m cs) = 90.
Proof.
  intros Hw. revert m; induction cs as [|c cs IH]; intros m Hm Hq; [by apply elem_of_nil in Hq|].
  simpl. destruct (token_step_ok q f m c ltac:(lia) Hm) as [Hm' Hle].
  apply elem_of_cons in Hq as [<-|Hq]; [|by apply IH].
  destruct (token_fold_ok q f (token_step q f m q) cs ltac:(lia) Hm') as [[Hb _] Hb'].
  enough (m_score (token_step q f m q) = 90) by lia.
  unfold token_step in *. pose proof (scoreSearchToken_bounds q q (weight f) ltac:(lia)) as Hsc.
  destruct (scoreSearchToken q q (weight f)) as [s strong]. destruct Hsc as (_ & [_ Hs] & _).
  specialize (Hs eq_refl). destruct Hm as [? _]. destruct (Z.ltb_spec (m_score m) s); simpl; lia.
Qed.

Lemma field_fold_ok q fs m :
  Forall (λ f, 0 < weight f <= 90) fs → match_ok m →
  let m' := foldl (λ best f, foldl (token_step q f) best (tokens f)) m fs in
  match_ok m' ∧ m_score m <= m_score m'.
Proof.
  intros Hfs. revert m; induction Hfs as [|f fs Hf _ IH]; intros m Hm; simpl; [by split; [|lia]|].
  destruct (token_fold_ok q f m (tokens f) Hf Hm) as [Hm' Hle]. destruct (IH _ Hm'). split; [done|lia].
Qed.

Section SearchProofs.
Context {Ctx Req W : Type}.
Implicit Types td : TD Ctx Req W.
Implicit Types x y z : rankedToolSearchResult Ctx Req W.

Lemma fields_weights td : Forall (λ f, 0 < weight f <= 90) (toolSearchFields td).
Proof.
  unfold toolSearchFields. rewrite !Forall_app. split; [by repeat constructor|].
  split; [|split; [|by repeat constructor]].
  - apply Forall_fmap, Forall_forall. by intros t _.
  - apply Forall_fmap, Forall_forall. by intros t _.
Qed.

Lemma bestSearchTokenMatch_ok q td :
  match_ok (bestSearchTokenMatch q (toolSearchFields td)).
Proof. apply field_fold_ok; [apply fields_weights|]. split; simpl; [lia|done]. Qed.

Lemma bestSearchTokenMatch_name q td :
  q ∈ searchTokens (tool_name td) →
  m_score (bestSearchTokenMatch q (toolSearchFields td)) = 90 ∧
  m_strong (bestSearchTokenMatch q (toolSearchFields td)) = true.
Proof.
  intros Hq. pose proof (bestSearchTokenMatch_ok q td) as [Hb Hs].
  enough (H : m_score (bestSearchTokenMatch q (toolSearchFields td)) = 90) by (split; [done|by apply Hs]).
  pose proof (fields_weights td) as Hw. unfold bestSearchTokenMatch in *. unfold toolSearchFields in Hw, Hb |- *.
  match goal with |- context [[?f] ++ ?l] => set (f0 := f) in *; set (rest := l) in * end.
  cbn [app foldl] in *. inversion Hw as [|? ? Hf0 Hrest]; subst.
  assert (H0 : match_ok no_match) by (split; simpl; [lia|done]).
  destruct (token_fold_ok q f0 no_match (tokens f0) Hf0 H0) as [H1 _].
  pose proof (token_fold_exact q f0 no_match (tokens f0) eq_refl H0 Hq) as H2.
  destruct (field_fold_ok q rest _ Hrest H1) as [_ H3]. lia.
Qed.

Lemma tally_exact_name td qs t :
  (∀ q, q ∈ qs → q ∈ searchTokens (tool_name td)) →
  let t' := foldl (tally_step (toolSearchFields td)) t qs in
  t_matched t' = t_matched t + Z.of_nat (length qs) ∧
  t_strong t' = t_strong t + Z.of_nat (length qs).
Proof.
  revert t; induction qs as [|q qs IH]; intros t Hq; cbn [foldl length]; [cbv zeta; lia|].
  destruct (bestSearchTokenMatch_name q td) as [H1 H2]; [apply Hq; by left|].
  destruct (IH (tally_step (toolSearchFields td) t q)) as [H3 H4]; [intros; apply Hq; by right|].
  cbv zeta in *. rewrite H3, H4. unfold tally_step. rewrite H1, H2. simpl. lia.
Qed.

Lemma rank_exact_name query td :
  searchTokens (tool_name td) = searchTokens query →
  filterSearchStopwords (searchTokens query) ≠ [] →
  ∃ x, rank (join " " (searchTokens query)) (filterSearchStopwords (searchTokens query)) td = Some x ∧
       sr_Tool (result x) = td ∧ exactWholeName x = true.
Proof.
  intros Ht Hq. unfold rank. set (qs := filterSearchStopwords (searchTokens query)) in *.
  destruct (tally_exact_name td qs {| t_matched := 0; t_strong := 0; t_total := 0; t_best := no_match |})
    as [H1 H2].
  { intros q. unfold qs, filterSearchStopwords. rewrite list_elem_of_filter, Ht. tauto. }
  fold (tally_tokens (toolSearchFields td) qs) in H1, H2. cbn [t_matched t_strong] in H1, H2.
  rewrite H1, H2, !Z.add_0_l.
  assert (Hl : 0 < Z.of_nat (length qs)) by (destruct qs; [done|simpl; lia]).
  assert (Hf : passesSearchFloor (Z.of_nat (length qs)) (Z.of_nat (length qs)) (Z.of_nat (length qs)) = true).
  { unfold passesSearchFloor. bsolve; to_prop; lia. }
  rewrite Hf. eexists. split; [done|]. split; [done|]. simpl. apply bool_decide_eq_true.
  unfold phrase. by rewrite Ht.
Qed.

Lemma rank_exact_phrase p qs td x :
  rank p qs td = Some x → exactWholeName x = bool_decide (phrase (tool_name td) = p) ∧ sr_Tool (result x) = td.
Proof. unfold rank. destruct (passesSearchFloor _ _ _); [|done]. by intros [= <-]. Qed.

(** The comparison is a total preorder. *)
Lemma string_lt_trans (a b c : string) :
  String.le a b ∧ a ≠ b → String.le b c ∧ b ≠ c → String.le a c ∧ a ≠ c.
Proof.
  intros [H1 N1] [H2 N2]. split; [by transitivity b|]. intros ->.
  apply N1. by apply (anti_symm String.le).
Qed.

#[export] Instance ranked_le_total : Total (ranked_le (Ctx := Ctx) (Req := Req) (W := W)).
Proof.
  intros [[n1 s1 m1] a1 b1 c1 k1] [[n2 s2 m2] a2 b2 c2 k2]. unfold ranked_le, ranked_less; simpl.
  destruct a1, a2, b1, b2, c1, c2; simpl; auto;
    destruct (Z.eqb_spec k1 k2), (Z.eqb_spec k2 k1), (Z.eqb_spec s1 s2), (Z.eqb_spec s2 s1),
      (Z.ltb_spec k1 k2), (Z.ltb_spec k2 k1), (Z.ltb_spec s1 s2), (Z.ltb_spec s2 s1); simpl; auto; try lia;
    repeat case_bool_decide; simpl; auto; exfalso;
    match goal with H : ?x ≠ ?y |- _ => apply H; by apply (anti_symm String.le) end.
Qed.

Lemma ranked_le_exact x y : ranked_le x y → exactWholeName y = true → exactWholeName x = true.
Proof.
  unfold ranked_le, ranked_less. intros H Hy. rewrite Hy in H. destruct (exactWholeName x); [done|].
  simpl in H. discriminate H.
Qed.

Lemma Sorted_head_exact l :
  Sorted ranked_le l → Exists (λ x, exactWholeName x = true) l →
  match l with [] => False | x :: _ => exactWholeName x = true end.
Proof.
  induction l as [|x l IH]; intros Hs He; [by inversion He|].
  apply Sorted_inv in Hs as [Hs Hh].
  apply Exists_cons in He as [He|He]; [done|].
  specialize (IH Hs He). destruct l as [|y l]; [done|]. apply HdRel_inv in Hh.
  by eapply ranked_le_exact.
Qed.

Lemma elem_of_SearchTools r query td :
  td ∈ map sr_Tool (SearchTools r query) →
  ∃ name, GetTool r name = Some td.
Proof.
  unfold SearchTools. destruct (searchTokens query) as [|t ts]; [by intros ?%elem_of_nil|].
  destruct (filterSearchStopwords (t :: ts)); [by intros ?%elem_of_nil|].
  rewrite list_elem_of_fmap. intros (res & -> & H). apply list_elem_of_fmap in H as (x & -> & H).
  rewrite merge_sort_Permutation in H. apply list_elem_of_omap in H as (td & H & Hx).
  apply rank_exact_phrase in Hx as [_ <-]. by apply elem_of_GetAll in H.
Qed.
End SearchProofs.

(** Searching for a tool by its name finds it first: when the query's words
    are those of a registered tool's name (not stopwords only), that tool is
    among the results and the first result is a tool with exactly that name's
    words; and every result is a registered tool. *)
Theorem search_exact_name_first {Ctx Req W : Type} (r : ToolRegistry Ctx Req W) query name td :
  GetTool r name = Some td → searchTokens (tool_name td) = searchTokens query →
  filterSearchStopwords (searchTokens query) ≠ [] →
  td ∈ map sr_Tool (SearchTools r query) ∧
  (∃ x l, SearchTools r query = x :: l ∧ phrase (tool_name (sr_Tool x)) = phrase query) ∧
  (∀ td', td' ∈ map sr_Tool (SearchTools r query) → ∃ n, GetTool r n = Some td').
Proof.
  intros Hg Ht Hq. destruct (rank_exact_name query td Ht Hq) as (x & Hx & Hr & He).
  assert (E : SearchTools r query = map result (merge_sort ranked_le
    (omap (rank (join " " (searchTokens query)) (filterSearchStopwords (searchTokens query)))
       (GetAllToolDefinitions r)))).
  { unfold SearchTools. destruct (searchTokens query) as [|t ts]; [done|].
    by destruct (filterSearchStopwords (t :: ts)). }
  set (l := omap _ _) in E.
  assert (Hin : x ∈ l).
  { apply list_elem_of_omap. exists td. split; [|done]. apply elem_of_GetAll. by exists name. }
  split; [|split; [|apply elem_of_SearchTools]].
  - rewrite E, map_map. apply list_elem_of_fmap. exists x. split; [done|].
    by rewrite merge_sort_Permutation.
  - pose proof (Sorted_head_exact (merge_sort ranked_le l) (Sorted_merge_sort _ _)) as Hh.
    rewrite E. assert (Hex : Exists (λ x, exactWholeName x = true) (merge_sort ranked_le l)).
    { apply Exists_exists. exists x. by rewrite merge_sort_Permutation. }
    specialize (Hh Hex). destruct (merge_sort ranked_le l) as [|y k] eqn:Em; [done|].
    do 2 eexists. split; [done|].
    assert (Hy : y ∈ l) by (rewrite <- (merge_sort_Permutation ranked_le l), Em; by left).
    apply list_elem_of_omap in Hy as (td' & _ & Hy). apply rank_exact_phrase in Hy as [H1 H2].
    rewrite H1 in Hh. apply bool_decide_eq_true in Hh. by rewrite H2.
Qed.

(** A fuzzy match can hide an exact one: a tool whose description contains
    a query word exactly is found, but the same tool with a name one letter away
    from that word is not, because the weaker name match ties on score and
    comes first. *)
Theorem fuzzy_name_hides_exact_description {Ctx Req W : Type} (td td' : TD Ctx Req W) :
  Tags td = [] ∧ SearchTerms td = [] ∧ Category td = "" ∧ RuntimeGroup td = "" ∧
  tool_name td = "bank" ∧ Description (td_Tool td) = "send money" →
  Tags td' = [] ∧ SearchTerms td' = [] ∧ Category td' = "" ∧ RuntimeGroup td' = "" ∧
  tool_name td' = "sand" ∧ Description (td_Tool td') = "send money" →
  rank "send abroad" ["send"; "abroad"] td ≠ None ∧ rank "send abroad" ["send"; "abroad"] td' = None.
Proof.
  intros (H1 & H2 & H3 & H4 & H5 & H6) (H1' & H2' & H3' & H4' & H5' & H6').
  unfold rank, toolSearchFields. rewrite H1, H2, H3, H4, H5, H6, H1', H2', H3', H4', H5', H6'.
  split; [|vm_compute; reflexivity].
  match goal with |- context [passesSearchFloor ?a ?b ?c] =>
    assert (passesSearchFloor a b c = true) as -> by (vm_compute; reflexivity) end. done.
Qed.

(** ** Witnesses *)
Definition named_tool (name description : string) : TD unit unit unit :=
  plain_definition idle_handler {|
    Name := name; Title := ""; Description := description;
    Annotations := Annotations plain_tool; InputSchema := InputSchema plain_tool;
    ToolOutputSchema := ToolOutputSchema plain_tool; Meta := None; ToolDeferLoading := false |}.

Definition mail_registry : ToolRegistry unit unit unit :=
  RegisterModule (NewToolRegistry []) {| mod_Name := "mail"; mod_Description := "";
    mod_Tools := [named_tool "mail_list" "list mail"; named_tool "mail_get" "get mail"] |}.

Lemma search_exact_name_first_witness :
  ∃ x l, SearchTools mail_registry "Mail get" = x :: l ∧ phrase (tool_name (sr_Tool x)) = phrase "Mail get".
Proof.
  apply (search_exact_name_first mail_registry "Mail get" "mail_get" (named_tool "mail_get" "get mail")).
  - vm_compute. reflexivity.
  - vm_compute. reflexivity.
  - vm_compute. discriminate.
Defined.

Lemma fuzzy_name_hides_exact_description_witness :
  rank "send abroad" ["send"; "abroad"] (named_tool "bank" "send money") ≠ None ∧
  rank "send abroad" ["send"; "abroad"] (named_tool "sand" "send money") = None.
Proof.
  apply fuzzy_name_hides_exact_description; vm_compute; repeat split.
Defined.

(** One edit changes an accented letter, which is two bytes. *)
Definition accented (e : nat) : string := String (Ascii.ascii_of_nat 195) (String (Ascii.ascii_of_nat e) "").
Lemma accent_is_one_edit : runes ("caf" +:+ accented 169) = [99; 97; 102; 233] ∧
  levenshtein ("caf" +:+ accented 169) "cafe" = 1 ∧ levenshtein (accented 169) (accented 168) = 1.
Proof. by vm_compute. Qed.
