(* ===== verification/Workflow.v ===== *)
(** The workflow engine (src/workflow/): graphs, the step loop with its hooks,
    checkpoints and compensation, resumption, compensable and fork nodes. *)

From stdpp Require Import base tactics list gmap strings relations.
From Stdlib Require Import ZArith Lia.
From S2P Require Import Prelude.

Local Open Scope Z_scope.

(** ** State (workflow.go) *)
Record State := {
  Data : gmap string json;
  Metadata : gmap string string;
  Step : Z;
  NodeName : string;
  UpdatedAt : time
}.

Definition NewState (now : time) : State :=
  {| Data := ∅; Metadata := ∅; Step := 0; NodeName := ""; UpdatedAt := now |}.
Definition Clone (s : State) : State :=
  {| Data := Data s; Metadata := Metadata s; Step := Step s; NodeName := NodeName s;
     UpdatedAt := UpdatedAt s |}.
Definition Get {T} (cast : json → option T) (s : State) (key : string) : option T :=
  v ← Data s !! key; cast v.
Definition Set_ (s : State) (key : string) (value : json) : State :=
  {| Data := <[key := value]> (Data s); Metadata := Metadata s; Step := Step s;
     NodeName := NodeName s; UpdatedAt := UpdatedAt s |}.
Definition at_step (step : Z) (name : string) (now : time) (s : State) : State :=
  {| Data := Data s; Metadata := Metadata s; Step := step; NodeName := name; UpdatedAt := now |}.

Definition EndNode : string := "__END__".

(** ** Checkpoints (checkpoint.go) *)
Record Checkpoint := {
  cp_RunID : string;
  cp_State : State;
  cp_CurrentNode : string;
  cp_Step : Z;
  cp_SavedAt : time
}.

(** The [CheckpointStore] interface over a store state [S], and what the engine
    relies on. *)
Class CheckpointStore (S : Type) := {
  Save : Checkpoint → S → option error * S;
  Load : string → S → (option Checkpoint * option error);
  Delete : string → S → option error * S;
  List : S → list string * option error
}.

Class CheckpointStoreLaws (S : Type) `{CheckpointStore S} := {
  load_save cp s s' : Save cp s = (None, s') → Load (cp_RunID cp) s' = (Some cp, None);
  load_save_other cp s s' r :
    Save cp s = (None, s') → r ≠ cp_RunID cp → Load r s' = Load r s;
  load_delete r s s' : Delete r s = (None, s') → Load r s' = (None, None);
  list_load s ids : List s = (ids, None) →
    ∀ r, r ∈ ids ↔ ∃ cp, Load r s = (Some cp, None)
}.

Definition MemoryCheckpointStore := gmap string Checkpoint.
Definition NewMemoryCheckpointStore : MemoryCheckpointStore := ∅.
#[export] Instance MemoryCheckpointStore_ops : CheckpointStore MemoryCheckpointStore := {|
  Save cp s := (None, <[cp_RunID cp := cp]> s);
  Load r s := (s !! r, None);
  Delete r s := (None, delete r s);
  List s := ((map_to_list s).*1, None)
|}.

(** ** Hooks (hooks.go): the calls made, in order *)
Inductive hook_event :=
| NodeStart (name : string) (s : State)
| NodeEnd (name : string) (s : State)
| NodeError (name : string) (e : error)
| Checkpointed (cp : Checkpoint)
| CycleDetected (name : string) (step : Z)
| CompensationStart (name : string)
| CompensationEnd (name : string) (e : option error).

Inductive RunStatus := RunStatusCompleted | RunStatusFailed | RunStatusStopped.

#[export] Instance RunStatus_eq_dec : EqDecision RunStatus.
Proof. solve_decision. Defined.

Record RunResult := {
  RunID : string;
  Status : RunStatus;
  FinalState : State;
  Steps : Z;
  Duration : duration;
  Error : string
}.

Section Engine.
(** [E] is everything nodes act on outside the engine; the clock and the
    cancellation of the run's context are read from it. *)
Context {E : Type}.
Variable now : E → time.
Variable ctx_err : E → option string.
Context {St : Type} `{CheckpointStore St}.

(** *** Compensation (compensate.go) *)
Definition CompensateFunc := State → st E (option error).
Record CompensationRecord := {
  rec_NodeName : string;
  rec_Compensate : CompensateFunc;
  rec_State : State
}.

(** What a node sees: the outside and, when its context carries one, the run's
    compensation stack (oldest record first). *)
Record Env := { ext : E; stack : option (list CompensationRecord) }.

Definition Push (r : CompensationRecord) (e : Env) : Env :=
  {| ext := ext e; stack := (λ rs, rs ++ [r]) <$> stack e |}.

(** *** Graphs (workflow.go) *)
Definition NodeFunc := duration → State → st Env (State * option error).

Inductive edge :=
| Unconditional (to : string)
| Conditional (condition : State → string).

Record node := {
  n_name : string;
  n_fn : NodeFunc;
  n_timeout : duration;
  n_edges : list edge
}.

Record Graph := { nodes : gmap string node; start : string }.

Definition NewGraph : Graph := {| nodes := ∅; start := "" |}.
Definition set_nodes (m : gmap string node) (g : Graph) : Graph :=
  {| nodes := m; start := start g |}.
Definition add_edge (e : edge) (n : node) : node :=
  {| n_name := n_name n; n_fn := n_fn n; n_timeout := n_timeout n; n_edges := n_edges n ++ [e] |}.

Definition werr (s : string) : error := Err ("workflow: " +:+ s).

(** [fn = None] is a nil handler. *)
Definition AddNode (g : Graph) (name : string) (fn : option NodeFunc) (timeout : duration) :
    option error * Graph :=
  if bool_decide (name = "") then (Some (werr "node name cannot be empty"), g)
  else if bool_decide (name = EndNode) then (Some (werr (quote EndNode +:+ " is reserved")), g)
  else match fn with
  | None => (Some (werr ("node " +:+ quote name +:+ " handler cannot be nil")), g)
  | Some fn =>
      match nodes g !! name with
      | Some _ => (Some (werr ("duplicate node " +:+ quote name)), g)
      | None =>
          (None, set_nodes (<[name := {| n_name := name; n_fn := fn; n_timeout := timeout;
                                          n_edges := [] |}]> (nodes g)) g)
      end
  end.

Definition AddEdge (g : Graph) (from to : string) : option error * Graph :=
  match nodes g !! from with
  | None => (Some (werr ("unknown source node " +:+ quote from)), g)
  | Some n =>
      if bool_decide (to ≠ EndNode) && bool_decide (nodes g !! to = None)
      then (Some (werr ("unknown target node " +:+ quote to)), g)
      else (None, set_nodes (<[from := add_edge (Unconditional to) n]> (nodes g)) g)
  end.

Definition AddConditionalEdge (g : Graph) (from : string) (condition : option (State → string)) :
    option error * Graph :=
  match nodes g !! from with
  | None => (Some (werr ("unknown source node " +:+ quote from)), g)
  | Some n =>
      match condition with
      | None => (Some (werr ("condition cannot be nil for node " +:+ quote from)), g)
      | Some c => (None, set_nodes (<[from := add_edge (Conditional c) n]> (nodes g)) g)
      end
  end.

Definition SetStart (g : Graph) (name : string) : option error * Graph :=
  match nodes g !! name with
  | None => (Some (werr ("unknown start node " +:+ quote name)), g)
  | Some _ => (None, {| nodes := nodes g; start := name |})
  end.

(** The first complaint about a node's edges. *)
Fixpoint check_edges (g : Graph) (name : string) (es : list edge) : option error :=
  match es with
  | [] => None
  | Conditional _ :: es' => check_edges g name es'
  | Unconditional to :: es' =>
      if bool_decide (to ≠ EndNode) && bool_decide (nodes g !! to = None)
      then Some (werr ("node " +:+ quote name +:+ " has edge to unknown node " +:+ quote to))
      else check_edges g name es'
  end.

Definition check_node (g : Graph) (p : string * node) : option error :=
  match check_edges g p.1 (n_edges p.2) with
  | Some e => Some e
  | None => if bool_decide (n_edges p.2 = [])
            then Some (werr ("node " +:+ quote p.1 +:+ " has no outgoing edges")) else None
  end.

Definition Validate (g : Graph) : option error :=
  if bool_decide (start g = "") then Some (werr "no start node set")
  else if bool_decide (nodes g = ∅) then Some (werr "graph has no nodes")
  else head (omap (check_node g) (map_to_list (nodes g))).

(** A forward function with its rollback. *)
Definition compensable (name : string) (forward : NodeFunc) (compensate : CompensateFunc) : NodeFunc :=
  λ timeout s e,
    match forward timeout s e with
    | ((s', Some err), e') => ((s', Some err), e')
    | ((s', None), e') =>
        ((s', None), Push {| rec_NodeName := name; rec_Compensate := compensate;
                             rec_State := Clone s' |} e')
    end.

Definition AddCompensableNode (g : Graph) (name : string) (forward : NodeFunc)
    (compensate : option CompensateFunc) (timeout : duration) : option error * Graph :=
  match compensate with
  | None => (Some (werr ("compensate function cannot be nil for node " +:+ quote name)), g)
  | Some c => AddNode g name (Some (compensable name forward c)) timeout
  end.

(** *** Fork nodes (fork.go)

    The branches run concurrently on their own clones; they are taken here in
    the order in which they finish. *)
Definition MergeFunc := State → gmap string State → State * option error.

Fixpoint run_branches (name : string) (timeout : duration) (s : State)
    (branches : list (string * NodeFunc)) (e : Env) :
    (gmap string State * option error) * Env :=
  match branches with
  | [] => ((∅, None), e)
  | (bname, fn) :: rest =>
      let bs := at_step (Step s) (name +:+ "/" +:+ bname) (UpdatedAt s) s in
      let '((s', err), e1) := fn timeout bs e in
      let '((results, firstErr), e2) := run_branches name timeout s rest e1 in
      match err with
      | Some x => ((results, Some (ErrWrap ("branch " +:+ quote bname +:+ ": ") x "")), e2)
      | None => ((<[bname := s']> results, firstErr), e2)
      end
  end.

(** [order] is the scheduler's choice. *)
Definition forkFn (order : E → list (string * NodeFunc) → list (string * NodeFunc))
    (name : string) (branches : list (string * NodeFunc)) (merge : MergeFunc) : NodeFunc :=
  λ timeout s e,
    let '((results, firstErr), e') := run_branches name timeout s (order (ext e) branches) e in
    match firstErr with
    | Some err => ((s, Some err), e')
    | None => (merge s results, e')
    end.

Definition AddForkNode (order : E → list (string * NodeFunc) → list (string * NodeFunc))
    (g : Graph) (name : string) (branches : gmap string (option NodeFunc))
    (merge : option MergeFunc) (timeout : duration) : option error * Graph :=
  if bool_decide (name = "") then (Some (werr "fork node name cannot be empty"), g)
  else if bool_decide (name = EndNode) then (Some (werr (quote EndNode +:+ " is reserved")), g)
  else if bool_decide (branches = ∅)
  then (Some (werr ("fork node " +:+ quote name +:+ " must have at least one branch")), g)
  else match merge with
  | None => (Some (werr ("fork node " +:+ quote name +:+ " merge function cannot be nil")), g)
  | Some merge =>
      match list_find (λ p, p.2 = None :> option NodeFunc) (map_to_list branches) with
      | Some (_, (bname, _)) =>
          (Some (werr ("fork node " +:+ quote name +:+ " branch " +:+ quote bname +:+
                       " handler cannot be nil")), g)
      | None =>
          match nodes g !! name with
          | Some _ => (Some (werr ("duplicate node " +:+ quote name)), g)
          | None =>
              let bs := omap (λ p, pair p.1 <$> p.2) (map_to_list branches) in
              (None, set_nodes (<[name := {| n_name := name; n_fn := forkFn order name bs merge;
                                              n_timeout := timeout; n_edges := [] |}]> (nodes g)) g)
          end
      end
  end.

(** *** The engine (engine.go) *)
Definition NodeMiddleware := string → NodeFunc → NodeFunc.

Definition WrapNodeFunc (fn : NodeFunc) (name : string) (mws : list NodeMiddleware) : NodeFunc :=
  foldr (λ mw next, mw name next) fn mws.

Record EngineConfig := {
  MaxSteps : Z;
  DefaultNodeTimeout : duration;
  HasCheckpointStore : bool;
  NodeMiddlewares : list NodeMiddleware;
  CompensateOnFailure : bool
}.

Record Engine := { graph : Graph; e_config : EngineConfig }.

Definition zero_EngineConfig : EngineConfig := {|
  MaxSteps := 0; DefaultNodeTimeout := 0; HasCheckpointStore := false;
  NodeMiddlewares := []; CompensateOnFailure := false |}.

Definition NewEngine (g : Graph) (cfgs : list EngineConfig) : error + Engine :=
  match Validate g with
  | Some err => inl err
  | None =>
      let cfg := match cfgs with c :: _ => c | [] => zero_EngineConfig end in
      inr {| graph := g; e_config := {|
        MaxSteps := if MaxSteps cfg <=? 0 then 1000 else MaxSteps cfg;
        DefaultNodeTimeout := if DefaultNodeTimeout cfg <=? 0 then 30 * Second
                              else DefaultNodeTimeout cfg;
        HasCheckpointStore := HasCheckpointStore cfg;
        NodeMiddlewares := NodeMiddlewares cfg;
        CompensateOnFailure := CompensateOnFailure cfg |} |}
  end.

(** The engine's world: the nodes' environment, the checkpoint store, and the
    hook calls so far. *)
Record World := { env : Env; store : St; log : list hook_event }.
Definition emit (ev : list hook_event) (w : World) : World :=
  {| env := env w; store := store w; log := log w ++ ev |}.
Definition set_env (e : Env) (w : World) : World := {| env := e; store := store w; log := log w |}.
Definition set_store (s : St) (w : World) : World := {| env := env w; store := s; log := log w |}.
Definition clock (w : World) : time := now (ext (env w)).

Definition resolveNext (g : Graph) (n : node) (s : State) : error + string :=
  match n_edges n with
  | [] => inl (werr ("node " +:+ quote (n_name n) +:+ " has no edges"))
  | Conditional c :: _ =>
      let target := c s in
      if bool_decide (target = EndNode) then inr EndNode
      else if bool_decide (nodes g !! target = None)
      then inl (werr ("conditional edge from " +:+ quote (n_name n) +:+
                      " returned unknown node " +:+ quote target))
      else inr target
  | Unconditional to :: _ => inr to
  end.

(** Records are run from the last to the first; errors are reported to the hook
    and otherwise ignored. *)
Fixpoint run_records (rs : list CompensationRecord) (w : World) : World :=
  match rs with
  | [] => w
  | r :: rs' =>
      let w1 := emit [CompensationStart (rec_NodeName r)] w in
      let '(err, x) := rec_Compensate r (rec_State r) (ext (env w1)) in
      run_records rs'
        (emit [CompensationEnd (rec_NodeName r) err]
           (set_env {| ext := x; stack := stack (env w1) |} w1))
  end.

Definition runCompensation (w : World) : World :=
  match stack (env w) with
  | None => w
  | Some rs => run_records (rev rs) w
  end.

(** One iteration of the loop of [Run] and [Resume]. *)
Inductive step_result :=
| Continue (next : string) (s : State) (w : World)
| Finish (r : RunResult) (w : World)
| Fails (e : error) (w : World).

Definition finish (runID : string) (status : RunStatus) (s : State) (steps : Z) (t0 : time)
    (msg : string) (w : World) : step_result :=
  Finish {| RunID := runID; Status := status; FinalState := s; Steps := steps;
            Duration := time_sub (clock w) t0; Error := msg |} w.

Definition save_checkpoint (eng : Engine) (cp : Checkpoint) (w : World) : option error * World :=
  if HasCheckpointStore (e_config eng) then
    match Save cp (store w) with
    | (Some err, st') => (Some (ErrWrap "workflow: checkpoint save: " err ""), set_store st' w)
    | (None, st') => (None, emit [Checkpointed cp] (set_store st' w))
    end
  else (None, w).

Definition delete_checkpoint (eng : Engine) (runID : string) (w : World) : World :=
  if HasCheckpointStore (e_config eng) then set_store (Delete runID (store w)).2 w else w.

Definition engine_step (eng : Engine) (runID : string) (t0 : time) (step : Z)
    (currentNode : string) (state : State) (w : World) : step_result :=
  match ctx_err (ext (env w)) with
  | Some msg => finish runID RunStatusStopped state step t0 msg w
  | None =>
  match nodes (graph eng) !! currentNode with
  | None => Fails (werr ("node " +:+ quote currentNode +:+ " not found during execution")) w
  | Some n =>
    let state := at_step step currentNode (clock w) state in
    let w := emit [NodeStart currentNode state] w in
    let timeout := if n_timeout n <=? 0 then DefaultNodeTimeout (e_config eng) else n_timeout n in
    let fn := WrapNodeFunc (n_fn n) currentNode (NodeMiddlewares (e_config eng)) in
    let '((newState, err), e') := fn timeout (Clone state) (env w) in
    let w := set_env e' w in
    match err with
    | Some err =>
        let w := runCompensation (emit [NodeError currentNode err] w) in
        finish runID RunStatusFailed state (step + 1) t0
          ("node " +:+ quote currentNode +:+ ": " +:+ error_text err) w
    | None =>
        let state := newState in
        let w := emit [NodeEnd currentNode state] w in
        let cp := {| cp_RunID := runID; cp_State := state; cp_CurrentNode := currentNode;
                     cp_Step := step + 1; cp_SavedAt := clock w |} in
        match save_checkpoint eng cp w with
        | (Some e, w) => Fails e w
        | (None, w) =>
            match resolveNext (graph eng) n state with
            | inl e => Fails e w
            | inr nextNode =>
                if bool_decide (nextNode = EndNode) then
                  match finish runID RunStatusCompleted state (step + 1) t0 "" w with
                  | Finish r w => Finish r (delete_checkpoint eng runID w)
                  | other => other
                  end
                else
                  let w := if bool_decide (nextNode = currentNode)
                           then emit [CycleDetected currentNode (step + 1)] w else w in
                  Continue nextNode state w
            end
        end
    end
  end
  end.

(** The loop; [fuel] is the number of iterations left, [MaxSteps - step]. *)
Fixpoint loop (fuel : nat) (eng : Engine) (runID : string) (t0 : time) (step : Z)
    (currentNode : string) (state : State) (w : World) : (error + RunResult) * World :=
  match fuel with
  | O =>
      (inr {| RunID := runID; Status := RunStatusFailed; FinalState := state;
              Steps := MaxSteps (e_config eng); Duration := time_sub (clock w) t0;
              Error := "max steps (" +:+ itoa (MaxSteps (e_config eng)) +:+ ") exceeded" |}, w)
  | S fuel' =>
      match engine_step eng runID t0 step currentNode state w with
      | Continue next s w' => loop fuel' eng runID t0 (step + 1) next s w'
      | Finish r w' => (inr r, w')
      | Fails e w' => (inl e, w')
      end
  end.

(** [withCompensationStack] when the saga pattern is on. *)
Definition with_stack (eng : Engine) (w : World) : World :=
  if CompensateOnFailure (e_config eng)
  then set_env {| ext := ext (env w); stack := Some [] |} w else w.

Definition Run (eng : Engine) (runID : string) (initial : State) (w : World) :
    (error + RunResult) * World :=
  loop (Z.to_nat (MaxSteps (e_config eng))) eng runID (clock w) 0 (start (graph eng))
    (Clone initial) (with_stack eng w).

Definition Resume (eng : Engine) (runID : string) (w : World) : (error + RunResult) * World :=
  if negb (HasCheckpointStore (e_config eng)) then (inl (werr "no checkpoint store configured"), w) else
  match Load runID (store w) with
  | (_, Some err) => (inl (ErrWrap "workflow: load checkpoint: " err ""), w)
  | (None, None) => (inl (werr ("no checkpoint found for run " +:+ quote runID)), w)
  | (Some cp, None) =>
      match nodes (graph eng) !! cp_CurrentNode cp with
      | None => (inl (werr ("checkpoint node " +:+ quote (cp_CurrentNode cp) +:+
                            " not found in graph")), w)
      | Some n =>
          match resolveNext (graph eng) n (cp_State cp) with
          | inl err => (inl err, w)
          | inr nextNode =>
              if bool_decide (nextNode = EndNode) then
                (inr {| RunID := runID; Status := RunStatusCompleted; FinalState := cp_State cp;
                        Steps := cp_Step cp; Duration := 0; Error := "" |},
                 delete_checkpoint eng runID w)
              else if MaxSteps (e_config eng) - cp_Step cp <=? 0 then
                (inr {| RunID := runID; Status := RunStatusFailed; FinalState := cp_State cp;
                        Steps := cp_Step cp; Duration := 0;
                        Error := "max steps (" +:+ itoa (MaxSteps (e_config eng)) +:+
                                 ") already reached at checkpoint" |}, w)
              else
                loop (Z.to_nat (MaxSteps (e_config eng) - cp_Step cp)) eng runID (clock w)
                  (cp_Step cp) nextNode (cp_State cp) (with_stack eng w)
          end
      end
  end.

(** *** What the properties speak about *)

(** Building a graph. *)
Inductive graph_op :=
| OpAddNode (name : string) (fn : option NodeFunc) (timeout : duration)
| OpAddCompensableNode (name : string) (fn : NodeFunc) (c : option CompensateFunc) (timeout : duration)
| OpAddForkNode (order : E → list (string * NodeFunc) → list (string * NodeFunc)) (name : string)
    (branches : gmap string (option NodeFunc)) (merge : option MergeFunc) (timeout : duration)
| OpAddEdge (from to : string)
| OpAddConditionalEdge (from : string) (c : option (State → string))
| OpSetStart (name : string).

Definition run_graph_op (g : Graph) (o : graph_op) : Graph :=
  match o with
  | OpAddNode n f t => (AddNode g n f t).2
  | OpAddCompensableNode n f c t => (AddCompensableNode g n f c t).2
  | OpAddForkNode ord n b m t => (AddForkNode ord g n b m t).2
  | OpAddEdge f t => (AddEdge g f t).2
  | OpAddConditionalEdge f c => (AddConditionalEdge g f c).2
  | OpSetStart n => (SetStart g n).2
  end.

(** Nodes are stored under their own, unreserved name; unconditional edges lead
    to nodes or to the end; the start, once set, is a node. *)
Definition graph_wf (g : Graph) : Prop :=
  (∀ name n, nodes g !! name = Some n →
     n_name n = name ∧ name ≠ "" ∧ name ≠ EndNode ∧
     ∀ to, Unconditional to ∈ n_edges n → to = EndNode ∨ is_Some (nodes g !! to)) ∧
  (start g = "" ∨ is_Some (nodes g !! start g)).

(** [next_of g name s to]: the graph sends a run that finished [name] in state
    [s] to [to]. *)
Definition next_of (g : Graph) (name : string) (s : State) (to : string) : Prop :=
  ∃ n, nodes g !! name = Some n ∧ resolveNext g n s = inr to.

(** A visit of a node at step [k]: it is given a clone of the run's state marked with the step, and answers [r]. *)
Definition visits (eng : Engine) (cur : string) (k : Z) (s : State) (e : Env) (s0 : State) (r : State * option error) (e' : Env) : Prop :=
  ∃ n, nodes (graph eng) !! cur = Some n ∧ s0 = at_step k cur (now (ext e)) s ∧
    WrapNodeFunc (n_fn n) cur (NodeMiddlewares (e_config eng))
      (if n_timeout n <=? 0 then DefaultNodeTimeout (e_config eng) else n_timeout n) (Clone s0) e = (r, e').

(** The checkpoint after a completed visit, if there is a store: what it holds, and the event that tells of it. *)
Definition saved (eng : Engine) (runID cur : string) (k : Z) (s : State) (e : Env) (st st' : St) (evs : list hook_event) : Prop :=
  if HasCheckpointStore (e_config eng) then
    let cp := {| cp_RunID := runID; cp_State := s; cp_CurrentNode := cur; cp_Step := k + 1; cp_SavedAt := now (ext e) |} in
    Save cp st = (None, st') ∧ evs = [Checkpointed cp]
  else st' = st ∧ evs = [].

(** Completed visits along the graph, from a node with the run's state, the nodes' environment and the store, to where they
    lead: each node is given what the one before left, and the events are those of the visits in order. *)
Inductive walk (eng : Engine) (runID : string) :
    string → Z → State → Env → St → list hook_event → string → Z → State → Env → St → Prop :=
| walk_nil cur k s e st : walk eng runID cur k s e st [] cur k s e st
| walk_visit cur k s e st s0 s1 e1 st1 mid nx evs out k' s' e' st' :
    ctx_err (ext e) = None → visits eng cur k s e s0 (s1, None) e1 → saved eng runID cur k s1 e1 st st1 mid →
    next_of (graph eng) cur s1 nx → nx ≠ EndNode →
    walk eng runID nx (k + 1) s1 e1 st1 evs out k' s' e' st' →
    walk eng runID cur k s e st
      ([NodeStart cur s0; NodeEnd cur s1] ++ mid ++ (if bool_decide (nx = cur) then [CycleDetected cur (k + 1)] else []) ++ evs)
      out k' s' e' st'.

(** The rollbacks in the order given: what they make of the outside, and the events. *)
Fixpoint rollback (rs : list CompensationRecord) (x : E) : E * list hook_event :=
  match rs with
  | [] => (x, [])
  | r :: rs => let '(err, x) := rec_Compensate r (rec_State r) x in
               let '(x, evs) := rollback rs x in
               (x, CompensationStart (rec_NodeName r) :: CompensationEnd (rec_NodeName r) err :: evs)
  end.
(** What is done after a failure: the recorded rollbacks, from the last, if the run has a stack. *)
Definition undone (e : Env) (evs : list hook_event) (e' : Env) : Prop :=
  match stack e with
  | None => evs = [] ∧ e' = e
  | Some rs => evs = (rollback (rev rs) (ext e)).2 ∧ e' = {| ext := (rollback (rev rs) (ext e)).1; stack := Some rs |}
  end.

(** How a run ends that has come to [cur] at step [k]: its outcome, the last events, and what it leaves behind. *)
Inductive ends (eng : Engine) (runID cur : string) (k : Z) (s : State) (e : Env) (st : St) :
    error + (string * RunStatus * State * Z * string) → list hook_event → Env → St → Prop :=
| ends_limit : k = Z.max 0 (MaxSteps (e_config eng)) →
    ends eng runID cur k s e st
      (inr (runID, RunStatusFailed, s, MaxSteps (e_config eng), "max steps (" +:+ itoa (MaxSteps (e_config eng)) +:+ ") exceeded")) [] e st
| ends_stopped msg : k < MaxSteps (e_config eng) → ctx_err (ext e) = Some msg →
    ends eng runID cur k s e st (inr (runID, RunStatusStopped, s, k, msg)) [] e st
| ends_lost : k < MaxSteps (e_config eng) → ctx_err (ext e) = None → nodes (graph eng) !! cur = None →
    ends eng runID cur k s e st (inl (werr ("node " +:+ quote cur +:+ " not found during execution"))) [] e st
| ends_failed s0 s1 err e1 evs e2 : k < MaxSteps (e_config eng) → ctx_err (ext e) = None →
    visits eng cur k s e s0 (s1, Some err) e1 → undone e1 evs e2 →
    ends eng runID cur k s e st (inr (runID, RunStatusFailed, s0, k + 1, "node " +:+ quote cur +:+ ": " +:+ error_text err))
      ([NodeStart cur s0; NodeError cur err] ++ evs) e2 st
| ends_unsaved s0 s1 e1 err st1 : k < MaxSteps (e_config eng) → ctx_err (ext e) = None →
    visits eng cur k s e s0 (s1, None) e1 → HasCheckpointStore (e_config eng) = true →
    Save {| cp_RunID := runID; cp_State := s1; cp_CurrentNode := cur; cp_Step := k + 1; cp_SavedAt := now (ext e1) |} st = (Some err, st1) →
    ends eng runID cur k s e st (inl (ErrWrap "workflow: checkpoint save: " err "")) [NodeStart cur s0; NodeEnd cur s1] e1 st1
| ends_stuck s0 s1 e1 st1 mid n err : k < MaxSteps (e_config eng) → ctx_err (ext e) = None →
    visits eng cur k s e s0 (s1, None) e1 → saved eng runID cur k s1 e1 st st1 mid →
    nodes (graph eng) !! cur = Some n → resolveNext (graph eng) n s1 = inl err →
    ends eng runID cur k s e st (inl err) ([NodeStart cur s0; NodeEnd cur s1] ++ mid) e1 st1
| ends_completed s0 s1 e1 st1 mid : k < MaxSteps (e_config eng) → ctx_err (ext e) = None →
    visits eng cur k s e s0 (s1, None) e1 → saved eng runID cur k s1 e1 st st1 mid → next_of (graph eng) cur s1 EndNode →
    ends eng runID cur k s e st (inr (runID, RunStatusCompleted, s1, k + 1, ""))
      ([NodeStart cur s0; NodeEnd cur s1] ++ mid) e1 (if HasCheckpointStore (e_config eng) then (Delete runID st1).2 else st1).

(** [k] full iterations, all continuing. *)
Fixpoint iterate (k : nat) (eng : Engine) (runID : string) (t0 : time) (step : Z)
    (currentNode : string) (state : State) (w : World) : option (string * State * World) :=
  match k with
  | O => Some (currentNode, state, w)
  | S k' =>
      match engine_step eng runID t0 step currentNode state w with
      | Continue next s w' => iterate k' eng runID t0 (step + 1) next s w'
      | _ => None
      end
  end.

(** Outcomes compared up to the duration, which depends on when the run began. *)
Definition forget_duration (r : error + RunResult) : error + (string * RunStatus * State * Z * string) :=
  match r with
  | inl e => inl e
  | inr r => inr (RunID r, Status r, FinalState r, Steps r, Error r)
  end.
End Engine.

(** Ready-made merges (fork.go), over one enumeration of the branch results. *)
Definition MergeAll_list (base : State) (bs : list (string * State)) : State :=
  foldl (λ r b, {| Data := Data b.2 ∪ Data r; Metadata := Metadata b.2 ∪ Metadata r;
                   Step := Step r; NodeName := NodeName r; UpdatedAt := UpdatedAt r |})
    (Clone base) bs.
Definition MergeAll : MergeFunc := λ base branches,
  (MergeAll_list base (map_to_list branches), None).
Definition MergeKeyed : MergeFunc := λ base branches,
  (foldl (λ r b, Set_ r b.1 (JObject (map_to_list (Data b.2)))) (Clone base)
     (map_to_list branches), None).

Arguments Env : clear implicits.
Arguments CompensationRecord : clear implicits.
Arguments NodeFunc : clear implicits.
Arguments CompensateFunc : clear implicits.
Arguments Graph : clear implicits.
Arguments node : clear implicits.
Arguments Engine : clear implicits.
Arguments EngineConfig : clear implicits.
Arguments World : clear implicits.
Arguments graph_op : clear implicits.
Arguments step_result : clear implicits.

(** The nodes that completed, and the compensations that ran, in a log. *)
Definition completed (evs : list hook_event) : list string :=
  omap (λ ev, match ev with NodeEnd n _ => Some n | _ => None end) evs.
Definition compensated (evs : list hook_event) : list string :=
  omap (λ ev, match ev with CompensationStart n => Some n | _ => None end) evs.
Definition node_errors (evs : list hook_event) : list string :=
  omap (λ ev, match ev with NodeError n _ => Some n | _ => None end) evs.

(** ** Lemmas *)
Lemma log_views_app evs evs' :
  completed (evs ++ evs') = completed evs ++ completed evs' ∧
  compensated (evs ++ evs') = compensated evs ++ compensated evs' ∧
  node_errors (evs ++ evs') = node_errors evs ++ node_errors evs'.
Proof. unfold completed, compensated, node_errors. by rewrite !omap_app. Qed.

#[export] Instance MemoryCheckpointStore_laws : CheckpointStoreLaws MemoryCheckpointStore.
Proof.
  split; simpl.
  - intros cp s s' [= <-]. f_equal. apply (lookup_insert_eq (M := gmap string)).
  - intros cp s s' r [= <-] Hne. f_equal. by apply (lookup_insert_ne (M := gmap string)).
  - intros r s s' [= <-]. f_equal. apply (lookup_delete_eq (M := gmap string)).
  - intros s ids [= <-] r. rewrite list_elem_of_fmap. split.
    + intros ([r' cp] & -> & Hin). apply elem_of_map_to_list in Hin. exists cp. simpl. f_equal. exact Hin.
    + intros [cp [= Hr]]. exists (r, cp). split; [done|]. by apply elem_of_map_to_list.
Qed.

Section GraphLemmas.
Context {E : Type}.
Implicit Types g : Graph E.

(** Replacing or adding a node keeps the others' edges valid. *)
Lemma graph_wf_insert g name n :
  graph_wf g → n_name n = name → name ≠ "" → name ≠ EndNode →
  (∀ to, Unconditional to ∈ n_edges n → to = EndNode ∨ is_Some (nodes g !! to)) →
  graph_wf (set_nodes (<[name := n]> (nodes g)) g).
Proof.
  intros [H1 H2] Hn He Hend Hto.
  assert (Hk : ∀ to, is_Some (nodes g !! to) → is_Some (<[name := n]> (nodes g) !! to)).
  { intros to Hs. rewrite lookup_insert_is_Some'. by right. }
  split; simpl; [|destruct H2 as [?|?]; [by left|right; by apply Hk]].
  intros name' n'. rewrite lookup_insert_Some. intros [[<- <-]|[Hne Hl]].
  - split_and!; try done. intros to Hin. destruct (Hto to Hin); [by left|right; by apply Hk].
  - destruct (H1 _ _ Hl) as (? & ? & ? & Hed). split_and!; try done.
    intros to Hin. destruct (Hed to Hin); [by left|right; by apply Hk].
Qed.

Lemma AddNode_wf g name fn t : graph_wf g → graph_wf (AddNode g name fn t).2.
Proof.
  intros Hg. unfold AddNode. repeat (case_bool_decide; [done|]). destruct fn as [fn|]; [|done].
  destruct (nodes g !! name); [done|]. apply graph_wf_insert; try done.
  intros to Hin. simpl in Hin. by apply elem_of_nil in Hin.
Qed.

Lemma run_graph_op_wf g o : graph_wf g → graph_wf (run_graph_op g o).
Proof.
  intros Hg. destruct o as [name fn t|name fn c t|ord name bs m t|from to|from c|name]; simpl.
  - by apply AddNode_wf.
  - unfold AddCompensableNode. destruct c; [by apply AddNode_wf|done].
  - unfold AddForkNode. repeat (case_bool_decide; [done|]). destruct m as [m|]; [|done].
    destruct (list_find _ _) as [[i [b ?]]|]; [done|]. destruct (nodes g !! name); [done|].
    apply graph_wf_insert; try done. intros to Hin. simpl in Hin. by apply elem_of_nil in Hin.
  - unfold AddEdge. destruct (nodes g !! from) as [n|] eqn:Hn; [|done].
    case_match eqn:Hto; [done|]. simpl. pose proof Hg as [H1 _].
    destruct (H1 _ _ Hn) as (? & ? & ? & Hed). apply graph_wf_insert; try done.
    intros to'. unfold add_edge; simpl. rewrite elem_of_app, list_elem_of_singleton.
    intros [Hin|[= ->]]; [by apply Hed|].
    apply andb_false_iff in Hto as [Hto|Hto]; apply bool_decide_eq_false_1 in Hto.
    + left. destruct (decide (to = EndNode)); [done|]. exfalso. by apply Hto.
    + right. destruct (nodes g !! to); [by eexists|done].
  - unfold AddConditionalEdge. destruct (nodes g !! from) as [n|] eqn:Hn; [|done].
    destruct c as [c|]; [|done]. simpl. pose proof Hg as [H1 _].
    destruct (H1 _ _ Hn) as (? & ? & ? & Hed). apply graph_wf_insert; try done.
    intros to'. unfold add_edge; simpl. rewrite elem_of_app, list_elem_of_singleton.
    intros [Hin|Hc]; [by apply Hed|done].
  - unfold SetStart. destruct (nodes g !! name) eqn:Hn; [|done]. destruct Hg as [H1 _].
    split; simpl; [done|]. right. rewrite Hn. by eexists.
Qed.

Lemma built_graph_wf (os : list (graph_op E)) : graph_wf (foldl run_graph_op NewGraph os).
Proof.
  assert (H : graph_wf (NewGraph (E := E))).
  { split; simpl; [by intros ? ?; rewrite lookup_empty|by left]. }
  revert H. generalize (NewGraph (E := E)).
  induction os as [|o os IH]; intros g Hg; simpl; [done|]. by apply IH, run_graph_op_wf.
Qed.

Lemma check_edges_none g name es :
  check_edges g name es = None ↔
  ∀ to, Unconditional to ∈ es → to = EndNode ∨ is_Some (nodes g !! to).
Proof.
  induction es as [|[to|c] es IH]; simpl.
  - split; [by intros _ to Hin; apply elem_of_nil in Hin|done].
  - case_match eqn:Hto.
    + apply andb_true_iff in Hto as [Ha%bool_decide_eq_true_1 Hb%bool_decide_eq_true_1].
      split; [done|]. intros Hall. destruct (Hall to) as [|[x Hx]]; [by left|done|congruence].
    + rewrite IH. split; intros Hall to' Hin.
      * apply elem_of_cons in Hin as [[= ->]|Hin]; [|by apply Hall].
        apply andb_false_iff in Hto as [Hto|Hto]; apply bool_decide_eq_false_1 in Hto.
        -- left. destruct (decide (to = EndNode)); [done|]. exfalso. by apply Hto.
        -- right. destruct (nodes g !! to); [by eexists|done].
      * apply Hall. by right.
  - rewrite IH. split; intros Hall to Hin; [|apply Hall; by right].
    apply elem_of_cons in Hin as [?|Hin]; [done|by apply Hall].
Qed.

Lemma head_omap_none {A B} (f : A → option B) (l : list A) :
  head (omap f l) = None ↔ ∀ x, x ∈ l → f x = None.
Proof.
  induction l as [|x l IH]; csimpl.
  - split; [by intros _ x Hin; apply elem_of_nil in Hin|done].
  - destruct (f x) as [y|] eqn:Hx; csimpl.
    + split; [done|]. intros Hall. rewrite Hall in Hx; [done|by left].
    + rewrite IH. split; intros Hall z Hin; [|apply Hall; by right].
      apply elem_of_cons in Hin as [->|Hin]; [done|by apply Hall].
Qed.

Lemma Validate_none g :
  Validate g = None ↔
  start g ≠ "" ∧ nodes g ≠ ∅ ∧
  ∀ name n, nodes g !! name = Some n →
    n_edges n ≠ [] ∧ ∀ to, Unconditional to ∈ n_edges n → to = EndNode ∨ is_Some (nodes g !! to).
Proof.
  unfold Validate. case_bool_decide as Hs; [split; [done|naive_solver]|].
  case_bool_decide as Hn; [split; [done|naive_solver]|]. rewrite head_omap_none. split.
  - intros Hall. split; [done|]. split; [done|]. intros name n Hl.
    specialize (Hall (name, n) ltac:(by apply elem_of_map_to_list)). unfold check_node in Hall. simpl in Hall.
    destruct (check_edges g name (n_edges n)) eqn:Hc; [done|].
    case_bool_decide; [done|]. split; [done|]. by apply (check_edges_none g name).
  - intros (_ & _ & Hall) [name n] Hin. apply elem_of_map_to_list in Hin.
    destruct (Hall _ _ Hin) as [He Hto]. unfold check_node. simpl.
    apply (check_edges_none g name) in Hto. rewrite Hto. by rewrite bool_decide_eq_false_2.
Qed.
End GraphLemmas.

(** A graph put together with the builder calls, in any order and whatever
    their errors, is well formed, and [Validate] accepts it exactly when a start
    was set and every node has an outgoing edge. *)
Theorem built_graph_validates {E : Type} (os : list (graph_op E)) :
  let g := foldl run_graph_op NewGraph os in
  graph_wf g ∧
  (Validate g = None ↔ start g ≠ "" ∧ ∀ name n, nodes g !! name = Some n → n_edges n ≠ []).
Proof.
  intros g. pose proof (built_graph_wf os) as Hg. fold g in Hg. split; [done|].
  rewrite Validate_none. destruct Hg as [H1 H2]. split.
  - intros (Hs & _ & Hall). split; [done|]. intros name n Hl. by apply (Hall name).
  - intros [Hs Hall]. split; [done|]. split.
    + destruct H2 as [?|[n Hn]]; [done|]. intros Hempty. rewrite Hempty, lookup_empty in Hn. done.
    + intros name n Hl. split; [by eapply Hall|]. by apply (H1 name).
Qed.

(** *** The loop *)
Section EngineLemmas.
Context {E St : Type} (now : E → time) (ctx_err : E → option string) `{CheckpointStore St}.
Implicit Types eng : Engine E.
Implicit Types w : World E St.

Notation estep := (engine_step now ctx_err).
Notation eloop := (loop now ctx_err).
Notation eiter := (iterate now ctx_err).

Lemma run_records_rollback (rs : list (CompensationRecord E)) w :
  run_records rs w = {| env := {| ext := (rollback rs (ext (env w))).1; stack := stack (env w) |}; store := store w;
                        log := log w ++ (rollback rs (ext (env w))).2 |}.
Proof.
  revert w; induction rs as [|r rs IH]; intros w; simpl; [rewrite app_nil_r; by destruct w as [[] ? ?]|].
  destruct (rec_Compensate r (rec_State r) (ext (env w))) as [err x]. rewrite IH. cbn.
  destruct (rollback rs x) as [x' evs]. cbn. by rewrite <- !app_assoc.
Qed.
Lemma runCompensation_undone w : ∃ evs, undone (env w) evs (env (runCompensation w)) ∧ log (runCompensation w) = log w ++ evs ∧
  store (runCompensation w) = store w.
Proof.
  unfold runCompensation, undone. destruct (stack (env w)) as [rs|] eqn:Hs; [|exists []; by rewrite app_nil_r].
  rewrite run_records_rollback. eexists. cbn. rewrite Hs. done.
Qed.

Lemma save_checkpoint_saved eng runID cur k s w cp :
  cp = {| cp_RunID := runID; cp_State := s; cp_CurrentNode := cur; cp_Step := k + 1; cp_SavedAt := clock now w |} →
  match save_checkpoint eng cp w with
  | (None, w') => ∃ mid, saved now eng runID cur k s (env w) (store w) (store w') mid ∧ env w' = env w ∧ log w' = log w ++ mid
  | (Some e, w') => ∃ err, HasCheckpointStore (e_config eng) = true ∧ e = ErrWrap "workflow: checkpoint save: " err "" ∧
      Save cp (store w) = (Some err, store w') ∧ env w' = env w ∧ log w' = log w
  end.
Proof.
  intros ->. unfold save_checkpoint, saved. destruct (HasCheckpointStore _); [|exists []; by rewrite app_nil_r].
  destruct (Save _ _) as [[err|] st'] eqn:Hsv; [by exists err|]. by eexists.
Qed.

(** What one iteration does, by how it ends. *)
Lemma engine_step_spec eng runID t0 step cur s w : step < MaxSteps (e_config eng) →
  match estep eng runID t0 step cur s w with
  | Continue next s' w' =>
      ctx_err (ext (env w)) = None ∧ next ≠ EndNode ∧ next_of (graph eng) cur s' next ∧
      ∃ s0 mid, visits now eng cur step s (env w) s0 (s', None) (env w') ∧ saved now eng runID cur step s' (env w') (store w) (store w') mid ∧
        log w' = log w ++ [NodeStart cur s0; NodeEnd cur s'] ++ mid ++ (if bool_decide (next = cur) then [CycleDetected cur (step + 1)] else [])
  | Finish r w' => ∃ evs, ends now ctx_err eng runID cur step s (env w) (store w) (forget_duration (inr r)) evs (env w') (store w') ∧ log w' = log w ++ evs
  | Fails e w' => ∃ evs, ends now ctx_err eng runID cur step s (env w) (store w) (inl e) evs (env w') (store w') ∧ log w' = log w ++ evs
  end.
Proof.
  intros Hk. unfold engine_step. destruct (ctx_err (ext (env w))) as [msg|] eqn:Hc; [cbn; exists []; rewrite app_nil_r; split; [by constructor|done]|].
  destruct (nodes (graph eng) !! cur) as [n|] eqn:Hn; [|exists []; rewrite app_nil_r; split; [by constructor|done]].
  set (s0 := at_step step cur (clock now w) s). cbn [env emit].
  destruct (WrapNodeFunc _ _ _ _ _ _) as [[s1 [err|]] e'] eqn:Hf.
  - assert (visits now eng cur step s (env w) s0 (s1, Some err) e') as Hv by (by exists n).
    destruct (runCompensation_undone (emit [NodeError cur err] (set_env e' (emit [NodeStart cur s0] w)))) as (evs & Hu & Hl & Hs).
    cbn [finish]. eexists. split; [rewrite Hs; by eapply ends_failed|]. rewrite Hl. cbn. by rewrite <- !app_assoc.
  - assert (visits now eng cur step s (env w) s0 (s1, None) e') as Hv by (by exists n).
    set (w1 := emit [NodeEnd cur s1] _). set (cp := {| cp_RunID := runID |}).
    pose proof (save_checkpoint_saved eng runID cur step s1 w1 cp eq_refl) as Hsv.
    destruct (save_checkpoint eng cp w1) as [[e|] w2].
    + destruct Hsv as (err & Hcs & -> & Hsv & -> & ->). eexists. split; [by eapply ends_unsaved|]. cbn. by rewrite <- app_assoc.
    + destruct Hsv as (mid & Hsv & He & Hl). change (env w1) with e' in *. change (store w1) with (store w) in *.
      assert (log w2 = log w ++ [NodeStart cur s0; NodeEnd cur s1] ++ mid) as Hl2 by (rewrite Hl; cbn; by rewrite <- !app_assoc).
      rewrite <- He in Hv, Hsv. destruct (resolveNext (graph eng) n s1) as [err|nx] eqn:Hr; [eexists; split; [by eapply ends_stuck|done]|].
      case_bool_decide as Hend; [subst nx|].
      * cbn [finish]. eexists. unfold delete_checkpoint. split; [|destruct (HasCheckpointStore _); exact Hl2].
        replace (env (if HasCheckpointStore (e_config eng) then _ else w2)) with (env w2) by (by destruct (HasCheckpointStore _)).
        replace (store (if HasCheckpointStore (e_config eng) then _ else w2))
          with (if HasCheckpointStore (e_config eng) then (Delete runID (store w2)).2 else store w2) by (by destruct (HasCheckpointStore _)).
        eapply ends_completed; try done. by exists n.
      * split; [done|]. split; [done|]. split; [by exists n|]. exists s0, mid.
        case_bool_decide; (split; [exact Hv|]; split; [exact Hsv|]); cbn [log emit]; rewrite Hl2, ?app_nil_r; [by rewrite <- !app_assoc|done].
Qed.
Lemma engine_step_continue eng runID t0 step cur s w next s' w' : step < MaxSteps (e_config eng) →
  estep eng runID t0 step cur s w = Continue next s' w' →
  ctx_err (ext (env w)) = None ∧ next ≠ EndNode ∧ next_of (graph eng) cur s' next ∧
  ∃ s0 mid, visits now eng cur step s (env w) s0 (s', None) (env w') ∧ saved now eng runID cur step s' (env w') (store w) (store w') mid ∧
    log w' = log w ++ [NodeStart cur s0; NodeEnd cur s'] ++ mid ++ (if bool_decide (next = cur) then [CycleDetected cur (step + 1)] else []).
Proof. intros Hk Hs. pose proof (engine_step_spec eng runID t0 step cur s w Hk) as H'. by rewrite Hs in H'. Qed.

(** A run of [k] continuing iterations walks the graph. *)
Lemma iterate_walk k eng runID t0 step cur s w cur' s' w' : k = 0%nat ∨ step + Z.of_nat k <= MaxSteps (e_config eng) →
  eiter k eng runID t0 step cur s w = Some (cur', s', w') →
  ∃ evs, log w' = log w ++ evs ∧
    walk now ctx_err eng runID cur step s (env w) (store w) evs cur' (step + Z.of_nat k) s' (env w') (store w').
Proof.
  revert step cur s w. induction k as [|k IH]; intros step cur s w Hk; simpl.
  - intros [= <- <- <-]. exists []. rewrite app_nil_r, Z.add_0_r. split; [done|constructor].
  - destruct (estep eng runID t0 step cur s w) as [nx s1 w1|? ?|? ?] eqn:Hs; try done.
    intros Hi. apply IH in Hi as (evs & Hl & Hw); [|lia].
    apply engine_step_continue in Hs as (Hc & He & Hn & s0 & mid & Hv & Hsv & Hlog); [|lia].
    eexists. rewrite Hl, Hlog. split; [by rewrite <- !app_assoc|].
    replace (step + Z.of_nat (S k)) with (step + 1 + Z.of_nat k) by lia. by eapply walk_visit.
Qed.

(** Every run is some continuing iterations, then a last one, or all of them. *)
Lemma loop_decompose fuel eng runID t0 step cur s w :
  ∃ k cur' s' w', (k <= fuel)%nat ∧ eiter k eng runID t0 step cur s w = Some (cur', s', w') ∧
    ((k = fuel ∧ eloop fuel eng runID t0 step cur s w = eloop 0 eng runID t0 (step + Z.of_nat k) cur' s' w') ∨
     ((k < fuel)%nat ∧
      match estep eng runID t0 (step + Z.of_nat k) cur' s' w' with
      | Continue _ _ _ => False
      | Finish r w2 => eloop fuel eng runID t0 step cur s w = (inr r, w2)
      | Fails e w2 => eloop fuel eng runID t0 step cur s w = (inl e, w2)
      end)).
Proof.
  revert step cur s w. induction fuel as [|fuel IH]; intros step cur s w.
  - exists 0%nat, cur, s, w. rewrite Z.add_0_r. simpl. auto.
  - destruct (estep eng runID t0 step cur s w) as [nx s1 w1|r w1|e w1] eqn:Hs.
    + destruct (IH (step + 1) nx s1 w1) as (k & cur' & s' & w' & Hk & Hi & Hcase).
      exists (S k), cur', s', w'. split; [lia|]. split; [simpl; by rewrite Hs|].
      replace (step + Z.of_nat (S k)) with (step + 1 + Z.of_nat k) by lia.
      destruct Hcase as [[-> Hl]|[Hlt Hl]]; [left|right]; simpl; rewrite Hs.
      * by rewrite Hl.
      * split; [lia|done].
    + exists 0%nat, cur, s, w. rewrite Z.add_0_r. split; [lia|]. split; [done|]. right.
      split; [lia|]. simpl. by rewrite Hs.
    + exists 0%nat, cur, s, w. rewrite Z.add_0_r. split; [lia|]. split; [done|]. right.
      split; [lia|]. simpl. by rewrite Hs.
Qed.

Lemma iterate_snoc k eng runID t0 step cur s w :
  eiter (S k) eng runID t0 step cur s w =
  match eiter k eng runID t0 step cur s w with
  | Some (cur', s', w') =>
      match estep eng runID t0 (step + Z.of_nat k) cur' s' w' with
      | Continue nx s2 w2 => Some (nx, s2, w2)
      | _ => None
      end
  | None => None
  end.
Proof.
  revert step cur s w. induction k as [|k IH]; intros step cur s w.
  - simpl. rewrite Z.add_0_r. by destruct (estep _ _ _ _ _ _ _).
  - cbn [iterate]. destruct (estep eng runID t0 step cur s w) as [nx s1 w1|? ?|? ?] eqn:Hs; try done.
    change (match estep eng runID t0 (step + 1) nx s1 w1 with
            | Continue next s0 w' => eiter k eng runID t0 (step + 1 + 1) next s0 w'
            | _ => None end) with (eiter (S k) eng runID t0 (step + 1) nx s1 w1).
    rewrite IH. by replace (step + 1 + Z.of_nat k) with (step + Z.of_nat (S k)) by lia.
Qed.

(** The start time of a run only shows in the duration it reports. *)
Lemma engine_step_t0 eng runID t0 t1 step cur s w :
  match estep eng runID t0 step cur s w, estep eng runID t1 step cur s w with
  | Continue n1 s1 w1, Continue n2 s2 w2 => n1 = n2 ∧ s1 = s2 ∧ w1 = w2
  | Finish r1 w1, Finish r2 w2 => forget_duration (inr r1) = forget_duration (inr r2) ∧ w1 = w2
  | Fails e1 w1, Fails e2 w2 => e1 = e2 ∧ w1 = w2
  | _, _ => False
  end.
Proof.
  unfold engine_step. destruct (ctx_err _); [done|]. destruct (nodes _ !! _) as [n|]; [|done].
  destruct (WrapNodeFunc _ _ _ _ _ _) as [[s1 [err|]] e']; [done|].
  destruct (save_checkpoint _ _ _) as [[err|] w1]; [done|].
  destruct (resolveNext _ _ _) as [err|nx]; [done|]. by case_bool_decide.
Qed.

Lemma loop_t0 fuel eng runID t0 t1 step cur s w :
  forget_duration (eloop fuel eng runID t0 step cur s w).1 =
  forget_duration (eloop fuel eng runID t1 step cur s w).1 ∧
  (eloop fuel eng runID t0 step cur s w).2 = (eloop fuel eng runID t1 step cur s w).2.
Proof.
  revert step cur s w. induction fuel as [|fuel IH]; intros step cur s w; [done|]. simpl.
  pose proof (engine_step_t0 eng runID t0 t1 step cur s w) as Hs.
  destruct (estep eng runID t0 step cur s w), (estep eng runID t1 step cur s w); try done;
    destruct Hs; simpl in *; subst; try done. destruct H1. subst. apply IH.
Qed.

Lemma loop_iterate k fuel eng runID t0 step cur s w cur' s' w' :
  eiter k eng runID t0 step cur s w = Some (cur', s', w') →
  eloop (k + fuel) eng runID t0 step cur s w = eloop fuel eng runID t0 (step + Z.of_nat k) cur' s' w'.
Proof.
  revert step cur s w. induction k as [|k IH]; intros step cur s w; simpl.
  - intros [= <- <- <-]. by rewrite Z.add_0_r.
  - destruct (estep eng runID t0 step cur s w) as [nx s1 w1|? ?|? ?]; try done. intros Hk.
    rewrite (IH _ _ _ _ Hk). by replace (step + 1 + Z.of_nat k) with (step + Z.of_nat (S k)) by lia.
Qed.

End EngineLemmas.

(** A run is a walk and its end. *)
Lemma run_walks {E St : Type} now ctx_err `{CheckpointStore St} (eng : Engine E) runID init
    (w : World E St) :
  let '(res, w') := Run now ctx_err eng runID init w in
  ∃ evs cur k s e st last,
    walk now ctx_err eng runID (start (graph eng)) 0 init
      (if CompensateOnFailure (e_config eng) then {| ext := ext (env w); stack := Some [] |} else env w) (store w) evs cur k s e st ∧
    ends now ctx_err eng runID cur k s e st (forget_duration res) last (env w') (store w') ∧
    log w' = log w ++ evs ++ last ∧ 0 <= k <= Z.max 0 (MaxSteps (e_config eng)).
Proof.
  unfold Run. set (fuel := Z.to_nat (MaxSteps (e_config eng))). assert (Clone init = init) as -> by (by destruct init).
  destruct (loop_decompose now ctx_err fuel eng runID (clock now w) 0 (start (graph eng))
    init (with_stack eng w)) as (k & cur & s & wk & Hk & Hi & Hcase).
  destruct (loop _ _ _ _ _ _ _ _ _ _) as [res w'] eqn:Hl.
  apply iterate_walk in Hi as (evs & Hlog & Hw); [|lia].
  assert (env (with_stack eng w) = if CompensateOnFailure (e_config eng) then {| ext := ext (env w); stack := Some [] |} else env w) as He
    by (unfold with_stack; by destruct (CompensateOnFailure _)).
  assert (store (with_stack eng w) = store w ∧ log (with_stack eng w) = log w) as [Hst Hlg] by (unfold with_stack; by destruct (CompensateOnFailure _)).
  rewrite He, Hst in Hw. rewrite Hlg in Hlog. destruct Hcase as [[-> Hc]|[Hlt Hc]].
  - injection Hc as -> ->. do 7 eexists. split; [exact Hw|]. split; [cbn [forget_duration RunID Status FinalState Steps Error]; apply ends_limit; lia|].
    rewrite Hlog, app_nil_r. split; [done|lia].
  - pose proof (engine_step_spec now ctx_err eng runID (clock now w) (0 + Z.of_nat k) cur s wk ltac:(lia)) as Hs.
    destruct (engine_step _ _ _ _ _ _ _ _ _) as [? ? ?|r w2|e w2]; [done|..]; injection Hc as -> ->; destruct Hs as (last & Hs & Hl2);
      exists evs, cur, (0 + Z.of_nat k), s, (env wk), (store wk), last; rewrite Hl2, Hlog, <- app_assoc; (split; [exact Hw|]; split; [exact Hs|split; [done|lia]]).
Qed.

(** C1.  Every run ends, after at most MaxSteps visits, and does what the graph says: it visits nodes from the start along the
    edges, numbered from 0, each node given the state, the environment and the store the one before left; and it ends with
    nothing more after the last visit because of the step limit or its context, or with one last visit that fails (and is
    rolled back), leads to the end, or whose checkpoint or edge fails, the result saying which. The new events of the log,
    the environment and the store afterwards are exactly those. *)
Theorem run_follows_graph {E St : Type} now ctx_err `{CheckpointStore St} (eng : Engine E) runID init
    (w : World E St) :
  let '(res, w') := Run now ctx_err eng runID init w in
  ∃ evs cur k s e st last,
    walk now ctx_err eng runID (start (graph eng)) 0 init
      (if CompensateOnFailure (e_config eng) then {| ext := ext (env w); stack := Some [] |} else env w) (store w) evs cur k s e st ∧
    ends now ctx_err eng runID cur k s e st (forget_duration res) last (env w') (store w') ∧
    log w' = log w ++ evs ++ last ∧ 0 <= k <= Z.max 0 (MaxSteps (e_config eng)).
Proof. apply run_walks. Qed.

Section EngineTheorems.
Context {E St : Type} (now : E → time) (ctx_err : E → option string) `{CheckpointStore St}.
Implicit Types eng : Engine E.
Implicit Types w : World E St.

(** The errors a run on a validated graph can end with. *)
Definition expected_failure (e : error) : Prop :=
  (∃ x, e = ErrWrap "workflow: checkpoint save: " x "") ∨
  (∃ name target, e = werr ("conditional edge from " +:+ quote name +:+
                            " returned unknown node " +:+ quote target)).

Lemma resolveNext_valid (g : Graph E) name n s :
  graph_wf g → Validate g = None → nodes g !! name = Some n →
  match resolveNext g n s with
  | inl e => expected_failure e
  | inr to => to = EndNode ∨ is_Some (nodes g !! to)
  end.
Proof.
  intros _ Hv Hn. apply Validate_none in Hv as (_ & _ & Hall). destruct (Hall _ _ Hn) as [He Hto].
  unfold resolveNext. destruct (n_edges n) as [|[to|c] es]; [done| |].
  - apply Hto. by left.
  - case_bool_decide as Hend; [by left|]. case_bool_decide as Hnone.
    + right. by do 2 eexists.
    + right. destruct (nodes g !! c s); [by eexists|done].
Qed.

Lemma engine_step_valid eng runID t0 step cur s w :
  graph_wf (graph eng) → Validate (graph eng) = None → is_Some (nodes (graph eng) !! cur) →
  match engine_step now ctx_err eng runID t0 step cur s w with
  | Continue next _ _ => is_Some (nodes (graph eng) !! next)
  | Fails e _ => expected_failure e
  | Finish _ _ => True
  end.
Proof.
  intros Hg Hv [n Hn]. unfold engine_step. destruct (ctx_err _); [done|]. rewrite Hn.
  destruct (WrapNodeFunc _ _ _ _ _ _) as [[s1 [err|]] e']; [done|].
  destruct (save_checkpoint _ _ _) as [[err|] w1] eqn:Hc.
  - left. unfold save_checkpoint in Hc. repeat case_match; simplify_eq. by eexists.
  - pose proof (resolveNext_valid (graph eng) cur n s1 Hg Hv Hn) as Hr.
    destruct (resolveNext _ _ _) as [err|nx]; [done|]. case_bool_decide; [done|].
    by destruct Hr.
Qed.

Lemma loop_valid fuel eng runID t0 step cur s w e w' :
  graph_wf (graph eng) → Validate (graph eng) = None → is_Some (nodes (graph eng) !! cur) →
  loop now ctx_err fuel eng runID t0 step cur s w = (inl e, w') → expected_failure e.
Proof.
  intros Hg Hv. revert step cur s w. induction fuel as [|fuel IH]; intros step cur s w Hcur; simpl; [done|].
  pose proof (engine_step_valid eng runID t0 step cur s w Hg Hv Hcur) as Hs.
  destruct (engine_step _ _ _ _ _ _ _ _ _); [by apply IH|done|]. by intros [= <- _].
Qed.

(** The checkpoint left by [k] iterations. *)
Lemma iterate_checkpoint `{!CheckpointStoreLaws St} k eng runID t0 cur0 s0 w0 cur s w :
  HasCheckpointStore (e_config eng) = true → Z.of_nat k < MaxSteps (e_config eng) →
  iterate now ctx_err (S k) eng runID t0 0 cur0 s0 w0 = Some (cur, s, w) →
  cur ≠ EndNode ∧ ∃ cp n, Load runID (store w) = (Some cp, None) ∧ cp_State cp = s ∧
    cp_Step cp = Z.of_nat (S k) ∧ nodes (graph eng) !! cp_CurrentNode cp = Some n ∧
    resolveNext (graph eng) n s = inr cur.
Proof.
  intros Hs Hlt Hi. rewrite iterate_snoc in Hi.
  destruct (iterate _ _ k _ _ _ _ _ _ _) as [[[c1 s1] w1]|]; [|done].
  destruct (engine_step _ _ _ _ _ _ _ _ _) as [nx s2 w2|? ?|? ?] eqn:He; try done.
  injection Hi as -> -> ->.
  apply engine_step_continue in He as (_ & Hend & (n & Hn & Hr) & _ & mid & _ & Hsv & _); [|lia].
  split; [done|]. unfold saved in Hsv. rewrite Hs in Hsv. destruct Hsv as [Hsv _].
  apply load_save in Hsv. eexists _, n. split; [exact Hsv|]. cbn. split; [done|]. split; [lia|done].
Qed.
End EngineTheorems.

(** Validation is enough: on a graph from the builder that the engine
    accepted, no run ever looks for a missing node or a missing edge; the only
    errors left are a failed checkpoint save and a condition that names an
    unknown node. *)
Theorem validated_runs_never_lost {E St : Type} now ctx_err `{CheckpointStore St} os cfgs (eng : Engine E)
    runID init (w w' : World E St) e :
  NewEngine (foldl run_graph_op NewGraph os) cfgs = inr eng →
  Run now ctx_err eng runID init w = (inl e, w') → expected_failure e.
Proof.
  intros Hn. pose proof (built_graph_wf os) as Hg. set (g := foldl run_graph_op NewGraph os) in *.
  unfold NewEngine in Hn. destruct (Validate g) eqn:Hv; [done|].
  assert (Heg : graph eng = g) by (by injection Hn as <-).
  unfold Run. apply loop_valid; rewrite Heg; [done|done|].
  destruct Hg as [_ [Hs|Hs]]; [|done]. apply Validate_none in Hv as [Hv _]. done.
Qed.

(** C2.  Crash recovery, of a run without compensation: interrupt it after any number [k >= 1] of completed steps below the
    limit; [Resume] from the checkpoint in the store reaches the same result as the uninterrupted run (except for the reported
    duration), and the same outside world, checkpoints and hook calls.  With compensation on this fails, because a resumed run
    starts with an empty stack: [resume_forgets_compensations]. *)
Theorem resume_equals_uninterrupted {E St : Type} now ctx_err `{CheckpointStoreLaws St} (eng : Engine E)
    runID init (w wk : World E St) k cur s :
  HasCheckpointStore (e_config eng) = true → CompensateOnFailure (e_config eng) = false →
  (1 <= k)%nat → Z.of_nat k < MaxSteps (e_config eng) →
  iterate now ctx_err k eng runID (clock now w) 0 (start (graph eng)) (Clone init) w = Some (cur, s, wk) →
  forget_duration (Resume now ctx_err eng runID wk).1 = forget_duration (Run now ctx_err eng runID init w).1 ∧
  (Resume now ctx_err eng runID wk).2 = (Run now ctx_err eng runID init w).2.
Proof.
  intros Hcs Hcomp Hk Hlt Hi. destruct k as [|k]; [lia|].
  pose proof (iterate_checkpoint now ctx_err k eng runID _ _ _ _ cur s wk Hcs ltac:(lia) Hi)
    as (Hend & cp & n & Hload & Hst & Hstep & Hn & Hr).
  assert (Hrun : Run now ctx_err eng runID init w =
    loop now ctx_err (Z.to_nat (MaxSteps (e_config eng)) - S k) eng runID (clock now w)
      (Z.of_nat (S k)) cur s wk).
  { unfold Run, with_stack. rewrite Hcomp.
    replace (Z.to_nat (MaxSteps (e_config eng)))
      with (S k + (Z.to_nat (MaxSteps (e_config eng)) - S k))%nat at 1 by lia.
    by rewrite (loop_iterate _ _ _ _ _ _ _ _ _ _ _ _ _ _ Hi). }
  rewrite Hrun. unfold Resume. rewrite Hcs, Hload. cbn [negb]. rewrite Hn, Hst, Hr.
  rewrite bool_decide_eq_false_2 by done. rewrite Hstep.
  destruct (Z.leb_spec (MaxSteps (e_config eng) - Z.of_nat (S k)) 0); [lia|].
  unfold with_stack. rewrite Hcomp.
  replace (Z.to_nat (MaxSteps (e_config eng) - Z.of_nat (S k)))
    with (Z.to_nat (MaxSteps (e_config eng)) - S k)%nat by lia.
  apply loop_t0.
Qed.

Section Saga.
Context {E St : Type} (now : E → time) (ctx_err : E → option string) `{CheckpointStore St}.
Implicit Types eng : Engine E.
Implicit Types w : World E St.

(** Every node is compensable, and its forward function only acts outside. *)
Definition saga (g : Graph E) : Prop :=
  ∀ name n, nodes g !! name = Some n →
    ∃ fwd comp, n_fn n = compensable name fwd comp ∧
      ∀ t s e, stack (fwd t s e).2 = stack e.

(** The record of a completed visit: the node's own rollback, with the state the visit left. *)
Definition recorded (g : Graph E) (r : CompensationRecord E) (p : string * State) : Prop :=
  rec_NodeName r = p.1 ∧ rec_State r = p.2 ∧ ∃ n fwd, nodes g !! p.1 = Some n ∧ n_fn n = compensable p.1 fwd (rec_Compensate r).
Definition completions (evs : list hook_event) : list (string * State) :=
  omap (λ ev, match ev with NodeEnd n s => Some (n, s) | _ => None end) evs.
Lemma completions_names evs : (completions evs).*1 = completed evs.
Proof. unfold completions, completed. induction evs as [|[] evs IH]; csimpl; by rewrite ?IH. Qed.
Lemma recorded_names g rs ps : Forall2 (recorded g) rs ps → map rec_NodeName rs = ps.*1.
Proof. induction 1 as [|r p rs ps (Hn & _) _ IH]; [done|]. cbn. by rewrite Hn, IH. Qed.
Lemma rollback_names (rs : list (CompensationRecord E)) x : compensated (rollback rs x).2 = map rec_NodeName rs ∧ node_errors (rollback rs x).2 = [] ∧ completed (rollback rs x).2 = [].
Proof.
  revert x. induction rs as [|r rs IH]; intros x; [done|]. cbn. destruct (rec_Compensate r (rec_State r) x) as [err x1].
  specialize (IH x1). destruct (rollback rs x1) as [x2 evs]. cbn in *. unfold compensated, node_errors, completed in *. csimpl. by destruct IH as (-> & -> & ->).
Qed.

(** A visit of a saga's node: a success pushes its record, a failure leaves the stack. *)
Lemma visits_stack eng cur k s e s0 s1 err e1 rs : saga (graph eng) → NodeMiddlewares (e_config eng) = [] → stack e = Some rs →
  visits now eng cur k s e s0 (s1, err) e1 →
  match err with
  | Some _ => stack e1 = Some rs
  | None => ∃ r, stack e1 = Some (rs ++ [r]) ∧ recorded (graph eng) r (cur, s1)
  end.
Proof.
  intros Hg Hmw Hrs (n & Hn & -> & Hf). destruct (Hg _ _ Hn) as (fwd & comp & Hfn & Hneutral).
  rewrite Hmw, Hfn in Hf. unfold WrapNodeFunc, compensable in Hf. cbn [foldr] in Hf.
  match type of Hf with context [fwd ?t ?x ?y] => specialize (Hneutral t x y); destruct (fwd t x y) as [[s2 [x2|]] e2] end; cbn in Hneutral;
    injection Hf as <- <- <-; [by rewrite Hneutral|].
  eexists. unfold Push. cbn. rewrite Hneutral, Hrs. split; [done|]. split; [done|]. split; [by destruct s2|]. by exists n, fwd.
Qed.
Lemma saved_events eng runID cur k s e (st st' : St) mid : saved now eng runID cur k s e st st' mid →
  completions mid = [] ∧ compensated mid = [] ∧ node_errors mid = [].
Proof. unfold saved. destruct (HasCheckpointStore _); [by intros [_ ->]|by intros [_ ->]]. Qed.
Lemma walk_stack eng runID cur k s e st evs cur' k' s' e' (st' : St) rs : saga (graph eng) → NodeMiddlewares (e_config eng) = [] →
  walk now ctx_err eng runID cur k s e st evs cur' k' s' e' st' → stack e = Some rs →
  ∃ rs', stack e' = Some (rs ++ rs') ∧ Forall2 (recorded (graph eng)) rs' (completions evs) ∧ compensated evs = [] ∧ node_errors evs = [].
Proof.
  intros Hg Hmw Hw. revert rs. induction Hw as [|cur k s e st s0 s1 e1 st1 mid nx evs out k' s' e' st' _ Hv Hsv _ _ _ IH]; intros rs Hrs.
  - exists []. by rewrite app_nil_r.
  - apply (visits_stack _ _ _ _ _ _ _ _ _ rs Hg Hmw Hrs) in Hv as (r & Hr & Hrec). destruct (IH _ Hr) as (rs' & Hs & Hf & H2 & H3).
    apply saved_events in Hsv as (M1 & M2 & M3). exists (r :: rs'). rewrite Hs, <- app_assoc. split; [done|].
    unfold completions, compensated, node_errors in *. rewrite !omap_app, M1, M2, M3, H2, H3. csimpl.
    by case_bool_decide; (split; [by constructor|]).
Qed.
End Saga.

(** C3.  Saga: when every node is compensable and there is no node middleware, a run that fails at a node then calls the
    rollbacks of exactly the nodes that completed, once each, in the reverse order of completion, each with the state its node
    left, on the outside as the failing node left it, whether or not some of them fail; a run that does not fail at a node
    calls none. *)
Theorem saga_rolls_back_in_reverse {E St : Type} now ctx_err `{CheckpointStore St} (eng : Engine E)
    runID init (w : World E St) :
  saga (graph eng) → NodeMiddlewares (e_config eng) = [] → CompensateOnFailure (e_config eng) = true →
  let '(res, w') := Run now ctx_err eng runID init w in
  ∃ evs cur k s e st rs last,
    walk now ctx_err eng runID (start (graph eng)) 0 init {| ext := ext (env w); stack := Some [] |} (store w) evs cur k s e st ∧
    log w' = log w ++ evs ++ last ∧ Forall2 (recorded (graph eng)) rs (completions evs) ∧
    compensated (evs ++ last) = (if decide (node_errors (evs ++ last) = []) then [] else rev (completed evs)) ∧
    ((∃ s0 s1 err e1, visits now eng cur k s e s0 (s1, Some err) e1 ∧
        last = [NodeStart cur s0; NodeError cur err] ++ (rollback (rev rs) (ext e1)).2 ∧ ext (env w') = (rollback (rev rs) (ext e1)).1) ∨
     (node_errors last = [] ∧ compensated last = [] ∧
      (ext (env w') = ext e ∨ ∃ s0 s1, visits now eng cur k s e s0 (s1, None) (env w')))).
Proof.
  intros Hg Hmw Hc. pose proof (run_walks now ctx_err eng runID init w) as Hr. destruct (Run _ _ _ _ _ _) as [res w'].
  destruct Hr as (evs & cur & k & s & e & st & last & Hw & He & Hl & _). rewrite Hc in Hw.
  destruct (walk_stack now ctx_err _ _ _ _ _ _ _ _ _ _ _ _ _ [] Hg Hmw Hw eq_refl) as (rs & Hs & Hf & H1 & H2). cbn [app] in Hs.
  exists evs, cur, k, s, e, st, rs, last. split; [exact Hw|]. split; [exact Hl|]. split; [exact Hf|].
  destruct (log_views_app evs last) as (_ & -> & ->). rewrite H1, H2. cbn [app].
  assert (∀ s0 s1 e1 mid, visits now eng cur k s e s0 (s1, None) e1 → (∃ st1, saved now eng runID cur k s1 e1 st st1 mid) ∨ mid = [] →
    let l := [NodeStart cur s0; NodeEnd cur s1] ++ mid in node_errors l = [] ∧ compensated l = []) as Hok.
  { intros s0 s1 e1 mid _ [[st1 (_ & M2 & M3)%saved_events]| ->]; [|done]. unfold node_errors, compensated in *. csimpl. by rewrite M2, M3. }
  destruct He as [Hk|msg Hk Hx|Hk Hx Hn|s0 s1 err e1 cs e2 Hk Hx Hv Hu|s0 s1 e1 err st1 Hk Hx Hv Hcs Hsv|s0 s1 e1 st1 mid n err Hk Hx Hv Hsv Hn Hr
    |s0 s1 e1 st1 mid Hk Hx Hv Hsv Hn].
  1-3: (split; [by rewrite decide_True|]; right; split; [done|]; split; [done|by left]).
  - pose proof (visits_stack now _ _ _ _ _ _ _ _ _ rs Hg Hmw Hs Hv) as Hs1. cbn in Hs1. unfold undone in Hu. rewrite Hs1 in Hu. destruct Hu as [-> ->].
    destruct (rollback_names (rev rs) (ext e1)) as (C1 & C2 & C3). split; [|left; by exists s0, s1, err, e1].
    unfold compensated, node_errors in *. csimpl. rewrite C1. rewrite <- completions_names, <- (recorded_names _ _ _ Hf). by rewrite map_rev.
  - destruct (Hok s0 s1 e1 [] Hv ltac:(by right)) as [O1 O2]. cbn [app] in O1, O2. rewrite O1, O2. split; [by rewrite decide_True|].
    right. split; [done|]. split; [done|]. right. by exists s0, s1.
  - destruct (Hok s0 s1 e1 mid Hv ltac:(left; by exists st1)) as [O1 O2]. cbv zeta in O1, O2. rewrite O1, O2. split; [by rewrite decide_True|].
    right. split; [done|]. split; [done|]. right. by exists s0, s1.
  - destruct (Hok s0 s1 e1 mid Hv ltac:(left; by exists st1)) as [O1 O2]. cbv zeta in O1, O2. rewrite O1, O2. split; [by rewrite decide_True|].
    right. split; [done|]. split; [done|]. right. by exists s0, s1.
Qed.

(** *** A saga interrupted after its first step *)
Definition noop : NodeFunc unit := λ _ s e, ((s, None), e).
Definition failing : NodeFunc unit := λ _ s e, ((s, Some (Err "boom")), e).
Definition undo : CompensateFunc unit := λ _ e, (None, e).

Definition two_step_graph : Graph unit :=
  foldl run_graph_op NewGraph [
    OpAddCompensableNode "a" noop (Some undo) 0;
    OpAddCompensableNode "b" failing (Some undo) 0;
    OpAddEdge "a" "b"; OpAddEdge "b" EndNode; OpSetStart "a"].
Definition two_step_engine : Engine unit := {|
  graph := two_step_graph;
  e_config := {| MaxSteps := 10; DefaultNodeTimeout := Second; HasCheckpointStore := true;
                 NodeMiddlewares := []; CompensateOnFailure := true |} |}.
Definition idle_world : World unit MemoryCheckpointStore :=
  {| env := {| ext := tt; stack := None |}; store := NewMemoryCheckpointStore; log := [] |}.

(** A resumed saga does not undo what completed before the checkpoint: the
    uninterrupted run rolls back the first step when the second fails; the same
    run, interrupted after the first step and resumed, fails at the second step
    and rolls back nothing. *)
Theorem resume_forgets_compensations :
  let zero := λ _ : unit, 0 in
  let never := λ _ : unit, None in
  let run := Run zero never two_step_engine "r" (NewState 0) idle_world in
  Validate two_step_graph = None ∧ compensated (log run.2) = ["a"] ∧
  match iterate zero never 1 two_step_engine "r" 0 0 "a" (NewState 0) (with_stack two_step_engine idle_world) with
  | None => False
  | Some (_, _, w1) =>
      let resumed := Resume zero never two_step_engine "r" w1 in
      node_errors (log resumed.2) = ["b"] ∧ compensated (log resumed.2) = []
  end.
Proof. vm_compute. done. Qed.

(** *** Forks *)
Section Forks.
Context {E : Type}.
Implicit Types bs : list (string * NodeFunc E).

(** Branches whose results depend only on the state they are given, and which
    succeed. *)
Definition pure_branches (res : string → State → State) bs : Prop :=
  ∀ b fn, (b, fn) ∈ bs → ∀ t s e, fn t s e = ((res b s, None), e).

Definition branch_state (name b : string) (s : State) : State :=
  at_step (Step s) (name +:+ "/" +:+ b) (UpdatedAt s) s.

Lemma run_branches_pure res name t s bs e :
  pure_branches res bs →
  run_branches name t s bs e =
    ((foldr (λ b m, <[b := res b (branch_state name b s)]> m) ∅ bs.*1, None), e).
Proof.
  revert e; induction bs as [|[b fn] bs IH]; intros e Hp; simpl; [done|].
  rewrite (Hp b fn) by (by left). rewrite IH; [done|]. intros b' fn' Hin. apply Hp. by right.
Qed.

Lemma branch_results_lookup (f : string → State) l b :
  foldr (λ b m, <[b := f b]> m) (∅ : gmap string State) l !! b = if decide (b ∈ l) then Some (f b) else None.
Proof.
  induction l as [|x l IH]; simpl; [by rewrite lookup_empty|].
  destruct (decide (x = b)) as [->|Hne].
  - rewrite lookup_insert_eq. rewrite decide_True by (by left). done.
  - rewrite lookup_insert_ne, IH by done. repeat case_decide; try done; exfalso.
    + match goal with H : _ ∉ _ |- _ => apply H end. by right.
    + match goal with H : b ∈ x :: l |- _ => apply elem_of_cons in H as [?|?]; congruence end.
Qed.
End Forks.

(** Joining a fork does not depend on scheduling: when the branches succeed,
    the merge function receives one result per branch, computed from the fork's
    own state under the branch's name, whatever order the branches finish in. *)
Theorem fork_independent_of_schedule {E : Type} res (order : E → _) name bs merge t s (e : Env E) :
  order (ext e) bs ≡ₚ bs → pure_branches res bs →
  ∃ results,
    forkFn order name bs merge t s e = (merge s results, e) ∧
    ∀ b, results !! b = if decide (b ∈ bs.*1) then Some (res b (branch_state name b s)) else None.
Proof.
  intros Ho Hp. unfold forkFn. rewrite (run_branches_pure res).
  - eexists. split; [done|]. intros b.
    rewrite (branch_results_lookup (λ b, res b (branch_state name b s))).
    apply decide_ext. by rewrite Ho.
  - intros b fn Hin. apply Hp. by rewrite <- Ho.
Qed.

(** *** Witnesses *)
Definition plain_graph_ops : list (graph_op unit) := [
  OpAddNode "a" (Some noop) 0; OpAddNode "b" (Some noop) 0;
  OpAddEdge "a" "b"; OpAddConditionalEdge "b" (Some (λ _, "nowhere")); OpSetStart "a"].
Definition plain_config : EngineConfig unit := {|
  MaxSteps := 10; DefaultNodeTimeout := Second; HasCheckpointStore := true;
  NodeMiddlewares := []; CompensateOnFailure := false |}.
Definition plain_engine : Engine unit :=
  {| graph := foldl run_graph_op NewGraph plain_graph_ops; e_config := plain_config |}.

Lemma validated_runs_never_lost_witness :
  ∃ e w', Run (λ _ : unit, 0) (λ _, None) plain_engine "r" (NewState 0) idle_world = (inl e, w') ∧
          expected_failure e.
Proof.
  do 2 eexists. split; [reflexivity|].
  eapply (validated_runs_never_lost (λ _ : unit, 0) (λ _, None) plain_graph_ops [plain_config]
            plain_engine "r" (NewState 0) idle_world); reflexivity.
Defined.

Definition line_engine : Engine unit := {|
  graph := foldl run_graph_op NewGraph [
    OpAddNode "a" (Some noop) 0; OpAddNode "b" (Some noop) 0;
    OpAddEdge "a" "b"; OpAddEdge "b" EndNode; OpSetStart "a"];
  e_config := plain_config |}.

Lemma resume_equals_uninterrupted_witness :
  ∃ wk : World unit MemoryCheckpointStore,
    forget_duration (Resume (λ _ : unit, 0) (λ _, None) line_engine "r" wk).1 =
    forget_duration (Run (λ _ : unit, 0) (λ _, None) line_engine "r" (NewState 0) idle_world).1.
Proof.
  eexists.
  eapply (proj1 (resume_equals_uninterrupted (λ _ : unit, 0) (λ _, None) line_engine "r" (NewState 0)
                   idle_world _ 1 "b" _ eq_refl eq_refl ltac:(lia) ltac:(vm_compute; reflexivity) eq_refl)).
Defined.

Lemma two_step_saga : saga (graph two_step_engine).
Proof.
  intros name n Hn.
  assert (E : nodes (graph two_step_engine) =
    <["b" := {| n_name := "b"; n_fn := compensable "b" failing undo; n_timeout := 0;
                n_edges := [Unconditional EndNode] |}]>
    (<["a" := {| n_name := "a"; n_fn := compensable "a" noop undo; n_timeout := 0;
                 n_edges := [Unconditional "b"] |}]> ∅)) by reflexivity.
  rewrite E, !lookup_insert_Some, lookup_empty in Hn.
  destruct Hn as [[<- <-]|[_ [[<- <-]|[_ Hn]]]]; [| |done];
    do 2 eexists; (split; [reflexivity|]); by intros ? ? [? ?].
Qed.

Lemma saga_rolls_back_in_reverse_witness :
  ∃ evs last, log (Run (λ _ : unit, 0) (λ _, None) two_step_engine "r" (NewState 0) idle_world).2 =
         log idle_world ++ evs ++ last ∧
         compensated (evs ++ last) = if decide (node_errors (evs ++ last) = []) then [] else rev (completed evs).
Proof.
  pose proof (saga_rolls_back_in_reverse (λ _ : unit, 0) (λ _, None) two_step_engine "r" (NewState 0)
           idle_world two_step_saga eq_refl eq_refl) as H.
  destruct (Run _ _ _ _ _ _) as [res w']. destruct H as (evs & cur & k & s & e & st & rs & last & _ & Hl & _ & Hc & _).
  by exists evs, last.
Defined.

Lemma fork_independent_of_schedule_witness :
  ∃ results : gmap string State,
    forkFn (λ _ l, rev l) "f" [("x", noop); ("y", noop)] (λ s _, (s, None)) 0 (NewState 0)
      {| ext := tt; stack := None |} = ((NewState 0, None), {| ext := tt; stack := None |}) ∧
    ∀ b, results !! b = if decide (b ∈ ["x"; "y"]) then Some (branch_state "f" b (NewState 0)) else None.
Proof.
  destruct (fork_independent_of_schedule (λ _ s, s) (λ _ l, rev l) "f" [("x", noop); ("y", noop)]
    (λ s _, (s, None)) 0 (NewState 0) {| ext := tt; stack := None |}) as (results & H1 & H2).
  - simpl. apply Permutation_swap.
  - intros b fn Hin t s e. apply elem_of_cons in Hin as [[= -> ->]|Hin]; [done|].
    apply elem_of_cons in Hin as [[= -> ->]|Hin]; [done|by apply elem_of_nil in Hin].
  - exists results. split; [exact H1|exact H2].
Defined.
