(* ===== verification/Dispatcher.v ===== *)
(** The dispatcher (src/dispatcher/): the priority queue on a binary heap, the
    concurrency groups, and the interleaving of submitters and workers. *)

From stdpp Require Import base tactics list gmap strings relations.
From Stdlib Require Import ZArith Lia.
From S2P Require Import Prelude Tool.

Local Open Scope Z_scope.

(** ** Jobs (job.go) *)
Definition PriorityLow := 0.
Definition PriorityNormal := 1.
Definition PriorityHigh := 2.
Definition PriorityCritical := 3.

(** [job_id] stands for the handler, its arguments and the result channel. *)
Record Job := {
  job_Name : string;
  job_id : nat;
  Priority : Z;
  Group : string;
  seq : Z
}.

#[export] Instance Job_inhabited : Inhabited Job :=
  populate {| job_Name := ""; job_id := 0; Priority := 0; Group := ""; seq := 0 |}.

(** ** The queue (queue.go) and the heap operations it is used with *)
Definition Less (a b : Job) : bool :=
  if negb (Priority a =? Priority b) then Priority b <? Priority a else seq a <? seq b.

Definition Swap (q : list Job) (i j : nat) : list Job := <[i := q !!! j]> (<[j := q !!! i]> q).

Definition parent (j : nat) : nat := ((j - 1) / 2)%nat.

(** [heap.up]: [fuel] bounds the distance to the root. *)
Fixpoint up (fuel : nat) (q : list Job) (j : nat) : list Job :=
  match fuel with
  | O => q
  | S fuel' =>
      let i := parent j in
      if (i =? j)%nat || negb (Less (q !!! j) (q !!! i)) then q
      else up fuel' (Swap q i j) i
  end.

(** [heap.down] on the first [n] elements; it also returns where it stopped. *)
Fixpoint down (fuel : nat) (q : list Job) (i n : nat) : list Job * nat :=
  match fuel with
  | O => (q, i)
  | S fuel' =>
      let j1 := (2 * i + 1)%nat in
      if (n <=? j1)%nat then (q, i) else
      let j2 := (j1 + 1)%nat in
      let j := if (j2 <? n)%nat && Less (q !!! j2) (q !!! j1) then j2 else j1 in
      if negb (Less (q !!! j) (q !!! i)) then (q, i)
      else down fuel' (Swap q i j) j n
  end.

Definition heap_push (q : list Job) (x : Job) : list Job := up (length (q ++ [x])) (q ++ [x]) (length q).

Definition heap_remove (q : list Job) (i : nat) : list Job :=
  let n := (length q - 1)%nat in
  let q := if (n =? i)%nat then q else
             let q := Swap q i n in
             let '(q', i') := down n q i n in
             if (i <? i')%nat then q' else up (S i) q' i in
  take n q.

(** ** Groups (groups.go) *)

Definition active_of (active : gmap string Z) (g : string) : Z := default 0 (active !! g).

Definition canAcquire (limits : gmap string Z) (active : gmap string Z) (g : string) : bool :=
  if bool_decide (g = "") then true else
  match limits !! g with
  | None => true
  | Some limit => if limit <=? 0 then true else active_of active g <? limit
  end.

Definition acquire (active : gmap string Z) (g : string) : gmap string Z :=
  if bool_decide (g = "") then active else <[g := active_of active g + 1]> active.

Definition release (active : gmap string Z) (g : string) : gmap string Z :=
  if bool_decide (g = "") then active
  else if 0 <? active_of active g then <[g := active_of active g - 1]> active else active.

(** ** The dispatcher (dispatcher.go) *)
Record Config := {
  Workers : nat;
  QueueSize : Z;
  GroupLimits : gmap string Z;
  DefaultPriority : Z;
  PriorityFunc : option (string → Z);
  GroupFunc : option (string → string);
  ShutdownTimeout : duration
}.

(** [procs] is [runtime.GOMAXPROCS(0)]; a [Workers] count that is not positive
    is 0 here. *)
Definition with_defaults (procs : nat) (c : Config) : Config := {|
  Workers := if (Workers c =? 0)%nat then procs else Workers c;
  QueueSize := if QueueSize c <=? 0 then 1000 else QueueSize c;
  GroupLimits := GroupLimits c;
  DefaultPriority := if (DefaultPriority c =? 0) && match PriorityFunc c with None => true | _ => false end
                     then PriorityNormal else DefaultPriority c;
  PriorityFunc := PriorityFunc c;
  GroupFunc := GroupFunc c;
  ShutdownTimeout := if ShutdownTimeout c <=? 0 then 30 * Second else ShutdownTimeout c |}.

(** [running] are the jobs the workers are executing; [exited] counts the
    workers that returned. *)
Record Dispatcher := {
  cfg : Config;
  queue : list Job;
  active : gmap string Z;
  next_seq : Z;
  closed : bool;
  submitted : Z;
  completed : Z;
  failed : Z;
  running : list Job;
  exited : nat
}.

Definition New (procs : nat) (c : Config) : Dispatcher := {|
  cfg := with_defaults procs c; queue := []; active := ∅; next_seq := 0; closed := false;
  submitted := 0; completed := 0; failed := 0; running := []; exited := 0 |}.

Definition uint64 (z : Z) : Z := z mod 2 ^ 64.

Definition resolve (c : Config) (j : Job) : Job := {|
  job_Name := job_Name j; job_id := job_id j;
  Priority := match PriorityFunc c with
              | Some f => f (job_Name j)
              | None => if Priority j =? 0 then DefaultPriority c else Priority j
              end;
  Group := match GroupFunc c with Some f => f (job_Name j) | None => Group j end;
  seq := seq j |}.

Definition set_seq (n : Z) (j : Job) : Job :=
  {| job_Name := job_Name j; job_id := job_id j; Priority := Priority j; Group := Group j; seq := n |}.

(** The locked part of [Submit]: the text of the error result, if refused. *)
Definition Submit (d : Dispatcher) (job : Job) : option string * Dispatcher :=
  let job := resolve (cfg d) job in
  if closed d then (Some "dispatcher is shut down", d)
  else if QueueSize (cfg d) <=? Z.of_nat (length (queue d)) then (Some "dispatcher queue is full", d)
  else
    let n := uint64 (next_seq d + 1) in
    (None, {| cfg := cfg d; queue := heap_push (queue d) (set_seq n job); active := active d;
              next_seq := n; closed := closed d; submitted := uint64 (submitted d + 1);
              completed := completed d; failed := failed d; running := running d;
              exited := exited d |}).

Definition Shutdown (d : Dispatcher) : Dispatcher := {|
  cfg := cfg d; queue := queue d; active := active d; next_seq := next_seq d; closed := true;
  submitted := submitted d; completed := completed d; failed := failed d; running := running d;
  exited := exited d |}.

(** The first element of the heap array whose group has room. *)
Definition dequeue (d : Dispatcher) : option (Job * list Job) :=
  match list_find (λ j, canAcquire (GroupLimits (cfg d)) (active d) (Group j) = true) (queue d) with
  | Some (i, job) => Some (job, heap_remove (queue d) i)
  | None => None
  end.

(** A worker's critical sections: taking a job, and returning its slot. *)
Definition worker_take (d : Dispatcher) : option (Job * Dispatcher) :=
  match dequeue d with
  | None => None
  | Some (job, q) =>
      Some (job, {| cfg := cfg d; queue := q; active := acquire (active d) (Group job);
                    next_seq := next_seq d; closed := closed d; submitted := submitted d;
                    completed := completed d; failed := failed d; running := job :: running d;
                    exited := exited d |})
  end.

Definition worker_done (d : Dispatcher) (i : nat) (job : Job) (bad : bool) : Dispatcher := {|
  cfg := cfg d; queue := queue d; active := release (active d) (Group job);
  next_seq := next_seq d; closed := closed d; submitted := submitted d;
  completed := uint64 (completed d + 1);
  failed := if bad then uint64 (failed d + 1) else failed d;
  running := delete i (running d); exited := exited d |}.

Definition worker_exit (d : Dispatcher) : Dispatcher := {|
  cfg := cfg d; queue := queue d; active := active d; next_seq := next_seq d; closed := closed d;
  submitted := submitted d; completed := completed d; failed := failed d; running := running d;
  exited := S (exited d) |}.

(** Submitters, workers and shutdown interleave at the dispatcher's lock. *)
Inductive dstep : Dispatcher → Dispatcher → Prop :=
| ds_submit d job d' err : Submit d job = (err, d') → dstep d d'
| ds_take d job d' :
    (length (running d) + exited d < Workers (cfg d))%nat →
    worker_take d = Some (job, d') → dstep d d'
| ds_done d i job bad :
    running d !! i = Some job → dstep d (worker_done d i job bad)
| ds_exit d :
    (length (running d) + exited d < Workers (cfg d))%nat →
    dequeue d = None → closed d = true → queue d = [] → dstep d (worker_exit d)
| ds_shutdown d : dstep d (Shutdown d).

(** ** The middleware (middleware.go): group and priority at wrapping time *)
Definition middleware_job {H} (c : Config) (name : string) (td : ToolDefinition H) (id : nat) : Job :=
  let group := RuntimeGroup td in
  let group := if bool_decide (group = "") then CircuitBreakerGroup td else group in
  let group := if bool_decide (group = "")
               then match GroupFunc c with Some f => f name | None => group end else group in
  {| job_Name := name; job_id := id;
     Priority := match PriorityFunc c with Some f => f name | None => DefaultPriority c end;
     Group := group; seq := 0 |}.

(** ** What the properties speak about *)
Definition job_le (a b : Job) : Prop := Less b a = false.

Definition heap (q : list Job) (n : nat) : Prop :=
  ∀ i, (0 < i < n)%nat → job_le (q !!! parent i) (q !!! i).

Definition in_group (g : string) (js : list Job) : Z :=
  Z.of_nat (length (filter (λ j, Group j = g) js)).

(** Slots are accounted for exactly, limits hold, the queue is a heap within
    its bound, and the pool is not oversubscribed. *)
Definition disp_wf (d : Dispatcher) : Prop :=
  (∀ g, g ≠ "" → active_of (active d) g = in_group g (running d)) ∧
  (∀ g limit, g ≠ "" → GroupLimits (cfg d) !! g = Some limit → 0 < limit →
     in_group g (running d) <= limit) ∧
  heap (queue d) (length (queue d)) ∧
  Z.of_nat (length (queue d)) <= Z.max 0 (QueueSize (cfg d)) ∧
  (length (running d) + exited d <= Workers (cfg d))%nat.

(** Every accepted job is queued, running, or completed. *)
Definition conserved (d : Dispatcher) : Prop :=
  uint64 (completed d + Z.of_nat (length (queue d)) + Z.of_nat (length (running d))) = submitted d.

(** ** The heap *)
Lemma job_le_refl a : job_le a a.
Proof. unfold job_le, Less. rewrite Z.eqb_refl. simpl. apply Z.ltb_irrefl. Qed.

Lemma job_le_trans a b c : job_le a b → job_le b c → job_le a c.
Proof.
  unfold job_le, Less. intros H1 H2.
  destruct (Z.eqb_spec (Priority b) (Priority a)), (Z.eqb_spec (Priority c) (Priority b)),
    (Z.eqb_spec (Priority c) (Priority a)); simpl in *; to_prop; try lia; apply Z.ltb_ge; lia.
Qed.

Lemma Less_le a b : Less a b = true → job_le a b.
Proof.
  unfold job_le, Less. intros H.
  destruct (Z.eqb_spec (Priority a) (Priority b)), (Z.eqb_spec (Priority b) (Priority a));
    simpl in *; to_prop; try lia; apply Z.ltb_ge; lia.
Qed.

Lemma not_Less_le a b : Less a b = false → job_le b a.
Proof. done. Qed.

#[local] Hint Resolve job_le_refl Less_le not_Less_le : mcpkit.

Lemma length_Swap q i j : length (Swap q i j) = length q.
Proof. unfold Swap. by rewrite !length_insert. Qed.

Lemma Swap_lookup q i j k :
  (i < length q)%nat → (j < length q)%nat →
  Swap q i j !!! k = if decide (k = i) then q !!! j else if decide (k = j) then q !!! i else q !!! k.
Proof.
  intros Hi Hj. unfold Swap. case_decide as E1.
  - subst. apply list_lookup_total_insert_eq. by rewrite length_insert.
  - rewrite list_lookup_total_insert_ne by done. case_decide as E2.
    + subst. by apply list_lookup_total_insert_eq.
    + by rewrite list_lookup_total_insert_ne.
Qed.

Lemma Swap_perm q i j : (i < length q)%nat → (j < length q)%nat → Swap q i j ≡ₚ q.
Proof.
  intros Hi Hj. apply Permutation_inj. split; [apply length_Swap|].
  exists (λ k, if decide (k = i) then j else if decide (k = j) then i else k). split.
  - intros x y. repeat case_decide; congruence.
  - intros k. destruct (decide (k < length q)%nat) as [Hk|Hk].
    + assert (Hl : ∀ k, (k < length q)%nat → q !! k = Some (q !!! k)).
      { intros k' ?. by apply list_lookup_lookup_total_lt. }
      rewrite list_lookup_lookup_total_lt by by rewrite length_Swap.
      rewrite Swap_lookup by done. repeat case_decide; subst; by rewrite Hl.
    + rewrite lookup_ge_None_2 by (rewrite length_Swap; lia).
      rewrite !decide_False by lia. symmetry. apply lookup_ge_None_2. lia.
Qed.

Lemma parent_lt j : (0 < j)%nat → (parent j < j)%nat.
Proof. intros. unfold parent. apply Nat.Div0.div_lt_upper_bound. lia. Qed.

Lemma parent_child c i : (0 < c)%nat → parent c = i ↔ (c = 2 * i + 1 ∨ c = 2 * i + 2)%nat.
Proof.
  intros Hc. unfold parent. pose proof (Nat.div_mod_eq (c - 1) 2).
  pose proof (Nat.mod_upper_bound (c - 1) 2). lia.
Qed.

(** [up]: everything but the edge above [j] is in order. *)
Lemma up_spec fuel q j n :
  (j < fuel)%nat → (j < n <= length q)%nat →
  (∀ i, (0 < i < n)%nat → i ≠ j → job_le (q !!! parent i) (q !!! i)) →
  (∀ c, (0 < c < n)%nat → (0 < j)%nat → parent c = j → job_le (q !!! parent j) (q !!! c)) →
  let q' := up fuel q j in
  heap q' n ∧ q' ≡ₚ q ∧ (∀ k, (j < k)%nat → q' !!! k = q !!! k).
Proof.
  revert q j. induction fuel as [|fuel IH]; intros q j Hf Hj HA HB; [lia|]. cbn [up].
  destruct (Nat.eqb_spec (parent j) j) as [E|Hne]; cbn [orb].
  - assert (j = 0%nat) as -> by (destruct j; [done|]; pose proof (parent_lt (S j)); lia).
    split; [|done]. intros i Hi. apply HA; lia.
  - assert (Hj0 : (0 < j)%nat) by (destruct j; [|lia]; by unfold parent in Hne).
    pose proof (parent_lt j Hj0) as Hp.
    destruct (Less (q !!! j) (q !!! parent j)) eqn:HL; cbn [negb].
    + set (i := parent j) in *.
      assert (Hs : ∀ k, Swap q i j !!! k = if decide (k = i) then q !!! j else if decide (k = j) then q !!! i else q !!! k).
      { intros k. apply Swap_lookup; lia. }
      destruct (IH (Swap q i j) i) as (H1 & H2 & H3); [lia|rewrite length_Swap; lia| | |].
      * intros k Hk Hki. rewrite !Hs. rewrite (decide_False (P := k = i)) by done.
        destruct (decide (k = j)) as [->|Hkj].
        -- rewrite decide_True by done. by apply Less_le.
        -- destruct (decide (parent k = i)) as [Epi|Hpi].
           ++ apply (job_le_trans _ (q !!! i)); [by apply Less_le|].
              rewrite <- Epi. apply HA; [lia|done].
           ++ destruct (decide (parent k = j)) as [Epj|Hpj]; [by apply HB|by apply HA].
      * intros c Hc Hi0 Hpc. rewrite !Hs.
        pose proof (parent_lt i Hi0). rewrite (decide_False (P := parent i = i)) by lia.
        rewrite (decide_False (P := parent i = j)) by lia.
        assert (Hgi : job_le (q !!! parent i) (q !!! i)) by (apply HA; lia).
        pose proof (parent_lt c ltac:(lia)). rewrite (decide_False (P := c = i)) by lia.
        case_decide as Ecj; [done|]. apply (job_le_trans _ (q !!! i)); [done|].
        rewrite <- Hpc. apply HA; [lia|done].
      * split; [done|]. split.
        -- rewrite H2. apply Swap_perm; lia.
        -- intros k Hk. rewrite H3 by lia. rewrite Hs. rewrite !decide_False by lia. done.
    + split; [|done]. intros k Hk. destruct (decide (k = j)) as [->|]; [by apply not_Less_le|by apply HA].
Qed.

(** [down]: everything but the edges at [i] is in order; [up] also holds above
    when [i] is already in order with its parent. *)
Lemma down_spec fuel q i n :
  (n <= i + fuel)%nat → (i < n <= length q)%nat →
  (∀ k, (0 < k < n)%nat → k ≠ i → parent k ≠ i → job_le (q !!! parent k) (q !!! k)) →
  (∀ c, (0 < c < n)%nat → (0 < i)%nat → parent c = i → job_le (q !!! parent i) (q !!! c)) →
  let '(q', i') := down fuel q i n in
  q' ≡ₚ q ∧ (∀ k, (n <= k)%nat → q' !!! k = q !!! k) ∧ (i <= i')%nat ∧
  (((i < i')%nat ∨ ((0 < i)%nat → job_le (q !!! parent i) (q !!! i))) → heap q' n) ∧
  (i' = i → q' = q ∧ ∀ c, (0 < c < n)%nat → parent c = i → job_le (q !!! i) (q !!! c)).
Proof.
  revert q i. induction fuel as [|fuel IH]; intros q i Hf Hi HA HB; [lia|]. cbn [down].
  destruct (Nat.leb_spec n (2 * i + 1)) as [Hn|Hn].
  { split; [done|]. split; [done|]. split; [lia|]. split.
    - intros [?|Hup]; [lia|]. intros k Hk. destruct (decide (k = i)) as [->|Hne]; [apply Hup; lia|].
      apply HA; [done|done|]. intros Hp. apply parent_child in Hp; lia.
    - intros _. split; [done|]. intros c Hc Hp. apply parent_child in Hp; lia. }
  set (j1 := (2 * i + 1)%nat) in *.
  set (j := if (j1 + 1 <? n)%nat && Less (q !!! (j1 + 1)%nat) (q !!! j1) then (j1 + 1)%nat else j1).
  assert (Hj : (j = 2 * i + 1 ∨ j = 2 * i + 2)%nat ∧ (j < n)%nat ∧
               ∀ c, (0 < c < n)%nat → parent c = i → job_le (q !!! j) (q !!! c)).
  { unfold j. destruct (Nat.ltb_spec (j1 + 1) n) as [H2|H2]; simpl.
    - destruct (Less (q !!! (j1 + 1)%nat) (q !!! j1)) eqn:HL.
      + split; [lia|]. split; [lia|]. intros c Hc [->| ->]%parent_child; [by apply Less_le| |lia].
        replace (2 * i + 2)%nat with (j1 + 1)%nat by lia. apply job_le_refl.
      + split; [lia|]. split; [lia|]. intros c Hc [->| ->]%parent_child; [apply job_le_refl| |lia].
        replace (2 * i + 2)%nat with (j1 + 1)%nat by lia. by apply not_Less_le.
    - split; [lia|]. split; [lia|]. intros c Hc [->| ->]%parent_child; [apply job_le_refl|lia|lia]. }
  clearbody j. destruct Hj as (Hjc & Hjn & Hmin).
  assert (Hpj : parent j = i) by (apply parent_child; lia).
  destruct (Less (q !!! j) (q !!! i)) eqn:HL; cbn [negb].
  - assert (Hs : ∀ k, Swap q i j !!! k = if decide (k = i) then q !!! j else if decide (k = j) then q !!! i else q !!! k).
    { intros k. apply Swap_lookup; lia. }
    specialize (IH (Swap q i j) j). destruct (down fuel (Swap q i j) j n) as [q' i'].
    destruct IH as (H1 & H2 & H3 & H4 & _); [lia|rewrite length_Swap; lia| | |].
    + intros k Hk Hkj Hpk. rewrite !Hs. rewrite (decide_False (P := k = j)) by done.
      rewrite (decide_False (P := parent k = j)) by done.
      destruct (decide (k = i)) as [->|Hki].
      * pose proof (parent_lt i ltac:(lia)). rewrite decide_False by lia. apply HB; [lia|lia|done].
      * destruct (decide (parent k = i)) as [Hpi|Hpi]; [by apply Hmin|by apply HA].
    + intros c Hc Hj0 Hpc. rewrite !Hs, Hpj. rewrite (decide_True (P := i = i)) by done.
      pose proof (parent_lt c ltac:(lia)). rewrite !decide_False by lia.
      rewrite <- Hpc. apply HA; lia.
    + split; [rewrite H1; apply Swap_perm; lia|]. split.
      { intros k Hk. rewrite H2 by lia. rewrite Hs, !decide_False by lia. done. }
      split; [lia|]. split; [|lia]. intros _. apply H4. right. intros _.
      rewrite !Hs, Hpj. rewrite decide_True by done. rewrite decide_False by lia.
      rewrite decide_True by done. by apply Less_le.
  - split; [done|]. split; [done|]. split; [lia|].
    assert (Hc : ∀ c, (0 < c < n)%nat → parent c = i → job_le (q !!! i) (q !!! c)).
    { intros c Hc Hp. apply (job_le_trans _ (q !!! j)); [by apply not_Less_le|by apply Hmin]. }
    split; [|done]. intros [?|Hup]; [lia|]. intros k Hk.
    destruct (decide (k = i)) as [->|Hne]; [apply Hup; lia|].
    destruct (decide (parent k = i)) as [Hp|Hp]; [rewrite Hp; by apply Hc|by apply HA].
Qed.

Lemma heap_push_spec (q : list Job) x :
  heap q (length q) → heap (heap_push q x) (length (heap_push q x)) ∧ heap_push q x ≡ₚ x :: q.
Proof.
  intros Hh. unfold heap_push. set (q1 := q ++ [x]).
  assert (Hl : length q1 = S (length q)) by (unfold q1; rewrite length_app; simpl; lia).
  destruct (up_spec (length q1) q1 (length q) (length q1)) as (H1 & H2 & _); [lia|lia| | |].
  - intros i Hi Hne. pose proof (parent_lt i ltac:(lia)). unfold q1.
    rewrite !lookup_total_app_l by lia. apply Hh. lia.
  - intros c Hc _ Hp. pose proof (parent_lt c ltac:(lia)). lia.
  - assert (Hlen : length (up (length q1) q1 (length q)) = length q1) by by rewrite H2.
    rewrite Hlen. split; [done|]. rewrite H2. unfold q1. by rewrite <- Permutation_cons_append.
Qed.

Lemma heap_lookup_take (q : list Job) n k : (k < n)%nat → take n q !!! k = q !!! k.
Proof. intros. rewrite !list_lookup_total_alt. by rewrite lookup_take_lt. Qed.

Lemma heap_take q n : (n <= length q)%nat → heap q n → heap (take n q) (length (take n q)).
Proof.
  intros Hn Hh i. rewrite length_take. intros Hi. pose proof (parent_lt i ltac:(lia)).
  rewrite !heap_lookup_take by lia. apply Hh. lia.
Qed.

Lemma take_last_perm (q : list Job) n : length q = S n → q ≡ₚ (q !!! n) :: take n q.
Proof.
  intros Hl. rewrite <- (take_drop n q) at 1. rewrite Permutation_app_comm.
  rewrite (drop_S q (q !!! n)) by (apply list_lookup_lookup_total_lt; lia).
  by rewrite drop_ge by lia.
Qed.

Lemma heap_remove_spec q i :
  heap q (length q) → (i < length q)%nat →
  heap (heap_remove q i) (length (heap_remove q i)) ∧ q ≡ₚ (q !!! i) :: heap_remove q i.
Proof.
  intros Hh Hi. unfold heap_remove. set (n := (length q - 1)%nat).
  assert (Hn : length q = S n) by lia.
  destruct (Nat.eqb_spec n i) as [<-|Hne].
  { split; [|by apply take_last_perm]. apply heap_take; [lia|].
    intros k Hk. apply Hh. lia. }
  assert (Hs : ∀ k, Swap q i n !!! k = if decide (k = i) then q !!! n else if decide (k = n) then q !!! i else q !!! k).
  { intros k. apply Swap_lookup; lia. }
  set (q1 := Swap q i n) in *. assert (Hl1 : length q1 = S n) by (unfold q1; by rewrite length_Swap).
  pose proof (down_spec n q1 i n ltac:(lia) ltac:(lia)) as Hd. destruct (down n q1 i n) as [q2 i2].
  destruct Hd as (H1 & H2 & H3 & H4 & H5).
  { intros k Hk Hki Hpk. pose proof (parent_lt k ltac:(lia)). rewrite !Hs, !decide_False by lia.
    apply Hh. lia. }
  { intros c Hc Hi0 Hp. pose proof (parent_lt c ltac:(lia)). pose proof (parent_lt i ltac:(lia)).
    rewrite !Hs, !decide_False by lia. apply (job_le_trans _ (q !!! i)); [apply Hh; lia|].
    rewrite <- Hp. apply Hh. lia. }
  assert (Hq1 : q1 ≡ₚ q) by (apply Swap_perm; lia).
  assert (Hlast : q1 !!! n = q !!! i) by (rewrite Hs, decide_False, decide_True by lia; done).
  assert (Hgoal : ∀ q3, q3 ≡ₚ q → q3 !!! n = q !!! i → heap q3 n →
     heap (take n q3) (length (take n q3)) ∧ q ≡ₚ (q !!! i) :: take n q3).
  { intros q3 Hp3 Hn3 Hh3. assert (Hl3 : length q3 = S n) by (rewrite Hp3; lia).
    split; [apply heap_take; [lia|done]|]. rewrite <- Hp3 at 1. rewrite <- Hn3. by apply take_last_perm. }
  destruct (Nat.ltb_spec i i2) as [Hlt|Hge].
  - apply Hgoal; [by rewrite H1|by rewrite H2|by apply H4; left].
  - assert (i2 = i) as -> by lia. destruct (H5 eq_refl) as [-> Hchild].
    destruct (up_spec (S i) q1 i n) as (U1 & U2 & U3); [lia|lia| | |].
    + intros k Hk Hki. pose proof (parent_lt k ltac:(lia)).
      destruct (decide (parent k = i)) as [Hp|Hp]; [rewrite Hp; by apply Hchild|].
      rewrite !Hs, !decide_False by lia. apply Hh. lia.
    + intros c Hc Hi0 Hp. pose proof (parent_lt c ltac:(lia)). pose proof (parent_lt i ltac:(lia)).
      rewrite !Hs, !decide_False by lia. apply (job_le_trans _ (q !!! i)); [apply Hh; lia|].
      rewrite <- Hp. apply Hh. lia.
    + apply Hgoal; [by rewrite U2|rewrite U3 by lia; done|done].
Qed.

Lemma heap_root_min q k : heap q (length q) → (k < length q)%nat → job_le (q !!! 0%nat) (q !!! k).
Proof.
  intros Hh. induction (lt_wf k) as [k _ IH]. intros Hk.
  destruct (decide (k = 0%nat)) as [->|Hne]; [apply job_le_refl|].
  pose proof (parent_lt k ltac:(lia)). apply (job_le_trans _ (q !!! parent k)); [apply IH; lia|].
  apply Hh. lia.
Qed.

(** ** The dispatcher *)
Lemma dequeue_spec d job q :
  heap (queue d) (length (queue d)) → dequeue d = Some (job, q) →
  heap q (length q) ∧ queue d ≡ₚ job :: q ∧
  canAcquire (GroupLimits (cfg d)) (active d) (Group job) = true.
Proof.
  unfold dequeue. intros Hh. destruct (list_find _ _) as [[i j]|] eqn:Hf; [|done].
  intros [= -> <-]. apply list_find_Some in Hf as (Hi & Hc & _).
  destruct (heap_remove_spec (queue d) i Hh) as [H1 H2]; [by eapply lookup_lt_Some|].
  split; [done|]. split; [|done]. rewrite H2 at 1.
  by rewrite (list_lookup_total_correct _ _ _ Hi).
Qed.

Lemma in_group_cons g j js : in_group g (j :: js) = in_group g js + if decide (Group j = g) then 1 else 0.
Proof.
  unfold in_group. destruct (decide (Group j = g)).
  - rewrite filter_cons_True by done. simpl. lia.
  - rewrite filter_cons_False by done. lia.
Qed.

Lemma in_group_delete g js i j :
  js !! i = Some j → in_group g js = in_group g (delete i js) + if decide (Group j = g) then 1 else 0.
Proof.
  intros Hi. rewrite <- in_group_cons. unfold in_group. f_equal. apply Permutation_length.
  by rewrite (delete_Permutation js i j Hi) at 1.
Qed.

Lemma in_group_nonneg g js : 0 <= in_group g js.
Proof. unfold in_group. lia. Qed.

Lemma acquire_active active g g' :
  g' ≠ "" → active_of (acquire active g) g' = active_of active g' + if decide (g = g') then 1 else 0.
Proof.
  intros Hg. unfold acquire. case_bool_decide as He.
  - subst. rewrite decide_False by done. lia.
  - unfold active_of. destruct (decide (g = g')) as [->|Hne].
    + by rewrite lookup_insert_eq.
    + rewrite lookup_insert_ne by done. lia.
Qed.

Lemma release_active active g g' :
  g' ≠ "" → 0 <= active_of active g' - (if decide (g = g') then 1 else 0) →
  active_of (release active g) g' = active_of active g' - if decide (g = g') then 1 else 0.
Proof.
  intros Hg Hpos. unfold release. case_bool_decide as He.
  - subst. rewrite decide_False by done. lia.
  - destruct (Z.ltb_spec 0 (active_of active g)) as [Hlt|Hge].
    + unfold active_of in *. destruct (decide (g = g')) as [->|Hne].
      * by rewrite lookup_insert_eq.
      * rewrite lookup_insert_ne by done. lia.
    + destruct (decide (g = g')) as [->|]; lia.
Qed.

Lemma worker_take_spec d job d' :
  worker_take d = Some (job, d') →
  ∃ q, dequeue d = Some (job, q) ∧ queue d' = q ∧ active d' = acquire (active d) (Group job) ∧
       running d' = job :: running d ∧ exited d' = exited d ∧ cfg d' = cfg d ∧
       submitted d' = submitted d ∧ completed d' = completed d ∧ closed d' = closed d.
Proof.
  unfold worker_take. destruct (dequeue d) as [[j q]|] eqn:E; [|done]. intros [= -> <-]. by exists q.
Qed.

Lemma dstep_wf d d' : disp_wf d → dstep d d' → disp_wf d'.
Proof.
  intros (H1 & H2 & H3 & H4 & H5) Hs. destruct Hs as [d job d' err Hsub|d job d' Hw Ht|d i job bad Hi|d Hw _ _ _|d].
  - unfold Submit in Hsub. destruct (closed d); [by injection Hsub as <- <-|].
    destruct (Z.leb_spec (QueueSize (cfg d)) (Z.of_nat (length (queue d)))); [by injection Hsub as <- <-|].
    injection Hsub as <- <-.
    destruct (heap_push_spec (queue d) (set_seq (uint64 (next_seq d + 1)) (resolve (cfg d) job)) H3) as [Hh Hp].
    split; [done|]. split; [done|]. split; [done|]. split; [|done]. simpl. rewrite Hp. simpl. lia.
  - apply worker_take_spec in Ht as (q & Hd & Hq & Ha & Hr & He & Hc & _).
    destruct (dequeue_spec _ _ _ H3 Hd) as (Hh & Hp & Hcan).
    unfold disp_wf. rewrite Hq, Ha, Hr, He, Hc. split_and!.
    + intros g Hg. rewrite acquire_active, in_group_cons, H1 by done. done.
    + intros g limit Hg Hl Hpos. rewrite in_group_cons. pose proof (H2 g limit Hg Hl Hpos).
      case_decide as Eg; [|lia]. rewrite Eg in Hcan. unfold canAcquire in Hcan.
      rewrite bool_decide_eq_false_2, Hl in Hcan by done.
      destruct (Z.leb_spec limit 0); [lia|]. apply Z.ltb_lt in Hcan. rewrite H1 in Hcan by done. lia.
    + done.
    + rewrite Hp in H4. simpl in H4. lia.
    + simpl. lia.
  - assert (Hlt := lookup_lt_Some _ _ _ Hi). unfold disp_wf; simpl. split_and!.
    + intros g Hg. pose proof (in_group_delete g _ _ _ Hi) as Hd. pose proof (H1 g Hg).
      pose proof (in_group_nonneg g (delete i (running d))).
      rewrite release_active; [lia|done|lia].
    + intros g limit Hg Hl Hpos. pose proof (in_group_delete g _ _ _ Hi) as Hd.
      pose proof (H2 g limit Hg Hl Hpos). case_decide; lia.
    + done.
    + done.
    + rewrite length_delete by (by eexists). lia.
  - unfold disp_wf; simpl. split_and!; try done. lia.
  - done.
Qed.

Lemma New_wf procs c : disp_wf (New procs c).
Proof.
  unfold disp_wf, New; cbn [active running queue exited cfg length].
  split; [done|]. split; [|split; [|split]].
  - intros g limit _ _ Hpos. unfold in_group. simpl. lia.
  - intros i Hi. lia.
  - lia.
  - lia.
Qed.

Lemma reachable_disp_wf procs c d : rtc dstep (New procs c) d → disp_wf d.
Proof.
  revert d. apply rtc_ind_r; [apply New_wf|]. intros d d' _ Hs Hd. by apply (dstep_wf d).
Qed.

Lemma uint64_add_l a b : uint64 (uint64 a + b) = uint64 (a + b).
Proof. unfold uint64. by rewrite Zplus_mod_idemp_l. Qed.

Lemma dstep_conserved d d' : disp_wf d → conserved d → dstep d d' → conserved d'.
Proof.
  intros (_ & _ & H3 & _) Hc Hs. unfold conserved in *.
  destruct Hs as [d job d' err Hsub|d job d' Hw Ht|d i job bad Hi|d Hw _ _ _|d]; try done.
  - unfold Submit in Hsub. destruct (closed d); [by injection Hsub as <- <-|].
    destruct (Z.leb_spec (QueueSize (cfg d)) (Z.of_nat (length (queue d)))); [by injection Hsub as <- <-|].
    injection Hsub as <- <-. simpl.
    destruct (heap_push_spec (queue d) (set_seq (uint64 (next_seq d + 1)) (resolve (cfg d) job)) H3) as [_ Hp].
    rewrite Hp, <- Hc, uint64_add_l. f_equal. simpl. lia.
  - apply worker_take_spec in Ht as (q & Hd & Hq & Ha & Hr & He & _ & -> & -> & _).
    destruct (dequeue_spec _ _ _ H3 Hd) as (_ & Hp & _). rewrite Hq, Hr, <- Hc, Hp. f_equal. simpl. lia.
  - assert (Hlt := lookup_lt_Some _ _ _ Hi). simpl. rewrite length_delete by (by eexists).
    rewrite <- Hc, <- !Z.add_assoc, uint64_add_l. f_equal. lia.
Qed.

(** C8.  Concurrency safety of the dispatcher, in every reachable state of any
    interleaving of submitters, workers and shutdown: no group exceeds its
    limit, the pool is not oversubscribed, the group counters are exact, and
    the queue is a heap within its bound. *)
Theorem dispatcher_safe procs c d :
  rtc dstep (New procs c) d → disp_wf d.
Proof. apply reachable_disp_wf. Qed.

(** No job is lost or duplicated: in every reachable state the accepted
    jobs are the queued, the running and the completed ones; and taking a job
    removes exactly that job from the queue. *)
Theorem dispatcher_conserves_jobs procs c d :
  rtc dstep (New procs c) d →
  conserved d ∧
  ∀ job d', worker_take d = Some (job, d') →
    queue d ≡ₚ job :: queue d' ∧ running d' = job :: running d.
Proof.
  intros Hr. assert (Hwf := reachable_disp_wf _ _ _ Hr). split.
  - revert d Hr Hwf. intros d Hr _. revert d Hr. apply rtc_ind_r; [done|].
    intros d d' Hr Hs Hc. apply (dstep_conserved d); [by eapply reachable_disp_wf|done|done].
  - intros job d' Ht. apply worker_take_spec in Ht as (q & Hd & -> & _ & Hrun & _).
    destruct Hwf as (_ & _ & H3 & _). by destruct (dequeue_spec _ _ _ H3 Hd) as (_ & Hp & _).
Qed.

(** Without group limits the queue is served in order: a worker takes a job
    whenever one is queued, and the one it takes has the highest priority, the
    earliest submitted first among equals. *)
Theorem dispatcher_priority_order procs c d :
  rtc dstep (New procs c) d → GroupLimits (cfg d) = ∅ → queue d ≠ [] →
  ∃ job d', worker_take d = Some (job, d') ∧ Forall (job_le job) (queue d).
Proof.
  intros Hr Hl Hq. destruct (reachable_disp_wf _ _ _ Hr) as (_ & _ & Hh & _).
  destruct (queue d) as [|j0 rest] eqn:E; [done|].
  assert (Hf : list_find (λ j, canAcquire (GroupLimits (cfg d)) (active d) (Group j) = true) (queue d) = Some (0%nat, j0)).
  { rewrite E. cbn [list_find]. rewrite decide_True; [done|]. unfold canAcquire. rewrite Hl, lookup_empty.
    by case_bool_decide. }
  unfold worker_take, dequeue. rewrite Hf. do 2 eexists. split; [done|].
  apply Forall_lookup. intros k j Hk.
  pose proof (heap_root_min (j0 :: rest) k Hh (lookup_lt_Some _ _ _ Hk)) as Hm.
  by rewrite (list_lookup_total_correct _ _ _ Hk) in Hm.
Qed.

(** *** A two-worker dispatcher with one limited group *)
Definition two_workers (limits : gmap string Z) : Config := {|
  Workers := 2; QueueSize := 10; GroupLimits := limits; DefaultPriority := PriorityNormal;
  PriorityFunc := None; GroupFunc := None; ShutdownTimeout := 0 |}.
Definition mkjob (name : string) (id : nat) (p : Z) (g : string) : Job :=
  {| job_Name := name; job_id := id; Priority := p; Group := g; seq := 0 |}.

(** Submit the jobs, then let a worker take one, then submit more. *)
Definition after_submits (d : Dispatcher) (js : list Job) : Dispatcher :=
  foldl (λ d j, (Submit d j).2) d js.
Definition after_take (d : Dispatcher) : Dispatcher :=
  match worker_take d with Some (_, d') => d' | None => d end.

Definition contended : Dispatcher :=
  after_submits
    (after_take (after_submits (New 1 (two_workers {["g" := 1]})) [mkjob "a" 1 PriorityCritical "g"]))
    [mkjob "b" 2 PriorityCritical "g"; mkjob "l" 3 PriorityNormal ""; mkjob "h" 4 PriorityHigh ""].

Lemma after_submits_steps d js : rtc dstep d (after_submits d js).
Proof.
  revert d; induction js as [|j js IH]; intros d; [apply rtc_refl|].
  unfold after_submits; cbn [foldl]. eapply rtc_l; [|apply IH].
  apply (ds_submit d j (Submit d j).2 (Submit d j).1). by destruct (Submit d j).
Qed.

Lemma after_take_steps d :
  (length (running d) + exited d < Workers (cfg d))%nat → rtc dstep d (after_take d).
Proof.
  intros Hw. unfold after_take. destruct (worker_take d) as [[j d']|] eqn:E; [|apply rtc_refl].
  by eapply rtc_once, ds_take.
Qed.

Lemma contended_reachable : rtc dstep (New 1 (two_workers {["g" := 1]})) contended.
Proof.
  unfold contended.
  apply (transitivity (y := after_submits (New 1 (two_workers {["g" := 1]})) [mkjob "a" 1 PriorityCritical "g"]));
    [apply after_submits_steps|].
  eapply transitivity; [|apply after_submits_steps].
  apply after_take_steps. vm_compute. lia.
Qed.

(** With group limits the order is not always by priority: there is a
    reachable state in which a worker takes a job although a queued job of
    higher priority could run, because the blocked head of the queue makes the
    scan go on in array order. *)
Theorem dispatcher_priority_inversion :
  ∃ procs c d job d' better,
    rtc dstep (New procs c) d ∧ worker_take d = Some (job, d') ∧
    better ∈ queue d ∧ canAcquire (GroupLimits (cfg d)) (active d) (Group better) = true ∧
    Priority job < Priority better.
Proof.
  exists 1%nat, (two_workers {["g" := 1]}), contended. do 2 eexists.
  exists {| job_Name := "h"; job_id := 4; Priority := PriorityHigh; Group := ""; seq := 4 |}.
  split; [apply contended_reachable|]. split; [vm_compute; reflexivity|].
  split; [|split; [reflexivity|vm_compute; reflexivity]].
  assert (E : queue contended = [
    {| job_Name := "b"; job_id := 2; Priority := PriorityCritical; Group := "g"; seq := 2 |};
    {| job_Name := "l"; job_id := 3; Priority := PriorityNormal; Group := ""; seq := 3 |};
    {| job_Name := "h"; job_id := 4; Priority := PriorityHigh; Group := ""; seq := 4 |}]) by reflexivity.
  rewrite E. do 2 right. left.
Qed.

(** *** Witnesses *)
Lemma dispatcher_safe_witness : disp_wf contended.
Proof. exact (dispatcher_safe _ _ _ contended_reachable). Defined.

Lemma dispatcher_conserves_jobs_witness : conserved contended.
Proof. exact (proj1 (dispatcher_conserves_jobs _ _ _ contended_reachable)). Defined.

Definition unlimited : Dispatcher :=
  after_submits (New 1 (two_workers ∅))
    [mkjob "a" 1 PriorityNormal ""; mkjob "b" 2 PriorityCritical ""; mkjob "c" 3 PriorityHigh "g"].

Lemma dispatcher_priority_order_witness :
  ∃ job d', worker_take unlimited = Some (job, d') ∧ Forall (job_le job) (queue unlimited).
Proof.
  apply (dispatcher_priority_order 1 (two_workers ∅)).
  - apply after_submits_steps.
  - reflexivity.
  - vm_compute. discriminate.
Defined.
