(* ===== verification/Recovery.v ===== *)
(** Resilience middleware (src/resilience/error_recovery.go, error_compactor.go,
    middleware.go): compact error formatting, bounded retries with escalation,
    error streaks per tool, and the circuit breaker around a tool handler. *)

From stdpp Require Import base tactics list gmap strings pretty.
From Stdlib Require Import ZArith Lia.
From S2P Require Import Prelude Tool Truncate CircuitBreaker.

Local Open Scope Z_scope.

(** ** Error classification (error_recovery.go) *)
Definition any_in (subs : list string) (msg : string) : bool := existsb (λ s, contains s msg) subs.

Definition classifyError (err : option error) : string :=
  match err with
  | None => "UNKNOWN"
  | Some e =>
      if errors_is e DeadlineExceeded then "TIMEOUT"
      else if errors_is e Canceled then "CANCELLED"
      else if errors_is e ErrCircuitOpen then "CIRCUIT_OPEN"
      else
        let msg := to_lower (error_text e) in
        if any_in ["rate limit"; "rate_limited"; "429"] msg then "RATE_LIMITED"
        else if any_in ["permission"; "forbidden"; "403"] msg then "PERMISSION"
        else if any_in ["not found"; "404"] msg then "NOT_FOUND"
        else if any_in ["connection"; "network"; "dns"] msg then "NETWORK"
        else if any_in ["timeout"] msg then "TIMEOUT"
        else "TRANSIENT"
  end.

Definition hints : list (string * string) := [
  ("TIMEOUT", "The operation timed out. Retry with a simpler request or increase the timeout.");
  ("CANCELLED", "The request was cancelled. This is usually intentional; no retry needed.");
  ("CIRCUIT_OPEN", "The upstream service is temporarily unavailable. Wait before retrying.");
  ("RATE_LIMITED", "Rate limit hit. Back off and retry after a short delay.");
  ("PERMISSION", "Access denied. Check credentials or permissions before retrying.");
  ("NOT_FOUND", "The resource was not found. Verify the identifier and try again.");
  ("NETWORK", "A network error occurred. Check connectivity and retry.");
  ("TRANSIENT", "A transient error occurred. Retry may succeed.")].

Definition recoveryHint (errType : string) : string :=
  match list_find (λ p : string * string, p.1 = errType) hints with
  | Some (_, p) => p.2
  | None => ""
  end.

Definition CompactError (err : option error) : string :=
  match err with
  | None => ""
  | Some e =>
      let errType := classifyError err in
      let hint := recoveryHint errType in
      "[" +:+ errType +:+ "] " +:+ error_text e +:+
      (if bool_decide (hint = "") then "" else newline +:+ "Hint: " +:+ hint)
  end.

(** ** Helpers *)
Definition isFailure (result : option CallToolResult) (err : option error) : bool :=
  match err with Some _ => true | None => IsResultError result end.

Definition first_text (result : option CallToolResult) : option string :=
  r ← result; c ← head (r_Content r); ExtractTextContent c.

Definition extractError (result : option CallToolResult) (err : option error) : error :=
  match err with
  | Some e => e
  | None =>
      if IsResultError result then
        match first_text result with Some text => Err text | None => Err "unknown tool error" end
      else Err "unknown tool error"
  end.

Definition makeCompactErrorResult (formatFn : error → string) (name : string) (err : error) :
    CallToolResult :=
  MakeErrorResult ("Tool " +:+ quote name +:+ " failed: " +:+ formatFn err).

Section Recovery.
Context {Ctx Req W : Type}.
(** The clock, [ctx.Err()], and the wait between attempts, which ends when the
    delay has passed or the context is done. *)
Variable now : W → time.
Variable ctx_err : Ctx → W → option error.
Variable wait : Ctx → duration → W → W.

Record ErrorEscalation := {
  esc_ToolName : string;
  esc_Error : error;
  esc_Retries : Z;
  esc_Duration : duration
}.

Record ErrorRecoveryConfig := {
  MaxRetries : Z;
  RetryDelay : duration;
  EscalateFunc : option (ErrorEscalation → W → W);
  FormatError : option (error → string);
  ShouldRetry : option (error → bool)
}.

Definition DefaultErrorRecoveryConfig : ErrorRecoveryConfig := {|
  MaxRetries := 3; RetryDelay := 0; EscalateFunc := None;
  FormatError := Some (λ e, CompactError (Some e)); ShouldRetry := None |}.

(** The retry loop; [fuel] is the number of attempts left.  It ends with the
    handler's outcome of a successful attempt, a panic, or the last error. *)
Inductive retry_result :=
| Succeeded (result : option CallToolResult)
| Panicked (v : string)
| Exhausted (lastErr : error).

Fixpoint retry_loop (fuel : nat) (delay : duration) (next : ToolHandlerFunc Ctx Req W)
    (ctx : Ctx) (request : Req) (lastErr : error) (w : W) : retry_result * W :=
  match fuel with
  | O => (Exhausted lastErr, w)
  | S fuel' =>
      match ctx_err ctx w with
      | Some e => (Exhausted e, w)
      | None =>
          let w1 := if 0 <? delay then wait ctx delay w else w in
          match (if 0 <? delay then ctx_err ctx w1 else None) with
          | Some e => (Exhausted e, w1)
          | None =>
              match next ctx request w1 with
              | (Panics v, w2) => (Panicked v, w2)
              | (Returns result err, w2) =>
                  if isFailure result err
                  then retry_loop fuel' delay next ctx request (extractError result err) w2
                  else (Succeeded result, w2)
              end
          end
      end
  end.

Definition ErrorRecoveryMiddleware (cfg : ErrorRecoveryConfig) : Middleware Ctx Req W :=
  λ name td next ctx request w,
    let format := default (λ e, CompactError (Some e)) (FormatError cfg) in
    let maxRetries := if MaxRetries cfg <? 0 then 0 else MaxRetries cfg in
    let start := now w in
    match next ctx request w with
    | (Panics v, w1) => (Panics v, w1)
    | (Returns result err, w1) =>
        if negb (isFailure result err) then (Returns result None, w1) else
        let toolErr := extractError result err in
        if match ShouldRetry cfg with Some f => negb (f toolErr) | None => false end
        then (Returns (Some (makeCompactErrorResult format name toolErr)) None, w1)
        else
          match retry_loop (Z.to_nat maxRetries) (RetryDelay cfg) next ctx request toolErr w1 with
          | (Succeeded r, w2) => (Returns r None, w2)
          | (Panicked v, w2) => (Panics v, w2)
          | (Exhausted lastErr, w2) =>
              let w3 := match EscalateFunc cfg with
                        | Some f => f {| esc_ToolName := name; esc_Error := lastErr;
                                         esc_Retries := maxRetries;
                                         esc_Duration := time_sub (now w2) start |} w2
                        | None => w2
                        end in
              (Returns (Some (makeCompactErrorResult format name lastErr)) None, w3)
          end
    end.

(** ** Error streaks (error_compactor.go)

    The tracker is shared by the handlers: it is a cell of the world. *)
Record errorTracker := { counts : gmap string Z; last_msg : gmap string string }.
Definition newErrorTracker : errorTracker := {| counts := ∅; last_msg := ∅ |}.

Definition count (et : errorTracker) (tool : string) : Z := default 0 (counts et !! tool).

Definition recordError (et : errorTracker) (tool msg : string) : Z * string * errorTracker :=
  let n := add64 (count et tool) 1 in
  (n, default "" (last_msg et !! tool),
   {| counts := <[tool := n]> (counts et); last_msg := <[tool := msg]> (last_msg et) |}).

Definition tracker_success (et : errorTracker) (tool : string) : errorTracker :=
  {| counts := <[tool := 0]> (counts et); last_msg := delete tool (last_msg et) |}.

Context `{!Cell W errorTracker}.

Definition compacted_text (name : string) (n : Z) (msg : string) : string :=
  "[ERROR_COMPACTED] tool " +:+ quote name +:+ " has failed " +:+ itoa n +:+
  " consecutive times. Latest: " +:+ msg.

Definition ErrorCompactorMiddleware (threshold : Z) : Middleware Ctx Req W :=
  λ name td next ctx request w,
    let threshold := if threshold <=? 0 then 3 else threshold in
    match next ctx request w with
    | (Panics v, w1) => (Panics v, w1)
    | (Returns result (Some err), w1) => (Returns result (Some err), w1)
    | (Returns result None, w1) =>
        if IsResultError result then
          let errMsg := default "" (first_text result) in
          let '(n, _, et) := recordError (peek w1) name errMsg in
          let w2 := poke et w1 in
          if threshold <=? n
          then (Returns (Some (MakeErrorResult (compacted_text name n errMsg))) None, w2)
          else (Returns result None, w2)
        else (Returns result None, poke (tracker_success (peek w1) name) w1)
    end.

(** ** The circuit breaker around a handler (middleware.go)

    The breaker registry is part of the world, so other calls may change the
    breaker while the handler runs.  A panic leaves [Execute] without recording
    a result. *)
Context `{!Cell W CircuitBreakerRegistry}.

Definition set_breaker (service : string) (cb : CircuitBreaker) (w : W) : W :=
  let reg : CircuitBreakerRegistry := peek w in
  poke (set_breakers (<[service := cb]> (breakers reg)) reg) w.

Definition handler_error (result : option CallToolResult) (err : option error) : option error :=
  match err with
  | Some e => Some e
  | None => if IsResultError result then Some (Err "tool returned error result") else None
  end.

Definition circuit_open_text (service : string) : string :=
  "[CIRCUIT_OPEN] " +:+ service +:+ " service is temporarily unavailable (circuit breaker open)".

Definition CircuitBreakerMiddleware : Middleware Ctx Req W :=
  λ name td next ctx request w,
    let service := CircuitBreakerGroup td in
    if bool_decide (service = "") then next ctx request w else
    let '(cb, reg) := Registry_Get (peek w) service in
    let w0 := poke reg w in
    match canExecute cb (now w0) with
    | (false, cb1, _) =>
        (Returns (Some (MakeErrorResult (circuit_open_text service))) None, set_breaker service cb1 w0)
    | (true, cb1, _) =>
        match next ctx request (set_breaker service cb1 w0) with
        | (Panics v, w1) => (Panics v, w1)
        | (Returns result handlerErr, w1) =>
            let cb2 := (Registry_Get (peek w1) service).1 in
            let err := handler_error result handlerErr in
            let '(cb3, _) := recordResult cb2 (now w1) err in
            let w2 := set_breaker service cb3 w1 in
            if match err with Some e => errors_is e ErrCircuitOpen | None => false end
            then (Returns (Some (MakeErrorResult (circuit_open_text service))) None, w2)
            else (Returns result handlerErr, w2)
        end
    end.
End Recovery.
Arguments ErrorRecoveryConfig : clear implicits.

(** ** What the properties speak about *)

(** A handler that counts its calls. *)
Definition counted {Ctx Req W : Type} (next : ToolHandlerFunc Ctx Req W) :
    ToolHandlerFunc Ctx Req (W * nat) :=
  λ ctx request w, let '(o, w') := next ctx request w.1 in (o, (w', S w.2)).

Definition succeeds (o : outcome) : bool :=
  match o with Returns r e => negb (isFailure r e) | Panics _ => false end.
Definition fails_plainly (o : outcome) : bool :=
  match o with Returns r e => isFailure r e | Panics _ => false end.

(** Feeding one tool's results through the compactor, the tracker being the
    whole world; the answers, and the final tracker. *)
Fixpoint compact_all (threshold : Z) (name : string) (rs : list (option CallToolResult))
    (et : errorTracker) : list (option CallToolResult) * errorTracker :=
  match rs with
  | [] => ([], et)
  | r :: rs' =>
      match ErrorCompactorMiddleware (Ctx := unit) (Req := unit) (W := errorTracker) threshold name
              (plain_definition (λ _ _ w, (Returns None None, w)) plain_tool)
              (λ _ _ w, (Returns r None, w)) tt tt et with
      | (Returns r' _, et') =>
          let '(out, et'') := compact_all threshold name rs' et' in (r' :: out, et'')
      | (Panics _, et') => ([], et')
      end
  end.

(** The length of the run of errors at the end. *)
Definition streak_step (n : Z) (r : option CallToolResult) : Z := if IsResultError r then n + 1 else 0.
Definition streak (n : Z) (rs : list (option CallToolResult)) : Z := foldl streak_step n rs.

(** What the client sees for the result [r] that makes the streak [n]. *)
Definition compacted (threshold : Z) (name : string) (n : Z) (r : option CallToolResult) :
    option CallToolResult :=
  if IsResultError r && (threshold <=? n)
  then Some (MakeErrorResult (compacted_text name n (default "" (first_text r)))) else r.

(** ** Properties *)
Section RecoveryProofs.
Context {Ctx Req W : Type} (now : W → time) (ctx_err : Ctx → W → option error)
  (wait : Ctx → duration → W → W).
Context (calls : W → nat) (next : ToolHandlerFunc Ctx Req W) (cfg : ErrorRecoveryConfig W).
Hypothesis next_counts : ∀ ctx req w, calls (next ctx req w).2 = S (calls w).
Hypothesis wait_quiet : ∀ ctx d w, calls (wait ctx d w) = calls w.
Hypothesis escalate_quiet : ∀ f e w, EscalateFunc cfg = Some f → calls (f e w) = calls w.

Lemma retry_loop_calls fuel delay ctx req e w :
  let '(r, w') := retry_loop ctx_err wait fuel delay next ctx req e w in
  (calls w <= calls w' <= calls w + fuel)%nat.
Proof.
  revert e w. induction fuel as [|fuel IH]; intros e w; simpl; [lia|].
  destruct (ctx_err ctx w); [lia|].
  set (w1 := if 0 <? delay then wait ctx delay w else w).
  assert (H1 : calls w1 = calls w) by (unfold w1; destruct (0 <? delay); [apply wait_quiet|done]).
  destruct (if 0 <? delay then ctx_err ctx w1 else None); [lia|].
  pose proof (next_counts ctx req w1) as Hn.
  destruct (next ctx req w1) as [[r err|v] w2]; simpl in Hn; [|lia].
  destruct (isFailure r err); [|lia].
  specialize (IH (extractError r err) w2). destruct (retry_loop _ _ _ _ _ _ _ _ w2). lia.
Qed.

Lemma retry_loop_exhausts fuel delay ctx req e w :
  (∀ w, ctx_err ctx w = None) → (∀ w, fails_plainly (next ctx req w).1 = true) →
  ∃ e' w', retry_loop ctx_err wait fuel delay next ctx req e w = (Exhausted e', w') ∧
           calls w' = (calls w + fuel)%nat.
Proof.
  intros Hc Hf. revert e w. induction fuel as [|fuel IH]; intros e w; simpl; [do 2 eexists; split; [done|lia]|].
  rewrite Hc. set (w1 := if 0 <? delay then wait ctx delay w else w).
  assert (H1 : calls w1 = calls w) by (unfold w1; destruct (0 <? delay); [apply wait_quiet|done]).
  assert ((if 0 <? delay then ctx_err ctx w1 else None) = None) as -> by (destruct (0 <? delay); auto).
  pose proof (next_counts ctx req w1) as Hn. pose proof (Hf w1) as Hw.
  destruct (next ctx req w1) as [[r err|v] w2]; simpl in *; [|done]. rewrite Hw.
  destruct (IH (extractError r err) w2) as (e' & w' & -> & Hcalls). do 2 eexists. split; [done|lia].
Qed.

(** The recovery middleware honours the handler contract and its retry
    budget: it never returns a Go error, calls the handler at least once and at
    most [1 + MaxRetries] times, passes a first success through untouched, and
    when every attempt fails under a live context it makes all of them and
    answers with an error result. *)
Theorem error_recovery_contract name td ctx req w :
  ShouldRetry cfg = None →
  let '(o, w') := ErrorRecoveryMiddleware now ctx_err wait cfg name td next ctx req w in
  (match o with Returns _ e => e = None | Panics _ => True end) ∧
  (S (calls w) <= calls w' <= S (calls w) + Z.to_nat (MaxRetries cfg))%nat ∧
  (∀ r e w1, next ctx req w = (Returns r e, w1) → isFailure r e = false →
     o = Returns r None ∧ w' = w1) ∧
  ((∀ w, ctx_err ctx w = None) → (∀ w, fails_plainly (next ctx req w).1 = true) →
   calls w' = (S (calls w) + Z.to_nat (MaxRetries cfg))%nat ∧
   match o with Returns r _ => IsResultError r = true | Panics _ => False end).
Proof.
  intros Hsr. unfold ErrorRecoveryMiddleware. rewrite Hsr.
  assert (Hmax : Z.to_nat (if MaxRetries cfg <? 0 then 0 else MaxRetries cfg) = Z.to_nat (MaxRetries cfg)).
  { destruct (Z.ltb_spec (MaxRetries cfg) 0); lia. }
  rewrite Hmax. set (n := Z.to_nat (MaxRetries cfg)).
  pose proof (next_counts ctx req w) as Hn.
  destruct (next ctx req w) as [[r err|v] w1] eqn:Hnext; simpl in Hn.
  - destruct (isFailure r err) eqn:Hfail; cbn [negb].
    + pose proof (retry_loop_calls n (RetryDelay cfg) ctx req (extractError r err) w1) as Hl.
      assert (Hq : ∀ e (w2 : W), calls (match EscalateFunc cfg with Some f => f e w2 | None => w2 end) = calls w2).
      { intros e w2. destruct (EscalateFunc cfg) eqn:He; [by eapply escalate_quiet|done]. }
      pose proof (retry_loop_exhausts n (RetryDelay cfg) ctx req (extractError r err) w1) as Hx.
      destruct (retry_loop _ _ _ _ _ _ _ _ w1) as [[r2|v|e2] w2] eqn:Hr; rewrite ?Hq.
      * split; [done|]. split; [lia|]. split; [intros; congruence|]. intros Hc Hf.
        destruct (Hx Hc Hf) as (? & ? & ? & _). congruence.
      * split; [done|]. split; [lia|]. split; [intros; congruence|]. intros Hc Hf.
        destruct (Hx Hc Hf) as (? & ? & ? & _). congruence.
      * split; [done|]. split; [lia|]. split; [intros; congruence|]. intros Hc Hf.
        destruct (Hx Hc Hf) as (? & ? & [= <- <-] & Hcalls). split; [lia|done].
    + split; [done|]. split; [lia|]. split; [intros; by simplify_eq|]. intros _ Hf.
      specialize (Hf w). rewrite Hnext in Hf. simpl in Hf. congruence.
  - split; [done|]. split; [lia|]. split; [intros; congruence|]. intros _ Hf.
    specialize (Hf w). by rewrite Hnext in Hf.
Qed.
End RecoveryProofs.

(** The escalation overstates the work done: when the context is already
    cancelled after the first failure, no retry is made, yet the callback is
    told of [MaxRetries] of them. *)
Theorem escalation_overstates_retries {Ctx Req W : Type} now ctx_err wait (cfg : ErrorRecoveryConfig W)
    f name td (next : ToolHandlerFunc Ctx Req W) ctx req w r err w1 e :
  EscalateFunc cfg = Some f → ShouldRetry cfg = None → 0 < MaxRetries cfg →
  next ctx req w = (Returns r err, w1) → isFailure r err = true → ctx_err ctx w1 = Some e →
  (ErrorRecoveryMiddleware now ctx_err wait cfg name td next ctx req w).2 =
  f {| esc_ToolName := name; esc_Error := e; esc_Retries := MaxRetries cfg;
       esc_Duration := time_sub (now w1) (now w) |} w1.
Proof.
  intros Hf Hs Hm Hn Hfail Hc. unfold ErrorRecoveryMiddleware. rewrite Hn, Hfail, Hs, Hf. cbn [negb].
  destruct (Z.ltb_spec (MaxRetries cfg) 0); [lia|].
  destruct (Z.to_nat (MaxRetries cfg)) eqn:E; [lia|]. cbn [retry_loop]. by rewrite Hc.
Qed.

Lemma compact_all_spec threshold name rs et :
  0 < threshold → 0 <= count et name → count et name + Z.of_nat (length rs) <= max_int64 →
  let '(out, et') := compact_all threshold name rs et in
  count et' name = streak (count et name) rs ∧
  (∀ other, other ≠ name → count et' other = count et other) ∧
  length out = length rs ∧
  ∀ i r, rs !! i = Some r →
    out !! i = Some (compacted threshold name (streak (count et name) (take (S i) rs)) r).
Proof.
  intros Ht. revert et. induction rs as [|r rs IH]; intros et Hp Hb; [done|].
  cbn [length] in Hb. cbn [compact_all]. unfold ErrorCompactorMiddleware at 1.
  destruct (Z.leb_spec threshold 0); [lia|]. unfold recordError.
  assert (Hadd : add64 (count et name) 1 = count et name + 1).
  { apply add64_id. unfold in64, min_int64, max_int64 in *. lia. }
  cbn [peek poke self_cell]. unfold id.
  unfold id. rewrite Hadd.
  destruct (IsResultError r) eqn:Hr.
  - set (et1 := {| counts := <[name := count et name + 1]> (counts et); last_msg := _ |}).
    assert (Hc1 : count et1 name = count et name + 1) by (unfold count, et1; simpl; by rewrite lookup_insert_eq).
    assert (Ho1 : ∀ other, other ≠ name → count et1 other = count et other).
    { intros o Ho. unfold count, et1; simpl. by rewrite lookup_insert_ne. }
    specialize (IH et1 ltac:(lia) ltac:(lia)).
    assert (Hgoal : ∀ a : option CallToolResult, a = compacted threshold name (count et name + 1) r →
      let '(out, et') := (let '(out, et'') := compact_all threshold name rs et1 in (a :: out, et'')) in
      count et' name = streak (count et name) (r :: rs) ∧
      (∀ other, other ≠ name → count et' other = count et other) ∧
      length out = length (r :: rs) ∧
      ∀ i r', (r :: rs) !! i = Some r' →
        out !! i = Some (compacted threshold name (streak (count et name) (take (S i) (r :: rs))) r')).
    { intros a Ha. destruct (compact_all threshold name rs et1) as [out et']. destruct IH as (I1 & I2 & I3 & I4).
      assert (Hst : streak_step (count et name) r = count et1 name) by (unfold streak_step; by rewrite Hr, Hc1).
      split; [unfold streak; cbn [foldl]; by rewrite Hst|].
      split; [intros o Ho; by rewrite I2, Ho1|]. split; [simpl; lia|].
      intros [|i] r' Hi; simpl in Hi.
      - injection Hi as <-. simpl. unfold streak; cbn [foldl take]. by rewrite Hst, Hc1, Ha.
      - simpl. rewrite (I4 _ _ Hi). unfold streak; cbn [foldl take]. by rewrite Hst. }
    destruct (Z.leb_spec threshold (count et name + 1)) as [Hle|Hgt]; apply Hgoal;
      unfold compacted; rewrite Hr; cbn [andb].
    + destruct (Z.leb_spec threshold (count et name + 1)); [done|lia].
    + destruct (Z.leb_spec threshold (count et name + 1)); [lia|done].
  - set (et1 := tracker_success et name).
    assert (Hc1 : count et1 name = 0) by (unfold count, et1; simpl; by rewrite lookup_insert_eq).
    assert (Ho1 : ∀ other, other ≠ name → count et1 other = count et other).
    { intros o Ho. unfold count, et1; simpl. by rewrite lookup_insert_ne. }
    specialize (IH et1 ltac:(lia) ltac:(lia)).
    destruct (compact_all threshold name rs et1) as [out et']. destruct IH as (I1 & I2 & I3 & I4).
    assert (Hst : streak_step (count et name) r = count et1 name) by (unfold streak_step; by rewrite Hr, Hc1).
    split; [unfold streak; cbn [foldl]; by rewrite Hst|].
    split; [intros o Ho; by rewrite I2, Ho1|]. split; [simpl; lia|].
    intros [|i] r' Hi; simpl in Hi.
    + injection Hi as <-. simpl. unfold streak, compacted; cbn [foldl take]. by rewrite Hr.
    + simpl. rewrite (I4 _ _ Hi). unfold streak; cbn [foldl take]. by rewrite Hst.
Qed.

(** The compactor counts consecutive errors exactly: after any sequence of
    results the counter is the length of the run of errors at its end, each
    answer is replaced by the summary precisely when its run has reached the
    threshold, and other tools' counters do not move. *)
Theorem compactor_counts_streaks threshold name rs :
  0 < threshold → Z.of_nat (length rs) <= max_int64 →
  let '(out, et') := compact_all threshold name rs newErrorTracker in
  count et' name = streak 0 rs ∧ (∀ other, other ≠ name → count et' other = 0) ∧
  length out = length rs ∧
  ∀ i r, rs !! i = Some r →
    out !! i = Some (compacted threshold name (streak 0 (take (S i) rs)) r).
Proof.
  intros Ht Hb. pose proof (compact_all_spec threshold name rs newErrorTracker Ht) as H.
  assert (E : ∀ n, count newErrorTracker n = 0) by done. rewrite !E in H.
  specialize (H ltac:(lia) ltac:(lia)). destruct (compact_all threshold name rs newErrorTracker).
  destruct H as (? & Ho & ? & ?). by split_and!.
Qed.

(** The breaker guards the handler: a tool without a group is left alone;
    with its breaker open and the timeout not elapsed the handler does not run
    and the answer is a [CIRCUIT_OPEN] error; with its breaker closed the
    handler's own answer is returned (unless it is itself a circuit-open error)
    and an error result counts as a failure of the service. *)
Theorem breaker_middleware_contract {Ctx Req W : Type} `{CellLaws W CircuitBreakerRegistry} now
    name td (next : ToolHandlerFunc Ctx Req W) ctx req w cb :
  (∀ r w, now (poke r w) = now w) →
  CircuitBreakerGroup td ≠ "" → breakers (peek w) !! CircuitBreakerGroup td = Some cb →
  let '(o, w') := CircuitBreakerMiddleware now name td next ctx req w in
  (cb_state cb = CircuitOpen → time_sub (now w) (lastFailure cb) < Timeout (cb_config cb) →
   o = Returns (Some (MakeErrorResult (circuit_open_text (CircuitBreakerGroup td)))) None ∧
   breakers (peek w') !! CircuitBreakerGroup td = Some cb) ∧
  (cb_state cb = CircuitClosed → ∀ r w1,
   next ctx req (set_breaker (CircuitBreakerGroup td) cb (poke (peek w : CircuitBreakerRegistry) w)) = (Returns r None, w1) →
   breakers (peek w1) !! CircuitBreakerGroup td = Some cb →
   o = Returns r None ∧
   breakers (peek w') !! CircuitBreakerGroup td =
     Some (if IsResultError r then (recordFailure cb (now w1)).1 else set_failures 0 cb)).
Proof.
  intros Hnow Hne Hcb. unfold CircuitBreakerMiddleware.
  rewrite bool_decide_eq_false_2 by done. unfold Registry_Get at 1. rewrite Hcb. rewrite Hnow.
  unfold canExecute. destruct (cb_state cb) eqn:Hs.
  - destruct (next ctx req _) as [[r err|v] w1] eqn:Hn.
    + destruct (recordResult _ _ _) as [cb3 ev] eqn:Hr.
      match goal with |- let '(o, w') := (if ?b then _ else _) in _ => destruct b eqn:Hb end.
      * split; [done|]. intros _ r' w1' [= <- -> <-] Hcb1. exfalso. simpl in Hb.
        destruct (IsResultError r); by simpl in Hb.
      * split; [done|]. intros _ r' w1' [= <- -> <-] Hcb1. split; [done|].
        unfold set_breaker. rewrite peek_poke. simpl. rewrite lookup_insert_eq. f_equal.
        unfold Registry_Get in Hr. rewrite Hcb1 in Hr. simpl in Hr.
        destruct (IsResultError r); simpl in Hr.
        -- by rewrite Hr.
        -- unfold recordSuccess in Hr. rewrite Hs in Hr. by injection Hr as <- _.
    + split; [done|]. intros _ r' w1' [=].
  - destruct (Z.leb_spec (Timeout (cb_config cb)) (time_sub (now w) (lastFailure cb))).
    + destruct (transition cb CircuitHalfOpen) as [cb' ev].
      destruct (next ctx req _) as [[r err|v] w1]; [destruct (recordResult _ _ _) as [cb3 ev3]; case_match|];
        (split; [intros _ ?; lia|done]).
    + split; [|done]. intros _ _. split; [done|]. unfold set_breaker. rewrite !peek_poke. simpl.
      by rewrite lookup_insert_eq.
  - destruct (halfOpenCalls cb <? HalfOpenMaxCalls (cb_config cb)).
    + destruct (next ctx req _) as [[r err|v] w1]; [destruct (recordResult _ _ _) as [cb3 ev3]; case_match|]; done.
    + done.
Qed.

(** ** Witnesses *)
Definition error_result : CallToolResult := MakeErrorResult "boom".
Definition failing_handler : ToolHandlerFunc unit unit nat := λ _ _ n, (Returns (Some error_result) None, S n).

Lemma error_recovery_contract_witness :
  let '(o, n) := ErrorRecoveryMiddleware (λ _ : nat, 0) (λ _ _, None) (λ _ _ n, n)
                   DefaultErrorRecoveryConfig "t" (plain_definition failing_handler plain_tool)
                   failing_handler tt tt 0%nat in
  n = 4%nat ∧ match o with Returns r _ => IsResultError r = true | Panics _ => False end.
Proof.
  pose proof (error_recovery_contract (λ _ : nat, 0) (λ _ _, None) (λ _ _ n, n) id failing_handler
    DefaultErrorRecoveryConfig ltac:(reflexivity) ltac:(reflexivity) ltac:(discriminate)
    "t" (plain_definition failing_handler plain_tool) tt tt 0%nat eq_refl) as H.
  cbv beta zeta in H |- *. destruct (ErrorRecoveryMiddleware _ _ _ _ _ _ _ _ _ _) as [o n].
  destruct H as (_ & _ & _ & H). apply H; intros; reflexivity.
Defined.

Definition noting (e : ErrorEscalation) (l : list Z) : list Z := l ++ [esc_Retries e].
Lemma escalation_overstates_retries_witness :
  (ErrorRecoveryMiddleware (λ _ : list Z, 0) (λ _ _, Some Canceled) (λ _ _ l, l)
     {| MaxRetries := 3; RetryDelay := 0; EscalateFunc := Some noting; FormatError := None; ShouldRetry := None |}
     "t" (plain_definition (λ _ _ l, (Returns (Some error_result) None, l)) plain_tool)
     (λ (_ : unit) (_ : unit) l, (Returns (Some error_result) None, l)) tt tt []).2 = [3].
Proof.
  rewrite (escalation_overstates_retries (λ _ : list Z, 0) (λ _ _, Some Canceled) (λ _ _ l, l)
     {| MaxRetries := 3; RetryDelay := 0; EscalateFunc := Some noting; FormatError := None; ShouldRetry := None |}
     noting "t" _ (λ (_ : unit) (_ : unit) l, (Returns (Some error_result) None, l)) tt tt []
     (Some error_result) None [] Canceled); reflexivity.
Defined.

Lemma compactor_counts_streaks_witness :
  let '(out, et) := compact_all 2 "t" [Some error_result; Some error_result; None] newErrorTracker in
  count et "t" = 0 ∧
  out !! 1%nat = Some (Some (MakeErrorResult (compacted_text "t" 2 "boom"))).
Proof.
  pose proof (compactor_counts_streaks 2 "t" [Some error_result; Some error_result; None]
    ltac:(lia) ltac:(vm_compute; discriminate)) as H.
  destruct (compact_all _ _ _ _) as [out et]. destruct H as (Hc & _ & _ & Ho).
  split; [exact Hc|]. exact (Ho 1%nat (Some error_result) eq_refl).
Defined.

Definition guarded_tool : ToolDefinition (ToolHandlerFunc unit unit (CircuitBreakerRegistry * nat)) := {|
  td_Tool := plain_tool; Handler := λ _ _ w, (Returns None None, w); Category := ""; Subcategory := "";
  Tags := []; SearchTerms := []; Complexity := "simple"; IsWrite := false; Deprecated := false;
  td_Timeout := 0; CircuitBreakerGroup := "svc"; RuntimeGroup := ""; OutputSchema := None;
  MaxResultChars := 0; DeferLoading := false; AlwaysLoad := false; SkipRequiresUserInteraction := false;
  DestructiveOverride := None; IdempotentOverride := None; ReadOnlyOverride := None |}.

Lemma breaker_middleware_contract_witness :
  (CircuitBreakerMiddleware (λ _ : CircuitBreakerRegistry * nat, 6) "t" guarded_tool
     (λ (_ : unit) (_ : unit) w, (Returns None None, (w.1, S w.2))) tt tt
     ({| breakers := {["svc" := tripped]}; reg_config := one_permit; reg_metrics := false |}, 0%nat)).1 =
  Returns (Some (MakeErrorResult (circuit_open_text "svc"))) None.
Proof.
  pose proof (breaker_middleware_contract (λ _ : CircuitBreakerRegistry * nat, 6) "t"
    guarded_tool (λ (_ : unit) (_ : unit) w, (Returns None None, (w.1, S w.2))) tt tt
    ({| breakers := {["svc" := tripped]}; reg_config := one_permit; reg_metrics := false |}, 0%nat) tripped
    ltac:(reflexivity) ltac:(discriminate) ltac:(reflexivity)) as H.
  destruct (CircuitBreakerMiddleware _ _ _ _ _ _ _) as [o w']. simpl.
  apply (proj1 H); reflexivity.
Defined.
