(* ===== verification/Dag.v ===== *)
(** Task dependencies of the autonomous loop (src/ralph/dag.go): readiness and
    Kahn's algorithm. *)

From stdpp Require Import base tactics list gmap strings sorting.
From Stdlib Require Import ZArith Lia.
From S2P Require Import Prelude.

Local Open Scope Z_scope.

(** ** Data and operations *)
Record Task := {
  ID : string;
  TaskDescription : string;
  Done : bool;
  DependsOn : list string
}.

Definition is_completed (completed : gmap string bool) (id : string) : bool :=
  default false (completed !! id).

Definition ReadyTasks (tasks : list Task) (completed : gmap string bool) : list string :=
  omap (λ t,
      if Done t || is_completed completed (ID t) then None
      else if forallb (is_completed completed) (DependsOn t) then Some (ID t) else None)
    tasks.

Definition rerr (s : string) : error := Err ("ralph: " +:+ s).

Definition task_ids (tasks : list Task) : gset string := list_to_set (map ID tasks).

(** The first reference to a task that does not exist. *)
Definition unknown_ref (tasks : list Task) : option (string * string) :=
  head (omap (λ t, pair (ID t) <$> head (filter (λ dep, dep ∉ task_ids tasks) (DependsOn t))) tasks).

(** [inDegree] and [dependents], built task by task and reference by reference. *)
Definition degree (m : gmap string Z) (id : string) : Z := default 0 (m !! id).

Definition add_ref (id : string) (s : gmap string Z * gmap string (list string)) (dep : string) :
    gmap string Z * gmap string (list string) :=
  (<[id := degree s.1 id + 1]> s.1, <[dep := default [] (s.2 !! dep) ++ [id]]> s.2).

Definition add_task (s : gmap string Z * gmap string (list string)) (t : Task) :
    gmap string Z * gmap string (list string) :=
  let s := match s.1 !! ID t with Some _ => s | None => (<[ID t := 0]> s.1, s.2) end in
  foldl (add_ref (ID t)) s (DependsOn t).

Definition build (tasks : list Task) : gmap string Z * gmap string (list string) :=
  foldl add_task (∅, ∅) tasks.

(** Removing one edge into [dep]. *)
Definition relax (s : gmap string Z * list string) (dep : string) : gmap string Z * list string :=
  let n := degree s.1 dep - 1 in
  (<[dep := n]> s.1, if n =? 0 then s.2 ++ [dep] else s.2).

(** The main loop; [fuel] bounds the nodes taken from the queue. *)
Fixpoint kahn (fuel : nat) (dependents : gmap string (list string)) (inDegree : gmap string Z)
    (queue : list string) (visited : Z) : Z :=
  match fuel with
  | O => visited
  | S fuel' =>
      match queue with
      | [] => visited
      | node :: rest =>
          let '(inDegree', queue') :=
            foldl relax (inDegree, rest) (default [] (dependents !! node)) in
          kahn fuel' dependents inDegree' queue' (visited + 1)
      end
  end.

(** Go walks the map of in-degrees in no fixed order; [order] is the order of
    this run. *)
Definition ValidateDependencies (order : list string → list string) (tasks : list Task) : option error :=
  match unknown_ref tasks with
  | Some (id, dep) =>
      Some (rerr ("task " +:+ quote id +:+ " depends on unknown task " +:+ quote dep))
  | None =>
      let '(inDegree, dependents) := build tasks in
      let queue := filter (λ id, degree inDegree id = 0) (order (map_to_list inDegree).*1) in
      let visited := kahn (S (length tasks)) dependents inDegree queue 0 in
      if visited =? Z.of_nat (length tasks) then None
      else Some (rerr "dependency cycle detected among tasks")
  end.

(** ** What the properties speak about *)

(** [dep] is one of [id]'s dependencies; [deps_of] lists them, once per reference. *)
Definition deps_of (tasks : list Task) (id : string) : list string :=
  concat (map DependsOn (filter (λ t, ID t = id) tasks)).

(** Tasks can be ranked so that each comes after everything it depends on. *)
Definition acyclic (tasks : list Task) : Prop :=
  ∃ rank : string → nat, ∀ t dep, t ∈ tasks → dep ∈ DependsOn t → (rank dep < rank (ID t))%nat.

Definition refs_exist (tasks : list Task) : Prop :=
  ∀ t dep, t ∈ tasks → dep ∈ DependsOn t → dep ∈ map ID tasks.

(** Occurrences, and dependencies still outside a set of nodes. *)
Definition occ (x : string) (l : list string) : Z := Z.of_nat (length (filter (λ y, y = x) l)).
Definition outside (V : list string) (l : list string) : Z := Z.of_nat (length (filter (λ y, y ∉ V) l)).

(** ** Lemmas *)
Lemma occ_app x l k : occ x (l ++ k) = occ x l + occ x k.
Proof. unfold occ. rewrite filter_app, length_app. lia. Qed.
Lemma occ_cons x y l : occ x (y :: l) = occ x l + if decide (y = x) then 1 else 0.
Proof. unfold occ. rewrite filter_cons. case_decide; simpl; lia. Qed.
Lemma occ_nonneg x l : 0 <= occ x l.
Proof. unfold occ. lia. Qed.
Lemma outside_nonneg V l : 0 <= outside V l.
Proof. unfold outside. lia. Qed.

Lemma outside_snoc V x l : x ∉ V → outside (V ++ [x]) l = outside V l - occ x l.
Proof.
  intros Hx. unfold outside, occ. induction l as [|y l IH]; [done|].
  rewrite !filter_cons. destruct (decide (y = x)) as [->|Hne].
  - rewrite (decide_False (P := x ∉ V ++ [x])) by (rewrite elem_of_app, list_elem_of_singleton; tauto).
    rewrite (decide_True (P := x ∉ V)) by done. simpl. lia.
  - destruct (decide (y ∉ V)) as [Hy|Hy].
    + rewrite decide_True by (rewrite elem_of_app, list_elem_of_singleton; tauto). simpl. lia.
    + rewrite decide_False by (rewrite elem_of_app, list_elem_of_singleton; tauto). lia.
Qed.

Lemma outside_zero V l : outside V l = 0 ↔ ∀ x, x ∈ l → x ∈ V.
Proof.
  unfold outside. split.
  - intros H x Hx. destruct (decide (x ∈ V)) as [|Hn]; [done|].
    assert (Hf : x ∈ filter (λ y, y ∉ V) l) by by apply list_elem_of_filter.
    destruct (filter (λ y, y ∉ V) l); [by apply elem_of_nil in Hf|simpl in H; lia].
  - intros H. destruct (filter (λ y, y ∉ V) l) as [|x k] eqn:E; [done|].
    assert (Hf : x ∈ filter (λ y, y ∉ V) l) by (rewrite E; by left).
    apply list_elem_of_filter in Hf as [Hn Hx]. exfalso. by apply Hn, H.
Qed.

Lemma deps_of_app ts us id : deps_of (ts ++ us) id = deps_of ts id ++ deps_of us id.
Proof. unfold deps_of. by rewrite filter_app, map_app, concat_app. Qed.

Lemma elem_of_deps_of ts id dep :
  dep ∈ deps_of ts id ↔ ∃ t, t ∈ ts ∧ ID t = id ∧ dep ∈ DependsOn t.
Proof.
  unfold deps_of. induction ts as [|t ts IH]; simpl.
  - split; [by intros ?%elem_of_nil|by intros (t & ?%elem_of_nil & _)].
  - rewrite filter_cons. case_decide as E.
    + simpl. rewrite elem_of_app, IH. split.
      * intros [Hd|(t' & ? & ? & ?)]; [exists t|exists t']; repeat split; try done; [by left|by right].
      * intros (t' & Hin & He & Hd). apply elem_of_cons in Hin as [->|Hin]; [by left|right; by exists t'].
    + rewrite IH. split; intros (t' & Hin & He & Hd).
      * exists t'. repeat split; try done. by right.
      * apply elem_of_cons in Hin as [->|Hin]; [done|by exists t'].
Qed.

(** *** The tables *)
Lemma add_refs_spec id l s :
  let s' := foldl (add_ref id) s l in
  (∀ x, degree s'.1 x = degree s.1 x + if decide (x = id) then Z.of_nat (length l) else 0) ∧
  (∀ x, is_Some (s'.1 !! x) ↔ is_Some (s.1 !! x) ∨ (x = id ∧ l ≠ [])) ∧
  (∀ d x, occ x (default [] (s'.2 !! d)) = occ x (default [] (s.2 !! d)) + if decide (x = id) then occ d l else 0).
Proof.
  revert s. induction l as [|dep l IH]; intros s; cbn [foldl].
  - cbv zeta. split; [intros x; case_decide; simpl; lia|]. split; [intros x; split; [by left|by intros [?|[_ []]]]|].
    intros d x. case_decide; unfold occ; simpl; lia.
  - destruct (IH (add_ref id s dep)) as (H1 & H2 & H3). cbv zeta in *. split; [|split].
    + intros x. rewrite H1. unfold add_ref, degree; simpl. case_decide as E.
      * subst. rewrite lookup_insert_eq. simpl. lia.
      * by rewrite lookup_insert_ne.
    + intros x. rewrite H2. unfold add_ref; simpl. rewrite lookup_insert_is_Some'.
      split; [intros [[->|?]|[-> _]]|intros [?|[-> _]]]; auto.
    + intros d x. rewrite H3. unfold add_ref; simpl. rewrite occ_cons. destruct (decide (dep = d)) as [->|Hne].
      * rewrite lookup_insert_eq. simpl. rewrite occ_app, occ_cons. unfold occ at 2. simpl.
        destruct (decide (id = x)), (decide (x = id)); try congruence; lia.
      * rewrite lookup_insert_ne by done. case_decide; lia.
Qed.

Lemma build_spec tasks :
  let s := build tasks in
  (∀ x, degree s.1 x = Z.of_nat (length (deps_of tasks x))) ∧
  (∀ x, is_Some (s.1 !! x) ↔ x ∈ map ID tasks) ∧
  (∀ d x, occ x (default [] (s.2 !! d)) = occ d (deps_of tasks x)).
Proof.
  unfold build. induction tasks as [|t tasks IH] using rev_ind.
  { cbv zeta. simpl. split; [done|]. split; [|done]. intros x. rewrite lookup_empty.
    split; [by intros []|by intros ?%elem_of_nil]. }
  rewrite foldl_app. cbn [foldl]. set (s := foldl add_task (∅, ∅) tasks) in *. destruct IH as (H1 & H2 & H3).
  unfold add_task. set (s0 := match s.1 !! ID t with Some _ => s | None => _ end).
  assert (Hd0 : ∀ x, degree s0.1 x = degree s.1 x).
  { intros x. unfold s0. destruct (s.1 !! ID t) eqn:E; [done|]. unfold degree; simpl.
    destruct (decide (x = ID t)) as [->|]; [by rewrite lookup_insert_eq, E|by rewrite lookup_insert_ne]. }
  assert (Hk0 : ∀ x, is_Some (s0.1 !! x) ↔ is_Some (s.1 !! x) ∨ x = ID t).
  { intros x. unfold s0. destruct (s.1 !! ID t) eqn:E; simpl.
    - split; [by left|]. intros [? | ->]; [done|]. rewrite E. by eexists.
    - rewrite lookup_insert_is_Some'. split; [intros [->|?]|intros [? | ->]]; auto. }
  assert (Hs2 : s0.2 = s.2) by (unfold s0; by destruct (s.1 !! ID t)).
  destruct (add_refs_spec (ID t) (DependsOn t) s0) as (F1 & F2 & F3). cbv zeta in *.
  assert (Hdt : ∀ x, deps_of [t] x = if decide (x = ID t) then DependsOn t else []).
  { intros x. unfold deps_of. rewrite filter_cons. destruct (decide (ID t = x)), (decide (x = ID t));
      try congruence; simpl; by rewrite ?app_nil_r. }
  split; [|split].
  - intros x. rewrite F1, Hd0, H1, deps_of_app, length_app, Hdt. case_decide; simpl; lia.
  - intros x. rewrite F2, Hk0, H2, map_app, elem_of_app. simpl. rewrite list_elem_of_singleton.
    split; [intros [[? | ->]|[-> _]]|intros [? | ->]]; auto.
  - intros d x. rewrite F3, Hs2, H3, deps_of_app, occ_app, Hdt. case_decide; unfold occ; simpl; lia.
Qed.

(** *** The loop *)
Lemma relax_spec l s :
  (∀ x, occ x l <= degree s.1 x) →
  let s' := foldl relax s l in
  (∀ x, degree s'.1 x = degree s.1 x - occ x l) ∧
  ∃ new, s'.2 = s.2 ++ new ∧ NoDup new ∧ ∀ x, x ∈ new ↔ 0 < occ x l ∧ degree s.1 x = occ x l.
Proof.
  revert s. induction l as [|dep l IH]; intros s Hle; cbn [foldl].
  - cbv zeta. unfold occ. simpl. split; [intros; lia|]. exists []. rewrite app_nil_r.
    split; [done|]. split; [constructor|]. intros x. split; [by intros ?%elem_of_nil|lia].
  - assert (Hd : ∀ x, degree (relax s dep).1 x = degree s.1 x - if decide (dep = x) then 1 else 0).
    { intros x. unfold relax, degree; simpl. case_decide as E.
      - subst. by rewrite lookup_insert_eq.
      - rewrite lookup_insert_ne by done. lia. }
    assert (Hle' : ∀ x, occ x l <= degree (relax s dep).1 x).
    { intros x. rewrite Hd. specialize (Hle x). rewrite occ_cons in Hle. lia. }
    destruct (IH (relax s dep) Hle') as (H1 & new & H2 & H3 & H4). cbv zeta in *. split.
    + intros x. rewrite H1, Hd, occ_cons. lia.
    + pose proof (Hle dep) as Hdep. rewrite occ_cons, decide_True in Hdep by done.
      pose proof (occ_nonneg dep l).
      assert (Hq : (relax s dep).2 = if degree s.1 dep - 1 =? 0 then s.2 ++ [dep] else s.2) by done.
      rewrite Hq in H2. destruct (Z.eqb_spec (degree s.1 dep - 1) 0) as [Hz|Hz].
      * exists (dep :: new). rewrite H2, <- app_assoc. split; [done|].
        assert (Hno : dep ∉ new) by (rewrite H4; lia). split; [by apply NoDup_cons|].
        intros x. rewrite elem_of_cons, H4, Hd, occ_cons. destruct (decide (dep = x)) as [->|Hne].
        -- split; [lia|]. intros _. by left.
        -- rewrite Z.sub_0_r, Z.add_0_r. split; [intros [?|?]; [congruence|done]|by right].
      * exists new. rewrite H2. split; [done|]. split; [done|].
        intros x. rewrite H4, Hd, occ_cons. destruct (decide (dep = x)) as [->|Hne]; [lia|].
        by rewrite Z.sub_0_r, Z.add_0_r.
Qed.

Section Kahn.
Context (tasks : list Task) (dependents : gmap string (list string)).
Hypothesis Hdependents :
  ∀ d x, occ x (default [] (dependents !! d)) = occ d (deps_of tasks x).

(** Visited nodes [V] in topological order, the queue [Q] of the others whose
    dependencies are all visited, and exact remaining in-degrees. *)
Definition kahn_inv (V Q : list string) (deg : gmap string Z) : Prop :=
  NoDup (V ++ Q) ∧
  (∀ x, x ∈ V ++ Q ↔ x ∈ map ID tasks ∧ degree deg x = 0) ∧
  (∀ x, degree deg x = outside V (deps_of tasks x)) ∧
  (∀ V1 x V2, V = V1 ++ x :: V2 → ∀ d, d ∈ deps_of tasks x → d ∈ V1).

Lemma kahn_inv_step V node rest deg :
  kahn_inv V (node :: rest) deg →
  let s := foldl relax (deg, rest) (default [] (dependents !! node)) in
  kahn_inv (V ++ [node]) s.2 s.1.
Proof.
  intros (Hnd & Hin & Hdeg & Htop). cbv zeta.
  set (l := default [] (dependents !! node)).
  assert (HnV : node ∉ V).
  { apply NoDup_app in Hnd as (_ & Hdis & _). intros Hv. apply (Hdis node Hv). by left. }
  assert (Hout : ∀ x, outside (V ++ [node]) (deps_of tasks x) = degree deg x - occ x l).
  { intros x. rewrite outside_snoc by done. unfold l. by rewrite Hdependents, Hdeg. }
  destruct (relax_spec l (deg, rest)) as (H1 & new & H2 & H3 & H4).
  { intros x. simpl. pose proof (outside_nonneg (V ++ [node]) (deps_of tasks x)). rewrite Hout in *. lia. }
  cbn [fst snd] in *. rewrite H2.
  assert (Hocc0 : ∀ x, degree deg x = 0 → occ x l = 0).
  { intros x Hx. pose proof (outside_nonneg (V ++ [node]) (deps_of tasks x)). rewrite Hout in *.
    pose proof (occ_nonneg x l). lia. }
  assert (Hids : ∀ x, 0 < occ x l → x ∈ map ID tasks).
  { intros x Hx. unfold l in Hx. rewrite Hdependents in Hx. unfold occ in Hx.
    destruct (filter (λ y, y = node) (deps_of tasks x)) as [|y k] eqn:E; [simpl in Hx; lia|].
    assert (Hy : y ∈ deps_of tasks x).
    { eapply list_elem_of_filter with (P := λ y, y = node). rewrite E. by left. }
    apply elem_of_deps_of in Hy as (t & Ht & <- & _). apply list_elem_of_fmap. by exists t. }
  assert (Heq : (V ++ [node]) ++ rest ++ new = (V ++ node :: rest) ++ new) by (rewrite <- !app_assoc; done).
  split; [|split; [|split]].
  - rewrite Heq. apply NoDup_app. split; [done|]. split; [|done].
    intros x Hx Hn. apply Hin in Hx as [_ Hx]. apply H4 in Hn as [? _]. rewrite Hocc0 in *; [lia|done].
  - intros x. rewrite Heq, elem_of_app, Hin, H4, H1. split.
    + intros [[? Hx]|[Hx ?]]; [split; [done|]; rewrite Hocc0 by done; lia|]. split; [by apply Hids|lia].
    + intros [Hx Hz]. pose proof (occ_nonneg x l).
      destruct (decide (occ x l = 0)); [left; split; [done|lia]|right; lia].
  - intros x. by rewrite H1, Hout.
  - intros V1 x V2 E d Hd. destruct (decide (V2 = [])) as [->|HV2].
    + apply app_inj_tail in E as [<- <-].
      assert (Hz : outside V (deps_of tasks node) = 0).
      { rewrite <- Hdeg. apply Hin. rewrite elem_of_app. right. by left. }
      by apply (proj1 (outside_zero V _) Hz).
    + destruct (exists_last HV2) as (V3 & y & ->). rewrite app_comm_cons, app_assoc in E.
      apply app_inj_tail in E as [E _]. by apply (Htop V1 x V3).
Qed.

Lemma kahn_spec fuel V Q deg :
  kahn_inv V Q deg → (length tasks < length V + fuel)%nat →
  ∃ V' deg', kahn fuel dependents deg Q (Z.of_nat (length V)) = Z.of_nat (length V') ∧ kahn_inv V' [] deg'.
Proof.
  revert V Q deg. induction fuel as [|fuel IH]; intros V Q deg Hinv Hf.
  - exfalso. destruct Hinv as (Hnd & Hin & _). apply NoDup_app in Hnd as (Hnd & _ & _).
    assert (Hsub : V ⊆+ map ID tasks).
    { apply NoDup_submseteq; [done|]. intros x Hx. apply Hin. rewrite elem_of_app. by left. }
    apply submseteq_length in Hsub. rewrite length_map in Hsub. lia.
  - destruct Q as [|node rest]; [exists V, deg; split; [done|exact Hinv]|].
    cbn [kahn]. pose proof (kahn_inv_step V node rest deg Hinv) as Hs. cbv zeta in Hs.
    destruct (foldl relax (deg, rest) (default [] (dependents !! node))) as [deg' Q'].
    replace (Z.of_nat (length V) + 1) with (Z.of_nat (length (V ++ [node]))) by (rewrite length_app; simpl; lia).
    apply IH; [done|]. rewrite length_app. simpl. lia.
Qed.
End Kahn.

Lemma unknown_ref_none tasks : unknown_ref tasks = None ↔ refs_exist tasks.
Proof.
  assert (Hh : ∀ {A} (l : list A), head l = None ↔ l = []) by (intros A [|]; split; done).
  unfold unknown_ref, refs_exist. rewrite Hh. split.
  - intros H t dep Ht Hd. destruct (decide (dep ∈ map ID tasks)) as [|Hno]; [done|]. exfalso.
    destruct (head (filter (λ dep, dep ∉ task_ids tasks) (DependsOn t))) as [x|] eqn:E.
    + assert (Hx : (ID t, x) ∈ omap (λ t, pair (ID t) <$> head (filter (λ dep, dep ∉ task_ids tasks) (DependsOn t))) tasks).
      { apply list_elem_of_omap. exists t. by rewrite E. }
      rewrite H in Hx. by apply elem_of_nil in Hx.
    + apply Hh in E. assert (Hx : dep ∈ filter (λ dep, dep ∉ task_ids tasks) (DependsOn t)).
      { apply list_elem_of_filter. split; [|done]. unfold task_ids. by rewrite elem_of_list_to_set. }
      rewrite E in Hx. by apply elem_of_nil in Hx.
  - intros H. destruct (omap _ tasks) as [|p l] eqn:E; [done|]. exfalso.
    assert (Hp : p ∈ omap (λ t, pair (ID t) <$> head (filter (λ dep, dep ∉ task_ids tasks) (DependsOn t))) tasks).
    { rewrite E. by left. }
    apply list_elem_of_omap in Hp as (t & Ht & Hp). apply fmap_Some in Hp as (x & Hx & _).
    apply head_Some_elem_of, list_elem_of_filter in Hx as [Hno Hx]. apply Hno. unfold task_ids.
    rewrite elem_of_list_to_set. by apply (H t).
Qed.

(** The position of a node in a list. *)
Fixpoint position (x : string) (l : list string) : nat :=
  match l with
  | [] => 0
  | y :: l' => if decide (y = x) then 0 else S (position x l')
  end.

Lemma position_app_l x l k : x ∈ l → (position x (l ++ k) < length l)%nat.
Proof.
  induction l as [|y l IH]; intros Hx; [by apply elem_of_nil in Hx|]. simpl. case_decide; [lia|].
  apply elem_of_cons in Hx as [?|Hx]; [congruence|]. specialize (IH Hx). lia.
Qed.

Lemma position_mid x l k : x ∉ l → position x (l ++ x :: k) = length l.
Proof.
  induction l as [|y l IH]; intros Hx; simpl; [by rewrite decide_True|].
  rewrite decide_False by (intros ->; apply Hx; by left). f_equal. apply IH. intros ?. apply Hx. by right.
Qed.

(** Kahn's algorithm against its specification. *)
Lemma validation_spec order tasks :
  (∀ l, order l ≡ₚ l) → NoDup (map ID tasks) →
  ValidateDependencies order tasks = None ↔ refs_exist tasks ∧ acyclic tasks.
Proof.
  intros Hord Hnd. unfold ValidateDependencies. destruct (unknown_ref tasks) as [[id dep]|] eqn:Hu.
  { split; [done|]. intros [Hr _]. apply unknown_ref_none in Hr. congruence. }
  apply unknown_ref_none in Hu as Hrefs.
  destruct (build_spec tasks) as (B1 & B2 & B3). destruct (build tasks) as [deg dependents]. cbn [fst snd] in *.
  set (Q := filter (λ id, degree deg id = 0) (order (map_to_list deg).*1)).
  assert (Hinv : kahn_inv tasks [] Q deg).
  { split; [|split; [|split]].
    - apply NoDup_filter. rewrite Hord. apply NoDup_fst_map_to_list.
    - intros x. simpl. unfold Q. rewrite list_elem_of_filter, Hord, <- B2. split.
      + intros [? H]. split; [|done]. apply list_elem_of_fmap in H as ([y n] & -> & H).
        apply elem_of_map_to_list in H. by exists n.
      + intros [[n H] ?]. split; [done|]. apply list_elem_of_fmap. exists (x, n).
        split; [done|]. by apply elem_of_map_to_list.
    - intros x. rewrite B1. unfold outside. f_equal. f_equal. symmetry. apply filter_all.
      intros y _. apply not_elem_of_nil.
    - intros V1 x V2 E. by destruct V1. }
  destruct (kahn_spec tasks dependents B3 (S (length tasks)) [] Q deg Hinv) as (V & deg' & Hk & Hnd' & Hin & Hdeg & Htop);
    [simpl; lia|].
  rewrite app_nil_r in Hnd', Hin. cbn [length] in Hk. change (Z.of_nat 0) with 0 in Hk. rewrite Hk.
  assert (Hsub : V ⊆+ map ID tasks) by (apply NoDup_submseteq; [done|]; intros x Hx; by apply Hin).
  destruct (Z.eqb_spec (Z.of_nat (length V)) (Z.of_nat (length tasks))) as [Hl|Hl].
  - split; [|done]. intros _. split; [done|].
    assert (Hp : V ≡ₚ map ID tasks) by (apply submseteq_length_Permutation; [done|rewrite length_map; lia]).
    exists (λ x, position x V). intros t dep Ht Hd.
    assert (Hv : ID t ∈ V) by (rewrite Hp; apply list_elem_of_fmap; by exists t).
    apply list_elem_of_split in Hv as (V1 & V2 & E).
    assert (HdV : dep ∈ V1).
    { apply (Htop V1 (ID t) V2 E). apply elem_of_deps_of. by exists t. }
    rewrite E, position_mid; [by apply position_app_l|].
    rewrite E in Hnd'. apply NoDup_app in Hnd' as (_ & Hdis & _). intros Hx. apply (Hdis _ Hx). by left.
  - split; [done|]. intros [_ [rank Hrank]]. exfalso. apply Hl. f_equal.
    rewrite <- (length_map ID tasks). apply Permutation_length, NoDup_Permutation; [done|done|].
    assert (Hall : ∀ n x, (rank x < n)%nat → x ∈ map ID tasks → x ∈ V).
    { induction n as [|n IH]; intros x Hx Hid; [lia|]. apply Hin. split; [done|]. rewrite Hdeg.
      apply outside_zero. intros d Hd. apply elem_of_deps_of in Hd as (t & Ht & <- & Hd).
      apply IH; [pose proof (Hrank t d Ht Hd); lia|by apply (Hrefs t)]. }
    intros x. split; [by intros Hx; apply Hin|]. intros Hx. by apply (Hall (S (rank x))); [lia|].
Qed.

(** C9.  Kahn's algorithm is right, whatever order the map is walked in: for
    tasks with distinct identifiers, validation succeeds exactly when every
    reference names a task and the tasks can be ranked so that each comes after
    its dependencies. *)
Theorem ValidateDependencies_correct order tasks :
  (∀ l, order l ≡ₚ l) → NoDup (map ID tasks) →
  ValidateDependencies order tasks = None ↔ refs_exist tasks ∧ acyclic tasks.
Proof. apply validation_spec. Qed.

(** Tasks that come after everything they depend on are accepted. *)
Lemma ordered_tasks_accepted order tasks :
  (∀ l, order l ≡ₚ l) → NoDup (map ID tasks) →
  (∀ l t k dep, tasks = l ++ t :: k → dep ∈ DependsOn t → dep ∈ map ID l) →
  ValidateDependencies order tasks = None.
Proof.
  intros Hord Hnd H. apply validation_spec; [done|done|]. split.
  - intros t dep Ht Hd. apply list_elem_of_split in Ht as (l & k & ->). rewrite map_app. apply elem_of_app. left. by eapply H.
  - exists (λ x, position x (map ID tasks)). intros t dep Ht Hd. apply list_elem_of_split in Ht as (l & k & E).
    pose proof (H l t k dep E Hd) as Hl. rewrite E, map_app in *. cbn [map].
    rewrite position_mid; [by apply position_app_l|]. apply NoDup_app in Hnd as (_ & Hdis & _). intros Hx. apply (Hdis _ Hx). by left.
Qed.

(** Duplicate identifiers are reported as a cycle: two independent tasks
    with the same identifier fail validation. *)
Theorem duplicate_ids_reported_as_cycle order id d1 d2 :
  (∀ l, order l ≡ₚ l) →
  ValidateDependencies order [
    {| ID := id; TaskDescription := d1; Done := false; DependsOn := [] |};
    {| ID := id; TaskDescription := d2; Done := false; DependsOn := [] |}] =
  Some (rerr "dependency cycle detected among tasks").
Proof.
  intros Hord. unfold ValidateDependencies. assert (unknown_ref [
    {| ID := id; TaskDescription := d1; Done := false; DependsOn := [] |};
    {| ID := id; TaskDescription := d2; Done := false; DependsOn := [] |}] = None) as -> by done.
  assert (build [
    {| ID := id; TaskDescription := d1; Done := false; DependsOn := [] |};
    {| ID := id; TaskDescription := d2; Done := false; DependsOn := [] |}] = (<[id := 0]> ∅, ∅)) as ->.
  { unfold build, add_task. cbn [foldl ID DependsOn fst snd]. rewrite lookup_empty.
    cbn [fst snd]. by rewrite lookup_insert_eq. }
  rewrite insert_empty, map_to_list_singleton. simpl.
  assert (order [id] = [id]) as -> by (apply Permutation_singleton_r; by rewrite Hord).
  rewrite filter_cons_True by (unfold degree; by rewrite lookup_singleton_eq). simpl.
  by rewrite lookup_empty.
Qed.

(** The ready list is sound and complete, and never stalls: it holds exactly
    the unfinished tasks whose dependencies are completed, and for a valid
    dependency graph in which the tasks marked done are also recorded as
    completed, it is empty only when every task is finished. *)
Theorem ReadyTasks_progress tasks completed :
  (∀ id, id ∈ ReadyTasks tasks completed ↔
     ∃ t, t ∈ tasks ∧ ID t = id ∧ Done t = false ∧ is_completed completed id = false ∧
          ∀ dep, dep ∈ DependsOn t → is_completed completed dep = true) ∧
  (refs_exist tasks → acyclic tasks →
   (∀ t, t ∈ tasks → Done t = true → is_completed completed (ID t) = true) →
   ReadyTasks tasks completed = [] → ∀ t, t ∈ tasks → is_completed completed (ID t) = true).
Proof.
  assert (Hspec : ∀ id, id ∈ ReadyTasks tasks completed ↔
     ∃ t, t ∈ tasks ∧ ID t = id ∧ Done t = false ∧ is_completed completed id = false ∧
          ∀ dep, dep ∈ DependsOn t → is_completed completed dep = true).
  { intros id. unfold ReadyTasks. rewrite list_elem_of_omap. split.
    - intros (t & Ht & H). exists t. destruct (Done t) eqn:Hd; [done|]. simpl in H.
      destruct (is_completed completed (ID t)) eqn:Hc; [done|].
      destruct (forallb _ _) eqn:Hf; [|done]. injection H as <-. repeat split; try done.
      intros dep Hdep. rewrite forallb_forall in Hf. apply Hf. by apply list_elem_of_In.
    - intros (t & Ht & <- & Hd & Hc & Hdeps). exists t. split; [done|]. rewrite Hd, Hc. simpl.
      assert (forallb (is_completed completed) (DependsOn t) = true) as ->; [|done].
      apply forallb_forall. intros dep Hdep. apply Hdeps. by apply list_elem_of_In. }
  split; [exact Hspec|]. intros Hrefs [rank Hrank] Hdone Hempty.
  assert (Hall : ∀ n t, t ∈ tasks → (rank (ID t) < n)%nat → is_completed completed (ID t) = true).
  { induction n as [|n IH]; intros t Ht Hn; [lia|].
    destruct (is_completed completed (ID t)) eqn:Hc; [done|]. exfalso.
    assert (Hr : ID t ∈ ReadyTasks tasks completed); [|rewrite Hempty in Hr; by apply elem_of_nil in Hr].
    apply Hspec. exists t. split; [done|]. split; [done|]. split.
    { destruct (Done t) eqn:E; [|done]. rewrite (Hdone t Ht E) in Hc. done. }
    split; [done|]. intros dep Hd. pose proof (Hrefs t dep Ht Hd) as Hid.
    apply list_elem_of_fmap in Hid as (u & -> & Hu). apply (IH u Hu).
    pose proof (Hrank t (ID u) Ht Hd). lia. }
  intros t Ht. by apply (Hall (S (rank (ID t)))); [done|lia].
Qed.

(** A task marked done in the specification but not recorded as completed
    blocks its dependents for ever: nothing is ready, and nothing can be. *)
Theorem done_flag_blocks_dependents :
  let tasks := [ {| ID := "a"; TaskDescription := ""; Done := true; DependsOn := [] |};
                 {| ID := "b"; TaskDescription := ""; Done := false; DependsOn := ["a"] |} ] in
  ValidateDependencies id tasks = None ∧ ReadyTasks tasks ∅ = [].
Proof. vm_compute. done. Qed.

(** ** Witnesses *)
Definition diamond : list Task := [
  {| ID := "a"; TaskDescription := ""; Done := false; DependsOn := [] |};
  {| ID := "b"; TaskDescription := ""; Done := false; DependsOn := ["a"] |};
  {| ID := "c"; TaskDescription := ""; Done := false; DependsOn := ["a"; "b"] |}].

Lemma ValidateDependencies_correct_witness : refs_exist diamond ∧ acyclic diamond.
Proof.
  apply (ValidateDependencies_correct id diamond).
  - intros l. reflexivity.
  - apply (bool_decide_unpack _). vm_compute. exact I.
  - vm_compute. reflexivity.
Defined.

Lemma duplicate_ids_reported_as_cycle_witness :
  ValidateDependencies id [
    {| ID := "a"; TaskDescription := "x"; Done := false; DependsOn := [] |};
    {| ID := "a"; TaskDescription := "y"; Done := false; DependsOn := [] |}] =
  Some (rerr "dependency cycle detected among tasks").
Proof. apply (duplicate_ids_reported_as_cycle id). intros l. reflexivity. Defined.
