(* ===== verification/LoopGuards.v ===== *)
(** The guards of the autonomous loop (src/ralph/stuckdetect.go,
    src/ralph/costgovernor.go, src/ralph/circuitbreaker.go): what decides that an
    agent is stuck, spends too much or makes no progress.  The mutexes are the
    atomicity of each operation; [float64] is IEEE binary64 ([SpecFloat]);
    [TrimSpace] and [ToLower] are those of ASCII text. *)

From stdpp Require Import base tactics list sets strings pretty.
From Stdlib Require Import ZArith Lia.
From S2P Require Import Prelude.

Local Open Scope Z_scope.

(** ** Stuck-loop detection (stuckdetect.go) *)
Record IterationLog := {
  il_Iteration : Z;
  il_TaskID : string;
  il_ToolCalls : list string;
  il_Result : string;
  il_Timestamp : time
}.

Inductive StuckPattern := StuckRepeatedTool | StuckRepeatedError | StuckNoProgress.

#[export] Instance StuckPattern_eq_dec : EqDecision StuckPattern.
Proof. solve_decision. Defined.

Record StuckSignal := { Pattern : StuckPattern; Detail : string; Suggestion : string }.
Record StuckDetector := { Threshold : Z }.

Definition NewStuckDetector (threshold : Z) : StuckDetector :=
  {| Threshold := if threshold <=? 0 then 3 else threshold |}.

Definition toolKey (entry : IterationLog) : string :=
  match il_ToolCalls entry with [] => "" | calls => join "+" calls end.

(** [strings.TrimSpace] and [strings.TrimRight(s, cutset)] for one byte. *)
Fixpoint trim_left (p : Ascii.ascii → bool) (s : string) : string :=
  match s with
  | EmptyString => EmptyString
  | String a s' => if p a then trim_left p s' else s
  end.
Fixpoint trim_right (p : Ascii.ascii → bool) (s : string) : string :=
  match s with
  | EmptyString => EmptyString
  | String a s' =>
      match trim_right p s' with
      | EmptyString => if p a then EmptyString else String a EmptyString
      | t => String a t
      end
  end.
Definition TrimSpace (s : string) : string := trim_right is_space (trim_left is_space s).

Definition normalizeError (result : string) : string :=
  let s := TrimSpace result in
  let s := if 120 <? bytes s then string_take 120 s else s in
  to_lower s.

Definition truncateStr (s : string) (maxLen : Z) : string :=
  if bytes s <=? maxLen then s
  else trim_right (λ a, bool_decide (a = Ascii.ascii_of_nat 32))
         (string_take (Z.to_nat (maxLen - 3)) s) +:+ "...".

(** prompt.go *)
Definition errorSignals : list string :=
  ["error"; "not found"; "blocked"; "parse error"; "no tool specified"; "budget exceeded"].
Definition isErrorResult (result : string) : bool :=
  let lower := to_lower result in
  existsb (λ sig, contains sig lower) errorSignals.

Definition repeated_tool_signal (first : string) (threshold : Z) : StuckSignal := {|
  Pattern := StuckRepeatedTool;
  Detail := "tool call " +:+ quote first +:+ " repeated " +:+ itoa threshold +:+ " times";
  Suggestion := "You have called " +:+ quote first +:+ " with the same arguments " +:+
    itoa threshold +:+ " times in a row. " +:+
    "Try a different tool, different arguments, or re-read the error output to understand what went wrong." |}.

(** The slice [tail[len(tail)-Threshold:]] is not empty: a threshold is positive. *)
Definition checkRepeatedTool (d : StuckDetector) (tail : list IterationLog) : option StuckSignal :=
  if Z.of_nat (length tail) <? Threshold d then None else
  match last_n (Z.to_nat (Threshold d)) tail with
  | [] => None
  | entry :: rest =>
      let first := toolKey entry in
      if bool_decide (first = "") then None
      else if forallb (λ e, bool_decide (toolKey e = first)) rest
           then Some (repeated_tool_signal first (Threshold d))
           else None
  end.

Definition repeated_error_signal (firstErr : string) (threshold : Z) : StuckSignal := {|
  Pattern := StuckRepeatedError;
  Detail := "error " +:+ quote (truncateStr firstErr 80) +:+ " repeated " +:+ itoa threshold +:+ " times";
  Suggestion := "The same error has occurred " +:+ itoa threshold +:+ " times in a row. " +:+
    "Your current approach is not working. Try: (1) read the target file first, " +:+
    "(2) use a completely different strategy, (3) skip this task and try another." |}.

(** The loop over [recent]: [None] is its early [return nil]. *)
Fixpoint same_error (firstErr : string) (recent : list IterationLog) : option string :=
  match recent with
  | [] => Some firstErr
  | entry :: rest =>
      if negb (isErrorResult (il_Result entry)) then None else
      let normalized := normalizeError (il_Result entry) in
      if bool_decide (firstErr = "") then same_error normalized rest
      else if bool_decide (normalized = firstErr) then same_error firstErr rest
      else None
  end.

Definition checkRepeatedError (d : StuckDetector) (tail : list IterationLog) : option StuckSignal :=
  if Z.of_nat (length tail) <? Threshold d then None else
  match same_error "" (last_n (Z.to_nat (Threshold d)) tail) with
  | None => None
  | Some firstErr =>
      if bool_decide (firstErr = "") then None
      else Some (repeated_error_signal firstErr (Threshold d))
  end.

Definition no_progress_signal (firstTask : string) (n : Z) : StuckSignal := {|
  Pattern := StuckNoProgress;
  Detail := "task " +:+ quote firstTask +:+ " worked on for " +:+ itoa n +:+
    " iterations without completion";
  Suggestion := "Task " +:+ quote firstTask +:+ " has been in progress for " +:+ itoa n +:+
    " iterations without being marked done. " +:+
    "Either: (1) the task is complete — set mark_done=true, " +:+
    "(2) you're blocked — try a different approach, " +:+
    "(3) the task is too large — break it into smaller steps." |}.

Definition checkNoProgress (d : StuckDetector) (tail : list IterationLog) : option StuckSignal :=
  let noProgressThreshold := Threshold d + 2 in
  if Z.of_nat (length tail) <? noProgressThreshold then None else
  match last_n (Z.to_nat noProgressThreshold) tail with
  | [] => None
  | entry :: rest =>
      let firstTask := il_TaskID entry in
      if bool_decide (firstTask = "") then None
      else if forallb (λ e, bool_decide (il_TaskID e = firstTask)) rest
           then Some (no_progress_signal firstTask noProgressThreshold)
           else None
  end.

Definition StuckDetector_Check (d : StuckDetector) (log : list IterationLog) : option StuckSignal :=
  if Z.of_nat (length log) <? Threshold d then None else
  let tail := if Threshold d * 2 <? Z.of_nat (length log)
              then last_n (Z.to_nat (Threshold d * 2)) log else log in
  match checkRepeatedTool d tail with
  | Some sig => Some sig
  | None =>
      match checkRepeatedError d tail with
      | Some sig => Some sig
      | None => checkNoProgress d tail
      end
  end.

(** ** The cost governor (costgovernor.go) *)
Record CostVerdict := { Action : string; Warning : string }.

Record CostGovernorConfig := {
  HardBudgetTokens : Z;
  VelocityWindow : Z;
  VelocityAlarmRate : float64;
  UnproductiveMax : Z
}.

Definition DefaultCostGovernorConfig : CostGovernorConfig := {|
  HardBudgetTokens := 0; VelocityWindow := 5; VelocityAlarmRate := float_zero;
  UnproductiveMax := 3 |}.

Record iterationRecord := { r_tokens : Z; productive : bool }.

Record CostGovernor := {
  cg_config : CostGovernorConfig;
  totalTokens : Z;
  history : list iterationRecord;
  unproductiveStreak : Z
}.

Definition NewCostGovernor (cfg : CostGovernorConfig) : CostGovernor := {|
  cg_config := {|
    HardBudgetTokens := HardBudgetTokens cfg;
    VelocityWindow := if VelocityWindow cfg <=? 0 then 5 else VelocityWindow cfg;
    VelocityAlarmRate := VelocityAlarmRate cfg;
    UnproductiveMax := if UnproductiveMax cfg <=? 0 then 3 else UnproductiveMax cfg |};
  totalTokens := 0; history := []; unproductiveStreak := 0 |}.

Definition RecordIteration (cg : CostGovernor) (r : iterationRecord) : CostGovernor := {|
  cg_config := cg_config cg;
  totalTokens := add64 (totalTokens cg) (r_tokens r);
  history := history cg ++ [r];
  unproductiveStreak := if productive r then 0 else add64 (unproductiveStreak cg) 1 |}.

Definition formatHaltBudget (used limit : Z) : string :=
  "hard token budget exceeded: used " +:+ itoa used +:+ " of " +:+ itoa limit.
Definition formatHaltStreak (streak : Z) : string :=
  "unproductive streak of " +:+ itoa streak +:+ " iterations; halting to avoid waste".
Definition formatDowngradeVelocity (unproductive window : Z) (rate : float64) : string :=
  "velocity alarm: " +:+ itoa unproductive +:+ "/" +:+ itoa window +:+
  " recent iterations unproductive (" +:+
  itoa (int_of_float (float_mul rate (float_of_int 100))) +:+ "%)".

Definition unproductive_in (window : list iterationRecord) : Z :=
  Z.of_nat (length (filter (λ r, productive r = false) window)).

Definition CostGovernor_Check (cg : CostGovernor) : CostVerdict :=
  let cfg := cg_config cg in
  if (0 <? HardBudgetTokens cfg) && (HardBudgetTokens cfg <=? totalTokens cg) then
    {| Action := "halt"; Warning := formatHaltBudget (totalTokens cg) (HardBudgetTokens cfg) |}
  else if UnproductiveMax cfg <=? unproductiveStreak cg then
    {| Action := "halt"; Warning := formatHaltStreak (unproductiveStreak cg) |}
  else if float_lt float_zero (VelocityAlarmRate cfg) &&
          (VelocityWindow cfg <=? Z.of_nat (length (history cg))) then
    let window := last_n (Z.to_nat (VelocityWindow cfg)) (history cg) in
    let unproductive := unproductive_in window in
    let rate := float_div (float_of_int unproductive) (float_of_int (VelocityWindow cfg)) in
    if float_le (VelocityAlarmRate cfg) rate then
      {| Action := "downgrade";
         Warning := formatDowngradeVelocity unproductive (VelocityWindow cfg) rate |}
    else {| Action := "ok"; Warning := "" |}
  else {| Action := "ok"; Warning := "" |}.

(** ** The loop's circuit breaker (circuitbreaker.go) *)
Inductive CircuitState := CircuitClosed | CircuitHalfOpen | CircuitOpen.

#[export] Instance CircuitState_eq_dec : EqDecision CircuitState.
Proof. solve_decision. Defined.

Record CircuitBreakerConfig := {
  NoProgressThreshold : Z;
  SameErrorThreshold : Z;
  CooldownDuration : duration
}.

Definition DefaultCircuitBreakerConfig : CircuitBreakerConfig :=
  {| NoProgressThreshold := 3; SameErrorThreshold := 5; CooldownDuration := 30 * Minute |}.

Record CircuitBreaker := {
  cb_config : CircuitBreakerConfig;
  cb_state : CircuitState;
  noProgressCount : Z;
  sameErrorCount : Z;
  lastErrorKey : string;
  openedAt : time;
  openReason : string
}.

Definition NewCircuitBreaker (cfg : CircuitBreakerConfig) : CircuitBreaker := {|
  cb_config := {|
    NoProgressThreshold := if NoProgressThreshold cfg <=? 0
      then NoProgressThreshold DefaultCircuitBreakerConfig else NoProgressThreshold cfg;
    SameErrorThreshold := if SameErrorThreshold cfg <=? 0
      then SameErrorThreshold DefaultCircuitBreakerConfig else SameErrorThreshold cfg;
    CooldownDuration := if CooldownDuration cfg <=? 0
      then CooldownDuration DefaultCircuitBreakerConfig else CooldownDuration cfg |};
  cb_state := CircuitClosed; noProgressCount := 0; sameErrorCount := 0; lastErrorKey := "";
  openedAt := time_zero; openReason := "" |}.

Definition set_cb_state (s : CircuitState) (cb : CircuitBreaker) : CircuitBreaker := {|
  cb_config := cb_config cb; cb_state := s; noProgressCount := noProgressCount cb;
  sameErrorCount := sameErrorCount cb; lastErrorKey := lastErrorKey cb;
  openedAt := openedAt cb; openReason := openReason cb |}.

Definition set_counts (np se : Z) (key : string) (cb : CircuitBreaker) : CircuitBreaker := {|
  cb_config := cb_config cb; cb_state := cb_state cb; noProgressCount := np;
  sameErrorCount := se; lastErrorKey := key; openedAt := openedAt cb;
  openReason := openReason cb |}.

Definition CanExecute (cb : CircuitBreaker) (now : time) : bool * CircuitBreaker :=
  match cb_state cb with
  | CircuitOpen =>
      if CooldownDuration (cb_config cb) <=? time_sub now (openedAt cb)
      then (true, set_cb_state CircuitHalfOpen cb)
      else (false, cb)
  | _ => (true, cb)
  end.

Definition CooldownRemaining (cb : CircuitBreaker) (now : time) : duration :=
  match cb_state cb with
  | CircuitOpen =>
      let remaining := wrap64 (CooldownDuration (cb_config cb) - time_sub now (openedAt cb)) in
      if remaining <? 0 then 0 else remaining
  | _ => 0
  end.

Definition trip (reason : string) (now : time) (cb : CircuitBreaker) : CircuitBreaker := {|
  cb_config := cb_config cb; cb_state := CircuitOpen; noProgressCount := noProgressCount cb;
  sameErrorCount := sameErrorCount cb; lastErrorKey := lastErrorKey cb;
  openedAt := now; openReason := reason |}.

Definition RecordResult (cb : CircuitBreaker) (now : time) (hasProgress : bool) (errorKey : string) :
    CircuitBreaker :=
  if hasProgress then
    let cb := set_counts 0 0 "" cb in
    match cb_state cb with CircuitHalfOpen => set_cb_state CircuitClosed cb | _ => cb end
  else
    let np := add64 (noProgressCount cb) 1 in
    let '(se, key) :=
      if bool_decide (errorKey ≠ "") then
        if bool_decide (errorKey = lastErrorKey cb)
        then (add64 (sameErrorCount cb) 1, lastErrorKey cb)
        else (1, errorKey)
      else (0, "") in
    let cb := set_counts np se key cb in
    if NoProgressThreshold (cb_config cb) <=? noProgressCount cb then
      trip ("no progress for " +:+ itoa (noProgressCount cb) +:+ " consecutive iterations") now cb
    else if bool_decide (errorKey ≠ "") && (SameErrorThreshold (cb_config cb) <=? sameErrorCount cb) then
      trip ("same error " +:+ quote errorKey +:+ " repeated " +:+ itoa (sameErrorCount cb) +:+ " times")
        now cb
    else match cb_state cb with
         | CircuitHalfOpen => trip "probe iteration failed in half-open state" now cb
         | _ => cb
         end.

Definition CircuitBreaker_Reset (cb : CircuitBreaker) : CircuitBreaker := {|
  cb_config := cb_config cb; cb_state := CircuitClosed; noProgressCount := 0; sameErrorCount := 0;
  lastErrorKey := ""; openedAt := time_zero; openReason := "" |}.

Definition OpenReason (cb : CircuitBreaker) : string :=
  match cb_state cb with CircuitClosed => "" | _ => openReason cb end.

(** One iteration as the loop uses the breaker: ask, run, record.  [started] is
    when it asks and [ended] when the result is recorded. *)
Record attempt := { started : time; ended : time; progressed : bool; key : string }.

Definition run_attempt (cb : CircuitBreaker) (a : attempt) : bool * CircuitBreaker :=
  let '(ok, cb) := CanExecute cb (started a) in
  if ok then (true, RecordResult cb (ended a) (progressed a) (key a)) else (false, cb).

(** The number of iterations that ran, and the breaker afterwards. *)
Fixpoint run_attempts (cb : CircuitBreaker) (l : list attempt) : Z * CircuitBreaker :=
  match l with
  | [] => (0, cb)
  | a :: l' =>
      let '(ok, cb1) := run_attempt cb a in
      let '(n, cb2) := run_attempts cb1 l' in
      ((if ok then 1 else 0) + n, cb2)
  end.

(** Attempts in time order, from [lo] to [hi]. *)
Fixpoint ordered_between (lo hi : time) (l : list attempt) : Prop :=
  match l with
  | [] => lo <= hi
  | a :: l' => lo <= started a <= ended a ∧ ordered_between (ended a) hi l'
  end.

(** ** The specification of the stuck detector *)
Definition all_same {A} (f : A → string) (l : list A) : Prop :=
  ∃ k, k ≠ "" ∧ ∀ x, x ∈ l → f x = k.

Definition stuck_on_tool (t : Z) (log : list IterationLog) : Prop :=
  t <= Z.of_nat (length log) ∧ all_same toolKey (last_n (Z.to_nat t) log).

Definition stuck_on_error (t : Z) (log : list IterationLog) : Prop :=
  t <= Z.of_nat (length log) ∧
  (∀ e, e ∈ last_n (Z.to_nat t) log → isErrorResult (il_Result e) = true) ∧
  all_same (λ e, normalizeError (il_Result e)) (last_n (Z.to_nat t) log).

Definition stuck_on_task (t : Z) (log : list IterationLog) : Prop :=
  t + 2 <= Z.of_nat (length log) ∧ t + 2 <= 2 * t ∧
  all_same il_TaskID (last_n (Z.to_nat (t + 2)) log).

(** ** Lemmas *)
Definition breaker_inv (cb : CircuitBreaker) (now : time) (n : Z) : Prop :=
  0 < NoProgressThreshold (cb_config cb) ∧ 0 < CooldownDuration (cb_config cb) ∧
  openedAt cb <= now ∧ 0 <= noProgressCount cb <= n ∧
  (cb_state cb = CircuitClosed → noProgressCount cb < NoProgressThreshold (cb_config cb)).

Lemma NewCircuitBreaker_inv cfg now : 0 <= now → breaker_inv (NewCircuitBreaker cfg) now 0.
Proof.
  intros. unfold breaker_inv, NewCircuitBreaker, time_zero. simpl.
  unfold Minute, Second. repeat case_match; to_prop; lia.
Qed.

Lemma breaker_inv_mono cb t t' n n' : breaker_inv cb t n → t <= t' → n <= n' → breaker_inv cb t' n'.
Proof. unfold breaker_inv. intros (?&?&?&?&?) ??. split_and!; try done; lia. Qed.

Lemma CanExecute_config cb now : cb_config (CanExecute cb now).2 = cb_config cb.
Proof. unfold CanExecute. by repeat case_match. Qed.

Lemma RecordResult_config cb now p k : cb_config (RecordResult cb now p k) = cb_config cb.
Proof. unfold RecordResult. by repeat case_match. Qed.

Lemma cooldown_elapsed c now opened : 0 < c → c <= time_sub now opened → opened + c <= now.
Proof. unfold time_sub, clamp64, min_int64, max_int64. lia. Qed.

(** How many more iterations without progress can run before [hi]. *)
Definition budget (cb : CircuitBreaker) (hi : time) : Z :=
  match cb_state cb with
  | CircuitClosed => NoProgressThreshold (cb_config cb) - noProgressCount cb
  | CircuitHalfOpen => 1
  | CircuitOpen => if openedAt cb + CooldownDuration (cb_config cb) <=? hi then 1 else 0
  end.

Lemma RecordResult_inv cb now n p k :
  breaker_inv cb now n → n < max_int64 → breaker_inv (RecordResult cb now p k) now (n + 1).
Proof.
  intros (HT & HC & Ho & Hn & Hc) Hmax. unfold RecordResult.
  assert (Ha : add64 (noProgressCount cb) 1 = noProgressCount cb + 1)
    by (apply add64_id; unfold in64, min_int64; lia).
  destruct p; unfold breaker_inv, trip, set_counts, set_cb_state;
    repeat case_match; simpl in *; to_prop; simplify_eq; try rewrite Ha in *;
    split_and!; try done; try lia; try (intros; lia).
Qed.

Lemma CanExecute_inv cb now t n : breaker_inv cb t n → breaker_inv (CanExecute cb now).2 t n.
Proof.
  intros (HT & HC & Ho & Hn & Hc). unfold CanExecute, breaker_inv, set_cb_state.
  destruct (cb_state cb) eqn:E; [..|case_match]; simpl; rewrite ?E;
    split_and!; auto; done || lia.
Qed.

Lemma RecordResult_budget cb now hi n k :
  breaker_inv cb now n → n < max_int64 → cb_state cb ≠ CircuitOpen →
  hi < now + CooldownDuration (cb_config cb) →
  0 <= budget (RecordResult cb now false k) hi <= budget cb hi - 1.
Proof.
  intros (HT & HC & Ho & Hn & Hc) Hmax Hs Hhi.
  assert (Ha : add64 (noProgressCount cb) 1 = noProgressCount cb + 1)
    by (apply add64_id; unfold in64, min_int64; lia).
  unfold RecordResult, budget, trip, set_counts; destruct (cb_state cb) eqn:E; try done;
    try specialize (Hc eq_refl);
    repeat (case_match; simpl in * ); simplify_eq; to_prop; try rewrite Ha in *; try lia; try congruence.
Qed.

#[local] Arguments RecordResult : simpl never.
#[local] Arguments budget : simpl never.

Lemma run_attempt_budget cb a lo hi n :
  breaker_inv cb lo n → n < max_int64 → lo <= started a <= ended a → ended a <= hi →
  progressed a = false → hi < lo + CooldownDuration (cb_config cb) →
  ((run_attempt cb a).1 = true →
    0 <= budget (run_attempt cb a).2 hi <= budget cb hi - 1) ∧
  ((run_attempt cb a).1 = false → (run_attempt cb a).2 = cb).
Proof.
  intros Hinv Hmax Ht Hhi Hp Hc. unfold run_attempt. rewrite Hp.
  assert (Hinv' : breaker_inv cb (ended a) n) by (eapply breaker_inv_mono; [done|lia..]).
  assert (HC := Hinv). destruct HC as (_ & HC & _).
  unfold CanExecute. destruct (cb_state cb) eqn:E;
    [| |destruct (CooldownDuration (cb_config cb) <=? _) eqn:Ec]; simpl; split; try done; intros _.
  - apply (RecordResult_budget cb _ _ n); [done..|congruence|lia].
  - apply (RecordResult_budget cb _ _ n); [done..|congruence|lia].
  - apply Z.leb_le, cooldown_elapsed in Ec; [|done].
    assert (budget cb hi = 1) as ->.
    { unfold budget. rewrite E. case_match; [done|]. to_prop. lia. }
    replace (1 - 1) with (budget (set_cb_state CircuitHalfOpen cb) hi - 1) by done.
    apply (RecordResult_budget _ _ _ n); [|done..|simpl; lia].
    pose proof (CanExecute_inv cb (ended a) _ n Hinv') as Hi. unfold breaker_inv in *.
    simpl. naive_solver.
Qed.

Lemma run_attempt_inv cb a lo n :
  breaker_inv cb lo n → n < max_int64 → lo <= started a <= ended a →
  breaker_inv (run_attempt cb a).2 (ended a) (n + 1) ∧
  cb_config (run_attempt cb a).2 = cb_config cb.
Proof.
  intros Hinv Hmax Ht.
  assert (Hi : breaker_inv (CanExecute cb (started a)).2 (ended a) n)
    by (apply CanExecute_inv; eapply breaker_inv_mono; [done|lia..]).
  pose proof (CanExecute_config cb (started a)) as Hcfg.
  unfold run_attempt. destruct (CanExecute cb (started a)) as [[] cb1]; simpl in *.
  - by rewrite RecordResult_config; split; [apply RecordResult_inv|].
  - split; [|done]. eapply breaker_inv_mono; [done|lia..].
Qed.

Lemma ordered_between_le lo hi l : ordered_between lo hi l → lo <= hi.
Proof. revert lo; induction l as [|a l IH]; simpl; intros lo; [done|]. intros [? ?%IH]. lia. Qed.

Lemma run_attempts_budget l cb lo hi n :
  breaker_inv cb lo n → n + Z.of_nat (length l) <= max_int64 →
  ordered_between lo hi l → (∀ a, a ∈ l → progressed a = false) →
  hi < lo + CooldownDuration (cb_config cb) →
  (run_attempts cb l).1 <= Z.max 0 (budget cb hi).
Proof.
  revert cb lo n. induction l as [|a l IH]; intros cb lo n Hinv Hmax Hord Hp Hhi; simpl; [lia|].
  destruct Hord as [Ht Hord]. pose proof (ordered_between_le _ _ _ Hord) as Hle. simpl in Hmax.
  destruct (run_attempt_budget cb a lo hi n) as [Hok Hno]; try done; [lia|set_solver|].
  destruct (run_attempt_inv cb a lo n) as [Hinv' Hcfg]; [done|lia|done|].
  destruct (run_attempt cb a) as [ok cb1] eqn:E. simpl in *.
  specialize (IH cb1 (ended a) (n + 1) Hinv'). rewrite Hcfg in IH.
  assert (Hr : (run_attempts cb1 l).1 <= Z.max 0 (budget cb1 hi))
    by (apply IH; [lia|done|set_solver|lia]).
  destruct (run_attempts cb1 l) as [m cb2]; simpl in *.
  destruct ok; [specialize (Hok eq_refl); lia|rewrite (Hno eq_refl) in *; lia].
Qed.

Lemma run_attempts_inv l cb lo hi n :
  breaker_inv cb lo n → n + Z.of_nat (length l) <= max_int64 → ordered_between lo hi l →
  breaker_inv (run_attempts cb l).2 hi (n + Z.of_nat (length l)) ∧
  cb_config (run_attempts cb l).2 = cb_config cb.
Proof.
  revert cb lo n. induction l as [|a l IH]; intros cb lo n Hinv Hmax Hord; simpl in *.
  - split; [|done]. eapply breaker_inv_mono; [done|lia..].
  - destruct Hord as [Ht Hord].
    destruct (run_attempt_inv cb a lo n) as [Hinv' Hcfg]; [done|lia|done|].
    destruct (run_attempt cb a) as [ok cb1]. simpl in *.
    destruct (IH cb1 (ended a) (n + 1)) as [IH1 IH2]; [done|lia|done|].
    destruct (run_attempts cb1 l) as [m cb2]; simpl in *.
    split; [eapply breaker_inv_mono; [done|lia..]|congruence].
Qed.

Lemma budget_le cb hi n now :
  breaker_inv cb now n → Z.max 0 (budget cb hi) <= NoProgressThreshold (cb_config cb).
Proof. intros (? & ? & ? & ? & ?). unfold budget. repeat case_match; lia. Qed.

(** *** The governor *)
Definition run_governor (cfg : CostGovernorConfig) (rs : list iterationRecord) : CostGovernor :=
  foldl RecordIteration (NewCostGovernor cfg) rs.

Definition spent (rs : list iterationRecord) : Z := foldr Z.add 0 (map r_tokens rs).

(** The number of unproductive iterations at the end of the run. *)
Definition trailing_unproductive (rs : list iterationRecord) : Z :=
  foldl (λ n r, if productive r then 0 else n + 1) 0 rs.

Lemma trailing_bound rs : 0 <= trailing_unproductive rs <= Z.of_nat (length rs).
Proof.
  unfold trailing_unproductive. induction rs as [|r rs IH] using rev_ind; simpl; [lia|].
  rewrite foldl_app, length_app. simpl. case_match; lia.
Qed.

Lemma trailing_app rs k :
  (∀ r, r ∈ k → productive r = false) →
  Z.of_nat (length k) <= trailing_unproductive (rs ++ k).
Proof.
  unfold trailing_unproductive. induction k as [|r k IH] using rev_ind; intros Hk; simpl.
  - pose proof (trailing_bound (rs ++ [])). unfold trailing_unproductive in *. lia.
  - rewrite app_assoc, foldl_app, length_app. simpl. rewrite (Hk r) by set_solver.
    assert (Z.of_nat (length k) <= foldl (λ n r, if productive r then 0 else n + 1) 0 (rs ++ k));
      [apply IH; set_solver|lia].
Qed.

Lemma run_governor_snoc cfg rs r :
  run_governor cfg (rs ++ [r]) = RecordIteration (run_governor cfg rs) r.
Proof. unfold run_governor. by rewrite foldl_app. Qed.

Lemma run_governor_spec cfg rs :
  Z.of_nat (length rs) <= max_int64 →
  run_governor cfg rs = {|
    cg_config := cg_config (NewCostGovernor cfg); totalTokens := wrap64 (spent rs);
    history := rs; unproductiveStreak := trailing_unproductive rs |}.
Proof.
  induction rs as [|r rs IH] using rev_ind; intros Hl; [done|].
  rewrite length_app in Hl; simpl in Hl.
  rewrite run_governor_snoc, IH by lia. unfold RecordIteration; simpl. f_equal.
  - rewrite add64_wrap_l. f_equal. unfold spent. rewrite map_app, foldr_app. simpl.
    rewrite Z.add_0_r. clear. induction rs as [|x rs IH]; simpl; [lia|]. lia.
  - pose proof (trailing_bound rs). unfold trailing_unproductive. rewrite foldl_app. simpl.
    case_match; [done|]. apply add64_id. unfold in64, min_int64, trailing_unproductive in *. lia.
Qed.

(** *** The stuck detector *)
Fixpoint all_bytes (p : Ascii.ascii → bool) (s : string) : bool :=
  match s with EmptyString => true | String a s' => p a && all_bytes p s' end.

Lemma trim_right_empty p s : trim_right p s = "" → all_bytes p s = true.
Proof.
  induction s as [|a s IH]; simpl; [done|]. destruct (trim_right p s) eqn:E; [|done].
  destruct (p a); [|done]. intros _. by apply IH.
Qed.

Lemma TrimSpace_empty s : TrimSpace s = "" → all_bytes is_space s = true.
Proof.
  unfold TrimSpace. intros H%trim_right_empty. induction s as [|a s IH]; simpl in *; [done|].
  destruct (is_space a) eqn:E; [by apply IH|]. simpl in H. by rewrite E in H.
Qed.

Lemma to_lower_spaces s : all_bytes is_space s = true → to_lower s = s.
Proof.
  induction s as [|a s IH]; simpl; [done|]. intros [Ha Hs]%andb_true_iff. rewrite IH by done.
  f_equal. unfold lower_ascii. unfold is_space in Ha.
  destruct (65 <=? Ascii.nat_of_ascii a)%nat eqn:E; [|done]. apply Nat.leb_le in E.
  apply orb_true_iff in Ha as [Ha%Nat.eqb_eq|[H1%Nat.leb_le H2%Nat.leb_le]%andb_true_iff]; lia.
Qed.

Lemma contains_spaces a sub s :
  is_space a = false → all_bytes is_space s = true → contains (String a sub) s = false.
Proof.
  intros Ha. induction s as [|b s IH]; cbn; [done|]. intros [Hb Hs]%andb_true_iff.
  rewrite IH by done. rewrite bool_decide_false; [done|]. congruence.
Qed.

Lemma error_text_not_blank r : isErrorResult r = true → normalizeError r ≠ "".
Proof.
  intros H Hn. assert (TrimSpace r = "") as Hr%TrimSpace_empty.
  { unfold normalizeError in Hn. destruct (TrimSpace r) as [|a t]; [done|].
    by destruct (120 <? _). }
  unfold isErrorResult in H. rewrite to_lower_spaces in H by done.
  apply existsb_exists in H as (sig & Hin & Hc).
  repeat (destruct Hin as [<-|Hin]; [by rewrite contains_spaces in Hc|]). done.
Qed.

Lemma last_n_last_n {A} (k m : nat) (l : list A) : (k <= m)%nat → last_n k (last_n m l) = last_n k l.
Proof.
  intros. unfold last_n. rewrite drop_drop, length_drop. f_equal. lia.
Qed.

Lemma forallb_same {A} (f : A → string) k l :
  forallb (λ e, bool_decide (f e = k)) l = true ↔ ∀ e, e ∈ l → f e = k.
Proof.
  rewrite forallb_forall. split; intros H x Hx.
  - by apply list_elem_of_In, H, bool_decide_eq_true in Hx.
  - by apply bool_decide_eq_true, H, list_elem_of_In.
Qed.

Lemma all_same_cons {A} (f : A → string) x l :
  all_same f (x :: l) ↔ f x ≠ "" ∧ ∀ y, y ∈ l → f y = f x.
Proof.
  unfold all_same. split.
  - intros (k & Hk & H). rewrite (H x) by set_solver. split; [done|]. set_solver.
  - intros [Hx H]. exists (f x). split; [done|]. intros y [->|]%elem_of_cons; auto.
Qed.

Lemma checkRepeatedTool_spec d tail :
  0 < Threshold d → is_Some (checkRepeatedTool d tail) ↔ stuck_on_tool (Threshold d) tail.
Proof.
  intros Ht. unfold checkRepeatedTool, stuck_on_tool. destruct (_ <? _) eqn:E; to_prop.
  { split; [by intros []|]. lia. }
  destruct (last_n _ tail) as [|x l] eqn:El.
  { exfalso. apply (f_equal length) in El. rewrite length_last_n in El. simpl in El. lia. }
  rewrite all_same_cons. case_bool_decide as Hx; [naive_solver|].
  destruct (forallb _ _) eqn:Ef.
  - pose proof (proj1 (forallb_same toolKey _ _) Ef). naive_solver.
  - split; [by intros []|]. intros (_ & _ & H). apply (forallb_same toolKey) in H. congruence.
Qed.

Lemma checkNoProgress_spec d tail :
  0 < Threshold d → is_Some (checkNoProgress d tail) ↔
  Threshold d + 2 <= Z.of_nat (length tail) ∧
  all_same il_TaskID (last_n (Z.to_nat (Threshold d + 2)) tail).
Proof.
  intros Ht. unfold checkNoProgress. destruct (_ <? _) eqn:E; to_prop.
  { split; [by intros []|]. lia. }
  destruct (last_n _ tail) as [|x l] eqn:El.
  { exfalso. apply (f_equal length) in El. rewrite length_last_n in El. simpl in El. lia. }
  rewrite all_same_cons. case_bool_decide as Hx; [naive_solver|].
  destruct (forallb _ _) eqn:Ef.
  - pose proof (proj1 (forallb_same il_TaskID _ _) Ef). naive_solver.
  - split; [by intros []|]. intros (_ & _ & H). apply (forallb_same il_TaskID) in H. congruence.
Qed.

Lemma same_error_spec k l r :
  k ≠ "" → same_error k l = Some r ↔
  r = k ∧ ∀ e, e ∈ l → isErrorResult (il_Result e) = true ∧ normalizeError (il_Result e) = k.
Proof.
  intros Hk. induction l as [|e l IH]; simpl.
  { split; [intros [= ->]|intros [-> _]]; set_solver. }
  destruct (isErrorResult (il_Result e)) eqn:Ee; simpl.
  - rewrite (bool_decide_false _ Hk). case_bool_decide as En.
    + rewrite IH. split; intros [-> H]; (split; [done|]); [|set_solver].
      intros x [->|]%elem_of_cons; auto.
    + split; [done|]. intros [_ H]. destruct (H e); [set_solver|done].
  - split; [done|]. intros [_ H]. destruct (H e); [set_solver|congruence].
Qed.

Lemma checkRepeatedError_spec d tail :
  0 < Threshold d → is_Some (checkRepeatedError d tail) ↔ stuck_on_error (Threshold d) tail.
Proof.
  intros Ht. unfold checkRepeatedError, stuck_on_error. destruct (_ <? _) eqn:E; to_prop.
  { split; [by intros []|]. lia. }
  destruct (last_n _ tail) as [|x l] eqn:El.
  { exfalso. apply (f_equal length) in El. rewrite length_last_n in El. simpl in El. lia. }
  rewrite all_same_cons. simpl. destruct (isErrorResult (il_Result x)) eqn:Ex; simpl.
  - pose proof (error_text_not_blank _ Ex) as Hx.
    destruct (same_error _ l) as [r|] eqn:Es.
    + apply same_error_spec in Es as [-> H]; [|done]. rewrite (bool_decide_false _ Hx).
      split; [intros _|by eauto]. split_and!; [done| |done|set_solver].
      intros y [->|]%elem_of_cons; [done|]. by apply H.
    + split; [by intros []|]. intros (_ & H1 & _ & H2).
      assert (same_error (normalizeError (il_Result x)) l = Some (normalizeError (il_Result x))); [|congruence].
      apply same_error_spec; [done|]. split; [done|]. set_solver.
  - split; [by intros []|]. intros (_ & H & _). rewrite H in Ex; [done|set_solver].
Qed.

Lemma signal_patterns d tail sig :
  (checkRepeatedTool d tail = Some sig → Pattern sig = StuckRepeatedTool) ∧
  (checkRepeatedError d tail = Some sig → Pattern sig = StuckRepeatedError) ∧
  (checkNoProgress d tail = Some sig → Pattern sig = StuckNoProgress).
Proof.
  unfold checkRepeatedTool, checkRepeatedError, checkNoProgress.
  split_and!; intros H; repeat case_match; by simplify_eq.
Qed.

(** The checks look at the tail only, which is as good as the whole log. *)
Definition stuck_tail (t : Z) (log : list IterationLog) : list IterationLog :=
  if t * 2 <? Z.of_nat (length log) then last_n (Z.to_nat (t * 2)) log else log.

Lemma last_n_tail t k log : 0 <= k <= t * 2 →
  last_n (Z.to_nat k) (stuck_tail t log) = last_n (Z.to_nat k) log.
Proof. intros. unfold stuck_tail. case_match; [|done]. apply last_n_last_n. lia. Qed.

Lemma length_tail t log : 0 < t →
  Z.of_nat (length (stuck_tail t log)) = Z.min (t * 2) (Z.of_nat (length log)).
Proof. intros. unfold stuck_tail. case_match; to_prop; rewrite ?length_last_n; lia. Qed.

(** ** Properties *)

(** The loop cannot run away: whatever the loop did before, in any stretch
    shorter than the cooldown in which no iteration makes progress the breaker
    lets at most [NoProgressThreshold] iterations run. *)
Theorem loop_breaker_bounds_runaway cfg (before stuck : list attempt) t0 t1 t2 :
  let cb := run_attempts (NewCircuitBreaker cfg) before in
  0 <= t0 → ordered_between t0 t1 before → ordered_between t1 t2 stuck →
  (∀ a, a ∈ stuck → progressed a = false) →
  t2 - t1 < CooldownDuration (cb_config (NewCircuitBreaker cfg)) →
  Z.of_nat (length before) + Z.of_nat (length stuck) <= max_int64 →
  (run_attempts cb.2 stuck).1 <= NoProgressThreshold (cb_config (NewCircuitBreaker cfg)).
Proof.
  intros cb Ht Hb Hs Hp Hw Hmax.
  destruct (run_attempts_inv before (NewCircuitBreaker cfg) t0 t1 0) as [Hinv Hcfg];
    [by apply NewCircuitBreaker_inv|lia|done|].
  rewrite <- Hcfg. etrans; [|by apply (budget_le _ t2 _ _ Hinv)].
  eapply run_attempts_budget; [done|lia|done..|rewrite Hcfg; lia].
Qed.

(** What each check answers in terms of the log. *)
Lemma checks_spec d log :
  0 < Threshold d →
  let tail := stuck_tail (Threshold d) log in
  (is_Some (checkRepeatedTool d tail) ↔ stuck_on_tool (Threshold d) log) ∧
  (is_Some (checkRepeatedError d tail) ↔ stuck_on_error (Threshold d) log) ∧
  (is_Some (checkNoProgress d tail) ↔ stuck_on_task (Threshold d) log).
Proof.
  intros Ht tail. pose proof (length_tail _ log Ht) as Hlen. fold tail in Hlen.
  rewrite checkRepeatedTool_spec, checkRepeatedError_spec, checkNoProgress_spec by done.
  unfold stuck_on_tool, stuck_on_error, stuck_on_task.
  split_and!.
  - unfold tail. rewrite last_n_tail by lia. fold tail. intuition lia.
  - unfold tail. rewrite last_n_tail by lia. fold tail. intuition lia.
  - split.
    + intros [? Hs]. unfold tail in Hs. rewrite last_n_tail in Hs by lia. split_and!; [lia..|done].
    + intros (? & ? & Hs). split; [lia|]. unfold tail. by rewrite last_n_tail by lia.
Qed.

(** The governor's verdict is exactly its three layers over the recorded
    iterations, and it stops waste in time: while no verdict was a halt, no
    [UnproductiveMax] consecutive iterations were unproductive and the budget
    was not reached. *)
Theorem governor_stops_waste cfg (rs : list iterationRecord) :
  let c := cg_config (NewCostGovernor cfg) in
  let total := wrap64 (spent rs) in
  let cg := run_governor cfg rs in
  let wasteful := unproductive_in (last_n (Z.to_nat (VelocityWindow c)) rs) in
  Z.of_nat (length rs) <= max_int64 →
  (Action (CostGovernor_Check cg) = "halt" ↔
     0 < HardBudgetTokens c <= total ∨ UnproductiveMax c <= trailing_unproductive rs) ∧
  (Action (CostGovernor_Check cg) = "downgrade" ↔
     Action (CostGovernor_Check cg) ≠ "halt" ∧
     float_lt float_zero (VelocityAlarmRate c) = true ∧
     VelocityWindow c <= Z.of_nat (length rs) ∧
     float_le (VelocityAlarmRate c)
       (float_div (float_of_int wasteful) (float_of_int (VelocityWindow c))) = true) ∧
  ((∀ k, (k <= length rs)%nat →
      Action (CostGovernor_Check (run_governor cfg (take k rs))) ≠ "halt") →
   ∀ done_ waste rest, rs = done_ ++ waste ++ rest →
     (∀ r, r ∈ waste → productive r = false) →
     Z.of_nat (length waste) < UnproductiveMax c ∧
     (0 < HardBudgetTokens c → wrap64 (spent (done_ ++ waste)) < HardBudgetTokens c)).
Proof.
  intros c total cg wasteful Hl.
  assert (Hhalt : ∀ l, Z.of_nat (length l) <= max_int64 →
    Action (CostGovernor_Check (run_governor cfg l)) = "halt" ↔
    0 < HardBudgetTokens c <= wrap64 (spent l) ∨ UnproductiveMax c <= trailing_unproductive l).
  { intros l Hlen. rewrite run_governor_spec by done. unfold CostGovernor_Check; cbn [cg_config totalTokens unproductiveStreak].
    fold c. destruct (_ && _) eqn:E1; [to_prop; naive_solver lia|].
    apply andb_false_iff in E1. rewrite Z.ltb_ge, Z.leb_gt in E1.
    destruct (_ <=? _) eqn:E2; to_prop; [naive_solver|].
    split; [|intros; lia]. repeat case_match; done. }
  split; [by apply Hhalt|]. split.
  - subst cg. rewrite run_governor_spec by done. unfold CostGovernor_Check.
    cbn [cg_config totalTokens unproductiveStreak history]. fold c. fold wasteful. clearbody wasteful. clearbody c.
    destruct (_ && _); [naive_solver|]. destruct (UnproductiveMax c <=? trailing_unproductive rs); [naive_solver|].
    destruct (float_lt _ _); simpl; [|naive_solver].
    destruct (VelocityWindow c <=? _) eqn:E; to_prop; [|split; [done|lia]].
    destruct (float_le _ _); naive_solver.
  - intros Hno done_ waste rest -> Hw.
    specialize (Hno (length (done_ ++ waste))).
    rewrite !length_app in Hl.
    rewrite app_assoc, take_app_length, Hhalt in Hno by (rewrite length_app; lia).
    pose proof (trailing_app done_ waste Hw).
    assert (¬ (0 < HardBudgetTokens c <= wrap64 (spent (done_ ++ waste)) ∨
               UnproductiveMax c <= trailing_unproductive (done_ ++ waste)))
      by (apply Hno; rewrite !length_app; lia). lia.
Qed.

(** The detector reports exactly the patterns it documents, in their order
    of precedence: the last [Threshold] iterations with one non-empty tool list,
    else with one and the same error text, else one task for [Threshold + 2]
    iterations. *)
Theorem stuck_detector_exact (t : Z) (log : list IterationLog) :
  let d := NewStuckDetector t in
  let found := Pattern <$> StuckDetector_Check d log in
  (found = Some StuckRepeatedTool ↔ stuck_on_tool (Threshold d) log) ∧
  (found = Some StuckRepeatedError ↔
     ¬ stuck_on_tool (Threshold d) log ∧ stuck_on_error (Threshold d) log) ∧
  (found = Some StuckNoProgress ↔
     ¬ stuck_on_tool (Threshold d) log ∧ ¬ stuck_on_error (Threshold d) log ∧
     stuck_on_task (Threshold d) log).
Proof.
  intros d found. assert (Ht : 0 < Threshold d) by (unfold d; simpl; case_match; to_prop; lia).
  destruct (checks_spec d log Ht) as (Htool & Herr & Htask).
  subst found. unfold StuckDetector_Check. fold (stuck_tail (Threshold d) log).
  set (tail := stuck_tail (Threshold d) log) in *.
  destruct (_ <? _) eqn:E; to_prop.
  { assert (¬ stuck_on_tool (Threshold d) log) by (unfold stuck_on_tool; lia).
    assert (¬ stuck_on_error (Threshold d) log) by (unfold stuck_on_error; lia).
    assert (¬ stuck_on_task (Threshold d) log) by (unfold stuck_on_task; lia).
    simpl. naive_solver. }
  rewrite <- Htool, <- Herr, <- Htask.
  destruct (checkRepeatedTool d tail) as [sig|] eqn:E1; simpl.
  { rewrite (proj1 (signal_patterns d tail sig) E1). naive_solver. }
  destruct (checkRepeatedError d tail) as [sig|] eqn:E2; simpl.
  { rewrite (proj1 (proj2 (signal_patterns d tail sig)) E2). rewrite !is_Some_alt. naive_solver. }
  destruct (checkNoProgress d tail) as [sig|] eqn:E3; simpl; rewrite !is_Some_alt; [|naive_solver].
  rewrite (proj2 (proj2 (signal_patterns d tail sig)) E3). naive_solver.
Qed.

(** With a threshold of 1 the third pattern can never be reported: it needs three
    entries of a tail that holds at most two. *)
Lemma threshold_one_never_no_progress log :
  Pattern <$> StuckDetector_Check (NewStuckDetector 1) log ≠ Some StuckNoProgress.
Proof.
  set (d := NewStuckDetector 1). unfold StuckDetector_Check. destruct (_ <? _); [done|].
  fold (stuck_tail (Threshold d) log). set (tail := stuck_tail (Threshold d) log).
  destruct (checks_spec d log) as (_ & _ & Ht); [done|]. fold tail in Ht.
  destruct (checkRepeatedTool d tail) as [sig|] eqn:E1; simpl.
  { by rewrite (proj1 (signal_patterns d tail sig) E1). }
  destruct (checkRepeatedError d tail) as [sig|] eqn:E2; simpl.
  { by rewrite (proj1 (proj2 (signal_patterns d tail sig)) E2). }
  destruct (checkNoProgress d tail); [|done]. intros _.
  destruct (proj1 Ht) as (_ & Hl & _); [done|]. simpl in Hl. lia.
Qed.

(** ** Witnesses *)
Definition failed_at (t : time) : attempt :=
  {| started := t; ended := t + Second; progressed := false; key := "boom" |}.

Lemma loop_breaker_bounds_runaway_witness :
  (run_attempts (NewCircuitBreaker DefaultCircuitBreakerConfig)
     [failed_at 1; failed_at (2 * Second); failed_at (4 * Second); failed_at (6 * Second)]).1 <= 3.
Proof.
  apply (loop_breaker_bounds_runaway DefaultCircuitBreakerConfig []
    [failed_at 1; failed_at (2 * Second); failed_at (4 * Second); failed_at (6 * Second)] 0 0 (10 * Second));
    [done|simpl; lia|unfold failed_at, Second; simpl; lia| |reflexivity|simpl; unfold max_int64; lia].
  intros a Ha. repeat (apply elem_of_cons in Ha as [->|Ha]; [done|]). by apply elem_of_nil in Ha.
Defined.

Definition wasted : iterationRecord := {| r_tokens := 100; productive := false |}.

Lemma governor_stops_waste_witness :
  Action (CostGovernor_Check (run_governor DefaultCostGovernorConfig [wasted; wasted; wasted])) = "halt".
Proof.
  apply (governor_stops_waste DefaultCostGovernorConfig [wasted; wasted; wasted]);
    [vm_compute; discriminate|right; vm_compute; discriminate].
Defined.
