(* ===== verification/Finops.v ===== *)
(** Token accounting (src/finops/): the usage tracker, the middleware that
    enforces a token budget and records dollar costs, and the per-tenant trackers
    with their budgets.  Dollar amounts are IEEE binary64. *)

From stdpp Require Import base tactics list gmap strings pretty.
From Stdlib Require Import ZArith Lia Floats.SpecFloat.
From S2P Require Import Prelude Tool Truncate.

Local Open Scope Z_scope.

(** ** The tracker (finops.go, tracker.go) *)
Record UsageEntry := {
  u_ToolName : string;
  u_Category : string;
  u_Model : string;
  InputTokens : Z;
  OutputTokens : Z;
  u_Duration : duration;
  Timestamp : time
}.

Record UsageSummary := {
  TotalInputTokens : Z;
  TotalOutputTokens : Z;
  TotalInvocations : Z;
  ByTool : gmap string Z;
  ByCategory : gmap string Z
}.

(** The tracker's configuration stands apart: it never changes. *)
Record Tracker := { entries : list UsageEntry; totalTokens : Z }.

Definition NewTracker : Tracker := {| entries := []; totalTokens := 0 |}.

Definition entry_tokens (e : UsageEntry) : Z := add64 (InputTokens e) (OutputTokens e).

Definition Record_ (t : Tracker) (e : UsageEntry) : Tracker :=
  {| entries := entries t ++ [e]; totalTokens := add64 (totalTokens t) (entry_tokens e) |}.

Definition add_to (k : string) (n : Z) (m : gmap string Z) : gmap string Z :=
  <[k := add64 (default 0 (m !! k)) n]> m.

Definition summary_step (s : UsageSummary) (e : UsageEntry) : UsageSummary := {|
  TotalInputTokens := add64 (TotalInputTokens s) (InputTokens e);
  TotalOutputTokens := add64 (TotalOutputTokens s) (OutputTokens e);
  TotalInvocations := add64 (TotalInvocations s) 1;
  ByTool := add_to (u_ToolName e) (entry_tokens e) (ByTool s);
  ByCategory := add_to (u_Category e) (entry_tokens e) (ByCategory s) |}.

Definition empty_summary : UsageSummary := {|
  TotalInputTokens := 0; TotalOutputTokens := 0; TotalInvocations := 0;
  ByTool := ∅; ByCategory := ∅ |}.

Definition Summary (t : Tracker) : UsageSummary := foldl summary_step empty_summary (entries t).
Definition Reset (t : Tracker) : Tracker := {| entries := []; totalTokens := 0 |}.
Definition Total (t : Tracker) : Z := totalTokens t.

Definition BudgetExceededError (limit used : Z) : string :=
  "finops: token budget exceeded (limit=" +:+ itoa limit +:+ ", used=" +:+ itoa used +:+ ")".

(** ** Dollar costs (cost.go) *)
Record ModelPricing := { InputPer1KTokens : float64; OutputPer1KTokens : float64 }.

Record CostPolicy := {
  pricing : gmap string ModelPricing;
  dollarBudget : float64;
  totalCost : float64
}.

Definition EstimateCost (cp : CostPolicy) (model : string) (inputTokens outputTokens : Z) : float64 :=
  match pricing cp !! model with
  | None => float_zero
  | Some p =>
      let per1k n price := float_mul (float_div (float_of_int n) (float_of_int 1000)) price in
      float_add (per1k inputTokens (InputPer1KTokens p)) (per1k outputTokens (OutputPer1KTokens p))
  end.

Definition DollarBudgetExceededError (limit used : float64) : string :=
  "finops: dollar budget exceeded (limit=$" +:+ format4 limit +:+ ", used=$" +:+ format4 used +:+ ")".

Definition RecordCost (cp : CostPolicy) (cost : float64) : option string * CostPolicy :=
  let total := float_add (totalCost cp) cost in
  let cp' := {| pricing := pricing cp; dollarBudget := dollarBudget cp; totalCost := total |} in
  if float_lt float_zero (dollarBudget cp) && float_lt (dollarBudget cp) total
  then (Some (DollarBudgetExceededError (dollarBudget cp) total), cp')
  else (None, cp').

(** [math.MaxFloat64], [(2^53 - 1) * 2^971]. *)
Definition MaxFloat64 : float64 := S754_finite false (2 ^ 53 - 1) 971.

Definition RemainingBudget (cp : CostPolicy) : float64 :=
  if float_le (dollarBudget cp) float_zero then MaxFloat64
  else let remaining := float_sub (dollarBudget cp) (totalCost cp) in
       if float_lt remaining float_zero then float_zero else remaining.

(** ** Estimates (estimate.go) *)
Definition DefaultEstimate (text : string) : Z :=
  if bytes text =? 0 then 0 else (bytes text + 3) / 4.

Definition EstimateFromResult (result : option CallToolResult) (estimate : string → Z) : Z :=
  match result with
  | None => 0
  | Some r =>
      foldl (λ total c, match ExtractTextContent c with
                        | Some text => add64 total (estimate text)
                        | None => total
                        end) 0 (r_Content r)
  end.

Section Finops.
Context {Ctx Req W : Type}.
(** [json.Marshal], the request's [Params.Arguments] ([None] is nil) and the clock. *)
Variable marshal : json → option string.
Variable Params_Arguments : Req → option json.
Variable now : W → time.

Definition ExtractArguments (req : Req) : option json :=
  match Params_Arguments req with
  | Some (JObject args) => Some (JObject args)
  | _ => None
  end.

Definition EstimateFromRequest (req : Req) (estimate : string → Z) : Z :=
  match ExtractArguments req with
  | None => 0
  | Some args => match marshal args with Some data => estimate data | None => 0 end
  end.

Record Config := {
  TokenBudget : Z;
  EstimateFunc : option (string → Z);
  OnBudgetExceeded : option (UsageEntry → UsageSummary → W → W)
}.

(** The tracker and the cost policy are shared with whoever else holds them: cells
    of the world.  [None] is a nil [CostPolicy].  [holder_store] writes the usage to the context's holder, if it has one. *)
Context `{!Cell W Tracker} `{!Cell W (option CostPolicy)}.
Variable holder_store : Ctx → Z → Z → W → W.

Definition mkentry (name category : string) (i o : Z) (d : duration) (t : time) : UsageEntry := {|
  u_ToolName := name; u_Category := category; u_Model := ""; InputTokens := i;
  OutputTokens := o; u_Duration := d; Timestamp := t |}.

Definition category_of {H} (td : ToolDefinition H) : string :=
  if bool_decide (Category td = "") then "unknown" else Category td.

(** Charging the cost policy; [Some] is the error result it answers with. *)
Definition charge (inputTokens outputTokens : Z) (w : W) : option string * W :=
  match peek w with
  | None => (None, w)
  | Some cp =>
      let '(err, cp') := RecordCost cp (EstimateCost cp "" inputTokens outputTokens) in
      (err, poke (Some cp') w)
  end.

Definition FinopsMiddleware (cfg : Config) : Middleware Ctx Req W :=
  λ name td next ctx request w,
    let category := category_of td in
    let estimate := default DefaultEstimate (EstimateFunc cfg) in
    if (0 <? TokenBudget cfg) && (TokenBudget cfg <=? Total (peek w)) then
      let summary := Summary (peek w) in
      let w1 := match OnBudgetExceeded cfg with
                | Some f => f (mkentry name category 0 0 0 (now w)) summary w
                | None => w
                end in
      (Returns (Some (MakeErrorResult (BudgetExceededError (TokenBudget cfg)
        (add64 (TotalInputTokens summary) (TotalOutputTokens summary))))) None, w1)
    else
      let inputTokens := EstimateFromRequest request estimate in
      let start := now w in
      match next ctx request w with
      | (Panics v, w1) => (Panics v, w1)
      | (Returns result err, w1) =>
          let duration := time_sub (now w1) start in
          let outputTokens := EstimateFromResult result estimate in
          let entry := mkentry name category inputTokens outputTokens duration (now w1) in
          let w2 := poke (Record_ (peek w1) entry) w1 in
          let w3 := holder_store ctx inputTokens outputTokens w2 in
          match charge inputTokens outputTokens w3 with
          | (Some msg, w4) => (Returns (Some (MakeErrorResult msg)) None, w4)
          | (None, w4) => (Returns result err, w4)
          end
      end.

(** ** Scopes (scope.go) *)
Definition BudgetScope : Type := string * string * string.

Record ScopedBudget := { MaxTokens : Z; MaxDollars : float64 }.

Record ScopedTracker := {
  global : Tracker;
  scoped : gmap BudgetScope Tracker;
  budgets : gmap BudgetScope ScopedBudget
}.

Definition NewScopedTracker (global : Tracker) : ScopedTracker :=
  {| global := global; scoped := ∅; budgets := ∅ |}.

Definition SetBudget (st : ScopedTracker) (scope : BudgetScope) (b : ScopedBudget) : ScopedTracker :=
  {| global := global st; scoped := scoped st; budgets := <[scope := b]> (budgets st) |}.

Definition set_scoped (m : gmap BudgetScope Tracker) (st : ScopedTracker) : ScopedTracker :=
  {| global := global st; scoped := m; budgets := budgets st |}.

Definition GetTracker (st : ScopedTracker) (scope : BudgetScope) : Tracker * ScopedTracker :=
  match scoped st !! scope with
  | Some t => (t, st)
  | None => (NewTracker, set_scoped (<[scope := NewTracker]> (scoped st)) st)
  end.

Definition Usage (st : ScopedTracker) (scope : BudgetScope) : UsageSummary * ScopedTracker :=
  let '(t, st') := GetTracker st scope in (Summary t, st').

Definition record_global (e : UsageEntry) (st : ScopedTracker) : ScopedTracker :=
  {| global := Record_ (global st) e; scoped := scoped st; budgets := budgets st |}.

Definition record_scoped (scope : BudgetScope) (e : UsageEntry) (st : ScopedTracker) : ScopedTracker :=
  let '(t, st1) := GetTracker st scope in
  set_scoped (<[scope := Record_ t e]> (scoped st1)) st1.

(** The "token" kind of [ScopedBudgetExceededError]. *)
Definition ScopedBudgetExceededError (scope : BudgetScope) (limit used : Z) : string :=
  let '(tenant, user, session) := scope in
  "finops: scoped token budget exceeded for tenant=" +:+ quote tenant +:+ " user=" +:+ quote user +:+
  " session=" +:+ quote session +:+ " (limit=" +:+ itoa limit +:+ ", used=" +:+ itoa used +:+ ")".

Context `{!Cell W ScopedTracker}.
(** The tenant resolver, [None] for nil; and the global tracker's estimate function. *)
Variable resolve : option (Ctx → option BudgetScope).
Variable EstimateFunc_global : option (string → Z).

(** The token budget test before ([strict] false, [>=]) and after ([>]) the call. *)
Definition over_budget (strict : bool) (scope : BudgetScope) (w : W) :
    option (Z * Z) * W :=
  match budgets (peek w) !! scope with
  | Some b =>
      if 0 <? MaxTokens b then
        let '(t, st) := GetTracker (peek w) scope in
        let w1 := poke st w in
        if (if strict then MaxTokens b <? Total t else MaxTokens b <=? Total t) then
          (Some (MaxTokens b,
                 add64 (TotalInputTokens (Summary t)) (TotalOutputTokens (Summary t))), w1)
        else (None, w1)
      else (None, w)
  | None => (None, w)
  end.

Definition over_budget_result (scope : BudgetScope) (lu : Z * Z) : outcome :=
  Returns (Some (MakeErrorResult (ScopedBudgetExceededError scope lu.1 lu.2))) None.

Definition ScopedMiddleware : Middleware Ctx Req W :=
  λ name td next ctx req w,
    let category := category_of td in
    let scope := r ← resolve; r ctx in
    match (match scope with Some s => over_budget false s w | None => (None, w) end), scope with
    | (Some lu, w1), Some s => (over_budget_result s lu, w1)
    | (_, w1), _ =>
        let estimate := default DefaultEstimate EstimateFunc_global in
        let inputTokens := EstimateFromRequest req estimate in
        match next ctx req w1 with
        | (Panics v, w2) => (Panics v, w2)
        | (Returns result err, w2) =>
            let outputTokens := EstimateFromResult result estimate in
            let entry := mkentry name category inputTokens outputTokens 0 time_zero in
            let w3 := poke (record_global entry (peek w2)) w2 in
            match scope with
            | None => (Returns result err, w3)
            | Some s =>
                let w4 := poke (record_scoped s entry (peek w3)) w3 in
                match over_budget true s w4 with
                | (Some lu, w5) => (over_budget_result s lu, w5)
                | (None, w5) => (Returns result err, w5)
                end
            end
        end
    end.
End Finops.
Arguments Config : clear implicits.

(** ** What the properties speak about *)
Definition sum_of (f : UsageEntry → Z) (es : list UsageEntry) : Z := foldr (λ e n, f e + n) 0 es.
Definition tokens (e : UsageEntry) : Z := InputTokens e + OutputTokens e.

Inductive tracker_op := TRecord (e : UsageEntry) | TReset.
Definition run_tracker_op (t : Tracker) (o : tracker_op) : Tracker :=
  match o with TRecord e => Record_ t e | TReset => Reset t end.

(** The entries recorded since the last reset. *)
Definition since_reset (ops : list tracker_op) : list UsageEntry :=
  foldl (λ es o, match o with TRecord e => es ++ [e] | TReset => [] end) [] ops.

Definition tracker_ok (t : Tracker) : Prop := totalTokens t = wrap64 (sum_of tokens (entries t)).

(** A sequence of calls through one wrapped handler. *)
Fixpoint run_calls {Ctx Req W} (h : ToolHandlerFunc Ctx Req W) (calls : list (Ctx * Req)) (w : W) :
    list outcome * W :=
  match calls with
  | [] => ([], w)
  | (ctx, req) :: calls' =>
      let '(o, w1) := h ctx req w in
      let '(os, w2) := run_calls h calls' w1 in (o :: os, w2)
  end.

Definition panicked (o : outcome) : bool := match o with Panics _ => true | Returns _ _ => false end.

(** ** Lemmas *)
Lemma add64_wrap_r a b : add64 a (wrap64 b) = wrap64 (a + b).
Proof. unfold add64 at 1. rewrite Z.add_comm. fold (add64 (wrap64 b) a). rewrite add64_wrap_l. f_equal. lia. Qed.

Lemma add64_wrap_lr a b : add64 (wrap64 a) (wrap64 b) = wrap64 (a + b).
Proof. rewrite add64_wrap_r. fold (add64 (wrap64 a) b). apply add64_wrap_l. Qed.

Lemma sum_of_snoc f es e : sum_of f (es ++ [e]) = sum_of f es + f e.
Proof. unfold sum_of. induction es as [|x es IH]; simpl; lia. Qed.

Lemma sum_of_tokens es : sum_of tokens es = sum_of InputTokens es + sum_of OutputTokens es.
Proof. unfold sum_of, tokens. induction es as [|x es IH]; simpl; lia. Qed.

Lemma entry_tokens_wrap e : entry_tokens e = wrap64 (tokens e).
Proof. done. Qed.

Lemma Record_ok t e : tracker_ok t → tracker_ok (Record_ t e).
Proof.
  unfold tracker_ok, Record_. simpl. intros ->.
  by rewrite entry_tokens_wrap, add64_wrap_lr, sum_of_snoc.
Qed.

Lemma run_tracker_spec ops :
  let t := foldl run_tracker_op NewTracker ops in
  entries t = since_reset ops ∧ tracker_ok t.
Proof.
  induction ops as [|o ops IH] using rev_ind; [done|].
  unfold since_reset. rewrite !foldl_app. simpl. destruct IH as [IH1 IH2].
  destruct o as [e|]; simpl; [|done]. split; [by rewrite IH1|by apply Record_ok].
Qed.

Lemma lookup_add_to k k' n m :
  default 0 (add_to k n m !! k') =
  if decide (k = k') then add64 (default 0 (m !! k)) n else default 0 (m !! k').
Proof.
  unfold add_to. case_decide as E; subst; [by rewrite lookup_insert_eq|by rewrite lookup_insert_ne].
Qed.

Definition with_key (f : UsageEntry → string) (k : string) (es : list UsageEntry) : list UsageEntry :=
  filter (λ e, f e = k) es.

Lemma with_key_snoc f k es e :
  with_key f k (es ++ [e]) = with_key f k es ++ (if decide (f e = k) then [e] else []).
Proof.
  unfold with_key. by rewrite filter_app.
Qed.

Lemma add_to_spec f (m : gmap string Z) es e k :
  (∀ k, default 0 (m !! k) = wrap64 (sum_of tokens (with_key f k es))) →
  default 0 (add_to (f e) (entry_tokens e) m !! k) = wrap64 (sum_of tokens (with_key f k (es ++ [e]))).
Proof.
  intros H. rewrite lookup_add_to, with_key_snoc. case_decide as E.
  - rewrite H, entry_tokens_wrap, add64_wrap_lr, E, sum_of_snoc. done.
  - by rewrite H, app_nil_r.
Qed.

Lemma Summary_spec es :
  let s := foldl summary_step empty_summary es in
  TotalInputTokens s = wrap64 (sum_of InputTokens es) ∧
  TotalOutputTokens s = wrap64 (sum_of OutputTokens es) ∧
  TotalInvocations s = wrap64 (Z.of_nat (length es)) ∧
  (∀ k, default 0 (ByTool s !! k) = wrap64 (sum_of tokens (with_key u_ToolName k es))) ∧
  (∀ k, default 0 (ByCategory s !! k) = wrap64 (sum_of tokens (with_key u_Category k es))).
Proof.
  induction es as [|e es IH] using rev_ind; [done|].
  rewrite foldl_app. simpl. destruct IH as (H1 & H2 & H3 & H4 & H5).
  rewrite H1, H2, H3, !add64_wrap_l, !sum_of_snoc, length_app. simpl.
  rewrite Nat2Z.inj_add. refine (conj eq_refl (conj eq_refl (conj eq_refl (conj _ _)))); intros k; by apply add_to_spec.
Qed.

(** ** Properties *)

(** The books balance: after any sequence of records and resets the running
    total is the sum over the entries since the last reset, in 64-bit
    arithmetic; the summary's inputs and outputs add up to it, its invocation
    count is their number, and its per-tool and per-category figures are the sums
    over the entries of that tool and that category. *)
Theorem tracker_balances (ops : list tracker_op) :
  let t := foldl run_tracker_op NewTracker ops in
  let es := since_reset ops in
  let s := Summary t in
  Total t = wrap64 (sum_of tokens es) ∧
  add64 (TotalInputTokens s) (TotalOutputTokens s) = Total t ∧
  TotalInvocations s = wrap64 (Z.of_nat (length es)) ∧
  (∀ tool, default 0 (ByTool s !! tool) = wrap64 (sum_of tokens (with_key u_ToolName tool es))) ∧
  (∀ c, default 0 (ByCategory s !! c) = wrap64 (sum_of tokens (with_key u_Category c es))).
Proof.
  intros t es s. destruct (run_tracker_spec ops) as [He Ht].
  destruct (Summary_spec es) as (H1 & H2 & H3 & H4 & H5).
  unfold s, Summary, Total. fold t in He, Ht. rewrite He. fold es. rewrite Ht, He. fold es.
  rewrite H1, H2, add64_wrap_lr, <- sum_of_tokens. done.
Qed.

Section TokenBudget.
Context {Ctx Req W : Type} (marshal : json → option string) (Params_Arguments : Req → option json)
  (now : W → time).
Context `{!Cell W Tracker} `{!CellLaws W Tracker} `{!Cell W (option CostPolicy)}.
Context (holder_store : Ctx → Z → Z → W → W) (runs : W → nat).
Context (cfg : Config W) (name : string) (td : ToolDefinition (ToolHandlerFunc Ctx Req W))
  (next : ToolHandlerFunc Ctx Req W).

(** The tracker is a cell of the world that only the middleware writes, and
    [runs] counts the handler's runs. *)
Notation get_tracker w := (peek (A := Tracker) w).
Hypothesis put_runs : ∀ (t : Tracker) w, runs (poke t w) = runs w.
Hypothesis policy_quiet : ∀ (cp : option CostPolicy) w,
  get_tracker (poke cp w) = get_tracker w ∧ runs (poke cp w) = runs w.
Hypothesis holder_quiet : ∀ ctx i o w,
  get_tracker (holder_store ctx i o w) = get_tracker w ∧ runs (holder_store ctx i o w) = runs w.
Hypothesis exceeded_quiet : ∀ f e s w, OnBudgetExceeded cfg = Some f →
  get_tracker (f e s w) = get_tracker w ∧ runs (f e s w) = runs w.
Hypothesis next_tracker : ∀ ctx req w, get_tracker (next ctx req w).2 = get_tracker w.
Hypothesis next_runs : ∀ ctx req w, runs (next ctx req w).2 = S (runs w).

Notation mw := (FinopsMiddleware marshal Params_Arguments now holder_store cfg name td next).

Lemma charge_quiet i o w :
  get_tracker (charge i o w).2 = get_tracker w ∧
  runs (charge i o w).2 = runs w.
Proof.
  unfold charge. destruct (peek w) as [cp|]; [|done].
  destruct (RecordCost _ _) as [err cp']. apply policy_quiet.
Qed.

(** One call either is refused, or runs the handler once and records one entry,
    or runs the handler once and panics with it. *)
Lemma middleware_step ctx req w :
  let '(o, w') := mw ctx req w in
  (0 < TokenBudget cfg ∧ TokenBudget cfg <= Total (get_tracker w) ∧
   get_tracker w' = get_tracker w ∧ runs w' = runs w ∧ panicked o = false) ∨
  ((TokenBudget cfg <= 0 ∨ Total (get_tracker w) < TokenBudget cfg) ∧ runs w' = S (runs w) ∧
   ((panicked o = true ∧ get_tracker w' = get_tracker w) ∨
    (panicked o = false ∧ ∃ e, get_tracker w' = Record_ (get_tracker w) e))).
Proof.
  unfold FinopsMiddleware. destruct (_ && _) eqn:E.
  - to_prop. left. destruct (OnBudgetExceeded cfg) as [f|] eqn:Ef; [|done].
    match goal with |- context [f ?e ?s w] => destruct (exceeded_quiet f e s w eq_refl) as [-> ->] end. done.
  - assert (TokenBudget cfg <= 0 ∨ Total (get_tracker w) < TokenBudget cfg) as HB
      by (apply andb_false_iff in E; rewrite Z.ltb_ge, Z.leb_gt in E; lia).
    pose proof (next_tracker ctx req w) as Ht. pose proof (next_runs ctx req w) as Hr.
    destruct (next ctx req w) as [[result err|v] w1]; simpl in *; [|by right; eauto].
    set (i := EstimateFromRequest _ _ req _). set (o := EstimateFromResult result _).
    set (e := mkentry _ _ _ _ _ _). set (w3 := holder_store ctx i o _).
    assert (get_tracker w3 = Record_ (get_tracker w) e ∧ runs w3 = S (runs w)) as [Ht3 Hr3].
    { unfold w3. destruct (holder_quiet ctx i o (poke (Record_ (get_tracker w1) e) w1)) as [-> ->].
      by rewrite peek_poke, put_runs, Ht, Hr. }
    destruct (charge_quiet i o w3) as [Ht4 Hr4].
    destruct (charge i o w3) as [[msg|] w4]; simpl in *;
      right; rewrite Ht4, Hr4; (split; [done|split; [done|right; eauto]]).
Qed.

Lemma run_calls_spend calls w :
  tracker_ok (get_tracker w) → 0 < TokenBudget cfg →
  let '(os, w') := run_calls mw calls w in
  tracker_ok (get_tracker w') ∧
  ∃ recorded, entries (get_tracker w') = entries (get_tracker w) ++ recorded ∧
    runs w' = (runs w + length recorded + length (filter (λ o, panicked o = true) os))%nat ∧
    ∀ before e after, recorded = before ++ e :: after →
      wrap64 (sum_of tokens (entries (get_tracker w) ++ before)) < TokenBudget cfg.
Proof.
  revert w. induction calls as [|[ctx req] calls IH]; intros w Hok HB; cbn [run_calls].
  { split; [done|]. exists []. rewrite app_nil_r. split_and!; [done|simpl; lia|].
    intros [|] ? ?; discriminate. }
  pose proof (middleware_step ctx req w) as Hs. destruct (mw ctx req w) as [o w1].
  destruct Hs as [(_ & _ & Ht & Hr & Hp)|([?|Hlt] & Hr & Hcase)]; [|lia|].
  - specialize (IH w1). rewrite Ht, Hr in IH. specialize (IH Hok HB).
    destruct (run_calls mw calls w1) as [os w2]. rewrite filter_cons_False by congruence. done.
  - destruct Hcase as [[Hp Ht]|[Hp [e Ht]]]; specialize (IH w1); rewrite Ht, Hr in IH.
    + specialize (IH Hok HB). destruct (run_calls mw calls w1) as [os w2].
      rewrite filter_cons_True by done. destruct IH as [IH1 (rec & Hrec & Hruns & IH2)].
      split; [done|]. exists rec. split_and!; [done|simpl; lia|done].
    + specialize (IH (Record_ok _ _ Hok) HB). destruct (run_calls mw calls w1) as [os w2].
      rewrite filter_cons_False by congruence. destruct IH as [IH1 (rec & Hrec & Hruns & IH2)].
      split; [done|]. exists (e :: rec). simpl in Hrec. rewrite <- app_assoc in Hrec.
      split_and!; [done|simpl; lia|].
      intros [|x before] e' after; simpl; intros [= <- Heq].
      * rewrite app_nil_r. by rewrite <- Hok.
      * specialize (IH2 before e' after Heq). simpl in IH2. by rewrite <- app_assoc in IH2.
Qed.

(** The token budget holds: over any sequence of calls through the
    middleware the handler runs once for every recorded entry and every panic,
    and no entry is recorded when the ones before it already exhausted the
    budget - so spending passes the limit by at most one call's tokens. *)
Theorem token_budget_bounds_spend calls w :
  tracker_ok (get_tracker w) → 0 < TokenBudget cfg →
  let '(os, w') := run_calls mw calls w in
  ∃ recorded, entries (get_tracker w') = entries (get_tracker w) ++ recorded ∧
    Total (get_tracker w') = wrap64 (sum_of tokens (entries (get_tracker w) ++ recorded)) ∧
    runs w' = (runs w + length recorded + length (filter (λ o, panicked o = true) os))%nat ∧
    ∀ before e after, recorded = before ++ e :: after →
      wrap64 (sum_of tokens (entries (get_tracker w) ++ before)) < TokenBudget cfg.
Proof.
  intros Hok HB. pose proof (run_calls_spend calls w Hok HB) as H.
  destruct (run_calls mw calls w) as [os w']. destruct H as [Hok' (rec & He & Hr & Hb)].
  exists rec. split_and!; [done|by rewrite <- He|done..].
Qed.
End TokenBudget.

(** ** Scopes *)
Section ScopedBudgets.
Context {Ctx Req W : Type} (marshal : json → option string) (Params_Arguments : Req → option json).
Context `{!Cell W ScopedTracker} `{!CellLaws W ScopedTracker}.
Context (resolver : Ctx → option BudgetScope) (est : option (string → Z)).
Context (name : string) (td : ToolDefinition (ToolHandlerFunc Ctx Req W))
  (next : ToolHandlerFunc Ctx Req W).
Notation get_scopes w := (peek (A := ScopedTracker) w).
Hypothesis next_scopes : ∀ ctx req w, get_scopes (next ctx req w).2 = get_scopes w.

Notation mw := (ScopedMiddleware marshal Params_Arguments
  (Some resolver) est name td next).

(** A scope's tracker, a new one when there is none yet. *)
Definition tracker_of (st : ScopedTracker) (s : BudgetScope) : Tracker :=
  default NewTracker (scoped st !! s).

(** [exhausted strict st s]: the scope's budget refuses. *)
Definition exhausted (strict : bool) (st : ScopedTracker) (s : BudgetScope) : bool :=
  match budgets st !! s with
  | Some b => (0 <? MaxTokens b) &&
              (if strict then MaxTokens b <? Total (tracker_of st s)
               else MaxTokens b <=? Total (tracker_of st s))
  | None => false
  end.

Lemma GetTracker_spec st s :
  let '(t, st') := GetTracker st s in
  t = tracker_of st s ∧ budgets st' = budgets st ∧ global st' = global st ∧
  ∀ s', tracker_of st' s' = tracker_of st s'.
Proof.
  unfold GetTracker, tracker_of. destruct (scoped st !! s) as [t|] eqn:E; [done|].
  split_and!; [done..|]. intros s'. simpl. destruct (decide (s = s')) as [<-|].
  - rewrite lookup_insert_eq, E. done.
  - by rewrite lookup_insert_ne.
Qed.

Lemma over_budget_spec strict s w :
  let '(r, w') := over_budget strict s w in
  bool_decide (is_Some r) = exhausted strict (get_scopes w) s ∧
  budgets (get_scopes w') = budgets (get_scopes w) ∧
  global (get_scopes w') = global (get_scopes w) ∧
  (∀ s', tracker_of (get_scopes w') s' = tracker_of (get_scopes w) s').
Proof.
  unfold over_budget, exhausted. destruct (budgets (get_scopes w) !! s) as [b|] eqn:E; [|done].
  destruct (0 <? MaxTokens b); simpl; [|done].
  pose proof (GetTracker_spec (get_scopes w) s) as H.
  destruct (GetTracker (get_scopes w) s) as [t st']. destruct H as (-> & Hb & Hg & Ht).
  destruct (if strict then _ else _); simpl; rewrite peek_poke; split_and!; try done.
Qed.

Lemma record_scoped_spec s e st :
  let st' := record_scoped s e (record_global e st) in
  budgets st' = budgets st ∧ global st' = Record_ (global st) e ∧
  ∀ s', tracker_of st' s' =
    if decide (s = s') then Record_ (tracker_of st s') e else tracker_of st s'.
Proof.
  unfold record_scoped. pose proof (GetTracker_spec (record_global e st) s) as H.
  destruct (GetTracker _ s) as [t st1]. destruct H as (-> & Hb & Hg & Ht). simpl.
  split_and!; [done..|]. intros s'. unfold tracker_of at 1. simpl. case_decide as E.
  - subst. by rewrite lookup_insert_eq.
  - rewrite lookup_insert_ne by done. apply (Ht s').
Qed.

(** Budgets are isolated: a call on behalf of one scope never changes another
    scope's tracker or any budget.  It is refused, without running the handler,
    exactly when the scope's own tracker has reached its token budget; otherwise
    the handler runs, the entry goes once to the global tracker and once to the
    scope's, and the handler's outcome is passed on unless that entry pushed the
    scope over its budget. *)
Theorem scoped_budgets_isolated ctx req s w :
  resolver ctx = Some s →
  let '(o, w') := mw ctx req w in
  let st := get_scopes w in
  let st' := get_scopes w' in
  budgets st' = budgets st ∧
  (∀ s', s' ≠ s → tracker_of st' s' = tracker_of st s') ∧
  if exhausted false st s then
    (∃ r, o = Returns (Some (MakeErrorResult r)) None) ∧
    global st' = global st ∧ tracker_of st' s = tracker_of st s
  else ∃ w0, (∀ s', tracker_of (get_scopes w0) s' = tracker_of st s') ∧
    match (next ctx req w0).1 with
    | Panics v => o = Panics v ∧ global st' = global st ∧ tracker_of st' s = tracker_of st s
    | Returns result err => ∃ e,
        global st' = Record_ (global st) e ∧
        tracker_of st' s = Record_ (tracker_of st s) e ∧
        if exhausted true st' s
        then ∃ r, o = Returns (Some (MakeErrorResult r)) None
        else o = Returns result err
    end.
Proof.
  intros Hs. unfold ScopedMiddleware. simpl. rewrite Hs.
  pose proof (over_budget_spec false s w) as H0.
  destruct (over_budget false s w) as [r w1]. destruct H0 as (Hr & Hb1 & Hg1 & Ht1).
  destruct r as [lu|]; simpl in Hr; rewrite <- Hr.
  { split_and!; [done|auto|eexists; reflexivity|done|done]. }
  pose proof (next_scopes ctx req w1) as Hn.
  destruct (next ctx req w1) as [[result err|v] w2] eqn:En; simpl in Hn.
  2: { rewrite Hn. split_and!; [done|auto|]. exists w1. rewrite En. simpl. rewrite Hg1. auto. }
  set (e := mkentry _ _ _ _ _ _). rewrite peek_poke.
  set (w4 := poke (record_scoped s e _) _).
  assert (get_scopes w4 = record_scoped s e (record_global e (get_scopes w1))) as Hw4
    by (unfold w4; by rewrite peek_poke, Hn).
  destruct (record_scoped_spec s e (get_scopes w1)) as (Hb4 & Hg4 & Ht4). rewrite <- Hw4 in Hb4, Hg4, Ht4.
  pose proof (over_budget_spec true s w4) as H5.
  destruct (over_budget true s w4) as [r5 w5]. destruct H5 as (Hr5 & Hb5 & Hg5 & Ht5).
  assert (exhausted true (get_scopes w5) s = exhausted true (get_scopes w4) s) as Hex
    by (unfold exhausted; by rewrite Hb5, Ht5).
  assert (tracker_of (get_scopes w5) s = Record_ (tracker_of (get_scopes w) s) e)
    by (rewrite Ht5, Ht4, decide_True by done; by rewrite Ht1).
  assert (∀ s', s' ≠ s → tracker_of (get_scopes w5) s' = tracker_of (get_scopes w) s')
    by (intros s' Hne; rewrite Ht5, Ht4, decide_False by done; apply Ht1).
  destruct r5 as [lu|]; simpl in Hr5.
  - split_and!; [congruence|done|]. exists w1. rewrite En. simpl. split; [done|].
    exists e. rewrite Hex, <- Hr5. split_and!; [congruence|done|eexists; reflexivity].
  - split_and!; [congruence|done|]. exists w1. rewrite En. simpl. split; [done|].
    exists e. rewrite Hex, <- Hr5. split_and!; [congruence|done|done].
Qed.
End ScopedBudgets.

(** The middleware charges the empty model name, so a policy priced by model
    names never charges anything and its dollar budget is never reached. *)
Lemma unnamed_model_is_free cp i o :
  pricing cp !! "" = None → totalCost cp = float_zero →
  ∃ cp', RecordCost cp (EstimateCost cp "" i o) = (None, cp') ∧ totalCost cp' = float_zero.
Proof.
  intros Hp Ht. unfold EstimateCost. rewrite Hp. unfold RecordCost. rewrite Ht.
  replace (float_add float_zero float_zero) with float_zero by done.
  destruct (float_lt float_zero (dollarBudget cp)) eqn:E; simpl; [|by eexists].
  destruct (float_lt (dollarBudget cp) float_zero) eqn:E2; [|by eexists].
  exfalso. unfold float_lt, float_zero in *. destruct (dollarBudget cp) as [[]|[]| |[] m e];
    vm_compute in E, E2; congruence.
Qed.

(** ** Witnesses

    A world that is the tracker and the number of the handler's runs. *)
Definition toy : Type := Tracker * nat.
#[local] Instance toy_tracker : Cell toy Tracker := fst_cell.
#[local] Instance toy_tracker_laws : CellLaws toy Tracker := fst_cell_laws.
#[local] Instance toy_policy : Cell toy (option CostPolicy) :=
  {| peek := λ _, None; poke := λ _ w, w |}.
Definition toy_next : ToolHandlerFunc unit unit toy :=
  λ _ _ w, (Returns (Some (MakeErrorResult "done")) None, (w.1, S w.2)).
Definition toy_cfg : Config toy :=
  {| TokenBudget := 1; EstimateFunc := None; OnBudgetExceeded := None |}.
Definition toy_tool : ToolDefinition (ToolHandlerFunc unit unit toy) :=
  plain_definition toy_next plain_tool.

Definition toy_handler : ToolHandlerFunc unit unit toy :=
  FinopsMiddleware (λ _, None) (λ _, None) (λ _, 0) (λ _ _ _ w, w) toy_cfg "t" toy_tool toy_next.

Lemma token_budget_bounds_spend_witness :
  (run_calls toy_handler [(tt, tt); (tt, tt); (tt, tt)] (NewTracker, 0%nat)).2.2 = 1%nat ∧
  let '(os, w') := run_calls toy_handler [(tt, tt); (tt, tt); (tt, tt)] (NewTracker, 0%nat) in
  ∃ recorded, entries w'.1 = entries NewTracker ++ recorded ∧
    Total w'.1 = wrap64 (sum_of tokens (entries NewTracker ++ recorded)) ∧
    w'.2 = (0 + length recorded + length (filter (λ o, panicked o = true) os))%nat ∧
    ∀ before e after, recorded = before ++ e :: after →
      wrap64 (sum_of tokens (entries NewTracker ++ before)) < TokenBudget toy_cfg.
Proof.
  split; [vm_compute; reflexivity|].
  exact (token_budget_bounds_spend (λ _, None) (λ _, None) (λ _, 0) (λ _ _ _ w, w) snd
    toy_cfg "t" toy_tool toy_next
    (λ _ _, eq_refl) (λ _ _, conj eq_refl eq_refl)
    (λ _ _ _ _, conj eq_refl eq_refl) (λ _ _ _ _ H, ltac:(discriminate H))
    (λ _ _ _, eq_refl) (λ _ _ _, eq_refl) [(tt, tt); (tt, tt); (tt, tt)] (NewTracker, 0%nat)
    eq_refl eq_refl).
Defined.

Definition team : BudgetScope := ("acme", "ada", "s1").
Definition toy_scopes : ScopedTracker :=
  SetBudget (NewScopedTracker NewTracker) team {| MaxTokens := 10; MaxDollars := float_zero |}.
Definition toy_scoped_next : ToolHandlerFunc unit unit ScopedTracker :=
  λ _ _ w, (Returns (Some (MakeErrorResult "done")) None, w).

Lemma scoped_budgets_isolated_witness :
  let '(o, w') := ScopedMiddleware (λ _, None) (λ _, None) (Some (λ _, Some team)) None
    "t" (plain_definition toy_scoped_next plain_tool) toy_scoped_next tt tt toy_scopes in
  budgets w' = budgets toy_scopes ∧
  ∀ s', s' ≠ team → tracker_of w' s' = tracker_of toy_scopes s'.
Proof.
  pose proof (scoped_budgets_isolated (λ _, None) (λ _, None) (λ _, Some team) None
    "t" (plain_definition toy_scoped_next plain_tool) toy_scoped_next
    (λ _ _ _, eq_refl) tt tt team toy_scopes eq_refl) as H.
  destruct (ScopedMiddleware _ _ _ _ _ _ _ _ _ _) as [o w'].
  destruct H as (H1 & H2 & _). split; [exact H1|exact H2].
Defined.
