(* ===== verification/Sanitize.v ===== *)
(** Input and output sanitisation (src/sanitize/): the confinement of paths to a
    base directory, the validators of names and paths, the URI policy, and the
    redaction of tool output.  Paths are those of Unix. *)

From stdpp Require Import base tactics list sets gmap strings pretty.
From Stdlib Require Import ZArith Lia.
From S2P Require Import Prelude Tool Truncate.

Local Open Scope Z_scope.

(** ** [path/filepath] on Unix, from the Go standard library *)
Definition slash : Ascii.ascii := Ascii.ascii_of_nat 47.
Definition Separator : string := String slash EmptyString.

(** [strings.Split(s, sep)] for a one-byte separator; [cur] is the piece being read. *)
Fixpoint split_aux (sep : Ascii.ascii) (cur : string) (s : string) : list string :=
  match s with
  | EmptyString => [cur]
  | String c s' =>
      if bool_decide (c = sep) then cur :: split_aux sep EmptyString s'
      else split_aux sep (cur +:+ String c EmptyString) s'
  end.
Definition split (sep : Ascii.ascii) (s : string) : list string := split_aux sep EmptyString s.

Definition IsAbs (path : string) : bool := has_prefix Separator path.

(** [Clean] reads the components left to right onto a stack (top first). *)
Definition clean_step (rooted : bool) (stack : list string) (comp : string) : list string :=
  if bool_decide (comp = "") || bool_decide (comp = ".") then stack
  else if bool_decide (comp = "..") then
    match stack with
    | top :: rest => if bool_decide (top = "..") then comp :: stack else rest
    | [] => if rooted then [] else [comp]
    end
  else comp :: stack.

Definition clean_comps (rooted : bool) (comps : list string) : list string :=
  rev (foldl (clean_step rooted) [] comps).

Definition Clean (path : string) : string :=
  let comps := clean_comps (IsAbs path) (split slash path) in
  if IsAbs path then Separator +:+ join Separator comps
  else match comps with [] => "." | _ => join Separator comps end.

Definition Join (elem : list string) : string :=
  match filter (λ e, e ≠ "") elem with
  | [] => ""
  | l => Clean (join Separator l)
  end.

(** [Abs]; [getwd] is the working directory or the error of asking for it. *)
Definition Abs (getwd : error + string) (path : string) : error + string :=
  if IsAbs path then inr (Clean path)
  else match getwd with
       | inl err => inl err
       | inr wd => inr (Join [wd; path])
       end.

(** ** Validators (sanitize.go); [None] is a nil error *)
Definition invalid (msg : string) : option error := Some (Err msg).

Definition SafePath (getwd : error + string) (base path : string) : option error :=
  if bool_decide (path = "") then invalid "path must not be empty"
  else if IsAbs path then invalid ("path " +:+ quote path +:+ " must be relative")
  else match Abs getwd base with
  | inl err => Some (ErrWrap "invalid base path: " err "")
  | inr absBase =>
      let joined := Join [absBase; path] in
      match Abs getwd joined with
      | inl err => Some (ErrWrap "invalid path: " err "")
      | inr resolved =>
          if negb (has_prefix (absBase +:+ Separator) resolved) && bool_decide (resolved ≠ absBase)
          then invalid ("path " +:+ quote path +:+ " escapes base directory")
          else None
      end
  end.

(** Character classes of the regular expressions. *)
Definition code (a : Ascii.ascii) : nat := Ascii.nat_of_ascii a.
Definition in_range (lo hi : nat) (a : Ascii.ascii) : bool := ((lo <=? code a) && (code a <=? hi))%nat.
Definition is_digit : Ascii.ascii → bool := in_range 48 57.
Definition is_letter (a : Ascii.ascii) : bool := in_range 65 90 a || in_range 97 122 a.
Definition alnum (a : Ascii.ascii) : bool := is_letter a || is_digit a.
Fixpoint one_of (s : string) (a : Ascii.ascii) : bool :=
  match s with EmptyString => false | String b s' => bool_decide (a = b) || one_of s' a end.
Definition class (extra : string) (a : Ascii.ascii) : bool := alnum a || one_of extra a.

(** [^[class]+$] and [^prefix[class]+$] *)
Fixpoint all_in (p : Ascii.ascii → bool) (s : string) : bool :=
  match s with EmptyString => true | String a s' => p a && all_in p s' end.
Definition match_plus (p : Ascii.ascii → bool) (s : string) : bool :=
  bool_decide (s ≠ "") && all_in p s.
Definition match_prefix_plus (prefix : string) (p : Ascii.ascii → bool) (s : string) : bool :=
  has_prefix prefix s && match_plus p (string_drop (String.length prefix) s).

Definition mediaPathRe : string → bool := match_plus (class "/_.- ").
Definition usernameRe : string → bool := match_plus (class "_.-").
Definition driveLetterRe (s : string) : bool :=
  match s with String a EmptyString => is_letter a | _ => false end.
Definition operatorPathRe : string → bool := match_prefix_plus "/" (class "_/").
Definition devicePathLinuxRe : string → bool := match_prefix_plus "/dev/" (class "_/").
Definition devicePathWindowsRe : string → bool :=
  match_prefix_plus (backslash +:+ backslash +:+ "." +:+ backslash +:+ "PHYSICALDRIVE") is_digit.
Definition mountPointRe : string → bool := match_prefix_plus "/" (class "_/.-").
(** [^[a-zA-Z0-9_-]+:], a prefix match. *)
Fixpoint remote_name_from (seen : bool) (s : string) : bool :=
  match s with
  | EmptyString => false
  | String a s' =>
      if class "_-" a then remote_name_from true s'
      else seen && bool_decide (a = Ascii.ascii_of_nat 58)
  end.
Definition rcloneRemoteNameRe : string → bool := remote_name_from false.
Definition rcloneRemotePathRe : string → bool := match_plus (class "_-./@ ").
Definition rcloneLocalPathRe : string → bool := match_plus (class "_-./@ ").

Definition allowedFileSystems : list string :=
  ["ext4"; "ext3"; "ext2"; "xfs"; "btrfs"; "zfs"; "ntfs"; "vfat"; "exfat"; "fat32"; "hfs+";
   "apfs"; "auto"].

Definition Username (s : string) : option error :=
  if bool_decide (s = "") then invalid "username must not be empty"
  else if 255 <? bytes s then invalid "username too long (max 255 chars)"
  else if negb (usernameRe s)
  then invalid "username contains invalid characters (allowed: a-z, 0-9, _, ., -)"
  else None.

Definition DriveLetter (s : string) : option error :=
  if driveLetterRe s then None
  else invalid ("invalid drive letter " +:+ quote s +:+ " (must be a single letter A-Z)").

Definition DevicePath (s : string) : option error :=
  if bool_decide (s = "") then invalid "device path must not be empty"
  else if devicePathLinuxRe s || devicePathWindowsRe s then None
  else invalid ("invalid device path " +:+ quote s +:+ " (expected /dev/... or " +:+
                backslash +:+ backslash +:+ "." +:+ backslash +:+ "PHYSICALDRIVEN)").

Definition FileSystemType (s : string) : option error :=
  if existsb (λ t, bool_decide (t = to_lower s)) allowedFileSystems then None
  else invalid ("invalid filesystem type " +:+ quote s +:+
                " (allowed: ext4, xfs, btrfs, ntfs, vfat, exfat, zfs)").

Definition MountPoint (s : string) : option error :=
  if bool_decide (s = "") then invalid "mount point must not be empty"
  else if negb (mountPointRe s)
  then invalid ("invalid mount point " +:+ quote s +:+ " (must be absolute path with safe characters)")
  else if contains ".." s then invalid ("mount point " +:+ quote s +:+ " must not contain '..'")
  else None.

Definition OperatorPath (s : string) : option error :=
  if bool_decide (s = "") then invalid "operator path must not be empty"
  else if 512 <? bytes s then invalid "operator path too long (max 512 chars)"
  else if negb (operatorPathRe s)
  then invalid "operator path contains invalid characters (must match /[a-zA-Z0-9_/]+)"
  else None.

Definition MediaPath (s : string) : option error :=
  if bool_decide (s = "") then invalid "media path must not be empty"
  else if 4096 <? bytes s then invalid "media path too long (max 4096 chars)"
  else if negb (IsAbs s) then invalid ("media path " +:+ quote s +:+ " must be absolute")
  else if contains ".." s then invalid ("media path " +:+ quote s +:+ " must not contain '..'")
  else if negb (mediaPathRe s)
  then invalid ("media path " +:+ quote s +:+
                " contains invalid characters (allowed: alphanumeric, /, ., -, _, space)")
  else None.

(** [strings.Index(s, ":")] and the split there. *)
Fixpoint index_colon (s : string) : option nat :=
  match s with
  | EmptyString => None
  | String a s' => if bool_decide (a = Ascii.ascii_of_nat 58) then Some O else S <$> index_colon s'
  end.

Definition rclone_remote (s : string) (idx : nat) : option error :=
  let remoteName := string_take (idx + 1) s in
  if negb (rcloneRemoteNameRe remoteName)
  then invalid ("invalid rclone remote name in " +:+ quote s +:+ " (must match [a-zA-Z0-9_-]+:)")
  else
    let remotePath := string_drop (idx + 1) s in
    if bool_decide (remotePath ≠ "") then
      if contains ".." remotePath
      then invalid ("rclone remote path " +:+ quote s +:+ " must not contain '..'")
      else if negb (rcloneRemotePathRe remotePath)
      then invalid ("rclone remote path " +:+ quote s +:+ " contains invalid characters")
      else None
    else None.

Definition rclone_local (s : string) : option error :=
  if negb (IsAbs s) then invalid ("local rclone path " +:+ quote s +:+ " must be absolute")
  else if contains ".." s then invalid ("rclone path " +:+ quote s +:+ " must not contain '..'")
  else if negb (rcloneLocalPathRe s)
  then invalid ("rclone path " +:+ quote s +:+ " contains invalid characters")
  else None.

Definition RclonePath (s : string) : option error :=
  if bool_decide (s = "") then invalid "rclone path must not be empty"
  else if 4096 <? bytes s then invalid "rclone path too long (max 4096 chars)"
  else match index_colon s with
       | Some (S idx) => rclone_remote s (S idx)
       | _ => rclone_local s
       end.

(** ** URIs (uri.go)

    [net/url] is a parameter: what [url.Parse] returns, with [Hostname()]. *)
Record URL := { Scheme : string; Hostname : string; Path : string; RawPath : string }.

Record URIPolicy := {
  AllowedSchemes : list string;
  BlockedHosts : list string;
  MaxLength : Z;
  AllowDotDot : bool
}.

Definition DefaultURIPolicy : URIPolicy := {|
  AllowedSchemes := ["http"; "https"; "file"];
  BlockedHosts := ["169.254.169.254"; "localhost"; "127.0.0.1"; "[::1]"; "::1"; "0.0.0.0"];
  MaxLength := 4096; AllowDotDot := false |}.

Fixpoint has_byte (b : Ascii.ascii) (s : string) : bool :=
  match s with EmptyString => false | String a s' => bool_decide (a = b) || has_byte b s' end.

Definition same_fold (a b : string) : bool := bool_decide (to_lower a = to_lower b).

Definition dotdot_segment (p : string) : bool :=
  bool_decide (p ≠ "") && existsb (λ segment, bool_decide (segment = "..")) (split slash p).

Definition ValidateURI (parse : string → error + URL) (raw : string) (policy : URIPolicy) :
    error + string :=
  let maxLen := if MaxLength policy =? 0 then 4096 else MaxLength policy in
  if maxLen <? bytes raw
  then inl (Err ("URI length " +:+ itoa (bytes raw) +:+ " exceeds maximum " +:+ itoa maxLen))
  else if has_byte Ascii.zero raw then inl (Err "URI contains null byte")
  else match parse raw with
  | inl err => inl (ErrWrap "URI is not parseable: " err "")
  | inr parsed =>
      if negb (Nat.eqb (length (AllowedSchemes policy)) 0) &&
         negb (existsb (λ s, same_fold s (Scheme parsed)) (AllowedSchemes policy))
      then inl (Err ("URI scheme " +:+ quote (Scheme parsed) +:+ " is not allowed (allowed: " +:+
                     join ", " (AllowedSchemes policy) +:+ ")"))
      else if existsb (λ h, same_fold h (Hostname parsed)) (BlockedHosts policy)
      then inl (Err ("URI host " +:+ quote (Hostname parsed) +:+ " is blocked"))
      else if negb (AllowDotDot policy) && existsb dotdot_segment [Path parsed; RawPath parsed]
      then inl (Err ("URI path contains disallowed " +:+ dquote +:+ ".." +:+ dquote +:+ " segment"))
      else inr raw
  end.

(** ** Redaction of tool output (output.go, patterns.go)

    [regexp] is a parameter: the type of compiled expressions, [MustCompile], the
    start of every match, and [ReplaceAllString]. *)
Section Redaction.
Context {Regex : Type}.
Variable MustCompile : string → Regex.
Variable FindAllIndex : Regex → string → list Z.
Variable ReplaceAllString : Regex → string → string → string.

Record Pattern := { p_Name : string; p_Regex : option Regex; Replacement : string }.
Record Finding := { f_Pattern : string; Position : Z }.

Record OutputPolicy := {
  RedactSecrets : bool;
  RedactPII : bool;
  StripInjection : bool;
  CustomPatterns : list Pattern;
  AllowList : list string
}.

Definition builtin (name expr replacement : string) : Pattern :=
  {| p_Name := name; p_Regex := Some (MustCompile expr); Replacement := replacement |}.

Definition builtinSecretPatterns : list Pattern := [
  builtin "aws_access_key" "AKIA[0-9A-Z]{16}" "[REDACTED:AWS_KEY]";
  builtin "generic_secret" "(?i)(api[_-]?key|secret|token|password|bearer)\s*[:=]\s*\S+"
    "[REDACTED:SECRET]"].
Definition builtinPIIPatterns : list Pattern := [
  builtin "ssn" "\b\d{3}-\d{2}-\d{4}\b" "[REDACTED:SSN]";
  builtin "email" "\b[a-zA-Z0-9._%+\-]+@[a-zA-Z0-9.\-]+\.[a-zA-Z]{2,}\b" "[REDACTED:EMAIL]";
  builtin "phone" "\b\d{3}[-.]?\d{3}[-.]?\d{4}\b" "[REDACTED:PHONE]"].
Definition builtinInjectionPatterns : list Pattern := [
  builtin "prompt_injection" "(?i)(ignore previous|system:\s|<\|im_start\|>|<\|endoftext\|>)"
    "[REMOVED:INJECTION]"].

Definition active_patterns (policy : OutputPolicy) : list Pattern :=
  (if RedactSecrets policy then builtinSecretPatterns else []) ++
  (if RedactPII policy then builtinPIIPatterns else []) ++
  (if StripInjection policy then builtinInjectionPatterns else []) ++
  CustomPatterns policy.

Definition apply_pattern (acc : string * list Finding) (p : Pattern) : string * list Finding :=
  match p_Regex p with
  | None => acc
  | Some re =>
      let '(out, findings) := acc in
      (ReplaceAllString re out (Replacement p),
       findings ++ map (λ i, {| f_Pattern := p_Name p; Position := i |}) (FindAllIndex re out))
  end.

Definition SanitizeText (text : string) (policy : OutputPolicy) : string * list Finding :=
  foldl apply_pattern (text, []) (active_patterns policy).

Definition sanitize_content (policy : OutputPolicy) (c : Content) : Content :=
  match ExtractTextContent c with
  | None => c
  | Some text => MakeTextContent (SanitizeText text policy).1
  end.

Context {Ctx Req W : Type}.

Definition OutputMiddleware (policy : OutputPolicy) : Middleware Ctx Req W :=
  λ name td next ctx req w,
    match next ctx req w with
    | (Panics v, w1) => (Panics v, w1)
    | (Returns result (Some err), w1) => (Returns result (Some err), w1)
    | (Returns result None, w1) =>
        if existsb (λ n, bool_decide (n = name)) (AllowList policy) then (Returns result None, w1)
        else match result with
        | None => (Returns None None, w1)
        | Some r =>
            (Returns (Some {| r_Content := map (sanitize_content policy) (r_Content r);
                              StructuredContent := StructuredContent r;
                              IsError := IsError r |}) None, w1)
        end
    end.
End Redaction.

(** ** What the properties speak about *)

(** A path component as a directory entry has one, and a clean absolute path as
    the list of its components. *)
Definition name_ok (c : string) : Prop := c ≠ "" ∧ c ≠ "." ∧ c ≠ ".." ∧ has_byte slash c = false.

Definition abs_path (dirs : list string) : string := Separator +:+ join Separator dirs.

(** Following the components of a relative path from the directory [dirs]: a name
    descends, [..] goes up (staying at the root), empty and [.] stay. *)
Definition descend (dirs : list string) (comp : string) : list string :=
  if bool_decide (comp = "") || bool_decide (comp = ".") then dirs
  else if bool_decide (comp = "..") then removelast dirs
  else dirs ++ [comp].
Definition walk (dirs : list string) (path : string) : list string :=
  foldl descend dirs (split slash path).

(** ** Lemmas on [Split], [Join] and [Clean] *)
Lemma has_byte_app b s t : has_byte b (s +:+ t) = has_byte b s || has_byte b t.
Proof. induction s as [|a s IH]; simpl; [done|]. by rewrite IH, orb_assoc. Qed.

Lemma app_String s a t : (s +:+ String a "") +:+ t = s +:+ String a t.
Proof. induction s as [|b s IH]; simpl; [done|]. by rewrite IH. Qed.

Lemma split_aux_app sep cur s t :
  split_aux sep cur (s +:+ String sep t) = split_aux sep cur s ++ split_aux sep "" t.
Proof.
  revert cur. induction s as [|a s IH]; intros cur; cbn.
  - by rewrite bool_decide_true.
  - case_bool_decide; by rewrite IH.
Qed.

Lemma split_aux_none sep cur s : has_byte sep s = false → split_aux sep cur s = [cur +:+ s].
Proof.
  revert cur. induction s as [|a s IH]; intros cur; cbn.
  - intros _. f_equal. induction cur as [|b cur IH]; cbn; congruence.
  - intros [Ha Hs]%orb_false_iff. rewrite Ha, IH by done. by rewrite app_String.
Qed.

Lemma split_app sep s t : has_byte sep s = false → split sep (s +:+ String sep t) = s :: split sep t.
Proof. intros H. unfold split. by rewrite split_aux_app, split_aux_none. Qed.

Lemma split_pieces sep cur s c :
  has_byte sep cur = false → c ∈ split_aux sep cur s → has_byte sep c = false.
Proof.
  revert cur. induction s as [|a s IH]; intros cur Hc; cbn.
  - by intros ->%list_elem_of_singleton.
  - case_bool_decide as E.
    + intros [->|H]%elem_of_cons; [done|]. by eapply IH in H.
    + apply IH. rewrite has_byte_app, Hc. cbn. by rewrite bool_decide_false by congruence.
Qed.

Lemma split_not_nil sep cur s : split_aux sep cur s ≠ [].
Proof. revert cur. induction s as [|a s IH]; intros cur; cbn; [done|]. by case_bool_decide. Qed.

Lemma join_cons sep c l : l ≠ [] → join sep (c :: l) = c +:+ sep +:+ join sep l.
Proof. by destruct l. Qed.

Lemma split_join l :
  l ≠ [] → Forall (λ c, has_byte slash c = false) l → split slash (join Separator l) = l.
Proof.
  induction l as [|c l IH]; [done|]. intros _ [Hc Hl]%Forall_cons.
  destruct (decide (l = [])) as [->|Hne].
  - by apply split_aux_none.
  - rewrite join_cons by done. change (Separator +:+ join Separator l) with (String slash (join Separator l)).
    rewrite split_app by done. by rewrite IH.
Qed.

Lemma split_abs_path X : X ≠ [] → Forall name_ok X → split slash (abs_path X) = "" :: X.
Proof.
  intros Hne H. unfold abs_path.
  change (Separator +:+ join Separator X) with ("" +:+ String slash (join Separator X)).
  rewrite (split_app slash "") by done. rewrite split_join; [done|done|].
  eapply Forall_impl; [exact H|]. by intros c (_ & _ & _ & ?).
Qed.

Lemma descend_ok dirs c :
  Forall name_ok dirs → has_byte slash c = false → Forall name_ok (descend dirs c).
Proof.
  intros Hd Hc. unfold descend. destruct (_ || _) eqn:E; [done|]. to_prop. case_bool_decide.
  - destruct dirs as [|x dirs] using rev_ind; [done|]. rewrite removelast_last.
    by apply Forall_app in Hd as [? _].
  - apply Forall_app. split; [done|]. by apply Forall_singleton.
Qed.

Lemma clean_step_descend dirs c :
  Forall name_ok dirs → clean_step true (rev dirs) c = rev (descend dirs c).
Proof.
  intros Hd. unfold clean_step, descend. destruct (_ || _); [done|].
  case_bool_decide; [|by rewrite rev_app_distr].
  destruct dirs as [|x dirs] using rev_ind; [done|]. rewrite rev_app_distr, removelast_last. simpl.
  apply Forall_app in Hd as [_ [(_ & _ & Hx & _) _]%Forall_cons].
  by rewrite bool_decide_false.
Qed.

Lemma clean_comps_descend comps dirs :
  Forall name_ok dirs → Forall (λ c, has_byte slash c = false) comps →
  foldl (clean_step true) (rev dirs) comps = rev (foldl descend dirs comps) ∧
  Forall name_ok (foldl descend dirs comps).
Proof.
  revert dirs. induction comps as [|c comps IH]; intros dirs Hd; [done|].
  intros [Hc Hcs]%Forall_cons. simpl. rewrite clean_step_descend by done.
  apply IH; [by apply descend_ok|done].
Qed.

Lemma split_Forall s : Forall (λ c, has_byte slash c = false) (split slash s).
Proof. apply Forall_forall. intros c Hc. by eapply split_pieces in Hc. Qed.

(** [Clean] on an absolute path walks it from the root. *)
Lemma Clean_abs path :
  IsAbs path = true → Clean path = abs_path (walk [] path) ∧ Forall name_ok (walk [] path).
Proof.
  intros H. unfold Clean, clean_comps. rewrite H. unfold walk.
  destruct (clean_comps_descend (split slash path) []) as [Hf Hok]; [done|apply split_Forall|].
  change (foldl (clean_step true) [] (split slash path)) with (foldl (clean_step true) (rev []) (split slash path)).
  rewrite Hf, rev_involutive. done.
Qed.

Lemma descend_names X dirs : Forall name_ok X → foldl descend dirs X = dirs ++ X.
Proof.
  revert dirs. induction X as [|c X IH]; intros dirs H; simpl; [by rewrite app_nil_r|].
  apply Forall_cons in H as [(H1 & H2 & H3 & _) HX]. rewrite IH by done.
  unfold descend. rewrite !bool_decide_false by done. simpl. by rewrite <- app_assoc.
Qed.

Lemma walk_abs_path X path :
  Forall name_ok X → walk [] (abs_path X +:+ Separator +:+ path) = walk X path.
Proof.
  intros HX. unfold walk. change (Separator +:+ path) with (String slash path).
  assert (split slash (abs_path X +:+ String slash path) = split slash (abs_path X) ++ split slash path) as ->
    by apply split_aux_app.
  rewrite foldl_app. f_equal. destruct (decide (X = [])) as [->|]; [done|].
  rewrite split_abs_path by done. simpl. by rewrite descend_names.
Qed.

Lemma walk_clean X : Forall name_ok X → walk [] (abs_path X) = X.
Proof.
  intros HX. unfold walk. destruct (decide (X = [])) as [->|]; [done|].
  rewrite split_abs_path by done. simpl. by rewrite descend_names.
Qed.

Lemma Join_abs X path :
  Forall name_ok X → path ≠ "" →
  Join [abs_path X; path] = abs_path (walk X path) ∧ Forall name_ok (walk X path).
Proof.
  intros HX Hp. unfold Join. rewrite !filter_cons_True by done. cbn [filter list_filter].
  change (join Separator [abs_path X; path]) with (abs_path X +:+ Separator +:+ path).
  rewrite <- walk_abs_path by done. by apply Clean_abs.
Qed.

Lemma Abs_form wd path :
  IsAbs wd = true → ∃ X, Abs (inr wd) path = inr (abs_path X) ∧ Forall name_ok X.
Proof.
  intros Hwd. unfold Abs. destruct (IsAbs path) eqn:E.
  { destruct (Clean_abs path E) as [-> H]. eauto. }
  unfold Join. rewrite filter_cons_True by (intros ->; done).
  assert (∀ s, IsAbs s = true → ∃ X, inr (A := error) (Clean s) = inr (abs_path X) ∧ Forall name_ok X) as Hc.
  { intros s Hs. destruct (Clean_abs s Hs) as [-> H]. eauto. }
  destruct (filter _ [path]) as [|p l] eqn:El; [by apply Hc|].
  apply Hc. destruct wd; [done|]. by apply andb_true_iff in Hwd as [? _]; cbn; rewrite andb_true_r.
Qed.

Lemma join_app sep l1 l2 :
  l1 ≠ [] → l2 ≠ [] → join sep (l1 ++ l2) = join sep l1 +:+ sep +:+ join sep l2.
Proof.
  induction l1 as [|c l1 IH]; [done|]. intros _ H2. destruct (decide (l1 = [])) as [->|Hne].
  - cbn [app]. by rewrite join_cons.
  - cbn [app]. rewrite !join_cons by (by destruct l1). rewrite IH by done. by rewrite !string_app_assoc.
Qed.

Lemma split_prefix B X t :
  B ≠ [] → Forall name_ok B → Forall name_ok X →
  abs_path X = (abs_path B +:+ Separator) +:+ t → X = B ++ split slash t.
Proof.
  intros HB HBok HX Heq. apply (f_equal (split slash)) in Heq.
  rewrite string_app_assoc in Heq. change (Separator +:+ t) with (String slash t) in Heq.
  unfold split at 2 in Heq. rewrite split_aux_app in Heq. fold (split slash (abs_path B)) in Heq.
  fold (split slash t) in Heq. rewrite (split_abs_path B) in Heq by done.
  destruct (decide (X = [])) as [->|].
  - exfalso. change (split slash (abs_path [])) with [""; ""] in Heq. apply (f_equal length) in Heq. destruct B; [done|].
    pose proof (split_not_nil slash "" t) as Ht. fold (split slash t) in Ht.
    destruct (split slash t); [done|]. cbn in Heq. rewrite length_app in Heq. cbn in Heq. lia.
  - rewrite split_abs_path in Heq by done. by injection Heq.
Qed.

Lemma abs_path_inj X B : Forall name_ok B → Forall name_ok X → abs_path X = abs_path B → X = B.
Proof. intros HB HX H. rewrite <- (walk_clean X), <- (walk_clean B) by done. by rewrite H. Qed.

Lemma inside_spec B X :
  B ≠ [] → Forall name_ok B → Forall name_ok X →
  has_prefix (abs_path B +:+ Separator) (abs_path X) = true ∨ abs_path X = abs_path B ↔
  ∃ rest, X = B ++ rest.
Proof.
  intros HB HBok HX. split.
  - intros [[t Ht]%has_prefix_spec|H].
    + apply split_prefix in Ht; eauto.
    + apply abs_path_inj in H as ->; [|done..]. exists []. by rewrite app_nil_r.
  - intros [rest ->]. destruct (decide (rest = [])) as [->|Hr]; [right; by rewrite app_nil_r|].
    left. apply has_prefix_spec. exists (join Separator rest). unfold abs_path.
    rewrite join_app by done. by rewrite !string_app_assoc.
Qed.

(** [SafePath] in terms of the two resolved paths. *)
Lemma SafePath_spec wd base path B :
  Abs (inr wd) base = inr (abs_path B) → Forall name_ok B →
  SafePath (inr wd) base path = None ↔
  path ≠ "" ∧ IsAbs path = false ∧
  (has_prefix (abs_path B +:+ Separator) (abs_path (walk B path)) = true ∨
   abs_path (walk B path) = abs_path B).
Proof.
  intros HB HBok. unfold SafePath. case_bool_decide as Hp; [naive_solver|].
  destruct (IsAbs path) eqn:Ea; [naive_solver|]. rewrite HB.
  destruct (Join_abs B path HBok Hp) as [-> HX].
  assert (Abs (inr wd) (abs_path (walk B path)) = inr (abs_path (walk B path))) as ->.
  { unfold Abs. change (IsAbs (abs_path (walk B path))) with true. cbv iota. f_equal.
    destruct (Clean_abs (abs_path (walk B path)) eq_refl) as [-> _]. by rewrite walk_clean. }
  destruct (has_prefix (abs_path B +:+ Separator) (abs_path (walk B path))) eqn:E; cbn [negb andb].
  - split; auto.
  - destruct (decide (abs_path (walk B path) = abs_path B)) as [Heq|Hne].
    + rewrite bool_decide_false by (intros H; by apply H). split; auto.
    + rewrite bool_decide_true by done. split; [done|by intros (_ & _ & [?|?])].
Qed.

(** ** Properties *)

(** C28.  Paths are confined: below a base directory other than the root,
    [SafePath] accepts a path exactly when it is relative, not empty and - walked
    component by component from the base, [..] going up - ends at the base or
    below it; a sibling whose name merely starts like the base's is rejected. *)
Theorem SafePath_confines wd base path :
  IsAbs wd = true →
  ∃ dirs, Forall name_ok dirs ∧ Abs (inr wd) base = inr (abs_path dirs) ∧
    (dirs ≠ [] →
     SafePath (inr wd) base path = None ↔
     path ≠ "" ∧ IsAbs path = false ∧ ∃ rest, walk dirs path = dirs ++ rest).
Proof.
  intros Hwd. destruct (Abs_form wd base Hwd) as (B & HB & HBok). exists B. split_and!; [done..|].
  intros Hne. rewrite SafePath_spec by done. split.
  - intros (Hp & Ha & H). split_and!; [done..|]. apply inside_spec in H; [done..|].
    by destruct (Join_abs B path HBok Hp).
  - intros (Hp & Ha & H). split_and!; [done..|]. apply inside_spec; [done..| |done].
    by destruct (Join_abs B path HBok Hp).
Qed.

(** With the root as base nothing below it is accepted: the prefix tested is two
    slashes. *)
Lemma root_base_rejects wd path :
  SafePath (inr wd) "/" path = None ↔ path ≠ "" ∧ IsAbs path = false ∧ walk [] path = [].
Proof.
  rewrite (SafePath_spec wd "/" path []) by done. split.
  - intros (Hp & Ha & H). split_and!; [done..|].
    destruct (Join_abs [] path (Forall_nil_2 _) Hp) as [_ HX].
    destruct H as [[t Ht]%has_prefix_spec|H]; [|by apply abs_path_inj in H].
    destruct (walk [] path) as [|c X]; [done|].
    apply (f_equal (split slash)) in Ht. rewrite split_abs_path in Ht by done.
    change (split slash ((abs_path [] +:+ Separator) +:+ t)) with ("" :: "" :: split slash t) in Ht.
    injection Ht as -> _. apply Forall_cons in HX as [[? _] _]. done.
  - intros (Hp & Ha & ->). split_and!; [done..|by right].
Qed.

Lemma SafePath_confines_witness :
  ∃ dirs, Forall name_ok dirs ∧ Abs (inr "/home") "/srv/data" = inr (abs_path dirs) ∧
    (dirs ≠ [] →
     SafePath (inr "/home") "/srv/data" "a/../../database" = None ↔
     "a/../../database" ≠ "" ∧ IsAbs "a/../../database" = false ∧
     ∃ rest, walk dirs "a/../../database" = dirs ++ rest).
Proof. apply (SafePath_confines "/home" "/srv/data" "a/../../database"). reflexivity. Defined.

(** *** Validators *)
Lemma split_contains sep cur s c : c ∈ split_aux sep cur s → contains c (cur +:+ s) = true.
Proof.
  revert cur. induction s as [|a s IH]; intros cur; cbn.
  - intros ->%list_elem_of_singleton. apply contains_prefix.
  - case_bool_decide as E; [intros [->|H]%elem_of_cons|intros H].
    + apply contains_prefix.
    + apply IH in H. change (String a s) with (String a "" +:+ s).
      rewrite <- string_app_assoc. apply contains_app_r, H.
    + apply IH in H. by rewrite app_String in H.
Qed.

Lemma no_dotdot s : contains ".." s = false → ".." ∉ split slash s.
Proof. intros H Hin. apply split_contains in Hin. cbn in Hin. congruence. Qed.

Lemma all_in_impl p q s : (∀ a, p a = true → q a = true) → all_in p s = true → all_in q s = true.
Proof.
  intros H. induction s as [|a s IH]; [done|]. cbn. intros [Ha Hs]%andb_true_iff.
  by rewrite H, IH.
Qed.

Lemma all_in_no_dotdot p s : p (Ascii.ascii_of_nat 46) = false → all_in p s = true → contains ".." s = false.
Proof.
  intros Hp. induction s as [|a s IH]; [done|]. intros [Ha Hs]%andb_true_iff.
  cbn. rewrite IH by done. case_bool_decide as E; [|done].
  assert (p a = false) by (subst a; exact Hp). congruence.
Qed.

Lemma match_prefix_plus_spec pre p s :
  match_prefix_plus pre p s = true → ∃ t, s = pre +:+ t ∧ t ≠ "" ∧ all_in p t = true.
Proof.
  unfold match_prefix_plus, match_plus. intros [[t ->]%has_prefix_spec H]%andb_true_iff.
  rewrite string_drop_app in H. to_prop. eauto.
Qed.

(** Letters, digits and the few marks a validated path may hold: nothing a shell
    treats specially but the space. *)
Definition safe_byte : Ascii.ascii → bool := class "_/.-@ ".

Lemma class_safe extra a :
  (∀ b, one_of extra b = true → one_of "_/.-@ " b = true) → class extra a = true → safe_byte a = true.
Proof.
  intros H. unfold safe_byte, class. destruct (alnum a); [done|]. cbn [orb]. apply H.
Qed.

Lemma one_of_subset extra extra' :
  all_in (one_of extra') extra = true → ∀ b, one_of extra b = true → one_of extra' b = true.
Proof.
  intros H b. induction extra as [|x extra IH]; [done|]. cbn in *.
  apply andb_true_iff in H as [Hx H]. intros [->%bool_decide_eq_true|Hb]%orb_true_iff; auto.
Qed.

Lemma all_safe extra s :
  all_in (one_of "_/.-@ ") extra = true → all_in (class extra) s = true → all_in safe_byte s = true.
Proof. intros H. apply all_in_impl. intros a. apply class_safe, one_of_subset, H. Qed.

Definition safe_path (s : string) : Prop :=
  IsAbs s = true ∧ ".." ∉ split slash s ∧ all_in safe_byte s = true.

Lemma rooted_safe p s :
  match_prefix_plus "/" (class p) s = true → all_in (one_of "_/.-@ ") p = true →
  contains ".." s = false → safe_path s.
Proof.
  intros (t & -> & _ & Ht)%match_prefix_plus_spec Hp Hd. split_and!; [done|by apply no_dotdot|].
  change (all_in safe_byte t = true). by apply (all_safe p).
Qed.

Lemma index_colon_spec s idx :
  index_colon s = Some idx → s = string_take idx s +:+ ":" +:+ string_drop (idx + 1) s.
Proof.
  revert idx. induction s as [|a s IH]; intros idx; [done|]. cbn.
  case_bool_decide as E; [intros [= <-]; cbn; by rewrite E|].
  destruct (index_colon s) as [i|]; [|done]. intros [= <-]. cbn. f_equal. by apply IH.
Qed.

(** The name before the colon, as the regular expression accepts it. *)
Lemma remote_name_spec seen s t :
  index_colon (s +:+ ":" +:+ t) = Some (String.length s) →
  remote_name_from seen (s +:+ ":") = true → (seen = true ∨ s ≠ "") ∧ all_in (class "_-") s = true.
Proof.
  revert seen. induction s as [|a s IH]; intros seen Hi H; cbn in *.
  - destruct seen; [auto|done].
  - case_bool_decide as E; [done|]. destruct (class "_-" a) eqn:Ea.
    + destruct (IH true) as [_ Hs]; [|done|]; [|by split; [right|]].
      destruct (index_colon _); [|done]. cbn in Hi. by injection Hi as ->.
    + exfalso. cbn in H. by rewrite andb_false_r in H.
Qed.

Lemma string_take_app a b : string_take (String.length a) (a +:+ b) = a.
Proof. induction a as [|x a IH]; cbn; congruence. Qed.

Lemma index_colon_bound s idx : index_colon s = Some idx → (idx < String.length s)%nat.
Proof.
  revert idx. induction s as [|a s IH]; intros idx; [done|]. cbn.
  case_bool_decide; [intros [= <-]; lia|].
  destruct (index_colon s) as [i|]; [|done]. intros [= <-]. specialize (IH i eq_refl). lia.
Qed.

Lemma rclone_remote_safe s idx :
  index_colon s = Some (S idx) → rclone_remote s (S idx) = None →
  ∃ remote path, s = remote +:+ ":" +:+ path ∧ remote ≠ "" ∧ all_in (class "_-") remote = true ∧
    ".." ∉ split slash path ∧ all_in safe_byte path = true.
Proof.
  intros Hi H. pose proof (index_colon_spec _ _ Hi) as Hs. pose proof (index_colon_bound _ _ Hi) as Hl.
  set (r := string_take (S idx) s) in *. set (q := string_drop (S idx + 1) s) in *.
  assert (String.length r = S idx) as Hr by (unfold r; rewrite string_length_take; lia).
  assert (string_take (S idx + 1) s = r +:+ ":") as Ht.
  { replace (S idx + 1)%nat with (String.length (r +:+ ":")) by (rewrite string_length_app, Hr; cbn; lia).
    rewrite Hs at 1. rewrite <- string_app_assoc. apply string_take_app. }
  unfold rclone_remote in H. rewrite Ht in H. fold q in H.
  destruct (rcloneRemoteNameRe (r +:+ ":")) eqn:En; [|done]. cbn [negb] in H.
  destruct (remote_name_spec false r q) as [Hne Hc]; [by rewrite <- Hs, Hi, Hr|done|].
  exists r, q. destruct Hne as [|Hne]; [done|]. split_and!; [done..| |].
  - destruct (decide (q = "")) as [Eq|Eq]; [rewrite Eq; by intros ?%list_elem_of_singleton|].
    rewrite bool_decide_true in H by done. apply no_dotdot. by destruct (contains ".." q).
  - destruct (decide (q = "")) as [Eq|Eq]; [by rewrite Eq|]. rewrite bool_decide_true in H by done.
    destruct (contains ".." q); [done|]. destruct (rcloneRemotePathRe q) eqn:Ep; [|done].
    unfold rcloneRemotePathRe, match_plus in Ep. to_prop. by apply (all_safe "_-./@ ").
Qed.

Lemma rclone_local_safe s : rclone_local s = None → safe_path s.
Proof.
  unfold rclone_local. repeat case_match; try done. intros _. to_prop.
  unfold rcloneLocalPathRe, match_plus in *. to_prop.
  split_and!; [done|by apply no_dotdot|by apply (all_safe "_-./@ ")].
Qed.

(** Validated paths cannot traverse or smuggle shell syntax: a media path, a
    mount point, an operator path, a Linux device path or a local rclone path
    that is accepted is absolute, has no [..] component and consists of safe
    bytes only; an accepted remote rclone path is a non-empty plain name, a colon
    and a path with the same guarantees save being absolute. *)
Theorem validated_paths_safe s :
  (MediaPath s = None → safe_path s ∧ bytes s <= 4096) ∧
  (MountPoint s = None → safe_path s) ∧
  (OperatorPath s = None → safe_path s ∧ bytes s <= 512) ∧
  (DevicePath s = None → devicePathWindowsRe s = false → safe_path s) ∧
  (RclonePath s = None → safe_path s ∨
     ∃ remote path, s = remote +:+ ":" +:+ path ∧ remote ≠ "" ∧ all_in (class "_-") remote = true ∧
       ".." ∉ split slash path ∧ all_in safe_byte path = true).
Proof.
  split_and!.
  - unfold MediaPath. repeat case_match; try done. intros _. to_prop. split; [|done].
    unfold mediaPathRe, match_plus in *. to_prop. split_and!; [done|by apply no_dotdot|by apply (all_safe "/_.- ")].
  - unfold MountPoint. repeat case_match; try done. intros _. to_prop. by eapply rooted_safe.
  - unfold OperatorPath. repeat case_match; try done. intros _. to_prop. split; [|done].
    eapply rooted_safe; [done..|].
    match goal with H : operatorPathRe s = true |- _ => apply match_prefix_plus_spec in H as (t & -> & _ & Ht) end.
    by eapply (all_in_no_dotdot (class "_/")).
  - unfold DevicePath. intros H Hw. rewrite Hw, orb_false_r in H. repeat case_match; try done.
    match goal with H : devicePathLinuxRe s = true |- _ => apply match_prefix_plus_spec in H as (t & -> & _ & Ht) end.
    assert (all_in (class "_/") ("/dev/" +:+ t) = true) as Ha by exact Ht.
    split_and!; [done|by eapply no_dotdot, (all_in_no_dotdot (class "_/"))|by apply (all_safe "_/")].
  - unfold RclonePath. case_bool_decide; [done|]. destruct (4096 <? _); [done|].
    destruct (index_colon s) as [[|idx]|] eqn:Ei; intros Hn;
      [by left; apply rclone_local_safe| |by left; apply rclone_local_safe].
    right. by eapply rclone_remote_safe.
Qed.

Lemma validated_paths_safe_witness :
  MediaPath "/srv/media/clip 1.mp4" = None ∧ safe_path "/srv/media/clip 1.mp4".
Proof.
  split; [vm_compute; reflexivity|].
  destruct (validated_paths_safe "/srv/media/clip 1.mp4") as [H _].
  apply H. vm_compute. reflexivity.
Defined.
