(* ===== verification/Loop.v ===== *)
(** The autonomous loop (src/ralph/ralph.go, loop.go, prompt.go, checkpoint.go):
    specification and progress, the prompt, the reading of a decision, the
    execution of its tool calls, completion of tasks, and the main loop with its
    guards.  Files, the sampler, the clock, external commands and the optional
    integrations of factor_integration.go are parameters; so is JSON decoding.  The
    events those integrations append to a session thread are not represented: the
    loop never reads them back. *)

From stdpp Require Import base tactics list gmap sets strings pretty.
From Stdlib Require Import ZArith Lia.
From S2P Require Import Prelude Tool Truncate Registry Dag.
From S2P Require LoopGuards Finops Sanitize.

Local Open Scope Z_scope.

(** ** Data (ralph.go) *)
Record Spec := {
  sp_Name : string;
  sp_Description : string;
  Completion : string;
  Tasks : list Task
}.

Inductive Status := StatusNone | StatusRunning | StatusCompleted | StatusFailed | StatusStopped.

#[export] Instance Status_eq_dec : EqDecision Status.
Proof. solve_decision. Defined.

Notation IterationLog := LoopGuards.IterationLog.

Record Progress := {
  SpecFile : string;
  pr_ProjectRoot : string;
  Iteration : Z;
  CompletedIDs : list string;
  Log : list IterationLog;
  pr_Status : Status;
  StartedAt : time;
  UpdatedAt : time
}.

Definition zero_Progress : Progress := {|
  SpecFile := ""; pr_ProjectRoot := ""; Iteration := 0; CompletedIDs := []; Log := [];
  pr_Status := StatusNone; StartedAt := time_zero; UpdatedAt := time_zero |}.

(** [Arguments] is a nil map ([None]) or a JSON object. *)
Record ToolCall := { call_Name : string; Arguments_ : option json }.

Record Decision := {
  Complete : bool;
  TaskID : string;
  d_ToolName : string;
  d_Arguments : option json;
  d_ToolCalls : list ToolCall;
  Reasoning : string;
  MarkDone : bool
}.

Definition zero_Decision : Decision := {|
  Complete := false; TaskID := ""; d_ToolName := ""; d_Arguments := None; d_ToolCalls := [];
  Reasoning := ""; MarkDone := false |}.

Definition ResolvedToolCalls (d : Decision) : list ToolCall :=
  match d_ToolCalls d with
  | [] => if bool_decide (d_ToolName d ≠ "")
          then [{| call_Name := d_ToolName d; Arguments_ := d_Arguments d |}] else []
  | calls => calls
  end.

Record ConversationTurn := {
  UserPrompt : string;
  AssistantText : string;
  ToolResults : list string
}.

(** ** Validation of a specification *)
Definition task_problems (seen : gset string) (i : nat) (task : Task) : list string :=
  let at_ := "task[" +:+ itoa (Z.of_nat i) +:+ "]: " in
  (if bool_decide (ID task = "") then [at_ +:+ "id is required"] else []) ++
  (if bool_decide (TaskDescription task = "") then [at_ +:+ "description is required"] else []) ++
  (if bool_decide (ID task ≠ "") && bool_decide (ID task ∈ seen)
   then [at_ +:+ "duplicate id " +:+ quote (ID task)] else []).

Fixpoint tasks_problems (seen : gset string) (i : nat) (tasks : list Task) : list string :=
  match tasks with
  | [] => []
  | task :: rest =>
      task_problems seen i task ++ tasks_problems ({[ID task]} ∪ seen) (S i) rest
  end.

Definition ValidateSpec (order : list string → list string) (spec : Spec) : option error :=
  let problems :=
    (if bool_decide (sp_Name spec = "") then ["name is required"] else []) ++
    (if bool_decide (sp_Description spec = "") then ["description is required"] else []) ++
    (match Tasks spec with [] => ["at least one task is required"] | _ => [] end) ++
    tasks_problems ∅ 0 (Tasks spec) in
  match problems with
  | [] => ValidateDependencies order (Tasks spec)
  | _ => Some (rerr ("invalid spec: " +:+ join "; " problems))
  end.

(** ** Reading a decision

    [strings.Index], and the first candidate of a scan for balanced braces. *)
Fixpoint index_of (sub s : string) : option nat :=
  if has_prefix sub s then Some O
  else match s with EmptyString => None | String _ s' => S <$> index_of sub s' end.

Definition slice (i j : nat) (s : string) : string := string_take (j - i) (string_drop i s).

Section Parse.
(** [json.Unmarshal] into a decision that may already hold fields: whether it
    succeeded, and what the decision holds afterwards. *)
Variable unmarshal : string → Decision → bool * Decision.

(** Trying the text between the opening fence, whose content starts at [start],
    and the next fence. *)
Definition fenced (text : string) (start : nat) : option string :=
  match index_of "```" (string_drop start text) with
  | Some e => Some (LoopGuards.TrimSpace (slice start (start + e) text))
  | None => None
  end.

Definition json_fence (text : string) : option string :=
  match index_of "```json" text with
  | Some idx => fenced text (idx + 7)
  | None => None
  end.

Definition generic_fence (text : string) : option string :=
  match index_of "```" text with
  | Some idx =>
      let start := (idx + 3)%nat in
      let start := match index_of newline (string_drop start text) with
                   | Some nl => (start + nl + 1)%nat
                   | None => start
                   end in
      fenced text start
  | None => None
  end.

(** The scan from the first brace; [rest] is [text[i:]]. *)
Fixpoint scan_braces (text : string) (idx i : nat) (depth : Z) (rest : string) (d : Decision) :
    option Decision :=
  match rest with
  | EmptyString => None
  | String c rest' =>
      if bool_decide (c = Ascii.ascii_of_nat 123)
      then scan_braces text idx (S i) (depth + 1) rest' d
      else if bool_decide (c = Ascii.ascii_of_nat 125) then
        if depth - 1 =? 0 then
          let '(ok, d') := unmarshal (slice idx (S i) text) d in
          if ok then Some d' else scan_braces text idx (S i) (depth - 1) rest' d'
        else scan_braces text idx (S i) (depth - 1) rest' d
      else scan_braces text idx (S i) depth rest' d
  end.

Definition parse_failed : error := rerr "could not parse decision from LLM response".

(** A fence that is found replaces the text, whether or not it parses. *)
Definition try_fence (found : option string) (text : string) (d : Decision) :
    option Decision * string * Decision :=
  match found with
  | None => (None, text, d)
  | Some t => let '(ok, d') := unmarshal t d in (if ok then Some d' else None, t, d')
  end.

Definition parseDecision (text : string) : error + Decision :=
  let text := LoopGuards.TrimSpace text in
  let '(ok, d) := unmarshal text zero_Decision in
  if ok then inr d else
  match try_fence (json_fence text) text d with
  | (Some d, _, _) => inr d
  | (None, text, d) =>
      match try_fence (generic_fence text) text d with
      | (Some d, _, _) => inr d
      | (None, text, d) =>
          match index_of "{" text with
          | None => inl parse_failed
          | Some idx =>
              match scan_braces text idx idx 0 (string_drop idx text) d with
              | Some d => inr d
              | None => inl parse_failed
              end
          end
      end
  end.
End Parse.

(** ** The prompt (prompt.go) *)
Fixpoint concat_strings (l : list string) : string :=
  match l with [] => "" | s :: l' => s +:+ concat_strings l' end.
Definition nl : string := newline.

Definition completed_map (ids : list string) : gmap string bool :=
  foldl (λ m id, <[id := true]> m) ∅ ids.

Definition depLabel (completed : gmap string bool) (task : Task) : string :=
  match DependsOn task with
  | [] => ""
  | deps => " (depends on: " +:+
      join ", " (map (λ dep, if is_completed completed dep then dep +:+ " [done]" else dep) deps) +:+ ")"
  end.

Definition blockers (completed : gmap string bool) (task : Task) : list string :=
  filter (λ dep, is_completed completed dep = false) (DependsOn task).

Definition task_done (completed : gmap string bool) (task : Task) : bool :=
  Done task || is_completed completed (ID task).

(** A section: its lines under its heading, when there are any. *)
Definition section_ (gap heading : string) (lines : list string) : string :=
  match lines with [] => "" | _ => gap +:+ heading +:+ nl +:+ concat_strings lines end.

Definition task_sections (tasks : list Task) (completed : gmap string bool) : string :=
  let ready := list_to_set (C := gset string) (ReadyTasks tasks completed) in
  let readyTasks := filter (λ t, ID t ∈ ready) tasks in
  let blockedTasks := filter (λ t, task_done completed t = false ∧ ID t ∉ ready) tasks in
  let completedTasks := filter (λ t, task_done completed t = true) tasks in
  section_ "" "### Ready (work on these)"
    (map (λ t, "- [ ] `" +:+ ID t +:+ "`: " +:+ TaskDescription t +:+ depLabel completed t +:+ nl)
       readyTasks) +:+
  section_ (match readyTasks with [] => "" | _ => nl end) "### Blocked (dependencies not met)"
    (map (λ t, "- [ ] `" +:+ ID t +:+ "`: " +:+ TaskDescription t +:+ " (blocked by: " +:+
               join ", " (blockers completed t) +:+ ")" +:+ nl) blockedTasks) +:+
  section_ (match readyTasks, blockedTasks with [], [] => "" | _, _ => nl end) "### Completed"
    (map (λ t, "- [x] `" +:+ ID t +:+ "`: " +:+ TaskDescription t +:+ nl) completedTasks) +:+ nl.

Definition bracketed (taskID : string) : string :=
  if bool_decide (taskID ≠ "") then " [" +:+ taskID +:+ "]" else "".

Definition last_error_section (log : list IterationLog) : string :=
  match last log with
  | Some e =>
      if LoopGuards.isErrorResult (LoopGuards.il_Result e) then
        nl +:+ "## !! Last Error (fix this first) !!" +:+ nl +:+ nl +:+
        "Iteration " +:+ itoa (LoopGuards.il_Iteration e) +:+ bracketed (LoopGuards.il_TaskID e) +:+
        ": " +:+ LoopGuards.il_Result e +:+ nl
      else ""
  | None => ""
  end.

Definition log_line (e : IterationLog) : string :=
  let result := LoopGuards.il_Result e in
  "- Iteration " +:+ itoa (LoopGuards.il_Iteration e) +:+ bracketed (LoopGuards.il_TaskID e) +:+
  (match LoopGuards.il_ToolCalls e with [] => "" | calls => " called " +:+ join ", " calls end) +:+
  ": " +:+ (if 500 <? bytes result then string_take 500 result +:+ "... [truncated]" else result) +:+ nl.

Definition recent_section (log : list IterationLog) : string :=
  match log with
  | [] => ""
  | _ => nl +:+ "## Recent Activity" +:+ nl +:+ nl +:+ concat_strings (map log_line (last_n 5 log))
  end.

(** [schema_json] is [json.MarshalIndent] on an input schema. *)
Definition tool_section (schema_json : Schema → option string) (t : Tool) : string :=
  "### " +:+ Name t +:+ nl +:+ Description t +:+ nl +:+
  (match schema_json (InputSchema t) with
   | Some s => if bool_decide (s = "{}") then ""
               else nl +:+ "**Parameters:**" +:+ nl +:+ "```json" +:+ nl +:+ s +:+ nl +:+ "```" +:+ nl
   | None => ""
   end) +:+ nl.

Definition buildIterationPrompt (schema_json : Schema → option string) (spec : Spec) (p : Progress)
    (tools : list Tool) (stuckHint : string) : string :=
  (if bool_decide (pr_ProjectRoot p ≠ "") then
     "## Project Context" +:+ nl +:+ nl +:+
     "**Project root:** `" +:+ pr_ProjectRoot p +:+ "`" +:+ nl +:+
     "**Spec file:** `" +:+ SpecFile p +:+ "`" +:+ nl +:+ nl
   else "") +:+
  "# Task: " +:+ sp_Name spec +:+ nl +:+ nl +:+ sp_Description spec +:+ nl +:+ nl +:+
  "**Completion criteria:** " +:+ Completion spec +:+ nl +:+ nl +:+
  "## Tasks" +:+ nl +:+ nl +:+
  task_sections (Tasks spec) (completed_map (CompletedIDs p)) +:+
  last_error_section (Log p) +:+
  (if bool_decide (stuckHint ≠ "")
   then nl +:+ "## !! Stuck Loop Detected !!" +:+ nl +:+ nl +:+ stuckHint +:+ nl else "") +:+
  recent_section (Log p) +:+
  nl +:+ "## Available Tools" +:+ nl +:+ nl +:+
  concat_strings (map (tool_section schema_json) tools) +:+
  nl +:+ "Respond with a JSON decision.".

(** Messages: role and text. *)
Definition Message : Type := string * string.

Definition clip_result (r : string) : string :=
  if 2000 <? bytes r
  then string_take 2000 r +:+ nl +:+ "... [truncated, " +:+ itoa (bytes r) +:+ " chars total]" else r.

Definition turn_messages (t : ConversationTurn) : list Message :=
  [("user", UserPrompt t); ("assistant", AssistantText t)] ++
  match ToolResults t with
  | [] => []
  | rs => [("user", "Tool results:" +:+ nl +:+ join nl (map clip_result rs))]
  end.

Definition BuildMessages (history : list ConversationTurn) (windowSize : Z) (currentPrompt : string) :
    list Message :=
  let start := Z.max (Z.of_nat (length history) - windowSize) 0 in
  concat (map turn_messages (drop (Z.to_nat start) history)) ++ [("user", currentPrompt)].

(** checkpoint.go *)
Definition pruneHistory (turns : list ConversationTurn) (maxTurns : Z) : list ConversationTurn :=
  if (maxTurns <=? 0) || (Z.of_nat (length turns) <=? maxTurns) then turns
  else last_n (Z.to_nat maxTurns) turns.

(** ** The loop (ralph.go, loop.go) *)
Inductive stop_signal := Go | CtxDone (err : error) | StopRequested.

Record sampling_request := {
  messages : list Message;
  req_MaxTokens : Z;
  SystemPrompt : string;
  Model : string
}.

Inductive loop_event :=
| IterationStart (iteration : Z)
| IterationEnd (entry : IterationLog)
| TaskComplete (taskID : string)
| CallError (iteration : Z) (err : error)
| CostUpdate (iteration : Z) (summary : Finops.UsageSummary).

Section Loop.
Context {Ctx Req W : Type}.
(** The map walk of the dependency check, [json], and the system prompt's text. *)
Variable order : list string → list string.
Variable schema_json : Schema → option string.
Variable marshal : json → option string.
Variable unmarshal : string → Decision → bool * Decision.
Variable systemPrompt : string.
(** The clock; the poll of [ctx.Done()] and the stop channel, also while waiting;
    reading and decoding the specification, the progress and the checkpoint; the
    atomic writes of the two; the sampler, answering the reply's text if it has
    one; the request and the tool context of the SDK; hooks. *)
Variable now : W → time.
Variable poll : st W stop_signal.
Variable backoff_wait : duration → st W stop_signal.
Variable read_spec : st W (error + Spec).
Variable read_progress : st W (error + Progress).
Variable SaveProgress : Progress → W → W.
Variable LoadCheckpoint : string → st W (error + list ConversationTurn).
Variable SaveCheckpoint : string → list ConversationTurn → W → W.
Variable CreateMessage : sampling_request → st W (error + option string).
Variable makeCallToolRequest : string → option json → Req.
Variable tool_context : string → duration → W → Ctx.
Variable hook : loop_event → W → W.
(** factor_integration.go: a requested pause (its error, and whether the status
    becomes stopped), human approval, and error formatting; autoverify.go: the
    external checks of a package. *)
Variable checkPauseRequested : st W (option (error * bool)).
Variable checkApproval : string → st W (bool * string).
Variable factorFormatError : error → string.
Variable runAutoVerify : string → st W (list string).

Record Config := {
  MaxIterations : Z;
  SpecFile_ : string;
  ToolRegistry_ : ToolRegistry Ctx Req W;
  MaxTokens : Z;
  EstimateFunc : option (string → Z);
  ForceRestart : bool;
  ToolTimeout : duration;
  SamplerRetries : Z;
  SamplerBackoff : duration;
  BudgetLimit : Z;
  ModelSelector : option (Z → list string → string);
  HistoryWindow : Z;
  CheckpointFile : string;
  PhaseMaxTokens : gmap string Z;
  AutoVerifyLevel : string;
  ProjectRoot : string;
  TaskDecomposer : option (string → Progress → Spec → list Task * Spec);
  StuckThreshold : Z;
  RequireAllTasksDone : bool;
  MaxConsecutiveSamplerFailures : Z;
  PreFetchHook : option (st W (list (string * string)))
}.

(** [NewLoop]'s defaults; a missing file, registry or sampler is not representable. *)
Definition config_defaults (c : Config) : error + Config :=
  if bool_decide (SpecFile_ c = "") then inl (rerr "spec file is required") else inr {|
    MaxIterations := if MaxIterations c <=? 0 then 100 else MaxIterations c;
    SpecFile_ := SpecFile_ c; ToolRegistry_ := ToolRegistry_ c;
    MaxTokens := if MaxTokens c <=? 0 then 2048 else MaxTokens c;
    EstimateFunc := EstimateFunc c; ForceRestart := ForceRestart c;
    ToolTimeout := if ToolTimeout c <=? 0 then 30 * Second else ToolTimeout c;
    SamplerRetries := if SamplerRetries c <? 0 then 0
                      else if SamplerRetries c =? 0 then 2 else SamplerRetries c;
    SamplerBackoff := if SamplerBackoff c <=? 0 then 2 * Second else SamplerBackoff c;
    BudgetLimit := BudgetLimit c; ModelSelector := ModelSelector c;
    HistoryWindow := HistoryWindow c; CheckpointFile := CheckpointFile c;
    PhaseMaxTokens := PhaseMaxTokens c; AutoVerifyLevel := AutoVerifyLevel c;
    ProjectRoot := ProjectRoot c; TaskDecomposer := TaskDecomposer c;
    StuckThreshold := StuckThreshold c; RequireAllTasksDone := RequireAllTasksDone c;
    MaxConsecutiveSamplerFailures :=
      if MaxConsecutiveSamplerFailures c =? 0 then 5 else MaxConsecutiveSamplerFailures c;
    PreFetchHook := PreFetchHook c |}.

(** The loop's fields and the local variable [spec] of [Run]. *)
Record Loop := {
  progress : Progress;
  history : list ConversationTurn;
  specModified : bool;
  checkpointFile : string;
  stuckHint : string;
  costDowngrade : bool;
  consecutiveSamplerFails : Z;
  breaker : option LoopGuards.CircuitBreaker;
  governor : option LoopGuards.CostGovernor;
  tracker : option Finops.Tracker;
  spec : Spec
}.

Definition set_progress (p : Progress) (l : Loop) : Loop := {|
  progress := p; history := history l; specModified := specModified l;
  checkpointFile := checkpointFile l; stuckHint := stuckHint l; costDowngrade := costDowngrade l;
  consecutiveSamplerFails := consecutiveSamplerFails l; breaker := breaker l;
  governor := governor l; tracker := tracker l; spec := spec l |}.
Definition set_history (h : list ConversationTurn) (f : string) (l : Loop) : Loop := {|
  progress := progress l; history := h; specModified := specModified l;
  checkpointFile := f; stuckHint := stuckHint l; costDowngrade := costDowngrade l;
  consecutiveSamplerFails := consecutiveSamplerFails l; breaker := breaker l;
  governor := governor l; tracker := tracker l; spec := spec l |}.
Definition set_spec (s : Spec) (modified : bool) (l : Loop) : Loop := {|
  progress := progress l; history := history l; specModified := modified;
  checkpointFile := checkpointFile l; stuckHint := stuckHint l; costDowngrade := costDowngrade l;
  consecutiveSamplerFails := consecutiveSamplerFails l; breaker := breaker l;
  governor := governor l; tracker := tracker l; spec := s |}.
Definition set_guards (hint : string) (downgrade : bool) (b : option LoopGuards.CircuitBreaker)
    (g : option LoopGuards.CostGovernor) (l : Loop) : Loop := {|
  progress := progress l; history := history l; specModified := specModified l;
  checkpointFile := checkpointFile l; stuckHint := hint; costDowngrade := downgrade;
  consecutiveSamplerFails := consecutiveSamplerFails l; breaker := b;
  governor := g; tracker := tracker l; spec := spec l |}.
Definition set_fails (n : Z) (l : Loop) : Loop := {|
  progress := progress l; history := history l; specModified := specModified l;
  checkpointFile := checkpointFile l; stuckHint := stuckHint l; costDowngrade := costDowngrade l;
  consecutiveSamplerFails := n; breaker := breaker l;
  governor := governor l; tracker := tracker l; spec := spec l |}.
Definition set_tracker (t : option Finops.Tracker) (l : Loop) : Loop := {|
  progress := progress l; history := history l; specModified := specModified l;
  checkpointFile := checkpointFile l; stuckHint := stuckHint l; costDowngrade := costDowngrade l;
  consecutiveSamplerFails := consecutiveSamplerFails l; breaker := breaker l;
  governor := governor l; tracker := t; spec := spec l |}.

(** Updates of the progress. *)
Definition with_status (s : Status) (t : time) (p : Progress) : Progress := {|
  SpecFile := SpecFile p; pr_ProjectRoot := pr_ProjectRoot p; Iteration := Iteration p;
  CompletedIDs := CompletedIDs p; Log := Log p; pr_Status := s; StartedAt := StartedAt p;
  UpdatedAt := t |}.
Definition with_iteration (n : Z) (p : Progress) : Progress := {|
  SpecFile := SpecFile p; pr_ProjectRoot := pr_ProjectRoot p; Iteration := n;
  CompletedIDs := CompletedIDs p; Log := Log p; pr_Status := pr_Status p; StartedAt := StartedAt p;
  UpdatedAt := UpdatedAt p |}.
Definition with_log (e : IterationLog) (t : time) (p : Progress) : Progress := {|
  SpecFile := SpecFile p; pr_ProjectRoot := pr_ProjectRoot p; Iteration := Iteration p;
  CompletedIDs := CompletedIDs p; Log := Log p ++ [e]; pr_Status := pr_Status p;
  StartedAt := StartedAt p; UpdatedAt := t |}.
Definition with_completed (ids : list string) (p : Progress) : Progress := {|
  SpecFile := SpecFile p; pr_ProjectRoot := pr_ProjectRoot p; Iteration := Iteration p;
  CompletedIDs := ids; Log := Log p; pr_Status := pr_Status p; StartedAt := StartedAt p;
  UpdatedAt := UpdatedAt p |}.

Variable cfg : Config.

Definition estimate : string → Z := default (λ text, bytes text / 4) (EstimateFunc cfg).

Definition setStatus (s : Status) (l : Loop) (w : W) : Loop * W :=
  let p := with_status s (now w) (progress l) in (set_progress p l, SaveProgress p w).

Definition recordIteration (iteration : Z) (taskID : string) (toolCalls : list string)
    (result : string) (l : Loop) (w : W) : Loop * W :=
  let entry := {| LoopGuards.il_Iteration := iteration; LoopGuards.il_TaskID := taskID;
                  LoopGuards.il_ToolCalls := toolCalls; LoopGuards.il_Result := result;
                  LoopGuards.il_Timestamp := now w |} in
  let p := with_log entry (now w) (progress l) in
  (set_progress p l, hook (IterationEnd entry) (SaveProgress p w)).

Definition appendUnique (slice : list string) (item : string) : list string :=
  if bool_decide (item ∈ slice) then slice else slice ++ [item].

Definition injectSubTasks (tasks : list Task) (completedID : string) (subTasks : list Task) :
    list Task :=
  concat (map (λ t, if bool_decide (ID t = completedID) then subTasks else [t]) tasks).

(** One usage entry per call; the results may be fewer than the calls. *)
Definition call_usage (call : ToolCall) (result : option CallToolResult) (t : time) : Finops.UsageEntry :=
  Finops.mkentry (call_Name call) "tool"
    (match Arguments_ call with
     | Some args => match marshal args with Some s => estimate s | None => 0 end
     | None => 0
     end)
    (Finops.EstimateFromResult result estimate) 0 t.

Fixpoint record_calls (calls : list ToolCall) (results : list (option CallToolResult)) (t : time)
    (tr : Finops.Tracker) : Finops.Tracker :=
  match calls with
  | [] => tr
  | c :: calls' =>
      record_calls calls' (tail results) t
        (Finops.Record_ tr (call_usage c (default None (head results)) t))
  end.

Definition recordCost (iteration : Z) (prompt response : string) (calls : list ToolCall)
    (results : list (option CallToolResult)) (l : Loop) (w : W) : Loop * W :=
  match tracker l with
  | None => (l, w)
  | Some tr =>
      let tr := Finops.Record_ tr
        (Finops.mkentry "ralph/sampling" "sampling" (estimate prompt) (estimate response) 0 (now w)) in
      let tr := record_calls calls results (now w) tr in
      (set_tracker (Some tr) l, hook (CostUpdate iteration (Finops.Summary tr)) w)
  end.

(** How a pass of the loop ends: with another one, by returning from [Run] (with
    [None] for nil), or by a panic that escapes from a tool handler. *)
Inductive flow :=
| Next (l : Loop) (w : W)
| Return (err : option error) (l : Loop) (w : W)
| Crash (value : string) (l : Loop) (w : W).

(** *** Before the sampler *)
Definition LoadSpec (w : W) : (error + Spec) * W :=
  match read_spec w with
  | (inl err, w) => (inl err, w)
  | (inr s, w) => (match ValidateSpec order s with Some err => inl err | None => inr s end, w)
  end.

(** Stop signals, the circuit breaker, a requested pause and the iteration limit. *)
Definition check_limits (l : Loop) (w : W) : flow :=
  let iteration := add64 (Iteration (progress l)) 1 in
  if MaxIterations cfg <? iteration then
    let '(l, w) := setStatus StatusFailed l w in
    Return (Some (rerr ("max iterations (" +:+ itoa (MaxIterations cfg) +:+ ") reached"))) l w
  else Next (set_progress (with_iteration iteration (progress l)) l) (hook (IterationStart iteration) w).

Definition check_pause (l : Loop) (w : W) : flow :=
  match checkPauseRequested w with
  | (None, w) => check_limits l w
  | (Some (err, stop), w) =>
      let '(l, w) := if stop then setStatus StatusStopped l w else (l, w) in
      Return (Some err) l w
  end.

Definition check_breaker (l : Loop) (w : W) : flow :=
  match breaker l with
  | None => check_pause l w
  | Some cb =>
      let '(ok, cb) := LoopGuards.CanExecute cb (now w) in
      let l := set_guards (stuckHint l) (costDowngrade l) (Some cb) (governor l) l in
      if ok then check_pause l w
      else
        let '(l, w) := setStatus StatusStopped l w in
        Return (Some (rerr ("circuit breaker open: " +:+ LoopGuards.OpenReason cb))) l w
  end.

Definition begin_iteration (l : Loop) (w : W) : flow :=
  match poll w with
  | (CtxDone err, w) => let '(l, w) := setStatus StatusStopped l w in Return (Some err) l w
  | (StopRequested, w) => let '(l, w) := setStatus StatusStopped l w in Return None l w
  | (Go, w) => check_breaker l w
  end.

Definition reload_spec (l : Loop) (w : W) : flow :=
  if specModified l then Next l w
  else match LoadSpec w with
  | (inr s, w) => Next (set_spec s false l) w
  | (inl err, w) => let '(l, w) := setStatus StatusFailed l w in Return (Some err) l w
  end.

Definition prefetch (w : W) : string * W :=
  match PreFetchHook cfg with
  | None => ("", w)
  | Some f =>
      let '(events, w) := f w in
      (join newline (map (λ ev : string * string, "[" +:+ ev.1 +:+ "] " +:+ ev.2) events), w)
  end.

Definition build_prompt (l : Loop) (preFetchSummary : string) : string :=
  let prompt := buildIterationPrompt schema_json (spec l) (progress l)
    (map td_Tool (GetAllToolDefinitions (ToolRegistry_ cfg))) (stuckHint l) in
  if bool_decide (preFetchSummary ≠ "")
  then prompt +:+ nl +:+ nl +:+ "## Pre-Fetched Context" +:+ nl +:+ preFetchSummary else prompt.

Definition phase_max_tokens (l : Loop) : Z :=
  default (MaxTokens cfg)
    (head (omap (λ id, PhaseMaxTokens cfg !! id)
       (ReadyTasks (Tasks (spec l)) (completed_map (CompletedIDs (progress l)))))).

Definition build_request (l : Loop) (prompt : string) : sampling_request := {|
  messages := if (0 <? HistoryWindow cfg) && negb (Nat.eqb (length (history l)) 0)
              then BuildMessages (history l) (HistoryWindow cfg) prompt else [("user", prompt)];
  req_MaxTokens := phase_max_tokens l;
  SystemPrompt := systemPrompt;
  Model := match ModelSelector cfg with
           | Some f => f (Iteration (progress l)) (CompletedIDs (progress l))
           | None => ""
           end |}.

(** *** The sampler, with its retries; [left] is the number of attempts left *)
Inductive sampled := Reply (text : option string) | SamplerFailed (err : error) | Interrupted (sig : stop_signal).

Definition backoff (attempt : Z) : duration :=
  wrap64 (SamplerBackoff cfg * wrap64 (2 ^ (attempt - 1))).

Fixpoint sample (left : nat) (attempt : Z) (req : sampling_request) (lastErr : error) (w : W) :
    sampled * W :=
  match left with
  | O => (SamplerFailed lastErr, w)
  | S left' =>
      match (if 0 <? attempt then backoff_wait (backoff attempt) w else (Go, w)) with
      | (Go, w) =>
          match CreateMessage req w with
          | (inr text, w) => (Reply text, w)
          | (inl err, w) => sample left' (attempt + 1) req err w
          end
      | (sig, w) => (Interrupted sig, w)
      end
  end.

Definition no_error : error := Err "".
Definition sample_all (req : sampling_request) (w : W) : sampled * W :=
  sample (S (Z.to_nat (SamplerRetries cfg))) 0 req no_error w.

Definition sampler_failed (iteration : Z) (err : error) (l : Loop) (w : W) : flow :=
  let fails := add64 (consecutiveSamplerFails l) 1 in
  let l := set_fails fails l in
  let '(l, w) := recordIteration iteration "" []
    ("sampler error (after " +:+ itoa (SamplerRetries cfg) +:+ " retries, " +:+ itoa fails +:+
     " consecutive): " +:+ error_text err) l w in
  if (0 <? MaxConsecutiveSamplerFailures cfg) && (MaxConsecutiveSamplerFailures cfg <=? fails) then
    let '(l, w) := setStatus StatusFailed l w in
    Return (Some (rerr (itoa fails +:+ " consecutive sampler failures, last error: " +:+
                        error_text err))) l w
  else Next l w.

(** *** Executing the tool calls *)
Record executed := {
  toolNames : list string;
  resultParts : list string;
  toolResults : list (option CallToolResult)
}.
Definition nothing_executed : executed := {| toolNames := []; resultParts := []; toolResults := [] |}.
Definition add_result (name part : string) (r : option CallToolResult) (x : executed) : executed := {|
  toolNames := toolNames x ++ [name]; resultParts := resultParts x ++ [part];
  toolResults := toolResults x ++ [r] |}.

Definition result_part (result : option CallToolResult) (err : option error) : string :=
  match err with
  | Some err => "tool error: " +:+ factorFormatError err
  | None =>
      match result with
      | Some r =>
          match r_Content r with
          | [] => "tool returned empty result"
          | c :: _ =>
              match ExtractTextContent c with
              | Some text => if IsError r then "tool error: " +:+ text else text
              | None => "tool returned non-text content"
              end
          end
      | None => "tool returned empty result"
      end
  end.

Definition exec_call (iteration : Z) (call : ToolCall) (x : executed) (w : W) :
    (string + executed) * W :=
  let name := call_Name call in
  match GetTool (ToolRegistry_ cfg) name with
  | None =>
      let w := hook (CallError iteration (Err ("tool " +:+ quote name +:+ " not found"))) w in
      (inr (add_result name ("tool " +:+ quote name +:+ " not found. Available tools: [" +:+
              join ", " (ListTools (ToolRegistry_ cfg)) +:+ "]") None x), w)
  | Some td =>
      match checkApproval name w with
      | ((false, msg), w) => (inr (add_result name msg None x), w)
      | ((true, _), w) =>
          match Handler td (tool_context name (ToolTimeout cfg) w)
                  (makeCallToolRequest name (Arguments_ call)) w with
          | (Panics v, w) => (inl v, w)
          | (Returns result err, w) =>
              let w := match err with Some e => hook (CallError iteration e) w | None => w end in
              (inr (add_result name (result_part result err) result x), w)
          end
      end
  end.

Fixpoint exec_calls (iteration : Z) (calls : list ToolCall) (x : executed) (w : W) :
    (string + executed) * W :=
  match calls with
  | [] => (inr x, w)
  | call :: calls' =>
      match exec_call iteration call x w with
      | (inl v, w) => (inl v, w)
      | (inr x, w) => exec_calls iteration calls' x w
      end
  end.

(** autoverify.go: the build target of a file. *)
Definition Dir (path : string) : string :=
  Sanitize.Clean ((join "/" (removelast (Sanitize.split Sanitize.slash path))) +:+
    (if contains "/" path then "/" else "")).

Definition detectPackage (filePath : string) : string :=
  if negb (has_suffix ".go" filePath) then ""
  else let dir := Dir filePath in
       if bool_decide (dir = ".") || bool_decide (dir = "") then "./..."
       else "./" +:+ dir +:+ "/...".

Definition path_argument (call : ToolCall) : string :=
  match Arguments_ call with
  | Some (JObject args) =>
      match list_find (λ p : string * json, p.1 = "path") args with
      | Some (_, (_, JString s)) => s
      | _ => ""
      end
  | _ => ""
  end.

Fixpoint auto_verify (calls : list ToolCall) (seenPkgs : gset string) (parts : list string) (w : W) :
    list string * W :=
  match calls with
  | [] => (parts, w)
  | call :: calls' =>
      let pkg := detectPackage (path_argument call) in
      if negb (bool_decide (call_Name call = "write_file")) || bool_decide (pkg = "") ||
         bool_decide (pkg ∈ seenPkgs)
      then auto_verify calls' seenPkgs parts w
      else let '(out, w) := runAutoVerify pkg w in
           auto_verify calls' ({[pkg]} ∪ seenPkgs) (parts ++ out) w
  end.

Definition verify_writes (calls : list ToolCall) (parts : list string) (w : W) : list string * W :=
  if bool_decide (AutoVerifyLevel cfg ≠ "") && bool_decide (ProjectRoot cfg ≠ "")
  then auto_verify calls ∅ parts w else (parts, w).

Definition record_turn (prompt response : string) (parts : list string) (l : Loop) (w : W) : Loop * W :=
  if 0 <? HistoryWindow cfg then
    let h := pruneHistory (history l ++
      [{| UserPrompt := prompt; AssistantText := response; ToolResults := parts |}])
      (wrap64 (HistoryWindow cfg * 2)) in
    (set_history h (checkpointFile l) l,
     if bool_decide (checkpointFile l ≠ "") then SaveCheckpoint (checkpointFile l) h w else w)
  else (l, w).

(** *** Completing tasks *)
Definition missing_tasks (l : Loop) : list string :=
  filter (λ id, is_completed (completed_map (CompletedIDs (progress l))) id = false)
    (map ID (Tasks (spec l))).

Definition complete_run (iteration : Z) (l : Loop) (w : W) : flow :=
  let missing := missing_tasks l in
  if RequireAllTasksDone cfg && bool_decide (missing ≠ []) then
    let '(l, w) := recordIteration iteration "" []
      ("completion rejected: ExitGate requires all tasks done; missing: " +:+ join ", " missing) l w in
    Next l w
  else
    let '(l, w) := recordIteration iteration "" [] "loop completed" l w in
    let '(l, w) := setStatus StatusCompleted l w in
    Return None l w.

Definition may_mark (l : Loop) (id : string) : bool :=
  let doneSet := completed_map (CompletedIDs (progress l)) in
  is_completed doneSet id || bool_decide (id ∈ ReadyTasks (Tasks (spec l)) doneSet).

Definition decompose (id : string) (l : Loop) : Loop :=
  match TaskDecomposer cfg with
  | None => l
  | Some f =>
      let '(subTasks, s) := f id (progress l) (spec l) in
      match subTasks with
      | [] => set_spec s (specModified l) l
      | _ => set_spec {| sp_Name := sp_Name s; sp_Description := sp_Description s;
                         Completion := Completion s;
                         Tasks := injectSubTasks (Tasks s) id subTasks |} true l
      end
  end.

Definition mark_done (d : Decision) (l : Loop) (w : W) : Loop * W :=
  if MarkDone d && bool_decide (TaskID d ≠ "") && may_mark l (TaskID d) then
    let p := progress l in
    let l := set_progress (with_completed (appendUnique (CompletedIDs p) (TaskID d)) p) l in
    (decompose (TaskID d) l, hook (TaskComplete (TaskID d)) w)
  else (l, w).

(** *** After the iteration: the stuck hint, the breaker and the budget guards *)
Definition stuck_hint (l : Loop) : string :=
  let stuckThreshold := if StuckThreshold cfg <=? 0 then 3 else StuckThreshold cfg in
  match LoopGuards.StuckDetector_Check (LoopGuards.NewStuckDetector stuckThreshold)
          (Log (progress l)) with
  | Some sig => LoopGuards.Suggestion sig
  | None => ""
  end.

Definition has_progress (d : Decision) : bool := MarkDone d && bool_decide (TaskID d ≠ "").

Definition record_breaker (d : Decision) (combinedResult : string) (l : Loop) (w : W) : Loop :=
  let errorKey := if LoopGuards.isErrorResult combinedResult
                  then LoopGuards.normalizeError combinedResult else "" in
  set_guards (stuck_hint l) (costDowngrade l)
    ((λ cb, LoopGuards.RecordResult cb (now w) (has_progress d) errorKey) <$> breaker l)
    (governor l) l.

Definition check_governor (d : Decision) (prompt response : string) (cg : LoopGuards.CostGovernor)
    (l : Loop) (w : W) : flow :=
  let cg := LoopGuards.RecordIteration cg
    {| LoopGuards.r_tokens := add64 (estimate prompt) (estimate response);
       LoopGuards.productive := has_progress d |} in
  let verdict := LoopGuards.CostGovernor_Check cg in
  let downgrade := bool_decide (LoopGuards.Action verdict = "downgrade") in
  let l := set_guards (stuckHint l) (downgrade || costDowngrade l) (breaker l) (Some cg) l in
  if bool_decide (LoopGuards.Action verdict = "halt") then
    let '(l, w) := setStatus StatusFailed l w in
    Return (Some (rerr ("cost governor halt: " +:+ LoopGuards.Warning verdict))) l w
  else Next l w.

Definition check_budget (d : Decision) (prompt response : string) (l : Loop) (w : W) : flow :=
  match governor l, tracker l with
  | Some cg, _ => check_governor d prompt response cg l w
  | None, Some tr =>
      if (0 <? BudgetLimit cfg) && (BudgetLimit cfg <? Finops.Total tr) then
        let '(l, w) := setStatus StatusFailed l w in
        Return (Some (rerr ("token budget exceeded (limit=" +:+ itoa (BudgetLimit cfg) +:+
                            ", used=" +:+ itoa (Finops.Total tr) +:+ ")"))) l w
      else Next l w
  | None, None => Next l w
  end.

Definition execute_decision (iteration : Z) (prompt response : string) (d : Decision)
    (calls : list ToolCall) (l : Loop) (w : W) : flow :=
  match exec_calls iteration calls nothing_executed w with
  | (inl v, w) => Crash v l w
  | (inr x, w) =>
      let '(parts, w) := verify_writes calls (resultParts x) w in
      let combinedResult := join newline parts in
      let '(l, w) := record_turn prompt response parts l w in
      let '(l, w) := mark_done d l w in
      let '(l, w) := recordIteration iteration (TaskID d) (toolNames x) combinedResult l w in
      let '(l, w) := recordCost iteration prompt response calls (toolResults x) l w in
      check_budget d prompt response (record_breaker d combinedResult l w) w
  end.

(** A decision that names a task which is neither completed nor ready. *)
Definition blocked (l : Loop) (id : string) : bool :=
  let completed := completed_map (CompletedIDs (progress l)) in
  bool_decide (id ≠ "") && negb (is_completed completed id) &&
  negb (bool_decide (id ∈ ReadyTasks (Tasks (spec l)) completed)).

Definition handle_decision (iteration : Z) (prompt response : string) (d : Decision)
    (l : Loop) (w : W) : flow :=
  if blocked l (TaskID d) then
    let ready := ReadyTasks (Tasks (spec l)) (completed_map (CompletedIDs (progress l))) in
    let '(l, w) := recordIteration iteration (TaskID d) []
      ("task " +:+ quote (TaskID d) +:+ " is blocked (dependencies not met). Ready tasks: [" +:+
       join ", " ready +:+ "]") l w in
    Next l w
  else if Complete d then complete_run iteration l w
  else match ResolvedToolCalls d with
  | [] =>
      let '(l, w) := recordIteration iteration (TaskID d) [] "no tool specified in decision" l w in
      let '(l, w) := recordCost iteration prompt response [] [] l w in
      Next l w
  | calls => execute_decision iteration prompt response d calls l w
  end.

Definition handle_reply (iteration : Z) (prompt : string) (text : option string) (l : Loop) (w : W) :
    flow :=
  let l := set_fails 0 l in
  match text with
  | None =>
      let '(l, w) := recordIteration iteration "" [] "no text in sampler response" l w in Next l w
  | Some responseText =>
      match parseDecision unmarshal responseText with
      | inl err =>
          let preview := if 200 <? bytes responseText
                         then string_take 200 responseText +:+ "..." else responseText in
          let '(l, w) := recordIteration iteration "" []
            ("parse error: " +:+ error_text err +:+ nl +:+ "Raw response (truncated):" +:+ nl +:+
             preview) l w in
          Next l w
      | inr d => handle_decision iteration prompt responseText d l w
      end
  end.

Definition call_sampler (l : Loop) (w : W) : flow :=
  let iteration := Iteration (progress l) in
  let '(summary, w) := prefetch w in
  let prompt := build_prompt l summary in
  match sample_all (build_request l prompt) w with
  | (Reply text, w) => handle_reply iteration prompt text l w
  | (SamplerFailed err, w) => sampler_failed iteration err l w
  | (Interrupted sig, w) =>
      let '(l, w) := setStatus StatusStopped l w in
      Return (match sig with CtxDone err => Some err | _ => None end) l w
  end.

Definition then_ (f : flow) (k : Loop → W → flow) : flow :=
  match f with Next l w => k l w | other => other end.

(** One pass of the [for] loop. *)
Definition iteration_ (l : Loop) (w : W) : flow :=
  then_ (then_ (begin_iteration l w) reload_spec) call_sampler.

(** [fuel] bounds the passes. *)
Inductive run_result :=
| Finished (err : option error) (l : Loop) (w : W)
| Crashed (value : string) (l : Loop) (w : W)
| OutOfFuel (l : Loop) (w : W).

Fixpoint run_loop (fuel : nat) (l : Loop) (w : W) : run_result :=
  match fuel with
  | O => OutOfFuel l w
  | S fuel' =>
      match iteration_ l w with
      | Next l w => run_loop fuel' l w
      | Return err l w => Finished err l w
      | Crash v l w => Crashed v l w
      end
  end.

(** *** The start of [Run] *)
Definition start_progress (p : Progress) (w : W) : Progress := {|
  SpecFile := SpecFile_ cfg; pr_ProjectRoot := ProjectRoot cfg; Iteration := Iteration p;
  CompletedIDs := CompletedIDs p; Log := Log p; pr_Status := StatusRunning;
  StartedAt := if time_is_zero (StartedAt p) then now w else StartedAt p;
  UpdatedAt := UpdatedAt p |}.

Variable DefaultCheckpointFile : string → string.

Definition load_history (l : Loop) (w : W) : Loop * W :=
  if 0 <? HistoryWindow cfg then
    let cpFile := if bool_decide (CheckpointFile cfg = "")
                  then DefaultCheckpointFile (SpecFile_ cfg) else CheckpointFile cfg in
    if ForceRestart cfg then (set_history (history l) cpFile l, w)
    else match LoadCheckpoint cpFile w with
    | (inr (t :: ts), w) => (set_history (t :: ts) cpFile l, w)
    | (_, w) => (set_history (history l) cpFile l, w)
    end
  else (l, w).

(** The passes a run can make: one per iteration left, and the one that finds
    the limit reached. *)
Definition run_fuel (l : Loop) : nat := S (Z.to_nat (MaxIterations cfg - Iteration (progress l))).

Definition Run (l : Loop) (w : W) : run_result :=
  match LoadSpec w with
  | (inl err, w) => Finished (Some err) l w
  | (inr s, w) =>
      match read_progress w with
      | (inl err, w) => Finished (Some err) (set_progress zero_Progress l) w
      | (inr p, w) =>
          let p := if ForceRestart cfg then zero_Progress else p in
          if bool_decide (pr_Status p = StatusCompleted)
          then Finished None (set_progress p l) w
          else
            let l := set_spec s (specModified l) (set_progress (start_progress p w) l) in
            let '(l, w) := load_history l w in
            run_loop (run_fuel l) l w
      end
  end.

(** ** What the properties speak about *)
Definition ids (l : Loop) : list string := CompletedIDs (progress l).

(** The state a pass or a run ends in. *)
Definition flow_state (f : flow) : Loop :=
  match f with Next l _ | Return _ l _ | Crash _ l _ => l end.
Definition final_state (r : run_result) : Loop :=
  match r with Finished _ l _ | Crashed _ l _ | OutOfFuel l _ => l end.

(** The identifiers completed before the run, as the progress file has them. *)
Definition resumed_progress (w : W) : Progress :=
  match (read_progress (LoadSpec w).2).1 with
  | inr p => if ForceRestart cfg then zero_Progress else p
  | inl _ => zero_Progress
  end.

(** [id] may be completed after [before]: it names an open task of the
    specification all of whose dependencies are in [before]. *)
Definition completable (tasks : list Task) (before : list string) (id : string) : Prop :=
  id ∉ before ∧ ∃ t, t ∈ tasks ∧ ID t = id ∧ Done t = false ∧ ∀ dep, dep ∈ DependsOn t → dep ∈ before.

Definition all_tasks_done (l : Loop) : Prop := ∀ t, t ∈ Tasks (spec l) → ID t ∈ ids l.

(** ** Lemmas *)
Lemma is_completed_map before id : is_completed (completed_map before) id = true ↔ id ∈ before.
Proof.
  unfold completed_map, is_completed. induction before as [|x l IH] using rev_ind.
  - cbn. rewrite lookup_empty. split; [done|]. by intros ?%elem_of_nil.
  - rewrite foldl_app. cbn. rewrite elem_of_app, list_elem_of_singleton.
    destruct (decide (x = id)) as [->|Hne].
    + rewrite lookup_insert_eq. cbn. naive_solver.
    + rewrite lookup_insert_ne by done. rewrite IH. naive_solver.
Qed.

Lemma elem_of_ReadyTasks tasks before id :
  id ∈ ReadyTasks tasks (completed_map before) → completable tasks before id.
Proof.
  unfold ReadyTasks. intros (t & Ht & H)%list_elem_of_omap.
  destruct (Done t) eqn:Ed; [done|]. cbn in H.
  destruct (is_completed (completed_map before) (ID t)) eqn:Ec; [done|].
  destruct (forallb _ _) eqn:Ef; [|done]. injection H as <-.
  split; [rewrite <- is_completed_map; congruence|]. exists t. split_and!; try done.
  intros dep Hdep. apply is_completed_map. rewrite forallb_forall in Ef.
  by apply Ef, list_elem_of_In.
Qed.

(** Steps that leave the tasks, the iteration and the status alone. *)
Definition quiet (l l' : Loop) : Prop :=
  ids l' = ids l ∧ spec l' = spec l ∧ specModified l' = specModified l ∧
  Iteration (progress l') = Iteration (progress l) ∧ pr_Status (progress l') = pr_Status (progress l).

Lemma quiet_refl l : quiet l l.
Proof. done. Qed.
Lemma quiet_trans l1 l2 l3 : quiet l1 l2 → quiet l2 l3 → quiet l1 l3.
Proof. unfold quiet. intuition congruence. Qed.

Lemma recordIteration_quiet i t c r l w : quiet l (recordIteration i t c r l w).1.
Proof. done. Qed.
Lemma recordCost_quiet i p r c rs l w : quiet l (recordCost i p r c rs l w).1.
Proof. unfold recordCost. by destruct (tracker l). Qed.
Lemma record_turn_quiet p r parts l w : quiet l (record_turn p r parts l w).1.
Proof. unfold record_turn. by destruct (0 <? _). Qed.
Lemma record_breaker_quiet d r l w : quiet l (record_breaker d r l w).
Proof. done. Qed.

(** One step of the tasks: nothing, or one completable task more; without a
    decomposer the specification stays. *)
Definition task_step (l l' : Loop) : Prop :=
  (ids l' = ids l ∨ ∃ id, ids l' = ids l ++ [id] ∧ completable (Tasks (spec l)) (ids l) id) ∧
  (TaskDecomposer cfg = None → spec l' = spec l ∧ specModified l' = specModified l).

Lemma quiet_task_step l l' : quiet l l' → task_step l l'.
Proof. unfold quiet, task_step. intuition. Qed.

Lemma quiet_task_step_l l1 l2 l3 : quiet l1 l2 → task_step l2 l3 → task_step l1 l3.
Proof.
  intros (H1 & H2 & H3 & _) [H4 H5]. unfold task_step. rewrite <- H1, <- H2, <- H3. done.
Qed.

Lemma quiet_task_step_r l1 l2 l3 : task_step l1 l2 → quiet l2 l3 → task_step l1 l3.
Proof.
  intros [H4 H5] (H1 & H2 & H3 & _). unfold task_step. rewrite H1, H2, H3. done.
Qed.

Lemma mark_done_step d l w :
  task_step l (mark_done d l w).1 ∧
  Iteration (progress (mark_done d l w).1) = Iteration (progress l) ∧
  pr_Status (progress (mark_done d l w).1) = pr_Status (progress l).
Proof.
  unfold mark_done. destruct (_ && _ && _) eqn:E; [|by split; [apply quiet_task_step|]].
  apply andb_true_iff in E as [_ Hm]. cbn [fst].
  set (l1 := set_progress _ l).
  assert (∀ l2, l2 = decompose (TaskID d) l1 →
    progress l2 = progress l1 ∧
    (TaskDecomposer cfg = None → spec l2 = spec l ∧ specModified l2 = specModified l)) as Hd.
  { intros l2 ->. unfold decompose. destruct (TaskDecomposer cfg) as [f|]; [|done].
    destruct (f _ _ _) as [subTasks s]. by destruct subTasks. }
  destruct (Hd _ eq_refl) as [Hp Hs]. unfold task_step, ids. rewrite Hp.
  split_and!; [|exact Hs|done..]. unfold l1, appendUnique. cbn.
  case_bool_decide as Ein; [by left|]. right. exists (TaskID d). split; [done|].
  unfold may_mark in Hm. apply orb_true_iff in Hm as [Hm|Hm].
  - by apply is_completed_map in Hm.
  - apply elem_of_ReadyTasks. by apply bool_decide_eq_true in Hm.
Qed.

(** What a pass may do after the iteration was counted and the specification read. *)
Definition flow_ok (l : Loop) (f : flow) : Prop :=
  task_step l (flow_state f) ∧ Iteration (progress (flow_state f)) = Iteration (progress l) ∧
  match f with
  | Return err l' _ =>
      pr_Status (progress l') = StatusCompleted →
      err = None ∧ (RequireAllTasksDone cfg = true → all_tasks_done l')
  | Next l' _ | Crash _ l' _ => pr_Status (progress l') = pr_Status (progress l)
  end.

Lemma flow_ok_quiet l1 l2 f : quiet l1 l2 → flow_ok l2 f → flow_ok l1 f.
Proof.
  intros Hq (H1 & H2 & H3). split; [by eapply quiet_task_step_l|].
  destruct Hq as (_ & _ & _ & Hi & Hs). split; [congruence|]. by destruct f; rewrite ?H3.
Qed.

Lemma flow_ok_next l l' w : quiet l l' → flow_ok l (Next l' w).
Proof. intros H. split; [by apply quiet_task_step|]. cbn. by destruct H as (_ & _ & _ & ? & ?). Qed.

(** A pass that ends without touching the tasks, and fails if it returns. *)
Definition flow_quiet (l : Loop) (f : flow) : Prop :=
  ids (flow_state f) = ids l ∧ spec (flow_state f) = spec l ∧
  specModified (flow_state f) = specModified l ∧
  Iteration (progress (flow_state f)) = Iteration (progress l) ∧
  match f with
  | Return _ l' _ => pr_Status (progress l') ≠ StatusCompleted
  | Next l' _ | Crash _ l' _ => pr_Status (progress l') = pr_Status (progress l)
  end.

Lemma flow_quiet_ok l l' f :
  task_step l l' → Iteration (progress l') = Iteration (progress l) →
  pr_Status (progress l') = pr_Status (progress l) → flow_quiet l' f → flow_ok l f.
Proof.
  intros [H1 H2] Hi Hs (Q1 & Q2 & Q3 & Q4 & Q5). split.
  - unfold task_step. rewrite Q1, Q2, Q3. done.
  - split; [congruence|]. destruct f; [congruence|done|congruence].
Qed.

Lemma flow_quiet_trans l l' f : quiet l l' → flow_quiet l' f → flow_quiet l f.
Proof.
  intros (H1 & H2 & H3 & H4 & H5) (Q1 & Q2 & Q3 & Q4 & Q5).
  unfold flow_quiet. rewrite Q1, Q2, Q3, Q4, H1, H2, H3, H4. split_and!; [done..|].
  by destruct f; rewrite <- ?H5.
Qed.

Lemma flow_quiet_next l l' w : quiet l l' → flow_quiet l (Next l' w).
Proof. intros (? & ? & ? & ? & ?). done. Qed.

Lemma flow_quiet_failed s t err l l' w :
  s ≠ StatusCompleted → quiet l l' →
  flow_quiet l (Return err (set_progress (with_status s t (progress l')) l') w).
Proof. intros Hs H. by eapply flow_quiet_trans; [exact H|]. Qed.

Lemma flow_quiet_flow_ok l f : flow_quiet l f → flow_ok l f.
Proof. intros H. eapply flow_quiet_ok; [apply quiet_task_step, quiet_refl|done..]. Qed.

Lemma check_budget_quiet d p r l w : flow_quiet l (check_budget d p r l w).
Proof.
  unfold check_budget. destruct (governor l) as [cg|]; [|destruct (tracker l) as [tr|]].
  - unfold check_governor. set (l1 := set_guards _ _ _ _ l). assert (quiet l l1) by done.
    case_bool_decide; [by apply flow_quiet_failed|by apply flow_quiet_next].
  - destruct (_ && _); [by apply flow_quiet_failed|by apply flow_quiet_next].
  - by apply flow_quiet_next.
Qed.

Lemma execute_decision_ok i p r d calls l w : flow_ok l (execute_decision i p r d calls l w).
Proof.
  unfold execute_decision. destruct (exec_calls i calls _ w) as [[v|x] w1].
  { by apply flow_quiet_flow_ok. }
  destruct (verify_writes calls (resultParts x) w1) as [parts w2].
  pose proof (record_turn_quiet p r parts l w2) as H1. destruct (record_turn p r parts l w2) as [l1 w3].
  eapply flow_ok_quiet; [exact H1|]. destruct (mark_done_step d l1 w3) as (H2 & H2i & H2s).
  destruct (mark_done d l1 w3) as [l2 w4].
  eapply flow_quiet_ok; [done..|].
  destruct (recordIteration _ _ _ _ l2 w4) as [l3 w5] eqn:E3.
  pose proof (recordIteration_quiet i (TaskID d) (toolNames x) (join newline parts) l2 w4) as H3.
  rewrite E3 in H3. eapply flow_quiet_trans; [exact H3|].
  pose proof (recordCost_quiet i p r calls (toolResults x) l3 w5) as H4.
  destruct (recordCost _ _ _ _ _ l3 w5) as [l4 w6].
  eapply flow_quiet_trans; [exact H4|].
  eapply flow_quiet_trans; [apply record_breaker_quiet|apply check_budget_quiet].
Qed.

Lemma complete_run_ok i l w : flow_ok l (complete_run i l w).
Proof.
  unfold complete_run. destruct (_ && _) eqn:E; [by apply flow_ok_next|]. cbn.
  split; [by split; [left|]|]. split; [done|]. intros _. split; [done|]. intros Hr.
  rewrite Hr in E. apply bool_decide_eq_false in E. apply dec_stable in E.
  intros t Ht. cbn in Ht. apply is_completed_map. apply not_false_iff_true. intros Hf.
  assert (ID t ∈ missing_tasks l) as Hin; [|rewrite E in Hin; by apply elem_of_nil in Hin].
  apply list_elem_of_filter. split; [exact Hf|]. by apply list_elem_of_fmap_2.
Qed.

Lemma handle_decision_ok i p r d l w : flow_ok l (handle_decision i p r d l w).
Proof.
  unfold handle_decision. destruct (blocked l (TaskID d)); [by apply flow_ok_next|].
  destruct (Complete d); [apply complete_run_ok|].
  destruct (ResolvedToolCalls d) as [|c cs]; [|apply execute_decision_ok].
  cbn. set (l1 := set_progress _ l).
  match goal with |- context [recordCost ?i ?p ?r ?c ?rs ?l ?w] =>
    pose proof (recordCost_quiet i p r c rs l w) as Hq; destruct (recordCost i p r c rs l w) as [l2 w2] end.
  by apply flow_ok_next.
Qed.

Lemma handle_reply_ok i p text l w : flow_ok l (handle_reply i p text l w).
Proof.
  unfold handle_reply. destruct text as [t|]; [|by apply flow_ok_next].
  destruct (parseDecision unmarshal t) as [e|d]; [by apply flow_ok_next|].
  eapply flow_ok_quiet; [|apply handle_decision_ok]. done.
Qed.

Lemma call_sampler_ok l w : flow_ok l (call_sampler l w).
Proof.
  unfold call_sampler. destruct (prefetch w) as [summary w1].
  destruct (sample_all _ w1) as [[text|err|sig] w2].
  - apply handle_reply_ok.
  - apply flow_quiet_flow_ok. unfold sampler_failed. set (l1 := set_fails _ l).
    match goal with |- context [recordIteration ?i ?t ?c ?r l1 ?w] =>
      pose proof (recordIteration_quiet i t c r l1 w) as Hq; destruct (recordIteration i t c r l1 w) as [l2 w3] end.
    assert (quiet l l2) by exact Hq.
    destruct (_ && _); [by apply flow_quiet_failed|by apply flow_quiet_next].
  - by apply flow_quiet_flow_ok, flow_quiet_failed.
Qed.

(** Counting the iteration: up to the prompt nothing is completed, and the only
    way on is with the next number, within the limit. *)
Definition counted (l : Loop) (f : flow) : Prop :=
  match f with
  | Next l' _ =>
      ids l' = ids l ∧ pr_Status (progress l') = pr_Status (progress l) ∧
      Iteration (progress l') = add64 (Iteration (progress l)) 1 ∧
      Iteration (progress l') <= MaxIterations cfg ∧
      (spec l' = spec l ∨ ∃ w1, (read_spec w1).1 = inr (spec l'))
  | Return _ l' _ =>
      ids l' = ids l ∧ pr_Status (progress l') ≠ StatusCompleted ∧
      (spec l' = spec l ∨ ∃ w1, (read_spec w1).1 = inr (spec l')) ∧
      (Iteration (progress l') = Iteration (progress l) ∨
       Iteration (progress l') = add64 (Iteration (progress l)) 1 ∧
       Iteration (progress l') <= MaxIterations cfg)
  | Crash _ _ _ => False
  end.

Lemma check_limits_counted l w :
  pr_Status (progress l) ≠ StatusCompleted → counted l (check_limits l w).
Proof.
  intros Hs. unfold check_limits. destruct (_ <? _) eqn:E; to_prop; cbn.
  - split_and!; auto.
  - split_and!; auto.
Qed.

Lemma check_pause_counted l w :
  pr_Status (progress l) ≠ StatusCompleted → counted l (check_pause l w).
Proof.
  intros Hs. unfold check_pause. destruct (checkPauseRequested w) as [[[err stop]|] w1];
    [|by apply check_limits_counted].
  destruct stop; cbn; split_and!; auto.
Qed.

Lemma counted_quiet l l' f : quiet l l' → counted l' f → counted l f.
Proof.
  intros (H1 & H2 & _ & H4 & H5). unfold counted. rewrite H1, H2, H4, H5. done.
Qed.

Lemma begin_iteration_counted l w :
  pr_Status (progress l) ≠ StatusCompleted → counted l (begin_iteration l w).
Proof.
  intros Hs. unfold begin_iteration. destruct (poll w) as [[|err|] w1]; cbn; [|by split_and!; auto..].
  unfold check_breaker. destruct (breaker l) as [cb|]; [|by apply check_pause_counted].
  destruct (LoopGuards.CanExecute cb (now w1)) as [ok cb1].
  set (l1 := set_guards _ _ _ _ l).
  destruct ok; [eapply counted_quiet; [|by apply check_pause_counted]; done|].
  cbn. split_and!; auto.
Qed.

Lemma prepared l w :
  pr_Status (progress l) ≠ StatusCompleted →
  counted l (then_ (begin_iteration l w) reload_spec).
Proof.
  intros Hs. pose proof (begin_iteration_counted l w Hs) as H.
  destruct (begin_iteration l w) as [l1 w1|err l1 w1|]; [|done..].
  destruct H as (H1 & H2 & H3 & H4 & H5). cbn [then_]. unfold reload_spec.
  destruct (specModified l1); [done|]. unfold LoadSpec.
  destruct (read_spec w1) as [[e|s] w2] eqn:Er; cbn; [by split_and!; auto|].
  destruct (ValidateSpec order s); cbn; [by split_and!; auto|].
  split_and!; [done..|]. right. exists w1. by rewrite Er.
Qed.

(** One pass. *)
Lemma iteration_spec l w :
  pr_Status (progress l) ≠ StatusCompleted →
  match iteration_ l w with
  | Next l' _ =>
      pr_Status (progress l') ≠ StatusCompleted ∧
      Iteration (progress l') = add64 (Iteration (progress l)) 1 ∧
      Iteration (progress l') <= MaxIterations cfg
  | Return err l' _ =>
      (Iteration (progress l') = Iteration (progress l) ∨
       Iteration (progress l') = add64 (Iteration (progress l)) 1 ∧
       Iteration (progress l') <= MaxIterations cfg) ∧
      (pr_Status (progress l') = StatusCompleted →
       err = None ∧ (RequireAllTasksDone cfg = true → all_tasks_done l'))
  | Crash _ l' _ =>
      Iteration (progress l') = add64 (Iteration (progress l)) 1 ∧
      Iteration (progress l') <= MaxIterations cfg
  end.
Proof.
  intros Hs. unfold iteration_. pose proof (prepared l w Hs) as H.
  destruct (then_ (begin_iteration l w) reload_spec) as [l1 w1|err l1 w1|]; [|cbn..]; [| |done].
  - destruct H as (H1 & H2 & H3 & H4 & _). cbn [then_].
    pose proof (call_sampler_ok l1 w1) as (_ & Hi & Hf).
    destruct (call_sampler l1 w1) as [l2 w2|err l2 w2|v l2 w2]; cbn [flow_state] in *.
    + split_and!; [congruence|congruence|lia].
    + split; [right; split; [congruence|lia]|done].
    + split; [congruence|lia].
  - destruct H as (H1 & H2 & H3 & H4). split; [done|congruence].
Qed.

(** With a fixed specification and no decomposer, one pass completes at most one
    more task, and only a completable one. *)
Lemma iteration_tasks sp l w :
  TaskDecomposer cfg = None → (∀ w, (read_spec w).1 = inr sp) → spec l = sp →
  pr_Status (progress l) ≠ StatusCompleted →
  let l' := flow_state (iteration_ l w) in
  spec l' = sp ∧ (ids l' = ids l ∨ ∃ id, ids l' = ids l ++ [id] ∧ completable (Tasks sp) (ids l) id).
Proof.
  intros Hd Hread Hspec Hs. cbn zeta. unfold iteration_. pose proof (prepared l w Hs) as H.
  destruct (then_ (begin_iteration l w) reload_spec) as [l1 w1|err l1 w1|]; [|cbn..]; [| |done].
  - destruct H as (H1 & _ & _ & _ & H5). cbn [then_].
    assert (spec l1 = sp) as Hsp.
    { destruct H5 as [->|[w2 Hw]]; [done|]. rewrite Hread in Hw. by injection Hw. }
    pose proof (call_sampler_ok l1 w1) as ([Hids Hsame] & _).
    destruct (Hsame Hd) as [-> _]. rewrite Hsp, H1 in Hids. done.
  - destruct H as (H1 & _ & H3 & _). split; [|by left].
    destruct H3 as [->|[w2 Hw]]; [done|]. rewrite Hread in Hw. by injection Hw.
Qed.

(** The tasks completed between two states, in order. *)
Definition completed_in_order (tasks : list Task) (before after : list string) : Prop :=
  ∃ new, after = before ++ new ∧
    ∀ a id b, new = a ++ id :: b → completable tasks (before ++ a) id.

Lemma completed_in_order_refl tasks before : completed_in_order tasks before before.
Proof. exists []. rewrite app_nil_r. split; [done|]. by intros [] ? ?. Qed.

Lemma completed_in_order_cons tasks l1 l2 id :
  completable tasks l1 id → completed_in_order tasks (l1 ++ [id]) l2 → completed_in_order tasks l1 l2.
Proof.
  intros Hid (new & -> & Hnew). exists (id :: new). rewrite <- app_assoc. split; [done|].
  intros [|x a] id' b; cbn; intros [= <- Heq].
  - by rewrite app_nil_r.
  - assert (l1 ++ id :: a = (l1 ++ [id]) ++ a) as -> by (by rewrite <- app_assoc).
    by apply (Hnew a id' b).
Qed.

Lemma run_loop_tasks sp fuel l w :
  TaskDecomposer cfg = None → (∀ w, (read_spec w).1 = inr sp) → spec l = sp →
  pr_Status (progress l) ≠ StatusCompleted →
  completed_in_order (Tasks sp) (ids l) (ids (final_state (run_loop fuel l w))).
Proof.
  intros Hd Hread. revert l w. induction fuel as [|fuel IH]; intros l w Hspec Hs; cbn.
  { apply completed_in_order_refl. }
  pose proof (iteration_tasks sp l w Hd Hread Hspec Hs) as [Hsp Hids].
  pose proof (iteration_spec l w Hs) as Hit.
  assert (∀ l', ids l' = ids l ∨ (∃ id, ids l' = ids l ++ [id] ∧ completable (Tasks sp) (ids l) id) →
    completed_in_order (Tasks sp) (ids l) (ids l')) as Hone.
  { intros l' [->|(id & -> & Hc)]; [apply completed_in_order_refl|].
    eapply completed_in_order_cons; [exact Hc|apply completed_in_order_refl]. }
  destruct (iteration_ l w) as [l1 w1|err l1 w1|v l1 w1]; cbn in *.
  - destruct Hit as [Hs1 _]. specialize (IH l1 w1 Hsp Hs1).
    destruct Hids as [Heq|(id & Heq & Hc)]; rewrite Heq in IH; [done|].
    by eapply completed_in_order_cons.
  - by apply Hone.
  - by apply Hone.
Qed.

Lemma run_loop_ends fuel l w :
  pr_Status (progress l) ≠ StatusCompleted → in64 (Iteration (progress l)) →
  Iteration (progress l) < max_int64 → MaxIterations cfg < max_int64 →
  (Z.to_nat (MaxIterations cfg - Iteration (progress l)) < fuel)%nat →
  match run_loop fuel l w with
  | OutOfFuel _ _ => False
  | Finished _ l' _ | Crashed _ l' _ =>
      Iteration (progress l) <= Iteration (progress l') <=
      Z.max (MaxIterations cfg) (Iteration (progress l))
  end.
Proof.
  revert l w. induction fuel as [|fuel IH]; intros l w Hs Hin Hlt Hmax Hfuel; cbn; [lia|].
  pose proof (iteration_spec l w Hs) as Hit.
  assert (add64 (Iteration (progress l)) 1 = Iteration (progress l) + 1) as Hadd
    by (apply add64_id; unfold in64, min_int64 in *; lia).
  destruct (iteration_ l w) as [l1 w1|err l1 w1|v l1 w1]; rewrite Hadd in Hit.
  - destruct Hit as (Hs1 & Hi & Hle). specialize (IH l1 w1 Hs1). rewrite Hi in *.
    assert (match run_loop fuel l1 w1 with
            | OutOfFuel _ _ => False
            | Finished _ l' _ | Crashed _ l' _ =>
                Iteration (progress l) + 1 <= Iteration (progress l') <=
                Z.max (MaxIterations cfg) (Iteration (progress l) + 1)
            end) as H by (apply IH; unfold in64 in *; lia).
    destruct (run_loop fuel l1 w1); [lia|lia|done].
  - lia.
  - lia.
Qed.

Lemma run_loop_gate fuel l w err l' w' :
  pr_Status (progress l) ≠ StatusCompleted → run_loop fuel l w = Finished err l' w' →
  pr_Status (progress l') = StatusCompleted →
  err = None ∧ (RequireAllTasksDone cfg = true → all_tasks_done l').
Proof.
  revert l w. induction fuel as [|fuel IH]; intros l w Hs; cbn; [done|].
  pose proof (iteration_spec l w Hs) as Hit.
  destruct (iteration_ l w) as [l1 w1|e l1 w1|v l1 w1]; [|intros [= <- <- <-]; apply Hit|done].
  apply IH. by destruct Hit.
Qed.

Lemma load_history_quiet l w : quiet l (load_history l w).1.
Proof.
  unfold load_history. destruct (0 <? _); [|done]. destruct (ForceRestart cfg); [done|].
  by destruct (LoadCheckpoint _ w) as [[?|[|? ?]] ?].
Qed.

(** ** Properties *)

(** C4.  Tasks are completed in dependency order: whatever the model answers and
    the tools do, with a valid specification that does not change under the run,
    the identifiers a run adds to the completed list are distinct open tasks of
    the specification, each added after all of its dependencies. *)
Theorem completions_respect_dependencies sp l w :
  TaskDecomposer cfg = None → (∀ w, (read_spec w).1 = inr sp) → ValidateSpec order sp = None →
  completed_in_order (Tasks sp) (CompletedIDs (resumed_progress w)) (ids (final_state (Run l w))).
Proof.
  intros Hd Hread Hv. unfold resumed_progress, Run.
  assert (∃ w1, LoadSpec w = (inr sp, w1)) as [w1 Hl].
  { unfold LoadSpec. pose proof (Hread w) as Hr. destruct (read_spec w) as [r w1]. cbn in Hr.
    subst r. rewrite Hv. by eexists. }
  rewrite Hl. cbn [snd]. destruct (read_progress w1) as [[e|p] w2]; cbn [fst].
  { apply completed_in_order_refl. }
  case_bool_decide as Es; [apply completed_in_order_refl|].
  set (p' := if ForceRestart cfg then zero_Progress else p) in *.
  set (l1 := set_spec _ _ _).
  pose proof (load_history_quiet l1 w2) as Hq. destruct (load_history l1 w2) as [l2 w3].
  destruct Hq as (H1 & H2 & _ & _ & H5). cbn [fst] in *.
  change (CompletedIDs p') with (ids l1). rewrite <- H1.
  apply run_loop_tasks; [done..|]. by rewrite H5.
Qed.

(** C26.  The loop ends: a run never needs more than the [MaxIterations] passes its
    fuel allows, and never counts past the limit, unless the saved progress was
    already beyond it. *)
Theorem Run_terminates l w :
  MaxIterations cfg < max_int64 →
  (∀ w p, (read_progress w).1 = inr p → in64 (Iteration p) ∧ Iteration p < max_int64) →
  match Run l w with
  | OutOfFuel _ _ => False
  | Crashed _ l' _ => Iteration (progress l') <=
      Z.max (MaxIterations cfg) (Iteration (resumed_progress w))
  | Finished _ l' _ => Iteration (progress l') <=
      Z.max (MaxIterations cfg) (Iteration (resumed_progress w)) ∨
      ∃ err, (LoadSpec w).1 = inl err
  end.
Proof.
  intros Hmax Hread. unfold resumed_progress, Run.
  destruct (LoadSpec w) as [[e|sp] w1]; [by right; eexists|]. cbn [snd].
  pose proof (Hread w1) as Hp. destruct (read_progress w1) as [[e|p] w2]; cbn [fst] in *.
  { left. cbn. lia. }
  assert (in64 (Iteration (if ForceRestart cfg then zero_Progress else p)) ∧
    Iteration (if ForceRestart cfg then zero_Progress else p) < max_int64) as [Hin Hlt]
    by (destruct (ForceRestart cfg); [done|by apply Hp]).
  case_bool_decide as Es; [left; cbn [progress set_progress]; lia|].
  set (p' := if ForceRestart cfg then zero_Progress else p) in *.
  set (l1 := set_spec _ _ _).
  pose proof (load_history_quiet l1 w2) as Hq. destruct (load_history l1 w2) as [l2 w3].
  destruct Hq as (_ & _ & _ & H4 & H5). cbn [fst] in *.
  change (Iteration p') with (Iteration (progress l1)) in *. rewrite <- H4 in *.
  pose proof (run_loop_ends (run_fuel l2) l2 w3) as H. rewrite H5 in H.
  specialize (H ltac:(done) Hin Hlt Hmax ltac:(unfold run_fuel; lia)).
  destruct (run_loop _ l2 w3); [left|..]; lia || done.
Qed.

(** Completion is gated: a run that was not already marked completed ends
    with that status only by returning nil after the model declared completion,
    and with the exit gate set only when every task of the specification in force
    is on the completed list. *)
Theorem completion_gate l w err l' w' :
  pr_Status (progress l) ≠ StatusCompleted → pr_Status (resumed_progress w) ≠ StatusCompleted →
  Run l w = Finished err l' w' → pr_Status (progress l') = StatusCompleted →
  err = None ∧ (RequireAllTasksDone cfg = true → all_tasks_done l').
Proof.
  intros Hs. unfold resumed_progress, Run. destruct (LoadSpec w) as [[e|sp] w1].
  { intros _ [= <- <- <-]. done. }
  cbn [snd]. destruct (read_progress w1) as [[e|p] w2]; cbn [fst].
  { intros _ [= <- <- <-]. done. }
  intros Hp. rewrite bool_decide_false by done. set (l1 := set_spec _ _ _).
  pose proof (load_history_quiet l1 w2) as Hq. destruct (load_history l1 w2) as [l2 w3].
  destruct Hq as (_ & _ & _ & _ & H5). cbn [fst] in *.
  apply run_loop_gate. by rewrite H5.
Qed.

(** An unparsable reply is recorded and the loop goes on, but the breaker, the
    governor and the cost tracker are not told about it. *)
Lemma unparsable_replies_bypass_guards i prompt text err l w :
  parseDecision unmarshal text = inl err →
  ∃ l' w', handle_reply i prompt (Some text) l w = Next l' w' ∧
    breaker l' = breaker l ∧ governor l' = governor l ∧ tracker l' = tracker l ∧
    stuckHint l' = stuckHint l.
Proof. intros H. unfold handle_reply. rewrite H. do 2 eexists. done. Qed.
End Loop.

(** ** Witnesses

    A run on two tasks, the second depending on the first; the world is the list
    of replies still to come. *)
Definition demo_spec : Spec := {|
  sp_Name := "demo"; sp_Description := "two steps"; Completion := "both done";
  Tasks := [{| ID := "b"; TaskDescription := "second"; Done := false; DependsOn := ["a"] |};
            {| ID := "a"; TaskDescription := "first"; Done := false; DependsOn := [] |}] |}.

Definition demo_decision (text : string) (d : Decision) : bool * Decision :=
  (true, {| Complete := bool_decide (text = "complete"); TaskID := if bool_decide (text = "complete") then "" else text;
            d_ToolName := "noop"; d_Arguments := None; d_ToolCalls := []; Reasoning := ""; MarkDone := true |}).

Definition demo_config : Config (Ctx := unit) (Req := unit) (W := list string) := {|
  MaxIterations := 10; SpecFile_ := "demo.json"; ToolRegistry_ := NewToolRegistry [];
  MaxTokens := 100; EstimateFunc := None; ForceRestart := false; ToolTimeout := Second;
  SamplerRetries := 0; SamplerBackoff := 0; BudgetLimit := 0; ModelSelector := None;
  HistoryWindow := 0; CheckpointFile := ""; PhaseMaxTokens := ∅; AutoVerifyLevel := "";
  ProjectRoot := ""; TaskDecomposer := None; StuckThreshold := 0; RequireAllTasksDone := true;
  MaxConsecutiveSamplerFailures := 0; PreFetchHook := None |}.

Definition demo_loop : Loop := {|
  progress := zero_Progress; history := []; specModified := false; checkpointFile := "";
  stuckHint := ""; costDowngrade := false; consecutiveSamplerFails := 0;
  breaker := Some (LoopGuards.NewCircuitBreaker LoopGuards.DefaultCircuitBreakerConfig);
  governor := None; tracker := None; spec := demo_spec |}.

Definition demo_sampler (req : sampling_request) (w : list string) : (error + option string) * list string :=
  (inr (head w), tail w).

(** The model first tries the blocked task, then works in order. *)
Definition demo_replies : list string := ["b"; "a"; "complete"; "b"; "complete"].

Definition demo_run (replies : list string) : run_result :=
  Run id (λ _, None) (λ _, None) demo_decision "" (λ _, 0) (λ w, (Go, w)) (λ _ w, (Go, w))
    (λ w, (inr demo_spec, w)) (λ w, (inr zero_Progress, w)) (λ _ w, w) (λ _ w, (inr [], w))
    (λ _ _ w, w) demo_sampler (λ _ _, tt) (λ _ _ _, tt) (λ _ w, w) (λ w, (None, w))
    (λ _ w, ((true, ""), w)) error_text (λ _ w, ([], w)) demo_config id demo_loop replies.

Lemma completions_respect_dependencies_witness :
  ids (final_state (demo_run demo_replies)) = ["a"; "b"] ∧
  completed_in_order (Tasks demo_spec) [] (ids (final_state (demo_run demo_replies))).
Proof.
  split; [vm_compute; reflexivity|].
  apply (completions_respect_dependencies id (λ _, None) (λ _, None) demo_decision "" (λ _, 0)
    (λ w, (Go, w)) (λ _ w, (Go, w)) (λ w, (inr demo_spec, w)) (λ w, (inr zero_Progress, w))
    (λ _ w, w) (λ _ w, (inr [], w)) (λ _ _ w, w) demo_sampler (λ _ _, tt) (λ _ _ _, tt) (λ _ w, w)
    (λ w, (None, w)) (λ _ w, ((true, ""), w)) error_text (λ _ w, ([], w)) demo_config id demo_spec
    demo_loop demo_replies).
  - reflexivity.
  - reflexivity.
  - vm_compute. reflexivity.
Defined.

Lemma Run_terminates_witness :
  match demo_run demo_replies with
  | OutOfFuel _ _ => False
  | Crashed _ l' _ => Iteration (progress l') <= Z.max 10 0
  | Finished _ l' _ => Iteration (progress l') <= Z.max 10 0 ∨
      ∃ err, (LoadSpec id (λ w, (inr demo_spec, w)) demo_replies).1 = inl err
  end.
Proof.
  apply (Run_terminates id (λ _, None) (λ _, None) demo_decision "" (λ _, 0)
    (λ w, (Go, w)) (λ _ w, (Go, w)) (λ w, (inr demo_spec, w)) (λ w, (inr zero_Progress, w))
    (λ _ w, w) (λ _ w, (inr [], w)) (λ _ _ w, w) demo_sampler (λ _ _, tt) (λ _ _ _, tt) (λ _ w, w)
    (λ w, (None, w)) (λ _ w, ((true, ""), w)) error_text (λ _ w, ([], w)) demo_config id
    demo_loop demo_replies).
  - reflexivity.
  - intros w p [= <-]. unfold in64, min_int64, max_int64. cbn. lia.
Defined.

Lemma completion_gate_witness :
  ∃ err l' w', demo_run demo_replies = Finished err l' w' ∧
    pr_Status (progress l') = StatusCompleted ∧ err = None ∧ all_tasks_done l'.
Proof.
  destruct (demo_run demo_replies) as [err l' w'|v l' w'|l' w'] eqn:E;
    [|apply (f_equal (λ r, match r with Finished _ _ _ => true | _ => false end)) in E;
      vm_compute in E; discriminate..].
  exists err, l', w'. split; [reflexivity|].
  assert (pr_Status (progress l') = StatusCompleted) as Hs.
  { transitivity (pr_Status (progress (final_state (demo_run demo_replies))));
      [rewrite E; reflexivity|vm_compute; reflexivity]. }
  split; [exact Hs|].
  destruct (completion_gate id (λ _, None) (λ _, None) demo_decision "" (λ _, 0)
    (λ w, (Go, w)) (λ _ w, (Go, w)) (λ w, (inr demo_spec, w)) (λ w, (inr zero_Progress, w))
    (λ _ w, w) (λ _ w, (inr [], w)) (λ _ _ w, w) demo_sampler (λ _ _, tt) (λ _ _ _, tt) (λ _ w, w)
    (λ w, (None, w)) (λ _ w, ((true, ""), w)) error_text (λ _ w, ([], w)) demo_config id
    demo_loop demo_replies err l' w') as [H1 H2];
    [cbn; discriminate|cbn; discriminate|exact E|exact Hs|].
  split; [exact H1|apply H2; reflexivity].
Defined.
