(* ===== verification/Security.v ===== *)
(** Access control and auditing (src/security/rbac.go, audit.go, middleware.go):
    roles and permissions, the in-memory audit ring with its file queue, and the
    two middlewares.  Lower-casing and trimming are those of ASCII text. *)

From stdpp Require Import base tactics list gmap sets strings pretty relations.
From Stdlib Require Import ZArith Lia.
From S2P Require Import Prelude Tool Truncate.
From S2P Require LoopGuards Sanitize.

Local Open Scope Z_scope.

(** ** Roles and permissions (rbac.go) *)
Definition Role := string.
Definition Permission := string.
Definition RoleAdmin : Role := "admin".
Definition RoleOperator : Role := "operator".
Definition RoleReadonly : Role := "readonly".
Definition PermRead : Permission := "read".
Definition PermWrite : Permission := "write".
Definition PermAdmin : Permission := "admin".
Definition PermDelete : Permission := "delete".

Definition RolePermissions : gmap string (list Permission) := {[
  RoleAdmin := [PermRead; PermWrite; PermAdmin; PermDelete];
  RoleOperator := [PermRead; PermWrite];
  RoleReadonly := [PermRead] ]}.

(** A map in the code: it is walked in no fixed order. *)
Definition DefaultToolPermissions : list (string * Permission) := [
  ("_status", PermRead); ("_list", PermRead); ("_get", PermRead); ("_health", PermRead);
  ("_whoami", PermRead); ("_discover", PermRead);
  ("_sync", PermWrite); ("_create", PermWrite); ("_update", PermWrite); ("_add", PermWrite);
  ("_restart", PermWrite); ("_trigger", PermWrite);
  ("_delete", PermAdmin); ("_reset", PermAdmin); ("_rotate", PermAdmin)].

Record RBAC := {
  userRoles : gmap string (list Role);
  toolOverrides : gmap string Permission;
  defaultRole : Role
}.

Definition NewRBAC (roles : gmap string (list Role)) (default_ : Role) : RBAC := {|
  userRoles := roles; toolOverrides := ∅;
  defaultRole := if bool_decide (default_ = "") then RoleReadonly else default_ |}.

(** [strings.SplitN(entry, ":", 2)] when it has two parts. *)
Definition split_colon (entry : string) : option (string * string) :=
  match Sanitize.index_colon entry with
  | Some i => Some (string_take i entry, string_drop (i + 1) entry)
  | None => None
  end.

Definition parse_user (m : gmap string (list Role)) (entry : string) : gmap string (list Role) :=
  match split_colon (LoopGuards.TrimSpace entry) with
  | None => m
  | Some (user, role) =>
      let username := LoopGuards.TrimSpace user in
      let roleName := LoopGuards.TrimSpace (to_lower role) in
      if bool_decide (username = "") || bool_decide (roleName = "") then m
      else match RolePermissions !! roleName with
           | None => m
           | Some _ => <[username := default [] (m !! username) ++ [roleName]]> m
           end
  end.

Definition ParseRBACUsers (env : string) : option (gmap string (list Role)) :=
  let env := LoopGuards.TrimSpace env in
  if bool_decide (env = "") then None else
  let result := foldl parse_user ∅ (Sanitize.split (Ascii.ascii_of_nat 44) env) in
  if bool_decide (result = ∅) then None else Some result.

Definition GetUserRoles (r : RBAC) (username : string) : list Role :=
  match userRoles r !! username with
  | Some roles => roles
  | None => match userRoles r !! "default" with
            | Some roles => roles
            | None => [defaultRole r]
            end
  end.

Definition HasPermission (r : RBAC) (username : string) (perm : Permission) : bool :=
  existsb (λ role, match RolePermissions !! role with
                   | Some perms => existsb (λ p, bool_decide (p = perm)) perms
                   | None => false
                   end) (GetUserRoles r username).

(** [walk] is the order in which this call walks the suffix map. *)
Definition GetToolPermission (walk : list (string * Permission)) (r : RBAC) (toolName : string) :
    Permission :=
  match toolOverrides r !! toolName with
  | Some perm => perm
  | None =>
      match list_find (λ p : string * Permission, has_suffix p.1 toolName = true) walk with
      | Some (_, (_, perm)) => perm
      | None => PermRead
      end
  end.

Definition CanAccessTool (walk : list (string * Permission)) (r : RBAC) (username toolName : string) :
    bool := HasPermission r username (GetToolPermission walk r toolName).

Definition SetUserRoles (r : RBAC) (username : string) (roles : list Role) : RBAC := {|
  userRoles := <[username := roles]> (userRoles r); toolOverrides := toolOverrides r;
  defaultRole := defaultRole r |}.
Definition SetToolPermission (r : RBAC) (toolName : string) (perm : Permission) : RBAC := {|
  userRoles := userRoles r; toolOverrides := <[toolName := perm]> (toolOverrides r);
  defaultRole := defaultRole r |}.

Definition CheckAccess (walk : list (string * Permission)) (r : RBAC) (username toolName : string) :
    option error :=
  if CanAccessTool walk r username toolName then None
  else Some (Err ("access denied: user " +:+ quote username +:+ " lacks permission for tool " +:+
                  quote toolName)).

Record UserAccessInfo := {
  Username : string;
  Roles : list Role;
  Permissions : list Permission
}.

(** The permissions come in the order the set is walked. *)
Definition GetUserAccess (r : RBAC) (username : string) : UserAccessInfo := {|
  Username := username; Roles := GetUserRoles r username;
  Permissions := elements (foldl (λ (s : gset string) role,
    match RolePermissions !! role with
    | Some perms => foldl (λ s p, {[p]} ∪ s) s perms
    | None => s
    end) ∅ (GetUserRoles r username)) |}.

(** ** The audit log (audit.go) *)
Inductive AuditEventType :=
| AuditToolCall | AuditToolSuccess | AuditToolError | AuditAccessDeny | AuditLogin | AuditSecretRead.

#[export] Instance AuditEventType_eq_dec : EqDecision AuditEventType.
Proof. solve_decision. Defined.

Record AuditEvent := {
  ev_ID : string;
  ev_Timestamp : time;
  ev_Type : AuditEventType;
  User : string;
  ev_Tool : string;
  ev_Action : string;
  ev_Params : option (list (string * json));
  ev_Result : string;
  ev_Error : string;
  ev_Duration : duration;
  ev_IP : string;
  ev_SessionID : string
}.

(** [writeQueue] is the buffered channel to the background writer, [taken] what the
    writer received from it, [logged] every event that entered the ring. *)
Record AuditLogger := {
  events : list AuditEvent;
  maxEvents : Z;
  logFile : string;
  queueSize : Z;
  writeQueue : list AuditEvent;
  taken : list AuditEvent;
  dropped : Z;
  exportErrors : Z;
  seq : Z;
  stopped : bool;
  writer_done : bool;
  logged : list AuditEvent
}.

Definition NewAuditLogger (maxEvents_ queueSize_ : Z) (logFile_ : string) : AuditLogger := {|
  events := []; maxEvents := if maxEvents_ <=? 0 then 1000 else maxEvents_;
  logFile := logFile_; queueSize := if queueSize_ <=? 0 then 100 else queueSize_;
  writeQueue := []; taken := []; dropped := 0; exportErrors := 0; seq := 0; stopped := false;
  writer_done := false; logged := [] |}.

Definition set_seq (n : Z) (l : AuditLogger) : AuditLogger := {|
  events := events l; maxEvents := maxEvents l; logFile := logFile l; queueSize := queueSize l;
  writeQueue := writeQueue l; taken := taken l; dropped := dropped l;
  exportErrors := exportErrors l; seq := n; stopped := stopped l; writer_done := writer_done l;
  logged := logged l |}.
Definition set_queue (q t : list AuditEvent) (d : Z) (l : AuditLogger) : AuditLogger := {|
  events := events l; maxEvents := maxEvents l; logFile := logFile l; queueSize := queueSize l;
  writeQueue := q; taken := t; dropped := d; exportErrors := exportErrors l; seq := seq l;
  stopped := stopped l; writer_done := writer_done l; logged := logged l |}.
Definition set_stop (s d : bool) (l : AuditLogger) : AuditLogger := {|
  events := events l; maxEvents := maxEvents l; logFile := logFile l; queueSize := queueSize l;
  writeQueue := writeQueue l; taken := taken l; dropped := dropped l;
  exportErrors := exportErrors l; seq := seq l; stopped := s; writer_done := d;
  logged := logged l |}.

(** Nanoseconds since 1970. *)
Definition UnixNano (t : time) : Z := wrap64 (t - 62135596800 * Second).

(** [Log] in its four parts: the stamp with the atomic counter, the ring under the
    mutex, the non-blocking send, the exporters.  [failures] counts the exporters
    that answer an error. *)
Definition stamp (now : time) (e : AuditEvent) (l : AuditLogger) : AuditEvent * AuditLogger :=
  let n := (seq l + 1) mod 2 ^ 64 in
  let fresh := bool_decide (ev_ID e = "") in
  ({| ev_ID := if fresh then itoa (UnixNano now) +:+ "-" +:+ itoa n else ev_ID e;
      ev_Timestamp := now; ev_Type := ev_Type e; User := User e; ev_Tool := ev_Tool e;
      ev_Action := ev_Action e; ev_Params := ev_Params e; ev_Result := ev_Result e;
      ev_Error := ev_Error e; ev_Duration := ev_Duration e; ev_IP := ev_IP e;
      ev_SessionID := ev_SessionID e |},
   if fresh then set_seq n l else l).

Definition ring_push (e : AuditEvent) (l : AuditLogger) : AuditLogger :=
  let evs := if maxEvents l <=? Z.of_nat (length (events l)) then tail (events l) else events l in {|
  events := evs ++ [e]; maxEvents := maxEvents l; logFile := logFile l; queueSize := queueSize l;
  writeQueue := writeQueue l; taken := taken l; dropped := dropped l;
  exportErrors := exportErrors l; seq := seq l; stopped := stopped l; writer_done := writer_done l;
  logged := logged l ++ [e] |}.

Definition enqueue (e : AuditEvent) (l : AuditLogger) : AuditLogger :=
  if bool_decide (logFile l = "") then l
  else if Z.of_nat (length (writeQueue l)) <? queueSize l
       then set_queue (writeQueue l ++ [e]) (taken l) (dropped l) l
       else set_queue (writeQueue l) (taken l) (add64 (dropped l) 1) l.

Definition export_all (failures : nat) (l : AuditLogger) : AuditLogger := {|
  events := events l; maxEvents := maxEvents l; logFile := logFile l; queueSize := queueSize l;
  writeQueue := writeQueue l; taken := taken l; dropped := dropped l;
  exportErrors := add64 (exportErrors l) (Z.of_nat failures); seq := seq l; stopped := stopped l;
  writer_done := writer_done l; logged := logged l |}.

Definition Log (e : AuditEvent) (now : time) (failures : nat) (l : AuditLogger) : AuditLogger :=
  let '(e, l) := stamp now e l in export_all failures (enqueue e (ring_push e l)).

(** The background writer receives an event. *)
Definition writer_step (l : AuditLogger) : option AuditLogger :=
  match writeQueue l with
  | [] => None
  | e :: rest => Some (set_queue rest (taken l ++ [e]) (dropped l) l)
  end.

(** Concurrent callers of [Log], the writer and [Close]: [to_push] and [to_queue]
    are the events of calls stopped between two parts. *)
Record AuditSystem := {
  logger : AuditLogger;
  to_push : list AuditEvent;
  to_queue : list AuditEvent
}.

Inductive audit_step : AuditSystem → AuditSystem → Prop :=
| as_stamp l p q now e e' l' :
    stamp now e l = (e', l') →
    audit_step {| logger := l; to_push := p; to_queue := q |}
               {| logger := l'; to_push := e' :: p; to_queue := q |}
| as_push l p q e p' :
    p ≡ₚ e :: p' →
    audit_step {| logger := l; to_push := p; to_queue := q |}
               {| logger := ring_push e l; to_push := p'; to_queue := e :: q |}
| as_enqueue l p q e q' :
    q ≡ₚ e :: q' →
    audit_step {| logger := l; to_push := p; to_queue := q |}
               {| logger := enqueue e l; to_push := p; to_queue := q' |}
| as_export l p q failures :
    audit_step {| logger := l; to_push := p; to_queue := q |}
               {| logger := export_all failures l; to_push := p; to_queue := q |}
| as_write l p q l' :
    writer_done l = false → writer_step l = Some l' →
    audit_step {| logger := l; to_push := p; to_queue := q |}
               {| logger := l'; to_push := p; to_queue := q |}
| as_close l p q :
    audit_step {| logger := l; to_push := p; to_queue := q |}
               {| logger := set_stop true (writer_done l) l; to_push := p; to_queue := q |}
(** The writer ends when it sees the stop, or before its first event when the
    directory cannot be made. *)
| as_writer_exit l p q :
    stopped l = true ∨ taken l = [] →
    audit_step {| logger := l; to_push := p; to_queue := q |}
               {| logger := set_stop (stopped l) true l; to_push := p; to_queue := q |}.

Definition GetRecentEvents (l : AuditLogger) (limit : Z) : list AuditEvent :=
  let n := Z.of_nat (length (events l)) in
  let limit := if (limit <=? 0) || (n <? limit) then n else limit in
  last_n (Z.to_nat limit) (events l).

Definition newest (p : AuditEvent → bool) (l : AuditLogger) (limit : Z) : list AuditEvent :=
  take (Z.to_nat limit) (filter (λ e, p e = true) (reverse (events l))).
Definition GetEventsByUser (l : AuditLogger) (user : string) (limit : Z) : list AuditEvent :=
  newest (λ e, bool_decide (User e = user)) l limit.
Definition GetEventsByTool (l : AuditLogger) (tool : string) (limit : Z) : list AuditEvent :=
  newest (λ e, bool_decide (ev_Tool e = tool)) l limit.
Definition GetErrorEvents (l : AuditLogger) (limit : Z) : list AuditEvent :=
  newest (λ e, bool_decide (ev_Type e = AuditToolError) || bool_decide (ev_Type e = AuditAccessDeny))
    l limit.

Definition sensitiveKeys : list string :=
  ["password"; "secret"; "token"; "key"; "credential"; "auth"; "bearer"; "api_key"; "private"; "oauth"].
Definition is_sensitive (k : string) : bool :=
  existsb (λ s, bool_decide (to_lower k = s) || contains s (to_lower k)) sensitiveKeys.
Definition SanitizeAuditParams (params : option (list (string * json))) :
    option (list (string * json)) :=
  map (λ kv : string * json, (kv.1, if is_sensitive kv.1 then JString "[REDACTED]" else kv.2)) <$> params.

Record AuditStats := {
  TotalEvents : Z;
  EventsByType : gmap string Z;
  EventsByUser : gmap string Z;
  ErrorCount : Z;
  AccessDenied : Z;
  TopTools : gmap string Z;
  AverageLatency : duration;
  DroppedEvents : Z;
  ExportErrors : Z
}.

Definition type_name (t : AuditEventType) : string :=
  match t with
  | AuditToolCall => "tool_call" | AuditToolSuccess => "tool_success"
  | AuditToolError => "tool_error" | AuditAccessDeny => "access_denied"
  | AuditLogin => "login" | AuditSecretRead => "secret_read"
  end.

(** [m[k]++] *)
Definition bump (k : string) (m : gmap string Z) : gmap string Z :=
  <[k := default 0 (m !! k) + 1]> m.
Definition counts {A} (key : A → string) (l : list A) : gmap string Z :=
  foldl (λ m a, bump (key a) m) ∅ l.
Definition count_if {A} (p : A → bool) (l : list A) : Z :=
  foldl (λ n a, if p a then n + 1 else n) 0 l.

Definition GetStats (l : AuditLogger) : AuditStats :=
  let evs := events l in
  let timed := filter (λ e, (0 <? ev_Duration e) = true) evs in
  let total := foldl (λ t e, add64 t (ev_Duration e)) 0 timed in {|
  TotalEvents := Z.of_nat (length evs);
  EventsByType := counts (λ e, type_name (ev_Type e)) evs;
  EventsByUser := counts User evs;
  ErrorCount := count_if (λ e, bool_decide (ev_Type e = AuditToolError)) evs;
  AccessDenied := count_if (λ e, bool_decide (ev_Type e = AuditAccessDeny)) evs;
  TopTools := counts ev_Tool (filter (λ e, ev_Tool e ≠ "") evs);
  AverageLatency :=
    if (0 <? length timed)%nat then Z.quot total (Z.of_nat (length timed)) else 0;
  DroppedEvents := dropped l; ExportErrors := exportErrors l |}.

Definition mkevent (ty : AuditEventType) (user tool : string) (params : option (list (string * json)))
    (result err : string) (d : duration) : AuditEvent := {|
  ev_ID := ""; ev_Timestamp := time_zero; ev_Type := ty; User := user; ev_Tool := tool;
  ev_Action := ""; ev_Params := params; ev_Result := result; ev_Error := err; ev_Duration := d;
  ev_IP := ""; ev_SessionID := "" |}.

Definition call_event (user tool : string) (params : option (list (string * json))) : AuditEvent :=
  mkevent AuditToolCall user tool (SanitizeAuditParams params) "" "" 0.
Definition result_event (user tool : string) (d : duration) (err : option error) : AuditEvent :=
  match err with
  | Some e => mkevent AuditToolError user tool None "" (error_text e) d
  | None => mkevent AuditToolSuccess user tool None "success" "" d
  end.
Definition deny_event (user tool reason : string) : AuditEvent :=
  mkevent AuditAccessDeny user tool None "" reason 0.

(** ** The middlewares (middleware.go) *)
Section Middleware.
Context {Ctx Req W : Type}.
Variable now : W → time.
Variable Params_Arguments : Req → option json.
(** The user of a context, [None] for a nil function; how many exporters fail. *)
Variable userFunc : option (Ctx → string).
Variable failing_exporters : W → nat.
Context `{!Cell W AuditLogger}.

Definition log_event (e : AuditEvent) (w : W) : W :=
  poke (Log e (now w) (failing_exporters w) (peek w)) w.

Definition user_of (ctx : Ctx) : string := match userFunc with Some f => f ctx | None => "" end.

Definition arguments_of (req : Req) : option (list (string * json)) :=
  match Params_Arguments req with Some (JObject args) => Some args | _ => None end.

Definition AuditMiddleware : Middleware Ctx Req W :=
  λ name td next ctx request w,
    let user := user_of ctx in
    let w1 := log_event (call_event user name (arguments_of request)) w in
    let start := now w1 in
    match next ctx request w1 with
    | (Panics v, w2) => (Panics v, w2)
    | (Returns result err, w2) =>
        (Returns result err, log_event (result_event user name (time_sub (now w2) start) err) w2)
    end.

(** The access rules are shared: a cell of the world.  [with_logger] is false for
    a nil logger. *)
Context `{!Cell W RBAC}.
Variable walk : list (string * Permission).

Definition RBACMiddleware (with_logger : bool) : Middleware Ctx Req W :=
  λ name td next ctx request w,
    let user := user_of ctx in
    if negb (CanAccessTool walk (peek w) user name) then
      let w1 := if with_logger
                then log_event (deny_event user name "insufficient permissions") w else w in
      (Returns (Some (MakeErrorResult ("[PERMISSION_DENIED] access denied for tool " +:+ name))) None, w1)
    else next ctx request w.
End Middleware.

(** ** Tenants (tenant.go)

    A context carries one tenant; [WithTenant] is the context package. *)
Record TenantContext := { TenantID : string; UserID : string; AgentID : string; SessionID : string }.
Definition TenantMiddleware {Ctx Req W} (WithTenant : Ctx → TenantContext → Ctx)
    (extract : option (Ctx → Req → TenantContext)) : Middleware Ctx Req W :=
  λ name td next ctx req,
    match extract with
    | Some f => next (WithTenant ctx (f ctx req)) req
    | None => next ctx req
    end.

(** ** Lemmas on trimming and parsing *)
Definition tight (s : string) : Prop :=
  s ≠ "" ∧ LoopGuards.trim_left is_space s = s ∧ LoopGuards.trim_right is_space s = s.

Lemma trim_left_length p s : (String.length (LoopGuards.trim_left p s) <= String.length s)%nat.
Proof. induction s as [|a s IH]; cbn; [done|]. case_match; cbn; lia. Qed.

Lemma trim_right_length p s : (String.length (LoopGuards.trim_right p s) <= String.length s)%nat.
Proof.
  induction s as [|a s IH]; cbn; [done|].
  destruct (LoopGuards.trim_right p s); [case_match|]; cbn in *; lia.
Qed.

Lemma tight_intro s : s ≠ "" → LoopGuards.TrimSpace s = s → tight s.
Proof.
  intros Hne H. assert (Hl : LoopGuards.trim_left is_space s = s).
  { destruct s as [|a s]; [done|]. cbn. case_match eqn:E; [|done]. exfalso.
    apply (f_equal String.length) in H. unfold LoopGuards.TrimSpace in H. cbn in H. rewrite E in H.
    pose proof (trim_right_length is_space (LoopGuards.trim_left is_space s)).
    pose proof (trim_left_length is_space s). lia. }
  split; [done|]. split; [done|]. unfold LoopGuards.TrimSpace in H. by rewrite Hl in H.
Qed.

Lemma tight_TrimSpace s : tight s → LoopGuards.TrimSpace s = s.
Proof. intros (_ & Hl & Hr). unfold LoopGuards.TrimSpace. by rewrite Hl. Qed.

Lemma trim_right_app p s t : t ≠ "" → LoopGuards.trim_right p t = t →
  LoopGuards.trim_right p (s +:+ t) = s +:+ t.
Proof.
  intros Hne Ht. induction s as [|a s IH]; [done|]. cbn. rewrite IH.
  destruct s, t; done.
Qed.

Lemma tight_app s m t : tight s → tight t → tight (s +:+ m +:+ t).
Proof.
  intros (Hs & Hl & _) (Ht & _ & Hr). split; [by destruct s|]. split.
  - destruct s as [|a s]; [done|]. cbn in *. case_match eqn:E; [|done]. exfalso.
    apply (f_equal String.length) in Hl. cbn in Hl. pose proof (trim_left_length is_space s). lia.
  - rewrite <- string_app_assoc. by apply trim_right_app.
Qed.

Lemma index_colon_app s t : Sanitize.has_byte (Ascii.ascii_of_nat 58) s = false →
  Sanitize.index_colon (s +:+ ":" +:+ t) = Some (String.length s).
Proof.
  induction s as [|a s IH]; [done|]. cbn. intros [Ha Hs]%orb_false_iff. rewrite Ha.
  cbn in IH. by rewrite IH.
Qed.

Lemma split_colon_app s t : Sanitize.has_byte (Ascii.ascii_of_nat 58) s = false →
  split_colon (s +:+ ":" +:+ t) = Some (s, t).
Proof.
  intros H. unfold split_colon. rewrite index_colon_app by done. f_equal. f_equal.
  - apply Sanitize.string_take_app.
  - rewrite <- string_app_assoc.
    replace (String.length s + 1)%nat with (String.length (s +:+ ":")) by (by rewrite string_length_app).
    apply string_drop_app.
Qed.

(** The entries as an administrator writes them. *)
Definition comma : string := byte_string 44.
Definition user_entry (p : string * Role) : string := p.1 +:+ ":" +:+ p.2.
Definition FormatRBACUsers (ps : list (string * Role)) : string := join comma (user_entry <$> ps).
Definition entry_ok (p : string * Role) : Prop :=
  p.1 ≠ "" ∧ LoopGuards.TrimSpace p.1 = p.1 ∧ Sanitize.has_byte (Ascii.ascii_of_nat 44) p.1 = false ∧
  Sanitize.has_byte (Ascii.ascii_of_nat 58) p.1 = false ∧ is_Some (RolePermissions !! p.2).

Lemma known_roles role : is_Some (RolePermissions !! role) →
  role ∈ [RoleAdmin; RoleOperator; RoleReadonly].
Proof.
  intros [perms H]. apply elem_of_map_to_list in H. revert H. generalize perms.
  assert (Hm : (map_to_list RolePermissions).*1 ≡ₚ [RoleAdmin; RoleOperator; RoleReadonly]).
  { apply (bool_decide_unpack _). by vm_compute. }
  intros perms' H. rewrite <- Hm. apply list_elem_of_fmap. by exists (role, perms').
Qed.

Lemma role_facts role : is_Some (RolePermissions !! role) →
  tight role ∧ to_lower role = role ∧ Sanitize.has_byte (Ascii.ascii_of_nat 44) role = false.
Proof.
  intros H%known_roles. repeat setoid_rewrite elem_of_cons in H.
  destruct H as [->|[->|[->|H]]]; [..|by apply not_elem_of_nil in H];
    (split; [apply tight_intro; [done|by vm_compute]|by vm_compute]).
Qed.

Lemma entry_tight p : entry_ok p → tight (user_entry p).
Proof.
  intros (Hu & Ht & _ & _ & Hr). apply role_facts in Hr as (Hr & _).
  apply tight_app; [by apply tight_intro|done].
Qed.

Lemma parse_user_entry m p : entry_ok p →
  parse_user m (user_entry p) = <[p.1 := default [] (m !! p.1) ++ [p.2]]> m.
Proof.
  intros Hp. pose proof Hp as (Hu & Ht & _ & Hc & Hr). unfold parse_user.
  rewrite tight_TrimSpace by by apply entry_tight. unfold user_entry. rewrite split_colon_app by done.
  pose proof (role_facts _ Hr) as (Hrt & Hlow & _). rewrite Ht, Hlow, tight_TrimSpace by done.
  destruct Hrt as (Hrne & _). rewrite !bool_decide_false by done. cbn [orb].
  case_match eqn:E; [done|]. destruct Hr as [perms Hr]. change (RolePermissions !! p.2 = None) in E. congruence.
Qed.

Lemma split_format ps : ps ≠ [] → Forall entry_ok ps →
  Sanitize.split (Ascii.ascii_of_nat 44) (FormatRBACUsers ps) = user_entry <$> ps.
Proof.
  induction ps as [|p ps IH]; [done|]. intros _ [Hp Hps]%Forall_cons.
  assert (Hc : Sanitize.has_byte (Ascii.ascii_of_nat 44) (user_entry p) = false).
  { destruct Hp as (_ & _ & Hc & _ & Hr). apply role_facts in Hr as (_ & _ & Hr).
    unfold user_entry. rewrite !Sanitize.has_byte_app, Hc, Hr. done. }
  unfold FormatRBACUsers. cbn [fmap list_fmap]. destruct (decide (ps = [])) as [->|Hne].
  - by apply Sanitize.split_aux_none.
  - rewrite Sanitize.join_cons by by destruct ps.
    change (comma +:+ ?s) with (String (Ascii.ascii_of_nat 44) s).
    rewrite Sanitize.split_app by done. f_equal. by apply IH.
Qed.

Lemma format_tight ps : ps ≠ [] → Forall entry_ok ps → tight (FormatRBACUsers ps).
Proof.
  induction ps as [|p ps IH]; [done|]. intros _ [Hp Hps]%Forall_cons. apply entry_tight in Hp.
  unfold FormatRBACUsers. cbn [fmap list_fmap]. destruct (decide (ps = [])) as [->|Hne]; [done|].
  rewrite Sanitize.join_cons by by destruct ps. apply tight_app; [done|]. by apply IH.
Qed.

Definition roles_of (ps : list (string * Role)) (u : string) : list Role :=
  (filter (λ p, p.1 = u) ps).*2.

Lemma roles_of_cons p ps u :
  roles_of (p :: ps) u = (if decide (p.1 = u) then [p.2] else []) ++ roles_of ps u.
Proof. unfold roles_of. rewrite filter_cons. by case_decide. Qed.

Lemma parse_all ps m u : Forall entry_ok ps →
  default [] (foldl parse_user m (user_entry <$> ps) !! u) = default [] (m !! u) ++ roles_of ps u.
Proof.
  revert m. induction ps as [|p ps IH]; intros m; [by rewrite app_nil_r|].
  intros [Hp Hps]%Forall_cons. cbn [fmap list_fmap foldl].
  rewrite parse_user_entry, IH, roles_of_cons by done. case_decide as E; subst.
  - rewrite lookup_insert_eq. rewrite (app_assoc _ [p.2]). done.
  - by rewrite lookup_insert_ne.
Qed.

(** Writing a list of user and role pairs in the documented form and reading it
    back gives every user its roles, in order and with repetitions, and gives roles
    to no one else. *)
Theorem ParseRBACUsers_roundtrip (ps : list (string * Role)) :
  ps ≠ [] → Forall entry_ok ps →
  ∃ m, ParseRBACUsers (FormatRBACUsers ps) = Some m ∧
    ∀ u, default [] (m !! u) = roles_of ps u.
Proof.
  intros Hne Hps. unfold ParseRBACUsers. rewrite tight_TrimSpace by by apply format_tight.
  rewrite bool_decide_false by by apply (format_tight ps). rewrite split_format by done.
  set (m := foldl _ _ _). assert (Hm : ∀ u, default [] (m !! u) = roles_of ps u).
  { intros u. unfold m. rewrite parse_all by done. by rewrite lookup_empty. }
  rewrite bool_decide_false; [by exists m|]. intros E. destruct ps as [|p ps]; [done|].
  specialize (Hm p.1). rewrite E, lookup_empty, roles_of_cons in Hm. by rewrite decide_True in Hm.
Qed.

Definition two_users : list (string * Role) :=
  [("ada", RoleAdmin); ("bob smith", RoleReadonly); ("ada", RoleOperator)].
Lemma ParseRBACUsers_roundtrip_witness : ∃ m, ParseRBACUsers (FormatRBACUsers two_users) = Some m ∧
  ∀ u, default [] (m !! u) = roles_of two_users u.
Proof.
  apply (ParseRBACUsers_roundtrip two_users); [done|].
  repeat apply Forall_cons_2; [..|by apply Forall_nil_2];
    (split; [done|split; [by vm_compute|split; [by vm_compute|split; [by vm_compute|]]]]; by eexists).
Defined.

(** ** The access decision *)
Definition permitted (r : RBAC) (user : string) (perm : Permission) : Prop :=
  ∃ role perms, role ∈ GetUserRoles r user ∧ RolePermissions !! role = Some perms ∧ perm ∈ perms.

Lemma contains_perm (perm : Permission) (perms : list Permission) : existsb (λ p, bool_decide (p = perm)) perms = true ↔ perm ∈ perms.
Proof.
  rewrite existsb_exists. setoid_rewrite bool_decide_eq_true. setoid_rewrite <- list_elem_of_In.
  naive_solver.
Qed.

Lemma HasPermission_spec r user perm : HasPermission r user perm = true ↔ permitted r user perm.
Proof.
  unfold HasPermission. rewrite existsb_exists. setoid_rewrite <- list_elem_of_In.
  unfold permitted. split.
  - intros (role & Hin & H). case_match eqn:E; [|done]. exists role, l. by rewrite contains_perm in H.
  - intros (role & perms & Hin & E & Hp). exists role. rewrite E. by rewrite contains_perm.
Qed.

Lemma GetUserAccess_spec r user perm :
  perm ∈ Permissions (GetUserAccess r user) ↔ permitted r user perm.
Proof.
  unfold GetUserAccess, permitted. cbn [Permissions]. rewrite elem_of_elements.
  assert (H1 : ∀ perms (s : gset string), perm ∈ foldl (λ s p, {[p]} ∪ s) s perms ↔
    perm ∈ s ∨ perm ∈ perms).
  { induction perms as [|p perms IH]; intros s; cbn [foldl]; [set_solver|]. rewrite IH. set_solver. }
  generalize (GetUserRoles r user). intros roles.
  enough (H : ∀ s : gset string, perm ∈ foldl (λ s role, match RolePermissions !! role with
      | Some perms => foldl (λ s p, {[p]} ∪ s) s perms | None => s end) s roles ↔
    perm ∈ s ∨ ∃ role perms, role ∈ roles ∧ RolePermissions !! role = Some perms ∧ perm ∈ perms).
  { rewrite H. set_solver. }
  induction roles as [|role roles IH]; intros s; cbn [foldl]; [set_solver|]. rewrite IH.
  setoid_rewrite elem_of_cons. case_match eqn:E; [rewrite H1|]; naive_solver.
Qed.

(** No suffix of the table ends with another one. *)
Lemma suffix_length p q s : has_suffix p s = true → has_suffix q s = true →
  (String.length p <= String.length q)%nat → has_suffix p q = true.
Proof.
  intros [t ->]%has_suffix_spec [u Hu]%has_suffix_spec Hl. apply has_suffix_spec.
  exists (string_take (String.length q - String.length p) q).
  rewrite <- (string_take_drop (String.length q - String.length p) q) in Hu.
  rewrite <- string_app_assoc in Hu. apply string_app_inj_r in Hu as [_ Hp].
  - rewrite Hp at 2. by rewrite string_take_drop.
  - rewrite string_length_drop. lia.
Qed.

Lemma suffixes_disjoint p q s :
  p ∈ DefaultToolPermissions → q ∈ DefaultToolPermissions →
  has_suffix p.1 s = true → has_suffix q.1 s = true → p = q.
Proof.
  assert (H : Forall (λ p, Forall (λ q, has_suffix p.1 q.1 = true → p = q) DefaultToolPermissions)
    DefaultToolPermissions) by (apply (bool_decide_unpack _); by vm_compute).
  rewrite Forall_forall in H. setoid_rewrite Forall_forall in H. intros Hp Hq Hps Hqs.
  destruct (Nat.le_ge_cases (String.length p.1) (String.length q.1)).
  - by apply (H p Hp q Hq), (suffix_length _ _ s).
  - symmetry. by apply (H q Hq p Hp), (suffix_length _ _ s).
Qed.

(** The permission a tool needs does not depend on the order in which the suffix
    table is walked: it is the override when there is one, else the permission of
    the only suffix the name ends with, else read. *)
Theorem tool_permission_unambiguous walk r toolName :
  walk ≡ₚ DefaultToolPermissions →
  (∀ perm, toolOverrides r !! toolName = Some perm → GetToolPermission walk r toolName = perm) ∧
  (∀ suffix perm, toolOverrides r !! toolName = None → (suffix, perm) ∈ DefaultToolPermissions →
     has_suffix suffix toolName = true → GetToolPermission walk r toolName = perm) ∧
  (toolOverrides r !! toolName = None →
     Forall (λ p : string * Permission, has_suffix p.1 toolName = false) DefaultToolPermissions →
     GetToolPermission walk r toolName = PermRead).
Proof.
  intros Hw. unfold GetToolPermission. split; [by intros perm ->|]. split.
  - intros suffix perm -> Hin Hs. destruct (list_find _ walk) as [[i [s p]]|] eqn:E.
    + apply list_find_Some in E as (Hi & Hsp & _). apply list_elem_of_lookup_2 in Hi. rewrite Hw in Hi.
      by pose proof (suffixes_disjoint _ _ _ Hi Hin Hsp Hs) as [= -> ->].
    + apply list_find_None in E. rewrite Hw, Forall_forall in E. by destruct (E _ Hin).
  - intros -> H. destruct (list_find _ walk) as [[i [s p]]|] eqn:E; [|done].
    apply list_find_Some in E as (Hi & Hsp & _). apply list_elem_of_lookup_2 in Hi.
    rewrite Hw in Hi. rewrite Forall_forall in H. specialize (H _ Hi). cbn [fst] in H, Hsp. congruence.
Qed.

Definition empty_rbac : RBAC := NewRBAC ∅ "".
Lemma tool_permission_unambiguous_witness :
  GetToolPermission (reverse DefaultToolPermissions) empty_rbac "media_db_reset" = PermAdmin.
Proof.
  apply (tool_permission_unambiguous (reverse DefaultToolPermissions) empty_rbac "media_db_reset")
    with (suffix := "_reset").
  - apply reverse_Permutation.
  - by vm_compute.
  - apply (bool_decide_unpack _). by vm_compute.
  - by vm_compute.
Defined.

(** Roles are ordered: the administrator can do what the operator can, and the
    operator what the reader can. *)
Lemma role_hierarchy perm (r : RBAC) u v w :
  GetUserRoles r u = [RoleReadonly] → GetUserRoles r v = [RoleOperator] →
  GetUserRoles r w = [RoleAdmin] →
  (HasPermission r u perm = true → HasPermission r v perm = true) ∧
  (HasPermission r v perm = true → HasPermission r w perm = true).
Proof.
  intros Hu Hv Hw. unfold HasPermission. rewrite Hu, Hv, Hw.
  cbn [existsb]. change (RolePermissions !! RoleReadonly) with (Some [PermRead]).
  change (RolePermissions !! RoleOperator) with (Some [PermRead; PermWrite]).
  change (RolePermissions !! RoleAdmin) with (Some [PermRead; PermWrite; PermAdmin; PermDelete]).
  cbn [existsb]. split; repeat case_bool_decide; done.
Qed.

(** A name no suffix matches asks for read only, whatever the tool does. *)
Lemma unlisted_write_tool_needs_read :
  CanAccessTool DefaultToolPermissions empty_rbac "guest" "inventory_purge_all" = true.
Proof. by vm_compute. Qed.

(** ** The audit log keeps its books *)
(** [lost] are the events the full queue refused. *)
Definition audit_inv (size qsize : Z) (file : string) (s : AuditSystem) : Prop :=
  let l := logger s in
  (maxEvents l = size ∧ queueSize l = qsize ∧ logFile l = file) ∧
  events l = last_n (Z.to_nat size) (logged l) ∧
  Z.of_nat (length (writeQueue l)) <= qsize ∧
  (file = "" → writeQueue l = [] ∧ taken l = [] ∧ dropped l = 0) ∧
  (file ≠ "" → ∃ lost, logged l ≡ₚ taken l ++ writeQueue l ++ to_queue s ++ lost ∧
     dropped l = wrap64 (Z.of_nat (length lost))).

Definition audit_start (size qsize : Z) (file : string) : AuditSystem := {|
  logger := NewAuditLogger size qsize file; to_push := []; to_queue := [] |}.
Definition ring_size (size : Z) : Z := if size <=? 0 then 1000 else size.
Definition queue_room (qsize : Z) : Z := if qsize <=? 0 then 100 else qsize.

Lemma audit_inv_start size qsize file :
  audit_inv (ring_size size) (queue_room qsize) file (audit_start size qsize file).
Proof.
  split; [done|]. split; [symmetry; apply last_n_all; cbn; lia|].
  split; [unfold queue_room; bsolve|]. split; [done|]. intros _. by exists [].
Qed.

(** A full ring forgets its oldest event. *)
Lemma last_n_snoc {A} (n : nat) (l : list A) x : (0 < n)%nat →
  last_n n (l ++ [x]) = (if (n <=? length (last_n n l))%nat then tail (last_n n l) else last_n n l) ++ [x].
Proof.
  intros Hn. rewrite length_last_n. unfold last_n. rewrite length_app. cbn [length].
  case_match eqn:E.
  - apply Nat.leb_le in E. rewrite drop_app_le by lia. f_equal.
    change (tail ?k) with (drop 1 k). rewrite drop_drop. f_equal. lia.
  - apply Nat.leb_gt in E. replace (length l - n)%nat with 0%nat by lia.
    by replace (length l + 1 - n)%nat with 0%nat by lia.
Qed.

Lemma ring_push_events size e l : 0 < size → maxEvents l = size →
  events l = last_n (Z.to_nat size) (logged l) →
  events (ring_push e l) = last_n (Z.to_nat size) (logged (ring_push e l)).
Proof.
  intros Hs Hm He. cbn [events logged ring_push]. rewrite Hm, last_n_snoc, <- He by lia.
  replace (size <=? Z.of_nat (length (events l))) with (Z.to_nat size <=? length (events l))%nat; [done|].
  apply eq_iff_eq_true. rewrite Nat.leb_le, Z.leb_le. lia.
Qed.

Lemma audit_inv_enqueue size qsize file e l p q q' : q ≡ₚ e :: q' →
  audit_inv size qsize file {| logger := l; to_push := p; to_queue := q |} →
  audit_inv size qsize file {| logger := enqueue e l; to_push := p; to_queue := q' |}.
Proof.
  intros Hq ((Hm & Hqs & Hf) & He & Hl & Hoff & Hon). cbn [logger to_queue] in *. unfold enqueue.
  case_bool_decide as E; [do 4 (split; [done|]); congruence|]. subst file.
  destruct (Hon E) as (lost & Hp & Hd). rewrite Hq in Hp.
  case_match eqn:Hroom; to_prop; (split; [done|]); cbn; (split; [done|]).
  - split; [rewrite length_app; cbn; lia|]. split; [done|]. intros _. exists lost.
    split; [|done]. rewrite Hp. solve_Permutation.
  - split; [done|]. split; [done|]. intros _. exists (e :: lost). split; [rewrite Hp; solve_Permutation|].
    rewrite Hd, add64_wrap_l. f_equal. cbn [length]. lia.
Qed.

Lemma audit_inv_step size qsize file s s' : 0 < size →
  audit_inv size qsize file s → audit_step s s' → audit_inv size qsize file s'.
Proof.
  intros Hs Hi Hst. destruct Hst as [l p q now e e' l' E|l p q e p' Hp|l p q e q' Hq|l p q f|l p q l' Hw E|l p q|l p q Hx].
  - unfold stamp in E. case_bool_decide; by inv_tuple.
  - destruct Hi as ((Hm & Hqs & Hf) & He & Hl & Hoff & Hon). split; [done|].
    split; [by apply ring_push_events|]. split; [done|]. split; [done|]. intros Hne.
    destruct (Hon Hne) as (lost & Hpm & Hd). exists lost. split; [|done]. cbn in *. rewrite Hpm.
    solve_Permutation.
  - by eapply audit_inv_enqueue.
  - done.
  - destruct Hi as ((Hm & Hqs & Hf) & He & Hl & Hoff & Hon). unfold writer_step in E. cbn in *.
    destruct (writeQueue l) as [|e rest] eqn:Eq; [done|]. inv_tuple. split; [done|]. cbn in *.
    split; [done|]. split; [lia|]. split; [by intros Hfe; destruct (Hoff Hfe)|]. intros Hne.
    destruct (Hon Hne) as (lost & Hpm & Hd). exists lost. by rewrite <- app_assoc.
  - done.
  - done.
Qed.

(** Whatever the interleaving of callers, the background writer and Close, the
    ring holds exactly the last MaxEvents events in the order they entered it, the
    queue keeps within its size, and with a log file every event is either handed
    to the writer, still queued, still about to be queued, or counted as dropped. *)
Theorem audit_accounts_for_every_event size qsize file s :
  rtc audit_step (audit_start size qsize file) s →
  let l := logger s in
  events l = last_n (Z.to_nat (ring_size size)) (logged l) ∧
  Z.of_nat (length (events l)) <= ring_size size ∧
  Z.of_nat (length (writeQueue l)) <= queue_room qsize ∧
  (file = "" → writeQueue l = [] ∧ taken l = [] ∧ dropped l = 0) ∧
  (file ≠ "" → ∃ lost, logged l ≡ₚ taken l ++ writeQueue l ++ to_queue s ++ lost ∧
     dropped l = wrap64 (Z.of_nat (length lost))).
Proof.
  intros Hr. assert (Hpos : 0 < ring_size size) by (unfold ring_size; bsolve; to_prop; lia).
  assert (Hi : audit_inv (ring_size size) (queue_room qsize) file s).
  { pose proof (audit_inv_start size qsize file) as H0.
    induction Hr as [|x y z Hxy _ IH]; [done|]. apply IH. by eapply audit_inv_step. }
  destruct Hi as (_ & He & Hl & Hoff & Hon). split; [done|]. split; [|done].
  rewrite He, length_last_n. lia.
Qed.

(** A two-slot ring with a one-event queue, three calls and no writer progress. *)
Definition call_of (user : string) : AuditEvent := call_event user "inventory_list" None.
Definition full_log (n : nat) : AuditLogger :=
  foldl (λ l u, Log (call_of u) 0 0 l) (NewAuditLogger 2 1 "audit.log") (take n ["a"; "b"; "c"]).

Lemma Log_steps e now failures l p q :
  rtc audit_step {| logger := l; to_push := p; to_queue := q |}
    {| logger := Log e now failures l; to_push := p; to_queue := q |}.
Proof.
  unfold Log. destruct (stamp now e l) as [e' l'] eqn:E.
  eapply rtc_l; [by eapply as_stamp|]. eapply rtc_l; [by apply as_push|].
  eapply rtc_l; [by apply as_enqueue|]. apply rtc_once. apply as_export.
Qed.

Lemma full_log_reachable n :
  rtc audit_step (audit_start 2 1 "audit.log") {| logger := full_log n; to_push := []; to_queue := [] |}.
Proof.
  unfold full_log, audit_start. generalize (NewAuditLogger 2 1 "audit.log").
  induction (take n ["a"; "b"; "c"]) as [|u us IH]; intros l; [done|].
  cbn [foldl]. etrans; [apply Log_steps|apply IH].
Qed.

Lemma audit_accounts_for_every_event_witness :
  User <$> events (full_log 3) = ["b"; "c"] ∧ dropped (full_log 3) = 2 ∧
  ∃ lost, logged (full_log 3) ≡ₚ taken (full_log 3) ++ writeQueue (full_log 3) ++ [] ++ lost ∧
    dropped (full_log 3) = wrap64 (Z.of_nat (length lost)).
Proof.
  split; [by vm_compute|]. split; [by vm_compute|].
  apply (audit_accounts_for_every_event 2 1 "audit.log" _ (full_log_reachable 3)). done.
Defined.

(** Close can leave queued events unwritten and uncounted: once the writer has seen
    the stop, what it received no longer changes. *)
Lemma exited_writer_takes_nothing s s' :
  rtc audit_step s s' → writer_done (logger s) = true → taken (logger s') = taken (logger s).
Proof.
  intros Hr Hd.
  enough (H : taken (logger s') = taken (logger s) ∧ writer_done (logger s') = true) by apply H.
  induction Hr as [|x y z Hxy _ IH]; [done|].
  assert (Hxy' : taken (logger y) = taken (logger x) ∧ writer_done (logger y) = true).
  { destruct Hxy as [l p q now e e' l' E|l p q e p' Hp|l p q e q' Hq|l p q f|l p q l' Hw E|l p q|l p q Hx];
      cbn in *; try done.
    - unfold stamp in E. case_bool_decide; by inv_tuple.
    - unfold enqueue. by repeat case_match.
    - congruence. }
  destruct Hxy' as [Ht Hdy]. rewrite <- Ht. by apply IH.
Qed.

Lemma close_loses_queued_events :
  ∃ s e, rtc audit_step (audit_start 2 1 "audit.log") s ∧ writeQueue (logger s) = [e] ∧
    dropped (logger s) = 0 ∧ stopped (logger s) = true ∧
    ∀ s', rtc audit_step s s' → taken (logger s') = [].
Proof.
  eexists {| logger := set_stop true true (set_stop true false (full_log 1)); to_push := []; to_queue := [] |}, _.
  split; [|split; [by vm_compute|split; [by vm_compute|split; [done|]]]].
  - etrans; [apply (full_log_reachable 1)|].
    eapply rtc_l; [apply as_close|]. apply rtc_once.
    change (set_stop true (writer_done (full_log 1)) (full_log 1)) with (set_stop true false (full_log 1)).
    apply as_writer_exit. by left.
  - intros s' Hs. apply exited_writer_takes_nothing in Hs; [|done]. rewrite Hs. by vm_compute.
Qed.

Lemma GetRecentEvents_length l limit :
  Z.of_nat (length (GetRecentEvents l limit)) =
  if limit <=? 0 then Z.of_nat (length (events l)) else Z.min limit (Z.of_nat (length (events l))).
Proof. unfold GetRecentEvents. rewrite length_last_n. bsolve; to_prop; lia. Qed.

(** The statistics are those of the ring. *)
Lemma counts_spec {A} (key : A → string) (l : list A) k :
  default 0 (counts key l !! k) = Z.of_nat (length (filter (λ a, key a = k) l)).
Proof.
  unfold counts.
  enough (H : ∀ m, default 0 (foldl (λ m a, bump (key a) m) m l !! k) =
    default 0 (m !! k) + Z.of_nat (length (filter (λ a, key a = k) l))).
  { rewrite H. by rewrite lookup_empty. }
  induction l as [|a l IH]; intros m; [cbn; lia|]. cbn [foldl]. rewrite IH, filter_cons. unfold bump.
  case_decide as E; subst.
  - rewrite lookup_insert_eq. cbn [length]. cbn [default from_option id]. lia.
  - by rewrite lookup_insert_ne.
Qed.

(** Secrets are redacted at the top level of the arguments only. *)
Lemma SanitizeAuditParams_spec params k v :
  (k, v) ∈ params →
  ∃ params', SanitizeAuditParams (Some params) = Some params' ∧
    params'.*1 = params.*1 ∧ (k, if is_sensitive k then JString "[REDACTED]" else v) ∈ params'.
Proof.
  intros H. eexists. split; [done|]. split.
  - rewrite <- list_fmap_compose. by apply list_fmap_ext.
  - apply list_elem_of_fmap. by exists (k, v).
Qed.

Lemma nested_secret_not_redacted :
  SanitizeAuditParams (Some [("config", JObject [("password", JString "hunter2")])]) =
  Some [("config", JObject [("password", JString "hunter2")])].
Proof. by vm_compute. Qed.

(** ** Audited access control *)
Section Access.
Context {Ctx Req W : Type} (now : W → time) (Params_Arguments : Req → option json)
  (userFunc : option (Ctx → string)) (failing_exporters : W → nat)
  `{!Cell W AuditLogger} `{!CellLaws W AuditLogger} `{!Cell W RBAC}
  (walk : list (string * Permission)) (name : string)
  (td : ToolDefinition (ToolHandlerFunc Ctx Req W)) (next : ToolHandlerFunc Ctx Req W).
(** The audit log and the access rules are different objects. *)
Hypothesis log_keeps_rules : ∀ (l : AuditLogger) w, (peek (poke l w) : RBAC) = peek w.

Local Notation audit_of w := (logged (peek w : AuditLogger)).
Local Notation user ctx := (user_of userFunc ctx).
Local Notation audited := (AuditMiddleware now Params_Arguments userFunc failing_exporters name td
  (RBACMiddleware now userFunc failing_exporters walk true name td next)).

(** What an event says, without its identifier and time. *)
Definition said (e : AuditEvent) : AuditEventType * string * string * string :=
  (ev_Type e, User e, ev_Tool e, ev_Error e).

Lemma logged_log_event e w :
  said <$> audit_of (log_event now failing_exporters e w) = (said <$> audit_of w) ++ [said e].
Proof.
  unfold log_event. rewrite peek_poke. unfold Log, stamp. cbn [logged export_all].
  unfold enqueue. case_bool_decide; case_bool_decide; [..|case_match|case_match]; cbn [logged ring_push set_seq set_queue];
    by rewrite fmap_app.
Qed.

Lemma log_event_rules e w : (peek (log_event now failing_exporters e w) : RBAC) = peek w.
Proof. apply log_keeps_rules. Qed.

(** C11.  Behind the audit middleware, the access middleware runs the handler exactly
    when some role of the user carries the tool's permission; a denied call answers
    an error result, leaves no other trace than its three audit events, and is
    nevertheless audited as a success, since a denial is not a Go error. *)
Theorem audited_access_control ctx request w :
  (permitted (peek w) (user ctx) (GetToolPermission walk (peek w) name) →
   let w1 := log_event now failing_exporters (call_event (user ctx) name
     (arguments_of Params_Arguments request)) w in
   match next ctx request w1 with
   | (Returns res err, w2) =>
       ∃ w', audited ctx request w = (Returns res err, w') ∧
         said <$> audit_of w' = (said <$> audit_of w2) ++
           [match err with
            | Some e => (AuditToolError, user ctx, name, error_text e)
            | None => (AuditToolSuccess, user ctx, name, "")
            end]
   | (Panics v, w2) => audited ctx request w = (Panics v, w2)
   end) ∧
  (¬ permitted (peek w) (user ctx) (GetToolPermission walk (peek w) name) →
   ∃ res w', audited ctx request w = (Returns res None, w') ∧ IsResultError res = true ∧
     said <$> audit_of w' = (said <$> audit_of w) ++
       [(AuditToolCall, user ctx, name, "");
        (AuditAccessDeny, user ctx, name, "insufficient permissions");
        (AuditToolSuccess, user ctx, name, "")]).
Proof using log_keeps_rules CellLaws0.
  rewrite <- HasPermission_spec. unfold AuditMiddleware, RBACMiddleware. cbv zeta.
  rewrite log_event_rules. unfold CanAccessTool. split; intros Hp.
  - rewrite Hp. cbn [negb]. destruct (next _ _ _) as [[res err|v] w2]; [|done].
    eexists. split; [done|]. rewrite logged_log_event. by destruct err.
  - apply not_true_is_false in Hp. rewrite Hp. cbn [negb]. eexists _, _. split; [done|].
    split; [done|]. by rewrite !logged_log_event, <- !app_assoc.
Qed.
End Access.

(** A world with the log, the rules and a count of handler runs. *)
Record access_world := { aw_log : AuditLogger; aw_rules : RBAC; aw_runs : nat }.
#[local] Instance aw_log_cell : Cell access_world AuditLogger :=
  {| peek := aw_log; poke l w := {| aw_log := l; aw_rules := aw_rules w; aw_runs := aw_runs w |} |}.
#[local] Instance aw_rules_cell : Cell access_world RBAC :=
  {| peek := aw_rules; poke r w := {| aw_log := aw_log w; aw_rules := r; aw_runs := aw_runs w |} |}.
#[local] Instance aw_log_laws : CellLaws access_world AuditLogger.
Proof. done. Qed.
Definition aw_now (_ : access_world) : time := 0.
Definition aw_failures (_ : access_world) : nat := 0%nat.
Definition aw_guest : option (unit → string) := Some (λ _, "guest").
Definition aw_handler : ToolHandlerFunc unit unit access_world := λ _ _ w,
  (Returns None None, {| aw_log := aw_log w; aw_rules := aw_rules w; aw_runs := S (aw_runs w) |}).
Definition aw_tool : ToolDefinition (ToolHandlerFunc unit unit access_world) :=
  plain_definition aw_handler plain_tool.
Definition aw_world : access_world :=
  {| aw_log := NewAuditLogger 10 10 ""; aw_rules := empty_rbac; aw_runs := 0%nat |}.

Lemma audited_access_control_witness :
  ∃ res w', AuditMiddleware aw_now (λ _ : unit, None) aw_guest aw_failures "inventory_delete" aw_tool
      (RBACMiddleware aw_now aw_guest aw_failures DefaultToolPermissions true "inventory_delete"
        aw_tool aw_handler)
      tt tt aw_world = (Returns res None, w') ∧ IsResultError res = true ∧
    said <$> logged (aw_log w') =
      [(AuditToolCall, "guest", "inventory_delete", "");
       (AuditAccessDeny, "guest", "inventory_delete", "insufficient permissions");
       (AuditToolSuccess, "guest", "inventory_delete", "")].
Proof.
  refine (proj2 (audited_access_control aw_now (λ _ : unit, None) aw_guest aw_failures
    DefaultToolPermissions "inventory_delete" aw_tool aw_handler _ tt tt aw_world) _).
  - done.
  - rewrite <- HasPermission_spec. by vm_compute.
Defined.
