(* ===== verification/Float.v ===== *)
(** Exact binary64 arithmetic on integers and on binary fractions.

    [SpecFloat] defines the operations of [float64] bit by bit; this file shows that
    on non-negative integers up to 2^53, and on such numbers of units of 2^-q, they are those of [Z]: sums,
    differences, products and comparisons of such numbers need no rounding. *)

From stdpp Require Import base tactics numbers.
From Stdlib Require Import ZArith Lia Floats.SpecFloat.
From S2P Require Import Prelude.

Local Open Scope Z_scope.

(** ** Positions and shifts *)
Lemma digits2_pos_log2 p : Z.pos (digits2_pos p) = Z.log2 (Z.pos p) + 1.
Proof.
  induction p as [p IH|p IH|]; [..|done]; cbn [digits2_pos]; rewrite Pos2Z.inj_succ, IH.
  - change (Z.pos p~1) with (2 * Z.pos p + 1). rewrite Z.log2_succ_double; lia.
  - change (Z.pos p~0) with (2 * Z.pos p). rewrite Z.log2_double; lia.
Qed.

Lemma iter_xO p d : Z.pos (Pos.iter xO p d) = Z.pos p * 2 ^ Z.pos d.
Proof.
  induction d as [|d IH] using Pos.peano_ind; [cbn; lia|].
  rewrite Pos.iter_succ, Pos2Z.inj_succ, Z.pow_succ_r by lia.
  change (Z.pos (Pos.iter xO p d)~0) with (2 * Z.pos (Pos.iter xO p d)). rewrite IH. lia.
Qed.

Lemma iter_pos_nat {A} (f : A → A) n x : iter_pos f n x = Nat.iter (Pos.to_nat n) f x.
Proof.
  revert x. induction n as [n IH|n IH|]; intros x; cbn [iter_pos]; [..|done].
  - rewrite !IH, <- Nat.iter_add, <- Nat.iter_succ_r. f_equal. lia.
  - rewrite !IH, <- Nat.iter_add. f_equal. lia.
Qed.

(** Shifting right a number that ends with as many zeros loses nothing. *)
Lemma shr_zeros m n :
  0 < m → Nat.iter n shr_1 (Build_shr_record (m * 2 ^ Z.of_nat n) false false) =
          Build_shr_record m false false.
Proof.
  intros Hm. induction n as [|n IH]; [cbn; by rewrite Z.mul_1_r|].
  rewrite Nat.iter_succ_r. rewrite Nat2Z.inj_succ, Z.pow_succ_r by lia.
  replace (m * (2 * 2 ^ Z.of_nat n)) with (2 * (m * 2 ^ Z.of_nat n)) by lia.
  assert (0 < m * 2 ^ Z.of_nat n) by (apply Z.mul_pos_pos; [done|apply Z.pow_pos_nonneg; lia]).
  destruct (m * 2 ^ Z.of_nat n) as [|p|p]; [lia|exact IH|lia].
Qed.

(** ** The canonical form of [m] units of [2^-q] *)
Definition digits (m : Z) : Z := Z.log2 m + 1.
Definition scaled (q m : Z) : float64 := binary_normalize 53 1024 m (- q) false.
Definition canon (q m : Z) : float64 :=
  S754_finite false (Z.to_pos (m * 2 ^ (53 - digits m))) (digits m - 53 - q).
Lemma scaled_int m : scaled 0 m = float_of_int m.
Proof. done. Qed.

Lemma digits_shift m j : 0 < m → 0 <= j → digits (m * 2 ^ j) = digits m + j.
Proof. intros. unfold digits. rewrite Z.log2_mul_pow2 by lia. lia. Qed.

Lemma digits_small m : 0 < m <= 2 ^ 53 - 1 → 1 <= digits m <= 53.
Proof.
  intros Hm. unfold digits. pose proof (Z.log2_nonneg m).
  assert (Z.log2 m < 53) by (apply Z.log2_lt_pow2; lia). lia.
Qed.

Section Scaled.
(** The fraction: few enough places to stay far from the subnormal numbers. *)
Context (q : Z) (Hq : 0 <= q <= 100).

Lemma round_aux_exact m j : 0 < m < 2 ^ 53 → 0 <= j → 53 <= digits m + j →
  binary_round_aux 53 1024 false (m * 2 ^ j) (- j - q) loc_Exact = canon q m.
Proof using Hq.
  intros Hm Hj Hd. pose proof (digits_small m ltac:(lia)) as Hdm.
  assert (Hpos : ∀ k, 0 <= k → 0 < m * 2 ^ k)
    by (intros; apply Z.mul_pos_pos; [lia|apply Z.pow_pos_nonneg; lia]).
  assert (Hz : ∀ z, 0 < z → Zdigits2 z = digits z)
    by (intros [|p|p] ?; [lia|apply digits2_pos_log2|lia]).
  assert (Hshr : ∀ k, 53 <= digits m + k → 0 <= k →
    shr_fexp 53 1024 (m * 2 ^ k) (- k - q) loc_Exact =
    (Build_shr_record (m * 2 ^ (53 - digits m)) false false, digits m - 53 - q)).
  { intros k Hk Hk0. unfold shr_fexp, fexp, emin. rewrite Hz, digits_shift by (auto || lia).
    replace (Z.max _ _ - (- k - q)) with (digits m + k - 53) by lia. cbn [shr_record_of_loc].
    assert (Ek : m * 2 ^ k = m * 2 ^ (53 - digits m) * 2 ^ (digits m + k - 53)).
    { rewrite <- Z.mul_assoc, <- Z.pow_add_r by lia. do 2 f_equal. lia. }
    unfold shr. destruct (digits m + k - 53) as [|p|p] eqn:E; [|..|lia].
    - rewrite Ek, Z.mul_1_r. f_equal. lia.
    - rewrite iter_pos_nat, Ek. rewrite <- (positive_nat_Z p), shr_zeros by (apply Hpos; lia).
      f_equal. lia. }
  unfold binary_round_aux. rewrite Hshr by done. cbn [shr_m loc_of_shr_record round_nearest_even].
  replace (digits m - 53 - q) with (- (53 - digits m) - q) by lia. rewrite Hshr by lia. cbn [shr_m].
  specialize (Hpos (53 - digits m) ltac:(lia)). unfold canon.
  destruct (m * 2 ^ (53 - digits m)) as [|p|p]; [lia| |lia]. cbn [Z.to_pos].
  destruct (digits m - 53 - q <=? 1024 - 53) eqn:E; [|to_prop; lia]. done.
Qed.

Lemma round_exact m j p : 0 < m < 2 ^ 53 → 0 <= j → Z.pos p = m * 2 ^ j →
  binary_round 53 1024 false p (- j - q) = canon q m.
Proof using Hq.
  intros Hm Hj Hp. pose proof (digits_small m ltac:(lia)) as Hdm.
  unfold binary_round. rewrite digits2_pos_log2, Hp.
  change (Z.log2 (m * 2 ^ j) + 1) with (digits (m * 2 ^ j)). rewrite digits_shift by lia.
  unfold fexp, emin, shl_align. replace (Z.max _ _ - (- j - q)) with (digits m + j - 53) by lia.
  destruct (digits m + j - 53) as [|k|k] eqn:E.
  - rewrite Hp. apply round_aux_exact; lia.
  - rewrite Hp. apply round_aux_exact; lia.
  - rewrite iter_xO, Hp. replace (Z.max _ _) with (- (53 - digits m) - q) by lia.
    rewrite <- Z.mul_assoc, <- Z.pow_add_r by lia. replace (j + Z.pos k) with (53 - digits m) by lia.
    apply round_aux_exact; lia.
Qed.

Lemma scaled_canon m : 0 < m < 2 ^ 53 → scaled q m = canon q m.
Proof using Hq.
  intros Hm. unfold scaled, binary_normalize. destruct m as [|p|p]; [lia| |lia].
  apply (round_exact (Z.pos p) 0); lia.
Qed.
Lemma scaled_zero : scaled q 0 = S754_zero false.
Proof. done. Qed.

(** ** The operations *)
Lemma align_canon m ez : 0 < m < 2 ^ 53 → ez <= digits m - 53 - q →
  Z.pos (fst (shl_align (Z.to_pos (m * 2 ^ (53 - digits m))) (digits m - 53 - q) ez)) = m * 2 ^ (- ez - q).
Proof using Hq.
  intros Hm He. pose proof (digits_small m ltac:(lia)).
  assert (0 < m * 2 ^ (53 - digits m))
    by (apply Z.mul_pos_pos; [lia|apply Z.pow_pos_nonneg; lia]).
  unfold shl_align. destruct (ez - (digits m - 53 - q)) as [|k|k] eqn:E; [| lia |]; cbn [fst].
  - rewrite Z2Pos.id by done. do 2 f_equal. lia.
  - rewrite iter_xO, Z2Pos.id by done. rewrite <- Z.mul_assoc, <- Z.pow_add_r by lia. do 2 f_equal. lia.
Qed.

Lemma normalize_exact z ez : 0 <= z < 2 ^ 53 → ez <= - q →
  binary_normalize 53 1024 (z * 2 ^ (- ez - q)) ez false = scaled q z.
Proof using Hq.
  intros Hz He. destruct (decide (z = 0)) as [->|Hne]; [done|].
  rewrite scaled_canon by lia.
  assert (0 < z * 2 ^ (- ez - q)) by (apply Z.mul_pos_pos; [lia|apply Z.pow_pos_nonneg; lia]).
  unfold binary_normalize. destruct (z * 2 ^ (- ez - q)) as [|p|p] eqn:E; [lia| |lia].
  replace ez with (- (- ez - q) - q) by lia. apply round_exact; [lia|lia|]. by rewrite E.
Qed.

Lemma float_add_scaled a b : 0 <= a → 0 <= b → a + b < 2 ^ 53 →
  float_add (scaled q a) (scaled q b) = scaled q (a + b).
Proof using Hq.
  intros Ha Hb Hs. destruct (decide (a = 0)) as [->|Hna].
  { rewrite Z.add_0_l. destruct (decide (b = 0)) as [->|]; [done|]. by rewrite (scaled_canon b) by lia. }
  destruct (decide (b = 0)) as [->|Hnb].
  { rewrite Z.add_0_r. by rewrite (scaled_canon a) by lia. }
  rewrite (scaled_canon a), (scaled_canon b) by lia. unfold canon, float_add, SFadd.
  pose proof (digits_small a ltac:(lia)). pose proof (digits_small b ltac:(lia)).
  unfold cond_Zopp. rewrite !align_canon by lia. rewrite <- Z.mul_add_distr_r.
  apply normalize_exact; lia.
Qed.

Lemma float_sub_scaled a b : 0 <= b <= a → a < 2 ^ 53 →
  float_sub (scaled q a) (scaled q b) = scaled q (a - b).
Proof using Hq.
  intros Hb Ha. destruct (decide (b = 0)) as [->|Hnb].
  { rewrite Z.sub_0_r. destruct (decide (a = 0)) as [->|]; [done|]. by rewrite (scaled_canon a) by lia. }
  rewrite (scaled_canon a), (scaled_canon b) by lia. unfold canon, float_sub, SFsub.
  pose proof (digits_small a ltac:(lia)). pose proof (digits_small b ltac:(lia)).
  unfold cond_Zopp. rewrite !align_canon by lia. rewrite <- Z.mul_sub_distr_r.
  apply normalize_exact; lia.
Qed.

Lemma digits_mono a b : 0 < a <= b → digits a <= digits b.
Proof. intros. unfold digits. pose proof (Z.log2_le_mono a b). lia. Qed.

Lemma canon_compare a b : 0 < a < 2 ^ 53 → 0 < b < 2 ^ 53 →
  SFcompare (canon q a) (canon q b) = Some (a ?= b).
Proof.
  intros Ha Hb. pose proof (digits_small a ltac:(lia)). pose proof (digits_small b ltac:(lia)).
  unfold canon, SFcompare. f_equal. destruct (Z.compare_spec (digits a - 53 - q) (digits b - 53 - q)) as [E|E|E].
  - change (Pos.compare_cont Eq ?p ?q) with (Z.pos p ?= Z.pos q).
    rewrite !Z2Pos.id by (apply Z.mul_pos_pos; [lia|apply Z.pow_pos_nonneg; lia]).
    replace (digits b) with (digits a) by lia. symmetry. apply Zmult_compare_compat_r.
    apply Z.lt_gt, Z.pow_pos_nonneg; lia.
  - symmetry. apply Z.compare_lt_iff. destruct (Z.lt_ge_cases a b); [done|].
    pose proof (digits_mono b a). lia.
  - symmetry. apply Z.compare_gt_iff. destruct (Z.lt_ge_cases b a); [done|].
    pose proof (digits_mono a b). lia.
Qed.

Lemma float_compare_scaled a b : 0 <= a < 2 ^ 53 → 0 <= b < 2 ^ 53 →
  SFcompare (scaled q a) (scaled q b) = Some (a ?= b).
Proof using Hq.
  intros Ha Hb. destruct (decide (a = 0)) as [->|Hna]; [destruct (decide (b = 0)) as [->|Hnb]|].
  - done.
  - rewrite (scaled_canon b) by lia. rewrite scaled_zero. cbn [canon SFcompare]. by destruct b; [| |lia].
  - destruct (decide (b = 0)) as [->|Hnb].
    + rewrite (scaled_canon a) by lia. rewrite scaled_zero. cbn [canon SFcompare]. by destruct a; [| |lia].
    + rewrite !scaled_canon by lia. apply canon_compare; lia.
Qed.

Lemma float_lt_scaled a b : 0 <= a < 2 ^ 53 → 0 <= b < 2 ^ 53 →
  float_lt (scaled q a) (scaled q b) = (a <? b).
Proof using Hq. intros. unfold float_lt, SFltb. rewrite float_compare_scaled by done. unfold Z.ltb. by case_match. Qed.

Lemma float_le_scaled a b : 0 <= a < 2 ^ 53 → 0 <= b < 2 ^ 53 →
  float_le (scaled q a) (scaled q b) = (a <=? b).
Proof using Hq. intros. unfold float_le, SFleb. rewrite float_compare_scaled by done. unfold Z.leb. by case_match. Qed.
End Scaled.

(** Fractions of different fineness. *)
Lemma float_mul_scaled q p a b : 0 <= q → 0 <= p → q + p <= 100 → 0 <= a < 2 ^ 53 → 0 <= b < 2 ^ 53 → a * b < 2 ^ 53 →
  float_mul (scaled q a) (scaled p b) = scaled (q + p) (a * b).
Proof.
  intros Hq Hp Hqp Ha Hb Hs. destruct (decide (a = 0)) as [->|Hna].
  { destruct (decide (b = 0)) as [->|]; [done|]. by rewrite (scaled_canon p) by lia. }
  destruct (decide (b = 0)) as [->|Hnb].
  { rewrite Z.mul_0_r. by rewrite (scaled_canon q) by lia. }
  assert (0 < a * b) by (apply Z.mul_pos_pos; lia).
  rewrite (scaled_canon q), (scaled_canon p), (scaled_canon (q + p)) by lia. unfold canon at 1 2, float_mul, SFmul. cbn [xorb].
  pose proof (digits_small a ltac:(lia)). pose proof (digits_small b ltac:(lia)).
  assert (∀ m, 0 < m → 1 <= digits m → digits m <= 53 → 0 < m * 2 ^ (53 - digits m))
    by (intros; apply Z.mul_pos_pos; [lia|apply Z.pow_pos_nonneg; lia]).
  rewrite Pos2Z.inj_mul, !Z2Pos.id by auto with lia.
  replace (a * 2 ^ (53 - digits a) * (b * 2 ^ (53 - digits b)))
    with (a * b * 2 ^ (106 - digits a - digits b)).
  2: { replace (106 - digits a - digits b) with ((53 - digits a) + (53 - digits b)) by lia.
       rewrite Z.pow_add_r by lia. ring. }
  replace (digits a - 53 - q + (digits b - 53 - p)) with (- (106 - digits a - digits b) - (q + p)) by lia.
  apply round_aux_exact; [lia|lia|lia|].
  pose proof (Z.log2_mul_below a b ltac:(lia) ltac:(lia)). unfold digits in *. lia.
Qed.
Lemma scaled_finer q p m : 0 <= q → 0 <= p → q + p <= 100 → 0 <= m → m * 2 ^ p < 2 ^ 53 → scaled q m = scaled (q + p) (m * 2 ^ p).
Proof.
  intros Hq Hp Hqp Hm Hs. destruct (decide (m = 0)) as [->|Hn]; [done|].
  assert (0 < 2 ^ p) by (apply Z.pow_pos_nonneg; lia). assert (m <= m * 2 ^ p) by nia.
  rewrite !scaled_canon by lia. unfold canon. rewrite digits_shift by lia. f_equal; [|lia]. f_equal.
  pose proof (digits_small (m * 2 ^ p) ltac:(lia)) as Hd. rewrite digits_shift in Hd by lia.
  rewrite <- Z.mul_assoc, <- Z.pow_add_r by lia. do 2 f_equal. lia.
Qed.

(** ** Integers *)
Lemma float_add_int a b : 0 <= a → 0 <= b → a + b < 2 ^ 53 →
  float_add (float_of_int a) (float_of_int b) = float_of_int (a + b).
Proof. by apply (float_add_scaled 0). Qed.
Lemma float_sub_int a b : 0 <= b <= a → a < 2 ^ 53 →
  float_sub (float_of_int a) (float_of_int b) = float_of_int (a - b).
Proof. by apply (float_sub_scaled 0). Qed.
Lemma float_mul_int a b : 0 <= a < 2 ^ 53 → 0 <= b < 2 ^ 53 → a * b < 2 ^ 53 →
  float_mul (float_of_int a) (float_of_int b) = float_of_int (a * b).
Proof. by apply (float_mul_scaled 0 0). Qed.
Lemma float_lt_int a b : 0 <= a < 2 ^ 53 → 0 <= b < 2 ^ 53 →
  float_lt (float_of_int a) (float_of_int b) = (a <? b).
Proof. by apply (float_lt_scaled 0). Qed.
Lemma float_le_int a b : 0 <= a < 2 ^ 53 → 0 <= b < 2 ^ 53 →
  float_le (float_of_int a) (float_of_int b) = (a <=? b).
Proof. by apply (float_le_scaled 0). Qed.
Lemma float_of_int_canon m : 0 < m < 2 ^ 53 → float_of_int m = canon 0 m.
Proof. by apply (scaled_canon 0). Qed.
Lemma float_compare_int a b : 0 <= a < 2 ^ 53 → 0 <= b < 2 ^ 53 →
  SFcompare (float_of_int a) (float_of_int b) = Some (a ?= b).
Proof. by apply (float_compare_scaled 0). Qed.
