(* ===== verification/RateLimit.v ===== *)
(** The rate limiter (src/resilience/ratelimit.go) and its middleware
    (src/resilience/middleware.go): a token bucket on [float64], one limiter per
    service behind a pointer, [Wait] as a loop of attempts. *)

From stdpp Require Import base tactics list gmap strings.
From Stdlib Require Import ZArith Lia SpecFloat.
From S2P Require Import Prelude Float Tool Truncate.

Local Open Scope Z_scope.

(** ** The token bucket *)
Record RateLimiter := {
  rate : float64;
  burst : Z;
  tokens : float64;
  lastTime : time
}.

Definition NewRateLimiter (r : float64) (b : Z) (now : time) : RateLimiter :=
  {| rate := r; burst := b; tokens := float_of_int b; lastTime := now |}.

(** [Duration.Seconds]. *)
Definition Seconds (d : duration) : float64 :=
  float_add (float_of_int (Z.quot d Second))
            (float_div (float_of_int (Z.rem d Second)) (float_of_int 1000000000)).

Definition refill (now : time) (l : RateLimiter) : RateLimiter :=
  let elapsed := Seconds (time_sub now (lastTime l)) in
  let t := float_add (tokens l) (float_mul elapsed (rate l)) in
  {| rate := rate l; burst := burst l;
     tokens := if float_lt (float_of_int (burst l)) t then float_of_int (burst l) else t;
     lastTime := now |}.

Definition set_tokens (t : float64) (l : RateLimiter) : RateLimiter :=
  {| rate := rate l; burst := burst l; tokens := t; lastTime := lastTime l |}.

(** What [Allow], and each pass of [Wait], does under the mutex. *)
Definition Allow (now : time) (l : RateLimiter) : bool * RateLimiter :=
  let l := refill now l in
  if float_le (float_of_int 1) (tokens l)
  then (true, set_tokens (float_sub (tokens l) (float_of_int 1)) l)
  else (false, l).

(** ** One limiter per service

    [limiters] maps a service to the address of its limiter in [store]; a limiter
    that was replaced stays there for the calls that wait on it. *)
Record RateLimitConfig := { Rate : float64; Burst : Z }.
Record RateLimitRegistry := {
  limiters : gmap string nat;
  store : nat → RateLimiter;
  next_address : nat;
  defaultConfig : RateLimitConfig
}.

Definition store_set (p : nat) (l : RateLimiter) (r : RateLimitRegistry) : RateLimitRegistry :=
  {| limiters := limiters r; store := λ q, if decide (q = p) then l else store r q;
     next_address := next_address r; defaultConfig := defaultConfig r |}.

Definition NewRateLimitRegistry (cfg : option RateLimitConfig) (now : time) : RateLimitRegistry :=
  let c := default {| Rate := float_of_int 10; Burst := 20 |} cfg in
  {| limiters := ∅; store := λ _, NewRateLimiter (Rate c) (Burst c) now; next_address := 0;
     defaultConfig := c |}.

Definition install (service : string) (l : RateLimiter) (r : RateLimitRegistry) :
    nat * RateLimitRegistry :=
  let p := next_address r in
  (p, {| limiters := <[service := p]> (limiters r);
         store := λ q, if decide (q = p) then l else store r q;
         next_address := S p; defaultConfig := defaultConfig r |}).

Definition Registry_Get (service : string) (now : time) (r : RateLimitRegistry) :
    nat * RateLimitRegistry :=
  match limiters r !! service with
  | Some p => (p, r)
  | None => install service (NewRateLimiter (Rate (defaultConfig r)) (Burst (defaultConfig r)) now) r
  end.

Definition Registry_Configure (service : string) (rate_ : float64) (burst_ : Z) (now : time)
    (r : RateLimitRegistry) : RateLimitRegistry :=
  (install service (NewRateLimiter rate_ burst_ now) r).2.

(** ** Waiting and the middleware *)
Section Wait.
Context {Ctx Req W : Type} `{!Cell W RateLimitRegistry}.
Variable now : W → time.
(** The [select] of a pass: the context's error when that case fires, nothing when
    the timer does; other calls run meanwhile. *)
Variable select : Ctx → duration → W → option error * W.

Definition attempt (p : nat) (w : W) : bool * W :=
  let reg : RateLimitRegistry := peek w in
  let '(ok, l) := Allow (now w) (store reg p) in (ok, poke (store_set p l reg) w).

(** [None]: still waiting after [fuel] passes. *)
Fixpoint Wait (fuel : nat) (p : nat) (ctx : Ctx) (w : W) : option (option error * W) :=
  match fuel with
  | O => None
  | S fuel =>
      let '(ok, w1) := attempt p w in
      if ok then Some (None, w1)
      else
        let wait := int_of_float (float_div (float_of_int Second)
                      (rate (store (peek w1 : RateLimitRegistry) p))) in
        match select ctx wait w1 with
        | (Some err, w2) => Some (Some err, w2)
        | (None, w2) => Wait fuel p ctx w2
        end
  end.

Definition RateLimitMiddleware (fuel : nat) (td : ToolDefinition (ToolHandlerFunc Ctx Req W))
    (next : ToolHandlerFunc Ctx Req W) (ctx : Ctx) (request : Req) (w : W) : option (outcome * W) :=
  if bool_decide (CircuitBreakerGroup td = "") then Some (next ctx request w) else
  let '(p, reg) := Registry_Get (CircuitBreakerGroup td) (now w) (peek w) in
  match Wait fuel p ctx (poke reg w) with
  | None => None
  | Some (Some err, w2) =>
      Some (Returns (Some (MakeErrorResult ("rate limited: " +:+ error_text err))) None, w2)
  | Some (None, w2) => Some (next ctx request w2)
  end.
End Wait.

(** ** The bucket on integers: what the limiter is meant to be

    Time in ticks of 1/512 s, the finest fraction of a second that is a whole number of nanoseconds and a binary
    fraction; the level in 512ths of a token, so that a tick adds [r] of them. *)
Definition tick : duration := 1953125.
Record bucket := { level : Z; last_tick : Z }.
Definition bucket_try (r b k : Z) (bk : bucket) : bool * bucket :=
  let level' := Z.min (b * 512) (level bk + (k - last_tick bk) * r) in
  if 512 <=? level' then (true, {| level := level' - 512; last_tick := k |})
  else (false, {| level := level'; last_tick := k |}).

Fixpoint run_limiter (at_ : Z → time) (l : RateLimiter) (ks : list Z) : list bool :=
  match ks with
  | [] => []
  | k :: ks => let '(ok, l') := Allow (at_ k) l in ok :: run_limiter at_ l' ks
  end.
Fixpoint run_bucket (r b : Z) (bk : bucket) (ks : list Z) : list bool :=
  match ks with
  | [] => []
  | k :: ks => let '(ok, bk') := bucket_try r b k bk in ok :: run_bucket r b bk' ks
  end.

Definition granted (l : list bool) : Z := Z.of_nat (length (filter (λ x, x = true) l)).

(** Ticks in order, each gap short enough for exact arithmetic: no longer than a [time.Duration], and what it adds to
    a full bucket below 2^53. *)
Fixpoint clock_ok (r b k0 : Z) (ks : list Z) : Prop :=
  match ks with
  | [] => True
  | k :: ks => k0 <= k ∧ k - k0 <= 512 * 9223372036 ∧ b * 512 + (k - k0) * r < 2 ^ 53 ∧ clock_ok r b k ks
  end.
Definition instant (t0 k : Z) : time := t0 + k * tick.

(** The fractions of a second of a whole number of ticks are exact. *)
Lemma tick_fractions :
  map (λ k, float_div (float_of_int (k * tick)) (float_of_int 1000000000)) (seqZ 0 512) = map (scaled 9) (seqZ 0 512).
Proof. vm_compute. reflexivity. Qed.
Lemma Seconds_ticks d : 0 <= d → d < 2 ^ 53 → Seconds (d * tick) = scaled 9 d.
Proof.
  intros Hd Hb. unfold Seconds. pose proof (Z.div_mod d 512 ltac:(lia)) as E. pose proof (Z.mod_pos_bound d 512 ltac:(lia)) as Hm.
  assert (0 <= d / 512) by (apply Z.div_pos; lia).
  assert (Hs : d * tick = d / 512 * Second + d mod 512 * tick) by (unfold Second, Millisecond, tick; lia).
  assert (Hr : 0 <= d mod 512 * tick < Second) by (unfold Second, Millisecond, tick; lia).
  rewrite Z.quot_div_nonneg, Z.rem_mod_nonneg by (unfold Second, Millisecond, tick in *; lia).
  rewrite Hs, Z.div_add_l, (Z.add_comm (d / 512 * Second)), Z.mod_add by (by unfold Second, Millisecond).
  rewrite (Z.div_small _ _ Hr), (Z.mod_small _ _ Hr), Z.add_0_r.
  assert (float_div (float_of_int (d mod 512 * tick)) (float_of_int 1000000000) = scaled 9 (d mod 512)) as ->.
  { assert (Hin : d mod 512 ∈ seqZ 0 512) by (apply elem_of_seqZ; lia). revert Hin. generalize (d mod 512). intros k Hk.
    apply list_elem_of_lookup in Hk as [n Hn]. pose proof (f_equal (λ l, l !! n) tick_fractions) as E'. cbv beta in E'.
    rewrite !list_lookup_fmap, Hn in E'. by injection E'. }
  rewrite <- scaled_int, (scaled_finer 0 9 (d / 512)), float_add_scaled by lia. f_equal. lia.
Qed.

Definition abstracts (r b t0 : Z) (l : RateLimiter) (bk : bucket) : Prop :=
  rate l = float_of_int r ∧ burst l = b ∧ tokens l = scaled 9 (level bk) ∧
  lastTime l = instant t0 (last_tick bk) ∧ 0 <= level bk <= b * 512.

Lemma Allow_bucket r b t0 k l bk :
  0 <= r < 2 ^ 53 → 0 <= b → last_tick bk <= k → k - last_tick bk <= 512 * 9223372036 →
  b * 512 + (k - last_tick bk) * r < 2 ^ 53 → abstracts r b t0 l bk →
  (Allow (instant t0 k) l).1 = (bucket_try r b k bk).1 ∧
  abstracts r b t0 (Allow (instant t0 k) l).2 (bucket_try r b k bk).2.
Proof.
  intros Hr Hb Hk Hgap Hbound (Hrate & Hburst & Htok & Hlast & Hlev).
  assert (Hpos : 0 <= (k - last_tick bk) * r) by (apply Z.mul_nonneg_nonneg; lia).
  assert (Hfull : float_of_int b = scaled 9 (b * 512)) by (rewrite <- scaled_int; apply (scaled_finer 0 9); lia).
  assert (Hone : float_of_int 1 = scaled 9 512) by by vm_compute.
  assert (Hrefill : refill (instant t0 k) l = {| rate := rate l; burst := burst l;
    tokens := scaled 9 (Z.min (b * 512) (level bk + (k - last_tick bk) * r)); lastTime := instant t0 k |}).
  { unfold refill. rewrite Hlast, Htok, Hrate, Hburst.
    rewrite time_sub_exact by (unfold in64, min_int64, max_int64, instant, tick; lia).
    replace (instant t0 k - _) with ((k - last_tick bk) * tick) by (unfold instant; lia).
    rewrite Seconds_ticks by lia. rewrite <- (scaled_int r), (float_mul_scaled 9 0) by lia.
    rewrite (float_add_scaled 9), Hfull, float_lt_scaled by lia. f_equal.
    case_match; to_prop; f_equal; lia. }
  unfold Allow, bucket_try. rewrite Hrefill. cbn [tokens]. rewrite Hone, float_le_scaled by lia.
  case_match eqn:E; to_prop; (split; [done|]); unfold abstracts;
    cbn [snd set_tokens rate burst tokens lastTime level last_tick].
  - rewrite float_sub_scaled by lia. repeat (split; [done|]). lia.
  - repeat (split; [done|]). lia.
Qed.

Lemma run_bucket_bound r b bk ks :
  0 <= r → 0 <= level bk <= b * 512 → clock_ok r b (last_tick bk) ks →
  512 * granted (run_bucket r b bk ks) <= level bk + (default (last_tick bk) (last ks) - last_tick bk) * r.
Proof.
  intros Hr. revert bk. induction ks as [|k ks IH]; intros bk Hb Hc.
  { unfold granted. cbn. lia. }
  destruct Hc as (Hs & _ & _ & Hc). cbn [run_bucket].
  assert (El : default (last_tick bk) (last (k :: ks)) = default k (last ks)).
  { destruct ks as [|x ks]; [done|]. cbn [last]. by destruct (last (x :: ks)) eqn:E; [|by apply last_None in E]. }
  rewrite El. unfold bucket_try. set (level' := Z.min _ _).
  destruct (512 <=? level') eqn:E; to_prop; unfold granted; rewrite filter_cons; case_decide; try done;
    cbn [length]; [rewrite Nat2Z.inj_succ|].
  - specialize (IH {| level := level' - 512; last_tick := k |}). cbn [level last_tick] in IH. unfold granted in IH.
    specialize (IH ltac:(lia) Hc). nia.
  - specialize (IH {| level := level'; last_tick := k |}). cbn [level last_tick] in IH. unfold granted in IH.
    specialize (IH ltac:(nia) Hc). nia.
Qed.

Lemma run_limiter_bucket r b t0 l bk ks :
  0 <= r < 2 ^ 53 → 0 <= b → clock_ok r b (last_tick bk) ks → abstracts r b t0 l bk →
  run_limiter (instant t0) l ks = run_bucket r b bk ks.
Proof.
  intros Hr Hb. revert l bk. induction ks as [|k ks IH]; intros l bk Hc Ha; [done|].
  destruct Hc as (Hs & Hgap & Hbound & Hc). cbn [run_limiter run_bucket].
  destruct (Allow_bucket r b t0 k l bk Hr Hb Hs Hgap Hbound Ha) as [H1 H2].
  destruct (Allow _ _) as [ok l'], (bucket_try r b k bk) as [ok' bk'] eqn:Ek. cbn in H1, H2. subst.
  f_equal. apply IH; [|done]. unfold bucket_try in Ek. case_match; by inv_tuple.
Qed.



(** A third of a token per second, as a [float64], is less than a third, and three seconds of it are rounded up to a token: over
    nine seconds four calls are granted where 1 + rate * 9 is less than four. *)
Lemma a_third_is_rounded :
  let third := float_div (float_of_int 1) (float_of_int 3) in
  run_limiter (λ s, s * Second) (NewRateLimiter third 1 0) [0; 3; 6; 9] = [true; true; true; true] ∧
  match third with S754_finite false m e => 9 * Z.pos m < (4 - 1) * 2 ^ (- e) | _ => False end.
Proof. vm_compute. done. Qed.

(** ** Waiting ends, and a handler runs on a token *)
Section WaitProperties.
Context {Ctx Req W : Type} `{!Cell W RateLimitRegistry} (now : W → time)
  (select : Ctx → duration → W → option error * W).
(** Every timer pass brings the end of the context nearer. *)
Context (patience : W → nat).
Hypothesis patience_poke : ∀ (r : RateLimitRegistry) w, patience (poke r w) = patience w.
Hypothesis select_patience : ∀ ctx d w w', select ctx d w = (None, w') → (patience w' < patience w)%nat.

Lemma attempt_patience p w ok w1 : attempt now p w = (ok, w1) → patience w1 = patience w.
Proof using patience_poke.
  unfold attempt. destruct (Allow _ _) as [ok' l]. intros [= _ <-]. apply patience_poke.
Qed.

Lemma Wait_outcome fuel p ctx w : (patience w < fuel)%nat →
  ∃ r w', Wait now select fuel p ctx w = Some (r, w') ∧
    match r with
    | None => ∃ v, attempt now p v = (true, w')
    | Some err => ∃ v v' d, attempt now p v = (false, v') ∧ select ctx d v' = (Some err, w')
    end.
Proof using patience_poke select_patience.
  revert w. induction fuel as [|fuel IH]; intros w Hf; [lia|]. cbn [Wait].
  destruct (attempt now p w) as [ok w1] eqn:Ea. pose proof (attempt_patience _ _ _ _ Ea) as Hp.
  destruct ok; [by eexists None, _; split; [done|exists w]|]. cbv zeta.
  destruct (select ctx _ w1) as [[err|] w2] eqn:Es.
  - eexists (Some err), _. split; [done|]. by eexists _, _, _.
  - apply IH. apply select_patience in Es. lia.
Qed.

(** The rate-limit middleware leaves tools without a group alone; otherwise its
    wait ends, and either the handler runs right after an attempt that took a token
    from its service's limiter, or the call answers an error result, without
    running the handler, after an attempt that was refused. *)
Theorem rate_limit_middleware_contract (td : ToolDefinition (ToolHandlerFunc Ctx Req W))
    (next : ToolHandlerFunc Ctx Req W) ctx request w :
  if decide (CircuitBreakerGroup td = "")
  then ∀ fuel, RateLimitMiddleware now select fuel td next ctx request w = Some (next ctx request w)
  else
    let p := (Registry_Get (CircuitBreakerGroup td) (now w) (peek w)).1 in
    ∃ o, RateLimitMiddleware now select (S (patience w)) td next ctx request w = Some o ∧
      ((∃ v w', attempt now p v = (true, w') ∧ o = next ctx request w') ∨
       (∃ err v v' d w', attempt now p v = (false, v') ∧ select ctx d v' = (Some err, w') ∧
          o = (Returns (Some (MakeErrorResult ("rate limited: " +:+ error_text err))) None, w'))).
Proof using patience_poke select_patience.
  unfold RateLimitMiddleware. case_decide as E; [intros fuel; by rewrite bool_decide_true|].
  rewrite bool_decide_false by done. destruct (Registry_Get _ _ _) as [p reg]. cbn [fst].
  destruct (Wait_outcome (S (patience w)) p ctx (poke reg w)) as ([err|] & w' & -> & H).
  { rewrite patience_poke. lia. }
  - eexists. split; [done|]. right. destruct H as (v & v' & d & ? & ?). by exists err, v, v', d, w'.
  - eexists. split; [done|]. left. destruct H as [v ?]. by exists v, w'.
Qed.
End WaitProperties.

(** A world of a registry, the seconds passed and those left to the deadline. *)
Definition rl_world : Type := RateLimitRegistry * nat.
Definition rl_now (w : rl_world) : time := Z.of_nat (10 - w.2) * Second.
Definition rl_select (_ : unit) (_ : duration) (w : rl_world) : option error * rl_world :=
  match w.2 with
  | O => (Some (Err "context deadline exceeded"), w)
  | S n => (None, (w.1, n))
  end.
Definition rl_handler : ToolHandlerFunc unit unit rl_world := λ _ _ w, (Returns None None, w).
Definition rl_tool : ToolDefinition (ToolHandlerFunc unit unit rl_world) := {|
  td_Tool := plain_tool; Handler := rl_handler; Category := ""; Subcategory := ""; Tags := [];
  SearchTerms := []; Complexity := "simple"; IsWrite := false; Deprecated := false; td_Timeout := 0;
  CircuitBreakerGroup := "db"; RuntimeGroup := ""; OutputSchema := None; MaxResultChars := 0;
  DeferLoading := false; AlwaysLoad := false; SkipRequiresUserInteraction := false;
  DestructiveOverride := None; IdempotentOverride := None; ReadOnlyOverride := None |}.
Definition rl_start : rl_world :=
  ((install "db" (NewRateLimiter (float_of_int 0) 0 0)
      (NewRateLimitRegistry None 0)).2, 3%nat).

Lemma rate_limit_middleware_contract_witness :
  ∃ o, RateLimitMiddleware rl_now rl_select 4 rl_tool rl_handler tt tt rl_start = Some o ∧
    o.1 = Returns (Some (MakeErrorResult "rate limited: context deadline exceeded")) None.
Proof.
  pose proof (rate_limit_middleware_contract (Ctx := unit) rl_now rl_select snd (λ _ _, eq_refl)
    ltac:(by intros ? ? [r [|n]] w' [= <-]; cbn; lia) rl_tool rl_handler tt tt rl_start) as H.
  destruct H as (o & Ho & _). exists o. split; [exact Ho|].
  vm_compute in Ho. injection Ho as <-. by vm_compute.
Defined.
