(* ===== verification/Prune.v ===== *)
(** Context pruning of the autonomous loop (src/ralph/prune.go): removal of repeated
    tool calls, truncation of long outputs, summaries of the middle. *)

From stdpp Require Import base tactics list gmap sets strings pretty.
From Stdlib Require Import ZArith Lia Floats.SpecFloat.
From S2P Require Import Prelude.
From S2P Require LoopGuards Sanitize.

Local Open Scope Z_scope.

Record Message := {
  Role : string;
  Content : string;
  ToolName : string;
  ToolArgs : string;
  Summarized : bool
}.

Record PruneStats := {
  OriginalTokens : Z;
  PrunedTokens : Z;
  Reduction : float64;
  MessagesDropped : Z;
  ToolDedups : Z;
  Truncations : Z
}.
Definition no_stats : PruneStats := {|
  OriginalTokens := 0; PrunedTokens := 0; Reduction := float_zero; MessagesDropped := 0;
  ToolDedups := 0; Truncations := 0 |}.

Record ContextPruner := { MaxTokens : Z; TruncateLines : Z; SummaryMaxWords : Z }.
Definition NewContextPruner (maxTokens : Z) : ContextPruner := {|
  MaxTokens := if maxTokens <=? 0 then 100000 else maxTokens;
  TruncateLines := 20; SummaryMaxWords := 30 |}.

(** The binary64 number nearest to 1.3. *)
Definition one_point_three : float64 := S754_finite false 5854679515581645 (-52).
Definition EstimateTokens (text : string) : Z :=
  int_of_float (float_mul (float_of_int (Z.of_nat (length (fields text)))) one_point_three).

Definition totalTokens (msgs : list Message) : Z :=
  foldl (λ total m, total + EstimateTokens (Content m)) 0 msgs.

Definition setReduction (s : PruneStats) : PruneStats :=
  if 0 <? OriginalTokens s then {|
    OriginalTokens := OriginalTokens s; PrunedTokens := PrunedTokens s;
    Reduction := float_sub (float_of_int 1)
      (float_div (float_of_int (PrunedTokens s)) (float_of_int (OriginalTokens s)));
    MessagesDropped := MessagesDropped s; ToolDedups := ToolDedups s; Truncations := Truncations s |}
  else s.

(** ** Repeated tool calls *)
Definition toolKey (m : Message) : string * string := (ToolName m, ToolArgs m).
Definition is_call (m : Message) : bool :=
  bool_decide (Role m = "tool") && negb (bool_decide (ToolName m = "")).

(** From the last message to the first: what is kept, the calls seen, the repeats. *)
Fixpoint dedup (msgs : list Message) : list Message * gset (string * string) * Z :=
  match msgs with
  | [] => ([], ∅, 0)
  | m :: ms =>
      let '(out, seen, n) := dedup ms in
      if negb (is_call m) then (m :: out, seen, n)
      else if decide (toolKey m ∈ seen) then (out, seen, n + 1)
      else (m :: out, {[toolKey m]} ∪ seen, n)
  end.
Definition dedupToolCalls (msgs : list Message) : list Message * Z :=
  if (length msgs <? 2)%nat then (msgs, 0) else let '(out, _, n) := dedup msgs in (out, n).

(** ** Long outputs *)
Definition set_content (c : string) (s : bool) (m : Message) : Message := {|
  Role := Role m; Content := c; ToolName := ToolName m; ToolArgs := ToolArgs m; Summarized := s |}.

Definition split_lines (s : string) : list string := Sanitize.split (Ascii.ascii_of_nat 10) s.

Definition truncate_lines (n : nat) (lines : list string) : string :=
  join newline (take n lines) +:+ newline +:+ newline +:+ "[... " +:+
  itoa (Z.of_nat (length lines) - 2 * Z.of_nat n) +:+ " lines truncated ...]" +:+ newline +:+ newline +:+
  join newline (last_n n lines).

Definition truncate_output (n : nat) (m : Message) : option Message :=
  if negb (bool_decide (Role m = "tool")) then None else
  let lines := split_lines (Content m) in
  if (length lines <=? n * 3)%nat then None
  else Some (set_content (truncate_lines n lines) (Summarized m) m).

Definition truncateLongOutputs (p : ContextPruner) (msgs : list Message) : list Message * Z :=
  let n := Z.to_nat (if TruncateLines p <=? 0 then 20 else TruncateLines p) in
  (map (λ m, default m (truncate_output n m)) msgs,
   Z.of_nat (length (filter (λ m, is_Some (truncate_output n m)) msgs))).

(** ** Summaries *)
Definition decisionMarkers : list string :=
  ["decided"; "chose"; "selected"; "will use"; "implemented"; "created"; "fixed"; "changed"].

Definition first_line (lines : list string) : list string :=
  match list_find (λ l, LoopGuards.TrimSpace l ≠ "") lines with
  | Some (_, l) => [LoopGuards.TrimSpace l]
  | None => []
  end.

Fixpoint gather (keyParts lines : list string) : list string :=
  match lines with
  | [] => keyParts
  | line :: rest =>
      let keyParts :=
        if existsb (λ marker, contains marker (to_lower line)) decisionMarkers
        then keyParts ++ [LoopGuards.TrimSpace line] else keyParts in
      if (3 <=? length keyParts)%nat then keyParts else gather keyParts rest
  end.

Definition summarizeContent (p : ContextPruner) (content : string) : string :=
  let maxWords := Z.to_nat (if SummaryMaxWords p <=? 0 then 30 else SummaryMaxWords p) in
  let lines := split_lines (LoopGuards.TrimSpace content) in
  let keyParts := gather (first_line lines) (tail lines) in
  let summary := join " | " keyParts in
  let words := fields summary in
  "[summary] " +:+
  (if (maxWords <? length words)%nat then join " " (take maxWords words) +:+ "..." else summary).

(** The last [n] messages of a role, as a mask, and how many more were wanted. *)
Fixpoint mask_last (role : string) (n : nat) (msgs : list Message) : list bool * nat :=
  match msgs with
  | [] => ([], n)
  | m :: ms =>
      let '(bs, k) := mask_last role n ms in
      match k with
      | S k' => if bool_decide (Role m = role) then (true :: bs, k') else (false :: bs, k)
      | O => (false :: bs, O)
      end
  end.

Definition protectedIndices (msgs : list Message) : list bool :=
  zip_with orb (map (λ m, bool_decide (Role m = "system")) msgs)
    (zip_with orb (mask_last "user" 3 msgs).1 (mask_last "assistant" 1 msgs).1).

(** The first pass rewrites the unprotected messages one by one while the whole
    context, [done ++ rest], is over the budget. *)
Fixpoint summarize_pass (p : ContextPruner) (prot : list bool) (done rest : list Message) :
    list Message * Z :=
  match prot, rest with
  | b :: prot, m :: ms =>
      if b || Summarized m then summarize_pass p prot (done ++ [m]) ms
      else if totalTokens (done ++ rest) <=? MaxTokens p then (done ++ rest, 0)
      else
        let '(out, n) := summarize_pass p prot
          (done ++ [set_content (summarizeContent p (Content m)) true m]) ms in
        (out, n + 1)
  | _, _ => (done ++ rest, 0)
  end.

(** The second keeps the protected ones, and the others while there is room. *)
Fixpoint keep_pass (p : ContextPruner) (prot : list bool) (kept rest : list Message) :
    list Message * Z :=
  match prot, rest with
  | b :: prot, m :: ms =>
      if b || (totalTokens kept <? MaxTokens p) then keep_pass p prot (kept ++ [m]) ms
      else let '(out, n) := keep_pass p prot kept ms in (out, n + 1)
  | _, _ => (kept, 0)
  end.

Definition summarizeMiddle (p : ContextPruner) (msgs : list Message) : list Message * Z :=
  if (length msgs <=? 4)%nat then (msgs, 0) else
  let prot := protectedIndices msgs in
  let '(msgs1, n1) := summarize_pass p prot [] msgs in
  if MaxTokens p <? totalTokens msgs1 then
    let '(msgs2, n2) := keep_pass p prot [] msgs1 in (msgs2, n1 + n2)
  else (msgs1, n1).

Definition Prune (p : ContextPruner) (messages : list Message) : list Message * PruneStats :=
  match messages with
  | [] => ([], no_stats)
  | _ =>
    let stats pruned dropped dedups truncs := setReduction {|
      OriginalTokens := totalTokens messages; PrunedTokens := pruned; Reduction := float_zero;
      MessagesDropped := dropped; ToolDedups := dedups; Truncations := truncs |} in
    let dropped work := Z.of_nat (length messages) - Z.of_nat (length work) in
    let '(work, dedups) := dedupToolCalls messages in
    if totalTokens work <=? MaxTokens p
    then (work, stats (totalTokens work) (dropped work) dedups 0)
    else
      let '(work, truncs) := truncateLongOutputs p work in
      if totalTokens work <=? MaxTokens p
      then (work, stats (totalTokens work) (dropped work) dedups truncs)
      else
        let '(work, summarized) := summarizeMiddle p work in
        (work, stats (totalTokens work) summarized dedups truncs)
  end.

(** ** What survives *)
Notation with_role r := (filter (λ m, Role m = r)).

Inductive reduced : list bool → list Message → list Message → Prop :=
| red_nil : reduced [] [] []
| red_keep b m bs ms out : reduced bs ms out → reduced (b :: bs) (m :: ms) (m :: out)
| red_change m m' bs ms out :
    Role m' = Role m → reduced bs ms out → reduced (false :: bs) (m :: ms) (m' :: out)
| red_drop m bs ms out : reduced bs ms out → reduced (false :: bs) (m :: ms) out.

Lemma reduced_refl bs ms : length bs = length ms → reduced bs ms ms.
Proof. revert ms. induction bs; intros [|m ms] H; try done; constructor; auto. Qed.

(** ** Repeated calls: only the last one of each stays *)
Definition calls (ms : list Message) : list (string * string) := toolKey <$> filter (λ m, is_call m = true) ms.

Lemma calls_cons m ms : calls (m :: ms) = (if is_call m then [toolKey m] else []) ++ calls ms.
Proof. unfold calls. rewrite filter_cons. case_decide as E; [by rewrite E|by destruct (is_call m)]. Qed.

Lemma dedup_spec msgs :
  let '(out, seen, n) := dedup msgs in
  sublist out msgs ∧ NoDup (calls out) ∧ (∀ k, k ∈ calls out ↔ k ∈ seen) ∧
  (∀ k, k ∈ calls out ↔ k ∈ calls msgs) ∧
  Z.of_nat (length out) + n = Z.of_nat (length msgs) ∧
  filter (λ m, is_call m ≠ true) out = filter (λ m, is_call m ≠ true) msgs.
Proof.
  induction msgs as [|m ms IH]; cbn [dedup].
  { split; [done|]. split; [constructor|]. split; [unfold calls; cbn; set_solver|]. done. }
  destruct (dedup ms) as [[out seen] n]. destruct IH as (Hs & Hn & Hk & Hc & Hl & Hf).
  rewrite (calls_cons m ms).
  destruct (is_call m) eqn:Em; cbn [negb].
  - case_decide as Hin; [|rewrite calls_cons, Em]; cbn [app].
    + split; [by apply sublist_cons|]. split; [done|]. split; [done|].
      split; [intros k; rewrite elem_of_cons; set_solver|]. split; [cbn [length]; lia|].
      rewrite Hf, (filter_cons _ m ms). case_decide; [congruence|done].
    + split; [by apply sublist_skip|]. split; [constructor; [by rewrite Hk|done]|].
      split; [intros k; rewrite elem_of_cons; set_solver|].
      split; [intros k; rewrite !elem_of_cons; naive_solver|]. split; [cbn [length]; lia|].
      rewrite !filter_cons. by repeat case_decide; congruence.
  - rewrite calls_cons, Em. cbn [app]. split; [by apply sublist_skip|]. repeat (split; [done|]).
    split; [cbn [length]; lia|]. rewrite !filter_cons. by repeat case_decide; congruence.
Qed.

(** ** Protected messages *)
Lemma mask_last_length role n ms : length (mask_last role n ms).1 = length ms.
Proof.
  induction ms as [|m ms IH]; cbn [mask_last]; [done|].
  destruct (mask_last role n ms) as [bs [|k]]; [|case_bool_decide]; cbn in *; by rewrite IH.
Qed.

Lemma last_n_cons {A} n (x : A) l : (n <= length l)%nat → last_n n (x :: l) = last_n n l.
Proof. apply (last_n_app_r n [x]). Qed.

(** A reduction that respects a mask of the last [n] of a role keeps these. *)
Lemma reduced_mask_last role n bs ms out :
  reduced bs ms out → Forall2 (λ b' b, b' = true → b = true) (mask_last role n ms).1 bs →
  last_n n (with_role role out) = last_n n (with_role role ms) ∧
  (if ((mask_last role n ms).2 =? 0)%nat
   then (n <= length (with_role role ms))%nat ∧ (n <= length (with_role role out))%nat
   else with_role role out = with_role role ms ∧
        (length (with_role role ms) + (mask_last role n ms).2 = n)%nat).
Proof.
  induction 1 as [|b m bs ms out Hr IH|m m' bs ms out Hm Hr IH|m bs ms out Hr IH]; cbn [mask_last].
  { intros _. split; [done|]. by destruct n. }
  all: destruct (mask_last role n ms) as [bs' k]; cbn [fst snd] in IH.
  all: intros HF; assert (HF' : Forall2 (λ b' b, b' = true → b = true) bs' bs)
    by (destruct k; [|case_bool_decide]; by apply Forall2_cons in HF as [_ ?]).
  all: specialize (IH HF') as [IHl IHk].
  - rewrite !filter_cons. destruct k as [|k]; cbn [fst snd].
    + change (0 =? 0)%nat with true in *. destruct IHk as [H1 H2]. case_decide as E; [|done].
      cbn [length]. split; [|lia]. by rewrite !last_n_cons by lia.
    + destruct IHk as [H1 H2]. change (S k =? 0)%nat with false in *.
      destruct (decide (Role m = role)) as [E|E].
      * rewrite bool_decide_true by done. cbn [snd]. rewrite H1. split; [done|]. cbn [length].
        destruct k; cbn; [lia|split; [done|lia]].
      * rewrite bool_decide_false by done. done.
  - rewrite !filter_cons, Hm. destruct k as [|k]; cbn [fst snd].
    + change (0 =? 0)%nat with true in *. destruct IHk as [H1 H2]. case_decide as E; [|done].
      cbn [length]. split; [|lia]. by rewrite !last_n_cons by lia.
    + destruct IHk as [H1 H2]. change (S k =? 0)%nat with false in *. case_bool_decide as Eb.
      * apply Forall2_cons in HF as [HF _]. by specialize (HF eq_refl).
      * case_decide; done.
  - rewrite (filter_cons _ m). destruct k as [|k]; cbn [fst snd].
    + change (0 =? 0)%nat with true in *. destruct IHk as [H1 H2]. case_decide as E; [|done].
      cbn [length]. split; [|lia]. by rewrite last_n_cons by lia.
    + destruct IHk as [H1 H2]. change (S k =? 0)%nat with false in *. case_bool_decide as Eb.
      * apply Forall2_cons in HF as [HF _]. by specialize (HF eq_refl).
      * case_decide; done.
Qed.

Lemma reduced_mask_role role bs ms out :
  reduced bs ms out → Forall2 (λ m b, Role m = role → b = true) ms bs →
  with_role role out = with_role role ms.
Proof.
  induction 1 as [|b m bs ms out Hr IH|m m' bs ms out Hm Hr IH|m bs ms out Hr IH]; [done|..];
    intros [Hb HF]%Forall2_cons; specialize (IH HF); rewrite ?(filter_cons _ m), ?(filter_cons _ m').
  - by rewrite IH.
  - rewrite Hm. case_decide as E; [by specialize (Hb E)|done].
  - case_decide as E; [by specialize (Hb E)|done].
Qed.

(** What the four conditions of [protectedIndices] guarantee. *)
Definition essentials_kept (msgs out : list Message) : Prop :=
  with_role "system" out = with_role "system" msgs ∧
  last_n 3 (with_role "user" out) = last_n 3 (with_role "user" msgs) ∧
  last_n 1 (with_role "assistant" out) = last_n 1 (with_role "assistant" msgs).

Lemma zip_orb_mask (bs1 bs2 : list bool) : length bs1 = length bs2 →
  Forall2 (λ b' b, b' = true → b = true) bs1 (zip_with orb bs1 bs2) ∧
  Forall2 (λ b' b, b' = true → b = true) bs2 (zip_with orb bs1 bs2).
Proof.
  revert bs2. induction bs1 as [|b1 bs1 IH]; intros [|b2 bs2] H; try done.
  destruct (IH bs2) as [H1 H2]; [by injection H|].
  split; cbn; constructor; try done; intros ->; [done|by rewrite orb_true_r].
Qed.

Lemma mask_trans bs1 bs2 bs3 :
  Forall2 (λ b' b, b' = true → b = true) bs1 bs2 → Forall2 (λ b' b, b' = true → b = true) bs2 bs3 →
  Forall2 (λ b' b, b' = true → b = true) bs1 bs3.
Proof.
  intros H. revert bs3. induction H; intros bs3 H23; inversion H23; subst; constructor; naive_solver.
Qed.

Lemma protected_essentials msgs out :
  reduced (protectedIndices msgs) msgs out → essentials_kept msgs out.
Proof.
  intros Hr. unfold protectedIndices in Hr.
  set (sys := map _ msgs) in *. set (u := (mask_last "user" 3 msgs).1) in *.
  set (a := (mask_last "assistant" 1 msgs).1) in *.
  assert (Hu : length u = length msgs) by apply mask_last_length.
  assert (Ha : length a = length msgs) by apply mask_last_length.
  assert (Hs : length sys = length msgs) by (unfold sys; by rewrite length_map).
  destruct (zip_orb_mask u a) as [H1 H2]; [congruence|].
  destruct (zip_orb_mask sys (zip_with orb u a)) as [H3 H4].
  { rewrite length_zip_with. lia. }
  split; [|split].
  - eapply reduced_mask_role; [exact Hr|]. clear -H3. unfold sys in *. revert H3.
    generalize (zip_with orb (map (λ m : Message, bool_decide (Role m = "system")) msgs) (zip_with orb u a)).
    induction msgs as [|m ms IH]; intros bs HF; inversion HF; subst; constructor; auto.
    intros E. apply H1. by apply bool_decide_eq_true.
  - eapply (reduced_mask_last _ _ _ _ _ Hr). by eapply mask_trans.
  - eapply (reduced_mask_last _ _ _ _ _ Hr). by eapply mask_trans.
Qed.

(** ** The passes respect the mask *)
Definition rewritten (bm : bool * Message) (m' : Message) : Prop :=
  Role m' = Role bm.2 ∧ (bm.1 = true → m' = bm.2).

Lemma rewritten_refl (prot : list bool) ms : length prot = length ms →
  Forall2 rewritten (zip prot ms) ms.
Proof.
  revert ms. induction prot as [|b prot IH]; intros [|m ms] Hl; try done; try discriminate Hl; constructor; [done|].
  apply IH. by apply Nat.succ_inj.
Qed.

Lemma summarize_pass_spec p prot done rest : length prot = length rest →
  ∃ rest', (summarize_pass p prot done rest).1 = done ++ rest' ∧
    Forall2 rewritten (zip prot rest) rest'.
Proof.
  revert done rest. induction prot as [|b prot IH]; intros done [|m ms] Hl; try done; try discriminate Hl.
  { exists []. split; [done|constructor]. }
  cbn [summarize_pass]. apply Nat.succ_inj in Hl. destruct (b || Summarized m) eqn:Eb.
  - destruct (IH (done ++ [m]) ms Hl) as (rest' & -> & HF). exists (m :: rest').
    rewrite <- app_assoc. split; [done|]. by constructor.
  - case_match.
    + exists (m :: ms). split; [done|]. constructor; [done|by apply rewritten_refl].
    + destruct (IH (done ++ [set_content (summarizeContent p (Content m)) true m]) ms Hl)
        as (rest' & Heq & HF).
      destruct (summarize_pass _ _ _ ms) as [out n]. cbn in Heq. subst. eexists (_ :: rest').
      rewrite <- app_assoc. split; [done|]. constructor; [|done]. split; [done|].
      apply orb_false_iff in Eb as [-> _]. done.
Qed.

Lemma keep_pass_spec p prot kept ms rest : length prot = length ms →
  Forall2 rewritten (zip prot ms) rest →
  ∃ out, (keep_pass p prot kept rest).1 = kept ++ out ∧ reduced prot ms out.
Proof.
  revert kept ms rest. induction prot as [|b prot IH]; intros kept [|m ms] rest Hl HF; try done; try discriminate Hl;
    inversion HF as [|? m' ? rest' [Hr Hp] HF']; subst.
  { exists []. rewrite app_nil_r. split; [done|constructor]. }
  apply Nat.succ_inj in Hl. cbn [keep_pass fst snd] in *. case_match eqn:E.
  - destruct (IH (kept ++ [m']) ms rest' Hl HF') as (out & -> & Hred). exists (m' :: out).
    rewrite <- app_assoc. split; [done|]. destruct b; [rewrite Hp by done|]; by constructor.
  - destruct (IH kept ms rest' Hl HF') as (out & Heq & Hred).
    destruct (keep_pass p prot kept rest') as [o n]. cbn in *. exists out. split; [done|].
    apply orb_false_iff in E as [-> _]. by constructor.
Qed.

Lemma rewritten_reduced prot ms rest : length prot = length ms →
  Forall2 rewritten (zip prot ms) rest → reduced prot ms rest.
Proof.
  revert ms rest. induction prot as [|b prot IH]; intros [|m ms] rest Hl HF; try done; try discriminate Hl;
    inversion HF as [|? m' ? rest' [Hr Hp] HF']; subst; [constructor|].
  apply Nat.succ_inj in Hl. cbn in *. destruct b; [rewrite Hp by done|]; constructor; auto.
Qed.

Lemma protectedIndices_length msgs : length (protectedIndices msgs) = length msgs.
Proof. unfold protectedIndices. rewrite !length_zip_with, length_map, !mask_last_length. lia. Qed.

Lemma summarizeMiddle_essentials p msgs : essentials_kept msgs (summarizeMiddle p msgs).1.
Proof.
  unfold summarizeMiddle. case_match; [done|]. pose proof (protectedIndices_length msgs) as Hl.
  destruct (summarize_pass_spec p (protectedIndices msgs) [] msgs Hl) as (rest & Hs & HF).
  destruct (summarize_pass _ _ _ _) as [msgs1 n1]. cbn in Hs. subst.
  destruct (keep_pass_spec p (protectedIndices msgs) [] msgs rest Hl HF) as (out & Hk & Hr).
  case_match; [destruct (keep_pass _ _ _ _) as [msgs2 n2]; cbn in *; subst|];
    apply protected_essentials; [done|]. by apply rewritten_reduced.
Qed.

Lemma essentials_trans a b c : essentials_kept a b → essentials_kept b c → essentials_kept a c.
Proof. intros (H1 & H2 & H3) (K1 & K2 & K3). split; [congruence|split; congruence]. Qed.

Lemma essentials_same_roles a b : (∀ r, r ≠ "tool" → with_role r b = with_role r a) → essentials_kept a b.
Proof. intros H. split; [|split]; by rewrite H. Qed.

Lemma dedupToolCalls_essentials msgs : essentials_kept msgs (dedupToolCalls msgs).1.
Proof.
  apply essentials_same_roles. intros r Hr. unfold dedupToolCalls. case_match; [done|].
  pose proof (dedup_spec msgs) as Hd. destruct (dedup msgs) as [[out seen] n].
  destruct Hd as (_ & _ & _ & _ & _ & Hf). cbn [fst].
  assert (Hk : ∀ l : list Message, with_role r l = with_role r (filter (λ m, is_call m ≠ true) l)).
  { intros l. rewrite list_filter_filter. apply list_filter_iff. intros m. split; [|by intros [? _]].
    intros E. subst r. split; [done|]. unfold is_call. by rewrite bool_decide_false. }
  by rewrite Hk, Hf, <- Hk.
Qed.

Lemma truncate_output_role n m : Role (default m (truncate_output n m)) = Role m.
Proof. unfold truncate_output. destruct (negb _); [done|]. by destruct (length _ <=? _)%nat. Qed.

Lemma truncate_output_other n m : Role m ≠ "tool" → truncate_output n m = None.
Proof. intros H. unfold truncate_output. by rewrite bool_decide_false. Qed.

Lemma truncateLongOutputs_essentials p msgs : essentials_kept msgs (truncateLongOutputs p msgs).1.
Proof.
  apply essentials_same_roles. intros r Hr. unfold truncateLongOutputs. cbn [fst].
  generalize (Z.to_nat (if TruncateLines p <=? 0 then 20 else TruncateLines p)).
  intros n. induction msgs as [|m ms IH]; [done|]. cbn [map]. rewrite !filter_cons, IH.
  rewrite truncate_output_role. case_decide; [|done]. by rewrite truncate_output_other by congruence.
Qed.

(** Pruning never loses what an agent cannot do without: every system message,
    the last three user messages and the last assistant message come out
    unchanged and in order, whatever the budget. *)
Theorem prune_keeps_essentials p messages : essentials_kept messages (Prune p messages).1.
Proof.
  unfold Prune. destruct messages as [|m ms]; [done|]. set (msgs := m :: ms).
  pose proof (dedupToolCalls_essentials msgs) as H1. destruct (dedupToolCalls msgs) as [w1 d].
  case_match; [done|]. pose proof (truncateLongOutputs_essentials p w1) as H2.
  destruct (truncateLongOutputs p w1) as [w2 t]. case_match; [by eapply essentials_trans|].
  pose proof (summarizeMiddle_essentials p w2) as H3. destruct (summarizeMiddle p w2) as [w3 s].
  cbn [fst] in *. eapply essentials_trans; [|done]. by eapply essentials_trans.
Qed.

(** A context within its budget only loses repeated calls, of which the last stays. *)
Theorem prune_fitting p messages :
  totalTokens (dedupToolCalls messages).1 <= MaxTokens p →
  (Prune p messages).1 = (dedupToolCalls messages).1 ∧
  sublist (Prune p messages).1 messages ∧ NoDup (calls (Prune p messages).1) ∧
  (∀ k, k ∈ calls (Prune p messages).1 ↔ k ∈ calls messages).
Proof.
  intros Hfit. assert (E : (Prune p messages).1 = (dedupToolCalls messages).1).
  { unfold Prune. destruct messages as [|m ms]; [done|]. destruct (dedupToolCalls _) as [w d].
    cbn [fst] in Hfit. apply Z.leb_le in Hfit. by rewrite Hfit. }
  rewrite E. split; [done|]. unfold dedupToolCalls. case_match eqn:El.
  - apply Nat.ltb_lt in El. split; [done|]. split; [|done].
    destruct messages as [|m [|? ?]]; [constructor| |cbn in El; lia]. cbn [fst]; rewrite calls_cons.
    destruct (is_call m); [apply NoDup_singleton|constructor].
  - pose proof (dedup_spec messages) as Hd. destruct (dedup messages) as [[out seen] n].
    by destruct Hd as (? & ? & _ & ? & _).
Qed.

(** What is left over the budget after the last pass is protected, or was added
    while there was room. *)
Lemma keep_pass_over p prot kept ms before m after :
  length prot = length ms → (keep_pass p prot kept ms).1 = kept ++ before ++ m :: after →
  totalTokens (kept ++ before) < MaxTokens p ∨
  ∃ i, prot !! i = Some true ∧ ms !! i = Some m.
Proof.
  revert kept ms before. induction prot as [|b prot IH]; intros kept [|m' ms] before Hl; try done; try discriminate Hl.
  { cbn. intros H. symmetry in H. apply (f_equal length) in H. rewrite !length_app in H. cbn in H. lia. }
  apply Nat.succ_inj in Hl. cbn [keep_pass]. case_match eqn:E.
  - intros H. destruct (keep_pass_spec p prot (kept ++ [m']) ms ms Hl) as (out & Ho & _).
    { by apply rewritten_refl. }
    rewrite Ho, <- app_assoc in H. apply app_inv_head in H. destruct before as [|x before].
    + injection H as -> Hout. apply orb_true_iff in E as [->|E].
      * right. by exists 0%nat.
      * left. rewrite app_nil_r. by apply Z.ltb_lt.
    + injection H as <- Hout. destruct (IH (kept ++ [m']) ms before Hl) as [H|(i & ? & ?)].
      * rewrite Ho, Hout, <- !app_assoc. done.
      * left. by rewrite <- app_assoc in H.
      * right. by exists (S i).
  - destruct (keep_pass p prot kept ms) as [o n] eqn:Ek. cbn [fst]. intros H.
    destruct (IH kept ms before Hl) as [?|(i & ? & ?)]; [by rewrite Ek|by left|].
    right. by exists (S i).
Qed.

(** Four messages or fewer are never summarised: the result may exceed the budget. *)
Definition plain_message (role content : string) : Message := {|
  Role := role; Content := content; ToolName := ""; ToolArgs := ""; Summarized := false |}.
Lemma short_context_exceeds_budget :
  let p := NewContextPruner 1 in
  let msgs := [plain_message "assistant" "a b c"; plain_message "assistant" "d e f"] in
  (Prune p msgs).1 = msgs ∧ MaxTokens p < totalTokens (Prune p msgs).1.
Proof. by vm_compute. Qed.

(** After the summaries [MessagesDropped] counts the summarised messages, which are
    still there, and not the repeated calls that were removed. *)
Definition busy_context : list Message :=
  [plain_message "assistant" "one two three four five six seven eight nine ten";
   plain_message "assistant" "b"; plain_message "user" "c"; plain_message "user" "d";
   plain_message "user" "e"; plain_message "assistant" "f"].
Lemma dropped_counts_summaries :
  let '(out, stats) := Prune {| MaxTokens := 8; TruncateLines := 20; SummaryMaxWords := 1 |} busy_context in
  length out = length busy_context ∧ MessagesDropped stats = 1.
Proof. by vm_compute. Qed.
