(* ===== verification/Thread.v ===== *)
(** Agent threads (src/session/event.go, thread.go, checkpoint.go, context.go): the
    append-only event log, its store of shared threads, the pause/resume checkpoints
    and the context builder. *)

From stdpp Require Import base tactics list gmap strings pretty.
From Stdlib Require Import ZArith Lia.
From S2P Require Import Prelude.

Local Open Scope Z_scope.

(** ** Events and threads (event.go, thread.go) *)
Definition EventType := string.
Definition EventToolCall : EventType := "tool_call".
Definition EventToolResult : EventType := "tool_result".
Definition EventError : EventType := "error".
Definition EventHumanRequest : EventType := "human_request".
Definition EventHumanResponse : EventType := "human_response".
Definition EventCheckpoint : EventType := "checkpoint".
Definition EventSystemMessage : EventType := "system_message".

Record Event := {
  ev_ID : string;
  Type_ : EventType;
  Timestamp : time;
  Data : option json;
  Metadata : gmap string string
}.

(** [generateID]: 16 random bytes in hexadecimal, or the error of the source. *)
Definition random := (error + string)%type.

Definition NewEvent (gen : random) (now : time) (typ : EventType) (data : option json) : error + Event :=
  match gen with
  | inl err => inl err
  | inr id => inr {| ev_ID := id; Type_ := typ; Timestamp := now; Data := data; Metadata := ∅ |}
  end.

Record Thread := { ID : string; CreatedAt : time; Events : list Event }.

Definition NewThread (gen : random) (now : time) : error + Thread :=
  match gen with
  | inl err => inl (ErrWrap "session: generate thread ID: " err "")
  | inr id => inr {| ID := id; CreatedAt := now; Events := [] |}
  end.
Definition NewThreadWithID (id : string) (now : time) : Thread :=
  {| ID := id; CreatedAt := now; Events := [] |}.

Definition Append (e : Event) (t : Thread) : Thread :=
  {| ID := ID t; CreatedAt := CreatedAt t; Events := Events t ++ [e] |}.
Definition Replay (t : Thread) : list Event := Events t.
Definition Len (t : Thread) : Z := Z.of_nat (length (Events t)).
Definition Last (t : Thread) : option Event := last (Events t).
Definition EventsByType (typ : EventType) (t : Thread) : list Event :=
  filter (λ e, Type_ e = typ) (Events t).
Definition Fork (newID : string) (now : time) (t : Thread) : Thread :=
  {| ID := newID; CreatedAt := now; Events := Events t |}.

(** ** Serialisation *)
Inductive Format := FormatJSON | FormatGob | FormatOther (n : Z).

Section Serialize.
(** encoding/json and encoding/gob on a thread: bytes or an error. *)
Variables json_marshal gob_encode : Thread → error + string.
Variables json_unmarshal gob_decode : string → error + Thread.

Definition Serialize (format : Format) (t : Thread) : error + string :=
  match format with
  | FormatJSON => json_marshal t
  | FormatGob =>
      match gob_encode t with
      | inl err => inl (ErrWrap "session: gob encode thread: " err "")
      | inr data => inr data
      end
  | FormatOther n => inl (Err ("session: unsupported format: " +:+ itoa n))
  end.

Definition Deserialize (data : string) (format : Format) : error + Thread :=
  if bool_decide (data = "") then inl (Err "session: cannot deserialize empty data") else
  match format with
  | FormatJSON =>
      match json_unmarshal data with
      | inl err => inl (ErrWrap "session: json unmarshal thread: " err "")
      | inr t => inr t
      end
  | FormatGob =>
      match gob_decode data with
      | inl err => inl (ErrWrap "session: gob decode thread: " err "")
      | inr t => inr t
      end
  | FormatOther n => inl (Err ("session: unsupported format: " +:+ itoa n))
  end.
End Serialize.

(** ** The store and the checkpoints (thread.go, checkpoint.go)

    Threads are shared: the store holds addresses of [objects]. *)
Record ThreadStore := { threads : gmap string nat; objects : nat → Thread }.

Definition NewThreadStore (objs : nat → Thread) : ThreadStore := {| threads := ∅; objects := objs |}.
Definition Store_Put (p : nat) (s : ThreadStore) : ThreadStore :=
  {| threads := <[ID (objects s p) := p]> (threads s); objects := objects s |}.
Definition Store_Get (id : string) (s : ThreadStore) : option nat := threads s !! id.
Definition Store_Delete (id : string) (s : ThreadStore) : ThreadStore :=
  {| threads := delete id (threads s); objects := objects s |}.
Definition Store_Len (s : ThreadStore) : Z := Z.of_nat (size (threads s)).
(** The map is walked in no fixed order. *)
Definition Store_All (s : ThreadStore) : list nat := (map_to_list (threads s)).*2.

(** [thread.Append(e)] on the shared object. *)
Definition append_to (p : nat) (e : Event) (s : ThreadStore) : ThreadStore :=
  {| threads := threads s;
     objects := λ q, if decide (q = p) then Append e (objects s q) else objects s q |}.

Definition ThreadStatus := string.
Definition StatusRunning : ThreadStatus := "running".
Definition StatusPaused : ThreadStatus := "paused".
Definition StatusCompleted : ThreadStatus := "completed".
Definition StatusFailed : ThreadStatus := "failed".
Definition checkpointReasonKey : string := "reason".
Definition checkpointStatusKey : string := "status".

Definition not_found (threadID : string) : error :=
  Err ("session: thread " +:+ quote threadID +:+ " not found").

Definition Save (thread : option nat) (s : ThreadStore) : (error + string) * ThreadStore :=
  match thread with
  | None => (inl (Err "session: cannot save nil thread"), s)
  | Some p => (inr (ID (objects s p)), Store_Put p s)
  end.

Definition Resume (threadID : string) (s : ThreadStore) : error + nat :=
  match Store_Get threadID s with
  | Some p => inr p
  | None => inl (not_found threadID)
  end.

(** Pause, Complete and Fail: a checkpoint event with its status and reason. *)
Definition checkpoint_event (e : Event) (status : ThreadStatus) (reason : string) : Event :=
  let m := <[checkpointStatusKey := status]> (Metadata e) in
  {| ev_ID := ev_ID e; Type_ := Type_ e; Timestamp := Timestamp e; Data := Data e;
     Metadata := if bool_decide (reason = "") then m else <[checkpointReasonKey := reason]> m |}.

Definition mark (verb : string) (status : ThreadStatus) (gen : random) (now : time)
    (thread : option nat) (reason : string) (s : ThreadStore) : (error + string) * ThreadStore :=
  match thread with
  | None => (inl (Err ("session: cannot " +:+ verb +:+ " nil thread")), s)
  | Some p =>
      match NewEvent gen now EventCheckpoint (Some (JString status)) with
      | inl err => (inl (ErrWrap "session: create checkpoint event: " err ""), s)
      | inr evt => Save (Some p) (append_to p (checkpoint_event evt status reason) s)
      end
  end.
Definition Pause := mark "pause" StatusPaused.
Definition Complete gen now thread := mark "complete" StatusCompleted gen now thread "".
Definition Fail := mark "fail" StatusFailed.

(** The loop from the end: the last checkpoint and how many events follow it. *)
Fixpoint last_checkpoint (rev_events : list Event) (after : nat) : option (Event * nat) :=
  match rev_events with
  | [] => None
  | e :: rest => if bool_decide (Type_ e = EventCheckpoint) then Some (e, after)
                 else last_checkpoint rest (S after)
  end.

Definition threadStatus (t : Thread) : ThreadStatus :=
  match last_checkpoint (reverse (Replay t)) 0 with
  | None => StatusRunning
  | Some (checkpoint, after) =>
      match Metadata checkpoint !! checkpointStatusKey with
      | None => StatusRunning
      | Some status =>
          if bool_decide (status = StatusCompleted) || bool_decide (status = StatusFailed) then status
          else if bool_decide (status = StatusPaused) && (0 <? after)%nat then StatusRunning
          else status
      end
  end.

Definition Status (threadID : string) (s : ThreadStore) : error + ThreadStatus :=
  match Store_Get threadID s with
  | Some p => inr (threadStatus (objects s p))
  | None => inl (not_found threadID)
  end.

Definition ListPaused (s : ThreadStore) : list nat :=
  filter (λ p, threadStatus (objects s p) = StatusPaused) (Store_All s).

(** ** Status as a state machine

    What the documentation describes: every event moves the thread's status. *)
Definition status_step (st : ThreadStatus) (e : Event) : ThreadStatus :=
  if bool_decide (Type_ e = EventCheckpoint) then default StatusRunning (Metadata e !! checkpointStatusKey)
  else if bool_decide (st = StatusPaused) then StatusRunning else st.

Lemma last_checkpoint_after l n : last_checkpoint l n =
  (λ r : Event * nat, (r.1, (n + r.2)%nat)) <$> last_checkpoint l 0.
Proof.
  revert n. induction l as [|e l IH]; intros n; cbn; [done|]. case_bool_decide.
  - cbn. by rewrite Nat.add_0_r.
  - rewrite IH, (IH 1%nat). destruct (last_checkpoint l 0) as [[c k]|]; [|done]. cbn.
    do 2 f_equal. lia.
Qed.

(** The status read off the last checkpoint is the state of the machine that
    follows the whole log: a checkpoint sets the status, work after a pause makes
    the thread run, and completed or failed threads stay so until the next
    checkpoint. *)
Theorem threadStatus_follows_machine t :
  threadStatus t = foldl status_step StatusRunning (Events t).
Proof.
  unfold threadStatus, Replay. induction (Events t) as [|e l IH] using rev_ind; [done|].
  rewrite foldl_app, reverse_app. cbn [foldl app reverse rev_append last_checkpoint].
  rewrite <- IH. unfold status_step. cbn [last_checkpoint reverse rev_append app].
  change (reverse [e] ++ reverse l) with (e :: reverse l). cbn [last_checkpoint].
  case_bool_decide as E.
  - destruct (Metadata e !! _) as [st|]; [|done]. cbn [default].
    repeat case_bool_decide; subst; done.
  - rewrite last_checkpoint_after. destruct (last_checkpoint (reverse l) 0) as [[c k]|]; [|done].
    cbn [fmap option_fmap option_map fst snd]. destruct (Metadata c !! _) as [st|]; [|done].
    destruct k as [|k]; repeat case_bool_decide; subst; done.
Qed.

(** ** The checkpoint cycle *)
Lemma objects_append_to p q e s :
  objects (append_to p e s) q = if decide (q = p) then Append e (objects s q) else objects s q.
Proof. done. Qed.

Lemma mark_spec verb status gen now p reason s id :
  gen = inr id →
  ∃ e, Type_ e = EventCheckpoint ∧ Metadata e !! checkpointStatusKey = Some status ∧
    mark verb status gen now (Some p) reason s =
    (inr (ID (objects s p)), Store_Put p (append_to p e s)).
Proof.
  intros ->. eexists. split; [|split]; [..|cbn [mark NewEvent Save]; rewrite objects_append_to, decide_True by done; done].
  - done.
  - cbn [checkpoint_event Metadata]. case_bool_decide.
    + by rewrite lookup_insert_eq.
    + rewrite lookup_insert_ne by done. by rewrite lookup_insert_eq.
Qed.

Lemma Status_append id p e s :
  threads s !! id = Some p →
  Status id (append_to p e s) = inr (status_step (threadStatus (objects s p)) e).
Proof.
  intros Hp. unfold Status, Store_Get. cbn [append_to threads]. rewrite Hp, objects_append_to.
  rewrite decide_True by done. f_equal. rewrite !threadStatus_follows_machine. cbn [Append Events].
  by rewrite foldl_app.
Qed.

Definition append_all (p : nat) (es : list Event) (s : ThreadStore) : ThreadStore :=
  foldl (λ s e, append_to p e s) s es.
Definition ordinary (e : Event) : Prop := Type_ e ≠ EventCheckpoint.

Lemma Status_append_all id p es s : threads s !! id = Some p → Forall ordinary es →
  Status id (append_all p es s) =
  inr (if decide (es ≠ [] ∧ threadStatus (objects s p) = StatusPaused)
       then StatusRunning else threadStatus (objects s p)).
Proof.
  intros Hp Hes. revert s Hp. induction Hes as [|e es He Hes IH]; intros s Hp.
  - cbn. rewrite decide_False by naive_solver. unfold Status, Store_Get. by rewrite Hp.
  - cbn [append_all foldl]. change (foldl _ ?x es) with (append_all p es x). rewrite IH by done. f_equal.
    rewrite objects_append_to, (decide_True (P := p = p)) by done.
    replace (threadStatus (Append e (objects s p))) with (status_step (threadStatus (objects s p)) e).
    2: { rewrite !threadStatus_follows_machine. cbn [Append Events]. by rewrite foldl_app. }
    unfold status_step. rewrite (bool_decide_false (Type_ e = _)) by done.
    case_bool_decide; repeat case_decide; naive_solver.
Qed.

(** Pausing, completing or failing a thread stores the thread itself under its
    identifier, adds exactly one event to its log and touches no other thread;
    resuming returns that very thread; a paused thread is listed as paused and runs
    again with the first ordinary event, while a completed or failed one keeps its
    status through any amount of ordinary events. *)
Theorem checkpoint_cycle verb status g now p reason s es :
  status ∈ [StatusPaused; StatusCompleted; StatusFailed] → Forall ordinary es →
  let id := ID (objects s p) in
  let '(r, s') := mark verb status (inr g) now (Some p) reason s in
  r = inr id ∧ Resume id s' = inr p ∧ Status id s' = inr status ∧
  (status = StatusPaused → p ∈ ListPaused s') ∧
  (∃ e, Events (objects s' p) = Events (objects s p) ++ [e]) ∧
  (∀ q, q ≠ p → objects s' q = objects s q) ∧
  Status id (append_all p es s') =
    inr (if decide (es ≠ [] ∧ status = StatusPaused) then StatusRunning else status).
Proof.
  intros Hst Hes id. destruct (mark_spec verb status (inr g) now p reason s g eq_refl) as (e & Ht & Hm & ->).
  set (s' := Store_Put p (append_to p e s)).
  assert (Hid : ID (objects (append_to p e s) p) = id) by (rewrite objects_append_to; by case_decide).
  assert (Hin : threads s' !! id = Some p).
  { unfold s'. cbn [Store_Put threads]. rewrite Hid. apply lookup_insert_eq. }
  assert (Hobj : objects s' p = Append e (objects s p)).
  { unfold s'. cbn [Store_Put objects]. rewrite objects_append_to. by case_decide. }
  assert (Hs : threadStatus (objects s' p) = status).
  { rewrite threadStatus_follows_machine, Hobj. cbn [Append Events]. rewrite foldl_app.
    cbn [foldl]. unfold status_step. rewrite bool_decide_true by done. by rewrite Hm. }
  split; [done|]. unfold Resume, Status, Store_Get. rewrite Hin. split; [done|].
  split; [by rewrite Hs|]. split; [|split; [|split]].
  - intros ->. apply list_elem_of_filter. split; [done|]. unfold Store_All.
    apply list_elem_of_fmap. exists (id, p). split; [done|]. by apply elem_of_map_to_list.
  - exists e. by rewrite Hobj.
  - intros q Hq. unfold s'. cbn [Store_Put objects]. rewrite objects_append_to. by case_decide.
  - pose proof (Status_append_all id p es s' Hin Hes) as H. unfold Status, Store_Get in H.
    by rewrite H, Hs.
Qed.

Definition note (typ : EventType) : Event :=
  {| ev_ID := "e"; Type_ := typ; Timestamp := 0; Data := None; Metadata := ∅ |}.
Definition one_thread : ThreadStore :=
  NewThreadStore (λ _, Append (note EventToolCall) (NewThreadWithID "t1" 0)).

Lemma checkpoint_cycle_witness :
  let '(_, s') := Pause (inr "c1") 5 (Some 0%nat) "lunch" one_thread in
  Status "t1" s' = inr StatusPaused ∧
  Status "t1" (append_all 0%nat [note EventToolResult] s') = inr StatusRunning.
Proof.
  pose proof (checkpoint_cycle "pause" StatusPaused "c1" 5 0%nat "lunch" one_thread
    [note EventToolResult]) as H.
  unfold Pause. destruct (mark _ _ _ _ _ _ _) as [r s'].
  destruct H as (_ & _ & H1 & _ & _ & _ & H2).
  - by left.
  - apply Forall_cons_2; [done|by apply Forall_nil_2].
  - split; [exact H1|]. etrans; [exact H2|]. rewrite decide_True; [reflexivity|]. by split.
Defined.

(** Serialising and reading back gives the same thread, when the encoder does so. *)
Lemma serialize_roundtrip jm ge ju gd (t : Thread) format data :
  (∀ d, jm t = inr d → d ≠ "" ∧ ju d = inr t) → (∀ d, ge t = inr d → d ≠ "" ∧ gd d = inr t) →
  Serialize jm ge format t = inr data → Deserialize ju gd data format = inr t.
Proof.
  intros Hj Hg H. destruct format; cbn in H; [|destruct (ge t) eqn:E; [done|inv_tuple; injection H as ->]|done].
  - destruct (Hj data H) as [Hne Hd]. unfold Deserialize. rewrite bool_decide_false by done. by rewrite Hd.
  - destruct (Hg data eq_refl) as [Hne Hd]. unfold Deserialize. rewrite bool_decide_false by done. by rewrite Hd.
Qed.

(** A fork grows apart from its origin. *)
Lemma fork_independent newID now t e :
  Events (Fork newID now t) = Events t ∧ Events (Append e (Fork newID now t)) = Events t ++ [e].
Proof. done. Qed.

(** ** Building a context (context.go) *)
Inductive ContextFormat :=
| ContextFormatJSON | ContextFormatXML | ContextFormatYAML | ContextFormatCompact
| ContextFormatOther (name : string).

Record ContextBuilder := {
  format : ContextFormat;
  maxTokens : Z;
  filters : list (Event → bool);
  lastN : Z
}.
Definition NewContextBuilder (f : ContextFormat) (m : Z) : ContextBuilder :=
  {| format := f; maxTokens := m; filters := []; lastN := 0 |}.
Definition WithFilter (f : Event → bool) (cb : ContextBuilder) : ContextBuilder :=
  {| format := format cb; maxTokens := maxTokens cb; filters := filters cb ++ [f]; lastN := lastN cb |}.
Definition FilterLastN (n : Z) (cb : ContextBuilder) : ContextBuilder :=
  {| format := format cb; maxTokens := maxTokens cb; filters := filters cb; lastN := n |}.
Definition FilterByType (types : list EventType) (e : Event) : bool := bool_decide (Type_ e ∈ types).
Definition FilterExcludeType (types : list EventType) (e : Event) : bool :=
  negb (bool_decide (Type_ e ∈ types)).
Definition FilterAfter (t : time) (e : Event) : bool := time_after (Timestamp e) t.

Definition passesAll (cb : ContextBuilder) (e : Event) : bool := forallb (λ f, f e) (filters cb).
Definition applyFilters (cb : ContextBuilder) (events : list Event) : list Event :=
  match filters cb with [] => events | _ => filter (λ e, passesAll cb e = true) events end.

Definition TokenCount (s : string) : Z := (bytes s + 3) / 4.

(** [strings.ReplaceAll] of one byte. *)
Fixpoint replace_all_byte (a : Ascii.ascii) (by_ : string) (s : string) : string :=
  match s with
  | EmptyString => EmptyString
  | String c s' => (if bool_decide (c = a) then by_ else String c EmptyString) +:+ replace_all_byte a by_ s'
  end.

Definition xmlEscape (s : string) : string :=
  let s := replace_all_byte (Ascii.ascii_of_nat 38) "&amp;" s in
  let s := replace_all_byte (Ascii.ascii_of_nat 60) "&lt;" s in
  let s := replace_all_byte (Ascii.ascii_of_nat 62) "&gt;" s in
  replace_all_byte (Ascii.ascii_of_nat 34) "&quot;" s.

Definition is_letter (n : nat) : bool := ((97 <=? n) && (n <=? 122))%nat || ((65 <=? n) && (n <=? 90))%nat.
Definition isXMLNameChar (r : Ascii.ascii) (first : bool) : bool :=
  let n := Ascii.nat_of_ascii r in
  let start := is_letter n || (n =? 95)%nat in
  if first then start
  else start || ((48 <=? n) && (n <=? 57))%nat || (n =? 45)%nat || (n =? 46)%nat.

#[local] Arguments isXMLNameChar : simpl never.

(** The loop walks runes: the continuation bytes of a multi-byte rune are passed. *)
Definition continuation (a : Ascii.ascii) : bool :=
  let n := Ascii.nat_of_ascii a in ((128 <=? n) && (n <=? 191))%nat.
Fixpoint safe_chars (first : bool) (s : string) : string :=
  match s with
  | EmptyString => EmptyString
  | String a s' =>
      if continuation a then safe_chars false s'
      else String (if isXMLNameChar a first then a else Ascii.ascii_of_nat 95) (safe_chars false s')
  end.
Definition xmlSafeTag (s : string) : string :=
  let result := safe_chars true s in if bool_decide (result = "") then "_" else result.

(** The characters : # newline and the others that need quotes. *)
Definition yaml_special : list nat :=
  [58; 35; 10; 34; 39; 123; 125; 91; 93; 44; 38; 42; 33; 124; 62; 37; 64; 96]%nat.
Fixpoint needs_quote (s : string) : bool :=
  match s with
  | EmptyString => false
  | String a s' => bool_decide (Ascii.nat_of_ascii a ∈ yaml_special) || needs_quote s'
  end.
Definition yamlEscape (s : string) : string :=
  if bool_decide (s = "") then dquote +:+ dquote
  else if needs_quote s
       then dquote +:+ replace_all_byte (Ascii.ascii_of_nat 34) (backslash +:+ dquote) s +:+ dquote
       else s.

Section Context.
(** [Format] with RFC 3339 and with 15:04:05, [fmt.Sprint], [json.Marshal] on events,
    and the order in which a metadata map is walked. *)
Variables rfc3339 clock : time → string.
Variable Sprint : json → string.
Variable marshal_events : list Event → error + string.
Variable walk : gmap string string → list (string * string).

Definition renderJSON (events : list Event) : error + string :=
  match marshal_events events with
  | inl err => inl (ErrWrap "session: json marshal context: " err "")
  | inr data => inr data
  end.

Definition xml_event (e : Event) : string :=
  let tag := xmlSafeTag (Type_ e) in
  "  <" +:+ tag +:+ " timestamp=" +:+ quote (rfc3339 (Timestamp e)) +:+ ">" +:+ newline +:+
  match Data e with
  | Some d => "    <data>" +:+ xmlEscape (Sprint d) +:+ "</data>" +:+ newline
  | None => ""
  end +:+
  (if bool_decide (Metadata e = ∅) then "" else
   "    <metadata>" +:+ newline +:+
   foldr (λ (kv : string * string) rest,
     "      <" +:+ xmlSafeTag kv.1 +:+ ">" +:+ xmlEscape kv.2 +:+ "</" +:+ xmlSafeTag kv.1 +:+ ">" +:+
     newline +:+ rest) "" (walk (Metadata e)) +:+
   "    </metadata>" +:+ newline) +:+
  "  </" +:+ tag +:+ ">" +:+ newline.
Definition renderXML (events : list Event) : error + string :=
  inr ("<context>" +:+ newline +:+ foldr (λ e rest, xml_event e +:+ rest) "" events +:+ "</context>").

Definition yaml_event (e : Event) : string :=
  "- type: " +:+ Type_ e +:+ newline +:+
  "  timestamp: " +:+ rfc3339 (Timestamp e) +:+ newline +:+
  match Data e with
  | Some d => "  data: " +:+ yamlEscape (Sprint d) +:+ newline
  | None => ""
  end +:+
  (if bool_decide (Metadata e = ∅) then "" else
   "  metadata:" +:+ newline +:+
   foldr (λ (kv : string * string) rest,
     "    " +:+ kv.1 +:+ ": " +:+ yamlEscape kv.2 +:+ newline +:+ rest) "" (walk (Metadata e))).
Definition renderYAML (events : list Event) : error + string :=
  inr (join newline (map yaml_event events)).

Definition compact_event (e : Event) : string :=
  "[" +:+ Type_ e +:+ "@" +:+ clock (Timestamp e) +:+ "]" +:+
  match Data e with Some d => " " +:+ Sprint d | None => "" end +:+
  (if bool_decide (Metadata e = ∅) then "" else
   " {" +:+ join "," (map (λ kv : string * string, kv.1 +:+ "=" +:+ kv.2) (walk (Metadata e))) +:+ "}").
Definition renderCompact (events : list Event) : error + string :=
  inr (join newline (map compact_event events)).

Definition render (cb : ContextBuilder) (events : list Event) : error + string :=
  match format cb with
  | ContextFormatJSON => renderJSON events
  | ContextFormatXML => renderXML events
  | ContextFormatYAML => renderYAML events
  | ContextFormatCompact => renderCompact events
  | ContextFormatOther name => inl (Err ("session: unsupported context format: " +:+ quote name))
  end.

(** Each pass of the loop drops the oldest event. *)
Fixpoint trim_oldest (cb : ContextBuilder) (result : string) (filtered : list Event) : error + string :=
  match filtered with
  | [] => inr result
  | _ :: rest =>
      if maxTokens cb <? TokenCount result then
        match render cb rest with
        | inl err => inl err
        | inr result => trim_oldest cb result rest
        end
      else inr result
  end.

Definition selected (cb : ContextBuilder) (t : Thread) : list Event :=
  let filtered := applyFilters cb (Replay t) in
  if (0 <? lastN cb) && (lastN cb <? Z.of_nat (length filtered))
  then last_n (Z.to_nat (lastN cb)) filtered else filtered.

Definition Build (cb : ContextBuilder) (thread : option Thread) : error + string :=
  match thread with
  | None => inl (Err "session: cannot build context from nil thread")
  | Some t =>
      let filtered := selected cb t in
      match render cb filtered with
      | inl err => inl err
      | inr result => if maxTokens cb <=? 0 then inr result else trim_oldest cb result filtered
      end
  end.

Lemma trim_oldest_spec cb result filtered out :
  render cb filtered = inr result → trim_oldest cb result filtered = inr out →
  ∃ k, (k <= length filtered)%nat ∧ render cb (drop k filtered) = inr out ∧
    (TokenCount out <= maxTokens cb ∨ k = length filtered) ∧
    ∀ j, (j < k)%nat → ∃ r, render cb (drop j filtered) = inr r ∧ maxTokens cb < TokenCount r.
Proof.
  revert result. induction filtered as [|e rest IH]; intros result Hr H; cbn [trim_oldest] in H.
  - inv_tuple. injection H as ->. exists 0%nat. split; [done|]. split; [done|]. split; [by right|lia].
  - destruct (maxTokens cb <? TokenCount result) eqn:E; to_prop.
    + destruct (render cb rest) as [err|result'] eqn:Er; [done|].
      destruct (IH result' eq_refl H) as (k & Hk & Hout & Hfit & Hmin). exists (S k).
      split; [cbn; lia|]. split; [done|]. split; [destruct Hfit; [by left|right; cbn; lia]|].
      intros [|j] Hj; [by exists result|]. apply Hmin. lia.
    + injection H as ->. exists 0%nat. split; [cbn; lia|]. split; [done|]. split; [by left|lia].
Qed.

(** A context is the rendering of the newest selected events: nothing is dropped
    while it fits the token budget, the oldest go first, no more than needed, and
    the result exceeds the budget only when even the empty rendering does. *)
Theorem context_within_budget cb t out :
  Build cb (Some t) = inr out →
  ∃ k, (k <= length (selected cb t))%nat ∧ render cb (drop k (selected cb t)) = inr out ∧
    (maxTokens cb <= 0 → k = 0%nat) ∧
    (0 < maxTokens cb → TokenCount out <= maxTokens cb ∨ k = length (selected cb t)) ∧
    ∀ j, (j < k)%nat → ∃ r, render cb (drop j (selected cb t)) = inr r ∧ maxTokens cb < TokenCount r.
Proof.
  unfold Build. destruct (render cb (selected cb t)) as [err|result] eqn:Er; [done|]. case_match eqn:E; to_prop.
  - intros [= <-]. exists 0%nat. split; [lia|]. split; [done|]. split; [done|]. split; lia.
  - intros H. destruct (trim_oldest_spec cb result _ out Er H) as (k & Hk & Hout & Hfit & Hmin).
    exists k. split; [done|]. split; [done|]. split; [lia|done].
Qed.
End Context.

(** Neither data nor metadata can introduce markup. *)
Fixpoint has_char (b : nat) (s : string) : bool :=
  match s with
  | EmptyString => false
  | String a s' => (Ascii.nat_of_ascii a =? b)%nat || has_char b s'
  end.

Lemma has_char_app b s t : has_char b (s +:+ t) = has_char b s || has_char b t.
Proof. induction s as [|a s IH]; cbn; [done|]. by rewrite IH, orb_assoc. Qed.

Lemma replace_all_byte_removes n by_ s : (n < 256)%nat → has_char n by_ = false →
  has_char n (replace_all_byte (Ascii.ascii_of_nat n) by_ s) = false.
Proof.
  intros Hn Hb. induction s as [|a s IH]; cbn [replace_all_byte]; [done|].
  rewrite has_char_app, IH, orb_false_r. case_bool_decide as E; [done|]. cbn. rewrite orb_false_r.
  apply Nat.eqb_neq. intros <-. by rewrite Ascii.ascii_nat_embedding in E.
Qed.

Lemma replace_all_byte_keeps n a by_ s : has_char n by_ = false → has_char n s = false →
  has_char n (replace_all_byte a by_ s) = false.
Proof.
  intros Hb. induction s as [|c s IH]; cbn [replace_all_byte has_char]; [done|].
  intros [Hc Hs]%orb_false_iff. rewrite has_char_app, IH, orb_false_r by done.
  case_bool_decide; [done|]. cbn. by rewrite Hc.
Qed.

Fixpoint all_name_chars (s : string) : bool :=
  match s with EmptyString => true | String a s' => isXMLNameChar a false && all_name_chars s' end.
Definition valid_name (s : string) : bool :=
  match s with EmptyString => false | String a s' => isXMLNameChar a true && all_name_chars s' end.

Lemma safe_chars_all s : all_name_chars (safe_chars false s) = true.
Proof.
  induction s as [|a s IH]; cbn; [done|]. case_match; [done|]. cbn. rewrite IH, andb_true_r.
  by destruct (isXMLNameChar a false) eqn:E.
Qed.

Definition valid_utf8_start (s : string) : bool :=
  match s with String a _ => negb (continuation a) | EmptyString => true end.

(** Escaped text holds no angle bracket and no double quote, and every tag is a
    valid XML name, so events cannot break out of the elements they are put in. *)
Theorem xml_context_is_confined s tag :
  valid_utf8_start tag = true →
  has_char 60 (xmlEscape s) = false ∧ has_char 62 (xmlEscape s) = false ∧
  has_char 34 (xmlEscape s) = false ∧ valid_name (xmlSafeTag tag) = true.
Proof.
  intros Ht. unfold xmlEscape.
  split; [|split; [|split]].
  - do 2 (apply replace_all_byte_keeps; [done|]). apply replace_all_byte_removes; [lia|done].
  - apply replace_all_byte_keeps; [done|]. apply replace_all_byte_removes; [lia|done].
  - apply replace_all_byte_removes; [lia|done].
  - unfold xmlSafeTag. destruct tag as [|a tag]; [done|]. cbn [safe_chars valid_utf8_start] in *.
    apply negb_true_iff in Ht. rewrite Ht. rewrite bool_decide_false by done. cbn [valid_name].
    rewrite safe_chars_all, andb_true_r. by destruct (isXMLNameChar a true) eqn:E.
Qed.

Lemma xml_context_is_confined_witness :
  xmlSafeTag "1 tool" = "__tool" ∧ has_char 60 (xmlEscape "</data><x/>") = false.
Proof.
  split; [reflexivity|]. apply (xml_context_is_confined "</data><x/>" "1 tool"). reflexivity.
Defined.

(** A backslash is kept as it is inside the double quotes of YAML. *)
Lemma yaml_backslash_kept : yamlEscape (backslash +:+ ":") = dquote +:+ backslash +:+ ":" +:+ dquote.
Proof. by vm_compute. Qed.

Definition compact_builder : ContextBuilder := NewContextBuilder ContextFormatCompact 5.
Definition two_notes : Thread :=
  {| ID := "t"; CreatedAt := 0; Events := [note EventToolCall; note EventToolResult] |}.
Lemma context_within_budget_witness :
  ∃ k, render (λ _, "") (λ _, "") (λ _, "") (λ _, inr "") map_to_list compact_builder
      (drop k (selected compact_builder two_notes)) = inr "[tool_result@]" ∧
    TokenCount "[tool_result@]" <= 5.
Proof.
  destruct (context_within_budget (λ _, "") (λ _, "") (λ _, "") (λ _, inr "") map_to_list
    compact_builder two_notes "[tool_result@]") as (k & _ & Hr & _).
  - reflexivity.
  - exists k. split; [exact Hr|]. vm_compute. discriminate.
Defined.
