(* ===== verification/Budget.v ===== *)
(** Budgets over time and policies (src/finops/window.go, enforcement.go, models.go):
    windows of token accounting, dollar policies with alerts and their middleware,
    the price table.  Dollar amounts are binary64 without fused operations. *)

From stdpp Require Import base tactics list gmap strings pretty.
From Stdlib Require Import ZArith Lia Floats.SpecFloat.
From S2P Require Import Prelude Float Tool Truncate Finops.

Local Open Scope Z_scope.

(** A decimal constant: [n / d] rounded to nearest. *)
Definition float_dec (n d : Z) : float64 := float_div (float_of_int n) (float_of_int d).

(** ** Windows (window.go) *)
Inductive ResetInterval := ResetHourly | ResetDaily | ResetWeekly | ResetMonthly | ResetOther (n : Z).

Definition windowDuration (i : ResetInterval) : duration :=
  match i with
  | ResetHourly => Hour
  | ResetDaily => 24 * Hour
  | ResetWeekly => 7 * 24 * Hour
  | ResetMonthly => 30 * 24 * Hour
  | ResetOther _ => Hour
  end.

Record WindowSummary := {
  Start : time; End_ : time; TotalInput : Z; TotalOutput : Z; TotalCost : float64 }.

Record WindowedTracker := {
  interval : ResetInterval;
  current : Tracker;
  windowStart : time;
  history : list WindowSummary;
  maxHistory : Z
}.

Definition NewWindowedTracker (i : ResetInterval) (maxHistory_ : Z) (now : time) : WindowedTracker :=
  {| interval := i; current := NewTracker; windowStart := now; history := []; maxHistory := maxHistory_ |}.

(** [cp] is the configuration's cost policy, shared and [None] for nil. *)
Definition window_summary (cp : option CostPolicy) (now : time) (wt : WindowedTracker) : WindowSummary :=
  let s := Summary (current wt) in {|
  Start := windowStart wt; End_ := now; TotalInput := TotalInputTokens s;
  TotalOutput := TotalOutputTokens s;
  TotalCost := match cp with Some p => totalCost p | None => float_zero end |}.

Definition rotate (cp : option CostPolicy) (now : time) (wt : WindowedTracker) : WindowedTracker :=
  let h := history wt ++ [window_summary cp now wt] in {|
  interval := interval wt; current := NewTracker; windowStart := now;
  history := if (0 <? maxHistory wt) && (maxHistory wt <? Z.of_nat (length h))
             then last_n (Z.to_nat (maxHistory wt)) h else h;
  maxHistory := maxHistory wt |}.

(** [Tracker()]; recording goes to the tracker it returns. *)
Definition advance (cp : option CostPolicy) (now : time) (wt : WindowedTracker) : WindowedTracker :=
  if windowDuration (interval wt) <=? time_sub now (windowStart wt) then rotate cp now wt else wt.

Definition set_current (t : Tracker) (wt : WindowedTracker) : WindowedTracker := {|
  interval := interval wt; current := t; windowStart := windowStart wt; history := history wt;
  maxHistory := maxHistory wt |}.
Definition record_window (cp : option CostPolicy) (now : time) (e : UsageEntry) (wt : WindowedTracker) :
    WindowedTracker :=
  let wt := advance cp now wt in set_current (Record_ (current wt) e) wt.

Definition CurrentWindow := window_summary.

(** ** Policies and alerts (enforcement.go) *)
Inductive BudgetAction := ActionWarn | ActionBlock | ActionDowngrade | ActionOther (name : string).
#[export] Instance BudgetAction_eq_dec : EqDecision BudgetAction.
Proof. solve_decision. Defined.

Record BudgetAlert := {
  PolicyName : string; Threshold : float64; CurrentCost : float64; BudgetLimit : float64 }.

Record BudgetPolicy := {
  Name : string; Limit : float64; Window : duration; Thresholds : list float64; Action : BudgetAction }.

(** Any dollar counter: what an enforcer needs of the tracker it is given. *)
Class CostTracker (W : Type) := { track_cost : float64 → W → W; tracked_cost : W → float64 }.

(** [alerts] is what was sent to the alert function so far. *)
Record BudgetEnforcer := {
  policies : list BudgetPolicy;
  alertFunc : bool;
  firedThresholds : gmap string (list float64);
  internalCost : float64;
  internalBudget : float64;
  useInternalTrack : bool;
  alerts : list BudgetAlert
}.

Definition NewBudgetEnforcer (with_tracker with_alerts : bool) : BudgetEnforcer := {|
  policies := []; alertFunc := with_alerts; firedThresholds := ∅; internalCost := float_zero;
  internalBudget := float_zero; useInternalTrack := negb with_tracker; alerts := [] |}.

Definition AddPolicy (p : BudgetPolicy) (e : BudgetEnforcer) : BudgetEnforcer := {|
  policies := policies e ++ [p]; alertFunc := alertFunc e;
  firedThresholds := <[Name p := []]> (firedThresholds e); internalCost := internalCost e;
  internalBudget := if useInternalTrack e && float_lt (internalBudget e) (Limit p)
                    then Limit p else internalBudget e;
  useInternalTrack := useInternalTrack e; alerts := alerts e |}.

(** The keys of a Go map on floats: NaN is never found, the zeros are one key. *)
Definition float_in (x : float64) (l : list float64) : bool := existsb (λ y, SFeqb x y) l.

Definition fire (p : BudgetPolicy) (cost threshold : float64) (e : BudgetEnforcer) : BudgetEnforcer :=
  let fired := default [] (firedThresholds e !! Name p) in
  if float_in threshold fired then e else {|
    policies := policies e; alertFunc := alertFunc e;
    firedThresholds := <[Name p := threshold :: fired]> (firedThresholds e);
    internalCost := internalCost e; internalBudget := internalBudget e;
    useInternalTrack := useInternalTrack e;
    alerts := alerts e ++ [{| PolicyName := Name p; Threshold := threshold; CurrentCost := cost;
                              BudgetLimit := Limit p |}] |}.

(** [sort.Float64s]: ascending, NaN first. *)
Definition float_is_nan (x : float64) : bool := negb (SFeqb x x).
Definition float_before (x y : float64) : bool := float_lt x y || (float_is_nan x && negb (float_is_nan y)).
Fixpoint insert_float (x : float64) (l : list float64) : list float64 :=
  match l with
  | [] => [x]
  | y :: l' => if float_before y x then y :: insert_float x l' else x :: l
  end.
Definition sort_floats (l : list float64) : list float64 := foldr insert_float [] l.

Definition positive (x : float64) : bool := negb (float_le x float_zero).

Definition fireAlerts (p : BudgetPolicy) (cost : float64) (e : BudgetEnforcer) : BudgetEnforcer :=
  if negb (alertFunc e) || float_le (Limit p) float_zero || bool_decide (Thresholds p = []) then e else
  let ratio := float_div cost (Limit p) in
  foldl (λ e threshold, if float_le threshold ratio then fire p cost threshold e else e) e
    (sort_floats (Thresholds p)).

Definition one : float64 := float_of_int 1.

(** The loop of [Check]: the action and the error of the first blocking policy. *)
Fixpoint check_policies (ps : list BudgetPolicy) (cost : float64) (result : BudgetAction)
    (e : BudgetEnforcer) : (BudgetAction * option string) * BudgetEnforcer :=
  match ps with
  | [] => ((result, None), e)
  | p :: ps =>
      if float_le (Limit p) float_zero then check_policies ps cost result e
      else
        let e := fireAlerts p cost e in
        if float_le one (float_div cost (Limit p)) then
          match Action p with
          | ActionBlock => ((ActionBlock, Some (DollarBudgetExceededError (Limit p) cost)), e)
          | ActionDowngrade => check_policies ps cost ActionDowngrade e
          | _ => check_policies ps cost result e
          end
        else check_policies ps cost result e
  end.

Definition add_internal (amount : float64) (e : BudgetEnforcer) : BudgetEnforcer := {|
  policies := policies e; alertFunc := alertFunc e; firedThresholds := firedThresholds e;
  internalCost := float_add (internalCost e) amount; internalBudget := internalBudget e;
  useInternalTrack := useInternalTrack e; alerts := alerts e |}.

Section Enforcer.
Context {Ctx Req W : Type} `{!Cell W BudgetEnforcer} `{!CostTracker W}.
Variable marshal : json → option string.
Variable Params_Arguments : Req → option json.

Definition CurrentSpend (w : W) : float64 :=
  let e : BudgetEnforcer := peek w in if useInternalTrack e then internalCost e else tracked_cost w.

Definition Check (w : W) : (BudgetAction * option string) * W :=
  let '(r, e) := check_policies (policies (peek w)) (CurrentSpend w) ActionWarn (peek w) in (r, poke e w).

Definition RecordCost (amount : float64) (w : W) : W :=
  let e : BudgetEnforcer := peek w in
  let w1 := if useInternalTrack e then poke (add_internal amount e) w else track_cost amount w in
  let cost := CurrentSpend w1 in
  poke (foldl (λ e p, fireAlerts p cost e) (peek w1) (policies (peek w1))) w1.

Definition RemainingBudget (w : W) : float64 :=
  match policies (peek w) with
  | [] => float_zero
  | p :: ps =>
      let minLimit := foldl (λ m q, if float_lt float_zero (Limit q) && float_lt (Limit q) m
                                    then Limit q else m) (Limit p) ps in
      let remaining := float_sub minLimit (CurrentSpend w) in
      if float_lt remaining float_zero then float_zero else remaining
  end.

(** ~$0.003 per 1K tokens. *)
Definition default_cost (totalTokens : Z) : float64 :=
  float_mul (float_div (float_of_int totalTokens) (float_of_int 1000)) (float_dec 3 1000).

Definition EnforcementMiddleware : Middleware Ctx Req W :=
  λ name td next ctx request w,
    match Check w with
    | ((_, Some err), w1) => (Returns (Some (MakeErrorResult err)) None, w1)
    | ((ActionBlock, None), w1) =>
        (Returns (Some (MakeErrorResult "finops: budget exceeded, operation blocked")) None, w1)
    | ((_, None), w1) =>
        match next ctx request w1 with
        | (Panics v, w2) => (Panics v, w2)
        | (Returns result callErr, w2) =>
            let inputTokens := EstimateFromRequest marshal Params_Arguments request DefaultEstimate in
            let outputTokens := EstimateFromResult result DefaultEstimate in
            (Returns result callErr, RecordCost (default_cost (add64 inputTokens outputTokens)) w2)
        end
    end.
End Enforcer.

(** ** Prices (models.go) *)
Record Pricing := { InputPerMToken : float64; OutputPerMToken : float64; CacheReadPerMToken : float64 }.
Definition price (i o c : Z) : Pricing :=
  {| InputPerMToken := float_dec i 1000; OutputPerMToken := float_dec o 1000;
     CacheReadPerMToken := float_dec c 1000 |}.

(** In thousandths of a dollar per million tokens. *)
Definition DefaultPricing : list (string * Pricing) := [
  ("claude-fable-5-1", price 10000 50000 1000); ("claude-mythos-5-1", price 10000 50000 1000);
  ("claude-fable-5", price 10000 50000 1000); ("claude-mythos-5", price 10000 50000 1000);
  ("claude-opus-5", price 5000 25000 500); ("claude-opus-4-8", price 5000 25000 500);
  ("claude-opus-4-7", price 5000 25000 500); ("claude-opus-4-6", price 5000 25000 500);
  ("claude-sonnet-5", price 3000 15000 300); ("claude-sonnet-4-6", price 3000 15000 300);
  ("claude-haiku-4-5", price 1000 5000 100); ("claude-opus-4-5", price 15000 75000 1500);
  ("claude-sonnet-4-5", price 3000 15000 300);
  ("gpt-5.5", price 5000 30000 2500); ("o1", price 15000 60000 7500); ("o1-mini", price 3000 12000 1500);
  ("o3", price 10000 40000 5000); ("o3-mini", price 1100 4400 550); ("o4-mini", price 1100 4400 550);
  ("codex-mini-latest", price 1500 6000 750);
  ("gemini-3.1-pro", price 2000 12000 500); ("gemini-3.8-flash", price 750 3750 75);
  ("gemini-3.8-flash-high", price 750 3750 75); ("gemini-3.8-flash-medium", price 750 3750 75);
  ("gemini-3.8-flash-low", price 750 3750 75)].

Definition modelAliases : list (string * string) := [
  ("claude-opus-4-6-20260401", "claude-opus-4-6"); ("claude-sonnet-4-6-20260401", "claude-sonnet-4-6");
  ("claude-opus-4-5-20250514", "claude-opus-4-5"); ("claude-sonnet-4-5-20250514", "claude-sonnet-4-5");
  ("opus", "claude-opus-5"); ("sonnet", "claude-sonnet-5"); ("haiku", "claude-haiku-4-5");
  ("fable", "claude-fable-5-1"); ("o1-preview", "o1"); ("gemini-pro", "gemini-3.1-pro");
  ("gemini-flash", "gemini-3.8-flash"); ("flash", "gemini-3.8-flash")].

Definition trim_suffix (s p : string) : string :=
  if has_suffix p s then string_take (String.length s - String.length p) s else s.

Definition lookup_in {A} (k : string) (m : list (string * A)) : option A :=
  (λ x : nat * (string * A), x.2.2) <$> list_find (λ p : string * A, p.1 = k) m.

(** [walk] is the order in which the price map is walked. *)
Definition NormalizeModelName (walk : list (string * Pricing)) (raw : string) : string :=
  if bool_decide (raw = "") then "" else
  let lower := trim_suffix (to_lower raw) "[1m]" in
  match lookup_in lower modelAliases with
  | Some canonical => canonical
  | None =>
      match lookup_in lower DefaultPricing with
      | Some _ => lower
      | None =>
          match list_find (λ p : string * Pricing, has_prefix p.1 lower = true) walk with
          | Some (_, (key, _)) => key
          | None => raw
          end
      end
  end.

Definition million : float64 := float_of_int 1000000.
Definition per_million (tokens : Z) (p : float64) : float64 :=
  float_mul (float_div (float_of_int tokens) million) p.
Definition ModelCost (walk : list (string * Pricing)) (model : string) (i o : Z) : float64 :=
  match lookup_in (NormalizeModelName walk model) DefaultPricing with
  | None => float_zero
  | Some p => float_add (per_million i (InputPerMToken p)) (per_million o (OutputPerMToken p))
  end.
Definition ModelCostWithCache (walk : list (string * Pricing)) (model : string) (i o c : Z) : float64 :=
  match lookup_in (NormalizeModelName walk model) DefaultPricing with
  | None => float_zero
  | Some p => float_add (float_add (per_million i (InputPerMToken p)) (per_million o (OutputPerMToken p)))
                (per_million c (CacheReadPerMToken p))
  end.

(** ** Windows partition what was recorded *)
Fixpoint contiguous (t : time) (l : list WindowSummary) (t' : time) : Prop :=
  match l with
  | [] => t = t'
  | w :: l => Start w = t ∧ contiguous (End_ w) l t'
  end.

Lemma contiguous_snoc t l t' w : contiguous t l t' → Start w = t' → contiguous t (l ++ [w]) (End_ w).
Proof. revert t. induction l as [|x l IH]; intros t; cbn; [naive_solver|]. intros [-> H] Hw. by split; [|apply IH]. Qed.

Definition keep (max : Z) (l : list WindowSummary) : list WindowSummary :=
  if 0 <? max then last_n (Z.to_nat max) l else l.

Lemma last_n_again {A} n (l : list A) x : last_n n (last_n n l ++ [x]) = last_n n (l ++ [x]).
Proof.
  destruct (decide (length l <= n)%nat) as [Hl|Hl]; [by rewrite (last_n_all n l)|].
  rewrite <- (take_drop (length l - n) l) at 2. rewrite <- app_assoc.
  rewrite (last_n_app_r n (take _ l)); [done|]. rewrite length_app, length_drop. cbn. lia.
Qed.

Lemma rotate_history cp now wt full : history wt = keep (maxHistory wt) full →
  history (rotate cp now wt) = keep (maxHistory wt) (full ++ [window_summary cp now wt]).
Proof.
  intros H. cbn [rotate history]. rewrite H. unfold keep. destruct (0 <? maxHistory wt) eqn:E; cbn [andb]; [|done].
  to_prop. case_match eqn:E2; to_prop; [apply last_n_again|].
  rewrite <- last_n_again. symmetry. apply last_n_all. lia.
Qed.

Definition window_of (w : WindowSummary) (es : list UsageEntry) : Prop :=
  TotalInput w = wrap64 (sum_of InputTokens es) ∧ TotalOutput w = wrap64 (sum_of OutputTokens es).

Definition window_inv (i : ResetInterval) (max : Z) (t0 : time) (es : list UsageEntry)
    (wt : WindowedTracker) : Prop :=
  interval wt = i ∧ maxHistory wt = max ∧
  ∃ full parts, history wt = keep max full ∧ Forall2 window_of full parts ∧
    concat parts ++ entries (current wt) = es ∧ contiguous t0 full (windowStart wt) ∧
    Forall (λ w, windowDuration i <= time_sub (End_ w) (Start w)) full.

Lemma window_summary_of cp now wt : window_of (window_summary cp now wt) (entries (current wt)).
Proof.
  unfold window_of, window_summary. cbn [TotalInput TotalOutput]. unfold Summary.
  pose proof (Summary_spec (entries (current wt))) as H. naive_solver.
Qed.

Lemma record_window_inv i max t0 es wt cp now e :
  window_inv i max t0 es wt → window_inv i max t0 (es ++ [e]) (record_window cp now e wt).
Proof.
  intros (Hi & Hm & full & parts & Hh & Hp & Hc & Ht & Hd). unfold record_window, advance.
  case_match eqn:E; to_prop.
  - split; [done|]. split; [done|]. exists (full ++ [window_summary cp now wt]), (parts ++ [entries (current wt)]).
    cbn [set_current history current entries Record_ rotate NewTracker windowStart].
    split; [|split; [|split; [|split]]].
    + change (history (rotate cp now wt) = keep max (full ++ [window_summary cp now wt])).
      rewrite <- Hm in *. by apply rotate_history.
    + apply Forall2_app; [done|]. constructor; [apply window_summary_of|constructor].
    + rewrite concat_app. cbn [concat app]. rewrite app_nil_r. by rewrite <- Hc.
    + by apply (contiguous_snoc t0 full (windowStart wt)).
    + apply Forall_app. split; [done|]. apply Forall_cons. split; [|constructor]. by rewrite <- Hi.
  - split; [done|]. split; [done|]. exists full, parts. cbn [set_current history current entries Record_ windowStart].
    split; [done|]. split; [done|]. split; [|done]. by rewrite app_assoc, Hc.
Qed.

(** The windows partition what was recorded: every entry is counted in exactly one
    completed window or in the current one, windows follow one another without gap,
    none is shorter than the interval, and the history is their last maxHistory. *)
Theorem windows_partition_usage i max t0 (ops : list (option CostPolicy * time * UsageEntry)) :
  let wt := foldl (λ wt '(cp, now, e), record_window cp now e wt) (NewWindowedTracker i max t0) ops in
  ∃ full parts, history wt = keep max full ∧ Forall2 window_of full parts ∧
    concat parts ++ entries (current wt) = ops.*2 ∧ contiguous t0 full (windowStart wt) ∧
    Forall (λ w, windowDuration i <= time_sub (End_ w) (Start w)) full.
Proof.
  intros wt. enough (H : window_inv i max t0 ops.*2 wt) by apply H. unfold wt.
  induction ops as [|[[cp now] e] ops IH] using rev_ind.
  - split; [done|]. split; [done|]. exists [], []. cbn. unfold keep. split; [by case_match|].
    split; [constructor|]. split; [done|]. split; [done|constructor].
  - rewrite foldl_app, fmap_app. cbn [foldl]. by apply record_window_inv.
Qed.

(** The dollar total of a window is that of the policy since it was created: the
    windows after the first count the earlier windows again. *)
Lemma window_costs_are_cumulative :
  let cp := {| pricing := ∅; dollarBudget := float_zero; totalCost := one |} in
  let wt := rotate (Some cp) (2 * Hour) (rotate (Some cp) Hour (NewWindowedTracker ResetHourly 0 0)) in
  map TotalCost (history wt) = [one; one] ∧ map TotalInput (history wt) = [0; 0].
Proof. by vm_compute. Qed.

(** ** Alerts *)
Definition blocks (cost : float64) (p : BudgetPolicy) : bool :=
  negb (float_le (Limit p) float_zero) && float_le one (float_div cost (Limit p)) &&
  bool_decide (Action p = ActionBlock).

(** *** Callers that share an enforcer
    A caller goes from one critical section to the next: [RecordCost] adds its amount, then like [Check] it reads the spend and
    the policies, and decides threshold after threshold under the lock. *)
Inductive caller :=
| Recording (amount : float64)
| Reading (check : bool)
| Alerting (check : bool) (cost : float64) (current : option (BudgetPolicy * list float64)) (todo past : list BudgetPolicy)
| Finished (cost : float64) (past : list BudgetPolicy).
(** What has happened, the latest first: a value of the spend, a policy, an alert. *)
Inductive event := Spend (x : float64) | Added (p : BudgetPolicy) | Alerted (a : BudgetAlert).
Record office := { enf : BudgetEnforcer; tracked : float64; callers : list caller; log : list event }.

Definition spend (s : office) : float64 := if useInternalTrack (enf s) then internalCost (enf s) else tracked s.
Definition in_office (e : BudgetEnforcer) (s : office) : office := {| enf := e; tracked := tracked s; callers := callers s; log := log s |}.
Definition happened (ev : event) (s : office) : office := {| enf := enf s; tracked := tracked s; callers := callers s; log := ev :: log s |}.
Definition with_callers (l : list caller) (s : office) : office := {| enf := enf s; tracked := tracked s; callers := l; log := log s |}.
Definition spends (s : office) : office := happened (Spend (spend s)) s.
(** One decision: the alert, if there is one, is sent. *)
Definition decides (p : BudgetPolicy) (cost threshold : float64) (s : office) : office :=
  let e := fire p cost threshold (enf s) in
  foldl (λ s a, happened (Alerted a) s) (in_office e s) (drop (length (alerts (enf s))) (alerts e)).
Definition due (p : BudgetPolicy) (e : BudgetEnforcer) : list float64 :=
  if negb (alertFunc e) || float_le (Limit p) float_zero then [] else sort_floats (Thresholds p).

Section Office.
(** What recording an amount makes of the total of an external tracker. *)
Variable track : float64 → float64 → float64.
Definition turn (c : caller) (s : office) : caller * office :=
  match c with
  | Recording amount => (Reading false, spends (if useInternalTrack (enf s) then in_office (add_internal amount (enf s)) s
      else {| enf := enf s; tracked := track (tracked s) amount; callers := callers s; log := log s |}))
  | Reading check => (Alerting check (spend s) None (policies (enf s)) [], s)
  | Alerting check cost None [] past => (Finished cost past, s)
  | Alerting check cost None (p :: todo) past => (Alerting check cost (Some (p, due p (enf s))) todo past, s)
  | Alerting check cost (Some (p, threshold :: ths)) todo past =>
      (Alerting check cost (Some (p, ths)) todo past, if float_le threshold (float_div cost (Limit p)) then decides p cost threshold s else s)
  | Alerting check cost (Some (p, [])) todo past =>
      (if check && blocks cost p then Finished cost (past ++ [p]) else Alerting check cost None todo (past ++ [p]), s)
  | Finished cost past => (c, s)
  end.
Definition goes_on (i : nat) (s : office) : office :=
  match callers s !! i with Some c => let '(c, s) := turn c s in with_callers (<[i := c]> (callers s)) s | None => s end.
Inductive enf_step : office → office → Prop :=
| es_turn i s : enf_step s (goes_on i s)
| es_record amount s : enf_step s (with_callers (callers s ++ [Recording amount]) s)
| es_check s : enf_step s (with_callers (callers s ++ [Reading true]) s)
| es_add p s : enf_step s (happened (Added p) (in_office (AddPolicy p (enf s)) s))
| es_track x s : enf_step s (spends {| enf := enf s; tracked := x; callers := callers s; log := log s |}).
Definition opened (with_tracker with_alerts : bool) (total : float64) : office :=
  spends {| enf := NewBudgetEnforcer with_tracker with_alerts; tracked := total; callers := []; log := [] |}.

(** *** The invariant *)
(** The alerts since a policy of this name was added for the last time. *)
Fixpoint since (n : string) (l : list event) : list BudgetAlert :=
  match l with
  | [] => []
  | Added p :: l => if bool_decide (Name p = n) then [] else since n l
  | Alerted a :: l => a :: since n l
  | Spend _ :: l => since n l
  end.
(** An alert is true of what happened before it. *)
Definition warranted (a : BudgetAlert) (l : list event) : Prop :=
  Spend (CurrentCost a) ∈ l ∧
  (∃ p, Added p ∈ l ∧ Name p = PolicyName a ∧ Limit p = BudgetLimit a ∧ Threshold a ∈ Thresholds p) ∧
  float_le (BudgetLimit a) float_zero = false ∧ float_le (Threshold a) (float_div (CurrentCost a) (BudgetLimit a)) = true.
Fixpoint log_ok (l : list event) : Prop :=
  match l with
  | [] => True
  | Alerted a :: l => warranted a l ∧ (∀ b, b ∈ since (PolicyName a) l → PolicyName b = PolicyName a → SFeqb (Threshold a) (Threshold b) = false) ∧ log_ok l
  | _ :: l => log_ok l
  end.
(** The policy's thresholds that the cost has reached have been alerted. *)
Definition announced (l : list event) (cost : float64) (p : BudgetPolicy) (threshold : float64) : Prop :=
  float_le (Limit p) float_zero = false → float_le threshold (float_div cost (Limit p)) = true →
  ∃ a, Alerted a ∈ l ∧ PolicyName a = Name p ∧ SFeqb threshold (Threshold a) = true.
Definition all_announced (on : bool) (l : list event) (cost : float64) (p : BudgetPolicy) : Prop :=
  on = true → ∀ threshold, threshold ∈ Thresholds p → announced l cost p threshold.
Definition caller_ok (on : bool) (l : list event) (c : caller) : Prop :=
  match c with
  | Recording _ | Reading _ => True
  | Alerting _ cost current todo past => Spend cost ∈ l ∧ (∀ p, p ∈ todo → Added p ∈ l) ∧ (∀ p, p ∈ past → all_announced on l cost p) ∧
      match current with
      | None => True
      | Some (p, ths) => Added p ∈ l ∧ (∀ th, th ∈ ths → th ∈ Thresholds p ∧ on = true ∧ float_le (Limit p) float_zero = false) ∧
          (on = true → ∀ th, th ∈ Thresholds p → th ∈ ths ∨ announced l cost p th)
      end
  | Finished cost past => Spend cost ∈ l ∧ (∀ p, p ∈ past → all_announced on l cost p)
  end.
Definition alert_of (ev : event) : option BudgetAlert := match ev with Alerted a => Some a | _ => None end.
Record office_ok (on : bool) (s : office) : Prop := {
  ok_log : log_ok (log s);
  ok_on : alertFunc (enf s) = on;
  ok_off : on = false → omap alert_of (log s) = [];
  ok_alerts : alerts (enf s) = reverse (omap alert_of (log s));
  ok_fired : ∀ n th, th ∈ default [] (firedThresholds (enf s) !! n) ↔ ∃ a, a ∈ since n (log s) ∧ PolicyName a = n ∧ Threshold a = th;
  ok_spend : Spend (spend s) ∈ log s;
  ok_policies : ∀ p, p ∈ policies (enf s) → Added p ∈ log s;
  ok_callers : Forall (caller_ok on (log s)) (callers s)
}.

Lemma since_in n l a : a ∈ since n l → Alerted a ∈ l.
Proof.
  induction l as [|[x|p|b] l IH]; cbn; [by intros ?%elem_of_nil|by right; auto| |].
  - case_bool_decide; [by intros ?%elem_of_nil|]. intros H'. right. auto.
  - intros [ ->|H]%elem_of_cons; [left|right; auto].
Qed.
Lemma caller_ok_mono on l ev c : caller_ok on l c → caller_ok on (ev :: l) c.
Proof.
  assert (∀ cost p th, announced l cost p th → announced (ev :: l) cost p th) as Ha.
  { intros cost p th H H1 H2. destruct (H H1 H2) as (a & Hin & Ha). exists a. split; [by right|done]. }
  assert (∀ cost p, all_announced on l cost p → all_announced on (ev :: l) cost p) as Haa.
  { intros cost p H Hon th Hth. apply Ha. by apply H. }
  destruct c as [x|k|k cost cur todo past|cost past]; cbn; try done.
  - intros (H1 & H2 & H3 & H4). split; [by right|]. split; [intros p Hp; right; auto|]. split; [auto|].
    destruct cur as [[p ths]|]; [|done]. destruct H4 as (H4 & H5 & H6). split; [by right|]. split; [done|]. intros Hon th Hth.
    destruct (H6 Hon th Hth); auto.
  - intros (H1 & H2). split; [by right|auto].
Qed.
Lemma callers_ok_mono on l ev cs : Forall (caller_ok on l) cs → Forall (caller_ok on (ev :: l)) cs.
Proof. intros H. eapply Forall_impl; [exact H|]. intros c. apply caller_ok_mono. Qed.
Lemma float_le_refl x y : float_le x y = true → SFeqb x x = true.
Proof. destruct x as [[]|[]| |[] m e]; try done; intros _; unfold SFeqb, SFcompare; by rewrite ?Z.compare_refl, ?Pos.compare_cont_refl. Qed.
Lemma float_in_false x l : float_in x l = false → ∀ y, y ∈ l → SFeqb x y = false.
Proof.
  intros H y Hy. apply not_true_is_false. intros E. apply not_true_iff_false in H. apply H.
  apply existsb_exists. exists y. by rewrite <- list_elem_of_In.
Qed.
Lemma float_in_true x l : float_in x l = true → ∃ y, y ∈ l ∧ SFeqb x y = true.
Proof. intros (y & Hy & E)%existsb_exists. exists y. by rewrite list_elem_of_In. Qed.

Lemma elem_of_insert_float x y l : y ∈ insert_float x l ↔ y = x ∨ y ∈ l.
Proof. induction l as [|z l IH]; cbn; [set_solver|]. case_match; set_solver. Qed.
Lemma elem_of_sort_floats y l : y ∈ sort_floats l ↔ y ∈ l.
Proof. induction l as [|x l IH]; [done|]. cbn [sort_floats foldr]. rewrite elem_of_insert_float. unfold sort_floats in IH. set_solver. Qed.

(** A decision keeps the invariant, and the threshold has then been alerted. *)
Lemma decides_ok on p cost th s : office_ok on s → on = true → Spend cost ∈ log s → Added p ∈ log s → th ∈ Thresholds p →
  float_le (Limit p) float_zero = false → float_le th (float_div cost (Limit p)) = true →
  office_ok on (decides p cost th s) ∧ callers (decides p cost th s) = callers s ∧ (∃ new, log (decides p cost th s) = new ++ log s) ∧
  announced (log (decides p cost th s)) cost p th.
Proof.
  intros Hok Hon Hs Hp Hth Hl Ht. unfold decides, fire. destruct (float_in th _) eqn:E.
  - rewrite drop_all. cbn [foldl]. destruct s. split; [done|]. split; [done|]. split; [by exists []|].
    apply float_in_true in E as (y & Hy & Heq). apply (ok_fired _ _ Hok) in Hy as (a & Ha & Hn & <-). intros _ _. exists a.
    split; [by eapply since_in|done].
  - cbn [alerts]. rewrite drop_app_length. cbn [foldl]. set (a := {| PolicyName := Name p; Threshold := th; CurrentCost := cost; BudgetLimit := Limit p |}). pose proof (float_in_false _ _ E) as Hnew.
    split; [|split; [done|split; [by exists [Alerted a]|intros _ _; exists a; split; [left|split; [done|by eapply float_le_refl]]]]].
    destruct Hok as [H1 H2 H3 H4 H5 H6 H7 H8]. split; cbn [happened in_office enf log callers tracked alertFunc alerts firedThresholds policies].
    + cbn [log_ok]. split; [split; [done|split; [by exists p|done]]|]. split; [|done]. intros b Hb Hn. apply Hnew. apply H5. by exists b.
    + done.
    + congruence.
    + change (alerts (enf s) ++ [a] = reverse (a :: omap alert_of (log s))). by rewrite reverse_cons, H4.
    + intros n th'. cbn [since]. destruct (decide (n = Name p)) as [ ->|Hne].
      * rewrite lookup_insert_eq. change (th' ∈ th :: default [] (firedThresholds (enf s) !! Name p) ↔ ∃ b, b ∈ a :: since (Name p) (log s) ∧ PolicyName b = Name p ∧ Threshold b = th').
        rewrite elem_of_cons, H5. split.
        -- intros [ ->|(b & Hb & Hn & <-)]; [exists a; split; [left|done]|exists b; split; [by right|done]].
        -- intros (b & [ ->|Hb]%elem_of_cons & Hn & <-); [by left|right; by exists b].
      * rewrite lookup_insert_ne by done. rewrite H5. split; [intros (b & Hb & Hn); exists b; split; [by right|done]|].
        intros (b & [ ->|Hb]%elem_of_cons & Hn & <-); [by destruct Hne|by exists b].
    + right. exact H6.
    + intros q Hq. right. by apply H7.
    + by apply callers_ok_mono.
Qed.
Lemma happened_spend_ok on s s' : office_ok on s → log s' = log s → alertFunc (enf s') = alertFunc (enf s) → alerts (enf s') = alerts (enf s) →
  firedThresholds (enf s') = firedThresholds (enf s) → policies (enf s') = policies (enf s) → callers s' = callers s → office_ok on (spends s').
Proof.
  intros [H1 H2 H3 H4 H5 H6 H7 H8] El Ea Eal Ef Ep Ec. split; cbn [spends happened enf log callers]; rewrite ?El, ?Ea, ?Eal, ?Ef, ?Ep, ?Ec; try done.
  - left.
  - intros q Hq. right. by apply H7.
  - by apply callers_ok_mono.
Qed.
Lemma turn_ok on c s c' s' : office_ok on s → caller_ok on (log s) c → turn c s = (c', s') →
  office_ok on s' ∧ callers s' = callers s ∧ caller_ok on (log s') c'.
Proof.
  intros Hok Hc. destruct c as [amount|k|k cost [[p [|th ths]]|] todo past|cost past]; cbn [turn].
  - intros [= <- <-]. split; [|split; [by destruct (useInternalTrack _)|done]].
    destruct (useInternalTrack (enf s)); by apply (happened_spend_ok on s).
  - intros [= <- <-]. split; [done|]. split; [done|]. cbn. split; [by apply (ok_spend on)|]. split; [apply (ok_policies on); done|].
    split; [by intros p ?%elem_of_nil|done].
  - intros [= <- <-]. split; [done|]. split; [done|]. destruct Hc as (H1 & H2 & H3 & H4 & H5 & H6).
    assert (∀ q, q ∈ past ++ [p] → all_announced on (log s) cost q) as Hpast.
    { intros q [Hq| ->%list_elem_of_singleton]%elem_of_app; [auto|]. intros Hon th Hth. destruct (H6 Hon th Hth) as [Hnil|]; [by apply elem_of_nil in Hnil|done]. }
    destruct (k && blocks cost p); cbn; auto.
  - intros [= <- <-]. destruct Hc as (H1 & H2 & H3 & H4 & H5 & H6). destruct (H5 th) as (Hth & Hon & Hl); [left|].
    destruct (float_le th _) eqn:Et.
    + destruct (decides_ok on p cost th s) as (Hok' & Hcs & (new & Hlog) & Hann); try done. split; [done|]. split; [done|].
      assert (caller_ok on (log (decides p cost th s)) (Alerting k cost (Some (p, th :: ths)) todo past)) as (G1 & G2 & G3 & G4 & G5 & G6).
      { rewrite Hlog. clear -H1 H2 H3 H4 H5 H6. induction new as [|ev new IH]; [done|]. cbn [app]. by apply caller_ok_mono. }
      split; [done|]. split; [done|]. split; [done|]. split; [done|]. split; [intros x Hx; apply G5; by right|].
      intros Ho x Hx. destruct (G6 Ho x Hx) as [Hin|]; [|by right]. apply elem_of_cons in Hin as [ ->|]; [by right|by left].
    + split; [done|]. split; [done|]. split; [done|]. split; [done|]. split; [done|]. split; [done|].
      split; [intros x Hx; apply H5; by right|]. intros Ho x Hx. destruct (H6 Ho x Hx) as [Hin|]; [|by right]. apply elem_of_cons in Hin as [ ->|]; [right|by left].
      intros _ Hreach. congruence.
  - destruct todo as [|p todo]; intros [= <- <-]; (split; [done|]); (split; [done|]); destruct Hc as (H1 & H2 & H3 & _); [done|].
    cbn. split; [done|]. split; [intros q Hq; apply H2; by right|]. split; [done|]. split; [apply H2; left|].
    unfold due. rewrite (ok_on on s Hok). destruct on; cbn [negb orb]; [|by split; [intros th ?%elem_of_nil|]].
    destruct (float_le (Limit p) float_zero) eqn:El; [split; [by intros th ?%elem_of_nil|]; intros _ th _; right; intros ?; congruence|].
    split; [intros th Hth; by rewrite elem_of_sort_floats in Hth|]. intros _ th Hth. left. by apply elem_of_sort_floats.
  - intros [= <- <-]. by split.
Qed.
Lemma with_callers_ok on s l : office_ok on s → Forall (caller_ok on (log s)) l → office_ok on (with_callers l s).
Proof. intros [H1 H2 H3 H4 H5 H6 H7 H8] Hl. by split. Qed.
Lemma enf_step_ok on s s' : enf_step s s' → office_ok on s → office_ok on s'.
Proof.
  intros H Hok. destruct H as [i s|amount s|s|p s|x s].
  - unfold goes_on. destruct (callers s !! i) as [c|] eqn:Ei; [|done]. destruct (turn c s) as [c' s'] eqn:Et.
    assert (caller_ok on (log s) c) as Hc by (eapply Forall_lookup_1; [apply (ok_callers on s Hok)|exact Ei]).
    destruct (turn_ok on c s c' s' Hok Hc Et) as (Hok' & Hcs & Hc'). apply with_callers_ok; [done|].
    apply Forall_insert; [by apply (ok_callers on)|done].
  - apply with_callers_ok; [done|]. apply Forall_app. split; [by apply (ok_callers on)|]. by constructor.
  - apply with_callers_ok; [done|]. apply Forall_app. split; [by apply (ok_callers on)|]. by constructor.
  - destruct Hok as [H1 H2 H3 H4 H5 H6 H7 H8]. split; cbn [happened in_office enf log callers AddPolicy alertFunc alerts firedThresholds policies]; try done.
    + intros n th. cbn [since]. destruct (decide (n = Name p)) as [ ->|Hne].
      * rewrite lookup_insert_eq, bool_decide_true by done. cbn. split; [by intros ?%elem_of_nil|by intros (a & ?%elem_of_nil & _)].
      * rewrite lookup_insert_ne, bool_decide_false by done. apply H5.
    + right. exact H6.
    + intros q [Hq| ->%list_elem_of_singleton]%elem_of_app; [right; by apply H7|left].
    + by apply callers_ok_mono.
  - by apply (happened_spend_ok on s).
Qed.
Lemma office_reachable with_tracker with_alerts total s : rtc enf_step (opened with_tracker with_alerts total) s → office_ok with_alerts s.
Proof.
  intros H. refine (rtc_ind_r (office_ok with_alerts) (opened with_tracker with_alerts total) _ _ s H); [|intros; by eapply enf_step_ok].
  split; try done.
  - intros n th. cbn. rewrite lookup_empty. cbn. split; [by intros ?%elem_of_nil|by intros (a & ?%elem_of_nil & _)].
  - left.
  - by intros p ?%elem_of_nil.
Qed.
Definition adds (n : string) (ev : event) : bool := match ev with Added p => bool_decide (Name p = n) | _ => false end.
Lemma log_ok_app l1 l2 : log_ok (l1 ++ l2) → log_ok l2.
Proof. induction l1 as [|[x|p|a] l1 IH]; cbn; naive_solver. Qed.
Lemma since_app n mid b oldest : (∀ p, Added p ∈ mid → Name p ≠ n) → b ∈ since n (mid ++ Alerted b :: oldest).
Proof.
  induction mid as [|[x|p|a] mid IH]; intros H; cbn; [left|apply IH; intros p Hp; apply H; by right| |right; apply IH; intros p Hp; apply H; by right].
  rewrite bool_decide_false by (apply H; left). apply IH. intros q Hq. apply H. by right.
Qed.

(** C31.  Alerts are true, sent once, and not forgotten.  However calls of AddPolicy, RecordCost and Check by any number of callers
    interleave at the enforcer's lock: an alert names a policy that had been added with this limit and this threshold, the limit is
    positive, and the cost it reports is one the spend has had, which reaches the threshold; of two alerts of one policy and one
    threshold, a policy of that name was added in between (adding a policy again resets what has been alerted); and once a
    call of RecordCost or Check has returned, every threshold, of the policies it went through, that its reading of the spend has
    reached has been alerted, if there is an alert function; without one nothing is sent. *)
Theorem alerts_fire_once with_tracker with_alerts total s : rtc enf_step (opened with_tracker with_alerts total) s →
  alerts (enf s) = reverse (omap alert_of (log s)) ∧ (with_alerts = false → alerts (enf s) = []) ∧
  (∀ newer a older, log s = newer ++ Alerted a :: older →
     warranted a older ∧
     ∀ mid b oldest, older = mid ++ Alerted b :: oldest → PolicyName b = PolicyName a → SFeqb (Threshold a) (Threshold b) = true →
       ∃ p, Added p ∈ mid ∧ Name p = PolicyName a) ∧
  (∀ cost past p threshold, Finished cost past ∈ callers s → with_alerts = true → p ∈ past → threshold ∈ Thresholds p →
     float_le (Limit p) float_zero = false → float_le threshold (float_div cost (Limit p)) = true →
     ∃ a, a ∈ alerts (enf s) ∧ PolicyName a = Name p ∧ SFeqb threshold (Threshold a) = true).
Proof.
  intros Hok%office_reachable. split; [by apply (ok_alerts with_alerts)|].
  split; [intros E; by rewrite (ok_alerts _ _ Hok), (ok_off _ _ Hok E)|]. split.
  - intros newer a older Hlog. pose proof (ok_log _ _ Hok) as Hl. rewrite Hlog in Hl. apply log_ok_app in Hl as (Hw & Hnew & _).
    split; [done|]. intros mid b oldest -> Hn Heq. destruct (decide (Exists (λ ev, adds (PolicyName a) ev = true) mid)) as [He|He].
    { apply Exists_exists in He as (ev & Hin & Hp). destruct ev as [x|p|c]; try done. apply bool_decide_eq_true in Hp. by exists p. }
    assert (SFeqb (Threshold a) (Threshold b) = false); [|congruence]. apply Hnew; [|done]. apply since_app. intros p Hp Hname.
    apply He, Exists_exists. exists (Added p). split; [done|]. by apply bool_decide_eq_true.
  - intros cost past p th Hin Hon Hp Hth Hl Ht. assert (caller_ok with_alerts (log s) (Finished cost past)) as [_ H].
    { eapply Forall_forall; [apply (ok_callers _ _ Hok)|done]. }
    destruct (H p Hp Hon th Hth Hl Ht) as (a & Ha & Hn & Heq). exists a. split; [|done].
    rewrite (ok_alerts _ _ Hok), elem_of_reverse. apply list_elem_of_omap. by exists (Alerted a).
Qed.
(** *** A caller alone
    From its reading of the spend to its return, a caller whom nobody interrupts does what the function of the same name does. *)
Fixpoint goes_on_for (n : nat) (i : nat) (s : office) : office := match n with O => s | S n => goes_on_for n i (goes_on i s) end.
Lemma goes_on_for_steps n i s : rtc enf_step s (goes_on_for n i s).
Proof. revert s. induction n as [|n IH]; intros s; [apply rtc_refl|]. cbn. eapply rtc_l; [apply es_turn|apply IH]. Qed.
Definition standing (i : nat) (c : caller) (e : BudgetEnforcer) (s : office) : Prop := callers s !! i = Some c ∧ enf s = e.
Definition leads (i : nat) (c : caller) (e : BudgetEnforcer) (c' : caller) (e' : BudgetEnforcer) : Prop :=
  ∀ s, standing i c e s → ∃ n, standing i c' e' (goes_on_for n i s).
Lemma leads_step i c e c1 e1 c' e' : (∀ s, enf s = e → (turn c s).1 = c1 ∧ enf (turn c s).2 = e1 ∧ callers (turn c s).2 = callers s) →
  leads i c1 e1 c' e' → leads i c e c' e'.
Proof.
  intros Ht Hl s [Hc He]. destruct (Ht s He) as (T1 & T2 & T3). destruct (Hl (goes_on i s)) as [n Hn].
  - unfold goes_on. rewrite Hc. destruct (turn c s) as [c2 s2]. cbn in *. subst c2. split; [|done]. cbn. rewrite T3.
    apply list_lookup_insert_eq. by eapply lookup_lt_Some.
  - by exists (S n).
Qed.
Lemma leads_refl i c e : leads i c e c e.
Proof. intros s H. by exists 0%nat. Qed.
Lemma enf_decides p cost th s : enf (decides p cost th s) = fire p cost th (enf s) ∧ callers (decides p cost th s) = callers s.
Proof.
  unfold decides. generalize (drop (length (alerts (enf s))) (alerts (fire p cost th (enf s)))). intros l.
  assert (∀ s0, enf (foldl (λ s a, happened (Alerted a) s) s0 l) = enf s0 ∧ callers (foldl (λ s a, happened (Alerted a) s) s0 l) = callers s0) as H; [|apply (H (in_office (fire p cost th (enf s)) s))].
  induction l as [|a l IH]; intros s0; [done|]. cbn [foldl]. destruct (IH (happened (Alerted a) s0)) as [-> ->]. done.
Qed.
Lemma leads_thresholds i check cost p ths todo past c' e' : ∀ e,
  leads i (Alerting check cost (Some (p, [])) todo past)
    (foldl (λ e th, if float_le th (float_div cost (Limit p)) then fire p cost th e else e) e ths) c' e' →
  leads i (Alerting check cost (Some (p, ths)) todo past) e c' e'.
Proof.
  induction ths as [|th ths IH]; intros e H; [exact H|].
  eapply (leads_step _ _ _ (Alerting check cost (Some (p, ths)) todo past) (if float_le th (float_div cost (Limit p)) then fire p cost th e else e));
    [|by apply IH]. intros s <-. cbn [turn fst snd]. destruct (float_le th _); [|done]. split; [done|]. apply enf_decides.
Qed.
Lemma due_fires p cost e : foldl (λ e th, if float_le th (float_div cost (Limit p)) then fire p cost th e else e) e (due p e) = fireAlerts p cost e.
Proof.
  unfold due, fireAlerts. destruct (alertFunc e); cbn [negb orb]; [|done]. destruct (float_le (Limit p) float_zero); [done|]. cbn [orb].
  case_bool_decide as E; [by rewrite E|done].
Qed.
Lemma leads_policy i check cost p todo past c' e e' :
  leads i (if check && blocks cost p then Finished cost (past ++ [p]) else Alerting check cost None todo (past ++ [p])) (fireAlerts p cost e) c' e' →
  leads i (Alerting check cost None (p :: todo) past) e c' e'.
Proof.
  intros H. eapply (leads_step _ _ _ (Alerting check cost (Some (p, due p e)) todo past) e); [by intros s <-|].
  apply leads_thresholds. rewrite due_fires. eapply leads_step; [|exact H]. by intros s <-.
Qed.
Lemma leads_check i cost todo : ∀ r past e, ∃ past',
  leads i (Alerting true cost None todo past) e (Finished cost past') (check_policies todo cost r e).2.
Proof.
  induction todo as [|p todo IH]; intros r past e.
  - exists past. eapply leads_step; [|apply leads_refl]. by intros s <-.
  - assert (∃ past', leads i (Alerting true cost None (p :: todo) past) e (Finished cost past')
      (if blocks cost p then fireAlerts p cost e else
       (check_policies todo cost (if float_le (Limit p) float_zero then r else if float_le one (float_div cost (Limit p)) then
          match Action p with ActionDowngrade => ActionDowngrade | _ => r end else r) (fireAlerts p cost e)).2)) as [past' H].
    { destruct (blocks cost p) eqn:Eb.
      - exists (past ++ [p]). apply leads_policy. rewrite Eb. apply leads_refl.
      - edestruct IH as [past' H]. exists past'. apply leads_policy. rewrite Eb. exact H. }
    exists past'. cbn [check_policies]. unfold blocks in H. destruct (float_le (Limit p) float_zero) eqn:El; cbn [negb andb] in H.
    + by replace (fireAlerts p cost e) with e in H by (unfold fireAlerts; rewrite El; by destruct (alertFunc e)).
    + destruct (float_le one _); cbn [andb] in H; [|done]. by destruct (Action p).
Qed.
(** [Check] is the run of a caller that nobody interrupts. *)
Lemma Check_is_a_run i s : callers s !! i = Some (Reading true) →
  ∃ n past, standing i (Finished (spend s) past) (check_policies (policies (enf s)) (spend s) ActionWarn (enf s)).2 (goes_on_for n i s).
Proof.
  intros Hc. destruct (leads_check i (spend s) (policies (enf s)) ActionWarn [] (enf s)) as [past H].
  destruct (H (goes_on i s)) as [n Hn]; [|by exists (S n), past]. unfold goes_on. rewrite Hc. cbn. split; [|done]. cbn.
  apply list_lookup_insert_eq. by eapply lookup_lt_Some.
Qed.
Lemma leads_record i cost todo : ∀ past e,
  leads i (Alerting false cost None todo past) e (Finished cost (past ++ todo)) (foldl (λ e p, fireAlerts p cost e) e todo).
Proof.
  induction todo as [|p todo IH]; intros past e.
  - rewrite app_nil_r. eapply leads_step; [|apply leads_refl]. by intros s <-.
  - apply leads_policy. cbn [andb foldl]. replace (past ++ p :: todo) with ((past ++ [p]) ++ todo) by (by rewrite <- app_assoc). apply IH.
Qed.
(** So is what [RecordCost] does after its amount has been added. *)
Lemma RecordCost_is_a_run i s : callers s !! i = Some (Reading false) →
  ∃ n, standing i (Finished (spend s) (policies (enf s))) (foldl (λ e p, fireAlerts p (spend s) e) (enf s) (policies (enf s))) (goes_on_for n i s).
Proof.
  intros Hc. destruct (leads_record i (spend s) (policies (enf s)) [] (enf s) (goes_on i s)) as [n Hn]; [|by exists (S n)].
  unfold goes_on. rewrite Hc. cbn. split; [|done]. cbn. apply list_lookup_insert_eq. by eapply lookup_lt_Some.
Qed.
End Office.

Definition half_policy : BudgetPolicy := {|
  Name := "daily"; Limit := one; Window := 24 * Hour; Thresholds := [float_dec 9 10; float_dec 1 2];
  Action := ActionBlock |}.
(** Two callers spend at once: both have added their amount before either looks at the thresholds. *)
Definition arrives (amount : float64) (s : office) : office := with_callers (callers s ++ [Recording amount]) s.
Definition two_callers : office :=
  let s := opened false true float_zero in
  let s := happened (Added half_policy) (in_office (AddPolicy half_policy (enf s)) s) in
  let s := arrives (float_dec 3 10) (arrives (float_dec 3 10) s) in
  let s := goes_on float_add 1 (goes_on float_add 0 s) in
  goes_on_for float_add 7 1 (goes_on_for float_add 7 0 s).
Lemma two_callers_reachable : rtc (enf_step float_add) (opened false true float_zero) two_callers.
Proof.
  unfold two_callers. eapply rtc_l; [apply es_add|]. eapply rtc_l; [apply es_record|]. eapply rtc_l; [apply es_record|].
  eapply rtc_l; [apply (es_turn _ 0)|]. eapply rtc_l; [apply (es_turn _ 1)|]. etrans; apply goes_on_for_steps.
Qed.
Lemma alerts_fire_once_witness :
  Threshold <$> alerts (enf two_callers) = [float_dec 1 2] ∧ length (callers two_callers) = 2%nat ∧
  ∃ a, a ∈ alerts (enf two_callers) ∧ PolicyName a = "daily" ∧ SFeqb (float_dec 1 2) (Threshold a) = true.
Proof.
  split; [by vm_compute|]. split; [by vm_compute|].
  destruct (alerts_fire_once float_add false true float_zero two_callers two_callers_reachable) as (_ & _ & _ & H).
  apply (H (float_add (float_dec 3 10) (float_dec 3 10)) [half_policy] half_policy); [|done|left|right; left|by vm_compute..].
  assert (callers two_callers !! 0%nat = Some (Finished (float_add (float_dec 3 10) (float_dec 3 10)) [half_policy])) as E by by vm_compute.
  by eapply list_elem_of_lookup_2.
Defined.
(** Adding a policy again under its name resets what has been alerted: the same crossing is alerted twice. *)
Lemma readded_policy_alerts_again :
  let e := fireAlerts half_policy (float_dec 6 10) (AddPolicy half_policy (NewBudgetEnforcer false true)) in
  Threshold <$> alerts (fireAlerts half_policy (float_dec 6 10) (AddPolicy half_policy e)) = [float_dec 1 2; float_dec 1 2].
Proof. by vm_compute. Qed.

(** ** The enforcement middleware *)
Lemma fireAlerts_internal p cost e :
  policies (fireAlerts p cost e) = policies e ∧ internalCost (fireAlerts p cost e) = internalCost e ∧
  useInternalTrack (fireAlerts p cost e) = useInternalTrack e.
Proof.
  unfold fireAlerts. case_match; [done|].
  revert e H. induction (sort_floats (Thresholds p)) as [|th ths IH]; intros e H; [done|]. cbn [foldl].
  assert (He : ∀ e', policies (fire p cost th e') = policies e' ∧ internalCost (fire p cost th e') = internalCost e' ∧
    useInternalTrack (fire p cost th e') = useInternalTrack e' ∧ alertFunc (fire p cost th e') = alertFunc e').
  { intros e'. unfold fire. by case_match. }
  destruct (float_le th _); [|by apply IH]. destruct (He e) as (H1 & H2 & H3 & H4).
  destruct (IH (fire p cost th e)) as (I1 & I2 & I3); [by rewrite H4|]. by rewrite I1, I2, I3.
Qed.

Lemma check_policies_spec ps cost r e : r ≠ ActionBlock →
  let '((a, err), e') := check_policies ps cost r e in
  policies e' = policies e ∧ internalCost e' = internalCost e ∧ useInternalTrack e' = useInternalTrack e ∧
  (if existsb (blocks cost) ps then a = ActionBlock ∧ is_Some err else a ≠ ActionBlock ∧ err = None).
Proof.
  revert r e. induction ps as [|p ps IH]; intros r e Hr; [done|]. cbn [check_policies existsb].
  unfold blocks at 1. destruct (float_le (Limit p) float_zero) eqn:El; cbn [negb andb orb]; [by apply IH|].
  destruct (fireAlerts_internal p cost e) as (F1 & F2 & F3).
  assert (Hgo : ∀ r, r ≠ ActionBlock →
    let '((a, err), e') := check_policies ps cost r (fireAlerts p cost e) in
    policies e' = policies e ∧ internalCost e' = internalCost e ∧ useInternalTrack e' = useInternalTrack e ∧
    (if existsb (blocks cost) ps then a = ActionBlock ∧ is_Some err else a ≠ ActionBlock ∧ err = None)).
  { intros r' Hr'. specialize (IH r' (fireAlerts p cost e) Hr'). by rewrite F1, F2, F3 in IH. }
  destruct (float_le one _); cbn [andb orb]; [|by apply Hgo].
  destruct (Action p); cbn [bool_decide decide decide_rel orb]; try by apply Hgo.
  repeat (split; [done|]). done.
Qed.

Section Enforcement.
Context {Ctx Req W : Type} `{!Cell W BudgetEnforcer} `{!CellLaws W BudgetEnforcer} `{!CostTracker W}
  (marshal : json → option string) (Params_Arguments : Req → option json) (name : string)
  (td : ToolDefinition (ToolHandlerFunc Ctx Req W)) (next : ToolHandlerFunc Ctx Req W).
(** The enforcer and an external tracker are different objects. *)
Hypothesis tracked_poke : ∀ (e : BudgetEnforcer) w, tracked_cost (poke e w) = tracked_cost w.

Lemma Check_spend w : CurrentSpend (Check w).2 = CurrentSpend w.
Proof using CellLaws0 tracked_poke.
  unfold Check, CurrentSpend. pose proof (check_policies_spec (policies (peek w))
    (if useInternalTrack (peek w) then internalCost (peek w) else tracked_cost w) ActionWarn (peek w)) as H.
  destruct (check_policies _ _ _ _) as [[a err] e]. cbn [snd]. rewrite peek_poke, tracked_poke.
  destruct H as (_ & H1 & H2 & _); [done|]. by rewrite H1, H2.
Qed.

(** The handler runs exactly when no blocking policy with a positive limit is
    exhausted by the spend so far; a blocked call answers an error result and spends
    nothing; an executed one returns the handler's result unchanged and the internal
    spend grows by its default cost, whatever the warning and downgrade policies say. *)
Theorem enforcement_contract ctx request w :
  let cost := CurrentSpend w in
  let '(o, w') := EnforcementMiddleware marshal Params_Arguments name td next ctx request w in
  if existsb (blocks cost) (policies (peek w))
  then ∃ res, o = Returns res None ∧ IsResultError res = true ∧ CurrentSpend w' = cost
  else ∃ w1, CurrentSpend w1 = cost ∧
    match next ctx request w1 with
    | (Panics v, w2) => o = Panics v ∧ w' = w2
    | (Returns res err, w2) => o = Returns res err ∧
        (useInternalTrack (peek w2) = true → CurrentSpend w' =
           float_add (CurrentSpend w2) (default_cost (add64
             (EstimateFromRequest marshal Params_Arguments request DefaultEstimate)
             (EstimateFromResult res DefaultEstimate))))
    end.
Proof using CellLaws0 tracked_poke.
  intros cost. unfold EnforcementMiddleware. pose proof (Check_spend w) as Hs.
  pose proof (check_policies_spec (policies (peek w)) cost ActionWarn (peek w)) as H.
  unfold Check in *. fold cost in Hs. destruct (check_policies _ _ _ _) as [[a err] e]. cbn [snd] in Hs.
  destruct H as (_ & _ & _ & H); [done|]. destruct (existsb _ _).
  - destruct H as (-> & [msg ->]). by eexists.
  - destruct H as [Ha ->].
    assert (Hgo : ∀ X Y : outcome * W, match a with ActionBlock => X | _ => Y end = Y) by by destruct a.
    rewrite Hgo. destruct (next ctx request (poke e w)) as [[res err|v] w2] eqn:En;
      exists (poke e w); (split; [done|]); rewrite En; [|done]. split; [done|]. intros Hu.
    unfold RecordCost. rewrite Hu. unfold CurrentSpend at 1. rewrite !peek_poke.
    set (e2 := add_internal _ _).
    assert (Hf : ∀ ps c e, useInternalTrack (foldl (λ e p, fireAlerts p c e) e ps) = useInternalTrack e ∧
      internalCost (foldl (λ e p, fireAlerts p c e) e ps) = internalCost e).
    { induction ps as [|p ps IH]; intros c e0; [done|]. cbn [foldl].
      destruct (IH c (fireAlerts p c e0)) as [I1 I2]. destruct (fireAlerts_internal p c e0) as (_ & F2 & F3).
      by rewrite I1, I2, F2, F3. }
    destruct (Hf (policies e2) (CurrentSpend (poke e2 w2)) e2) as [-> ->]. unfold e2. cbn [add_internal useInternalTrack internalCost].
    rewrite Hu. unfold CurrentSpend. by rewrite Hu.
Qed.
End Enforcement.

(** An enforcer with an internal counter, and a count of handler runs. *)
Definition enf_world : Type := BudgetEnforcer * nat.
#[local] Instance no_tracker : CostTracker enf_world := {| track_cost _ w := w; tracked_cost _ := float_zero |}.
Definition enf_handler : ToolHandlerFunc unit unit enf_world := λ _ _ w, (Returns None None, (w.1, S w.2)).
Definition broke : enf_world := (add_internal one (AddPolicy half_policy (NewBudgetEnforcer false false)), 0%nat).

Lemma enforcement_contract_witness :
  let '(o, w') := EnforcementMiddleware (λ _, None) (λ _ : unit, None) "t"
    (plain_definition enf_handler plain_tool) enf_handler tt tt broke in
  w'.2 = 0%nat ∧ ∃ res, o = Returns res None ∧ IsResultError res = true.
Proof.
  pose proof (enforcement_contract (λ _, None) (λ _ : unit, None) "t"
    (plain_definition enf_handler plain_tool) enf_handler (λ _ _, eq_refl) tt tt broke) as H.
  cbv zeta in H.
  replace (existsb (blocks (CurrentSpend broke)) (policies (peek broke))) with true in H by by vm_compute.
  destruct (EnforcementMiddleware _ _ _ _ _ _ _ _) as [o w'] eqn:E.
  split; [vm_compute in E; by injection E as <- <-|]. destruct H as (res & -> & H & _). by exists res.
Defined.

(** A first policy without a limit hides the budget of the others. *)
Lemma disabled_policy_hides_budget :
  let e := AddPolicy half_policy (AddPolicy {| Name := "off"; Limit := float_zero; Window := 0;
    Thresholds := []; Action := ActionWarn |} (NewBudgetEnforcer false false)) in
  RemainingBudget ((e, 0%nat) : enf_world) = float_zero ∧
  RemainingBudget ((AddPolicy half_policy (NewBudgetEnforcer false false), 0%nat) : enf_world) = one.
Proof. by vm_compute. Qed.

(** ** Prices *)
Lemma known_model_price walk raw canonical :
  raw ≠ "" → lookup_in (trim_suffix (to_lower raw) "[1m]") modelAliases = Some canonical ∨
  (lookup_in (trim_suffix (to_lower raw) "[1m]") modelAliases = None ∧
   is_Some (lookup_in (trim_suffix (to_lower raw) "[1m]") DefaultPricing) ∧
   canonical = trim_suffix (to_lower raw) "[1m]") →
  NormalizeModelName walk raw = canonical.
Proof.
  intros Hne H. unfold NormalizeModelName. rewrite bool_decide_false by done.
  destruct H as [ ->|(-> & [p Hp] & ->)]; [done|]. by rewrite Hp.
Qed.

(** A dated name has several prefixes in the table: its price depends on the order
    in which the map is walked. *)
Lemma dated_model_price_ambiguous :
  NormalizeModelName DefaultPricing "o3-mini-2025-01-31" = "o3" ∧
  NormalizeModelName (reverse DefaultPricing) "o3-mini-2025-01-31" = "o3-mini" ∧
  float_lt (ModelCost (reverse DefaultPricing) "o3-mini-2025-01-31" 1000000 0)
           (ModelCost DefaultPricing "o3-mini-2025-01-31" 1000000 0) = true.
Proof. by vm_compute. Qed.
