(* ===== verification/Tasks.v ===== *)
(** Asynchronous tasks (src/registry/tasks/): the in-memory manager, the middleware
    that answers with a task at once, and the handlers that run behind it as a step
    relation. *)

From stdpp Require Import base tactics list gmap strings pretty relations.
From Stdlib Require Import ZArith Lia.
From S2P Require Import Prelude Tool Truncate.

Local Open Scope Z_scope.

(** ** Entries (task.go) *)
Inductive TaskStatus := Working | InputRequired | Completed | Failed | Cancelled.
#[export] Instance TaskStatus_eq_dec : EqDecision TaskStatus.
Proof. solve_decision. Defined.

Definition status_text (s : TaskStatus) : string :=
  match s with
  | Working => "working" | InputRequired => "input_required" | Completed => "completed"
  | Failed => "failed" | Cancelled => "cancelled"
  end.

Record TaskInfo := { TaskId : string; Status : TaskStatus; StatusMessage : string; LastUpdatedAt : time }.

Definition IsTerminal (t : TaskInfo) : bool :=
  match Status t with Completed | Failed | Cancelled => true | _ => false end.

(** [CancelFn]: whether the middleware has set it; [cancelled]: whether a cancellation has called it. *)
Record TaskEntry := {
  Task : TaskInfo;
  Result : option CallToolResult;
  ExpiresAt : time;
  CancelFn : bool;
  cancelled : bool
}.

Definition Update (now : time) (s : TaskStatus) (message : string) (e : TaskEntry) : TaskEntry := {|
  Task := {| TaskId := TaskId (Task e); Status := s; StatusMessage := message; LastUpdatedAt := now |};
  Result := Result e; ExpiresAt := ExpiresAt e; CancelFn := CancelFn e; cancelled := cancelled e |}.
Definition SetResult (r : option CallToolResult) (e : TaskEntry) : TaskEntry := {|
  Task := Task e; Result := r; ExpiresAt := ExpiresAt e; CancelFn := CancelFn e; cancelled := cancelled e |}.
Definition set_cancel (fn called : bool) (e : TaskEntry) : TaskEntry := {|
  Task := Task e; Result := Result e; ExpiresAt := ExpiresAt e; CancelFn := fn; cancelled := called |}.
Definition IsExpired (now : time) (e : TaskEntry) : bool :=
  if time_is_zero (ExpiresAt e) then false else time_after now (ExpiresAt e).

(** ** The manager (manager.go): shared entries by address *)
Definition DefaultTTL : duration := 10 * Minute.

Record InMemoryManager := { tasks : gmap string nat; entries : nat → TaskEntry; next_entry : nat }.

Definition update_entry (p : nat) (f : TaskEntry → TaskEntry) (m : InMemoryManager) : InMemoryManager := {|
  tasks := tasks m; entries := λ q, if decide (q = p) then f (entries m q) else entries m q;
  next_entry := next_entry m |}.
Definition set_tasks (t : gmap string nat) (m : InMemoryManager) : InMemoryManager :=
  {| tasks := t; entries := entries m; next_entry := next_entry m |}.

Definition new_entry (id : string) (ttl : duration) (now : time) : TaskEntry := {|
  Task := {| TaskId := id; Status := Working; StatusMessage := "working"; LastUpdatedAt := now |};
  Result := None; ExpiresAt := time_add now (if ttl =? 0 then DefaultTTL else ttl);
  CancelFn := false; cancelled := false |}.

Definition Create (id : string) (ttl : duration) (now : time) (m : InMemoryManager) : nat * InMemoryManager :=
  let p := next_entry m in
  (p, {| tasks := <[id := p]> (tasks m);
         entries := λ q, if decide (q = p) then new_entry id ttl now else entries m q;
         next_entry := S p |}).

Definition Get (id : string) (now : time) (m : InMemoryManager) : option nat :=
  p ← tasks m !! id; if IsExpired now (entries m p) then None else Some p.

Definition live_entries (now : time) (m : InMemoryManager) : list nat :=
  filter (λ p, IsExpired now (entries m p) = false) (map_to_list (tasks m)).*2.
Definition List_ (now : time) (m : InMemoryManager) : list TaskInfo :=
  (λ p, Task (entries m p)) <$> live_entries now m.
Definition Count (now : time) (m : InMemoryManager) : Z := Z.of_nat (length (live_entries now m)).

Definition Cleanup (now : time) (m : InMemoryManager) : InMemoryManager :=
  set_tasks (filter (λ ip : string * nat, IsExpired now (entries m ip.2) = false) (tasks m)) m.

(** [Cancel] in its two parts: the look at the entry, and the update. *)
Definition cancel_look (id : string) (m : InMemoryManager) : error + nat :=
  match tasks m !! id with
  | None => inl (Err ("task " +:+ id +:+ " not found"))
  | Some p =>
      if IsTerminal (Task (entries m p))
      then inl (Err ("task " +:+ id +:+ " is already in terminal state: " +:+
                     status_text (Status (Task (entries m p)))))
      else inr p
  end.
Definition cancel_do (now : time) (e : TaskEntry) : TaskEntry :=
  let e := Update now Cancelled "cancelled by client" e in
  set_cancel (CancelFn e) (cancelled e || CancelFn e) e.
Definition Cancel (id : string) (now : time) (m : InMemoryManager) : option error * InMemoryManager :=
  match cancel_look id m with
  | inl err => (Some err, m)
  | inr p => (None, update_entry p (cancel_do now) m)
  end.

(** ** The middleware (middleware.go) *)
Definition MakeTextResult (text : string) : CallToolResult :=
  {| r_Content := [MakeTextContent text]; StructuredContent := None; IsError := false |}.

Inductive TaskSupport := TaskSupportForbidden | TaskSupportOptional | TaskSupportRequired | TaskSupportEmpty.
#[export] Instance TaskSupport_eq_dec : EqDecision TaskSupport.
Proof. solve_decision. Defined.

(** What the goroutine writes when the handler failed, and the status after a result. *)
Definition handler_failed (err : error) (now : time) : TaskEntry → TaskEntry :=
  Update now Failed (error_text err).
Definition store_status (result : option CallToolResult) (now : time) : TaskEntry → TaskEntry :=
  if IsResultError result then Update now Failed "tool returned error" else Update now Completed "completed".

Section Middleware.
Context {Ctx Req W : Type} `{!Cell W InMemoryManager}.
Variable now : W → time.
Variable fresh_id : W → string.
(** The task parameters of a request, [None] when absent, with their TTL. *)
Variable Params_Task : Req → option (option Z).
(** Starting the goroutine for an entry: it runs later. *)
Variable spawn : nat → ToolHandlerFunc Ctx Req W → Req → W → W.

Definition HasTaskParams (req : Req) : bool := bool_decide (is_Some (Params_Task req)).
Definition ExtractTaskTTL (req : Req) : Z :=
  match Params_Task req with Some (Some ttl) => ttl | _ => 0 end.

Definition TaskMiddleware (support : TaskSupport) : Middleware Ctx Req W :=
  λ name td next ctx request w,
    match support with
    | TaskSupportForbidden | TaskSupportEmpty => next ctx request w
    | _ =>
        if negb (HasTaskParams request) then
          if bool_decide (support = TaskSupportRequired)
          then (Returns (Some (MakeErrorResult
                  ("[INVALID_PARAM] tool " +:+ name +:+ " requires task augmentation"))) None, w)
          else next ctx request w
        else
          let ttlMs := ExtractTaskTTL request in
          let ttl := if 0 <? ttlMs then wrap64 (ttlMs * Millisecond) else 0 in
          let '(p, m) := Create (fresh_id w) ttl (now w) (peek w) in
          let w1 := poke (update_entry p (set_cancel true false) m) w in
          let w2 := spawn p next request w1 in
          (Returns (Some (MakeTextResult ("Task created: " +:+ TaskId (Task (entries (peek w2) p))))) None, w2)
    end.
End Middleware.

(** ** The interleavings

    [pending] are the tasks created and not yet started, [running] the goroutines whose
    handler has not returned, [stored] those that have stored a result and not yet the
    status, [cancelling] the cancellations that have looked at their entry and not yet
    updated it. *)
Record TaskSystem := {
  mgr : InMemoryManager;
  pending : list nat;
  running : list nat;
  stored : list (nat * option CallToolResult);
  cancelling : list nat
}.

Inductive task_step : TaskSystem → TaskSystem → Prop :=
| ts_create m a r s c id ttl now p m' :
    Create id ttl now m = (p, m') →
    task_step {| mgr := m; pending := a; running := r; stored := s; cancelling := c |}
              {| mgr := m'; pending := p :: a; running := r; stored := s; cancelling := c |}
| ts_spawn m a r s c p a' :
    a ≡ₚ p :: a' →
    task_step {| mgr := m; pending := a; running := r; stored := s; cancelling := c |}
              {| mgr := update_entry p (λ e, set_cancel true (cancelled e) e) m; pending := a';
                 running := p :: r; stored := s; cancelling := c |}
| ts_fail m a r s c p r' now err :
    r ≡ₚ p :: r' →
    task_step {| mgr := m; pending := a; running := r; stored := s; cancelling := c |}
              {| mgr := update_entry p (handler_failed err now) m; pending := a; running := r';
                 stored := s; cancelling := c |}
| ts_store m a r s c p r' result :
    r ≡ₚ p :: r' →
    task_step {| mgr := m; pending := a; running := r; stored := s; cancelling := c |}
              {| mgr := update_entry p (SetResult result) m; pending := a; running := r';
                 stored := (p, result) :: s; cancelling := c |}
| ts_status m a r s c p result s' now :
    s ≡ₚ (p, result) :: s' →
    task_step {| mgr := m; pending := a; running := r; stored := s; cancelling := c |}
              {| mgr := update_entry p (store_status result now) m; pending := a; running := r; stored := s';
                 cancelling := c |}
| ts_look m a r s c id p :
    cancel_look id m = inr p →
    task_step {| mgr := m; pending := a; running := r; stored := s; cancelling := c |}
              {| mgr := m; pending := a; running := r; stored := s; cancelling := p :: c |}
| ts_cancel m a r s c p c' now :
    c ≡ₚ p :: c' →
    task_step {| mgr := m; pending := a; running := r; stored := s; cancelling := c |}
              {| mgr := update_entry p (cancel_do now) m; pending := a; running := r; stored := s;
                 cancelling := c' |}
| ts_cleanup m a r s c now :
    task_step {| mgr := m; pending := a; running := r; stored := s; cancelling := c |}
              {| mgr := Cleanup now m; pending := a; running := r; stored := s; cancelling := c |}.

Definition task_start (objects : nat → TaskEntry) : TaskSystem := {|
  mgr := {| tasks := ∅; entries := objects; next_entry := 0 |};
  pending := []; running := []; stored := []; cancelling := [] |}.

(** The tasks whose handler has not stored its outcome, and those still owned by a
    goroutine. *)
Definition unanswered (s : TaskSystem) : list nat := pending s ++ running s.
Definition owned (s : TaskSystem) : list nat := unanswered s ++ (stored s).*1.
Definition open_status (e : TaskEntry) : Prop := Status (Task e) = Working ∨ Status (Task e) = Cancelled.

(** What an entry looks like, by the state of its goroutine. *)
Definition entry_ok (s : TaskSystem) (p : nat) (e : TaskEntry) : Prop :=
  (p ∈ unanswered s → open_status e ∧ Result e = None) ∧
  (∀ r, (p, r) ∈ stored s → open_status e ∧ Result e = r) ∧
  (p ∉ owned s → IsTerminal (Task e) = true) ∧
  (Status (Task e) = Completed → IsResultError (Result e) = false).

Definition task_inv (s : TaskSystem) : Prop :=
  NoDup (owned s) ∧
  (∀ p, p ∈ owned s ++ cancelling s → (p < next_entry (mgr s))%nat) ∧
  (∀ id p, tasks (mgr s) !! id = Some p → (p < next_entry (mgr s))%nat) ∧
  ∀ p, (p < next_entry (mgr s))%nat → entry_ok s p (entries (mgr s) p).

Lemma entries_update p q f m :
  entries (update_entry p f m) q = if decide (q = p) then f (entries m q) else entries m q.
Proof. done. Qed.

Lemma cancel_look_in id m p : cancel_look id m = inr p → tasks m !! id = Some p.
Proof.
  unfold cancel_look. destruct (tasks m !! id) as [q|]; [|discriminate].
  destruct (IsTerminal _); [discriminate|]. intros H. injection H as ->. done.
Qed.

(** A change of one entry keeps the invariant when the entry fits its new place and the
    others keep theirs. *)
Lemma task_inv_update s s' p f :
  task_inv s →
  mgr s' = update_entry p f (mgr s) →
  owned s' ⊆ owned s → cancelling s' ⊆ cancelling s → NoDup (owned s') →
  (∀ q, q ≠ p → (q ∈ unanswered s' → q ∈ unanswered s) ∧
                (∀ r, (q, r) ∈ stored s' → (q, r) ∈ stored s) ∧ (q ∈ owned s → q ∈ owned s')) →
  ((p < next_entry (mgr s))%nat → entry_ok s p (entries (mgr s) p) → entry_ok s' p (f (entries (mgr s) p))) →
  task_inv s'.
Proof.
  intros (Hnd & Hlt & Hmap & Hok) Hm Hsub Hc Hnd' Hothers Hp.
  unfold task_inv. rewrite Hm. cbn [next_entry tasks update_entry].
  split; [done|split; [|split; [done|]]].
  - intros q Hq. apply Hlt. set_solver.
  - intros q Hq. rewrite entries_update. case_decide as E; [subst; by apply Hp, Hok|].
    destruct (Hok q Hq) as (A & B & C & D), (Hothers q E) as (X & Y & Z).
    split; [|split; [|split]]; eauto.
Qed.


Ltac own := unfold owned, unanswered in *; cbn [pending running stored cancelling mgr fmap list_fmap fst] in *.

Lemma perm_fail {A} (p : A) a r s : (a ++ p :: r) ++ s ≡ₚ p :: (a ++ r) ++ s.
Proof. solve_Permutation. Qed.

Lemma task_step_inv s s' : task_inv s → task_step s s' → task_inv s'.
Proof.
  intros Hinv Hs. pose proof Hinv as (Hnd & Hlt & Hmap & Hok).
  destruct Hs as [m a r s c id ttl now p m' Hcr|m a r s c p a' Hp|m a r s c p r' now err Hp|
    m a r s c p r' result Hp|m a r s c p result s' now Hp|m a r s c id p Hl|m a r s c p c' now Hp|m a r s c now].
  - unfold Create in Hcr. simplify_eq/=.
    assert (Hfresh : next_entry m ∉ (a ++ r) ++ s.*1).
    { intros Hin. specialize (Hlt (next_entry m)). own. rewrite elem_of_app in Hlt. lia || (enough (next_entry m < next_entry m)%nat by lia; auto). }
    split; [|split; [|split]]; own.
    + by apply NoDup_cons.
    + intros q [->|Hq]%elem_of_cons; [simpl; lia|]. simpl. specialize (Hlt q Hq). lia.
    + intros id' q Hq. cbn [tasks] in Hq. simpl. apply lookup_insert_Some in Hq as [[_ <-]|[_ Hq]]; [lia|].
      specialize (Hmap _ _ Hq). lia.
    + intros q Hq. cbn [mgr next_entry entries] in *. case_decide as E.
      * subst q. rewrite elem_of_app, elem_of_app in Hfresh.
        split; [by split; [left|]|split; [|split]]; cbn.
        -- intros res Hin. exfalso. apply Hfresh. right. by apply (list_elem_of_fmap_2 fst) in Hin.
        -- own. intros []. set_solver.
        -- done.
      * destruct (Hok q) as (A & B & C & D); [lia|]. own.
        split; [|split; [|split]]; try done; intros Hin; [apply A|apply C]; set_solver.
  - apply (task_inv_update _ _ p (λ e, set_cancel true (cancelled e) e) Hinv); try done; own.
    + rewrite Hp. set_solver.
    + assert (E : (a' ++ p :: r) ++ s.*1 ≡ₚ (a ++ r) ++ s.*1) by (rewrite Hp; solve_Permutation).
      by rewrite E.
    + intros q Hq. rewrite Hp. set_solver.
    + intros _ (A & B & C & D). own. rewrite Hp in A, C.
      split; [|split; [|split]]; cbn; try done; intros; [apply A|apply C]; set_solver.
  - apply (task_inv_update _ _ p (handler_failed err now) Hinv); try done; own.
    + rewrite Hp. set_solver.
    + rewrite Hp, perm_fail in Hnd. by apply NoDup_cons in Hnd as [_ Hnd].
    + intros q Hq. rewrite Hp. set_solver.
    + intros _ _. rewrite Hp, perm_fail in Hnd. apply NoDup_cons in Hnd as [Hn _]. own.
      rewrite elem_of_app in Hn. split; [|split; [|split]]; cbn; try done.
      * intros Hin. exfalso. apply Hn. by left.
      * intros res Hin. exfalso. apply Hn. right. by apply (list_elem_of_fmap_2 fst) in Hin.
  - apply (task_inv_update _ _ p (SetResult result) Hinv); try done; own.
    + rewrite Hp. set_solver.
    + rewrite Hp, perm_fail in Hnd. cbn. by rewrite <- Permutation_middle.
    + intros q Hq. rewrite Hp. set_solver.
    + intros _ (A & B & C & D). rewrite Hp, perm_fail in Hnd. apply NoDup_cons in Hnd as [Hn _]. own.
      rewrite elem_of_app in Hn. rewrite Hp in A. destruct A as [A _]; [set_solver|].
      split; [|split; [|split]]; cbn.
      * intros Hin. exfalso. apply Hn. by left.
      * intros res [E|Hin]%elem_of_cons; [by simplify_eq|].
        exfalso. apply Hn. right. by apply (list_elem_of_fmap_2 fst) in Hin.
      * intros []. set_solver.
      * intros E. destruct A as [A|A]; congruence.
  - apply (task_inv_update _ _ p (store_status result now) Hinv); try done; own.
    + rewrite Hp. set_solver.
    + rewrite Hp in Hnd. cbn in Hnd. rewrite <- Permutation_middle in Hnd.
      by apply NoDup_cons in Hnd as [_ Hnd].
    + intros q Hq. split; [done|split; [intros res Hin; rewrite Hp; by right|]].
      rewrite Hp. cbn. set_solver.
    + intros _ (A & B & C & D). rewrite Hp in Hnd. cbn in Hnd. rewrite <- Permutation_middle in Hnd.
      apply NoDup_cons in Hnd as [Hn _]. rewrite elem_of_app in Hn.
      destruct (B result) as [_ Hr]; [own; rewrite Hp; left|].
      split; [|split; [|split]]; own.
      * intros Hin. exfalso. apply Hn. by left.
      * intros res Hin. exfalso. apply Hn. right. by apply (list_elem_of_fmap_2 fst) in Hin.
      * intros _. unfold store_status. by destruct (IsResultError result).
      * unfold store_status. destruct (IsResultError result) eqn:E; cbn; [done|]. by rewrite Hr, E.
  - apply cancel_look_in in Hl. split; [done|split; [|split; [done|]]]; own; cbn.
    + intros q. rewrite elem_of_app, elem_of_cons. intros [Hq|[->|Hq]]; [| by apply (Hmap id) |];
        apply Hlt; set_solver.
    + intros q Hq. by apply Hok.
  - apply (task_inv_update _ _ p (cancel_do now) Hinv); try done; own.
    + rewrite Hp. set_solver.
    + intros _ (A & B & C & D). split; [|split; [|split]]; cbn; try done; intros.
      * split; [by right|]. by apply A.
      * split; [by right|]. by apply B.
  - split; [done|split; [done|split; [|done]]]; cbn.
    intros id p Hp. apply map_lookup_filter_Some in Hp as [Hp _]. eauto.
Qed.

Lemma task_start_inv objects : task_inv (task_start objects).
Proof.
  split; [constructor|split; [|split]]; cbn.
  - intros p Hp. by apply elem_of_nil in Hp.
  - intros id p Hp. by apply lookup_empty_Some in Hp.
  - intros p Hp. lia.
Qed.

Lemma tasks_reach_inv s s' : task_inv s → rtc task_step s s' → task_inv s'.
Proof. intros Hi Hs. induction Hs; [done|]. eauto using task_step_inv. Qed.

(** C10.  Tasks stay well formed under every interleaving of creations, handlers,
    cancellations and clean-ups: each task belongs to at most one goroutine; while its
    handler runs it is working or cancelled and has no result; once its goroutine is
    gone its status is terminal; and it reads as completed only after the handler has
    answered, with a result that is not an error. *)
Theorem tasks_well_formed (objects : nat → TaskEntry) (s : TaskSystem) :
  rtc task_step (task_start objects) s →
  NoDup (owned s) ∧
  ∀ id p, tasks (mgr s) !! id = Some p →
    let e := entries (mgr s) p in
    (p ∈ unanswered s → open_status e ∧ Result e = None) ∧
    (p ∉ owned s → IsTerminal (Task e) = true) ∧
    (IsTerminal (Task e) = false → p ∈ owned s ∧ Status (Task e) = Working) ∧
    (Status (Task e) = Completed → p ∉ unanswered s ∧ IsResultError (Result e) = false).
Proof.
  intros (Hnd & Hlt & Hmap & Hok)%tasks_reach_inv; [|by apply task_start_inv].
  split; [done|]. intros id p Hp. destruct (Hok p (Hmap _ _ Hp)) as (A & B & C & D).
  split; [done|split; [done|split]].
  - intros E. assert (Ho : p ∈ owned s).
    { destruct (decide (p ∈ owned s)) as [|Hn]; [done|]. rewrite C in E; done. }
    split; [done|]. unfold owned in Ho. apply elem_of_app in Ho as [[[Ho|Ho] _]%A|Ho]; [done| |].
    + by unfold IsTerminal in E; rewrite Ho in E.
    + apply list_elem_of_fmap in Ho as ([q res] & -> & Ho). apply B in Ho as [[Ho|Ho] _]; [done|].
      by unfold IsTerminal in E; rewrite Ho in E.
  - intros E. split; [|by apply D]. intros [[Ho|Ho] _]%A; congruence.
Qed.

Definition no_entry : TaskEntry := new_entry "" 0 0.
Definition steps_to_completed (objects : nat → TaskEntry) : InMemoryManager :=
  let '(_, m) := Create "task_1" 1 5 (mgr (task_start objects)) in
  update_entry 0 (store_status None 7)
    (update_entry 0 (SetResult None) (update_entry 0 (λ e, set_cancel true (cancelled e) e) m)).

Lemma tasks_well_formed_witness :
  tasks (steps_to_completed (λ _, no_entry)) !! "task_1" = Some 0%nat ∧
  Status (Task (entries (steps_to_completed (λ _, no_entry)) 0)) = Completed ∧
  IsResultError (Result (entries (steps_to_completed (λ _, no_entry)) 0)) = false.
Proof.
  assert (Hs : rtc task_step (task_start (λ _, no_entry))
    {| mgr := steps_to_completed (λ _, no_entry); pending := []; running := []; stored := []; cancelling := [] |}).
  { eapply rtc_l; [by eapply (ts_create _ _ _ _ _ "task_1" 1 5)|].
    eapply rtc_l; [by apply ts_spawn|]. eapply rtc_l; [by apply (ts_store _ _ _ _ _ 0 [] None)|].
    eapply rtc_l; [by apply (ts_status _ _ _ _ _ 0 None [] 7)|]. apply rtc_refl. }
  destruct (tasks_well_formed _ _ Hs) as [_ H].
  split; [done|split; [done|]]. by apply (H "task_1" 0%nat).
Defined.

(** A cancellation does not stop the handler's last word: the status it wrote is
    overwritten when the handler returns, and a task that was reported cancelled ends
    completed. *)
Lemma cancelled_task_completes :
  ∃ s s' objects, rtc task_step (task_start objects) s ∧ rtc task_step s s' ∧
    Status (Task (entries (mgr s) 0)) = Cancelled ∧ cancelled (entries (mgr s) 0) = true ∧
    Status (Task (entries (mgr s') 0)) = Completed.
Proof.
  eexists _, _, (λ _, no_entry). split_and!.
  - eapply rtc_l; [by eapply (ts_create _ _ _ _ _ "task_1" 1 5)|].
    eapply rtc_l; [by apply ts_spawn|]. eapply rtc_l; [by apply (ts_look _ _ _ _ _ "task_1" 0)|].
    eapply rtc_l; [by apply (ts_cancel _ _ _ _ _ 0 [] 6)|]. apply rtc_refl.
  - eapply rtc_l; [by apply (ts_store _ _ _ _ _ 0 [] None)|].
    eapply rtc_l; [by apply (ts_status _ _ _ _ _ 0 None [] 7)|]. apply rtc_refl.
  - done.
  - done.
  - done.
Qed.

(** A TTL of 2^63 nanoseconds or more wraps to a negative duration: the task has expired
    when it is created. *)
Lemma huge_ttl_expires_at_once :
  let now := 63000000000 * Second in
  let '(p, m) := Create "task_1" (wrap64 (9223372036855 * Millisecond)) now
    {| tasks := ∅; entries := λ _, no_entry; next_entry := 0 |} in
  Get "task_1" now m = None.
Proof. vm_compute. done. Qed.

Lemma not_expired_within id ttl now later :
  later <= now + (if ttl =? 0 then DefaultTTL else ttl) → IsExpired later (new_entry id ttl now) = false.
Proof.
  intros H. unfold IsExpired. destruct (time_is_zero _); [done|].
  unfold time_after, time_add, new_entry. cbn [ExpiresAt]. apply Z.ltb_ge. exact H.
Qed.

Lemma set_cancel_expired now fn called e : IsExpired now (set_cancel fn called e) = IsExpired now e.
Proof. done. Qed.

(** ** The middleware's contract *)
Section Contract.
Context {Ctx Req W : Type} `{!Cell W InMemoryManager} `{!CellLaws W InMemoryManager}.
Variable now : W → time.
Variable fresh_id : W → string.
Variable Params_Task : Req → option (option Z).
Variable spawn : nat → ToolHandlerFunc Ctx Req W → Req → W → W.

Lemma ttl_bound ms start later :
  (if decide (0 < ms) then ms * Millisecond else DefaultTTL) < 2 ^ 63 →
  later <= start + (if decide (0 < ms) then ms * Millisecond else DefaultTTL) →
  later <= start + (if (if 0 <? ms then wrap64 (ms * Millisecond) else 0) =? 0 then DefaultTTL
                    else if 0 <? ms then wrap64 (ms * Millisecond) else 0).
Proof.
  destruct (decide (0 < ms)) as [Hm|Hm].
  - intros Hb Hl. rewrite (proj2 (Z.ltb_lt 0 ms) Hm). unfold Millisecond in *.
    rewrite wrap64_id by (unfold in64, min_int64, max_int64; lia).
    rewrite (proj2 (Z.eqb_neq _ 0)) by lia. done.
  - intros _ Hl. rewrite (proj2 (Z.ltb_ge 0 ms)) by lia. done.
Qed.

(** A tool that does not support tasks is called directly, as is an optional one
    without task parameters; a required one is then refused without running.  With
    task parameters the caller gets an answer at once that names the new task: the
    handler has only been handed to a goroutine, the entry is registered as working
    with a cancel function, every other entry is untouched, and when the requested
    lifetime is within what a duration can hold the task can be looked up until
    that lifetime has passed. *)
Theorem task_middleware_contract (support : TaskSupport) (name : string)
    (td : ToolDefinition (ToolHandlerFunc Ctx Req W)) (next : ToolHandlerFunc Ctx Req W)
    (ctx : Ctx) (request : Req) (w : W) :
  (∀ p w', peek (spawn p next request w') = (peek w' : InMemoryManager)) →
  let reply := TaskMiddleware now fresh_id Params_Task spawn support name td next ctx request w in
  if decide (support ∈ [TaskSupportForbidden; TaskSupportEmpty]) then reply = next ctx request w
  else match Params_Task request with
  | None =>
      if decide (support = TaskSupportRequired)
      then ∃ text, reply = (Returns (Some (MakeErrorResult ("[INVALID_PARAM]" +:+ text))) None, w)
      else reply = next ctx request w
  | Some ttl =>
      let id := fresh_id w in
      let p := next_entry (peek w) in
      let m : InMemoryManager := peek reply.2 in
      let life := if decide (0 < default 0 ttl) then default 0 ttl * Millisecond else DefaultTTL in
      reply.1 = Returns (Some (MakeTextResult ("Task created: " +:+ id))) None ∧
      reply.2 = spawn p next request (poke m w) ∧
      tasks m = <[id := p]> (tasks (peek w)) ∧
      (∀ q, q ≠ p → entries m q = entries (peek w) q) ∧
      Status (Task (entries m p)) = Working ∧ Result (entries m p) = None ∧ CancelFn (entries m p) = true ∧
      (life < 2 ^ 63 → ∀ later, later <= now w + life → Get id later m = Some p)
  end.
Proof.
  intros Hspawn. cbn zeta. unfold TaskMiddleware.
  destruct (decide (support ∈ _)) as [Hs|Hs]; [set_unfold; destruct Hs as [->|[->|[]]]; done|].
  assert (support = TaskSupportOptional ∨ support = TaskSupportRequired) as Hs'.
  { destruct support; set_solver. }
  unfold HasTaskParams, ExtractTaskTTL. destruct (Params_Task request) as [ttl|] eqn:Ep.
  - assert (E : ∀ q, entries (update_entry (next_entry (peek w)) (set_cancel true false)
        (Create (fresh_id w) (if 0 <? default 0 ttl then wrap64 (default 0 ttl * Millisecond) else 0)
           (now w) (peek w)).2) q =
        if decide (q = next_entry (peek w))
        then set_cancel true false (new_entry (fresh_id w)
               (if 0 <? default 0 ttl then wrap64 (default 0 ttl * Millisecond) else 0) (now w))
        else entries (peek w) q).
    { intros q. cbn. by destruct (decide _). }
    assert (match ttl with Some ttl => ttl | None => 0 end = default 0 ttl) as Et by (by destruct ttl).
    destruct Hs' as [-> | ->]; cbn -[wrap64 poke peek update_entry Create]; unfold id in *; rewrite Et;
      (destruct (Create _ _ _ _) as [p m] eqn:Ec; pose proof Ec as Ep2; unfold Create in Ep2; simplify_eq;
       cbn [snd fst] in *; rewrite Hspawn, peek_poke, !E, (decide_True (P := _ = _)) by done;
       split; [done|split; [done|split; [done|split]]];
       [intros q Hq; by rewrite E, decide_False|];
       split; [done|split; [done|split; [done|]]];
       intros Hlife later Hl; unfold Get; cbn [tasks update_entry];
       rewrite lookup_insert_eq; cbn [mbind option_bind]; rewrite E, (decide_True (P := _ = _)) by done;
       by rewrite set_cancel_expired, not_expired_within by (by apply ttl_bound)).
  - destruct Hs' as [-> | ->]; cbn; [done|]. eexists. done.
Qed.
End Contract.

Definition echo_tool : ToolHandlerFunc unit (option (option Z)) InMemoryManager :=
  λ _ _ w, (Returns (Some (MakeTextResult "ran")) None, w).

Lemma task_middleware_contract_witness :
  Get "task_1" (5 + 2000 * Millisecond)
    (TaskMiddleware (λ _, 5) (λ _, "task_1") id (λ _ _ _ w, w) TaskSupportRequired "slow"
       (plain_definition echo_tool plain_tool) echo_tool tt (Some (Some 2000))
       {| tasks := ∅; entries := λ _, no_entry; next_entry := 0 |}).2 = Some 0%nat.
Proof.
  destruct (task_middleware_contract (λ _, 5) (λ _, "task_1") id (λ _ _ _ w, w) TaskSupportRequired "slow"
    (plain_definition echo_tool plain_tool) echo_tool tt (Some (Some 2000))
    {| tasks := ∅; entries := λ _, no_entry; next_entry := 0 |}) as (_ & _ & _ & _ & _ & _ & _ & Hlife).
  - done.
  - by apply Hlife.
Defined.
