(* ===== verification/Approval.v ===== *)
(** Human approval (src/hitools/approval.go, store.go): the approval store, the
    middleware that holds a call until a person has decided, and the store of pending
    human interactions. *)

From stdpp Require Import base tactics list gmap strings relations.
From Stdlib Require Import ZArith Lia.
From S2P Require Import Prelude Tool Truncate.

Local Open Scope Z_scope.

(** ** Requests and responses *)
Inductive Decision := Approved | Denied | Modified | DecisionOther (name : string).
#[export] Instance Decision_eq_dec : EqDecision Decision.
Proof. solve_decision. Defined.
Definition decision_text (d : Decision) : string :=
  match d with
  | Approved => "approved" | Denied => "denied" | Modified => "modified" | DecisionOther name => name
  end.

Inductive ApprovalUrgency :=
  | ApprovalUrgencyLow | ApprovalUrgencyNormal | ApprovalUrgencyHigh | ApprovalUrgencyCritical
  | ApprovalUrgencyOther (name : string).
#[export] Instance ApprovalUrgency_eq_dec : EqDecision ApprovalUrgency.
Proof. solve_decision. Defined.

Record ApprovalOption := { Label : string; opt_Value : string; opt_Description : string; IsDefault : bool }.

Record ApprovalRequest := {
  ID : string;
  ToolName : string;
  Action : string;
  Context_ : string;
  Urgency : ApprovalUrgency;
  Options : list ApprovalOption;
  ExpiresAt : time;
  CreatedAt : time
}.

Record ApprovalResponse := {
  RequestID : string;
  Decision_ : Decision;
  Value : string;
  Comment : string;
  Timestamp : time
}.

(** ** The store: what the middleware asks of it, and the in-memory one *)
Class ApprovalStore (W : Type) := {
  Submit : ApprovalRequest → W → option error * W;
  GetResponse : string → W → (error + option ApprovalResponse) * W
}.

(** What a store promises: the answer it reports is the one on record, and a request it
    accepts has none yet.  [answered] is that record. *)
Class LawfulApprovalStore (W : Type) `{!ApprovalStore W} := {
  answered : string → W → option ApprovalResponse;
  store_ok : W → Prop;
  submit_fresh req w w' : store_ok w → Submit req w = (None, w') → answered (ID req) w' = None;
  get_response_true id w r w' : GetResponse id w = (inr r, w') → answered id w' = r
}.

Record InMemoryApprovalStore := {
  requests : gmap string ApprovalRequest;
  responses : gmap string ApprovalResponse
}.
Definition NewInMemoryApprovalStore : InMemoryApprovalStore := {| requests := ∅; responses := ∅ |}.

Definition Mem_Submit (req : ApprovalRequest) (s : InMemoryApprovalStore) : option error * InMemoryApprovalStore :=
  match requests s !! ID req with
  | Some _ => (Some (Err ("hitools: approval request " +:+ quote (ID req) +:+ " already exists")), s)
  | None => (None, {| requests := <[ID req := req]> (requests s); responses := responses s |})
  end.

Definition Respond (resp : ApprovalResponse) (s : InMemoryApprovalStore) : option error * InMemoryApprovalStore :=
  match requests s !! RequestID resp with
  | None => (Some (Err ("hitools: approval request " +:+ quote (RequestID resp) +:+ " not found")), s)
  | Some _ =>
      match responses s !! RequestID resp with
      | Some _ => (Some (Err ("hitools: approval request " +:+ quote (RequestID resp) +:+ " already resolved")), s)
      | None => (None, {| requests := requests s; responses := <[RequestID resp := resp]> (responses s) |})
      end
  end.

Definition Get (id : string) (s : InMemoryApprovalStore) : option ApprovalRequest := requests s !! id.
Definition Mem_GetResponse (id : string) (s : InMemoryApprovalStore) : option ApprovalResponse :=
  responses s !! id.
(** As a map: Go lists its values in any order. *)
Definition Pending (s : InMemoryApprovalStore) : gmap string ApprovalRequest :=
  filter (λ p : string * ApprovalRequest, responses s !! p.1 = None) (requests s).

Inductive store_step : InMemoryApprovalStore → InMemoryApprovalStore → Prop :=
| ss_submit req s : store_step s (Mem_Submit req s).2
| ss_respond resp s : store_step s (Respond resp s).2.

(** Only submitted requests have an answer. *)
Definition mem_ok (s : InMemoryApprovalStore) : Prop :=
  ∀ id, is_Some (responses s !! id) → is_Some (requests s !! id).

#[export] Instance mem_store {W} `{!Cell W InMemoryApprovalStore} : ApprovalStore W := {|
  Submit req w := let '(err, s) := Mem_Submit req (peek w) in (err, poke s w);
  GetResponse id w := (inr (Mem_GetResponse id (peek w)), w) |}.

(** ** The middleware *)
Definition min_interval : duration := 50 * Millisecond.
Definition maxInterval : duration := 500 * Millisecond.
Definition backoff (interval : duration) : duration :=
  if interval <? maxInterval
  then let interval := interval * 2 in if maxInterval <? interval then maxInterval else interval
  else interval.

Section Middleware.
Context {Ctx Req W : Type} `{!ApprovalStore W}.

Record ApprovalMiddlewareConfig := {
  ShouldApprove : option (string → ToolDefinition (ToolHandlerFunc Ctx Req W) → bool);
  DefaultUrgency : option ApprovalUrgency;
  Timeout : duration;
  OnRequest : option (Ctx → ApprovalRequest → W → W);
  OnResponse : option (Ctx → ApprovalRequest → ApprovalResponse → W → W)
}.

Variable now : W → time.
Variable generateApprovalID : W → (error + string) * W.
(** The arguments of a request and their [%v] rendering. *)
Variable ExtractArguments : Req → gmap string json.
Variable render_args : gmap string json → string.
(** The [select] of one poll: the world after it, and whether the context, with the
    deadline if there is one, ended before the interval was over. *)
Variable elapse : Ctx → option time → duration → W → bool * W.

Definition formatToolContext (td : ToolDefinition (ToolHandlerFunc Ctx Req W)) (req : Req) : string :=
  let desc := if bool_decide (Description (td_Tool td) = "") then Name (td_Tool td) else Description (td_Tool td) in
  let args := ExtractArguments req in
  "Tool: " +:+ Name (td_Tool td) +:+ newline +:+ "Description: " +:+ desc +:+
  (if bool_decide (args = ∅) then "" else newline +:+ "Arguments: " +:+ render_args args).

(** The polling loop: [None] only when the fuel runs out. *)
Fixpoint poll (fuel : nat) (ctx : Ctx) (deadline : option time) (interval : duration) (id : string)
    (w : W) : option ((error + ApprovalResponse) * W) :=
  match fuel with
  | O => None
  | S fuel =>
      match GetResponse id w with
      | (inl err, w) => Some (inl (ErrWrap "failed to check approval status: " err ""), w)
      | (inr (Some resp), w) => Some (inr resp, w)
      | (inr None, w) =>
          match elapse ctx deadline interval w with
          | (true, w) =>
              Some (inl (Err ("approval request " +:+ quote id +:+ " timed out or was cancelled")), w)
          | (false, w) => poll fuel ctx deadline (backoff interval) id w
          end
      end
  end.

Definition waitForApproval (fuel : nat) (ctx : Ctx) (id : string) (timeout : duration) (w : W) :=
  poll fuel ctx (if 0 <? timeout then Some (time_add (now w) timeout) else None) min_interval id w.

Definition refuse (tag text : string) : outcome :=
  Returns (Some (MakeErrorResult ("[" +:+ tag +:+ "] " +:+ text))) None.

Definition ApprovalMiddleware (config : ApprovalMiddlewareConfig) (fuel : nat) (name : string)
    (td : ToolDefinition (ToolHandlerFunc Ctx Req W)) (next : ToolHandlerFunc Ctx Req W)
    (ctx : Ctx) (req : Req) (w : W) : option (outcome * W) :=
  if negb (match ShouldApprove config with Some f => f name td | None => false end) then Some (next ctx req w) else
  match generateApprovalID w with
  | (inl err, w) =>
      Some (refuse "APPROVAL_ERROR" ("failed to generate request ID: " +:+ error_text err), w)
  | (inr id, w) =>
      let approvalReq := {|
        ID := id; ToolName := name; Action := "Execute tool " +:+ quote name;
        Context_ := formatToolContext td req;
        Urgency := default ApprovalUrgencyNormal (DefaultUrgency config); Options := [];
        ExpiresAt := if 0 <? Timeout config then time_add (now w) (Timeout config) else time_zero;
        CreatedAt := now w |} in
      match Submit approvalReq w with
      | (Some err, w) => Some (refuse "APPROVAL_ERROR" ("failed to submit request: " +:+ error_text err), w)
      | (None, w) =>
          let w := match OnRequest config with Some f => f ctx approvalReq w | None => w end in
          match waitForApproval fuel ctx id (Timeout config) w with
          | None => None
          | Some (inl err, w) => Some (refuse "APPROVAL_TIMEOUT" (error_text err), w)
          | Some (inr resp, w) =>
              let w := match OnResponse config with Some f => f ctx approvalReq resp w | None => w end in
              match Decision_ resp with
              | Approved | Modified => Some (next ctx req w)
              | Denied =>
                  Some (refuse "APPROVAL_DENIED"
                    (if bool_decide (Comment resp ≠ "") then Comment resp else "tool call denied by human"), w)
              | d => Some (refuse "APPROVAL_ERROR" ("unknown decision: " +:+ quote (decision_text d)), w)
              end
          end
      end
  end.
End Middleware.
Arguments ApprovalMiddlewareConfig : clear implicits.

(** ** The in-memory store keeps its promises *)
#[export] Instance mem_store_lawful {W} `{!Cell W InMemoryApprovalStore} `{!CellLaws W InMemoryApprovalStore} :
  LawfulApprovalStore W.
Proof.
  refine {| answered id w := responses (peek w) !! id; store_ok w := mem_ok (peek w) |}.
  - intros req w w' Hok. cbn. unfold Mem_Submit.
    destruct (requests (peek w) !! ID req) eqn:E; intros H; simplify_eq.
    rewrite peek_poke. cbn. destruct (responses (peek w) !! ID req) eqn:E2; [|done].
    destruct (Hok (ID req)) as [x Hx]; [by eexists|]. congruence.
  - intros id w r w' H. cbn in H. by simplify_eq.
Defined.

Lemma store_step_ok s s' : mem_ok s → store_step s s' → mem_ok s'.
Proof.
  intros Hok Hs. destruct Hs as [req s|resp s].
  - unfold Mem_Submit. destruct (requests s !! ID req) eqn:E; [done|]. intros id Hid.
    destruct (decide (id = ID req)) as [->|]; cbn; [rewrite lookup_insert_eq; by eexists|].
    rewrite lookup_insert_ne by done. by apply Hok.
  - unfold Respond. destruct (requests s !! RequestID resp) eqn:E; [|done].
    destruct (responses s !! RequestID resp) eqn:E2; [done|]. intros id Hid. cbn in *.
    destruct (decide (id = RequestID resp)) as [->|]; [by eexists|].
    rewrite lookup_insert_ne in Hid by done. by apply Hok.
Qed.

Lemma store_reach_ok s s' : rtc store_step s s' → mem_ok s → mem_ok s'.
Proof. induction 1; eauto using store_step_ok. Qed.

Lemma store_step_grows s s' :
  store_step s s' → requests s ⊆ requests s' ∧ responses s ⊆ responses s'.
Proof.
  intros [req s0|resp s0].
  - unfold Mem_Submit. destruct (requests s0 !! ID req) eqn:E; [done|]. split; [by apply insert_subseteq|done].
  - unfold Respond. destruct (requests s0 !! RequestID resp) eqn:E; [|done].
    destruct (responses s0 !! RequestID resp) eqn:E2; [done|]. split; [done|by apply insert_subseteq].
Qed.

(** Whatever requests and answers arrive in whatever order, a request once accepted
    and an answer once recorded never change: only requests that were made have an
    answer, the pending list is exactly the requests without one, a second submission
    under the same identifier and a second answer are refused, and an answer is
    accepted exactly for a pending request, which it removes from the list. *)
Theorem first_answer_is_final (s s' : InMemoryApprovalStore) :
  rtc store_step NewInMemoryApprovalStore s → rtc store_step s s' →
  requests s ⊆ requests s' ∧ responses s ⊆ responses s' ∧
  (∀ id, is_Some (responses s' !! id) → is_Some (requests s' !! id)) ∧
  (∀ id req, Pending s' !! id = Some req ↔ requests s' !! id = Some req ∧ responses s' !! id = None) ∧
  (∀ req, (Mem_Submit req s').1 = None ↔ requests s' !! ID req = None) ∧
  ∀ resp, ((Respond resp s').1 = None ↔ is_Some (Pending s' !! RequestID resp)) ∧
          ((Respond resp s').1 = None → Pending (Respond resp s').2 = delete (RequestID resp) (Pending s')).
Proof.
  intros H0 Hs.
  assert (Hok : mem_ok s').
  { apply (store_reach_ok NewInMemoryApprovalStore); [by etrans|].
    intros id [x Hx]. cbn in Hx. by rewrite lookup_empty in Hx. }
  assert (Hgrow : requests s ⊆ requests s' ∧ responses s ⊆ responses s').
  { clear H0 Hok. induction Hs as [|a b c [? ?]%store_step_grows _ [? ?]]; [done|]. split; by etrans. }
  destruct Hgrow. split; [done|split; [done|split; [done|split; [|split]]]].
  - intros id req. unfold Pending. rewrite map_lookup_filter_Some. done.
  - intros req. unfold Mem_Submit. by destruct (requests s' !! ID req).
  - intros resp. unfold Respond, Pending, is_Some. setoid_rewrite map_lookup_filter_Some. cbn.
    destruct (requests s' !! RequestID resp) as [req|] eqn:E;
      [|split; [split; [done|by intros (x & ? & _)]|done]].
    destruct (responses s' !! RequestID resp) as [r|] eqn:E2.
    { split; [split; [done|by intros (x & _ & ?)]|done]. }
    split; [split; [by exists req|done]|]. intros _. cbn. apply map_eq. intros id.
    destruct (decide (id = RequestID resp)) as [->|Hne].
    + rewrite lookup_delete_eq. apply map_lookup_filter_None_2. right. cbn.
      intros x _. by rewrite lookup_insert_eq.
    + rewrite lookup_delete_ne by done. apply option_eq. intros x.
      rewrite !map_lookup_filter_Some. cbn. by rewrite lookup_insert_ne by done.
Qed.

Definition deploy_request : ApprovalRequest := {|
  ID := "apr-1"; ToolName := "deploy"; Action := ""; Context_ := ""; Urgency := ApprovalUrgencyNormal;
  Options := []; ExpiresAt := 100; CreatedAt := 0 |}.
Definition answer (d : Decision) (value : string) (at_ : time) : ApprovalResponse :=
  {| RequestID := "apr-1"; Decision_ := d; Value := value; Comment := ""; Timestamp := at_ |}.

Lemma first_answer_is_final_witness :
  let s := (Respond (answer Denied "" 5) (Mem_Submit deploy_request NewInMemoryApprovalStore).2).2 in
  (Respond (answer Approved "" 6) s).1 ≠ None.
Proof.
  set (s := (Respond (answer Denied "" 5) (Mem_Submit deploy_request NewInMemoryApprovalStore).2).2).
  intros s' E.
  destruct (first_answer_is_final s s) as (_ & _ & _ & _ & _ & H).
  - eapply rtc_l; [apply (ss_submit deploy_request)|].
    eapply rtc_l; [apply (ss_respond (answer Denied "" 5))|]. apply rtc_refl.
  - apply rtc_refl.
  - apply (H (answer Approved "" 6)) in E as [x Hx]. vm_compute in Hx. discriminate.
Defined.

(** Nothing ends a request: an answer after the deadline is recorded, and a request whose
    caller has given up stays in the pending list. *)
Lemma late_answer_is_accepted :
  let s := (Mem_Submit deploy_request NewInMemoryApprovalStore).2 in
  ExpiresAt deploy_request < 200 ∧ is_Some (Pending s !! "apr-1") ∧ (Respond (answer Approved "" 200) s).1 = None.
Proof. split_and!; [done|by eexists|done]. Qed.

(** ** The gate *)
Section Gate.
Context {Ctx Req W : Type} `{!ApprovalStore W} `{!LawfulApprovalStore W}.
Variable now : W → time.
Variable generateApprovalID : W → (error + string) * W.
Variable ExtractArguments : Req → gmap string json.
Variable render_args : gmap string json → string.
Variable elapse : Ctx → option time → duration → W → bool * W.

Local Notation middleware := (ApprovalMiddleware now generateApprovalID ExtractArguments render_args elapse).
Local Notation polling := (poll elapse).

Lemma poll_answer fuel ctx deadline interval id w resp w' :
  polling fuel ctx deadline interval id w = Some (inr resp, w') → answered id w' = Some resp.
Proof.
  revert interval w. induction fuel as [|fuel IH]; intros interval w H; [done|]. cbn [poll] in H.
  destruct (GetResponse id w) as [[err|[r|]] w1] eqn:E; simplify_eq.
  - by apply get_response_true in E.
  - destruct (elapse ctx deadline interval w1) as [[] w2]; [by simplify_eq|]. by eapply IH.
Qed.

(** Polls are 50, 100, 200, 400 and then 500 milliseconds apart. *)
Lemma backoff_bounds interval :
  min_interval <= interval <= maxInterval → min_interval <= backoff interval <= maxInterval.
Proof.
  unfold backoff, min_interval, maxInterval, Millisecond. intros H.
  destruct (Z.ltb_spec interval (500 * 1000000)); [|lia].
  destruct (Z.ltb_spec (500 * 1000000) (interval * 2)); lia.
Qed.

(** C15.  Behind the approval middleware a tool that needs approval runs only on the strength
    of an answer that approves it (or approves it with changes): one that is on record
    for the identifier of this very call, and that was given after the call asked for it
    (nothing was on record when the request was accepted).  In every other case (no
    identifier, a failing store, a denial, an unknown verdict, a time-out) the call is
    answered with an error result, and nothing depends on what the handler would have
    done.  A tool that needs no approval is called directly. *)
Theorem approval_gate (config : ApprovalMiddlewareConfig Ctx Req W) (fuel : nat) (name : string)
    (td : ToolDefinition (ToolHandlerFunc Ctx Req W)) (next : ToolHandlerFunc Ctx Req W)
    (ctx : Ctx) (req : Req) (w : W) (o : outcome) (w' : W) :
  store_ok (generateApprovalID w).2 →
  middleware config fuel name td next ctx req w = Some (o, w') →
  if match ShouldApprove config with Some f => f name td | None => false end then
    (∃ tag text, o = Returns (Some (MakeErrorResult ("[APPROVAL_" +:+ tag +:+ text))) None ∧
                 ∀ next', middleware config fuel name td next' ctx req w = Some (o, w')) ∨
    (∃ request resp w0 w1 w2 w3,
       generateApprovalID w = (inr (ID request), w0) ∧ Submit request w0 = (None, w1) ∧
       answered (ID request) w1 = None ∧ answered (ID request) w2 = Some resp ∧
       ToolName request = name ∧ Decision_ resp ∈ [Approved; Modified] ∧
       w3 = match OnResponse config with Some f => f ctx request resp w2 | None => w2 end ∧
       next ctx req w3 = (o, w'))
  else next ctx req w = (o, w').
Proof.
  intros Hok H. unfold ApprovalMiddleware in *.
  destruct (match ShouldApprove config with Some f => f name td | None => false end); cbn [negb] in *;
    [|by simplify_eq].
  destruct (generateApprovalID w) as [[err|id] w0] eqn:Eid; cbn [snd] in Hok; [left|].
  { unfold refuse in *. simplify_eq. eexists "ERROR] failed to generate request ID: ", _. done. }
  match type of H with context [Submit ?r w0] => set (request := r) in * end.
  destruct (Submit request w0) as [[err|] w1] eqn:Esub; [left|].
  { unfold refuse in *. simplify_eq. eexists "ERROR] failed to submit request: ", _. done. }
  match type of H with context [waitForApproval _ _ fuel ctx id ?t ?w] => set (w1' := w) in *; set (tmo := t) in * end.
  destruct (waitForApproval now elapse fuel ctx id tmo w1') as [[[err|resp] w2]|] eqn:Ew; [left| |done].
  { unfold refuse in *. simplify_eq. eexists "TIMEOUT] ", _. done. }
  destruct (Decision_ resp) eqn:Ed; [right|left|right|left].
  2: { unfold refuse in *. simplify_eq. eexists "DENIED] ", _. done. }
  3: { unfold refuse in *. simplify_eq. eexists "ERROR] unknown decision: ", _. done. }
  all: exists request, resp, w0, w1, w2; eexists; split_and!; try done; try (by simplify_eq).
  all: try (by apply (submit_fresh request w0)); try (by apply poll_answer in Ew); rewrite Ed; set_solver.
Qed.

(** A clock: waiting takes time, asking the store does not turn it back, and a context
    whose deadline has passed is done. *)
Section Clock.
Hypothesis elapse_deadline : ∀ ctx d interval w, d <= now w → (elapse ctx (Some d) interval w).1 = true.
Hypothesis elapse_takes : ∀ ctx deadline interval w w',
  elapse ctx deadline interval w = (false, w') → now w + interval <= now w'.
Hypothesis get_response_time : ∀ id w, now w <= now (GetResponse id w).2.

Lemma poll_ends fuel ctx deadline interval id w k :
  min_interval <= interval <= maxInterval → deadline - now w <= Z.of_nat k * min_interval → (k < fuel)%nat →
  ∃ r, polling fuel ctx (Some deadline) interval id w = Some r ∧
       ((∀ w, ∃ w', GetResponse id w = (inr None, w')) → ∃ err, r.1 = inl err).
Proof.
  revert fuel interval w. induction k as [|k IH]; intros fuel interval w Hi Hd Hf;
    (destruct fuel as [|fuel]; [lia|]); cbn [poll]; pose proof (get_response_time id w) as Ht;
    destruct (GetResponse id w) as [[err|[resp|]] w1] eqn:Eg; cbn [snd] in Ht.
  1, 4: eexists; split; [done|by eexists].
  1, 3: eexists; split; [done|]; intros Hn; destruct (Hn w); congruence.
  - pose proof (elapse_deadline ctx deadline interval w1) as He.
    destruct (elapse _ _ _ _) as [b w2]. cbn in He. rewrite He by lia. eexists; split; [done|by eexists].
  - destruct (elapse ctx (Some deadline) interval w1) as [[] w2] eqn:Ee;
      [eexists; split; [done|by eexists]|].
    apply elapse_takes in Ee. apply IH; [by apply backoff_bounds|lia|lia].
Qed.

(** With a timeout every call behind the approval middleware is answered: at most one
    poll per 50 milliseconds of it, and two more, decide.  When nobody answers the
    caller gets a time-out error, and an answer already on record at the first poll is
    taken whatever the clock says. *)
Theorem approval_wait_ends (config : ApprovalMiddlewareConfig Ctx Req W) (fuel : nat) (name : string)
    (td : ToolDefinition (ToolHandlerFunc Ctx Req W)) (next : ToolHandlerFunc Ctx Req W)
    (ctx : Ctx) (req : Req) (w : W) :
  0 < Timeout config →
  (Z.to_nat (Timeout config / min_interval) + 2 <= fuel)%nat →
  is_Some (middleware config fuel name td next ctx req w) ∧
  (∀ id, (∀ w, ∃ w', GetResponse id w = (inr None, w')) →
     ∃ err w', waitForApproval now elapse fuel ctx id (Timeout config) w = Some (inl err, w')) ∧
  (∀ id resp w', GetResponse id w = (inr (Some resp), w') →
     waitForApproval now elapse fuel ctx id (Timeout config) w = Some (inr resp, w')).
Proof.
  intros Ht Hf.
  assert (Hwait : ∀ id w, ∃ r, waitForApproval now elapse fuel ctx id (Timeout config) w = Some r ∧
    ((∀ w, ∃ w', GetResponse id w = (inr None, w')) → ∃ err, r.1 = inl err)).
  { intros id w0. unfold waitForApproval. rewrite (proj2 (Z.ltb_lt _ _) Ht).
    apply (poll_ends _ _ _ _ _ _ (S (Z.to_nat (Timeout config / min_interval)))); [done| |lia].
    unfold time_add. rewrite Nat2Z.inj_succ, Z2Nat.id by (apply Z.div_pos; [lia|done]).
    pose proof (Z.div_mod (Timeout config) min_interval). pose proof (Z.mod_pos_bound (Timeout config) min_interval).
    unfold min_interval, Millisecond in *. lia. }
  split; [|split].
  - unfold ApprovalMiddleware. destruct (negb _); [by eexists|].
    destruct (generateApprovalID w) as [[err|id] w0]; [by eexists|].
    destruct (Submit _ w0) as [[err|] w1]; [by eexists|].
    match goal with |- context [waitForApproval _ _ fuel ctx id ?t ?w] => destruct (Hwait id w) as ([r w2] & -> & _) end.
    destruct r as [err|resp]; [by eexists|]. by destruct (Decision_ resp); eexists.
  - intros id Hn. destruct (Hwait id w) as ([r w'] & -> & He). destruct (He Hn) as [err E]. cbn in E.
    subst. by eexists _, _.
  - intros id resp w' E. unfold waitForApproval. destruct fuel as [|fuel]; [lia|]. cbn [poll]. by rewrite E.
Qed.
End Clock.
End Gate.

(** Witnesses: a world with a clock in which each poll moves time on and the human answers
    at the time given. *)
Definition desk : Type := InMemoryApprovalStore * (time * option (time * ApprovalResponse)).
Definition desk_elapse (ctx : unit) (deadline : option time) (interval : duration) (w : desk) : bool * desk :=
  let '(s, (t, script)) := w in
  match deadline with
  | Some d =>
      if d <=? t then (true, w)
      else (false, (match script with
                    | Some (at_, resp) => if at_ <=? t + interval then (Respond resp s).2 else s
                    | None => s end, (t + interval, script)))
  | None => (true, w)
  end.
Definition desk_config : ApprovalMiddlewareConfig unit unit desk := {|
  ShouldApprove := Some (λ _ _, true); DefaultUrgency := None; Timeout := 2 * Second;
  OnRequest := None; OnResponse := None |}.
Definition desk_id (w : desk) : (error + string) * desk := (inr "apr-1", w).
Definition desk_handler : ToolHandlerFunc unit unit desk := λ _ _ w, (Returns None None, w).
Definition desk_call (fuel : nat) (script : option (time * ApprovalResponse)) : option (outcome * desk) :=
  ApprovalMiddleware (λ w, w.2.1) desk_id (λ _, ∅) (λ _, "") desk_elapse desk_config fuel "deploy"
    (plain_definition desk_handler plain_tool) desk_handler tt tt (NewInMemoryApprovalStore, (0, script)).

Lemma approval_gate_witness :
  ∃ resp, Decision_ resp ∈ [Approved; Modified] ∧
    (λ p : outcome * desk, (p.1, p.2.2.1)) <$> desk_call 9 (Some (300 * Millisecond, answer Approved "" 0)) =
      Some (Returns None None, 350 * Millisecond).
Proof.
  destruct (approval_gate (λ w : desk, w.2.1) desk_id (λ _, ∅) (λ _, "") desk_elapse desk_config 9 "deploy"
    (plain_definition desk_handler plain_tool) desk_handler tt tt
    (NewInMemoryApprovalStore, (0, Some (300 * Millisecond, answer Approved "" 0)))
    (Returns None None)
    ((Respond (answer Approved "" 0) (Mem_Submit {| ID := "apr-1"; ToolName := "deploy";
        Action := "Execute tool " +:+ quote "deploy"; Context_ := formatToolContext (λ _, ∅) (λ _, "")
          (plain_definition desk_handler plain_tool) tt; Urgency := ApprovalUrgencyNormal; Options := [];
        ExpiresAt := 2 * Second; CreatedAt := 0 |} NewInMemoryApprovalStore).2).2,
     (350 * Millisecond, Some (300 * Millisecond, answer Approved "" 0))))
    as [(tag & text & E & _)|(request & resp & w0 & w1 & w2 & w3 & _ & _ & _ & _ & _ & Hd & _)].
  - intros id [x Hx]. cbn in Hx. by rewrite lookup_empty in Hx.
  - vm_compute. done.
  - discriminate E.
  - exists resp. split; [exact Hd|]. vm_compute. done.
Defined.

Lemma approval_wait_ends_witness : is_Some (desk_call 42 None).
Proof.
  apply (approval_wait_ends (λ w : desk, w.2.1) desk_id (λ _, ∅) (λ _, "") desk_elapse).
  - intros ctx d interval [s [t script]] Hd. cbn in *. by rewrite (proj2 (Z.leb_le d t) Hd).
  - intros ctx [d|] interval [s [t script]] [s' [t' script']] H; cbn in H; [|discriminate].
    destruct (d <=? t); simplify_eq. cbn. lia.
  - intros id [s [t script]]. cbn. lia.
  - done.
  - vm_compute. lia.
Defined.

(** An approval with changes runs the call as it was: the value the person chose is not
    looked at. *)
Lemma modified_runs_unmodified value :
  (λ p : outcome * desk, p.1) <$> desk_call 9 (Some (300 * Millisecond, answer Modified value 0)) =
  (λ p : outcome * desk, p.1) <$> desk_call 9 (Some (300 * Millisecond, answer Approved "" 0)).
Proof. vm_compute. done. Qed.

(** ** Pending human interactions (store.go) *)
Section Responses.
(** What is asked and what is answered. *)
Context {RequestInput RequestOutput : Type}.

Record PendingRequest := { pr_ID : string; Input : RequestInput; pr_CreatedAt : string }.
Record InMemoryResponseStore := {
  pending : gmap string PendingRequest;
  completed : gmap string RequestOutput
}.
Definition NewInMemoryResponseStore : InMemoryResponseStore := {| pending := ∅; completed := ∅ |}.

Definition Save (req : PendingRequest) (s : InMemoryResponseStore) : InMemoryResponseStore :=
  {| pending := <[pr_ID req := req]> (pending s); completed := completed s |}.
Definition Load (id : string) (s : InMemoryResponseStore) : option PendingRequest := pending s !! id.
Definition Complete (id : string) (output : RequestOutput) (s : InMemoryResponseStore) :
    option error * InMemoryResponseStore :=
  match pending s !! id with
  | None => (Some (Err ("hitools: pending request " +:+ quote id +:+ " not found")), s)
  | Some _ => (None, {| pending := delete id (pending s); completed := <[id := output]> (completed s) |})
  end.
Definition ListPending (s : InMemoryResponseStore) : gset string := dom (pending s).
Definition Delete (id : string) (s : InMemoryResponseStore) : InMemoryResponseStore :=
  {| pending := delete id (pending s); completed := completed s |}.
Definition GetCompleted (id : string) (s : InMemoryResponseStore) : option RequestOutput := completed s !! id.

Inductive op := OSave (req : PendingRequest) | OComplete (id : string) (output : RequestOutput) | ODelete (id : string).
Definition run_op (s : InMemoryResponseStore) (o : op) : InMemoryResponseStore :=
  match o with
  | OSave req => Save req s | OComplete id output => (Complete id output s).2 | ODelete id => Delete id s
  end.

(** What a history says of one identifier: the request open for it, if any. *)
Definition open_after (id : string) (cur : option PendingRequest) (o : op) : option PendingRequest :=
  match o with
  | OSave req => if decide (pr_ID req = id) then Some req else cur
  | OComplete id' _ | ODelete id' => if decide (id' = id) then None else cur
  end.
Definition answer_after (id : string) (s : option PendingRequest * option RequestOutput) (o : op) :
    option PendingRequest * option RequestOutput :=
  (open_after id s.1 o,
   match o with
   | OComplete id' output => if decide (id' = id ∧ is_Some s.1) then Some output else s.2
   | _ => s.2
   end).

(** After any history an identifier is open or answered as its own operations say: others
    never touch it. *)
Lemma responses_by_history (ops : list op) (id : string) :
  let s := foldl run_op NewInMemoryResponseStore ops in
  (Load id s, GetCompleted id s) = foldl (answer_after id) (None, None) ops.
Proof.
  cbn zeta. induction ops as [|o ops IH] using rev_ind; [unfold Load, GetCompleted; cbn; by rewrite !lookup_empty|].
  rewrite !foldl_app, <- IH. cbn. set (s := foldl run_op NewInMemoryResponseStore ops).
  unfold Load, GetCompleted, answer_after, open_after. destruct o as [req|id' output|id']; cbn.
  - destruct (decide (pr_ID req = id)) as [<-|]; [by rewrite lookup_insert_eq|by rewrite lookup_insert_ne].
  - unfold Complete. destruct (decide (id' = id)) as [->|Hne].
    + destruct (pending s !! id) eqn:E; cbn.
      * rewrite lookup_delete_eq, lookup_insert_eq.
        by rewrite (decide_True (P := id = id ∧ _)) by (split; [done|by eexists]).
      * rewrite E. by rewrite (decide_False (P := id = id ∧ _)) by (intros [_ [x Hx]]; done).
    + rewrite (decide_False (P := id' = id ∧ _)) by (by intros [? _]).
      destruct (pending s !! id') eqn:E; cbn; [|done]. by rewrite lookup_delete_ne, lookup_insert_ne.
  - destruct (decide (id' = id)) as [->|]; [by rewrite lookup_delete_eq|by rewrite lookup_delete_ne].
Qed.
End Responses.
Arguments PendingRequest : clear implicits.
Arguments InMemoryResponseStore : clear implicits.
Arguments op : clear implicits.
