(* ===== verification/Guard.v ===== *)
(** Guards around tool calls: cancellation and JSON-RPC error codes (src/protocol/cancellation.go,
    jsonrpc.go; src/registry/cancellation.go), safety tiers (safety_middleware.go), tool
    fingerprints and the integrity store (integrity.go), signatures (signing.go,
    signing_middleware.go). *)

From stdpp Require Import base tactics list gmap strings relations.
From Stdlib Require Import ZArith Lia.
From S2P Require Import Prelude Tool Truncate Registry.

Local Open Scope Z_scope.

(** ** JSON-RPC errors (jsonrpc.go) *)
Definition CodeParseError : Z := -32700.
Definition CodeInvalidRequest : Z := -32600.
Definition CodeMethodNotFound : Z := -32601.
Definition CodeInvalidParams : Z := -32602.
Definition CodeInternalError : Z := -32603.
Definition CodeRequestCancelled : Z := -32800.
Definition CodeResourceNotFound : Z := -32002.

Record Error := { Code : Z; Message : string; Data : option json }.
Definition NewError (code : Z) (message : string) : Error := {| Code := code; Message := message; Data := None |}.

Definition IsStandardCode (code : Z) : bool :=
  if (-32700 <=? code) && (code <=? -32600) then true
  else (code =? CodeRequestCancelled) || (code =? CodeResourceNotFound).

Definition CodeName (code : Z) : string :=
  if code =? CodeParseError then "ParseError"
  else if code =? CodeInvalidRequest then "InvalidRequest"
  else if code =? CodeMethodNotFound then "MethodNotFound"
  else if code =? CodeInvalidParams then "InvalidParams"
  else if code =? CodeInternalError then "InternalError"
  else if code =? CodeRequestCancelled then "RequestCancelled"
  else if code =? CodeResourceNotFound then "ResourceNotFound"
  else "Unknown".

(** ** Cancellation errors (cancellation.go)

    [as_cancellation]: the reason of the first [*CancellationError] of the chain, as
    [errors.As] finds it. *)
Fixpoint as_cancellation (e : error) : option string :=
  match e with
  | ErrCancelled reason | ErrCancelledBy reason _ => Some reason
  | ErrWrap _ e _ => as_cancellation e
  | Err _ | ErrSentinel _ _ => None
  end.

Definition IsCancellation (err : option error) : bool :=
  match err with
  | None => false
  | Some e => if bool_decide (is_Some (as_cancellation e)) then true else errors_is e Canceled
  end.

Definition WrapCancellation (err : option error) : option error :=
  match err with
  | None => None
  | Some e => if errors_is e Canceled then Some (ErrCancelledBy "" e) else Some e
  end.

Definition ToJSONRPCError (err : option error) : option Error :=
  match err with
  | None => None
  | Some e => Some
      match as_cancellation e with
      | Some reason =>
          NewError CodeRequestCancelled
            ("Request cancelled" +:+ (if bool_decide (reason ≠ "") then ": " +:+ reason else ""))
      | None =>
          if errors_is e Canceled then NewError CodeRequestCancelled "Request cancelled"
          else if errors_is e DeadlineExceeded then NewError CodeRequestCancelled "Request timed out"
          else NewError CodeInternalError (error_text e)
      end
  end.

Section Cancellation.
Context {Ctx Req W : Type}.
Definition CancellationMiddleware : Middleware Ctx Req W :=
  λ name td next ctx request w,
    match next ctx request w with
    | (Panics v, w) => (Panics v, w)
    | (Returns result err, w) =>
        if bool_decide (err ≠ None) && IsCancellation err
        then (Returns (Some (MakeErrorResult "Request cancelled")) (WrapCancellation err), w)
        else (Returns result err, w)
    end.
End Cancellation.

(** Cancellation is reported under one code: the JSON-RPC error of a handler's failure
    carries REQUEST_CANCELLED exactly when the failure is a cancellation or a deadline,
    wrapping it changes neither the code nor whether it counts as a cancellation, and
    the code is always a standard one with a name.  The middleware answers a cancelled
    call with an error result and a cancellation error, and passes every other
    outcome (results, other errors, panics) through unchanged. *)
Theorem cancellation_reported {Ctx Req W : Type} (e : error) (name : string)
    (td : ToolDefinition (ToolHandlerFunc Ctx Req W)) (next : ToolHandlerFunc Ctx Req W) (ctx : Ctx) (req : Req)
    (w : W) :
  (Code <$> ToJSONRPCError (Some e) =
     Some (if IsCancellation (Some e) || errors_is e DeadlineExceeded then CodeRequestCancelled
           else CodeInternalError)) ∧
  Code <$> ToJSONRPCError (WrapCancellation (Some e)) = Code <$> ToJSONRPCError (Some e) ∧
  IsCancellation (WrapCancellation (Some e)) = IsCancellation (Some e) ∧
  (∀ r, ToJSONRPCError (Some e) = Some r → IsStandardCode (Code r) = true ∧ CodeName (Code r) ≠ "Unknown") ∧
  match next ctx req w with
  | (Returns result err, w1) =>
      CancellationMiddleware name td next ctx req w =
      if IsCancellation err
      then (Returns (Some (MakeErrorResult "Request cancelled")) (WrapCancellation err), w1)
      else (Returns result err, w1)
  | out => CancellationMiddleware name td next ctx req w = out
  end.
Proof.
  unfold ToJSONRPCError, IsCancellation, WrapCancellation. split; [|split; [|split; [|split]]].
  - destruct (as_cancellation e); cbn; [done|].
    destruct (errors_is e Canceled); [done|]. by destruct (errors_is e DeadlineExceeded).
  - destruct (errors_is e Canceled) eqn:E; [|cbn; by rewrite E]. cbn. by destruct (as_cancellation e).
  - destruct (errors_is e Canceled) eqn:E; [|cbn; by rewrite E]. cbn. by destruct (as_cancellation e).
  - intros r H. injection H as <-. destruct (as_cancellation e); [done|].
    destruct (errors_is e Canceled); [done|]. by destruct (errors_is e DeadlineExceeded).
  - unfold CancellationMiddleware, IsCancellation. destruct (next ctx req w) as [[result [err|]|v] w1]; [|done|done].
    by rewrite bool_decide_true by done.
Qed.

(** Wrapping a cancellation that has a reason hides it from the client. *)
Lemma wrap_hides_reason :
  let e := Some (ErrCancelledBy "user pressed stop" Canceled) in
  Message <$> ToJSONRPCError e = Some "Request cancelled: user pressed stop" ∧
  Message <$> ToJSONRPCError (WrapCancellation e) = Some "Request cancelled".
Proof. done. Qed.

(** A deadline is not what the comment says it is. *)
Lemma deadline_is_no_cancellation : IsCancellation (Some DeadlineExceeded) = false.
Proof. done. Qed.

(** ** Safety tiers (safety_middleware.go) *)
Inductive SafetyTier := TierReadonly | TierMutating | TierDestructive.
#[export] Instance SafetyTier_eq_dec : EqDecision SafetyTier.
Proof. solve_decision. Defined.

Definition ClassifySafetyTier {H} (td : ToolDefinition H) : SafetyTier :=
  if negb (IsWrite td) then TierReadonly
  else if bool_decide (Complexity td = "complex") then TierDestructive
  else TierMutating.

Section Tier.
Context {Ctx Req W : Type}.
(** [context.WithValue] and [Value] for the tier. *)
Variable with_tier : SafetyTier → Ctx → Ctx.
Variable tier_value : Ctx → option SafetyTier.
Definition SafetyTierMiddleware : Middleware Ctx Req W :=
  λ name td next ctx req w, next (with_tier (ClassifySafetyTier td) ctx) req w.
Definition SafetyTierFromContext (ctx : Ctx) : SafetyTier := default TierReadonly (tier_value ctx).
End Tier.

(** ** Fingerprints (integrity.go) *)
Definition nul : string := byte_string 0.

Fixpoint hex_encode (s : string) : string :=
  match s with
  | EmptyString => EmptyString
  | String a s =>
      let n := Ascii.nat_of_ascii a in
      String (hex_digit (n / 16)) (String (hex_digit (n mod 16)) (hex_encode s))
  end.

#[local] Arguments Nat.div : simpl never.
#[local] Arguments Nat.modulo : simpl never.
Lemma hex_encode_inj s t : hex_encode s = hex_encode t → s = t.
Proof.
  revert t. induction s as [|a s IH]; intros [|b t] H; try done. cbn in H. injection H as H1 H2 H3.
  rewrite (IH t H3). f_equal. rewrite <- (Ascii.ascii_nat_embedding a), <- (Ascii.ascii_nat_embedding b). f_equal.
  pose proof (Ascii.nat_ascii_bounded a) as Ha. pose proof (Ascii.nat_ascii_bounded b) as Hb.
  revert H1 H2 Ha Hb. generalize (Ascii.nat_of_ascii a) (Ascii.nat_of_ascii b). clear. intros n m H1 H2 Hn Hm.
  assert (Hd : ∀ x y, (x < 16)%nat → (y < 16)%nat → hex_digit x = hex_digit y → x = y).
  { intros x y Hx Hy E. apply (f_equal Ascii.nat_of_ascii) in E. unfold hex_digit in E.
    rewrite Ascii.nat_ascii_embedding in E by (clear E; case_match; lia).
    rewrite Ascii.nat_ascii_embedding in E by (clear E; case_match; lia).
    revert E. destruct (Nat.ltb_spec x 10), (Nat.ltb_spec y 10); lia. }
  apply Hd in H1; [|apply Nat.Div0.div_lt_upper_bound; lia..].
  apply Hd in H2; [|apply Nat.mod_upper_bound; lia..].
  rewrite (Nat.div_mod_eq n 16), (Nat.div_mod_eq m 16). congruence.
Qed.

Section Integrity.
Context {Ctx Req W : Type}.
Local Notation TD := (ToolDefinition (ToolHandlerFunc Ctx Req W)).
(** SHA-256; the JSON of an input schema and its [%v] form; the descriptor's raw schema. *)
Variable sha256 : string → string.
Variable marshal_schema : Schema → option string.
Variable render_schema : Schema → string.
Variable RawInputSchema : Tool → option string.

Definition schema_part (t : Tool) : string := default (render_schema (InputSchema t)) (marshal_schema (InputSchema t)).
Definition preimage (td : TD) : string :=
  Name (td_Tool td) +:+ nul +:+ Description (td_Tool td) +:+ nul +:+
  schema_part (td_Tool td) +:+ nul +:+ default "" (RawInputSchema (td_Tool td)) +:+ nul.
Definition Fingerprint (td : TD) : string := sha256 (preimage td).

Record Violation := { v_Tool : string; v_Timestamp : time; Previous : string; Current : string }.
Record IntegrityStore := { prints : gmap string string; violations : list Violation }.
Definition NewIntegrityStore : IntegrityStore := {| prints := ∅; violations := [] |}.

Definition add_violation (v : Violation) (s : IntegrityStore) : IntegrityStore :=
  {| prints := prints s; violations := violations s ++ [v] |}.
Definition violation_of (td : TD) (existing : string) (now : time) : Violation := {|
  v_Tool := Name (td_Tool td); v_Timestamp := now; Previous := existing; Current := Fingerprint td |}.

Definition Integrity_Register (td : TD) (now : time) (s : IntegrityStore) : option error * IntegrityStore :=
  let name := Name (td_Tool td) in
  match prints s !! name with
  | None => (None, {| prints := <[name := Fingerprint td]> (prints s); violations := violations s |})
  | Some existing =>
      if bool_decide (existing = Fingerprint td) then (None, s)
      else (Some (Err ("integrity: tool " +:+ quote name +:+ " fingerprint changed on re-registration")),
            add_violation (violation_of td existing now) s)
  end.

Definition Integrity_Verify (td : TD) (now : time) (s : IntegrityStore) : option Violation * IntegrityStore :=
  match prints s !! Name (td_Tool td) with
  | None => (None, s)
  | Some existing =>
      if bool_decide (existing = Fingerprint td) then (None, s)
      else let v := violation_of td existing now in (Some v, add_violation v s)
  end.

Definition IntegrityMiddleware `{!Cell W IntegrityStore} (now : W → time)
    (onViolation : Violation → W → option error * W) : Middleware Ctx Req W :=
  λ name td next ctx req w,
    let '(v, s) := Integrity_Verify td (now w) (peek w) in
    let w := poke s w in
    match v with
    | None => next ctx req w
    | Some v =>
        match onViolation v w with
        | (Some _, w) =>
            (Returns (Some (MakeErrorResult ("integrity violation for tool " +:+ quote (Name (td_Tool td)) +:+
                             ": fingerprint mismatch"))) None, w)
        | (None, w) => next ctx req w
        end
    end.
End Integrity.

(** ** Signatures (signing.go) *)
Record ToolSignature := {
  ToolName : string; sig_Fingerprint : string; Signature : string; SignedAt : time; SignerID : string }.
Record SignatureStore := { signatures : gmap string ToolSignature; publicKeys : gmap string string }.
Definition NewSignatureStore : SignatureStore := {| signatures := ∅; publicKeys := ∅ |}.

(** Ed25519: signing, verifying, and the public half of a private key. *)
Class Ed25519 := { ed_Sign : string → string → string; ed_Verify : string → string → string → bool;
                   ed_Public : string → string }.
Class LawfulEd25519 `{Ed25519} := { sign_verifies k m : ed_Verify (ed_Public k) m (ed_Sign k m) = true }.

Section Signing.
Context {Ctx Req W : Type} `{!Ed25519}.
Local Notation TD := (ToolDefinition (ToolHandlerFunc Ctx Req W)).
Variable sha256 : string → string.
Variable marshal_schema : Schema → option string.
Variable render_schema : Schema → string.
Variable RawInputSchema : Tool → option string.
Local Notation Fingerprint := (Fingerprint sha256 marshal_schema render_schema RawInputSchema).

Definition SignTool (td : TD) (privateKey signerID : string) (now : time) : ToolSignature :=
  let fp := Fingerprint td in {|
    ToolName := Name (td_Tool td); sig_Fingerprint := hex_encode fp; Signature := ed_Sign privateKey fp;
    SignedAt := now; SignerID := signerID |}.

Definition VerifyToolSignature (td : TD) (sig : ToolSignature) (publicKey : string) : option error :=
  let fp := Fingerprint td in
  let fpHex := hex_encode fp in
  if bool_decide (fpHex ≠ sig_Fingerprint sig) then
    Some (Err ("signing: fingerprint mismatch for tool " +:+ quote (Name (td_Tool td)) +:+ " (current " +:+
               fpHex +:+ ", signed " +:+ sig_Fingerprint sig +:+ ")"))
  else if negb (ed_Verify publicKey fp (Signature sig)) then
    Some (Err ("signing: invalid signature for tool " +:+ quote (Name (td_Tool td))))
  else None.

Definition AddPublicKey (signerID key : string) (s : SignatureStore) : SignatureStore :=
  {| signatures := signatures s; publicKeys := <[signerID := key]> (publicKeys s) |}.
Definition AddSignature (sig : ToolSignature) (s : SignatureStore) : SignatureStore :=
  {| signatures := <[ToolName sig := sig]> (signatures s); publicKeys := publicKeys s |}.

Definition Signature_Verify (td : TD) (s : SignatureStore) : option error :=
  match signatures s !! Name (td_Tool td) with
  | None => None
  | Some sig =>
      match publicKeys s !! SignerID sig with
      | None => Some (Err ("signing: no public key registered for signer " +:+ quote (SignerID sig)))
      | Some pubKey => VerifyToolSignature td sig pubKey
      end
  end.

Definition SignAll (reg : ToolRegistry Ctx Req W) (privateKey signerID : string) (now : time) (s : SignatureStore) :
    SignatureStore :=
  foldl (λ s td, AddSignature (SignTool td privateKey signerID now) s)
    (AddPublicKey signerID (ed_Public privateKey) s) (GetAllToolDefinitions reg).

Definition SignatureVerificationMiddleware `{!Cell W SignatureStore}
    (onFailure : string → error → W → option error * W) : Middleware Ctx Req W :=
  λ name td next ctx req w,
    match Signature_Verify td (peek w) with
    | None => next ctx req w
    | Some err =>
        match onFailure name err w with
        | (Some blockErr, w) =>
            (Returns (Some (MakeErrorResult ("signature verification failed for tool " +:+ quote name +:+ ": " +:+
                             error_text blockErr))) None, w)
        | (None, w) => next ctx req w
        end
    end.
End Signing.

(** ** What a fingerprint binds *)
Definition nul_free (s : string) : Prop := ∀ s1 s2, s ≠ s1 +:+ nul +:+ s2.

Lemma nul_free_cons a s : nul_free (String a s) → a ≠ Ascii.ascii_of_nat 0 ∧ nul_free s.
Proof.
  intros H. split.
  - intros ->. by apply (H "" s).
  - intros s1 s2 ->. by apply (H (String a s1) s2).
Qed.

Lemma nul_split s t r q :
  nul_free s → nul_free t → s +:+ nul +:+ r = t +:+ nul +:+ q → s = t ∧ r = q.
Proof.
  revert t. induction s as [|a s IH]; intros [|b t] Hs Ht H; cbn in H.
  - by simplify_eq.
  - apply nul_free_cons in Ht as [Hb _]. injection H as Hb' _. by destruct Hb.
  - apply nul_free_cons in Hs as [Ha _]. injection H as Ha' _. by destruct Ha.
  - apply nul_free_cons in Hs as [_ Hs], Ht as [_ Ht]. injection H as -> H.
    by destruct (IH t Hs Ht H) as [-> ->].
Qed.

Section Fingerprints.
Context {Ctx Req W : Type}.
Local Notation TD := (ToolDefinition (ToolHandlerFunc Ctx Req W)).
Variable sha256 : string → string.
Variable marshal_schema : Schema → option string.
Variable render_schema : Schema → string.
Variable RawInputSchema : Tool → option string.
Local Notation Fingerprint := (Fingerprint sha256 marshal_schema render_schema RawInputSchema).
Local Notation schema_part := (schema_part marshal_schema render_schema).
Local Notation preimage := (preimage marshal_schema render_schema RawInputSchema).

(** Two tools with one fingerprint have the same name, the same description and the
    same serialised schemas, or their preimages are a SHA-256 collision, as long as
    names, descriptions and serialised schemas hold no NUL byte. *)
Theorem fingerprint_binds (td td' : TD) :
  nul_free (Name (td_Tool td)) → nul_free (Description (td_Tool td)) → nul_free (schema_part (td_Tool td)) →
  nul_free (Name (td_Tool td')) → nul_free (Description (td_Tool td')) → nul_free (schema_part (td_Tool td')) →
  Fingerprint td = Fingerprint td' →
  (Name (td_Tool td) = Name (td_Tool td') ∧ Description (td_Tool td) = Description (td_Tool td') ∧
   schema_part (td_Tool td) = schema_part (td_Tool td') ∧
   default "" (RawInputSchema (td_Tool td)) = default "" (RawInputSchema (td_Tool td'))) ∨
  (preimage td ≠ preimage td' ∧ sha256 (preimage td) = sha256 (preimage td')).
Proof.
  intros N D S N' D' S' H. destruct (decide (preimage td = preimage td')) as [E|]; [left|by right].
  unfold Guard.preimage in E. apply nul_split in E as [-> E]; [|done..]. apply nul_split in E as [-> E]; [|done..].
  apply nul_split in E as [-> E]; [|done..]. apply string_app_inj_r in E as [-> _]; [|done]. done.
Qed.

(** ** The integrity store trusts the first definition it is shown *)
Inductive iop := IRegister (td : TD) (now : time) | IVerify (td : TD) (now : time).
Definition run_iop (s : IntegrityStore) (o : iop) : IntegrityStore :=
  match o with
  | IRegister td now => (Integrity_Register sha256 marshal_schema render_schema RawInputSchema td now s).2
  | IVerify td now => (Integrity_Verify sha256 marshal_schema render_schema RawInputSchema td now s).2
  end.

(** The fingerprint of the first registration of a name. *)
Definition first_seen (name : string) (cur : option string) (o : iop) : option string :=
  match cur, o with
  | None, IRegister td _ => if decide (Name (td_Tool td) = name) then Some (Fingerprint td) else None
  | _, _ => cur
  end.

Lemma prints_are_first_seen (ops : list iop) name :
  prints (foldl run_iop NewIntegrityStore ops) !! name = foldl (first_seen name) None ops.
Proof.
  induction ops as [|o ops IH] using rev_ind; [apply lookup_empty|].
  rewrite !foldl_app, <- IH. cbn. set (s := foldl run_iop NewIntegrityStore ops).
  destruct o as [td now|td now]; cbn; unfold Integrity_Register, Integrity_Verify.
  - destruct (decide (Name (td_Tool td) = name)) as [<-|Hne].
    + destruct (prints s !! Name (td_Tool td)) eqn:E; [case_bool_decide; cbn; by rewrite E|].
      cbn. by rewrite lookup_insert_eq, decide_True.
    + unfold first_seen. rewrite (decide_False (P := _ = name)) by done.
      destruct (prints s !! Name (td_Tool td)) eqn:E; [case_bool_decide; cbn; by destruct (prints s !! name)|].
      cbn. rewrite lookup_insert_ne by done. by destruct (prints s !! name).
  - destruct (prints s !! Name (td_Tool td)) eqn:E; [case_bool_decide|]; cbn; by destruct (prints s !! name).
Qed.

(** C24.  After any registrations and checks, a definition raises a violation exactly when
    its name was registered before and the first definition registered under it had
    another fingerprint; the violation names both fingerprints and is logged.  Behind
    the middleware a tampered tool that the callback blocks is refused without running,
    and an untampered or unknown one runs. *)
Theorem integrity_first_use `{!Cell W IntegrityStore} `{!CellLaws W IntegrityStore} (ops : list iop) (td : TD)
    (now : W → time) (onViolation : Violation → W → option error * W) (name : string)
    (next : ToolHandlerFunc Ctx Req W) (ctx : Ctx) (req : Req) (w : W) :
  peek w = foldl run_iop NewIntegrityStore ops →
  let verdict := match foldl (first_seen (Name (td_Tool td))) None ops with
                 | Some fp => if decide (fp = Fingerprint td) then None
                              else Some {| v_Tool := Name (td_Tool td); v_Timestamp := now w;
                                           Previous := fp; Current := Fingerprint td |}
                 | None => None
                 end in
  let w1 := poke {| prints := prints (peek w);
                    violations := violations (peek w) ++ option_list verdict |} w in
  ((Integrity_Register sha256 marshal_schema render_schema RawInputSchema td (now w) (peek w)).1 = None
     ↔ verdict = None) ∧
  (Integrity_Verify sha256 marshal_schema render_schema RawInputSchema td (now w) (peek w)).1 = verdict ∧
  IntegrityMiddleware sha256 marshal_schema render_schema RawInputSchema now onViolation name td next ctx req w =
    match verdict with
    | None => next ctx req w1
    | Some v =>
        match onViolation v w1 with
        | (None, w2) => next ctx req w2
        | (Some _, w2) =>
            (Returns (Some (MakeErrorResult ("integrity violation for tool " +:+ quote (Name (td_Tool td)) +:+
                             ": fingerprint mismatch"))) None, w2)
        end
    end.
Proof.
  intros Hw. cbn zeta. rewrite <- prints_are_first_seen, <- Hw.
  unfold IntegrityMiddleware, Integrity_Register, Integrity_Verify. destruct (peek w) as [ps vs]. cbn [prints].
  destruct (ps !! Name (td_Tool td)) as [fp|] eqn:E.
  - case_bool_decide as Hd; destruct (decide (fp = Fingerprint td)) as [Hd'|Hd']; try done.
    split; [done|split; [done|]]. by rewrite app_nil_r.
  - split; [done|split; [done|]]. by rewrite app_nil_r.
Qed.
End Fingerprints.

(** ** Signing a registry *)
Section SigningLemmas.
Context {Ctx Req W : Type} `{!Ed25519}.
Local Notation TD := (ToolDefinition (ToolHandlerFunc Ctx Req W)).
Variable sha256 : string → string.
Variable marshal_schema : Schema → option string.
Variable render_schema : Schema → string.
Variable RawInputSchema : Tool → option string.
Local Notation Fingerprint := (Fingerprint sha256 marshal_schema render_schema RawInputSchema).
Local Notation SignTool := (SignTool sha256 marshal_schema render_schema RawInputSchema).
Local Notation SignAll := (SignAll sha256 marshal_schema render_schema RawInputSchema).
Local Notation Verify := (Signature_Verify sha256 marshal_schema render_schema RawInputSchema).
Local Notation sign_step k id now := (λ s td, AddSignature (SignTool td k id now) s).

Lemma sign_list_keys (l : list TD) k id now s : publicKeys (foldl (sign_step k id now) s l) = publicKeys s.
Proof. revert s. induction l as [|td l IH]; intros s; [done|]. cbn. by rewrite IH. Qed.

Lemma sign_list_other (l : list TD) k id now s name :
  name ∉ tool_name <$> l → signatures (foldl (sign_step k id now) s l) !! name = signatures s !! name.
Proof.
  revert s. induction l as [|td l IH]; intros s Hn; [done|]. csimpl in Hn. apply not_elem_of_cons in Hn as [H1 H2].
  cbn [foldl]. rewrite IH by done. cbn. by rewrite lookup_insert_ne by (intros E; by apply H1).
Qed.

Lemma sign_list_lookup (l : list TD) k id now s td :
  NoDup (tool_name <$> l) → td ∈ l →
  signatures (foldl (sign_step k id now) s l) !! Name (td_Tool td) = Some (SignTool td k id now).
Proof.
  revert s. induction l as [|td' l IH]; intros s Hnd Hin; [by apply elem_of_nil in Hin|].
  csimpl in Hnd. apply NoDup_cons in Hnd as [Hn Hnd]. cbn [foldl]. apply elem_of_cons in Hin as [->|Hin].
  - rewrite sign_list_other by done. cbn. by rewrite lookup_insert_eq.
  - by apply IH.
Qed.

(** Signing a registry and checking it agree: afterwards every registered tool
    verifies, a definition that took over a registered name with another fingerprint is
    rejected, names outside the registry keep the signature they had, and a signature
    made for a single tool verifies under the signer's public key. *)
Theorem signing_roundtrip `{!LawfulEd25519} (reg : ToolRegistry Ctx Req W) (k id : string) (now : time)
    (s : SignatureStore) (name : string) :
  reg_wf reg →
  match tools reg !! name with
  | Some td =>
      Verify td (SignAll reg k id now s) = None ∧
      (∀ td' : TD, Name (td_Tool td') = name → Fingerprint td' ≠ Fingerprint td →
         is_Some (Verify td' (SignAll reg k id now s))) ∧
      VerifyToolSignature sha256 marshal_schema render_schema RawInputSchema td (SignTool td k id now)
        (ed_Public k) = None
  | None => signatures (SignAll reg k id now s) !! name = signatures s !! name
  end.
Proof.
  intros Hwf. unfold Guard.SignAll.
  destruct (tools reg !! name) as [td|] eqn:E.
  - pose proof (proj1 Hwf _ _ E) as [Hname _]. unfold tool_name in Hname. subst name.
    assert (Hin : td ∈ GetAllToolDefinitions reg) by (apply elem_of_GetAll; by eexists).
    assert (Hs : VerifyToolSignature sha256 marshal_schema render_schema RawInputSchema td (SignTool td k id now)
        (ed_Public k) = None).
    { unfold VerifyToolSignature. cbn. rewrite bool_decide_false by (intros Hx; by apply Hx). by rewrite sign_verifies. }
    split_and!; [| |done].
    + unfold Signature_Verify. rewrite sign_list_lookup by auto using NoDup_names_GetAll.
      rewrite sign_list_keys. cbn [SignerID Guard.SignTool publicKeys AddPublicKey]. by rewrite lookup_insert_eq.
    + intros td' Hn Hf. unfold Signature_Verify. rewrite Hn, sign_list_lookup by auto using NoDup_names_GetAll.
      rewrite sign_list_keys. cbn [SignerID Guard.SignTool publicKeys AddPublicKey]. rewrite lookup_insert_eq.
      unfold VerifyToolSignature. cbn. rewrite bool_decide_true by (intros Hx; by apply hex_encode_inj in Hx).
      by eexists.
  - rewrite sign_list_other; [done|]. rewrite names_GetAll by done.
    intros ([n td] & -> & Hin)%list_elem_of_fmap. apply elem_of_map_to_list in Hin. change (tools reg !! n = None) in E. congruence.
Qed.
End SigningLemmas.

(** ** Witnesses *)
Definition toy_tool (name description : string) : Tool := {|
  Name := name; Title := ""; Description := description;
  Annotations := Tool.Annotations plain_tool; InputSchema := Tool.InputSchema plain_tool;
  ToolOutputSchema := Tool.ToolOutputSchema plain_tool; Meta := None; ToolDeferLoading := false |}.
Definition toy_def (name description : string) : ToolDefinition (ToolHandlerFunc unit unit IntegrityStore) :=
  plain_definition (λ _ _ w, (Returns None None, w)) (toy_tool name description).
Definition toy_print := Fingerprint (Ctx := unit) (Req := unit) (W := IntegrityStore)
  (λ s, s) (λ _, Some "{}") (λ _, "") (λ _, None).

(** Names with a NUL byte defeat the terminators: two different tools, one fingerprint. *)
Lemma nul_names_collide :
  toy_print (toy_def ("a" +:+ nul +:+ "b") "c") = toy_print (toy_def "a" ("b" +:+ nul +:+ "c")).
Proof. vm_compute. done. Qed.

Lemma nul_free_dec s : forallb (λ a, negb (Ascii.eqb a (Ascii.ascii_of_nat 0))) (String.list_ascii_of_string s) = true →
  nul_free s.
Proof.
  intros H s1 s2 ->. induction s1 as [|a s1 IH]; cbn in H; [done|].
  apply andb_true_iff in H as [_ H]. by apply IH.
Qed.

Lemma fingerprint_binds_witness :
  toy_print (toy_def "get" "reads") = toy_print (toy_def "get" "reads") ∧ Name (toy_tool "get" "reads") = "get".
Proof.
  destruct (fingerprint_binds (Ctx := unit) (Req := unit) (W := IntegrityStore) (λ s, s) (λ _, Some "{}") (λ _, "")
    (λ _, None) (toy_def "get" "reads") (toy_def "get" "reads")) as [(_ & _ & _ & _)|[H _]].
  1-6: apply nul_free_dec; vm_compute; done.
  - done.
  - split; reflexivity.
  - by destruct H.
Defined.

Lemma integrity_first_use_witness :
  ∃ v, (Integrity_Verify (Ctx := unit) (Req := unit) (W := IntegrityStore) (λ s, s) (λ _, Some "{}") (λ _, "") (λ _, None)
    (toy_def "get" "deletes") 7
    (run_iop (λ s, s) (λ _, Some "{}") (λ _, "") (λ _, None) NewIntegrityStore (IRegister (toy_def "get" "reads") 0))).1 = Some v.
Proof.
  destruct (integrity_first_use (Ctx := unit) (Req := unit) (W := IntegrityStore) (λ s, s) (λ _, Some "{}") (λ _, "")
    (λ _, None) [IRegister (toy_def "get" "reads") 0] (toy_def "get" "deletes") (λ _, 7)
    (λ _ w, (None, w)) "get" (λ _ _ w, (Returns None None, w)) tt tt
    (run_iop (λ s, s) (λ _, Some "{}") (λ _, "") (λ _, None) NewIntegrityStore (IRegister (toy_def "get" "reads") 0)))
    as (_ & Hv & _); [reflexivity|].
  eexists. etrans; [exact Hv|]. vm_compute. reflexivity.
Defined.

#[local] Instance toy_ed : Ed25519 :=
  {| ed_Sign k m := k +:+ m; ed_Verify p m sg := bool_decide (sg = p +:+ m); ed_Public k := k |}.
#[local] Instance toy_ed_lawful : LawfulEd25519.
Proof. constructor. intros k m. cbn. by apply bool_decide_true. Qed.

Definition toy_registry : ToolRegistry unit unit IntegrityStore :=
  register_tool (NewToolRegistry []) (toy_def "get" "reads").
Lemma toy_registry_wf : reg_wf toy_registry.
Proof.
  apply register_tool_wf. split; cbn.
  - intros name td H. by rewrite lookup_empty in H.
  - intros name [x H]. by rewrite lookup_empty in H.
Qed.

Lemma signing_roundtrip_witness :
  match tools toy_registry !! "get" with
  | Some td => Signature_Verify (λ s, s) (λ _, Some "{}") (λ _, "") (λ _, None) td
      (SignAll (λ s, s) (λ _, Some "{}") (λ _, "") (λ _, None) toy_registry "key" "ops" 0 NewSignatureStore) = None
  | None => False
  end.
Proof.
  pose proof (signing_roundtrip (λ s, s) (λ _, Some "{}") (λ _, "") (λ _, None) toy_registry "key" "ops" 0
    NewSignatureStore "get" toy_registry_wf) as H.
  destruct (tools toy_registry !! "get") eqn:E; [exact (proj1 H)|].
  apply eq_None_not_Some in E. apply E. eexists. apply lookup_insert_eq.
Defined.
