(* ===== verification/Notify.v ===== *)
(** Keeping a running server in step with a dynamic registry (src/registry/notify.go and
    DynamicRegistry.RegisterWithServer of dynamic.go). *)

From stdpp Require Import base tactics list gmap strings sorting.
From Stdlib Require Import ZArith Lia.
From S2P Require Import Prelude Tool Truncate Registry.

Local Open Scope Z_scope.

Section Notify.
Context {Ctx Req W : Type}.
Variable marshal : json → option string.
Variable has_deadline : Ctx → bool.
Variable with_timeout : Ctx → duration → Ctx.
Variable stack : string.
Local Notation MCPServer :=
  (gmap string (Tool * (Ctx → Req → W → (option CallToolResult * option error) * W))).
Local Notation publish := (publish marshal has_deadline with_timeout stack).

(** The callback's captured state and the server it drives. *)
Record Wired := { prev : gset string; server : MCPServer }.

Definition RemoveToolsFromServer (s : MCPServer) (names : gset string) : MCPServer :=
  filter (λ p : string * _, p.1 ∉ names) s.

(** One call of the callback. *)
Definition wire_sync (r : ToolRegistry Ctx Req W) (w : Wired) : Wired :=
  let current := dom (tools r) in
  let s : MCPServer := foldl (publish r None) (server w) (filter (λ td, tool_name td ∉ prev w) (GetAllToolDefinitions r)) in
  {| prev := current; server := RemoveToolsFromServer s (prev w ∖ current) |}.

Definition WireToolListChanged (r : ToolRegistry Ctx Req W) (s : MCPServer) : Wired :=
  {| prev := dom (tools r); server := s |}.
Definition Dynamic_RegisterWithServer (r : ToolRegistry Ctx Req W) (s : MCPServer) : Wired :=
  WireToolListChanged r (RegisterWithServer marshal has_deadline with_timeout stack r s).

(** Which operations call the listeners. *)
Definition notifies (d : DynamicRegistry Ctx Req W) (o : rop Ctx Req W) : bool :=
  match o with
  | OpRegisterModule _ | OpAddTool _ => true
  | OpRemoveTool n => bool_decide (is_Some (tools (d_reg d) !! n))
  | _ => false
  end.

(** A dynamic registry with its wired server. *)
Definition run_wired (s : DynamicRegistry Ctx Req W * Wired) (o : rop Ctx Req W) : DynamicRegistry Ctx Req W * Wired :=
  let d := run_rop s.1 o in
  (d, if notifies s.1 o then wire_sync (d_reg d) s.2 else s.2).
End Notify.
Arguments Wired : clear implicits.

Section Wiring.
Context {Ctx Req W : Type} (marshal : json → option string) (hd : Ctx → bool)
  (wt : Ctx → duration → Ctx) (stack : string).
Implicit Types r : ToolRegistry Ctx Req W.

(** The listeners are called exactly by the operations [notifies] names. *)
Lemma notifies_spec (d : DynamicRegistry Ctx Req W) (o : rop Ctx Req W) :
  notified (run_rop d o) = notified d ++ (if notifies d o then notifiers d else []).
Proof.
  destruct o; cbn; rewrite ?app_nil_r; try done.
  unfold RemoveTool. destruct (tools (d_reg d) !! name) as [td|] eqn:E.
  - rewrite bool_decide_true by (by eexists). done.
  - rewrite bool_decide_false by (intros [? ?]; congruence). by rewrite app_nil_r.
Qed.

(** What is published for a definition. *)
Definition publication r (name : string) (td : TD Ctx Req W) :=
  (td_Tool (ApplyToolMetadata td (ToolNamePrefix (config r)) (default false (deferred r !! name))),
   wrapHandler marshal hd wt (config r) name td stack).

Lemma list_find_new r (known : gset string) name :
  reg_wf r →
  match list_find (λ td, tool_name td = name) (filter (λ td, tool_name td ∉ known) (GetAllToolDefinitions r)) with
  | Some (_, td) => tools r !! name = Some td ∧ name ∉ known
  | None => tools r !! name = None ∨ name ∈ known
  end.
Proof.
  intros Hwf. destruct (list_find _ _) as [[i td]|] eqn:E.
  - apply list_find_Some in E as (Hl & He & _). apply list_elem_of_lookup_2, list_elem_of_filter in Hl as [Hk Hl].
    apply elem_of_GetAll in Hl as [n Hn]. destruct (proj1 Hwf _ _ Hn) as [Hnn _]. split; congruence.
  - apply list_find_None in E. destruct (decide (name ∈ known)) as [|Hk]; [by right|left].
    destruct (tools r !! name) as [td|] eqn:Ht; [|done]. exfalso.
    destruct (proj1 Hwf _ _ Ht) as [Hn _].
    rewrite Forall_forall in E. apply (E td); [|done].
    apply list_elem_of_filter. split; [congruence|]. apply elem_of_GetAll. by eexists.
Qed.

Lemma wire_sync_lookup r (w : Wired Ctx Req W) name :
  reg_wf r → dom (server w) = prev w →
  server (wire_sync marshal hd wt stack r w) !! name =
  match tools r !! name with
  | Some td => if decide (name ∈ prev w) then server w !! name else Some (publication r name td)
  | None => None
  end.
Proof.
  intros Hwf Hdom. unfold wire_sync, RemoveToolsFromServer. cbn [server].
  set (s := foldl _ _ _).
  assert (Hs : s !! name = match tools r !! name with
    | Some td => if decide (name ∈ prev w) then server w !! name else Some (publication r name td)
    | None => server w !! name end).
  { unfold s. rewrite publish_all.
    - pose proof (list_find_new r (prev w) name Hwf) as Hf.
      destruct (list_find _ _) as [[i td]|].
      + destruct Hf as [-> Hk]. by rewrite decide_False.
      + destruct Hf as [->|Hk]; [done|]. destruct (tools r !! name); [|done]. by rewrite decide_True.
    - apply (sublist_NoDup _ (tool_name <$> GetAllToolDefinitions r)); [by apply NoDup_names_GetAll|].
      apply fmap_sublist, sublist_filter. }
  destruct (tools r !! name) as [td|] eqn:Ht.
  - rewrite <- Hs. destruct (s !! name) as [p|] eqn:E.
    + apply (map_lookup_filter_Some (M := gmap string)). split; [done|]. cbn. intros Hin. apply elem_of_difference in Hin as [_ Hin].
      apply Hin, elem_of_dom. by eexists.
    + apply (map_lookup_filter_None_2 (M := gmap string)). by left.
  - apply (map_lookup_filter_None_2 (M := gmap string)). right. cbn. intros p Hp Hn. apply Hn, elem_of_difference. split.
    + rewrite <- Hdom. apply elem_of_dom. exists p. by etrans; [symmetry; exact Hs|exact Hp].
    + rewrite not_elem_of_dom. done.
Qed.

Lemma wire_sync_dom r (w : Wired Ctx Req W) :
  reg_wf r → dom (server w) = prev w → dom (server (wire_sync marshal hd wt stack r w)) = dom (tools r).
Proof.
  intros Hwf Hdom. apply set_eq. intros name. rewrite !elem_of_dom, wire_sync_lookup by done.
  destruct (tools r !! name); [|by split].
  split; [by eexists|]. intros _. case_decide as Hin; [|by eexists].
  rewrite <- Hdom in Hin. by apply elem_of_dom in Hin.
Qed.

Lemma fresh_server_dom r : reg_wf r →
  dom (server (Dynamic_RegisterWithServer marshal hd wt stack r ∅)) = dom (tools r).
Proof.
  intros Hwf. apply set_eq. intros name. rewrite !elem_of_dom.
  change (is_Some (RegisterWithServer marshal hd wt stack r ∅ !! name) ↔ is_Some (tools r !! name)).
  unfold RegisterWithServer. rewrite publish_all by by apply NoDup_names_GetAll.
  pose proof (list_find_GetAll r name Hwf) as Hf.
  destruct (list_find _ _) as [[i td]|]; rewrite Hf; [split; by eexists|].
  split; [|by intros [? ?]]. intros [x Hx]. by apply (lookup_empty_Some (M := gmap string)) in Hx.
Qed.

Lemma wired_inv (cfgs : list (Cfg Ctx Req W)) (os0 os : list (rop Ctx Req W)) :
  let d0 := foldl run_rop (NewDynamicRegistry cfgs) os0 in
  let s := foldl (run_wired marshal hd wt stack)
             (d0, Dynamic_RegisterWithServer marshal hd wt stack (d_reg d0) ∅) os in
  s.1 = foldl run_rop (NewDynamicRegistry cfgs) (os0 ++ os) ∧ dom (server s.2) = prev s.2.
Proof.
  cbn zeta. set (d0 := foldl run_rop (NewDynamicRegistry cfgs) os0).
  induction os as [|o os IH] using rev_ind.
  - rewrite app_nil_r. split; [done|]. cbn. apply fresh_server_dom. apply run_rops_wf.
  - rewrite app_assoc, !foldl_app. cbn [foldl]. rewrite <- !foldl_app.
    destruct IH as [IH1 IH2]. revert IH1 IH2. generalize (foldl (run_wired marshal hd wt stack)
      (d0, Dynamic_RegisterWithServer marshal hd wt stack (d_reg d0) ∅) os). intros [d w]. cbn.
    intros -> IH2. split; [done|].
    destruct (notifies _ o); [|done]. rewrite wire_sync_dom; [done| |done].
    change (reg_wf (d_reg (foldl run_rop (foldl run_rop (NewDynamicRegistry cfgs) (os0 ++ os)) [o]))).
    rewrite <- foldl_app. apply run_rops_wf.
Qed.

(** A wired server lists what the registry holds: whatever modules and tools are added,
    removed or deferred before and after the server is wired, every change that is
    announced leaves the server with exactly the registered names.  A name that was not
    published before gets the annotated descriptor and wrapped handler of its current
    definition, a name that stays keeps what was published for it, and changes that are
    not announced leave the server as it is. *)
Theorem wired_server_tracks_registry (cfgs : list (Cfg Ctx Req W)) (os0 os : list (rop Ctx Req W))
    (o : rop Ctx Req W) :
  let d0 := foldl run_rop (NewDynamicRegistry cfgs) os0 in
  let s := foldl (run_wired marshal hd wt stack)
             (d0, Dynamic_RegisterWithServer marshal hd wt stack (d_reg d0) ∅) os in
  let s' := run_wired marshal hd wt stack s o in
  let r := d_reg s'.1 in
  if notifies s.1 o then
    dom (server s'.2) = dom (tools r) ∧
    ∀ name td, tools r !! name = Some td →
      server s'.2 !! name = if decide (name ∈ dom (server s.2)) then server s.2 !! name
                            else Some (publication r name td)
  else server s'.2 = server s.2.
Proof.
  cbn zeta. destruct (wired_inv cfgs os0 os) as [Hd Hdom]. revert Hd Hdom.
  generalize (foldl (run_wired marshal hd wt stack)
    (foldl run_rop (NewDynamicRegistry cfgs) os0, Dynamic_RegisterWithServer marshal hd wt stack
       (d_reg (foldl run_rop (NewDynamicRegistry cfgs) os0)) ∅) os). intros [d w]. cbn. intros -> Hdom.
  assert (Hwf : reg_wf (d_reg (run_rop (foldl run_rop (NewDynamicRegistry cfgs) (os0 ++ os)) o))).
  { change (reg_wf (d_reg (foldl run_rop (foldl run_rop (NewDynamicRegistry cfgs) (os0 ++ os)) [o]))).
    rewrite <- foldl_app. apply run_rops_wf. }
  destruct (notifies _ o); [|done]. split; [by apply wire_sync_dom|].
  intros name td Ht. rewrite wire_sync_lookup by done. rewrite Ht, Hdom. done.
Qed.
End Wiring.

(** A definition that replaces another under the same name is announced but not
    published: clients keep seeing, and calling, the old one. *)
Lemma redefinition_not_published :
  let old := plain_definition idle_handler plain_tool in
  let w := WireToolListChanged (W := unit) (register_tool (NewToolRegistry []) old)
             (<["get" := (plain_tool, λ _ _ w, ((None, None), w))]> ∅) in
  ∀ td, tool_name td = "get" →
    server (wire_sync (λ _, None) (λ _ : unit, true) (λ c _, c) "" (register_tool (NewToolRegistry []) td) w) !! "get" =
    server w !! "get".
Proof.
  cbn zeta. intros td Htd. rewrite wire_sync_lookup.
  - unfold register_tool. cbn [tools set_maps]. unfold tool_name. rewrite complete_definition_name.
    fold (tool_name td). rewrite Htd, lookup_insert_eq. by rewrite decide_True by (by vm_compute).
  - apply register_tool_wf. split; cbn; [intros ? ? H|intros ? [? H]]; by rewrite lookup_empty in H.
  - by vm_compute.
Qed.
