(* ===== verification/Affinity.v ===== *)
(** Consistent-hash routing of sessions to upstreams (src/gateway/affinity.go): CRC-32,
    the hash ring, and the router with its sticky overrides. *)

From stdpp Require Import base tactics list gmap strings sorting.
From Stdlib Require Import ZArith Lia.
From S2P Require Import Prelude.

Local Open Scope Z_scope.

(** ** CRC-32 (hash/crc32, IEEE polynomial) *)
Definition crc_poly : Z := 3988292384.
Definition crc_bit (c : Z) : Z :=
  if Z.odd c then Z.lxor (Z.shiftr c 1) crc_poly else Z.shiftr c 1.
Definition crc_byte (c : Z) (a : Ascii.ascii) : Z :=
  Nat.iter 8 crc_bit (Z.lxor c (Z.of_nat (Ascii.nat_of_ascii a))).
Definition ChecksumIEEE (s : string) : Z :=
  Z.lxor (foldl crc_byte 4294967295 (String.list_ascii_of_string s)) 4294967295.

Example crc32_check_value : ChecksumIEEE "123456789" = 3421780262.
Proof. vm_compute. reflexivity. Qed.

(** ** The ring *)
Definition digit (n : nat) : string := byte_string (48 + n).

(** The digits of a replica number, least significant first. *)
Fixpoint rev_digits (fuel n : nat) : string :=
  match fuel with
  | O => ""
  | S fuel => if bool_decide (0 < n)%nat then digit (n mod 10) +:+ rev_digits fuel (n / 10) else ""
  end.
Definition replica_key (u : string) (i : nat) : string :=
  u +:+ ":" +:+ (if (i <? 10)%nat then digit i else rev_digits i i).

Definition node : Type := Z * string.
Definition upstream_nodes (replicas : nat) (u : string) : list node :=
  (λ i, (ChecksumIEEE (replica_key u i), u)) <$> seq 0 replicas.
Definition ring (replicas : nat) (upstreams : list string) : list node := upstreams ≫= upstream_nodes replicas.

Definition node_le (a b : node) : Prop := a.1 <= b.1.
#[export] Instance node_le_dec : RelDecision node_le.
Proof. intros a b. unfold node_le. apply _. Defined.
#[export] Instance node_le_total : Total node_le.
Proof. intros a b. unfold node_le. lia. Qed.
#[export] Instance node_le_trans : Transitive node_le.
Proof. intros a b c. unfold node_le. lia. Qed.

Definition default_replicas (replicas : Z) : nat := if replicas <=? 0 then 100 else Z.to_nat replicas.

Definition consistentHash (sessionID : string) (upstreams : list string) (replicas : Z) : string :=
  match upstreams with
  | [] => ""
  | [u] => u
  | _ =>
      let sorted := merge_sort node_le (ring (default_replicas replicas) upstreams) in
      let h := ChecksumIEEE sessionID in
      match list_find (λ n : node, h <= n.1) sorted with
      | Some (_, n) => n.2
      | None => match sorted with n :: _ => n.2 | [] => "" end
      end
  end.

(** ** The router *)
Record AffinityRouter := {
  upstreams : list string;
  replicas : Z;
  sticky : gmap string string
}.
Definition set_router (us : list string) (st : gmap string string) (ar : AffinityRouter) : AffinityRouter :=
  {| upstreams := us; replicas := replicas ar; sticky := st |}.

Definition NewAffinityRouter (us : list string) (n : Z) : AffinityRouter :=
  {| upstreams := us; replicas := if n <=? 0 then 100 else n; sticky := ∅ |}.

Definition Route (ar : AffinityRouter) (sessionID : string) : string :=
  match sticky ar !! sessionID with
  | Some override =>
      if decide (override ∈ upstreams ar) then override
      else consistentHash sessionID (upstreams ar) (replicas ar)
  | None => consistentHash sessionID (upstreams ar) (replicas ar)
  end.

Definition SetUpstreams (us : list string) (ar : AffinityRouter) : AffinityRouter :=
  set_router us (filter (λ p : string * string, p.2 ∈ us) (sticky ar)) ar.

Definition AddUpstream (name : string) (ar : AffinityRouter) : AffinityRouter :=
  if decide (name ∈ upstreams ar) then ar else set_router (upstreams ar ++ [name]) (sticky ar) ar.

Fixpoint remove_first (name : string) (us : list string) : list string :=
  match us with
  | [] => []
  | u :: us => if decide (u = name) then us else u :: remove_first name us
  end.
Definition RemoveUpstream (name : string) (ar : AffinityRouter) : AffinityRouter :=
  set_router (remove_first name (upstreams ar)) (filter (λ p : string * string, p.2 ≠ name) (sticky ar)) ar.

Definition SetSticky (sessionID upstream : string) (ar : AffinityRouter) : AffinityRouter :=
  set_router (upstreams ar) (<[sessionID := upstream]> (sticky ar)) ar.
Definition RemoveSticky (sessionID : string) (ar : AffinityRouter) : AffinityRouter :=
  set_router (upstreams ar) (delete sessionID (sticky ar)) ar.
Definition Upstreams (ar : AffinityRouter) : list string := upstreams ar.

(** ** Who owns a hash *)
Definition owns (h : Z) (nodes : list node) (n : node) : Prop :=
  n ∈ nodes ∧
  ((h <= n.1 ∧ ∀ m : node, m ∈ nodes → h <= m.1 → n.1 <= m.1) ∨
   ((∀ m : node, m ∈ nodes → m.1 < h) ∧ ∀ m : node, m ∈ nodes → n.1 <= m.1)).

(** No two upstreams have a node with the same hash. *)
Definition collision_free (nodes : list node) : Prop :=
  ∀ n m : node, n ∈ nodes → m ∈ nodes → n.1 = m.1 → n.2 = m.2.

Lemma owns_unique h nodes n m : collision_free nodes → owns h nodes n → owns h nodes m → n.2 = m.2.
Proof.
  intros Hc [Hn Hn'] [Hm Hm']. apply Hc; [done..|].
  destruct Hn' as [[A B]|[A B]], Hm' as [[C D]|[C D]].
  - pose proof (B m Hm C). pose proof (D n Hn A). lia.
  - pose proof (C n Hn). lia.
  - pose proof (A m Hm). lia.
  - pose proof (B m Hm). pose proof (D n Hn). lia.
Qed.

Lemma owns_sub h nodes nodes' n : (∀ m, m ∈ nodes → m ∈ nodes') → n ∈ nodes → owns h nodes' n → owns h nodes n.
Proof. intros Hs Hn [_ [[A B]|[A B]]]; split; auto. Qed.

Lemma elem_of_ring k us n : n ∈ ring k us ↔ n.2 ∈ us ∧ n ∈ upstream_nodes k n.2.
Proof.
  unfold ring. rewrite list_elem_of_bind. split.
  - intros (u & Hn & Hu). assert (n.2 = u) as ->; [|done].
    apply list_elem_of_fmap in Hn as (i & -> & _). done.
  - intros [Hu Hn]. by exists n.2.
Qed.

Lemma ring_sub k us us' n : us ⊆ us' → n ∈ ring k us → n ∈ ring k us'.
Proof. rewrite !elem_of_ring. intros Hs [Hu Hn]. split; auto. Qed.

Lemma default_replicas_pos r : (0 < default_replicas r)%nat.
Proof. unfold default_replicas. destruct (Z.leb_spec r 0); lia. Qed.

Lemma ring_nonempty k u us : (0 < k)%nat → ∃ n, n ∈ ring k (u :: us).
Proof.
  intros Hk. exists (ChecksumIEEE (replica_key u 0), u). apply elem_of_ring. cbn. split; [left|].
  apply list_elem_of_fmap. exists 0%nat. split; [done|]. apply elem_of_seq. lia.
Qed.

(** The search on the sorted ring finds the owner. *)
Lemma search_owner h l :
  Sorted node_le l →
  match list_find (λ n : node, h <= n.1) l with
  | Some (_, n) => owns h l n
  | None => match l with n :: _ => owns h l n | [] => True end
  end.
Proof.
  intros Hs. apply Sorted_StronglySorted in Hs; [|apply _].
  destruct (list_find _ l) as [[i n]|] eqn:E.
  - apply list_find_Some in E as (Hi & Hh & Hbefore). split; [by eapply list_elem_of_lookup_2|].
    left. split; [done|]. intros m Hm Hm'. apply list_elem_of_lookup in Hm as [j Hj].
    destruct (decide (j < i)%nat) as [Hlt|Hge]; [exfalso; exact (Hbefore j m Hj Hlt Hm')|].
    destruct (decide (i = j)) as [->|Hne]; [assert (Some n = Some m) as Enm by (etrans; [symmetry; exact Hi|exact Hj]); injection Enm as <-; lia|].
    rewrite <- (take_drop (S i) l) in Hs. apply (StronglySorted_app_1_elem_of _ _ _ n m Hs).
    + apply list_elem_of_lookup. exists i. rewrite <- Hi. apply lookup_take_lt. lia.
    + apply list_elem_of_lookup. exists (j - S i)%nat. rewrite lookup_drop. rewrite <- Hj. f_equal. lia.
  - apply list_find_None in E. rewrite Forall_forall in E. destruct l as [|n l]; [done|].
    split; [left|right]. split; [intros m Hm; specialize (E m Hm); cbn in E; lia|].
    intros m [->|Hm]%elem_of_cons; [done|]. apply StronglySorted_inv in Hs as [_ Hs].
    rewrite Forall_forall in Hs. by apply Hs.
Qed.

Lemma merge_sort_owner h l n : owns h (merge_sort node_le l) n → owns h l n.
Proof.
  intros [Hn H]. assert (E : ∀ m, m ∈ l ↔ m ∈ merge_sort node_le l) by (intros m; by rewrite merge_sort_Permutation).
  split; [by apply E|]. destruct H as [[A B]|[A B]]; [left|right]; split; try done; intros m Hm; [apply B|apply A|apply B];
    by apply E.
Qed.

Lemma consistentHash_owner sid us r :
  us ≠ [] →
  ∃ n, owns (ChecksumIEEE sid) (ring (default_replicas r) us) n ∧ n.2 = consistentHash sid us r.
Proof.
  intros Hne. set (l := merge_sort node_le (ring (default_replicas r) us)).
  assert (Hfind : ∃ n, owns (ChecksumIEEE sid) (ring (default_replicas r) us) n ∧
     n.2 = match list_find (λ n : node, ChecksumIEEE sid <= n.1) l with
           | Some (_, n) => n.2 | None => match l with n :: _ => n.2 | [] => "" end end).
  { pose proof (search_owner (ChecksumIEEE sid) l (Sorted_merge_sort node_le _)) as Ho.
    destruct (list_find _ l) as [[i n]|]; [exists n; split; [by apply merge_sort_owner|done]|].
    destruct l as [|n l'] eqn:El; [|exists n; split; [apply merge_sort_owner; unfold l in El; by rewrite El|done]].
    exfalso. destruct us as [|u us]; [done|].
    destruct (ring_nonempty (default_replicas r) u us (default_replicas_pos r)) as [n Hn].
    assert (n ∈ l) as Hin by (unfold l; by rewrite merge_sort_Permutation).
    rewrite El in Hin. by apply elem_of_nil in Hin. }
  destruct us as [|u [|v us]]; [done| |exact Hfind].
  destruct Hfind as (n & Hn & _). exists n. split; [done|]. destruct Hn as [Hn _].
  apply elem_of_ring in Hn as [Hn _]. by apply list_elem_of_singleton in Hn.
Qed.

Lemma consistentHash_in sid us r : us ≠ [] → consistentHash sid us r ∈ us.
Proof.
  intros Hne. destruct (consistentHash_owner sid us r Hne) as (n & [Hn _] & <-).
  by apply elem_of_ring in Hn as [Hn _].
Qed.

(** Taking upstreams away, in any order, moves only the sessions that were on them. *)
Lemma consistentHash_minimal sid us us' r :
  collision_free (ring (default_replicas r) us') → us ⊆ us' → consistentHash sid us' r ∈ us →
  consistentHash sid us r = consistentHash sid us' r.
Proof.
  intros Hc Hsub Hin. assert (us ≠ []) as Hne by (intros ->; by apply elem_of_nil in Hin).
  assert (us' ≠ []) as Hne'.
  { intros ->. destruct us as [|u us]; [done|]. specialize (Hsub u (list_elem_of_here u us)). by apply elem_of_nil in Hsub. }
  destruct (consistentHash_owner sid us r Hne) as (n & Hn & En).
  destruct (consistentHash_owner sid us' r Hne') as (m & Hm & Em).
  rewrite <- En, <- Em. rewrite <- Em in Hin.
  apply (owns_unique (ChecksumIEEE sid) (ring (default_replicas r) us)); [|done|].
  - intros a b Ha Hb. apply Hc; by eapply ring_sub.
  - apply (owns_sub _ _ (ring (default_replicas r) us')); [intros x; by apply ring_sub| |done].
    destruct Hm as [Hm _]. apply elem_of_ring in Hm as [_ Hm]. by apply elem_of_ring.
Qed.

(** Consistent hashing: every session goes to one of the upstreams, whatever order
    they are listed in; and when the upstream list changes, a session moves only if its
    upstream went away or to an upstream that is new.  (The ring has no two upstreams
    with a node of the same CRC-32.) *)
Theorem consistent_hash_stable (sid : string) (us us' : list string) (r : Z) :
  us ≠ [] → us' ≠ [] → collision_free (ring (default_replicas r) (us ++ us')) →
  consistentHash sid us r ∈ us ∧
  (us ≡ₚ us' → consistentHash sid us r = consistentHash sid us' r) ∧
  (consistentHash sid us r = consistentHash sid us' r ∨
   consistentHash sid us r ∉ us' ∨ consistentHash sid us' r ∉ us).
Proof.
  intros Hne Hne' Hc.
  assert (Hleft : consistentHash sid (us ++ us') r ∈ us → consistentHash sid us r = consistentHash sid (us ++ us') r).
  { intros H. apply consistentHash_minimal; [done|set_solver|done]. }
  assert (Hright : consistentHash sid (us ++ us') r ∈ us' → consistentHash sid us' r = consistentHash sid (us ++ us') r).
  { intros H. apply consistentHash_minimal; [done|set_solver|done]. }
  assert (Hboth : consistentHash sid (us ++ us') r ∈ us ++ us').
  { apply consistentHash_in. by destruct us. }
  pose proof (consistentHash_in sid us r Hne) as Hin. pose proof (consistentHash_in sid us' r Hne') as Hin'.
  split; [done|]. split.
  - intros Hp. assert (Hsame : ∀ x, x ∈ us ↔ x ∈ us') by (intros x; by rewrite Hp).
    apply elem_of_app in Hboth. rewrite Hleft, Hright; [done|..]; destruct Hboth as [H|H]; first [exact H|by apply Hsame].
  - apply elem_of_app in Hboth.
    destruct (decide (consistentHash sid us r ∈ us')) as [A|A]; [|by right; left].
    destruct (decide (consistentHash sid us' r ∈ us)) as [B|B]; [|by right; right]. left.
    destruct Hboth as [H|H].
    + rewrite (Hleft H) in A |- *. by rewrite Hright.
    + rewrite (Hright H) in B |- *. by rewrite Hleft.
Qed.

Lemma remove_first_sub name us : remove_first name us ⊆ us.
Proof. induction us as [|u us IH]; [done|]. cbn. case_decide; set_solver. Qed.

Lemma remove_first_keeps name us v : v ∈ us → v ≠ name → v ∈ remove_first name us.
Proof. induction us as [|u us IH]; [done|]. cbn. intros Hv Hn. case_decide; set_solver. Qed.

Lemma Route_in ar sid : upstreams ar ≠ [] → Route ar sid ∈ upstreams ar.
Proof.
  intros Hne. unfold Route. destruct (sticky ar !! sid) as [o|]; [|by apply consistentHash_in].
  case_decide; [done|by apply consistentHash_in].
Qed.

(** Restricting the upstreams, with any subset of the overrides that keeps those still
    in force, keeps every session whose upstream remains. *)
Lemma Route_restrict ar us st sid :
  collision_free (ring (default_replicas (replicas ar)) (upstreams ar)) →
  us ⊆ upstreams ar → Route ar sid ∈ us →
  (∀ o, st !! sid = Some o → sticky ar !! sid = Some o) →
  (∀ o, sticky ar !! sid = Some o → o ∈ us → st !! sid = Some o) →
  Route (set_router us st ar) sid = Route ar sid.
Proof.
  intros Hc Hsub Hin Hst Hst'. unfold Route in *. cbn [upstreams sticky replicas set_router].
  destruct (sticky ar !! sid) as [o|] eqn:Es.
  - destruct (decide (o ∈ upstreams ar)) as [Ho|Ho].
    + rewrite (Hst' o eq_refl Hin). by rewrite decide_True.
    + assert (Hh : consistentHash sid us (replicas ar) = consistentHash sid (upstreams ar) (replicas ar)).
      { by apply consistentHash_minimal. }
      destruct (st !! sid) as [o'|] eqn:Es'; [|done]. specialize (Hst o' eq_refl). simplify_eq.
      rewrite decide_False; [done|]. intros Ho'. by apply Ho, Hsub.
  - destruct (st !! sid) as [o'|] eqn:Es'; [by specialize (Hst o' eq_refl)|]. by apply consistentHash_minimal.
Qed.

(** The router sends every session to a listed upstream, an override in force wins,
    and changes of the list disturb as few sessions as possible: adding an upstream
    moves sessions only to it, removing one (or restricting the list) moves only the
    sessions that were on an upstream removed, and removal leaves no override that
    points to it. *)
Theorem router_minimal_disruption (ar : AffinityRouter) (sid name : string) (us : list string) :
  upstreams ar ≠ [] →
  collision_free (ring (default_replicas (replicas ar)) (upstreams ar ++ [name])) →
  Route ar sid ∈ upstreams ar ∧
  (∀ u, u ∈ upstreams ar → Route (SetSticky sid u ar) sid = u) ∧
  (Route (AddUpstream name ar) sid = Route ar sid ∨ Route (AddUpstream name ar) sid = name) ∧
  (Route ar sid ≠ name → Route (RemoveUpstream name ar) sid = Route ar sid) ∧
  (us ⊆ upstreams ar → Route ar sid ∈ us → Route (SetUpstreams us ar) sid = Route ar sid) ∧
  (∀ sid', sticky (RemoveUpstream name ar) !! sid' ≠ Some name).
Proof.
  intros Hne Hc.
  assert (Hc' : collision_free (ring (default_replicas (replicas ar)) (upstreams ar))).
  { intros n m Hn Hm. apply Hc; (eapply ring_sub; [|done]); set_solver. }
  split; [by apply Route_in|]. split; [|split; [|split; [|split]]].
  - intros u Hu. unfold Route, SetSticky. cbn. rewrite lookup_insert_eq. by rewrite decide_True.
  - unfold AddUpstream. case_decide as Hin; [by left|].
    destruct (decide (Route (set_router (upstreams ar ++ [name]) (sticky ar) ar) sid = name)) as [|Hn]; [by right|left].
    pose (ar' := set_router (upstreams ar ++ [name]) (sticky ar) ar).
    assert (Hr : Route ar' sid ∈ upstreams ar).
    { assert (Hr : Route ar' sid ∈ upstreams ar') by (apply Route_in; cbn; by destruct (upstreams ar)).
      cbn in Hr. apply elem_of_app in Hr as [Hr|Hr]; [done|]. by apply list_elem_of_singleton in Hr. }
    symmetry. etrans; [|apply (Route_restrict ar' (upstreams ar) (sticky ar)); try done].
    + by destruct ar.
    + cbn. set_solver.
  - intros Hn. apply Route_restrict; [done|apply remove_first_sub|by apply remove_first_keeps; [apply Route_in|]| |].
    + intros o Ho. by apply map_lookup_filter_Some in Ho as [Ho _].
    + intros o Ho Hin. apply map_lookup_filter_Some. split; [done|]. cbn. intros ->.
      apply Hn. unfold Route. rewrite Ho. rewrite decide_True; [done|]. by eapply remove_first_sub.
  - intros Hsub Hin. apply Route_restrict; [done..| |].
    + intros o Ho. by apply map_lookup_filter_Some in Ho as [Ho _].
    + intros o Ho Hin'. by apply map_lookup_filter_Some.
  - intros sid' H. by apply map_lookup_filter_Some in H as [_ H].
Qed.

(** Witnesses on the real checksum. *)
Definition no_collision (nodes : list node) : bool :=
  forallb (λ n : node, forallb (λ m : node, negb (n.1 =? m.1) || String.eqb n.2 m.2) nodes) nodes.
Lemma no_collision_spec nodes : no_collision nodes = true → collision_free nodes.
Proof.
  unfold no_collision. rewrite forallb_forall. intros H n m Hn Hm E.
  apply list_elem_of_In in Hn, Hm. specialize (H n Hn). rewrite forallb_forall in H. specialize (H m Hm).
  rewrite E, Z.eqb_refl in H. by apply String.eqb_eq.
Qed.

Lemma consistent_hash_stable_witness :
  consistentHash "session-7" ["blue"; "green"; "red"] 8 = consistentHash "session-7" ["red"; "blue"; "green"] 8.
Proof.
  apply (consistent_hash_stable "session-7" ["blue"; "green"; "red"] ["red"; "blue"; "green"] 8).
  - discriminate.
  - discriminate.
  - apply no_collision_spec. vm_compute. reflexivity.
  - apply (Permutation_cons_append ["blue"; "green"] "red" : "red" :: _ ≡ₚ _) || (symmetry; apply (Permutation_cons_append ["blue"; "green"] "red")).
Defined.

Lemma router_minimal_disruption_witness :
  let ar := NewAffinityRouter ["blue"; "green"] 0 in
  Route (AddUpstream "red" ar) "session-7" = Route ar "session-7" ∨ Route (AddUpstream "red" ar) "session-7" = "red".
Proof.
  apply (router_minimal_disruption (NewAffinityRouter ["blue"; "green"] 0) "session-7" "red" []).
  - discriminate.
  - apply no_collision_spec. vm_compute. reflexivity.
Defined.
