(* ===== verification/Gateway.v ===== *)
(** The gateway (src/gateway/): upstream servers and their health (upstream.go), per-upstream
    resilience (resilience.go), namespaced registration and proxying (gateway.go), the
    dynamic upstream registry (dynamic.go) and session affinity (session_affinity.go). *)

From stdpp Require Import base tactics list gmap strings sorting.
From Stdlib Require Import ZArith Lia.
From S2P Require Import Prelude CircuitBreaker Cache RateLimit Tool Truncate Registry.

Local Open Scope Z_scope.

(** ** Configuration (upstream.go, resilience.go) *)
Record ResponseCacheConfig := { rc_TTL : duration; MaxEntries : Z }.

Record UpstreamPolicy := {
  CircuitBreaker_ : option CircuitBreakerConfig;
  RateLimit_ : option RateLimitConfig;
  CallTimeout : duration;
  ResponseCache : option ResponseCacheConfig
}.
Definition zero_policy : UpstreamPolicy :=
  {| CircuitBreaker_ := None; RateLimit_ := None; CallTimeout := 0; ResponseCache := None |}.
Definition policy_is_zero (p : UpstreamPolicy) : bool :=
  match p with
  | {| CircuitBreaker_ := None; RateLimit_ := None; CallTimeout := t; ResponseCache := None |} => t =? 0
  | _ => false
  end.

Record UpstreamConfig := {
  uc_Name : string;
  URL : string;
  AllowedTools : list string;
  HealthInterval : duration;
  UnhealthyThreshold : Z;
  Policy : UpstreamPolicy
}.

Definition applyDefaults (c : UpstreamConfig) : UpstreamConfig := {|
  uc_Name := uc_Name c; URL := URL c; AllowedTools := AllowedTools c;
  HealthInterval := if HealthInterval c =? 0 then 30 * Second else HealthInterval c;
  UnhealthyThreshold := if UnhealthyThreshold c =? 0 then 3 else UnhealthyThreshold c;
  Policy := Policy c |}.

Definition allowsTool (c : UpstreamConfig) (name : string) : bool :=
  bool_decide (AllowedTools c = []) || bool_decide (name ∈ AllowedTools c).

Definition namespacedName (namespace toolName : string) : string := namespace +:+ "." +:+ toolName.
Definition originalName (namespace namespacedToolName : string) : string :=
  let prefix := namespace +:+ "." in
  if has_prefix prefix namespacedToolName then string_drop (String.length prefix) namespacedToolName
  else namespacedToolName.

(** ** An upstream; [client] is the address of its connection, [u_resilience] that of its
    resilience objects. *)
Record upstream := {
  config_ : UpstreamConfig;
  client : nat;
  u_resilience : option nat;
  u_tools : list Tool;
  healthy : bool;
  failCount : Z
}.
Definition set_health (h : bool) (n : Z) (u : upstream) : upstream := {|
  config_ := config_ u; client := client u; u_resilience := u_resilience u; u_tools := u_tools u;
  healthy := h; failCount := n |}.

Definition wrap32 (z : Z) : Z := (z + 2 ^ 31) mod 2 ^ 32 - 2 ^ 31.

(** One tick of the health loop, given whether the ping failed; the boolean of the result is
    the change it reports. *)
Definition health_tick (ping_failed : bool) (u : upstream) : option bool * upstream :=
  if ping_failed then
    let count := wrap32 (failCount u + 1) in
    if (UnhealthyThreshold (config_ u) <=? count) && healthy u
    then (Some false, set_health false count u) else (None, set_health (healthy u) count u)
  else if negb (healthy u) then (Some true, set_health true 0 u) else (None, set_health true 0 u).

(** ** Resilience objects (resilience.go) *)
Record upstreamResilience := {
  cb : option CircuitBreaker;
  limiter : option RateLimiter;
  timeout : duration;
  cache : option (KeyedCache CallToolResult)
}.

Definition newUpstreamResilience (name : string) (p : UpstreamPolicy) (now : time) : option upstreamResilience :=
  if policy_is_zero p then None else Some {|
    cb := (λ c, NewCircuitBreaker name c false) <$> CircuitBreaker_ p;
    limiter := (λ c, NewRateLimiter (Rate c) (Burst c) now) <$> RateLimit_ p;
    timeout := CallTimeout p;
    cache := (λ c, NewKeyedCache (rc_TTL c) (MaxEntries c)) <$> ResponseCache p |}.

Definition circuitState (ur : option upstreamResilience) : string :=
  match ur with
  | Some {| cb := Some b |} => CircuitState_String (cb_state b)
  | _ => ""
  end.

Definition set_cb (b : CircuitBreaker) (ur : upstreamResilience) : upstreamResilience :=
  {| cb := Some b; limiter := limiter ur; timeout := timeout ur; cache := cache ur |}.
Definition set_limiter (l : RateLimiter) (ur : upstreamResilience) : upstreamResilience :=
  {| cb := cb ur; limiter := Some l; timeout := timeout ur; cache := cache ur |}.
Definition set_cache (c : KeyedCache CallToolResult) (ur : upstreamResilience) : upstreamResilience :=
  {| cb := cb ur; limiter := limiter ur; timeout := timeout ur; cache := Some c |}.

(** What handlers see of the gateway: the upstreams by name, and the resilience objects by
    address. *)
Record UpstreamTable := {
  upstreams : gmap string upstream;
  objects : nat → upstreamResilience;
  next_object : nat
}.
Definition set_upstreams (m : gmap string upstream) (t : UpstreamTable) : UpstreamTable :=
  {| upstreams := m; objects := objects t; next_object := next_object t |}.
Definition set_object (p : nat) (ur : upstreamResilience) (t : UpstreamTable) : UpstreamTable :=
  {| upstreams := upstreams t; objects := λ q, if decide (q = p) then ur else objects t q;
     next_object := next_object t |}.

Section Gateway.
Context {Ctx Req W : Type} `{!Cell W UpstreamTable}.
Variable now : W → time.
Variable with_timeout : Ctx → duration → Ctx.
(** The request's tool name and arguments, and [resilience.CacheKey]'s encoders. *)
Variable requestToolName : Req → string.
Variable ExtractArguments : Req → list (string * json).
Variable marshal : canonical → string.
Variable sha256_hex : string → string.
(** The connections: open one to a URL, list its tools, call one, close. *)
Variable newUpstreamClient : string → W → (error + nat) * W.
Variable listTools : nat → W → (error + list Tool) * W.
Variable callTool : nat → Ctx → string → list (string * json) → W → (error + option CallToolResult) * W.
Variable close : nat → W → option error * W.

Local Notation TD := (ToolDefinition (ToolHandlerFunc Ctx Req W)).

Definition object (p : nat) (w : W) : upstreamResilience := objects (peek w) p.
Definition put_object (p : nat) (ur : upstreamResilience) (w : W) : W := poke (set_object p ur (peek w)) w.

Definition answer_error (text : string) : outcome := Returns (Some (MakeErrorResult text)) None.

(** The steps of [wrapHandler], outermost first: cache, limiter, timeout, breaker. *)
Definition breaker_part (p : nat) (upstreamName : string) (next : ToolHandlerFunc Ctx Req W) :
    ToolHandlerFunc Ctx Req W :=
  λ ctx request w,
    match cb (object p w) with
    | None => next ctx request w
    | Some b =>
        match canExecute b (now w) with
        | (false, b, _) =>
            (answer_error ("upstream " +:+ quote upstreamName +:+ " circuit breaker is open"),
             put_object p (set_cb b (object p w)) w)
        | (true, b, _) =>
            match next ctx request (put_object p (set_cb b (object p w)) w) with
            | (Panics v, w) => (Panics v, w)
            | (Returns result err, w) =>
                let b := default b (cb (object p w)) in
                let w := put_object p (set_cb (recordResult b (now w) err).1 (object p w)) w in
                if match err with Some e => errors_is e ErrCircuitOpen | None => false end
                then (answer_error ("upstream " +:+ quote upstreamName +:+ " circuit breaker is open"), w)
                else (Returns result err, w)
            end
        end
    end.

Definition limiter_part (p : nat) (upstreamName : string) (next : ToolHandlerFunc Ctx Req W) :
    ToolHandlerFunc Ctx Req W :=
  λ ctx request w,
    match limiter (object p w) with
    | None => next ctx request w
    | Some l =>
        let '(ok, l) := Allow (now w) l in
        let w := put_object p (set_limiter l (object p w)) w in
        if ok then next ctx request w
        else (answer_error ("upstream " +:+ quote upstreamName +:+ " rate limit exceeded"), w)
    end.

Definition timeout_part (p : nat) (next : ToolHandlerFunc Ctx Req W) : ToolHandlerFunc Ctx Req W :=
  λ ctx request w,
    let t := timeout (object p w) in next (if 0 <? t then with_timeout ctx t else ctx) request w.

Definition cacheable (result : option CallToolResult) (err : option error) : option CallToolResult :=
  match err, result with None, Some r => if IsError r then None else Some r | _, _ => None end.

Definition cache_part (p : nat) (next : ToolHandlerFunc Ctx Req W) : ToolHandlerFunc Ctx Req W :=
  λ ctx request w,
    match cache (object p w) with
    | None => next ctx request w
    | Some c =>
        let cacheKey := CacheKey marshal sha256_hex (requestToolName request) (ExtractArguments request) in
        let '(cached, c) := Cache_Get c (now w) cacheKey in
        let w := put_object p (set_cache c (object p w)) w in
        match cached with
        | Some r => (Returns (Some r) None, w)
        | None =>
            match next ctx request w with
            | (Panics v, w) => (Panics v, w)
            | (Returns result err, w) =>
                match cacheable result err with
                | None => (Returns result err, w)
                | Some r =>
                    let c := default c (cache (object p w)) in
                    (Returns result err, put_object p (set_cache (Cache_Set c (now w) cacheKey r) (object p w)) w)
                end
            end
        end
    end.

Definition resilience_wrapHandler (p : nat) (upstreamName : string) (next : ToolHandlerFunc Ctx Req W) :
    ToolHandlerFunc Ctx Req W :=
  cache_part p (limiter_part p upstreamName (timeout_part p (breaker_part p upstreamName next))).

(** ** Proxying (gateway.go) *)
Definition makeProxyHandler (upstreamName originalToolName : string) : ToolHandlerFunc Ctx Req W :=
  λ ctx request w,
    match upstreams (peek w) !! upstreamName with
    | None => (answer_error ("upstream " +:+ quote upstreamName +:+ " not found"), w)
    | Some u =>
        if negb (healthy u) then (answer_error ("upstream " +:+ quote upstreamName +:+ " is unhealthy"), w)
        else match callTool (client u) ctx originalToolName (ExtractArguments request) w with
             | (inl err, w) =>
                 (answer_error ("upstream " +:+ quote upstreamName +:+ " call failed: " +:+ error_text err), w)
             | (inr result, w) => (Returns result None, w)
             end
    end.

(** ** The gateway's own state (gateway.go) *)
Definition ErrUpstreamNotFound : error := ErrSentinel "gateway.ErrUpstreamNotFound" "gateway: upstream not found".
Definition ErrDuplicateUpstream : error :=
  ErrSentinel "gateway.ErrDuplicateUpstream" "gateway: duplicate upstream name".
Definition ErrGatewayClosed : error := ErrSentinel "gateway.ErrGatewayClosed" "gateway: closed".

Record Gateway := { toolMap : gmap string string; reg : DynamicRegistry Ctx Req W; closed : bool }.

Definition NewGateway (middleware : list (Middleware Ctx Req W)) : Gateway := {|
  toolMap := ∅;
  reg := NewDynamicRegistry [{| DefaultTimeout := 0; MaxResponseSize := 0; ToolNamePrefix := "";
                                RuntimeGroupMapper := None; MiddlewareChain := middleware |}];
  closed := false |}.

Definition rename (name : string) (t : Tool) : Tool := {|
  Name := name; Title := Title t; Description := Description t; Annotations := Annotations t;
  InputSchema := InputSchema t; ToolOutputSchema := ToolOutputSchema t; Meta := Meta t;
  ToolDeferLoading := ToolDeferLoading t |}.

Definition proxy_definition (upstreamName : string) (p : option nat) (tool : Tool) : TD :=
  let handler := makeProxyHandler upstreamName (Name tool) in
  let handler := match p with Some p => resilience_wrapHandler p upstreamName handler | None => handler end in
  {| td_Tool := rename (namespacedName upstreamName (Name tool)) tool; Handler := handler; Category := "";
     Subcategory := ""; Tags := []; SearchTerms := []; Complexity := ""; IsWrite := false; Deprecated := false;
     td_Timeout := 0; CircuitBreakerGroup := ""; RuntimeGroup := ""; OutputSchema := None; MaxResultChars := 0;
     DeferLoading := false; AlwaysLoad := false; SkipRequiresUserInteraction := false; DestructiveOverride := None;
     IdempotentOverride := None; ReadOnlyOverride := None |}.

Definition register_proxy (upstreamName : string) (p : option nat) (g : Gateway) (tool : Tool) : Gateway := {|
  toolMap := <[namespacedName upstreamName (Name tool) := upstreamName]> (toolMap g);
  reg := AddTool (reg g) (proxy_definition upstreamName p tool);
  closed := closed g |}.

Definition duplicate (name : string) : error := ErrWrap "" ErrDuplicateUpstream (": " +:+ name).

(** [AddUpstream] in its two critical sections; other calls can run between them. *)
Definition add_check (config : UpstreamConfig) (g : Gateway) (w : W) : option error :=
  if closed g then Some ErrGatewayClosed
  else match upstreams (peek w) !! uc_Name config with
       | Some _ => Some (duplicate (uc_Name config))
       | None => None
       end.

Definition add_commit (config : UpstreamConfig) (conn : nat) (tools : list Tool) (g : Gateway) (w : W) :
    (error + Z) * Gateway * W :=
  match upstreams (peek w) !! uc_Name config with
  | Some _ => (inl (duplicate (uc_Name config)), g, (close conn w).2)
  | None =>
      let t : UpstreamTable := peek w in
      let p := match newUpstreamResilience (uc_Name config) (Policy config) (now w) with
               | Some ur => Some (next_object t, ur) | None => None end in
      let u := {| config_ := config; client := conn; u_resilience := fst <$> p; u_tools := tools;
                  healthy := true; failCount := 0 |} in
      let t := {| upstreams := <[uc_Name config := u]> (upstreams t);
                  objects := match p with
                             | Some (a, ur) => λ q, if decide (q = a) then ur else objects t q
                             | None => objects t end;
                  next_object := match p with Some (a, _) => S a | None => next_object t end |} in
      (inr (Z.of_nat (length tools)), foldl (register_proxy (uc_Name config) (fst <$> p)) g tools, poke t w)
  end.

Definition AddUpstream (config : UpstreamConfig) (g : Gateway) (w : W) : (error + Z) * Gateway * W :=
  let config := applyDefaults config in
  match add_check config g w with
  | Some err => (inl err, g, w)
  | None =>
      match newUpstreamClient (URL config) w with
      | (inl err, w) => (inl (ErrWrap ("connecting to upstream " +:+ uc_Name config +:+ ": ") err ""), g, w)
      | (inr conn, w) =>
          match listTools conn w with
          | (inl err, w) =>
              (inl (ErrWrap ("syncing tools from upstream " +:+ uc_Name config +:+ ": ") err ""), g, (close conn w).2)
          | (inr tools, w) => add_commit config conn (filter (λ t, allowsTool config (Name t) = true) tools) g w
          end
      end
  end.

Definition remove_proxy (g : Gateway) (nsName : string) : Gateway := {|
  toolMap := delete nsName (toolMap g); reg := (RemoveTool (reg g) nsName).2; closed := closed g |}.

Definition RemoveUpstream (name : string) (g : Gateway) (w : W) : bool * Gateway * W :=
  match upstreams (peek w) !! name with
  | None => (false, g, w)
  | Some u =>
      let toRemove := (map_to_list (filter (λ p : string * string, p.2 = name) (toolMap g))).*1 in
      (true, foldl remove_proxy g toRemove,
       (close (client u) (poke (set_upstreams (delete name (upstreams (peek w))) (peek w)) w)).2)
  end.

Definition ListUpstreams (w : W) : gset string := dom (upstreams (peek w)).

Record UpstreamInfo := {
  ui_Name : string; ui_URL : string; Healthy : bool; ToolCount_ : Z; CircuitState_ : string }.
Definition UpstreamStatus (name : string) (w : W) : error + UpstreamInfo :=
  match upstreams (peek w) !! name with
  | None => inl (ErrWrap "" ErrUpstreamNotFound (": " +:+ name))
  | Some u => inr {| ui_Name := name; ui_URL := URL (config_ u); Healthy := healthy u;
                     ToolCount_ := Z.of_nat (length (u_tools u));
                     CircuitState_ := circuitState ((λ p, object p w) <$> u_resilience u) |}
  end.

(** Closing marks the gateway, closes every connection in the order [walk] of the map, and
    reports the last error. *)
Definition close_step (acc : option error * W) (p : string * upstream) : option error * W :=
  match close (client p.2) acc.2 with
  | (Some err, w) => (Some (ErrWrap ("closing upstream " +:+ p.1 +:+ ": ") err ""), w)
  | (None, w) => (acc.1, w)
  end.
Definition Close (walk : list (string * upstream)) (g : Gateway) (w : W) : option error * Gateway * W :=
  if closed g then (Some ErrGatewayClosed, g, w)
  else let '(lastErr, w) := foldl close_step (None, w) walk in
       (lastErr, {| toolMap := toolMap g; reg := reg g; closed := true |}, w).
End Gateway.
Arguments Gateway : clear implicits.

(** ** Health follows the run of failed pings *)
Definition after_pings (rs : list bool) (u : upstream) : upstream :=
  foldl (λ u failed, (health_tick failed u).2) u rs.
Definition failed_run (rs : list bool) : Z := foldl (λ n failed, if failed : bool then n + 1 else 0) 0 rs.

(** An upstream is healthy exactly while the run of failed pings at the end is shorter
    than its threshold: the pings before the last success do not matter, one success
    restores it, and the failure counter is the length of that run. *)
Theorem health_by_failed_run (rs : list bool) (u : upstream) :
  healthy u = true → failCount u = 0 → 0 < UnhealthyThreshold (config_ u) → Z.of_nat (length rs) < 2 ^ 31 →
  healthy (after_pings rs u) = (failed_run rs <? UnhealthyThreshold (config_ u)) ∧
  failCount (after_pings rs u) = failed_run rs.
Proof.
  intros Hh Hf Ht Hl.
  assert (H : config_ (after_pings rs u) = config_ u ∧ 0 <= failed_run rs <= Z.of_nat (length rs) ∧
    healthy (after_pings rs u) = (failed_run rs <? UnhealthyThreshold (config_ u)) ∧
    failCount (after_pings rs u) = failed_run rs); [|by destruct H as (_ & _ & ?)].
  induction rs as [|r rs IH] using rev_ind.
  - cbn. rewrite Hh, Hf. split_and!; [done|lia|lia|symmetry; by apply Z.ltb_lt|done].
  - rewrite length_app in Hl |- *. cbn [length] in *.
    destruct IH as (Hc & Hr & Hi & Hn); [lia|]. unfold after_pings, failed_run in *. rewrite !foldl_app. cbn [foldl].
    set (v := foldl _ u rs) in *. set (n := foldl _ 0 rs) in *. destruct r; unfold health_tick.
    + rewrite Hc, Hn. replace (wrap32 (n + 1)) with (n + 1) by (unfold wrap32; rewrite Z.mod_small by lia; lia).
      rewrite Hi. destruct (Z.leb_spec (UnhealthyThreshold (config_ u)) (n + 1)), (Z.ltb_spec n (UnhealthyThreshold (config_ u)));
        cbn; split_and!; try done; try lia; symmetry; (apply Z.ltb_lt || apply Z.ltb_ge); lia.
    + destruct (negb (healthy v)); cbn; (split_and!; try done; try lia; symmetry; apply Z.ltb_lt; lia).
Qed.

Definition fresh_upstream (threshold : Z) : upstream := {|
  config_ := {| uc_Name := "blue"; URL := "http://blue"; AllowedTools := []; HealthInterval := Second;
                UnhealthyThreshold := threshold; Policy := zero_policy |};
  client := 0; u_resilience := None; u_tools := []; healthy := true; failCount := 0 |}.
Lemma health_by_failed_run_witness : healthy (after_pings [true; false; true; true] (fresh_upstream 3)) = true.
Proof. apply (health_by_failed_run [true; false; true; true] (fresh_upstream 3)); (reflexivity || (cbn; lia)). Defined.

(** ** The gateway's tables agree *)
Lemma complete_definition_handler {H} m (td : ToolDefinition H) : Handler (complete_definition m td) = Handler td.
Proof. unfold complete_definition. by repeat case_match. Qed.

Section Tables.
Context {Ctx Req W : Type} `{!Cell W UpstreamTable} `{!CellLaws W UpstreamTable}.
Context (now : W → time) (with_timeout : Ctx → duration → Ctx) (requestToolName : Req → string)
  (ExtractArguments : Req → list (string * json)) (marshal : canonical → string) (sha256_hex : string → string)
  (newUpstreamClient : string → W → (error + nat) * W) (listTools : nat → W → (error + list Tool) * W)
  (callTool : nat → Ctx → string → list (string * json) → W → (error + option CallToolResult) * W)
  (close : nat → W → option error * W).
(** Connecting, listing and closing do not touch the gateway's own table. *)
Hypothesis connect_keeps : ∀ url w, (peek (newUpstreamClient url w).2 : UpstreamTable) = peek w.
Hypothesis list_keeps : ∀ c w, (peek (listTools c w).2 : UpstreamTable) = peek w.
Hypothesis close_keeps : ∀ c w, (peek (close c w).2 : UpstreamTable) = peek w.

Local Notation Gateway := (Gateway Ctx Req W).
Local Notation proxy_definition := (proxy_definition now with_timeout requestToolName ExtractArguments marshal sha256_hex callTool).
Local Notation register_proxy := (register_proxy now with_timeout requestToolName ExtractArguments marshal sha256_hex callTool).
Local Notation AddUpstream := (AddUpstream now with_timeout requestToolName ExtractArguments marshal sha256_hex
  newUpstreamClient listTools callTool close).
Local Notation RemoveUpstream := (RemoveUpstream close).
Local Notation published g := (tools (d_reg (reg (g : Gateway)))).

(** What the tables mean: each published name belongs to a live upstream, is one of its
    allowed tools under its prefix, and runs the proxy handler for that tool. *)
Definition published_ok (ups : gmap string upstream) (g : Gateway) (ns up : string) : Prop :=
  ∃ u t td, ups !! up = Some u ∧ t ∈ u_tools u ∧ ns = namespacedName up (Name t) ∧
    published g !! ns = Some td ∧ Handler td = Handler (proxy_definition up (u_resilience u) t).
Definition gateway_ok (ups : gmap string upstream) (g : Gateway) : Prop :=
  (∀ ns, is_Some (published g !! ns) ↔ is_Some (toolMap g !! ns)) ∧
  (∀ ns up, toolMap g !! ns = Some up → published_ok ups g ns up) ∧
  (∀ name u t, ups !! name = Some u → t ∈ u_tools u → allowsTool (config_ u) (Name t) = true).

Lemma register_proxy_published name p g t ns :
  published (register_proxy name p g t) !! ns =
  if decide (ns = namespacedName name (Name t))
  then Some (complete_definition (RuntimeGroupMapper (config (d_reg (reg g)))) (proxy_definition name p t))
  else published g !! ns.
Proof.
  assert (E : published (register_proxy name p g t) = <[namespacedName name (Name t) :=
    complete_definition (RuntimeGroupMapper (config (d_reg (reg g)))) (proxy_definition name p t)]> (published g)).
  { cbn -[complete_definition]. unfold tool_name. by rewrite complete_definition_name. }
  rewrite E. case_decide; [subst; apply lookup_insert_eq|by rewrite lookup_insert_ne].
Qed.

Lemma register_proxy_map name p g t ns :
  toolMap (register_proxy name p g t) !! ns =
  if decide (ns = namespacedName name (Name t)) then Some name else toolMap g !! ns.
Proof.
  change (toolMap (register_proxy name p g t)) with (<[namespacedName name (Name t) := name]> (toolMap g)).
  case_decide; [subst; apply lookup_insert_eq|by rewrite lookup_insert_ne].
Qed.

Lemma register_proxy_ok ups name u g t :
  ups !! name = Some u → t ∈ u_tools u → gateway_ok ups g → gateway_ok ups (register_proxy name (u_resilience u) g t).
Proof.
  intros Hu Ht (A & B & C). split; [|split; [|done]].
  - intros ns. rewrite register_proxy_published, register_proxy_map. case_decide; [split; by eexists|apply A].
  - intros ns up. rewrite register_proxy_map. unfold published_ok. rewrite register_proxy_published.
    case_decide as E.
    + intros [= <-]. exists u, t. eexists. split_and!; try done. apply complete_definition_handler.
    + intros H. exact (B ns up H).
Qed.

Lemma register_proxies_ok ups name u g ts :
  ups !! name = Some u → (∀ t, t ∈ ts → t ∈ u_tools u) → gateway_ok ups g →
  gateway_ok ups (foldl (register_proxy name (u_resilience u)) g ts).
Proof.
  intros Hu. revert g. induction ts as [|t ts IH]; intros g Hts Hg; [done|]. cbn.
  apply IH; [set_solver|]. apply register_proxy_ok; [done|set_solver|done].
Qed.

Lemma add_upstream_ok ups name u g :
  ups !! name = None → (∀ t, t ∈ u_tools u → allowsTool (config_ u) (Name t) = true) →
  gateway_ok ups g → gateway_ok (<[name := u]> ups) g.
Proof.
  intros Hn Hallow (A & B & C). split; [done|split].
  - intros ns up H. destruct (B ns up H) as (u' & t & td & Hu & ?). exists u', t, td.
    rewrite lookup_insert_ne by congruence. done.
  - intros n' u' t. destruct (decide (n' = name)) as [->|Hne].
    + rewrite lookup_insert_eq. intros [= <-]. apply Hallow.
    + rewrite lookup_insert_ne by done. apply C.
Qed.

Lemma remove_proxies g l ns :
  (toolMap (foldl remove_proxy g l) !! ns = if decide (ns ∈ l) then None else toolMap g !! ns) ∧
  (published (foldl remove_proxy g l) !! ns = if decide (ns ∈ l) then None else published g !! ns).
Proof.
  revert g. induction l as [|n l IH]; intros g; [by rewrite decide_False by apply not_elem_of_nil|].
  cbn [foldl]. destruct (IH (remove_proxy g n)) as [-> ->].
  assert (E1 : toolMap (remove_proxy g n) !! ns = if decide (ns = n) then None else toolMap g !! ns).
  { change (toolMap (remove_proxy g n)) with (delete n (toolMap g)).
    destruct (decide (ns = n)) as [->|]; [apply lookup_delete_eq|by apply lookup_delete_ne]. }
  assert (E2 : published (remove_proxy g n) !! ns = if decide (ns = n) then None else published g !! ns).
  { assert (E : published (remove_proxy g n) = delete n (published g)).
    { unfold remove_proxy, RemoveTool. cbn [reg]. destruct (published g !! n) eqn:Ep; [done|].
      symmetry. by apply delete_id. }
    rewrite E. destruct (decide (ns = n)) as [->|]; [apply lookup_delete_eq|by apply lookup_delete_ne]. }
  rewrite E1, E2. destruct (decide (ns ∈ l)) as [Hin|Hin].
  - by rewrite !(decide_True (P := ns ∈ n :: l)) by (by right).
  - destruct (decide (ns = n)) as [->|Hne]; [by rewrite !(decide_True (P := n ∈ n :: l)) by left|].
    rewrite !(decide_False (P := ns ∈ n :: l)) by (rewrite elem_of_cons; naive_solver). done.
Qed.

Lemma remove_upstream_ok ups name g :
  gateway_ok ups g →
  let g' := foldl remove_proxy g (map_to_list (filter (λ p : string * string, p.2 = name) (toolMap g))).*1 in
  gateway_ok (delete name ups) g' ∧
  (∀ ns, toolMap g' !! ns = if decide (toolMap g !! ns = Some name) then None else toolMap g !! ns).
Proof.
  intros (A & B & C). cbn zeta. set (l := (map_to_list _).*1).
  assert (Hl : ∀ ns, ns ∈ l ↔ toolMap g !! ns = Some name).
  { intros ns. unfold l. rewrite list_elem_of_fmap. split.
    - intros ([n v] & -> & H). apply elem_of_map_to_list, map_lookup_filter_Some in H as [H Hv]. cbn in Hv. by subst.
    - intros H. exists (ns, name). split; [done|]. by apply elem_of_map_to_list, map_lookup_filter_Some. }
  assert (Hmap : ∀ ns, toolMap (foldl remove_proxy g l) !! ns =
                       if decide (toolMap g !! ns = Some name) then None else toolMap g !! ns).
  { intros ns. destruct (remove_proxies g l ns) as [-> _].
    destruct (decide (ns ∈ l)) as [H|H]; [rewrite decide_True by (by apply Hl)|rewrite decide_False by (by rewrite <- Hl)]; done. }
  split; [|done]. split; [|split].
  - intros ns. destruct (remove_proxies g l ns) as [-> ->]. case_decide; [split; by intros [? ?]|apply A].
  - intros ns up. rewrite Hmap. case_decide as Hne; [done|]. intros H.
    destruct (B ns up H) as (u & t & td & Hu & Ht & Hns & Hp & Hh). exists u, t, td.
    split_and!; [by rewrite lookup_delete_ne by congruence|done|done| |done].
    etrans; [exact (proj2 (remove_proxies g l ns))|]. by rewrite (decide_False (P := ns ∈ l)) by (by rewrite Hl).
  - intros n' u t. destruct (decide (n' = name)) as [->|?]; [by rewrite lookup_delete_eq|].
    rewrite lookup_delete_ne by done. apply C.
Qed.

(** A run of additions and removals, each with what it answered. *)
Inductive gop := GAdd (config : UpstreamConfig) | GRemove (name : string).
Definition run_gop (s : Gateway * W) (o : gop) : Gateway * W :=
  match o with
  | GAdd config => let '(_, g, w) := AddUpstream config s.1 s.2 in (g, w)
  | GRemove name => let '(_, g, w) := RemoveUpstream name s.1 s.2 in (g, w)
  end.

(** An addition, by what it answers. *)
Lemma AddUpstream_cases config g w :
  gateway_ok (upstreams (peek w)) g →
  match AddUpstream config g w with
  | (inl _, g', w') => g' = g ∧ upstreams (peek w') = upstreams (peek w)
  | (inr n, g', w') => ∃ u listed,
      upstreams (peek w) !! uc_Name config = None ∧ closed g = false ∧
      upstreams (peek w') = <[uc_Name config := u]> (upstreams (peek w)) ∧
      u_tools u = filter (λ t, allowsTool config (Name t) = true) listed ∧
      n = Z.of_nat (length (u_tools u)) ∧ config_ u = applyDefaults config ∧ healthy u = true ∧
      g' = foldl (register_proxy (uc_Name config) (u_resilience u)) g (u_tools u)
  end.
Proof.
  intros Hok. unfold Gateway.AddUpstream, add_check.
  destruct (closed g) eqn:Ec; [done|].
  change (uc_Name (applyDefaults config)) with (uc_Name config).
  destruct (upstreams (peek w) !! uc_Name config) eqn:En; [done|].
  pose proof (connect_keeps (URL (applyDefaults config)) w) as H1.
  destruct (newUpstreamClient _ w) as [[err|conn] w1]; cbn [snd] in H1; [by rewrite H1|].
  pose proof (list_keeps conn w1) as H2.
  destruct (listTools conn w1) as [[err|listed] w2]; cbn [snd] in H2.
  - pose proof (close_keeps conn w2) as H3. by rewrite H3, H2, H1.
  - unfold add_commit. change (uc_Name (applyDefaults config)) with (uc_Name config).
    rewrite H2, H1, En, peek_poke. eexists _, listed. split_and!; try done.
Qed.

Lemma AddUpstream_ok config g w :
  gateway_ok (upstreams (peek w)) g →
  gateway_ok (upstreams (peek (run_gop (g, w) (GAdd config)).2)) (run_gop (g, w) (GAdd config)).1.
Proof.
  intros Hok. pose proof (AddUpstream_cases config g w Hok) as H. cbn.
  destruct (AddUpstream config g w) as [[[err|n] g'] w']; cbn.
  - destruct H as [-> ->]. done.
  - destruct H as (u & listed & Hn & _ & -> & Ht & _ & Hc & _ & ->).
    apply register_proxies_ok; [apply lookup_insert_eq|done|]. apply add_upstream_ok; [done| |done].
    intros t. rewrite Ht, Hc. intros Hin. apply list_elem_of_filter in Hin as [Hin _]. exact Hin.
Qed.

Lemma RemoveUpstream_cases name g w :
  gateway_ok (upstreams (peek w)) g →
  let '(existed, g', w') := RemoveUpstream name g w in
  existed = bool_decide (is_Some (upstreams (peek w) !! name)) ∧
  upstreams (peek w') = delete name (upstreams (peek w)) ∧
  gateway_ok (delete name (upstreams (peek w))) g' ∧
  (∀ ns, toolMap g' !! ns = if decide (toolMap g !! ns = Some name) then None else toolMap g !! ns).
Proof.
  intros Hok. unfold Gateway.RemoveUpstream. destruct (upstreams (peek w) !! name) as [u|] eqn:E.
  - rewrite close_keeps, peek_poke, bool_decide_true by (by eexists).
    destruct (remove_upstream_ok _ name g Hok) as [H1 H2]. done.
  - rewrite bool_decide_false by (by intros [? ?]). rewrite delete_id by done. split_and!; try done.
    intros ns. case_decide as H; [|done]. destruct Hok as (_ & B & _).
    destruct (B ns name H) as (u & _ & _ & Hu & _). congruence.
Qed.

Lemma run_gops_ok os g w :
  gateway_ok (upstreams (peek w)) g →
  gateway_ok (upstreams (peek (foldl run_gop (g, w) os).2)) (foldl run_gop (g, w) os).1.
Proof.
  revert g w. induction os as [|o os IH]; intros g w Hok; [done|]. cbn [foldl].
  destruct (run_gop (g, w) o) as [g' w'] eqn:E. apply IH. destruct o as [config|name].
  - pose proof (AddUpstream_ok config g w Hok) as H. by rewrite E in H.
  - pose proof (RemoveUpstream_cases name g w Hok) as H. cbn in E.
    destruct (RemoveUpstream name g w) as [[existed g1] w1]. simplify_eq/=. destruct H as (_ & -> & H & _). done.
Qed.

(** C23.  The gateway's tables agree after any additions and removals: the published names
    are exactly the routed ones, each belongs to a connected upstream, carries its prefix,
    is one of the tools its allow-list admits, and is served by the proxy handler of that
    very tool.  An addition publishes every admitted tool and reports their number, and a
    failed one changes nothing; a removal takes away exactly the names routed to the
    upstream. *)
Theorem gateway_tables_agree (middleware : list (Middleware Ctx Req W)) (w0 : W) (os : list gop)
    (config : UpstreamConfig) (name : string) :
  upstreams (peek w0) = ∅ →
  let s := foldl run_gop (NewGateway middleware, w0) os in
  gateway_ok (upstreams (peek s.2)) s.1 ∧
  match AddUpstream config s.1 s.2 with
  | (inl _, g', w') => g' = s.1 ∧ upstreams (peek w') = upstreams (peek s.2)
  | (inr n, g', w') => ∃ u,
      upstreams (peek w') = <[uc_Name config := u]> (upstreams (peek s.2)) ∧
      upstreams (peek s.2) !! uc_Name config = None ∧ closed s.1 = false ∧ n = Z.of_nat (length (u_tools u)) ∧
      ∀ t, t ∈ u_tools u → toolMap g' !! namespacedName (uc_Name config) (Name t) = Some (uc_Name config)
  end ∧
  let '(existed, g', w') := RemoveUpstream name s.1 s.2 in
  existed = bool_decide (is_Some (upstreams (peek s.2) !! name)) ∧
  upstreams (peek w') = delete name (upstreams (peek s.2)) ∧
  (∀ ns, is_Some (tools (d_reg (reg g')) !! ns) ↔ ∃ up, toolMap s.1 !! ns = Some up ∧ up ≠ name).
Proof.
  intros H0. cbn zeta.
  assert (Hok : gateway_ok (upstreams (peek (foldl run_gop (NewGateway middleware, w0) os).2))
                  (foldl run_gop (NewGateway middleware, w0) os).1).
  { apply run_gops_ok. rewrite H0. split; [|split]; cbn.
    - intros ns. by rewrite !lookup_empty.
    - intros ns up. by rewrite lookup_empty.
    - intros n u t. by rewrite lookup_empty. }
  generalize dependent (foldl run_gop (NewGateway middleware, w0) os). intros [g w] Hok. cbn [fst snd] in *.
  split; [done|split].
  - pose proof (AddUpstream_cases config g w Hok) as H. destruct (AddUpstream config g w) as [[[err|n] g'] w']; [done|].
    destruct H as (u & listed & Hn & Hc & Hw & _ & -> & _ & _ & ->). exists u. split_and!; try done.
    clear. generalize (u_tools u) as ts. intros ts. revert g. induction ts as [|t ts IH] using rev_ind; intros g t' Ht;
      [by apply elem_of_nil in Ht|].
    rewrite foldl_app. cbn [foldl]. rewrite register_proxy_map. case_decide as E; [done|].
    apply IH. apply elem_of_app in Ht as [Ht|Ht]; [done|]. apply list_elem_of_singleton in Ht. by subst.
  - pose proof (RemoveUpstream_cases name g w Hok) as H. destruct (RemoveUpstream name g w) as [[existed g'] w'].
    destruct H as (-> & -> & Hok' & Hmap). split_and!; [done..|]. intros ns. destruct Hok' as (A & _ & _).
    rewrite A, Hmap. split.
    + case_decide as E; [by intros [? ?]|]. intros [up Hup]. exists up. split; [done|]. congruence.
    + intros (up & Hup & Hne). rewrite decide_False by congruence. by eexists.
Qed.
End Tables.

(** ** What the resilience layers do to a call *)
Definition cache_clean (c : KeyedCache CallToolResult) : Prop :=
  ∀ k e, entries c !! k = Some e → IsError (e_value e) = false.

Lemma evict_entries {T} fuel (c : KeyedCache T) k e :
  entries (evict fuel c) !! k = Some e → entries c !! k = Some e.
Proof.
  revert c. induction fuel as [|fuel IH]; intros c; [done|]. cbn [evict].
  destruct (maxSize c <=? _); [|done]. destruct (last (order c)) as [k'|]; [|done].
  intros H%IH. cbn in H. by apply lookup_delete_Some in H as [_ H].
Qed.

Lemma Cache_Get_clean c now key :
  cache_clean c → cache_clean (Cache_Get c now key).2 ∧ ∀ r, (Cache_Get c now key).1 = Some r → IsError r = false.
Proof.
  intros Hc. unfold Cache_Get, cache_get. destruct (entries c !! key) as [e|] eqn:E; [|done].
  destruct (ttl c <=? _); [done|]. cbn. split; [exact Hc|]. intros r [= <-]. by apply (Hc key).
Qed.

Lemma Cache_Set_clean c now key r : cache_clean c → IsError r = false → cache_clean (Cache_Set c now key r).
Proof.
  intros Hc Hr k e. unfold Cache_Set, cache_set. destruct (entries c !! key) as [e'|] eqn:E; cbn;
    intros [[<- <-]|[_ H]]%lookup_insert_Some; try done; [by apply (Hc k)|].
  apply (evict_entries (S (length (order c)))) in H. by apply (Hc k).
Qed.

Section Resilience.
Context {Ctx Req W : Type} `{!Cell W UpstreamTable} `{!CellLaws W UpstreamTable}.
Context (now : W → time) (with_timeout : Ctx → duration → Ctx) (requestToolName : Req → string)
  (ExtractArguments : Req → list (string * json)) (marshal : canonical → string) (sha256_hex : string → string)
  (callTool : nat → Ctx → string → list (string * json) → W → (error + option CallToolResult) * W).
Local Notation wrap := (resilience_wrapHandler now with_timeout requestToolName ExtractArguments marshal sha256_hex).
Local Notation proxy := (makeProxyHandler ExtractArguments callTool).

Lemma object_put p ur w : object p (put_object p ur w) = ur.
Proof. unfold object, put_object. rewrite peek_poke. cbn. by rewrite decide_True. Qed.

(** The breaker of [p] is closed and has seen no failure. *)
Definition calm (p : nat) (w : W) : Prop :=
  ∃ b, cb (object p w) = Some b ∧ cb_state b = CircuitClosed ∧ failures b = 0.

Lemma calm_put p ur w : cb ur = cb (object p w) → calm p w → calm p (put_object p ur w).
Proof. intros E (b & Hb & Hs). exists b. rewrite object_put, E. done. Qed.

(** The cache of [p], if there is one, holds no error result. *)
Definition clean (p : nat) (w : W) : Prop :=
  match cache (object p w) with Some c => cache_clean c | None => True end.

Lemma clean_put p ur w : cache ur = cache (object p w) → clean p w → clean p (put_object p ur w).
Proof. intros E H. unfold clean. by rewrite object_put, E. Qed.

(** Layers that leave a property of the object's other parts alone. *)
Lemma limiter_part_keeps (P : W → Prop) p name (next : ToolHandlerFunc Ctx Req W) ctx req w :
  (∀ l w, P w → P (put_object p (set_limiter l (object p w)) w)) →
  (∀ ctx req w, P w → P (next ctx req w).2) → P w → P (limiter_part now p name next ctx req w).2.
Proof.
  intros Hset Hnext Hw. unfold limiter_part. destruct (limiter (object p w)) as [l|]; [|by apply Hnext].
  destruct (Allow (now w) l) as [[] l']; [apply Hnext|]; by apply Hset.
Qed.

Lemma cache_part_keeps (P : W → Prop) p (next : ToolHandlerFunc Ctx Req W) ctx req w :
  (∀ c w, P w → P (put_object p (set_cache c (object p w)) w)) →
  (∀ ctx req w, P w → P (next ctx req w).2) → P w →
  P (cache_part now requestToolName ExtractArguments marshal sha256_hex p next ctx req w).2.
Proof.
  intros Hset Hnext Hw. unfold cache_part. destruct (cache (object p w)) as [c|]; [|by apply Hnext].
  destruct (Cache_Get c _ _) as [[r|] c']; [by apply Hset|].
  match goal with |- context [next ctx req ?w1] => pose proof (Hnext ctx req w1 (Hset _ _ Hw)) as Hn;
    destruct (next ctx req w1) as [[result err|v] w2] end; [|done].
  destruct (cacheable result err); [|done]. by apply Hset.
Qed.

Lemma breaker_part_calm p name (next : ToolHandlerFunc Ctx Req W) ctx req w :
  (∀ ctx req w, calm p w → calm p (next ctx req w).2 ∧
     match (next ctx req w).1 with Returns _ err => err = None | Panics _ => False end) →
  calm p w →
  calm p (breaker_part now p name next ctx req w).2 ∧
  ∃ w1, calm p w1 ∧ (breaker_part now p name next ctx req w).1 = (next ctx req w1).1.
Proof.
  intros Hnext Hw. pose proof Hw as (b & Hb & Hs & Hf). unfold breaker_part. rewrite Hb. unfold canExecute. rewrite Hs.
  assert (Hw1 : calm p (put_object p (set_cb b (object p w)) w)) by (by apply calm_put).
  destruct (Hnext ctx req _ Hw1) as [Hn He].
  destruct (next ctx req (put_object p (set_cb b (object p w)) w)) as [[result err|v] w2] eqn:E; [|done]. cbn in Hn, He. subst err.
  destruct Hn as (b2 & Hb2 & Hs2 & Hf2). rewrite Hb2. cbn [default]. split.
  - cbn. unfold recordSuccess. rewrite Hs2. exists (set_failures 0 b2). by rewrite object_put.
  - eexists. split; [exact Hw1|]. cbn. by rewrite E.
Qed.

(** The circuit breaker of an upstream never opens: the proxy handler answers a failed
    call with an error result and no Go error, so the breaker wrapped around it records a
    success every time.  Whatever calls are made through the wrapped proxy, all of them
    failing included, the breaker stays closed with a failure count of zero, and the
    breaker layer always passes the call on. *)
Theorem proxy_breaker_never_opens (p : nat) (up tool : string) (calls : list (Ctx * Req)) (w : W) :
  (∀ c ctx t a w, calm p w → calm p (callTool c ctx t a w).2) →
  calm p w →
  let after := foldl (λ w call, (wrap p up (proxy up tool) call.1 call.2 w).2) w calls in
  calm p after ∧ circuitState (Some (object p after)) = "closed" ∧
  ∀ ctx req, ∃ w1, (breaker_part now p up (proxy up tool) ctx req after).1 = (proxy up tool ctx req w1).1.
Proof.
  intros Hcall Hw.
  assert (Hproxy : ∀ ctx req w, calm p w → calm p (proxy up tool ctx req w).2 ∧
    match (proxy up tool ctx req w).1 with Returns _ err => err = None | Panics _ => False end).
  { clear w Hw. intros ctx req w Hw. unfold makeProxyHandler.
    destruct (upstreams (peek w) !! up) as [u|]; [|done]. destruct (negb (healthy u)); [done|].
    pose proof (Hcall (client u) ctx tool (ExtractArguments req) w Hw) as Hc.
    by destruct (callTool _ _ _ _ w) as [[err|result] w1]. }
  assert (Hall : ∀ ctx req w, calm p w → calm p (wrap p up (proxy up tool) ctx req w).2).
  { clear w Hw. intros ctx req w Hw. unfold resilience_wrapHandler.
    apply cache_part_keeps; [intros; by apply calm_put| |done]. clear ctx req w Hw. intros ctx req w Hw.
    apply limiter_part_keeps; [intros; by apply calm_put| |done]. clear ctx req w Hw. intros ctx req w Hw.
    unfold timeout_part. by apply breaker_part_calm. }
  cbn zeta.
  assert (Hafter : calm p (foldl (λ w call, (wrap p up (proxy up tool) call.1 call.2 w).2) w calls)).
  { revert w Hw. induction calls as [|call calls IH]; intros w Hw; [done|]. cbn [foldl]. by apply IH, Hall. }
  split; [done|]. split.
  - destruct Hafter as (b & Hb & Hs & _). unfold circuitState. revert Hb.
    destruct (object p _) as [ocb ? ? ?]. cbn. intros ->. by rewrite Hs.
  - intros ctx req. destruct (breaker_part_calm p up (proxy up tool) ctx req _ Hproxy Hafter) as [_ (w1 & _ & E)].
    by exists w1.
Qed.

Lemma breaker_part_keeps (P : W → Prop) p name (next : ToolHandlerFunc Ctx Req W) ctx req w :
  (∀ b w, P w → P (put_object p (set_cb b (object p w)) w)) →
  (∀ ctx req w, P w → P (next ctx req w).2) → P w → P (breaker_part now p name next ctx req w).2.
Proof.
  intros Hset Hnext Hw. unfold breaker_part. destruct (cb (object p w)) as [b|]; [|by apply Hnext].
  destruct (canExecute b (now w)) as [[[] b'] ev]; [|by apply Hset].
  pose proof (Hnext ctx req _ (Hset b' w Hw)) as Hn.
  destruct (next ctx req _) as [[result err|v] w2]; [|done].
  by destruct (match err with Some e => errors_is e ErrCircuitOpen | None => false end); apply Hset.
Qed.

(** The response cache serves clean successes only, and a hit stops the call at the
    outermost layer: a cached answer is returned without touching the limiter, the breaker
    or the upstream (it does not depend on the handler, and only the cache's recency
    changes), it is never an error result, and whatever the handler answers, errors and
    panics included, no error result enters the cache. *)
Theorem cache_serves_clean_successes (p : nat) (name : string) (next : ToolHandlerFunc Ctx Req W)
    (ctx : Ctx) (req : Req) (w : W) :
  (∀ ctx req w, clean p w → clean p (next ctx req w).2) →
  clean p w →
  clean p (wrap p name next ctx req w).2 ∧
  ∀ c r c', cache (object p w) = Some c →
    Cache_Get c (now w) (CacheKey marshal sha256_hex (requestToolName req) (ExtractArguments req)) = (Some r, c') →
    wrap p name next ctx req w = (Returns (Some r) None, put_object p (set_cache c' (object p w)) w) ∧
    IsError r = false.
Proof.
  intros Hnext Hw. split.
  - assert (Hin : ∀ ctx req w, clean p w →
      clean p (limiter_part now p name (timeout_part with_timeout p (breaker_part now p name next)) ctx req w).2).
    { clear ctx req w Hw. intros ctx req w Hw.
      apply limiter_part_keeps; [intros; by apply clean_put| |done]. clear ctx req w Hw. intros ctx req w Hw.
      unfold timeout_part. apply breaker_part_keeps; [intros; by apply clean_put|exact Hnext|done]. }
    unfold resilience_wrapHandler, cache_part. unfold clean in Hw.
    destruct (cache (object p w)) as [c|] eqn:Ec; [|apply Hin; unfold clean; by rewrite Ec].
    match goal with |- context [Cache_Get c ?n ?k] => destruct (Cache_Get_clean c n k Hw) as [Hc1 _];
      destruct (Cache_Get c n k) as [[r|] c1]; cbn [snd] in Hc1 end.
    { unfold clean. cbn. by rewrite object_put. }
    assert (Hw1 : clean p (put_object p (set_cache c1 (object p w)) w)).
    { unfold clean. by rewrite object_put. }
    pose proof (Hin ctx req _ Hw1) as Hn.
    destruct (limiter_part _ _ _ _ _ _ _) as [[result err|v] w2]; [|done]. cbn [snd] in Hn.
    destruct (cacheable result err) as [r|] eqn:Er; [|done].
    assert (Hr : IsError r = false).
    { unfold cacheable in Er. destruct err, result as [r'|]; try done. destruct (IsError r') eqn:E; by simplify_eq. }
    unfold clean. cbn [snd]. rewrite object_put. cbn [cache set_cache]. apply Cache_Set_clean; [|done].
    unfold clean in Hn. by destruct (cache (object p w2)).
  - intros c r c' Hc Hg. unfold resilience_wrapHandler, cache_part. rewrite Hc, Hg. split; [done|].
    unfold clean in Hw. rewrite Hc in Hw.
    destruct (Cache_Get_clean c (now w) (CacheKey marshal sha256_hex (requestToolName req) (ExtractArguments req)) Hw)
      as [_ Hr]. apply Hr. by rewrite Hg.
Qed.
End Resilience.

(** Witnesses: a gateway whose only upstream fails every call. *)
Definition broken_client (_ : nat) (_ : unit) (_ : string) (_ : list (string * json)) (w : UpstreamTable) :
    (error + option CallToolResult) * UpstreamTable := (inl (Err "connection refused"), w).
Definition broken_table : UpstreamTable := {|
  upstreams := {["blue" := fresh_upstream 3]};
  objects := λ _, {| cb := Some (NewCircuitBreaker "blue" DefaultCircuitBreakerConfig false); limiter := None;
                     timeout := 0; cache := Some (NewKeyedCache Second 8) |};
  next_object := 1 |}.
Definition call_blue : ToolHandlerFunc unit unit UpstreamTable :=
  resilience_wrapHandler (λ _, 0) (λ c _, c) (λ _ : unit, "blue.get") (λ _, []) (λ _, "") (λ _, "") 0 "blue"
    (makeProxyHandler (λ _, []) broken_client "blue" "get").

Lemma proxy_breaker_never_opens_witness :
  (call_blue tt tt broken_table).1 =
    answer_error ("upstream " +:+ quote "blue" +:+ " call failed: connection refused") ∧
  circuitState (Some (object 0 (foldl (λ w call, (call_blue call.1 call.2 w).2) broken_table
    (replicate 20 (tt, tt))))) = "closed".
Proof.
  split; [vm_compute; reflexivity|].
  destruct (proxy_breaker_never_opens (λ _, 0) (λ c _, c) (λ _ : unit, "blue.get") (λ _, []) (λ _, "") (λ _, "")
    broken_client 0 "blue" "get" (replicate 20 (tt, tt)) broken_table) as (_ & H & _).
  - done.
  - eexists. split; [reflexivity|split; reflexivity].
  - exact H.
Defined.

Lemma cache_serves_clean_successes_witness : clean 0 (call_blue tt tt broken_table).2.
Proof.
  apply (cache_serves_clean_successes (λ _, 0) (λ c _, c) (λ _ : unit, "blue.get") (λ _, []) (λ _, "") (λ _, "")
    0 "blue" (makeProxyHandler (λ _, []) broken_client "blue" "get") tt tt broken_table).
  - intros ctx req w Hw. unfold makeProxyHandler. destruct (upstreams (peek w) !! "blue") as [u|]; [|done].
    by destruct (negb (healthy u)).
  - intros k e H. cbn in H. by rewrite lookup_empty in H.
Defined.

Definition quiet_table : UpstreamTable := {| upstreams := ∅; objects := objects broken_table; next_object := 0 |}.
Definition toy_listing (_ : nat) (w : UpstreamTable) : (error + list Tool) * UpstreamTable := (inr [plain_tool], w).
Definition toy_config (name : string) : UpstreamConfig := {|
  uc_Name := name; URL := ""; AllowedTools := []; HealthInterval := 0; UnhealthyThreshold := 0; Policy := zero_policy |}.
Definition toy_add (name : string) (g : Gateway unit unit UpstreamTable) (w : UpstreamTable) :=
  AddUpstream (λ _, 0) (λ c _, c) (λ _ : unit, "") (λ _, []) (λ _, "") (λ _, "") (λ _ w, (inr 0%nat, w)) toy_listing
    broken_client (λ _ w, (None, w)) (toy_config name) g w.

Lemma gateway_tables_agree_witness :
  let s := run_gop (λ _, 0) (λ c _, c) (λ _ : unit, "") (λ _, []) (λ _, "") (λ _, "") (λ _ w, (inr 0%nat, w))
             toy_listing broken_client (λ _ w, (None, w)) (NewGateway [], quiet_table) (GAdd (toy_config "blue")) in
  toolMap s.1 !! "blue.get" = Some "blue" ∧ is_Some (tools (d_reg (reg s.1)) !! "blue.get").
Proof.
  cbn zeta.
  destruct (gateway_tables_agree (λ _, 0) (λ c _, c) (λ _ : unit, "") (λ _, []) (λ _, "") (λ _, "")
    (λ _ w, (inr 0%nat, w)) toy_listing broken_client (λ _ w, (None, w))
    (λ _ _, eq_refl) (λ _ _, eq_refl) (λ _ _, eq_refl) [] quiet_table [GAdd (toy_config "blue")]
    (toy_config "green") "blue") as ((A & _ & _) & _ & _); [reflexivity|].
  assert (H : toolMap (toy_add "blue" (NewGateway []) quiet_table).1.2 !! "blue.get" = Some "blue")
    by (vm_compute; reflexivity).
  split; [exact H|]. apply A. eexists. exact H.
Defined.

(** ** Namespaces *)
Lemma original_of_namespaced up t : originalName up (namespacedName up t) = t.
Proof.
  unfold originalName, namespacedName.
  assert (E : ∀ s r q : string, s +:+ r +:+ q = (s +:+ r) +:+ q).
  { intros s r q. induction s as [|a s IH]; [done|]. cbn. by rewrite IH. }
  rewrite (E up "." t). assert (H : has_prefix (up +:+ ".") ((up +:+ ".") +:+ t) = true) by (apply has_prefix_spec; by eexists).
  rewrite H. apply string_drop_app.
Qed.

(** Two upstreams can claim one published name when a name holds a dot: the second takes
    the first one's route over, and removing it takes the tool away from both. *)
Lemma dotted_names_collide :
  let g := register_proxy (λ _, 0) (λ c _, c) (λ _ : unit, "") (λ _, []) (λ _, "") (λ _, "") broken_client "a" None
             (NewGateway []) (rename "b.get" plain_tool) in
  let g' := register_proxy (λ _, 0) (λ c _, c) (λ _ : unit, "") (λ _, []) (λ _, "") (λ _, "") broken_client "a.b" None
             g plain_tool in
  toolMap g !! "a.b.get" = Some "a" ∧ toolMap g' !! "a.b.get" = Some "a.b" ∧
  toolMap (remove_proxy g' "a.b.get") !! "a.b.get" = None.
Proof. vm_compute. done. Qed.

(** The gateway checks that it is open before it connects, and not again: an addition that
    is connecting while the gateway is closed still goes through, and the connection is
    never closed. *)
Lemma closing_misses_pending_addition (g : Gateway unit unit UpstreamTable) :
  add_check (toy_config "blue") (NewGateway [] : Gateway unit unit UpstreamTable) quiet_table = None ∧
  let '(_, g1, w1) := Close (λ _ w, (None, w)) [] (NewGateway [] : Gateway unit unit UpstreamTable) quiet_table in
  closed g1 = true ∧
  (add_commit (λ _, 0) (λ c _, c) (λ _ : unit, "") (λ _, []) (λ _, "") (λ _, "") broken_client (λ _ w, (None, w))
     (toy_config "blue") 7 [plain_tool] g1 w1).1.1 = inr 1.
Proof. vm_compute. done. Qed.

(** ** The dynamic upstream registry (dynamic.go) *)
Section Dynamic.
Context {Ctx Req W : Type} `{!Cell W UpstreamTable}.
(** The gateway's [AddUpstream] and [RemoveUpstream]. *)
Variable gateway_add : UpstreamConfig → Gateway Ctx Req W → W → (error + Z) * Gateway Ctx Req W * W.
Variable gateway_remove : string → Gateway Ctx Req W → W → bool * Gateway Ctx Req W * W.
(** The lifecycle hooks. *)
Variable OnAdd : option (string → Z → W → W).
Variable OnRemove : option (string → W → W).

Record DynamicUpstreamRegistry := {
  gateway : Gateway Ctx Req W;
  configs : gmap string UpstreamConfig;
  defaults : UpstreamPolicy
}.
Definition with_default (d : UpstreamPolicy) (c : UpstreamConfig) : UpstreamConfig := {|
  uc_Name := uc_Name c; URL := URL c; AllowedTools := AllowedTools c; HealthInterval := HealthInterval c;
  UnhealthyThreshold := UnhealthyThreshold c; Policy := if policy_is_zero (Policy c) then d else Policy c |}.

Definition Dynamic_Add (cfg : UpstreamConfig) (d : DynamicUpstreamRegistry) (w : W) :
    (error + Z) * DynamicUpstreamRegistry * W :=
  if bool_decide (uc_Name cfg = "") then (inl (Err "gateway: upstream name cannot be empty"), d, w) else
  match configs d !! uc_Name cfg with
  | Some _ => (inl (duplicate (uc_Name cfg)), d, w)
  | None =>
      let cfg := with_default (defaults d) cfg in
      match gateway_add cfg (gateway d) w with
      | (inl err, g, w) => (inl err, {| gateway := g; configs := configs d; defaults := defaults d |}, w)
      | (inr count, g, w) =>
          let w := match OnAdd with Some f => f (uc_Name cfg) count w | None => w end in
          (inr count, {| gateway := g; configs := <[uc_Name cfg := cfg]> (configs d); defaults := defaults d |}, w)
      end
  end.

Definition Dynamic_Remove (name : string) (d : DynamicUpstreamRegistry) (w : W) :
    option error * DynamicUpstreamRegistry * W :=
  match configs d !! name with
  | None => (Some (ErrWrap "" ErrUpstreamNotFound (": " +:+ name)), d, w)
  | Some _ =>
      let '(_, g, w) := gateway_remove name (gateway d) w in
      let w := match OnRemove with Some f => f name w | None => w end in
      (None, {| gateway := g; configs := delete name (configs d); defaults := defaults d |}, w)
  end.

Definition Dynamic_Get (name : string) (d : DynamicUpstreamRegistry) : option UpstreamConfig := configs d !! name.
Definition Dynamic_List (d : DynamicUpstreamRegistry) : gset string := dom (configs d).
Definition Dynamic_Len (d : DynamicUpstreamRegistry) : nat := size (configs d).

(** What the registry relies on: an addition that succeeds adds its name, one that fails
    adds nothing, a removal removes, and hooks leave the upstreams alone. *)
Hypothesis add_names : ∀ cfg g w, match gateway_add cfg g w with
  | (inr _, _, w') => dom (upstreams (peek w')) = {[uc_Name cfg]} ∪ dom (upstreams (peek w))
  | (inl _, _, w') => dom (upstreams (peek w')) = dom (upstreams (peek w))
  end.
Hypothesis remove_names : ∀ name g w,
  dom (upstreams (peek (gateway_remove name g w).2)) = dom (upstreams (peek w)) ∖ {[name]}.
Hypothesis add_hook_keeps : ∀ f name n w, OnAdd = Some f → (peek (f name n w) : UpstreamTable) = peek w.
Hypothesis remove_hook_keeps : ∀ f name w, OnRemove = Some f → (peek (f name w) : UpstreamTable) = peek w.

(** The registry's configurations stay in step with the gateway's upstreams. *)
Lemma dynamic_in_step cfg name (d : DynamicUpstreamRegistry) (w : W) :
  dom (configs d) = dom (upstreams (peek w)) →
  (let '(_, d', w') := Dynamic_Add cfg d w in dom (configs d') = dom (upstreams (peek w'))) ∧
  (let '(_, d', w') := Dynamic_Remove name d w in dom (configs d') = dom (upstreams (peek w'))).
Proof.
  intros Hd. split.
  - unfold Dynamic_Add. case_bool_decide; [done|]. destruct (configs d !! uc_Name cfg); [done|].
    pose proof (add_names (with_default (defaults d) cfg) (gateway d) w) as H1.
    destruct (gateway_add _ (gateway d) w) as [[[err|n] g] w1]; cbn [configs]; [by rewrite H1|].
    assert (Hh : (peek match OnAdd with Some f => f (uc_Name (with_default (defaults d) cfg)) n w1 | None => w1 end
                  : UpstreamTable) = peek w1) by (destruct OnAdd eqn:E; [by apply add_hook_keeps|done]).
    rewrite Hh, H1, dom_insert_L. cbn. by rewrite Hd.
  - unfold Dynamic_Remove. destruct (configs d !! name); [|done].
    pose proof (remove_names name (gateway d) w) as H1.
    destruct (gateway_remove name (gateway d) w) as [[b g] w1]; cbn [snd configs] in *.
    assert (Hh : (peek match OnRemove with Some f => f name w1 | None => w1 end : UpstreamTable) = peek w1)
      by (destruct OnRemove eqn:E; [by apply remove_hook_keeps|done]).
    by rewrite Hh, H1, dom_delete_L, Hd.
Qed.
End Dynamic.
Arguments DynamicUpstreamRegistry : clear implicits.

(** ** Session affinity (session_affinity.go) *)
Record SessionAffinity := { mapping : gmap string string; counter : Z }.
Definition set_mapping (m : gmap string string) (sa : SessionAffinity) : SessionAffinity :=
  {| mapping := m; counter := counter sa |}.

Definition RoundRobin_Select (ups : list string) (c : Z) : string * Z :=
  match ups with
  | [] => ("", c)
  | _ => (default "" (ups !! Z.to_nat (c mod Z.of_nat (length ups))), (c + 1) mod 2 ^ 64)
  end.

Section Affinity.
Context {Ctx Req W : Type} `{!Cell W SessionAffinity} `{!CellLaws W SessionAffinity}.
(** The configured selector; the session of a context; the gateway's upstream names in
    the order of one walk of its map, and whether it has an upstream. *)
Variable Selector : option (list string → string).
Variable session_of : Ctx → option string.
Variable listed : W → list string.
Variable connected : W → string → bool.

Definition sa_select (ups : list string) (sa : SessionAffinity) : string * SessionAffinity :=
  match Selector with
  | Some f => (f ups, sa)
  | None => let '(u, c) := RoundRobin_Select ups (counter sa) in (u, {| mapping := mapping sa; counter := c |})
  end.

Definition assignUpstream (sid : string) (w : W) : string * W :=
  let ups := listed w in
  if bool_decide (ups = []) then ("", w) else
  let '(selected, sa) := sa_select ups (peek w) in
  let w := poke sa w in
  if bool_decide (selected = "") then ("", w)
  else match mapping sa !! sid with
       | Some existing => (existing, w)
       | None => (selected, poke (set_mapping (<[sid := selected]> (mapping sa)) sa) w)
       end.

Definition forget (sid : string) (w : W) : W :=
  poke (set_mapping (delete sid (mapping (peek w))) (peek w)) w.

Definition SessionAffinity_Middleware : Middleware Ctx Req W :=
  λ name td next ctx request w,
    match session_of ctx with
    | None => next ctx request w
    | Some sid =>
        let '(upstream, w, none) :=
          match mapping (peek w) !! sid with
          | Some u => (u, w, false)
          | None => let '(u, w) := assignUpstream sid w in (u, w, bool_decide (u = ""))
          end in
        if none then next ctx request w
        else if connected w upstream then next ctx request w
        else
          let '(upstream, w) := assignUpstream sid (forget sid w) in
          if bool_decide (upstream = "") then next ctx request w else next ctx request w
    end.

Definition GetAffinity (sid : string) (w : W) : option string := mapping (peek w) !! sid.
Definition RemoveAffinity (sid : string) (w : W) : W := forget sid w.
Definition CleanupUpstream (name : string) (w : W) : Z * W :=
  let m := mapping (peek w) in
  (Z.of_nat (size (filter (λ p : string * string, p.2 = name) m)),
   poke (set_mapping (filter (λ p : string * string, p.2 ≠ name) m) (peek w)) w).

(** The gateway's upstreams do not depend on the affinity table, and the selector picks
    one of the names it is given, none of which is empty. *)
Hypothesis listed_fixed : ∀ sa w, listed (poke sa w) = listed w.
Hypothesis connected_fixed : ∀ sa w, connected (poke sa w) = connected w.
Hypothesis listed_connected : ∀ w u, u ∈ listed w → u ≠ "" ∧ connected w u = true.
Hypothesis selector_in : ∀ f ups, Selector = Some f → ups ≠ [] → f ups ∈ ups.

Lemma sa_select_in ups sa : ups ≠ [] → 0 <= counter sa → (sa_select ups sa).1 ∈ ups ∧ mapping (sa_select ups sa).2 = mapping sa.
Proof.
  intros Hne Hc. unfold sa_select. destruct Selector as [f|] eqn:Ef; [split; [by apply selector_in|done]|].
  destruct ups as [|u ups]; [done|]. unfold RoundRobin_Select. cbn [fst snd mapping]. split; [|done].
  set (i := Z.to_nat _). assert (Hi : (i < length (u :: ups))%nat).
  { unfold i. pose proof (Z.mod_pos_bound (counter sa) (Z.of_nat (length (u :: ups)))). cbn [length] in *. lia. }
  apply lookup_lt_is_Some in Hi as [x Hx]. rewrite Hx. cbn. by eapply list_elem_of_lookup_2.
Qed.

Lemma assign_fresh sid w :
  listed w ≠ [] → 0 <= counter (peek w) → mapping (peek w) !! sid = None →
  let '(u, w') := assignUpstream sid w in
  u ∈ listed w ∧ mapping (peek w') = <[sid := u]> (mapping (peek w)) ∧ connected w' = connected w ∧ listed w' = listed w.
Proof.
  intros Hne Hc Hn. unfold assignUpstream. rewrite bool_decide_false by done.
  destruct (sa_select_in (listed w) (peek w) Hne Hc) as [Hin Hm].
  destruct (sa_select (listed w) (peek w)) as [u sa]; cbn [fst snd] in *.
  destruct (listed_connected w u Hin) as [Hu _]. rewrite bool_decide_false, Hm, Hn by done.
  rewrite peek_poke. cbn. rewrite !connected_fixed, !listed_fixed. done.
Qed.

(** Session affinity: after a call of a session, while the gateway has upstreams, the
    session is mapped to a connected one, the same as before as long as that one is still
    connected, and no other session's mapping changes.  But the call itself is handed on
    exactly as it came, whatever the mapping says: it is recorded, and routes nothing. *)
Theorem session_affinity_contract (name : string) (td : ToolDefinition (ToolHandlerFunc Ctx Req W))
    (next : ToolHandlerFunc Ctx Req W) (ctx : Ctx) (req : Req) (w : W) :
  0 <= counter (peek w) →
  ∃ w', SessionAffinity_Middleware name td next ctx req w = next ctx req w' ∧
    match session_of ctx with
    | None => w' = w
    | Some sid =>
        (∀ other, other ≠ sid → GetAffinity other w' = GetAffinity other w) ∧
        (∀ u, GetAffinity sid w = Some u → connected w u = true → w' = w) ∧
        (listed w ≠ [] → ∃ u, GetAffinity sid w' = Some u ∧ connected w' u = true)
    end.
Proof.
  intros Hc. unfold SessionAffinity_Middleware, GetAffinity. destruct (session_of ctx) as [sid|]; [|by exists w].
  destruct (mapping (peek w) !! sid) as [u|] eqn:Em.
  - destruct (connected w u) eqn:Eu.
    { exists w. split; [done|split; [done|split; [done|]]]. intros _. by exists u. }
    assert (Hf : mapping (peek (forget sid w)) = delete sid (mapping (peek w))) by (unfold forget; by rewrite peek_poke).
    destruct (decide (listed w = [])) as [E|E].
    + unfold assignUpstream. rewrite bool_decide_true by (unfold forget; by rewrite listed_fixed).
      rewrite bool_decide_true by done. exists (forget sid w). split; [done|]. rewrite Hf.
      split; [intros other Ho; by rewrite lookup_delete_ne|]. split; [congruence|done].
    + pose proof (assign_fresh sid (forget sid w)) as Ha.
      destruct (assignUpstream sid (forget sid w)) as [v w1].
      destruct Ha as (Hin & Hm & Hcn & Hl).
      { unfold forget. by rewrite listed_fixed. } { unfold forget. by rewrite peek_poke. }
      { rewrite Hf. apply lookup_delete_eq. }
      exists w1. split; [by destruct (bool_decide (v = ""))|]. rewrite Hm, Hf. split; [|split].
      * intros other Ho. by rewrite lookup_insert_ne, lookup_delete_ne.
      * congruence.
      * intros _. exists v. rewrite lookup_insert_eq, Hcn. split; [done|]. by apply listed_connected.
  - destruct (decide (listed w = [])) as [E|E].
    + unfold assignUpstream at 1. rewrite bool_decide_true by done. rewrite bool_decide_true by done. by exists w.
    + pose proof (assign_fresh sid w E Hc Em) as Ha. destruct (assignUpstream sid w) as [v w1].
      destruct Ha as (Hin & Hm & Hcn & Hl). destruct (listed_connected w v Hin) as [Hv Hcv].
      rewrite bool_decide_false by done. rewrite Hcn, Hcv. exists w1. split; [done|]. rewrite Hm. split; [|split].
      * intros other Ho. by rewrite lookup_insert_ne.
      * congruence.
      * intros _. exists v. by rewrite lookup_insert_eq, Hcn.
Qed.
End Affinity.

Lemma session_affinity_contract_witness :
  ∃ w', SessionAffinity_Middleware None Some (λ _, ["blue"; "green"]) (λ _ u, bool_decide (u ∈ ["blue"; "green"])) "get"
      (plain_definition (λ _ _ w, (Returns None None, w)) plain_tool) (λ (_ : string) (_ : unit) w, (Returns None None, w))
      "s1" tt {| mapping := {["s1" := "red"]}; counter := 5 |} = (Returns None None, w') ∧
    ∃ u, GetAffinity "s1" w' = Some u ∧ bool_decide (u ∈ ["blue"; "green"]) = true.
Proof.
  destruct (session_affinity_contract (Req := unit) None Some (λ _ : SessionAffinity, ["blue"; "green"])
    (λ _ u, bool_decide (u ∈ ["blue"; "green"]))) with (name := "get") (ctx := "s1") (req := tt)
    (td := plain_definition (λ (_ : string) (_ : unit) (w : SessionAffinity), (Returns None None, w)) plain_tool)
    (next := λ (_ : string) (_ : unit) (w : SessionAffinity), (Returns None None, w))
    (w := {| mapping := {["s1" := "red"]}; counter := 5 |}) as (w' & E & _ & _ & H).
  - done.
  - done.
  - intros w u Hu. split; [intros ->; set_solver|by apply bool_decide_true].
  - done.
  - done.
  - exists w'. split; [exact E|]. by apply H.
Defined.
