(* ===== verification/Fan.v ===== *)
(** Bounded parallel runs: the pattern shared by FanOut, Select, Broadcast and the children of
    a delegation (src/orchestrator/fanout.go, selector.go, swarm.go, delegation.go).  One
    goroutine per job takes a place in a semaphore or gives up when the run's context is
    done; the first failure may cancel the run. *)

From stdpp Require Import base tactics list gmap relations.
From Stdlib Require Import ZArith Lia.
From S2P Require Import Prelude.

Definition maxConcurrency (configured total : Z) : Z :=
  if (configured <=? 0)%Z then total else if (total <? configured)%Z then total else configured.

Section Fan.
(** What a job answers; whether that is a failure; the answer of a job that gave up. *)
Context {Out : Type}.
Variable failed : Out → option error.
Variable gave_up : Out.
(** [may i c o]: job [i] can answer [o], its context being done or not when it ends. *)
Variable may : nat → bool → Out → Prop.
Variable fail_fast : bool.
(** Whether the context can end by itself: a timeout, or the caller's cancellation. *)
Variable expires : bool.
Variable cap : nat.

Inductive slot := Waiting | Running | Finished (o : Out).
Definition is_running (s : slot) : Prop := match s with Running => True | _ => False end.
#[export] Instance is_running_dec s : Decision (is_running s).
Proof. destruct s; cbn; apply _. Defined.

Definition is_waiting (s : slot) : Prop := match s with Waiting => True | _ => False end.
#[export] Instance is_waiting_dec s : Decision (is_waiting s).
Proof. destruct s; cbn; apply _. Defined.

Record fan := { slots : list slot; cancelled : bool; firstErr : option error }.
Definition running (f : fan) : nat := length (filter is_running (slots f)).
Definition set_slot (i : nat) (s : slot) (f : fan) : fan :=
  {| slots := <[i := s]> (slots f); cancelled := cancelled f; firstErr := firstErr f |}.

(** Recording an answer, under the mutex. *)
Definition record (i : nat) (o : Out) (f : fan) : fan :=
  match failed o, firstErr f with
  | Some err, None =>
      if fail_fast then {| slots := <[i := Finished o]> (slots f); cancelled := true; firstErr := Some err |}
      else set_slot i (Finished o) f
  | _, _ => set_slot i (Finished o) f
  end.

Inductive fan_step : fan → fan → Prop :=
| fs_acquire f i : slots f !! i = Some Waiting → running f < cap → fan_step f (set_slot i Running f)
| fs_give_up f i : slots f !! i = Some Waiting → cancelled f = true → fan_step f (set_slot i (Finished gave_up) f)
| fs_finish f i o : slots f !! i = Some Running → may i (cancelled f) o → fan_step f (record i o f)
| fs_expire f : expires = true → cancelled f = false →
    fan_step f {| slots := slots f; cancelled := true; firstErr := firstErr f |}.

Definition fan_start (n : nat) : fan := {| slots := replicate n Waiting; cancelled := false; firstErr := None |}.
Definition outputs (f : fan) : option (list Out) :=
  mapM (λ s, match s with Finished o => Some o | _ => None end) (slots f).

(** ** Lemmas on one slot *)
Lemma running_insert i s s0 f :
  slots f !! i = Some s0 →
  (length (filter is_running (<[i := s]> (slots f))) + match s0 with Running => 1 | _ => 0 end =
   running f + match s with Running => 1 | _ => 0 end)%nat.
Proof.
  unfold running. generalize (slots f) as l. intros l Hl. rewrite insert_take_drop by (by eapply lookup_lt_Some).
  rewrite <- (take_drop_middle l i s0 Hl) at 3.
  rewrite !filter_app, !filter_cons, !length_app.
  destruct s, s0; repeat case_decide; cbn [is_running length] in *; try done; lia.
Qed.

Lemma record_slots i o f : slots (record i o f) = <[i := Finished o]> (slots f).
Proof. unfold record. by destruct (failed o), (firstErr f), fail_fast. Qed.

(** Work left: two for a job that waits, one for a job that runs, one for a context that
    can still end. *)
Definition weight (s : slot) : nat := match s with Waiting => 2 | Running => 1 | Finished _ => 0 end.
Definition work (f : fan) : nat := sum_list_with weight (slots f) + (if cancelled f then 0 else 1).

Lemma work_insert i s s0 f :
  slots f !! i = Some s0 →
  (sum_list_with weight (<[i := s]> (slots f)) + weight s0 = sum_list_with weight (slots f) + weight s)%nat.
Proof.
  generalize (slots f) as l. intros l Hl. rewrite insert_take_drop by (by eapply lookup_lt_Some).
  rewrite <- (take_drop_middle l i s0 Hl) at 3.
  rewrite !sum_list_with_app. cbn. lia.
Qed.

Lemma work_step f f' : fan_step f f' → (work f' < work f)%nat.
Proof.
  intros Hs. destruct Hs as [f i Hi Hc|f i Hi Hc|f i o Hi Hm|f He Hc]; unfold work.
  - pose proof (work_insert i Running Waiting f Hi) as H. cbn in *. lia.
  - pose proof (work_insert i (Finished gave_up) Waiting f Hi) as H. cbn in *. lia.
  - rewrite record_slots. pose proof (work_insert i (Finished o) Running f Hi) as H. cbn [weight] in H.
    assert (cancelled f = true → cancelled (record i o f) = true) as Hc.
    { unfold record. by destruct (failed o), (firstErr f), fail_fast. }
    destruct (cancelled f), (cancelled (record i o f)); try lia; by specialize (Hc eq_refl).
  - cbn. rewrite Hc. lia.
Qed.

(** What every reachable run satisfies. *)
Definition fan_inv (n : nat) (f : fan) : Prop :=
  length (slots f) = n ∧ (running f <= cap)%nat ∧
  (firstErr f = None ∨ fail_fast = true ∧ cancelled f = true ∧
     ∃ i o, slots f !! i = Some (Finished o) ∧ failed o = firstErr f ∧ is_Some (failed o)) ∧
  (cancelled f = true → expires = true ∨ is_Some (firstErr f)) ∧
  (∀ i o, slots f !! i = Some (Finished o) →
     (∃ c, may i c o ∧ (c = true → cancelled f = true)) ∨ o = gave_up ∧ cancelled f = true).

Lemma fan_inv_start n : fan_inv n (fan_start n).
Proof.
  split; [apply length_replicate|split; [|split; [by left|split; [done|]]]].
  - unfold running. cbn [slots fan_start]. replace (filter is_running (replicate n Waiting)) with (@nil slot); [cbn; lia|].
    induction n as [|n IH]; [done|]. cbn [replicate]. rewrite filter_cons_False by (by intros []). exact IH.
  - intros i o H. apply lookup_replicate in H as [H _]. discriminate.
Qed.

Lemma fan_inv_step n f f' : fan_inv n f → fan_step f f' → fan_inv n f'.
Proof.
  intros (Hl & Hr & He & Hc & Hf) Hs.
  destruct Hs as [f i Hi Hcap|f i Hi Hca|f i o Hi Hm|f Hex Hca].
  - split; [cbn; by rewrite length_insert|split; [|split; [|split]]].
    + pose proof (running_insert i Running Waiting f Hi) as H. unfold running. cbn in *. lia.
    + destruct He as [He|(A & B & j & o & Hj & Ho)]; [by left|right]. split; [done|split; [done|]].
      exists j, o. split; [|done]. cbn. rewrite list_lookup_insert_ne; [done|]. intros ->. congruence.
    + done.
    + intros j o. cbn. intros [(-> & E & _)|[_ H]]%list_lookup_insert_Some; [done|]. by apply Hf.
  - split; [cbn; by rewrite length_insert|split; [|split; [|split]]].
    + pose proof (running_insert i (Finished gave_up) Waiting f Hi) as H. unfold running. cbn in *. lia.
    + destruct He as [He|(A & B & j & o & Hj & Ho)]; [by left|right]. split; [done|split; [done|]].
      exists j, o. split; [|done]. cbn. rewrite list_lookup_insert_ne; [done|]. intros ->. congruence.
    + done.
    + intros j o. cbn. intros [(-> & [= <-] & _)|[_ H]]%list_lookup_insert_Some; [by right|]. by apply Hf.
  - assert (Hslots := record_slots i o f).
    assert (Hcan : cancelled f = true → cancelled (record i o f) = true).
    { unfold record. by destruct (failed o), (firstErr f), fail_fast. }
    assert (Hi' : (i < length (slots f))%nat) by (by eapply lookup_lt_Some).
    split; [by rewrite Hslots, length_insert|split; [|split; [|split]]].
    + pose proof (running_insert i (Finished o) Running f Hi) as H. unfold running in *. rewrite Hslots. cbn in *. lia.
    + destruct He as [He|(A & B & j & o' & Hj & Ho)].
      * unfold record. rewrite He. destruct (failed o) as [err|] eqn:Eo; [|by left].
        destruct fail_fast; [|by left]. right. split; [done|split; [done|]]. exists i, o. cbn.
        rewrite list_lookup_insert_eq by done. rewrite Eo. split; [done|split; [done|by eexists]].
      * right. assert (Hsame : firstErr (record i o f) = firstErr f).
        { destruct Ho as [Ho [e Hoe]]. rewrite Hoe in Ho. unfold record. rewrite <- Ho. by destruct (failed o). }
        rewrite Hsame. split; [done|split; [by apply Hcan|]]. exists j, o'. split; [|done].
        rewrite Hslots, list_lookup_insert_ne; [done|]. intros ->. congruence.
    + unfold record. destruct (failed o), (firstErr f) eqn:Efe, fail_fast; cbn; rewrite ?Efe; try done.
      intros _. right. by eexists.
    + intros j o'. rewrite Hslots. intros [(-> & [= <-] & _)|[_ H]]%list_lookup_insert_Some; [left; by exists (cancelled f)|].
      destruct (Hf j o' H) as [(c & Hmc & Hcc)|[-> Hca]]; [left; exists c|right]; auto.
  - split; [done|split; [done|split; [|split; [by left|]]]]; cbn.
    + destruct He as [He|(A & B & H)]; [by left|by right].
    + intros i o H. destruct (Hf i o H) as [(c & Hmc & _)|[-> _]]; [left; by exists c|by right].
Qed.

Lemma fan_reach_inv n f f' : fan_inv n f → rtc fan_step f f' → fan_inv n f'.
Proof. intros Hi Hs. induction Hs; eauto using fan_inv_step. Qed.

Lemma all_finished_outputs f :
  (∀ i s, slots f !! i = Some s → ∃ o, s = Finished o) →
  ∃ os, outputs f = Some os ∧ length os = length (slots f) ∧
        ∀ i o, os !! i = Some o ↔ slots f !! i = Some (Finished o).
Proof.
  unfold outputs. generalize (slots f) as l. intros l. induction l as [|s l IH]; intros H.
  - exists []. split; [done|split; [done|]]. intros i o. by rewrite !lookup_nil.
  - destruct (H 0%nat s eq_refl) as [o ->]. destruct IH as (os & E & Hl & Hos).
    { intros i s Hi. by apply (H (S i)). }
    exists (o :: os). cbn. rewrite E. split; [done|split; [cbn; by rewrite Hl|]].
    intros [|i] o'; cbn; [split; intros [= ->]; done|apply Hos].
Qed.

Lemma outputs_length f os : outputs f = Some os → length (slots f) = length os.
Proof. unfold outputs. intros H%mapM_Some. by apply Forall2_length in H. Qed.

Lemma outputs_lookup f os i o : outputs f = Some os → os !! i = Some o ↔ slots f !! i = Some (Finished o).
Proof.
  unfold outputs. intros H%mapM_Some. split; intros Hi.
  - destruct (Forall2_lookup_r _ _ _ _ _ H Hi) as (s & Hs & E). destruct s; by simplify_eq.
  - destruct (Forall2_lookup_l _ _ _ _ _ H Hi) as (o' & Ho & E). by simplify_eq.
Qed.

(** Either some goroutine can go on, or every job has its answer. *)
Lemma fan_progress n f :
  fan_inv n f → (0 < cap)%nat → (∀ i c, i < n → ∃ o, may i c o) →
  (∃ f', fan_step f f') ∨ ∃ os, outputs f = Some os ∧ length os = n.
Proof.
  intros (Hl & Hr & _) Hcap Hmay.
  destruct (decide (Exists is_running (slots f))) as [Hx|Hx].
  - left. apply Exists_exists in Hx as (s & Hin & Hs). destruct s; try done.
    apply list_elem_of_lookup in Hin as [i Hi]. 
    destruct (Hmay i (cancelled f)) as [o Ho]; [rewrite <- Hl; by eapply lookup_lt_Some|]. eexists. by eapply fs_finish.
  - assert (Hnone : running f = 0%nat).
    { unfold running. apply length_zero_iff_nil. destruct (filter is_running (slots f)) as [|s l] eqn:E; [done|].
      exfalso. apply Hx, Exists_exists. exists s. assert (Hin : s ∈ filter is_running (slots f)) by (rewrite E; left).
      apply list_elem_of_filter in Hin as [? ?]. done. }
    destruct (decide (Exists is_waiting (slots f))) as [Hw|Hw].
    + left. apply Exists_exists in Hw as ([] & Hin & Hs); try done. apply list_elem_of_lookup in Hin as [i Hi].
      eexists. apply (fs_acquire f i Hi). lia.
    + right. destruct (all_finished_outputs f) as (os & E & Hlen & _).
      { intros i s Hi. destruct s as [| |o]; [destruct Hw|destruct Hx|by exists o]; apply Exists_exists.
        { exists Waiting. split; [by eapply list_elem_of_lookup_2|done]. }
        exists Running. split; [by eapply list_elem_of_lookup_2|done]. }
      exists os. split; [done|]. by rewrite Hlen.
Qed.

Lemma fan_steps_bounded k f f' : nsteps fan_step k f f' → (k + work f' <= work f)%nat.
Proof. induction 1 as [|k f f1 f2 Hs%work_step _ IH]; lia. Qed.

(** From any reachable state the run can be brought to its end. *)
Lemma fan_completes n f :
  fan_inv n f → (0 < cap)%nat → (∀ i c, i < n → ∃ o, may i c o) →
  ∃ f' os, rtc fan_step f f' ∧ outputs f' = Some os ∧ length os = n.
Proof.
  intros Hinv Hcap Hmay. remember (work f) as w eqn:Hw. revert f Hinv Hw.
  induction w as [w IH] using (well_founded_induction lt_wf). intros f Hinv ->.
  destruct (fan_progress n f Hinv Hcap Hmay) as [[f1 Hs]|(os & E & Hl)].
  - destruct (IH (work f1) (work_step _ _ Hs) f1) as (f' & os & Hr & E & Hl); [by eapply fan_inv_step|done|].
    exists f', os. split; [by eapply rtc_l|done].
  - by exists f, os.
Qed.

(** C12.  A bounded parallel run, whatever the order in which its goroutines go: never more
    jobs at once than the semaphore holds; it ends after at most two steps per job and one
    more, and until every job has its answer some goroutine can go on, so it cannot hang;
    at the end there is one answer per job, in the place of the job, each the job's own or
    the notice that it gave up, which it does only after a failure of a fail-fast run or the
    end of the context.  An error reported is the failure of one of the jobs.  When the
    context does not end and the run is not fail-fast, the answers do not depend on the
    schedule. *)
Theorem parallel_run_contract (n : nat) (f : fan) :
  (0 < cap)%nat → (∀ i c, i < n → ∃ o, may i c o) → rtc fan_step (fan_start n) f →
  (running f <= cap)%nat ∧
  (∀ k f', nsteps fan_step k (fan_start n) f' → (k <= 2 * n + 1)%nat) ∧
  ((∃ f', fan_step f f') ∨
   ∃ os, outputs f = Some os ∧ length os = n ∧
     (∀ i o, os !! i = Some o → (∃ c, may i c o) ∨
        o = gave_up ∧ (expires = true ∨ fail_fast = true ∧ is_Some (firstErr f))) ∧
     (∀ err, firstErr f = Some err → fail_fast = true ∧ ∃ i o, os !! i = Some o ∧ failed o = Some err)) ∧
  (expires = false → fail_fast = false → (∀ i o o', may i false o → may i false o' → o = o') →
   ∀ f' os os', rtc fan_step (fan_start n) f' → outputs f = Some os → outputs f' = Some os' → os = os').
Proof.
  intros Hcap Hmay Hs. assert (Hinv : fan_inv n f) by (eapply fan_reach_inv; [apply fan_inv_start|done]).
  split; [apply Hinv|]. split; [|split].
  - intros k f' Hk. apply fan_steps_bounded in Hk.
    assert (work (fan_start n) = 2 * n + 1)%nat as Hw; [|lia].
    unfold work. cbn. f_equal. clear. induction n as [|n IH]; [done|]. cbn in *. lia.
  - destruct (fan_progress n f Hinv Hcap Hmay) as [|(os & Ho & Hl)]; [by left|right].
    exists os. split; [done|split; [done|]].
    assert (Hos : ∀ i o, os !! i = Some o ↔ slots f !! i = Some (Finished o)) by (intros i o; by apply outputs_lookup).
    destruct Hinv as (_ & _ & He & Hc & Hf). split.
    + intros i o Hi. apply Hos in Hi. destruct (Hf i o Hi) as [(c & Hm & _)|[-> Hca]]; [left; by exists c|right].
      split; [done|]. destruct (Hc Hca) as [|Herr]; [by left|right].
      destruct He as [He|(A & _)]; [rewrite He in Herr; by destruct Herr|done].
    + intros err Herr. destruct He as [He|(A & _ & i & o & Hi & Ho' & _)]; [congruence|]. split; [done|].
      exists i, o. split; [by apply Hos|congruence].
  - intros Hex Hff Hdet f' os os' Hs' Ho Ho'.
    assert (Hinv' : fan_inv n f') by (eapply fan_reach_inv; [apply fan_inv_start|done]).
    assert (Hown : ∀ g, fan_inv n g → ∀ i o, slots g !! i = Some (Finished o) → may i false o).
    { intros g (_ & _ & He & Hc & Hf) i o Hi.
      assert (cancelled g = false) as Hca.
      { destruct (cancelled g); [|done]. destruct (Hc eq_refl) as [|Herr]; [congruence|].
        destruct He as [He|(A & _)]; [rewrite He in Herr; by destruct Herr|congruence]. }
      destruct (Hf i o Hi) as [([] & Hm & Hcc)|[_ ?]]; [by specialize (Hcc eq_refl); congruence|done|congruence]. }
    apply list_eq_same_length with n.
    + rewrite <- (outputs_length _ _ Ho'). apply Hinv'.
    + rewrite <- (outputs_length _ _ Ho). apply Hinv.
    + intros i x y _ Hx Hy. apply (outputs_lookup _ _ i x Ho) in Hx. apply (outputs_lookup _ _ i y Ho') in Hy.
      by apply (Hdet i); [apply (Hown f)|apply (Hown f')].
Qed.
End Fan.

(** A witness: three jobs through a semaphore of one, each answering its own number. *)
Definition own_number (i : nat) (c : bool) (o : nat) : Prop := o = i.
Definition first_done : fan (Out := nat) := {| slots := [Finished 0%nat; Waiting; Running]; cancelled := false; firstErr := None |}.
Lemma parallel_run_contract_witness : (running first_done <= 1)%nat ∧ ∃ f', fan_step (λ _ : nat, None) 99 own_number false false 1 first_done f'.
Proof.
  destruct (parallel_run_contract (λ _ : nat, None) 99%nat own_number false false 1 3 first_done) as (A & _ & [B|(os & E & _)] & _).
  - lia.
  - intros i c _. by exists i.
  - eapply rtc_l; [apply (fs_acquire _ _ _ _ _ _ _ 0); [reflexivity|vm_compute; lia]|].
    eapply rtc_l; [by apply (fs_finish _ _ _ _ _ _ _ 0 0)|].
    eapply rtc_l; [apply (fs_acquire _ _ _ _ _ _ _ 2); [reflexivity|vm_compute; lia]|]. apply rtc_refl.
  - by split.
  - discriminate E.
Defined.
