(* ===== verification/Orchestrator.v ===== *)
(** Orchestration patterns (src/orchestrator/): stages run in parallel (FanOut, Select,
    Broadcast), in sequence (Pipeline) or as a tree, and the choice between them.  The
    parallel ones run on the semantics of Fan.v. *)

From stdpp Require Import base tactics list gmap strings relations.
From Stdlib Require Import ZArith Lia Floats.SpecFloat.
From S2P Require Import Prelude LoopGuards Float Fan.

Local Open Scope Z_scope.

(** ** Inputs and outputs (orchestrator.go); durations are left out *)
Record StageOutput := { Data : gmap string json; Status : string; out_Error : string; Metadata : gmap string string }.
Record StageInput := { in_Data : gmap string json; Previous : option StageOutput; in_Metadata : gmap string string }.
Record OrchestratorResult := { Pattern : string; Outputs : list (option StageOutput); StageCount : Z }.

Definition error_output (err : error) : StageOutput :=
  {| Data := ∅; Status := "error"; out_Error := error_text err; Metadata := ∅ |}.

(** What a stage answers, and what is kept of it. *)
Definition stage_result : Type := option StageOutput * option error.
Definition kept (r : stage_result) : option StageOutput :=
  match r.2 with Some err => Some (error_output err) | None => r.1 end.

Definition mergeData (base : gmap string json) (out : option StageOutput) : gmap string json :=
  match out with Some o => Data o ∪ base | None => base end.

(** ** FanOut (fanout.go), from the answers of a finished parallel run *)
Definition fanout_result (MergeFunc : option (list (option StageOutput) → option StageOutput))
    (answers : list stage_result) : OrchestratorResult :=
  let outputs := kept <$> answers in {|
    Pattern := "fan-out";
    Outputs := match answers, MergeFunc with
               | _ :: _, Some f => [f outputs]
               | _, _ => outputs end;
    StageCount := Z.of_nat (length answers) |}.

Section FanOut.
(** The answers a stage can give on the input, its context being done or not, and what the
    context's [Err] is. *)
Variable may : nat → bool → stage_result → Prop.
Variable ctx_err : error.
Variables (FailFast has_timeout : bool) (MaxConcurrency : Z).
Variable MergeFunc : option (list (option StageOutput) → option StageOutput).

(** A run of FanOut over [n] stages that ends with a result and an error. *)
Definition FanOut (n : nat) (result : OrchestratorResult) (err : option error) : Prop :=
  ∃ f answers,
    rtc (fan_step snd (Some (error_output ctx_err), Some ctx_err) may FailFast has_timeout
           (Z.to_nat (maxConcurrency MaxConcurrency (Z.of_nat n)))) (fan_start n) f ∧
    Fan.outputs f = Some answers ∧ result = fanout_result MergeFunc answers ∧ err = firstErr f.
End FanOut.

(** ** Select (selector.go) *)
Definition selectable (o : option StageOutput) : option StageOutput :=
  match o with Some o => if bool_decide (Status o = "error") then None else Some o | None => None end.

(** The loop that keeps the best index and its score. *)
Definition pick_step (score : StageOutput → float64) (best : option (nat * float64)) (p : nat * option StageOutput) :
    option (nat * float64) :=
  match selectable p.2 with
  | None => best
  | Some o =>
      match best with
      | None => Some (p.1, score o)
      | Some (_, s) => if float_lt s (score o) then Some (p.1, score o) else best
      end
  end.
Definition pick_best (score : StageOutput → float64) (os : list (option StageOutput)) : option nat :=
  fst <$> foldl (pick_step score) None (imap pair os).

Definition mark (o : StageOutput) : StageOutput :=
  {| Data := Data o; Status := Status o; out_Error := out_Error o; Metadata := <["selected" := "true"]> (Metadata o) |}.
Definition select_result (score : StageOutput → float64) (answers : list stage_result) : OrchestratorResult :=
  let outputs := kept <$> answers in {|
    Pattern := "select";
    Outputs := match pick_best score outputs with
               | Some i => alter (fmap mark) i outputs | None => outputs end;
    StageCount := Z.of_nat (length answers) |}.

(** A run of Select over [n] stages; it never fails fast. *)
Definition Select (may : nat → bool → stage_result → Prop) (ctx_err : error) (expires : bool) (MaxConcurrency : Z)
    (Scorer : option (StageOutput → float64)) (n : nat) (result : option OrchestratorResult) (err : option error) : Prop :=
  match Scorer with
  | None => result = None ∧ err = Some (Err "orchestrator: scorer is required for Select")
  | Some score =>
      ∃ f answers,
        rtc (fan_step (λ _, None) (Some (error_output ctx_err), Some ctx_err) may false expires
               (Z.to_nat (maxConcurrency MaxConcurrency (Z.of_nat n)))) (fan_start n) f ∧
        Fan.outputs f = Some answers ∧ result = Some (select_result score answers) ∧ err = None
  end.

(** ** Pipeline (pipeline.go) *)
Section Pipeline.
Context {W : Type}.
Definition StageFunc : Type := StageInput → W → stage_result * W.

Fixpoint pipeline_loop (mode : string) (stages : list StageFunc) (current : StageInput)
    (outputs : list (option StageOutput)) (w : W) : (list (option StageOutput) * option error) * W :=
  match stages with
  | [] => ((outputs, None), w)
  | stage :: stages =>
      let '((out, err), w) := stage current w in
      let next outputs := pipeline_loop mode stages
        {| in_Data := mergeData (in_Data current) out; Previous := out; in_Metadata := in_Metadata current |}
        (outputs ++ [out]) w in
      match err with
      | None => next outputs
      | Some e =>
          let outputs := outputs ++ [Some (error_output e)] in
          if bool_decide (mode = "stop") then ((outputs, Some e), w)
          else if bool_decide (mode = "skip") then pipeline_loop mode stages current outputs w
          else if bool_decide (mode = "continue") then
            pipeline_loop mode stages {| in_Data := in_Data current; Previous := Some (error_output e);
                                         in_Metadata := in_Metadata current |} outputs w
          else next outputs
      end
  end.

Definition Pipeline (OnStageError : string) (stages : list StageFunc) (input : StageInput) (w : W) :
    (OrchestratorResult * option error) * W :=
  let mode := if bool_decide (OnStageError = "") then "stop" else OnStageError in
  let '((outputs, err), w) := pipeline_loop mode stages input [] w in
  (({| Pattern := "pipeline"; Outputs := outputs; StageCount := Z.of_nat (length outputs) |}, err), w).

(** ** Stage middleware (middleware.go) *)
Definition StageMiddleware : Type := string → StageFunc → StageFunc.
Definition WrapStage (stage : StageFunc) (name : string) (mw : list StageMiddleware) : StageFunc :=
  foldr (λ m wrapped, m name wrapped) stage mw.
Definition stageName (names : list string) (i : nat) : string :=
  match names !! i with
  | Some name => if bool_decide (name ≠ "") then name else "stage-" +:+ itoa (Z.of_nat i)
  | None => "stage-" +:+ itoa (Z.of_nat i)
  end.
Definition WrapStages (stages : list StageFunc) (names : list string) (mw : list StageMiddleware) : list StageFunc :=
  match mw with
  | [] => stages
  | _ => imap (λ i stage, WrapStage stage (stageName names i) mw) stages
  end.

(** ** Swarm (swarm.go) *)
Record SwarmMessage := {
  From : string; To : string; Topic : string; msg_Data : gmap string json; msg_Metadata : gmap string string }.
Definition SwarmHandler : Type := SwarmMessage → W → (SwarmMessage * option error) * W.
Record SwarmPeer := { peer_ID : string; peer_Handler : option SwarmHandler }.
Record Swarm := { peers : list SwarmPeer; index : gmap string SwarmPeer }.

Definition ErrSwarmPeerNotFound : error :=
  ErrSentinel "orchestrator.ErrSwarmPeerNotFound" "orchestrator: swarm peer not found".
Definition ErrSwarmDuplicatePeer : error :=
  ErrSentinel "orchestrator.ErrSwarmDuplicatePeer" "orchestrator: duplicate swarm peer".
Definition ErrSwarmInvalidPeer : error :=
  ErrSentinel "orchestrator.ErrSwarmInvalidPeer" "orchestrator: invalid swarm peer".

Fixpoint add_peers (s : Swarm) (ps : list SwarmPeer) : error + Swarm :=
  match ps with
  | [] => inr s
  | p :: ps =>
      if bool_decide (peer_ID p = "") || bool_decide (¬ is_Some (peer_Handler p)) then inl ErrSwarmInvalidPeer
      else match index s !! peer_ID p with
           | Some _ => inl (ErrWrap "" ErrSwarmDuplicatePeer (": " +:+ peer_ID p))
           | None => add_peers {| peers := peers s ++ [p]; index := <[peer_ID p := p]> (index s) |} ps
           end
  end.
Definition NewSwarm (ps : list SwarmPeer) : error + Swarm := add_peers {| peers := []; index := ∅ |} ps.

Definition set_To (id : string) (m : SwarmMessage) : SwarmMessage :=
  {| From := From m; To := id; Topic := Topic m; msg_Data := msg_Data m; msg_Metadata := msg_Metadata m |}.
Definition set_From (id : string) (m : SwarmMessage) : SwarmMessage :=
  {| From := if bool_decide (From m = "") then id else From m; To := To m; Topic := Topic m;
     msg_Data := msg_Data m; msg_Metadata := msg_Metadata m |}.

Definition Unicast (s : Swarm) (target : string) (m : SwarmMessage) (w : W) :
    (list SwarmMessage * gmap string string * option error) * W :=
  match index s !! target ≫= peer_Handler with
  | None => (([], ∅, Some (ErrWrap "" ErrSwarmPeerNotFound (": " +:+ target))), w)
  | Some handler =>
      match handler (set_To target m) w with
      | ((_, Some err), w) => (([], {[target := error_text err]}, Some err), w)
      | ((response, None), w) => (([set_From target response], ∅, None), w)
      end
  end.

(** What a broadcast collects from the answers of a finished parallel run, one per peer: a
    message or an error (its own, or the context's when it gave up). *)
Definition answer : Type := SwarmMessage + error.
Definition zero_message : SwarmMessage := {| From := ""; To := ""; Topic := ""; msg_Data := ∅; msg_Metadata := ∅ |}.
Definition nonzero (m : SwarmMessage) : bool :=
  bool_decide (From m ≠ "") || bool_decide (To m ≠ "") || bool_decide (Topic m ≠ "") ||
  bool_decide (msg_Data m ≠ ∅) || bool_decide (msg_Metadata m ≠ ∅).
Definition response (p : string * answer) : SwarmMessage :=
  match p.2 with inl m => set_From p.1 m | inr _ => zero_message end.
Definition failure (p : string * answer) : option (string * string) :=
  match p.2 with inl _ => None | inr err => Some (p.1, error_text err) end.
Definition broadcast_result (s : Swarm) (answers : list answer) : list SwarmMessage * gmap string string :=
  let pairs := zip (peer_ID <$> peers s) answers in
  (filter (λ m, nonzero m = true) (response <$> pairs), list_to_map (omap failure pairs)).

(** A run of Broadcast: peer [i] may answer what [may] says; one that gives up leaves the
    context's error. *)
Definition answer_error (a : answer) : option error := match a with inl _ => None | inr err => Some err end.
Definition Broadcast (may : nat → bool → answer → Prop) (ctx_err : error) (FailFast expires : bool)
    (MaxConcurrency : Z) (s : Swarm) (result : list SwarmMessage * gmap string string) (err : option error) : Prop :=
  ∃ f answers,
    rtc (fan_step answer_error (inr ctx_err) may FailFast expires
           (Z.to_nat (maxConcurrency MaxConcurrency (Z.of_nat (length (peers s)))))) (fan_start (length (peers s))) f ∧
    Fan.outputs f = Some answers ∧ result = broadcast_result s answers ∧ err = firstErr f.
End Pipeline.
Arguments StageFunc : clear implicits.
Arguments SwarmPeer : clear implicits.
Arguments Swarm : clear implicits.


(** ** Choosing a pattern (dynamic.go) *)
Inductive DynamicPattern := DynamicPatternFanOut | DynamicPatternPipeline | DynamicPatternSelect.
#[export] Instance DynamicPattern_eq_dec : EqDecision DynamicPattern.
Proof. solve_decision. Defined.
Definition ErrUnknownDynamicPattern : error :=
  ErrSentinel "orchestrator.ErrUnknownDynamicPattern" "orchestrator: unknown dynamic pattern".

Definition truthy (value : string) : bool :=
  bool_decide (to_lower (TrimSpace value) ∈ ["1"; "t"; "true"; "y"; "yes"; "on"]).
Definition falsy (value : string) : bool :=
  bool_decide (to_lower (TrimSpace value) ∈ ["0"; "f"; "false"; "n"; "no"; "off"]).

Definition SelectDynamicPattern (input : StageInput) (stageCount : Z) : error + (DynamicPattern * string) :=
  let meta k := default "" (in_Metadata input !! k) in
  let pattern := TrimSpace (meta "orchestrator.pattern") in
  if bool_decide (pattern ≠ "") then
    if bool_decide (pattern = "fan-out") then inr (DynamicPatternFanOut, "metadata override")
    else if bool_decide (pattern = "pipeline") then inr (DynamicPatternPipeline, "metadata override")
    else if bool_decide (pattern = "select") then inr (DynamicPatternSelect, "metadata override")
    else inl (ErrWrap "" ErrUnknownDynamicPattern (": " +:+ pattern))
  else if truthy (meta "orchestrator.best_of") then inr (DynamicPatternSelect, "best-of metadata")
  else if truthy (meta "orchestrator.ordered") || truthy (meta "orchestrator.depends_on_previous") then
    inr (DynamicPatternPipeline, "ordered metadata")
  else if falsy (meta "orchestrator.parallel") then inr (DynamicPatternPipeline, "parallel disabled")
  else if truthy (meta "orchestrator.parallel") || (1 <? stageCount) then inr (DynamicPatternFanOut, "parallel default")
  else inr (DynamicPatternPipeline, "single-stage default").

(** ** The pipeline *)
Section PipelineFacts.
Context {W : Type}.
Implicit Types stages : list (StageFunc W).

Definition known_mode (mode : string) : Prop := mode ∈ [""; "stop"; "skip"; "continue"].

(** Under a known mode the loop adds one output per stage it runs, stops at the first error
    of a "stop" pipeline only, and what it answers is the answer of the stages it ran. *)
Lemma pipeline_loop_spec mode stages current outs w outs' err w' :
  mode ∈ ["stop"; "skip"; "continue"] →
  pipeline_loop mode stages current outs w = ((outs', err), w') →
  ∃ new, outs' = outs ++ new ∧ (length new <= length stages)%nat ∧
    (err = None → length new = length stages)%nat ∧
    (∀ e, err = Some e → mode = "stop" ∧ last new = Some (Some (error_output e))) ∧
    (∀ later, is_Some err → pipeline_loop mode (take (length new) stages ++ later) current outs w = ((outs', err), w')).
Proof.
  intros Hmode. revert current outs w. induction stages as [|stage stages IH]; intros current outs w H.
  - cbn in H. injection H as <- <- <-. exists []. rewrite app_nil_r. split; [done|split; [done|split; [done|split; [done|]]]]. by intros later [? ?].
  - cbn [pipeline_loop] in H. destruct (stage current w) as [[out serr] w1] eqn:Es.
    assert (Hrec : ∀ cur o, pipeline_loop mode stages cur (outs ++ [o]) w1 = ((outs', err), w') →
      (∀ sts, pipeline_loop mode (stage :: sts) current outs w = pipeline_loop mode sts cur (outs ++ [o]) w1) →
      ∃ new, outs' = outs ++ new ∧ (length new <= S (length stages))%nat ∧
        (err = None → length new = S (length stages))%nat ∧
        (∀ e, err = Some e → mode = "stop" ∧ last new = Some (Some (error_output e))) ∧
        (∀ later, is_Some err →
           pipeline_loop mode (take (length new) (stage :: stages) ++ later) current outs w = ((outs', err), w'))).
    { intros cur o Hl Hstep. destruct (IH _ _ _ Hl) as (new & -> & Hn & Hall & Herr & Hcut). exists (o :: new).
      rewrite <- app_assoc. cbn [length app take]. split; [done|split; [lia|split; [|split]]].
      - intros E. by rewrite (Hall E).
      - intros e E. destruct (Herr e E) as [Hm Hlast]. split; [done|]. by destruct new.
      - intros later Hs. rewrite Hstep. specialize (Hcut later Hs). rewrite <- app_assoc in Hcut. exact Hcut. }
    destruct serr as [e|].
    + destruct (decide (mode = "stop")) as [->|Hns].
      { rewrite bool_decide_true in H by done. injection H as <- <- <-. exists [Some (error_output e)].
        split; [done|split; [cbn; lia|split; [done|split; [by intros ? [= <-]|]]]].
        intros later _. cbn. by rewrite Es. }
      rewrite (bool_decide_false _ Hns) in H.
      destruct (decide (mode = "skip")) as [->|Hnk].
      { eapply Hrec; [exact H|]. intros sts. cbn. by rewrite Es. }
      rewrite (bool_decide_false _ Hnk) in H.
      destruct (decide (mode = "continue")) as [->|Hnc]; [|set_solver].
      eapply Hrec; [exact H|]. intros sts. cbn. by rewrite Es.
    + eapply Hrec; [exact H|]. intros sts. cbn [pipeline_loop]. by rewrite Es.
Qed.

(** A pipeline whose OnStageError is one of the documented modes: one output per stage
    it runs, in order; it runs every stage unless it stops, which only the "stop" mode (the
    default) does, at the first error: that error is returned and is the last output, and
    the stages after it have no effect at all, whatever they are. *)
Theorem pipeline_contract (mode : string) stages (input : StageInput) (w w' : W) r err :
  known_mode mode → Pipeline mode stages input w = ((r, err), w') →
  StageCount r = Z.of_nat (length (Outputs r)) ∧ (length (Outputs r) <= length stages)%nat ∧
  (err = None → length (Outputs r) = length stages) ∧
  (∀ e, err = Some e → mode ∈ [""; "stop"] ∧ last (Outputs r) = Some (Some (error_output e)) ∧
     ∀ later, Pipeline mode (take (length (Outputs r)) stages ++ later) input w = ((r, err), w')).
Proof.
  unfold known_mode, Pipeline. intros Hmode.
  destruct (pipeline_loop _ stages input [] w) as [[outs err'] w1] eqn:E. intros [= <- <- <-].
  assert (Hm : (if bool_decide (mode = "") then "stop" else mode) ∈ ["stop"; "skip"; "continue"]).
  { destruct (bool_decide_reflect (mode = "")); set_solver. }
  destruct (pipeline_loop_spec _ _ _ _ _ _ _ _ Hm E) as (new & -> & Hn & Hall & Herr & Hcut). cbn [app] in *.
  split; [done|split; [done|split; [done|]]]. intros e ->. destruct (Herr e eq_refl) as [Hs Hl].
  split; [|split; [done|]].
  - destruct (bool_decide_reflect (mode = "")) as [->|]; [set_solver|]. rewrite Hs. set_solver.
  - intros later. cbn [Outputs]. by rewrite Hcut.
Qed.

End PipelineFacts.

(** An OnStageError outside the documented modes records a failed stage twice: StageCount
    then exceeds the number of stages. *)
Example unknown_mode_counts_twice :
  let stage : StageFunc unit := λ _ w, ((None, Some (Err "boom")), w) in
  StageCount (Pipeline "retry" [stage] {| in_Data := ∅; Previous := None; in_Metadata := ∅ |} tt).1.1 = 2.
Proof. reflexivity. Qed.

(** ** Selection *)
Section SelectFacts.
Variable score : StageOutput → Z.
Hypothesis score_range : ∀ o, 0 <= score o < 2 ^ 53.
Definition scorer (o : StageOutput) : float64 := float_of_int (score o).

(** [i] holds the first of the best eligible outputs among the first [n]. *)
Definition best_at (os : list (option StageOutput)) (i : nat) : Prop :=
  ∃ o, os !! i ≫= selectable = Some o ∧
    ∀ j o', os !! j ≫= selectable = Some o' → score o' <= score o ∧ (score o' = score o → i <= j)%nat.

Lemma pick_best_snoc os o :
  foldl (pick_step scorer) None (imap pair (os ++ [o])) =
  pick_step scorer (foldl (pick_step scorer) None (imap pair os)) (length os, o).
Proof. rewrite imap_app, foldl_app. cbn. by rewrite Nat.add_0_r. Qed.

Lemma pick_best_inv os :
  match foldl (pick_step scorer) None (imap pair os) with
  | None => ∀ j, os !! j ≫= selectable = None
  | Some (i, s) => best_at os i ∧ ∃ o, os !! i ≫= selectable = Some o ∧ s = scorer o
  end.
Proof.
  induction os as [|o os IH] using rev_ind; [done|].
  rewrite pick_best_snoc.
  assert (Hold : ∀ j, (j < length os)%nat → (os ++ [o]) !! j ≫= selectable = os !! j ≫= selectable).
  { intros j Hj. by rewrite lookup_app_l. }
  assert (Hnew : (os ++ [o]) !! length os ≫= selectable = selectable o) by (by rewrite list_lookup_middle).
  assert (Hcase : ∀ j o', (os ++ [o]) !! j ≫= selectable = Some o' →
    (j < length os)%nat ∧ os !! j ≫= selectable = Some o' ∨ j = length os ∧ selectable o = Some o').
  { intros j o' H. destruct (decide (j < length os)%nat); [left|right].
    - by rewrite <- Hold.
    - destruct (decide (j = length os)) as [->|]; [by rewrite Hnew in H|].
      rewrite lookup_ge_None_2 in H; [done|rewrite length_app; cbn; lia]. }
  assert (Hin : ∀ i o', os !! i ≫= selectable = Some o' → (i < length os)%nat).
  { intros i o' H. destruct (os !! i) eqn:E; [by eapply lookup_lt_Some|done]. }
  unfold pick_step at 1. cbn [fst snd]. destruct (selectable o) as [so|] eqn:Eo.
  - destruct (foldl _ None (imap pair os)) as [[i s]|].
    + destruct IH as [(ob & Hob & Hbest) (ob' & Hob' & ->)]. simplify_eq.
      unfold scorer. rewrite float_lt_int by auto. destruct (Z.ltb_spec (score ob) (score so)).
      * split; [|by exists so]. exists so. split; [done|].
        intros j o' [[Hj H']|[-> [= ->]]]%Hcase; [destruct (Hbest j o' H'); lia|lia].
      * split; [|exists ob; split; [by rewrite Hold by eauto|done]]. exists ob. split; [by rewrite Hold by eauto|].
        intros j o' [[Hj H']|[-> E']]%Hcase; [by apply Hbest|]. simplify_eq.
        split; [lia|]. intros _. apply Hin in Hob. lia.
    + split; [|by exists so]. exists so. split; [done|].
      intros j o' [[Hj H']|[-> E']]%Hcase; [by rewrite IH in H'|]. simplify_eq. lia.
  - destruct (foldl _ None (imap pair os)) as [[i s]|].
    + destruct IH as [(ob & Hob & Hbest) (ob' & Hob' & ->)].
      split; [|exists ob'; split; [by rewrite Hold by eauto|done]]. exists ob. split; [by rewrite Hold by eauto|].
      intros j o' [[Hj H']|[-> ?]]%Hcase; [by apply Hbest|done].
    + intros j. destruct ((os ++ [o]) !! j ≫= selectable) as [o'|] eqn:E; [|done].
      apply Hcase in E as [[_ E]|[_ ?]]; [by rewrite IH in E|done].
Qed.

(** Select marks one output and only one: the first among those with the greatest score
    that are neither missing nor errors; when there is none the outputs are returned as they
    are.  (For a scorer whose scores are whole numbers that a float64 holds exactly.) *)
Theorem select_picks_best (answers : list stage_result) :
  let outs := kept <$> answers in
  let r := select_result scorer answers in
  StageCount r = Z.of_nat (length answers) ∧ length (Outputs r) = length answers ∧
  ((∃ i, best_at outs i ∧ (∃ o, Outputs r !! i = Some (Some (mark o)) ∧ outs !! i = Some (Some o)) ∧
         ∀ j, j ≠ i → Outputs r !! j = outs !! j) ∨
   (∀ j, outs !! j ≫= selectable = None) ∧ Outputs r = outs).
Proof.
  cbv zeta. unfold select_result. cbn [Outputs StageCount].
  pose proof (pick_best_inv (kept <$> answers)) as H. unfold pick_best.
  destruct (foldl _ None _) as [[i s]|]; cbn [fmap option_fmap option_map fst]; cycle 1.
  - split; [done|split; [by rewrite length_fmap|by right]].
  - split; [done|split; [by rewrite length_alter, length_fmap|left]]. exists i. split; [apply H|].
    destruct H as [_ (o & Ho & _)]. destruct ((kept <$> answers) !! i) as [[o1|]|] eqn:E; [|done|done].
    split; [|intros j Hj; by rewrite list_lookup_alter_ne].
    exists o1. split; [|done]. rewrite list_lookup_alter_eq, E. done.
Qed.
End SelectFacts.

(** ** The swarm *)
Section SwarmFacts.
Context {W : Type}.
Implicit Types (s : Swarm W) (ps : list (SwarmPeer W)).

Definition valid_peer (p : SwarmPeer W) : Prop := peer_ID p ≠ "" ∧ is_Some (peer_Handler p).
Definition swarm_ok s : Prop :=
  NoDup (peer_ID <$> peers s) ∧ Forall valid_peer (peers s) ∧
  ∀ id p, index s !! id = Some p ↔ p ∈ peers s ∧ peer_ID p = id.

Lemma add_peers_spec ps s s' :
  swarm_ok s → add_peers s ps = inr s' → swarm_ok s' ∧ peers s' = peers s ++ ps.
Proof.
  revert s. induction ps as [|p ps IH]; intros s Hok H; cbn in H; [injection H as <-; by rewrite app_nil_r|].
  destruct (bool_decide_reflect (peer_ID p = "")) as [|Hid]; [done|].
  destruct (bool_decide_reflect (¬ is_Some (peer_Handler p))) as [|Hh]; [done|]. cbn in H.
  destruct (index s !! peer_ID p) eqn:Ei; [done|]. destruct Hok as (Hnd & Hv & Hix).
  apply IH in H as [Hok' ->]; [split; [done|cbn [peers]; by rewrite <- app_assoc]|].
  assert (Hfresh : ∀ q, q ∈ peers s → peer_ID q ≠ peer_ID p).
  { intros q Hq E. assert (index s !! peer_ID p = Some q) as ?; [by apply Hix|congruence]. }
  split; [|split]; cbn [peers index].
  - rewrite fmap_app. apply NoDup_app. split; [done|split; [|apply NoDup_singleton]].
    intros x (q & -> & Hq)%list_elem_of_fmap. cbn. intros ?%list_elem_of_singleton. by apply (Hfresh q).
  - apply Forall_app_2; [done|]. constructor; [|constructor]. split; [done|].
    destruct (peer_Handler p); [by eexists|]. exfalso. apply Hh. by intros [? ?].
  - intros id q. rewrite elem_of_app, list_elem_of_singleton.
    destruct (decide (peer_ID p = id)) as [<-|Hne].
    + rewrite lookup_insert_eq. split; [intros [= ->]; auto|]. intros [[Hq| ->] E]; [|done]. by destruct (Hfresh q Hq).
    + rewrite lookup_insert_ne by done. rewrite Hix. split; [intros []; auto|]. intros [[?| ->] ?]; done.
Qed.

Lemma NewSwarm_ok ps s : NewSwarm ps = inr s → swarm_ok s ∧ peers s = ps.
Proof.
  intros H. apply add_peers_spec in H; [done|]. split; [constructor|split; [constructor|]].
  intros id p. cbn. rewrite lookup_empty. split; [done|]. by intros [?%elem_of_nil ?].
Qed.

Definition delivered (p : string * answer) : option SwarmMessage :=
  match p.2 with inl m => Some (set_From p.1 m) | inr _ => None end.

Lemma failure_ids ids (answers : list answer) id x : (id, x) ∈ omap failure (zip ids answers) → id ∈ ids.
Proof.
  intros ([id' [m|e]] & Hin & E)%list_elem_of_omap; [done|]. cbn in E. injection E as <- _.
  by apply elem_of_zip_l in Hin.
Qed.

Lemma failure_NoDup ids (answers : list answer) : NoDup ids → NoDup (omap failure (zip ids answers)).*1.
Proof.
  intros Hnd. revert answers. induction Hnd as [|id ids Hid Hnd IH]; intros [|[m|e] answers]; try (by constructor).
  - apply IH.
  - cbn. apply NoDup_cons. split; [|apply IH]. intros ([id' x] & -> & Hin)%list_elem_of_fmap.
    by apply Hid, (failure_ids _ answers _ x).
Qed.

Lemma broadcast_accounts ids (answers : list answer) :
  length answers = length ids → NoDup ids → Forall (λ id, id ≠ "") ids →
  let responses := omap delivered (zip ids answers) in
  let errors : gmap string string := list_to_map (omap failure (zip ids answers)) in
  (length responses + size errors = length ids)%nat ∧ Forall (λ m, From m ≠ "") responses ∧
  ∀ id a, (id, a) ∈ zip ids answers →
    match a with
    | inl m => set_From id m ∈ responses ∧ errors !! id = None
    | inr err => errors !! id = Some (error_text err)
    end.
Proof.
  intros Hl Hnd Hids responses errors. split; [|split].
  - unfold errors. rewrite map_size_list_to_map by (by apply failure_NoDup). subst responses errors. clear Hnd Hids.
    revert answers Hl. induction ids as [|id ids IH]; intros [|[m|e] answers] Hl; try discriminate Hl; [done| |]; injection Hl as Hl; specialize (IH _ Hl); cbn; lia.
  - apply Forall_forall. intros m ([id [m'|e]] & Hin & E)%list_elem_of_omap; [|done]. cbn in E. injection E as <-.
    cbn. destruct (bool_decide_reflect (From m' = "")); [|done].
    rewrite Forall_forall in Hids. apply Hids. by apply elem_of_zip_l in Hin.
  - intros id [m|e] Hin.
    + split; [apply list_elem_of_omap; by exists (id, inl m)|]. apply not_elem_of_list_to_map_1.
      intros ([id' x] & -> & Hf)%list_elem_of_fmap. apply list_elem_of_omap in Hf as ([id'' [m'|e]] & Hin' & E); [done|].
      cbn in E. injection E as -> _. cbn in Hin.
      apply list_elem_of_lookup in Hin as [i Hi], Hin' as [j Hj].
      rewrite lookup_zip_with in Hi, Hj. simplify_option_eq. pose proof (NoDup_lookup ids i j id' Hnd) as E. naive_solver.
    + apply elem_of_list_to_map_1; [by apply failure_NoDup|]. apply list_elem_of_omap. by exists (id, inr e).
Qed.

Lemma broadcast_partition ids (answers : list answer) :
  length answers = length ids → Forall (λ id, id ≠ "") ids →
  filter (λ m, nonzero m = true) (response <$> zip ids answers) =
    omap delivered (zip ids answers).
Proof.
  revert answers. induction ids as [|id ids IH]; intros [|[m|e] answers] Hl Hids; [done..| |];
    apply Forall_cons in Hids as [Hid Hids]; injection Hl as Hl; cbn [zip zip_with fmap list_fmap].
  - rewrite filter_cons_True; [by cbn; rewrite IH|].
    unfold nonzero, response. cbn. rewrite bool_decide_true; [done|].
    destruct (bool_decide_reflect (From m = "")); done.
  - rewrite filter_cons_False; [by cbn; rewrite IH|]. by vm_compute.
Qed.

(** A swarm made by NewSwarm has the given peers, each with an id, a handler and a place
    in the index under its own id.  Unicast reaches exactly the peer of that id, hands it
    the message addressed to it, and changes nothing when there is none.  A broadcast
    accounts for every peer: each is among the responses, in the order of the peers and with
    a sender, or it is in the error table, and never both. *)
Theorem swarm_delivers ps s :
  NewSwarm ps = inr s →
  peers s = ps ∧ NoDup (peer_ID <$> ps) ∧
  (∀ p h m w, p ∈ ps → peer_Handler p = Some h →
     Unicast s (peer_ID p) m w =
       (match (h (set_To (peer_ID p) m) w).1 with
        | (_, Some err) => ([], {[peer_ID p := error_text err]}, Some err)
        | (r, None) => ([set_From (peer_ID p) r], ∅, None) end, (h (set_To (peer_ID p) m) w).2)) ∧
  (∀ id m w, id ∉ peer_ID <$> ps →
     Unicast s id m w = (([], ∅, Some (ErrWrap "" ErrSwarmPeerNotFound (": " +:+ id))), w)) ∧
  (∀ answers, length answers = length ps →
     let '(responses, errors) := broadcast_result s answers in
     (length responses + size errors = length ps)%nat ∧
     Forall (λ m, From m ≠ "") responses ∧
     ∀ i p a, ps !! i = Some p → answers !! i = Some a →
       match a with
       | inl m => set_From (peer_ID p) m ∈ responses ∧ errors !! peer_ID p = None
       | inr err => errors !! peer_ID p = Some (error_text err)
       end).
Proof.
  intros [(Hnd & Hv & Hix) <-]%NewSwarm_ok. split; [done|split; [done|split; [|split]]].
  - intros p h m w Hp Hh. unfold Unicast.
    assert (index s !! peer_ID p = Some p) as -> by (by apply Hix). cbn. rewrite Hh.
    destruct (h _ w) as [[r [err|]] w']; done.
  - intros id m w Hid. unfold Unicast. destruct (index s !! id) as [p|] eqn:E; [|done].
    apply Hix in E as [Hp <-]. destruct Hid. by apply list_elem_of_fmap_2.
  - intros answers Hl. unfold broadcast_result.
    assert (Hids : Forall (λ id, id ≠ "") (peer_ID <$> peers s)).
    { apply Forall_fmap. eapply Forall_impl; [exact Hv|]. by intros p []. }
    rewrite broadcast_partition by (by rewrite ?length_fmap).
    pose proof (broadcast_accounts (peer_ID <$> peers s) answers ltac:(by rewrite length_fmap) Hnd Hids) as (A & B & C).
    split; [by rewrite length_fmap in A|split; [exact B|]]. intros i p a Hp Ha. apply C.
    apply list_elem_of_lookup. exists i. rewrite lookup_zip_with, list_lookup_fmap, Hp. cbn.
    exact (f_equal (λ o : option answer, o ≫= λ y, Some (peer_ID p, y)) Ha).
Qed.
End SwarmFacts.

(** ** Witnesses *)
Definition a_stage : StageFunc nat := λ _ n, ((Some {| Data := ∅; Status := "ok"; out_Error := ""; Metadata := ∅ |}, None), S n).
Definition bad_stage : StageFunc nat := λ _ n, ((None, Some (Err "boom")), S n).
Definition no_input : StageInput := {| in_Data := ∅; Previous := None; in_Metadata := ∅ |}.

(** Two stages, the second failing, then any others: one stops after the second. *)
Lemma pipeline_contract_witness :
  ∀ later, (Pipeline "" ([a_stage; bad_stage] ++ later) no_input 0%nat).2 = 2%nat.
Proof.
  intros later.
  destruct (pipeline_contract "" [a_stage; bad_stage; a_stage] no_input 0%nat 2%nat _ (Some (Err "boom"))
    ltac:(by left) eq_refl) as (_ & _ & _ & H).
  destruct (H _ eq_refl) as (_ & _ & Hcut). specialize (Hcut later).
  exact (f_equal snd Hcut).
Defined.

Definition status_score (o : StageOutput) : Z := if bool_decide (Status o = "good") then 7 else 3.
Lemma select_picks_best_witness :
  length (Outputs (select_result (scorer status_score) [(None, None); (Some (error_output (Err "x")), None)])) = 2%nat.
Proof.
  apply (select_picks_best status_score).
  intros o. unfold status_score. destruct (bool_decide _); lia.
Defined.

Definition echo_peer (id : string) : SwarmPeer unit :=
  {| peer_ID := id; peer_Handler := Some (λ m w, ((m, None), w)) |}.
Lemma swarm_delivers_witness :
  ∃ s, NewSwarm [echo_peer "a"; echo_peer "b"] = inr s ∧ peers s = [echo_peer "a"; echo_peer "b"].
Proof.
  eexists. split; [reflexivity|]. eapply (swarm_delivers [echo_peer "a"; echo_peer "b"]). reflexivity.
Defined.

(** An explicit pattern overrides every other hint, surrounding blanks aside; an unknown one
    is an error that names it. *)
Lemma dynamic_override input n p :
  in_Metadata input !! "orchestrator.pattern" = Some p → TrimSpace p ≠ "" →
  match SelectDynamicPattern input n with
  | inr (pattern, reason) => reason = "metadata override" ∧ TrimSpace p ∈ ["fan-out"; "pipeline"; "select"]
  | inl err => err = ErrWrap "" ErrUnknownDynamicPattern (": " +:+ TrimSpace p) ∧ TrimSpace p ∉ ["fan-out"; "pipeline"; "select"]
  end.
Proof.
  intros E Hp. unfold SelectDynamicPattern. cbv zeta. rewrite E. cbn [default from_option id].
  rewrite bool_decide_true by done.
  destruct (bool_decide_reflect (TrimSpace p = "fan-out")) as [->|]; [split; [done|set_solver]|].
  destruct (bool_decide_reflect (TrimSpace p = "pipeline")) as [->|]; [split; [done|set_solver]|].
  destruct (bool_decide_reflect (TrimSpace p = "select")) as [->|]; [split; [done|set_solver]|].
  split; [done|]. set_solver.
Qed.
