(* ===== verification/Delegation.v ===== *)
(** Delegation trees (src/orchestrator/delegation.go): a manager's stage runs first, then its
    children run in parallel on its output, each a tree of its own, and an aggregator may
    combine what they answer.  The parallel runs are those of Fan.v. *)

From stdpp Require Import base tactics list gmap strings relations.
From Stdlib Require Import ZArith Lia.
From S2P Require Import Prelude Fan Orchestrator.

Local Open Scope Z_scope.

Definition ErrDelegationInvalidNode : error :=
  ErrSentinel "orchestrator.ErrDelegationInvalidNode" "orchestrator: invalid delegation node".
Definition ErrDelegationMaxDepth : error :=
  ErrSentinel "orchestrator.ErrDelegationMaxDepth" "orchestrator: delegation max depth exceeded".

(** ** Results and trees; durations are left out *)
Inductive DelegationResult := mkDelegationResult {
  dr_ID : string; SelfOutput : option StageOutput; dr_Output : option StageOutput;
  dr_Children : list (option DelegationResult); dr_Error : string;
  Depth : Z; ChildCount : Z; FailedCount : Z }.

Definition DelegationAggregator : Type :=
  option StageOutput → list (option DelegationResult) → option StageOutput * option error.

(** A stage is what it may answer on an input. *)
Definition stage_rel : Type := StageInput → stage_result → Prop.
Inductive DelegationNode := mkDelegationNode {
  ID : string; Stage : option stage_rel; Children : list DelegationNode; Aggregator : option DelegationAggregator }.

Definition delegationMaxDepth (configured : option Z) : Z :=
  match configured with Some d => if d =? 0 then 32 else d | None => 32 end.

(** A child that is missing (it was refused) is not counted. *)
Definition child_failed (c : option DelegationResult) : Prop :=
  match c with Some r => dr_Error r ≠ "" | None => False end.
#[export] Instance child_failed_dec c : Decision (child_failed c).
Proof. destruct c; cbn; apply _. Defined.
Definition countFailedDelegation (children : list (option DelegationResult)) : Z :=
  Z.of_nat (length (filter child_failed children)).

Section Delegation.
Variables MaxDepth ChildConcurrency : Z.
(** Whether the context can end, and its error when it has. *)
Variable expires : bool.
Variable ctx_err : error.

(** What a node answers; a child that gave up waiting answers nothing of its own. *)
Definition node_answer : Type := option DelegationResult * option error.
Definition node_run : Type := StageInput → Z → node_answer → Prop.

Definition place_child (depth : Z) (id : string) (o : option node_answer) : node_answer :=
  match o with
  | Some a => a
  | None => (Some (mkDelegationResult id None None [] (error_text ctx_err) depth 0 0), Some ctx_err)
  end.

(** The first error in the order in which the children end: one of theirs. *)
Definition first_error (answers : list node_answer) (err : option error) : Prop :=
  match err with None => Forall (λ a, a.2 = None) answers | Some e => Exists (λ a, a.2 = Some e) answers end.

Definition child_may (runs : list node_run) (input : StageInput) (depth : Z) (i : nat) (_ : bool) (o : option node_answer) : Prop :=
  ∃ run a, runs !! i = Some run ∧ run input depth a ∧ o = Some a.

Definition executeDelegationChildren (ids : list string) (runs : list node_run) (input : StageInput) (depth : Z)
    (results : list (option DelegationResult)) (err : option error) : Prop :=
  ∃ f os, rtc (fan_step (λ _, None) None (child_may runs input depth) false expires
                 (Z.to_nat (maxConcurrency ChildConcurrency (Z.of_nat (length runs))))) (fan_start (length runs)) f ∧
    outputs f = Some os ∧
    results = fst <$> zip_with (place_child depth) ids os ∧ first_error (zip_with (place_child depth) ids os) err.

(** Once the children are in. *)
Definition finish_node (id : string) (agg : option DelegationAggregator) (self : option StageOutput)
    (depth count : Z) (children : list (option DelegationResult)) (childErr : option error) : node_answer :=
  let '(aggregated, aggErr) := match agg with Some f => f self children | None => (None, None) end in
  let err := match childErr with Some e => Some e | None => aggErr end in
  let text := match aggErr with Some e => error_text e | None => "" end in
  (Some (mkDelegationResult id self (match aggregated with Some o => Some o | None => self end) children
           (match err with Some e => if bool_decide (text = "") then error_text e else text | None => text end)
           depth count (countFailedDelegation children)),
   err).

Fixpoint executeDelegationNode (node : DelegationNode) (input : StageInput) (depth : Z) (a : node_answer) : Prop :=
  match node with
  | mkDelegationNode id stage children agg =>
      match stage with
      | None => a = (None, Some ErrDelegationInvalidNode)
      | Some stage =>
          if bool_decide (id = "") then a = (None, Some ErrDelegationInvalidNode)
          else if MaxDepth <? depth then a = (None, Some (ErrWrap "" ErrDelegationMaxDepth (": " +:+ id)))
          else ∃ self err, stage input (self, err) ∧
            let count := Z.of_nat (length children) in
            match err with
            | Some e => a = (Some (mkDelegationResult id self self [] (error_text e) depth count 0), Some e)
            | None => ∃ results childErr,
                executeDelegationChildren (ID <$> children) (executeDelegationNode <$> children)
                  {| in_Data := mergeData (in_Data input) self; Previous := self; in_Metadata := in_Metadata input |}
                  (depth + 1) results childErr ∧
                a = finish_node id agg self depth count results childErr
            end
      end
  end.

(** ** Induction on trees *)
Lemma DelegationNode_ind' (P : DelegationNode → Prop) :
  (∀ id stage children agg, Forall P children → P (mkDelegationNode id stage children agg)) → ∀ n, P n.
Proof.
  intros H. fix IH 1. intros [id stage children agg]. apply H. clear H.
  induction children as [|c children IHc]; constructor; [apply IH|apply IHc].
Qed.

Lemma children_run runs ids input depth results err :
  length ids = length runs → executeDelegationChildren ids runs input depth results err →
  ∃ answers, length answers = length runs ∧ results = fst <$> answers ∧ first_error answers err ∧
    ∀ i a, answers !! i = Some a →
      (∃ run, runs !! i = Some run ∧ run input depth a) ∨
      ∃ id, ids !! i = Some id ∧ a = place_child depth id None ∧ expires = true.
Proof.
  intros Hl (f & os & Hr & Ho & -> & He).
  pose proof (fan_reach_inv _ _ _ _ _ _ (length runs) _ _ (fan_inv_start _ _ _ _ _ _ _) Hr) as (Hlen & _ & He0 & Hc & Hf).
  assert (Hos : length os = length runs) by (by rewrite <- (outputs_length _ _ Ho)).
  exists (zip_with (place_child depth) ids os). split; [rewrite length_zip_with; lia|split; [done|split; [done|]]].
  intros i a Ha. apply lookup_zip_with_Some in Ha as (id & o & -> & Hid & Hoi).
  apply (outputs_lookup _ _ i o Ho) in Hoi. destruct (Hf i o Hoi) as [(c & (run & a & Hrun & Ha & ->) & _)|[-> Hca]].
  - left. by exists run.
  - right. exists id. split; [done|split; [done|]]. destruct (Hc Hca) as [|Hx]; [done|].
    destruct He0 as [E|(? & _)]; [rewrite E in Hx; by destruct Hx|done].
Qed.

(** A result that answers for a whole tree: every node of it ran, within the depth limit,
    and nothing failed. *)
Fixpoint complete (node : DelegationNode) (depth : Z) (r : DelegationResult) : Prop :=
  dr_ID r = ID node ∧ ID node ≠ "" ∧ is_Some (Stage node) ∧
  Depth r = depth ∧ depth <= MaxDepth ∧ dr_Error r = "" ∧
  ChildCount r = Z.of_nat (length (Children node)) ∧ FailedCount r = 0 ∧
  match node with
  | mkDelegationNode _ _ children _ =>
      Forall2 (λ (ok : DelegationResult → Prop) c, ∃ rc, c = Some rc ∧ ok rc)
        ((λ child, complete child (depth + 1)) <$> children) (dr_Children r)
  end.

Lemma complete_no_error node depth r : complete node depth r → dr_Error r = "".
Proof. destruct node. cbn. tauto. Qed.

Lemma no_first_error answers : first_error answers None → ∀ i a, answers !! i = Some a → a.2 = None.
Proof. cbn. rewrite Forall_lookup. eauto. Qed.

Lemma none_failed children : (∀ c, c ∈ children → ∃ r, c = Some r ∧ dr_Error r = "") → countFailedDelegation children = 0.
Proof.
  intros H. unfold countFailedDelegation. replace (filter child_failed children) with (@nil (option DelegationResult)); [done|].
  symmetry. induction children as [|c children IH]; [done|].
  destruct (H c ltac:(left)) as (r & -> & Hr). rewrite filter_cons_False; [|by intros []].
  apply IH. intros c Hc. apply H. by right.
Qed.

Lemma finish_ok id agg self depth count children childErr r :
  finish_node id agg self depth count children childErr = (r, None) →
  childErr = None ∧ ∃ out, r = Some (mkDelegationResult id self out children "" depth count (countFailedDelegation children)).
Proof.
  unfold finish_node. destruct (match agg with Some f => _ | None => _ end) as [aggregated aggErr].
  destruct childErr; [by intros [= _ ?]|]. destruct aggErr; [by intros [= _ ?]|]. intros [= <-]. split; [done|by eexists].
Qed.

Lemma success_is_complete node : ∀ input depth a,
  executeDelegationNode node input depth a → a.2 = None → ∃ r, a.1 = Some r ∧ complete node depth r.
Proof.
  induction node as [id stage children agg IH] using DelegationNode_ind'. intros input depth a H Ha. cbn [executeDelegationNode] in H.
  destruct stage as [stage|]; [|by subst].
  destruct (bool_decide_reflect (id = "")); [by subst|]. destruct (Z.ltb_spec MaxDepth depth); [by subst|].
  destruct H as (self & [e|] & Hst & H); [by subst|]. destruct H as (results & childErr & Hch & ->).
  destruct (finish_node _ _ _ _ _ _ _) as [r err] eqn:Ef. cbn in Ha. subst err.
  apply finish_ok in Ef as [-> [out ->]]. eexists. split; [reflexivity|].
  apply children_run in Hch as (answers & Hl & -> & He & Hown); [|by rewrite !length_fmap].
  rewrite length_fmap in Hl.
  assert (Hch : Forall2 (λ (ok : DelegationResult → Prop) c, ∃ rc, c = Some rc ∧ ok rc)
    ((λ child, complete child (depth + 1)) <$> children) (fst <$> answers)).
  { apply Forall2_fmap, Forall2_same_length_lookup. split; [done|]. intros i child a Hci Hai.
    pose proof (no_first_error _ He i a Hai) as Hnone.
    destruct (Hown i a Hai) as [(run & Hrun & Hra)|(? & _ & -> & _)]; [|done].
    rewrite list_lookup_fmap in Hrun. rewrite Hci in Hrun. injection Hrun as <-.
    rewrite Forall_lookup in IH. by apply (IH i child Hci _ _ _ Hra). }
  cbn. split_and!; try done; try lia.
  apply none_failed. intros c (i & Hi)%list_elem_of_lookup.
  destruct (Forall2_lookup_r _ _ _ _ _ Hch Hi) as (ok & Hok & rc & -> & Hrc). exists rc. split; [done|].
  rewrite list_lookup_fmap in Hok. destruct (children !! i) as [child|]; [|done]. injection Hok as <-.
  by eapply complete_no_error.
Qed.

(** Every stage answers: an answer for the tree exists. *)
Inductive answers_always : DelegationNode → Prop :=
| always id stage children agg :
    (∀ rel, stage = Some rel → ∀ input, ∃ r, rel input r) → Forall answers_always children →
    answers_always (mkDelegationNode id stage children agg).

Lemma first_error_exists answers : ∃ err, first_error answers err.
Proof.
  destruct (decide (Forall (λ a : node_answer, a.2 = None) answers)) as [H|H]; [by exists None|].
  apply not_Forall_Exists in H; [|apply _]. apply Exists_exists in H as (a & Hin & Ha). destruct (a.2) as [e|] eqn:E; [|done].
  exists (Some e). cbn. apply Exists_exists. eauto.
Qed.

Lemma children_exist ids runs input depth :
  (∀ run, run ∈ runs → ∃ a : node_answer, run input depth a) →
  ∃ results err, executeDelegationChildren ids runs input depth results err.
Proof.
  intros Hruns.
  destruct (decide (runs = [])) as [->|Hne].
  - exists [], None, (fan_start 0), []. split; [apply rtc_refl|]. split; [done|].
    by destruct ids; (split; [|constructor]).
  - destruct (fan_completes (λ _, None) None (child_may runs input depth) false expires
      (Z.to_nat (maxConcurrency ChildConcurrency (Z.of_nat (length runs)))) (length runs) (fan_start (length runs)))
      as (f & os & Hr & Ho & Hl).
    + apply fan_inv_start.
    + assert (0 < length runs)%nat by (destruct runs; [done|cbn; lia]). unfold maxConcurrency.
      destruct (Z.leb_spec ChildConcurrency 0), (Z.ltb_spec (Z.of_nat (length runs)) ChildConcurrency); lia.
    + intros i c Hi. destruct (lookup_lt_is_Some_2 runs i Hi) as [run Hrun].
      destruct (Hruns run) as [a Ha]; [by eapply list_elem_of_lookup_2|]. by exists (Some a), run, a.
    + destruct (first_error_exists (zip_with (place_child depth) ids os)) as [err Herr].
      by exists (fst <$> zip_with (place_child depth) ids os), err, f, os.
Qed.

Lemma delegation_answers node : answers_always node → ∀ input depth, ∃ a, executeDelegationNode node input depth a.
Proof.
  induction node as [id stage children agg IH] using DelegationNode_ind'. intros Hal input depth.
  inversion Hal as [? ? ? ? Hst Hch]; subst. cbn [executeDelegationNode]. destruct stage as [rel|]; [|by eexists].
  destruct (bool_decide _); [by eexists|]. destruct (_ <? _); [by eexists|].
  destruct (Hst rel eq_refl input) as [[self [e|]] Hr]; [by exists (Some (mkDelegationResult id self self [] (error_text e) depth (Z.of_nat (length children)) 0), Some e), self, (Some e)|].
  destruct (children_exist (ID <$> children) (executeDelegationNode <$> children)
    {| in_Data := mergeData (in_Data input) self; Previous := self; in_Metadata := in_Metadata input |} (depth + 1)) as (results & err & H).
  - intros run (child & -> & Hin)%list_elem_of_fmap. rewrite !Forall_forall in IH, Hch. apply IH; auto.
  - eexists _, self, None. split; [done|]. by exists results, err.
Qed.

(** A delegation whose stages all answer always comes to an answer, and one without an
    error is complete: the result is a tree of the shape of the delegation, each node named
    and placed at its depth, none beyond the depth limit, every stage having run and nothing
    reported as failed.  So a tree that is deeper than the limit, or has an invalid node
    anywhere, always answers with an error. *)
Theorem delegation_complete node input :
  answers_always node →
  (∃ a, executeDelegationNode node input 0 a) ∧
  ∀ a, executeDelegationNode node input 0 a → a.2 = None → ∃ r, a.1 = Some r ∧ complete node 0 r.
Proof. intros H. split; [by apply delegation_answers|]. intros a. apply success_is_complete. Qed.
End Delegation.

(** ** A child that is refused is not counted as failed, though its parent answers with its
    error: FailedCount is 0 here. *)
Definition ok_rel : stage_rel := λ _ r, r = (Some {| Data := ∅; Status := "ok"; out_Error := ""; Metadata := ∅ |}, None).
Definition refused_tree : DelegationNode :=
  mkDelegationNode "root" (Some ok_rel) [mkDelegationNode "" (Some ok_rel) [] None] None.
Lemma refused_child_not_counted MaxDepth conc ctx_err input a :
  0 <= MaxDepth → executeDelegationNode MaxDepth conc false ctx_err refused_tree input 0 a →
  ∃ r, a = (Some r, Some ErrDelegationInvalidNode) ∧ FailedCount r = 0 ∧ ChildCount r = 1.
Proof.
  intros Hd H. cbn [executeDelegationNode refused_tree] in H. rewrite bool_decide_false in H by done.
  destruct (Z.ltb_spec MaxDepth 0); [lia|]. destruct H as (self & err & [= -> ->] & results & childErr & Hch & ->).
  apply children_run in Hch as (answers & Hl & -> & He & Hown); [|done].
  destruct answers as [|x [|? ?]]; try discriminate Hl.
  destruct (Hown 0%nat x eq_refl) as [(run & [= <-] & Hx)|(? & _ & _ & ?)]; [|done]. cbn in Hx. subst x.
  assert (childErr = Some ErrDelegationInvalidNode) as ->.
  { destruct childErr as [e|]; cbn in He; [apply Exists_cons in He as [[= <-]|He%Exists_nil]; done|].
    apply Forall_cons in He as [[=] _]. }
  eexists. split; [reflexivity|done].
Qed.

(** A witness: a manager and a worker. *)
Definition small_tree : DelegationNode :=
  mkDelegationNode "root" (Some ok_rel) [mkDelegationNode "worker" (Some ok_rel) [] None] None.
Lemma delegation_complete_witness :
  ∃ a, executeDelegationNode 32 0 false (Err "done") small_tree {| in_Data := ∅; Previous := None; in_Metadata := ∅ |} 0 a.
Proof.
  apply (delegation_complete 32 0 false (Err "done") small_tree).
  constructor; [intros rel [= <-] input; by eexists|]. repeat constructor. intros rel [= <-] input; by eexists.
Defined.
