(* ===== verification/Handoff.v ===== *)
(** Delegation to named agents (src/handoff/): the register of agents, the dispatch with its
    depth limit, timeout and cost record, and the tool that wraps an agent. *)

From stdpp Require Import base tactics list gmap strings pretty.
From Stdlib Require Import ZArith Lia.
From S2P Require Import Prelude Tool Truncate Finops.

Local Open Scope Z_scope.

Definition ErrAgentNotFound : error := ErrSentinel "handoff.ErrAgentNotFound" "handoff: agent not found".
Definition ErrDelegationDepth : error := ErrSentinel "handoff.ErrDelegationDepth" "handoff: max delegation depth exceeded".
Definition ErrDelegateTimeout : error := ErrSentinel "handoff.ErrDelegateTimeout" "handoff: delegation timed out".
Definition ErrNoDelegateFunc : error := ErrSentinel "handoff.ErrNoDelegateFunc" "handoff: no delegate function configured".

(** An agent; its registry and sampler are only passed on. *)
Record AgentRef := { Name : string; Description : string; Skills : list string; Metadata : gmap string string }.
Record HandoffRequest := { TaskDescription : string; req_Context : gmap string string; MaxIterations : Z; Timeout : duration }.
Record HandoffResult := {
  AgentName : string; Status : string; Result : string; Iterations : Z; res_Duration : duration; TokensUsed : Z }.

(** ** The register (the manager's map) *)
Definition agents_map : Type := gmap string AgentRef.

Definition Register (agent : AgentRef) (agents : agents_map) : option error * agents_map :=
  if bool_decide (Name agent = "") then (Some (Err "handoff: agent name is required"), agents)
  else match agents !! Name agent with
       | Some _ => (Some (Err ("handoff: agent " +:+ quote (Name agent) +:+ " already registered")), agents)
       | None => (None, <[Name agent := agent]> agents)
       end.
Definition Unregister (name : string) (agents : agents_map) : bool * agents_map :=
  (bool_decide (is_Some (agents !! name)), delete name agents).
Definition ListAgents (agents : agents_map) : list AgentRef :=
  omap (λ n, agents !! n) (sorted_keys agents).
(** The map is walked in any order: [walk] lists it. *)
Definition FindAgent (walk : list (string * AgentRef)) (skill : string) : option AgentRef :=
  head (omap (λ p : string * AgentRef, if bool_decide (skill ∈ Skills p.2) then Some p.2 else None) walk).

(** ** The configuration *)
Record limits := { DefaultTimeout : duration; MaxDelegationDepth : Z }.
Definition NewHandoffManager (cfg : option limits) : limits :=
  match cfg with
  | None => {| DefaultTimeout := 30 * Second; MaxDelegationDepth := 5 |}
  | Some c => {| DefaultTimeout := if DefaultTimeout c <=? 0 then 30 * Second else DefaultTimeout c;
                 MaxDelegationDepth := if MaxDelegationDepth c <=? 0 then 5 else MaxDelegationDepth c |}
  end.

Section Handoff.
Context {W : Type} `{!Cell W agents_map} `{!Cell W Tracker}.
(** The clock. *)
Variable now : W → time.

(** What a delegation ends with. *)
Inductive delegated :=
| Delegated (result : option HandoffResult) (err : option error)
| DelegatePanics.

Definition delegate_call : Type := string → HandoffRequest → W → delegated * W.
(** What runs an agent: it is given [Delegate] as a callee sees it, the depth its context
    carries, its agent, its request and its timeout.  It answers with whether its context is
    done by then. *)
Definition DelegateFunc : Type :=
  delegate_call → Z → AgentRef → HandoffRequest → duration → W → (delegated * bool) * W.

Variable lim : limits.
Variable has_tracker : bool.

Definition cost_entry (agentName : string) (r : HandoffResult) (elapsed : duration) (t : time) : UsageEntry := {|
  u_ToolName := "handoff:" +:+ agentName; u_Category := "handoff"; u_Model := "";
  InputTokens := Z.quot (TokensUsed r) 2; OutputTokens := Z.quot (TokensUsed r) 2;
  u_Duration := elapsed; Timestamp := t |}.

Definition charge_delegation (agentName : string) (r : HandoffResult) (elapsed : duration) (w : W) : W :=
  if has_tracker && (0 <? TokensUsed r) then poke (Record_ (peek w) (cost_entry agentName r elapsed (now w))) w else w.

(** One delegation at depth [depth], [inner] being [Delegate] one level down. *)
Definition delegate_with (Delegate : option DelegateFunc) (inner : delegate_call) (depth : Z)
    (agentName : string) (req : HandoffRequest) (w : W) : delegated * W :=
  match Delegate with
  | None => (Delegated None (Some ErrNoDelegateFunc), w)
  | Some run =>
      if MaxDelegationDepth lim <=? depth then (Delegated None (Some ErrDelegationDepth), w)
      else match (peek w : agents_map) !! agentName with
      | None => (Delegated None (Some (ErrWrap "" ErrAgentNotFound (": " +:+ agentName))), w)
      | Some agent =>
          let timeout := if Timeout req <=? 0 then DefaultTimeout lim else Timeout req in
          let start := now w in
          let '((out, ctx_done), w) := run inner (depth + 1) agent req timeout w in
          let elapsed := time_sub (now w) start in
          match out with
          | DelegatePanics => (DelegatePanics, w)
          | Delegated _ (Some err) =>
              if ctx_done then
                (Delegated (Some {| AgentName := agentName; Status := "timeout"; Result := "delegation timed out";
                                    Iterations := 0; res_Duration := elapsed; TokensUsed := 0 |})
                   (Some ErrDelegateTimeout), w)
              else (Delegated None (Some err), w)
          (* a nil result without an error: the assignment to its field panics *)
          | Delegated None None => (DelegatePanics, w)
          | Delegated (Some r) None =>
              let r := {| AgentName := agentName; Status := Status r; Result := Result r;
                          Iterations := Iterations r; res_Duration := elapsed; TokensUsed := TokensUsed r |} in
              (Delegated (Some r) None, charge_delegation agentName r elapsed w)
          end
      end
  end.

(** [Delegate] in a context of the given depth: an agent can delegate in turn, each level
    one deeper, and the recursion is on the levels left. *)
Fixpoint Delegate_room (Delegate : option DelegateFunc) (room : nat) (depth : Z) : delegate_call :=
  delegate_with Delegate
    (match room with
     | O => λ _ _ w, (DelegatePanics, w)
     | S room => Delegate_room Delegate room (depth + 1) end) depth.
Definition Delegate (func : option DelegateFunc) (depth : Z) : delegate_call :=
  Delegate_room func (Z.to_nat (MaxDelegationDepth lim - depth)) depth.

(** ** Middleware (middleware.go) *)
Definition DelegateMiddleware : Type := string → DelegateFunc → DelegateFunc.
Definition WrapDelegate (fn : DelegateFunc) (name : string) (mw : list DelegateMiddleware) : DelegateFunc :=
  foldr (λ m wrapped, m name wrapped) fn mw.
Definition WithMiddleware (func : option DelegateFunc) (mw : list DelegateMiddleware) : option DelegateFunc :=
  match func, mw with
  | Some fn, _ :: _ => Some (WrapDelegate fn "" mw)
  | _, _ => func
  end.
End Handoff.
Arguments DelegateFunc : clear implicits.
Arguments delegate_call : clear implicits.

(** ** An agent as a tool (delegate.go) *)
Section AgentAsTool.
Context {Ctx Req W : Type} `{!Cell W agents_map} `{!Cell W Tracker}.
Variable now : W → time.
Variable lim : limits.
Variable has_tracker : bool.
Variable func : option (DelegateFunc W).
(** The request's arguments, a context's delegation depth, [json.Marshal] of a result, and
    the [int] of a number. *)
Variable arguments : Req → gmap string json.
Variable DelegationDepth : Ctx → Z.
Variable marshal_result : HandoffResult → string.
Variable int_of_number : string → Z.

Definition MakeTextResult (text : string) : CallToolResult :=
  {| r_Content := [TextContent text]; StructuredContent := None; IsError := false |}.

Definition agent_description (agents : agents_map) (agentName : string) : string :=
  match agents !! agentName with
  | Some a => if bool_decide (Description a ≠ "") then Description a else "Delegate a task to agent: " +:+ agentName
  | None => "Delegate a task to agent: " +:+ agentName
  end.

Definition agent_handler (agentName : string) : ToolHandlerFunc Ctx Req W :=
  λ ctx req w,
    match arguments req !! "task" with
    | Some (JString task) =>
        if bool_decide (task = "") then (Returns (Some (MakeErrorResult "task description is required")) None, w)
        else
          let hreq := {| TaskDescription := task; req_Context := ∅; Timeout := 0;
            MaxIterations := match arguments req !! "max_iterations" with Some (JNumber n) => int_of_number n | _ => 0 end |} in
          match Delegate now lim has_tracker func (DelegationDepth ctx) agentName hreq w with
          | (DelegatePanics, w) => (Panics "delegate", w)
          | (Delegated _ (Some err), w) => (Returns (Some (MakeErrorResult ("delegation failed: " +:+ error_text err))) None, w)
          | (Delegated (Some r) None, w) => (Returns (Some (MakeTextResult (marshal_result r))) None, w)
          | (Delegated None None, w) => (Returns (Some (MakeTextResult "null")) None, w)
          end
    | _ => (Returns (Some (MakeErrorResult "task description is required")) None, w)
    end.
End AgentAsTool.

(** ** The register *)
Lemma ListAgents_spec (agents : agents_map) a :
  (∀ n b, agents !! n = Some b → Name b = n) →
  (a ∈ ListAgents agents ↔ agents !! Name a = Some a).
Proof.
  intros Hkeys. unfold ListAgents. rewrite list_elem_of_omap. split.
  - intros (n & _ & E). by rewrite (Hkeys n a E).
  - intros E. exists (Name a). split; [|done]. apply elem_of_sorted_keys. by eexists.
Qed.

(** Register keeps every agent under its own name and never replaces one. *)
Lemma Register_spec agent (agents : agents_map) :
  (∀ n b, agents !! n = Some b → Name b = n) →
  let '(err, agents') := Register agent agents in
  (∀ n b, agents' !! n = Some b → Name b = n) ∧ agents ⊆ agents' ∧
  (err = None ↔ Name agent ≠ "" ∧ agents !! Name agent = None) ∧
  (err = None → agents' !! Name agent = Some agent) ∧ (err ≠ None → agents' = agents).
Proof.
  intros Hkeys. unfold Register. destruct (bool_decide_reflect (Name agent = "")) as [E|E].
  - split_and!; try done. split; [done|]. by intros [].
  - destruct (agents !! Name agent) as [b|] eqn:Ea.
    + split_and!; try done. split; [done|]. by intros [].
    + split; [|split; [|split; [|split]]]; try done.
      * intros n b [[<- <-]|[_ H]]%lookup_insert_Some; [done|by apply Hkeys].
      * by apply insert_subseteq.
      * intros _. apply lookup_insert_eq.
Qed.

Section HandoffFacts.
Context {W : Type} `{!Cell W agents_map} `{!Cell W Tracker}.
Variable now : W → time.
Variable lim : limits.
Variable has_tracker : bool.
Implicit Types (f g : DelegateFunc W).

(** [Delegate] satisfies the code's equation: what an agent is given is [Delegate] in its own
    context, one level deeper. *)
Lemma Delegate_equation func depth name req w :
  Delegate now lim has_tracker func depth name req w =
  delegate_with now lim has_tracker func (Delegate now lim has_tracker func (depth + 1)) depth name req w.
Proof.
  unfold Delegate. destruct (Z.to_nat (MaxDelegationDepth lim - depth)) as [|room] eqn:E; cbn [Delegate_room].
  - unfold delegate_with. destruct func as [run|]; [|done]. destruct (Z.leb_spec (MaxDelegationDepth lim) depth); [done|lia].
  - by replace (Z.to_nat (MaxDelegationDepth lim - (depth + 1))) with room by lia.
Qed.

(** Two agents' code that agrees in every context that is not too deep, and given the same
    means to delegate. *)
Definition agree f g : Prop :=
  ∀ (inner inner' : delegate_call W) depth a req t w,
    (∀ n r v, inner n r v = inner' n r v) → depth <= MaxDelegationDepth lim →
    f inner depth a req t w = g inner' depth a req t w.

Lemma delegate_with_agree f g inner inner' depth name req w :
  agree f g → (∀ n r v, inner n r v = inner' n r v) →
  delegate_with now lim has_tracker (Some f) inner depth name req w =
  delegate_with now lim has_tracker (Some g) inner' depth name req w.
Proof.
  intros Hfg Hi. unfold delegate_with. destruct (Z.leb_spec (MaxDelegationDepth lim) depth); [done|].
  destruct (_ !! name) as [a|]; [|done]. by rewrite (Hfg inner inner') by (done || lia).
Qed.

Lemma Delegate_room_agree f g room depth name req w :
  agree f g →
  Delegate_room now lim has_tracker (Some f) room depth name req w =
  Delegate_room now lim has_tracker (Some g) room depth name req w.
Proof.
  intros Hfg. revert depth name req w. induction room as [|room IH]; intros; cbn [Delegate_room];
    (apply delegate_with_agree; [done|]); intros; [done|apply IH].
Qed.

(** ** The books: a delegation adds entries of its own and touches no other. *)
Definition handoff_entry (e : UsageEntry) : Prop :=
  u_Category e = "handoff" ∧ InputTokens e = OutputTokens e ∧ 0 <= InputTokens e.
Definition books_grow (w w' : W) : Prop :=
  ∃ es, entries (peek w') = entries (peek w : Tracker) ++ es ∧ Forall handoff_entry es.

#[export] Instance books_grow_refl : Reflexive books_grow.
Proof. intros w. exists []. by rewrite app_nil_r. Qed.
#[export] Instance books_grow_trans : Transitive books_grow.
Proof.
  intros w1 w2 w3 (es & E & H) (es' & E' & H'). exists (es ++ es'). rewrite E', E, app_assoc.
  split; [done|by apply Forall_app_2].
Qed.

(** Agents that leave the books to the manager. *)
Definition minds_its_books f : Prop :=
  ∀ (inner : delegate_call W) depth a req t w,
    (∀ n r v, books_grow v (inner n r v).2) → books_grow w (f inner depth a req t w).2.

Context `{!CellLaws W Tracker}.
Lemma charge_grows name r elapsed w : books_grow w (charge_delegation now has_tracker name r elapsed w).
Proof.
  unfold charge_delegation. destruct (has_tracker && (0 <? TokensUsed r)) eqn:E; [|done].
  apply andb_true_iff in E as [_ E%Z.ltb_lt].
  exists [cost_entry name r elapsed (now w)]. rewrite peek_poke. split; [done|]. constructor; [|constructor].
  split; [done|split; [done|]]. cbn. apply Z.quot_pos; lia.
Qed.

Lemma delegate_with_grows func inner depth name req w :
  (∀ f, func = Some f → minds_its_books f) → (∀ n r v, books_grow v (inner n r v).2) →
  books_grow w (delegate_with now lim has_tracker func inner depth name req w).2.
Proof.
  intros Hf Hi. unfold delegate_with. destruct func as [run|]; [|done].
  destruct (_ <=? depth); [done|]. destruct (_ !! name) as [a|]; [|done].
  pose proof (Hf run eq_refl inner (depth + 1) a req (if Timeout req <=? 0 then DefaultTimeout lim else Timeout req) w Hi) as Hg.
  destruct (run _ _ _ _ _ w) as [[out dn] w1]. cbn [snd] in Hg.
  destruct out as [[r|] [err|]|]; try done; [destruct dn; done| |destruct dn; done].
  cbn [snd]. etrans; [exact Hg|]. apply charge_grows.
Qed.

Lemma Delegate_room_grows func room depth name req w :
  (∀ f, func = Some f → minds_its_books f) →
  books_grow w (Delegate_room now lim has_tracker func room depth name req w).2.
Proof.
  intros Hf. revert depth name req w. induction room as [|room IH]; intros; cbn [Delegate_room];
    (apply delegate_with_grows; [done|]); intros; [done|apply IH].
Qed.

(** Delegation, whatever the agents do and however they delegate in turn.  No agent runs
    in a context deeper than the limit: code that differs only there makes no difference.
    A delegation that is too deep, or names nobody, is refused and changes nothing.  A
    result that comes back carries the name of the agent asked for, and an error beside it
    is the timeout.  Agents that leave the books alone find them grown by the manager's own
    entries only, each with its tokens split in two equal halves. *)
Theorem delegation_bounded f g depth name req w :
  agree f g → minds_its_books f →
  Delegate now lim has_tracker (Some f) depth name req w = Delegate now lim has_tracker (Some g) depth name req w ∧
  (MaxDelegationDepth lim <= depth ∨ (peek w : agents_map) !! name = None →
   ∃ err, Delegate now lim has_tracker (Some f) depth name req w = (Delegated None (Some err), w) ∧
          (errors_is err ErrDelegationDepth = true ∨ errors_is err ErrAgentNotFound = true)) ∧
  (∀ r err w', Delegate now lim has_tracker (Some f) depth name req w = (Delegated (Some r) err, w') →
     AgentName r = name ∧ (err = None ∨ err = Some ErrDelegateTimeout ∧ Status r = "timeout")) ∧
  books_grow w (Delegate now lim has_tracker (Some f) depth name req w).2.
Proof.
  intros Hfg Hb. split; [|split; [|split]].
  - by apply Delegate_room_agree.
  - intros H. rewrite Delegate_equation. unfold delegate_with. destruct (Z.leb_spec (MaxDelegationDepth lim) depth).
    + eexists. split; [done|by left].
    + destruct H as [|Hn]; [lia|]. rewrite Hn. eexists. split; [done|by right].
  - intros r err w'. rewrite Delegate_equation. unfold delegate_with.
    destruct (_ <=? depth); [done|]. destruct (_ !! name) as [a|]; [|done].
    destruct (f _ _ _ _ _ w) as [[out dn] w1]. destruct out as [[r1|] [e|]|]; try done;
      try (destruct dn; intros [= <- <- <-] || done; by auto).
  - apply Delegate_room_grows. by intros ? [= <-].
Qed.
End HandoffFacts.

(** ** Where the code falls short *)

(** The two halves of an odd number of tokens lose one: an agent that used one token is
    recorded as free. *)
Lemma odd_token_lost now agentName elapsed t r :
  TokensUsed r = 1 → entry_tokens (cost_entry agentName r elapsed t) = 0 ∧
  (charge_delegation (W := Tracker) now true agentName r elapsed NewTracker).(totalTokens) = 0.
Proof. intros E. unfold entry_tokens, charge_delegation, cost_entry. rewrite E. by vm_compute. Qed.

(** Middleware is told which agent a delegation targets; installed by WithMiddleware it is
    told the empty name, for every agent. *)
Lemma middleware_never_told_the_agent {W} `{!Cell W agents_map} (fn : DelegateFunc W) (mw : list DelegateMiddleware) :
  mw ≠ [] → WithMiddleware (Some fn) mw = Some (foldr (λ m wrapped, m "" wrapped) fn mw).
Proof. by destruct mw. Qed.

(** A failure of the agent itself is reported as a timeout when the context happens to be
    done: the error is lost. *)
Lemma failure_reported_as_timeout {W} `{!Cell W agents_map, !Cell W Tracker} now lim tr (inner : delegate_call W) a req w e :
  0 < MaxDelegationDepth lim → (peek w : agents_map) !! "a" = Some a →
  (delegate_with now lim tr (Some (λ _ _ _ _ _ w, ((Delegated None (Some e), true), w))) inner 0 "a" req w).1 =
  Delegated (Some {| AgentName := "a"; Status := "timeout"; Result := "delegation timed out"; Iterations := 0;
                     res_Duration := time_sub (now w) (now w); TokensUsed := 0 |}) (Some ErrDelegateTimeout).
Proof.
  intros Hm Ha. unfold delegate_with. destruct (Z.leb_spec (MaxDelegationDepth lim) 0); [lia|]. by rewrite Ha.
Qed.

(** ** A witness: an agent that delegates to itself for ever is stopped at the limit. *)
Definition demo_world : Type := Tracker * agents_map.
#[export] Instance demo_agents : Cell demo_world agents_map := {| peek := snd; poke := λ a w, (w.1, a) |}.
Definition forwarder : DelegateFunc demo_world :=
  λ inner _ a req _ w, let '(out, w) := inner (Name a) req w in ((out, false), w).
Definition some_agent : AgentRef := {| Name := "a"; Description := ""; Skills := []; Metadata := ∅ |}.
Definition some_request : HandoffRequest := {| TaskDescription := "t"; req_Context := ∅; MaxIterations := 0; Timeout := 0 |}.
Definition start_world : demo_world := (NewTracker, {["a" := some_agent]}).

Lemma delegation_bounded_witness :
  (Delegate (λ _, 0) (NewHandoffManager None) true (Some forwarder) 0 "a" some_request start_world).1 =
    Delegated None (Some ErrDelegationDepth) ∧
  books_grow start_world (Delegate (λ _, 0) (NewHandoffManager None) true (Some forwarder) 0 "a" some_request start_world).2.
Proof.
  split; [vm_compute; reflexivity|].
  apply (delegation_bounded (λ _, 0) (NewHandoffManager None) true forwarder forwarder 0 "a" some_request start_world).
  - intros inner inner' d a req t w Hi _. unfold forwarder. by rewrite Hi.
  - intros inner d a req t w Hi. unfold forwarder. specialize (Hi (Name a) req w). by destruct (inner _ _ w).
Defined.
