(* ===== verification/Paging.v ===== *)
(** Paginated results (src/handler/pagination.go): opaque cursors, pages of a list and the
    byte ceiling on a result.  Base64 and the scanning of a cursor are those of Go's
    standard library, on ASCII text. *)

From stdpp Require Import base tactics numbers list gmap strings pretty.
From Stdlib Require Import ZArith Lia Ascii ZifyNat.
From S2P Require Import Prelude Truncate.

Local Open Scope Z_scope.

(** ** Base64 with the URL alphabet, unpadded (encoding/base64's RawURLEncoding) *)
Definition string_bytes (s : string) : list nat := Ascii.nat_of_ascii <$> String.list_ascii_of_string s.
Definition bytes_string (l : list nat) : string := String.string_of_list_ascii (Ascii.ascii_of_nat <$> l).

Definition alphabet (n : nat) : nat :=
  if (n <? 26)%nat then 65 + n else if (n <? 52)%nat then 71 + n else if (n <? 62)%nat then n - 4
  else if (n =? 62)%nat then 45 else 95.
Definition sextet (c : nat) : option nat :=
  if (65 <=? c)%nat && (c <=? 90)%nat then Some (c - 65)%nat
  else if (97 <=? c)%nat && (c <=? 122)%nat then Some (c - 71)%nat
  else if (48 <=? c)%nat && (c <=? 57)%nat then Some (c + 4)%nat
  else if (c =? 45)%nat then Some 62%nat else if (c =? 95)%nat then Some 63%nat else None.

Fixpoint sextets (l : list nat) : list nat :=
  match l with
  | a :: b :: c :: l => a / 4 :: a mod 4 * 16 + b / 16 :: b mod 16 * 4 + c / 64 :: c mod 64 :: sextets l
  | [a; b] => [a / 4; a mod 4 * 16 + b / 16; b mod 16 * 4]
  | [a] => [a / 4; a mod 4 * 16]
  | [] => []
  end%nat.
(** The unused low bits of the last sextet are not looked at. *)
Fixpoint octets (l : list nat) : option (list nat) :=
  match l with
  | w :: x :: y :: z :: l =>
      rest ← octets l; Some (w * 4 + x / 16 :: x mod 16 * 16 + y / 4 :: y mod 4 * 64 + z :: rest)
  | [w; x; y] => Some [w * 4 + x / 16; x mod 16 * 16 + y / 4]
  | [w; x] => Some [w * 4 + x / 16]
  | [_] => None
  | [] => Some []
  end%nat.

Definition EncodeToString (s : string) : string := bytes_string (alphabet <$> sextets (string_bytes s)).
(** Carriage returns and newlines are skipped. *)
Definition DecodeString (s : string) : option string :=
  cs ← mapM sextet (filter (λ c, c ≠ 10%nat ∧ c ≠ 13%nat) (string_bytes s));
  bytes_string <$> octets cs.

(** ** [fmt.Sscanf] with the format "o:%d" *)
Definition digit_value (a : Ascii.ascii) : option Z :=
  let n := Ascii.nat_of_ascii a in
  if (48 <=? n)%nat && (n <=? 57)%nat then Some (Z.of_nat n - 48) else None.
Fixpoint scan_digits (acc : Z) (s : string) : Z :=
  match s with
  | String a s' => match digit_value a with Some d => scan_digits (10 * acc + d) s' | None => acc end
  | EmptyString => acc
  end.
Definition starts_with_digit (s : string) : bool :=
  match s with String a _ => bool_decide (is_Some (digit_value a)) | EmptyString => false end.
(** Blanks before a number are skipped, a newline is an error. *)
Fixpoint skip_blanks (s : string) : option string :=
  match s with
  | String a s' =>
      let n := Ascii.nat_of_ascii a in
      if (n =? 10)%nat then None
      else if (n =? 32)%nat || (n =? 9)%nat || (n =? 11)%nat || (n =? 12)%nat || (n =? 13)%nat then skip_blanks s'
      else Some s
  | EmptyString => Some s
  end.
Definition in_int (z : Z) : option Z := if bool_decide (in64 z) then Some z else None.
Definition scan_int (s : string) : option Z :=
  match skip_blanks s with
  | Some (String a s') =>
      let n := Ascii.nat_of_ascii a in
      if (n =? 45)%nat then if starts_with_digit s' then in_int (- scan_digits 0 s') else None
      else if (n =? 43)%nat then if starts_with_digit s' then in_int (scan_digits 0 s') else None
      else if starts_with_digit (String a s') then in_int (scan_digits 0 (String a s')) else None
  | _ => None
  end.

(** ** Cursors *)
Definition PageCursor : Type := string.
Definition Empty (c : PageCursor) : bool := bool_decide (c = "").

Definition EncodeOffsetCursor (offset : Z) : PageCursor := EncodeToString ("o:" +:+ itoa offset).

(** The errors are told apart by their kind only. *)
Inductive cursor_error := CursorDecode | CursorParse | CursorNegative (offset : Z).
#[export] Instance cursor_error_dec : EqDecision cursor_error.
Proof. solve_decision. Defined.

Definition DecodeOffsetCursor (c : PageCursor) : cursor_error + Z :=
  if Empty c then inr 0
  else match DecodeString c with
       | None => inl CursorDecode
       | Some (String "o"%char (String ":"%char s)) =>
           match scan_int s with
           | None => inl CursorParse
           | Some offset => if offset <? 0 then inl (CursorNegative offset) else inr offset
           end
       | Some _ => inl CursorParse
       end.

(** ** Pages *)
Record Page (T : Type) := { Items : list T; NextCursor : PageCursor; Total : Z; Truncated : bool }.
Arguments Items {T} _.
Arguments NextCursor {T} _.
Arguments Total {T} _.
Arguments Truncated {T} _.

Definition default_limit (limit : Z) : Z := if limit <=? 0 then 50 else limit.
Definition page_offset (len : Z) (cursor : PageCursor) : Z :=
  match DecodeOffsetCursor cursor with
  | inl _ => 0
  | inr offset => if len <? offset then 0 else offset
  end.

(** [None] is a panic: slice bounds out of range. *)
Definition Paginate {T} (items : list T) (cursor : PageCursor) (limit : Z) : option (Page T) :=
  let len := Z.of_nat (length items) in
  let limit := default_limit limit in
  let offset := page_offset len cursor in
  let end_ := add64 offset limit in
  let end_ := if len <? end_ then len else end_ in
  if end_ <? offset then None
  else Some {| Items := take (Z.to_nat (end_ - offset)) (drop (Z.to_nat offset) items);
               NextCursor := if end_ <? len then EncodeOffsetCursor end_ else "";
               Total := len; Truncated := false |}.

(** What a caller does: ask again with the cursor it was given until there is none. *)
Fixpoint walk_pages {T} (fuel : nat) (items : list T) (cursor : PageCursor) (limit : Z) : option (list (list T)) :=
  match fuel with
  | O => None
  | S fuel =>
      page ← Paginate items cursor limit;
      if Empty (NextCursor page) then Some [Items page]
      else (λ pages, Items page :: pages) <$> walk_pages fuel items (NextCursor page) limit
  end.

(** ** The ceiling on a result; [marshal] is [json.Marshal] of the whole result *)
Section TruncateResult.
Variable marshal : CallToolResult → option string.

Definition truncation_notice (len maxBytes : Z) : string :=
  "[RESULT_TRUNCATED] response would be " +:+ itoa len +:+ " bytes (budget " +:+ itoa maxBytes +:+
  "). Reduce result size with a pagination cursor, a more specific query, " +:+
  "or by requesting only the fields you need. Overflow: " +:+ itoa (len - maxBytes) +:+ " bytes.".

Definition TruncateResult (result : option CallToolResult) (maxBytes : Z) : option CallToolResult :=
  match result with
  | None => None
  | Some r =>
      if maxBytes <=? 0 then result
      else match marshal r with
           | None => result
           | Some encoded =>
               if bytes encoded <=? maxBytes then result
               else Some {| r_Content := [MakeTextContent (truncation_notice (bytes encoded) maxBytes)];
                            StructuredContent := None; IsError := false |}
           end
  end.
End TruncateResult.

(** ** Base64 *)
Ltac byte_arith := Zify.zify; Z.to_euclidean_division_equations; lia.

Ltac small_list := repeat (apply Forall_cons_2; [byte_arith|]); constructor.

Lemma octets_sextets l : Forall (λ b, b < 256)%nat l → octets (sextets l) = Some l.
Proof.
  revert l. fix IH 1. intros [|a [|b [|c l]]] H.
  - done.
  - apply Forall_cons_1 in H as [Ha _]. cbn [sextets octets]. do 2 f_equal.
    byte_arith.
  - apply Forall_cons_1 in H as [Ha [Hb _]%Forall_cons_1]. cbn [sextets octets]. do 2 f_equal; [byte_arith|]. f_equal. byte_arith.
  - apply Forall_cons_1 in H as [Ha [Hb [Hc Hl]%Forall_cons_1]%Forall_cons_1]. cbn [sextets octets].
    rewrite (IH l Hl). cbn [mbind option_bind]. repeat (f_equal; try byte_arith).
Qed.

Lemma sextets_small l : Forall (λ b, b < 256)%nat l → Forall (λ s, s < 64)%nat (sextets l).
Proof.
  revert l. fix IH 1. intros [|a [|b [|c l]]] H.
  - done.
  - apply Forall_cons_1 in H as [Ha _]. cbn [sextets]. small_list.
  - apply Forall_cons_1 in H as [Ha [Hb _]%Forall_cons_1]. cbn [sextets]. small_list.
  - apply Forall_cons_1 in H as [Ha [Hb [Hc Hl]%Forall_cons_1]%Forall_cons_1]. cbn [sextets].
    do 4 (apply Forall_cons_2; [byte_arith|]). by apply IH.
Qed.

Lemma sextet_alphabet n : (n < 64)%nat → sextet (alphabet n) = Some n ∧ (alphabet n < 256)%nat ∧ alphabet n ≠ 10%nat ∧ alphabet n ≠ 13%nat.
Proof. intros H. do 64 (destruct n as [|n]; [split; [reflexivity|vm_compute; lia]|]). lia. Qed.

Lemma ascii_bytes l : Forall (λ b, b < 256)%nat l → string_bytes (bytes_string l) = l.
Proof.
  intros H. unfold string_bytes, bytes_string. rewrite String.list_ascii_of_string_of_list_ascii.
  rewrite <- list_fmap_compose. induction H as [|b l Hb H IH]; [done|]. cbn. rewrite IH. f_equal.
  by apply Ascii.nat_ascii_embedding.
Qed.
Lemma bytes_of_string s : bytes_string (string_bytes s) = s.
Proof.
  unfold string_bytes, bytes_string. rewrite <- list_fmap_compose.
  rewrite <- (String.string_of_list_ascii_of_string s) at 2. f_equal. rewrite <- (list_fmap_id (String.list_ascii_of_string s)) at 2.
  apply list_fmap_ext. intros i a _. apply Ascii.ascii_nat_embedding.
Qed.
Lemma string_bytes_small s : Forall (λ b, b < 256)%nat (string_bytes s).
Proof. apply Forall_fmap, Forall_true. intros a. apply Ascii.nat_ascii_bounded. Qed.

(** Decoding undoes encoding. *)
Lemma DecodeString_EncodeToString s : DecodeString (EncodeToString s) = Some s.
Proof.
  unfold DecodeString, EncodeToString.
  pose proof (sextets_small _ (string_bytes_small s)) as Hs.
  rewrite ascii_bytes.
  2:{ apply Forall_fmap. eapply Forall_impl; [exact Hs|]. intros n Hn. by apply sextet_alphabet. }
  assert (filter (λ c, c ≠ 10%nat ∧ c ≠ 13%nat) (alphabet <$> sextets (string_bytes s)) = alphabet <$> sextets (string_bytes s)) as ->.
  { induction Hs as [|n l Hn Hl IH]; [done|]. rewrite fmap_cons, filter_cons_True; [by rewrite IH|]. by apply sextet_alphabet. }
  assert (mapM sextet (alphabet <$> sextets (string_bytes s)) = Some (sextets (string_bytes s))) as ->.
  { apply mapM_Some. apply Forall2_fmap_l. induction Hs as [|n l Hn Hl IH]; constructor; [by apply sextet_alphabet|done]. }
  cbn. rewrite octets_sextets by apply string_bytes_small. cbn. by rewrite bytes_of_string.
Qed.

(** ** Decimal numbers *)
Lemma scan_digits_go x s : scan_digits 0 (pretty_N_go x s) = scan_digits (Z.of_N x) s.
Proof.
  revert s. induction x as [x IH] using (well_founded_induction N.lt_wf_0). intros s.
  destruct (decide (0 < x)%N) as [Hx|Hx]; [|assert (x = 0%N) as -> by lia; by rewrite pretty_N_go_0].
  rewrite pretty_N_go_step by done. rewrite IH by (apply N.div_lt; lia). cbn [scan_digits].
  assert (digit_value (pretty_N_char (x mod 10)) = Some (Z.of_N (x mod 10))) as ->.
  { pose proof (N.mod_lt x 10 ltac:(done)) as H. generalize dependent (x mod 10)%N. intros d Hd.
    assert (d = 0 ∨ d = 1 ∨ d = 2 ∨ d = 3 ∨ d = 4 ∨ d = 5 ∨ d = 6 ∨ d = 7 ∨ d = 8 ∨ d = 9)%N as Hc by lia.
    destruct_or! Hc; by subst. }
  f_equal. rewrite (N.div_mod x 10) at 3 by done. lia.
Qed.

Lemma pretty_head_digit z : 0 <= z → ∃ a s, pretty z = String a s ∧ is_Some (digit_value a) ∧ scan_digits 0 (String a s) = z ∧
  Ascii.nat_of_ascii a ≠ 45%nat ∧ Ascii.nat_of_ascii a ≠ 43%nat ∧ (48 <= Ascii.nat_of_ascii a)%nat.
Proof.
  intros Hz.
  assert (pretty z = pretty (Z.to_N z)) as E by (destruct z; [done|done|lia]).
  rewrite E. clear E. unfold pretty, pretty_N. destruct (decide (Z.to_N z = 0%N)) as [H0|H0].
  - assert (z = 0) as -> by lia. exists "0"%char, "". repeat split; try done; vm_compute; lia || by eexists.
  - assert (∃ a s, pretty_N_go (Z.to_N z) "" = String a s ∧ is_Some (digit_value a) ∧
        Ascii.nat_of_ascii a ≠ 45%nat ∧ Ascii.nat_of_ascii a ≠ 43%nat ∧ (48 <= Ascii.nat_of_ascii a)%nat) as (a & s & E & Ha).
    { assert (Hpos : (0 < Z.to_N z)%N) by lia. clear H0 Hz. revert Hpos. generalize ("" : string) as acc.
      generalize (Z.to_N z) as x. intros x. induction x as [x IH] using (well_founded_induction N.lt_wf_0). intros acc Hx.
      rewrite pretty_N_go_step by done. destruct (decide (0 < x `div` 10)%N) as [Hd|Hd].
      - apply IH; [apply N.div_lt; lia|done].
      - assert (x `div` 10 = 0)%N as -> by lia. rewrite pretty_N_go_0.
        pose proof (N.mod_lt x 10 ltac:(done)) as H. generalize dependent (x mod 10)%N. intros d Hd'.
        assert (d = 0 ∨ d = 1 ∨ d = 2 ∨ d = 3 ∨ d = 4 ∨ d = 5 ∨ d = 6 ∨ d = 7 ∨ d = 8 ∨ d = 9)%N as Hc by lia.
        exists (pretty_N_char d), acc. destruct_or! Hc; subst; (split; [done|]); (split; [by eexists|]); vm_compute; lia. }
    exists a, s. split; [done|]. split; [apply Ha|]. split; [|apply Ha]. rewrite <- E, scan_digits_go. cbn. lia.
Qed.

Lemma scan_int_itoa z : 0 <= z → in64 z → scan_int (itoa z) = Some z.
Proof.
  intros Hz Hin. destruct (pretty_head_digit z Hz) as (a & s & E & Hd & Hv & H45 & H43 & H48).
  unfold scan_int, itoa. rewrite E. cbn [skip_blanks].
  repeat (rewrite (proj2 (Nat.eqb_neq (Ascii.nat_of_ascii a) _)) by lia). cbn [orb].
  rewrite (proj2 (Nat.eqb_neq (Ascii.nat_of_ascii a) 45)) by lia.
  rewrite (proj2 (Nat.eqb_neq (Ascii.nat_of_ascii a) 43)) by lia.
  cbn [starts_with_digit]. rewrite bool_decide_true by done. rewrite Hv. unfold in_int. by rewrite bool_decide_true.
Qed.

Lemma EncodeOffsetCursor_nonempty offset : Empty (EncodeOffsetCursor offset) = false.
Proof.
  apply bool_decide_false. intros E.
  pose proof (DecodeString_EncodeToString ("o:" +:+ itoa offset)) as H. unfold EncodeOffsetCursor in E. by rewrite E in H.
Qed.

Lemma DecodeOffsetCursor_Encode offset : 0 <= offset → in64 offset → DecodeOffsetCursor (EncodeOffsetCursor offset) = inr offset.
Proof.
  intros Ho Hin. unfold DecodeOffsetCursor. rewrite EncodeOffsetCursor_nonempty. unfold EncodeOffsetCursor.
  rewrite DecodeString_EncodeToString. change ("o:" +:+ itoa offset) with (String "o" (String ":" (itoa offset))).
  cbv beta iota. rewrite scan_int_itoa by done. by rewrite (proj2 (Z.ltb_ge offset 0)) by lia.
Qed.

(** ** Pages *)
Section Pages.
Context {T : Type}.
Implicit Types items : list T.

(** The lengths and limits for which the end of a page is an [int]. *)
Definition limit_ok (len limit : Z) : Prop := len + default_limit limit <= max_int64.

Lemma default_limit_pos limit : 0 < default_limit limit.
Proof. unfold default_limit. destruct (Z.leb_spec limit 0); lia. Qed.

Lemma Paginate_at items limit (n : nat) :
  limit_ok (Z.of_nat (length items)) limit → (n <= length items)%nat →
  let k := Z.to_nat (default_limit limit) in
  let cursor := if (n =? 0)%nat then "" else EncodeOffsetCursor (Z.of_nat n) in
  Paginate items cursor limit = Some {|
    Items := take k (drop n items);
    NextCursor := if (n + k <? length items)%nat then EncodeOffsetCursor (Z.of_nat (n + k)) else "";
    Total := Z.of_nat (length items); Truncated := false |}.
Proof.
  intros Hl Hn. cbv zeta. unfold limit_ok in Hl. pose proof (default_limit_pos limit) as Hp. unfold Paginate. cbv zeta.
  match goal with |- context [page_offset ?l ?c] => assert (page_offset l c = Z.of_nat n) as -> end.
  { unfold page_offset. destruct (Nat.eqb_spec n 0) as [->|Hn0].
    - change (DecodeOffsetCursor _) with (@inr cursor_error Z 0). cbv beta iota.
      destruct (Z.ltb_spec (Z.of_nat (length items)) 0); [lia|done].
    - rewrite DecodeOffsetCursor_Encode by (unfold in64, min_int64; lia).
      destruct (Z.ltb_spec (Z.of_nat (length items)) (Z.of_nat n)); lia. }
  rewrite add64_id by (unfold in64, min_int64; lia).
  destruct (Z.ltb_spec (Z.of_nat (length items)) (Z.of_nat n + default_limit limit)).
  - rewrite (proj2 (Z.ltb_ge _ (Z.of_nat n))) by lia. rewrite Z.ltb_irrefl.
    rewrite (proj2 (Nat.ltb_ge _ _)) by lia. rewrite Nat2Z.id. f_equal. f_equal.
    rewrite !take_ge by (rewrite length_drop; lia). done.
  - rewrite (proj2 (Z.ltb_ge _ (Z.of_nat n))) by lia. rewrite Nat2Z.id.
    replace (Z.of_nat n + default_limit limit - Z.of_nat n) with (default_limit limit) by lia.
    destruct (Nat.ltb_spec (n + Z.to_nat (default_limit limit)) (length items)).
    + rewrite (proj2 (Z.ltb_lt _ _)) by lia. repeat f_equal. lia.
    + rewrite (proj2 (Z.ltb_ge _ _)) by lia. done.
Qed.

Lemma walk_pages_from items limit (n fuel : nat) :
  limit_ok (Z.of_nat (length items)) limit → (n <= length items)%nat → (length items - n < fuel)%nat →
  let k := Z.to_nat (default_limit limit) in
  let cursor := if (n =? 0)%nat then "" else EncodeOffsetCursor (Z.of_nat n) in
  ∃ pages lastp, walk_pages fuel items cursor limit = Some (pages ++ [lastp]) ∧
    concat pages ++ lastp = drop n items ∧
    Forall (λ p, length p = k) pages ∧ (length lastp <= k)%nat ∧ (lastp = [] → n = length items).
Proof.
  intros Hl. pose proof (default_limit_pos limit) as Hp. cbv zeta.
  revert n. induction fuel as [|fuel IH]; intros n Hn Hf; [lia|]. cbn [walk_pages].
  rewrite Paginate_at by done. cbn [mbind option_bind NextCursor Items].
  set (k := Z.to_nat (default_limit limit)) in *.
  destruct (Nat.ltb_spec (n + k) (length items)) as [Hlt|Hge].
  - rewrite EncodeOffsetCursor_nonempty.
    destruct (IH (n + k)%nat ltac:(lia) ltac:(lia)) as (pages & lastp & E & Hc & Hall & Hlast & Hne).
    rewrite (proj2 (Nat.eqb_neq _ _)) in E by lia. rewrite E. exists (take k (drop n items) :: pages), lastp.
    split; [done|]. cbn [concat]. rewrite <- app_assoc, Hc. split; [|split; [|split]].
    + rewrite <- drop_drop. apply take_drop.
    + constructor; [|done]. rewrite length_take, length_drop. lia.
    + done.
    + intros Hnil. apply Hne in Hnil. lia.
  - exists [], (take k (drop n items)). split; [done|]. rewrite take_ge by (rewrite length_drop; lia).
    split; [done|split; [constructor|split]].
    + rewrite length_drop. lia.
    + intros Hnil. apply (f_equal length) in Hnil. rewrite length_drop in Hnil. cbn in Hnil. lia.
Qed.

(** Paging through a list.  A cursor decodes to the offset it was made from.  A caller who
    starts without a cursor and asks again with each cursor it is given, until it gets none,
    sees every item exactly once and in order, in pages that all hold exactly the limit
    except the last, and it does get to the end (as long as the end of a page is an [int]). *)
Theorem paging_visits_every_item_once items (limit : Z) :
  limit_ok (Z.of_nat (length items)) limit →
  let k := Z.to_nat (default_limit limit) in
  (∀ offset, 0 <= offset → in64 offset → DecodeOffsetCursor (EncodeOffsetCursor offset) = inr offset) ∧
  ∃ pages lastp, walk_pages (S (length items)) items "" limit = Some (pages ++ [lastp]) ∧
    concat pages ++ lastp = items ∧ Forall (λ p, length p = k) pages ∧ (length lastp <= k)%nat ∧
    (lastp = [] → items = []).
Proof.
  intros Hl. cbv zeta. split; [intros; by apply DecodeOffsetCursor_Encode|].
  destruct (walk_pages_from items limit 0 (S (length items)) Hl ltac:(lia) ltac:(lia)) as (pages & lastp & E & Hc & Hall & Hlast & Hne).
  exists pages, lastp. split; [exact E|]. split; [exact Hc|]. split; [done|split; [done|]].
  intros Hnil. apply Hne in Hnil. by destruct items.
Qed.
End Pages.

(** ** Where the code falls short *)

(** A limit near the top of [int] wraps the end of the page and the slice expression panics. *)
Lemma huge_limit_panics : Paginate [1; 2; 3] (EncodeOffsetCursor 1) max_int64 = None.
Proof. vm_compute. reflexivity. Qed.

(** A cursor past the end (the list became shorter) starts again from the first item. *)
Lemma stale_cursor_restarts : Items <$> Paginate [1; 2; 3] (EncodeOffsetCursor 10) 2 = Some [1; 2].
Proof. vm_compute. reflexivity. Qed.

(** The ceiling turns an error into a success and its notice can itself be over the ceiling. *)
Lemma ceiling_loses_error marshal r encoded maxBytes :
  0 < maxBytes → marshal r = Some encoded → maxBytes < bytes encoded →
  IsResultError (TruncateResult marshal (Some r) maxBytes) = false.
Proof.
  intros Hm E Hb. unfold TruncateResult. rewrite (proj2 (Z.leb_gt maxBytes 0)) by lia. rewrite E.
  by rewrite (proj2 (Z.leb_gt (bytes encoded) maxBytes)) by lia.
Qed.

Lemma paging_visits_every_item_once_witness :
  ∃ pages lastp, walk_pages 4 [10; 20; 30] "" 2 = Some (pages ++ [lastp]) ∧ concat pages ++ lastp = [10; 20; 30].
Proof.
  destruct (paging_visits_every_item_once [10; 20; 30] 2) as (_ & pages & lastp & E & Hc & _).
  - unfold limit_ok. vm_compute. discriminate.
  - by exists pages, lastp.
Defined.
