(* ===== verification/Worktree.v ===== *)
(** The worktree pool (src/worktree/pool.go): git worktrees kept per repository for reuse.
    The callers' goroutines interleave at the locks; git and the file system answer as they
    like, except that a worktree that was added is there and one that was removed is not. *)

From stdpp Require Import base tactics list gmap gmultiset strings pretty relations.
From Stdlib Require Import ZArith Lia.
From S2P Require Import Prelude.

Local Open Scope Z_scope.

Definition DefaultPoolSize : Z := 4.
Definition DefaultStaleThreshold : duration := 24 * Hour.

(** ** State

    A repository's pool is an object that goroutines hold on to: [repos] names it by its
    address, [idle] is its content. *)
Record poolEntry := { Path : string; Branch : string; CreatedAt : time }.

Record WorktreePool := {
  closed : bool;
  repos : gmap string nat;
  poolSize : Z;
  counter : Z;
  idle : nat → list poolEntry;
  root : nat → string;
  next : nat
}.

Definition NewPool (size : Z) : WorktreePool := {|
  closed := false; repos := ∅; poolSize := if size <=? 0 then DefaultPoolSize else size; counter := 0;
  idle := λ _, []; root := λ _, ""; next := 0 |}.

Definition set_idle (p : nat) (l : list poolEntry) (wp : WorktreePool) : WorktreePool := {|
  closed := closed wp; repos := repos wp; poolSize := poolSize wp; counter := counter wp;
  idle := λ q, if decide (q = p) then l else idle wp q; root := root wp; next := next wp |}.

(** The pool of a repository, by its resolved root. *)
Definition getOrCreateRepoPool (r : string) (wp : WorktreePool) : nat * WorktreePool :=
  match repos wp !! r with
  | Some p => (p, wp)
  | None => (next wp, {| closed := closed wp; repos := <[r := next wp]> (repos wp); poolSize := poolSize wp;
                         counter := counter wp; idle := λ q, if decide (q = next wp) then [] else idle wp q;
                         root := λ q, if decide (q = next wp) then r else root wp q; next := S (next wp) |})
  end.

(** The name of a new worktree: the wall clock in milliseconds and the counter. *)
Definition poolName (now : time) (seq : Z) : string := "pool-" +:+ itoa (Z.div now Millisecond) +:+ "-" +:+ itoa seq.
Definition poolPath (r : string) (name : string) : string := r +:+ "/.ralph/worktrees/pool/" +:+ name.
Definition poolBranch (name : string) : string := "ralph/pool/" +:+ name.
Definition bump (wp : WorktreePool) : WorktreePool := {|
  closed := closed wp; repos := repos wp; poolSize := poolSize wp; counter := counter wp + 1;
  idle := idle wp; root := root wp; next := next wp |}.

Definition pop_idle (p : nat) (wp : WorktreePool) : option poolEntry * WorktreePool :=
  match last (idle wp p) with
  | Some e => (Some e, set_idle p (removelast (idle wp p)) wp)
  | None => (None, wp)
  end.

(** The end of [Release], and of a step of [Warm] and [PreWarm]: into the pool unless it is
    full.  Whether the worktree was kept. *)
Definition push_idle (p : nat) (e : poolEntry) (wp : WorktreePool) : bool * WorktreePool :=
  if poolSize wp <=? Z.of_nat (length (idle wp p)) then (false, wp)
  else (true, set_idle p (idle wp p ++ [e]) wp).

(** How many worktrees [Warm] and [PreWarm] set out to create. *)
Definition warm_need (existing count size : Z) : Z :=
  let need := count - existing in
  if need <=? 0 then 0 else let need := if size <? existing + need then size - existing else need in
  if need <=? 0 then 0 else need.

Definition is_stale (cutoff : time) (e : poolEntry) : bool := time_before (CreatedAt e) cutoff.
Definition split_stale (cutoff : time) (p : nat) (wp : WorktreePool) : list poolEntry * WorktreePool :=
  (filter (λ e, is_stale cutoff e = true) (idle wp p),
   set_idle p (filter (λ e, is_stale cutoff e = false) (idle wp p)) wp).

Definition take_all (p : nat) (wp : WorktreePool) : list poolEntry * WorktreePool := (idle wp p, set_idle p [] wp).
Definition close_pool (wp : WorktreePool) : list nat * WorktreePool :=
  ((map_to_list (repos wp)).*2,
   {| closed := true; repos := ∅; poolSize := poolSize wp; counter := counter wp; idle := idle wp;
      root := root wp; next := next wp |}).

(** ** Calls in progress

    Where a goroutine is between two locks. *)
Inductive call :=
| InAcquire (p : nat)                  (* has the repository's pool *)
| Resetting (p : nat) (e : poolEntry)  (* took an idle worktree *)
| Creating (p : nat)                   (* makes a new one for the caller *)
| Cleaning (p : nat) (path : string)   (* a release, before the lock *)
| Returning (p : nat) (path : string)  (* a release, cleaned *)
| Warming (p : nat) (need : nat)       (* a warm-up, with so many to go *)
| Stocking (p : nat) (need : nat) (e : poolEntry)  (* has made one of them *)
| Draining (p : nat)                   (* a drain, or one pool of a close *)
| Sweeping (p : nat) (cutoff : time)   (* one pool of a cleanup *)
| Removing (path : string).            (* a worktree to be destroyed *)

(** The pool, the calls in progress, the worktrees in the hands of callers, and those on disk. *)
Record system := { pool : WorktreePool; calls : list call; held : list string; disk : gset string }.

Definition start (size : Z) : system := {| pool := NewPool size; calls := []; held := []; disk := ∅ |}.

Definition removals (es : list poolEntry) : list call := Removing ∘ Path <$> es.

(** One step of one goroutine, or of a caller. *)
Inductive step : system → system → Prop :=
(* a call starts; a closed pool turns it away *)
| do_acquire wp c h d r p wp' :
    closed wp = false → getOrCreateRepoPool r wp = (p, wp') →
    step {| pool := wp; calls := c; held := h; disk := d |} {| pool := wp'; calls := InAcquire p :: c; held := h; disk := d |}
| do_release wp c h h' d r p wp' path :
    closed wp = false → path ≠ "" → h ≡ₚ path :: h' → getOrCreateRepoPool r wp = (p, wp') →
    step {| pool := wp; calls := c; held := h; disk := d |} {| pool := wp'; calls := Cleaning p path :: c; held := h'; disk := d |}
(* the repository cannot be resolved *)
| do_release_lost wp c h h' d path :
    closed wp = false → path ≠ "" → h ≡ₚ path :: h' →
    step {| pool := wp; calls := c; held := h; disk := d |} {| pool := wp; calls := Removing path :: c; held := h'; disk := d |}
(* a closed pool forgets what is released to it *)
| do_release_closed wp c h h' d path :
    closed wp = true → h ≡ₚ path :: h' →
    step {| pool := wp; calls := c; held := h; disk := d |} {| pool := wp; calls := c; held := h'; disk := d |}
| do_warm wp c h d r p wp' count :
    closed wp = false → getOrCreateRepoPool r wp = (p, wp') →
    step {| pool := wp; calls := c; held := h; disk := d |}
         {| pool := wp'; calls := Warming p (Z.to_nat (warm_need (Z.of_nat (length (idle wp' p))) count (poolSize wp'))) :: c;
            held := h; disk := d |}
| do_drain wp c h d r p wp' :
    closed wp = false → getOrCreateRepoPool r wp = (p, wp') →
    step {| pool := wp; calls := c; held := h; disk := d |} {| pool := wp'; calls := Draining p :: c; held := h; disk := d |}
| do_cleanup wp c h d now olderThan :
    closed wp = false →
    step {| pool := wp; calls := c; held := h; disk := d |}
         {| pool := wp; calls := ((λ p, Sweeping p (time_add now (- olderThan))) <$> (map_to_list (repos wp)).*2) ++ c;
            held := h; disk := d |}
| do_close wp c h d ps wp' :
    closed wp = false → close_pool wp = (ps, wp') →
    step {| pool := wp; calls := c; held := h; disk := d |} {| pool := wp'; calls := (Draining <$> ps) ++ c; held := h; disk := d |}
(* an acquisition takes the last idle worktree or makes one *)
| acquire_take wp c c' h d p e wp' :
    c ≡ₚ InAcquire p :: c' → pop_idle p wp = (Some e, wp') →
    step {| pool := wp; calls := c; held := h; disk := d |} {| pool := wp'; calls := Resetting p e :: c'; held := h; disk := d |}
| acquire_none wp c c' h d p wp' :
    c ≡ₚ InAcquire p :: c' → pop_idle p wp = (None, wp') →
    step {| pool := wp; calls := c; held := h; disk := d |} {| pool := wp'; calls := Creating p :: c'; held := h; disk := d |}
| acquire_reset wp c c' h d p e :
    c ≡ₚ Resetting p e :: c' → Path e ∈ d →
    step {| pool := wp; calls := c; held := h; disk := d |} {| pool := wp; calls := c'; held := Path e :: h; disk := d |}
| acquire_reset_fails wp c c' h d p e :
    c ≡ₚ Resetting p e :: c' →
    step {| pool := wp; calls := c; held := h; disk := d |}
         {| pool := wp; calls := Creating p :: c'; held := h; disk := d ∖ {[Path e]} |}
| acquire_create wp c c' h d p now :
    c ≡ₚ Creating p :: c' →
    let path := poolPath (root wp p) (poolName now (counter wp + 1)) in
    step {| pool := wp; calls := c; held := h; disk := d |}
         {| pool := bump wp; calls := c'; held := path :: h; disk := {[path]} ∪ d |}
| acquire_create_fails wp c c' h d p :
    c ≡ₚ Creating p :: c' →
    step {| pool := wp; calls := c; held := h; disk := d |} {| pool := bump wp; calls := c'; held := h; disk := d |}
(* a release *)
| release_clean wp c c' h d p path :
    c ≡ₚ Cleaning p path :: c' → path ∈ d →
    step {| pool := wp; calls := c; held := h; disk := d |} {| pool := wp; calls := Returning p path :: c'; held := h; disk := d |}
| release_clean_fails wp c c' h d p path :
    c ≡ₚ Cleaning p path :: c' →
    step {| pool := wp; calls := c; held := h; disk := d |} {| pool := wp; calls := Removing path :: c'; held := h; disk := d |}
| release_push wp c c' h d p path branch now kept wp' :
    c ≡ₚ Returning p path :: c' →
    push_idle p {| Path := path; Branch := branch; CreatedAt := now |} wp = (kept, wp') →
    step {| pool := wp; calls := c; held := h; disk := d |}
         {| pool := wp'; calls := (if kept then [] else [Removing path]) ++ c'; held := h; disk := d |}
(* a warm-up *)
| warm_create wp c c' h d p need now now' :
    c ≡ₚ Warming p (S need) :: c' →
    let name := poolName now (counter wp + 1) in
    let path := poolPath (root wp p) name in
    step {| pool := wp; calls := c; held := h; disk := d |}
         {| pool := bump wp;
            calls := Stocking p need {| Path := path; Branch := poolBranch name; CreatedAt := now' |} :: c'; held := h;
            disk := {[path]} ∪ d |}
| warm_push wp c c' h d p need e kept wp' :
    c ≡ₚ Stocking p need e :: c' → push_idle p e wp = (kept, wp') →
    step {| pool := wp; calls := c; held := h; disk := d |}
         {| pool := wp'; calls := (if kept then [] else [Removing (Path e)]) ++ Warming p need :: c'; held := h; disk := d |}
| warm_create_fails wp c c' h d p need :
    c ≡ₚ Warming p (S need) :: c' →
    step {| pool := wp; calls := c; held := h; disk := d |} {| pool := bump wp; calls := Warming p need :: c'; held := h; disk := d |}
| warm_stop wp c c' h d p need :
    c ≡ₚ Warming p need :: c' →
    step {| pool := wp; calls := c; held := h; disk := d |} {| pool := wp; calls := c'; held := h; disk := d |}
(* removals *)
| drain wp c c' h d p es wp' :
    c ≡ₚ Draining p :: c' → take_all p wp = (es, wp') →
    step {| pool := wp; calls := c; held := h; disk := d |} {| pool := wp'; calls := removals es ++ c'; held := h; disk := d |}
| sweep wp c c' h d p cutoff es wp' :
    c ≡ₚ Sweeping p cutoff :: c' → split_stale cutoff p wp = (es, wp') →
    step {| pool := wp; calls := c; held := h; disk := d |} {| pool := wp'; calls := removals es ++ c'; held := h; disk := d |}
| remove wp c c' h d path :
    c ≡ₚ Removing path :: c' →
    step {| pool := wp; calls := c; held := h; disk := d |} {| pool := wp; calls := c'; held := h; disk := d ∖ {[path]} |}.

(** ** Where every worktree is *)
Definition ms (l : list string) : gmultiset string := list_to_set_disj l.

Definition call_live (c : call) : list string :=
  match c with
  | Resetting _ e | Stocking _ _ e => [Path e]
  | Cleaning _ path | Returning _ path => [path]
  | _ => []
  end.
Definition call_removing (c : call) : list string := match c with Removing path => [path] | _ => [] end.
Definition call_pool (c : call) : option nat :=
  match c with
  | InAcquire p | Resetting p _ | Creating p | Cleaning p _ | Returning p _ | Warming p _ | Stocking p _ _
  | Draining p | Sweeping p _ => Some p
  | Removing _ => None
  end.

Definition idle_paths (wp : WorktreePool) : gmultiset string := ms (seq 0 (next wp) ≫= λ p, Path <$> idle wp p).
Definition in_calls (f : call → list string) (c : list call) : gmultiset string := ms (c ≫= f).
Definition live (s : system) : gmultiset string := ms (held s) ⊎ in_calls call_live (calls s) ⊎ idle_paths (pool s).
Definition removing (s : system) : gmultiset string := in_calls call_removing (calls s).

Lemma ms_app l k : ms (l ++ k) = ms l ⊎ ms k.
Proof. apply list_to_set_disj_app. Qed.
Lemma ms_nil : ms [] = ∅.
Proof. done. Qed.
Lemma ms_cons x l : ms (x :: l) = {[+ x +]} ⊎ ms l.
Proof. done. Qed.
Lemma elem_of_ms x l : x ∈ ms l ↔ x ∈ l.
Proof. induction l as [|y l IH]; [rewrite ms_nil|rewrite ms_cons, elem_of_cons, <- IH]; multiset_solver. Qed.
Lemma ms_perm l k : l ≡ₚ k → ms l = ms k.
Proof. intros H. apply list_to_set_disj_perm, H. Qed.

Lemma in_calls_app f c k : in_calls f (c ++ k) = in_calls f c ⊎ in_calls f k.
Proof. unfold in_calls. by rewrite bind_app, ms_app. Qed.
Lemma in_calls_cons f x c : in_calls f (x :: c) = ms (f x) ⊎ in_calls f c.
Proof. unfold in_calls. cbn. by rewrite ms_app. Qed.
Lemma in_calls_perm f c k : c ≡ₚ k → in_calls f c = in_calls f k.
Proof. intros H. unfold in_calls. apply ms_perm. by rewrite H. Qed.

Lemma in_calls_none f c : (∀ x, x ∈ c → f x = []) → in_calls f c = ∅.
Proof.
  induction c as [|x c IH]; intros H; [done|]. rewrite in_calls_cons, H by left. rewrite IH; [done|].
  intros y Hy. apply H. by right.
Qed.

(** Replacing the content of one pool. *)
Lemma idle_paths_split p wp :
  (p < next wp)%nat → ∃ rest, ∀ l, idle_paths (set_idle p l wp) = ms (Path <$> l) ⊎ rest.
Proof.
  intros Hp. exists (ms (seq 0 p ≫= λ q, Path <$> idle wp q) ⊎ ms (seq (S p) (next wp - S p) ≫= λ q, Path <$> idle wp q)).
  intros l. unfold idle_paths. cbn [next set_idle].
  replace (next wp) with (p + S (next wp - S p))%nat at 1 by lia. rewrite seq_app, bind_app, ms_app. cbn [seq plus].
  rewrite bind_cons, ms_app. cbn [idle set_idle]. rewrite decide_True by done.
  assert (∀ a n, (∀ q, (a <= q < a + n)%nat → q ≠ p) →
    (seq a n ≫= λ q, Path <$> idle (set_idle p l wp) q) = seq a n ≫= λ q, Path <$> idle wp q) as Hsame.
  { intros a n H. revert a H. induction n as [|n IH]; intros a H; [done|]. cbn.
    rewrite decide_False by (apply H; lia). f_equal. apply IH. intros q Hq. apply H. lia. }
  rewrite !Hsame by lia. multiset_solver.
Qed.

Lemma idle_paths_self p wp : idle_paths (set_idle p (idle wp p) wp) = idle_paths wp.
Proof.
  assert (∀ q, idle (set_idle p (idle wp p) wp) q = idle wp q) as H.
  { intros q. cbn. by destruct (decide (q = p)) as [->|]. }
  unfold idle_paths. change (next (set_idle p (idle wp p) wp)) with (next wp). f_equal.
  induction (seq 0 (next wp)) as [|q l IH]; [done|]. by rewrite !bind_cons, IH, H.
Qed.

Ltac ms_solve := rewrite ?fmap_nil, ?fmap_cons, ?ms_cons, ?ms_nil; multiset_solver.

(** What an operation on one pool does to the idle worktrees. *)
Lemma idle_paths_take p wp es :
  (p < next wp)%nat → take_all p wp = (es, set_idle p [] wp) → idle_paths wp = ms (Path <$> es) ⊎ idle_paths (set_idle p [] wp).
Proof.
  intros Hp [= <-]. destruct (idle_paths_split p wp Hp) as [rest Hr]. rewrite <- (idle_paths_self p wp), !Hr.
  ms_solve.
Qed.

Lemma pop_idle_spec p wp o wp' :
  (p < next wp)%nat → pop_idle p wp = (o, wp') →
  match o with
  | Some e => wp' = set_idle p (removelast (idle wp p)) wp ∧ idle_paths wp = {[+ Path e +]} ⊎ idle_paths wp' ∧
              (length (idle wp' p) <= length (idle wp p))%nat
  | None => wp' = wp
  end.
Proof.
  intros Hp. unfold pop_idle. destruct (last (idle wp p)) as [e|] eqn:E; intros [= <- <-]; [|done].
  destruct (idle_paths_split p wp Hp) as [rest Hr]. split; [done|].
  apply last_Some in E as [l El]. rewrite El, removelast_last. split.
  - rewrite <- (idle_paths_self p wp), !Hr, El, fmap_app, ms_app. ms_solve.
  - cbn. rewrite decide_True by done. rewrite length_app. lia.
Qed.

Lemma push_idle_spec p e wp kept wp' :
  (p < next wp)%nat → push_idle p e wp = (kept, wp') →
  if kept then Z.of_nat (length (idle wp p)) < poolSize wp ∧ wp' = set_idle p (idle wp p ++ [e]) wp ∧
               idle_paths wp' = {[+ Path e +]} ⊎ idle_paths wp
  else wp' = wp.
Proof.
  intros Hp. unfold push_idle. destruct (Z.leb_spec (poolSize wp) (Z.of_nat (length (idle wp p)))); intros [= <- <-]; [done|].
  destruct (idle_paths_split p wp Hp) as [rest Hr]. split; [done|split; [done|]].
  rewrite <- (idle_paths_self p wp), !Hr, fmap_app, ms_app. ms_solve.
Qed.

Lemma split_stale_spec cutoff p wp es wp' :
  (p < next wp)%nat → split_stale cutoff p wp = (es, wp') →
  wp' = set_idle p (filter (λ e, is_stale cutoff e = false) (idle wp p)) wp ∧
  idle_paths wp = ms (Path <$> es) ⊎ idle_paths wp'.
Proof.
  intros Hp [= <- <-]. destruct (idle_paths_split p wp Hp) as [rest Hr]. split; [done|].
  rewrite <- (idle_paths_self p wp), !Hr.
  assert (∀ l, ms (Path <$> l) = ms (Path <$> filter (λ e, is_stale cutoff e = true) l) ⊎
                               ms (Path <$> filter (λ e, is_stale cutoff e = false) l)) as Hs.
  { induction l as [|e l IH]; [done|]. destruct (is_stale cutoff e) eqn:E.
    - rewrite (filter_cons_True (λ e, is_stale cutoff e = true)) by done.
      rewrite (filter_cons_False (λ e, is_stale cutoff e = false)) by (by rewrite E). rewrite !fmap_cons, !ms_cons, IH. ms_solve.
    - rewrite (filter_cons_False (λ e, is_stale cutoff e = true)) by (by rewrite E).
      rewrite (filter_cons_True (λ e, is_stale cutoff e = false)) by done. rewrite !fmap_cons, !ms_cons, IH. ms_solve. }
  rewrite (Hs (idle wp p)) at 1. ms_solve.
Qed.

Lemma getOrCreate_spec r wp p wp' :
  (∀ r q, repos wp !! r = Some q → (q < next wp)%nat) → getOrCreateRepoPool r wp = (p, wp') →
  idle_paths wp' = idle_paths wp ∧ (p < next wp')%nat ∧ (next wp <= next wp')%nat ∧
  closed wp' = closed wp ∧ poolSize wp' = poolSize wp ∧ counter wp' = counter wp ∧
  (∀ r q, repos wp' !! r = Some q → (q < next wp')%nat) ∧
  ∀ q, idle wp' q = idle wp q ∨ idle wp' q = [].
Proof.
  intros Hr. unfold getOrCreateRepoPool. destruct (repos wp !! r) as [q|] eqn:E; intros [= <- <-].
  - split; [done|split; [by eapply Hr|]]. split_and!; try done. by left.
  - split; [|split; [cbn; lia|split; [cbn; lia|split; [done|split; [done|split; [done|split]]]]]].
    + unfold idle_paths. cbn [next]. rewrite seq_S, bind_app, ms_app. cbn [plus]. rewrite bind_cons. cbn [idle].
      rewrite decide_True by done. cbn. rewrite right_id_L by apply _. f_equal.
      assert (∀ a n, (a + n <= next wp)%nat →
        (seq a n ≫= λ q, Path <$> (if decide (q = next wp) then [] else idle wp q)) = seq a n ≫= λ q, Path <$> idle wp q) as H; [|by apply H].
      intros a n. revert a. induction n as [|n IH]; intros a H; [done|]. cbn [seq]. rewrite !bind_cons, IH by lia.
      by rewrite decide_False by lia.
    + cbn. intros r' q [[<- <-]|[_ H]]%lookup_insert_Some; [lia|]. apply Hr in H. lia.
    + cbn. intros q. destruct (decide _); auto.
Qed.

(** ** Steps move worktrees about *)
Definition calls_ok (n : nat) (c : list call) : Prop :=
  Forall (λ x, match call_pool x with Some p => (p < n)%nat | None => True end) c.

Record wp_ok (wp : WorktreePool) : Prop := {
  ok_size : 0 < poolSize wp;
  ok_repos : ∀ r q, repos wp !! r = Some q → (q < next wp)%nat;
  ok_idle : ∀ p, Z.of_nat (length (idle wp p)) <= poolSize wp
}.
Definition pool_ok (s : system) : Prop := wp_ok (pool s) ∧ calls_ok (next (pool s)) (calls s).

(** The worktrees a step brings in and those it lets go. *)
Record flow (s s' : system) (fresh gone : gmultiset string) : Prop := {
  fl_all : live s' ⊎ removing s' ⊎ gone = fresh ⊎ live s ⊎ removing s;
  fl_live : live s' ⊆ fresh ⊎ live s;
  fl_fresh : fresh = ∅ ∧ counter (pool s) <= counter (pool s') ∨
    ∃ r now, fresh = {[+ poolPath r (poolName now (counter (pool s) + 1)) +]} ∧ counter (pool s') = counter (pool s) + 1;
  fl_disk : disk s' = dom fresh ∪ disk s ∨
    ∃ x, disk s' = disk s ∖ {[x]} ∧ fresh = ∅ ∧ (x ∈ removing s ∨ x ∈ gone)
}.

Lemma calls_ok_perm n c x c' : c ≡ₚ x :: c' → calls_ok n c →
  match call_pool x with Some p => (p < n)%nat | None => True end ∧ calls_ok n c'.
Proof. intros H Hc. unfold calls_ok in *. rewrite H in Hc. by apply Forall_cons in Hc. Qed.

Lemma calls_ok_mono n m c : (n <= m)%nat → calls_ok n c → calls_ok m c.
Proof. intros H Hc. eapply Forall_impl; [exact Hc|]. cbn. intros x. destruct (call_pool x); [lia|done]. Qed.

Lemma removals_live es : in_calls call_live (removals es) = ∅.
Proof. apply in_calls_none. intros x (e & -> & _)%list_elem_of_fmap. done. Qed.
Lemma removals_removing es : in_calls call_removing (removals es) = ms (Path <$> es).
Proof. unfold in_calls. f_equal. induction es as [|e es IH]; [done|]. cbn. by f_equal. Qed.
Lemma removals_ok n es : calls_ok n (removals es).
Proof. apply Forall_fmap, Forall_true. done. Qed.

Ltac sys_unfold := unfold live, removing; cbn [pool calls held disk].

(** Steps that bring nothing in and touch no file. *)
Lemma quiet_flow s s' gone :
  live s' ⊎ removing s' ⊎ gone = live s ⊎ removing s → live s' ⊆ live s →
  counter (pool s) <= counter (pool s') → disk s' = disk s → flow s s' ∅ gone.
Proof.
  intros Ha Hl Hc Hd. split.
  - rewrite Ha. multiset_solver.
  - multiset_solver.
  - by left.
  - left. rewrite Hd. set_solver.
Qed.

Lemma counted_flow wp c h d p now x c' h' c'' extra_live :
  let path := poolPath (root wp p) (poolName now (counter wp + 1)) in
  in_calls call_live c = in_calls call_live c'' → in_calls call_removing c = in_calls call_removing c'' →
  in_calls call_live c' = in_calls call_live c'' ⊎ extra_live → in_calls call_removing c' = in_calls call_removing c'' →
  ms h' ⊎ extra_live = {[+ path +]} ⊎ ms h → x = path →
  flow {| pool := wp; calls := c; held := h; disk := d |} {| pool := bump wp; calls := c'; held := h'; disk := {[x]} ∪ d |}
       {[+ path +]} ∅.
Proof.
  cbv zeta. intros H1 H2 H3 H4 H5 ->. split.
  - sys_unfold. rewrite H1, H2, H3, H4. change (idle_paths (bump wp)) with (idle_paths wp). multiset_solver.
  - sys_unfold. rewrite H1, H3. change (idle_paths (bump wp)) with (idle_paths wp). multiset_solver.
  - right. by exists (root wp p), now.
  - left. cbn [disk]. f_equal. apply set_eq. intros y. rewrite gmultiset_elem_of_dom, elem_of_singleton. multiset_solver.
Qed.

Lemma wp_ok_set p l wp : wp_ok wp → Z.of_nat (length l) <= poolSize wp → wp_ok (set_idle p l wp).
Proof. intros [Hs Hr Hi] Hl. split; [done|done|]. intros q. cbn. by destruct (decide (q = p)). Qed.

Lemma wp_ok_get r wp p wp' : wp_ok wp → getOrCreateRepoPool r wp = (p, wp') → wp_ok wp'.
Proof.
  intros [Hs Hr Hi] E. destruct (getOrCreate_spec _ _ _ _ Hr E) as (_ & _ & _ & _ & Hz & _ & Hr' & Hid).
  split; [by rewrite Hz|done|]. intros q. rewrite Hz. destruct (Hid q) as [->| ->]; [done|cbn; lia].
Qed.

(** A call that starts: the pool is looked up and a call without worktrees is added. *)
Lemma start_flow wp c k h d r p wp' :
  pool_ok {| pool := wp; calls := c; held := h; disk := d |} → getOrCreateRepoPool r wp = (p, wp') →
  call_live k = [] → call_removing k = [] → call_pool k = Some p →
  pool_ok {| pool := wp'; calls := k :: c; held := h; disk := d |} ∧
  flow {| pool := wp; calls := c; held := h; disk := d |} {| pool := wp'; calls := k :: c; held := h; disk := d |} ∅ ∅.
Proof.
  intros [Hw Hc] E Hl Hr Hp.
  destruct (getOrCreate_spec _ _ _ _ (ok_repos _ Hw) E) as (Hi & Hlt & Hn & _ & _ & Hct & _).
  split; [split; [by eapply wp_ok_get|]|].
  - cbn [pool calls]. apply Forall_cons. rewrite Hp. split; [done|by eapply calls_ok_mono].
  - apply quiet_flow; sys_unfold; [| |by rewrite Hct|done];
      rewrite ?in_calls_cons, ?Hl, ?Hr, ?Hi, ?ms_nil; multiset_solver.
Qed.

Lemma bump_ok wp : wp_ok wp → wp_ok (bump wp).
Proof. by intros []. Qed.

(** A call that goes on without touching a worktree: it becomes [k]. *)
Lemma next_flow wp wp' c c' x k h d :
  pool_ok {| pool := wp; calls := c; held := h; disk := d |} → c ≡ₚ x :: c' → wp' = wp ∨ wp' = bump wp →
  ms (call_live x) ⊎ ms (call_removing x) = in_calls call_live k ⊎ in_calls call_removing k →
  in_calls call_live k ⊆ ms (call_live x) →
  (∀ p, call_pool x = Some p → (p < next wp)%nat → calls_ok (next wp) k) →
  (call_pool x = None → calls_ok (next wp) k) →
  pool_ok {| pool := wp'; calls := k ++ c'; held := h; disk := d |} ∧
  flow {| pool := wp; calls := c; held := h; disk := d |} {| pool := wp'; calls := k ++ c'; held := h; disk := d |} ∅ ∅.
Proof.
  intros [Hw Hc] H Hwp Hl Hr Hk Hk0. destruct (calls_ok_perm _ _ _ _ H Hc) as [Hp Hc'].
  assert (Hn : next wp' = next wp) by (by destruct Hwp as [-> | ->]).
  assert (Hi : idle_paths wp' = idle_paths wp) by (by destruct Hwp as [-> | ->]).
  assert (counter wp <= counter wp') by (destruct Hwp as [-> | ->]; cbn; lia).
  split; [split; [destruct Hwp as [-> | ->]; [done|by apply bump_ok]|]|].
  - cbn [pool calls] in *. rewrite Hn. apply Forall_app_2; [|done].
    change (calls_ok (next wp) k). destruct (call_pool x) as [q|]; [by apply (Hk q)|by apply Hk0].
  - apply quiet_flow; sys_unfold; [| |done|done]; rewrite !(in_calls_perm _ _ _ H), !in_calls_cons, !in_calls_app, ?Hi; [|multiset_solver].
    generalize dependent (ms (call_live x)). generalize (ms (call_removing x)). intros; multiset_solver.
Qed.

(** Entries leave a pool to be removed. *)
Lemma removal_flow wp wp' c c' x h d p es l :
  pool_ok {| pool := wp; calls := c; held := h; disk := d |} → c ≡ₚ x :: c' → call_pool x = Some p →
  call_live x = [] → call_removing x = [] → wp' = set_idle p l wp → (length l <= length (idle wp p))%nat →
  ((p < next wp)%nat → idle_paths wp = ms (Path <$> es) ⊎ idle_paths wp') →
  pool_ok {| pool := wp'; calls := removals es ++ c'; held := h; disk := d |} ∧
  flow {| pool := wp; calls := c; held := h; disk := d |} {| pool := wp'; calls := removals es ++ c'; held := h; disk := d |} ∅ ∅.
Proof.
  intros [Hw Hc] H Hx Hl Hr -> Hlen Hi. destruct (calls_ok_perm _ _ _ _ H Hc) as [Hp Hc']. rewrite Hx in Hp. cbn [pool calls] in *.
  specialize (Hi Hp). split; [split|].
  - apply wp_ok_set; [done|]. pose proof (ok_idle _ Hw p). lia.
  - apply Forall_app_2; [apply removals_ok|done].
  - apply quiet_flow; sys_unfold; [| |done|done];
      rewrite !(in_calls_perm _ _ _ H), !in_calls_cons, !in_calls_app, removals_live, ?removals_removing, Hl, ?Hr, Hi, ?ms_nil; multiset_solver.
Qed.

(** An entry goes into a pool, or is to be removed when it is full. *)
Lemma push_flow wp c c' x k h d p e kept wp' :
  pool_ok {| pool := wp; calls := c; held := h; disk := d |} → c ≡ₚ x :: c' → call_pool x = Some p →
  call_live x = [Path e] → call_removing x = [] → push_idle p e wp = (kept, wp') →
  in_calls call_live k = ∅ → in_calls call_removing k = ∅ → ((p < next wp)%nat → calls_ok (next wp) k) →
  let k' := (if kept then [] else [Removing (Path e)]) ++ k ++ c' in
  pool_ok {| pool := wp'; calls := k'; held := h; disk := d |} ∧
  flow {| pool := wp; calls := c; held := h; disk := d |} {| pool := wp'; calls := k'; held := h; disk := d |} ∅ ∅.
Proof.
  intros [Hw Hc] H Hx Hl Hr Hpush Hkl Hkr Hk. cbv zeta.
  destruct (calls_ok_perm _ _ _ _ H Hc) as [Hp Hc']. rewrite Hx in Hp. cbn [pool calls] in *.
  apply push_idle_spec in Hpush; [|done]. destruct kept; [destruct Hpush as (Hlt & -> & Hi)|subst wp'].
  - split; [split|]; cbn [pool calls app].
    + apply wp_ok_set; [done|]. rewrite length_app. cbn. lia.
    + apply Forall_app_2; [by apply Hk|done].
    + apply quiet_flow; sys_unfold; [| |done|done];
        rewrite !(in_calls_perm _ _ _ H), !in_calls_cons, !in_calls_app, Hl, ?Hr, Hi, Hkl, ?Hkr; ms_solve.
  - split; [split; [done|]|]; cbn [pool calls app].
    + apply Forall_cons. split; [done|]. apply Forall_app_2; [by apply Hk|done].
    + apply quiet_flow; sys_unfold; [| |done|done];
        rewrite !(in_calls_perm _ _ _ H), !in_calls_cons, !in_calls_app, Hl, ?Hr, Hkl, ?Hkr; cbn [call_live call_removing]; ms_solve.
Qed.

Definition flows (s s' : system) : Prop := pool_ok s' ∧ ∃ fresh gone, flow s s' fresh gone.

Section OneStep.
Variables (wp wp' : WorktreePool) (c c' : list call) (h h' : list string) (d : gset string) (p : nat).
Notation s0 := {| pool := wp; calls := c; held := h; disk := d |}.
Hypothesis Hok : pool_ok s0.

Lemma release_flows r path :
  h ≡ₚ path :: h' → getOrCreateRepoPool r wp = (p, wp') →
  flows s0 {| pool := wp'; calls := Cleaning p path :: c; held := h'; disk := d |}.
Proof.
  intros Hh E. destruct Hok as [Hw Hc].
  destruct (getOrCreate_spec _ _ _ _ (ok_repos _ Hw) E) as (Hi & Hlt & Hn & _ & _ & Hct & _).
  split; [split; [by eapply wp_ok_get|]|].
  - cbn [pool calls]. apply Forall_cons. split; [done|by eapply calls_ok_mono].
  - exists ∅, ∅. apply quiet_flow; sys_unfold; [| |by rewrite Hct|done];
      rewrite ?in_calls_cons, ?Hi, (ms_perm _ _ Hh); cbn [call_live call_removing]; ms_solve.
Qed.

Lemma forget_flows path k : h ≡ₚ path :: h' → k = [] ∨ k = [Removing path] →
  flows s0 {| pool := wp; calls := k ++ c; held := h'; disk := d |}.
Proof.
  intros Hh Hk. destruct Hok as [Hw Hc]. split; [split; [done|]|].
  - destruct Hk as [->| ->]; [done|by apply Forall_cons].
  - destruct Hk as [->| ->]; cbn [app]; [exists ∅, {[+ path +]}|exists ∅, ∅];
      (apply quiet_flow; sys_unfold; [| |done|done]; rewrite ?in_calls_cons, (ms_perm _ _ Hh); cbn [call_live call_removing]; ms_solve).
Qed.

Lemma spread_flows (k : nat → call) :
  (∀ q, call_pool (k q) = Some q) → (∀ q, call_live (k q) = []) → (∀ q, call_removing (k q) = []) →
  wp' = wp ∨ (close_pool wp).2 = wp' →
  flows s0 {| pool := wp'; calls := (k <$> (map_to_list (repos wp)).*2) ++ c; held := h; disk := d |}.
Proof.
  intros Hp Hl Hr Hwp. destruct Hok as [Hw Hc].
  assert (next wp' = next wp ∧ idle_paths wp' = idle_paths wp ∧ counter wp' = counter wp ∧ wp_ok wp') as (Hn & Hi & Hct & Hw').
  { destruct Hwp as [->|<-]; [done|]. split; [done|split; [done|split; [done|]]]. destruct Hw as [Hs Hr' Hid].
    split; [done| |done]. intros ? ? Hx. cbn in Hx. by rewrite lookup_empty in Hx. }
  split; [split; [done|]|].
  - cbn [pool calls]. rewrite Hn. apply Forall_app_2; [|done]. apply Forall_fmap, Forall_forall.
    intros q ([r q'] & -> & Hq)%list_elem_of_fmap. apply elem_of_map_to_list in Hq. cbn. rewrite Hp. by eapply ok_repos.
  - exists ∅, ∅. apply quiet_flow; sys_unfold; [| |by rewrite Hct|done]; rewrite !in_calls_app, ?Hi;
      rewrite ?(in_calls_none call_live (_ <$> _)), ?(in_calls_none call_removing (_ <$> _)) by (by intros ? (? & -> & _)%list_elem_of_fmap);
      multiset_solver.
Qed.

Lemma take_flows e :
  c ≡ₚ InAcquire p :: c' → pop_idle p wp = (Some e, wp') →
  flows s0 {| pool := wp'; calls := Resetting p e :: c'; held := h; disk := d |}.
Proof.
  intros H Hpop. destruct Hok as [Hw Hc]. destruct (calls_ok_perm _ _ _ _ H Hc) as [Hp Hc']. cbn [call_pool] in Hp.
  apply pop_idle_spec in Hpop as (-> & Hi & Hlen); [|done]. split; [split|].
  - apply wp_ok_set; [done|]. cbn in Hlen. rewrite decide_True in Hlen by done. pose proof (ok_idle _ Hw p). cbn [pool] in *. lia.
  - by apply Forall_cons.
  - exists ∅, ∅. apply quiet_flow; sys_unfold; [| |done|done]; rewrite !(in_calls_perm _ _ _ H), !in_calls_cons, Hi;
      cbn [call_live call_removing]; ms_solve.
Qed.

Lemma reset_flows e :
  c ≡ₚ Resetting p e :: c' → flows s0 {| pool := wp; calls := c'; held := Path e :: h; disk := d |}.
Proof.
  intros H. destruct Hok as [Hw Hc]. destruct (calls_ok_perm _ _ _ _ H Hc) as [_ Hc']. split; [done|].
  exists ∅, ∅. apply quiet_flow; sys_unfold; [| |done|done]; rewrite !(in_calls_perm _ _ _ H), !in_calls_cons;
    cbn [call_live call_removing]; ms_solve.
Qed.

(** A worktree that is to be removed, or cannot be reset, leaves the disk. *)
Lemma vanish_flows x k path :
  c ≡ₚ x :: c' → k = [] ∨ (∃ q, call_pool x = Some q ∧ k = [Creating q]) →
  (call_live x = [path] ∧ call_removing x = [] ∨ call_live x = [] ∧ call_removing x = [path]) →
  flows s0 {| pool := wp; calls := k ++ c'; held := h; disk := d ∖ {[path]} |}.
Proof.
  intros H Hk Hx. destruct Hok as [Hw Hc]. destruct (calls_ok_perm _ _ _ _ H Hc) as [Hp Hc']. split; [split; [done|]|].
  { destruct Hk as [->|(q & Hq & ->)]; [done|]. rewrite Hq in Hp. by apply Forall_cons. }
  assert (in_calls call_live k = ∅ ∧ in_calls call_removing k = ∅) as [Hkl Hkr] by (by destruct Hk as [->|(q & _ & ->)]).
  exists ∅, {[+ path +]}. destruct Hx as [(Hl & Hr)|(Hl & Hr)]; (split;
    [sys_unfold; rewrite !(in_calls_perm _ _ _ H), !in_calls_cons, !in_calls_app, Hl, Hr, Hkl, Hkr; ms_solve
    |sys_unfold; rewrite !(in_calls_perm _ _ _ H), !in_calls_cons, !in_calls_app, Hl, Hkl; ms_solve|by left|]);
    right; exists path; (split; [done|split; [done|]]); sys_unfold; rewrite !(in_calls_perm _ _ _ H), !in_calls_cons, ?Hl, ?Hr; [right|left].
  - ms_solve.
  - ms_solve.
Qed.

Lemma create_flows x k now path :
  c ≡ₚ x :: c' → call_pool x = Some p → call_live x = [] → call_removing x = [] →
  path = poolPath (root wp p) (poolName now (counter wp + 1)) →
  (k = [] ∧ h' = path :: h ∨ ∃ n e, k = [Stocking p n e] ∧ Path e = path ∧ h' = h) →
  flows s0 {| pool := bump wp; calls := k ++ c'; held := h'; disk := {[path]} ∪ d |}.
Proof.
  intros H Hx Hl Hr Hpath Hk. destruct Hok as [Hw Hc]. destruct (calls_ok_perm _ _ _ _ H Hc) as [Hp Hc']. rewrite Hx in Hp.
  split; [split; [by apply bump_ok|]|].
  - cbn [pool calls]. destruct Hk as [[-> _]|(n & e & -> & _)]; [done|by apply Forall_cons].
  - exists {[+ path +]}, ∅. rewrite Hpath. destruct Hk as [[-> Hh]|(n & e & -> & He & Hh)];
      [eapply (counted_flow wp c h d p now _ _ _ c' ∅)|eapply (counted_flow wp c h d p now _ _ _ c' {[+ path +]})];
      try done; try (rewrite (in_calls_perm _ _ _ H), in_calls_cons, ?Hl, ?Hr; ms_solve);
      try (rewrite ?in_calls_app, ?in_calls_cons; cbn [call_live call_removing]; rewrite ?He; ms_solve);
      rewrite Hh; try ms_solve; rewrite Hpath; ms_solve.
Qed.
End OneStep.

Lemma start_flows wp c k h d r p wp' :
  pool_ok {| pool := wp; calls := c; held := h; disk := d |} → getOrCreateRepoPool r wp = (p, wp') →
  call_live k = [] → call_removing k = [] → call_pool k = Some p →
  flows {| pool := wp; calls := c; held := h; disk := d |} {| pool := wp'; calls := k :: c; held := h; disk := d |}.
Proof. intros. edestruct start_flow as [A B]; eauto. split; [exact A|by eexists _, _]. Qed.

Lemma onward wp wp' c c' x k h d :
  pool_ok {| pool := wp; calls := c; held := h; disk := d |} → c ≡ₚ x :: c' → wp' = wp ∨ wp' = bump wp →
  ms (call_live x) ⊎ ms (call_removing x) = in_calls call_live k ⊎ in_calls call_removing k →
  in_calls call_live k ⊆ ms (call_live x) →
  (∀ p, call_pool x = Some p → (p < next wp)%nat → calls_ok (next wp) k) → call_pool x ≠ None →
  flows {| pool := wp; calls := c; held := h; disk := d |} {| pool := wp'; calls := k ++ c'; held := h; disk := d |}.
Proof. intros. edestruct next_flow as [A B]; eauto; [done|]. split; [exact A|by eexists _, _]. Qed.

(** Every step keeps the pool well formed and moves worktrees as [flow] says. *)
Lemma step_flow s s' : pool_ok s → step s s' → flows s s'.
Proof.
  intros Hok Hs. destruct Hs as
    [wp c h d r p wp' Hcl E|wp c h h' d r p wp' path Hcl Hne Hh E|wp c h h' d path Hcl Hne Hh|wp c h h' d path Hcl Hh
    |wp c h d r p wp' count Hcl E|wp c h d r p wp' Hcl E|wp c h d now older Hcl|wp c h d ps wp' Hcl E
    |wp c c' h d p e wp' H E|wp c c' h d p wp' H E|wp c c' h d p e H Hd|wp c c' h d p e H|wp c c' h d p now H path
    |wp c c' h d p H|wp c c' h d p path H Hd|wp c c' h d p path H|wp c c' h d p path branch now kept wp' H E
    |wp c c' h d p need now now' H name path|wp c c' h d p need e kept wp' H E|wp c c' h d p need H|wp c c' h d p need H
    |wp c c' h d p es wp' H E|wp c c' h d p cutoff es wp' H E|wp c c' h d path H].
  all: try (by eapply start_flows).
  - by eapply release_flows.
  - by apply (forget_flows wp c h h' d Hok path [Removing path]); [|right].
  - by apply (forget_flows wp c h h' d Hok path []); [|left].
  - by apply (spread_flows wp wp c h d Hok (λ p, Sweeping p _)); try done; left.
  - pose proof (f_equal snd E) as Ep. injection E as <- <-. by apply (spread_flows wp _ c h d Hok Draining); try done; right.
  - by eapply take_flows.
  - assert (wp' = wp) as -> by (unfold pop_idle in E; destruct (last _); by injection E).
    apply (onward wp wp c c' (InAcquire p) [Creating p] h d Hok H); try done; [by left|]. by intros ? [= <-] ?; apply Forall_cons.
  - by eapply reset_flows.
  - apply (vanish_flows wp c c' h d Hok (Resetting p e) [Creating p] (Path e)); [done|right; by exists p|by left].
  - apply (create_flows wp c c' h _ d p Hok (Creating p) [] now path); try done. by left.
  - apply (onward wp _ c c' (Creating p) [] h d Hok H); try done; [by right|intros; constructor].
  - apply (onward wp wp c c' (Cleaning p path) [Returning p path] h d Hok H); try done; [by left|]. by intros ? [= <-] ?; apply Forall_cons.
  - apply (onward wp wp c c' (Cleaning p path) [Removing path] h d Hok H); try done; [by left|multiset_solver|]. by intros ? [= <-] ?; apply Forall_cons.
  - edestruct (push_flow wp c c' (Returning p path) [] h d p {| Path := path; Branch := branch; CreatedAt := now |} kept wp' Hok H) as [A B]; try done; [constructor|].
    split; [exact A|by eexists _, _].
  - by eapply (create_flows wp c c' h h d p Hok (Warming p (S need)) [Stocking p need _] now path); try done; right; eexists _, _.
  - edestruct (push_flow wp c c' (Stocking p need e) [Warming p need] h d p e kept wp' Hok H) as [A B]; try done; [by intros; apply Forall_cons|].
    split; [exact A|by eexists _, _].
  - apply (onward wp _ c c' (Warming p (S need)) [Warming p need] h d Hok H); try done; [by right|]. by intros ? [= <-] ?; apply Forall_cons.
  - apply (onward wp wp c c' (Warming p need) [] h d Hok H); try done; [by left|intros; constructor].
  - injection E as <- <-. edestruct (removal_flow wp (set_idle p [] wp) c c' (Draining p) h d p (idle wp p) [] Hok H) as [A B]; try done.
    { cbn. lia. } { intros Hp. by apply idle_paths_take. }
    split; [exact A|by eexists _, _].
  - pose proof E as E'. injection E' as <- <-.
    edestruct (removal_flow wp (split_stale cutoff p wp).2 c c' (Sweeping p cutoff) h d p (split_stale cutoff p wp).1
      (filter (λ e, is_stale cutoff e = false) (idle wp p)) Hok H) as [A B]; try done.
    { apply length_filter. } { intros Hp. by eapply split_stale_spec. }
    split; [exact A|by eexists _, _].
  - apply (vanish_flows wp c c' h d Hok (Removing path) [] path); [done|by left|by right].
Qed.

(** ** Names are never used twice *)
Definition chars (s : string) : list Ascii.ascii := String.list_ascii_of_string s.
Lemma chars_app s t : chars (s +:+ t) = chars s ++ chars t.
Proof. induction s as [|a s IH]; [done|]. cbn. f_equal. exact IH. Qed.
Lemma chars_inj s t : chars s = chars t → s = t.
Proof. intros H. rewrite <- (String.string_of_list_ascii_of_string s), <- (String.string_of_list_ascii_of_string t). by f_equal. Qed.

Definition dash : Ascii.ascii := Ascii.ascii_of_nat 45.
Lemma itoa_dash z : 0 <= z → dash ∉ chars (itoa z).
Proof. apply lacks_itoa_nonneg. unfold lacks. apply (bool_decide_unpack _). by vm_compute. Qed.

Lemma last_dash (l1 l2 d1 d2 : list Ascii.ascii) :
  l1 ++ dash :: d1 = l2 ++ dash :: d2 → dash ∉ d1 → dash ∉ d2 → d1 = d2.
Proof.
  revert l2. induction l1 as [|a l1 IH]; intros [|b l2] H H1 H2; cbn in H; simplify_eq; [done| | |by eapply IH].
  - destruct H1. apply elem_of_app. right. left.
  - destruct H2. apply elem_of_app. right. left.
Qed.

Lemma poolPath_seq r r' now now' seq seq' :
  0 <= seq → 0 <= seq' → poolPath r (poolName now seq) = poolPath r' (poolName now' seq') → seq = seq'.
Proof.
  intros Hs Hs' H. apply (f_equal chars) in H. unfold poolPath, poolName in H.
  rewrite !chars_app in H. change (chars "-") with [dash] in H.
  rewrite !(assoc_L (++)) in H. rewrite <- !(assoc_L (++) _ [dash]) in H. cbn [app] in H.
  apply last_dash in H; [|by apply itoa_dash..]. apply chars_inj in H. unfold itoa in H. by apply (inj pretty) in H.
Qed.

(** ** The invariant *)
Definition named (n : Z) (x : string) : Prop := ∃ r now seq, x = poolPath r (poolName now seq) ∧ 1 <= seq <= n.

Record pool_inv (s : system) : Prop := {
  inv_ok : pool_ok s;
  inv_once : ∀ x, (multiplicity x (live s ⊎ removing s) <= 1)%nat;
  inv_named : ∀ x, x ∈ live s ⊎ removing s → named (counter (pool s)) x;
  inv_count : 0 <= counter (pool s);
  inv_disk : ∀ x, x ∈ live s → x ∈ disk s
}.

Lemma NewPool_inv size : pool_inv (start size).
Proof.
  assert (live (start size) = ∅ ∧ removing (start size) = ∅) as [Hl Hr] by done.
  split; [|intros x; rewrite Hl, Hr; multiset_solver|intros x; rewrite Hl, Hr; multiset_solver|done|intros x; rewrite Hl; multiset_solver].
  split; [|constructor]. split; cbn.
  - destruct (Z.leb_spec size 0); unfold DefaultPoolSize; lia.
  - intros r q Hx. by rewrite lookup_empty in Hx.
  - destruct (Z.leb_spec size 0); unfold DefaultPoolSize; lia.
Qed.

Lemma step_inv s s' : pool_inv s → step s s' → pool_inv s'.
Proof.
  intros [Hok Ho Hn Hc Hd] Hs. destruct (step_flow _ _ Hok Hs) as (Hok' & fresh & gone & [Ha Hl Hf Hdk]).
  assert (Hfresh : ∀ x, x ∈ fresh → multiplicity x fresh = 1%nat ∧ multiplicity x (live s ⊎ removing s) = 0%nat ∧ named (counter (pool s')) x).
  { intros x Hx. destruct Hf as [[-> _]|(r & now & -> & Ec)]; [by apply gmultiset_not_elem_of_empty in Hx|].
    apply gmultiset_elem_of_singleton in Hx as ->. rewrite multiplicity_singleton_eq.
    split; [done|]. split; [|exists r, now, (counter (pool s) + 1); split; [done|lia]].
    apply not_elem_of_multiplicity. intros Hin.
    apply Hn in Hin as (r' & now' & seq & E & Hseq). apply poolPath_seq in E; lia. }
  assert (Hle : ∀ x, (multiplicity x (live s' ⊎ removing s') <= multiplicity x fresh + multiplicity x (live s ⊎ removing s))%nat).
  { intros x. rewrite <- multiplicity_disj_union, (assoc_L (⊎)), <- Ha. rewrite !multiplicity_disj_union. lia. }
  assert (counter (pool s) <= counter (pool s')) by (destruct Hf as [[_ ?]|(? & ? & _ & ?)]; lia).
  split; [done| | |lia|].
  - intros x. specialize (Hle x). specialize (Ho x). destruct (decide (x ∈ fresh)) as [Hx|Hx].
    + destruct (Hfresh x Hx) as (A & B & _). lia.
    + apply not_elem_of_multiplicity in Hx. lia.
  - intros x Hx. destruct (decide (x ∈ fresh)) as [Hf'|Hf']; [by apply Hfresh|].
    assert (x ∈ live s ⊎ removing s) as Hin.
    { specialize (Hle x). rewrite elem_of_multiplicity in Hx. apply not_elem_of_multiplicity in Hf'. apply elem_of_multiplicity.
      lia. }
    apply Hn in Hin as (r & now & seq & E & Hseq). exists r, now, seq. split; [done|lia].
  - intros x Hx. apply (gmultiset_elem_of_subseteq _ _ _ Hx) in Hl as Hin.
    apply gmultiset_elem_of_disj_union in Hin.
    destruct Hdk as [-> |(y & -> & -> & Hy)]; [rewrite elem_of_union, gmultiset_elem_of_dom; naive_solver|].
    destruct Hin as [Hin|Hxl]; [by apply gmultiset_not_elem_of_empty in Hin|]. apply elem_of_difference. split; [by apply Hd|].
    intros ->%elem_of_singleton. specialize (Ho y). destruct Hy as [Hy|Hy].
    + rewrite multiplicity_disj_union in Ho. rewrite elem_of_multiplicity in Hy. rewrite elem_of_multiplicity in Hxl. lia.
    + apply (f_equal (multiplicity y)) in Ha. rewrite !multiplicity_disj_union, multiplicity_empty in Ha.
      rewrite multiplicity_disj_union in Ho. rewrite elem_of_multiplicity in Hy. rewrite elem_of_multiplicity in Hx. lia.
Qed.

(** C34.  The worktree pool, whatever the interleaving of acquisitions, releases, warm-ups, drains,
    cleanups and a close, as long as callers give back what they hold and once: no worktree is
    ever in two hands, or in a hand and in the pool, or in the pool twice; every worktree that
    is held or pooled is still on disk; and no repository keeps more idle worktrees than the
    pool's size. *)
Theorem worktrees_are_exclusive (size : Z) (s : system) :
  rtc step (start size) s →
  NoDup (held s) ∧ (∀ x, x ∈ held s → x ∉ idle_paths (pool s) ∧ x ∉ removing s ∧ x ∈ disk s) ∧
  (∀ x, (multiplicity x (idle_paths (pool s)) <= 1)%nat) ∧
  (∀ x, x ∈ idle_paths (pool s) → x ∈ disk s) ∧
  ∀ p, Z.of_nat (length (idle (pool s) p)) <= poolSize (pool s).
Proof.
  intros Hs. assert (pool_inv s) as [[Hw _] Ho _ _ Hd].
  { generalize (NewPool_inv size). induction Hs; eauto using step_inv. }
  assert (Hlive : ∀ x, multiplicity x (live s) = (multiplicity x (ms (held s)) +
    multiplicity x (in_calls call_live (calls s)) + multiplicity x (idle_paths (pool s)))%nat).
  { intros x. unfold live. rewrite !multiplicity_disj_union. lia. }
  assert (Hheld : ∀ x, x ∈ held s ↔ (0 < multiplicity x (ms (held s)))%nat).
  { intros x. by rewrite <- elem_of_multiplicity, elem_of_ms. }
  split; [|split; [|split; [|split]]].
  - assert (∀ l, (∀ x, (multiplicity x (ms l) <= 1)%nat) → NoDup l) as H.
    { induction l as [|y l IH]; intros Hm; constructor.
      - intros Hin. specialize (Hm y). rewrite ms_cons, multiplicity_disj_union, multiplicity_singleton in Hm.
        rewrite <- elem_of_ms, elem_of_multiplicity in Hin. destruct (decide (y = y)); [lia|done].
      - apply IH. intros x. specialize (Hm x). rewrite ms_cons, multiplicity_disj_union in Hm. lia. }
    apply H. intros x. specialize (Ho x). rewrite multiplicity_disj_union, Hlive in Ho. lia.
  - intros x Hx%Hheld. specialize (Ho x). rewrite multiplicity_disj_union, Hlive in Ho.
    rewrite !elem_of_multiplicity. split; [lia|split; [lia|]]. apply Hd, elem_of_multiplicity. rewrite Hlive. lia.
  - intros x. specialize (Ho x). rewrite multiplicity_disj_union, Hlive in Ho. lia.
  - intros x Hx. rewrite elem_of_multiplicity in Hx. apply Hd, elem_of_multiplicity. rewrite Hlive. lia.
  - intros p. by apply ok_idle.
Qed.

(** ** Where the code falls short *)

(** Nothing checks that a worktree given back was held: one released twice sits twice in the
    pool, and the next two callers share it. *)
Lemma double_release_shares :
  let e := {| Path := "/repo/w"; Branch := "b"; CreatedAt := 0 |} in
  let '(p, wp) := getOrCreateRepoPool "/repo" (NewPool 0) in
  let wp := (push_idle p e (push_idle p e wp).2).2 in
  let '(first, wp) := pop_idle p wp in
  first = Some e ∧ (pop_idle p wp).1 = Some e.
Proof. done. Qed.

(** A release that started before the pool was closed puts its worktree into a pool that nobody
    can reach any more: everything is over, and the worktree stays on disk. *)
Definition lost : string := poolPath "/repo" (poolName 0 1).
Lemma closing_leaks_late_release :
  ∃ s, rtc step (start 4) s ∧ closed (pool s) = true ∧ repos (pool s) = ∅ ∧ calls s = [] ∧ held s = [] ∧ lost ∈ disk s.
Proof.
  eexists. split.
  - eapply rtc_l; [eapply (do_acquire _ _ _ _ "/repo"); reflexivity|].
    eapply rtc_l; [eapply acquire_none; reflexivity|].
    eapply rtc_l; [eapply (acquire_create _ _ [] _ _ _ 0); reflexivity|].
    eapply rtc_l; [eapply (do_release _ _ _ [] _ "/repo" _ _ lost); [done|done|reflexivity|reflexivity]|].
    eapply rtc_l; [eapply do_close; reflexivity|].
    eapply rtc_l; [eapply (drain _ _ [Cleaning 0 lost] _ _ 0); [apply (reflexivity (R := (≡ₚ)) [Draining 0; Cleaning 0 lost])|reflexivity]|].
    eapply rtc_l; [eapply (release_clean _ _ [] _ _ 0 lost); [reflexivity|set_solver]|].
    eapply rtc_l; [eapply (release_push _ _ [] _ _ 0 lost "b" 0); reflexivity|]. apply rtc_refl.
  - cbn [pool calls held disk closed repos]. split_and!; reflexivity.
Qed.

(** ** A witness: two callers take a worktree each. *)
Definition two_held : list string := [poolPath "/repo" (poolName 0 2); poolPath "/repo" (poolName 0 1)].
Lemma worktrees_are_exclusive_witness : ∃ s, rtc step (start 4) s ∧ held s = two_held ∧ NoDup (held s).
Proof.
  assert (∃ s, rtc step (start 4) s ∧ held s = two_held) as (s & Hs & Hh).
  { eexists. split.
    - eapply rtc_l; [eapply (do_acquire _ _ _ _ "/repo"); reflexivity|].
      eapply rtc_l; [eapply acquire_none; reflexivity|].
      eapply rtc_l; [eapply (acquire_create _ _ [] _ _ _ 0); reflexivity|].
      eapply rtc_l; [eapply (do_acquire _ _ _ _ "/repo"); reflexivity|].
      eapply rtc_l; [eapply acquire_none; reflexivity|].
      eapply rtc_l; [eapply (acquire_create _ _ [] _ _ _ 0); reflexivity|]. apply rtc_refl.
    - reflexivity. }
  exists s. split; [done|split; [done|]]. apply (worktrees_are_exclusive 4 s Hs).
Defined.
