(* ===== verification/Federation.v ===== *)
(** Federation (src/gateway/federation.go): a gateway that discovers the tools of its peers,
    registers a proxy for each under the peer's namespace, and keeps the register in step with
    what the peers advertise. *)

From stdpp Require Import base tactics list gmap strings sorting.
From Stdlib Require Import ZArith Lia.
From S2P Require Import Prelude Tool Truncate Registry Gateway.

Local Open Scope Z_scope.

(** ** Configuration and peers *)
Record ToolInfo := { ti_Name : string; ti_Description : string; Peer : string }.
Record FederationConfig := { Peers : list string; DiscoveryInterval : duration; Namespace : bool; AuthToken : string }.
Definition fed_applyDefaults (c : FederationConfig) : FederationConfig := {|
  Peers := Peers c; DiscoveryInterval := if DiscoveryInterval c =? 0 then 60 * Second else DiscoveryInterval c;
  Namespace := Namespace c; AuthToken := AuthToken c |}.

Record peerState := { ps_client : option nat; ps_tools : list ToolInfo; lastSeen : time; ps_healthy : bool }.
Definition new_peer : peerState := {| ps_client := None; ps_tools := []; lastSeen := time_zero; ps_healthy := false |}.
Notation PeerTable := (gmap string peerState).

(** ** Names, on ASCII text *)
Fixpoint until_slash (s : string) : string :=
  match s with
  | EmptyString => EmptyString
  | String a s' => if bool_decide (Ascii.nat_of_ascii a = 47%nat) then EmptyString else String a (until_slash s')
  end.
Definition namespace_byte (a : Ascii.ascii) : Ascii.ascii :=
  let n := Ascii.nat_of_ascii a in
  if ((97 <=? n) && (n <=? 122) || (65 <=? n) && (n <=? 90) || (48 <=? n) && (n <=? 57) || (n =? 95))%nat
  then a else Ascii.ascii_of_nat 95.
Fixpoint string_map (f : Ascii.ascii → Ascii.ascii) (s : string) : string :=
  match s with EmptyString => EmptyString | String a s' => String (f a) (string_map f s') end.
Definition peerNamespace (endpoint : string) : string :=
  string_map namespace_byte (until_slash (trim_prefix (trim_prefix endpoint "https://") "http://")).

Section Federation.
Context {Ctx Req W : Type} `{!Cell W PeerTable}.
Variable now : W → time.
Variable ExtractArguments : Req → list (string * json).
(** The connections, and whether the discovery's context is done. *)
Variable newUpstreamClient : string → W → (error + nat) * W.
Variable listTools : nat → W → (error + list Tool) * W.
Variable callTool : nat → Ctx → string → list (string * json) → W → (error + option CallToolResult) * W.
Variable close : nat → W → option error * W.
Variable ctx_done : W → bool.
Variable config : FederationConfig.

Local Notation TD := (ToolDefinition (ToolHandlerFunc Ctx Req W)).

Definition federatedToolName (endpoint toolName : string) : string :=
  if Namespace config then peerNamespace endpoint +:+ "/" +:+ toolName else toolName.

Definition put_peer (endpoint : string) (ps : peerState) (w : W) : W := poke (<[endpoint := ps]> (peek w : PeerTable)) w.
Definition getOrCreatePeer (endpoint : string) (w : W) : peerState * W :=
  match (peek w : PeerTable) !! endpoint with
  | Some ps => (ps, w)
  | None => (new_peer, put_peer endpoint new_peer w)
  end.

Definition makePeerProxyHandler (endpoint originalToolName : string) : ToolHandlerFunc Ctx Req W :=
  λ ctx request w,
    let '(ps, w) := getOrCreatePeer endpoint w in
    match ps_client ps with
    | Some c =>
        if ps_healthy ps then
          match callTool c ctx originalToolName (ExtractArguments request) w with
          | (inl err, w) =>
              (answer_error ("federation peer " +:+ quote endpoint +:+ " call failed: " +:+ error_text err), w)
          | (inr result, w) => (Returns result None, w)
          end
        else (answer_error ("federation peer " +:+ quote endpoint +:+ " is unavailable"), w)
    | None => (answer_error ("federation peer " +:+ quote endpoint +:+ " is unavailable"), w)
    end.

Definition peer_definition (endpoint : string) (tool : Tool) (original : string) : TD :=
  {| td_Tool := rename (federatedToolName endpoint original) tool; Handler := makePeerProxyHandler endpoint original;
     Category := ""; Subcategory := ""; Tags := []; SearchTerms := []; Complexity := ""; IsWrite := false; Deprecated := false;
     td_Timeout := 0; CircuitBreakerGroup := ""; RuntimeGroup := ""; OutputSchema := None; MaxResultChars := 0;
     DeferLoading := false; AlwaysLoad := false; SkipRequiresUserInteraction := false; DestructiveOverride := None;
     IdempotentOverride := None; ReadOnlyOverride := None |}.

(** ** Bringing the register up to date with one peer's list *)
Definition tool_info (endpoint : string) (t : Tool) : ToolInfo :=
  {| ti_Name := Name t; ti_Description := Description t; Peer := endpoint |}.
Definition fed_names (endpoint : string) (infos : list ToolInfo) : list string :=
  (λ ti, federatedToolName endpoint (ti_Name ti)) <$> infos.

Definition drop_names (old new_ : list string) (reg : DynamicRegistry Ctx Req W) : DynamicRegistry Ctx Req W :=
  foldl (λ reg name, (RemoveTool reg name).2) reg (filter (λ n, n ∉ new_) (remove_dups old)).

Definition add_info (endpoint : string) (tools : list Tool) (old : list string) (reg : DynamicRegistry Ctx Req W)
    (ti : ToolInfo) : DynamicRegistry Ctx Req W :=
  if bool_decide (federatedToolName endpoint (ti_Name ti) ∈ old) then reg
  else match list_find (λ t, Name t = ti_Name ti) tools with
       | Some (_, tool) => AddTool reg (peer_definition endpoint tool (ti_Name ti))
       | None => reg
       end.

Definition sync_tools (endpoint : string) (tools : list Tool) (old : list ToolInfo) (reg : DynamicRegistry Ctx Req W) :
    DynamicRegistry Ctx Req W :=
  let infos := tool_info endpoint <$> tools in
  foldl (add_info endpoint tools (fed_names endpoint old))
    (drop_names (fed_names endpoint old) (fed_names endpoint infos) reg) infos.

(** ** Discovery *)
Definition refresh_peer (endpoint : string) (c : nat) (ps : peerState) (reg : DynamicRegistry Ctx Req W) (w : W) :
    DynamicRegistry Ctx Req W * W :=
  match listTools c w with
  | (inl err, w) =>
      let w := (close c w).2 in
      (reg, put_peer endpoint {| ps_client := None; ps_tools := ps_tools ps; lastSeen := lastSeen ps; ps_healthy := false |} w)
  | (inr tools, w) =>
      (sync_tools endpoint tools (ps_tools ps) reg,
       put_peer endpoint {| ps_client := Some c; ps_tools := tool_info endpoint <$> tools; lastSeen := now w; ps_healthy := true |} w)
  end.

Definition discoverPeer (endpoint : string) (reg : DynamicRegistry Ctx Req W) (w : W) : DynamicRegistry Ctx Req W * W :=
  let '(ps, w) := getOrCreatePeer endpoint w in
  match ps_client ps with
  | Some c => refresh_peer endpoint c ps reg w
  | None =>
      match newUpstreamClient endpoint w with
      | (inl err, w) =>
          (reg, put_peer endpoint {| ps_client := None; ps_tools := ps_tools ps; lastSeen := lastSeen ps; ps_healthy := false |} w)
      | (inr c, w) => refresh_peer endpoint c ps reg w
      end
  end.

Fixpoint discover_list (endpoints : list string) (reg : DynamicRegistry Ctx Req W) (w : W) : DynamicRegistry Ctx Req W * W :=
  match endpoints with
  | [] => (reg, w)
  | e :: es => if ctx_done w then (reg, w) else let '(reg, w) := discoverPeer e reg w in discover_list es reg w
  end.
Definition discoverAll (reg : DynamicRegistry Ctx Req W) (w : W) : DynamicRegistry Ctx Req W * W :=
  discover_list (Peers config) reg w.

(** ** Queries; [walk] is the order of a walk over the peers *)
Definition AllTools (walk : list (string * peerState)) : list ToolInfo :=
  concat ((λ p : string * peerState, if ps_healthy p.2 then ps_tools p.2 else []) <$> walk).
Definition owns (toolName : string) (p : string * peerState) : Prop := toolName ∈ fed_names p.1 (ps_tools p.2).
#[export] Instance owns_dec toolName p : Decision (owns toolName p).
Proof. unfold owns. apply _. Defined.
Definition RouteCall (walk : list (string * peerState)) (toolName : string) : error + (string * peerState) :=
  match list_find (owns toolName) walk with
  | Some (_, p) => inr p
  | None => inl (Err ("federation: no peer owns tool " +:+ quote toolName))
  end.

(** Stop, once the loop is over: every connection is closed; the last error is kept. *)
Definition stop_step (acc : option error * W) (p : string * peerState) : option error * W :=
  match ps_client p.2 with
  | None => acc
  | Some c =>
      let '(err, w) := close c acc.2 in
      (match err with Some e => Some e | None => acc.1 end,
       put_peer p.1 {| ps_client := None; ps_tools := ps_tools p.2; lastSeen := lastSeen p.2; ps_healthy := ps_healthy p.2 |} w)
  end.
Definition Stop (walk : list (string * peerState)) (w : W) : option error * W := foldl stop_step (None, w) walk.
End Federation.

(** ** Names *)
Definition no_slash (s : string) : Prop := lacks (Ascii.ascii_of_nat 47) s.

Lemma peerNamespace_no_slash e : no_slash (peerNamespace e).
Proof.
  unfold peerNamespace, no_slash, lacks. generalize (until_slash (trim_prefix (trim_prefix e "https://") "http://")) as s.
  induction s as [|a s IH]; [apply not_elem_of_nil|]. cbn. apply not_elem_of_cons. split; [|done].
  unfold namespace_byte. destruct (_ || _)%nat eqn:E; [|done].
  intros <-. by vm_compute in E.
Qed.

Lemma slash_inj n n' t t' : no_slash n → no_slash n' → n +:+ "/" +:+ t = n' +:+ "/" +:+ t' → n = n' ∧ t = t'.
Proof.
  unfold no_slash, lacks. revert n'. induction n as [|a n IH]; intros [|b n'] Hn Hn' E; cbn in *.
  - by injection E.
  - injection E as Eb E. destruct Hn'. rewrite <- Eb. left.
  - injection E as Eb E. destruct Hn. rewrite Eb. left.
  - injection E as <- E. apply not_elem_of_cons in Hn as [_ Hn], Hn' as [_ Hn'].
    destruct (IH n' Hn Hn' E) as [-> ->]. done.
Qed.

(** ** The register follows the peers *)
Section FederationFacts.
Context {Ctx Req W : Type} `{!Cell W PeerTable} `{!CellLaws W PeerTable}.
Context (now : W → time) (ExtractArguments : Req → list (string * json))
  (newUpstreamClient : string → W → (error + nat) * W) (listTools : nat → W → (error + list Tool) * W)
  (callTool : nat → Ctx → string → list (string * json) → W → (error + option CallToolResult) * W)
  (close : nat → W → option error * W) (ctx_done : W → bool) (config : FederationConfig).
(** Connecting, listing and closing do not touch the federation's own table. *)
Hypothesis connect_keeps : ∀ url w, (peek (newUpstreamClient url w).2 : PeerTable) = peek w.
Hypothesis list_keeps : ∀ c w, (peek (listTools c w).2 : PeerTable) = peek w.
Hypothesis close_keeps : ∀ c w, (peek (close c w).2 : PeerTable) = peek w.
(** Peers are told apart by their namespaces. *)
Hypothesis namespaced : Namespace config = true.
Hypothesis distinct : ∀ e e', e ∈ Peers config → e' ∈ Peers config → peerNamespace e = peerNamespace e' → e = e'.

Local Notation Reg := (DynamicRegistry Ctx Req W).
Local Notation fed_name := (federatedToolName config).
Local Notation proxy := (makePeerProxyHandler (Ctx := Ctx) (Req := Req) (W := W) ExtractArguments callTool).
Local Notation peer_definition := (peer_definition ExtractArguments callTool config).
Local Notation sync_tools := (sync_tools ExtractArguments callTool config).
Local Notation add_info := (add_info ExtractArguments callTool config).
Local Notation discoverPeer := (discoverPeer now ExtractArguments newUpstreamClient listTools callTool close config).
Local Notation published r := (Registry.tools (d_reg (r : Reg))).

Lemma fed_name_inj e e' t t' :
  e ∈ Peers config → e' ∈ Peers config → fed_name e t = fed_name e' t' → e = e' ∧ t = t'.
Proof.
  intros He He'. unfold federatedToolName. rewrite namespaced. intros H.
  apply slash_inj in H as [H ->]; [|apply peerNamespace_no_slash..]. split; [by apply distinct|done].
Qed.

Lemma published_remove (r : Reg) n m :
  published (RemoveTool r n).2 !! m = if decide (m = n) then None else published r !! m.
Proof.
  assert (published (RemoveTool r n).2 = delete n (published r)) as ->.
  { unfold RemoveTool. destruct (published r !! n) eqn:E; [done|]. symmetry. by apply delete_id. }
  destruct (decide (m = n)) as [->|]; [apply lookup_delete_eq|by apply lookup_delete_ne].
Qed.

Lemma published_add (r : Reg) e tool n m :
  published (AddTool r (peer_definition e tool n)) !! m =
  if decide (m = fed_name e n)
  then Some (complete_definition (RuntimeGroupMapper (Registry.config (d_reg r))) (peer_definition e tool n))
  else published r !! m.
Proof.
  assert (E : published (AddTool r (peer_definition e tool n)) = <[fed_name e n :=
    complete_definition (RuntimeGroupMapper (Registry.config (d_reg r))) (peer_definition e tool n)]> (published r)).
  { cbn -[complete_definition]. unfold tool_name. by rewrite complete_definition_name. }
  rewrite E. case_decide; [subst; apply lookup_insert_eq|by rewrite lookup_insert_ne].
Qed.

Lemma published_drop (r : Reg) ns m :
  published (foldl (λ (reg : Reg) name, (RemoveTool reg name).2) r ns) !! m = if decide (m ∈ ns) then None else published r !! m.
Proof.
  revert r. induction ns as [|n ns IH]; intros r; [by rewrite decide_False by apply not_elem_of_nil|].
  cbn [foldl]. rewrite IH, published_remove. destruct (decide (m ∈ ns)) as [H|H].
  - by rewrite (decide_True (P := m ∈ n :: ns)) by (by right).
  - destruct (decide (m = n)) as [->|Hne]; [by rewrite (decide_True (P := n ∈ n :: ns)) by left|].
    rewrite (decide_False (P := m ∈ n :: ns)); [done|]. rewrite elem_of_cons. naive_solver.
Qed.

(** What a lookup finds after a peer's list has been taken over. *)
Definition proxied (e n m : string) (r : Reg) : Prop := ∃ td, published r !! m = Some td ∧ Handler td = proxy e n.

Lemma published_add_info e tools old ti (r : Reg) m :
  (∃ t, t ∈ tools ∧ Name t = ti_Name ti) →
  published (add_info e tools old r ti) !! m = published r !! m ∧ (m = fed_name e (ti_Name ti) → m ∈ old) ∨
  m ∉ old ∧ m = fed_name e (ti_Name ti) ∧ proxied e (ti_Name ti) m (add_info e tools old r ti).
Proof.
  intros (t & Ht & Hn). unfold add_info. destruct (bool_decide_reflect (fed_name e (ti_Name ti) ∈ old)) as [Ho|Ho].
  - left. split; [done|]. by intros ->.
  - destruct (list_find (λ t0, Name t0 = ti_Name ti) tools) as [[i tool]|] eqn:El; cycle 1.
    { apply list_find_None in El. rewrite Forall_forall in El. by destruct (El t Ht). }
    rewrite published_add. destruct (decide (m = fed_name e (ti_Name ti))) as [->|Hne]; [|by left].
    right. split; [done|split; [done|]]. eexists.
    split; [etrans; [apply published_add|by rewrite decide_True]|]. apply complete_definition_handler.
Qed.

Lemma published_add_infos e tools old infos (r : Reg) m :
  (∀ ti, ti ∈ infos → ∃ t, t ∈ tools ∧ Name t = ti_Name ti) →
  published (foldl (add_info e tools old) r infos) !! m = published r !! m ∧
    (∀ ti, ti ∈ infos → m = fed_name e (ti_Name ti) → m ∈ old) ∨
  m ∉ old ∧ ∃ ti, ti ∈ infos ∧ m = fed_name e (ti_Name ti) ∧ proxied e (ti_Name ti) m (foldl (add_info e tools old) r infos).
Proof.
  revert r. induction infos as [|ti infos IH]; intros r Hin; [left; split; [done|by intros ? ?%elem_of_nil]|].
  cbn [foldl]. destruct (IH (add_info e tools old r ti)) as [[E H]|(Hold & ti' & Hti & Hm & Hp)];
    [by intros; apply Hin; right| |right; split; [done|]; exists ti'; split; [by right|done]].
  destruct (published_add_info e tools old ti r m (Hin ti ltac:(left))) as [[E' Ho]|(Ho & -> & Hp)].
  - left. split; [by rewrite E|]. intros ti' [->|Hti]%elem_of_cons Hm; [by apply Ho|by eapply H].
  - right. split; [done|]. exists ti. split; [left|split; [done|]].
    destruct Hp as (td & Etd & Hh). exists td. split; [|done]. etrans; [exact E|exact Etd].
Qed.

(** After taking over a list, what is published under a peer's names is exactly the list. *)
Lemma sync_published e tools old (r : Reg) m :
  let r' := sync_tools e tools old r in
  if decide (m ∈ fed_names config e (tool_info e <$> tools)) then
    if decide (m ∈ fed_names config e old) then published r' !! m = published r !! m
    else ∃ n, m = fed_name e n ∧ proxied e n m r'
  else published r' !! m = if decide (m ∈ fed_names config e old) then None else published r !! m.
Proof.
  cbv zeta. unfold sync_tools.
  set (infos := tool_info e <$> tools). set (oldn := fed_names config e old). set (newn := fed_names config e infos).
  assert (Hdrop : published (drop_names oldn newn r) !! m = if decide (m ∈ oldn ∧ m ∉ newn) then None else published r !! m).
  { unfold drop_names. rewrite published_drop. destruct (decide (m ∈ filter (λ n, n ∉ newn) (remove_dups oldn))) as [H|H];
      rewrite list_elem_of_filter, elem_of_remove_dups in H.
    - rewrite (decide_True (P := m ∈ oldn ∧ m ∉ newn)); tauto.
    - rewrite (decide_False (P := m ∈ oldn ∧ m ∉ newn)); tauto. }
  destruct (published_add_infos e tools oldn infos (drop_names oldn newn r) m) as [[E H]|(Hold & ti & Hti & -> & Hp)].
  - intros ti (t & -> & Ht)%list_elem_of_fmap. by exists t.
  - rewrite E, Hdrop. destruct (decide (m ∈ newn)) as [Hn|Hn].
    + assert (m ∈ oldn) as Ho. { apply list_elem_of_fmap in Hn as (ti & -> & Hti). by eapply H. }
      rewrite (decide_True (P := m ∈ oldn)) by done. by rewrite decide_False by tauto.
    + destruct (decide (m ∈ oldn)); [by rewrite decide_True by done|by rewrite decide_False by tauto].
  - rewrite (decide_True (P := _ ∈ newn)) by (apply list_elem_of_fmap; by exists ti).
    rewrite decide_False by done. by exists (ti_Name ti).
Qed.

(** A tool that a peer listed before keeps the definition it was published with, whatever its
    new description or schema. *)
Lemma advertised_change_ignored e tools old (r : Reg) n :
  n ∈ ti_Name <$> old → n ∈ Name <$> tools →
  published (sync_tools e tools old r) !! fed_name e n = published r !! fed_name e n.
Proof.
  intros Ho Hn. pose proof (sync_published e tools old r (fed_name e n)) as H. cbv zeta in H.
  rewrite !decide_True in H; [done|unfold fed_names..].
  - apply list_elem_of_fmap in Ho as (ti & -> & Hti). by apply (list_elem_of_fmap_2 (λ ti, fed_name e (ti_Name ti))).
  - apply list_elem_of_fmap in Hn as (t & -> & Ht). apply list_elem_of_fmap. exists (tool_info e t).
    split; [done|by apply list_elem_of_fmap_2].
Qed.

(** Two peers under one namespace: when one drops a tool, the other's goes with it. *)
Lemma one_host_one_namespace e e' old (r : Reg) n :
  peerNamespace e = peerNamespace e' → n ∈ ti_Name <$> old →
  published (sync_tools e [] old r) !! fed_name e' n = None.
Proof using namespaced.
  intros E Ho. pose proof (sync_published e [] old r (fed_name e' n)) as H. cbv zeta in H.
  rewrite decide_False in H by apply not_elem_of_nil. rewrite decide_True in H; [done|].
  unfold fed_names, federatedToolName. rewrite namespaced, <- E.
  apply list_elem_of_fmap in Ho as (ti & -> & Hti). apply list_elem_of_fmap. by exists ti.
Qed.
(** The register and the peers' lists say the same. *)
Definition listed (t : PeerTable) (e n : string) : Prop := ∃ ps, t !! e = Some ps ∧ n ∈ ti_Name <$> ps_tools ps.
Definition fed_ok (t : PeerTable) (r : Reg) : Prop :=
  (∀ m, is_Some (published r !! m) → ∃ e n, listed t e n ∧ m = fed_name e n) ∧
  (∀ e n, listed t e n → proxied e n (fed_name e n) r) ∧
  (∀ e, is_Some (t !! e) → e ∈ Peers config).

Lemma elem_of_fed_names e infos m : m ∈ fed_names config e infos ↔ ∃ n, n ∈ ti_Name <$> infos ∧ m = fed_name e n.
Proof.
  unfold fed_names. rewrite list_elem_of_fmap. split.
  - intros (ti & -> & H). exists (ti_Name ti). split; [|done]. by apply list_elem_of_fmap_2.
  - intros (n & (ti & -> & H)%list_elem_of_fmap & ->). by exists ti.
Qed.

Lemma listed_insert t e ps e' n :
  listed (<[e := ps]> t) e' n ↔ (e' = e ∧ n ∈ ti_Name <$> ps_tools ps) ∨ (e' ≠ e ∧ listed t e' n).
Proof.
  unfold listed. destruct (decide (e' = e)) as [->|Hne].
  - rewrite (lookup_insert_eq (M := gmap string)). split; [intros (ps' & [= <-] & H); by left|]. intros [[_ H]|[? _]]; [by exists ps|done].
  - rewrite (lookup_insert_ne (M := gmap string)) by done. split; [by right|]. intros [[? _]|[_ H]]; done.
Qed.

(** A change of a peer's entry that keeps its list. *)
Lemma fed_ok_same t r e ps : e ∈ Peers config →
  ps_tools ps = match t !! e with Some ps => ps_tools ps | None => [] end → fed_ok t r → fed_ok (<[e := ps]> t) r.
Proof.
  intros He Hps (A & B & C).
  assert (Hl : ∀ e' n, listed (<[e := ps]> t) e' n ↔ listed t e' n).
  { intros e' n. rewrite listed_insert. unfold listed at 2. rewrite Hps. destruct (decide (e' = e)) as [->|Hne].
    2:{ split; [by intros [[? _]|[_ H]]|]. intros H. by right. }
    destruct (t !! e) as [ps0|].
    - split; [intros [[_ H]|[? _]]; [by exists ps0|done]|]. intros (ps1 & [= <-] & H). by left.
    - split; [intros [[_ ?%elem_of_nil]|[? _]]; done|]. by intros (ps1 & [=] & _). }
  split; [|split].
  - intros m H. destruct (A m H) as (e' & n & ? & ->). exists e', n. by rewrite Hl.
  - intros e' n. rewrite Hl. apply B.
  - intros e'. destruct (decide (e' = e)) as [->|]; [done|]. rewrite (lookup_insert_ne (M := gmap string)) by done. apply C.
Qed.

Lemma fed_ok_sync t r e c now' tools : e ∈ Peers config → fed_ok t r →
  fed_ok (<[e := {| ps_client := Some c; ps_tools := tool_info e <$> tools; lastSeen := now'; ps_healthy := true |}]> t)
    (sync_tools e tools (match t !! e with Some ps => ps_tools ps | None => [] end) r).
Proof.
  intros He (A & B & C). set (old := match t !! e with Some ps => ps_tools ps | None => [] end).
  assert (Hold : ∀ n, n ∈ ti_Name <$> old ↔ listed t e n).
  { intros n. unfold listed, old. destruct (t !! e) as [ps0|].
    - split; [intros H; by exists ps0|]. by intros (ps1 & [= <-] & H).
    - split; [by intros ?%elem_of_nil|]. by intros (ps1 & [=] & _). }
  set (new_ := tool_info e <$> tools). split; [|split].
  - intros m Hm. pose proof (sync_published e tools old r m) as H. cbv zeta in H. fold new_ in H.
    destruct (decide (m ∈ fed_names config e new_)) as [Hn|Hn].
    + apply elem_of_fed_names in Hn as (n & Hn & ->). exists e, n. split; [|done]. apply listed_insert. by left.
    + rewrite H in Hm. destruct (decide (m ∈ fed_names config e old)) as [|Ho]; [by destruct Hm|].
      destruct (A m Hm) as (e' & n & Hl & ->). exists e', n. split; [|done]. apply listed_insert. right. split; [|done].
      intros ->. apply Ho, elem_of_fed_names. exists n. by rewrite Hold.
  - intros e' n Hl. apply listed_insert in Hl. cbn [ps_tools] in Hl. fold new_ in Hl.
    pose proof (sync_published e tools old r (fed_name e' n)) as H. cbv zeta in H. fold new_ in H.
    destruct Hl as [[-> Hn]|[Hne Hl]].
    + rewrite decide_True in H by (apply elem_of_fed_names; by exists n).
      destruct (decide (fed_name e n ∈ fed_names config e old)) as [Ho|Ho].
      * apply elem_of_fed_names in Ho as (n' & Hn'%Hold & E). apply fed_name_inj in E as [_ <-]; [|done|done].
        destruct (B e n Hn') as (td & Etd & Hh). exists td. (split; [etrans; [exact H|exact Etd]|exact Hh]).
      * destruct H as (n' & E & Hp). apply fed_name_inj in E as [_ <-]; done.
    + assert (He' : e' ∈ Peers config) by (destruct Hl as (ps & Hps & _); eauto).
      assert (Hother : ∀ infos, fed_name e' n ∉ fed_names config e infos).
      { intros infos (n' & _ & E)%elem_of_fed_names. by apply fed_name_inj in E as [-> _]. }
      rewrite !decide_False in H by done. destruct (B e' n Hl) as (td & Etd & Hh). exists td. (split; [etrans; [exact H|exact Etd]|exact Hh]).
  - intros e'. destruct (decide (e' = e)) as [->|]; [done|]. rewrite (lookup_insert_ne (M := gmap string)) by done. apply C.
Qed.

Lemma discoverPeer_ok e (r : Reg) w : e ∈ Peers config → fed_ok (peek w) r →
  fed_ok (peek (discoverPeer e r w).2) (discoverPeer e r w).1.
Proof.
  intros He Hok. unfold discoverPeer, getOrCreatePeer.
  set (w0 := match (peek w : PeerTable) !! e with Some _ => w | None => put_peer e new_peer w end).
  set (ps := match (peek w : PeerTable) !! e with Some ps => ps | None => new_peer end).
  assert (Hw0 : (match (peek w : PeerTable) !! e with Some ps => (ps, w) | None => (new_peer, put_peer e new_peer w) end) = (ps, w0)).
  { unfold ps, w0. by destruct (peek w !! e). }
  rewrite Hw0.
  assert (fed_ok (peek w0) r ∧ (peek w0 : PeerTable) !! e = Some ps) as [Hok0 Hps].
  { unfold w0, ps, put_peer. destruct ((peek w : PeerTable) !! e) eqn:E; [done|]. rewrite peek_poke, (lookup_insert_eq (M := gmap string)).
    split; [|done]. apply fed_ok_same; [done|by rewrite E|done]. }
  assert (Hput : ∀ ps' w', (peek w' : PeerTable) = peek w0 → ps_tools ps' = ps_tools ps → fed_ok (peek (put_peer e ps' w')) r).
  { intros ps' w' E Hp. unfold put_peer. rewrite peek_poke, E. apply fed_ok_same; [done|by rewrite Hps|done]. }
  assert (Hrefresh : ∀ c w', (peek w' : PeerTable) = peek w0 →
    let s := refresh_peer now ExtractArguments listTools callTool close config e c ps r w' in fed_ok (peek s.2) s.1).
  { intros c w' E. cbv zeta. unfold refresh_peer. pose proof (list_keeps c w') as Hk.
    destruct (listTools c w') as [[err|tools] w1]; cbn [fst snd] in *.
    - apply Hput; [|done]. by rewrite close_keeps, Hk.
    - unfold put_peer. rewrite peek_poke, Hk, E. pose proof (fed_ok_sync _ _ e c (now w1) tools He Hok0) as H. by rewrite Hps in H. }
  destruct (ps_client ps) as [c|]; [by apply Hrefresh|].
  pose proof (connect_keeps e w0) as Hk. destruct (newUpstreamClient e w0) as [[err|c] w1]; cbn [fst snd] in *.
  - by apply Hput.
  - by apply Hrefresh.
Qed.

Local Notation discover_list := (discover_list now ExtractArguments newUpstreamClient listTools callTool close ctx_done config).
Local Notation discoverAll := (discoverAll now ExtractArguments newUpstreamClient listTools callTool close ctx_done config).

Lemma discover_list_ok es (r : Reg) w : (∀ e, e ∈ es → e ∈ Peers config) → fed_ok (peek w) r →
  fed_ok (peek (discover_list es r w).2) (discover_list es r w).1.
Proof.
  revert r w. induction es as [|e es IH]; intros r w Hes Hok; [done|]. cbn [discover_list].
  destruct (ctx_done w); [done|]. pose proof (discoverPeer_ok e r w (Hes e ltac:(left)) Hok) as H.
  destruct (discoverPeer e r w) as [r1 w1]. apply IH; [|done]. intros; apply Hes; by right.
Qed.

(** Some rounds of discovery, the world changing in between as it likes but for the peers. *)
Fixpoint rounds (between : list (W → W)) (r : Reg) (w : W) : Reg * W :=
  match between with
  | [] => (r, w)
  | f :: fs => let '(r, w) := discoverAll r (f w) in rounds fs r w
  end.

(** However many rounds of discovery run, and whatever peers answer, refuse or fail in each,
    the register and the peers' last lists agree: a name is published exactly when a peer
    lists the tool it stands for, it is a proxy for that tool of that peer, and RouteCall
    finds that peer and no other.  (Peers have distinct namespaces and namespaces are on.) *)
Theorem federation_in_step (between : list (W → W)) (r : Reg) (w : W) (walk : list (string * peerState)) :
  Forall (λ f, ∀ v, (peek (f v) : PeerTable) = peek v) between →
  Registry.tools (d_reg r) = ∅ → (peek w : PeerTable) = ∅ →
  let '(r', w') := rounds between r w in
  walk ≡ₚ map_to_list (peek w' : PeerTable) →
  ∀ m, (∃ e n, listed (peek w') e n ∧ m = fed_name e n ∧ proxied e n m r' ∧
          ∃ ps, RouteCall config walk m = inr (e, ps) ∧ (peek w' : PeerTable) !! e = Some ps) ∨
       published r' !! m = None ∧ (∀ e n, listed (peek w') e n → m ≠ fed_name e n) ∧ ∃ err, RouteCall config walk m = inl err.
Proof.
  intros Hb Hr Hw.
  assert (Hok : fed_ok (peek w) r).
  { rewrite Hw. split; [|split].
    - intros m H. rewrite Hr, lookup_empty in H. by destruct H.
    - intros e n (ps & H & _). by rewrite lookup_empty in H.
    - intros e H. rewrite lookup_empty in H. by destruct H. }
  clear Hr Hw. revert r w Hok. induction Hb as [|f fs Hf Hb IH]; intros r w Hok; cycle 1.
  { cbn [rounds]. destruct (discoverAll r (f w)) as [r1 w1] eqn:E. apply IH.
    pose proof (discover_list_ok (Peers config) r (f w) ltac:(done)) as H. rewrite Hf in H. specialize (H Hok).
    unfold discoverAll in E. by rewrite E in H. }
  cbn [rounds]. intros Hwalk m. destruct Hok as (A & B & C). unfold RouteCall.
  assert (Hin : ∀ e ps, (e, ps) ∈ walk ↔ (peek w : PeerTable) !! e = Some ps).
  { intros e ps. rewrite Hwalk. apply elem_of_map_to_list. }
  destruct (list_find (owns config m) walk) as [[i [e ps]]|] eqn:El.
  - left. apply list_find_Some in El as (Hi & Ho & _). apply elem_of_fed_names in Ho as (n & Hn & ->). cbn [fst snd] in *.
    assert (Hps : (peek w : PeerTable) !! e = Some ps) by (apply Hin; by eapply list_elem_of_lookup_2).
    assert (Hl : listed (peek w) e n) by (by exists ps). exists e, n. split_and!; try done; [by apply B|]. by exists ps.
  - right. apply list_find_None in El. rewrite Forall_forall in El.
    assert (Hnone : ∀ e n, listed (peek w) e n → m ≠ fed_name e n).
    { intros e n (ps & Hps & Hn) ->. apply (El (e, ps)); [by apply Hin|]. apply elem_of_fed_names. by exists n. }
    split; [|split; [done|by eexists]]. apply eq_None_not_Some. intros H. destruct (A m H) as (e & n & Hl & ->). by eapply Hnone.
Qed.
End FederationFacts.

(** ** A small federation *)
Definition demo_peers : FederationConfig := {|
  Peers := ["http://blue:80/mcp"; "https://green/mcp"]; DiscoveryInterval := 0; Namespace := true; AuthToken := "" |}.
Definition demo_catalog (w : PeerTable * bool) : list Tool :=
  if w.2 then [rename "get" plain_tool] else [rename "get" plain_tool; rename "put" plain_tool].
Definition demo_connect (url : string) (w : PeerTable * bool) : (error + nat) * (PeerTable * bool) := (inr (String.length url), w).
Definition demo_list (c : nat) (w : PeerTable * bool) : (error + list Tool) * (PeerTable * bool) := (inr (demo_catalog w), w).
Definition demo_call (c : nat) (ctx : unit) (name : string) (args : list (string * json)) (w : PeerTable * bool) :
    (error + option CallToolResult) * (PeerTable * bool) := (inr None, w).
Definition demo_close (c : nat) (w : PeerTable * bool) : option error * (PeerTable * bool) := (None, w).
Definition demo_reg : DynamicRegistry unit unit (PeerTable * bool) := NewDynamicRegistry [].

Example namespaces_of_one_host : peerNamespace "http://host:9090/mcp" = "host_9090" ∧
  peerNamespace "http://host:9090/a" = peerNamespace "http://host:9090/b" ∧
  peerNamespace "http://a.b/" = peerNamespace "https://a_b/mcp".
Proof. done. Qed.

(** In the second round the peers no longer list "put". *)
Definition demo_rounds := rounds (λ _, 0) (λ _ : unit, []) demo_connect demo_list demo_call demo_close (λ _, false) demo_peers
  [id; λ w, (w.1, true)] demo_reg (∅, false).
Lemma federation_in_step_witness :
  ∃ e n ps, "blue_80/get" = federatedToolName demo_peers e n ∧
    RouteCall demo_peers (map_to_list demo_rounds.2.1) "blue_80/get" = inr (e, ps).
Proof.
  pose proof (federation_in_step (W := PeerTable * bool) (λ _, 0) (λ _ : unit, []) demo_connect demo_list demo_call demo_close
    (λ _, false) demo_peers (λ _ _, eq_refl) (λ _ _, eq_refl) (λ _ _, eq_refl) eq_refl) as H.
  specialize (H ltac:(intros e e' He He'; cbn in He, He'; rewrite !elem_of_cons in He, He';
    destruct He as [->|[->|?%elem_of_nil]], He' as [->|[->|?%elem_of_nil]]; by vm_compute)).
  specialize (H [id; λ w, (w.1, true)] demo_reg (∅, false) (map_to_list demo_rounds.2.1)
    ltac:(repeat constructor) eq_refl eq_refl).
  fold demo_rounds in H. destruct demo_rounds as [r' w'] eqn:Er. destruct (H (reflexivity _) "blue_80/get") as [H1|H2].
  - destruct H1 as (e & n & _ & Hm & _ & ps & Hr & _). by exists e, n, ps.
  - exfalso. destruct H2 as [_ [H2 _]]. apply (f_equal snd) in Er. cbn in Er. subst w'.
    apply (H2 "http://blue:80/mcp" "get"); [|done]. 
    unfold listed. eexists. split; [by vm_compute|]. by vm_compute; left.
Defined.
