(* ===== verification/Device.v ===== *)
(** Input devices (src/device): the parser of MIDI byte streams (midi_parse.go), the framing of
    the Grid protocol (grid_protocol.go) and the classification of a device by its identifiers
    and its name (classify.go). *)

From stdpp Require Import base tactics list strings pretty.
From Stdlib Require Import ZArith Lia Floats.SpecFloat.
From S2P Require Import Prelude.

Local Open Scope Z_scope.

(** ** Events (device.go) *)
Inductive DeviceType :=
| TypeUnknown | TypeMIDI | TypeGamepad | TypeKeyboard | TypeMouse | TypeGenericHID | TypeHOTAS | TypeRacingWheel.
#[export] Instance DeviceType_dec : EqDecision DeviceType.
Proof. solve_decision. Defined.

Inductive EventType :=
| EventButton | EventAxis | EventHat | EventMIDINote | EventMIDICC | EventMIDIProgramChange | EventMIDIPitchBend
| EventMIDISysEx | EventKey | EventEncoder.

Record Event := {
  ev_Device : string;
  ev_Type : EventType;
  Timestamp : time;
  Source : string;
  Code : Z;
  Pressed : bool;
  Value : float64;
  HatX : Z;
  HatY : Z;
  Channel : Z;
  MIDINote : Z;
  Velocity : Z;
  Controller : Z;
  MIDIValue : Z;
  Program : Z;
  PitchBend : Z;
  SysEx : list Z;
  RawValue : Z
}.

(** [float64(a) / b]. *)
Definition ratio (a b : Z) : float64 := float_div (float_of_int a) (float_of_int b).

(** An event of the MIDI parser; the fields of the other kinds of devices stay unset. *)
Definition midi_event (dev : string) (t : EventType) (at_ : time) (source : string) (value : float64) (pressed : bool)
    (channel note velocity controller val program bend : Z) (sysex : list Z) : Event := {|
  ev_Device := dev; ev_Type := t; Timestamp := at_; Source := source; Code := 0; Pressed := pressed; Value := value;
  HatX := 0; HatY := 0; Channel := channel; MIDINote := note; Velocity := velocity; Controller := controller;
  MIDIValue := val; Program := program; PitchBend := bend; SysEx := sysex; RawValue := 0 |}.

Definition note_event (dev : string) (at_ : time) (channel note velocity : Z) (on : bool) : Event :=
  midi_event dev EventMIDINote at_ ("midi:note:" +:+ itoa note) (ratio velocity 127) on channel note velocity 0 0 0 0 [].
Definition cc_event (dev : string) (at_ : time) (channel cc val : Z) : Event :=
  midi_event dev EventMIDICC at_ ("midi:cc:" +:+ itoa cc) (ratio val 127) false channel 0 0 cc val 0 0 [].
Definition program_event (dev : string) (at_ : time) (channel prog : Z) : Event :=
  midi_event dev EventMIDIProgramChange at_ ("midi:pc:" +:+ itoa prog) (ratio prog 127) false channel 0 0 0 0 prog 0 [].
Definition bend_event (dev : string) (at_ : time) (channel bend : Z) : Event :=
  midi_event dev EventMIDIPitchBend at_ "midi:pitch_bend" (ratio bend 8192) false channel 0 0 0 0 0 bend [].
Definition sysex_event (dev : string) (at_ : time) (data : list Z) : Event :=
  midi_event dev EventMIDISysEx at_ "midi:sysex" (float_of_int (Z.of_nat (length data))) false 0 0 0 0 0 0 0 data.

(** ** MIDI *)
Section Midi.
Variable deviceID : string.
(** The instant at which the message at a position is read. *)
Variable now : nat → time.
Variables (buf : list Z) (n : nat).

(** int16 arithmetic. *)
Definition wrap16 (z : Z) : Z := (z + 2 ^ 15) mod 2 ^ 16 - 2 ^ 15.
Definition pitch_bend (d1 d2 : Z) : Z :=
  let lsb := Z.land d1 0x7F in
  let msb := Z.land d2 0x7F in
  wrap16 (Z.lor (wrap16 (Z.shiftl msb 7)) lsb - 8192).

(** The end of a run of data bytes.  [None] is an index out of range. *)
Fixpoint data_end (fuel i : nat) : option nat :=
  match fuel with
  | O => Some i
  | S fuel => if (n <=? i)%nat then Some i else b ← buf !! i; if b <? 0x80 then data_end fuel (S i) else Some i
  end.

(** One pass of the loop: the events emitted and the next position.  [None] is an index out of
    range. *)
Definition midi_step (i : nat) : option (list Event * nat) :=
  b ← buf !! i;
  if b <? 0x80 then Some ([], S i) else
  let msgType := Z.land b 0xF0 in
  let channel := Z.land b 0x0F in
  let remaining := (n - i - 1)%nat in
  if (msgType =? 0x90) || (msgType =? 0x80) then
    if (remaining <? 2)%nat then Some ([], n) else
    d1 ← buf !! (i + 1)%nat; d2 ← buf !! (i + 2)%nat;
    let note := Z.land d1 0x7F in
    let velocity := Z.land d2 0x7F in
    Some ([note_event deviceID (now i) channel note velocity ((msgType =? 0x90) && (0 <? velocity))], (i + 3)%nat)
  else if msgType =? 0xB0 then
    if (remaining <? 2)%nat then Some ([], n) else
    d1 ← buf !! (i + 1)%nat; d2 ← buf !! (i + 2)%nat;
    Some ([cc_event deviceID (now i) channel (Z.land d1 0x7F) (Z.land d2 0x7F)], (i + 3)%nat)
  else if msgType =? 0xC0 then
    if (remaining <? 1)%nat then Some ([], n) else
    d1 ← buf !! (i + 1)%nat;
    Some ([program_event deviceID (now i) channel (Z.land d1 0x7F)], (i + 2)%nat)
  else if msgType =? 0xD0 then Some ([], (i + 2)%nat)
  else if msgType =? 0xE0 then
    if (remaining <? 2)%nat then Some ([], n) else
    d1 ← buf !! (i + 1)%nat; d2 ← buf !! (i + 2)%nat;
    Some ([bend_event deviceID (now i) channel (pitch_bend d1 d2)], (i + 3)%nat)
  else if msgType =? 0xF0 then
    if b =? 0xF0 then
      j ← data_end n (S i);
      if (j <? n)%nat then
        e ← buf !! j;
        if e =? 0xF7 then Some ([sysex_event deviceID (now i) (take (S j - i) (drop i buf))], S j)
        else Some ([sysex_event deviceID (now i) (take (j - i) (drop i buf))], j)
      else Some ([sysex_event deviceID (now i) (take (j - i) (drop i buf))], j)
    else Some ([], S i)
  else Some ([], S i).

Fixpoint midi_loop (fuel i : nat) : option (list Event) :=
  if (n <=? i)%nat then Some [] else
  match fuel with
  | O => None
  | S fuel => r ← midi_step i; let '(events, i) := r in rest ← midi_loop fuel i; Some (events ++ rest)
  end.
Definition parseMIDIBytes : option (list Event) := midi_loop n 0.
End Midi.

(** The axis of a stick or a trigger, as a fraction. *)
Definition normalizeAxis (raw min max : Z) : float64 :=
  if max =? min then float_of_int raw else
  let fMin := float_of_int min in
  let fMax := float_of_int max in
  let v := float_of_int raw in
  if 0 <=? min then float_div (float_sub v fMin) (float_sub fMax fMin)
  else
    let mid := float_div (float_add fMax fMin) (float_of_int 2) in
    let halfRange := float_div (float_sub fMax fMin) (float_of_int 2) in
    float_div (float_sub v mid) halfRange.

(** ** The Grid protocol: a text between two control bytes *)
Definition gridSTX : Ascii.ascii := Ascii.ascii_of_nat 2.
Definition gridETX : Ascii.ascii := Ascii.ascii_of_nat 3.
Definition GridVIDGen2 : Z := 0x303A.
Definition GridPIDGen2 : Z := 0x8123.
Definition GridVIDGen1 : Z := 0x03EB.
Definition GridPIDGen1 : Z := 0xECAD.

Record GridMessage := { Raw : string; Payload : string }.

Definition GridEncodeFrame (luaCode : string) : string := String gridSTX (luaCode +:+ String gridETX EmptyString).

(** [fmt.Sprintf] of a call with decimal arguments. *)
Definition lua_call (f : string) (args : list Z) : string := f +:+ "(" +:+ join "," (itoa <$> args) +:+ ")".
Definition GridEncodeLEDColor (index layer r g b : Z) : string := GridEncodeFrame (lua_call "led_color" [index; layer; r; g; b; 0]).
Definition GridEncodeLEDColorMin (index layer r g b : Z) : string := GridEncodeFrame (lua_call "led_color_min" [index; layer; r; g; b]).
Definition GridEncodeLEDColorMid (index layer r g b : Z) : string := GridEncodeFrame (lua_call "led_color_mid" [index; layer; r; g; b]).
Definition GridEncodeLEDColorMax (index layer r g b : Z) : string := GridEncodeFrame (lua_call "led_color_max" [index; layer; r; g; b]).
Definition GridEncodeLEDValue (index layer value : Z) : string := GridEncodeFrame (lua_call "led_value" [index; layer; value]).
Definition GridEncodeLEDAnimation (index layer phase rate animType : Z) : string :=
  GridEncodeFrame (lua_call "led_animation_phase_rate_type" [index; layer; phase; rate; animType]).
Definition GridEncodeHeartbeat : string := GridEncodeFrame "".

(** [bytes.IndexByte]. *)
Fixpoint IndexByte (s : string) (c : Ascii.ascii) : option nat :=
  match s with
  | EmptyString => None
  | String a s' => if bool_decide (a = c) then Some O else S <$> IndexByte s' c
  end.

(** The complete frames of a buffer, and the bytes of an incomplete one. *)
Fixpoint grid_frames (fuel : nat) (data : string) : option (list GridMessage * string) :=
  match fuel with
  | O => None
  | S fuel =>
      match IndexByte data gridSTX with
      | None => Some ([], "")
      | Some start =>
          match IndexByte (string_drop (S start) data) gridETX with
          | None => Some ([], string_drop start data)
          | Some end_ =>
              let end_ := (end_ + start + 1)%nat in
              let frame := string_take (S end_ - start) (string_drop start data) in
              let payload := string_take (end_ - S start) (string_drop (S start) data) in
              r ← grid_frames fuel (string_drop (S end_) data);
              Some ({| Raw := frame; Payload := payload |} :: r.1, r.2)
          end
      end
  end.
Definition GridParseFrames (data : string) : option (list GridMessage * string) :=
  grid_frames (S (String.length data)) data.

Definition IsGridDevice (vid pid : Z) : bool :=
  ((vid =? GridVIDGen2) && (pid =? GridPIDGen2)) || ((vid =? GridVIDGen1) && (pid =? GridPIDGen1)).
Definition IsGridDeviceName (name : string) : bool :=
  let lower := to_lower name in contains "grid" lower && contains "cdc" lower.

(** ** Classification *)
Definition knownDevices : list (Z * Z * DeviceType) := [
  (0x045e, 0x02dd, TypeGamepad); (0x045e, 0x02ea, TypeGamepad); (0x045e, 0x0b12, TypeGamepad);
  (0x045e, 0x0b13, TypeGamepad); (0x045e, 0x0b00, TypeGamepad); (0x045e, 0x0b22, TypeGamepad);
  (0x045e, 0x0b0a, TypeGamepad); (0x054c, 0x05c4, TypeGamepad); (0x054c, 0x09cc, TypeGamepad);
  (0x054c, 0x0ce6, TypeGamepad); (0x054c, 0x0df2, TypeGamepad); (0x057e, 0x2009, TypeGamepad);
  (0x057e, 0x2006, TypeGamepad); (0x057e, 0x2007, TypeGamepad); (0x09e8, 0x003a, TypeMIDI);
  (0x09e8, 0x0040, TypeMIDI); (0x09e8, 0x0044, TypeMIDI); (0x09e8, 0x004f, TypeMIDI); (0x09e8, 0x0028, TypeMIDI);
  (0x09e8, 0x0030, TypeMIDI); (0x1235, 0x0020, TypeMIDI); (0x1235, 0x0051, TypeMIDI); (0x1235, 0x0069, TypeMIDI);
  (0x1235, 0x006b, TypeMIDI); (0x1235, 0x0113, TypeMIDI); (0x1235, 0x0102, TypeMIDI); (0x1c75, 0x0206, TypeMIDI);
  (0x1c75, 0x0208, TypeMIDI); (0x1c75, 0x0288, TypeMIDI); (0x1c75, 0x028a, TypeMIDI); (0x1c75, 0x028b, TypeMIDI);
  (0x17cc, 0x1620, TypeMIDI); (0x17cc, 0x1600, TypeMIDI); (0x17cc, 0x1140, TypeMIDI); (0x17cc, 0x0815, TypeMIDI);
  (0x0944, 0x0117, TypeMIDI); (0x0944, 0x0118, TypeMIDI); (0x0944, 0x0113, TypeMIDI); (0x0582, 0x01d6, TypeMIDI);
  (0x0582, 0x01db, TypeMIDI); (0x044f, 0xb10a, TypeHOTAS); (0x044f, 0xb687, TypeHOTAS); (0x044f, 0x0402, TypeHOTAS);
  (0x044f, 0x0404, TypeHOTAS); (0x231d, 0x0126, TypeHOTAS); (0x231d, 0x0127, TypeHOTAS); (0x3344, 0x0194, TypeHOTAS);
  (0x3344, 0x8194, TypeHOTAS); (0x046d, 0xc24f, TypeRacingWheel); (0x046d, 0xc262, TypeRacingWheel);
  (0x046d, 0xc266, TypeRacingWheel); (0x046d, 0xc267, TypeRacingWheel); (0x0eb7, 0x0001, TypeRacingWheel);
  (0x0eb7, 0x0004, TypeRacingWheel); (0x0eb7, 0x0005, TypeRacingWheel); (0x0eb7, 0x0011, TypeRacingWheel);
  (0x044f, 0xb66d, TypeRacingWheel); (0x044f, 0xb66e, TypeRacingWheel); (0x044f, 0xb66f, TypeRacingWheel);
  (0x044f, 0xb65d, TypeRacingWheel); (0x044f, 0xb669, TypeRacingWheel); (0x03eb, 0xecad, TypeMIDI);
  (0x03eb, 0xecac, TypeMIDI); (0x303a, 0x8123, TypeMIDI); (0x0fd9, 0x0060, TypeGenericHID);
  (0x0fd9, 0x006d, TypeGenericHID); (0x0fd9, 0x0063, TypeGenericHID); (0x0fd9, 0x0080, TypeGenericHID);
  (0x0fd9, 0x0084, TypeGenericHID); (0x0fd9, 0x0086, TypeGenericHID); (0x0fd9, 0x008f, TypeGenericHID);
  (0x0fd9, 0x008e, TypeGenericHID); (0x0fd9, 0x0090, TypeGenericHID)].
Definition VendorBrands : list (Z * string) := [
  (0x045e, "xbox"); (0x054c, "playstation"); (0x057e, "nintendo"); (0x28de, "valve"); (0x2dc8, "8bitdo");
  (0x0e6f, "pdp"); (0x24c6, "powera"); (0x0738, "madcatz"); (0x1532, "razer"); (0x046d, "logitech");
  (0x1235, "focusrite"); (0x09e8, "akai"); (0x1c75, "arturia"); (0x0944, "korg"); (0x0582, "roland");
  (0x07cf, "casio"); (0x0499, "yamaha"); (0x17cc, "native_instruments"); (0x1397, "behringer"); (0x1410, "novation");
  (0x0763, "m_audio"); (0x2011, "keith_mcmillen"); (0x314b, "roli"); (0x303a, "intech"); (0x0fd9, "elgato");
  (0x044f, "thrustmaster_flight"); (0x231d, "vkb"); (0x3344, "virpil"); (0x0eb7, "fanatec")].

Definition lookup_known (vid pid : Z) : option DeviceType :=
  snd <$> (snd <$> list_find (λ e, e.1 = (vid, pid)) knownDevices).
Definition lookup_brand (vid : Z) : option string := snd <$> (snd <$> list_find (λ e, e.1 = vid) VendorBrands).
Definition BrandLabel (vid : Z) : string := default "unknown" (lookup_brand vid).
Definition containsAny (s : string) (subs : list string) : bool := existsb (λ sub, contains sub s) subs.

Definition brand_type (brand : string) : option DeviceType :=
  if bool_decide (brand ∈ ["xbox"; "playstation"; "nintendo"; "valve"; "8bitdo"]) then Some TypeGamepad
  else if bool_decide (brand ∈ ["elgato"]) then Some TypeGenericHID
  else if bool_decide (brand ∈ ["thrustmaster_flight"; "vkb"; "virpil"]) then Some TypeHOTAS
  else if bool_decide (brand ∈ ["fanatec"; "thrustmaster_wheel"]) then Some TypeRacingWheel
  else if bool_decide (brand ∈ ["akai"; "focusrite"; "novation"; "arturia"; "korg"; "roland"; "casio"; "yamaha";
    "native_instruments"; "behringer"; "m_audio"; "keith_mcmillen"; "roli"; "intech"]) then Some TypeMIDI
  else None.

Definition name_type (name : string) : DeviceType :=
  let lower := to_lower name in
  if containsAny lower ["midi"; "launchpad"; "apc"; "nanocontrol"; "beatstep"; "mpk"; "keystation"; "intech"; "grid"] then TypeMIDI
  else if containsAny lower ["controller"; "gamepad"; "joystick"; "xbox"; "dualshock"; "dualsense"; "pro controller"] then TypeGamepad
  else if containsAny lower ["stream deck"; "pedal"; "macropad"; "keypad"] then TypeGenericHID
  else if containsAny lower ["hotas"; "flight"; "throttle"; "rudder"; "flight stick"] then TypeHOTAS
  else if containsAny lower ["wheel"; "pedals"; "shifter"; "handbrake"] then TypeRacingWheel
  else if containsAny lower ["keyboard"] then TypeKeyboard
  else if containsAny lower ["mouse"; "trackball"] then TypeMouse
  else TypeUnknown.

Definition ClassifyDevice (vid pid : Z) (name : string) : DeviceType :=
  match lookup_known vid pid with
  | Some t => t
  | None => match lookup_brand vid ≫= brand_type with Some t => t | None => name_type name end
  end.

(** ** Bytes *)
Lemma in_range_check (P : Z → bool) lo len b :
  forallb P (seqZ lo len) = true → lo <= b < lo + len → P b = true.
Proof. intros H Hb. rewrite forallb_forall in H. apply H. apply list_elem_of_In, elem_of_seqZ. lia. Qed.

Lemma status_split b : 0 <= b < 256 → Z.land b 0xF0 = 16 * (b / 16) ∧ Z.land b 0x0F = b mod 16.
Proof.
  intros Hb. enough ((Z.land b 0xF0 =? 16 * (b / 16)) && (Z.land b 0x0F =? b mod 16) = true) by (to_prop; lia).
  revert Hb. apply (in_range_check (λ b, (Z.land b 0xF0 =? 16 * (b / 16)) && (Z.land b 0x0F =? b mod 16)) 0 256).
  vm_compute. reflexivity.
Qed.

Lemma data_byte b : 0 <= Z.land b 0x7F < 128.
Proof. change 0x7F with (Z.ones 7). rewrite Z.land_ones by lia. apply Z.mod_pos_bound. lia. Qed.

Lemma data_byte_id b : 0 <= b < 128 → Z.land b 0x7F = b.
Proof. intros. change 0x7F with (Z.ones 7). rewrite Z.land_ones by lia. by rewrite Z.mod_small. Qed.

Lemma pitch_bend_value d1 d2 : pitch_bend d1 d2 = 128 * Z.land d2 0x7F + Z.land d1 0x7F - 8192.
Proof.
  unfold pitch_bend. generalize (data_byte d1), (data_byte d2). generalize (Z.land d1 0x7F) (Z.land d2 0x7F).
  intros x y Hx Hy. cbv zeta.
  set (P := λ x, forallb (λ y, wrap16 (Z.lor (wrap16 (Z.shiftl y 7)) x - 8192) =? 128 * y + x - 8192) (seqZ 0 128)).
  assert (P x = true) as H by (apply (in_range_check P 0 128); [vm_compute; reflexivity|lia]).
  apply Z.eqb_eq. exact (in_range_check _ 0 128 y H ltac:(lia)).
Qed.

(** ** Every stream is parsed, and what comes out is in range *)
Definition event_in_range (buf : list Z) (e : Event) : Prop :=
  0 <= Channel e < 16 ∧ 0 <= MIDINote e < 128 ∧ 0 <= Velocity e < 128 ∧ 0 <= Controller e < 128 ∧
  0 <= MIDIValue e < 128 ∧ 0 <= Program e < 128 ∧ -8192 <= PitchBend e <= 8191 ∧
  (SysEx e = [] ∨ ∃ i k, SysEx e = take k (drop i buf) ∧ head (SysEx e) = Some 0xF0).

Ltac in_range :=
  intros; repeat match goal with d : Z |- _ => lazymatch goal with
    | H : 0 <= Z.land d 0x7F < 128 |- _ => fail | _ => pose proof (data_byte d) end end;
  repeat split; cbn -[Z.land pitch_bend]; rewrite ?pitch_bend_value; try lia; by left.

Section Midi.
Context (dev : string) (now : nat → time) (buf : list Z) (n : nat).
Hypothesis Hn : (n <= length buf)%nat.

Lemma byte_at i : (i < n)%nat → ∃ b, buf !! i = Some b ∧ b ∈ buf.
Proof.
  intros Hi. destruct (lookup_lt_is_Some_2 buf i ltac:(lia)) as [b Hb]. exists b. split; [done|by eapply list_elem_of_lookup_2].
Qed.

(** The run of data bytes that starts at [i] ends at the first other byte, or with the buffer. *)
Lemma data_end_spec fuel i : (n - i <= fuel)%nat → (i <= n)%nat →
  ∃ j, data_end buf n fuel i = Some j ∧ (i <= j <= n)%nat ∧ (∀ k b, (i <= k < j)%nat → buf !! k = Some b → b < 0x80) ∧
    ((j < n)%nat → ∃ b, buf !! j = Some b ∧ 0x80 <= b).
Proof using Hn.
  revert i. induction fuel as [|fuel IH]; intros i Hf Hi; cbn [data_end].
  - exists i. split; [done|split; [lia|split; intros; lia]].
  - destruct (Nat.leb_spec n i).
    { exists i. split; [done|split; [lia|split; intros; lia]]. }
    destruct (byte_at i ltac:(lia)) as (b & Eb & _). rewrite Eb. cbn [mbind option_bind].
    destruct (Z.ltb_spec b 0x80) as [Hb|Hb].
    + destruct (IH (S i)) as (j & Ej & Hj & Hrun & Hstop); [lia..|]. exists j. split; [done|split; [lia|split; [|done]]].
      intros k c Hk Ek. destruct (decide (k = i)) as [->|]; [congruence|]. apply (Hrun k); [lia|done].
    + exists i. split; [done|split; [lia|split; [intros; lia|]]]. intros _. by exists b.
Qed.

Hypothesis Hbytes : Forall (λ b, 0 <= b < 256) buf.

Lemma midi_step_ok i : (i < n)%nat →
  ∃ events j, midi_step dev now buf n i = Some (events, j) ∧ (i < j)%nat ∧ (length events <= 1)%nat ∧
    Forall (event_in_range buf) events.
Proof using Hn Hbytes.
  intros Hi. destruct (byte_at i Hi) as (b & Eb & Hin). rewrite Forall_forall in Hbytes. pose proof (Hbytes b Hin) as Hb.
  unfold midi_step. rewrite Eb. cbn [mbind option_bind]. destruct (status_split b Hb) as [Hh Hl]. cbv zeta.
  assert (Hch : 0 <= Z.land b 0x0F < 16) by (rewrite Hl; apply Z.mod_pos_bound; lia).
  assert (Hquiet : ∀ j, (i < j)%nat → ∃ events k, Some (@nil Event, j) = Some (events, k) ∧ (i < k)%nat ∧
    (length events <= 1)%nat ∧ Forall (event_in_range buf) events).
  { intros j Hj. exists [], j. split; [done|split; [done|split; [cbn; lia|done]]]. }
  assert (Hone : ∀ e j, (i < j)%nat → event_in_range buf e → ∃ events k, Some ([e], j) = Some (events, k) ∧ (i < k)%nat ∧
    (length events <= 1)%nat ∧ Forall (event_in_range buf) events).
  { intros e j Hj He. exists [e], j. split; [done|split; [done|split; [cbn; lia|by constructor]]]. }
  destruct (Z.ltb_spec b 0x80); [by apply Hquiet; lia|].
  assert (Hget : ∀ k, (n - i - 1 <? k)%nat = false → (1 <= k)%nat → ∃ d, buf !! (i + k)%nat = Some d).
  { intros k Hk%Nat.ltb_ge Hk1. destruct (byte_at (i + k)) as (d & Ed & _); [lia|by exists d]. }
  assert (Htwo : ∀ f, (∀ d1 d2, event_in_range buf (f d1 d2)) → ∃ events k,
    (if (n - i - 1 <? 2)%nat then Some ([], n) else
     d1 ← buf !! (i + 1)%nat; d2 ← buf !! (i + 2)%nat; Some ([f d1 d2], (i + 3)%nat)) = Some (events, k) ∧ (i < k)%nat ∧
    (length events <= 1)%nat ∧ Forall (event_in_range buf) events).
  { intros f Hf. destruct (n - i - 1 <? 2)%nat eqn:E; [by apply Hquiet|].
    destruct (Hget 1%nat ltac:(apply Nat.ltb_ge; apply Nat.ltb_ge in E; lia) ltac:(lia)) as [d1 ->].
    destruct (Hget 2%nat E ltac:(lia)) as [d2 ->]. cbn [mbind option_bind]. apply Hone; [lia|apply Hf]. }
  destruct (_ || _); [apply Htwo; in_range|]. destruct (_ =? 0xB0); [apply Htwo; in_range|].
  destruct (_ =? 0xC0).
  { destruct (n - i - 1 <? 1)%nat eqn:E; [by apply Hquiet|].
    destruct (Hget 1%nat E ltac:(lia)) as [d1 ->]. cbn [mbind option_bind]. apply Hone; [lia|in_range]. }
  destruct (_ =? 0xD0); [apply Hquiet; lia|]. destruct (_ =? 0xE0); [apply Htwo; in_range|].
  destruct (_ =? 0xF0); [|apply Hquiet; lia]. destruct (Z.eqb_spec b 0xF0) as [->|_]; [|apply Hquiet; lia].
  destruct (data_end_spec n (S i)) as (j & Ej & Hj & _); [lia..|]. rewrite Ej. cbn [mbind option_bind].
  assert (Hsys : ∀ k, (0 < k)%nat → event_in_range buf (sysex_event dev (now i) (take k (drop i buf)))).
  { intros k Hk. repeat split; cbn; try lia. right. exists i, k. split; [done|]. rewrite (drop_S _ _ _ Eb).
    by destruct k; [lia|]. }
  destruct (Nat.ltb_spec j n).
  - destruct (byte_at j ltac:(lia)) as (e & -> & _). cbn [mbind option_bind].
    destruct (_ =? 0xF7); (apply Hone; [lia|apply Hsys; lia]).
  - apply Hone; [lia|apply Hsys; lia].
Qed.

Lemma midi_loop_ok fuel i : (n - i <= fuel)%nat →
  ∃ events, midi_loop dev now buf n fuel i = Some events ∧ (length events <= n - i)%nat ∧ Forall (event_in_range buf) events.
Proof using Hn Hbytes.
  revert i. induction fuel as [|fuel IH]; intros i Hf; cbn [midi_loop]; destruct (Nat.leb_spec n i).
  1,3: by exists []; split; [done|split; [cbn; lia|]].
  { lia. }
  destruct (midi_step_ok i) as (events & j & -> & Hj & Hl & He); [done|]. cbn [mbind option_bind].
  destruct (IH j) as (rest & -> & Hl' & He'); [lia|]. cbn [mbind option_bind]. exists (events ++ rest).
  split; [done|split; [rewrite length_app; lia|by apply Forall_app]].
Qed.
End Midi.

(** The MIDI parser on any bytes whatever: it always comes to an end without reading past
    the bytes it was given, it makes at most one event per byte, and every event has a
    channel below 16, data below 128, a bend within 14 bits, and a system-exclusive text that
    is a piece of the input starting with 0xF0. *)
Theorem midi_stream_safe (dev : string) (now : nat → time) (buf : list Z) (n : nat) :
  (n <= length buf)%nat → Forall (λ b, 0 <= b < 256) buf →
  ∃ events, parseMIDIBytes dev now buf n = Some events ∧ (length events <= n)%nat ∧ Forall (event_in_range buf) events.
Proof.
  intros Hn Hb. destruct (midi_loop_ok dev now buf n Hn Hb n 0) as (events & E & Hl & He); [lia|].
  exists events. split; [done|split; [lia|done]].
Qed.
Lemma midi_stream_safe_witness :
  ∃ events, parseMIDIBytes "d" (λ _, 0) [0x90; 60; 100; 0xF0; 1; 0xF8; 0xE3; 7] 8 = Some events ∧ length events = 2%nat ∧
    Forall (event_in_range [0x90; 60; 100; 0xF0; 1; 0xF8; 0xE3; 7]) events.
Proof.
  destruct (midi_stream_safe "d" (λ _, 0) [0x90; 60; 100; 0xF0; 1; 0xF8; 0xE3; 7] 8) as (events & E & _ & He).
  - cbn. lia.
  - repeat constructor; lia.
  - exists events. split; [done|split; [|done]]. vm_compute in E. injection E as <-. done.
Defined.

(** ** Messages sent are messages received *)
Inductive midi_msg :=
| Note (on : bool) (channel note velocity : Z)
| Control (channel cc val : Z)
| ProgramChange (channel prog : Z)
| ChannelPressure (channel val : Z)
| Bend (channel val : Z)
| SystemExclusive (data : list Z).

Definition msg_ok (m : midi_msg) : Prop :=
  match m with
  | Note _ c a b | Control c a b => 0 <= c < 16 ∧ 0 <= a < 128 ∧ 0 <= b < 128
  | ProgramChange c a | ChannelPressure c a => 0 <= c < 16 ∧ 0 <= a < 128
  | Bend c v => 0 <= c < 16 ∧ -8192 <= v <= 8191
  | SystemExclusive data => Forall (λ b, 0 <= b < 128) data
  end.

(** The bytes of a message in the MIDI standard. *)
Definition msg_bytes (m : midi_msg) : list Z :=
  match m with
  | Note on c a b => [(if on then 0x90 else 0x80) + c; a; b]
  | Control c a b => [0xB0 + c; a; b]
  | ProgramChange c a => [0xC0 + c; a]
  | ChannelPressure c a => [0xD0 + c; a]
  | Bend c v => [0xE0 + c; (v + 8192) mod 128; (v + 8192) / 128]
  | SystemExclusive data => 0xF0 :: data ++ [0xF7]
  end.

Definition msg_events (dev : string) (at_ : time) (m : midi_msg) : list Event :=
  match m with
  | Note on c a b => [note_event dev at_ c a b (on && (0 <? b))]
  | Control c a b => [cc_event dev at_ c a b]
  | ProgramChange c a => [program_event dev at_ c a]
  | ChannelPressure _ _ => []
  | Bend c v => [bend_event dev at_ c v]
  | SystemExclusive data => [sysex_event dev at_ (0xF0 :: data ++ [0xF7])]
  end.

(** The events of messages that follow one another from position [i]. *)
Fixpoint stream_events (dev : string) (now : nat → time) (i : nat) (ms : list midi_msg) : list Event :=
  match ms with
  | [] => []
  | m :: ms => msg_events dev (now i) m ++ stream_events dev now (i + length (msg_bytes m)) ms
  end.

Lemma lookup_pre (pre l : list Z) k : (pre ++ l) !! (length pre + k)%nat = l !! k.
Proof. rewrite lookup_app_r by lia. f_equal. lia. Qed.

Lemma status_of hi c : 0 <= c < 16 → 8 <= hi < 16 →
  Z.land (16 * hi + c) 0xF0 = 16 * hi ∧ Z.land (16 * hi + c) 0x0F = c ∧ (16 * hi + c <? 0x80) = false.
Proof.
  intros Hc Hh. destruct (status_split (16 * hi + c) ltac:(lia)) as [-> ->].
  replace (16 * hi + c) with (c + hi * 16) by lia. rewrite Z.div_add, Z.mod_add, Z.div_small, Z.mod_small by lia.
  split; [lia|split; [done|]]. apply Z.ltb_ge. lia.
Qed.

(** Read the status byte of a message whose first nibble is [hi]. *)
Ltac read_status hi c Hc :=
  let H := fresh in pose proof (status_of hi c Hc ltac:(lia)) as H;
  let v := eval vm_compute in (16 * hi) in change (16 * hi) with v in H; destruct H as (-> & -> & ->); cbv zeta.

Lemma midi_step_msg dev now pre m post n : msg_ok m →
  (length pre + length (msg_bytes m) <= n <= length (pre ++ msg_bytes m ++ post))%nat →
  midi_step dev now (pre ++ msg_bytes m ++ post) n (length pre) =
    Some (msg_events dev (now (length pre)) m, (length pre + length (msg_bytes m))%nat).
Proof.
  intros Hm Hn. unfold midi_step.
  pose proof (lookup_pre pre (msg_bytes m ++ post)) as Hl. pose proof (Hl 0%nat) as H0. rewrite Nat.add_0_r in H0.
  rewrite !H0, !Hl. clear H0 Hl.
  assert (Hrem : ∀ k, (k + 1 <= length (msg_bytes m))%nat → (n - length pre - 1 <? k)%nat = false).
  { intros k Hk. apply Nat.ltb_ge. lia. }
  destruct m as [on c a b|c a b|c a|c a|c v|data]; cbn [msg_ok] in Hm; cbn [msg_bytes app lookup list_lookup mbind option_bind].
  - destruct Hm as (Hc & Ha & Hb).
    destruct on; [read_status 9 c Hc|read_status 8 c Hc]; cbn [Z.eqb Pos.eqb orb andb];
      rewrite (Hrem 2%nat) by (cbn; lia); by rewrite (data_byte_id a Ha), (data_byte_id b Hb).
  - destruct Hm as (Hc & Ha & Hb). read_status 0xB c Hc. cbn [Z.eqb Pos.eqb orb andb].
    rewrite (Hrem 2%nat) by (cbn; lia). by rewrite (data_byte_id a Ha), (data_byte_id b Hb).
  - destruct Hm as (Hc & Ha). read_status 0xC c Hc. cbn [Z.eqb Pos.eqb orb andb].
    rewrite (Hrem 1%nat) by (cbn; lia). by rewrite (data_byte_id a Ha).
  - destruct Hm as (Hc & Ha). by read_status 0xD c Hc.
  - destruct Hm as (Hc & Hv). read_status 0xE c Hc. cbn [Z.eqb Pos.eqb orb andb].
    rewrite (Hrem 2%nat) by (cbn; lia). rewrite pitch_bend_value.
    rewrite !data_byte_id by (split; [apply Z.div_pos || apply Z.mod_pos_bound; lia|
      apply Z.div_lt_upper_bound || apply Z.mod_pos_bound; lia]).
    rewrite <- Z.div_mod by lia. by replace (v + 8192 - 8192) with v by lia.
  - change (Z.land 0xF0 0xF0) with 0xF0. cbn [Z.ltb Z.compare Pos.compare Pos.compare_cont Z.eqb Pos.eqb orb andb]. cbv zeta.
    set (i := length pre) in *. change (msg_bytes (SystemExclusive data)) with (0xF0 :: data ++ [0xF7]) in Hn.
    change ((0xF0 :: data ++ [0xF7]) ++ post) with (0xF0 :: (data ++ [0xF7]) ++ post) in *.
    set (buf := pre ++ 0xF0 :: (data ++ [0xF7]) ++ post) in *.
    assert (Hlen : length (0xF0 :: data ++ [0xF7]) = S (S (length data))) by (cbn; rewrite length_app; cbn; lia).
    rewrite Hlen in Hn.
    assert (Hbyte : ∀ k, (k <= length data)%nat → buf !! (i + S k)%nat = (data ++ [0xF7]) !! k).
    { intros k Hk. unfold buf, i. rewrite lookup_pre. cbn [app lookup list_lookup]. rewrite <- (app_assoc data).
      rewrite (app_assoc data [0xF7]). apply lookup_app_l. rewrite length_app. cbn. lia. }
    assert (Hend : data_end buf n n (S i) = Some (i + S (length data))%nat).
    { destruct (data_end_spec buf n ltac:(lia) n (S i)) as (j & -> & Hj & Hrun & Hstop); [lia..|]. f_equal.
      destruct (lt_eq_lt_dec j (i + S (length data))) as [[Hlt|]|Hgt]; [exfalso|done|exfalso].
      - destruct Hstop as (b & Eb & Hb); [lia|]. replace j with (i + S (j - S i))%nat in Eb by lia.
        rewrite Hbyte, lookup_app_l in Eb by lia. rewrite Forall_forall in Hm.
        apply list_elem_of_lookup_2, Hm in Eb. lia.
      - assert (0xF7 < 0x80) as ?; [|lia]. apply (Hrun (i + S (length data))%nat); [lia|].
        rewrite Hbyte by lia. rewrite lookup_app_r, Nat.sub_diag by lia. done. }
    rewrite Hend. cbn [mbind option_bind]. rewrite (proj2 (Nat.ltb_lt _ _)) by lia.
    rewrite Hbyte, lookup_app_r, Nat.sub_diag by lia. cbn [lookup list_lookup mbind option_bind Z.eqb Pos.eqb].
    replace (S (i + S (length data)) - i)%nat with (length (0xF0 :: data ++ [0xF7])) by (cbn; rewrite length_app; cbn; lia).
    unfold buf, i. rewrite drop_app_length.
    change (0xF0 :: (data ++ [0xF7]) ++ post) with ((0xF0 :: data ++ [0xF7]) ++ post). rewrite take_app_length. cbn [msg_events]. do 2 f_equal. rewrite Hlen. lia.
Qed.

Lemma midi_loop_msgs dev now ms : Forall msg_ok ms → ∀ fuel pre,
  (length (concat (msg_bytes <$> ms)) <= fuel)%nat →
  midi_loop dev now (pre ++ concat (msg_bytes <$> ms)) (length (pre ++ concat (msg_bytes <$> ms))) fuel (length pre) =
    Some (stream_events dev now (length pre) ms).
Proof.
  induction 1 as [|m ms Hm _ IH]; intros fuel pre Hf.
  { cbn. rewrite app_nil_r. destruct fuel; cbn [midi_loop]; by rewrite Nat.leb_refl. }
  cbn [fmap list_fmap concat] in *. rewrite length_app in Hf.
  assert (Hpos : (0 < length (msg_bytes m))%nat) by (destruct m; cbn; lia).
  destruct fuel as [|fuel]; [lia|]. cbn [midi_loop]. rewrite (proj2 (Nat.leb_gt _ _)) by (rewrite !length_app; lia).
  rewrite midi_step_msg by (done || rewrite !length_app; lia). cbn [mbind option_bind stream_events].
  specialize (IH fuel (pre ++ msg_bytes m) ltac:(lia)). rewrite <- app_assoc in IH.
  rewrite <- (length_app pre (msg_bytes m)). by rewrite IH.
Qed.

(** Bytes of data before the first status byte are passed over. *)
Lemma midi_loop_skip dev now buf junk n : Forall (λ b, b < 0x80) junk → ∀ pre fuel,
  n = length (pre ++ junk ++ buf) → (length junk + length buf <= fuel)%nat →
  midi_loop dev now (pre ++ junk ++ buf) n fuel (length pre) =
  midi_loop dev now (pre ++ junk ++ buf) n (fuel - length junk) (length (pre ++ junk)).
Proof.
  induction 1 as [|b junk Hb _ IH]; intros pre fuel Hn Hf.
  { cbn. by rewrite app_nil_r, Nat.sub_0_r. }
  cbn [length] in Hf. destruct fuel as [|fuel]; [lia|]. cbn [midi_loop].
  rewrite (proj2 (Nat.leb_gt _ _)) by (rewrite Hn, !length_app; cbn; lia).
  unfold midi_step. pose proof (lookup_pre pre ((b :: junk) ++ buf) 0) as E. rewrite Nat.add_0_r in E. rewrite E.
  cbn [app lookup list_lookup mbind option_bind]. rewrite (proj2 (Z.ltb_lt _ _)) by done.
  specialize (IH (pre ++ [b]) fuel). rewrite <- !app_assoc in IH. cbn [app] in IH.
  replace (length (pre ++ [b])) with (S (length pre)) in IH by (rewrite length_app; cbn; lia).
  change (S fuel - length (b :: junk))%nat with (fuel - length junk)%nat.
  cbn [mbind option_bind]. rewrite IH by (done || lia).
  by destruct (midi_loop dev now (pre ++ b :: junk ++ buf) n (fuel - length junk) (length (pre ++ b :: junk))).
Qed.

(** MIDI round trip.  The bytes of any sequence of messages (notes, controllers, programs,
    pressure, 14-bit bends, system-exclusive texts), preceded by any stray data bytes, parse to
    exactly the events of these messages in order; a note-on of velocity 0 is a release, and
    pressure gives no event. *)
Theorem midi_roundtrip (dev : string) (now : nat → time) (junk : list Z) (ms : list midi_msg) :
  Forall (λ b, b < 0x80) junk → Forall msg_ok ms →
  let buf := junk ++ concat (msg_bytes <$> ms) in
  parseMIDIBytes dev now buf (length buf) = Some (stream_events dev now (length junk) ms).
Proof.
  intros Hj Hm. cbv zeta. unfold parseMIDIBytes.
  pose proof (midi_loop_skip dev now (concat (msg_bytes <$> ms)) junk _ Hj [] (length (junk ++ concat (msg_bytes <$> ms))) eq_refl) as E.
  cbn [app length] in E. rewrite E by (rewrite length_app; lia).
  apply midi_loop_msgs; [done|]. rewrite length_app. lia.
Qed.
Lemma midi_roundtrip_witness :
  option_map (map PitchBend) (parseMIDIBytes "d" (λ _, 0)
    ([5] ++ concat (msg_bytes <$> [Note true 3 60 0; SystemExclusive [1; 2]; Bend 0 (-8192); Bend 15 8191]))
    (length ([5] ++ concat (msg_bytes <$> [Note true 3 60 0; SystemExclusive [1; 2]; Bend 0 (-8192); Bend 15 8191])))) =
  Some [0; 0; -8192; 8191].
Proof.
  etrans; [apply (f_equal (option_map (map PitchBend))); apply (midi_roundtrip "d" (λ _, 0) [5]
    [Note true 3 60 0; SystemExclusive [1; 2]; Bend 0 (-8192); Bend 15 8191])|reflexivity].
  - repeat constructor; lia.
  - repeat (constructor; cbn; try lia).
Defined.

(** ** Grid frames *)
Lemma IndexByte_none c s : lacks c s → IndexByte s c = None.
Proof.
  induction s as [|a s IH]; [done|]. intros [Hne H]%lacks_cons. cbn. rewrite bool_decide_false by done. by rewrite IH.
Qed.
Lemma IndexByte_first c p r : lacks c p → IndexByte (p +:+ String c r) c = Some (String.length p).
Proof.
  induction p as [|a p IH]; [intros _; cbn; by rewrite bool_decide_true|]. intros [Hne H]%lacks_cons. cbn.
  rewrite bool_decide_false by done. by rewrite IH.
Qed.

Lemma drop_app_S p c r : string_drop (S (String.length p)) (p +:+ String c r) = r.
Proof. induction p as [|a p IH]; [done|exact IH]. Qed.
Lemma take_app_all p r : string_take (String.length p) (p +:+ r) = p.
Proof. induction p as [|a p IH]; [done|]. cbn. by rewrite IH. Qed.

Definition frame_of (p : string) : GridMessage := {| Raw := GridEncodeFrame p; Payload := p |}.
Definition then_frame (p : string) (r : option (list GridMessage * string)) : option (list GridMessage * string) :=
  (λ q : list GridMessage * string, (frame_of p :: q.1, q.2)) <$> r.

(** The three cases of the loop. *)
Lemma frames_none f s : lacks gridSTX s → grid_frames (S f) s = Some ([], "").
Proof. intros H. cbn. by rewrite IndexByte_none. Qed.
Lemma frames_open f g r : lacks gridSTX g → lacks gridETX r →
  grid_frames (S f) (g +:+ String gridSTX r) = Some ([], String gridSTX r).
Proof.
  intros Hg Hr. cbn [grid_frames]. rewrite IndexByte_first, drop_app_S, IndexByte_none by done. by rewrite string_drop_app.
Qed.
Lemma frames_step f g p r : lacks gridSTX g → lacks gridETX p →
  grid_frames (S f) (g +:+ String gridSTX (p +:+ String gridETX r)) = then_frame p (grid_frames f r).
Proof.
  intros Hg Hp. cbn [grid_frames]. rewrite IndexByte_first, drop_app_S, IndexByte_first, string_drop_app by done.
  replace (String.length p + String.length g + 1 - S (String.length g))%nat with (String.length p) by lia.
  replace (S (String.length p + String.length g + 1) - String.length g)%nat with (S (S (String.length p))) by lia.
  rewrite take_app_all. unfold then_frame, frame_of.
  assert (string_take (S (S (String.length p))) (String gridSTX (p +:+ String gridETX r)) = GridEncodeFrame p) as ->.
  { replace (String gridSTX (p +:+ String gridETX r)) with (GridEncodeFrame p +:+ r) by (cbn; by rewrite string_app_assoc).
    replace (S (S (String.length p))) with (String.length (GridEncodeFrame p))
      by (unfold GridEncodeFrame; cbn [String.length]; rewrite string_length_app; cbn; lia).
    apply take_app_all. }
  assert (string_drop (S (String.length p + String.length g + 1)) (g +:+ String gridSTX (p +:+ String gridETX r)) = r) as ->.
  { replace (g +:+ String gridSTX (p +:+ String gridETX r)) with ((g +:+ String gridSTX p) +:+ String gridETX r)
      by (by rewrite string_app_assoc).
    replace (S (String.length p + String.length g + 1))%nat with (S (String.length (g +:+ String gridSTX p)))
      by (rewrite string_length_app; cbn; lia). apply drop_app_S. }
  by destruct (grid_frames f r) as [[ms rest]|].
Qed.

(** Enough fuel is the length of the buffer and one more. *)
Lemma frames_total data f : (String.length data < f)%nat → ∃ r, grid_frames f data = Some r ∧ ∀ f', (String.length data < f')%nat →
  grid_frames f' data = Some r.
Proof.
  remember (String.length data) as n eqn:En. revert data En f. induction n as [n IH] using lt_wf_ind. intros data En f Hf.
  destruct f as [|f]; [lia|]. destruct (split_at gridSTX data) as [Hs|(g & r & -> & Hg)].
  { eexists. split; [by apply frames_none|]. intros [|f'] ?; [lia|by apply frames_none]. }
  destruct (split_at gridETX r) as [He|(p & r' & -> & Hp)].
  { eexists. split; [by apply frames_open|]. intros [|f'] ?; [lia|by apply frames_open]. }
  rewrite string_length_app in En. cbn [String.length] in En. rewrite string_length_app in En. cbn [String.length] in En.
  destruct (IH (String.length r') ltac:(lia) r' eq_refl f ltac:(lia)) as (q & E & Hq).
  exists (frame_of p :: q.1, q.2). rewrite frames_step, E by done. split; [done|]. intros [|f'] Hf'; [lia|].
  rewrite frames_step, Hq by (done || lia). done.
Qed.

Lemma parse_step g p r : lacks gridSTX g → lacks gridETX p →
  GridParseFrames (g +:+ String gridSTX (p +:+ String gridETX r)) = then_frame p (GridParseFrames r).
Proof.
  intros Hg Hp. unfold GridParseFrames at 1. rewrite frames_step by done. f_equal.
  destruct (frames_total r (S (String.length r)) ltac:(lia)) as (q & E & Hq). unfold GridParseFrames. rewrite E. apply Hq.
  rewrite string_length_app. cbn [String.length]. rewrite string_length_app. cbn [String.length]. lia.
Qed.

(** What comes before the first frame is dropped, and no more. *)
Lemma parse_skip g s : lacks gridSTX g → GridParseFrames (g +:+ s) = GridParseFrames s.
Proof.
  intros Hg. destruct (split_at gridSTX s) as [Hs|(g' & r & -> & Hg')].
  { unfold GridParseFrames. rewrite !frames_none; [done|done|]. by apply lacks_app. }
  rewrite <- string_app_assoc. assert (lacks gridSTX (g +:+ g')) by (by apply lacks_app).
  destruct (split_at gridETX r) as [He|(p & r' & -> & Hp)]; [|by rewrite !parse_step].
  unfold GridParseFrames. by rewrite !frames_open.
Qed.

(** Bytes may come in pieces: what is left of the first is parsed with the second. *)
Lemma parse_resumes data more ms rest : GridParseFrames data = Some (ms, rest) →
  GridParseFrames (data +:+ more) = (λ q : list GridMessage * string, (ms ++ q.1, q.2)) <$> GridParseFrames (rest +:+ more).
Proof.
  remember (String.length data) as n eqn:En. revert data En ms. induction n as [n IH] using lt_wf_ind. intros data En ms E.
  assert (Hid : ∀ o : option (list GridMessage * string), (λ q : list GridMessage * string, ([] ++ q.1, q.2)) <$> o = o)
    by (by intros [[? ?]|]).
  destruct (split_at gridSTX data) as [Hs|(g & r & -> & Hg)].
  { unfold GridParseFrames in E. rewrite frames_none in E by done. injection E as <- <-. by rewrite parse_skip, Hid. }
  destruct (split_at gridETX r) as [He|(p & r' & -> & Hp)].
  { unfold GridParseFrames in E. rewrite frames_open in E by done. injection E as <- <-.
    by rewrite string_app_assoc, parse_skip, Hid. }
  rewrite parse_step in E by done. destruct (GridParseFrames r') as [[ms' rest']|] eqn:E'; [|done]. cbn in E. injection E as <- <-.
  rewrite string_length_app in En. cbn [String.length] in En. rewrite string_length_app in En. cbn [String.length] in En.
  specialize (IH (String.length r') ltac:(lia) r' eq_refl ms' E').
  replace ((g +:+ String gridSTX (p +:+ String gridETX r')) +:+ more)
    with (g +:+ String gridSTX (p +:+ String gridETX (r' +:+ more))) by (rewrite !string_app_assoc; cbn; by rewrite string_app_assoc).
  rewrite parse_step, IH by done. by destruct (GridParseFrames (rest' +:+ more)) as [[? ?]|].
Qed.

(** A reader: each piece that arrives is parsed together with what was left before. *)
Fixpoint read_pieces (rest : string) (pieces : list string) : option (list GridMessage * string) :=
  match pieces with
  | [] => Some ([], rest)
  | c :: pieces =>
      r ← GridParseFrames (rest +:+ c); r' ← read_pieces r.2 pieces; Some (r.1 ++ r'.1, r'.2)
  end.

Definition concat_strings (l : list string) : string := foldr String.append "" l.

Lemma read_pieces_whole pieces : ∀ data ms rest, GridParseFrames data = Some (ms, rest) →
  ∃ r, read_pieces rest pieces = Some r ∧ GridParseFrames (data +:+ concat_strings pieces) = Some (ms ++ r.1, r.2).
Proof.
  induction pieces as [|c pieces IH]; intros data ms rest E; cbn [read_pieces].
  - exists ([], rest). split; [done|]. change (concat_strings []) with "". rewrite string_app_nil_r, E. cbn. by rewrite app_nil_r.
  - change (concat_strings (c :: pieces)) with (c +:+ concat_strings pieces).
    destruct (frames_total (rest +:+ c) (S (String.length (rest +:+ c))) ltac:(lia)) as ([ms1 r1] & E1 & _).
    unfold GridParseFrames at 1. rewrite E1. cbn [mbind option_bind fst snd].
    destruct (IH (data +:+ c) (ms ++ ms1) r1) as (r & -> & Er).
    { rewrite parse_resumes with (ms := ms) (rest := rest) by done. unfold GridParseFrames. by rewrite E1. }
    exists (ms1 ++ r.1, r.2). split; [done|]. rewrite string_app_assoc in Er. rewrite Er. cbn. by rewrite app_assoc.
Qed.

Lemma parse_frames ps : Forall (lacks gridETX) ps →
  GridParseFrames (concat_strings (GridEncodeFrame <$> ps)) = Some (frame_of <$> ps, "").
Proof.
  induction 1 as [|p ps Hp _ IH]; [done|]. cbn [fmap list_fmap concat_strings foldr].
  replace (GridEncodeFrame p +:+ foldr String.append "" (GridEncodeFrame <$> ps)) with
    ("" +:+ String gridSTX (p +:+ String gridETX (concat_strings (GridEncodeFrame <$> ps)))) by (cbn; by rewrite string_app_assoc).
  rewrite parse_step by (done || apply lacks_nil). by rewrite IH.
Qed.

Lemma lacks_lua_call f args : lacks gridETX f → lacks gridETX (lua_call f args).
Proof.
  intros Hf. unfold lua_call.
  assert (∀ c, c ≠ gridETX → lacks gridETX (String c "")) as Hc by (intros; apply lacks_cons; split; [done|apply lacks_nil]).
  assert (Hd : lacks gridETX ("-" +:+ digit_bytes)) by (unfold lacks; apply (bool_decide_unpack _); by vm_compute).
  rewrite !lacks_app. split; [done|]. split; [by apply Hc|]. split; [|by apply Hc].
  induction args as [|z args IH]; [apply lacks_nil|]. cbn [fmap list_fmap join].
  destruct (itoa <$> args) eqn:E; [by apply lacks_itoa|]. rewrite !lacks_app.
  split; [by apply lacks_itoa|]. split; [by apply Hc|exact IH].
Qed.

(** Grid framing.  However the bytes of a sequence of frames are cut into pieces on the way, a
    reader that parses each piece together with what the last one left gets exactly the frames
    sent, each once and in order, and nothing is left at the end (a command must not contain
    the byte that ends a frame; the LED commands never do). *)
Theorem grid_stream_reassembles (ps pieces : list string) :
  Forall (lacks gridETX) ps → concat_strings pieces = concat_strings (GridEncodeFrame <$> ps) →
  read_pieces "" pieces = Some (frame_of <$> ps, "") ∧
  ∀ index layer r g b, GridParseFrames (GridEncodeLEDColor index layer r g b) =
    Some ([frame_of (lua_call "led_color" [index; layer; r; g; b; 0])], "").
Proof.
  intros Hp E. split.
  - destruct (read_pieces_whole pieces "" [] "" eq_refl) as ([ms rest] & -> & Er). change ("" +:+ concat_strings pieces) with (concat_strings pieces) in Er.
    rewrite E, parse_frames in Er by done. by injection Er as -> ->.
  - intros index layer r g b. pose proof (parse_frames [lua_call "led_color" [index; layer; r; g; b; 0]]) as H.
    cbn [fmap list_fmap concat_strings foldr] in H. rewrite string_app_nil_r in H. apply H. constructor; [|done].
    apply lacks_lua_call. unfold lacks. apply (bool_decide_unpack _). by vm_compute.
Qed.
Lemma grid_stream_reassembles_witness :
  let stx := String gridSTX "" in let etx := String gridETX "" in
  read_pieces "" [stx +:+ "le"; "d()"; etx +:+ stx; etx] = Some ([frame_of "led()"; frame_of ""], "").
Proof.
  apply (grid_stream_reassembles ["led()"; ""] [String gridSTX "le"; "d()"; String gridETX (String gridSTX ""); String gridETX ""]).
  - repeat constructor; unfold lacks; apply (bool_decide_unpack _); by vm_compute.
  - reflexivity.
Defined.

(** ** Classification *)

(** The table of known devices is a map, and a Grid module is a MIDI device whatever its name. *)
Lemma knownDevices_keys : NoDup knownDevices.*1.
Proof. apply (bool_decide_unpack _). by vm_compute. Qed.
Lemma grid_is_midi vid pid name : IsGridDevice vid pid = true → ClassifyDevice vid pid name = TypeMIDI.
Proof.
  unfold IsGridDevice. rewrite orb_true_iff, !andb_true_iff, !Z.eqb_eq. intros [[-> ->]|[-> ->]]; reflexivity.
Qed.

Lemma contains_trans a b s : contains a b = true → contains b s = true → contains a s = true.
Proof.
  assert (Hp : ∀ a b s, has_prefix a b = true → has_prefix b s = true → has_prefix a s = true).
  { clear. intros a b s (t & ->)%has_prefix_spec (u & ->)%has_prefix_spec. apply has_prefix_spec. exists (t +:+ u).
    by rewrite string_app_assoc. }
  assert (Hin : ∀ b s, contains a b = true → has_prefix b s = true → contains a s = true).
  { clear -Hp. induction b as [|x b IH]; intros s H Hs.
    - cbn in H. rewrite orb_false_r in H. destruct s as [|y s]; cbn [contains]; by rewrite (Hp a "" _ H eq_refl).
    - destruct s as [|y s]; [done|]. cbn [contains] in H |- *. apply orb_true_iff in H as [H|H]; apply orb_true_iff; [left; by eapply Hp|right].
      cbn in Hs. apply andb_true_iff in Hs as [_ Hs]. by apply IH. }
  intros Hab. induction s as [|y s IH]; cbn [contains]; rewrite !orb_true_iff.
  - intros [H|?]; [|done]. left. apply Hin with (s := "") in Hab; [|done]. cbn in Hab. by rewrite orb_false_r in Hab.
  - intros [H|H]; [|right; by apply IH]. apply Hin with (s := String y s) in Hab; [|done]. cbn [contains] in Hab.
    by apply orb_true_iff.
Qed.

(** ** Where the code falls short *)

(** The test for "pedal" comes before the one for "pedals": pedals are never racing gear. *)
Lemma pedals_never_wheel name : contains "pedals" (to_lower name) = true → name_type name ≠ TypeRacingWheel.
Proof.
  intros H. apply (contains_trans "pedal") in H; [|done]. unfold name_type. cbv zeta. set (l := to_lower name) in *.
  assert (containsAny l ["stream deck"; "pedal"; "macropad"; "keypad"] = true) as ->.
  { cbn [containsAny existsb]. rewrite H. by rewrite orb_true_r. }
  destruct (containsAny l _); [done|]. by destruct (containsAny l _).
Qed.
Example vendorless_pedals : ClassifyDevice 0 0 "Racing Pedals" = TypeGenericHID.
Proof. vm_compute. reflexivity. Qed.

(** A status byte in place of data is taken for data: a message cut short swallows the next. *)
Lemma cut_message_eats_next :
  option_map (map (λ e, (MIDINote e, Velocity e))) (parseMIDIBytes "d" (λ _, 0) [0x90; 60; 0x90; 64; 80] 5) = Some [(60, 16)].
Proof. vm_compute. reflexivity. Qed.

(** A real-time byte, which may stand anywhere, ends a system-exclusive text. *)
Lemma realtime_cuts_sysex :
  option_map (map SysEx) (parseMIDIBytes "d" (λ _, 0) [0xF0; 1; 0xF8; 2; 0xF7] 5) = Some [[0xF0; 1]].
Proof. vm_compute. reflexivity. Qed.
