(* ===== verification/DeviceManager.v ===== *)
(** The device manager (src/device/manager.go): devices found by providers, connections opened
    and closed, the goroutine that forwards each connection's events, and automatic
    reconnection.  Everything interleaves at the manager's lock. *)

From stdpp Require Import base tactics list gmap strings relations.
From Stdlib Require Import ZArith Lia.
From S2P Require Import Prelude Device.

Local Open Scope Z_scope.

(** ** Configuration and state *)
Record ManagerConfig := { PollRate : duration; ReconnectDelay : duration; MaxReconnects : Z; EventBuffer : Z }.
Definition withDefaults (c : ManagerConfig) : ManagerConfig := {|
  PollRate := if PollRate c =? 0 then Millisecond else PollRate c;
  ReconnectDelay := if ReconnectDelay c =? 0 then 2 * Second else ReconnectDelay c;
  MaxReconnects := MaxReconnects c;
  EventBuffer := if EventBuffer c =? 0 then 256 else EventBuffer c |}.

(** What is known of a device; of its [Info] only the identifier matters here. *)
Record managedDevice := {
  connected : bool;
  closedByUser : bool;
  lastSeen : time;
  reconnects : Z
}.
Definition found (now : time) : managedDevice := {| connected := false; closedByUser := false; lastSeen := now; reconnects := 0 |}.

Inductive HotPlugType := HotPlugConnect | HotPlugDisconnect.

(** A connection is the address of its object. *)
Record Manager := {
  config : ManagerConfig;
  devices : gmap string managedDevice;
  conns : gmap string nat;
  eventBus : list Event;
  hotplug : list (HotPlugType * string);
  done_ : bool
}.

Definition NewManager (c : ManagerConfig) : Manager := {|
  config := withDefaults c; devices := ∅; conns := ∅; eventBus := []; hotplug := []; done_ := false |}.

Definition set_tables (d : gmap string managedDevice) (c : gmap string nat) (m : Manager) : Manager := {|
  config := config m; devices := d; conns := c; eventBus := eventBus m; hotplug := hotplug m; done_ := done_ m |}.

(** Start: what the providers enumerate, in order; a later device replaces one of its name. *)
Definition add_devices (now : time) (ids : list string) (m : Manager) : Manager :=
  set_tables (foldl (λ d id, <[id := found now]> d) (devices m) ids) (conns m) m.

(** A send that is dropped when the channel is full. *)
Definition emit (t : HotPlugType) (id : string) (m : Manager) : Manager :=
  if bool_decide (length (hotplug m) < 32)%nat then {|
    config := config m; devices := devices m; conns := conns m; eventBus := eventBus m;
    hotplug := hotplug m ++ [(t, id)]; done_ := done_ m |}
  else m.
Definition publish (e : Event) (m : Manager) : Manager :=
  if Z.of_nat (length (eventBus m)) <? EventBuffer (config m) then {|
    config := config m; devices := devices m; conns := conns m; eventBus := eventBus m ++ [e];
    hotplug := hotplug m; done_ := done_ m |}
  else m.

(** Refresh, for one device of an enumeration. *)
Definition refresh_device (now : time) (id : string) (m : Manager) : Manager :=
  match devices m !! id with
  | None => emit HotPlugConnect id (set_tables (<[id := found now]> (devices m)) (conns m) m)
  | Some md => set_tables (<[id := {| connected := connected md; closedByUser := closedByUser md; lastSeen := now;
                                      reconnects := reconnects md |}]> (devices m)) (conns m) m
  end.
Definition Refresh (now : time) (ids : list string) (m : Manager) : Manager := foldl (λ m id, refresh_device now id m) m ids.

Definition ListDevices (m : Manager) : list string := (map_to_list (devices m)).*1.
Definition GetDevice (id : string) (m : Manager) : option managedDevice := devices m !! id.

(** The start of [Connect]: [Some true] goes on to open the device, [Some false] has nothing to do,
    [None] is an unknown device. *)
Definition connect_check (id : string) (m : Manager) : option bool :=
  match devices m !! id with
  | None => None
  | Some _ => match conns m !! id with Some _ => Some false | None => Some true end
  end.
(** Its end: the connection is registered. *)
Definition connect_install (id : string) (c : nat) (m : Manager) : Manager :=
  set_tables (alter (λ md, {| connected := true; closedByUser := false; lastSeen := lastSeen md; reconnects := reconnects md |}) id (devices m))
    (<[id := c]> (conns m)) m.

(** [Disconnect]: the connection to close, if there is one. *)
Definition disconnect (id : string) (m : Manager) : option nat * Manager :=
  match conns m !! id with
  | None => (None, m)
  | Some c =>
      (Some c, set_tables (alter (λ md, {| connected := false; closedByUser := true; lastSeen := lastSeen md; reconnects := reconnects md |})
        id (devices m)) (delete id (conns m)) m)
  end.

(** [forwardEvents], when the connection's channel is closed. *)
Definition forget_conn (id : string) (m : Manager) : Manager :=
  set_tables (alter (λ md, {| connected := false; closedByUser := closedByUser md; lastSeen := lastSeen md; reconnects := reconnects md |})
    id (devices m)) (delete id (conns m)) m.

(** [attemptReconnect]: whether the device may be opened again; the registration; giving up. *)
Definition may_reconnect (id : string) (m : Manager) : bool :=
  match devices m !! id with Some md => negb (closedByUser md) | None => false end.
Definition reconnect_install (id : string) (c : nat) (m : Manager) : Manager :=
  set_tables (alter (λ md, {| connected := true; closedByUser := closedByUser md; lastSeen := lastSeen md; reconnects := 0 |})
    id (devices m)) (<[id := c]> (conns m)) m.
Definition stop_trying (id : string) (m : Manager) : Manager :=
  set_tables (alter (λ md, {| connected := connected md; closedByUser := closedByUser md; lastSeen := lastSeen md;
    reconnects := reconnects md + 1 |}) id (devices m)) (conns m) m.
Definition more_attempts (attempt : Z) (m : Manager) : bool :=
  (MaxReconnects (config m) =? 0) || (attempt <=? MaxReconnects (config m)).

(** [Close]: the connections to close; closing the [done] channel twice panics ([None]). *)
Definition Close (m : Manager) : option (list nat * Manager) :=
  if done_ m then None
  else Some ((map_to_list (conns m)).*2, {|
    config := config m; devices := devices m; conns := ∅; eventBus := eventBus m; hotplug := hotplug m; done_ := true |}).

(** ** Goroutines *)
Inductive call :=
| Connecting (id : string)              (* Connect, before the device is opened *)
| Opened (id : string) (c : nat)        (* Connect, with the connection started *)
| Forwarding (id : string) (c : nat)    (* forwardEvents, in its loop *)
| Unplugged (id : string)               (* forwardEvents, before its notification *)
| Deciding (id : string)                (* forwardEvents, before it decides on a reconnection *)
| Waiting (id : string) (attempt : Z)   (* attemptReconnect, at the head of its loop *)
| Reopening (id : string) (attempt : Z) (* attemptReconnect, before the device is opened *)
| Reopened (id : string) (c : nat)      (* attemptReconnect, with the connection started *)
| Announcing (id : string) (c : nat).   (* attemptReconnect, before its notification *)

(** The manager, its goroutines, the connections that are open, and the next address. *)
Record system := { mgr : Manager; calls : list call; open : gset nat; fresh : nat }.
Definition start (c : ManagerConfig) (now : time) (ids : list string) : system :=
  {| mgr := add_devices now ids (NewManager c); calls := []; open := ∅; fresh := 0 |}.

Inductive step : system → system → Prop :=
(* the callers *)
| do_refresh m k o n now ids :
    step {| mgr := m; calls := k; open := o; fresh := n |} {| mgr := Refresh now ids m; calls := k; open := o; fresh := n |}
| do_connect m k o n id :
    connect_check id m = Some true →
    step {| mgr := m; calls := k; open := o; fresh := n |} {| mgr := m; calls := Connecting id :: k; open := o; fresh := n |}
| do_disconnect m k o n id c m' :
    disconnect id m = (Some c, m') →
    step {| mgr := m; calls := k; open := o; fresh := n |} {| mgr := m'; calls := k; open := o ∖ {[c]}; fresh := n |}
| do_close m k o n cs m' :
    Close m = Some (cs, m') →
    step {| mgr := m; calls := k; open := o; fresh := n |} {| mgr := m'; calls := k; open := o ∖ list_to_set cs; fresh := n |}
| take_event m k o n e rest :
    eventBus m = e :: rest →
    step {| mgr := m; calls := k; open := o; fresh := n |}
         {| mgr := {| config := config m; devices := devices m; conns := conns m; eventBus := rest; hotplug := hotplug m; done_ := done_ m |};
            calls := k; open := o; fresh := n |}
| take_hotplug m k o n e rest :
    hotplug m = e :: rest →
    step {| mgr := m; calls := k; open := o; fresh := n |}
         {| mgr := {| config := config m; devices := devices m; conns := conns m; eventBus := eventBus m; hotplug := rest; done_ := done_ m |};
            calls := k; open := o; fresh := n |}
(* a device goes away: its connection's channel is closed *)
| unplug m k o n c :
    step {| mgr := m; calls := k; open := o; fresh := n |} {| mgr := m; calls := k; open := o ∖ {[c]}; fresh := n |}
(* Connect: opening or starting may fail *)
| connect_fails m k k' o n id :
    k ≡ₚ Connecting id :: k' →
    step {| mgr := m; calls := k; open := o; fresh := n |} {| mgr := m; calls := k'; open := o; fresh := n |}
| connect_opens m k k' o n id :
    k ≡ₚ Connecting id :: k' →
    step {| mgr := m; calls := k; open := o; fresh := n |} {| mgr := m; calls := Opened id n :: k'; open := {[n]} ∪ o; fresh := S n |}
| connect_registers m k k' o n id c :
    k ≡ₚ Opened id c :: k' →
    step {| mgr := m; calls := k; open := o; fresh := n |}
         {| mgr := connect_install id c m; calls := Forwarding id c :: k'; open := o; fresh := n |}
(* forwardEvents *)
| forward m k k' o n id c e :
    k ≡ₚ Forwarding id c :: k' →
    step {| mgr := m; calls := k; open := o; fresh := n |} {| mgr := publish e m; calls := k; open := o; fresh := n |}
| forward_ends m k k' o n id c :
    k ≡ₚ Forwarding id c :: k' → c ∉ o →
    step {| mgr := m; calls := k; open := o; fresh := n |} {| mgr := forget_conn id m; calls := Unplugged id :: k'; open := o; fresh := n |}
| forward_tells m k k' o n id :
    k ≡ₚ Unplugged id :: k' →
    step {| mgr := m; calls := k; open := o; fresh := n |}
         {| mgr := match devices m !! id with Some _ => emit HotPlugDisconnect id m | None => m end;
            calls := Deciding id :: k'; open := o; fresh := n |}
| forward_decides m k k' o n id :
    k ≡ₚ Deciding id :: k' →
    step {| mgr := m; calls := k; open := o; fresh := n |}
         {| mgr := m; calls := (match devices m !! id with
                                | Some md => if closedByUser md then [] else [Waiting id 1]
                                | None => [Waiting id 1]
                                end) ++ k'; open := o; fresh := n |}
(* attemptReconnect *)
| reconnect_cancelled m k k' o n id a :
    k ≡ₚ Waiting id a :: k' → more_attempts a m = true →
    step {| mgr := m; calls := k; open := o; fresh := n |} {| mgr := m; calls := k'; open := o; fresh := n |}
| reconnect_waits m k k' o n id a :
    k ≡ₚ Waiting id a :: k' → more_attempts a m = true →
    step {| mgr := m; calls := k; open := o; fresh := n |}
         {| mgr := m; calls := (if may_reconnect id m then [Reopening id a] else []) ++ k'; open := o; fresh := n |}
| reconnect_exhausted m k k' o n id a :
    k ≡ₚ Waiting id a :: k' → more_attempts a m = false →
    step {| mgr := m; calls := k; open := o; fresh := n |} {| mgr := stop_trying id m; calls := k'; open := o; fresh := n |}
| reconnect_fails m k k' o n id a :
    k ≡ₚ Reopening id a :: k' →
    step {| mgr := m; calls := k; open := o; fresh := n |} {| mgr := m; calls := Waiting id (a + 1) :: k'; open := o; fresh := n |}
| reconnect_opens m k k' o n id a :
    k ≡ₚ Reopening id a :: k' →
    step {| mgr := m; calls := k; open := o; fresh := n |} {| mgr := m; calls := Reopened id n :: k'; open := {[n]} ∪ o; fresh := S n |}
| reconnect_registers m k k' o n id c :
    k ≡ₚ Reopened id c :: k' → may_reconnect id m = true →
    step {| mgr := m; calls := k; open := o; fresh := n |}
         {| mgr := reconnect_install id c m; calls := Announcing id c :: k'; open := o; fresh := n |}
| reconnect_unwanted m k k' o n id c :
    k ≡ₚ Reopened id c :: k' → may_reconnect id m = false →
    step {| mgr := m; calls := k; open := o; fresh := n |} {| mgr := m; calls := k'; open := o ∖ {[c]}; fresh := n |}
| reconnect_tells m k k' o n id c :
    k ≡ₚ Announcing id c :: k' →
    step {| mgr := m; calls := k; open := o; fresh := n |}
         {| mgr := emit HotPlugConnect id m; calls := Forwarding id c :: k'; open := o; fresh := n |}.

(** ** The invariant *)
Definition holds (x : call) : list (string * nat) :=
  match x with Opened id c | Forwarding id c | Reopened id c | Announcing id c => [(id, c)] | _ => [] end.
Definition served (x : call) : list (string * nat) :=
  match x with Forwarding id c | Announcing id c => [(id, c)] | _ => [] end.
Definition attempt_ok (m : Manager) (x : call) : Prop :=
  match x with
  | Waiting _ a => 1 <= a ∧ (MaxReconnects (config m) = 0 ∨ a <= MaxReconnects (config m) + 1 ∨ a = 1)
  | Reopening _ a => 1 <= a ∧ (MaxReconnects (config m) = 0 ∨ a <= MaxReconnects (config m))
  | _ => True
  end.
Definition call_device (x : call) : option string :=
  match x with Connecting id | Opened id _ => Some id | _ => None end.
Definition known (m : Manager) (x : call) : Prop :=
  match call_device x with Some id => is_Some (devices m !! id) | None => True end.

(** What the tables say of the connections that goroutines serve. *)
Record tables_ok (m : Manager) (srv : list (string * nat)) : Prop := {
  ok_conns : ∀ id c, conns m !! id = Some c → (id, c) ∈ srv ∧
    ∃ md, devices m !! id = Some md ∧ connected md = true ∧ closedByUser md = false;
  ok_flags : done_ m = false → ∀ id md, devices m !! id = Some md → connected md = true → is_Some (conns m !! id);
  ok_hotplug : (length (hotplug m) <= 32)%nat;
  ok_bus : Z.of_nat (length (eventBus m)) <= Z.max 0 (EventBuffer (config m))
}.

Record inv (s : system) : Prop := {
  inv_tables : tables_ok (mgr s) (calls s ≫= served);
  inv_once : NoDup (calls s ≫= holds).*2;
  inv_fresh : ∀ c, c ∈ (calls s ≫= holds).*2 → (c < fresh s)%nat;
  inv_open : ∀ c, c ∈ open s → c ∈ (calls s ≫= holds).*2;
  inv_attempt : Forall (attempt_ok (mgr s)) (calls s);
  inv_known : Forall (known (mgr s)) (calls s)
}.

Lemma served_holds k id c : (id, c) ∈ k ≫= served → (id, c) ∈ k ≫= holds.
Proof.
  rewrite !list_elem_of_bind. intros (x & Hx & Hk). exists x. split; [|done].
  destruct x; cbn in *; try done; by apply elem_of_nil in Hx.
Qed.

(** The tables when the set of served connections grows, or a change does not touch them. *)
Lemma tables_mono m srv srv' : tables_ok m srv → srv ⊆ srv' → tables_ok m srv'.
Proof. intros [A B C D] H. split; [|done..]. intros id c E. destruct (A id c E) as [Hin Hmd]. split; [by apply H|done]. Qed.

(** A change of the manager that keeps the connections and the flags of each device. *)
Record quiet (m m' : Manager) : Prop := {
  q_config : config m' = config m;
  q_conns : conns m' = conns m;
  q_done : done_ m' = done_ m;
  q_devices : ∀ id, match devices m !! id with
    | Some md => ∃ md', devices m' !! id = Some md' ∧ connected md' = connected md ∧ closedByUser md' = closedByUser md
    | None => ∀ md', devices m' !! id = Some md' → connected md' = false
    end;
  q_hotplug : (length (hotplug m) <= 32)%nat → (length (hotplug m') <= 32)%nat;
  q_bus : Z.of_nat (length (eventBus m)) <= Z.max 0 (EventBuffer (config m)) →
    Z.of_nat (length (eventBus m')) <= Z.max 0 (EventBuffer (config m))
}.

Lemma quiet_self m : quiet m m.
Proof. split; try done. intros id. destruct (devices m !! id) as [md|] eqn:E; [by exists md|congruence]. Qed.
Lemma quiet_then m1 m2 m3 : quiet m1 m2 → quiet m2 m3 → quiet m1 m3.
Proof.
  intros [A1 B1 C1 D1 E1 F1] [A2 B2 C2 D2 E2 F2]. split; try congruence; [|auto|rewrite A1 in F2; auto].
  intros id. specialize (D1 id). specialize (D2 id). destruct (devices m1 !! id) as [md|].
  - destruct D1 as (md' & E & ? & ?). rewrite E in D2. destruct D2 as (md'' & -> & ? & ?). exists md''. split; [done|]. split; congruence.
  - destruct (devices m2 !! id) as [md'|] eqn:E; [|done]. intros md'' E''. destruct D2 as (md3 & E3 & Hc & _).
    specialize (D1 md' eq_refl). congruence.
Qed.
Lemma quiet_same_devices m m' : config m' = config m → conns m' = conns m → done_ m' = done_ m → devices m' = devices m →
  ((length (hotplug m) <= 32)%nat → (length (hotplug m') <= 32)%nat) →
  (Z.of_nat (length (eventBus m)) <= Z.max 0 (EventBuffer (config m)) → Z.of_nat (length (eventBus m')) <= Z.max 0 (EventBuffer (config m))) →
  quiet m m'.
Proof. intros ? ? ? E ? ?. split; try done. intros id. rewrite E. destruct (devices m !! id) as [md|] eqn:E'; [by exists md|congruence]. Qed.

Lemma quiet_emit t id m : quiet m (emit t id m).
Proof.
  unfold emit. destruct (bool_decide_reflect (length (hotplug m) < 32)%nat); [|apply quiet_self].
  apply quiet_same_devices; try done. cbn. rewrite length_app. cbn. lia.
Qed.
Lemma quiet_publish e m : quiet m (publish e m).
Proof.
  unfold publish. destruct (Z.ltb_spec (Z.of_nat (length (eventBus m))) (EventBuffer (config m))); [|apply quiet_self].
  apply quiet_same_devices; try done. cbn. rewrite length_app. cbn. lia.
Qed.
Lemma quiet_set_device id md' m :
  match devices m !! id with
  | Some md => connected md' = connected md ∧ closedByUser md' = closedByUser md
  | None => connected md' = false
  end → quiet m (set_tables (<[id := md']> (devices m)) (conns m) m).
Proof.
  intros H. split; try done. intros id'. cbn. destruct (decide (id' = id)) as [->|Hne].
  - rewrite lookup_insert_eq. destruct (devices m !! id); [by exists md'|]. by intros ? [= <-].
  - rewrite lookup_insert_ne by done. destruct (devices m !! id') as [md|] eqn:E; [by exists md|congruence].
Qed.
Lemma quiet_refresh now id m : quiet m (refresh_device now id m).
Proof.
  unfold refresh_device. destruct (devices m !! id) as [md|] eqn:E.
  - apply quiet_set_device. by rewrite E.
  - eapply quiet_then; [|apply quiet_emit]. apply quiet_set_device. by rewrite E.
Qed.
Lemma quiet_Refresh now ids m : quiet m (Refresh now ids m).
Proof.
  unfold Refresh. revert m. induction ids as [|id ids IH]; intros m; [apply quiet_self|]. cbn.
  eapply quiet_then; [apply quiet_refresh|apply IH].
Qed.
Lemma quiet_stop_trying id m : quiet m (stop_trying id m).
Proof.
  split; try done. intros id'. cbn. destruct (decide (id' = id)) as [->|Hne].
  - rewrite lookup_alter_eq. destruct (devices m !! id) as [md|]; [by eexists|done].
  - rewrite lookup_alter_ne by done. destruct (devices m !! id') as [md|] eqn:E; [by exists md|congruence].
Qed.

Lemma quiet_tables m m' srv : quiet m m' → tables_ok m srv → tables_ok m' srv.
Proof.
  intros [A B C D E F] [Hc Hf Hh Hb]. split.
  - intros id c. rewrite B. intros Ec. destruct (Hc id c Ec) as (Hin & md & Emd & H1 & H2). split; [done|].
    specialize (D id). rewrite Emd in D. destruct D as (md' & ? & ? & ?). exists md'. split; [done|]. split; congruence.
  - rewrite C, B. intros Hd id md' Emd Hcon. specialize (D id). destruct (devices m !! id) as [md|] eqn:E'.
    + destruct D as (md2 & E2 & H2 & _). apply (Hf Hd id md); [done|congruence].
    + specialize (D md' Emd). congruence.
  - by apply E.
  - rewrite A. by apply F.
Qed.

Lemma quiet_known m m' x : quiet m m' → known m x → known m' x.
Proof.
  intros [_ _ _ D _ _]. unfold known. destruct (call_device x) as [id|]; [|done]. intros [md Emd].
  specialize (D id). rewrite Emd in D. destruct D as (md' & -> & _). by eexists.
Qed.

Lemma attempt_config m m' x : config m' = config m → attempt_ok m x → attempt_ok m' x.
Proof. intros E. by destruct x; cbn; rewrite ?E. Qed.

(** One goroutine moves on: [x] becomes [ks], the others stay. *)
Lemma inv_replace m m' k x k' ks o o' n n' :
  inv {| mgr := m; calls := k; open := o; fresh := n |} → k ≡ₚ x :: k' →
  (tables_ok m (served x ++ (k' ≫= served)) → tables_ok m' ((ks ≫= served) ++ (k' ≫= served))) →
  ((ks ≫= holds) = holds x ∧ n' = n ∧ o' ⊆ o ∨
   (∃ id, (ks ≫= holds) = [(id, n)]) ∧ holds x = [] ∧ n' = S n ∧ o' ⊆ {[n]} ∪ o ∨
   (ks ≫= holds) = [] ∧ n' = n ∧ o' ⊆ o ∧ ∀ c, c ∈ (holds x).*2 → c ∉ o') →
  config m' = config m → (attempt_ok m x → Forall (attempt_ok m') ks) → (known m x → Forall (known m') ks) →
  (∀ y, known m y → known m' y) →
  inv {| mgr := m'; calls := ks ++ k'; open := o'; fresh := n' |}.
Proof.
  intros [Ht Ho Hf Hp Ha Hk] H Ht' Hc Hcfg Ha' Hk' Hkn. cbn [mgr calls open fresh] in *.
  assert (Hh : (k ≫= holds).*2 ≡ₚ (holds x).*2 ++ (k' ≫= holds).*2) by (rewrite H, bind_cons, fmap_app; done).
  rewrite Hh in Ho. rewrite H in Ha, Hk. apply Forall_cons in Ha as [Hax Ha], Hk as [Hkx Hk].
  split; cbn [mgr calls open fresh]; rewrite ?bind_app, ?fmap_app.
  - apply Ht'. eapply tables_mono; [exact Ht|]. intros p. by rewrite H, bind_cons.
  - destruct Hc as [(-> & _)|[([id ->] & Hx & _)|(-> & _)]]; [done| |].
    + rewrite Hx in Ho. cbn. apply NoDup_cons. split; [|done]. intros Hin. specialize (Hf n). rewrite Hh, Hx in Hf.
      specialize (Hf Hin). lia.
    + cbn. by apply NoDup_app in Ho as (_ & _ & ?).
  - intros c Hin. destruct Hc as [(E & -> & _)|[([id E] & Hx & -> & _)|(E & -> & _)]]; rewrite E in Hin.
    + apply Hf. by rewrite Hh.
    + cbn in Hin. apply elem_of_cons in Hin as [->|Hin]; [lia|]. specialize (Hf c). rewrite Hh, Hx in Hf. specialize (Hf Hin). lia.
    + apply Hf. rewrite Hh. apply elem_of_app. by right.
  - intros c Hin. destruct Hc as [(E & -> & Ho')|[([id E] & Hx & -> & Ho')|(E & -> & Ho' & Hno)]]; rewrite E.
    + apply Ho', Hp in Hin. by rewrite Hh in Hin.
    + apply Ho' in Hin. apply elem_of_union in Hin as [->%elem_of_singleton|Hin]; [left|]. apply Hp in Hin. rewrite Hh, Hx in Hin.
      by right.
    + pose proof (Ho' c Hin) as Hin'. apply Hp in Hin'. rewrite Hh in Hin'. apply elem_of_app in Hin' as [Hin'|Hin']; [|done].
      by destruct (Hno c Hin').
  - apply Forall_app. split; [by apply Ha'|]. eapply Forall_impl; [exact Ha|]. intros y. by apply attempt_config.
  - apply Forall_app. split; [by apply Hk'|]. eapply Forall_impl; [exact Hk|]. intros y. apply Hkn.
Qed.

(** A goroutine moves on without changing what it holds or what the tables say. *)
Lemma inv_quiet m m' k x k' ks o n :
  inv {| mgr := m; calls := k; open := o; fresh := n |} → k ≡ₚ x :: k' → quiet m m' →
  (ks ≫= holds) = holds x → (served x ⊆ ks ≫= served) → (attempt_ok m x → Forall (attempt_ok m) ks) →
  (known m x → Forall (known m) ks) →
  inv {| mgr := m'; calls := ks ++ k'; open := o; fresh := n |}.
Proof.
  intros Hi H Hq Hh Hs Ha Hk. assert (Hkn : ∀ y, known m y → known m' y) by (intros y; by apply quiet_known).
  eapply inv_replace; [exact Hi|exact H| |by left|apply Hq| | |done].
  - intros Ht. eapply quiet_tables; [exact Hq|]. eapply tables_mono; [exact Ht|]. intros p. rewrite !elem_of_app.
    intros [?|?]; [left; by apply Hs|by right].
  - intros Hx. eapply Forall_impl; [by apply Ha|]. intros y. apply attempt_config, Hq.
  - intros Hx. eapply Forall_impl; [by apply Hk|]. exact Hkn.
Qed.

(** No goroutine moves. *)
Lemma inv_tables_only m m' k o o' n :
  inv {| mgr := m; calls := k; open := o; fresh := n |} → config m' = config m → o' ⊆ o →
  (∀ srv, tables_ok m srv → tables_ok m' srv) → (∀ y, known m y → known m' y) →
  inv {| mgr := m'; calls := k; open := o'; fresh := n |}.
Proof.
  intros [Ht Ho Hf Hp Ha Hk] Hc Hoo Ht' Hkn. split; cbn [mgr calls open fresh] in *; auto.
  - eapply Forall_impl; [exact Ha|]. intros y. by apply attempt_config.
  - eapply Forall_impl; [exact Hk|]. done.
Qed.

(** ** The operations on the tables *)
Lemma known_alter f id c m y : known m y → known (set_tables (alter f id (devices m)) c m) y.
Proof.
  unfold known. destruct (call_device y) as [id'|]; [|done]. cbn. intros [md E]. destruct (decide (id' = id)) as [->|Hne].
  - rewrite lookup_alter_eq, E. by eexists.
  - by rewrite lookup_alter_ne, E.
Qed.

(** A connection is registered for a device that is not barred. *)
Lemma tables_install f id c m srv : is_Some (devices m !! id) →
  (∀ md, devices m !! id = Some md → connected (f md) = true ∧ closedByUser (f md) = false) →
  tables_ok m srv → tables_ok (set_tables (alter f id (devices m)) (<[id := c]> (conns m)) m) ((id, c) :: srv).
Proof.
  intros [md0 E0] Hf [A B C D]. split; cbn; [| |done|done].
  - intros id' c'. destruct (decide (id' = id)) as [->|Hne].
    + rewrite lookup_insert_eq, lookup_alter_eq, E0. intros [= <-]. split; [left|]. eexists. split; [done|by apply Hf].
    + rewrite lookup_insert_ne, lookup_alter_ne by done. intros E. destruct (A id' c' E) as [? ?]. split; [by right|done].
  - intros Hd id' md'. destruct (decide (id' = id)) as [->|Hne]; [rewrite lookup_insert_eq; by eexists|].
    rewrite lookup_alter_ne, lookup_insert_ne by done. by apply B.
Qed.

(** A device's connection is struck off, whichever it is. *)
Lemma tables_strike f id m srv : (∀ md, connected (f md) = false) →
  tables_ok m srv → tables_ok (set_tables (alter f id (devices m)) (delete id (conns m)) m) (filter (λ p, p.1 ≠ id) srv).
Proof.
  intros Hf [A B C D]. split; cbn; [| |done|done].
  - intros id' c'. destruct (decide (id' = id)) as [->|Hne]; [by rewrite lookup_delete_eq|].
    rewrite lookup_delete_ne, lookup_alter_ne by done. intros E. destruct (A id' c' E) as [? ?]. split; [|done].
    by apply list_elem_of_filter.
  - intros Hd id' md'. destruct (decide (id' = id)) as [->|Hne].
    + rewrite lookup_alter_eq. destruct (devices m !! id); [|done]. intros [= <-]. by rewrite Hf.
    + rewrite lookup_alter_ne, lookup_delete_ne by done. by apply B.
Qed.

Lemma filter_sub {A} (P : A → Prop) `{∀ x, Decision (P x)} (l : list A) : filter P l ⊆ l.
Proof. intros x. rewrite list_elem_of_filter. tauto. Qed.

Lemma inv_start c now ids : inv (start c now ids).
Proof.
  assert (Hd : ∀ d, (∀ id md, d !! id = Some md → connected md = false) →
    ∀ id md, foldl (λ (d : gmap string managedDevice) id, <[id := found now]> d) d ids !! id = Some md → connected md = false).
  { induction ids as [|i ids IH]; intros d Hd; [done|]. cbn. apply IH. intros id md.
    destruct (decide (id = i)) as [->|Hne]; [rewrite lookup_insert_eq; by intros [= <-]|rewrite lookup_insert_ne by done; apply Hd]. }
  split; cbn; [|apply NoDup_nil_2|by intros ? ?%elem_of_nil|by intros ?|by apply Forall_nil|by apply Forall_nil].
  split; cbn; [by intros ? ?; rewrite lookup_empty| |lia|lia].
  intros _ id md E Hc. apply Hd in E; [congruence|]. intros id' md'. by rewrite lookup_empty.
Qed.

Lemma inv_step s s' : inv s → step s s' → inv s'.
Proof.
  intros Hi Hs. destruct Hs as
    [m k o n now ids|m k o n id Hc|m k o n id c m' Hc|m k o n cs m' Hc|m k o n e rest Hb|m k o n e rest Hb|m k o n c
    |m k k' o n id H|m k k' o n id H|m k k' o n id c H|m k k' o n id c e H|m k k' o n id c H Hno|m k k' o n id H|m k k' o n id H
    |m k k' o n id a H Hm|m k k' o n id a H Hm|m k k' o n id a H Hm|m k k' o n id a H|m k k' o n id a H|m k k' o n id c H Hm
    |m k k' o n id c H Hm|m k k' o n id c H].
  - eapply inv_tables_only; [exact Hi|apply quiet_Refresh|done| |].
    + intros srv. eapply quiet_tables, quiet_Refresh.
    + intros y. eapply quiet_known, quiet_Refresh.
  - destruct Hi as [Ht Ho Hf Hp Ha Hk]. split; cbn [mgr calls open fresh] in *; try done; constructor; try done.
    unfold known. cbn. unfold connect_check in Hc. by destruct (devices m !! id).
  - unfold disconnect in Hc. destruct (conns m !! id) as [c'|] eqn:E; [|done]. injection Hc as <- <-.
    eapply inv_tables_only; [exact Hi|done|set_solver| |intros y; apply known_alter].
    intros srv Ht. eapply tables_mono; [by apply tables_strike|apply filter_sub].
  - unfold Close in Hc. destruct (done_ m) eqn:E; [done|]. injection Hc as <- <-.
    eapply inv_tables_only; [exact Hi|done|set_solver| |done]. intros srv [A B C D]. split; [|done..].
    intros id c. cbn. by rewrite lookup_empty.
  - eapply inv_tables_only; [exact Hi|done|done| |done]. intros srv [A B C D]. split; try done. cbn. rewrite Hb in D. cbn in D. lia.
  - eapply inv_tables_only; [exact Hi|done|done| |done]. intros srv [A B C D]. split; try done. cbn. rewrite Hb in C. cbn in C. lia.
  - eapply inv_tables_only; [exact Hi|done|set_solver|done|done].
  - by apply (inv_quiet m m k _ k' [] o n Hi H (quiet_self m)).
  - apply (inv_replace m m k _ k' [Opened id n] o _ n (S n) Hi H); try done.
    { right. left. split; [by exists id|done]. } { by constructor. } { intros Hk. by constructor. }
  - assert (Hk : is_Some (devices m !! id)).
    { destruct Hi as [_ _ _ _ _ Hk]. cbn in Hk. rewrite H in Hk. by apply Forall_cons in Hk as [Hk _]. }
    apply (inv_replace m _ k _ k' [Forwarding id c] o o n n Hi H); try done.
    { by apply tables_install. } { by left. } { by constructor. } { by constructor. } { intros y. apply known_alter. }
  - eapply inv_tables_only; [exact Hi|apply quiet_publish|done|intros srv; eapply quiet_tables, quiet_publish
      |intros y; eapply quiet_known, quiet_publish].
  - apply (inv_replace m _ k _ k' [Unplugged id] o o n n Hi H); try done.
    { intros Ht. eapply tables_mono; [by apply tables_strike|]. intros p. rewrite list_elem_of_filter. cbn.
      rewrite elem_of_cons. intros [Hne [->|?]]; done. }
    { right. right. split; [done|split; [done|split; [done|]]]. cbn. by intros ? ->%list_elem_of_singleton. }
    { by constructor. } { by constructor. } { intros y. apply known_alter. }
  - apply (inv_quiet m _ k _ k' [Deciding id] o n Hi H); try done; try by constructor.
    destruct (devices m !! id); [apply quiet_emit|apply quiet_self].
  - apply (inv_quiet m _ k _ k' _ o n Hi H (quiet_self m)); try done; (destruct (devices m !! id) as [md|]; [destruct (closedByUser md)|]);
      try done; try (by constructor); intros _; constructor; try done; cbn; lia.
  - by apply (inv_quiet m m k _ k' [] o n Hi H (quiet_self m)).
  - apply (inv_quiet m _ k _ k' _ o n Hi H (quiet_self m)); try done; destruct (may_reconnect id m); try done; try (by constructor).
    intros Ha. constructor; [|done]. cbn in *. unfold more_attempts in Hm. apply orb_true_iff in Hm as [?%Z.eqb_eq|?%Z.leb_le]; lia.
  - by apply (inv_quiet m _ k _ k' [] o n Hi H (quiet_stop_trying id m)).
  - apply (inv_quiet m _ k _ k' [Waiting id (a + 1)] o n Hi H (quiet_self m)); try done; try (by constructor).
    intros Ha. constructor; [|done]. cbn in *. lia.
  - apply (inv_replace m m k _ k' [Reopened id n] o _ n (S n) Hi H); try done.
    { right. left. split; [by exists id|done]. } { by constructor. } { by constructor. }
  - apply (inv_replace m _ k _ k' [Announcing id c] o o n n Hi H); try done.
    { unfold may_reconnect in Hm. apply tables_install; [by destruct (devices m !! id)|]. intros md E. rewrite E in Hm. cbn.
      by destruct (closedByUser md). }
    { by left. } { by constructor. } { by constructor. } { intros y. apply known_alter. }
  - apply (inv_replace m m k _ k' [] o _ n n Hi H); try done.
    right. right. split; [done|split; [done|split; [set_solver|]]]. cbn. intros c' ->%list_elem_of_singleton. set_solver.
  - apply (inv_quiet m _ k _ k' [Forwarding id c] o n Hi H (quiet_emit _ _ m)); try done; by constructor.
Qed.


Definition demo_config : ManagerConfig := {| PollRate := 0; ReconnectDelay := 0; MaxReconnects := 3; EventBuffer := 0 |}.

Ltac go_step c := eapply rtc_l; [eapply c; reflexivity|].


(** ** Where the code falls short *)

(** A device whose user disconnects it and connects it again at once: the goroutine of the old
    connection ends later and strikes off the new one, which stays open and served while the
    device counts as disconnected. *)
Lemma old_goroutine_strikes_new_connection : ∃ s, rtc step (start demo_config 0 ["pad"]) s ∧
  conns (mgr s) = ∅ ∧ 1%nat ∈ open s ∧ ("pad", 1%nat) ∈ calls s ≫= served ∧
  connected <$> devices (mgr s) !! "pad" = Some false ∧ Waiting "pad" 1 ∈ calls s.
Proof.
  eexists. split.
  - go_step (do_connect (start demo_config 0 ["pad"]).(mgr) [] ∅ 0%nat "pad"). go_step connect_opens. go_step connect_registers.
    eapply rtc_l; [eapply (do_disconnect _ _ _ _ "pad"); vm_compute; reflexivity|].
    eapply rtc_l; [eapply (do_connect _ _ _ _ "pad"); vm_compute; reflexivity|].
    go_step connect_opens. go_step connect_registers.
    eapply rtc_l; [eapply (forward_ends _ _ [Forwarding "pad" 1] _ _ "pad" 0); [apply Permutation_swap|vm_compute; set_solver]|].
    go_step forward_tells. go_step forward_decides. apply rtc_refl.
  - cbn [mgr calls open]. split; [reflexivity|]. split; [set_solver|]. split; [cbn; set_solver|]. split; [reflexivity|]. cbn. left.
Qed.

(** Two callers connect one device at the same time: it is opened twice, and the first connection,
    still open, is registered nowhere. *)
Lemma two_connects_open_twice : ∃ s, rtc step (start demo_config 0 ["pad"]) s ∧
  conns (mgr s) = {["pad" := 1%nat]} ∧ 0%nat ∈ open s ∧ 1%nat ∈ open s.
Proof.
  eexists. split.
  - go_step (do_connect (start demo_config 0 ["pad"]).(mgr) [] ∅ 0%nat "pad").
    go_step (do_connect (start demo_config 0 ["pad"]).(mgr) [Connecting "pad"] ∅ 0%nat "pad").
    go_step connect_opens.
    eapply rtc_l; [eapply (connect_opens _ _ [Opened "pad" 0] _ _ "pad"); apply Permutation_swap|].
    eapply rtc_l; [eapply (connect_registers _ _ [Opened "pad" 1] _ _ "pad" 0); apply Permutation_swap|].
    eapply rtc_l; [eapply (connect_registers _ _ [Forwarding "pad" 0] _ _ "pad" 1); apply Permutation_swap|]. apply rtc_refl.
  - cbn [mgr calls open]. split; [reflexivity|]. split; set_solver.
Qed.

(** The limit is one of each goroutine, not of the device: with a limit of one attempt, two goroutines reopen a device at once. *)
Definition single_try : ManagerConfig := {| PollRate := 0; ReconnectDelay := 0; MaxReconnects := 1; EventBuffer := 0 |}.
Lemma two_reconnections_at_once : ∃ s, rtc step (start single_try 0 ["pad"]) s ∧ calls s = [Reopening "pad" 1; Reopening "pad" 1].
Proof.
  eexists. split.
  - go_step (do_connect (start single_try 0 ["pad"]).(mgr) [] ∅ 0%nat "pad"). go_step connect_opens. go_step connect_registers.
    eapply rtc_l; [eapply (do_disconnect _ _ _ _ "pad"); vm_compute; reflexivity|].
    eapply rtc_l; [eapply (do_connect _ _ _ _ "pad"); vm_compute; reflexivity|].
    go_step connect_opens. go_step connect_registers.
    eapply rtc_l; [eapply (forward_ends _ _ [Forwarding "pad" 1] _ _ "pad" 0); [apply Permutation_swap|vm_compute; set_solver]|].
    go_step forward_tells. go_step forward_decides. cbn [app].
    eapply rtc_l; [eapply (unplug _ _ _ _ 1%nat)|].
    eapply rtc_l; [eapply (forward_ends _ _ [Waiting "pad" 1] _ _ "pad" 1); [apply Permutation_swap|vm_compute; set_solver]|].
    go_step forward_tells. go_step forward_decides.
    eapply rtc_l; [eapply (reconnect_waits _ _ [Waiting "pad" 1] _ _ "pad" 1); [apply (reflexivity (R := (≡ₚ)) [Waiting "pad" 1; Waiting "pad" 1])|reflexivity]|].
    eapply rtc_l; [eapply (reconnect_waits _ _ [Reopening "pad" 1] _ _ "pad" 1); [apply (Permutation_swap (Waiting "pad" 1) (Reopening "pad" 1) [])|reflexivity]|].
    apply rtc_refl.
  - reflexivity.
Qed.
(** A Disconnect while the device is being reconnected finds no connection and does nothing: the device comes back. *)
Lemma disconnect_during_reconnection : ∃ s s', rtc step (start demo_config 0 ["pad"]) s ∧ disconnect "pad" (mgr s) = (None, mgr s) ∧
  rtc step s s' ∧ conns (mgr s') = {["pad" := 1%nat]} ∧ 1%nat ∈ open s'.
Proof.
  eexists _, _. split; [|split; [|split]].
  - go_step (do_connect (start demo_config 0 ["pad"]).(mgr) [] ∅ 0%nat "pad"). go_step connect_opens. go_step connect_registers.
    eapply rtc_l; [eapply (unplug _ _ _ _ 0%nat)|].
    eapply rtc_l; [eapply forward_ends; [reflexivity|vm_compute; set_solver]|].
    go_step forward_tells. go_step forward_decides. apply rtc_refl.
  - reflexivity.
  - eapply rtc_l; [eapply (reconnect_waits _ _ [] _ _ "pad" 1); [apply (reflexivity (R := (≡ₚ)) [Waiting "pad" 1])|reflexivity]|].
    eapply rtc_l; [eapply (reconnect_opens _ _ [] _ _ "pad" 1), (reflexivity (R := (≡ₚ)) [Reopening "pad" 1])|].
    eapply rtc_l; [eapply (reconnect_registers _ _ [] _ _ "pad"); reflexivity|]. apply rtc_refl.
  - cbn [mgr open]. split; [reflexivity|]. set_solver.
Qed.

(** After [Close], a goroutine whose context is the caller's opens the device again. *)
Lemma reconnects_after_close : ∃ s, rtc step (start demo_config 0 ["pad"]) s ∧
  done_ (mgr s) = true ∧ conns (mgr s) = {["pad" := 1%nat]} ∧ 1%nat ∈ open s.
Proof.
  eexists. split.
  - go_step (do_connect (start demo_config 0 ["pad"]).(mgr) [] ∅ 0%nat "pad"). go_step connect_opens. go_step connect_registers.
    eapply rtc_l; [eapply do_close; vm_compute; reflexivity|].
    eapply rtc_l; [eapply forward_ends; [reflexivity|vm_compute; set_solver]|].
    go_step forward_tells. go_step forward_decides.
    eapply rtc_l; [eapply (reconnect_waits _ _ [] _ _ "pad" 1); [apply (reflexivity (R := (≡ₚ)) [Waiting "pad" 1])|reflexivity]|].
    eapply rtc_l; [eapply (reconnect_opens _ _ [] _ _ "pad" 1), (reflexivity (R := (≡ₚ)) [Reopening "pad" 1])|].
    eapply rtc_l; [eapply (reconnect_registers _ _ [] _ _ "pad"); reflexivity|]. apply rtc_refl.
  - cbn [mgr calls open]. split; [reflexivity|]. split; [reflexivity|]. set_solver.
Qed.

(** Closing twice panics. *)
Lemma closing_twice_panics m : match Close m with Some (_, m') => Close m' = None | None => True end.
Proof. unfold Close at 1. by destruct (done_ m). Qed.
