(* ===== verification/Middleware.v ===== *)
(** The middleware of src/middleware: gates (gate/gate.go), the text limit (truncate/truncate.go),
    confirmed writes (boundedwrite/middleware.go), prefetched context (prefetch/prefetch.go),
    correlation (correlation/correlation.go) and debug logging (debug/debug.go). *)

From stdpp Require Import base tactics list gmap strings pretty sorting.
From Stdlib Require Import ZArith Lia.
From S2P Require Import Prelude Tool Truncate.

Local Open Scope Z_scope.

(** ** Gates *)
Inductive Verdict := VerdictProceed | VerdictPause | VerdictDeny | VerdictOther (n : Z).
#[export] Instance Verdict_dec : EqDecision Verdict.
Proof. solve_decision. Defined.
Definition verdict_text (v : Verdict) : string :=
  match v with VerdictProceed => "proceed" | VerdictPause => "pause" | VerdictDeny => "deny" | VerdictOther _ => "unknown" end.

Section Gate.
Context {Ctx Req W : Type}.
Local Notation TD := (ToolDefinition (ToolHandlerFunc Ctx Req W)).

Definition GateFunc : Type := Ctx → string → TD → Req → st W Verdict.
Definition ApprovalFunc : Type := Ctx → string → TD → Req → st W bool.

Record gate_Config := {
  Gate : GateFunc;
  Approval : option ApprovalFunc;
  DenyMessage : string;
  PauseTimeoutMessage : string
}.
Definition gate_defaults (c : gate_Config) : gate_Config := {|
  Gate := Gate c; Approval := Approval c;
  DenyMessage := if bool_decide (DenyMessage c = "") then "tool call denied by gate" else DenyMessage c;
  PauseTimeoutMessage := if bool_decide (PauseTimeoutMessage c = "") then "tool call not approved" else PauseTimeoutMessage c |}.

Definition denied (text : string) : outcome := Returns (Some (MakeErrorResult ("[GATE_DENIED] " +:+ text))) None.

Definition gate_Middleware (config : gate_Config) : Truncate.Middleware Ctx Req W :=
  let config := gate_defaults config in
  λ name td next ctx req w,
    match Gate config ctx name td req w with
    | (VerdictProceed, w) => next ctx req w
    | (VerdictPause, w) =>
        match Approval config with
        | None => (denied (DenyMessage config +:+ " (no approval handler configured)"), w)
        | Some approval =>
            let '(approved, w) := approval ctx name td req w in
            if approved then next ctx req w else (denied (PauseTimeoutMessage config), w)
        end
    | (VerdictDeny, w) => (denied (DenyMessage config), w)
    | (VerdictOther n, w) => (denied ("unknown verdict: " +:+ itoa n), w)
    end.

Definition AlwaysProceed : GateFunc := λ _ _ _ _ w, (VerdictProceed, w).
Definition DenyWrites : GateFunc := λ _ _ td _ w, (if IsWrite td then VerdictDeny else VerdictProceed, w).
Definition PauseWrites : GateFunc := λ _ _ td _ w, (if IsWrite td then VerdictPause else VerdictProceed, w).

Fixpoint ChainGates (gates : list GateFunc) : GateFunc :=
  λ ctx name td req w,
    match gates with
    | [] => (VerdictProceed, w)
    | g :: gates =>
        let '(v, w) := g ctx name td req w in
        if bool_decide (v = VerdictProceed) then ChainGates gates ctx name td req w else (v, w)
    end.

Record PriorityGate := { Priority : Z; pg_Gate : GateFunc }.
(** [sort_slice] is [sort.Slice] by decreasing priority; it need not be stable. *)
Definition PriorityChain (sort_slice : list PriorityGate → list PriorityGate) (gates : list PriorityGate) : GateFunc :=
  ChainGates (pg_Gate <$> sort_slice gates).
End Gate.
Arguments GateFunc : clear implicits.
Arguments gate_Config : clear implicits.
Arguments PriorityGate : clear implicits.

(** ** The text limit *)
Definition DefaultMaxBytes : Z := 4096.
Definition DefaultHardMax : Z := 16384.
Definition DefaultMessage : string := "[Output truncated. Use a more specific query or request a subset of results.]".

Record clip_Config := { MaxBytes : Z; HardMax : Z; Message : string }.
Definition clip_DefaultConfig : clip_Config := {| MaxBytes := DefaultMaxBytes; HardMax := DefaultHardMax; Message := DefaultMessage |}.
Definition effectiveMax (c : clip_Config) : Z :=
  let max := if MaxBytes c <=? 0 then DefaultMaxBytes else MaxBytes c in
  let hard := if HardMax c <=? 0 then DefaultHardMax else HardMax c in
  if hard <? max then hard else max.
Definition clip_message (c : clip_Config) : string := if bool_decide (Message c = "") then DefaultMessage else Message c.

(** The blocks that fit in the budget; the block where it ends is cut. *)
Fixpoint clip_blocks (budget : Z) (l : list Content) : list Content :=
  match l with
  | [] => []
  | block :: l =>
      match ExtractTextContent block with
      | None => block :: clip_blocks budget l
      | Some text =>
          if budget <=? 0 then clip_blocks budget l
          else if bytes text <=? budget then block :: clip_blocks (budget - bytes text) l
          else MakeTextContent (string_take (Z.to_nat budget) text) :: clip_blocks 0 l
      end
  end.
Definition clip_result (cfg : clip_Config) (r : CallToolResult) : CallToolResult :=
  if IsError r then r else
  if text_bytes (r_Content r) <=? effectiveMax cfg then r
  else {| r_Content := clip_blocks (effectiveMax cfg) (r_Content r) ++ [MakeTextContent (clip_message cfg)];
          StructuredContent := StructuredContent r; IsError := IsError r |}.
Definition clip_Middleware {Ctx Req W : Type} (cfg : clip_Config) : Truncate.Middleware Ctx Req W :=
  λ name td next ctx req w,
    match next ctx req w with
    | (Returns result (Some err), w) => (Returns result (Some err), w)
    | (Returns None None, w) => (Returns None None, w)
    | (Returns (Some r) None, w) => (Returns (Some (clip_result cfg r)) None, w)
    | (Panics v, w) => (Panics v, w)
    end.

Inductive clip_Option := WithMaxBytes (n : Z) | WithHardMax (n : Z) | WithMessage (s : string).
Definition apply_option (c : clip_Config) (o : clip_Option) : clip_Config :=
  match o with
  | WithMaxBytes n => {| MaxBytes := n; HardMax := HardMax c; Message := Message c |}
  | WithHardMax n => {| MaxBytes := MaxBytes c; HardMax := n; Message := Message c |}
  | WithMessage s => {| MaxBytes := MaxBytes c; HardMax := HardMax c; Message := s |}
  end.
Definition clip_New {Ctx Req W : Type} (opts : list clip_Option) : Truncate.Middleware Ctx Req W :=
  clip_Middleware (foldl apply_option clip_DefaultConfig opts).

(** ** Confirmed writes *)
Definition ConfirmTag : string := "confirm_required".
Definition confirmParam : string := "confirm".
Definition requiresConfirmation {H} (td : ToolDefinition H) : bool := bool_decide (ConfirmTag ∈ Tags td).
Definition rejectionMessage {H} (name : string) (td : ToolDefinition H) : string :=
  "[CONFIRM_REQUIRED] Tool " +:+ quote name +:+ " requires explicit confirmation before execution." +:+ newline +:+ newline +:+
  (if bool_decide (Description (td_Tool td) = "") then ""
   else "This tool will: " +:+ Description (td_Tool td) +:+ newline +:+ newline) +:+
  "To proceed, re-invoke the tool with the additional parameter:" +:+ newline +:+ "  confirm: true" +:+ newline +:+ newline +:+
  "To cancel, do not re-invoke the tool.".
Definition RequireConfirmation {H} (td : ToolDefinition H) : ToolDefinition H :=
  if bool_decide (ConfirmTag ∈ Tags td) then td else {|
    td_Tool := td_Tool td; Handler := Handler td; Category := Category td; Subcategory := Subcategory td;
    Tags := Tags td ++ [ConfirmTag]; SearchTerms := SearchTerms td; Complexity := Complexity td; IsWrite := IsWrite td;
    Deprecated := Deprecated td; td_Timeout := td_Timeout td; CircuitBreakerGroup := CircuitBreakerGroup td;
    RuntimeGroup := RuntimeGroup td; OutputSchema := OutputSchema td; MaxResultChars := MaxResultChars td;
    DeferLoading := DeferLoading td; AlwaysLoad := AlwaysLoad td; SkipRequiresUserInteraction := SkipRequiresUserInteraction td;
    DestructiveOverride := DestructiveOverride td; IdempotentOverride := IdempotentOverride td; ReadOnlyOverride := ReadOnlyOverride td |}.

Section Confirm.
Context {Ctx Req W : Type}.
(** The arguments of a request; [None] is a nil map. *)
Variable ExtractArguments : Req → option (gmap string json).
Definition confirmed (req : Req) : bool :=
  match ExtractArguments req with
  | Some args => match args !! confirmParam with Some (JBool b) => b | _ => false end
  | None => false
  end.
Definition confirm_Middleware : Truncate.Middleware Ctx Req W :=
  λ name td next,
    if negb (requiresConfirmation td) then next
    else λ ctx req w,
      if negb (confirmed req) then (Returns (Some (MakeErrorResult (rejectionMessage name td))) None, w)
      else next ctx req w.
End Confirm.

(** ** Prefetched context *)
Definition DefaultCacheTTL : duration := 5 * Minute.

Section Prefetch.
Context {Ctx Req W V : Type} `{!Cell W (gmap string (V * time))}.
Variable now : W → time.
(** [context.WithValue] under the key of a provider. *)
Variable WithValue : Ctx → string → V → Ctx.

Record PrefetchProvider := {
  Fetch : Ctx → st W (error + V);
  ShouldPrefetch : option (string → bool)
}.

Definition applies (name : string) (p : PrefetchProvider) : bool :=
  match ShouldPrefetch p with Some f => f name | None => true end.

(** The walk over the providers: values still fresh go into the context, the others are jobs. *)
Definition prefetch_scan (name : string) (now : time) (cache : gmap string (V * time))
    (acc : Ctx * list (string * PrefetchProvider)) (kp : string * PrefetchProvider) : Ctx * list (string * PrefetchProvider) :=
  let '(key, provider) := kp in
  let '(ctx, jobs) := acc in
  if negb (applies name provider) then acc else
  match cache !! key with
  | Some entry => if time_before now entry.2 then (WithValue ctx key entry.1, jobs) else (ctx, jobs ++ [kp])
  | None => (ctx, jobs ++ [kp])
  end.

(** The fetches, in the order in which they take effect. *)
Fixpoint run_fetches (ctx : Ctx) (jobs : list (string * PrefetchProvider)) (w : W) : gmap string (error + V) * W :=
  match jobs with
  | [] => (∅, w)
  | (key, provider) :: jobs =>
      let '(r, w) := Fetch provider ctx w in
      let '(rs, w) := run_fetches ctx jobs w in (<[key := r]> rs, w)
  end.

(** One result is cached and put into the context; a failure is skipped. *)
Definition prefetch_store (expires : time) (results : gmap string (error + V)) (acc : Ctx * gmap string (V * time))
    (kp : string * PrefetchProvider) : Ctx * gmap string (V * time) :=
  match results !! kp.1 with
  | Some (inr v) => (WithValue acc.1 kp.1 v, <[kp.1 := (v, expires)]> acc.2)
  | _ => acc
  end.

(** [providers] lists the map of providers in the order of its walk, [order] is the order in
    which the concurrent fetches take effect. *)
Definition prefetch_Middleware (providers : list (string * PrefetchProvider)) (CacheTTL : duration)
    (order : list (string * PrefetchProvider) → list (string * PrefetchProvider)) : Truncate.Middleware Ctx Req W :=
  let ttl := if CacheTTL <=? 0 then DefaultCacheTTL else CacheTTL in
  λ name td next,
    if bool_decide (providers = []) then next
    else λ ctx req w,
      let t := now w in
      let '(ctx, jobs) := foldl (prefetch_scan name t (peek w)) (ctx, []) providers in
      match jobs with
      | [] => next ctx req w
      | _ =>
          let '(results, w) := run_fetches ctx (order jobs) w in
          let '(ctx', cache) := foldl (prefetch_store (time_add t ttl) results) (ctx, peek w) jobs in
          next ctx' req (poke cache w)
      end.
End Prefetch.
Arguments PrefetchProvider : clear implicits.

(** ** Correlation and debug logging *)
Section Logging.
Context {Ctx Req W : Type}.
Local Notation TD := (ToolDefinition (ToolHandlerFunc Ctx Req W)).

(** The correlation middleware, without a logger: an identifier goes into the context. *)
Definition correlation_Middleware (with_id : Ctx → string → Ctx) (genID : Ctx → Req → st W string) : Truncate.Middleware Ctx Req W :=
  λ name td next ctx req w, let '(id, w) := genID ctx req w in next (with_id ctx id) req w.

(** [%06d]. *)
Definition formatCounter (n : Z) : string :=
  let d := itoa n in "req-" +:+ String.substring 0 (6 - String.length d) "000000" +:+ d.

Variable ExtractArguments : Req → option (gmap string json).
Variable marshal : gmap string json → option string.
Variable marshal_block : Content → option string.

Record debug_Config := {
  Enabled : bool; LogParams : bool; LogResults : bool; MaxResultLogBytes : Z; RedactFields : list string }.
Definition DefaultRedactFields : list string := ["password"; "token"; "secret"; "api_key"; "credential"; "authorization"].

Definition redact (redactSet : list string) (args : gmap string json) : gmap string json :=
  map_imap (λ k v, Some (if bool_decide (to_lower k ∈ redactSet) then JString "[REDACTED]" else v)) args.
Definition redactParams (args : gmap string json) (redactSet : list string) : string :=
  if bool_decide (args = ∅) then "{}"
  else match marshal (redact redactSet args) with
       | Some s => s
       | None => "{" +:+ quote "_error" +:+ ":" +:+ quote "marshal failed" +:+ "}"
       end.

Definition estimateResultSize (r : CallToolResult) : Z :=
  foldl (λ size block, match marshal_block block with Some b => size + bytes b | None => size end) 0 (r_Content r).
Definition preview (s : string) (maxBytes : Z) : string :=
  if maxBytes <? bytes s then string_take (Z.to_nat maxBytes) s +:+ "...[truncated]" else s.
Definition debug_truncateResult (r : CallToolResult) (maxBytes : Z) : string :=
  match r_Content r with
  | [] => ""
  | block :: _ =>
      match ExtractTextContent block with
      | Some text => preview text maxBytes
      | None => match marshal_block block with Some s => preview s maxBytes | None => "<marshal error>" end
      end
  end.

Inductive level := LevelDebug | LevelWarn | LevelError.
Variable LogAttrs : level → string → list (string * json) → W → W.
Variable now : W → time.
Variable with_id : Ctx → string → Ctx.
Context `{!Cell W Z}.

Definition log_params (cfg : debug_Config) (redactSet : list string) (req : Req) : list (string * json) :=
  if LogParams cfg then
    match ExtractArguments req with
    | Some args => if bool_decide (args = ∅) then [] else [("params", JString (redactParams args redactSet))]
    | None => []
    end
  else [].
Definition log_result (cfg : debug_Config) (maxResultBytes : Z) (result : option CallToolResult) : list (string * json) :=
  match result with
  | None => []
  | Some r =>
      [("is_error", JBool (IsError r)); ("content_blocks", JNumber (itoa (Z.of_nat (length (r_Content r)))));
       ("output_bytes", JNumber (itoa (estimateResultSize r)))] ++
      (if LogResults cfg && bool_decide (r_Content r ≠ [])
       then [("result_preview", JString (debug_truncateResult r maxResultBytes))] else [])
  end.

(** The counter is one for the whole process. *)
Definition debug_Middleware (cfg : debug_Config) : Truncate.Middleware Ctx Req W :=
  let redactSet := to_lower <$> RedactFields cfg in
  let maxResultBytes := if MaxResultLogBytes cfg <=? 0 then 1024 else MaxResultLogBytes cfg in
  λ name td next,
    if negb (Enabled cfg) then next
    else λ ctx req w,
      let n := (peek w + 1) mod 2 ^ 64 in
      let corrID := formatCounter n in
      let base := [("correlation_id", JString corrID); ("tool", JString name)] in
      let w := LogAttrs LevelDebug "tool_call.start" (base ++ log_params cfg redactSet req) (poke n w) in
      let start := now w in
      match next (with_id ctx corrID) req w with
      | (Panics v, w) => (Panics v, w)
      | (Returns result err, w) =>
          let duration := time_sub (now w) start in
          let base := base ++ [("duration", JNumber (itoa duration)); ("duration_ms", JNumber (itoa (Z.quot duration Millisecond)))] in
          match err with
          | Some e => (Returns result (Some e), LogAttrs LevelError "tool_call.error" (base ++ [("error", JString (error_text e))]) w)
          | None =>
              (Returns result None,
               LogAttrs (if IsResultError result then LevelWarn else LevelDebug) "tool_call.end"
                 (base ++ log_result cfg maxResultBytes result) w)
          end
      end.
End Logging.

(** ** Gates: the contract *)
Lemma StronglySorted_lookup {A} (R : A → A → Prop) l i j a b :
  StronglySorted R l → l !! i = Some a → l !! j = Some b → (i < j)%nat → R a b.
Proof.
  intros H. revert i j. induction H as [|x l _ IH Hx]; intros i j Ha Hb Hlt; [done|].
  destruct j as [|j]; [lia|]. destruct i as [|i]; cbn in Ha, Hb.
  - injection Ha as <-. rewrite Forall_forall in Hx. apply Hx. by eapply list_elem_of_lookup_2.
  - apply (IH i j); [done|done|lia].
Qed.

Section GateFacts.
Context {Ctx Req W : Type} (sort_slice : list (PriorityGate Ctx Req W) → list (PriorityGate Ctx Req W)).
Local Notation TD := (ToolDefinition (ToolHandlerFunc Ctx Req W)).
(** [sort.Slice] sorts, in an order of its own among equals. *)
Hypothesis sort_perm : ∀ l, sort_slice l ≡ₚ l.
Hypothesis sort_sorted : ∀ l, StronglySorted (λ a b, Priority b <= Priority a) (sort_slice l).

Implicit Types (gates : list (PriorityGate Ctx Req W)) (w : W).

(** A chain of gates that only look at the world stops at the first that objects. *)
Lemma ChainGates_first gates ctx name (td : TD) req w :
  (∀ g w, g ∈ gates → (pg_Gate g ctx name td req w).2 = w) →
  (ChainGates (pg_Gate <$> gates) ctx name td req w).2 = w ∧
  match list_find (λ g, (pg_Gate g ctx name td req w).1 ≠ VerdictProceed) gates with
  | Some (_, g) => (ChainGates (pg_Gate <$> gates) ctx name td req w).1 = (pg_Gate g ctx name td req w).1
  | None => (ChainGates (pg_Gate <$> gates) ctx name td req w).1 = VerdictProceed
  end.
Proof.
  induction gates as [|g gates IH]; intros Hp; [done|]. cbn [fmap list_fmap ChainGates list_find].
  pose proof (Hp g w ltac:(left)) as Hg. destruct (pg_Gate g ctx name td req w) as [v w'] eqn:E. cbn in Hg. subst w'. cbn [fst].
  destruct (decide (v = VerdictProceed)) as [->|Hv].
  - rewrite bool_decide_true by done. rewrite decide_False by tauto. destruct IH as [H1 H2]; [by intros; apply Hp; right|].
    split; [done|]. by destruct (list_find _ gates) as [[i g']|].
  - rewrite bool_decide_false by done. rewrite decide_True by done. by rewrite E.
Qed.

Lemma PriorityChain_verdict gates ctx name (td : TD) req w :
  (∀ g w, g ∈ gates → (pg_Gate g ctx name td req w).2 = w) →
  let v := (PriorityChain sort_slice gates ctx name td req w).1 in
  (PriorityChain sort_slice gates ctx name td req w).2 = w ∧
  (v = VerdictProceed ↔ ∀ g, g ∈ gates → (pg_Gate g ctx name td req w).1 = VerdictProceed) ∧
  (v ≠ VerdictProceed → ∃ g, g ∈ gates ∧ (pg_Gate g ctx name td req w).1 = v ∧
    ∀ g', g' ∈ gates → (pg_Gate g' ctx name td req w).1 ≠ VerdictProceed → Priority g' <= Priority g).
Proof using sort_perm sort_sorted.
  intros Hp. cbv zeta. unfold PriorityChain.
  destruct (ChainGates_first (sort_slice gates) ctx name td req w) as [Hw Hv].
  { intros g w' Hg. apply Hp. by rewrite sort_perm in Hg. }
  split; [done|]. destruct (list_find _ (sort_slice gates)) as [[i g]|] eqn:E; rewrite Hv.
  - pose proof (list_find_Some (λ g, (pg_Gate g ctx name td req w).1 ≠ VerdictProceed) (sort_slice gates) i g) as HS.
    apply HS in E as (Hi & Hg & Hbefore). assert (g ∈ gates) as Hin by (rewrite <- (sort_perm gates); by eapply list_elem_of_lookup_2).
    split; [split; [by intros ?|intros H; by destruct (Hg (H g Hin))]|]. intros _. exists g. split; [done|split; [done|]].
    intros g' Hg' Hno. rewrite <- (sort_perm gates) in Hg'. apply list_elem_of_lookup in Hg' as [j Hj].
    destruct (lt_eq_lt_dec i j) as [[Hlt|<-]|Hgt].
    + by apply (StronglySorted_lookup (λ a b, Priority b <= Priority a) (sort_slice gates) i j g g').
    + assert (g' = g) as -> by congruence. lia.
    + by destruct (Hbefore j g' Hj Hgt).
  - apply list_find_None in E. rewrite Forall_forall in E. split; [|done]. split; [|done]. intros _ g Hg.
    rewrite <- (sort_perm gates) in Hg. specialize (E g Hg). by destruct (decide ((pg_Gate g ctx name td req w).1 = VerdictProceed)).
Qed.

(** The gate middleware behind a chain of prioritised gates that only look at the call.  The
    chain lets a call proceed exactly when every gate does, and otherwise answers with a verdict
    of a gate of the highest priority among those that object.  The tool runs, on the call
    unchanged, exactly when the verdict is to proceed, or to pause and the approval is given;
    in every other case (a denial, a refusal, no approver, an unknown verdict) the tool does not
    run and the answer is an error. *)
Theorem gate_contract gates (approval : option (ApprovalFunc (Ctx := Ctx) (Req := Req) (W := W))) (denyMsg pauseMsg : string)
    (name : string) (td : TD) (next : ToolHandlerFunc Ctx Req W) ctx req w :
  (∀ g w, g ∈ gates → (pg_Gate g ctx name td req w).2 = w) →
  let objects g := (pg_Gate g ctx name td req w).1 ≠ VerdictProceed in
  let cfg := {| Gate := PriorityChain sort_slice gates; Approval := approval; DenyMessage := denyMsg; PauseTimeoutMessage := pauseMsg |} in
  let run := gate_Middleware cfg name td next ctx req w in
  ((∀ g, g ∈ gates → ¬ objects g) ∧ run = next ctx req w) ∨
  ∃ g, g ∈ gates ∧ objects g ∧ (∀ g', g' ∈ gates → objects g' → Priority g' <= Priority g) ∧
    ((pg_Gate g ctx name td req w).1 = VerdictPause ∧
       (∃ a, approval = Some a ∧ (a ctx name td req w).1 = true ∧ run = next ctx req (a ctx name td req w).2) ∨
     ∃ text w', run = (denied text, w') ∧ (w' = w ∨ ∃ a, approval = Some a ∧ a ctx name td req w = (false, w'))).
Proof using sort_perm sort_sorted.
  intros Hp. cbv zeta. destruct (PriorityChain_verdict gates ctx name td req w Hp) as (Hw & Hall & Hno).
  unfold gate_Middleware. cbn [Gate gate_defaults Approval].
  destruct (PriorityChain sort_slice gates ctx name td req w) as [v w'] eqn:E. cbn [fst snd] in *. subst w'.
  destruct (decide (v = VerdictProceed)) as [->|Hv].
  { left. split; [|done]. intros g Hg H. by apply H, Hall. }
  right. destruct (Hno Hv) as (g & Hg & Eg & Hmax). exists g. rewrite Eg. split; [done|split; [done|split; [done|]]].
  destruct v as [| | |n]; [done| |right; eexists _, w; by split; [|left]..].
  destruct approval as [a|]; [|right; eexists _, w; by split; [|left]].
  destruct (a ctx name td req w) as [yes w'] eqn:Ea. destruct yes.
  - left. split; [done|]. exists a. by rewrite Ea.
  - right. eexists _, w'. split; [done|]. right. by exists a.
Qed.
End GateFacts.

(** Two gates; the one of priority 2 pauses writes and the approver agrees. *)
Definition demo_gates : list (PriorityGate unit unit Z) := [
  {| Priority := 1; pg_Gate := AlwaysProceed |}; {| Priority := 2; pg_Gate := PauseWrites |}].
Definition prio_ge (a b : PriorityGate unit unit Z) : Prop := Priority b <= Priority a.
#[local] Instance prio_ge_dec : RelDecision prio_ge.
Proof. intros a b. unfold prio_ge. apply _. Defined.
#[local] Instance prio_ge_total : Total prio_ge.
Proof. intros a b. unfold prio_ge. lia. Qed.
#[local] Instance prio_ge_trans : Transitive prio_ge.
Proof. intros a b c. unfold prio_ge. lia. Qed.
Definition demo_sort (l : list (PriorityGate unit unit Z)) : list (PriorityGate unit unit Z) := merge_sort prio_ge l.

Lemma gate_contract_witness (td := plain_definition (λ (_ _ : unit) (w : Z), (Returns None None, w + 1)) plain_tool) :
  gate_Middleware {| Gate := PriorityChain demo_sort demo_gates; Approval := None; DenyMessage := ""; PauseTimeoutMessage := "" |}
    "get" td (Handler td) tt tt 5 = (Returns None None, 6).
Proof.
  destruct (gate_contract demo_sort (merge_sort_Permutation prio_ge) (StronglySorted_merge_sort prio_ge) demo_gates None "" "" "get" td (Handler td) tt tt 5)
    as [[_ H]|(g & Hg & Ho & _)].
  - intros g w Hg. unfold demo_gates in Hg. rewrite !elem_of_cons in Hg. by destruct Hg as [->|[->|?%elem_of_nil]].
  - etrans; [exact H|reflexivity].
  - exfalso. unfold demo_gates in Hg. rewrite !elem_of_cons in Hg. destruct Hg as [->|[->|?%elem_of_nil]]; by apply Ho.
Defined.

(** ** The text limit: the contract *)
Definition is_text (b : Content) : bool := match ExtractTextContent b with Some _ => true | None => false end.
Definition all_text (l : list Content) : string := foldr (λ b s, match ExtractTextContent b with Some t => t +:+ s | None => s end) "" l.

Lemma text_bytes_all l : text_bytes l = bytes (all_text l).
Proof.
  induction l as [|[t|k] l IH]; [done| |exact IH]. cbn [text_bytes all_text foldr ExtractTextContent]. fold (all_text l). rewrite IH.
  unfold bytes. rewrite string_length_app. lia.
Qed.

Lemma string_take_length s n : (String.length s <= n)%nat → string_take n s = s.
Proof.
  revert n. induction s as [|a s IH]; intros [|n] Hn; cbn in Hn; try done; try lia. cbn. f_equal. apply IH. lia.
Qed.
Lemma string_take_app_le s t n : (n <= String.length s)%nat → string_take n (s +:+ t) = string_take n s.
Proof.
  revert n. induction s as [|a s IH]; intros [|n] Hn; cbn in Hn; try done; try lia. cbn. f_equal. apply IH. lia.
Qed.
(** The kept text is the beginning of the text; the other blocks stay, in order. *)
Lemma clip_blocks_text b l : 0 <= b → all_text (clip_blocks b l) = string_take (Z.to_nat b) (all_text l).
Proof.
  revert b. induction l as [|[t|k] l IH]; intros b Hb; cbn [clip_blocks ExtractTextContent]; [by destruct (Z.to_nat b)| |exact (IH b Hb)].
  change (all_text (TextContent t :: l)) with (t +:+ all_text l). destruct (Z.leb_spec b 0).
  { rewrite IH by done. assert (b = 0) as -> by lia. done. }
  unfold bytes. destruct (Z.leb_spec (Z.of_nat (String.length t)) b).
  - change (all_text (TextContent t :: ?x)) with (t +:+ all_text x).
    cbn [all_text foldr ExtractTextContent]. fold (all_text (clip_blocks (b - Z.of_nat (String.length t)) l)).
    rewrite IH by lia. rewrite string_take_app_ge by lia. do 2 f_equal. lia.
  - cbn [all_text foldr ExtractTextContent MakeTextContent]. fold (all_text (clip_blocks 0 l)). rewrite IH by lia.
    rewrite string_take_app_le by lia. by rewrite string_app_nil_r.
Qed.
Lemma clip_blocks_other b l : filter (λ c, is_text c = false) (clip_blocks b l) = filter (λ c, is_text c = false) l.
Proof.
  revert b. induction l as [|[t|k] l IH]; intros b; [done| |]; cbn [clip_blocks ExtractTextContent].
  - rewrite (filter_cons_False _ (TextContent t)) by done.
    destruct (b <=? 0); [|destruct (bytes t <=? b)]; rewrite ?filter_cons_False by done; apply IH.
  - rewrite !filter_cons_True by done. by rewrite IH.
Qed.

Lemma clip_blocks_spent l : clip_blocks 0 (clip_blocks 0 l) = clip_blocks 0 l.
Proof. induction l as [|[t|k] l IH]; [done| |]; cbn [clip_blocks ExtractTextContent Z.leb Z.compare]; [exact IH|by rewrite IH]. Qed.

(** Clipping again with the message appended drops the message and keeps the rest. *)
Lemma clip_blocks_again b l m : 0 <= b < text_bytes l →
  clip_blocks b (clip_blocks b l ++ [TextContent m]) = clip_blocks b l.
Proof.
  revert b. assert (Hend : ∀ l, clip_blocks 0 (clip_blocks 0 l ++ [TextContent m]) = clip_blocks 0 l).
  { induction l0 as [|[t|k] l0 IH]; [done| |]; cbn [clip_blocks ExtractTextContent Z.leb Z.compare app]; [exact IH|by rewrite IH]. }
  induction l as [|[t|k] l IH]; intros b Hb; cbn [text_bytes ExtractTextContent] in Hb; [lia| |].
  - cbn [clip_blocks ExtractTextContent]. destruct (Z.leb_spec b 0); [assert (b = 0) as -> by lia; apply Hend|].
    destruct (Z.leb_spec (bytes t) b) as [Ht|Ht].
    + cbn [app clip_blocks ExtractTextContent]. rewrite (proj2 (Z.leb_gt b 0)) by lia. rewrite (proj2 (Z.leb_le (bytes t) b)) by lia.
      f_equal. apply IH. unfold bytes in *. lia.
    + cbn [app clip_blocks ExtractTextContent MakeTextContent]. rewrite (proj2 (Z.leb_gt b 0)) by lia.
      assert (bytes (string_take (Z.to_nat b) t) = b) as E by (unfold bytes in *; rewrite string_length_take; lia).
      rewrite E, Z.leb_refl, Z.sub_diag. f_equal. apply Hend.
  - cbn [clip_blocks ExtractTextContent app]. f_equal. apply IH. lia.
Qed.

Lemma effectiveMax_pos cfg : 0 < effectiveMax cfg.
Proof.
  unfold effectiveMax, DefaultMaxBytes, DefaultHardMax.
  destruct (Z.leb_spec (MaxBytes cfg) 0), (Z.leb_spec (HardMax cfg) 0);
    match goal with |- context [?a <? ?b] => destruct (Z.ltb_spec a b) end; lia.
Qed.

(** The text limit.  A result that is an error or whose text fits comes back unchanged.  Any
    other comes back with the first [effectiveMax] bytes of its text exactly, then the message;
    every block that is not text is still there, in order, and so are the structured content and
    the error flag.  Applying the middleware once more changes nothing. *)
Theorem text_limit_contract (cfg : clip_Config) (r : CallToolResult) :
  let r' := clip_result cfg r in
  (if IsError r || (text_bytes (r_Content r) <=? effectiveMax cfg) then r' = r
   else all_text (r_Content r') = string_take (Z.to_nat (effectiveMax cfg)) (all_text (r_Content r)) +:+ clip_message cfg ∧
        text_bytes (r_Content r') = effectiveMax cfg + bytes (clip_message cfg)) ∧
  filter (λ c, is_text c = false) (r_Content r') = filter (λ c, is_text c = false) (r_Content r) ∧
  StructuredContent r' = StructuredContent r ∧ IsError r' = IsError r ∧
  clip_result cfg r' = r' ∧ 0 < effectiveMax cfg <= (if HardMax cfg <=? 0 then DefaultHardMax else HardMax cfg).
Proof.
  cbv zeta. pose proof (effectiveMax_pos cfg) as Hpos.
  assert (effectiveMax cfg <= (if HardMax cfg <=? 0 then DefaultHardMax else HardMax cfg)).
  { unfold effectiveMax. destruct (Z.ltb_spec (if HardMax cfg <=? 0 then DefaultHardMax else HardMax cfg)
      (if MaxBytes cfg <=? 0 then DefaultMaxBytes else MaxBytes cfg)); lia. }
  destruct (IsError r || (text_bytes (r_Content r) <=? effectiveMax cfg)) eqn:Hc.
  { assert (clip_result cfg r = r) as E; [|by rewrite !E].
    unfold clip_result. apply orb_true_iff in Hc as [->| ->]; [done|by destruct (IsError r)]. }
  apply orb_false_iff in Hc as [Er Hgt]. assert (clip_result cfg r = {|
    r_Content := clip_blocks (effectiveMax cfg) (r_Content r) ++ [MakeTextContent (clip_message cfg)];
    StructuredContent := StructuredContent r; IsError := IsError r |}) as -> by (unfold clip_result; by rewrite Er, Hgt).
  apply Z.leb_gt in Hgt. cbn [r_Content StructuredContent IsError].
  assert (Happ : ∀ a b, all_text (a ++ b) = all_text a +:+ all_text b).
  { intros a b. induction a as [|[t|k] a IH]; [done| |exact IH]. cbn [app all_text foldr ExtractTextContent].
    fold (all_text (a ++ b)). fold (all_text a). by rewrite IH, string_app_assoc. }
  assert (Hb : text_bytes (clip_blocks (effectiveMax cfg) (r_Content r) ++ [MakeTextContent (clip_message cfg)]) =
    effectiveMax cfg + bytes (clip_message cfg)).
  { rewrite text_bytes_all, Happ, clip_blocks_text by lia. unfold bytes. rewrite string_length_app, string_length_take.
    cbn [all_text foldr ExtractTextContent MakeTextContent]. rewrite string_app_nil_r.
    rewrite text_bytes_all in Hgt. unfold bytes in Hgt. lia. }
  split; [split; [|exact Hb]|].
  { rewrite Happ, clip_blocks_text by lia. cbn [all_text foldr ExtractTextContent MakeTextContent]. by rewrite string_app_nil_r. }
  split; [|split; [done|split; [done|split; [|done]]]].
  { rewrite filter_app, clip_blocks_other. rewrite filter_cons_False by done. by rewrite app_nil_r. }
  unfold clip_result. cbn [IsError r_Content StructuredContent]. rewrite Er, Hb.
  assert (0 < bytes (clip_message cfg)) as Hm.
  { unfold clip_message. destruct (bool_decide_reflect (Message cfg = "")) as [|Hne]; [by vm_compute|].
    unfold bytes. destruct (Message cfg); [done|cbn; lia]. }
  rewrite (proj2 (Z.leb_gt _ _)) by lia. f_equal. f_equal. apply clip_blocks_again. lia.
Qed.

(** ** Confirmed writes, prefetching and logging *)

(** A tagged tool runs exactly when the request says [confirm: true]; tagging is idempotent. *)
Lemma confirm_contract {Ctx Req W} (ExtractArguments : Req → option (gmap string json)) name
    (td : ToolDefinition (ToolHandlerFunc Ctx Req W)) next ctx req w :
  confirm_Middleware ExtractArguments name td next ctx req w =
    (if requiresConfirmation td && negb (confirmed ExtractArguments req)
     then (Returns (Some (MakeErrorResult (rejectionMessage name td))) None, w) else next ctx req w) ∧
  requiresConfirmation (RequireConfirmation td) = true ∧ RequireConfirmation (RequireConfirmation td) = RequireConfirmation td ∧
  Tags td ⊆ Tags (RequireConfirmation td).
Proof.
  unfold confirm_Middleware. split; [destruct (requiresConfirmation td); [|done]; cbn [negb andb]|].
  { by destruct (negb (confirmed ExtractArguments req)). }
  assert (ConfirmTag ∈ Tags (RequireConfirmation td)) as Hin.
  { unfold RequireConfirmation. destruct (bool_decide_reflect (ConfirmTag ∈ Tags td)); [done|]. cbn. apply elem_of_app. right. left. }
  split; [by apply bool_decide_true|]. split.
  - assert (∀ td' : ToolDefinition (ToolHandlerFunc Ctx Req W), ConfirmTag ∈ Tags td' → RequireConfirmation td' = td') as H
      by (intros td' H; unfold RequireConfirmation; by rewrite bool_decide_true). by apply H.
  - unfold RequireConfirmation. destruct (bool_decide _); [done|]. intros t Ht. cbn. apply elem_of_app. by left.
Qed.

Section PrefetchFacts.
Context {Ctx Req W V : Type} `{!Cell W (gmap string (V * time))} `{!CellLaws W (gmap string (V * time))}.
Context (now : W → time) (WithValue : Ctx → string → V → Ctx).
Local Notation PP := (PrefetchProvider Ctx W V).
Local Notation scan := (prefetch_scan WithValue).

(** The jobs of a call are the applicable providers without a fresh value. *)
Definition needs_fetch (name : string) (t : time) (cache : gmap string (V * time)) (kp : string * PP) : bool :=
  applies name kp.2 && match cache !! kp.1 with Some e => negb (time_before t e.2) | None => true end.
Lemma scan_jobs name t cache (providers : list (string * PP)) : ∀ ctx jobs,
  (foldl (scan name t cache) (ctx, jobs) providers).2 = jobs ++ filter (λ kp, needs_fetch name t cache kp = true) providers.
Proof.
  induction providers as [|[k p] providers IH]; intros ctx jobs; [by rewrite app_nil_r|]. cbn [foldl].
  assert (Hcase : scan name t cache (ctx, jobs) (k, p) = if needs_fetch name t cache (k, p) then (ctx, jobs ++ [(k, p)])
    else ((scan name t cache (ctx, jobs) (k, p)).1, jobs)).
  { unfold needs_fetch, prefetch_scan. cbn [fst snd]. destruct (applies name p); [|done]. cbn [negb andb].
    destruct (cache !! k) as [e|]; [|done]. by destruct (time_before t e.2). }
  rewrite Hcase. destruct (needs_fetch name t cache (k, p)) eqn:E.
  - rewrite IH, filter_cons_True, <- app_assoc by done. done.
  - rewrite IH, filter_cons_False by (by rewrite E). done.
Qed.

Lemma store_other expires results (jobs : list (string * PP)) : ∀ ctx cache k, k ∉ jobs.*1 →
  (foldl (prefetch_store WithValue expires results) (ctx, cache) jobs).2 !! k = cache !! k.
Proof.
  induction jobs as [|[k' p] jobs IH]; intros ctx cache k Hk; [done|]. cbn in Hk. apply not_elem_of_cons in Hk as [Hne Hk]. cbn [foldl].
  unfold prefetch_store at 2. cbn [fst snd]. destruct (results !! k') as [[err|v]|]; rewrite IH by done; [done| |done].
  by rewrite lookup_insert_ne.
Qed.
Lemma store_hit expires results (jobs : list (string * PP)) v : ∀ ctx cache k, k ∈ jobs.*1 → results !! k = Some (inr v) →
  (foldl (prefetch_store WithValue expires results) (ctx, cache) jobs).2 !! k = Some (v, expires).
Proof.
  induction jobs as [|[k' p] jobs IH]; intros ctx cache k Hk Hr; [by apply elem_of_nil in Hk|]. cbn [foldl].
  destruct (decide (k ∈ jobs.*1)) as [Hin|Hin].
  { destruct (prefetch_store WithValue expires results (ctx, cache) (k', p)) as [ctx' cache']. by apply IH. }
  cbn in Hk. apply elem_of_cons in Hk as [->|?]; [|done]. unfold prefetch_store at 2. cbn [fst snd]. rewrite Hr, store_other by done.
  apply lookup_insert_eq.
Qed.

(** A value fetched for one call is not fetched again before its time is up. *)
Lemma prefetch_once_per_ttl name name' t t' ttl cache (providers : list (string * PP)) results k v ctx ctx' :
  let jobs := (foldl (scan name t cache) (ctx, []) providers).2 in
  k ∈ jobs.*1 → results !! k = Some (inr v) → t' < t + ttl →
  let cache' := (foldl (prefetch_store WithValue (time_add t ttl) results) (ctx, cache) jobs).2 in
  k ∉ ((foldl (scan name' t' cache') (ctx', []) providers).2).*1.
Proof.
  cbv zeta. intros Hk Hr Ht Hin. rewrite scan_jobs in Hin. cbn [app] in Hin.
  apply list_elem_of_fmap in Hin as ([k' p] & Ek & Hin). cbn in Ek. subst k'. apply list_elem_of_filter in Hin as [Hno _].
  unfold needs_fetch in Hno. cbn [fst snd] in Hno. rewrite (store_hit _ results _ v ctx cache k Hk Hr) in Hno. cbn in Hno.
  apply andb_true_iff in Hno as [_ Hno]. unfold time_before, time_add in Hno. apply negb_true_iff, Z.ltb_ge in Hno. lia.
Qed.
End PrefetchFacts.

(** A secret one level down is logged in clear. *)
Lemma debug_logs_nested_secret redactSet :
  "auth" ∉ redactSet → redact redactSet {["auth" := JObject [("password", JString "hunter2")]]} =
    {["auth" := JObject [("password", JString "hunter2")]]}.
Proof.
  intros H. apply map_eq. intros k. unfold redact. rewrite map_lookup_imap. destruct (decide (k = "auth")) as [->|Hne].
  - rewrite lookup_singleton_eq. cbn. by rewrite bool_decide_false.
  - by rewrite lookup_singleton_ne.
Qed.

(** The text limit cuts bytes, so it can end inside a character. *)
Lemma text_limit_cuts_characters :
  r_Content (clip_result {| MaxBytes := 2; HardMax := 0; Message := "m" |}
    {| r_Content := [TextContent ("a" +:+ em_dash)]; StructuredContent := None; IsError := false |}) =
  [TextContent ("a" +:+ String (Ascii.ascii_of_nat 226) ""); TextContent "m"].
Proof. vm_compute. reflexivity. Qed.
