(* ===== verification/Secrets.v ===== *)
(** Secrets (src/secrets/manager.go, provider.go, sanitize.go): a manager that asks providers in
    the order of their priority and caches what they answer, the masking of values and maps for
    logs, and the constant-time comparison. *)

From stdpp Require Import base tactics list gmap strings pretty sorting.
From Stdlib Require Import ZArith Lia.
From S2P Require Import Prelude.

Local Open Scope Z_scope.

(** ** Secrets and providers (provider.go) *)
Definition ErrSecretNotFound : error := ErrSentinel "secrets.ErrSecretNotFound" "secret not found".

Record Secret := {
  Key : string; Value : string; Source : string; ExpiresAt : time; Version : string; CreatedAt : time; UpdatedAt : time }.
Definition IsExpired (now : time) (s : Secret) : bool := if time_is_zero (ExpiresAt s) then false else time_after now (ExpiresAt s).
(** The last [n] bytes. *)
Definition string_last (n : nat) (s : string) : string := string_drop (String.length s - n) s.
Definition Masked (s : Secret) : string :=
  if bytes (Value s) <=? 4 then "****" else string_take 2 (Value s) +:+ "****" +:+ string_last 2 (Value s).

Section Manager.
(** The providers act on an environment of type [E], which they cannot reach the manager from. *)
Context {E : Type}.

Record SecretProvider := {
  p_Name : string;
  p_Priority : Z;
  IsAvailable : E → bool;
  p_Get : string → st E (error + Secret);
  p_Exists : string → st E (error + bool);
  p_List : st E (error + list string);
  p_Close : E → option error * E
}.

(** ** The manager (manager.go)

    A nil map of cached secrets is [None]: reading it finds nothing, writing it panics. *)
Definition DefaultCacheTTL : duration := 5 * Minute.
Record Manager := {
  providers : list SecretProvider;
  cache : option (gmap string (Secret * time));
  cacheTTL : duration;
  closed : bool
}.
Definition world : Type := Manager * E.

(** [sort.Slice] by increasing priority; it need not be stable. *)
Variable sort_slice : list SecretProvider → list SecretProvider.
Variable now : E → time.

Definition set_providers (l : list SecretProvider) (m : Manager) : Manager := {|
  providers := l; cache := cache m; cacheTTL := cacheTTL m; closed := closed m |}.
Definition set_cache (c : option (gmap string (Secret * time))) (m : Manager) : Manager := {|
  providers := providers m; cache := c; cacheTTL := cacheTTL m; closed := closed m |}.
Definition sortProviders (m : Manager) : Manager := set_providers (sort_slice (providers m)) m.

Inductive ManagerOption := WithCacheTTL (ttl : duration) | WithProviders (l : list SecretProvider).
Definition apply_option (m : Manager) (o : ManagerOption) : Manager :=
  match o with
  | WithCacheTTL ttl => {| providers := providers m; cache := cache m; cacheTTL := ttl; closed := closed m |}
  | WithProviders l => set_providers (providers m ++ l) m
  end.
Definition NewManager (opts : list ManagerOption) : Manager :=
  sortProviders (foldl apply_option {| providers := []; cache := Some ∅; cacheTTL := DefaultCacheTTL; closed := false |} opts).

Definition AddProvider (p : SecretProvider) (m : Manager) : Manager := sortProviders (set_providers (providers m ++ [p]) m).
Fixpoint remove_first (name : string) (l : list SecretProvider) : option (list SecretProvider) :=
  match l with
  | [] => None
  | p :: l => if bool_decide (p_Name p = name) then Some l else cons p <$> remove_first name l
  end.
Definition RemoveProvider (name : string) (m : Manager) : bool * Manager :=
  match remove_first name (providers m) with Some l => (true, set_providers l m) | None => (false, m) end.
Definition Providers (m : Manager) : list string := p_Name <$> providers m.

Definition cached (key : string) (t : time) (m : Manager) : option Secret :=
  match default ∅ (cache m) !! key with
  | Some e => if time_before t e.2 then Some e.1 else None
  | None => None
  end.

(** The walk over the providers, with the last error that is not "not found". *)
Fixpoint ask (key : string) (lastErr : option error) (ps : list SecretProvider) (w : E) : (error + Secret) * E :=
  match ps with
  | [] => (inl (default ErrSecretNotFound lastErr), w)
  | p :: ps =>
      if negb (IsAvailable p w) then ask key lastErr ps w else
      match p_Get p key w with
      | (inr secret, w) => (inr secret, w)
      | (inl err, w) =>
          ask key (if errors_is err ErrSecretNotFound then lastErr else Some (ErrWrap (p_Name p +:+ ": ") err "")) ps w
      end
  end.

(** [None] is a panic: the cache is written after [Close] made it nil. *)
Definition cacheSecret (key : string) (secret : Secret) (w : world) : option world :=
  match cache w.1 with
  | None => None
  | Some c => Some (set_cache (Some (<[key := (secret, time_add (now w.2) (cacheTTL w.1))]> c)) w.1, w.2)
  end.

(** [Get] up to the point where it lets go of the lock, and what follows. *)
Definition get_check (key : string) (w : world) : (error + Secret) + list SecretProvider :=
  if closed w.1 then inl (inl (Err "manager is closed")) else
  match cached key (now w.2) w.1 with
  | Some s => inl (inr s)
  | None => inr (providers w.1)
  end.
Definition get_fetch (key : string) (ps : list SecretProvider) (w : world) : option ((error + Secret) * world) :=
  match ask key None ps w.2 with
  | (inl err, e) => Some (inl err, (w.1, e))
  | (inr secret, e) => w ← cacheSecret key secret (w.1, e); Some (inr secret, w)
  end.
Definition Get (key : string) (w : world) : option ((error + Secret) * world) :=
  match get_check key w with inl r => Some (r, w) | inr ps => get_fetch key ps w end.

Definition GetWithFallback (key fallback : string) (w : world) : option (string * world) :=
  r ← Get key w;
  match r with (inl _, w) => Some (fallback, w) | (inr s, w) => Some (Value s, w) end.
Definition GetString (key : string) (w : world) : option (string * world) := GetWithFallback key "" w.
(** [MustGet] panics with the error. *)
Definition MustGet (key : string) (w : world) : option (Secret * world) :=
  r ← Get key w; match r with (inr s, w) => Some (s, w) | (inl _, _) => None end.

Fixpoint any_exists (key : string) (ps : list SecretProvider) (w : E) : bool * E :=
  match ps with
  | [] => (false, w)
  | p :: ps =>
      if negb (IsAvailable p w) then any_exists key ps w else
      match p_Exists p key w with (inr true, w) => (true, w) | (_, w) => any_exists key ps w end
  end.
Definition Exists (key : string) (w : world) : bool * world :=
  match cached key (now w.2) w.1 with
  | Some _ => (true, w)
  | None => let '(b, e) := any_exists key (providers w.1) w.2 in (b, (w.1, e))
  end.

Fixpoint all_keys (seen : list string) (ps : list SecretProvider) (w : E) : list string * E :=
  match ps with
  | [] => (seen, w)
  | p :: ps =>
      if negb (IsAvailable p w) then all_keys seen ps w else
      match p_List p w with
      | (inl _, w) => all_keys seen ps w
      | (inr keys, w) => all_keys (foldl (λ seen k, if bool_decide (k ∈ seen) then seen else seen ++ [k]) seen keys) ps w
      end
  end.
Definition secrets_List (w : world) : list string * world :=
  let '(keys, e) := all_keys [] (providers w.1) w.2 in (sort_strings keys, (w.1, e)).

(** Deleting from a nil map does nothing. *)
Definition InvalidateCache (key : string) (m : Manager) : Manager := set_cache (delete key <$> cache m) m.
Definition ClearCache (m : Manager) : Manager := set_cache (Some ∅) m.
Definition Refresh (key : string) (w : world) : option ((error + Secret) * world) := Get key (InvalidateCache key w.1, w.2).

Definition CacheStats (t : time) (m : Manager) : Z * Z * Z * duration :=
  let l := map_to_list (default ∅ (cache m)) in
  (Z.of_nat (length l), Z.of_nat (length (filter (λ e, time_before t e.2.2 = true) l)),
   Z.of_nat (length (filter (λ e, time_before t e.2.2 = false) l)), cacheTTL m).

Fixpoint close_providers (ps : list SecretProvider) (w : E) : list error * E :=
  match ps with
  | [] => ([], w)
  | p :: ps =>
      let '(err, w) := p_Close p w in
      let '(errs, w) := close_providers ps w in
      (match err with Some e => ErrWrap (p_Name p +:+ ": ") e "" :: errs | None => errs end, w)
  end.
Definition Close (w : world) : list error * world :=
  if closed w.1 then ([], w) else
  let '(errs, e) := close_providers (providers w.1) w.2 in
  (errs, ({| providers := []; cache := None; cacheTTL := cacheTTL w.1; closed := true |}, e)).

(** The managers a program can have, from [NewManager] on. *)
Inductive reached : Manager → Prop :=
  | reached_new opts : reached (NewManager opts)
  | reached_add p m : reached m → reached (AddProvider p m)
  | reached_remove name m : reached m → reached (RemoveProvider name m).2
  | reached_write key s m w w' : reached m → cacheSecret key s (m, w) = Some w' → reached w'.1
  | reached_invalidate key m : reached m → reached (InvalidateCache key m)
  | reached_clear m : reached m → reached (ClearCache m)
  | reached_close m w : reached m → reached (Close (m, w)).2.1.
End Manager.
Arguments SecretProvider : clear implicits.
Arguments Manager : clear implicits.
Arguments ManagerOption : clear implicits.

(** ** Masking (sanitize.go), on ASCII keys *)
Definition SensitivePatterns : list string := [
  "password"; "passwd"; "secret"; "token"; "key"; "credential"; "cred"; "auth"; "bearer"; "api_key"; "apikey"; "api-key";
  "private"; "oauth"; "jwt"; "session"; "cookie"; "cert"; "certificate"; "pem"; "ssh"; "rsa"; "dsa"; "ecdsa"; "access"; "refresh";
  "signing"; "encryption"; "decrypt"; "salt"; "hash"; "hmac"; "pin"; "otp"; "2fa"; "mfa"; "totp"; "seed"].
Definition IsSensitiveKey (key : string) : bool := existsb (λ p, contains p (to_lower key)) SensitivePatterns.

Definition MaskValue (value : string) : string :=
  if bytes value =? 0 then ""
  else if bytes value <=? 4 then "****"
  else if bytes value <=? 8 then string_take 1 value +:+ "****" +:+ string_last 1 value
  else string_take 2 value +:+ "****" +:+ string_last 2 value.

(** The items of a list that are objects are sanitised, the others stay as they are. *)
Fixpoint sanitizeValue (key : string) (value : json) : json :=
  if IsSensitiveKey key then
    match value with JString s => JString (MaskValue s) | _ => JString "[REDACTED]" end
  else
    match value with
    | JObject l => JObject ((λ kv, (kv.1, sanitizeValue kv.1 kv.2)) <$> l)
    | JArray items =>
        JArray ((λ item, match item with
                         | JObject l => JObject ((λ kv, (kv.1, sanitizeValue kv.1 kv.2)) <$> l)
                         | _ => item
                         end) <$> items)
    | _ => value
    end.
Definition Sanitize (params : list (string * json)) : list (string * json) := (λ kv, (kv.1, sanitizeValue kv.1 kv.2)) <$> params.

Definition sensitiveHeaders : list string :=
  ["authorization"; "x-api-key"; "x-auth-token"; "cookie"; "set-cookie"; "x-csrf-token"; "x-xsrf-token"].
Definition SanitizeHeaders (headers : gmap string string) : gmap string string :=
  map_imap (λ k v, Some (if bool_decide (to_lower k ∈ sensitiveHeaders) then MaskValue v else v)) headers.

Definition RedactedString_MarshalJSON (r : string) : string := dquote +:+ MaskValue r +:+ dquote.

(** The loop that gathers the differences of two texts of one length. *)
Fixpoint differences (acc : Z) (a b : string) : Z :=
  match a, b with
  | String x a, String y b =>
      differences (Z.lor acc (Z.lxor (Z.of_nat (Ascii.nat_of_ascii x)) (Z.of_nat (Ascii.nat_of_ascii y)))) a b
  | _, _ => acc
  end.
Definition SecureCompare (a b : string) : bool :=
  if negb (bytes a =? bytes b) then false else differences 0 a b =? 0.

(** ** Comparison *)
Lemma differences_zero a b acc : String.length a = String.length b → 0 <= acc →
  differences acc a b = 0 ↔ acc = 0 ∧ a = b.
Proof.
  revert b acc. induction a as [|x a IH]; intros [|y b] acc Hl Hacc; try done; cbn [differences]; [naive_solver|].
  assert (0 <= Z.lxor (Z.of_nat (Ascii.nat_of_ascii x)) (Z.of_nat (Ascii.nat_of_ascii y))) by (apply Z.lxor_nonneg; lia).
  rewrite IH by (cbn in Hl; lia || (apply Z.lor_nonneg; lia)). rewrite Z.lor_eq_0_iff, Z.lxor_eq_0_iff. split.
  - intros [[-> Hxy] ->]. split; [done|]. f_equal. apply Nat2Z.inj in Hxy.
    by rewrite <- (Ascii.ascii_nat_embedding x), <- (Ascii.ascii_nat_embedding y), Hxy.
  - intros [-> [= -> ->]]. done.
Qed.

(** The constant-time comparison of two secrets, which looks at every byte whatever the
    earlier ones were, says that they are equal exactly when they are. *)
Theorem SecureCompare_is_equality (a b : string) : SecureCompare a b = true ↔ a = b.
Proof.
  unfold SecureCompare, bytes. destruct (Z.eqb_spec (Z.of_nat (String.length a)) (Z.of_nat (String.length b))) as [Hl|Hl]; cbn [negb].
  - rewrite Z.eqb_eq, differences_zero by lia. naive_solver.
  - split; [done|]. by intros ->.
Qed.

(** ** Masking *)
Lemma string_drop_drop m n s : string_drop m (string_drop n s) = string_drop (n + m) s.
Proof. revert s. induction n as [|n IH]; intros s; [done|]. destruct s as [|a s]; cbn; [by destruct m|apply IH]. Qed.

(** A masked value keeps less than half of the text, at its two ends. *)
Lemma MaskValue_hides v : 4 < bytes v → ∃ pre hidden post,
  v = pre +:+ hidden +:+ post ∧ MaskValue v = pre +:+ "****" +:+ post ∧ 2 * (bytes pre + bytes post) < bytes v.
Proof.
  intros Hv. unfold MaskValue. rewrite (proj2 (Z.eqb_neq _ _)), (proj2 (Z.leb_gt _ _)) by lia.
  assert (∀ k, 2 * (2 * Z.of_nat k) < bytes v → ∃ hidden,
    v = string_take k v +:+ hidden +:+ string_last k v ∧ 2 * (bytes (string_take k v) + bytes (string_last k v)) < bytes v) as H.
  { intros k Hk. unfold bytes in *. exists (string_take (String.length v - 2 * k) (string_drop k v)). split.
    - unfold string_last. replace (String.length v - k)%nat with (k + (String.length v - 2 * k))%nat by lia.
      by rewrite <- string_drop_drop, !string_take_drop.
    - unfold string_last. rewrite string_length_take, string_length_drop. lia. }
  destruct (Z.leb_spec (bytes v) 8).
  - destruct (H 1%nat ltac:(lia)) as (hidden & E & Hb). by exists (string_take 1 v), hidden, (string_last 1 v).
  - destruct (H 2%nat ltac:(lia)) as (hidden & E & Hb). by exists (string_take 2 v), hidden, (string_last 2 v).
Qed.

(** No value under a sensitive key, in any object reached through objects and lists of objects, is
    left as it was. *)
Fixpoint clean (key : string) (value : json) : Prop :=
  if IsSensitiveKey key then (∃ s, value = JString (MaskValue s)) ∨ value = JString "[REDACTED]"
  else
    match value with
    | JObject l => foldr (λ kv P, clean kv.1 kv.2 ∧ P) True l
    | JArray items =>
        foldr (λ item P, match item with JObject l => foldr (λ kv P, clean kv.1 kv.2 ∧ P) True l | _ => True end ∧ P) True items
    | _ => True
    end.
(** No sensitive key at all in those objects. *)
Fixpoint harmless (key : string) (value : json) : bool :=
  negb (IsSensitiveKey key) &&
  match value with
  | JObject l => forallb (λ kv, harmless kv.1 kv.2) l
  | JArray items => forallb (λ item, match item with JObject l => forallb (λ kv, harmless kv.1 kv.2) l | _ => true end) items
  | _ => true
  end.

Lemma sanitizeValue_spec value : ∀ key, clean key (sanitizeValue key value) ∧ (harmless key value = true → sanitizeValue key value = value).
Proof.
  assert (Hobj : ∀ l, Forall (λ kv : string * json, ∀ key, clean key (sanitizeValue key kv.2) ∧
      (harmless key kv.2 = true → sanitizeValue key kv.2 = kv.2)) l →
    foldr (λ kv P, clean kv.1 kv.2 ∧ P) True ((λ kv, (kv.1, sanitizeValue kv.1 kv.2)) <$> l) ∧
    (forallb (λ kv, harmless kv.1 kv.2) l = true → (λ kv, (kv.1, sanitizeValue kv.1 kv.2)) <$> l = l)).
  { induction 1 as [|[k v] l Hv _ [IH1 IH2]]; [done|]. cbn [fmap list_fmap foldr fst snd forallb] in *. destruct (Hv k) as [Hc Hh].
    split; [done|]. intros [H H']%andb_true_iff. by rewrite Hh, IH2. }
  enough (∀ key, (clean key (sanitizeValue key value) ∧ (harmless key value = true → sanitizeValue key value = value)) ∧
    (∀ l, value = JObject l → Forall (λ kv : string * json, ∀ key, clean key (sanitizeValue key kv.2) ∧
      (harmless key kv.2 = true → sanitizeValue key kv.2 = kv.2)) l)) as H by (intros key; apply H).
  induction value as [|b|n|s|items IH|l IH] using json_ind'; intros key.
  1-4: (split; [|done]; cbn [sanitizeValue harmless]; destruct (IsSensitiveKey key) eqn:E;
        (split; [|done]); cbn [clean]; rewrite E; eauto).
  - rewrite <- Forall_forall in IH. split; [|done]. cbn [sanitizeValue harmless]. destruct (IsSensitiveKey key) eqn:E; [split; [|done]; cbn [clean]; rewrite E; by right|].
    cbn [clean negb andb]. rewrite E.
    enough (foldr (λ item P, match item with JObject l => foldr (λ kv P, clean kv.1 kv.2 ∧ P) True l | _ => True end ∧ P) True
        ((λ item, match item with JObject l => JObject ((λ kv, (kv.1, sanitizeValue kv.1 kv.2)) <$> l) | _ => item end) <$> items) ∧
      (forallb (λ item, match item with JObject l => forallb (λ kv, harmless kv.1 kv.2) l | _ => true end) items = true →
       (λ item, match item with JObject l => JObject ((λ kv, (kv.1, sanitizeValue kv.1 kv.2)) <$> l) | _ => item end) <$> items = items))
      as [H1 H2] by (split; [done|]; intros H; by rewrite H2).
    induction IH as [|v items Hv _ [IH1 IH2]]; [done|]. cbn [fmap list_fmap foldr forallb].
    destruct v as [| | | | |l]; [by (split; [done|]; intros H; rewrite IH2)..|].
    destruct (Hobj l) as [Ho1 Ho2]; [by apply (Hv "")|]. split; [done|]. intros [H H']%andb_true_iff. by rewrite Ho2, IH2.
  - assert (Forall (λ kv : string * json, ∀ key, clean key (sanitizeValue key kv.2) ∧
      (harmless key kv.2 = true → sanitizeValue key kv.2 = kv.2)) l) as Hl by (rewrite <- Forall_forall in IH; eapply Forall_impl; [exact IH|]; intros kv H k; apply H).
    split; [|by intros l' [= <-]]. cbn [sanitizeValue harmless]. destruct (IsSensitiveKey key) eqn:E; [split; [|done]; cbn [clean]; rewrite E; by right|].
    cbn [clean negb andb]. rewrite E. destruct (Hobj l Hl) as [H1 H2]. split; [done|]. intros H. by rewrite H2.
Qed.

(** Masking a map for the log.  The keys stay, in order.  Every value under a key whose name
    suggests a secret, in the map or in an object reached through objects and lists of objects,
    is replaced by a constant or by a mask that keeps less than half of the text at its two ends;
    a map without such keys comes back unchanged. *)
Theorem sanitize_masks_secrets (params : list (string * json)) :
  (Sanitize params).*1 = params.*1 ∧ Forall (λ kv, clean kv.1 kv.2) (Sanitize params) ∧
  (forallb (λ kv, harmless kv.1 kv.2) params = true → Sanitize params = params) ∧
  ∀ v, if 4 <? bytes v
       then ∃ pre hidden post, v = pre +:+ hidden +:+ post ∧ MaskValue v = pre +:+ "****" +:+ post ∧ 2 * (bytes pre + bytes post) < bytes v
       else MaskValue v = "****" ∨ v = "" ∧ MaskValue v = "".
Proof.
  unfold Sanitize. split; [by rewrite <- list_fmap_compose|split; [|split]].
  - apply Forall_fmap, Forall_true. intros [k v]. apply sanitizeValue_spec.
  - induction params as [|[k v] params IH]; [done|]. cbn [forallb fmap list_fmap fst snd]. intros [H H']%andb_true_iff.
    rewrite IH by done. by rewrite (proj2 (sanitizeValue_spec v k)).
  - intros v. destruct (Z.ltb_spec 4 (bytes v)); [by apply MaskValue_hides|]. unfold MaskValue.
    destruct (Z.eqb_spec (bytes v) 0) as [E|]; [right; split; [|done]; by destruct v|]. rewrite (proj2 (Z.leb_le _ _)) by done. by left.
Qed.

(** The masks leave more of short texts than they seem to, and objects in a list of lists alone. *)
Lemma masked_shows_four_of_five t : Masked {| Key := "pin"; Value := "abcde"; Source := "env"; ExpiresAt := t; Version := "";
  CreatedAt := t; UpdatedAt := t |} = "ab****de".
Proof. done. Qed.
Lemma nested_lists_not_masked :
  Sanitize [("users", JArray [JArray [JObject [("password", JString "hunter2")]]])]
  = [("users", JArray [JArray [JObject [("password", JString "hunter2")]]])].
Proof. by vm_compute. Qed.
Lemma quoted_value_breaks_json v : 8 < bytes v → has_prefix dquote v = true → has_prefix (dquote +:+ dquote) (RedactedString_MarshalJSON v) = true.
Proof.
  intros Hv Hp. unfold RedactedString_MarshalJSON, MaskValue. rewrite (proj2 (Z.eqb_neq _ _)), !(proj2 (Z.leb_gt _ _)) by lia.
  destruct v as [|a [|b v]]; [done|done|]. cbn in Hp. case_bool_decide; [subst a|done]. by vm_compute.
Qed.

(** ** The manager *)
Section Facts.
Context {E : Type} (sort_slice : list (SecretProvider E) → list (SecretProvider E)) (now : E → time).
Implicit Types (m : Manager E) (w : world (E := E)) (p q : SecretProvider E).
Let prio (p q : SecretProvider E) : Prop := p_Priority p <= p_Priority q.
Hypothesis sort_sorted : ∀ l, StronglySorted prio (sort_slice l).

Lemma remove_first_sublist name (l l' : list (SecretProvider E)) : remove_first name l = Some l' → l' `sublist_of` l.
Proof.
  revert l'. induction l as [|p l IH]; intros l'; cbn; [done|]. case_bool_decide; [intros [= ->]; by constructor|].
  destruct (remove_first name l) as [l1|] eqn:El; intros [= <-]. constructor. by apply IH.
Qed.
Lemma StronglySorted_sublist (l l' : list (SecretProvider E)) : l' `sublist_of` l → StronglySorted prio l → StronglySorted prio l'.
Proof.
  induction 1 as [|p l' l Hs IH|p l' l Hs IH]; [done| |]; intros [Hl Hp]%StronglySorted_inv; [|by apply IH].
  constructor; [by apply IH|]. rewrite Forall_forall in *. intros q Hq. apply Hp. eapply sublist_subseteq; eauto.
Qed.

(** The providers are in the order of their priorities, and an open manager has a cache. *)
Lemma reached_inv m : reached sort_slice now m →
  StronglySorted prio (providers m) ∧ (closed m = false → cache m ≠ None).
Proof.
  induction 1 as [opts|p m _ [IH1 IH2]|name m _ [IH1 IH2]|key s m w w' _ [IH1 IH2] Hw|key m _ [IH1 IH2]|m _ [IH1 IH2]|m w _ [IH1 IH2]].
  - split; [apply sort_sorted|]. intros _. unfold NewManager. cbn.
    enough (∀ m, cache m ≠ None → cache (foldl apply_option m opts) ≠ None) as H by by apply H.
    induction opts as [|o opts IH]; intros m Hm; [done|]. cbn. apply IH. by destruct o.
  - by split; [apply sort_sorted|].
  - unfold RemoveProvider. destruct (remove_first name (providers m)) as [l|] eqn:El; [|done]. split; [|done].
    by eapply StronglySorted_sublist; [eapply remove_first_sublist|].
  - unfold cacheSecret in Hw. cbn in Hw. destruct (cache m); [|done]. injection Hw as <-. by split.
  - split; [done|]. intros Hc. cbn in *. specialize (IH2 Hc). by destruct (cache m).
  - by split.
  - unfold Close. cbn. destruct (closed m) eqn:Ec; [by split; [|cbn; congruence]|]. destruct (close_providers _ _). by split; [constructor|].
Qed.

(** A provider that only reads. *)
Definition reads p : Prop := ∀ key e, (p_Get p key e).2 = e.
Definition holds (key : string) (e : E) p (s : Secret) : Prop := IsAvailable p e = true ∧ (p_Get p key e).1 = inr s.
Definition lacks_secret (key : string) (e : E) p : Prop :=
  IsAvailable p e = true → ∃ err, (p_Get p key e).1 = inl err ∧ errors_is err ErrSecretNotFound = true.

Lemma ask_found key last ps e e' s : Forall reads ps → ask key last ps e = (inr s, e') →
  e' = e ∧ ∃ ps1 p ps2, ps = ps1 ++ p :: ps2 ∧ holds key e p s ∧ ∀ q s', q ∈ ps1 → ¬ holds key e q s'.
Proof.
  intros Hr. revert last. induction Hr as [|p ps Hp _ IH]; intros last; cbn [ask]; [done|].
  assert (Hskip : ¬ (∃ s', holds key e p s') → (∃ last, ask key last ps e = (inr s, e')) →
    e' = e ∧ ∃ ps1 q ps2, p :: ps = ps1 ++ q :: ps2 ∧ holds key e q s ∧ ∀ q' s', q' ∈ ps1 → ¬ holds key e q' s').
  { intros Hn [last' Ha]. destruct (IH _ Ha) as (-> & ps1 & q & ps2 & -> & Hq & Hb). split; [done|]. exists (p :: ps1), q, ps2.
    split_and!; [done|done|]. intros q' s' [->|Hin]%elem_of_cons Hh; [by eauto|by eapply Hb]. }
  pose proof (Hp key e) as He. destruct (IsAvailable p e) eqn:Ea; cbn [negb].
  - destruct (p_Get p key e) as [[err|s1] e1] eqn:Eg; cbn in He; subst e1.
    + intros Ha. apply Hskip; [|by eauto]. intros (s' & _ & Hs). by rewrite Eg in Hs.
    + intros [= -> ->]. split; [done|]. exists [], p, ps. split_and!; [done|by unfold holds; rewrite Eg|]. intros ?? []%elem_of_nil.
  - intros Ha. apply Hskip; [|by eauto]. intros (s' & Hs & _). by rewrite Ea in Hs.
Qed.

Lemma ask_failed key last ps e e' err : Forall reads ps → (∀ l, last = Some l → errors_is l ErrSecretNotFound = false) →
  ask key last ps e = (inl err, e') →
  e' = e ∧ (∀ q s, q ∈ ps → ¬ holds key e q s) ∧
  (errors_is err ErrSecretNotFound = true ↔ last = None ∧ ∀ q, q ∈ ps → lacks_secret key e q).
Proof.
  intros Hr. revert last. induction Hr as [|p ps Hp _ IH]; intros last Hl; cbn [ask].
  - intros [= <- <-]. split; [done|]. split; [by intros ?? ?%elem_of_nil|]. destruct last as [l|]; cbn.
    + rewrite (Hl l) by done. naive_solver.
    + split; [|done]. intros _. split; [done|]. by intros ? ?%elem_of_nil.
  - pose proof (Hp key e) as He. destruct (IsAvailable p e) eqn:Ea; cbn [negb].
    + destruct (p_Get p key e) as [[er|s1] e1] eqn:Eg; cbn in He; subst e1; [|done]. destruct (errors_is er ErrSecretNotFound) eqn:En.
      * intros H. apply IH in H as (-> & H1 & H2); [|done]. split; [done|]. split.
        { intros q s [->|Hq]%elem_of_cons [Hv Hs]; [by rewrite Eg in Hs|by eapply H1]. }
        rewrite H2. split; intros [-> H3]; (split; [done|]); intros q; [|by intros; apply H3; right].
        intros [->|Hq]%elem_of_cons; [intros _; exists er; by rewrite Eg|by apply H3].
      * intros H. apply IH in H as (-> & H1 & H2).
        2: { intros l [= <-]. cbn [errors_is]. by rewrite En, orb_false_r, bool_decide_false. }
        split; [done|]. split.
        { intros q s [->|Hq]%elem_of_cons [Hv Hs]; [by rewrite Eg in Hs|by eapply H1]. }
        rewrite H2. split; [by intros []|]. intros [-> H3]. destruct (H3 p) as (er' & Her & Hn); [by left|done|].
        rewrite Eg in Her. cbn in Her. congruence.
    + intros H. apply IH in H as (-> & H1 & H2); [|done]. split; [done|]. split.
      { intros q s [->|Hq]%elem_of_cons [Hv Hs]; [by rewrite Ea in Hv|by eapply H1]. }
      rewrite H2. split; intros [-> H3]; (split; [done|]); intros q; [|by intros; apply H3; right].
      intros [->|Hq]%elem_of_cons; [intros Hv; by rewrite Ea in Hv|by apply H3].
Qed.

Lemma cached_serves key m e s : closed m = false → cached key (now e) m = Some s → Get now key (m, e) = Some (inr s, (m, e)).
Proof. intros Hc Hs. unfold Get, get_check. cbn. by rewrite Hc, Hs. Qed.

(** Asking for a secret.  In any state the manager's operations lead to, as long as it is open,
    [Get] returns.  A secret that is cached comes from the cache.  Otherwise, with providers that
    only read, it comes from an available provider such that no available provider of a smaller
    priority number has the key, and from then on, for exactly the TTL of the cache, it is what
    [Get] answers, whatever the providers say, unless it is invalidated.  [Get] fails only when no
    available provider has the key, changes nothing then, and its error is "not found" exactly
    when each of them said so. *)
Theorem secret_comes_from_best_provider m (e : E) (key : string) (Hm : reached sort_slice now m)
    (Hc : closed m = false) (Hr : Forall reads (providers m)) :
  match cached key (now e) m with
  | Some s => Get now key (m, e) = Some (inr s, (m, e))
  | None =>
      ∃ r w, Get now key (m, e) = Some (r, w) ∧ w.2 = e ∧ reached sort_slice now w.1 ∧
      match r with
      | inr s =>
          (∃ p, p ∈ providers m ∧ holds key e p s ∧ ∀ q s', q ∈ providers m → holds key e q s' → p_Priority p <= p_Priority q) ∧
          providers w.1 = providers m ∧
          (∀ key' t, cached key' t w.1 =
             if bool_decide (key' = key) then (if time_before t (time_add (now e) (cacheTTL m)) then Some s else None)
             else cached key' t m) ∧
          ∀ e', time_before (now e') (time_add (now e) (cacheTTL m)) = true → Get now key (w.1, e') = Some (inr s, (w.1, e'))
      | inl err =>
          w = (m, e) ∧ (∀ q s, q ∈ providers m → ¬ holds key e q s) ∧
          (errors_is err ErrSecretNotFound = true ↔ ∀ q, q ∈ providers m → lacks_secret key e q)
      end
  end.
Proof using sort_sorted.
  destruct (reached_inv m Hm) as [Hs Hcache]. destruct (cached key (now e) m) as [s|] eqn:Hk; [by apply cached_serves|].
  unfold Get, get_check. cbn [fst snd]. rewrite Hc, Hk. unfold get_fetch. cbn [fst snd].
  destruct (ask key None (providers m) e) as [[err|s] e'] eqn:Ha.
  - apply ask_failed in Ha as (-> & H1 & H2); [|done..]. exists (inl err), (m, e). split_and!; [done..|]. rewrite H2. naive_solver.
  - apply ask_found in Ha as (-> & ps1 & p & ps2 & El & Hp & Hb); [|done]. destruct (cacheSecret now key s (m, e)) as [w|] eqn:Ew.
    2: { unfold cacheSecret in Ew. cbn in Ew. destruct (cache m); [done|by destruct Hcache]. }
    exists (inr s), w. pose proof (reached_write _ _ key s m e w Hm Ew) as Hm'. unfold cacheSecret in Ew. cbn in Ew.
    destruct (cache m) as [c|] eqn:Ec; [|done]. injection Ew as <-. cbn [fst snd] in *.
    assert (Hcached : ∀ key' t, cached key' t (set_cache (Some (<[key:=(s, time_add (now e) (cacheTTL m))]> c)) m) =
        if bool_decide (key' = key) then (if time_before t (time_add (now e) (cacheTTL m)) then Some s else None) else cached key' t m).
    { intros key' t. unfold cached. cbn. rewrite Ec. cbn. case_bool_decide; [subst; by rewrite lookup_insert_eq|by rewrite lookup_insert_ne]. }
    split_and!; [done..|exists p|done|done|].
    + rewrite El in Hs |- *. split_and!; [set_solver|done|]. intros q s' Hq Hh.
      apply elem_of_app in Hq as [Hq|[->|Hq]%elem_of_cons]; [by edestruct Hb|done|].
      apply StronglySorted_app_1_r in Hs. apply StronglySorted_inv in Hs as [_ Hf]. rewrite Forall_forall in Hf. by apply Hf.
    + intros e' He'. apply cached_serves; [done|]. by rewrite Hcached, bool_decide_true, He'.
Qed.

(** A [Get] whose providers answer after [Close] writes a nil map: it panics. *)
Lemma get_racing_close_panics w key ps s e : closed w.1 = false → get_check now key w = inr ps →
  ask key None ps (Close w).2.2 = (inr s, e) → get_fetch now key ps (Close w).2 = None.
Proof. intros Hc _ Ha. unfold get_fetch. rewrite Ha. unfold cacheSecret, Close. rewrite Hc. by destruct (close_providers _ _). Qed.

(** What a removed provider said is still answered. *)
Lemma removed_provider_still_answers m e key name s : closed m = false → cached key (now e) m = Some s →
  let m' := (RemoveProvider name m).2 in Get now key (m', e) = Some (inr s, (m', e)).
Proof.
  intros Hc Hs. apply cached_serves; unfold RemoveProvider; by destruct (remove_first name (providers m)).
Qed.
End Facts.

(** Two read-only providers, added in the wrong order; the environment is the clock. *)
Definition prio_le {E} (p q : SecretProvider E) : Prop := p_Priority p <= p_Priority q.
#[local] Instance prio_le_dec {E} : RelDecision (@prio_le E) := λ p q, decide (p_Priority p <= p_Priority q).
#[local] Instance prio_le_total {E} : Total (@prio_le E).
Proof. intros p q. unfold prio_le. lia. Qed.
#[local] Instance prio_le_trans {E} : Transitive (@prio_le E).
Proof. intros p q r. unfold prio_le. lia. Qed.
Definition demo_secret (value : string) : Secret := {|
  Key := "k"; Value := value; Source := value; ExpiresAt := 100; Version := ""; CreatedAt := 1; UpdatedAt := 1 |}.
Definition demo_provider (name : string) (n : Z) : SecretProvider time := {|
  p_Name := name; p_Priority := n; IsAvailable := λ _, true;
  p_Get := λ key t, (if bool_decide (key = "k") then inr (demo_secret name) else inl ErrSecretNotFound, t);
  p_Exists := λ key t, (inr (bool_decide (key = "k")), t); p_List := λ t, (inr ["k"], t); p_Close := λ t, (None, t) |}.
Definition demo_manager : Manager time :=
  AddProvider (merge_sort prio_le) (demo_provider "env" 1)
    (NewManager (merge_sort prio_le) [WithProviders [demo_provider "vault" 10; demo_provider "file" 5]; WithCacheTTL 60]).

Lemma secret_comes_from_best_provider_witness : ∃ r w,
  Get id "k" (demo_manager, 7) = Some (r, w) ∧ r = inr (demo_secret "env") ∧
  (∃ p, p ∈ providers demo_manager ∧ holds "k" 7 p (demo_secret "env")) ∧
  ∀ t, time_before t (time_add 7 60) = true → Get id "k" (w.1, t) = Some (inr (demo_secret "env"), (w.1, t)).
Proof.
  assert (Hr : reached (merge_sort prio_le) id demo_manager) by apply reached_add, reached_new.
  assert (Hs : ∀ l, StronglySorted (λ p q : SecretProvider time, p_Priority p <= p_Priority q) (merge_sort prio_le l))
    by (intros l; apply (StronglySorted_merge_sort prio_le)).
  pose proof (secret_comes_from_best_provider (merge_sort prio_le) id Hs demo_manager 7 "k" Hr eq_refl) as H.
  assert (Hk : Forall reads (providers demo_manager)) by (vm_compute; repeat constructor).
  specialize (H Hk). replace (cached "k" (id 7) demo_manager) with (@None Secret) in H by reflexivity.
  destruct H as (r & w & Eg & _ & _ & H). exists r, w.
  assert (Er : r = inr (demo_secret "env")).
  { assert (fst <$> Some (r, w) = Some (inr (demo_secret "env"))) as Hg by (rewrite <- Eg; by vm_compute). by injection Hg. }
  rewrite Er in H. destruct H as ((p & Hp & Hh & _) & _ & _ & H). split_and!; [done|done|by exists p|done].
Defined.

(** A cached secret is answered after its own [ExpiresAt]. *)
Lemma expired_secret_served : ∃ w : world (E := time),
  Get id "k" (demo_manager, 90) = Some (inr (demo_secret "env"), w) ∧
  Get id "k" (w.1, 110) = Some (inr (demo_secret "env"), (w.1, 110)) ∧ IsExpired 110 (demo_secret "env") = true.
Proof. eexists. split_and!; by vm_compute. Qed.
