(* ===== verification/Roadmap.v ===== *)
(** Roadmaps (src/roadmap/roadmap.go, query.go, module.go): phases and tiers of work items, what
    is ready, what is missing, and the tools that read and update them. *)

From stdpp Require Import base tactics list gmap strings.
From Stdlib Require Import ZArith Lia.
From S2P Require Import Prelude.

Local Open Scope Z_scope.

(** ** Data (roadmap.go)

    Statuses are strings in the code; what a file holds need not be one of the three. *)
Inductive ItemStatus := ItemStatusPlanned | ItemStatusActive | ItemStatusComplete | ItemStatusOther (s : string).
#[export] Instance ItemStatus_dec : EqDecision ItemStatus.
Proof. solve_decision. Defined.
Inductive PhaseStatus := PhaseStatusPlanned | PhaseStatusActive | PhaseStatusComplete | PhaseStatusOther (s : string).
#[export] Instance PhaseStatus_dec : EqDecision PhaseStatus.
Proof. solve_decision. Defined.

Record WorkItem := {
  ID : string; Description : string; Package : string; Status : ItemStatus; DependsOn : list string; Priority : string }.
Record Phase := { ph_ID : string; ph_Name : string; ph_Status : PhaseStatus; ph_Items : list WorkItem }.
Record Tier := { ti_ID : string; ti_Name : string; ti_Items : list WorkItem }.
Record Roadmap := { Title : string; rm_Description : string; Phases : list Phase; Tiers : list Tier; UpdatedAt : string }.

(** ** Queries (query.go) *)
Definition NextPhase (rm : Roadmap) : option Phase :=
  snd <$> list_find (λ p, ph_Status p ≠ PhaseStatusComplete) (Phases rm).

Definition planned (items : list WorkItem) : list WorkItem := filter (λ item, Status item = ItemStatusPlanned) items.
Definition GapAnalysis (rm : Roadmap) : list WorkItem :=
  (Phases rm ≫= λ p, planned (ph_Items p)) ++ (Tiers rm ≫= λ t, planned (ti_Items t)).

Definition complete_ids (items : list WorkItem) : gset string :=
  list_to_set (ID <$> filter (λ item, Status item = ItemStatusComplete) items).
Definition ReadyItems (phase : option Phase) : list WorkItem :=
  match phase with
  | None => []
  | Some p =>
      let complete := complete_ids (ph_Items p) in
      filter (λ item, Status item ≠ ItemStatusComplete ∧ Forall (λ dep, dep ∈ complete) (DependsOn item)) (ph_Items p)
  end.

Definition PhaseByID (rm : Roadmap) (id : string) : option Phase := snd <$> list_find (λ p, ph_ID p = id) (Phases rm).

(** ** Tools (module.go), over a file system [W] *)
Definition set_Status (s : ItemStatus) (item : WorkItem) : WorkItem := {|
  ID := ID item; Description := Description item; Package := Package item; Status := s; DependsOn := DependsOn item;
  Priority := Priority item |}.
Definition update_items (id : string) (s : ItemStatus) (items : list WorkItem) : list WorkItem :=
  (λ item, if bool_decide (ID item = id) then set_Status s item else item) <$> items.
Definition update_roadmap (id : string) (s : ItemStatus) (rm : Roadmap) : Roadmap := {|
  Title := Title rm; rm_Description := rm_Description rm;
  Phases := (λ p, {| ph_ID := ph_ID p; ph_Name := ph_Name p; ph_Status := ph_Status p; ph_Items := update_items id s (ph_Items p) |}) <$> Phases rm;
  Tiers := (λ t, {| ti_ID := ti_ID t; ti_Name := ti_Name t; ti_Items := update_items id s (ti_Items t) |}) <$> Tiers rm;
  UpdatedAt := UpdatedAt rm |}.
Definition all_items (rm : Roadmap) : list WorkItem := (Phases rm ≫= ph_Items) ++ (Tiers rm ≫= ti_Items).

Definition status_text (s : ItemStatus) : string :=
  match s with
  | ItemStatusPlanned => "planned" | ItemStatusActive => "active" | ItemStatusComplete => "complete" | ItemStatusOther s => s
  end.
Definition parse_status (s : string) : ItemStatus :=
  if bool_decide (s = "planned") then ItemStatusPlanned
  else if bool_decide (s = "active") then ItemStatusActive
  else if bool_decide (s = "complete") then ItemStatusComplete
  else ItemStatusOther s.

Record UpdateOutput := { Updated : bool; uo_ItemID : string; uo_Status : ItemStatus; Message : string }.
Record NextPhaseOutput := { np_Phase : option Phase; np_ReadyItems : list WorkItem; Found : bool }.

Section Tools.
Context {W : Type}.
Variable LoadRoadmap : string → W → error + Roadmap.
Variable SaveRoadmap : string → Roadmap → W → option error * W.
Variable roadmapPath : string.

Definition path_of (path : string) : string := if bool_decide (path = "") then roadmapPath else path.

Definition handleUpdate (itemID status path : string) (w : W) : (error + UpdateOutput) * W :=
  if bool_decide (itemID = "") then (inl (Err "item_id is required"), w) else
  match parse_status status with
  | ItemStatusOther _ => (inl (Err ("invalid status " +:+ quote status +:+ ": must be planned, active, or complete")), w)
  | s =>
      match LoadRoadmap (path_of path) w with
      | inl err => (inl (ErrWrap "roadmap_update: " err ""), w)
      | inr rm =>
          if bool_decide (Exists (λ item, ID item = itemID) (all_items rm)) then
            match SaveRoadmap (path_of path) (update_roadmap itemID s rm) w with
            | (Some err, w) => (inl (ErrWrap "roadmap_update: save: " err ""), w)
            | (None, w) =>
                (inr {| Updated := true; uo_ItemID := itemID; uo_Status := s;
                        Message := "item " +:+ quote itemID +:+ " updated to " +:+ quote status |}, w)
            end
          else
            (inr {| Updated := false; uo_ItemID := itemID; uo_Status := s;
                    Message := "item " +:+ quote itemID +:+ " not found in roadmap" |}, w)
      end
  end.

Definition handleGaps (path : string) (w : W) : error + (list WorkItem * Z) :=
  match LoadRoadmap (path_of path) w with
  | inl err => inl (ErrWrap "roadmap_gaps: " err "")
  | inr rm => let gaps := GapAnalysis rm in inr (gaps, Z.of_nat (length gaps))
  end.

Definition handleNextPhase (path : string) (w : W) : error + NextPhaseOutput :=
  match LoadRoadmap (path_of path) w with
  | inl err => inl (ErrWrap "roadmap_next_phase: " err "")
  | inr rm =>
      match NextPhase rm with
      | None => inr {| np_Phase := None; np_ReadyItems := []; Found := false |}
      | Some phase => inr {| np_Phase := Some phase; np_ReadyItems := ReadyItems (Some phase); Found := true |}
      end
  end.
End Tools.

(** ** Lemmas *)
Lemma elem_of_complete_ids id items : id ∈ complete_ids items ↔ ∃ item, item ∈ items ∧ ID item = id ∧ Status item = ItemStatusComplete.
Proof.
  unfold complete_ids. rewrite elem_of_list_to_set, list_elem_of_fmap. split.
  - intros (item & -> & [? ?]%list_elem_of_filter). eauto.
  - intros (item & ? & <- & ?). exists item. by rewrite list_elem_of_filter.
Qed.

Lemma elem_of_ReadyItems item p : item ∈ ReadyItems (Some p) ↔
  item ∈ ph_Items p ∧ Status item ≠ ItemStatusComplete ∧ ∀ dep, dep ∈ DependsOn item → dep ∈ complete_ids (ph_Items p).
Proof. unfold ReadyItems. rewrite list_elem_of_filter, Forall_forall. naive_solver. Qed.

(** The dependencies within a phase can be ranked. *)
Definition rankable (items : list WorkItem) : Prop :=
  ∃ rank : string → nat, ∀ item dep, item ∈ items → dep ∈ DependsOn item → dep ∈ ID <$> items ∧ (rank dep < rank (ID item))%nat.

(** A phase whose items depend on items of the phase, without a cycle, never stalls. *)
Lemma ready_progress p : rankable (ph_Items p) → ReadyItems (Some p) = [] → ∀ item, item ∈ ph_Items p → Status item = ItemStatusComplete.
Proof.
  intros [rank Hrank] Hempty.
  assert (∀ n item, item ∈ ph_Items p → (rank (ID item) < n)%nat → Status item = ItemStatusComplete) as H.
  { induction n as [|n IH]; intros item Hin Hn; [lia|].
    destruct (decide (Status item = ItemStatusComplete)) as [|Hne]; [done|]. exfalso.
    enough (item ∈ ReadyItems (Some p)) as Hr by (rewrite Hempty in Hr; by apply elem_of_nil in Hr).
    apply elem_of_ReadyItems. split_and!; [done|done|]. intros dep Hdep. destruct (Hrank item dep Hin Hdep) as [Hid Hlt].
    apply list_elem_of_fmap in Hid as (d & -> & Hd). apply elem_of_complete_ids. exists d. split_and!; [done|done|].
    apply IH; [done|lia]. }
  intros item Hin. by apply (H (S (rank (ID item)))); [|lia].
Qed.

Lemma update_items_other id s items : ID <$> update_items id s items = ID <$> items.
Proof. unfold update_items. rewrite <- list_fmap_compose. apply list_fmap_ext. intros ? item _. cbn. by case_bool_decide. Qed.

Lemma elem_of_update_items id s items item : item ∈ update_items id s items ↔
  ∃ old, old ∈ items ∧ item = if bool_decide (ID old = id) then set_Status s old else old.
Proof. unfold update_items. rewrite list_elem_of_fmap. naive_solver. Qed.

Lemma complete_ids_update id items : complete_ids (update_items id ItemStatusComplete items) =
  complete_ids items ∪ (if bool_decide (id ∈ ID <$> items) then {[id]} else ∅).
Proof.
  apply set_eq. intros x. rewrite elem_of_union, !elem_of_complete_ids. split.
  - intros (item & (old & Hold & ->)%elem_of_update_items & <- & Hs). case_bool_decide as E.
    + right. cbn. rewrite bool_decide_true; [rewrite E; set_solver|]. apply list_elem_of_fmap. by exists old.
    + left. by exists old.
  - intros [(item & Hin & <- & Hs)|Hx].
    + exists (if bool_decide (ID item = id) then set_Status ItemStatusComplete item else item). split; [apply elem_of_update_items; eauto|].
      by case_bool_decide.
    + case_bool_decide as E; [|by apply not_elem_of_empty in Hx]. apply elem_of_singleton in Hx as ->.
      apply list_elem_of_fmap in E as (item & -> & Hin). exists (set_Status ItemStatusComplete item).
      split; [|done]. apply elem_of_update_items. exists item. by rewrite bool_decide_true.
Qed.

(** Working through a phase.  What is ready is exactly what is not complete and whose
    dependencies are; in a phase whose items depend on one another without a cycle something is
    ready until all is complete; and completing any item keeps every other ready item ready, so
    the items can be done in any order that takes ready ones. *)
Theorem phase_progress (p : Phase) (id : string) :
  let after := {| ph_ID := ph_ID p; ph_Name := ph_Name p; ph_Status := ph_Status p;
                  ph_Items := update_items id ItemStatusComplete (ph_Items p) |} in
  (∀ item, item ∈ ReadyItems (Some p) ↔
     item ∈ ph_Items p ∧ Status item ≠ ItemStatusComplete ∧
     ∀ dep, dep ∈ DependsOn item → ∃ d, d ∈ ph_Items p ∧ ID d = dep ∧ Status d = ItemStatusComplete) ∧
  (rankable (ph_Items p) → ReadyItems (Some p) = [] → ∀ item, item ∈ ph_Items p → Status item = ItemStatusComplete) ∧
  (∀ item, item ∈ ReadyItems (Some p) → ID item ≠ id → item ∈ ReadyItems (Some after)) ∧
  (∀ item, item ∈ ReadyItems (Some after) → item ∈ ReadyItems (Some p) ∨ id ∈ DependsOn item) ∧
  (rankable (ph_Items p) → rankable (ph_Items after)).
Proof.
  cbv zeta. split; [|split; [apply ready_progress|split; [|split]]].
  - intros item. rewrite elem_of_ReadyItems. by setoid_rewrite elem_of_complete_ids.
  - intros item (Hin & Hs & Hd)%elem_of_ReadyItems Hne. apply elem_of_ReadyItems. cbn [ph_Items]. split_and!; [|done|].
    + apply elem_of_update_items. exists item. by rewrite bool_decide_false.
    + intros dep Hdep. rewrite complete_ids_update. set_solver.
  - intros item (Hin & Hs & Hd)%elem_of_ReadyItems. cbn [ph_Items] in *. apply elem_of_update_items in Hin as (old & Hold & ->).
    destruct (bool_decide_reflect (ID old = id)) as [E|E]; [done|]. destruct (decide (id ∈ DependsOn old)) as [|Hn]; [by right|].
    left. apply elem_of_ReadyItems. split_and!; [done|done|]. intros dep Hdep. specialize (Hd dep Hdep).
    rewrite complete_ids_update in Hd. apply elem_of_union in Hd as [|Hd]; [done|]. case_bool_decide; set_solver.
  - intros [rank Hrank]. exists rank. cbn [ph_Items]. intros item dep (old & Hold & ->)%elem_of_update_items Hdep.
    rewrite update_items_other. destruct (Hrank old dep Hold) as [? ?]; [by case_bool_decide|]. split; [done|].
    by case_bool_decide.
Qed.

(** Completing items never completes their phase: the next phase is never reached. *)
Lemma update_keeps_phase_status id s rm : ph_Status <$> Phases (update_roadmap id s rm) = ph_Status <$> Phases rm.
Proof. cbn. rewrite <- list_fmap_compose. by apply list_fmap_ext. Qed.
Definition one_phase : Roadmap := {|
  Title := "t"; rm_Description := ""; UpdatedAt := ""; Tiers := [];
  Phases := [
    {| ph_ID := "1"; ph_Name := "one"; ph_Status := PhaseStatusActive; ph_Items := [
       {| ID := "A"; Description := "a"; Package := ""; Status := ItemStatusActive; DependsOn := []; Priority := "" |}] |};
    {| ph_ID := "2"; ph_Name := "two"; ph_Status := PhaseStatusPlanned; ph_Items := [
       {| ID := "B"; Description := "b"; Package := ""; Status := ItemStatusPlanned; DependsOn := []; Priority := "" |}] |}] |}.
Lemma finished_phase_blocks_the_next :
  let rm := update_roadmap "A" ItemStatusComplete one_phase in
  option_map ph_ID (NextPhase rm) = Some "1" ∧ ReadyItems (NextPhase rm) = [].
Proof. by vm_compute. Qed.

(** A dependency on an item of another phase is never met. *)
Lemma cross_phase_dependency_never_ready p item dep : dep ∈ DependsOn item → dep ∉ ID <$> ph_Items p → item ∉ ReadyItems (Some p).
Proof.
  intros Hd Hn (_ & _ & H)%elem_of_ReadyItems. apply Hn. specialize (H dep Hd). apply elem_of_complete_ids in H as (d & Hin & <- & _).
  apply list_elem_of_fmap. by exists d.
Qed.
