(* ===== verification/RdGuards.v ===== *)
(** The R&D cycle's guards and advisers (src/rdcycle/circuitbreaker.go, costvelocity.go,
    costadapt.go, models.go, strategy.go, learning.go, improve.go): what lets a cycle run, what
    halts the series, and what past cycles suggest for the next one. *)

From stdpp Require Import base tactics list gmap strings pretty.
From Stdlib Require Import ZArith Lia.
From S2P Require Import Prelude Float.

Local Open Scope Z_scope.

(** ** The circuit breaker of cycles (circuitbreaker.go) *)
Inductive BreakerState := BreakerClosed | BreakerOpen | BreakerHalfOpen.
#[export] Instance BreakerState_dec : EqDecision BreakerState.
Proof. solve_decision. Defined.
Definition state_text (s : BreakerState) : string :=
  match s with BreakerClosed => "closed" | BreakerOpen => "open" | BreakerHalfOpen => "half_open" end.

Record CircuitBreaker := {
  state : BreakerState;
  noProgressCount : Z;
  noProgressThreshold : Z;
  cooldownDuration : duration;
  openedAt : time
}.
Definition default_threshold (n : Z) : Z := if n <=? 0 then 3 else n.
Definition default_cooldown (d : duration) : duration := if d <=? 0 then 30 * Minute else d.
Definition NewCircuitBreaker (noProgressThreshold : Z) (cooldownDuration : duration) : CircuitBreaker := {|
  state := BreakerClosed; noProgressCount := 0;
  noProgressThreshold := default_threshold noProgressThreshold;
  cooldownDuration := default_cooldown cooldownDuration;
  openedAt := time_zero |}.

Definition CanExecute (now : time) (cb : CircuitBreaker) : bool * CircuitBreaker :=
  match state cb with
  | BreakerClosed | BreakerHalfOpen => (true, cb)
  | BreakerOpen =>
      if cooldownDuration cb <=? time_sub now (openedAt cb) then
        (true, {| state := BreakerHalfOpen; noProgressCount := noProgressCount cb; noProgressThreshold := noProgressThreshold cb;
                  cooldownDuration := cooldownDuration cb; openedAt := openedAt cb |})
      else (false, cb)
  end.

Definition RecordResult (progress errRepeated : bool) (now : time) (cb : CircuitBreaker) : CircuitBreaker :=
  if negb progress || errRepeated then
    let n := noProgressCount cb + 1 in
    if noProgressThreshold cb <=? n then {|
      state := BreakerOpen; noProgressCount := n; noProgressThreshold := noProgressThreshold cb;
      cooldownDuration := cooldownDuration cb; openedAt := now |}
    else {|
      state := state cb; noProgressCount := n; noProgressThreshold := noProgressThreshold cb;
      cooldownDuration := cooldownDuration cb; openedAt := openedAt cb |}
  else {|
    state := BreakerClosed; noProgressCount := 0; noProgressThreshold := noProgressThreshold cb;
    cooldownDuration := cooldownDuration cb; openedAt := openedAt cb |}.

Definition Reset (cb : CircuitBreaker) : CircuitBreaker := {|
  state := BreakerClosed; noProgressCount := 0; noProgressThreshold := noProgressThreshold cb;
  cooldownDuration := cooldownDuration cb; openedAt := time_zero |}.

(** ** The cost governor of cycles (costvelocity.go) *)
Record CycleRecord := { CycleNum : Z; Cost : float64; Productive : bool }.
Record VelocityAlarm := { Reason : string; AvgCost : float64; va_WindowSize : Z }.
Record CostVelocityGovernor := {
  WindowSize : Z; AlarmPerCycle : float64; UnproductiveCap : Z; history : list CycleRecord }.

Definition NewCostVelocityGovernor (windowSize : Z) (alarmPerCycle : float64) (unproductiveCap : Z) : CostVelocityGovernor := {|
  WindowSize := if windowSize <=? 0 then 5 else windowSize;
  AlarmPerCycle := if float_le alarmPerCycle float_zero then float_of_int 5 else alarmPerCycle;
  UnproductiveCap := if unproductiveCap <=? 0 then 3 else unproductiveCap;
  history := [] |}.

Definition Record_ (r : CycleRecord) (g : CostVelocityGovernor) : CostVelocityGovernor := {|
  WindowSize := WindowSize g; AlarmPerCycle := AlarmPerCycle g; UnproductiveCap := UnproductiveCap g; history := history g ++ [r] |}.

Definition sum_cost (l : list CycleRecord) : float64 := foldl (λ s r, float_add s (Cost r)) float_zero l.
Definition window (g : CostVelocityGovernor) : list CycleRecord := last_n (Z.to_nat (WindowSize g)) (history g).
Definition avg_cost (l : list CycleRecord) : float64 := float_div (sum_cost l) (float_of_int (Z.of_nat (length l))).

Definition Check (g : CostVelocityGovernor) : option VelocityAlarm :=
  if bool_decide (history g = []) then None else
  let avgCost := avg_cost (window g) in
  if float_lt (AlarmPerCycle g) avgCost then
    Some {| Reason := "rolling average cost $" +:+ format_fixed 2 avgCost +:+ " exceeds alarm threshold $" +:+ format_fixed 2 (AlarmPerCycle g);
            AvgCost := avgCost; va_WindowSize := Z.of_nat (length (window g)) |}
  else None.

(** The unproductive streak from the end. *)
Fixpoint leading (p : CycleRecord → bool) (l : list CycleRecord) : Z :=
  match l with [] => 0 | r :: l => if p r then 1 + leading p l else 0 end.
Definition streak (l : list CycleRecord) : Z := leading (λ r, negb (Productive r)) (rev l).

Definition ShouldHalt (g : CostVelocityGovernor) : bool :=
  if bool_decide (history g = []) then false else
  if UnproductiveCap g <=? streak (history g) then true
  else float_lt (AlarmPerCycle g) (avg_cost (window g)).

Definition TotalCost (g : CostVelocityGovernor) : float64 := sum_cost (history g).
Definition CycleCount (g : CostVelocityGovernor) : Z := Z.of_nat (length (history g)).

(** ** The cost adapter (costadapt.go) *)
Record CostAdjustment := { MaxTokens : Z; ModelHint : string; Warning : string }.
Record CostAdapter := { TotalBudget : Z; MaxIterations : Z; FallbackModel : string; ReducedMaxTokens : Z }.
Definition NewCostAdapter (totalBudget maxIterations : Z) : CostAdapter := {|
  TotalBudget := totalBudget; MaxIterations := maxIterations; FallbackModel := "claude-sonnet-5"; ReducedMaxTokens := 1024 |}.

Definition one_and_half : float64 := float_div (float_of_int 3) (float_of_int 2).
Definition percent (f : float64) : string := format_fixed 1 (float_mul f (float_of_int 100)).

(** [used] is the total of the tracker, if there is one. *)
Definition adapter_Check (ca : CostAdapter) (used : option Z) (currentIteration : Z) : option CostAdjustment :=
  match used with
  | None => None
  | Some used =>
      if (TotalBudget ca <=? 0) || (MaxIterations ca <=? 0) || (currentIteration <=? 0) || (used <=? 0) then None else
      let expectedFraction := float_div (float_of_int currentIteration) (float_of_int (MaxIterations ca)) in
      let actualFraction := float_div (float_of_int used) (float_of_int (TotalBudget ca)) in
      if float_le actualFraction (float_mul expectedFraction one_and_half) then None else
      let remaining := TotalBudget ca - used in
      let remainingIters := if MaxIterations ca - currentIteration <=? 0 then 1 else MaxIterations ca - currentIteration in
      Some {|
        Warning := "Cost running ahead of pace: " +:+ percent actualFraction +:+ "% budget used at " +:+ percent expectedFraction +:+
          "% progress (iteration " +:+ itoa currentIteration +:+ "/" +:+ itoa (MaxIterations ca) +:+ ", " +:+ itoa remaining +:+
          " tokens remaining for " +:+ itoa remainingIters +:+ " iterations, ~" +:+ itoa (Z.quot remaining remainingIters) +:+ " per iter)";
        MaxTokens := if 0 <? ReducedMaxTokens ca then ReducedMaxTokens ca else 0;
        ModelHint := if float_lt (float_mul expectedFraction (float_of_int 2)) actualFraction then FallbackModel ca else "" |}
  end.

Definition ModelSelector : Type := Z → list string → string.
(** [total] is read from the tracker at each selection. *)
Definition CombineSelectors (base : option ModelSelector) (adapter : option CostAdapter) (total : option Z) : option ModelSelector :=
  match adapter, total with
  | Some ca, Some total =>
      Some (λ iteration completedIDs,
        match adapter_Check ca (Some total) iteration with
        | Some adj => if bool_decide (ModelHint adj ≠ "") then ModelHint adj
                      else match base with Some f => f iteration completedIDs | None => "" end
        | None => match base with Some f => f iteration completedIDs | None => "" end
        end)
  | _, _ => base
  end.

(** ** Models by task (models.go) *)
Record ModelTierConfig := { Default : string; TaskOverrides : gmap string string }.
Definition taskOrder : list string := ["scan"; "plan"; "implement"; "verify"; "reflect"; "report"; "schedule"].
Definition Selector (c : ModelTierConfig) : ModelSelector := λ iteration completedIDs,
  if bool_decide (TaskOverrides c = ∅) then Default c else
  match filter (λ id, id ∉ completedIDs) taskOrder with
  | [] => Default c
  | taskID :: _ => default (Default c) (TaskOverrides c !! taskID)
  end.

(** ** Notes of past cycles (notes.go), strategy (strategy.go) and learning (learning.go, improve.go) *)
Record ImprovementNote := {
  CycleID : string; CycleNumber : Z; WhatWorked : list string; WhatFailed : list string; WastedIters : Z; n_TotalCost : float64;
  Suggestions : list string; Timestamp : string }.

Inductive CycleStrategy :=
  StrategyFull | StrategyMaintenance | StrategyRecovery | StrategyMetaImprove | StrategyEcosystem | StrategyOther (s : string).
#[export] Instance CycleStrategy_dec : EqDecision CycleStrategy.
Proof. solve_decision. Defined.
Definition strategy_text (s : CycleStrategy) : string :=
  match s with
  | StrategyFull => "full" | StrategyMaintenance => "maintenance" | StrategyRecovery => "recovery"
  | StrategyMetaImprove => "meta_improve" | StrategyEcosystem => "ecosystem" | StrategyOther s => s
  end.

Definition failed (n : ImprovementNote) : bool := bool_decide (WhatFailed n ≠ []).
Fixpoint successes (l : list ImprovementNote) : Z :=
  match l with [] => 0 | n :: l => if failed n then 0 else 1 + successes l end.
Definition ConsecutiveSuccesses (notes : list ImprovementNote) : Z := successes (rev notes).

Definition BudgetPct (totalBudget spent : float64) : float64 :=
  if float_le totalBudget float_zero then float_of_int 1 else
  let remaining := float_sub totalBudget spent in
  if float_le remaining float_zero then float_zero else
  let pct := float_div remaining totalBudget in
  if float_lt (float_of_int 1) pct then float_of_int 1 else pct.

Definition tenth (k : Z) : float64 := float_div (float_of_int k) (float_of_int 10).
Definition num {A} (l : list A) : Z := Z.of_nat (length l).
Definition SelectStrategy (notes : list ImprovementNote) (consecutiveSuccess : Z) (budgetPct : float64) : CycleStrategy :=
  if float_lt budgetPct (tenth 1) then StrategyEcosystem
  else if (0 <? num notes) && (num notes mod 10 =? 0) then StrategyMetaImprove
  else if (2 <=? num notes) && (2 <=? num (filter failed (last_n 3 notes))) then StrategyRecovery
  else if (5 <=? consecutiveSuccess) && float_lt budgetPct (tenth 3) then StrategyMaintenance
  else StrategyFull.

Definition failures (notes : list ImprovementNote) : list string := notes ≫= WhatFailed.
Definition count_up (m : gmap string Z) (f : string) : gmap string Z := <[f := default 0 (m !! f) + 1]> m.
Definition failCounts (notes : list ImprovementNote) : gmap string Z := foldl count_up ∅ (failures notes).

Definition cent : float64 := float_div (float_of_int 1) (float_of_int 100).
Definition minus_cent : float64 := float_sub float_zero cent.
Fixpoint cost_moves (l : list ImprovementNote) : Z * Z :=
  match l with
  | a :: ((b :: _) as l) =>
      let '(inc, dec) := cost_moves l in
      let diff := float_sub (n_TotalCost b) (n_TotalCost a) in
      if float_lt cent diff then (inc + 1, dec) else if float_lt diff minus_cent then (inc, dec + 1) else (inc, dec)
  | _ => (0, 0)
  end.
Definition analyzeCostTrend (notes : list ImprovementNote) : string :=
  if num notes <? 2 then "stable" else
  let '(increasing, decreasing) := cost_moves (last_n 3 notes) in
  if decreasing <? increasing then "increasing" else if increasing <? decreasing then "decreasing" else "stable".

Record TaskMutation := { Action : string; TaskID : string; mu_Reason : string }.

Section Learning.
(** The order of a walk over a map of counts. *)
Variable walk : gmap string Z → list (string * Z).

(** The engine reads the notes from their file; no notes when they cannot be read. *)
Definition AvoidPatterns (notes : list ImprovementNote) (windowSize : Z) : list string :=
  if bool_decide (notes = []) then [] else
  let windowSize := if windowSize <=? 0 then 10 else windowSize in
  let window := last_n (Z.to_nat windowSize) notes in
  let threshold := Z.max 1 (num window / 4) in
  fst <$> filter (λ fc, threshold <= fc.2) (walk (failCounts window)).

Definition CostTrend (notes : list ImprovementNote) : string :=
  if bool_decide (notes = []) then "stable" else analyzeCostTrend notes.

Definition verify_words (f : string) : bool :=
  let lower := to_lower f in contains "verify" lower || contains "test" lower || contains "build" lower || contains "compile" lower.
Definition TaskMutations (notes : list ImprovementNote) : list TaskMutation :=
  if bool_decide (notes = []) then [] else
  let verifyFailCount := num (filter verify_words (failures notes)) in
  let threshold := Z.max 1 (num notes / 2) in
  ((λ fc, {| Action := "skip"; TaskID := fc.1; mu_Reason := itoa fc.2 +:+ "/" +:+ itoa (num notes) +:+ " cycles failed on this" |})
     <$> filter (λ fc, threshold <= fc.2) (walk (failCounts notes))) ++
  (if num notes / 3 <? verifyFailCount then
     [{| Action := "add_verify"; TaskID := "implement";
         mu_Reason := "verification fails in " +:+ itoa verifyFailCount +:+ "/" +:+ itoa (num notes) +:+ " cycles" |}] else []) ++
  (if num notes mod 10 =? 0 then
     [{| Action := "meta_improve"; TaskID := ""; mu_Reason := "accumulated " +:+ itoa (num notes) +:+ " cycles of notes" |}] else []).

Record ImproveOutput := {
  CyclesAnalyzed : Z; CommonFailures : list string; AvgWastedIters : float64; io_CostTrend : string; Recommendations : list string }.
Definition analyze (notes : list ImprovementNote) : ImproveOutput :=
  if bool_decide (notes = []) then {|
    CyclesAnalyzed := 0; CommonFailures := []; AvgWastedIters := float_zero; io_CostTrend := "";
    Recommendations := ["No improvement notes found. Run at least one cycle with rdcycle_notes first."] |}
  else
  let totalWasted := foldl (λ s n, add64 s (WastedIters n)) 0 notes in
  let threshold := Z.max 1 (num notes / 4) in
  let commonFailures :=
    (λ fc : string * Z, fc.1 +:+ " (" +:+ itoa fc.2 +:+ "/" +:+ itoa (num notes) +:+ " cycles)") <$> filter (λ fc, threshold <= fc.2) (walk (failCounts notes)) in
  let avgWasted := float_div (float_of_int totalWasted) (float_of_int (num notes)) in
  let costTrend := analyzeCostTrend notes in
  let recs :=
    (if float_lt (float_of_int 5) avgWasted then
       ["High average wasted iterations (" +:+ format_fixed 1 avgWasted +:+ "). Consider tighter task descriptions or more specific tool prompts."] else []) ++
    (if bool_decide (costTrend = "increasing") then
       ["Cost trend is increasing. Consider switching to cheaper models for scan/verify tasks or reducing max iterations."] else []) ++
    (if bool_decide (commonFailures ≠ []) then
       ["Recurring failures detected in " +:+ itoa (num commonFailures) +:+ " patterns. Address root causes before next cycle."] else []) ++
    (if float_le avgWasted (float_of_int 2) && bool_decide (costTrend = "decreasing") then
       ["Loop is well-calibrated. Consider increasing iteration budget for more ambitious tasks."] else []) in
  {| CyclesAnalyzed := num notes; CommonFailures := commonFailures; AvgWastedIters := avgWasted; io_CostTrend := costTrend;
     Recommendations := match recs with [] => ["No specific recommendations. Loop performance is stable."] | _ => recs end |}.
End Learning.

(** ** The breaker against the history of its calls *)
Inductive bevent := BCan (t : time) | BRecord (progress errRepeated : bool) (t : time) | BReset.
Definition brun1 (cb : CircuitBreaker) (e : bevent) : CircuitBreaker :=
  match e with BCan t => (CanExecute t cb).2 | BRecord p r t => RecordResult p r t cb | BReset => Reset cb end.
Definition brun (threshold : Z) (cooldown : duration) (l : list bevent) : CircuitBreaker :=
  foldl brun1 (NewCircuitBreaker threshold cooldown) l.

(** What a history says: the fruitless cycles since the last fruitful one or reset, the time of
    the last of them, and the times at which permission was asked since. *)
Record story := { fruitless : Z; last_failure : time; asked : list time }.
Definition tell (s : story) (e : bevent) : story :=
  match e with
  | BCan t => {| fruitless := fruitless s; last_failure := last_failure s; asked := asked s ++ [t] |}
  | BRecord p r t =>
      if negb p || r then {| fruitless := fruitless s + 1; last_failure := t; asked := [] |}
      else {| fruitless := 0; last_failure := last_failure s; asked := [] |}
  | BReset => {| fruitless := 0; last_failure := time_zero; asked := [] |}
  end.
Definition story_of (l : list bevent) : story := foldl tell {| fruitless := 0; last_failure := time_zero; asked := [] |} l.

Definition cooled (cooldown : duration) (s : story) (t : time) : bool := cooldown <=? time_sub t (last_failure s).
Record agrees (th : Z) (cd : duration) (cb : CircuitBreaker) (s : story) : Prop := {
  ag_threshold : noProgressThreshold cb = th;
  ag_cooldown : cooldownDuration cb = cd;
  ag_count : noProgressCount cb = fruitless s;
  ag_nonneg : 0 <= fruitless s;
  ag_opened : th <= fruitless s → openedAt cb = last_failure s;
  ag_state : state cb = if fruitless s <? th then BreakerClosed
    else if existsb (cooled cd s) (asked s) then BreakerHalfOpen else BreakerOpen
}.

Lemma agrees_step th cd cb s e : 0 < th → agrees th cd cb s → agrees th cd (brun1 cb e) (tell s e).
Proof.
  intros Hth [Ht Hc Hn Hp Ho Hs]. destruct e as [t|p r t|]; cbn [brun1 tell].
  - unfold CanExecute. rewrite Hs. destruct (Z.ltb_spec (fruitless s) th) as [Hlt|Hge].
    { split; cbn [snd fruitless last_failure asked]; [done..|]. rewrite (proj2 (Z.ltb_lt _ _)) by done. by rewrite Hs. }
    assert (Hcool : (cooldownDuration cb <=? time_sub t (openedAt cb)) = cooled cd s t) by (unfold cooled; by rewrite Hc, Ho by done).
    destruct (existsb (cooled cd s) (asked s)) eqn:Ea; [|rewrite Hcool; destruct (cooled cd s t) eqn:Ect];
      (split; cbn [state noProgressCount noProgressThreshold cooldownDuration openedAt fruitless last_failure asked snd]; try done;
       rewrite (proj2 (Z.ltb_ge _ _)) by done; rewrite existsb_app;
       change (cooled cd {| fruitless := fruitless s; last_failure := last_failure s; asked := asked s ++ [t] |}) with (cooled cd s);
       rewrite Ea; cbn [existsb orb]; rewrite ?Ect, ?Hs, ?Ea; try rewrite (proj2 (Z.ltb_ge _ _)) by done; done).
  - unfold RecordResult. destruct (negb p || r); [|split; cbn; try done; [lia|by rewrite (proj2 (Z.ltb_lt _ _)) by lia]].
    rewrite Hn, Ht. destruct (Z.leb_spec th (fruitless s + 1)) as [Hge|Hlt]; split;
      cbn [state noProgressCount noProgressThreshold cooldownDuration openedAt fruitless last_failure asked existsb]; try done; try lia.
    + by rewrite (proj2 (Z.ltb_ge _ _)) by lia.
    + rewrite Hs, !(proj2 (Z.ltb_lt _ _)) by lia. done.
  - split; cbn; try done. by rewrite (proj2 (Z.ltb_lt _ _)) by done.
Qed.

Lemma agrees_run threshold cooldown l :
  agrees (default_threshold threshold) (default_cooldown cooldown) (brun threshold cooldown l) (story_of l).
Proof.
  assert (Hth : 0 < default_threshold threshold) by (unfold default_threshold; destruct (Z.leb_spec threshold 0); lia).
  unfold brun, story_of. induction l as [|e l IH] using rev_ind; [|rewrite !foldl_app; cbn [foldl]; by apply agrees_step].
  split; cbn [foldl NewCircuitBreaker state noProgressCount noProgressThreshold cooldownDuration openedAt fruitless last_failure asked]; try done.
  by rewrite (proj2 (Z.ltb_lt _ _)) by done.
Qed.

(** The cycle breaker is its history.  After any calls, a cycle may run exactly when fewer than
    the threshold of fruitless cycles have come in a row since the last fruitful one or reset, or
    the cooldown had passed since the last of them when permission was asked, now or before.  So
    the breaker stays shut for the whole cooldown after the threshold is reached, a fruitless
    probe shuts it for another, and a fruitful one opens the way at once. *)
Theorem cycle_breaker_is_its_history (threshold : Z) (cooldown : duration) (l : list bevent) (t : time) :
  let th := default_threshold threshold in let cd := default_cooldown cooldown in
  let cb := brun threshold cooldown l in let s := story_of l in
  ((CanExecute t cb).1 = true ↔ fruitless s < th ∨ ∃ t', t' ∈ asked s ++ [t] ∧ cd <= time_sub t' (last_failure s)) ∧
  noProgressCount cb = fruitless s ∧ (state cb = BreakerClosed ↔ fruitless s < th) ∧
  (∀ p r t', negb p || r = true → let cb' := RecordResult p r t' cb in
     th <= fruitless s + 1 → state cb' = BreakerOpen ∧ ∀ u, time_sub u t' < cd → (CanExecute u cb').1 = false).
Proof.
  cbv zeta. destruct (agrees_run threshold cooldown l) as [Ht Hc Hn Hp Ho Hs].
  revert Ht Hc Hn Hp Ho Hs. generalize (default_threshold threshold) as th. generalize (default_cooldown cooldown) as cd.
  intros cd th Ht Hc Hn Hp Ho Hs.
  split; [|split; [done|split]].
  - unfold CanExecute. rewrite Hs. destruct (Z.ltb_spec (fruitless (story_of l)) th) as [Hlt|Hge]; [cbn; naive_solver|].
    assert (Hex : ∀ k, existsb (cooled cd (story_of l)) k = true ↔ ∃ t', t' ∈ k ∧ cd <= time_sub t' (last_failure (story_of l))).
    { intros k. rewrite existsb_exists. unfold cooled. setoid_rewrite list_elem_of_In. setoid_rewrite Z.leb_le. done. }
    destruct (existsb (cooled cd (story_of l)) (asked (story_of l))) eqn:Ea; cbn [fst].
    + apply Hex in Ea as (t' & Hin & Ht'). split; [|done]. intros _. right. exists t'. set_solver.
    + assert (Hn' : ¬ ∃ t', t' ∈ asked (story_of l) ∧ cd <= time_sub t' (last_failure (story_of l))) by (rewrite <- Hex; congruence).
      rewrite Hc, Ho by done. destruct (Z.leb_spec cd (time_sub t (last_failure (story_of l)))); cbn [fst].
      * split; [|done]. intros _. right. exists t. set_solver.
      * split; [done|]. intros [|(t' & [Hin| ->%list_elem_of_singleton]%elem_of_app & Ht')]; [lia|naive_solver|lia].
  - rewrite Hs. destruct (Z.ltb_spec (fruitless (story_of l)) th); [naive_solver|]. split; [|lia].
    by destruct (existsb _ _).
  - intros p r t' Hbad Hge. unfold RecordResult. rewrite Hbad, Hn, Ht, (proj2 (Z.leb_le _ _)) by done. split; [done|].
    intros u Hu. unfold CanExecute. cbn [state cooldownDuration openedAt]. rewrite Hc, (proj2 (Z.leb_gt _ _)) by done. done.
Qed.

(** ** Failure patterns *)
Definition occurrences (f : string) (l : list string) : Z := num (filter (λ g, g = f) l).
Lemma count_up_spec l m f : default 0 (foldl count_up m l !! f) = default 0 (m !! f) + occurrences f l ∧
  (is_Some (foldl count_up m l !! f) ↔ is_Some (m !! f) ∨ f ∈ l).
Proof.
  revert m. induction l as [|g l IH]; intros m; cbn [foldl].
  { unfold occurrences, num. cbn. split; [lia|]. rewrite elem_of_nil. naive_solver. }
  destruct (IH (count_up m g)) as [-> ->]. unfold count_up. destruct (decide (g = f)) as [->|Hne].
  - rewrite lookup_insert_eq. unfold occurrences, num. rewrite filter_cons_True by done. cbn [from_option length]; unfold id. split; [lia|].
    rewrite elem_of_cons. naive_solver.
  - rewrite lookup_insert_ne by done. unfold occurrences, num. rewrite filter_cons_False by done. split; [done|].
    rewrite elem_of_cons. naive_solver.
Qed.

Lemma AvoidPatterns_spec walk notes n f : (∀ m, walk m ≡ₚ map_to_list m) →
  f ∈ AvoidPatterns walk notes n ↔
  let w := last_n (Z.to_nat (if n <=? 0 then 10 else n)) notes in f ∈ failures w ∧ Z.max 1 (num w / 4) <= occurrences f (failures w).
Proof.
  intros Hw. unfold AvoidPatterns. case_bool_decide as E.
  { subst. rewrite elem_of_nil. split; [done|]. intros [H _]. unfold last_n in H. cbn in H. rewrite drop_nil in H. by apply elem_of_nil in H. }
  cbv zeta. set (w := last_n _ _). rewrite list_elem_of_fmap. setoid_rewrite list_elem_of_filter. setoid_rewrite Hw.
  destruct (count_up_spec (failures w) ∅ f) as [Hd Hs]. unfold failCounts. rewrite lookup_empty in Hd, Hs. cbn in Hd. split.
  - intros ([f' k] & -> & Hk & Hin%elem_of_map_to_list). cbn [fst snd] in *. rewrite Hin in Hd. cbn in Hd.
    split; [|lia]. destruct Hs as [Hs _]. destruct Hs as [[? ?]|]; [by eexists|done|done].
  - intros [Hin Hk]. destruct Hs as [_ Hs]. destruct Hs as [k Hk']; [by right|]. rewrite Hk' in Hd. cbn in Hd.
    exists (f, k). cbn. split; [done|]. split; [lia|]. by apply elem_of_map_to_list.
Qed.

(** One failure in seven cycles is a pattern to avoid, though more than a quarter is asked for. *)
Definition demo_note (failed : list string) : ImprovementNote := {|
  CycleID := "c"; CycleNumber := 1; WhatWorked := []; WhatFailed := failed; WastedIters := 0; n_TotalCost := float_zero;
  Suggestions := []; Timestamp := "" |}.
Lemma one_in_seven_is_a_pattern :
  AvoidPatterns map_to_list (demo_note ["lint"] :: repeat (demo_note []) 6) 10 = ["lint"].
Proof. by vm_compute. Qed.
