(* ===== verification/RdSpecs.v ===== *)
(** The specifications of R&D cycles (src/rdcycle/plan.go, rdcycle.go, synthesize.go,
    synthesizer.go, source_roadmap.go, source_improve.go, schedule.go): from the roadmap, the
    notes of past cycles and stored plans to the task list the autonomous loop runs. *)

From stdpp Require Import base tactics list gmap strings pretty sorting.
From Stdlib Require Import ZArith Lia.
From S2P Require Import Prelude Dag RdGuards.
From S2P Require Roadmap Loop.

Local Open Scope Z_scope.

(** ** Artifacts (rdcycle.go, filestore.go) *)
Inductive any := AText (s : string) | ATexts (l : list string) | AInt (n : Z) | AJson (v : json).
Record Artifact := { a_ID : string; a_Type : string; a_Content : gmap string any; a_CreatedAt : string }.
Definition InMemoryArtifactStore : Type := gmap string Artifact.
Definition store_Save (a : Artifact) (s : InMemoryArtifactStore) : InMemoryArtifactStore := <[a_ID a := a]> s.
Definition store_Get (id : string) (s : InMemoryArtifactStore) : option Artifact := s !! id.
Definition store_List (artifactType : string) (s : InMemoryArtifactStore) : list Artifact :=
  filter (λ a, artifactType = "" ∨ a_Type a = artifactType) (map_to_list s).*2.

(** What a value is after it was written to a file as JSON and read back. *)
Definition any_json (v : any) : json :=
  match v with AText s => JString s | ATexts l => JArray (JString <$> l) | AInt n => JNumber (itoa n) | AJson v => v end.
Definition reloaded (a : Artifact) : Artifact := {|
  a_ID := a_ID a; a_Type := a_Type a; a_Content := (λ v, AJson (any_json v)) <$> a_Content a; a_CreatedAt := a_CreatedAt a |}.

(** ** Plans (plan.go) *)
Record PlanOutput := {
  po_NextPhase : option Roadmap.Phase; po_ReadyItems : list Roadmap.WorkItem; GapCount : Z; po_Suggestions : list string;
  po_ArtifactID : string }.

Definition truncate (s : string) (maxLen : nat) : string :=
  if (String.length s <=? maxLen)%nat then s else string_take (maxLen - 3) s +:+ "...".
Definition signal : string := "Ecosystem signal: ".
Definition buildSuggestions (phase : option Roadmap.Phase) (gaps ready : list Roadmap.WorkItem) (actionItems : list string) : list string :=
  match phase with
  | None => ["All phases are complete — consider defining a new phase to address remaining gaps or ecosystem changes."]
  | Some p => ["Focus on phase " +:+ quote (Roadmap.ph_Name p) +:+ " (" +:+ Roadmap.ph_ID p +:+ "): " +:+ itoa (num ready) +:+
               " item(s) ready to start."]
  end ++
  (if bool_decide (ready = []) then [] else
   ["Ready items: " +:+ join "; " ((λ item, Roadmap.ID item +:+ " (" +:+ truncate (Roadmap.Description item) 60 +:+ ")") <$> ready)]) ++
  (if bool_decide (gaps = []) then [] else
   ["Gap analysis: " +:+ itoa (num gaps) +:+ " planned item(s) remain across all phases."]) ++
  ((λ ai, signal +:+ ai) <$> actionItems).

(** The plan of a roadmap, and the artifact it is stored as. *)
Definition make_plan (rm : Roadmap.Roadmap) (actionItems : list string) (id : string) : PlanOutput :=
  let nextPhase := Roadmap.NextPhase rm in
  let gaps := Roadmap.GapAnalysis rm in
  let readyItems := Roadmap.ReadyItems nextPhase in
  {| po_NextPhase := nextPhase; po_ReadyItems := readyItems; GapCount := num gaps;
     po_Suggestions := buildSuggestions nextPhase gaps readyItems actionItems; po_ArtifactID := id |}.
Definition plan_artifact (path created : string) (actionItems : list string) (p : PlanOutput) : Artifact := {|
  a_ID := po_ArtifactID p; a_Type := "plan"; a_CreatedAt := created;
  a_Content := list_to_map [
    ("roadmap_path", AText path); ("gap_count", AInt (GapCount p)); ("ready_count", AInt (num (po_ReadyItems p)));
    ("suggestions", ATexts (po_Suggestions p)); ("action_items", ATexts actionItems)] |}.

(** A plan read back from its artifact: only values that came through JSON are recognised. *)
Definition planOutputFromArtifact (number : string → Z) (art : Artifact) : PlanOutput := {|
  po_NextPhase := None; po_ReadyItems := []; po_ArtifactID := "";
  po_Suggestions := match a_Content art !! "suggestions" with
    | Some (AJson (JArray l)) => omap (λ v, match v with JString s => Some s | _ => None end) l | _ => [] end;
  GapCount := match a_Content art !! "gap_count" with Some (AJson (JNumber n)) => number n | _ => 0 end |}.

(** ** One task per item (synthesize.go)

    Spaces, slashes, backslashes, colons and dots become underscores. *)
Definition task (id desc : string) (deps : list string) : Task := {| ID := id; TaskDescription := desc; Done := false; DependsOn := deps |}.

Definition id_byte (a : Ascii.ascii) : Ascii.ascii :=
  if bool_decide (Ascii.nat_of_ascii a ∈ [32; 47; 92; 58; 46]%nat) then Ascii.ascii_of_nat 95 else lower_ascii a.
Fixpoint sanitizeTaskID (s : string) : string :=
  match s with EmptyString => "" | String a s => String (id_byte a) (sanitizeTaskID s) end.

Definition implement_id (item : Roadmap.WorkItem) : string := "implement_" +:+ sanitizeTaskID (Roadmap.ID item).
Definition implement_task (item : Roadmap.WorkItem) : Task :=
  task (implement_id item)
    ("Implement " +:+ Roadmap.ID item +:+ ": " +:+ Roadmap.Description item +:+
     (if bool_decide (Roadmap.Package item = "") then "" else " (package: " +:+ Roadmap.Package item +:+ ")"))
    ["plan"].
(** The investigation tasks, numbered by the place of their suggestion. *)
Fixpoint investigations (i : Z) (suggestions : list string) : list Task :=
  match suggestions with
  | [] => []
  | s :: rest =>
      (if has_prefix signal s then [task ("investigate_" +:+ itoa i) (trim_prefix s signal) ["plan"]] else []) ++ investigations (i + 1) rest
  end.
Definition work_tasks (plan : PlanOutput) : list Task :=
  match (implement_task <$> po_ReadyItems plan) ++ investigations 0 (po_Suggestions plan) with
  | [] => [task "implement" "Implement changes based on plan suggestions." ["plan"]]
  | l => l
  end.

Definition lessons_text (lessons : list string) : string :=
  if bool_decide (lessons = []) then "" else
  newline +:+ newline +:+ "Lessons from previous cycles:" +:+ newline +:+ foldr (λ l s, "- " +:+ l +:+ newline +:+ s) "" lessons.
Definition completion_text : string := "All planned work items are implemented, tests pass, and roadmap is updated.".

Definition SynthesizeSpec (plan : PlanOutput) (cycleName : string) (lessons : list string) : error + Loop.Spec :=
  if bool_decide (cycleName = "") then inl (Err "synthesize: cycle_name is required") else
  let work := work_tasks plan in
  inr {| Loop.sp_Name := "R&D Cycle: " +:+ cycleName;
         Loop.sp_Description := "Autonomous R&D cycle: " +:+ cycleName +:+ "." +:+
           (match po_NextPhase plan with Some p => " Focus: phase " +:+ quote (Roadmap.ph_Name p) +:+ "." | None => "" end) +:+
           lessons_text lessons;
         Loop.Completion := completion_text;
         Loop.Tasks :=
           [task "scan" "Run rdcycle_scan to check ecosystem activity." [];
            task "plan" "Run rdcycle_plan with scan results." ["scan"]] ++ work ++
           [task "verify" "Run rdcycle_verify to execute make check. Fix issues and re-verify if needed." (map ID work);
            task "reflect" "Record improvement notes using rdcycle_notes: what worked, what failed, wasted iterations, cost, and suggestions." ["verify"];
            task "report" "Run rdcycle_report to generate research reports. Run rdcycle_commit to save changes." ["reflect"];
            task "schedule" "Run rdcycle_schedule to write the next cycle's spec." ["report"]] |}.

(** ** Candidates and their selection (synthesizer.go, source_roadmap.go, source_improve.go) *)
Record CandidateTask := {
  c_ID : string; c_Description : string; c_Source : string; c_Priority : Z; c_DependsOn : list string; c_Complexity : string }.

Definition roadmap_candidate (i : nat) (item : Roadmap.WorkItem) : CandidateTask := {|
  c_ID := Roadmap.ID item; c_Description := Roadmap.Description item; c_Source := "roadmap"; c_Priority := Z.of_nat i + 10;
  c_DependsOn := Roadmap.DependsOn item;
  c_Complexity := if bool_decide (Roadmap.Priority item = "high") then "complex"
                  else if bool_decide (Roadmap.Priority item = "low") then "simple" else "moderate" |}.
Definition roadmap_Fetch (rm : error + Roadmap.Roadmap) : error + list CandidateTask :=
  match rm with
  | inl err => inl err
  | inr rm =>
      match Roadmap.NextPhase rm with
      | None => inr []
      | Some phase => inr (imap roadmap_candidate (Roadmap.ReadyItems (Some phase)))
      end
  end.

Definition self_improve_candidate : CandidateTask := {|
  c_ID := "self_improve"; c_Description := "Run rdcycle_improve to analyze accumulated notes and apply recommendations.";
  c_Source := "improvement"; c_Priority := 50; c_DependsOn := []; c_Complexity := "simple" |}.
Definition fix_candidate (priority : Z) (fc : string * Z) : CandidateTask := {|
  c_ID := "fix_" +:+ itoa priority;
  c_Description := "Fix recurring issue: " +:+ fc.1 +:+ " (appeared in " +:+ itoa fc.2 +:+ "/3 recent cycles).";
  c_Source := "improvement"; c_Priority := priority; c_DependsOn := []; c_Complexity := "moderate" |}.

Section Synthesizer.
(** The order of a walk over a map of counts, and [sort.Slice] by increasing priority. *)
Variable walk : gmap string Z → list (string * Z).
Variable sort_slice : list CandidateTask → list CandidateTask.

Definition improvement_Fetch (notes : list ImprovementNote) : list CandidateTask :=
  if bool_decide (notes = []) then [] else
  (if num notes mod 10 =? 0 then [self_improve_candidate] else []) ++
  (if 3 <=? num notes
   then imap (λ i fc, fix_candidate (20 + Z.of_nat i) fc) (filter (λ fc, 2 <= fc.2) (walk (failCounts (last_n 3 notes))))
   else []).

Definition filterAvoidPatterns (candidates : list CandidateTask) (patterns : list string) : list CandidateTask :=
  filter (λ c, existsb (λ p, contains (to_lower p) (to_lower (c_Description c))) patterns = false) candidates.

Definition fits_strategy (s : CycleStrategy) (c : CandidateTask) : bool :=
  match s with
  | StrategyMaintenance => bool_decide (c_Source c ≠ "roadmap")
  | StrategyEcosystem => bool_decide (c_Source c ≠ "roadmap") || bool_decide (c_Complexity c = "simple")
  | StrategyRecovery => bool_decide (c_Source c = "improvement") || bool_decide (c_Source c = "scaffold")
  | StrategyMetaImprove => bool_decide (c_Source c = "improvement")
  | _ => true
  end.
Definition filterByStrategy (candidates : list CandidateTask) (s : CycleStrategy) : list CandidateTask :=
  filter (λ c, fits_strategy s c = true) candidates.

Definition pre_verify (c : CandidateTask) : CandidateTask := {|
  c_ID := c_ID c +:+ "_pre_verify"; c_Description := "Pre-verify after " +:+ c_ID c +:+ ": run build + vet before continuing.";
  c_Source := "improvement"; c_Priority := c_Priority c + 1; c_DependsOn := [c_ID c]; c_Complexity := "simple" |}.
Definition apply_mutation (candidates : list CandidateTask) (m : TaskMutation) : list CandidateTask :=
  if bool_decide (Action m = "add_verify") then
    candidates ≫= λ c, if bool_decide (c_ID c = TaskID m) then [c; pre_verify c] else [c]
  else if bool_decide (Action m = "meta_improve") then
    if bool_decide ("self_improve" ∈ c_ID <$> candidates) then candidates else candidates ++ [self_improve_candidate]
  else candidates.
Definition applyMutations (candidates : list CandidateTask) (mutations : list TaskMutation) : list CandidateTask :=
  foldl apply_mutation candidates mutations.

Record SynthesisConfig := { CycleName : string; RoadmapPath : string; Strategy : CycleStrategy; MaxTasks : Z }.

(** The candidates as tasks: one without dependencies follows the one before it. *)
Fixpoint chain (last : string) (candidates : list CandidateTask) : list Task :=
  match candidates with
  | [] => []
  | c :: rest =>
      task (c_ID c) (c_Description c)
        (if bool_decide (c_DependsOn c = []) && bool_decide (last ≠ "") then [last] else c_DependsOn c) :: chain (c_ID c) rest
  end.
Definition last_id (start : string) (candidates : list CandidateTask) : string :=
  foldl (λ _ c, c_ID c) start candidates.

Definition scans (s : CycleStrategy) : bool := bool_decide (s = StrategyFull) || bool_decide (s = StrategyEcosystem).
Definition chain_start (s : CycleStrategy) : string :=
  if bool_decide (s = StrategyRecovery) || bool_decide (s = StrategyMaintenance) then "" else "plan".

Definition buildSynthesizedSpec (since : string) (cfg : SynthesisConfig) (candidates : list CandidateTask)
    (notes : list ImprovementNote) : Loop.Spec :=
  let costTrend := CostTrend notes in
  let avoidPatterns := AvoidPatterns walk notes 10 in
  let lastImplID := last_id (chain_start (Strategy cfg)) candidates in
  {| Loop.sp_Name := "R&D Cycle: " +:+ CycleName cfg;
     Loop.sp_Description :=
       "Autonomous R&D cycle '" +:+ CycleName cfg +:+ "' (strategy: " +:+ strategy_text (Strategy cfg) +:+ ", since: " +:+ since +:+ ")." +:+
       (if bool_decide (costTrend ≠ "stable") || bool_decide (avoidPatterns ≠ []) then
          newline +:+ newline +:+ "Learning signals:" +:+
          (if bool_decide (costTrend ≠ "stable") then newline +:+ "- Cost trend: " +:+ costTrend else "") +:+
          foldr (λ p s, newline +:+ "- Avoid: " +:+ p +:+ s) "" avoidPatterns
        else "");
     Loop.Completion := completion_text;
     Loop.Tasks :=
       (if scans (Strategy cfg) then
          [task "scan" ("Run rdcycle_scan to check ecosystem activity since " +:+ since +:+ ".") [];
           task "plan" ("Run rdcycle_plan with scan results and roadmap at " +:+ RoadmapPath cfg +:+ ".") ["scan"]] else []) ++
       chain (chain_start (Strategy cfg)) candidates ++
       [task "verify" "Run rdcycle_verify to execute make check. Fix issues and re-verify if needed."
          (if bool_decide (lastImplID = "") then [] else [lastImplID]);
        task "reflect" "Record improvement notes for this cycle using rdcycle_notes." ["verify"];
        task "schedule" "Run rdcycle_schedule to write the next cycle's spec." ["reflect"]] |}.

(** [fetched] is what the sources answer, in their order; a source that fails is skipped.  The
    learning engine's file is read several times; [notes] is what it says each time. *)
Definition select_candidates (cfg : SynthesisConfig) (fetched : list (error + list CandidateTask)) (notes : list ImprovementNote) :
    list CandidateTask :=
  let candidates := fetched ≫= λ r, match r with inr tasks => tasks | inl _ => [] end in
  let avoid := AvoidPatterns walk notes 10 in
  let candidates := if bool_decide (avoid = []) then candidates else filterAvoidPatterns candidates avoid in
  let candidates := sort_slice (filterByStrategy candidates (Strategy cfg)) in
  let candidates := if (0 <? MaxTasks cfg) && (MaxTasks cfg <? num candidates) then take (Z.to_nat (MaxTasks cfg)) candidates else candidates in
  applyMutations candidates (TaskMutations walk notes).
Definition Synthesize (since : string) (cfg : SynthesisConfig) (fetched : list (error + list CandidateTask)) (notes : list ImprovementNote) :
    error + Loop.Spec :=
  if bool_decide (CycleName cfg = "") then inl (Err "rdcycle: cycle_name is required for synthesis")
  else inr (buildSynthesizedSpec since cfg (select_candidates cfg fetched notes) notes).
End Synthesizer.

(** ** The next cycle's template (schedule.go) *)
Definition lessons_of (notes : list ImprovementNote) : list string :=
  last_n 3 notes ≫= λ n, Suggestions n ++ ((λ f, "Avoid: " +:+ f) <$> WhatFailed n).

Definition schedule_tasks (since roadmapPath : string) (improve : bool) : list Task :=
  [task "scan" ("Run rdcycle_scan to check ecosystem activity since " +:+ since +:+ ".") [];
   task "plan" ("Run rdcycle_plan with scan results and roadmap at " +:+ roadmapPath +:+ ".") ["scan"];
   task "implement" "For each ready work item from the plan, implement the changes." ["plan"];
   task "verify" "Run rdcycle_verify to execute make check. Fix issues and re-verify if needed." ["implement"];
   task "reflect" "Record improvement notes for this cycle using rdcycle_notes: what worked, what failed, wasted iterations, cost, and suggestions for next cycle." ["verify"]] ++
  (if improve then [task "self_improve" "Run rdcycle_improve to analyze accumulated notes and apply recommendations." ["reflect"]] else []) ++
  [task "report" "Run rdcycle_report to generate research reports. Run rdcycle_commit to save changes."
     [if improve then "self_improve" else "reflect"];
   task "schedule" "Run rdcycle_schedule to write the next cycle's spec." ["report"]].

Definition schedule_spec (since roadmapPath cycleName : string) (notes : list ImprovementNote) : Loop.Spec := {|
  Loop.sp_Name := "R&D Cycle: " +:+ cycleName;
  Loop.sp_Description := "Autonomous R&D cycle scanning MCP ecosystem changes since " +:+ since +:+
    ", planning roadmap updates, implementing changes, and verifying quality." +:+ lessons_text (lessons_of notes);
  Loop.Completion := completion_text;
  Loop.Tasks := schedule_tasks since roadmapPath ((0 <? num notes) && (num notes mod 10 =? 0)) |}.

(** The tool: a synthesizer's specification if there is one and it can be written, else one made
    from the stored plan, else the template.  [synthesized] is what the synthesizer answers, and
    [stored] the plan of the artifact the caller names, where they exist. *)
Record ScheduleInput := { si_CycleName : string; OutputPath : string; si_RoadmapPath : string }.
Record ScheduleOutput := { SpecPath : string; Written : bool; SinceDate : string }.

Section Schedule.
Context {W : Type}.
Variable WriteFile : string → Loop.Spec → st W bool.
Variable WriteSpec : string → Loop.Spec → string → st W (error + string).
Variable WriteAtomic : string → Loop.Spec → st W (option error).
Variable Dir : string → string.
Variable slashes : string → string.
Variable config_RoadmapPath : string.

Definition resolveOutputPath (input : ScheduleInput) : string :=
  if bool_decide (OutputPath input = "") then "rdcycle/specs/next_cycle.json" else OutputPath input.
Definition roadmap_path (input : ScheduleInput) : string :=
  if bool_decide (si_RoadmapPath input ≠ "") then si_RoadmapPath input
  else if bool_decide (config_RoadmapPath ≠ "") then config_RoadmapPath else "ROADMAP.md".

Definition written (path since : string) : error + ScheduleOutput := inr {| SpecPath := slashes path; Written := true; SinceDate := since |}.

Definition schedule_template (since : string) (input : ScheduleInput) (notes : list ImprovementNote) : st W (error + ScheduleOutput) := λ w,
  match WriteAtomic (resolveOutputPath input) (schedule_spec since (roadmap_path input) (si_CycleName input) notes) w with
  | (Some err, w) => (inl err, w)
  | (None, w) => (written (resolveOutputPath input) since, w)
  end.
Definition schedule_plan (since : string) (input : ScheduleInput) (stored : option PlanOutput) (notes : list ImprovementNote) :
    st W (error + ScheduleOutput) := λ w,
  match stored with
  | None => schedule_template since input notes w
  | Some plan =>
      match SynthesizeSpec plan (si_CycleName input) (lessons_of notes) with
      | inl _ => schedule_template since input notes w
      | inr spec =>
          match WriteSpec (Dir (resolveOutputPath input)) spec (si_CycleName input) w with
          | (inr path, w) => (written path since, w)
          | (inl _, w) => schedule_template since input notes w
          end
      end
  end.
Definition handleSchedule (since : string) (input : ScheduleInput) (synthesized : option (error + Loop.Spec)) (stored : option PlanOutput)
    (notes : list ImprovementNote) : st W (error + ScheduleOutput) := λ w,
  if bool_decide (si_CycleName input = "") then (inl (Err "cycle_name is required"), w) else
  match synthesized with
  | Some (inr spec) =>
      match WriteFile (resolveOutputPath input) spec w with
      | (true, w) => (written (resolveOutputPath input) since, w)
      | (false, w) => schedule_plan since input stored notes w
      end
  | _ => schedule_plan since input stored notes w
  end.
End Schedule.

(** ** What the loop accepts *)
Fixpoint ordered_from (before : list string) (tasks : list Task) : Prop :=
  match tasks with
  | [] => True
  | t :: k => (∀ dep, dep ∈ DependsOn t → dep ∈ before) ∧ ordered_from (before ++ [ID t]) k
  end.
Lemma ordered_from_app before l k : ordered_from before (l ++ k) ↔ ordered_from before l ∧ ordered_from (before ++ map ID l) k.
Proof.
  revert before. induction l as [|t l IH]; intros before; cbn; [rewrite app_nil_r; naive_solver|].
  rewrite IH, <- (app_assoc before). naive_solver.
Qed.
Lemma ordered_from_mono before before' tasks : before ⊆ before' → ordered_from before tasks → ordered_from before' tasks.
Proof.
  revert before before'. induction tasks as [|t k IH]; intros before before' Hs; cbn; [done|]. intros [Ht Hk]. split; [naive_solver|].
  eapply IH; [|done]. set_solver.
Qed.

Record sound (tasks : list Task) : Prop := {
  so_ids : Forall (λ t, ID t ≠ "") tasks;
  so_texts : Forall (λ t, TaskDescription t ≠ "") tasks;
  so_distinct : NoDup (map ID tasks);
  so_ordered : ordered_from [] tasks
}.

Lemma task_problems_none seen i t : Loop.task_problems seen i t = [] ↔ ID t ≠ "" ∧ TaskDescription t ≠ "" ∧ ID t ∉ seen.
Proof.
  unfold Loop.task_problems. destruct (bool_decide_reflect (ID t = "")) as [E|E]; [by split; [|intros []]|].
  destruct (bool_decide_reflect (TaskDescription t = "")); [by split; [|intros (? & ? & ?)]|].
  rewrite bool_decide_true by done. case_bool_decide; [by split; [|intros (? & ? & ?)]|]. done.
Qed.
Lemma tasks_problems_none tasks : ∀ seen i, Loop.tasks_problems seen i tasks = [] ↔
  Forall (λ t, ID t ≠ "") tasks ∧ Forall (λ t, TaskDescription t ≠ "") tasks ∧ NoDup (map ID tasks) ∧ ∀ t, t ∈ tasks → ID t ∉ seen.
Proof.
  induction tasks as [|t k IH]; intros seen i; cbn [Loop.tasks_problems map].
  { split; [|done]. intros _. split_and!; [by constructor..|]. by intros ? ?%elem_of_nil. }
  assert (∀ a b : list string, a ++ b = [] ↔ a = [] ∧ b = []) as Happ by (intros [] []; naive_solver).
  rewrite Happ, task_problems_none, IH, !Forall_cons, NoDup_cons. split.
  - intros ((H1 & H2 & H3) & H4 & H5 & H6 & H7). split_and!; try done.
    + intros (u & E & Hu)%list_elem_of_fmap. apply (H7 u Hu). rewrite <- E. set_solver.
    + intros u [->|Hu]%elem_of_cons; [done|]. intros Hs. apply (H7 u Hu). set_solver.
  - intros ((H1 & H2) & (H3 & H4) & (H5 & H6) & H7). split_and!; try done; [apply H7; by left|].
    intros u Hu [Hs%elem_of_singleton|Hs]%elem_of_union; [|by apply (H7 u); [by right|]].
    apply H5. apply list_elem_of_fmap. by exists u.
Qed.

Section Accepted.
Variable order : list string → list string.
Hypothesis order_perm : ∀ l, order l ≡ₚ l.

Lemma sound_accepted spec : Loop.sp_Name spec ≠ "" → Loop.sp_Description spec ≠ "" → Loop.Tasks spec ≠ [] → sound (Loop.Tasks spec) →
  Loop.ValidateSpec order spec = None.
Proof.
  intros H1 H2 H3 [H4 H5 H6 H7]. unfold Loop.ValidateSpec. rewrite !bool_decide_false by done.
  destruct (Loop.Tasks spec) as [|t k] eqn:E; [done|]. cbn [app]. rewrite <- E in *.
  rewrite (proj2 (tasks_problems_none _ ∅ 0)) by (split_and!; try done; intros; set_solver).
  apply ordered_tasks_accepted; [done|done|]. intros l u k' dep Ht Hd. rewrite Ht in H7. apply ordered_from_app in H7 as [_ [Hu _]].
  by apply Hu.
Qed.

Lemma accepted_distinct spec : Loop.ValidateSpec order spec = None → NoDup (map ID (Loop.Tasks spec)).
Proof.
  unfold Loop.ValidateSpec. match goal with |- match ?l with _ => _ end = _ → _ => destruct l eqn:E; [|done] end. intros _.
  apply app_eq_nil in E as [_ E]. apply app_eq_nil in E as [_ E]. apply app_eq_nil in E as [_ E]. by apply tasks_problems_none in E as (_ & _ & ? & _).
Qed.

Lemma accepted_refs spec t dep : Loop.ValidateSpec order spec = None → t ∈ Loop.Tasks spec → dep ∈ DependsOn t → dep ∈ map ID (Loop.Tasks spec).
Proof.
  intros Hv Ht Hd. pose proof (accepted_distinct spec Hv) as Hnd. unfold Loop.ValidateSpec in Hv.
  match type of Hv with match ?l with _ => _ end = _ => destruct l; [|done] end.
  apply validation_spec in Hv as [Hr _]; [|done|done]. by eapply Hr.
Qed.

(** *** The template *)
Lemma schedule_spec_accepted since roadmapPath cycleName notes : Loop.ValidateSpec order (schedule_spec since roadmapPath cycleName notes) = None.
Proof.
  apply sound_accepted; [done..| |].
  - cbn [schedule_spec Loop.Tasks]. by destruct (_ && _).
  - cbn [schedule_spec Loop.Tasks]. destruct (_ && _); split; try (repeat constructor; done).
    1,3: apply (bool_decide_unpack _); by vm_compute.
    all: cbn; set_solver.
Qed.
End Accepted.

(** *** One task per item *)
Definition scaffold : list string := ["scan"; "plan"; "verify"; "reflect"; "report"; "schedule"].
Definition investigate_id (i : Z) : string := "investigate_" +:+ itoa i.

Lemma investigations_ids i l : ∃ k, map ID (investigations i l) = investigate_id <$> k ∧ NoDup k ∧ Forall (λ j, i <= j) k.
Proof.
  revert i. induction l as [|s l IH]; intros i; cbn [investigations]; [exists []; split_and!; [done|apply NoDup_nil_2|constructor]|].
  destruct (IH (i + 1)) as (k & E & Hnd & Hk). rewrite map_app, E. destruct (has_prefix signal s).
  - exists (i :: k). split; [done|]. split; [|constructor; [lia|eapply Forall_impl; [done|]; intros; cbn in *; lia]].
    apply NoDup_cons. split; [|done]. intros Hin. rewrite Forall_forall in Hk. specialize (Hk _ Hin). lia.
  - exists k. split; [done|]. split; [done|]. eapply Forall_impl; [done|]; intros; cbn in *; lia.
Qed.
#[export] Instance investigate_id_inj : Inj (=) (=) investigate_id.
Proof. intros i j [= H]. by apply (inj pretty). Qed.

Lemma investigations_texts i l : Forall (λ s, trim_prefix s signal ≠ "" ∨ has_prefix signal s = false) l →
  Forall (λ t, TaskDescription t ≠ "") (investigations i l).
Proof.
  intros H. revert i. induction H as [|s l Hs _ IH]; intros i; cbn [investigations]; [constructor|].
  destruct (has_prefix signal s); [|apply IH]. constructor; [by destruct Hs|apply IH].
Qed.
Lemma investigations_deps i l : Forall (λ t, DependsOn t = ["plan"] ∧ ID t ≠ "") (investigations i l).
Proof.
  revert i. induction l as [|s l IH]; intros i; cbn [investigations]; [constructor|]. apply Forall_app. split; [|apply IH].
  destruct (has_prefix signal s); repeat constructor; done.
Qed.

(** The identifiers of the work tasks. *)
Definition item_ids (plan : PlanOutput) : list string := (λ item, sanitizeTaskID (Roadmap.ID item)) <$> po_ReadyItems plan.
Lemma work_ids plan : ∃ k, NoDup k ∧
  (map ID (work_tasks plan) = ((λ x, "implement_" +:+ x) <$> item_ids plan) ++ (investigate_id <$> k) ∨
   item_ids plan = [] ∧ map ID (work_tasks plan) = ["implement"]).
Proof.
  destruct (investigations_ids 0 (po_Suggestions plan)) as (k & E & Hnd & _). exists k. split; [done|].
  unfold work_tasks. destruct ((implement_task <$> po_ReadyItems plan) ++ investigations 0 (po_Suggestions plan)) eqn:El.
  - right. apply app_eq_nil in El as [El _]. unfold item_ids. by destruct (po_ReadyItems plan).
  - left. rewrite <- El, map_app, E. f_equal. unfold item_ids. rewrite <- list_fmap_compose.
    change (map ID) with (fmap (M := list) ID). rewrite <- list_fmap_compose. done.
Qed.
Lemma work_deps plan : Forall (λ t, DependsOn t = ["plan"] ∧ ID t ≠ "") (work_tasks plan).
Proof.
  unfold work_tasks. destruct ((implement_task <$> po_ReadyItems plan) ++ investigations 0 (po_Suggestions plan)) eqn:El;
    [by repeat constructor|].
  rewrite <- El. apply Forall_app. split; [|apply investigations_deps]. apply Forall_fmap, Forall_true. done.
Qed.
Lemma work_texts plan : Forall (λ s, trim_prefix s signal ≠ "" ∨ has_prefix signal s = false) (po_Suggestions plan) →
  Forall (λ t, TaskDescription t ≠ "") (work_tasks plan).
Proof.
  intros H. unfold work_tasks. destruct ((implement_task <$> po_ReadyItems plan) ++ investigations 0 (po_Suggestions plan)) eqn:El;
    [by repeat constructor|].
  rewrite <- El. apply Forall_app. split; [|by apply investigations_texts]. apply Forall_fmap, Forall_true. done.
Qed.

Lemma work_not_scaffold plan x : x ∈ map ID (work_tasks plan) → x ∉ scaffold.
Proof.
  destruct (work_ids plan) as (k & _ & [E|[_ E]]); rewrite E.
  - intros [(y & -> & _)%list_elem_of_fmap|(y & -> & _)%list_elem_of_fmap]%elem_of_app Hs; unfold scaffold, investigate_id in Hs;
      repeat (apply elem_of_cons in Hs as [Hs|Hs]; [done|]); by apply elem_of_nil in Hs.
  - intros ->%list_elem_of_singleton. apply (bool_decide_unpack _). by vm_compute.
Qed.
Lemma work_distinct plan : NoDup (map ID (work_tasks plan)) ↔ NoDup (item_ids plan).
Proof.
  destruct (work_ids plan) as (k & Hk & [E|[E0 E]]); rewrite E.
  - rewrite NoDup_app. split; [intros [H _]; by apply NoDup_fmap_1 in H|]. intros H. split_and!.
    + apply NoDup_fmap_2; [|done]. by intros x y [= ?].
    + intros x (y & -> & _)%list_elem_of_fmap (z & Hz & _)%list_elem_of_fmap. done.
    + by apply NoDup_fmap_2; [apply _|].
  - rewrite E0. split; intros; [apply NoDup_nil_2|apply NoDup_singleton].
Qed.

Section SynthesizeAccepted.
Variable order : list string → list string.
Hypothesis order_perm : ∀ l, order l ≡ₚ l.

(** The specification made from a plan, with one task per ready item and per ecosystem signal.
    The loop accepts it exactly when the sanitised identifiers of the items are distinct (signals
    with text given).  In a run of an accepted specification, the work comes ready only after the
    plan, and verification only when every work task is completed. *)
Theorem plan_spec_accepted (plan : PlanOutput) (cycleName : string) (lessons : list string)
    (Hname : cycleName ≠ "")
    (Htexts : Forall (λ s, trim_prefix s signal ≠ "" ∨ has_prefix signal s = false) (po_Suggestions plan)) :
  ∃ spec, SynthesizeSpec plan cycleName lessons = inr spec ∧
    (Loop.ValidateSpec order spec = None ↔ NoDup (item_ids plan)) ∧
    (∀ completed, "verify" ∈ ReadyTasks (Loop.Tasks spec) completed → ∀ t, t ∈ work_tasks plan → is_completed completed (ID t) = true) ∧
    (∀ completed t, t ∈ work_tasks plan → ID t ∈ ReadyTasks (Loop.Tasks spec) completed → is_completed completed "plan" = true).
Proof using order_perm.
  unfold SynthesizeSpec. rewrite bool_decide_false by done. eexists. split; [done|].
  set (pre := [task "scan" _ _; _]). set (post := [task "verify" _ _; _; _; _]). set (spec := {| Loop.sp_Name := _ |}).
  change (Loop.Tasks spec) with (pre ++ work_tasks plan ++ post).
  assert (Hids : map ID (Loop.Tasks spec) = ["scan"; "plan"] ++ map ID (work_tasks plan) ++ ["verify"; "reflect"; "report"; "schedule"])
    by (cbn [Loop.Tasks spec]; by rewrite !map_app).
  split; [|split].
  - split.
    + intros Hv%accepted_distinct. rewrite Hids in Hv. apply NoDup_app in Hv as (_ & _ & Hv). apply NoDup_app in Hv as (Hv & _ & _).
      by apply work_distinct.
    + intros Hnd%work_distinct. apply sound_accepted; [done..|]. split.
      * cbn [Loop.Tasks spec]. rewrite !Forall_app. split_and!; [by repeat constructor| |by repeat constructor].
        eapply Forall_impl; [apply work_deps|]. by intros t [].
      * cbn [Loop.Tasks spec]. rewrite !Forall_app. split_and!; [by repeat constructor|by apply work_texts|by repeat constructor].
      * rewrite Hids. rewrite NoDup_app. split_and!; [apply (bool_decide_unpack _); by vm_compute| |].
        -- intros x Hx [H|H]%elem_of_app; [apply work_not_scaffold in H; unfold scaffold in H; set_solver|].
           assert (Forall (λ x, x ∉ ["verify"; "reflect"; "report"; "schedule"]) ["scan"; "plan"]) as Hf by
             (apply (bool_decide_unpack _); by vm_compute).
           rewrite Forall_forall in Hf. by apply (Hf x).
        -- apply NoDup_app. split_and!; [done| |apply (bool_decide_unpack _); by vm_compute].
           intros x Hx H. apply work_not_scaffold in Hx. unfold scaffold in Hx. set_solver.
      * cbn [Loop.Tasks spec]. rewrite !ordered_from_app. split_and!; [cbn; set_solver| |cbn; set_solver].
        cbn. assert (∀ before l, "plan" ∈ before → Forall (λ t, DependsOn t = ["plan"] ∧ ID t ≠ "") l → ordered_from before l) as H.
        { intros before l Hb Hl. revert before Hb. induction Hl as [|t l [Ht _] _ IH]; intros before Hb; cbn; [done|]. rewrite Ht.
          split; [set_solver|]. apply IH. set_solver. }
        apply H; [set_solver|apply work_deps].
  - intros completed (u & Hu & Eu & _ & _ & Hc)%ReadyTasks_progress t Ht. apply Hc.
    assert (u = task "verify" "Run rdcycle_verify to execute make check. Fix issues and re-verify if needed." (map ID (work_tasks plan))) as ->.
    { apply elem_of_app in Hu as [Hu|[Hu|Hu]%elem_of_app].
      - by repeat (apply elem_of_cons in Hu as [->|Hu]; [done|]); apply elem_of_nil in Hu.
      - exfalso. apply (work_not_scaffold plan "verify"); [rewrite <- Eu; apply list_elem_of_fmap; by exists u|].
        apply (bool_decide_unpack _). by vm_compute.
      - repeat (apply elem_of_cons in Hu as [->|Hu]; [done|]). by apply elem_of_nil in Hu. }
    apply list_elem_of_fmap. by exists t.
  - intros completed t Ht (u & Hu & Eu & _ & _ & Hc)%ReadyTasks_progress. apply Hc.
    assert (Hid : ID u ∈ map ID (work_tasks plan)) by (rewrite Eu; apply list_elem_of_fmap; by exists t).
    apply work_not_scaffold in Hid. apply elem_of_app in Hu as [Hu|[Hu|Hu]%elem_of_app].
    + exfalso. apply Hid. unfold scaffold. repeat (apply elem_of_cons in Hu as [->|Hu]; [cbn; set_solver|]). by apply elem_of_nil in Hu.
    + pose proof (work_deps plan) as Hd. rewrite Forall_forall in Hd. destruct (Hd u Hu) as [-> _]. by left.
    + exfalso. apply Hid. unfold scaffold. repeat (apply elem_of_cons in Hu as [->|Hu]; [cbn; set_solver|]). by apply elem_of_nil in Hu.
Qed.
End SynthesizeAccepted.

(** *** Candidates *)
Definition reserved : list string := ["scan"; "plan"; "verify"; "reflect"; "schedule"].

Lemma chain_ids last cs : map ID (chain last cs) = c_ID <$> cs.
Proof. revert last. induction cs as [|c cs IH]; intros last; [done|]. cbn. by rewrite IH. Qed.
Lemma last_id_cases start cs : last_id start cs = start ∧ cs = [] ∨ last_id start cs ∈ c_ID <$> cs.
Proof.
  destruct cs as [|c cs]; [by left|]. right. cbn. revert c. induction cs as [|d cs IH]; intros c; cbn; [set_solver|]. right. apply IH.
Qed.

(** Each explicit dependency is on an earlier candidate, or on the tasks that come before all. *)
Fixpoint earlier (before : list string) (cs : list CandidateTask) : Prop :=
  match cs with
  | [] => True
  | c :: cs => (∀ dep, dep ∈ c_DependsOn c → dep ∈ before) ∧ earlier (before ++ [c_ID c]) cs
  end.
Lemma chain_ordered before last cs : last = "" ∨ last ∈ before → earlier before cs → ordered_from before (chain last cs).
Proof.
  revert before last. induction cs as [|c cs IH]; intros before last Hl; cbn; [done|]. intros [Hd He]. split.
  - intros dep. destruct (bool_decide_reflect (c_DependsOn c = [])) as [E|E]; [|by apply Hd].
    destruct (bool_decide_reflect (last ≠ "")) as [Hne|Hne]; cbn [andb]; [|by apply Hd]. intros ->%list_elem_of_singleton. naive_solver.
  - apply IH; [right; set_solver|done].
Qed.

Definition fair (cs : list CandidateTask) : Prop :=
  Forall (λ c, c_ID c ≠ "" ∧ c_Description c ≠ "" ∧ c_ID c ∉ reserved) cs ∧ NoDup (c_ID <$> cs).
Definition heads (s : CycleStrategy) : list string := if scans s then ["scan"; "plan"] else [].

Section SynthesizerAccepted.
Variable order : list string → list string.
Hypothesis order_perm : ∀ l, order l ≡ₚ l.
Variable walk : gmap string Z → list (string * Z).

Lemma built_spec_accepted since cfg cs notes : scans (Strategy cfg) = true ∨ chain_start (Strategy cfg) = "" →
  fair cs → earlier (heads (Strategy cfg)) cs → Loop.ValidateSpec order (buildSynthesizedSpec walk since cfg cs notes) = None.
Proof using order_perm.
  intros Hs [Hf Hnd] He. apply sound_accepted; [done..| |].
  { cbn [buildSynthesizedSpec Loop.Tasks]. intros E. apply app_eq_nil in E as [_ E]. by apply app_eq_nil in E as [_ E]. }
  cbn [buildSynthesizedSpec Loop.Tasks]. set (pre := if scans (Strategy cfg) then _ else []).
  assert (Hpre : map ID pre = heads (Strategy cfg)) by (unfold pre, heads; by destruct (scans (Strategy cfg))).
  assert (Hstart : chain_start (Strategy cfg) = "" ∨ chain_start (Strategy cfg) ∈ heads (Strategy cfg)).
  { destruct Hs as [Hs|]; [|by left]. unfold heads. rewrite Hs. unfold chain_start. case_match; [by left|right; set_solver]. }
  assert (Hheads : heads (Strategy cfg) ⊆ ["scan"; "plan"]) by (unfold heads; destruct (scans (Strategy cfg)); set_solver).
  rewrite Forall_forall in Hf. split.
  - rewrite !Forall_app. split_and!; [unfold pre; destruct (scans _); by repeat constructor| |by repeat constructor].
    rewrite Forall_forall. intros t Ht. assert (ID t ∈ c_ID <$> cs) as (c & -> & Hc)%list_elem_of_fmap
      by (erewrite <- chain_ids; apply list_elem_of_fmap; by exists t). by apply Hf.
  - rewrite !Forall_app. split_and!; [unfold pre; destruct (scans _); by repeat constructor| |by repeat constructor].
    generalize (chain_start (Strategy cfg)). clear -Hf. induction cs as [|c cs IH]; intros last; [constructor|]. constructor.
    + cbn. apply (Hf c). by left.
    + apply IH. intros d Hd. apply Hf. by right.
  - rewrite !map_app, Hpre, chain_ids. apply NoDup_app. split_and!.
    + unfold heads. destruct (scans _); apply (bool_decide_unpack _); by vm_compute.
    + intros x Hx%Hheads [(c & -> & Hc)%list_elem_of_fmap|H]%elem_of_app.
      * apply (Hf c Hc). unfold reserved. set_solver.
      * assert (Forall (λ x, x ∉ ["verify"; "reflect"; "schedule"]) ["scan"; "plan"]) as HF by (apply (bool_decide_unpack _); by vm_compute).
        rewrite Forall_forall in HF. by apply (HF x).
    + apply NoDup_app. split_and!; [done| |apply (bool_decide_unpack _); by vm_compute].
      intros x (c & -> & Hc)%list_elem_of_fmap Hx. apply (Hf c Hc). unfold reserved. cbn in Hx. set_solver.
  - rewrite !ordered_from_app, Hpre, chain_ids. cbn [app]. split_and!.
    + unfold pre. destruct (scans _); cbn; set_solver.
    + by apply chain_ordered.
    + cbn [ordered_from task DependsOn ID]. split_and!; [|set_solver..|done].
      intros dep. case_bool_decide as E; [set_solver|]. intros ->%list_elem_of_singleton.
      destruct (last_id_cases (chain_start (Strategy cfg)) cs) as [[El Ecs]|Hin]; [|set_solver].
      rewrite El in E |- *. destruct Hstart; [done|set_solver].
Qed.

(** With no scan, no plan and candidates that depend on nothing, the reference to the plan dangles. *)
Lemma dangling_plan_rejected since cfg cs notes : scans (Strategy cfg) = false → chain_start (Strategy cfg) = "plan" →
  Forall (λ c, c_DependsOn c = []) cs → "plan" ∉ c_ID <$> cs →
  Loop.ValidateSpec order (buildSynthesizedSpec walk since cfg cs notes) ≠ None.
Proof using order_perm.
  intros Hs Hc Hd Hn Hv.
  assert (∃ t, t ∈ Loop.Tasks (buildSynthesizedSpec walk since cfg cs notes) ∧ "plan" ∈ DependsOn t) as (t & Ht & Hdep).
  { cbn [buildSynthesizedSpec Loop.Tasks]. rewrite Hs, Hc. destruct cs as [|c cs].
    - eexists. split; [by left|]. cbn. set_solver.
    - eexists. split; [by left|]. cbn [task DependsOn]. inversion Hd as [|? ? Hcd _]; subst.
      rewrite !bool_decide_true by done. cbn. set_solver. }
  pose proof (accepted_refs order order_perm _ t "plan" Hv Ht Hdep) as Hin. cbn [buildSynthesizedSpec Loop.Tasks] in Hin.
  rewrite Hs, !map_app, chain_ids in Hin. apply elem_of_app in Hin as [Hin|Hin]; [by apply elem_of_nil in Hin|].
  apply elem_of_app in Hin as [Hin|Hin]; [done|]. revert Hin. apply (bool_decide_unpack _). by vm_compute.
Qed.
End SynthesizerAccepted.

(** What the improvement source offers, and what survives the selection. *)
Definition offered (c : CandidateTask) : Prop :=
  c_DependsOn c = [] ∧ c_Source c = "improvement" ∧ c_Description c ≠ "" ∧ (c_ID c = "self_improve" ∨ ∃ p : Z, c_ID c = "fix_" +:+ itoa p).
Definition offer (cs : list CandidateTask) : Prop := Forall offered cs ∧ NoDup (c_ID <$> cs).

Lemma offered_fair c : offered c → c_ID c ≠ "" ∧ c_Description c ≠ "" ∧ c_ID c ∉ reserved ∧ c_ID c ≠ "implement".
Proof.
  intros (_ & _ & Hd & [->|[p ->]]).
  - split_and!; [done|done|apply (bool_decide_unpack _); by vm_compute|done].
  - split_and!; [done|done| |done]. intros H. unfold reserved in H. repeat (apply elem_of_cons in H as [H|H]; [done|]). by apply elem_of_nil in H.
Qed.
Lemma offer_fair cs : offer cs → fair cs.
Proof.
  intros [Hf Hnd]. split; [|done]. eapply Forall_impl; [done|]. intros c Hc%offered_fair. naive_solver.
Qed.
Lemma offer_earlier cs before : offer cs → earlier before cs.
Proof.
  intros [Hf _]. revert before. induction Hf as [|c cs (Hd & _) _ IH]; intros before; cbn; [done|]. rewrite Hd. split; [set_solver|apply IH].
Qed.
Lemma offer_sublist cs cs' : cs' `sublist_of` cs → offer cs → offer cs'.
Proof.
  intros Hs [Hf Hnd]. split.
  - rewrite Forall_forall in *. intros c Hc. apply Hf. by eapply sublist_subseteq.
  - eapply sublist_NoDup; [done|]. by apply fmap_sublist.
Qed.
Lemma offer_perm cs cs' : cs' ≡ₚ cs → offer cs → offer cs'.
Proof. intros Hp [Hf Hnd]. split; by rewrite Hp. Qed.

Lemma improvement_offer walk notes : offer (improvement_Fetch walk notes).
Proof.
  unfold improvement_Fetch. case_bool_decide; [split; [constructor|apply NoDup_nil_2]|].
  assert (Hfix : ∀ l, offer (imap (λ i fc, fix_candidate (20 + Z.of_nat i) fc) l) ∧
    "self_improve" ∉ c_ID <$> imap (λ i fc, fix_candidate (20 + Z.of_nat i) fc) l).
  { intros l. split; [split|].
    - rewrite Forall_forall. intros c (i & fc & -> & _)%elem_of_lookup_imap_1. split_and!; [done..|]. right. by eexists.
    - rewrite fmap_imap. apply NoDup_alt. intros i j x (fi & _ & Hi)%list_lookup_imap_Some (fj & _ & Hj)%list_lookup_imap_Some.
      cbn in Hi, Hj. rewrite Hi in Hj. injection Hj as Hj. apply (inj pretty) in Hj. lia.
    - rewrite fmap_imap. by intros (i & fc & [=] & _)%elem_of_lookup_imap_1. }
  destruct (num notes mod 10 =? 0), (3 <=? num notes); cbn [app].
  - destruct (Hfix (filter (λ fc, 2 <= fc.2) (walk (failCounts (last_n 3 notes))))) as [[Hf Hnd] Hn]. split.
    + constructor; [|done]. split_and!; [done..|]. by left.
    + cbn. by apply NoDup_cons.
  - split; [|apply NoDup_singleton]. apply Forall_singleton. split_and!; [done..|by left].
  - apply Hfix.
  - split; [constructor|apply NoDup_nil_2].
Qed.

Lemma apply_mutation_offer cs m : (Action m = "add_verify" → TaskID m = "implement") → offer cs → offer (apply_mutation cs m).
Proof.
  intros Hm Ho. unfold apply_mutation. case_bool_decide as E1; [|case_bool_decide as E2; [case_bool_decide as E3; [done|]|done]].
  - rewrite (Hm E1). assert ((cs ≫= λ c, if bool_decide (c_ID c = "implement") then [c; pre_verify c] else [c]) = cs) as ->; [|done].
    destruct Ho as [Hf _]. induction Hf as [|c cs Hc _ IH]; [done|]. cbn. rewrite bool_decide_false by by apply offered_fair. cbn. by f_equal.
  - destruct Ho as [Hf Hnd]. split.
    + apply Forall_app. split; [done|]. apply Forall_singleton. split_and!; [done..|by left].
    + rewrite fmap_app. apply NoDup_app. split_and!; [done| |apply NoDup_singleton]. cbn. set_solver.
Qed.

Lemma select_offer walk sort_slice cfg rm notes : (∀ l, sort_slice l ≡ₚ l) →
  (∀ c, c_Source c = "roadmap" → fits_strategy (Strategy cfg) c = false) →
  offer (select_candidates walk sort_slice cfg [roadmap_Fetch rm; inr (improvement_Fetch walk notes)] notes).
Proof.
  intros Hsort Hfit. unfold select_candidates. set (avoid := AvoidPatterns walk notes 10).
  match goal with |- offer (applyMutations ?l _) => assert (offer l) as Ho end.
  - cbn [mbind list_bind]. rewrite app_nil_r.
    set (road := match roadmap_Fetch rm with inl _ => [] | inr tasks => tasks end).
    assert (Hroad : Forall (λ c, c_Source c = "roadmap") road).
    { unfold road, roadmap_Fetch. destruct rm as [|rm]; [constructor|]. destruct (Roadmap.NextPhase rm); [|constructor].
      rewrite Forall_forall. by intros c (i & item & -> & _)%elem_of_lookup_imap_1. }
    clearbody road. set (all := if bool_decide (avoid = []) then _ else _).
    assert (∃ r i, all = r ++ i ∧ Forall (λ c, c_Source c = "roadmap") r ∧ i `sublist_of` improvement_Fetch walk notes) as (r & i & -> & Hr & Hi).
    { unfold all. case_bool_decide; [by exists road, (improvement_Fetch walk notes)|]. unfold filterAvoidPatterns. rewrite filter_app.
      eexists _, _. split; [done|]. split; [|apply sublist_filter].
      rewrite Forall_forall in *. intros c [_ Hc]%list_elem_of_filter. by apply Hroad. }
    assert (Hfil : filterByStrategy (r ++ i) (Strategy cfg) `sublist_of` improvement_Fetch walk notes).
    { unfold filterByStrategy. rewrite filter_app.
      assert (filter (λ c, fits_strategy (Strategy cfg) c = true) r = []) as ->.
      { clear -Hr Hfit. induction Hr as [|c r Hc _ IH]; [done|]. rewrite filter_cons_False; [done|]. rewrite Hfit by done. done. }
      etransitivity; [apply sublist_filter|done]. }
    assert (Hsorted : offer (sort_slice (filterByStrategy (r ++ i) (Strategy cfg)))).
    { eapply offer_perm; [apply Hsort|]. eapply offer_sublist; [done|apply improvement_offer]. }
    destruct (_ && _); [|done]. eapply offer_sublist; [apply sublist_take|done].
  - match goal with |- offer (applyMutations ?l _) => generalize dependent l end. intros l Ho. unfold applyMutations.
    assert (Hm : Forall (λ m, Action m = "add_verify" → TaskID m = "implement") (TaskMutations walk notes)).
    { unfold TaskMutations. case_bool_decide; [constructor|]. rewrite !Forall_app. split_and!.
      - apply Forall_fmap, Forall_true. done.
      - destruct (_ <? _); by repeat constructor.
      - destruct (_ =? _); by repeat constructor. }
    revert l Ho. induction Hm as [|m ms Hm _ IH]; intros l Ho; [done|]. cbn. apply IH. by apply apply_mutation_offer.
Qed.

Section ByStrategy.
Variable order : list string → list string.
Hypothesis order_perm : ∀ l, order l ≡ₚ l.
Variable walk : gmap string Z → list (string * Z).
Variable sort_slice : list CandidateTask → list CandidateTask.
Hypothesis sort_perm : ∀ l, sort_slice l ≡ₚ l.

(** The synthesizer over the roadmap and the improvement notes.  In the recovery and the
    maintenance strategies whatever the roadmap and the notes hold, the loop accepts the
    specification.  In the full and the ecosystem strategies it does when the selected candidates
    have distinct identifiers of their own and depend on earlier ones only.  In the meta-improve
    strategy it never does: the first task depends on a plan that the specification leaves out. *)
Theorem synthesized_spec_by_strategy (since : string) (cfg : SynthesisConfig) (rm : error + Roadmap.Roadmap) (notes : list ImprovementNote)
    (Hname : CycleName cfg ≠ "") :
  let cs := select_candidates walk sort_slice cfg [roadmap_Fetch rm; inr (improvement_Fetch walk notes)] notes in
  ∃ spec, Synthesize walk sort_slice since cfg [roadmap_Fetch rm; inr (improvement_Fetch walk notes)] notes = inr spec ∧
    match Strategy cfg with
    | StrategyRecovery | StrategyMaintenance => Loop.ValidateSpec order spec = None
    | StrategyFull | StrategyEcosystem => fair cs → earlier ["scan"; "plan"] cs → Loop.ValidateSpec order spec = None
    | StrategyMetaImprove => Loop.ValidateSpec order spec ≠ None
    | StrategyOther _ => True
    end.
Proof using order_perm sort_perm.
  cbv zeta. unfold Synthesize. rewrite bool_decide_false by done. eexists. split; [done|].
  set (cs := select_candidates _ _ _ _ _).
  assert (Hoffer : (∀ c, c_Source c = "roadmap" → fits_strategy (Strategy cfg) c = false) → offer cs) by (by apply select_offer).
  assert (Hgood : scans (Strategy cfg) = true ∨ chain_start (Strategy cfg) = "" → fair cs → earlier (heads (Strategy cfg)) cs →
    Loop.ValidateSpec order (buildSynthesizedSpec walk since cfg cs notes) = None) by (by apply built_spec_accepted).
  destruct (Strategy cfg) eqn:Es; try done.
  - intros Hf He. apply Hgood; [by left|done|done].
  - assert (offer cs) as Ho by (apply Hoffer; intros c Hc; cbn; by rewrite Hc).
    apply Hgood; [by right|by apply offer_fair|by apply offer_earlier].
  - assert (offer cs) as Ho by (apply Hoffer; intros c Hc; cbn; by rewrite Hc).
    apply Hgood; [by right|by apply offer_fair|by apply offer_earlier].
  - assert (offer cs) as Ho by (apply Hoffer; intros c Hc; cbn; by rewrite Hc).
    apply dangling_plan_rejected; [done|by rewrite Es..| |].
    + destruct Ho as [Hf _]. eapply Forall_impl; [done|]. by intros c [].
    + intros (c & E & Hc)%list_elem_of_fmap. destruct Ho as [Hf _]. rewrite Forall_forall in Hf. specialize (Hf c Hc).
      apply offered_fair in Hf as (_ & _ & Hr & _). apply Hr. rewrite <- E. unfold reserved. set_solver.
  - intros Hf He. apply Hgood; [by left|done|done].
Qed.
End ByStrategy.

(** *** The scheduling tool *)
Section ScheduleAccepted.
Variable order : list string → list string.
Hypothesis order_perm : ∀ l, order l ≡ₚ l.
Context {W : Type}.
Variables (WriteFile : string → Loop.Spec → st W bool) (WriteSpec : string → Loop.Spec → string → st W (error + string))
  (WriteAtomic : string → Loop.Spec → st W (option error)) (Dir slashes : string → string) (config_RoadmapPath : string).
(** A property of the file system that writing an acceptable specification keeps. *)
Variable fine : W → Prop.
Hypothesis write_file_fine : ∀ path spec w, fine w → Loop.ValidateSpec order spec = None → fine (WriteFile path spec w).2.
Hypothesis write_spec_fine : ∀ dir spec name w, fine w → Loop.ValidateSpec order spec = None → fine (WriteSpec dir spec name w).2.
Hypothesis write_atomic_fine : ∀ path spec w, fine w → Loop.ValidateSpec order spec = None → fine (WriteAtomic path spec w).2.

(** Whatever the tool writes, through all its fallbacks, is acceptable to the loop, when the
    synthesizer's specification is and the stored plan is as it comes out of an artifact. *)
Lemma scheduled_specs_accepted since input synthesized number art notes w :
  (∀ spec, synthesized = Some (inr spec) → Loop.ValidateSpec order spec = None) →
  Forall (λ s, trim_prefix s signal ≠ "" ∨ has_prefix signal s = false) (po_Suggestions (planOutputFromArtifact number art)) →
  fine w →
  fine (handleSchedule WriteFile WriteSpec WriteAtomic Dir slashes config_RoadmapPath since input synthesized
    (Some (planOutputFromArtifact number art)) notes w).2.
Proof using order_perm write_file_fine write_spec_fine write_atomic_fine.
  intros Hsyn Htexts Hw.
  assert (Htemplate : ∀ w, fine w → fine (schedule_template WriteAtomic slashes config_RoadmapPath since input notes w).2).
  { intros w' Hw'. unfold schedule_template.
    pose proof (write_atomic_fine (resolveOutputPath input)
      (schedule_spec since (roadmap_path config_RoadmapPath input) (si_CycleName input) notes) w' Hw') as H.
    destruct (WriteAtomic _ _ w') as [[e|] w'']; apply H, schedule_spec_accepted; done. }
  assert (Hplan : ∀ w, si_CycleName input ≠ "" → fine w →
    fine (schedule_plan WriteSpec WriteAtomic Dir slashes config_RoadmapPath since input (Some (planOutputFromArtifact number art)) notes w).2).
  { intros w' Hname Hw'. unfold schedule_plan.
    destruct (plan_spec_accepted order order_perm (planOutputFromArtifact number art) (si_CycleName input) (lessons_of notes) Hname Htexts)
      as (spec & -> & Hv & _).
    pose proof (write_spec_fine (Dir (resolveOutputPath input)) spec (si_CycleName input) w' Hw') as H.
    assert (Loop.ValidateSpec order spec = None) as Hok by (apply Hv, NoDup_nil_2).
    destruct (WriteSpec _ _ _ w') as [[e|path] w'']; [by apply Htemplate, H|by apply H]. }
  unfold handleSchedule. case_bool_decide; [done|]. destruct synthesized as [[e|spec]|]; [by apply Hplan| |by apply Hplan].
  pose proof (write_file_fine (resolveOutputPath input) spec w Hw (Hsyn spec eq_refl)) as Hfile.
  destruct (WriteFile _ _ w) as [[] w']; [done|by apply Hplan].
Qed.
End ScheduleAccepted.

(** ** Where the code falls short *)

(** A plan read back from the in-memory store has lost its suggestions; through JSON they survive. *)
Lemma stored_plan_is_forgotten number path created actionItems p :
  let a := plan_artifact path created actionItems p in
  po_Suggestions (planOutputFromArtifact number a) = [] ∧ po_Suggestions (planOutputFromArtifact number (reloaded a)) = po_Suggestions p.
Proof.
  cbn. split; [by vm_compute|]. unfold planOutputFromArtifact, reloaded, plan_artifact. cbn [a_Content po_Suggestions]. rewrite lookup_fmap.
  cbn [list_to_map foldr fst snd]. rewrite !lookup_insert_ne by done. rewrite lookup_insert_eq. cbn.
  induction (po_Suggestions p) as [|s l IH]; [done|]. cbn. by rewrite IH.
Qed.

(** "skip" is a documented action, which nothing carries out. *)
Lemma skip_mutation_ignored cs m : Action m = "skip" → apply_mutation cs m = cs.
Proof. intros E. unfold apply_mutation. by rewrite !bool_decide_false by (rewrite E; done). Qed.

Definition item (id : string) (s : Roadmap.ItemStatus) (deps : list string) : Roadmap.WorkItem := {|
  Roadmap.ID := id; Roadmap.Description := "do " +:+ id; Roadmap.Package := ""; Roadmap.Status := s; Roadmap.DependsOn := deps;
  Roadmap.Priority := "" |}.
Definition one_phase (items : list Roadmap.WorkItem) : Roadmap.Roadmap := {|
  Roadmap.Title := ""; Roadmap.rm_Description := ""; Roadmap.UpdatedAt := ""; Roadmap.Tiers := [];
  Roadmap.Phases := [{| Roadmap.ph_ID := "1"; Roadmap.ph_Name := "one"; Roadmap.ph_Status := Roadmap.PhaseStatusActive; Roadmap.ph_Items := items |}] |}.
Definition full_cycle : SynthesisConfig := {| CycleName := "c"; RoadmapPath := "ROADMAP.md"; Strategy := StrategyFull; MaxTasks := 0 |}.

(** An item that became ready because what it depends on is complete keeps that dependency, which
    is not a task of the cycle: the specification is rejected. *)
Lemma satisfied_dependency_rejected :
  let rm := one_phase [item "A" Roadmap.ItemStatusComplete []; item "B" Roadmap.ItemStatusPlanned ["A"]] in
  Loop.ValidateSpec id (buildSynthesizedSpec map_to_list "now" full_cycle
    (select_candidates map_to_list id full_cycle [roadmap_Fetch (inr rm)] []) []) =
  Some (rerr ("task " +:+ quote "B" +:+ " depends on unknown task " +:+ quote "A")).
Proof. by vm_compute. Qed.

(** Verification waits for the last candidate only: it can run before the others are done. *)
Lemma verify_overtakes_candidate :
  let c id deps := {| c_ID := id; c_Description := "do"; c_Source := "roadmap"; c_Priority := 10; c_DependsOn := deps; c_Complexity := "simple" |} in
  let spec := buildSynthesizedSpec map_to_list "now" full_cycle [c "first" []; c "second" ["plan"]] [] in
  Loop.ValidateSpec id spec = None ∧
  ReadyTasks (Loop.Tasks spec) {["scan" := true; "plan" := true; "second" := true]} = ["first"; "verify"].
Proof. by vm_compute. Qed.

(** Two items whose identifiers differ in punctuation only are the same task. *)
Lemma clashing_items_rejected : ∃ spec,
  SynthesizeSpec {| po_NextPhase := None; po_ReadyItems := [item "1.2" Roadmap.ItemStatusPlanned []; item "1_2" Roadmap.ItemStatusPlanned []];
    GapCount := 2; po_Suggestions := []; po_ArtifactID := "" |} "c" [] = inr spec ∧ Loop.ValidateSpec id spec ≠ None.
Proof. eexists. split; [done|]. by vm_compute. Qed.

(** ** Witnesses *)
Definition demo_plan : PlanOutput := {|
  po_NextPhase := None; po_ReadyItems := [item "A" Roadmap.ItemStatusPlanned []; item "B/2" Roadmap.ItemStatusPlanned []];
  GapCount := 2; po_Suggestions := ["Ecosystem signal: new SDK"]; po_ArtifactID := "plan-1" |}.
Lemma plan_spec_accepted_witness : ∃ spec, SynthesizeSpec demo_plan "c" [] = inr spec ∧ Loop.ValidateSpec id spec = None.
Proof.
  destruct (plan_spec_accepted id (λ l, Permutation_refl l) demo_plan "c" []) as (spec & E & Hv & _); [done| |].
  - apply (bool_decide_unpack _). by vm_compute.
  - exists spec. split; [done|]. apply Hv. apply (bool_decide_unpack _). by vm_compute.
Defined.

Definition maintenance_cycle : SynthesisConfig := {| CycleName := "c"; RoadmapPath := "ROADMAP.md"; Strategy := StrategyMaintenance; MaxTasks := 2 |}.
Definition demo_notes : list ImprovementNote := repeat (demo_note ["lint"; "flaky test"]) 10.
Lemma synthesized_spec_by_strategy_witness : ∃ spec,
  Synthesize map_to_list id "now" maintenance_cycle
    [roadmap_Fetch (inr (one_phase [item "A" Roadmap.ItemStatusPlanned []])); inr (improvement_Fetch map_to_list demo_notes)] demo_notes = inr spec ∧
  Loop.ValidateSpec id spec = None.
Proof.
  apply (synthesized_spec_by_strategy id (λ l, Permutation_refl l) map_to_list id (λ l, Permutation_refl l) "now" maintenance_cycle
    (inr (one_phase [item "A" Roadmap.ItemStatusPlanned []])) demo_notes). done.
Defined.
