(* ===== verification/RdCycle.v ===== *)
(** The perpetual R&D cycle (src/rdcycle/orchestrator.go, perpetual.go): one cycle, the loop under
    the breaker and the governor, and the tools that start and stop it. *)

From stdpp Require Import base tactics list gmap strings pretty relations.
From Stdlib Require Import ZArith Lia.
From S2P Require Import Prelude RdGuards RdSpecs.
From S2P Require Loop.

Local Open Scope Z_scope.

(** ** The orchestrator (orchestrator.go) *)
Record CycleResult := {
  r_CycleNum : Z; r_SpecPath : string; ScanItems : list string; r_Plan : option PlanOutput; Progress : bool; r_Cost : float64;
  Error : string; StartedAt : time; FinishedAt : time }.

Record Orchestrator := {
  cycleNum : Z;
  results : list CycleResult;
  Breaker : option CircuitBreaker;
  Governor : option CostVelocityGovernor
}.
Definition set_cycle (n : Z) (o : Orchestrator) : Orchestrator := {|
  cycleNum := n; results := results o; Breaker := Breaker o; Governor := Governor o |}.
Definition add_result (r : CycleResult) (o : Orchestrator) : Orchestrator := {|
  cycleNum := cycleNum o; results := results o ++ [r]; Breaker := Breaker o; Governor := Governor o |}.
Definition set_breaker (b : option CircuitBreaker) (o : Orchestrator) : Orchestrator := {|
  cycleNum := cycleNum o; results := results o; Breaker := b; Governor := Governor o |}.
Definition recordBreakerResult (progress errRepeated : bool) (now : time) (o : Orchestrator) : Orchestrator :=
  set_breaker (RecordResult progress errRepeated now <$> Breaker o) o.
Definition recordGovernor (cycleNum_ : Z) (cost : float64) (productive : bool) (o : Orchestrator) : Orchestrator := {|
  cycleNum := cycleNum o; results := results o; Breaker := Breaker o;
  Governor := Record_ {| CycleNum := cycleNum_; Cost := cost; Productive := productive |} <$> Governor o |}.

Section Orchestrator.
Context {W : Type}.
Variable now : W → time.
(** The module's tools, the files, the model's loop and the cost reader. *)
Variable HandleScan : st W (error + list string).
Variable HandlePlan : list string → st W (error + PlanOutput).
Variable adaptive : option (string → st W (error + Loop.Spec)).
Variable lessons : W → list string.
Variable WriteSpec : Loop.Spec → string → st W (error + string).
Variable HandleNotes : Z → st W ().
Variable HandleImprove : st W ().
Variable RalphStarter : option (string → st W (option error)).
Variable CostReader : option (W → float64).
Variable OnCycleStart : option (Z → string → st W ()).
Variable OnCycleEnd : option (Z → CycleResult → st W ()).
Variables MaxCycles ImproveCadence : Z.
(** Why the context is done, if it is; whether the stop channel is closed. *)
Variable ctx_err : W → option error.
Variable stopped : W → bool.

Definition cost_now (w : W) : float64 := match CostReader with Some f => f w | None => float_zero end.
Definition cost_since (before : float64) (w : W) : float64 :=
  match CostReader with Some f => float_sub (f w) before | None => float_zero end.

Definition result_of (n : Z) (started finished : time) (spec : string) (scan : list string) (plan : option PlanOutput) (progress : bool)
    (cost : float64) : CycleResult := {|
  r_CycleNum := n; r_SpecPath := spec; ScanItems := scan; r_Plan := plan; Progress := progress; r_Cost := cost; Error := "";
  StartedAt := started; FinishedAt := finished |}.

(** The specification: the adaptive synthesizer's when it is made and written, else the plan's.
    The code also falls back when the specification it wrote has no name. *)
Definition legacy_spec (plan : PlanOutput) (cycleName : string) : st W (error + string) := λ w,
  match SynthesizeSpec plan cycleName (lessons w) with
  | inl err => (inl (ErrWrap "synthesize: " err ""), w)
  | inr spec =>
      match WriteSpec spec cycleName w with
      | (inl err, w) => (inl (ErrWrap "write spec: " err ""), w)
      | (inr path, w) => (inr path, w)
      end
  end.
Definition make_spec (plan : PlanOutput) (cycleName : string) : st W (error + string) := λ w,
  match adaptive with
  | None => legacy_spec plan cycleName w
  | Some synth =>
      match synth cycleName w with
      | (inl _, w) => legacy_spec plan cycleName w
      | (inr spec, w) =>
          match WriteSpec spec cycleName w with
          | (inl _, w) => legacy_spec plan cycleName w
          | (inr path, w) => if bool_decide (Loop.sp_Name spec = "") then legacy_spec plan cycleName w else (inr path, w)
          end
      end
  end.

(** The end of a cycle, from the start of the model's loop. *)
Definition run_ralph (n : Z) (started : time) (path : string) (scan : list string) (plan : PlanOutput) (o : Orchestrator) (w : W) :
    CycleResult * option error * Orchestrator * W :=
  let '(_, w) := match OnCycleStart with Some f => f n path w | None => ((), w) end in
  let before := cost_now w in
  let '(err, w) := match RalphStarter with Some f => f path w | None => (None, w) end in
  let cost := cost_since before w in
  match err with
  | Some err =>
      (result_of n started (now w) path scan (Some plan) false cost, Some (ErrWrap "ralph: " err ""),
       recordGovernor n cost false (recordBreakerResult false false (now w) o), w)
  | None =>
      let '(_, w) := HandleNotes n w in
      let '(_, w) := if n mod ImproveCadence =? 0 then HandleImprove w else ((), w) in
      (result_of n started (now w) path scan (Some plan) true cost, None,
       recordGovernor n cost true (recordBreakerResult true false (now w) o), w)
  end.

Definition RunOneCycle (o : Orchestrator) (w : W) : CycleResult * option error * Orchestrator * W :=
  let n := cycleNum o + 1 in
  let o := set_cycle n o in
  let started := now w in
  let '(allowed, breaker) := match Breaker o with Some b => let '(ok, b) := CanExecute (now w) b in (ok, Some b) | None => (true, None) end in
  let o := set_breaker breaker o in
  if negb allowed then
    (result_of n started (now w) "" [] None false float_zero,
     Some (Err ("circuit breaker open (state=" +:+ match breaker with Some b => state_text (state b) | None => "" end +:+ ")")), o, w)
  else if match Governor o with Some g => ShouldHalt g | None => false end then
    (result_of n started (now w) "" [] None false float_zero, Some (Err "governor halted: cost or productivity threshold exceeded"), o, w)
  else
  match HandleScan w with
  | (inl err, w) =>
      (result_of n started (now w) "" [] None false float_zero, Some (ErrWrap "scan: " err ""), recordBreakerResult false true (now w) o, w)
  | (inr scan, w) =>
      match HandlePlan scan w with
      | (inl err, w) =>
          (result_of n started (now w) "" scan None false float_zero, Some (ErrWrap "plan: " err ""), recordBreakerResult false true (now w) o, w)
      | (inr plan, w) =>
          match make_spec plan ("cycle-" +:+ itoa n) w with
          | (inl err, w) =>
              (result_of n started (now w) "" scan (Some plan) false float_zero, Some err, recordBreakerResult false true (now w) o, w)
          | (inr path, w) => run_ralph n started path scan plan o w
          end
      end
  end.

Definition with_error (r : CycleResult) (err : option error) : CycleResult :=
  match err with
  | None => r
  | Some e => {| r_CycleNum := r_CycleNum r; r_SpecPath := r_SpecPath r; ScanItems := ScanItems r; r_Plan := r_Plan r;
      Progress := Progress r; r_Cost := r_Cost r; Error := error_text e; StartedAt := StartedAt r; FinishedAt := FinishedAt r |}
  end.

(** The loop; [None] is one that is still running when the fuel ends, with where it stands. *)
Definition halted (n : Z) : error := Err ("orchestrator: governor halted after cycle " +:+ itoa n).
Fixpoint run_cycles (fuel : nat) (o : Orchestrator) (w : W) : option (option error) * Orchestrator * W :=
  match fuel with
  | O => (None, o, w)
  | S fuel =>
      match ctx_err w with
      | Some err => (Some (Some err), o, w)
      | None =>
          if stopped w then (Some None, o, w) else
          let '(result, err, o, w) := RunOneCycle o w in
          let o := add_result (with_error result err) o in
          let '(_, w) := match OnCycleEnd with Some f => f (cycleNum o) (with_error result err) w | None => ((), w) end in
          if (0 <? MaxCycles) && (MaxCycles <=? cycleNum o) then (Some None, o, w)
          else if match Governor o with Some g => ShouldHalt g | None => false end then (Some (Some (halted (cycleNum o))), o, w)
          else run_cycles fuel o w
      end
  end.
(** A second call while one runs is refused. *)
Definition already_running : error := Err "orchestrator: already running".
Definition Run (fuel : nat) (running : bool) (o : Orchestrator) (w : W) : option (option error) * Orchestrator * W :=
  if running then (Some (Some already_running), o, w) else run_cycles fuel o w.
End Orchestrator.

(** ** Starting and stopping (perpetual.go)

    The orchestrators the tool has started, by number; the one it holds is the last.  A goroutine
    enters [Run] some time after it was started. *)
Record perpetual := { current : option nat; fresh : nat; pending : gset nat; running : gset nat; stopping : gset nat }.
Definition not_started : perpetual := {| current := None; fresh := 0; pending := ∅; running := ∅; stopping := ∅ |}.
Definition is_running (p : perpetual) : bool :=
  match current p with Some i => bool_decide (i ∈ running p) | None => false end.
(** [handlePerpetualStart] with a starter configured, and [handlePerpetualStop]: whether they did. *)
Definition handlePerpetualStart (p : perpetual) : bool * perpetual :=
  if is_running p then (false, p)
  else (true, {| current := Some (fresh p); fresh := S (fresh p); pending := {[fresh p]} ∪ pending p; running := running p; stopping := stopping p |}).
Definition handlePerpetualStop (p : perpetual) : bool * perpetual :=
  match current p with
  | Some i => if bool_decide (i ∈ running p)
              then (true, {| current := current p; fresh := fresh p; pending := pending p; running := running p; stopping := {[i]} ∪ stopping p |})
              else (false, p)
  | None => (false, p)
  end.
Inductive pstep : perpetual → perpetual → Prop :=
| ps_start p : pstep p (handlePerpetualStart p).2
| ps_stop p : pstep p (handlePerpetualStop p).2
| ps_enter p i : i ∈ pending p →
    pstep p {| current := current p; fresh := fresh p; pending := pending p ∖ {[i]}; running := {[i]} ∪ running p; stopping := stopping p |}
| ps_return p i : i ∈ running p →
    pstep p {| current := current p; fresh := fresh p; pending := pending p; running := running p ∖ {[i]}; stopping := stopping p |}.

(** ** Lemmas *)
Lemma streak_snoc h r : streak (h ++ [r]) = if Productive r then 0 else 1 + streak h.
Proof. unfold streak. rewrite rev_app_distr. cbn. by destruct (Productive r). Qed.
Lemma streak_nonneg h : 0 <= streak h.
Proof. induction h as [|r h IH] using rev_ind; [done|]. rewrite streak_snoc. destruct (Productive r); lia. Qed.
Lemma no_halt_streak g : ShouldHalt g = false → history g = [] ∨ streak (history g) < UnproductiveCap g.
Proof.
  unfold ShouldHalt. case_bool_decide; [by left|]. destruct (Z.leb_spec (UnproductiveCap g) (streak (history g))); [done|]. by right.
Qed.

Section Facts.
Context {W : Type} (now : W → time) (HandleScan : st W (error + list string)) (HandlePlan : list string → st W (error + PlanOutput))
  (adaptive : option (string → st W (error + Loop.Spec))) (lessons : W → list string)
  (WriteSpec : Loop.Spec → string → st W (error + string)) (HandleNotes : Z → st W ()) (HandleImprove : st W ())
  (RalphStarter : option (string → st W (option error))) (CostReader : option (W → float64))
  (OnCycleStart : option (Z → string → st W ())) (OnCycleEnd : option (Z → CycleResult → st W ())) (MaxCycles ImproveCadence : Z)
  (ctx_err : W → option error) (stopped : W → bool).
Notation one_cycle := (RunOneCycle now HandleScan HandlePlan adaptive lessons WriteSpec HandleNotes HandleImprove RalphStarter CostReader OnCycleStart ImproveCadence).
Notation cycles := (run_cycles now HandleScan HandlePlan adaptive lessons WriteSpec HandleNotes HandleImprove RalphStarter CostReader
  OnCycleStart OnCycleEnd MaxCycles ImproveCadence ctx_err stopped).
Notation run := (Run now HandleScan HandlePlan adaptive lessons WriteSpec HandleNotes HandleImprove RalphStarter CostReader
  OnCycleStart OnCycleEnd MaxCycles ImproveCadence ctx_err stopped).

(** What one cycle does to the orchestrator: one number more, and at most one record for the
    governor, written only if it did not already ask to halt. *)
Definition worst (g : option CostVelocityGovernor) : Z :=
  match g with Some g => Z.max (streak (history g)) (Z.max 1 (UnproductiveCap g)) | None => 0 end.
Record advanced (o o' : Orchestrator) (r : CycleResult) : Prop := {
  adv_num : r_CycleNum r = cycleNum o + 1;
  adv_cycle : cycleNum o' = cycleNum o + 1;
  adv_results : results o' = results o;
  adv_governor : match Governor o, Governor o' with
    | Some g, Some g' => UnproductiveCap g' = UnproductiveCap g ∧
        (history g' = history g ∨ ShouldHalt g = false ∧ ∃ rec, history g' = history g ++ [rec])
    | None, None => True
    | _, _ => False
    end
}.

Lemma run_ralph_advanced n started path scan plan o0 o w :
  n = cycleNum o0 + 1 → cycleNum o = n → results o = results o0 → Governor o = Governor o0 →
  match Governor o0 with Some g => ShouldHalt g = false | None => True end →
  let '(r, _, o', _) := run_ralph now HandleNotes HandleImprove RalphStarter CostReader OnCycleStart ImproveCadence n started path scan plan o w in
  advanced o0 o' r.
Proof.
  intros -> Hc Hr Hg Hh. unfold run_ralph. destruct (match OnCycleStart with Some f => f _ path w | None => ((), w) end) as [[] w0].
  destruct (match RalphStarter with Some f => f path w0 | None => (None, w0) end) as [[e|] w1].
  - split; cbn; [done|done|done|]. rewrite Hg. destruct (Governor o0); cbn; [|done]. split; [done|]. right. eauto.
  - destruct (HandleNotes _ w1) as [_ w2]. destruct (if _ =? 0 then _ else _) as [_ w3].
    split; cbn; [done|done|done|]. rewrite Hg. destruct (Governor o0); cbn; [|done]. split; [done|]. right. eauto.
Qed.

Lemma one_cycle_advanced o w : let '(r, _, o', _) := one_cycle o w in advanced o o' r.
Proof.
  assert (Hquiet : ∀ o' r, r_CycleNum r = cycleNum o + 1 → cycleNum o' = cycleNum o + 1 → results o' = results o → Governor o' = Governor o →
    advanced o o' r).
  { intros o' r H1 H2 H3 H4. split; [done..|]. rewrite H4. destruct (Governor o); [|done]. split; [done|by left]. }
  unfold RunOneCycle. destruct (match Breaker o with Some b => _ | None => _ end) as [ok b]. destruct ok; cbn [negb]; [|by apply Hquiet].
  cbn [set_breaker set_cycle Governor]. destruct (match Governor o with Some g => ShouldHalt g | None => false end) eqn:Eh; [by apply Hquiet|].
  destruct (HandleScan w) as [[e|scan] w1]; [by apply Hquiet|].
  destruct (HandlePlan scan w1) as [[e|plan] w2]; [by apply Hquiet|].
  destruct (make_spec adaptive lessons WriteSpec plan _ w2) as [[e|path] w3]; [by apply Hquiet|].
  apply run_ralph_advanced; try done. by destruct (Governor o).
Qed.

Lemma advanced_worst o o' r : advanced o o' r → worst (Governor o') <= worst (Governor o).
Proof.
  intros [_ _ _ Hg]. unfold worst. destruct (Governor o) as [g|], (Governor o') as [g'|]; try done. destruct Hg as [Hc [->|[Hh [rec ->]]]]; [lia|].
  rewrite streak_snoc, Hc. destruct (Productive rec); [pose proof (streak_nonneg (history g)); lia|].
  apply no_halt_streak in Hh as [->|]; [|lia]. unfold streak. cbn. lia.
Qed.

(** Why a run has returned. *)
Definition reason (ret : option error) (o : Orchestrator) (w : W) : Prop :=
  match ret with
  | None => stopped w = true ∨ 0 < MaxCycles <= cycleNum o
  | Some err => ctx_err w = Some err ∨ err = halted (cycleNum o) ∧ ∃ g, Governor o = Some g ∧ ShouldHalt g = true
  end.
(** The cycles done between two states of the orchestrator. *)
Definition done_cycles (o o' : Orchestrator) (new : list CycleResult) : Prop :=
  results o' = results o ++ new ∧ cycleNum o' = cycleNum o + num new ∧
  (∀ i r, new !! i = Some r → r_CycleNum r = cycleNum o + 1 + Z.of_nat i) ∧ worst (Governor o') <= worst (Governor o).

Lemma done_none o : done_cycles o o [].
Proof. split_and!; [by rewrite app_nil_r|unfold num; cbn; lia|done|lia]. Qed.
Lemma done_cons o o1 o' r err new : advanced o o1 r → done_cycles (add_result (with_error r err) o1) o' new →
  done_cycles o o' (with_error r err :: new).
Proof.
  intros Hadv (H1 & H2 & H3 & H4). pose proof (advanced_worst _ _ _ Hadv) as Hw. destruct Hadv as [Hn Hc Hr _].
  cbn [add_result results cycleNum Governor] in *. unfold done_cycles, num in *. cbn [length]. split_and!.
  - by rewrite H1, Hr, <- app_assoc.
  - lia.
  - intros [|i] r' Hi; cbn in Hi; [injection Hi as <-; destruct err; cbn; lia|]. apply H3 in Hi. lia.
  - lia.
Qed.

Lemma cycles_contract (fuel : nat) (o : Orchestrator) (w : W) :
  let '(out, o', w') := cycles fuel o w in
  ∃ new, done_cycles o o' new ∧
    match out with None => length new = fuel | Some ret => reason ret o' w' ∧ (length new <= fuel)%nat end ∧
    (0 < MaxCycles → num new <= Z.max 1 (MaxCycles - cycleNum o) ∧ (Z.max 1 (MaxCycles - cycleNum o) < Z.of_nat fuel → out ≠ None)).
Proof.
  revert o w. induction fuel as [|fuel IH]; intros o w; cbn [run_cycles].
  { exists []. unfold num. cbn. split_and!; [apply done_none|done|]. intros _. split; [lia|]. intros. lia. }
  destruct (ctx_err w) as [err|] eqn:Ectx.
  { exists []. unfold num. cbn. split_and!; [apply done_none|by left|lia|]. intros _. split; [lia|done]. }
  destruct (stopped w) eqn:Est.
  { exists []. unfold num. cbn. split_and!; [apply done_none|by left|lia|]. intros _. split; [lia|done]. }
  pose proof (one_cycle_advanced o w) as Hadv. destruct (one_cycle o w) as [[[r err] o1] w1]. set (o2 := add_result (with_error r err) o1).
  destruct (match OnCycleEnd with Some f => f (cycleNum o2) (with_error r err) w1 | None => ((), w1) end) as [[] w2].
  pose proof (adv_cycle _ _ _ Hadv) as Hc. assert (Hc2 : cycleNum o2 = cycleNum o1) by done.
  pose proof (done_cons _ _ _ _ err _ Hadv (done_none o2)) as Hone.
  destruct ((0 <? MaxCycles) && (MaxCycles <=? cycleNum o2)) eqn:Emax.
  { exists [with_error r err]. unfold num. cbn [length]. split_and!; [done|right; lia|lia|]. intros _. split; [lia|done]. }
  destruct (match Governor o2 with Some g => ShouldHalt g | None => false end) eqn:Ehalt.
  { exists [with_error r err]. unfold num. cbn [length]. split_and!; [done| |lia|intros _; split; [lia|done]].
    right. split; [done|]. destruct (Governor o2) as [g|] eqn:Eg; [|done]. by exists g. }
  specialize (IH o2 w2). destruct (cycles fuel o2 w2) as [[out o'] w']. destruct IH as (new & H1 & H2 & H3).
  exists (with_error r err :: new). split; [by eapply done_cons|]. unfold num in *. cbn [length]. split.
  - destruct out as [ret|]; [|lia]. destruct H2 as [? ?]. split; [done|lia].
  - intros Hm. destruct (H3 Hm) as [Hb Ho]. assert (cycleNum o2 < MaxCycles) by lia. split; [lia|]. intros Hf. apply Ho. lia.
Qed.

(** A run of an orchestrator that has reached its limit does one more cycle before it looks. *)
Lemma run_past_the_limit fuel o w : 0 < MaxCycles <= cycleNum o → ctx_err w = None → stopped w = false →
  let '(out, o', w') := run (S fuel) false o w in out = Some None ∧ cycleNum o' = cycleNum o + 1 ∧ num (results o') = num (results o) + 1.
Proof.
  intros Hm Hctx Hst. unfold Run. cbn [run_cycles]. rewrite Hctx, Hst. pose proof (one_cycle_advanced o w) as Hadv.
  destruct (one_cycle o w) as [[[r err] o1] w1]. destruct (match OnCycleEnd with Some f => _ | None => _ end) as [[] w2].
  destruct Hadv as [_ Hc Hr _]. cbn [add_result cycleNum results].
  replace ((0 <? MaxCycles) && (MaxCycles <=? cycleNum o1)) with true by lia. cbn [add_result cycleNum results]. split; [done|]. split; [done|].
  rewrite Hr. unfold num. rewrite length_app. cbn. lia.
Qed.

(** An open breaker does not end the run: until the cooldown is over it turns over failed cycles
    as fast as it can, and counts each against the limit. *)
Lemma open_breaker_spins fuel o w b : Breaker o = Some b → state b = BreakerOpen → time_sub (now w) (openedAt b) < cooldownDuration b →
  match Governor o with Some g => ShouldHalt g = false | None => True end →
  OnCycleEnd = None → MaxCycles <= 0 → ctx_err w = None → stopped w = false →
  let '(out, o', w') := cycles fuel o w in
  out = None ∧ w' = w ∧ cycleNum o' = cycleNum o + Z.of_nat fuel ∧ num (results o') = num (results o) + Z.of_nat fuel.
Proof.
  intros Hb Hs Ht Hg Hend Hm Hctx Hst. revert o Hb Hg. induction fuel as [|fuel IH]; intros o Hb Hg; cbn [run_cycles]; [split_and!; [done|done|lia|lia]|].
  rewrite Hctx, Hst. unfold RunOneCycle. cbn [set_cycle Breaker]. rewrite Hb. unfold CanExecute at 1. rewrite Hs.
  rewrite (proj2 (Z.leb_gt _ _)) by done. cbn [negb]. cbn [set_breaker add_result cycleNum Governor set_cycle]. 
  destruct (match OnCycleEnd with Some f => _ | None => _ end) as [u w1] eqn:Ee. rewrite Hend in Ee. injection Ee as <- <-.
  rewrite (proj2 (Z.ltb_ge _ _)) by done. cbn [andb].
  replace (match Governor o with Some g => ShouldHalt g | None => false end) with false by (by destruct (Governor o)).
  match goal with |- context [cycles fuel ?o1 _] => specialize (IH o1) end.
  destruct (cycles fuel _ w) as [[out o'] w'].
  destruct IH as (H1 & H2 & H3 & H4); [done|done|]. cbn [add_result set_breaker set_cycle cycleNum results] in *. split_and!; [done|done|lia|].
  unfold num in *. rewrite length_app in H4. cbn in H4. lia.
Qed.
End Facts.

(** ** Two starts in a row *)
Definition two_running : perpetual := {| current := Some 1%nat; fresh := 2; pending := ∅; running := {[1%nat; 0%nat]}; stopping := ∅ |}.
(** The tool tells by [Running], which a goroutine sets when it gets to run: started twice before
    that, two orchestrators run, and the first can no longer be stopped. *)
Lemma second_start_orphans_the_first : ∃ p, rtc pstep not_started p ∧ 0%nat ∈ running p ∧ 1%nat ∈ running p ∧
  ∀ p', rtc pstep p p' → 0%nat ∉ stopping p'.
Proof.
  exists two_running. split_and!.
  - eapply rtc_l; [apply ps_start|]. eapply rtc_l; [apply ps_start|].
    eapply rtc_l; [apply (ps_enter _ 0%nat); cbn; set_solver|]. eapply rtc_l; [apply (ps_enter _ 1%nat); cbn; set_solver|].
    apply reflexive_eq. unfold two_running. cbn. f_equal; set_solver.
  - cbn. set_solver.
  - cbn. set_solver.
  - intros p' Hs. assert (current p' ≠ Some 0%nat ∧ (0 < fresh p')%nat ∧ 0%nat ∉ stopping p') as (_ & _ & H); [|done].
    assert (Hi : current two_running ≠ Some 0%nat ∧ (0 < fresh two_running)%nat ∧ 0%nat ∉ stopping two_running) by (split_and!; [done|cbn; lia|cbn; set_solver]).
    induction Hs as [|p p1 p2 Hstep _ IH]; [done|]. apply IH. clear IH. destruct Hi as (H1 & H2 & H3).
    destruct Hstep as [p|p|p i Hin|p i Hin]; cbn.
    + unfold handlePerpetualStart. destruct (is_running p); cbn; [done|]. split_and!; [|lia|done]. intros [= E]. lia.
    + unfold handlePerpetualStop. destruct (current p) as [i|] eqn:Ec; cbn; [|by rewrite ?Ec]. case_bool_decide; cbn; [|by rewrite ?Ec].
      rewrite ?Ec. split_and!; [done|done|]. assert (i ≠ 0%nat) by congruence. set_solver.
    + done.
    + done.
Qed.
