(* ===== verification/Json.v ===== *)
(** JSON text as encoding/json writes and reads it: strings with their escapes and UTF-8, number
    literals, the compact encoder and the decoder with its nesting limit, and the raw members of an
    object ([json.RawMessage]).  A number is the literal it was written as, which is what decoding into an integer or
    a [json.RawMessage] looks at; Number.v decodes it into [any].  The components that speak JSON over a wire use these. *)

From stdpp Require Import base tactics list gmap strings.
From Stdlib Require Import ZArith Lia.
From S2P Require Import Prelude Truncate.

Local Open Scope Z_scope.

(** ** Bytes *)
Definition code (a : Ascii.ascii) : Z := Z.of_nat (Ascii.nat_of_ascii a).
Definition is_byte (a : Ascii.ascii) (n : Z) : bool := code a =? n.
Definition one (a : Ascii.ascii) : string := String a EmptyString.
Definition of_code (z : Z) : Ascii.ascii := Ascii.ascii_of_nat (Z.to_nat z).
Definition is_digit (a : Ascii.ascii) : bool := between 48 57 (code a).

Fixpoint skip_ws (s : string) : string :=
  match s with
  | String a r => if is_byte a 32 || is_byte a 9 || is_byte a 10 || is_byte a 13 then skip_ws r else s
  | EmptyString => EmptyString
  end.

(** U+FFFD, and the text of a code point in UTF-8. *)
Definition replacement : string := byte_string 239 +:+ byte_string 191 +:+ byte_string 189.
Definition utf8 (u : Z) : string :=
  if u <? 128 then one (of_code u)
  else if u <? 2048 then one (of_code (192 + u / 64)) +:+ one (of_code (128 + u mod 64))
  else if u <? 65536 then
    one (of_code (224 + u / 4096)) +:+ one (of_code (128 + u / 64 mod 64)) +:+ one (of_code (128 + u mod 64))
  else one (of_code (240 + u / 262144)) +:+ one (of_code (128 + u / 4096 mod 64)) +:+
       one (of_code (128 + u / 64 mod 64)) +:+ one (of_code (128 + u mod 64)).

(** Every byte that is not part of valid UTF-8 becomes U+FFFD; [keep] bytes of a rune are left. *)
Fixpoint replace_invalid_from (keep : nat) (s : string) : string :=
  match s with
  | EmptyString => EmptyString
  | String a r =>
      match keep with
      | S k => String a (replace_invalid_from k r)
      | O => match rune_len s with
             | O => replacement +:+ replace_invalid_from 0 r
             | S k => String a (replace_invalid_from k r)
             end
      end
  end.
Definition replace_invalid : string → string := replace_invalid_from 0.

(** ** Writing strings *)
Definition escape_byte (html : bool) (a : Ascii.ascii) : string :=
  if is_byte a 34 || is_byte a 92 then backslash +:+ one a
  else if is_byte a 8 then backslash +:+ "b"
  else if is_byte a 12 then backslash +:+ "f"
  else if is_byte a 10 then backslash +:+ "n"
  else if is_byte a 13 then backslash +:+ "r"
  else if is_byte a 9 then backslash +:+ "t"
  else if (code a <? 32) || (html && (is_byte a 60 || is_byte a 62 || is_byte a 38)) then
    backslash +:+ "u00" +:+ one (hex_digit (Ascii.nat_of_ascii a / 16)) +:+ one (hex_digit (Ascii.nat_of_ascii a mod 16))
  else one a.

(** The line separators U+2028 and U+2029. *)
Definition line_separator (s : string) : option string :=
  if has_prefix (byte_string 226 +:+ byte_string 128 +:+ byte_string 168) s then Some (backslash +:+ "u2028")
  else if has_prefix (byte_string 226 +:+ byte_string 128 +:+ byte_string 169) s then Some (backslash +:+ "u2029")
  else None.

(** [skip] bytes are dropped, then [keep] copied, before the next rune is looked at. *)
Fixpoint escape_from (html : bool) (skip keep : nat) (s : string) : string :=
  match s with
  | EmptyString => EmptyString
  | String a r =>
      match skip, keep with
      | S k, _ => escape_from html k keep r
      | O, S k => String a (escape_from html 0 k r)
      | O, O =>
          if code a <? 128 then escape_byte html a +:+ escape_from html 0 0 r
          else match rune_len s, line_separator s with
               | O, _ => backslash +:+ "ufffd" +:+ escape_from html 0 0 r
               | S k, Some text => text +:+ escape_from html k 0 r
               | S k, None => String a (escape_from html 0 k r)
               end
      end
  end.
Definition escape (html : bool) : string → string := escape_from html 0 0.
Definition json_string (html : bool) (s : string) : string := dquote +:+ escape html s +:+ dquote.

(** ** Writing values: [json.Marshal], or an encoder that does not escape HTML *)
Fixpoint print (html : bool) (v : json) : string :=
  match v with
  | JNull => "null"
  | JBool b => if b then "true" else "false"
  | JNumber n => n
  | JString s => json_string html s
  | JArray l => "[" +:+ join "," (map (print html) l) +:+ "]"
  | JObject l => "{" +:+ join "," (map (λ p, json_string html p.1 +:+ ":" +:+ print html p.2) l) +:+ "}"
  end.

(** ** Reading strings *)
Definition hex_value (a : Ascii.ascii) : option Z :=
  let c := code a in
  if between 48 57 c then Some (c - 48)
  else if between 97 102 c then Some (c - 87)
  else if between 65 70 c then Some (c - 55)
  else None.

Definition hex4 (s : string) : option (Z * string) :=
  match s with
  | String a (String b (String c (String d r))) =>
      x ← hex_value a; y ← hex_value b; z ← hex_value c; t ← hex_value d;
      Some (4096 * x + 256 * y + 16 * z + t, r)
  | _ => None
  end.

Definition simple_escape (c : Ascii.ascii) : option string :=
  if is_byte c 34 || is_byte c 92 || is_byte c 47 then Some (one c)
  else if is_byte c 98 then Some (byte_string 8)
  else if is_byte c 102 then Some (byte_string 12)
  else if is_byte c 110 then Some (byte_string 10)
  else if is_byte c 114 then Some (byte_string 13)
  else if is_byte c 116 then Some (byte_string 9)
  else None.

(** The text after [\uXXXX] with code unit [u]: a surrogate needs its other half. *)
Definition unicode_escape (u : Z) (r : string) : string * string :=
  if between 55296 57343 u then
    match r with
    | String a (String b r') =>
        match (if is_byte a 92 && is_byte b 117 then hex4 r' else None) with
        | Some (u', r') =>
            if between 55296 56319 u && between 56320 57343 u'
            then (utf8 (65536 + 1024 * (u - 55296) + (u' - 56320)), r')
            else (replacement, r)
        | None => (replacement, r)
        end
    | _ => (replacement, r)
    end
  else (utf8 u, r).

Definition prepend (t : string) (x : option (string * string)) : option (string * string) :=
  match x with Some (s, r) => Some (t +:+ s, r) | None => None end.

(** What follows an opening quote: the string and the text after its closing quote. *)
Fixpoint unquote (fuel : nat) (s : string) : option (string * string) :=
  match fuel, s with
  | O, _ | _, EmptyString => None
  | S fuel, String a r =>
      if is_byte a 34 then Some ("", r)
      else if is_byte a 92 then
        match r with
        | EmptyString => None
        | String c r =>
            if is_byte c 117 then
              match hex4 r with
              | Some (u, r) => let '(text, r) := unicode_escape u r in prepend text (unquote fuel r)
              | None => None
              end
            else match simple_escape c with Some text => prepend text (unquote fuel r) | None => None end
        end
      else if code a <? 32 then None
      else if code a <? 128 then prepend (one a) (unquote fuel r)
      else match rune_len s with
           | O => prepend replacement (unquote fuel r)
           | S k => prepend (string_take (S k) s) (unquote fuel (string_drop (S k) s))
           end
  end.
Definition read_string (s : string) : option (string * string) := unquote (S (String.length s)) s.

(** ** Reading numbers: the literal and the text after it *)
Fixpoint digits (s : string) : string * string :=
  match s with
  | String a r => if is_digit a then let '(d, t) := digits r in (String a d, t) else ("", s)
  | EmptyString => ("", "")
  end.
Definition digits1 (s : string) : option (string * string) :=
  match digits s with (EmptyString, _) => None | p => Some p end.
Definition int_part (s : string) : option (string * string) :=
  match s with
  | String a r => if is_byte a 48 then Some (one a, r) else if is_digit a then Some (digits s) else None
  | EmptyString => None
  end.
Definition fraction (s : string) : option (string * string) :=
  match s with
  | String a r => if is_byte a 46 then prepend (one a) (digits1 r) else Some ("", s)
  | EmptyString => Some ("", "")
  end.
Definition sign_and_digits (s : string) : option (string * string) :=
  match s with
  | String a r => if is_byte a 43 || is_byte a 45 then prepend (one a) (digits1 r) else digits1 s
  | EmptyString => None
  end.
Definition exponent (s : string) : option (string * string) :=
  match s with
  | String a r => if is_byte a 101 || is_byte a 69 then prepend (one a) (sign_and_digits r) else Some ("", s)
  | EmptyString => Some ("", "")
  end.
Definition minus_sign (s : string) : string * string :=
  match s with String a r => if is_byte a 45 then (one a, r) else ("", s) | EmptyString => ("", "") end.
Definition number (s : string) : option (string * string) :=
  let '(m, s) := minus_sign s in
  '(i, s) ← int_part s; '(f, s) ← fraction s; '(e, s) ← exponent s;
  Some (m +:+ i +:+ f +:+ e, s).

(** ** Reading values *)
Definition maxNestingDepth : Z := 10000.

Definition literal (s : string) : option (json * string) :=
  if has_prefix "true" s then Some (JBool true, string_drop 4 s)
  else if has_prefix "false" s then Some (JBool false, string_drop 5 s)
  else if has_prefix "null" s then Some (JNull, string_drop 4 s)
  else match number s with Some (n, r) => Some (JNumber n, r) | None => None end.

(** [depth] arrays and objects are open. *)
Fixpoint value (fuel : nat) (depth : Z) (s : string) : option (json * string) :=
  match fuel, skip_ws s with
  | O, _ | _, EmptyString => None
  | S fuel, String a r as s =>
      if is_byte a 123 then
        if maxNestingDepth <? depth + 1 then None else
        match skip_ws r with
        | String b r' =>
            if is_byte b 125 then Some (JObject [], r')
            else match members fuel (depth + 1) r with Some (l, t) => Some (JObject l, t) | None => None end
        | EmptyString => None
        end
      else if is_byte a 91 then
        if maxNestingDepth <? depth + 1 then None else
        match skip_ws r with
        | String b r' =>
            if is_byte b 93 then Some (JArray [], r')
            else match elements fuel (depth + 1) r with Some (l, t) => Some (JArray l, t) | None => None end
        | EmptyString => None
        end
      else if is_byte a 34 then match read_string r with Some (t, r) => Some (JString t, r) | None => None end
      else literal s
  end
with elements (fuel : nat) (depth : Z) (s : string) : option (list json * string) :=
  match fuel with
  | O => None
  | S fuel =>
      match value fuel depth s with
      | None => None
      | Some (v, t) =>
          match skip_ws t with
          | String b r =>
              if is_byte b 44 then match elements fuel depth r with Some (l, t) => Some (v :: l, t) | None => None end
              else if is_byte b 93 then Some ([v], r) else None
          | EmptyString => None
          end
      end
  end
with members (fuel : nat) (depth : Z) (s : string) : option (list (string * json) * string) :=
  match fuel with
  | O => None
  | S fuel =>
      match skip_ws s with
      | String q r =>
          if is_byte q 34 then
            match read_string r with
            | None => None
            | Some (k, t) =>
                match skip_ws t with
                | String c r =>
                    if is_byte c 58 then
                      match value fuel depth r with
                      | None => None
                      | Some (v, t) =>
                          match skip_ws t with
                          | String b r =>
                              if is_byte b 44 then
                                match members fuel depth r with Some (l, t) => Some ((k, v) :: l, t) | None => None end
                              else if is_byte b 125 then Some ([(k, v)], r) else None
                          | EmptyString => None
                          end
                      end
                    else None
                | EmptyString => None
                end
            end
          else None
      | EmptyString => None
      end
  end.

(** The first value of a text and the text after it ([Decoder.Decode]), and a text that is one
    value ([json.Unmarshal]). *)
Definition fuel_for (s : string) : nat := S (2 * String.length s).
Definition read_value (s : string) : option (json * string) := value (fuel_for s) 0 s.
Definition parse (s : string) : option json :=
  match read_value s with
  | Some (v, r) => match skip_ws r with EmptyString => Some v | _ => None end
  | None => None
  end.

(** ** Lemmas on bytes *)
Lemma code_range a : 0 <= code a < 256.
Proof. unfold code. pose proof (Ascii.nat_ascii_bounded a). lia. Qed.
Lemma of_code_code a : of_code (code a) = a.
Proof. unfold of_code, code. rewrite Nat2Z.id. apply Ascii.ascii_nat_embedding. Qed.
Lemma code_of_code z : 0 <= z < 256 → code (of_code z) = z.
Proof. intros. unfold of_code, code. rewrite Ascii.nat_ascii_embedding by lia. lia. Qed.
Lemma is_byte_true a n : is_byte a n = true → code a = n.
Proof. apply Z.eqb_eq. Qed.
Lemma skip_ws_length s : (String.length (skip_ws s) <= String.length s)%nat.
Proof. induction s as [|a s IH]; [done|]. cbn [skip_ws]. destruct (_ || _ || _); cbn; lia. Qed.

(** ** Reading consumes, and the fuel is enough *)
Ltac read_step := repeat match goal with
  | H : None = Some _ |- _ => discriminate H
  | H : Some _ = Some _ |- _ => injection H as H; subst
  | H : (_, _) = (_, _) |- _ => injection H as H; subst
  | H : prepend ?t ?x = Some _ |- _ => destruct x as [[? ?]|] eqn:?; cbn [prepend] in H
  | H : match ?x with _ => _ end = Some _ |- _ => destruct x eqn:?
  | H : (if ?b then _ else _) = Some _ |- _ => destruct b eqn:?
  end.

Lemma hex4_length s u r : hex4 s = Some (u, r) → String.length s = (4 + String.length r)%nat.
Proof.
  destruct s as [|a [|b [|c [|d s]]]]; try done. cbn [hex4].
  destruct (hex_value a); [|done]. destruct (hex_value b); [|done]. destruct (hex_value c); [|done].
  destruct (hex_value d); [|done]. cbn. intros [= _ <-]. done.
Qed.

Lemma unicode_escape_length u s text r : unicode_escape u s = (text, r) → (String.length r <= String.length s)%nat.
Proof.
  unfold unicode_escape. destruct (between _ _ _); [|intros [= _ <-]; done].
  destruct s as [|a [|b s]]; try (intros [= _ <-]; done).
  destruct (is_byte a 92 && is_byte b 117); [|intros [= _ <-]; done].
  destruct (hex4 s) as [[u' r']|] eqn:E; [|intros [= _ <-]; done]. apply hex4_length in E.
  destruct (_ && _); intros [= _ <-]; cbn; lia.
Qed.

Lemma rune_len_bound s : (rune_len s <= 4)%nat.
Proof. unfold rune_len. repeat case_match; lia. Qed.

Lemma unquote_length fuel s x r : unquote fuel s = Some (x, r) → (String.length r < String.length s)%nat.
Proof.
  revert s x r. induction fuel as [|fuel IH]; intros s x r H; [done|]. destruct s as [|a s]; [done|]. cbn [unquote] in H.
  destruct (is_byte a 34); [read_step; cbn; lia|]. destruct (is_byte a 92).
  - destruct s as [|c s]; [done|]. destruct (is_byte c 117).
    + destruct (hex4 s) as [[u t]|] eqn:E; [|done]. destruct (unicode_escape u t) as [text t'] eqn:E'.
      apply hex4_length in E. apply unicode_escape_length in E'. read_step. apply IH in Heqo. cbn. lia.
    + read_step. apply IH in Heqo0. cbn. lia.
  - destruct (code a <? 32); [done|]. destruct (code a <? 128); [read_step; apply IH in Heqo; cbn; lia|].
    destruct (rune_len (String a s)); read_step; apply IH in Heqo; rewrite ?string_length_drop in Heqo; cbn in *; lia.
Qed.

Lemma unquote_fuel f f' s : (String.length s < f)%nat → (String.length s < f')%nat → unquote f s = unquote f' s.
Proof.
  revert f' s. induction f as [|f IH]; intros f' s Hf Hf'; [lia|]. destruct f' as [|f']; [lia|].
  destruct s as [|a s]; [done|]. cbn [unquote String.length] in *.
  destruct (is_byte a 34); [done|]. destruct (is_byte a 92).
  - destruct s as [|c s]; [done|]. cbn [String.length] in *. destruct (is_byte c 117).
    + destruct (hex4 s) as [[u t]|] eqn:E; [|done]. destruct (unicode_escape u t) as [text t'] eqn:E'.
      apply hex4_length in E. apply unicode_escape_length in E'. rewrite (IH f') by lia. done.
    + destruct (simple_escape c); [|done]. by rewrite (IH f') by lia.
  - destruct (code a <? 32); [done|]. destruct (code a <? 128); [by rewrite (IH f') by lia|].
    destruct (rune_len (String a s)) as [|k]; [by rewrite (IH f') by lia|].
    rewrite (IH f'); [done|..]; rewrite string_length_drop; cbn; lia.
Qed.

Lemma read_string_length s x r : read_string s = Some (x, r) → (String.length r < String.length s)%nat.
Proof. apply unquote_length. Qed.

Lemma digits_split s d r : digits s = (d, r) → s = d +:+ r.
Proof.
  revert d r. induction s as [|a s IH]; intros d r; cbn [digits]; [by intros [= <- <-]|].
  destruct (is_digit a); [|by intros [= <- <-]]. destruct (digits s) as [d' r']. intros [= <- <-]. cbn. by rewrite (IH d' r').
Qed.

(** What is read of a number is a prefix, and not empty. *)
Lemma digits1_split s d r : digits1 s = Some (d, r) → s = d +:+ r ∧ d ≠ "".
Proof. unfold digits1. destruct (digits s) as [[|a d'] r'] eqn:E; [done|]. intros [= <- <-]. by rewrite (digits_split _ _ _ E). Qed.
Lemma int_part_split s d r : int_part s = Some (d, r) → s = d +:+ r ∧ d ≠ "".
Proof.
  destruct s as [|a s]; [done|]. cbn [int_part]. destruct (is_byte a 48); [by intros [= <- <-]|].
  destruct (is_digit a) eqn:E; [|done]. intros [= H]. split; [by apply digits_split|].
  cbn [digits] in H. rewrite E in H. destruct (digits s). by injection H as <- <-.
Qed.
Lemma sign_and_digits_split s d r : sign_and_digits s = Some (d, r) → s = d +:+ r ∧ d ≠ "".
Proof.
  destruct s as [|a s]; [done|]. cbn [sign_and_digits]. destruct (_ || _); [|apply digits1_split].
  destruct (digits1 s) as [[d' r']|] eqn:E; [|done]. intros [= <- <-]. apply digits1_split in E as [-> ?]. done.
Qed.
Lemma fraction_split s d r : fraction s = Some (d, r) → s = d +:+ r.
Proof.
  destruct s as [|a s]; cbn [fraction]; [by intros [= <- <-]|]. destruct (is_byte a 46); [|by intros [= <- <-]].
  destruct (digits1 s) as [[d' r']|] eqn:E; [|done]. intros [= <- <-]. by apply digits1_split in E as [-> ?].
Qed.
Lemma exponent_split s d r : exponent s = Some (d, r) → s = d +:+ r.
Proof.
  destruct s as [|a s]; cbn [exponent]; [by intros [= <- <-]|]. destruct (_ || _); [|by intros [= <- <-]].
  destruct (sign_and_digits s) as [[d' r']|] eqn:E; [|done]. intros [= <- <-]. by apply sign_and_digits_split in E as [-> ?].
Qed.
Lemma minus_sign_split s m r : minus_sign s = (m, r) → s = m +:+ r.
Proof. destruct s as [|a s]; cbn [minus_sign]; [by intros [= <- <-]|]. destruct (is_byte a 45); by intros [= <- <-]. Qed.

Lemma number_split s n r : number s = Some (n, r) → s = n +:+ r ∧ n ≠ "".
Proof.
  unfold number. destruct (minus_sign s) as [m s1] eqn:Em. destruct (int_part s1) as [[i s2]|] eqn:Ei; [|done]. cbn.
  destruct (fraction s2) as [[f s3]|] eqn:Ef; [|done]. cbn. destruct (exponent s3) as [[e s4]|] eqn:Ee; [|done]. cbn. intros [= <- <-].
  apply minus_sign_split in Em as ->. apply int_part_split in Ei as [-> Hi]. apply fraction_split in Ef as ->. apply exponent_split in Ee as ->.
  rewrite !string_app_assoc. split; [done|]. destruct m; [|done]. by destruct i.
Qed.

Lemma literal_length s v r : literal s = Some (v, r) → (String.length r < String.length s)%nat.
Proof.
  unfold literal.
  assert (Hp : ∀ p n, has_prefix p s = true → String.length p = n → n ≠ 0%nat → (String.length (string_drop n s) < String.length s)%nat).
  { intros p n [t ->]%has_prefix_spec <- Hn. rewrite string_drop_app, string_length_app. lia. }
  destruct (has_prefix "true" s) eqn:E1; [intros [= _ <-]; by apply (Hp "true" 4%nat)|].
  destruct (has_prefix "false" s) eqn:E2; [intros [= _ <-]; by apply (Hp "false" 5%nat)|].
  destruct (has_prefix "null" s) eqn:E3; [intros [= _ <-]; by apply (Hp "null" 4%nat)|].
  destruct (number s) as [[n t]|] eqn:E; [|done]. intros [= _ <-]. apply number_split in E as [-> Hn]. rewrite string_length_app.
  destruct n; [done|cbn; lia].
Qed.

Lemma skip_ws_cons s a r : skip_ws s = String a r → (S (String.length r) <= String.length s)%nat.
Proof. intros H. pose proof (skip_ws_length s) as Hl. rewrite H in Hl. done. Qed.

Ltac lengths := repeat match goal with
  | H : skip_ws _ = String _ _ |- _ => apply skip_ws_cons in H
  | H : read_string _ = Some _ |- _ => apply read_string_length in H
  | H : literal _ = Some _ |- _ => apply literal_length in H
  end.

Definition shortens {A} (f : Z → string → option (A * string)) : Prop :=
  ∀ d s x r, f d s = Some (x, r) → (String.length r < String.length s)%nat.

Lemma value_shortens fuel : shortens (value fuel) ∧ shortens (elements fuel) ∧ shortens (members fuel).
Proof.
  induction fuel as [|fuel (IHv & IHe & IHm)]; [done|]. split_and!; intros d s x r H.
  - cbn [value] in H. destruct (skip_ws s) as [|a t] eqn:Es; [done|]. read_step; try discriminate.
    all: repeat match goal with
      | H : members _ _ _ = Some _ |- _ => apply IHm in H
      | H : elements _ _ _ = Some _ |- _ => apply IHe in H
      end; lengths; cbn in *; lia.
  - cbn [elements] in H. destruct (value fuel d s) as [[v t]|] eqn:E; [|done]. apply IHv in E. read_step; try discriminate.
    all: repeat match goal with H : elements _ _ _ = Some _ |- _ => apply IHe in H end; lengths; cbn in *; lia.
  - cbn [members] in H. destruct (skip_ws s) as [|q t] eqn:Es; [done|]. read_step; try discriminate.
    all: repeat match goal with
      | H : members _ _ _ = Some _ |- _ => apply IHm in H
      | H : value _ _ _ = Some _ |- _ => apply IHv in H
      end; lengths; cbn in *; lia.
Qed.

Lemma value_fuel f : ∀ f' d s,
  ((2 * String.length s < f)%nat → (2 * String.length s < f')%nat → value f d s = value f' d s) ∧
  ((2 * String.length s + 1 < f)%nat → (2 * String.length s + 1 < f')%nat → elements f d s = elements f' d s) ∧
  ((2 * String.length s + 1 < f)%nat → (2 * String.length s + 1 < f')%nat → members f d s = members f' d s).
Proof.
  induction f as [|f IH]; intros f' d s; [split_and!; lia|]. split_and!; intros Hf Hf'; (destruct f' as [|f']; [lia|]).
  - cbn [value]. destruct (skip_ws s) as [|a r] eqn:Es; [done|]. apply skip_ws_cons in Es.
    destruct (IH f' (d + 1) r) as (_ & He & Hm). destruct (is_byte a 123); [|destruct (is_byte a 91); [|done]].
    + destruct (maxNestingDepth <? d + 1); [done|]. destruct (skip_ws r); [done|]. by rewrite Hm by lia.
    + destruct (maxNestingDepth <? d + 1); [done|]. destruct (skip_ws r); [done|]. by rewrite He by lia.
  - cbn [elements]. destruct (IH f' d s) as (Hv & _). rewrite <- Hv by lia.
    destruct (value f d s) as [[v t]|] eqn:E; [|done]. apply value_shortens in E.
    destruct (skip_ws t) as [|b r] eqn:Et; [done|]. apply skip_ws_cons in Et.
    destruct (is_byte b 44); [|done]. destruct (IH f' d r) as (_ & He & _). by rewrite He by lia.
  - cbn [members]. destruct (skip_ws s) as [|q r] eqn:Es; [done|]. apply skip_ws_cons in Es. destruct (is_byte q 34); [|done].
    destruct (read_string r) as [[k t]|] eqn:Er; [|done]. apply read_string_length in Er.
    destruct (skip_ws t) as [|c r2] eqn:Et; [done|]. apply skip_ws_cons in Et. destruct (is_byte c 58); [|done].
    destruct (IH f' d r2) as (Hv & _). rewrite <- Hv by lia. destruct (value f d r2) as [[v t2]|] eqn:E; [|done]. apply value_shortens in E.
    destruct (skip_ws t2) as [|b r3] eqn:Et2; [done|]. apply skip_ws_cons in Et2. destruct (is_byte b 44); [|done].
    destruct (IH f' d r3) as (_ & _ & Hm). by rewrite Hm by lia.
Qed.

(** ** Round trip of strings *)
Lemma replace_invalid_keep k s : replace_invalid_from k s = string_take k s +:+ replace_invalid (string_drop k s).
Proof.
  revert s. induction k as [|k IH]; intros s; [done|]. destruct s as [|a s]; [done|].
  cbn [replace_invalid_from string_take string_drop]. by rewrite IH.
Qed.
Lemma escape_keep html k s : escape_from html 0 k s = string_take k s +:+ escape html (string_drop k s).
Proof.
  revert s. induction k as [|k IH]; intros s; [done|]. destruct s as [|a s]; [done|].
  cbn [escape_from string_take string_drop]. by rewrite IH.
Qed.
Lemma escape_skip html k s : escape_from html k 0 s = escape html (string_drop k s).
Proof. revert s. induction k as [|k IH]; intros s; [done|]. destruct s as [|a s]; [done|]. cbn [escape_from string_drop]. apply IH. Qed.

(** A rune looks only at its own bytes. *)
Lemma byte_at_app s t i : (i < String.length s)%nat → byte_at (s +:+ t) i = byte_at s i.
Proof.
  unfold byte_at. intros Hi. assert (String.get i (s +:+ t) = String.get i s) as ->; [|done].
  revert i Hi. induction s as [|a s IH]; intros i Hi; cbn in Hi; [lia|]. destruct i as [|i]; [done|]. cbn. apply IH. lia.
Qed.
Lemma byte_at_inside s i lo hi : 0 <= lo → between lo hi (byte_at s i) = true → (i < String.length s)%nat.
Proof.
  unfold byte_at. destruct (String.get i s) as [a|] eqn:E; unfold between; [|lia]. intros _ _.
  revert i E. induction s as [|b s IH]; intros i; [done|]. destruct i as [|i]; cbn; [lia|]. intros E%IH. lia.
Qed.
Lemma take_prefix_app s t : string_take (String.length s) (s +:+ t) = s.
Proof. induction s as [|a s IH]; [by destruct t|]. cbn. by rewrite IH. Qed.
Lemma get_string_take n s i : (i < n)%nat → String.get i (string_take n s) = String.get i s.
Proof. revert s i. induction n as [|n IH]; intros s i Hi; [lia|]. destruct s as [|a s]; [done|]. destruct i as [|i]; [done|]. cbn. apply IH. lia. Qed.

Lemma rune_len_inside s : (rune_len s <= String.length s)%nat.
Proof.
  unfold rune_len, continuation. repeat case_match; try lia; to_prop;
    repeat match goal with H : between _ _ (byte_at _ _) = true |- _ => apply byte_at_inside in H; [|lia] end; lia.
Qed.

Lemma rune_len_own s n t : rune_len s = n → n ≠ 0%nat → rune_len (string_take n s +:+ t) = n.
Proof.
  intros Hn H0. pose proof (rune_len_inside s) as Hin. rewrite Hn in Hin.
  assert (H : ∀ i, (i < n)%nat → byte_at (string_take n s +:+ t) i = byte_at s i).
  { intros i Hi. rewrite byte_at_app by (rewrite string_length_take; lia). unfold byte_at. by rewrite get_string_take. }
  clear Hin. unfold rune_len, continuation in *.
  repeat case_match; subst n; try done; to_prop; rewrite ?H in * by lia; try congruence.
  all: repeat match goal with E : ?x = true, H : context [?x && _] |- _ => rewrite E in H; cbn [andb] in H end; congruence.
Qed.

Ltac all_bytes a := destruct a as [[] [] [] [] [] [] [] []].

Lemma ascii_rune a s : (code a <? 128) = true → rune_len (String a s) = 1%nat.
Proof.
  intros H%Z.ltb_lt. unfold rune_len, byte_at. cbn [String.get]. fold (code a).
  pose proof (code_range a). unfold between. by rewrite (proj2 (Z.leb_le 0 _)), (proj2 (Z.leb_le _ 127)) by lia.
Qed.

Lemma unquote_escape_byte html a f t : (code a <? 128) = true →
  unquote (S f) (escape_byte html a +:+ t) = prepend (one a) (unquote f t).
Proof. intros H. all_bytes a; vm_compute in H; try discriminate H; destruct html; reflexivity. Qed.

Lemma line_separator_rune s text : line_separator s = Some text → rune_len s = 3%nat ∧
  ∀ f t, unquote (S f) (text +:+ t) = prepend (string_take 3 s) (unquote f t).
Proof.
  unfold line_separator. destruct (has_prefix (byte_string 226 +:+ byte_string 128 +:+ byte_string 168) s) eqn:E1.
  { apply has_prefix_spec in E1 as [r ->]. intros [= <-]. split; [by vm_compute|reflexivity]. }
  destruct (has_prefix (byte_string 226 +:+ byte_string 128 +:+ byte_string 169) s) eqn:E2; [|done].
  apply has_prefix_spec in E2 as [r ->]. intros [= <-]. split; [by vm_compute|reflexivity].
Qed.

(** A string that was written is read back, up to the bytes that were not UTF-8. *)
Lemma unquote_escape html s t f : (String.length (escape html s) < f)%nat →
  unquote f (escape html s +:+ dquote +:+ t) = Some (replace_invalid s, t).
Proof.
  remember (String.length s) as n eqn:Hn. revert s f Hn. induction (lt_wf n) as [n _ IH]. intros s f -> Hf.
  destruct f as [|f]; [lia|]. destruct s as [|a s]; [done|].
  assert (Hnext : ∀ k text x, escape html (String a s) = text +:+ escape html (string_drop (S k) (String a s)) → text ≠ "" →
    (∀ f t, unquote (S f) (text +:+ t) = prepend x (unquote f t)) →
    replace_invalid (String a s) = x +:+ replace_invalid (string_drop (S k) (String a s)) →
    unquote (S f) (escape html (String a s) +:+ dquote +:+ t) = Some (replace_invalid (String a s), t)).
  { intros k text x He Ht Hu Hr. rewrite He, Hr, string_app_assoc, Hu. rewrite He, string_length_app in Hf.
    destruct text as [|c text]; [done|]. cbn [String.length] in Hf.
    rewrite (IH (String.length (string_drop (S k) (String a s)))); [done| |done|lia]. rewrite string_length_drop. cbn. lia. }
  destruct (code a <? 128) eqn:Ea.
  - apply (Hnext 0%nat (escape_byte html a) (one a)).
    + unfold escape. cbn [escape_from string_drop]. by rewrite Ea.
    + clear. unfold escape_byte. by destruct (_ || _), html; repeat case_match.
    + intros. by apply unquote_escape_byte.
    + unfold replace_invalid. cbn [replace_invalid_from string_drop]. by rewrite ascii_rune.
  - destruct (rune_len (String a s)) as [|k] eqn:Er.
    + apply (Hnext 0%nat (backslash +:+ "ufffd") replacement); [|done|reflexivity|].
      * unfold escape. cbn [escape_from]. by rewrite Ea, Er.
      * unfold replace_invalid. cbn [replace_invalid_from]. by rewrite Er.
    + assert (Hr : replace_invalid (String a s) = string_take (S k) (String a s) +:+ replace_invalid (string_drop (S k) (String a s))).
      { unfold replace_invalid at 1. cbn [replace_invalid_from]. rewrite Er. cbn [string_take string_drop]. by rewrite replace_invalid_keep. }
      destruct (line_separator (String a s)) as [text|] eqn:El.
      * apply line_separator_rune in El as Hl. destruct Hl as [H3 Hl]. rewrite Er in H3. injection H3 as ->.
        apply (Hnext 2%nat text (string_take 3 (String a s))); [| |done|done].
        -- unfold escape at 1. cbn [escape_from]. rewrite Ea, Er, El. by rewrite escape_skip.
        -- intros ->. specialize (Hl 0%nat dquote). discriminate Hl.
      * apply (Hnext k (string_take (S k) (String a s)) (string_take (S k) (String a s))); [|done| |done].
        -- unfold escape at 1. cbn [escape_from]. rewrite Ea, Er, El. by rewrite escape_keep.
        -- intros f' t'. assert (Hl : String.length (string_take (S k) (String a s)) = S k)
             by (rewrite string_length_take; pose proof (rune_len_inside (String a s)); lia).
           pose proof (rune_len_own _ _ t' Er) as Ho. specialize (Ho ltac:(done)).
           assert (Hd : string_drop (S k) (string_take (S k) (String a s) +:+ t') = t') by (rewrite <- Hl at 1; apply string_drop_app).
           assert (Htk : string_take (S k) (string_take (S k) (String a s) +:+ t') = string_take (S k) (String a s))
             by (rewrite <- Hl at 1; apply take_prefix_app).
           assert (Hc : is_byte a 34 = false ∧ is_byte a 92 = false ∧ (code a <? 32) = false) by (unfold is_byte; lia).
           destruct Hc as (H1 & H2 & H4). set (rest := string_take k s +:+ t').
           change (string_take (S k) (String a s) +:+ t') with (String a rest) in *.
           cbn [unquote]. by rewrite H1, H2, H4, Ea, Ho, Htk, Hd.
Qed.

(** ** Round trip of numbers *)
Definition is_number (n : string) : bool := bool_decide (number n = Some (n, "")).
(** [rest] does not go on with a number. *)
Definition stops (rest : string) : bool :=
  match rest with
  | String a _ => negb (is_digit a || is_byte a 46 || is_byte a 101 || is_byte a 69)
  | EmptyString => true
  end.

Lemma digits_more s d r rest : digits s = (d, r) → stops rest = true → digits (s +:+ rest) = (d, r +:+ rest).
Proof.
  intros H Hs. revert d r H. induction s as [|a s IH]; intros d r.
  - cbn. intros [= <- <-]. destruct rest as [|b rest]; [done|]. cbn in Hs |- *. by destruct (is_digit b).
  - cbn. destruct (is_digit a); [|by intros [= <- <-]]. destruct (digits s) as [d' r'] eqn:E. intros [= <- <-]. by rewrite (IH d' r').
Qed.
Lemma digits1_more s d r rest : digits1 s = Some (d, r) → stops rest = true → digits1 (s +:+ rest) = Some (d, r +:+ rest).
Proof.
  unfold digits1. destruct (digits s) as [d' r'] eqn:E. intros H Hs. rewrite (digits_more _ _ _ _ E Hs).
  destruct d'; [done|]. by injection H as <- <-.
Qed.
Lemma int_part_more s d r rest : int_part s = Some (d, r) → stops rest = true → int_part (s +:+ rest) = Some (d, r +:+ rest).
Proof.
  destruct s as [|a s]; [done|]. intros H Hs. cbn [int_part String.append] in *. destruct (is_byte a 48); [by injection H as <- <-|].
  destruct (is_digit a); [|done].
  assert (digits (String a s) = (d, r)) as Hd by congruence. f_equal. exact (digits_more _ _ _ _ Hd Hs).
Qed.
Lemma fraction_more s d r rest : fraction s = Some (d, r) → stops rest = true → fraction (s +:+ rest) = Some (d, r +:+ rest).
Proof.
  destruct s as [|a s]; intros H Hs.
  - injection H as <- <-. destruct rest as [|b rest]; [done|]. cbn in Hs |- *. by destruct (is_digit b), (is_byte b 46).
  - cbn [fraction String.append] in *. destruct (is_byte a 46); [|by injection H as <- <-].
    destruct (digits1 s) as [[d' r']|] eqn:E; [|done]. rewrite (digits1_more _ _ _ _ E Hs). by injection H as <- <-.
Qed.
Lemma sign_and_digits_more s d r rest : sign_and_digits s = Some (d, r) → stops rest = true → sign_and_digits (s +:+ rest) = Some (d, r +:+ rest).
Proof.
  destruct s as [|a s]; [done|]. intros H Hs. cbn [sign_and_digits String.append] in *.
  destruct (_ || _); [|by apply (digits1_more (String a s))].
  destruct (digits1 s) as [[d' r']|] eqn:E; [|done]. rewrite (digits1_more _ _ _ _ E Hs). by injection H as <- <-.
Qed.
Lemma exponent_more s d r rest : exponent s = Some (d, r) → stops rest = true → exponent (s +:+ rest) = Some (d, r +:+ rest).
Proof.
  destruct s as [|a s]; intros H Hs.
  - injection H as <- <-. destruct rest as [|b rest]; [done|]. cbn in Hs |- *.
    by destruct (is_digit b), (is_byte b 46), (is_byte b 101), (is_byte b 69).
  - cbn [exponent String.append] in *. destruct (_ || _); [|by injection H as <- <-].
    destruct (sign_and_digits s) as [[d' r']|] eqn:E; [|done]. rewrite (sign_and_digits_more _ _ _ _ E Hs). by injection H as <- <-.
Qed.

Lemma number_reads_on n m rest : number n = Some (m, "") → stops rest = true → number (n +:+ rest) = Some (m, rest).
Proof.
  intros H Hs. destruct (number_split _ _ _ H) as [Hn H0]. destruct n as [|a n]; [by destruct m|]. revert H. clear Hn H0.
  unfold number. cbn [minus_sign String.append].
  assert (Hm : ∀ b, (if b : bool then (one a, n +:+ rest) else ("", String a (n +:+ rest))) =
    let '(m, s) := if b then (one a, n) else ("", String a n) in (m, s +:+ rest)) by by intros [].
  rewrite Hm. destruct (if is_byte a 45 then _ else _) as [m' s].
  destruct (int_part s) as [[i s2]|] eqn:Ei; [|done]. rewrite (int_part_more _ _ _ _ Ei Hs). cbn.
  destruct (fraction s2) as [[f s3]|] eqn:Ef; [|done]. rewrite (fraction_more _ _ _ _ Ef Hs). cbn.
  destruct (exponent s3) as [[e s4]|] eqn:Ee; [|done]. rewrite (exponent_more _ _ _ _ Ee Hs). cbn. by intros [= <- ->].
Qed.

(** A number starts with a digit or a minus sign. *)
Lemma number_head n m : number n = Some m → ∃ a r, n = String a r ∧ (is_digit a || is_byte a 45) = true.
Proof.
  destruct n as [|a n]; [done|]. intros H. exists a, n. split; [done|]. revert H. unfold number. cbn [minus_sign].
  destruct (is_byte a 45) eqn:E; [by rewrite orb_true_r|]. cbn [int_part].
  destruct (is_byte a 48) eqn:E0; [intros _; unfold is_byte, is_digit, between in *; lia|]. by destruct (is_digit a).
Qed.

Lemma literal_number n rest : is_number n = true → stops rest = true → literal (n +:+ rest) = Some (JNumber n, rest).
Proof.
  intros H%bool_decide_eq_true Hs. destruct (number_head _ _ H) as (a & r & -> & Ha). unfold literal.
  rewrite (number_reads_on _ _ _ H Hs). cbn [has_prefix String.append].
  assert (∀ c, (is_digit c || is_byte c 45) = false → bool_decide (c = a) = false) as Hc.
  { intros c Hc. apply bool_decide_eq_false. intros ->. congruence. }
  by rewrite !Hc by by vm_compute.
Qed.

(** ** Round trip of values *)
Fixpoint well_formed (depth : Z) (v : json) : bool :=
  match v with
  | JNumber n => is_number n
  | JArray l => (depth + 1 <=? maxNestingDepth) && forallb (well_formed (depth + 1)) l
  | JObject l => (depth + 1 <=? maxNestingDepth) && forallb (λ p, well_formed (depth + 1) p.2) l
  | _ => true
  end.
(** The value with its strings made valid UTF-8. *)
Fixpoint clean (v : json) : json :=
  match v with
  | JString s => JString (replace_invalid s)
  | JArray l => JArray (map clean l)
  | JObject l => JObject (map (λ p, (replace_invalid p.1, clean p.2)) l)
  | v => v
  end.

(** The first byte of a value. *)
Definition starts_value (s : string) : bool :=
  match s with
  | String a _ => is_byte a 34 || is_byte a 123 || is_byte a 91 || is_byte a 116 || is_byte a 102 || is_byte a 110 ||
                  is_digit a || is_byte a 45
  | EmptyString => false
  end.
Lemma print_starts html depth v rest : well_formed depth v = true → starts_value (print html v +:+ rest) = true.
Proof.
  destruct v as [|[]|n|s|l|l]; try done. cbn [well_formed print]. intros H%bool_decide_eq_true.
  destruct (number_head _ _ H) as (a & r & -> & Ha). cbn. by rewrite <- orb_assoc, Ha, !orb_true_r.
Qed.
Lemma skip_ws_value s : starts_value s = true → skip_ws s = s.
Proof.
  destruct s as [|a s]; [done|]. cbn [starts_value skip_ws]. intros H.
  assert ((is_byte a 32 || is_byte a 9 || is_byte a 10 || is_byte a 13) = false) as ->; [|done].
  unfold is_byte, is_digit, between in *. lia.
Qed.

Lemma starts_value_not s b r n : starts_value s = true → s = String b r → n = 93 ∨ n = 125 → is_byte b n = false.
Proof. intros H -> Hn. cbn in H. unfold is_byte, is_digit, between in *. lia. Qed.

(** Decide the tests of known bytes. *)
Ltac known_bytes := repeat match goal with
  | |- context [is_byte ?a ?n] =>
      let b := eval vm_compute in (is_byte a n) in
      lazymatch b with true => idtac | false => idtac end; change (is_byte a n) with b
  end; cbn [orb andb].

Definition reads_back (html : bool) (v : json) : Prop := ∀ depth rest fuel,
  well_formed depth v = true → stops rest = true → (2 * String.length (print html v +:+ rest) < fuel)%nat →
  value fuel depth (print html v +:+ rest) = Some (clean v, rest).

Lemma elements_read_back html l depth rest fuel : (∀ v, v ∈ l → reads_back html v) → l ≠ [] →
  forallb (well_formed depth) l = true →
  (2 * String.length (join "," (map (print html) l) +:+ "]" +:+ rest) + 1 < fuel)%nat →
  elements fuel depth (join "," (map (print html) l) +:+ "]" +:+ rest) = Some (map clean l, rest).
Proof.
  revert fuel. induction l as [|v l IH]; intros fuel Hl H0 Hw Hf; [done|]. clear H0. destruct fuel as [|fuel]; [lia|]. cbn [elements].
  cbn [forallb] in Hw. apply andb_true_iff in Hw as [Hv Hw]. assert (reads_back html v) as Hr by (apply Hl; left).
  destruct l as [|v' l].
  - cbn [map join] in *. rewrite Hr; [|done|done|lia]. done.
  - change (join "," (map (print html) (v :: v' :: l))) with (print html v +:+ "," +:+ join "," (map (print html) (v' :: l))) in *.
    rewrite !string_app_assoc in *. rewrite Hr; [|done|done|lia].
    set (t := join "," (map (print html) (v' :: l)) +:+ "]" +:+ rest) in *. cbn -[elements map]. known_bytes. unfold t in *.
    rewrite (IH fuel); [done| |done|done|].
    + intros w Hin. apply Hl. by right.
    + rewrite !string_length_app in *. cbn [String.length] in *. lia.
Qed.

Lemma read_string_back html s t : read_string (escape html s +:+ dquote +:+ t) = Some (replace_invalid s, t).
Proof. unfold read_string. apply unquote_escape. rewrite string_length_app. lia. Qed.

Definition print_member (html : bool) (p : string * json) : string := json_string html p.1 +:+ ":" +:+ print html p.2.

Lemma members_read_back html l depth rest fuel : (∀ p, p ∈ l → reads_back html p.2) → l ≠ [] →
  forallb (λ p, well_formed depth p.2) l = true →
  (2 * String.length (join "," (map (print_member html) l) +:+ "}" +:+ rest) + 1 < fuel)%nat →
  members fuel depth (join "," (map (print_member html) l) +:+ "}" +:+ rest) =
    Some (map (λ p, (replace_invalid p.1, clean p.2)) l, rest).
Proof.
  revert fuel. induction l as [|[k v] l IH]; intros fuel Hl H0 Hw Hf; [done|]. clear H0. destruct fuel as [|fuel]; [lia|].
  cbn [forallb snd] in Hw. apply andb_true_iff in Hw as [Hv Hw]. assert (reads_back html v) as Hr by (apply (Hl (k, v)); left).
  assert (Hstep : ∀ t l', stops t = true → (2 * String.length (print html v +:+ t) < fuel)%nat →
    (match skip_ws t with
     | String b r =>
         if is_byte b 44 then match members fuel depth r with Some (l, t) => Some ((replace_invalid k, clean v) :: l, t) | None => None end
         else if is_byte b 125 then Some ([(replace_invalid k, clean v)], r) else None
     | EmptyString => None
     end) = Some (l', rest) →
    members (S fuel) depth (print_member html (k, v) +:+ t) = Some (l', rest)).
  { intros t l' Ht Hlen Hm. unfold print_member, json_string. rewrite !string_app_assoc. cbn [fst snd].
    set (u := escape html k +:+ dquote +:+ ":" +:+ print html v +:+ t). cbn [members dquote byte_string String.append skip_ws]. known_bytes.
    unfold u. rewrite read_string_back. set (u2 := print html v +:+ t) in *. cbn [String.append skip_ws]. known_bytes. unfold u2 in *.
    by rewrite Hr. }
  destruct l as [|p' l].
  - cbn [map join] in *. apply Hstep; [done| |done]. unfold print_member in Hf. rewrite !string_length_app in *. cbn in *. lia.
  - change (join "," (map (print_member html) ((k, v) :: p' :: l))) with
      (print_member html (k, v) +:+ "," +:+ join "," (map (print_member html) (p' :: l))) in *.
    rewrite !string_app_assoc in *. apply Hstep; [done| |].
    + unfold print_member in Hf at 1. rewrite !string_length_app in *. cbn [fst snd] in Hf. lia.
    + set (t := join "," (map (print_member html) (p' :: l)) +:+ "}" +:+ rest) in *. cbn -[members map]. known_bytes. unfold t in *.
      rewrite (IH fuel); [done| |done|done|].
      * intros w Hin. apply Hl. by right.
      * rewrite !string_length_app in *. cbn [String.length] in *. lia.
Qed.

Lemma value_print html v : reads_back html v.
Proof.
  induction v as [|b|n|s|l IH|l IH] using json_ind'; intros depth rest fuel Hw Hs Hf;
    (destruct fuel as [|fuel]; [lia|]); cbn [value print clean well_formed] in *.
  - done.
  - by destruct b.
  - assert (starts_value (n +:+ rest) = true) as Hst by (by apply (print_starts html depth (JNumber n))).
    rewrite skip_ws_value by done. apply bool_decide_eq_true in Hw as Hn. apply number_head in Hn as (a & r & -> & Ha).
    cbn [String.append]. change (String a (r +:+ rest)) with (String a r +:+ rest). rewrite (literal_number (String a r) rest Hw Hs).
    assert (is_byte a 123 = false ∧ is_byte a 91 = false ∧ is_byte a 34 = false) as (-> & -> & ->); [|done].
    unfold is_byte, is_digit, between in *. lia.
  - unfold json_string. rewrite !string_app_assoc. set (u := escape html s +:+ dquote +:+ rest).
    cbn [dquote byte_string String.append skip_ws]. known_bytes. unfold u. by rewrite read_string_back.
  - apply andb_true_iff in Hw as [Hd Hw]. rewrite !string_app_assoc in *. set (u := join "," (map (print html) l) +:+ "]" +:+ rest) in *.
    cbn [String.append skip_ws]. known_bytes. rewrite (proj2 (Z.ltb_ge _ _)) by (by apply Z.leb_le). destruct l as [|v l]; [done|].
    assert (starts_value u = true) as Hst.
    { unfold u. cbn [forallb] in Hw. apply andb_true_iff in Hw as [Hv _]. destruct l as [|v' l]; [by apply (print_starts html (depth + 1))|].
      change (join "," (map (print html) (v :: v' :: l))) with (print html v +:+ "," +:+ join "," (map (print html) (v' :: l))).
      rewrite string_app_assoc. by apply (print_starts html (depth + 1)). }
    rewrite skip_ws_value by done. destruct u as [|b r] eqn:E; [done|]. rewrite (starts_value_not _ b r 93 Hst); [|done|by left].
    rewrite <- E. unfold u. rewrite elements_read_back; [done|done|done|done|]. fold u. rewrite E. cbn [String.append String.length] in *. lia.
  - apply andb_true_iff in Hw as [Hd Hw]. rewrite !string_app_assoc in *.
    change (λ p : string * json, json_string html p.1 +:+ ":" +:+ print html p.2) with (print_member html) in *. set (u := join "," (map (print_member html) l) +:+ "}" +:+ rest) in *.
    cbn [String.append skip_ws]. known_bytes. rewrite (proj2 (Z.ltb_ge _ _)) by (by apply Z.leb_le). destruct l as [|p l]; [done|].
    assert (∃ r, u = dquote +:+ r) as [r E].
    { unfold u. destruct l as [|p' l]; [by eexists|].
      change (join "," (map (print_member html) (p :: p' :: l))) with (print_member html p +:+ "," +:+ join "," (map (print_member html) (p' :: l))).
      by eexists. }
    assert (members fuel (depth + 1) u = Some (map (λ p, (replace_invalid p.1, clean p.2)) (p :: l), rest)) as Hm.
    { apply members_read_back; [done|done|done|]. fold u. cbn [String.append String.length] in Hf. lia. }
    rewrite E in *. cbn [dquote byte_string String.append skip_ws] in *. known_bytes. by rewrite Hm.
Qed.

Lemma read_value_print html v rest : well_formed 0 v = true → stops rest = true → read_value (print html v +:+ rest) = Some (clean v, rest).
Proof. intros. unfold read_value, fuel_for. apply value_print; [done|done|lia]. Qed.

(** A value that was written is the value that is read, up to invalid UTF-8 in its strings. *)
Lemma parse_print html v : well_formed 0 v = true → parse (print html v) = Some (clean v).
Proof. intros H. unfold parse. pose proof (read_value_print html v "" H eq_refl) as Hr. rewrite string_app_nil_r in Hr. by rewrite Hr. Qed.

(** No text is refused for want of fuel. *)
Lemma read_value_fuel s fuel : (fuel_for s <= fuel)%nat → read_value s = value fuel 0 s.
Proof. unfold read_value, fuel_for. intros H. apply (value_fuel _ fuel 0 s); lia. Qed.

(** ** Valid UTF-8 *)
Definition valid_utf8 (s : string) : bool := bool_decide (replace_invalid s = s).
Definition ascii_text (s : string) : bool := forallb (λ a, code a <? 128) (String.list_ascii_of_string s).
Lemma ascii_valid s : ascii_text s = true → replace_invalid s = s.
Proof.
  unfold ascii_text, replace_invalid. induction s as [|a s IH]; [done|]. cbn. intros [Ha Hs]%andb_true_iff.
  rewrite ascii_rune by done. cbn. f_equal. by apply IH.
Qed.

Fixpoint all_valid (v : json) : bool :=
  match v with
  | JString s => valid_utf8 s
  | JArray l => forallb all_valid l
  | JObject l => forallb (λ p, valid_utf8 p.1 && all_valid p.2) l
  | _ => true
  end.
Lemma clean_valid v : all_valid v = true → clean v = v.
Proof.
  induction v as [|b|n|s|l IH|l IH] using json_ind'; cbn [all_valid clean]; try done.
  - intros H%bool_decide_eq_true. by rewrite H.
  - intros H. f_equal. induction l as [|v l IHl]; [done|]. cbn in H |- *. apply andb_true_iff in H as [Hv H].
    rewrite IH by (done || left). f_equal. apply IHl; [|done]. intros w Hw. apply IH. by right.
  - intros H. f_equal. induction l as [|[k v] l IHl]; [done|]. cbn in H |- *. apply andb_true_iff in H as [[Hk%bool_decide_eq_true Hv]%andb_true_iff H].
    cbn in Hk, Hv. rewrite Hk. assert (clean v = v) as -> by (apply (IH (k, v)); [left|done]). f_equal. apply IHl; [|done]. intros w Hw. apply IH. by right.
Qed.

(** ** Members with their raw text ([json.RawMessage]) *)
Definition raw : Type := json * string.
Definition raw_text (s rest : string) : string := string_take (String.length s - String.length rest) s.

Fixpoint raw_members (fuel : nat) (s : string) : list (string * raw) :=
  match fuel, skip_ws s with
  | S fuel, String q r =>
      if negb (is_byte q 34) then [] else
      match read_string r with
      | Some (k, t) =>
          match skip_ws t with
          | String c r =>
              let u := skip_ws r in
              match read_value u with
              | Some (v, t) =>
                  (k, (v, raw_text u t)) ::
                  match skip_ws t with
                  | String b r => if is_byte b 44 then raw_members fuel r else []
                  | EmptyString => []
                  end
              | None => []
              end
          | EmptyString => []
          end
      | None => []
      end
  | _, _ => []
  end.

(** The members of a text that is an object. *)
Definition object_members (s : string) : option (list (string * raw)) :=
  match parse s with
  | Some (JObject []) => Some []
  | Some (JObject _) => Some (raw_members (String.length s) (string_drop 1 (skip_ws s)))
  | _ => None
  end.

(** ** Decoding into a struct: the members whose key is the field's name up to case, in order, each
    over what the one before left.  [None] is a type error. *)
Fixpoint fold_key (s : string) : string :=
  match s with
  | EmptyString => EmptyString
  | String a r =>
      match r with
      | String b r1 =>
          if is_byte a 197 && is_byte b 191 then "s" +:+ fold_key r1
          else match r1 with
               | String c r2 =>
                   if is_byte a 226 && is_byte b 132 && is_byte c 170 then "k" +:+ fold_key r2
                   else String (lower_ascii a) (fold_key r)
               | EmptyString => String (lower_ascii a) (fold_key r)
               end
      | EmptyString => String (lower_ascii a) (fold_key r)
      end
  end.

Definition occurrences {A} (name : string) (l : list (string * A)) : list A :=
  (filter (λ p, fold_key p.1 = fold_key name) l).*2.
Definition field {A B} (dec : B → A → option B) (zero : B) (name : string) (l : list (string * A)) : option B :=
  foldl (λ acc x, b ← acc; dec b x) (Some zero) (occurrences name l).

Definition dec_string (old : string) (v : json) : option string :=
  match v with JString s => Some s | JNull => Some old | _ => None end.
Definition dec_raw (old : option raw) (x : raw) : option (option raw) := Some (Some x).
Lemma raw_text_app a b : raw_text (a +:+ b) b = a.
Proof. unfold raw_text. rewrite string_length_app, Nat.add_sub. apply take_prefix_app. Qed.

Lemma raw_members_print html l rest fuel : forallb (λ p, well_formed 0 p.2) l = true → (length l <= fuel)%nat →
  raw_members fuel (join "," (map (print_member html) l) +:+ "}" +:+ rest) =
    map (λ p, (replace_invalid p.1, (clean p.2, print html p.2))) l.
Proof.
  revert fuel. induction l as [|[k v] l IH]; intros fuel Hw Hf; [by destruct fuel|]. destruct fuel as [|fuel]; [cbn in Hf; lia|].
  cbn [forallb snd] in Hw. apply andb_true_iff in Hw as [Hv Hw]. cbn [length] in Hf.
  assert (Hstep : ∀ t, stops t = true → raw_members (S fuel) (print_member html (k, v) +:+ t) =
    (replace_invalid k, (clean v, print html v)) ::
      match skip_ws t with String b r => if is_byte b 44 then raw_members fuel r else [] | EmptyString => [] end).
  { intros t Ht. unfold print_member, json_string. rewrite !string_app_assoc. cbn [fst snd].
    set (u := escape html k +:+ dquote +:+ ":" +:+ print html v +:+ t). cbn [raw_members dquote byte_string String.append skip_ws]. known_bytes.
    unfold u. rewrite read_string_back. set (u2 := print html v +:+ t) in *. cbn [String.append skip_ws]. known_bytes. unfold u2 in *.
    rewrite skip_ws_value by (by apply (print_starts html 0)). rewrite read_value_print by done. by rewrite raw_text_app. }
  destruct l as [|p' l]; [by apply Hstep|].
  change (join "," (map (print_member html) ((k, v) :: p' :: l))) with
    (print_member html (k, v) +:+ "," +:+ join "," (map (print_member html) (p' :: l))).
  rewrite !string_app_assoc. rewrite Hstep by done. set (t := join "," (map (print_member html) (p' :: l)) +:+ "}" +:+ rest).
  cbn [String.append skip_ws]. known_bytes. unfold t. cbn [map]. f_equal. apply IH; [done|lia].
Qed.

Lemma well_formed_less v : ∀ d d', well_formed d v = true → d' <= d → well_formed d' v = true.
Proof.
  induction v as [|b|n|s|l IH|l IH] using json_ind'; intros d d'; cbn [well_formed]; try done; intros [Hd H]%andb_true_iff Hdd;
    (apply andb_true_iff; split; [lia|]); rewrite forallb_forall in *; intros x Hx; (apply (IH x) with (d + 1); [by apply list_elem_of_In|by eauto|lia]).
Qed.

Lemma length_join_members html l : (length l <= String.length (join "," (map (print_member html) l)))%nat.
Proof.
  induction l as [|p l IH]; [done|]. cbn [map]. assert (1 <= String.length (print_member html p))%nat by (unfold print_member, json_string; rewrite !string_length_app; cbn; lia).
  destruct l as [|p' l]; [done|]. change (map (print_member html) (p' :: l)) with (map (print_member html) (p' :: l)) in IH.
  change (join "," (print_member html p :: map (print_member html) (p' :: l))) with (print_member html p +:+ "," +:+ join "," (map (print_member html) (p' :: l))).
  rewrite !string_length_app. cbn [length String.length] in *. lia.
Qed.

(** The members of an object that was written. *)
Lemma object_members_print html l : well_formed 0 (JObject l) = true →
  object_members (print html (JObject l)) = Some (map (λ p, (replace_invalid p.1, (clean p.2, print html p.2))) l).
Proof.
  intros H. unfold object_members. rewrite parse_print by done. cbn [clean]. destruct l as [|p l]; [done|]. cbn [map]. f_equal.
  cbn [print]. change (λ p : string * json, json_string html p.1 +:+ ":" +:+ print html p.2) with (print_member html).
  set (t := join "," (map (print_member html) (p :: l)) +:+ "}"). cbn [String.append skip_ws String.length]. known_bytes. cbn [string_drop].
  change (join _ _ +:+ "}") with t. unfold t at 2. rewrite <- (string_app_nil_r "}").
  cbn [well_formed] in H. apply andb_true_iff in H as [_ H]. apply raw_members_print.
  - rewrite forallb_forall in *. intros x Hx. apply (well_formed_less _ 1); [by apply H|lia].
  - pose proof (length_join_members html (p :: l)). unfold t. rewrite string_length_app. lia.
Qed.
