(* ===== verification/Rfc3339.v ===== *)
(** The text of a [time.Time] in JSON: RFC 3339 with nanoseconds, written with [Format] and read with the strict
    [Parse] of [Time.UnmarshalJSON].  A time is an instant and the offset of its zone. *)

From stdpp Require Import base tactics list strings.
From Stdlib Require Import ZArith Lia.
From S2P Require Import Prelude Truncate Json.

Local Open Scope Z_scope.

(** ** Dates of the proleptic Gregorian calendar, by the day from January 1, year 1 *)
Definition month_of (doy : Z) : Z := let mp := (5 * doy + 2) / 153 in if mp <? 10 then mp + 3 else mp - 9.
Definition day_of (doy : Z) : Z := doy - (153 * ((5 * doy + 2) / 153) + 2) / 5 + 1.
(** Years begin in March: centuries of an era, then four years, then years. *)
Definition civil_of_days (days : Z) : Z * Z * Z :=
  let z := days + 306 in
  let c := Z.min 3 (z mod 146097 / 36524) in
  let r := z mod 146097 - c * 36524 in
  let y := Z.min 3 (r mod 1461 / 365) in
  let doy := r mod 1461 - y * 365 in
  (z / 146097 * 400 + c * 100 + r / 1461 * 4 + y + (if month_of doy <=? 2 then 1 else 0), month_of doy, day_of doy).
Definition days_of_civil (y m d : Z) : Z :=
  let y := y - (if m <=? 2 then 1 else 0) in
  let yoe := y mod 400 in
  let doy := (153 * ((m + 9) mod 12) + 2) / 5 + d - 1 in
  y / 400 * 146097 + (yoe * 365 + yoe / 4 - yoe / 100 + doy) - 306.
Definition leap (y : Z) : bool := (y mod 4 =? 0) && (negb (y mod 100 =? 0) || (y mod 400 =? 0)).
Definition days_in (y m : Z) : Z :=
  if m =? 2 then if leap y then 29 else 28
  else if (m =? 4) || (m =? 6) || (m =? 9) || (m =? 11) then 30 else 31.
Definition valid_date (y m d : Z) : bool := between 1 12 m && between 1 (days_in y m) d.

(** ** Times *)
Record Stamp := { instant : time; offset : Z (* minutes east of UTC *) }.
Definition minute_ns : Z := 60 * 1000000000.
Definition day_ns : Z := 1440 * minute_ns.
Definition local_ns (t : Stamp) : Z := instant t + offset t * minute_ns.
Definition year (t : Stamp) : Z := (civil_of_days (local_ns t / day_ns)).1.1.
(** What [MarshalJSON] accepts. *)
Definition writable (t : Stamp) : bool := between 0 9999 (year t) && between (-1439) 1439 (offset t).

(** ** Writing *)
Definition digit (z : Z) : string := one (of_code (48 + z)).
Definition two (z : Z) : string := digit (z / 10) +:+ digit (z mod 10).
Definition four (z : Z) : string := two (z / 100) +:+ two (z mod 100).
(** [k] digits without the zeros at the end. *)
Fixpoint trimmed (k : nat) (n : Z) : string :=
  match k with
  | O => ""
  | S k => if n =? 0 then "" else digit (n / 10 ^ Z.of_nat k) +:+ trimmed k (n mod 10 ^ Z.of_nat k)
  end.
Definition zone_text (off : Z) : string :=
  if off =? 0 then "Z"
  else (if off <? 0 then "-" else "+") +:+ two (Z.abs off / 60) +:+ ":" +:+ two (Z.abs off mod 60).
Definition format_rfc3339 (t : Stamp) : string :=
  let '(y, m, d) := civil_of_days (local_ns t / day_ns) in
  let n := local_ns t mod day_ns in
  let s := n / 1000000000 in
  four y +:+ "-" +:+ two m +:+ "-" +:+ two d +:+ "T" +:+
  two (s / 3600) +:+ ":" +:+ two (s / 60 mod 60) +:+ ":" +:+ two (s mod 60) +:+
  (if n mod 1000000000 =? 0 then "" else "." +:+ trimmed 9 (n mod 1000000000)) +:+ zone_text (offset t).

(** ** Reading *)
Definition read_digit (s : string) : option (Z * string) :=
  match s with String a r => if is_digit a then Some (code a - 48, r) else None | EmptyString => None end.
Definition read_two (s : string) : option (Z * string) :=
  '(a, s) ← read_digit s; '(b, s) ← read_digit s; Some (10 * a + b, s).
Definition read_four (s : string) : option (Z * string) :=
  '(a, s) ← read_two s; '(b, s) ← read_two s; Some (100 * a + b, s).
Definition read_byte (n : Z) (s : string) : option string :=
  match s with String a r => if is_byte a n then Some r else None | EmptyString => None end.
(** Digits after the ninth are dropped. *)
Fixpoint read_trimmed (k : nat) (s : string) : Z * string :=
  match s with
  | String a r =>
      if is_digit a then
        match k with
        | O => read_trimmed 0 r
        | S k => let '(v, t) := read_trimmed k r in ((code a - 48) * 10 ^ Z.of_nat k + v, t)
        end
      else (0, s)
  | EmptyString => (0, "")
  end.
Definition read_fraction (s : string) : option (Z * string) :=
  match read_byte 46 s with
  | Some r => _ ← read_digit r; Some (read_trimmed 9 r)
  | None => Some (0, s)
  end.
Definition read_zone (s : string) : option Z :=
  match s with
  | String a r =>
      if is_byte a 90 then if bool_decide (r = "") then Some 0 else None
      else if is_byte a 43 || is_byte a 45 then
        '(h, r) ← read_two r; r ← read_byte 58 r; '(m, r) ← read_two r;
        if bool_decide (r = "") && (h <? 24) && (m <? 60) then Some (if is_byte a 45 then - (60 * h + m) else 60 * h + m) else None
      else None
  | EmptyString => None
  end.
Definition parse_rfc3339 (s : string) : option Stamp :=
  '(y, s) ← read_four s; s ← read_byte 45 s; '(m, s) ← read_two s; s ← read_byte 45 s; '(d, s) ← read_two s;
  s ← read_byte 84 s; '(h, s) ← read_two s; s ← read_byte 58 s; '(mi, s) ← read_two s; s ← read_byte 58 s; '(sec, s) ← read_two s;
  '(ns, s) ← read_fraction s; off ← read_zone s;
  if valid_date y m d && (h <? 24) && (mi <? 60) && (sec <? 60) then
    Some {| instant := days_of_civil y m d * day_ns + (h * 3600 + mi * 60 + sec) * 1000000000 + ns - off * minute_ns; offset := off |}
  else None.

Definition time_json (t : Stamp) : json := JString (format_rfc3339 t).
Definition dec_stamp (old : Stamp) (v : json) : option Stamp :=
  match v with JString s => parse_rfc3339 s | JNull => Some old | _ => None end.
(** The zero [time.Time]: January 1, year 1. *)
Definition zero_stamp : Stamp := {| instant := time_zero; offset := 0 |}.
Definition unix_epoch : time := 62135596800 * 1000000000.

Example an_instant : format_rfc3339 {| instant := unix_epoch + 1700000000123000000; offset := 120 |} = "2023-11-15T00:13:20.123+02:00" ∧
  format_rfc3339 zero_stamp = "0001-01-01T00:00:00Z" ∧
  parse_rfc3339 "2024-02-29T23:59:59.9999999999-08:00" = Some {| instant := unix_epoch + 1709279999999999999; offset := -480 |} ∧
  parse_rfc3339 "2023-02-29T00:00:00Z" = None ∧ parse_rfc3339 "2023-02-28T24:00:00Z" = None.
Proof. vm_compute. done. Qed.

(** ** Every day is the day of its date *)
(** The days of a year that begins in March. *)
Definition doy_ok (doy : Z) : bool :=
  let m := month_of doy in let d := day_of doy in
  ((153 * ((m + 9) mod 12) + 2) / 5 + d - 1 =? doy) && between 1 12 m &&
  between 1 (days_in 1 m + (if doy =? 365 then 1 else 0)) d && (if doy =? 365 then m =? 2 else true).
Lemma days_of_year : forallb doy_ok (seqZ 0 366) = true.
Proof. vm_compute. reflexivity. Qed.
Lemma doy_is_ok doy : 0 <= doy < 366 → doy_ok doy = true.
Proof. intros H. pose proof days_of_year as E. rewrite forallb_forall in E. apply E, list_elem_of_In, elem_of_seqZ. lia. Qed.

Lemma days_in_grows y m : days_in 1 m <= days_in y m.
Proof. unfold days_in. change (leap 1) with false. repeat case_match; lia. Qed.

Ltac div_lia := Zify.zify; Z.to_euclidean_division_equations; lia.
Lemma civil_is_a_date days : let '(y, m, d) := civil_of_days days in days_of_civil y m d = days ∧ valid_date y m d = true.
Proof.
  unfold civil_of_days. set (era := (days + 306) / 146097). set (doe := (days + 306) mod 146097).
  assert (Hdays : days = era * 146097 + doe - 306) by (pose proof (Z.div_mod (days + 306) 146097 ltac:(lia)); unfold era, doe; lia).
  assert (Hdoe : 0 <= doe < 146097) by (by apply Z.mod_pos_bound). clearbody era doe.
  set (c := Z.min 3 (doe / 36524)). set (r := doe - c * 36524). set (q := r / 1461). set (y := Z.min 3 (r mod 1461 / 365)).
  set (doy := r mod 1461 - y * 365).
  assert (Hc : 0 <= c <= 3 ∧ 0 <= r <= 36524 ∧ (r = 36524 → c = 3)) by (unfold r, c; div_lia).
  assert (Hq : 0 <= q <= 24 ∧ r mod 1461 = r - q * 1461 ∧ 0 <= r - q * 1461 < 1461) by (unfold q; div_lia).
  assert (Hy : 0 <= y <= 3 ∧ 0 <= doy <= 365 ∧ (doy = 365 → y = 3 ∧ (q = 24 → c = 3))) by (unfold doy, y in *; div_lia).
  assert (Hsum : doe = c * 36524 + q * 1461 + y * 365 + doy) by (unfold doy, r in *; lia). clearbody c r q y doy.
  pose proof (doy_is_ok doy ltac:(lia)) as Hd. unfold doy_ok in Hd.
  set (m := month_of doy) in *. set (d := day_of doy) in *. clearbody m d.
  apply andb_true_iff in Hd as [[[Hdoy%Z.eqb_eq Hm]%andb_true_iff Hday]%andb_true_iff H365].
  set (j := if m <=? 2 then 1 else 0). set (yy := era * 400 + c * 100 + q * 4 + y). split.
  - unfold days_of_civil. fold j. replace (yy + j - j) with yy by lia. rewrite Z.add_sub_assoc in *. unfold yy. div_lia.
  - unfold valid_date. rewrite Hm. cbn. unfold between in Hday |- *. pose proof (days_in_grows (yy + j) m).
    destruct (doy =? 365) eqn:E; [|lia]. apply Z.eqb_eq in E, H365. subst m. unfold days_in in *. cbn in *.
    destruct (proj2 (proj2 Hy) E) as [-> Hc3].
    change (leap 1) with false in *. cbv iota in *. assert (leap (yy + 1) = true) as ->; [|lia]. unfold leap, yy. div_lia.
Qed.

(** ** A time that was written is read back *)
Lemma read_digit_back z s : 0 <= z < 10 → read_digit (digit z +:+ s) = Some (z, s).
Proof.
  intros H. unfold digit, one. cbn [String.append read_digit]. unfold is_digit, between. rewrite code_of_code by lia.
  replace ((48 <=? 48 + z) && (48 + z <=? 57)) with true by lia. do 2 f_equal. lia.
Qed.
Lemma read_two_back z s : 0 <= z < 100 → read_two (two z +:+ s) = Some (z, s).
Proof.
  intros H. unfold read_two, two. rewrite string_app_assoc, !read_digit_back by div_lia. cbn [mbind option_bind]. rewrite read_digit_back by div_lia.
  cbn [mbind option_bind]. do 2 f_equal. div_lia.
Qed.
Lemma read_four_back z s : 0 <= z < 10000 → read_four (four z +:+ s) = Some (z, s).
Proof.
  intros H. unfold read_four, four. rewrite string_app_assoc, !read_two_back by div_lia. cbn [mbind option_bind]. rewrite read_two_back by div_lia.
  cbn [mbind option_bind]. do 2 f_equal. div_lia.
Qed.
Lemma read_byte_back b s : read_byte (code b) (one b +:+ s) = Some s.
Proof. cbn. unfold is_byte. by rewrite Z.eqb_refl. Qed.

Definition no_digit (s : string) : bool := match s with String a _ => negb (is_digit a) | EmptyString => true end.
Lemma read_trimmed_back k : ∀ n s, 0 <= n < 10 ^ Z.of_nat k → no_digit s = true → read_trimmed k (trimmed k n +:+ s) = (n, s).
Proof.
  assert (Hstop : ∀ k s, no_digit s = true → read_trimmed k s = (0, s)).
  { intros j [|a s]; cbn; [done|]. intros H%negb_true_iff. by rewrite H. }
  induction k as [|k IH]; intros n s Hn Hs.
  - cbn in Hn. cbn [trimmed String.append]. rewrite Hstop by done. f_equal. lia.
  - cbn [trimmed]. destruct (n =? 0) eqn:E; [rewrite Hstop by done; f_equal; lia|].
    rewrite Nat2Z.inj_succ, Z.pow_succ_r in Hn by lia. set (b := 10 ^ Z.of_nat k) in *. assert (0 < b) by (apply Z.pow_pos_nonneg; lia).
    pose proof (Z.div_mod n b ltac:(lia)). pose proof (Z.mod_pos_bound n b ltac:(lia)).
    assert (0 <= n / b < 10) by (split; [apply Z.div_pos; lia|apply Z.div_lt_upper_bound; lia]).
    unfold digit, one. cbn [String.append read_trimmed]. unfold is_digit, between. rewrite code_of_code by lia.
    replace ((48 <=? 48 + n / b) && (48 + n / b <=? 57)) with true by lia. rewrite IH by done. fold b. f_equal. lia.
Qed.
Lemma read_zone_back off : between (-1439) 1439 off = true → read_zone (zone_text off) = Some off.
Proof.
  unfold between, zone_text. intros H. destruct (off =? 0) eqn:E; [apply Z.eqb_eq in E; by subst|].
  assert (Hr : ∀ b, is_byte b 90 = false → is_byte b 43 || is_byte b 45 = true →
    read_zone (String b (two (Z.abs off / 60) +:+ ":" +:+ two (Z.abs off mod 60))) = Some (if is_byte b 45 then - Z.abs off else Z.abs off)).
  { intros b H1 H2. cbn [read_zone]. rewrite H1, H2, read_two_back by div_lia. cbn [mbind option_bind].
    change (read_byte 58 (":" +:+ ?s)) with (Some s). cbn [mbind option_bind]. rewrite <- (string_app_nil_r (two (Z.abs off mod 60))), read_two_back by div_lia.
    cbn [mbind option_bind]. rewrite (proj2 (Z.ltb_lt (Z.abs off / 60) 24)) by div_lia. rewrite (proj2 (Z.ltb_lt (Z.abs off mod 60) 60)) by div_lia.
    cbn. f_equal. destruct (is_byte b 45); div_lia. }
  destruct (off <? 0) eqn:E2; cbn [String.append]; rewrite Hr by done; f_equal; [change (is_byte _ 45) with true|change (is_byte _ 45) with false]; cbv iota; lia.
Qed.
Lemma zone_stops off : no_digit (zone_text off) = true ∧ read_byte 46 (zone_text off) = None.
Proof. unfold zone_text. by destruct (off =? 0), (off <? 0). Qed.
Lemma read_fraction_back n off : 0 <= n < 1000000000 →
  read_fraction ((if n =? 0 then "" else "." +:+ trimmed 9 n) +:+ zone_text off) = Some (n, zone_text off).
Proof.
  intros Hn. destruct (zone_stops off) as [Hs Hp]. unfold read_fraction. destruct (n =? 0) eqn:E.
  - cbn [String.append]. rewrite Hp. do 2 f_equal. lia.
  - rewrite string_app_assoc. change (read_byte 46 ("." +:+ ?s)) with (Some s). cbv beta iota.
    assert (read_digit (trimmed 9 n +:+ zone_text off) = Some (n / 10 ^ 8, trimmed 8 (n mod 10 ^ 8) +:+ zone_text off)) as ->.
    { cbn [trimmed]. rewrite E, string_app_assoc. apply read_digit_back. div_lia. }
    cbn [mbind option_bind]. by rewrite read_trimmed_back.
Qed.

Lemma parse_format_rfc3339 t : writable t = true → parse_rfc3339 (format_rfc3339 t) = Some t.
Proof.
  intros [Hy Hoff]%andb_true_iff. unfold parse_rfc3339, format_rfc3339. unfold year in Hy.
  pose proof (civil_is_a_date (local_ns t / day_ns)) as Hd. destruct (civil_of_days _) as [[y m] d]. destruct Hd as [Hd Hv].
  assert (Hn : 0 <= local_ns t mod day_ns < day_ns) by (by apply Z.mod_pos_bound).
  pose proof (Z.div_mod (local_ns t) day_ns ltac:(done)) as Hsum. rewrite <- Hd in Hsum.
  set (n := local_ns t mod day_ns) in *. unfold day_ns, minute_ns in *. cbn in Hy. unfold between in Hy.
  assert (1 <= m <= 12 ∧ 1 <= d <= 31).
  { unfold valid_date, between, days_in in Hv. repeat case_match; lia. }
  set (s := n / 1000000000). assert (0 <= s < 86400) by (unfold s; div_lia).
  rewrite read_four_back by lia. cbn [mbind option_bind]. change (read_byte 45 ("-" +:+ ?s)) with (Some s).
  cbn [mbind option_bind]. rewrite read_two_back by lia. cbn [mbind option_bind]. change (read_byte 45 ("-" +:+ ?s)) with (Some s).
  cbn [mbind option_bind]. rewrite read_two_back by lia. cbn [mbind option_bind]. change (read_byte 84 ("T" +:+ ?s)) with (Some s).
  cbn [mbind option_bind]. rewrite read_two_back by div_lia. cbn [mbind option_bind]. change (read_byte 58 (":" +:+ ?s)) with (Some s).
  cbn [mbind option_bind]. rewrite read_two_back by div_lia. cbn [mbind option_bind]. change (read_byte 58 (":" +:+ ?s)) with (Some s).
  cbn [mbind option_bind]. rewrite read_two_back by div_lia. cbn [mbind option_bind].
  rewrite read_fraction_back by div_lia. cbn [mbind option_bind]. rewrite read_zone_back by done. cbn [mbind option_bind].
  rewrite Hv, (proj2 (Z.ltb_lt (s / 3600) 24)), (proj2 (Z.ltb_lt (s / 60 mod 60) 60)), (proj2 (Z.ltb_lt (s mod 60) 60)) by div_lia.
  cbn. destruct t as [i off]. unfold local_ns, minute_ns in *. cbn in Hsum |- *. do 2 f_equal. unfold s. clear Hv Hd. div_lia.
Qed.
