(* ===== verification/A2a.v ===== *)
(** The agent-to-agent protocol's data (src/_reference/a2a-go/a2a/core.go) and how its server folds
    the events of an execution into a task (internal/taskupdate): what the bridge and the gateway
    of this program speak.  The versions of the task store are left out. *)

From stdpp Require Import base tactics list gmap strings.
From Stdlib Require Import ZArith Lia.
From S2P Require Import Prelude Rfc3339.

Local Open Scope Z_scope.

(** ** JSON objects as maps: [map[string]any] *)
Definition object_map (l : list (string * json)) : gmap string json := foldl (λ m p, <[p.1 := p.2]> m) ∅ l.
Definition json_of_map (m : gmap string json) : json := JObject (map (λ k, (k, default JNull (m !! k))) (sorted_keys m)).
Definition as_string (v : option json) : string := match v with Some (JString s) => s | _ => "" end.
Definition as_map (v : option json) : option (gmap string json) :=
  match v with Some (JObject l) => Some (object_map l) | _ => None end.

(** ** Parts, messages, tasks (core.go) *)
Inductive PartContent := Text (s : string) | Raw (b : string) | Data (v : json) | URL (u : string).
Record Part := { p_Content : option PartContent; Filename : string; MediaType : string; p_Metadata : gmap string json }.

Definition NewTextPart (text : string) : Part := {| p_Content := Some (Text text); Filename := ""; MediaType := ""; p_Metadata := ∅ |}.
Definition NewRawPart (raw : string) : Part := {| p_Content := Some (Raw raw); Filename := ""; MediaType := ""; p_Metadata := ∅ |}.
Definition NewDataPart (v : json) : Part := {| p_Content := Some (Data v); Filename := ""; MediaType := ""; p_Metadata := ∅ |}.
Definition set_MediaType (t : string) (p : Part) : Part :=
  {| p_Content := p_Content p; Filename := Filename p; MediaType := t; p_Metadata := p_Metadata p |}.
Definition part_Text (p : Part) : string := match p_Content p with Some (Text s) => s | _ => "" end.
(** A nil [any] is [None]. *)
Definition part_Data (p : Part) : option json := match p_Content p with Some (Data JNull) => None | Some (Data v) => Some v | _ => None end.

Definition TaskID := string.
Record TaskInfo := { ti_TaskID : TaskID; ti_ContextID : string }.

Definition MessageRoleAgent : string := "ROLE_AGENT".
Definition MessageRoleUser : string := "ROLE_USER".
Record Message := {
  m_ID : string; m_ContextID : string; m_Extensions : list string; m_Metadata : gmap string json; m_Parts : list (option Part);
  ReferenceTasks : list TaskID; Role : string; m_TaskID : TaskID
}.

Definition TaskState := string.
Definition TaskStateUnspecified : TaskState := "".
Definition TaskStateAuthRequired : TaskState := "TASK_STATE_AUTH_REQUIRED".
Definition TaskStateCanceled : TaskState := "TASK_STATE_CANCELED".
Definition TaskStateCompleted : TaskState := "TASK_STATE_COMPLETED".
Definition TaskStateFailed : TaskState := "TASK_STATE_FAILED".
Definition TaskStateInputRequired : TaskState := "TASK_STATE_INPUT_REQUIRED".
Definition TaskStateRejected : TaskState := "TASK_STATE_REJECTED".
Definition TaskStateSubmitted : TaskState := "TASK_STATE_SUBMITTED".
Definition TaskStateWorking : TaskState := "TASK_STATE_WORKING".
Definition Terminal (ts : TaskState) : bool :=
  bool_decide (ts = TaskStateCompleted) || bool_decide (ts = TaskStateCanceled) ||
  bool_decide (ts = TaskStateFailed) || bool_decide (ts = TaskStateRejected).

Record TaskStatus := { s_Message : option Message; State : TaskState; s_Timestamp : option Stamp }.
Record Artifact := { a_ID : string; a_Description : string; a_Name : string; a_Extensions : list string;
  a_Metadata : gmap string json; a_Parts : list (option Part) }.
Record Task := {
  t_ID : TaskID; Artifacts : list Artifact; t_ContextID : string; History : list (option Message); t_Metadata : gmap string json;
  Status : TaskStatus
}.
Record TaskArtifactUpdateEvent := {
  Append : bool; e_Artifact : Artifact; ae_ContextID : string; LastChunk : bool; ae_TaskID : TaskID; ae_Metadata : gmap string json
}.
Record TaskStatusUpdateEvent := { se_ContextID : string; se_Status : TaskStatus; se_TaskID : TaskID; se_Metadata : gmap string json }.

Inductive Event :=
| EMessage (m : Message) | ETask (t : Task) | EStatus (e : TaskStatusUpdateEvent) | EArtifact (e : TaskArtifactUpdateEvent).

(** What [SendMessage] answers: a task or a message. *)
Inductive SendMessageResult := RTask (t : Task) | RMessage (m : Message).

Section Constructors.
Context {W : Type}.
(** A random identifier. *)
Variable new_uuid : W → string * W.
(** [time.Now]. *)
Variable clock : W → Stamp.

Definition NewMessage (role : string) (parts : list Part) (w : W) : Message * W :=
  let '(id, w) := new_uuid w in
  ({| m_ID := id; m_ContextID := ""; m_Extensions := []; m_Metadata := ∅; m_Parts := map Some parts; ReferenceTasks := []; Role := role; m_TaskID := "" |}, w).

Definition NewMessageForTask (role : string) (info : TaskInfo) (parts : list Part) (w : W) : Message * W :=
  let '(id, w) := new_uuid w in
  ({| m_ID := id; m_ContextID := ti_ContextID info; m_Extensions := []; m_Metadata := ∅; m_Parts := map Some parts; ReferenceTasks := [];
      Role := role; m_TaskID := ti_TaskID info |}, w).

Definition NewStatusUpdateEvent (info : TaskInfo) (state : TaskState) (msg : option Message) (w : W) : TaskStatusUpdateEvent := {|
  se_ContextID := ti_ContextID info; se_TaskID := ti_TaskID info;
  se_Status := {| s_Message := msg; State := state; s_Timestamp := Some (clock w) |};
  se_Metadata := ∅ |}.

Definition NewArtifactEvent (info : TaskInfo) (parts : list (option Part)) (w : W) : TaskArtifactUpdateEvent * W :=
  let '(id, w) := new_uuid w in
  ({| Append := false; ae_ContextID := ti_ContextID info; ae_TaskID := ti_TaskID info; LastChunk := false; ae_Metadata := ∅;
      e_Artifact := {| a_ID := id; a_Description := ""; a_Name := ""; a_Extensions := []; a_Metadata := ∅; a_Parts := parts |} |}, w).

Definition NewSubmittedTask (info : TaskInfo) (initialMessage : option Message) (w : W) : Task * W :=
  let '(taskID, w) := if bool_decide (ti_TaskID info = "") then new_uuid w else (ti_TaskID info, w) in
  let '(contextID, w) := if bool_decide (ti_ContextID info = "") then new_uuid w else (ti_ContextID info, w) in
  ({| t_ID := taskID; t_ContextID := contextID; Status := {| s_Message := None; State := TaskStateSubmitted; s_Timestamp := None |};
      History := [initialMessage]; Artifacts := []; t_Metadata := ∅ |}, w).
End Constructors.

(** ** Folding events into the stored task (taskupdate/manager.go, final.go) *)
Definition invalid_response (text : string) : error :=
  ErrWrap text (ErrSentinel "a2a.ErrInvalidAgentResponse" "invalid agent response") "".

Definition event_info (e : Event) : TaskInfo :=
  match e with
  | EMessage m => {| ti_TaskID := m_TaskID m; ti_ContextID := m_ContextID m |}
  | ETask t => {| ti_TaskID := t_ID t; ti_ContextID := t_ContextID t |}
  | EStatus e => {| ti_TaskID := se_TaskID e; ti_ContextID := se_ContextID e |}
  | EArtifact e => {| ti_TaskID := ae_TaskID e; ti_ContextID := ae_ContextID e |}
  end.

Definition validate (info : TaskInfo) (e : Event) : option error :=
  let got := event_info e in
  if bool_decide (ti_TaskID info ≠ ti_TaskID got)
  then Some (Err ("task IDs don't match: " +:+ ti_TaskID got +:+ " != " +:+ ti_TaskID info))
  else if bool_decide (ti_ContextID info ≠ ti_ContextID got)
  then Some (Err ("context IDs don't match: " +:+ ti_ContextID got +:+ " != " +:+ ti_ContextID info))
  else None.

Definition set_Artifacts (l : list Artifact) (t : Task) : Task := {|
  t_ID := t_ID t; Artifacts := l; t_ContextID := t_ContextID t; History := History t; t_Metadata := t_Metadata t; Status := Status t |}.

(** The artifact with the identifier, replaced or extended. *)
Fixpoint update_artifact (append : bool) (a : Artifact) (l : list Artifact) : option (list Artifact) :=
  match l with
  | [] => None
  | b :: l =>
      if bool_decide (a_ID b = a_ID a) then
        Some ((if append then {| a_ID := a_ID b; a_Description := a_Description b; a_Name := a_Name b; a_Extensions := a_Extensions b;
                                a_Metadata := a_Metadata a ∪ a_Metadata b; a_Parts := a_Parts b ++ a_Parts a |} else a) :: l)
      else match update_artifact append a l with Some l => Some (b :: l) | None => None end
  end.

Definition updateArtifact (e : TaskArtifactUpdateEvent) (t : Task) : error + Task :=
  match update_artifact (Append e) (e_Artifact e) (Artifacts t) with
  | Some l => inr (set_Artifacts l t)
  | None => if Append e then inl (Err "no artifact found for update") else inr (set_Artifacts (Artifacts t ++ [e_Artifact e]) t)
  end.

Definition updateStatus (e : TaskStatusUpdateEvent) (t : Task) : Task := {|
  t_ID := t_ID t; Artifacts := Artifacts t; t_ContextID := t_ContextID t;
  History := match s_Message (Status t) with Some m => History t ++ [Some m] | None => History t end;
  t_Metadata := se_Metadata e ∪ t_Metadata t; Status := se_Status e |}.

(** The stored task after an event; a message is an answer of its own. *)
Definition Process (info : TaskInfo) (stored : option Task) (e : Event) : error + option Task :=
  match e, stored with
  | EMessage _, Some _ => inl (invalid_response "message not allowed after task was stored: ")
  | EMessage _, None => inr None
  | _, Some t =>
      if Terminal (State (Status t)) then inl (invalid_response (quote (State (Status t)) +:+ " task state updates are not allowed: ")) else
      match validate info e with
      | Some err => inl err
      | None =>
          match e with
          | ETask t' => inr (Some t')
          | EArtifact a =>
              match a_Parts (e_Artifact a) with
              | [] => inl (invalid_response "artifact cannot be empty: ")
              | _ => match updateArtifact a t with inl err => inl err | inr t => inr (Some t) end
              end
          | EStatus s => inr (Some (updateStatus s t))
          | EMessage _ => inr None
          end
      end
  | ETask t', None => match validate info e with Some err => inl err | None => inr (Some t') end
  | _, None => inl (invalid_response "first event must be a Task or a message: ")
  end.

Definition IsFinal (e : Event) : bool :=
  match e with
  | EMessage _ => true
  | EStatus e => Terminal (State (se_Status e)) || bool_decide (State (se_Status e) = TaskStateInputRequired)
  | ETask t => Terminal (State (Status t)) || bool_decide (State (Status t) = TaskStateInputRequired)
  | EArtifact _ => false
  end.

Definition SetTaskFailed (t : Task) : Task := {|
  t_ID := t_ID t; Artifacts := Artifacts t; t_ContextID := t_ContextID t; History := History t; t_Metadata := t_Metadata t;
  Status := {| s_Message := None; State := TaskStateFailed; s_Timestamp := None |} |}.

(** A non-streaming answer (a2asrv/agentexec.go, handler.go): events are processed until a final one; an event
    that is refused fails the stored task.  [ending] is what the task stored by then comes to when the events end. *)
Fixpoint fold_events (ending : option Task → error + SendMessageResult) (info : TaskInfo) (stored : option Task) (events : list Event) :
    error + SendMessageResult :=
  match events with
  | [] => ending stored
  | e :: events =>
      match Process info stored e with
      | inl err => match stored with
                   | Some t => inr (RTask (SetTaskFailed t))
                   | None => inl (ErrWrap "execution failed before a task was created: " err "")
                   end
      | inr stored' =>
          match e with
          | EMessage m => inr (RMessage m)
          | _ => if IsFinal e then match stored' with Some t => inr (RTask t) | None => inl (Err "") end
                 else fold_events ending info stored' events
          end
      end
  end.
Definition send_result (info : TaskInfo) (stored : option Task) (events : list Event) : error + SendMessageResult :=
  fold_events (λ stored, match stored with
    | Some t => inr (RTask t)
    | None => inl (invalid_response "execution finished without producing any events: ")
    end) info stored events.
(** The answer when the executor fails: the reader of the events is stopped after those it has processed, and a
    task stored by then fails ([processEvents], [ProcessError]); with none, the caller gets the executor's error. *)
Definition failed_result (err : error) (info : TaskInfo) (stored : option Task) (processed : list Event) : error + SendMessageResult :=
  fold_events (λ stored, match stored with Some t => inr (RTask (SetTaskFailed t)) | None => inl err end) info stored processed.

(** ** Skills and cards (agent.go) *)
Record AgentSkill := {
  sk_ID : string; sk_Name : string; sk_Description : string; InputModes : list string; OutputModes : list string;
  sk_Tags : list string; Examples : list string
}.
Definition zero_skill : AgentSkill := {|
  sk_ID := ""; sk_Name := ""; sk_Description := ""; InputModes := []; OutputModes := []; sk_Tags := []; Examples := [] |}.
Record AgentCard := {
  c_Name : string; c_Description : string; c_Version : string; Provider : option (string * string);
  Streaming : bool; PushNotifications : bool; DefaultInputModes : list string; DefaultOutputModes : list string;
  SupportedInterfaces : list string; Skills : list AgentSkill
}.

(** ** Lemmas *)
Lemma object_map_insert (l : list (string * json)) (m : gmap string json) :
  foldl (λ m p, <[p.1 := p.2]> m) m l = list_to_map (rev l) ∪ m.
Proof.
  revert m. induction l as [|[k v] l IH]; intros m; [symmetry; apply (left_id_L ∅ (∪))|]. cbn [foldl rev fst snd].
  rewrite IH, list_to_map_app, <- (assoc_L (∪)). f_equal. cbn. by rewrite insert_empty, insert_union_singleton_l.
Qed.

(** A map written as an object is read back. *)
Lemma object_map_of_map m : object_map (map (λ k, (k, default JNull (m !! k))) (sorted_keys m)) = m.
Proof.
  unfold object_map. rewrite object_map_insert. rewrite (right_id_L ∅ (∪)). apply map_eq. intros k.
  set (l := map _ _). assert (Hk : l.*1 = sorted_keys m) by (unfold l; rewrite <- list_fmap_compose; apply list_fmap_id).
  assert (Hnd : NoDup (rev l).*1) by (rewrite (fmap_Permutation fst _ l) by (symmetry; apply Permutation_rev); rewrite Hk; apply NoDup_sorted_keys).
  assert (Hl : ∀ k v, (k, v) ∈ rev l ↔ m !! k = Some v).
  { intros k' v. rewrite list_elem_of_In, <- in_rev. unfold l. rewrite in_map_iff. split.
    - intros (k2 & [= <- <-] & H). apply list_elem_of_In, elem_of_sorted_keys in H as [x H]. by rewrite H.
    - intros H. exists k'. rewrite H. split; [done|]. apply list_elem_of_In, elem_of_sorted_keys. by exists v. }
  destruct (m !! k) as [v|] eqn:E.
  - apply elem_of_list_to_map; [done|]. by apply Hl.
  - apply not_elem_of_list_to_map. intros H. apply list_elem_of_fmap in H as ([k' v] & -> & H). apply Hl in H. cbn in E. congruence.
Qed.
