(* ===== verification/Number.v ===== *)
(** What encoding/json decodes into an [any]: numbers as [float64]s, objects as maps.  A number literal is rounded
    to binary64 as strconv.ParseFloat does, and a [float64] is written with the fewest digits that read back as it
    (strconv.AppendFloat, in the form encoding/json chooses).  In a value that an [any] holds, a [float64] stands
    as the text it is written as and an object has its keys once and in order: [any_of] is the decoding, and [held]
    are the values it can give. *)

From stdpp Require Import base tactics list gmap strings.
From Stdlib Require Import ZArith Lia Floats.SpecFloat.
From S2P Require Import Prelude Truncate Json A2a.

Local Open Scope Z_scope.

(** ** A literal is a sign, an integer and a power of ten *)
Definition digits_value (s : string) : Z :=
  foldl (λ acc a, 10 * acc + (code a - 48)) 0 (String.list_ascii_of_string s).
Definition signed_value (s : string) : Z :=
  match s with
  | String a r => if is_byte a 45 then - digits_value r else if is_byte a 43 then digits_value r else digits_value s
  | EmptyString => 0
  end.
Definition decimal (n : string) : option (bool * Z * Z) :=
  let '(m, s) := minus_sign n in
  '(i, s) ← int_part s; '(f, s) ← fraction s; '(e, s) ← exponent s;
  if bool_decide (s = "") then
    let f := string_drop 1 f in
    Some (bool_decide (m = "-"), digits_value (i +:+ f), signed_value (string_drop 1 e) - Z.of_nat (String.length f))
  else None.

(** ** Rounding to binary64, to nearest and even *)
(** [num / den], with 64 bits before a last bit that tells whether anything is left. *)
Definition round_ratio (neg : bool) (num den : Z) : float64 :=
  let k := Z.max 0 (64 + Z.log2 den - Z.log2 num) in
  let q := num * 2 ^ k / den in
  let rest := num * 2 ^ k - q * den in
  let m := 2 * q + (if rest =? 0 then 0 else 1) in
  binary_normalize 53 1024 (if neg then - m else m) (- k - 1) neg.
(** The value of a decimal; 10^310 is out of range and 10^-330 rounds to zero. *)
Definition round_decimal (neg : bool) (d e : Z) : float64 :=
  let size := Z.of_nat (String.length (itoa d)) + e in
  if d =? 0 then S754_zero neg
  else if 310 <? size then S754_infinity neg
  else if size <? -330 then S754_zero neg
  else if 0 <=? e then round_ratio neg (d * 10 ^ e) 1 else round_ratio neg d (10 ^ (- e)).
(** [strconv.ParseFloat] on a literal: [None] is out of range. *)
Definition parse_float (n : string) : option float64 :=
  '(neg, d, e) ← decimal n;
  match round_decimal neg d e with S754_infinity _ => None | f => Some f end.

(** ** Writing a [float64] *)
Definition zeros (n : Z) : string := String.concat "" (repeat "0" (Z.to_nat n)).
(** [0.d1d2... * 10^p] as digits and a point, or with an exponent of ten. *)
Definition plain_decimal (ds : string) (p : Z) : string :=
  let n := Z.of_nat (String.length ds) in
  if p <=? 0 then "0." +:+ zeros (- p) +:+ ds
  else if n <=? p then ds +:+ zeros (p - n)
  else string_take (Z.to_nat p) ds +:+ "." +:+ string_drop (Z.to_nat p) ds.
Definition with_exponent (ds : string) (p : Z) : string :=
  let tail := string_drop 1 ds in
  string_take 1 ds +:+ (if bool_decide (tail = "") then "" else "." +:+ tail) +:+
  "e" +:+ (if p - 1 <? 0 then "-" else "+") +:+ itoa (Z.abs (p - 1)).
Definition write_decimal (ds : string) (p : Z) : string :=
  if (p <=? -6) || (22 <=? p) then with_exponent ds p else plain_decimal ds p.

(** The point of [num / den > 0]: 10^(p-1) <= num / den < 10^p. *)
Definition at_least_power (num den p : Z) : bool :=
  if 0 <=? p then den * 10 ^ p <=? num else den <=? num * 10 ^ (- p).
Definition point (num den : Z) : Z :=
  let p := (Z.log2 num - Z.log2 den) * 30103 / 100000 in
  if at_least_power num den (p + 1) then p + 2
  else if at_least_power num den p then p + 1
  else if at_least_power num den (p - 1) then p else p - 1.
(** The two numbers of [n] digits around it, the nearer one first. *)
Definition candidates (num den p : Z) (n : Z) : list Z :=
  let '(num, den) := if p - n <? 0 then (num * 10 ^ (n - p), den) else (num, den * 10 ^ (p - n)) in
  let d := num / den in
  if 2 * (num - d * den) <? den then [d; d + 1] else [d + 1; d].
Definition write_digits (neg : bool) (d p : Z) (n : Z) : string :=
  let ds := itoa d in
  (if neg then "-" else "") +:+ write_decimal (if n <? Z.of_nat (String.length ds) then string_take 1 ds else ds) (p + Z.of_nat (String.length ds) - n).

Fixpoint first_text (test : string → bool) (l : list string) : option string :=
  match l with [] => None | s :: l => if test s then Some s else first_text test l end.
#[export] Instance float64_eq_dec : EqDecision float64.
Proof. unfold float64. solve_decision. Defined.
(** Seventeen digits tell any two [float64]s apart. *)
Definition format_float (f : float64) : option string :=
  match f with
  | S754_zero neg => Some (if neg then "-0" else "0")
  | S754_finite neg m e =>
      let '(num, den) := if 0 <=? e then (Z.pos m * 2 ^ e, 1) else (Z.pos m, 2 ^ (- e)) in
      let p := point num den in
      first_text (λ s, bool_decide (parse_float s = Some f))
        (concat (map (λ n, map (λ d, write_digits neg d p n) (candidates num den p n)) (seqZ 1 17)))
  | _ => None
  end.

(** ** Decoding into [any] *)
(** The number a literal becomes; [None] is a literal out of range. *)
Definition renumber (n : string) : option string := parse_float n ≫= format_float.

Fixpoint any_of (v : json) : option json :=
  match v with
  | JNumber n => JNumber <$> renumber n
  | JArray l => JArray <$> mapM any_of l
  | JObject l => (json_of_map ∘ object_map) <$> mapM (λ p, (p.1,.) <$> any_of p.2) l
  | JNull | JBool _ | JString _ => Some v
  end.
(** A value an [any] can hold. *)
Definition held (v : json) : Prop := any_of v = Some v.
#[export] Instance held_dec v : Decision (held v) := _.
Definition held_map (m : gmap string json) : Prop := map_Forall (λ _, held) m.
#[export] Instance held_map_dec m : Decision (held_map m) := _.

(** [map[string]any]: null makes it nil, an object adds its members. *)
Definition any_members (l : list (string * json)) : option (list (string * json)) := mapM (λ p, (p.1,.) <$> any_of p.2) l.
Definition dec_map (old : option (gmap string json)) (v : json) : option (option (gmap string json)) :=
  match v with
  | JNull => Some None
  | JObject l => l ← any_members l; Some (Some (foldl (λ m p, <[p.1 := p.2]> m) (default ∅ old) l))
  | _ => None
  end.

(** ** Numbers as strconv reads and writes them *)
Example exact_tenth : parse_float "0.1" = Some (S754_finite false 7205759403792794 (-56)).
Proof. vm_compute. reflexivity. Qed.
Example tie_to_even : parse_float "9007199254740993" = parse_float "9007199254740992" ∧
  parse_float "9007199254740993.0000000000000000000000001" = parse_float "9007199254740994".
Proof. vm_compute. done. Qed.
Example extremes : renumber "4.9e-324" = Some "5e-324" ∧ renumber "2.4e-324" = Some "0" ∧
  renumber "1.7976931348623157e308" = Some "1.7976931348623157e+308" ∧ renumber "1.7976931348623159e308" = None ∧
  renumber "2.2250738585072011e-308" = Some "2.225073858507201e-308".
Proof. vm_compute. done. Qed.
Example forms : map renumber ["1.0"; "1e3"; "100000000000000000000"; "1000000000000000000000"; "0.000001"; "0.0000001"; "-0"; "0.30000000000000004"; "123456789.125"; "12345678901234567890"] =
  map Some ["1"; "1000"; "100000000000000000000"; "1e+21"; "0.000001"; "1e-7"; "-0"; "0.30000000000000004"; "123456789.125"; "12345678901234567000"].
Proof. vm_compute. reflexivity. Qed.

(** ** What the decoding gives, it gives again *)
Lemma first_text_test (test : string → bool) l s : first_text test l = Some s → test s = true.
Proof. induction l as [|t l IH]; [done|]. cbn. destruct (test t) eqn:E; [|done]. by intros [= <-]. Qed.
Lemma format_float_reads f s : format_float f = Some s → parse_float s = Some f.
Proof.
  destruct f as [neg|neg| |neg m e]; cbn [format_float]; [by intros [= <-]; destruct neg|done|done|].
  generalize (if 0 <=? e then (Z.pos m * 2 ^ e, 1) else (Z.pos m, 2 ^ (- e))). intros [num den]. intros H%first_text_test. by apply bool_decide_eq_true in H.
Qed.
Lemma renumber_again n m : renumber n = Some m → renumber m = Some m.
Proof.
  unfold renumber. destruct (parse_float n) as [f|]; [|done]. cbn [mbind option_bind]. intros H. by rewrite (format_float_reads f m H).
Qed.

Lemma mapM_held l : Forall held l → mapM any_of l = Some l.
Proof. induction 1 as [|v l Hv Hl IH]; [done|]. cbn. rewrite Hv. cbn. fold (mapM any_of l). by rewrite IH. Qed.
Lemma held_array l : Forall held l → held (JArray l).
Proof. intros H. unfold held. cbn [any_of]. by rewrite mapM_held. Qed.
Lemma any_members_held l : Forall (λ p, held p.2) l → any_members l = Some l.
Proof.
  unfold any_members. induction 1 as [|[k v] l Hv Hl IH]; [done|]. cbn [mapM]. cbn in Hv |- *. rewrite Hv. cbn.
  fold (mapM (λ p : string * json, (p.1,.) <$> any_of p.2) l). by rewrite IH.
Qed.

Lemma map_entries (m : gmap string json) : Forall (λ p, m !! p.1 = Some p.2) (map (λ k, (k, default JNull (m !! k))) (sorted_keys m)).
Proof.
  apply Forall_fmap, Forall_forall. intros k Hk. apply elem_of_sorted_keys in Hk as [v Hv]. cbn. by rewrite Hv.
Qed.
Lemma any_members_of_map m : held_map m →
  any_members (map (λ k, (k, default JNull (m !! k))) (sorted_keys m)) = Some (map (λ k, (k, default JNull (m !! k))) (sorted_keys m)).
Proof. intros H. apply any_members_held. eapply Forall_impl; [apply map_entries|]. intros p Hp. by apply (H p.1). Qed.
Lemma held_of_map m : held_map m → held (json_of_map m).
Proof.
  intros H. unfold held, json_of_map. cbn [any_of]. fold (any_members (map (λ k, (k, default JNull (m !! k))) (sorted_keys m))).
  rewrite any_members_of_map by done. cbn. by rewrite object_map_of_map.
Qed.
Lemma dec_map_of_map m : held_map m → dec_map (Some ∅) (json_of_map m) = Some (Some m) ∧ dec_map None (json_of_map m) = Some (Some m).
Proof.
  intros H. unfold dec_map, json_of_map. rewrite any_members_of_map by done. cbn [mbind option_bind default].
  split; apply (f_equal (λ m, Some (Some m))), object_map_of_map.
Qed.

Lemma object_map_in l k v : object_map l !! k = Some v → (k, v) ∈ l.
Proof.
  unfold object_map. rewrite object_map_insert, (right_id_L ∅ (∪)). intros H%elem_of_list_to_map_2.
  by rewrite list_elem_of_In, <- in_rev, <- list_elem_of_In in H.
Qed.
Lemma any_of_held v w : any_of v = Some w → held w.
Proof.
  revert w. induction v as [|b|n|s|l IH|l IH] using json_ind'; intros w; cbn [any_of]; try by intros [= <-].
  - destruct (renumber n) as [m|] eqn:E; [|done]. cbn. intros [= <-]. unfold held. cbn. by rewrite (renumber_again n m E).
  - destruct (mapM any_of l) as [l'|] eqn:E; [|done]. cbn. intros [= <-]. apply held_array.
    apply mapM_Some in E. apply Forall_forall. intros w Hw. apply list_elem_of_lookup in Hw as [i Hw].
    destruct (Forall2_lookup_r _ _ _ _ _ E Hw) as (v & Hv & Hvw). apply (IH v); [|done]. by eapply list_elem_of_lookup_2.
  - destruct (mapM _ l) as [l'|] eqn:E; [|done]. cbn. intros [= <-]. apply held_of_map. intros k w Hw%object_map_in.
    apply mapM_Some in E. apply list_elem_of_lookup in Hw as [i Hw].
    destruct (Forall2_lookup_r _ _ _ _ _ E Hw) as (p & Hp & Hpw). destruct (any_of p.2) as [x|] eqn:Ex; [|done]. injection Hpw as _ ->.
    eapply (IH p); [by eapply list_elem_of_lookup_2|done].
Qed.
(** What a map decoded into [map[string]any] holds. *)
Lemma dec_map_held old v m : default ∅ old = ∅ → dec_map old v = Some (Some m) → held_map m.
Proof.
  intros Ho. destruct v as [| | | | |l]; try done. cbn. rewrite Ho. destruct (any_members l) as [l'|] eqn:E; [|done].
  cbn. intros [= <-] k w Hw. unfold any_members in E. apply (object_map_in l') in Hw. apply mapM_Some in E. apply list_elem_of_lookup in Hw as [i Hw].
  destruct (Forall2_lookup_r _ _ _ _ _ E Hw) as (p & Hp & Hpw). destruct (any_of p.2) as [x|] eqn:Ex; [|done]. injection Hpw as _ ->.
  by eapply any_of_held.
Qed.
