(* ===== verification/Bridge.v ===== *)
(** The bridge between MCP tools and A2A agents (src/bridge/a2a): the translator, the executor
    that serves a registry's tools as tasks, progress as status events, authentication, the agent
    card, and remote agents as tool modules.  The client and the server's event loop are those of
    A2a.v. *)

From stdpp Require Import base tactics list gmap strings pretty sorting.
From Stdlib Require Import ZArith Lia SpecFloat.
From S2P Require Import Prelude Json Rfc3339 Tool Truncate Registry.
From S2P Require LoopGuards Paging.
From S2P Require Import A2a Number.

Local Open Scope Z_scope.

(** A call as a handler sees it. *)
Record CallToolRequest := { Params_Name : string; Arguments : option (gmap string json) }.
Definition NewCallToolRequest (name : string) (args : option (gmap string json)) : CallToolRequest :=
  {| Params_Name := name; Arguments := args |}.
Definition BuildCallToolRequest : string → option (gmap string json) → CallToolRequest := NewCallToolRequest.

(** The codes of src/handler/result.go used here. *)
Definition ErrPermission : string := "PERMISSION_DENIED".
Definition ErrInternal : string := "INTERNAL".

Section Bridge.
Context {Ctx W Y : Type}.
Variable ctx_err : Ctx → option error.
Variable with_timeout : Ctx → duration → Ctx.
Variable new_uuid : W → string * W.
Variable clock : W → Stamp.
(** The SDK's content blocks other than text: an image's bytes and type, an embedded resource, and
    the block as JSON. *)
Variable extract_image : string → option (string * string).
Variable extract_resource : string → option json.
Variable content_json : string → json.

Notation ToolHandler := (ToolHandlerFunc Ctx CallToolRequest W).
Notation TD := (ToolDefinition ToolHandler).

(** ** The translator (translator.go) *)
Record Translator := { SkillTags : list string }.

Definition marshalInputSchema (schema : Schema) : string :=
  print true (json_of_map (
    (if bool_decide (sch_Type schema = "") then id else <["type" := JString (sch_Type schema)]>)
    ((if bool_decide (sch_Properties schema = ∅) then id else <["properties" := json_of_map (sch_Properties schema)]>)
    (match sch_Required schema with [] => id | l => <["required" := JArray (map JString l)]> end
    (match sch_Additional schema with None => id | Some v => <["additionalProperties" := v]> end
    (<["type" := JString "object"]> ∅)))))).

Definition skill_tags (t : Translator) (td : TD) : list string :=
  (if bool_decide (Category td = "") then [] else [Category td]) ++ Tags td ++
  [if IsWrite td then "write" else "read"] ++ SkillTags t.

Definition ToolToSkill (t : Translator) (td : TD) : AgentSkill := {|
  sk_ID := Name (td_Tool td); sk_Name := Name (td_Tool td); sk_Description := Description (td_Tool td);
  InputModes := ["application/json"]; OutputModes := ["application/json"; "text/plain"];
  sk_Tags := skill_tags t td; Examples := [marshalInputSchema (InputSchema (td_Tool td))] |}.

Definition contentToPart (c : Content) : Part :=
  match c with
  | TextContent text => NewTextPart text
  | OtherContent kind =>
      match extract_image kind with
      | Some (data, mimeType) => set_MediaType mimeType (NewRawPart data)
      | None => match extract_resource kind with
                | Some resource => NewDataPart resource
                | None => NewDataPart (content_json kind)
                end
      end
  end.

Definition CallResultToArtifact (result : option CallToolResult) (w : W) : Artifact * W :=
  let '(id, w) := new_uuid w in
  (match result with
   | None => {| a_ID := id; a_Description := ""; a_Name := ""; a_Extensions := []; a_Metadata := ∅; a_Parts := [] |}
   | Some r => {| a_ID := id; a_Description := if IsError r then "error" else ""; a_Name := ""; a_Extensions := []; a_Metadata := ∅;
                  a_Parts := map (λ c, Some (contentToPart c)) (r_Content r) |}
   end, w).

Definition ErrorToTaskStatus (code msg : string) (w : W) : TaskStatus * W :=
  let '(m, w) := NewMessage new_uuid MessageRoleAgent [NewTextPart ("[" +:+ code +:+ "] " +:+ msg)] w in
  ({| s_Message := Some m; State := if bool_decide (code = ErrPermission) then TaskStateRejected else TaskStateFailed; s_Timestamp := None |}, w).

(** The first part that names a skill. *)
Fixpoint skill_part (parts : list (option Part)) : option (string * gmap string json) :=
  match parts with
  | [] => None
  | None :: parts => skill_part parts
  | Some p :: parts =>
      match part_Data p with
      | Some (JObject l) =>
          let m := object_map l in
          let skillID := as_string (m !! "skill") in
          if bool_decide (skillID = "") then skill_part parts
          else Some (skillID, default ∅ (as_map (m !! "arguments")))
      | _ => skill_part parts
      end
  end.

(** The arguments the first part with text stands for. *)
Fixpoint text_arguments (parts : list (option Part)) : option (gmap string json) :=
  match parts with
  | [] => Some ∅
  | None :: parts => text_arguments parts
  | Some p :: parts =>
      let text := part_Text p in
      if bool_decide (text = "") then text_arguments parts
      else match parse text ≫= dec_map None with
           | Some args => args
           | None => Some {["input" := JString text]}
           end
  end.

Definition no_skill : error :=
  Err "no skill identifier found in message: expected DataPart with 'skill' field or non-empty skill hint".

Definition MessageToCallToolRequest (msg : Message) (skill : AgentSkill) : error + (string * option (gmap string json)) :=
  match skill_part (m_Parts msg) with
  | Some (skillID, args) => inr (skillID, Some args)
  | None => if bool_decide (sk_ID skill = "") then inl no_skill else inr (sk_ID skill, text_arguments (m_Parts msg))
  end.

(** ** Events go to a consumer, which may ask to stop *)
Variable yield : Event → Y → bool * Y.

(** A failed task with a message. *)
Definition yield_failed (info : TaskInfo) (text : string) (w : W) (y : Y) : W * Y :=
  let '(m, w) := NewMessageForTask new_uuid MessageRoleAgent info [NewTextPart text] w in
  (w, (yield (EStatus (NewStatusUpdateEvent clock info TaskStateFailed (Some m) w)) y).2).

Definition CallResultToEvents (info : TaskInfo) (result : option CallToolResult) (err : option error) (w : W) (y : Y) : W * Y :=
  match err with
  | Some err => yield_failed info ("[" +:+ ErrInternal +:+ "] " +:+ error_text err) w y
  | None =>
      if IsResultError result then
        let errText := match result with
                       | Some r => match r_Content r with c :: _ => default "" (ExtractTextContent c) | [] => "" end
                       | None => ""
                       end in
        yield_failed info (if bool_decide (errText = "") then "tool returned an error" else errText) w y
      else
        let '(artifact, w) := CallResultToArtifact result w in
        let '(go, y) := yield (EArtifact {| Append := false; e_Artifact := artifact; ae_ContextID := ti_ContextID info;
                                            LastChunk := true; ae_TaskID := ti_TaskID info; ae_Metadata := ∅ |}) y in
        if go then (w, (yield (EStatus (NewStatusUpdateEvent clock info TaskStateCompleted None w)) y).2) else (w, y)
  end.

(** ** The executor (executor.go) *)
Definition DefaultTaskTimeout : duration := 30 * Second.
Record BridgeExecutor := {
  registry : ToolRegistry Ctx CallToolRequest W; translator : Translator;
  middleware : list (Middleware Ctx CallToolRequest W); timeout : duration
}.
Definition NewBridgeExecutor (reg : ToolRegistry Ctx CallToolRequest W) (tr : option Translator) (mws : list (Middleware Ctx CallToolRequest W))
    (taskTimeout : duration) : BridgeExecutor := {|
  registry := reg; translator := default {| SkillTags := [] |} tr; middleware := mws;
  timeout := if taskTimeout =? 0 then DefaultTaskTimeout else taskTimeout |}.

(** What the server passes on of a request. *)
Record ExecutorContext := { x_Message : option Message; x_TaskID : TaskID; StoredTask : option Task; x_ContextID : string }.
Definition execution_info (x : ExecutorContext) : TaskInfo := {| ti_TaskID := x_TaskID x; ti_ContextID := x_ContextID x |}.

(** The middleware of the bridge around the tool's own handler. *)
Definition bridged_handler (mws : list (Middleware Ctx CallToolRequest W)) (skillID : string) (td : TD) : ToolHandler :=
  foldr (λ m next, m skillID td next) (Handler td) mws.

(** A panic of the tool goes through. *)
Definition Execute (e : BridgeExecutor) (ctx : Ctx) (x : ExecutorContext) (w : W) (y : Y) : option string * W * Y :=
  let info := execution_info x in
  let done := λ '(w, y), (None : option string, w, y) in
  match ctx_err ctx with
  | Some err => done (yield_failed info ("context error: " +:+ error_text err) w y)
  | None =>
      let '(go, w, y) :=
        match StoredTask x with
        | Some _ => (true, w, y)
        | None =>
            let '(submitted, w) := NewSubmittedTask new_uuid info (x_Message x) w in
            let '(go, y) := yield (ETask submitted) y in (go, w, y)
        end in
      if negb go then done (w, y) else
      match x_Message x with
      | None => done (yield_failed info "no message in execution context" w y)
      | Some msg =>
          match MessageToCallToolRequest msg zero_skill with
          | inl err => done (yield_failed info ("invalid request: " +:+ error_text err) w y)
          | inr (skillID, args) =>
              match GetTool (registry e) skillID with
              | None => done (yield_failed info ("unknown tool: " +:+ skillID) w y)
              | Some td =>
                  let '(go, y) := yield (EStatus (NewStatusUpdateEvent clock info TaskStateWorking None w)) y in
                  if negb go then done (w, y) else
                  match bridged_handler (middleware e) skillID td (with_timeout ctx (timeout e)) (NewCallToolRequest skillID args) w with
                  | (Panics v, w) => (Some v, w, y)
                  | (Returns result (Some toolErr), w) => done (yield_failed info ("tool error: " +:+ error_text toolErr) w y)
                  | (Returns None None, w) => done (yield_failed info "tool returned nil result" w y)
                  | (Returns (Some r) None, w) =>
                      let '(artifact, w) := CallResultToArtifact (Some r) w in
                      if IsError r then
                        let errText := match a_Parts artifact with Some p :: _ => part_Text p | _ => "" end in
                        done (yield_failed info (if bool_decide (errText = "") then "tool returned an error" else errText) w y)
                      else
                        let '(event, w) := NewArtifactEvent new_uuid info (a_Parts artifact) w in
                        let '(go, y) := yield (EArtifact event) y in
                        if go then done (w, (yield (EStatus (NewStatusUpdateEvent clock info TaskStateCompleted None w)) y).2)
                        else done (w, y)
                  end
              end
          end
      end
  end.

Definition Cancel (x : ExecutorContext) (w : W) (y : Y) : Y :=
  (yield (EStatus (NewStatusUpdateEvent clock (execution_info x) TaskStateCanceled None w)) y).2.

(** ** Progress as status events (streaming.go) *)
(** A [float64] in a JSON value, written and read, and [strconv.ParseFloat]. *)
Variable float_json : float64 → json.
Variable json_float : json → option float64.
Variable parse_float : string → option float64.

Definition clampProgress (p : float64) : float64 :=
  if float_lt p float_zero then float_zero else if float_lt (float_of_int 1) p then float_of_int 1 else p.

(** [math.Round]: to the nearest whole number, halves away from zero. *)
Definition float_round (f : float64) : float64 :=
  match f with
  | S754_finite s m e =>
      let n := if 0 <=? e then Z.pos m * 2 ^ e else (2 * Z.pos m + 2 ^ (- e)) / (2 * 2 ^ (- e)) in
      if n =? 0 then S754_zero s else float_of_int (if s then - n else n)
  | f => f
  end.
Definition progress_text (progress : float64) (message : string) : string :=
  let pct := int_of_float (float_round (float_mul progress (float_of_int 100))) in
  "[" +:+ itoa pct +:+ "%] " +:+ (if bool_decide (message = "") then "in progress" else message).

Definition ProgressToStatusEvent (info : TaskInfo) (progress : float64) (message : string) (w : W) : TaskStatusUpdateEvent * W :=
  let progress := clampProgress progress in
  let '(m, w) := NewMessageForTask new_uuid MessageRoleAgent info [NewTextPart (progress_text progress message)] w in
  ({| se_ContextID := ti_ContextID info; se_TaskID := ti_TaskID info;
      se_Status := {| State := TaskStateWorking; s_Message := Some m; s_Timestamp := None |};
      se_Metadata := {["progress" := float_json progress]} |}, w).

(** [strings.Index]. *)
Fixpoint index_of (sub s : string) : option nat :=
  if has_prefix sub s then Some O
  else match s with EmptyString => None | String _ s' => S <$> index_of sub s' end.

Definition parsePctPrefix (s : string) : option (float64 * string) :=
  if negb (has_prefix "[" s) then None else
  match index_of "%]" s with
  | None => None
  | Some idx =>
      if (idx <? 2)%nat then None else
      match parse_float (string_take (idx - 1) (string_drop 1 s)) with
      | None => None
      | Some pct => Some (float_div pct (float_of_int 100), trim_prefix (string_drop (idx + 2) s) " ")
      end
  end.

Definition is_zero (f : float64) : bool := SFeqb f float_zero.

Definition StatusEventToProgress (e : TaskStatusUpdateEvent) : float64 * string :=
  let progress := match se_Metadata e !! "progress" with
                  | Some v => default float_zero (json_float v)
                  | None => float_zero
                  end in
  let '(progress, message) :=
    match s_Message (se_Status e) with
    | Some m =>
        match m_Parts m with
        | Some p :: _ =>
            let rawText := part_Text p in
            if is_zero progress && negb (bool_decide (rawText = "")) then
              match parsePctPrefix rawText with
              | Some (parsed, remainder) => if float_le float_zero parsed then (parsed, remainder) else (progress, rawText)
              | None => (progress, rawText)
              end
            else
              let remainder := match parsePctPrefix rawText with Some (_, r) => r | None => "" end in
              (progress, if bool_decide (remainder = "") then rawText else remainder)
        | _ => (progress, "")
        end
    | None => (progress, "")
    end in
  (clampProgress progress, message).

(** A progress report of a running tool; the error of a context that is done, or a consumer that
    wants no more. *)
Definition Report (info : TaskInfo) (ctx : Ctx) (progress : float64) (message : string) (w : W) (y : Y) : option error * W * Y :=
  match ctx_err ctx with
  | Some err => (Some err, w, y)
  | None =>
      let '(event, w) := ProgressToStatusEvent info progress message w in
      let '(go, y) := yield (EStatus event) y in
      (if go then None else Some Canceled, w, y)
  end.

(** ** Authentication (auth.go) *)
Section Auth.
(** Values of the context: the raw header stored under a name, and the token for handlers. *)
Variable header_value : Ctx → string → string.
Variable with_token : Ctx → string → Ctx.

Definition or_else (s d : string) : string := if bool_decide (s = "") then d else s.

Definition BearerExtract (headerName prefix : string) (ctx : Ctx) : error + string :=
  let raw := header_value ctx (or_else headerName "Authorization") in
  let prefix := or_else prefix "Bearer " in
  if bool_decide (raw = "") then inr "" else if negb (has_prefix prefix raw) then inr "" else inr (trim_prefix raw prefix).

Record AuthConfig := {
  Extractor : option (Ctx → error + string); Injector : option (Ctx → string → Ctx); Required : bool;
  HeaderName : string; TokenPrefix : string
}.

Definition AuthMiddleware (cfg : AuthConfig) : Middleware Ctx CallToolRequest W := λ name td next ctx req w,
  let extract := default (BearerExtract (HeaderName cfg) (TokenPrefix cfg)) (Extractor cfg) in
  let inject := default with_token (Injector cfg) in
  match extract ctx with
  | inl err => (Returns (Some (MakeErrorResult ("auth: token extraction failed: " +:+ error_text err))) None, w)
  | inr token =>
      if bool_decide (token = "") && Required cfg
      then (Returns (Some (MakeErrorResult "auth: authentication required")) None, w)
      else next (if bool_decide (token = "") then ctx else inject ctx token) req w
  end.
End Auth.

(** ** The agent card (agentcard.go) *)
Record CardConfig := {
  cfg_Name : string; cfg_Description : string; cfg_Version : string; cfg_URL : string; cfg_Provider : option (string * string);
  ToolFilter : option (string → TD → bool)
}.
Record AgentCardGenerator := { g_translator : Translator; g_config : CardConfig; cached : option AgentCard }.
Definition NewAgentCardGenerator (tr : option Translator) (cfg : CardConfig) : AgentCardGenerator := {|
  g_translator := default {| SkillTags := [] |} tr; cached := None;
  g_config := {| cfg_Name := cfg_Name cfg; cfg_Description := cfg_Description cfg; cfg_Version := or_else (cfg_Version cfg) "1.0.0";
                 cfg_URL := cfg_URL cfg; cfg_Provider := cfg_Provider cfg; ToolFilter := ToolFilter cfg |} |}.

Definition skill_le (a b : AgentSkill) : Prop := String.le (sk_ID a) (sk_ID b).
#[export] Instance skill_le_dec : RelDecision skill_le := λ a b, String.le_dec (sk_ID a) (sk_ID b).

Definition exposed (cfg : CardConfig) (td : TD) : bool :=
  match ToolFilter cfg with Some f => f (Name (td_Tool td)) td | None => true end.

Definition generate_card (g : AgentCardGenerator) (allTools : list TD) : AgentCard :=
  let cfg := g_config g in {|
  c_Name := cfg_Name cfg; c_Description := cfg_Description cfg; c_Version := cfg_Version cfg; Provider := cfg_Provider cfg;
  Streaming := false; PushNotifications := false; DefaultInputModes := ["application/json"]; DefaultOutputModes := ["text/plain"];
  SupportedInterfaces := if bool_decide (cfg_URL cfg = "") then [] else [cfg_URL cfg];
  Skills := merge_sort skill_le (map (ToolToSkill (g_translator g)) (filter (λ td, exposed cfg td = true) allTools)) |}.

Definition set_cached (c : option AgentCard) (g : AgentCardGenerator) : AgentCardGenerator :=
  {| g_translator := g_translator g; g_config := g_config g; cached := c |}.
Definition Generate (reg : ToolRegistry Ctx CallToolRequest W) (g : AgentCardGenerator) : AgentCard * AgentCardGenerator :=
  let card := generate_card g (GetAllToolDefinitions reg) in (card, set_cached (Some card) g).
Definition Card (reg : ToolRegistry Ctx CallToolRequest W) (g : AgentCardGenerator) : AgentCard * AgentCardGenerator :=
  match cached g with Some c => (c, g) | None => Generate reg g end.
Definition Invalidate (g : AgentCardGenerator) : AgentCardGenerator := set_cached None g.

(** ** Remote agents as tools (remote_agent.go) *)
Definition DefaultRemoteTimeout : duration := 60 * Second.
(** [SendMessage] of the SDK's client. *)
Variable SendMessage : Ctx → Message → W → (error + SendMessageResult) * W.

Record RemoteAgent := { ra_card : AgentCard; ra_timeout : duration; ra_prefix : string }.

Definition MakeTextResult (text : string) : CallToolResult :=
  {| r_Content := [MakeTextContent text]; StructuredContent := None; IsError := false |}.

(** The texts of parts: text parts as they are, data parts as JSON. *)
Definition part_texts (parts : list (option Part)) : list string :=
  omap (λ p, match p with
             | None => None
             | Some p =>
                 if bool_decide (part_Text p = "") then match part_Data p with Some v => Some (print true v) | None => None end
                 else Some (part_Text p)
             end) parts.

Definition text_result (texts : list string) : CallToolResult :=
  MakeTextResult (match texts with [] => "(no output)" | _ => join newline texts end).

Definition translateTask (task : Task) : CallToolResult :=
  let state := State (Status task) in
  if bool_decide (state = TaskStateFailed) || bool_decide (state = TaskStateRejected) then
    let t := match s_Message (Status task) with
             | Some m => match m_Parts m with Some p :: _ => part_Text p | _ => "" end
             | None => ""
             end in
    MakeErrorResult (or_else t "remote agent task failed")
  else text_result (concat (map (λ a, part_texts (a_Parts a)) (Artifacts task))).

Definition translateMessage (msg : Message) : CallToolResult := text_result (part_texts (m_Parts msg)).

Definition translateResult (r : SendMessageResult) : CallToolResult :=
  match r with RTask t => translateTask t | RMessage m => translateMessage m end.

(** The parts of the message sent for a call. *)
Definition message_parts (skillID messageText : string) : list Part :=
  let structured :=
    if has_prefix "{" (LoopGuards.TrimSpace messageText) then
      parse messageText ≫= dec_map None
    else None in
  match structured with
  | Some jsonArgs =>
      [NewDataPart (json_of_map (<["skill" := JString skillID]> {["arguments" := default JNull (json_of_map <$> jsonArgs)]}))]
  | None => [NewTextPart (or_else messageText skillID)]
  end.

Definition makeHandler (ra : RemoteAgent) (skillID : string) : ToolHandler := λ ctx req w,
  let messageText := as_string (default ∅ (Arguments req) !! "message") in
  let '(msg, w) := NewMessage new_uuid MessageRoleUser (message_parts skillID messageText) w in
  match SendMessage (with_timeout ctx (ra_timeout ra)) msg w with
  | (inl err, w) => (Returns None (Some (ErrWrap ("a2a remote call to " +:+ c_Name (ra_card ra) +:+ "/" +:+ skillID +:+ " failed: ") err "")), w)
  | (inr result, w) => (Returns (Some (translateResult result)) None, w)
  end.

Definition remote_tool_name (ra : RemoteAgent) (skill : AgentSkill) : string :=
  if bool_decide (ra_prefix ra = "") then sk_ID skill else ra_prefix ra +:+ "_" +:+ sk_ID skill.

Definition zero_annotation : ToolAnnotation :=
  {| ann_Title := ""; ReadOnlyHint := None; DestructiveHint := None; IdempotentHint := None; OpenWorldHint := None |}.
Definition zero_schema : Schema := {| sch_Type := ""; sch_Properties := ∅; sch_Required := []; sch_Additional := None |}.
Definition message_schema : Schema := {|
  sch_Type := "object"; sch_Required := []; sch_Additional := None;
  sch_Properties := {["message" := JObject [
    ("description", JString "Message or JSON arguments to send to the remote agent"); ("type", JString "string")]]} |}.

(** The first tag that is not empty is the category, the tags after it are the others. *)
Definition split_tags (tags : list string) : string * list string :=
  foldl (λ acc tag, if bool_decide (acc.1 = "") then (tag, acc.2) else (acc.1, acc.2 ++ [tag])) ("", []) tags.

Definition skillToToolDefinition (ra : RemoteAgent) (skill : AgentSkill) : TD :=
  let '(category, tags) := split_tags (sk_Tags skill) in {|
  td_Tool := {| Name := remote_tool_name ra skill; Title := ""; Annotations := zero_annotation; InputSchema := message_schema;
                ToolOutputSchema := zero_schema; Meta := None; ToolDeferLoading := false;
                Description := or_else (sk_Description skill)
                  ("Invoke skill " +:+ quote (sk_ID skill) +:+ " on remote agent " +:+ c_Name (ra_card ra)) |};
  Handler := makeHandler ra (sk_ID skill); Category := category; Tags := tags; Subcategory := ""; SearchTerms := [];
  Complexity := ""; IsWrite := false; Deprecated := false; td_Timeout := 0; CircuitBreakerGroup := ""; RuntimeGroup := "";
  OutputSchema := None; MaxResultChars := 0; DeferLoading := false; AlwaysLoad := false; SkipRequiresUserInteraction := false;
  DestructiveOverride := None; IdempotentOverride := None; ReadOnlyOverride := None |}.

Definition buildTools (ra : RemoteAgent) : list TD := map (skillToToolDefinition ra) (Skills (ra_card ra)).
End Bridge.

(** ** A bridged server answering a message that belongs to no task yet *)
Section Serve.
Context {Ctx W : Type}.
Variable ctx_err : Ctx → option error.
Variable with_timeout : Ctx → duration → Ctx.
Variable new_uuid : W → string * W.
Variable clock : W → Stamp.
Variable extract_image : string → option (string * string).
Variable extract_resource : string → option json.
Variable content_json : string → json.
(** What the server makes of a panic of the executor, and how many of the events sent before it had been processed
    when the reader of the events was stopped: the two run concurrently. *)
Variable panic_error : string → error.
Variable processed : string → W → nat.

Definition collect (e : Event) (l : list Event) : bool * list Event := (true, l ++ [e]).
Definition serve (e : BridgeExecutor) (ctx : Ctx) (msg : Message) (w : W) : (error + SendMessageResult) * W :=
  let '(taskID, w) := new_uuid w in
  let '(contextID, w) := new_uuid w in
  let x := {| x_Message := Some msg; x_TaskID := taskID; StoredTask := None; x_ContextID := contextID |} in
  match Execute ctx_err with_timeout new_uuid clock extract_image extract_resource content_json collect e ctx x w [] with
  | (Some v, w, events) => (failed_result (panic_error v) (execution_info x) None (take (processed v w) events), w)
  | (None, w, events) => (send_result (execution_info x) None events, w)
  end.

(** What the caller of a remote tool sees of the outcome of the tool. *)
Definition seen_remotely (result : option CallToolResult) (err : option error) : CallToolResult :=
  match result, err with
  | _, Some err => MakeErrorResult ("tool error: " +:+ error_text err)
  | None, None => MakeErrorResult "tool returned nil result"
  | Some r, None =>
      if IsError r then
        MakeErrorResult (or_else (match r_Content r with
                                  | c :: _ => part_Text (contentToPart extract_image extract_resource content_json c)
                                  | [] => ""
                                  end) "tool returned an error")
      else match r_Content r with
           | [] => MakeErrorResult "remote agent task failed"
           | cs => text_result (part_texts (map (λ c, Some (contentToPart extract_image extract_resource content_json c)) cs))
           end
  end.

Hypothesis uuid_nonempty : ∀ w, (new_uuid w).1 ≠ "".

Lemma skill_part_sent id args : id ≠ "" →
  skill_part [Some (NewDataPart (json_of_map (<["skill" := JString id]> {["arguments" := json_of_map args]})))] = Some (id, args).
Proof.
  intros Hid. cbn [skill_part]. unfold part_Data, NewDataPart, json_of_map at 1. cbn [p_Content].
  rewrite object_map_of_map, lookup_insert_eq. cbn [as_string]. rewrite bool_decide_false by done.
  rewrite lookup_insert_ne by done. rewrite lookup_singleton_eq. cbn [as_map json_of_map]. by rewrite object_map_of_map.
Qed.

Lemma TrimSpace_object m : has_prefix "{" (LoopGuards.TrimSpace (print true (json_of_map m))) = true.
Proof.
  unfold json_of_map. cbn [print]. set (body := join _ _ +:+ "}"). unfold LoopGuards.TrimSpace.
  generalize body. intros b. cbn.
  change (is_space _) with false. cbn. destruct (LoopGuards.trim_right is_space b); reflexivity.
Qed.

Lemma message_parts_object id text m : has_prefix "{" (LoopGuards.TrimSpace text) = true → parse text ≫= dec_map None = Some (Some m) →
  message_parts id text = [NewDataPart (json_of_map (<["skill" := JString id]> {["arguments" := json_of_map m]}))].
Proof. intros Hb Hp. unfold message_parts. by rewrite Hb, Hp. Qed.
(** The text of a map is read as that map. *)
Lemma printed_arguments m : well_formed 0 (json_of_map m) = true → all_valid (json_of_map m) = true → held_map m →
  has_prefix "{" (LoopGuards.TrimSpace (print true (json_of_map m))) = true ∧ parse (print true (json_of_map m)) ≫= dec_map None = Some (Some m).
Proof.
  intros Hw Hv Hm. split; [apply TrimSpace_object|]. rewrite parse_print, clean_valid by done. cbn [mbind option_bind]. by apply dec_map_of_map.
Qed.

Lemma validate_same info e : event_info e = info → validate info e = None.
Proof. intros <-. unfold validate. by rewrite !bool_decide_false by (by intros []). Qed.

(** The events of an execution, folded by the server. *)
Section Folding.
Variable tid cid : string.
Local Notation info := {| ti_TaskID := tid; ti_ContextID := cid |}.

Variable at_work : Stamp.
Definition opened (msg : Message) : Task := {|
  t_ID := tid; t_ContextID := cid; Status := {| s_Message := None; State := TaskStateWorking; s_Timestamp := Some at_work |};
  History := [Some msg]; Artifacts := []; t_Metadata := ∅ |}.

(** The events every execution begins with. *)
Definition opening (msg : Message) : list Event := [
  ETask {| t_ID := tid; t_ContextID := cid; Status := {| s_Message := None; State := TaskStateSubmitted; s_Timestamp := None |};
           History := [Some msg]; Artifacts := []; t_Metadata := ∅ |};
  EStatus {| se_ContextID := cid; se_TaskID := tid; se_Metadata := ∅;
             se_Status := {| s_Message := None; State := TaskStateWorking; s_Timestamp := Some at_work |} |}].

Lemma fold_opened ending msg events :
  fold_events ending info None (opening msg ++ events) = fold_events ending info (Some (opened msg)) events.
Proof.
  cbn [opening app fold_events Process]. rewrite validate_same by done. cbn -[validate fold_events]. rewrite validate_same by done.
  cbn -[fold_events]. unfold opened, updateStatus. cbn -[fold_events]. by rewrite (right_id_L ∅ (∪)).
Qed.

(** An executor that fails after the task was opened: a failed task without a message, unless none of the events had
    been processed. *)
Lemma failed_opening err msg n :
  match n with
  | O => failed_result err info None (take n (opening msg)) = inl err
  | S _ => ∃ t', failed_result err info None (take n (opening msg)) = inr (RTask t') ∧ translateTask t' = MakeErrorResult "remote agent task failed"
  end.
Proof.
  destruct n as [|[|n]]; [done| |].
  - eexists. split; [unfold failed_result; cbn [opening take fold_events Process]; rewrite validate_same by done; reflexivity|reflexivity].
  - assert (take (S (S n)) (opening msg) = opening msg ++ []) as -> by (cbn; by destruct n). unfold failed_result. rewrite fold_opened.
    eexists. split; reflexivity.
Qed.

Lemma send_failed msg text id at_end :
  ∃ t', send_result info None (opening msg ++
    [EStatus {| se_ContextID := cid; se_TaskID := tid; se_Metadata := ∅; se_Status := {| State := TaskStateFailed; s_Timestamp := Some at_end;
       s_Message := Some {| m_ID := id; m_ContextID := cid; m_Extensions := []; m_Metadata := ∅;
         m_Parts := [Some (NewTextPart text)]; ReferenceTasks := []; Role := MessageRoleAgent; m_TaskID := tid |} |} |}]) = inr (RTask t') ∧
    translateTask t' = MakeErrorResult (or_else text "remote agent task failed").
Proof. unfold send_result. rewrite fold_opened. cbn [fold_events Process]. cbn -[validate]. rewrite validate_same by done. eexists. split; reflexivity. Qed.

Definition artifact_event (id : string) (parts : list (option Part)) : Event :=
  EArtifact {| Append := false; ae_ContextID := cid; ae_TaskID := tid; LastChunk := false; ae_Metadata := ∅;
    e_Artifact := {| a_ID := id; a_Description := ""; a_Name := ""; a_Extensions := []; a_Metadata := ∅; a_Parts := parts |} |}.
Definition completion (at_end : Stamp) : Event :=
  EStatus {| se_ContextID := cid; se_TaskID := tid; se_Metadata := ∅;
             se_Status := {| State := TaskStateCompleted; s_Message := None; s_Timestamp := Some at_end |} |}.

Lemma send_completed msg id parts at_end : parts ≠ [] →
  ∃ t', send_result info None (opening msg ++ [artifact_event id parts; completion at_end]) = inr (RTask t') ∧
    translateTask t' = text_result (part_texts parts).
Proof.
  intros Hp. destruct parts as [|p parts]; [done|]. unfold send_result. rewrite fold_opened. cbn [fold_events Process artifact_event completion].
  cbn -[validate translateTask text_result part_texts].
  rewrite validate_same by done. cbn -[validate translateTask text_result part_texts]. rewrite validate_same by done. eexists. split; [reflexivity|].
  unfold translateTask. cbn -[text_result part_texts]. by rewrite app_nil_r.
Qed.

Lemma send_empty_artifact msg id events :
  ∃ t', send_result info None (opening msg ++ artifact_event id [] :: events) = inr (RTask t') ∧
    translateTask t' = MakeErrorResult "remote agent task failed".
Proof.
  unfold send_result. rewrite fold_opened. cbn [fold_events Process artifact_event]. cbn -[validate]. rewrite validate_same by done. eexists. split; reflexivity.
Qed.
End Folding.

Lemma serve_tool e ctx msg w id args td : ctx_err ctx = None → skill_part (m_Parts msg) = Some (id, args) → GetTool (registry e) id = Some td →
  match bridged_handler (middleware e) id td (with_timeout ctx (timeout e)) (NewCallToolRequest id (Some args)) (new_uuid (new_uuid w).2).2 with
  | (Panics v, w1) => match processed v w1 with
                      | O => serve e ctx msg w = (inl (panic_error v), w1)
                      | S _ => ∃ t, serve e ctx msg w = (inr (RTask t), w1) ∧ translateTask t = MakeErrorResult "remote agent task failed"
                      end
  | (Returns result err, w1) => ∃ t w2, serve e ctx msg w = (inr (RTask t), w2) ∧ translateTask t = seen_remotely result err
  end.
Proof using uuid_nonempty.
  intros Hctx Hskill Htool. unfold serve.
  destruct (new_uuid w) as [tid w2] eqn:E2. cbn [snd]. destruct (new_uuid w2) as [cid w3] eqn:E3. cbn [snd].
  pose proof (uuid_nonempty w) as Ht. rewrite E2 in Ht. pose proof (uuid_nonempty w2) as Hc. rewrite E3 in Hc. cbn [fst] in Ht, Hc.
  unfold Execute. rewrite Hctx. unfold NewSubmittedTask, MessageToCallToolRequest.
  cbn [StoredTask execution_info x_TaskID x_ContextID x_Message ti_TaskID ti_ContextID]. rewrite !bool_decide_false by done. cbn [collect negb app].
  rewrite Hskill, Htool. cbn [collect negb app].
  destruct (bridged_handler _ _ _ _ _ w3) as [o w4]. destruct o as [result err|v].
  2: { pose proof (failed_opening tid cid (clock w3) (panic_error v) msg (processed v w4)) as H.
    destruct (processed v w4) as [|n].
    - apply (f_equal (λ r, (r, w4))). exact H.
    - destruct H as (t & H & Ht'). exists t. split; [|exact Ht']. apply (f_equal (λ r, (r, w4))). exact H. }
  destruct err as [err|].
  { unfold yield_failed, NewMessageForTask. destruct (new_uuid w4) as [u w5].
    edestruct (send_failed tid cid (clock w3) msg ("tool error: " +:+ error_text err) u (clock w5)) as (t' & H & Ht'). exists t', w5.
    split; [|rewrite Ht'; by destruct result]. rewrite <- H. by destruct result. }
  destruct result as [r|].
  2: { unfold yield_failed, NewMessageForTask. destruct (new_uuid w4) as [u w5].
    edestruct (send_failed tid cid (clock w3) msg "tool returned nil result" u (clock w5)) as (t' & H & Ht'). exists t', w5. split; [|by rewrite Ht'].
    by rewrite <- H. }
  unfold CallResultToArtifact. destruct (new_uuid w4) as [u w5]. cbn [a_Parts]. cbn [seen_remotely]. destruct (IsError r) eqn:Eerr.
  - unfold yield_failed, NewMessageForTask. destruct (new_uuid w5) as [u2 w6].
    edestruct (send_failed tid cid (clock w3) msg) as (t' & H & Ht'). exists t', w6. split.
    + rewrite <- H. reflexivity.
    + rewrite Ht'. destruct (r_Content r) as [|c cs]; cbn [map]; [reflexivity|]. unfold or_else.
      destruct (bool_decide (part_Text _ = "")) eqn:Eb; [reflexivity|]. by rewrite Eb.
  - unfold NewArtifactEvent. destruct (new_uuid w5) as [u2 w6]. destruct (r_Content r) as [|c cs]; cbn [map].
    + edestruct (send_empty_artifact tid cid (clock w3) msg u2) as (t' & H & Ht'). exists t', w6. split; [|done]. by rewrite <- H.
    + edestruct (send_completed tid cid (clock w3) msg u2) as (t' & H & Ht'); [|exists t', w6; split; [|exact Ht']]; [done|]. by rewrite <- H.
Qed.

(** C17.  A tool called through a remote agent with any text that is a JSON object: the arguments the text decodes to
    reach the bridged handler, once, and what comes back is what [seen_remotely] says of its answer: texts joined,
    error texts and failures as errors.  A tool that panics is a failed task, and so an error result, or an error when
    the server had not yet stored the task. *)
Theorem remote_tool_is_the_tool (e : BridgeExecutor) (ra : RemoteAgent) (td : ToolDefinition (ToolHandlerFunc Ctx CallToolRequest W))
    (id text : string) (args : gmap string json) (ctx : Ctx) (w : W)
    (Hid : id ≠ "") (Htool : GetTool (registry e) id = Some td)
    (Hctx : ctx_err (with_timeout ctx (ra_timeout ra)) = None)
    (Hobject : has_prefix "{" (LoopGuards.TrimSpace text) = true) (Hargs : parse text ≫= dec_map None = Some (Some args)) :
  let remote := makeHandler with_timeout new_uuid (serve e) ra id ctx (NewCallToolRequest id (Some {["message" := JString text]})) w in
  let ctx' := with_timeout (with_timeout ctx (ra_timeout ra)) (timeout e) in
  let w0 := (new_uuid (new_uuid (new_uuid w).2).2).2 in
  match bridged_handler (middleware e) id td ctx' (NewCallToolRequest id (Some args)) w0 with
  | (Panics v, w1) =>
      remote = (match processed v w1 with
                | O => Returns None (Some (ErrWrap ("a2a remote call to " +:+ c_Name (ra_card ra) +:+ "/" +:+ id +:+ " failed: ") (panic_error v) ""))
                | S _ => Returns (Some (MakeErrorResult "remote agent task failed")) None
                end, w1)
  | (Returns result err, w1) => ∃ w2, remote = (Returns (Some (seen_remotely result err)) None, w2)
  end.
Proof using uuid_nonempty.
  cbv zeta. unfold makeHandler. cbn [NewCallToolRequest Arguments from_option Datatypes.id]. rewrite lookup_singleton_eq. cbn [as_string].
  rewrite (message_parts_object id text args) by done. unfold NewMessage. destruct (new_uuid w) as [mid w'] eqn:E1. cbn [snd]. set (msg := {| m_ID := mid |}).
  pose proof (serve_tool e (with_timeout ctx (ra_timeout ra)) msg w' id args td Hctx (skill_part_sent id args Hid) Htool) as H.
  destruct (bridged_handler _ _ _ _ _ _) as [o w4]. destruct o as [result err|v].
  - destruct H as (t & w5 & -> & Ht). exists w5. cbn [translateResult]. by rewrite Ht.
  - destruct (processed v w4); [by rewrite H|]. destruct H as (t & -> & Ht). cbn [translateResult]. by rewrite Ht.
Qed.

(** A call with a message that is not a JSON object names no skill: the bridge refuses it. *)
Lemma text_call_refused (e : BridgeExecutor) (ra : RemoteAgent) (id text : string) (ctx : Ctx) (w : W) :
  id ≠ "" → ctx_err (with_timeout ctx (ra_timeout ra)) = None → has_prefix "{" (LoopGuards.TrimSpace text) = false →
  (makeHandler with_timeout new_uuid (serve e) ra id ctx (NewCallToolRequest id (Some {["message" := JString text]})) w).1 =
    Returns (Some (MakeErrorResult ("invalid request: " +:+ error_text no_skill))) None.
Proof using uuid_nonempty.
  intros Hid Hctx Htext. unfold makeHandler. cbn [NewCallToolRequest Arguments from_option Datatypes.id]. rewrite lookup_singleton_eq. cbn [as_string].
  unfold message_parts. rewrite Htext. unfold NewMessage. destruct (new_uuid w) as [mid w']. unfold serve.
  destruct (new_uuid w') as [tid w2] eqn:E2. destruct (new_uuid w2) as [cid w3] eqn:E3.
  pose proof (uuid_nonempty w') as Ht. rewrite E2 in Ht. pose proof (uuid_nonempty w2) as Hc. rewrite E3 in Hc. cbn [fst] in Ht, Hc.
  unfold Execute. rewrite Hctx. unfold NewSubmittedTask, MessageToCallToolRequest.
  cbn [StoredTask execution_info x_TaskID x_ContextID x_Message ti_TaskID ti_ContextID]. rewrite !bool_decide_false by done. cbn [collect negb app].
  cbn [m_Parts map skill_part NewTextPart part_Data p_Content]. rewrite bool_decide_true by done.
  unfold yield_failed, NewMessageForTask. destruct (new_uuid w3) as [u w4]. unfold send_result. cbn [collect snd app fold_events Process].
  rewrite validate_same by done. cbn -[validate translateResult]. rewrite validate_same by done. reflexivity.
Qed.

(** The chain of the registry plays no part in what the bridge serves. *)
Lemma registry_chain_bypassed (e : BridgeExecutor) mws (ctx : Ctx) (msg : Message) (w : W) :
  serve {| registry := SetMiddleware (registry e) mws; translator := translator e; middleware := middleware e; timeout := timeout e |} ctx msg w =
  serve e ctx msg w.
Proof. reflexivity. Qed.

(** A sequence of events with one final event, its last. *)
Definition one_final (events : list Event) : Prop :=
  ∃ pre last, events = pre ++ [last] ∧ IsFinal last = true ∧ Forall (λ e, IsFinal e = false) pre.

Lemma one_final_snoc pre e : Forall (λ e, IsFinal e = false) pre → IsFinal e = true → one_final (pre ++ [e]).
Proof. intros ? ?. by exists pre, e. Qed.

(** Whatever the request, the tool and the middleware, an execution that does not panic emits exactly one
    final event and nothing after it; one that panics has emitted none. *)
Theorem execution_ends_once (e : BridgeExecutor) (ctx : Ctx) (x : ExecutorContext) (w : W) :
  match Execute ctx_err with_timeout new_uuid clock extract_image extract_resource content_json collect e ctx x w [] with
  | (None, _, events) => one_final events
  | (Some _, _, events) => Forall (λ e, IsFinal e = false) events
  end.
Proof.
  assert (Hfail : ∀ info text w y, Forall (λ e, IsFinal e = false) y → one_final (yield_failed new_uuid clock collect info text w y).2).
  { intros info text w' y Hy. unfold yield_failed, NewMessageForTask. destruct (new_uuid w'). by apply one_final_snoc. }
  unfold Execute. destruct (ctx_err ctx) as [err|].
  { destruct (yield_failed _ _ _ _ _ _) as [w' y] eqn:E. pose proof (Hfail (execution_info x) ("context error: " +:+ error_text err) w []) as H. rewrite E in H. by apply H. }
  assert (∃ w' y, (match StoredTask x with
    | Some _ => (true, w, [])
    | None => let '(submitted, w) := NewSubmittedTask new_uuid (execution_info x) (x_Message x) w in
              let '(go, y) := collect (ETask submitted) [] in (go, w, y)
    end) = (true, w', y) ∧ Forall (λ e, IsFinal e = false) y) as (w' & y & -> & Hy).
  { destruct (StoredTask x); [by eexists _, _|]. unfold NewSubmittedTask.
    destruct (if bool_decide (ti_TaskID _ = "") then _ else _). destruct (if bool_decide (ti_ContextID _ = "") then _ else _).
    eexists _, _. split; [reflexivity|]. by repeat constructor. }
  cbn [negb].
  assert (Hdone : ∀ info text w y, Forall (λ e, IsFinal e = false) y →
    match (let '(w, y) := yield_failed new_uuid clock collect info text w y in (None : option string, w, y)) with
    | (None, _, events) => one_final events
    | (Some _, _, events) => Forall (λ e, IsFinal e = false) events
    end).
  { intros info text w2 y2 H. specialize (Hfail info text w2 y2 H). by destruct (yield_failed _ _ _ _ _ _). }
  destruct (x_Message x) as [msg|]; [|by apply Hdone]. destruct (MessageToCallToolRequest msg zero_skill) as [err|[id args]]; [by apply Hdone|].
  destruct (GetTool (registry e) id) as [td|]; [|by apply Hdone]. cbn [collect negb].
  set (y2 := y ++ _). assert (Hy2 : Forall (λ e, IsFinal e = false) y2) by (apply Forall_app_2; [done|by repeat constructor]).
  destruct (bridged_handler _ _ _ _ _ w') as [o w2]. destruct o as [[r|] [err|]|v]; try by apply Hdone. 2: done.
  unfold CallResultToArtifact. destruct (new_uuid w2) as [u w3]. destruct (IsError r); [by apply Hdone|].
  unfold NewArtifactEvent. destruct (new_uuid w3) as [u2 w4]. cbn [collect snd].
  apply one_final_snoc; [|done]. apply Forall_app_2; [done|by repeat constructor].
Qed.
End Serve.

(** ** Progress *)
Definition is_finite (f : float64) : bool := match f with S754_zero _ | S754_finite _ _ _ => true | _ => false end.

Section Progress.
Context {W : Type}.
Variable new_uuid : W → string * W.
Variable float_json : float64 → json.
Variable json_float : json → option float64.
Variable parse_float : string → option float64.
(** encoding/json writes a finite number so that it is read back, and ParseFloat reads whole numbers. *)
Hypothesis float_roundtrip : ∀ f, is_finite f = true → json_float (float_json f) = Some f.
Hypothesis parse_whole : ∀ z, is_Some (parse_float (itoa z)).
Hypothesis parse_zero : parse_float "0" = Some float_zero.

Lemma clamp_idempotent p : clampProgress (clampProgress p) = clampProgress p.
Proof.
  unfold clampProgress at 2 3. destruct (float_lt p float_zero) eqn:E1; [reflexivity|].
  destruct (float_lt (float_of_int 1) p) eqn:E2; [by vm_compute|]. unfold clampProgress. by rewrite E1, E2.
Qed.
Lemma clamp_finite p : p ≠ S754_nan → is_finite (clampProgress p) = true.
Proof.
  intros Hp. unfold clampProgress. destruct (float_lt p float_zero) eqn:E1; [done|]. destruct (float_lt (float_of_int 1) p) eqn:E2; [by vm_compute|].
  by destruct p as [|[]| |].
Qed.

Lemma index_of_pct s t : has_prefix "%]" t = true → lacks (Ascii.ascii_of_nat 37) s → index_of "%]" (s +:+ t) = Some (String.length s).
Proof.
  intros Ht. induction s as [|a s IH]; intros H.
  - cbn [String.append]. destruct t as [|b t]; [done|]. cbn [index_of]. by rewrite Ht.
  - apply lacks_cons in H as [Ha H]. cbn [String.append index_of]. rewrite IH by done. cbn [has_prefix]. by rewrite bool_decide_false.
Qed.

Lemma itoa_nonempty z : (1 <= String.length (itoa z))%nat.
Proof.
  destruct (Z.lt_ge_cases z 0) as [H|H].
  - destruct z as [|p|p]; [lia|lia|]. unfold itoa, pretty, pretty_Z. cbn. lia.
  - destruct (Paging.pretty_head_digit z H) as (a & s & E & _). unfold itoa. rewrite E. cbn. lia.
Qed.

Lemma parse_progress_text z t : parsePctPrefix parse_float ("[" +:+ itoa z +:+ "%] " +:+ t) =
  match parse_float (itoa z) with Some pct => Some (float_div pct (float_of_int 100), t) | None => None end.
Proof.
  unfold parsePctPrefix. pose proof (itoa_nonempty z) as Hl.
  assert (index_of "%]" ("[" +:+ itoa z +:+ "%] " +:+ t) = Some (S (String.length (itoa z)))) as Hi.
  { change ("[" +:+ itoa z +:+ "%] " +:+ t) with (("[" +:+ itoa z) +:+ "%] " +:+ t). rewrite index_of_pct; [done|reflexivity|].
    apply lacks_cons. split; [done|]. apply lacks_itoa. unfold lacks. apply (bool_decide_unpack _). by vm_compute. }
  cbn [has_prefix String.append]. rewrite bool_decide_true by done. cbn [andb negb].
  change (String _ (itoa z +:+ _)) with ("[" +:+ itoa z +:+ "%] " +:+ t). rewrite Hi. rewrite (proj2 (Nat.ltb_ge _ _)) by lia.
  rewrite Nat.sub_1_r, Nat.pred_succ. change (string_drop 1 ("[" +:+ itoa z +:+ "%] " +:+ t)) with (itoa z +:+ "%] " +:+ t).
  rewrite take_prefix_app. destruct (parse_float (itoa z)); [|done]. f_equal. f_equal.
  replace (S (String.length (itoa z)) + 2)%nat with (String.length ("[" +:+ itoa z +:+ "%]")) by (rewrite !string_length_app; cbn; lia).
  replace ("[" +:+ itoa z +:+ "%] " +:+ t) with (("[" +:+ itoa z +:+ "%]") +:+ " " +:+ t) by (by rewrite !string_app_assoc).
  rewrite string_drop_app. unfold trim_prefix. cbn. by rewrite bool_decide_true by done.
Qed.

(** A progress report survives the trip through a status event: the message unchanged, the value
    clamped to the unit interval. *)
Theorem progress_roundtrip (info : TaskInfo) (p : float64) (message : string) (w : W)
    (Hp : p ≠ S754_nan) (Hmsg : message ≠ "") :
  let '(progress, text) := StatusEventToProgress json_float parse_float (ProgressToStatusEvent new_uuid float_json info p message w).1 in
  SFeqb progress (clampProgress p) = true ∧ text = message.
Proof using float_roundtrip parse_whole parse_zero.
  unfold ProgressToStatusEvent. set (q := clampProgress p). assert (Hq : is_finite q = true) by (by apply clamp_finite).
  assert (Hcl : clampProgress q = q) by apply clamp_idempotent. clearbody q.
  unfold NewMessageForTask. destruct (new_uuid w) as [u w']. cbn [fst]. unfold StatusEventToProgress. cbn [se_Metadata se_Status s_Message m_Parts map].
  rewrite lookup_singleton_eq, float_roundtrip by done. cbn [from_option Datatypes.id part_Text NewTextPart p_Content].
  unfold progress_text. rewrite bool_decide_false by done. rewrite (bool_decide_false (_ = "")) by done. cbn [negb]. rewrite andb_true_r.
  set (z := int_of_float _). rewrite parse_progress_text. destruct (parse_whole z) as [pct Hpct]. rewrite Hpct.
  assert (Hrefl : SFeqb q q = true).
  { unfold SFeqb, SFcompare. destruct q as [[]|[]| |[] m e]; try done; rewrite ?Z.compare_refl, ?Pos.compare_refl, ?Pos.compare_cont_refl; done. }
  destruct (is_zero q) eqn:Ez.
  - assert (Hz : z = 0). { unfold z. destruct q as [[]|[]| |[] m e]; try done; by vm_compute. }
    rewrite Hz in Hpct. change (itoa 0) with "0" in Hpct. rewrite parse_zero in Hpct. injection Hpct as <-.
    assert (float_div float_zero (float_of_int 100) = float_zero) as -> by (by vm_compute).
    change (float_le float_zero float_zero) with true. cbv iota beta. change (clampProgress float_zero) with float_zero.
    split; [|done]. clear - Ez. destruct q as [[]|[]| |[] m e]; try discriminate Ez; by vm_compute.
  - rewrite bool_decide_false by done. by rewrite Hcl.
Qed.
End Progress.

(** ** The card *)
#[export] Instance skill_le_total : Total skill_le.
Proof. intros a b. unfold skill_le. apply (base.total String.le). Qed.

Section CardFacts.
Context {Ctx W : Type}.

(** The card lists exactly the exposed tools, by name; a card once made is shown until it is
    invalidated, whatever is registered in between. *)
Lemma card_lists_tools (reg : ToolRegistry Ctx CallToolRequest W) (g : AgentCardGenerator) :
  let card := (Generate reg g).1 in
  Sorted skill_le (Skills card) ∧
  (∀ s, s ∈ Skills card ↔ ∃ name td, tools reg !! name = Some td ∧ exposed (g_config g) td = true ∧ s = ToolToSkill (g_translator g) td) ∧
  (∀ reg', Card reg' (Generate reg g).2 = (card, (Generate reg g).2)) ∧
  (∀ reg', (Card reg' (Invalidate g)).1 = (Generate reg' g).1).
Proof.
  cbv zeta. cbn [Generate fst Skills generate_card]. split_and!.
  - apply (Sorted_merge_sort skill_le).
  - intros s. rewrite merge_sort_Permutation. setoid_rewrite list_elem_of_fmap. split.
    + intros (td & -> & H). apply list_elem_of_filter in H as [He H]. apply list_elem_of_fmap in H as ([k v] & -> & H).
      apply elem_of_map_to_list in H. by exists k, v.
    + intros (name & td & H & He & ->). exists td. split; [done|]. apply list_elem_of_filter. split; [done|].
      apply list_elem_of_fmap. exists (name, td). split; [done|]. by apply elem_of_map_to_list.
  - done.
  - done.
Qed.

(** A remote tool is not marked as writing, whatever the tags of its skill say. *)
Lemma remote_writes_unmarked {Req} (with_timeout : Ctx → duration → Ctx) new_uuid send (ra : RemoteAgent) (t : Translator) (td : ToolDefinition Req) :
  IsWrite td = true →
  "write" ∈ sk_Tags {| sk_ID := ""; sk_Name := ""; sk_Description := ""; InputModes := []; OutputModes := []; Examples := [];
    sk_Tags := (if bool_decide (Category td = "") then [] else [Category td]) ++ Tags td ++ [if IsWrite td then "write" else "read"] ++ SkillTags t |} ∧
  ∀ skill, IsWrite (skillToToolDefinition (W:=W) with_timeout new_uuid send ra skill) = false.
Proof. intros ->. split; [cbn; set_solver|]. intros skill. unfold skillToToolDefinition. by destruct (split_tags _). Qed.

(** A task that was cancelled, or waits for input, reads as a success without output. *)
Lemma cancelled_reads_as_success task : State (Status task) = TaskStateCanceled → Artifacts task = [] →
  translateTask task = MakeTextResult "(no output)".
Proof. intros Hs Ha. unfold translateTask. rewrite Hs, Ha. reflexivity. Qed.
End CardFacts.

(** ** Witnesses *)
Definition demo_uuid (n : nat) : string * nat := ("u" +:+ pretty n, S n).
Lemma demo_uuid_nonempty n : (demo_uuid n).1 ≠ "".
Proof. done. Qed.

Definition echo : ToolHandlerFunc unit CallToolRequest nat := λ _ req w,
  (Returns (Some (MakeTextResult (as_string (default ∅ (Arguments req) !! "say")))) None, w).
Definition echo_tool : ToolDefinition (ToolHandlerFunc unit CallToolRequest nat) := {|
  td_Tool := {| Name := "echo"; Title := ""; Annotations := zero_annotation; InputSchema := zero_schema; ToolOutputSchema := zero_schema;
                Meta := None; ToolDeferLoading := false; Description := "" |};
  Handler := echo; Category := ""; Tags := []; Subcategory := ""; SearchTerms := [];
  Complexity := ""; IsWrite := false; Deprecated := false; td_Timeout := 0; CircuitBreakerGroup := ""; RuntimeGroup := "";
  OutputSchema := None; MaxResultChars := 0; DeferLoading := false; AlwaysLoad := false; SkipRequiresUserInteraction := false;
  DestructiveOverride := None; IdempotentOverride := None; ReadOnlyOverride := None |}.
Definition echo_server : BridgeExecutor (Ctx:=unit) (W:=nat) :=
  NewBridgeExecutor (RegisterModule (NewToolRegistry []) {| mod_Name := "m"; mod_Description := ""; mod_Tools := [echo_tool] |}) None [] 0.
Definition echo_agent : RemoteAgent := {|
  ra_card := {| c_Name := "far"; c_Description := ""; c_Version := ""; Provider := None; Streaming := false; PushNotifications := false;
    DefaultInputModes := []; DefaultOutputModes := []; SupportedInterfaces := []; Skills := [] |};
  ra_timeout := DefaultRemoteTimeout; ra_prefix := "" |}.
Definition demo_args : gmap string json := {["say" := JString "hi"]}.
Definition no_kind {A} (_ : string) : option A := None.
Definition stored_tool : ToolDefinition (ToolHandlerFunc unit CallToolRequest nat) :=
  default echo_tool (GetTool (registry echo_server) "echo").

Definition demo_clock (n : nat) : Stamp := {| instant := unix_epoch + Z.of_nat n; offset := 0 |}.
(** Numbers are read as [float64]s. *)
Lemma remote_tool_is_the_tool_witness : ∃ w2,
  makeHandler (λ c _, c) demo_uuid (serve (λ _, None) (λ c _, c) demo_uuid demo_clock no_kind no_kind JString Err (λ _ n, n) echo_server) echo_agent "echo" tt
    (NewCallToolRequest "echo" (Some {["message" := JString (" {" +:+ quote "say" +:+ ": " +:+ quote "hi" +:+ ", " +:+ quote "n" +:+ ": 1.50}")]})) 0%nat =
  (Returns (Some (MakeTextResult "hi")) None, w2).
Proof.
  pose proof (remote_tool_is_the_tool (λ _, None) (λ c _, c) demo_uuid demo_clock no_kind no_kind JString Err (λ _ n, n) demo_uuid_nonempty echo_server echo_agent
    stored_tool "echo" (" {" +:+ quote "say" +:+ ": " +:+ quote "hi" +:+ ", " +:+ quote "n" +:+ ": 1.50}") (<["n" := JNumber "1.5"]> demo_args) tt 0%nat) as H.
  specialize (H ltac:(done) ltac:(reflexivity) ltac:(done) ltac:(vm_compute; reflexivity) ltac:(vm_compute; reflexivity)).
  exact H.
Defined.

(** A codec for floats: any injective one will do. *)
Fixpoint positive_json (p : positive) : json :=
  match p with xH => JNull | xO p => JArray [positive_json p] | xI p => JObject [("", positive_json p)] end.
Fixpoint json_positive (v : json) : option positive :=
  match v with
  | JNull => Some xH
  | JArray [v] => xO <$> json_positive v
  | JObject [(_, v)] => xI <$> json_positive v
  | _ => None
  end.
Definition demo_float_json (f : float64) : json :=
  match f with
  | S754_zero s => JBool s
  | S754_finite s m e =>
      JArray [JBool s; positive_json m;
              match e with Z0 => JBool true | Zpos p => JArray [positive_json p] | Zneg p => JObject [("", positive_json p)] end]
  | _ => JNull
  end.
Definition demo_json_float (v : json) : option float64 :=
  match v with
  | JBool s => Some (S754_zero s)
  | JArray [JBool s; m; e] =>
      m ← json_positive m;
      e ← match e with
          | JBool _ => Some 0
          | JArray [p] => Zpos <$> json_positive p
          | JObject [(_, p)] => Zneg <$> json_positive p
          | _ => None
          end;
      Some (S754_finite s m e)
  | _ => None
  end.
Lemma json_positive_json p : json_positive (positive_json p) = Some p.
Proof. induction p as [p IH|p IH|]; cbn; by rewrite ?IH. Qed.
Lemma demo_float_roundtrip f : is_finite f = true → demo_json_float (demo_float_json f) = Some f.
Proof. destruct f as [s| | |s m [|p|p]]; try done; intros _; cbn; by rewrite ?json_positive_json. Qed.

Definition half : float64 := float_div (float_of_int 1) (float_of_int 2).
Lemma progress_roundtrip_witness :
  let '(progress, text) := StatusEventToProgress demo_json_float (λ _, Some float_zero)
    (ProgressToStatusEvent demo_uuid demo_float_json {| ti_TaskID := "t"; ti_ContextID := "c" |} half "half way" 0%nat).1 in
  SFeqb progress (clampProgress half) = true ∧ text = "half way".
Proof.
  apply (progress_roundtrip demo_uuid demo_float_json demo_json_float (λ _, Some float_zero) demo_float_roundtrip
    (λ _, ltac:(by eexists)) eq_refl); [by vm_compute|done].
Defined.
