(* ===== verification/A2aJson.v ===== *)
(** The wire format of the agent-to-agent protocol (src/_reference/a2a-go/a2a/core.go): messages, parts, tasks and
    events as JSON, written and read.  An empty list stands for a nil slice: where the
    code writes null for a nil list of parts, an empty list is written here.  A null where a task or an event has an
    artifact is refused; the code keeps a nil pointer. *)

From stdpp Require Import base tactics list gmap strings.
From Stdlib Require Import ZArith Lia Ascii ZifyNat.
From S2P Require Import Prelude Truncate Json Rfc3339 A2a Number Paging.

Local Open Scope Z_scope.

(** ** Base64 with the standard alphabet and padding (encoding/base64's StdEncoding) *)
Definition std_alphabet (n : nat) : nat := if (n =? 62)%nat then 43 else if (n =? 63)%nat then 47 else alphabet n.
Definition std_sextet (c : nat) : option nat :=
  if (c =? 43)%nat then Some 62%nat else if (c =? 47)%nat then Some 63%nat
  else if (c =? 45)%nat || (c =? 95)%nat then None else sextet c.
Definition pad : nat := 61.
Definition padding (n : nat) : list nat := match (n mod 4)%nat with 2%nat => [pad; pad] | 3%nat => [pad] | _ => [] end.

Definition base64 (s : string) : string :=
  let l := sextets (string_bytes s) in bytes_string ((std_alphabet <$> l) ++ padding (length l)).
(** The characters before the padding of a text whose length is a multiple of four. *)
Definition unpadded (cs : list nat) : list nat :=
  match reverse cs with
  | a :: b :: r => if (a =? pad)%nat then if (b =? pad)%nat then reverse r else reverse (b :: r) else cs
  | _ => cs
  end.
Definition unbase64 (s : string) : option string :=
  let cs := filter (λ c, c ≠ 10%nat ∧ c ≠ 13%nat) (string_bytes s) in
  if (length cs mod 4 =? 0)%nat then ss ← mapM std_sextet (unpadded cs); bytes_string <$> octets ss else None.

(** ** Structs: members in the order of the fields; an omitted one is [None] *)
Definition members (l : list (string * option json)) : list (string * json) := omap (λ p, (p.1,.) <$> p.2) l.
Definition omitempty (s : string) : option json := if bool_decide (s = "") then None else Some (JString s).
Definition omit_map (m : gmap string json) : option json := if bool_decide (m = ∅) then None else Some (json_of_map m).
Definition omit_list {A} (f : A → json) (l : list A) : option json := match l with [] => None | _ => Some (JArray (map f l)) end.
Definition omit_false (b : bool) : option json := if b then Some (JBool true) else None.
Definition or_null {A} (f : A → json) (x : option A) : json := match x with Some x => f x | None => JNull end.

(** ** Reading the fields: a value over the one before it; [None] is a type error *)
Definition dec_value_map (old : gmap string json) (v : json) : option (gmap string json) := default ∅ <$> dec_map (Some old) v.
Definition dec_bool (old : bool) (v : json) : option bool := match v with JBool b => Some b | JNull => Some old | _ => None end.
(** A list given twice: the last one counts. *)
Definition dec_list {A} (dec : json → option A) (old : list A) (v : json) : option (list A) :=
  match v with JNull => Some [] | JArray l => mapM dec l | _ => None end.
Definition dec_ptr {A} (dec : A → json → option A) (zero : A) (old : option A) (v : json) : option (option A) :=
  match v with JNull => Some None | v => Some <$> dec (default zero old) v end.
Definition dec_struct {A} (dec : A → list (string * json) → option A) (old : A) (v : json) : option A :=
  match v with JObject l => dec old l | JNull => Some old | _ => None end.

(** ** Roles and states: the empty ones have a name on the wire *)
Definition enum_String (unspecified s : string) : string := if bool_decide (s = "") then unspecified else s.
Definition dec_enum (unspecified old : string) (v : json) : option string :=
  match v with
  | JString s => Some (if bool_decide (s = unspecified) then "" else s)
  | JNull => Some ""
  | _ => None
  end.
Definition role_json (r : string) : json := JString (enum_String "ROLE_UNSPECIFIED" r).
Definition dec_role : string → json → option string := dec_enum "ROLE_UNSPECIFIED".
Definition state_json (s : TaskState) : json := JString (enum_String "TASK_STATE_UNSPECIFIED" s).
Definition dec_state : string → json → option string := dec_enum "TASK_STATE_UNSPECIFIED".

(** ** Parts: the content is a member of the part *)
Definition content_member (c : option PartContent) : gmap string json :=
  match c with
  | Some (Text s) => {["text" := JString s]}
  | Some (Raw b) => {["raw" := JString (base64 b)]}
  | Some (Data v) => {["data" := v]}
  | Some (URL u) => {["url" := JString u]}
  | None => ∅
  end.
Definition put (k : string) (v : option json) (m : gmap string json) : gmap string json :=
  match v with Some v => <[k := v]> m | None => m end.
Definition part_json (p : Part) : json := json_of_map (
  put "metadata" (omit_map (p_Metadata p)) (put "mediaType" (omitempty (MediaType p))
    (put "filename" (omitempty (Filename p)) (content_member (p_Content p))))).

Definition dec_content (m : gmap string json) : option (option PartContent) :=
  match m !! "text" with
  | Some (JString s) => Some (Some (Text s))
  | _ =>
      match m !! "raw" with
      | Some (JString s) => b ← unbase64 s; Some (Some (Raw b))
      | _ =>
          match m !! "data" with
          | Some v => Some (Some (Data v))
          | None => match m !! "url" with Some (JString u) => Some (Some (URL u)) | _ => Some None end
          end
      end
  end.
Definition dec_part (v : json) : option Part :=
  m ← dec_map None v;
  match m with
  | Some m =>
      c ← dec_content m;
      Some {| p_Content := c; Filename := as_string (m !! "filename"); MediaType := as_string (m !! "mediaType");
              p_Metadata := default ∅ (as_map (m !! "metadata")) |}
  | None => Some {| p_Content := None; Filename := ""; MediaType := ""; p_Metadata := ∅ |}
  end.
Definition dec_nullable {A} (dec : json → option A) (v : json) : option (option A) :=
  match v with JNull => Some None | v => Some <$> dec v end.
Definition parts_json (l : list (option Part)) : json := JArray (map (or_null part_json) l).
Definition dec_parts : list (option Part) → json → option (list (option Part)) := dec_list (dec_nullable dec_part).

(** ** Messages *)
Definition dec_text (v : json) : option string := dec_string "" v.
Definition message_json (m : Message) : json := JObject (members [
  ("messageId", Some (JString (m_ID m))); ("contextId", omitempty (m_ContextID m));
  ("extensions", omit_list JString (m_Extensions m)); ("metadata", omit_map (m_Metadata m));
  ("parts", Some (parts_json (m_Parts m))); ("referenceTaskIds", omit_list JString (ReferenceTasks m));
  ("role", Some (role_json (Role m))); ("taskId", omitempty (m_TaskID m))]).
Definition zero_message : Message := {| m_ID := ""; m_ContextID := ""; m_Extensions := []; m_Metadata := ∅; m_Parts := [];
  ReferenceTasks := []; Role := ""; m_TaskID := "" |}.
Definition dec_message : Message → json → option Message := dec_struct (λ old l,
  id ← field dec_string (m_ID old) "messageId" l;
  ctx ← field dec_string (m_ContextID old) "contextId" l;
  ext ← field (dec_list dec_text) (m_Extensions old) "extensions" l;
  meta ← field dec_value_map (m_Metadata old) "metadata" l;
  parts ← field dec_parts (m_Parts old) "parts" l;
  refs ← field (dec_list dec_text) (ReferenceTasks old) "referenceTaskIds" l;
  role ← field dec_role (Role old) "role" l;
  task ← field dec_string (m_TaskID old) "taskId" l;
  Some {| m_ID := id; m_ContextID := ctx; m_Extensions := ext; m_Metadata := meta; m_Parts := parts; ReferenceTasks := refs;
          Role := role; m_TaskID := task |}).

(** ** Artifacts, tasks, events *)
Definition artifact_json (a : Artifact) : json := JObject (members [
  ("artifactId", Some (JString (a_ID a))); ("description", omitempty (a_Description a));
  ("extensions", omit_list JString (a_Extensions a)); ("metadata", omit_map (a_Metadata a)); ("name", omitempty (a_Name a));
  ("parts", Some (parts_json (a_Parts a)))]).
Definition zero_artifact : Artifact := {| a_ID := ""; a_Description := ""; a_Name := ""; a_Extensions := []; a_Metadata := ∅; a_Parts := [] |}.
Definition dec_artifact : Artifact → json → option Artifact := dec_struct (λ old l,
  id ← field dec_string (a_ID old) "artifactId" l;
  desc ← field dec_string (a_Description old) "description" l;
  ext ← field (dec_list dec_text) (a_Extensions old) "extensions" l;
  meta ← field dec_value_map (a_Metadata old) "metadata" l;
  name ← field dec_string (a_Name old) "name" l;
  parts ← field dec_parts (a_Parts old) "parts" l;
  Some {| a_ID := id; a_Description := desc; a_Name := name; a_Extensions := ext; a_Metadata := meta; a_Parts := parts |}).

Definition status_json (s : TaskStatus) : json := JObject (members [
  ("message", message_json <$> s_Message s); ("state", Some (state_json (State s))); ("timestamp", time_json <$> s_Timestamp s)]).
Definition zero_status : TaskStatus := {| s_Message := None; State := ""; s_Timestamp := None |}.
Definition dec_status : TaskStatus → json → option TaskStatus := dec_struct (λ old l,
  msg ← field (dec_ptr dec_message zero_message) (s_Message old) "message" l;
  state ← field dec_state (State old) "state" l;
  at_ ← field (dec_ptr dec_stamp zero_stamp) (s_Timestamp old) "timestamp" l;
  Some {| s_Message := msg; State := state; s_Timestamp := at_ |}).

Definition dec_history : list (option Message) → json → option (list (option Message)) :=
  dec_list (dec_nullable (dec_message zero_message)).
Definition not_null {A} (dec : A → json → option A) (zero : A) (v : json) : option A :=
  match v with JNull => None | v => dec zero v end.
Definition task_json (t : Task) : json := JObject (members [
  ("id", Some (JString (t_ID t))); ("artifacts", omit_list artifact_json (Artifacts t));
  ("contextId", Some (JString (t_ContextID t))); ("history", omit_list (or_null message_json) (History t));
  ("metadata", omit_map (t_Metadata t)); ("status", Some (status_json (Status t)))]).
Definition zero_task : Task := {| t_ID := ""; Artifacts := []; t_ContextID := ""; History := []; t_Metadata := ∅; Status := zero_status |}.
Definition dec_task : Task → json → option Task := dec_struct (λ old l,
  id ← field dec_string (t_ID old) "id" l;
  arts ← field (dec_list (not_null dec_artifact zero_artifact)) (Artifacts old) "artifacts" l;
  ctx ← field dec_string (t_ContextID old) "contextId" l;
  hist ← field dec_history (History old) "history" l;
  meta ← field dec_value_map (t_Metadata old) "metadata" l;
  status ← field dec_status (Status old) "status" l;
  Some {| t_ID := id; Artifacts := arts; t_ContextID := ctx; History := hist; t_Metadata := meta; Status := status |}).

Definition status_event_json (e : TaskStatusUpdateEvent) : json := JObject (members [
  ("contextId", Some (JString (se_ContextID e))); ("status", Some (status_json (se_Status e)));
  ("taskId", Some (JString (se_TaskID e))); ("metadata", omit_map (se_Metadata e))]).
Definition dec_status_event : TaskStatusUpdateEvent → json → option TaskStatusUpdateEvent := dec_struct (λ old l,
  ctx ← field dec_string (se_ContextID old) "contextId" l;
  status ← field dec_status (se_Status old) "status" l;
  task ← field dec_string (se_TaskID old) "taskId" l;
  meta ← field dec_value_map (se_Metadata old) "metadata" l;
  Some {| se_ContextID := ctx; se_Status := status; se_TaskID := task; se_Metadata := meta |}).
Definition zero_status_event : TaskStatusUpdateEvent :=
  {| se_ContextID := ""; se_Status := zero_status; se_TaskID := ""; se_Metadata := ∅ |}.

Definition artifact_event_json (e : TaskArtifactUpdateEvent) : json := JObject (members [
  ("append", omit_false (Append e)); ("artifact", Some (artifact_json (e_Artifact e)));
  ("contextId", Some (JString (ae_ContextID e))); ("lastChunk", omit_false (LastChunk e));
  ("taskId", Some (JString (ae_TaskID e))); ("metadata", omit_map (ae_Metadata e))]).
(** The artifact is a pointer: an event without one is refused here. *)
Definition dec_artifact_event : json → option TaskArtifactUpdateEvent := λ v,
  match v with
  | JObject l =>
      append ← field dec_bool false "append" l;
      art ← field (dec_ptr dec_artifact zero_artifact) None "artifact" l;
      art ← art;
      ctx ← field dec_string "" "contextId" l;
      last ← field dec_bool false "lastChunk" l;
      task ← field dec_string "" "taskId" l;
      meta ← field dec_value_map ∅ "metadata" l;
      Some {| Append := append; e_Artifact := art; ae_ContextID := ctx; LastChunk := last; ae_TaskID := task; ae_Metadata := meta |}
  | _ => None
  end.

(** ** Streams: one event under the name of its kind *)
Definition event_json (e : Event) : json :=
  match e with
  | EMessage m => JObject [("message", message_json m)]
  | ETask t => JObject [("task", task_json t)]
  | EStatus e => JObject [("statusUpdate", status_event_json e)]
  | EArtifact e => JObject [("artifactUpdate", artifact_event_json e)]
  end.
Definition MarshalEvent (e : Event) : string := print true (event_json e).
Definition dec_event (v : json) : option Event :=
  match v with
  | JObject l =>
      let raw := object_map l in
      match raw !! "message" with
      | Some v => EMessage <$> dec_message zero_message v
      | None =>
          match raw !! "task" with
          | Some v => ETask <$> dec_task zero_task v
          | None =>
              match raw !! "statusUpdate" with
              | Some v => EStatus <$> dec_status_event zero_status_event v
              | None => match raw !! "artifactUpdate" with Some v => EArtifact <$> dec_artifact_event v | None => None end
              end
          end
      end
  | _ => None
  end.
Definition UnmarshalEvent (s : string) : option Event := parse s ≫= dec_event.

(** ** Requests *)
Record SendMessageRequest := { req_Tenant : string; req_Message : option Message; req_Metadata : gmap string json }.
Definition request_json (r : SendMessageRequest) : json := JObject (members [
  ("tenant", omitempty (req_Tenant r)); ("message", Some (or_null message_json (req_Message r)));
  ("metadata", omit_map (req_Metadata r))]).
Definition dec_request : SendMessageRequest → json → option SendMessageRequest := dec_struct (λ old l,
  tenant ← field dec_string (req_Tenant old) "tenant" l;
  msg ← field (dec_ptr dec_message zero_message) (req_Message old) "message" l;
  meta ← field dec_value_map (req_Metadata old) "metadata" l;
  Some {| req_Tenant := tenant; req_Message := msg; req_Metadata := meta |}).
Definition zero_request : SendMessageRequest := {| req_Tenant := ""; req_Message := None; req_Metadata := ∅ |}.

(** ** Base64 round trip *)
Lemma std_sextet_alphabet n : (n < 64)%nat → std_sextet (std_alphabet n) = Some n ∧ (std_alphabet n < 256)%nat ∧
  std_alphabet n ≠ 10%nat ∧ std_alphabet n ≠ 13%nat ∧ std_alphabet n ≠ pad.
Proof. intros H. do 64 (destruct n as [|n]; [split; [reflexivity|vm_compute; lia]|]). lia. Qed.

Lemma length_sextets l : (length (sextets l) mod 4 ≠ 1)%nat.
Proof.
  revert l. fix IH 1. intros [|a [|b [|c l]]]; [clear; cbn; lia..|]. cbn [sextets length].
  specialize (IH l). generalize dependent (length (sextets l)). intros n Hn. byte_arith.
Qed.

Lemma unpadded_padding l n : Forall (λ c, c ≠ pad) l → length l = n → (n mod 4 ≠ 1)%nat → unpadded (l ++ padding n) = l.
Proof.
  intros Hl Hn Hmod. unfold padding. pose proof (Nat.mod_upper_bound n 4 ltac:(done)).
  assert (n mod 4 = 0 ∨ n mod 4 = 2 ∨ n mod 4 = 3)%nat as [E|[E|E]] by lia; rewrite E.
  - rewrite app_nil_r. unfold unpadded. destruct (reverse l) as [|a [|b r]] eqn:Er; [done..|].
    assert (a ≠ pad) as Ha by (rewrite <- Forall_reverse, Er in Hl; by inversion Hl).
    by rewrite (proj2 (Nat.eqb_neq _ _) Ha).
  - unfold unpadded. rewrite reverse_app. change (reverse [pad; pad]) with [pad; pad]. cbn [app]. rewrite !Nat.eqb_refl. apply reverse_involutive.
  - unfold unpadded. rewrite reverse_app. change (reverse [pad]) with [pad]. destruct l as [|c l _] using rev_ind; [by subst n|].
    rewrite reverse_snoc. cbn [app]. rewrite Nat.eqb_refl.
    assert (c ≠ pad) as Hc by (apply Forall_app in Hl as [_ Hc]; by inversion Hc). rewrite (proj2 (Nat.eqb_neq _ _) Hc). by rewrite reverse_cons, reverse_involutive.
Qed.

Lemma unbase64_base64 s : unbase64 (base64 s) = Some s.
Proof.
  unfold unbase64, base64. set (l := sextets (string_bytes s)).
  pose proof (sextets_small _ (string_bytes_small s)) as Hs. fold l in Hs.
  assert (Hpad : Forall (λ c, c < 256 ∧ c ≠ 10 ∧ c ≠ 13)%nat (padding (length l))) by (unfold padding; repeat case_match; repeat constructor; vm_compute; lia).
  assert (Hall : Forall (λ c, c < 256 ∧ c ≠ 10 ∧ c ≠ 13)%nat ((std_alphabet <$> l) ++ padding (length l))).
  { apply Forall_app. split; [|done]. apply Forall_fmap. eapply Forall_impl; [exact Hs|]. intros n Hn. cbn. pose proof (std_sextet_alphabet n Hn). tauto. }
  rewrite ascii_bytes by (eapply Forall_impl; [exact Hall|]; intros ? (? & ? & ?); done). rewrite filter_all by (rewrite Forall_forall in Hall; intros x Hx; by destruct (Hall x Hx) as (? & ? & ?)).
  pose proof (length_sextets (string_bytes s)) as Hlen. fold l in Hlen.
  assert ((length ((std_alphabet <$> l) ++ padding (length l)) mod 4 =? 0)%nat = true) as ->.
  { rewrite length_app, length_fmap. clear -Hlen. revert Hlen. unfold padding. generalize (length l). intros n Hn. apply Nat.eqb_eq.
    pose proof (Nat.mod_upper_bound n 4 ltac:(done)). assert (n mod 4 = 0 ∨ n mod 4 = 2 ∨ n mod 4 = 3)%nat as [E|[E|E]] by lia; rewrite E; cbn [length]; byte_arith. }
  rewrite unpadded_padding; [|by apply Forall_fmap; eapply Forall_impl; [exact Hs|]; intros n Hn; cbn; pose proof (std_sextet_alphabet n Hn); tauto|by rewrite length_fmap|done].
  assert (mapM std_sextet (std_alphabet <$> l) = Some l) as ->.
  { apply mapM_Some. apply Forall2_fmap_l. clear -Hs. induction Hs; constructor; [by apply std_sextet_alphabet|done]. }
  cbn. unfold l. rewrite octets_sextets by apply string_bytes_small. cbn. by rewrite bytes_of_string.
Qed.

(** ** Reading back what was written *)
Definition read_member {A} (dec : A → json → option A) (zero : A) (v : option json) : option A :=
  match v with Some v => dec zero v | None => Some zero end.

Lemma occurrences_cons {A} name k (v : A) l :
  occurrences name ((k, v) :: l) = (if decide (fold_key k = fold_key name) then [v] else []) ++ occurrences name l.
Proof. unfold occurrences. rewrite filter_cons. cbn [fst]. by destruct (decide _). Qed.

Lemma occurrences_none {A} name (l : list (string * A)) : fold_key name ∉ map fold_key (map fst l) → occurrences name l = [].
Proof.
  induction l as [|[k v] l IH]; intros H; [done|]. cbn [map fst] in H. apply not_elem_of_cons in H as [Hk H].
  rewrite occurrences_cons, decide_False by congruence. by apply IH.
Qed.

Lemma occurrences_members name ov l : NoDup (map fold_key (map fst l)) → (name, ov) ∈ l →
  occurrences name (members l) = match ov with Some v => [v] | None => [] end.
Proof.
  assert (Hsub : ∀ l k, k ∉ map fold_key (map fst l) → k ∉ map fold_key (map fst (members l))).
  { clear. intros l k. induction l as [|[k' [v|]] l IH]; cbn; [done|..]; intros [? ?]%not_elem_of_cons; [|by apply IH].
    apply not_elem_of_cons. split; [done|]. by apply IH. }
  induction l as [|[k o] l IH]; intros Hnd Hin; [by apply elem_of_nil in Hin|]. cbn [map fst] in Hnd. apply NoDup_cons in Hnd as [Hk Hnd].
  apply elem_of_cons in Hin as [[= -> ->]|Hin].
  - destruct o as [v|]; cbn [members omap list_omap fmap option_fmap option_map snd fst].
    + rewrite occurrences_cons, decide_True by done. cbn. f_equal. apply occurrences_none. by apply Hsub.
    + apply occurrences_none. by apply Hsub.
  - assert (fold_key k ≠ fold_key name).
    { intros E. apply Hk. rewrite E, map_map. apply list_elem_of_In, in_map_iff. exists (name, ov). split; [done|]. by apply list_elem_of_In. }
    destruct o as [v|]; cbn [members omap list_omap fmap option_fmap option_map snd fst]; [|by apply IH].
    rewrite occurrences_cons, decide_False by done. by apply IH.
Qed.

Lemma field_members {A} (dec : A → json → option A) zero name ov l :
  NoDup (map fold_key (map fst l)) → (name, ov) ∈ l → field dec zero name (members l) = read_member dec zero ov.
Proof. intros Hnd Hin. unfold field. rewrite (occurrences_members _ ov) by done. by destruct ov. Qed.

(** A field of an object that was just written. *)
Ltac read_fields :=
  repeat (erewrite field_members;
    [|apply (bool_decide_unpack _); vm_compute; exact I|by repeat first [apply list_elem_of_here | apply list_elem_of_further]]).

Lemma read_omitempty s : read_member dec_string "" (omitempty s) = Some s.
Proof. unfold omitempty. case_bool_decide; by subst. Qed.
Lemma read_omit_false b : read_member dec_bool false (omit_false b) = Some b.
Proof. by destruct b. Qed.
Lemma dec_value_map_json m : held_map m → dec_value_map ∅ (json_of_map m) = Some m.
Proof. intros H. unfold dec_value_map. by rewrite (proj1 (dec_map_of_map m H)). Qed.
Lemma read_omit_map m : held_map m → read_member dec_value_map ∅ (omit_map m) = Some m.
Proof. intros H. unfold omit_map. case_bool_decide; [by subst|]. by apply dec_value_map_json. Qed.

Lemma mapM_map {A} (f : A → json) (dec : json → option A) l : Forall (λ x, dec (f x) = Some x) l → mapM dec (map f l) = Some l.
Proof. induction 1 as [|x l Hx Hl IH]; [done|]. cbn. rewrite Hx. cbn. fold (mapM dec (map f l)). by rewrite IH. Qed.
Lemma read_omit_list {A} (f : A → json) (dec : json → option A) l : Forall (λ x, dec (f x) = Some x) l →
  read_member (dec_list dec) [] (omit_list f l) = Some l.
Proof. intros H. destruct l as [|x l]; [done|]. unfold omit_list, read_member, dec_list. by apply mapM_map. Qed.
Lemma read_omit_texts l : read_member (dec_list dec_text) [] (omit_list JString l) = Some l.
Proof. by apply read_omit_list, Forall_true. Qed.

Lemma dec_enum_String u s : s ≠ u → dec_enum u "" (JString (enum_String u s)) = Some s.
Proof.
  intros H. unfold enum_String. destruct (bool_decide (s = "")) eqn:E; cbn.
  - apply bool_decide_eq_true in E as ->. by rewrite bool_decide_eq_true_2.
  - by rewrite bool_decide_eq_false_2.
Qed.

Lemma put_ne k k' v m : k ≠ k' → put k v m !! k' = m !! k'.
Proof. intros H. destruct v; cbn; [by rewrite lookup_insert_ne|done]. Qed.
Lemma put_text k s m : m !! k = None → as_string (put k (omitempty s) m !! k) = s.
Proof. intros H. unfold omitempty. case_bool_decide; cbn; [by rewrite H|by rewrite lookup_insert_eq]. Qed.

(** What an [any] holds: the data of a part, and metadata. *)
Definition part_ok (p : Part) : Prop :=
  held_map (p_Metadata p) ∧ match p_Content p with Some (Data v) => held v | _ => True end.
Definition parts_ok : list (option Part) → Prop := Forall (from_option part_ok True).
Lemma put_held k v m : from_option held True v → held_map m → held_map (put k v m).
Proof. intros Hv Hm. destruct v as [v|]; [|done]. by apply map_Forall_insert_2. Qed.
Lemma omitempty_held s : from_option held True (omitempty s).
Proof. unfold omitempty. by case_bool_decide. Qed.
Lemma part_members_held p : part_ok p → held_map (put "metadata" (omit_map (p_Metadata p)) (put "mediaType" (omitempty (MediaType p))
    (put "filename" (omitempty (Filename p)) (content_member (p_Content p))))).
Proof.
  intros [Hm Hc]. apply put_held; [unfold omit_map; case_bool_decide; [done|by apply held_of_map]|].
  apply put_held; [apply omitempty_held|]. apply put_held; [apply omitempty_held|].
  destruct (p_Content p) as [[]|]; cbn; first [done|apply map_Forall_singleton; done].
Qed.

Lemma dec_part_json p : part_ok p → dec_part (part_json p) = Some p.
Proof.
  intros Hp. unfold dec_part, part_json. rewrite (proj2 (dec_map_of_map _ (part_members_held p Hp))). cbn [mbind option_bind]. clear Hp.
  destruct p as [c fn mt meta]. cbn [p_Content Filename MediaType p_Metadata].
  set (content := content_member c). set (m1 := put "filename" (omitempty fn) content). set (m2 := put "mediaType" (omitempty mt) m1).
  assert (Hc : ∀ k, k ∉ ["text"; "raw"; "data"; "url"] → content !! k = None).
  { intros k Hk. rewrite !not_elem_of_cons in Hk. destruct Hk as (?&?&?&?&_). unfold content. destruct c as [[]|]; cbn; by rewrite ?lookup_singleton_ne, ?lookup_empty. }
  assert (Hd : dec_content (put "metadata" (omit_map meta) m2) = Some c).
  { unfold dec_content, m2, m1. rewrite !put_ne by done. unfold content.
    destruct c as [[s|b|v|u]|]; cbn [content_member]; rewrite ?lookup_singleton_ne, ?lookup_singleton_eq, ?lookup_empty by done; cbn [mbind option_bind];
      by rewrite ?unbase64_base64. }
  rewrite Hd. cbn [mbind option_bind]. do 2 f_equal.
  - unfold m2. rewrite !put_ne by done. apply put_text, Hc. by apply (bool_decide_unpack _).
  - rewrite put_ne by done. apply put_text. unfold m1. rewrite put_ne by done. apply Hc. by apply (bool_decide_unpack _).
  - unfold omit_map. case_bool_decide as E; cbn.
    + subst meta. unfold m2, m1. rewrite !put_ne by done. rewrite Hc; [done|]. by apply (bool_decide_unpack _).
    + rewrite lookup_insert_eq. cbn. by rewrite object_map_of_map.
Qed.

Lemma dec_or_null {A} (f : A → json) (dec : json → option A) x : (∀ y, x = Some y → dec (f y) = Some y ∧ f y ≠ JNull) →
  dec_nullable dec (or_null f x) = Some x.
Proof. intros H. destruct x as [y|]; [|done]. destruct (H y eq_refl) as [E Hn]. cbn. unfold dec_nullable. rewrite E. by destruct (f y). Qed.
Lemma dec_parts_json l : parts_ok l → dec_parts [] (parts_json l) = Some l.
Proof.
  intros H. unfold dec_parts, dec_list, parts_json. apply mapM_map. eapply Forall_impl; [exact H|]. intros p Hp. apply dec_or_null. intros q ->.
  split; [by apply dec_part_json|done].
Qed.

(** What the wire can carry: roles and states that are not called by the names of the empty ones, times that
    have a text, and values an [any] holds. *)
Definition message_ok (m : Message) : Prop := Role m ≠ "ROLE_UNSPECIFIED" ∧ held_map (m_Metadata m) ∧ parts_ok (m_Parts m).
Definition artifact_ok (a : Artifact) : Prop := held_map (a_Metadata a) ∧ parts_ok (a_Parts a).
Definition status_ok (s : TaskStatus) : Prop :=
  State s ≠ "TASK_STATE_UNSPECIFIED" ∧ from_option message_ok True (s_Message s) ∧ from_option (λ t, writable t = true) True (s_Timestamp s).
Definition task_ok (t : Task) : Prop :=
  status_ok (Status t) ∧ Forall (from_option message_ok True) (History t) ∧ Forall artifact_ok (Artifacts t) ∧ held_map (t_Metadata t).
Definition event_ok (e : Event) : Prop :=
  match e with
  | EMessage m => message_ok m
  | ETask t => task_ok t
  | EStatus e => status_ok (se_Status e) ∧ held_map (se_Metadata e)
  | EArtifact e => artifact_ok (e_Artifact e) ∧ held_map (ae_Metadata e)
  end.
Definition request_ok (r : SendMessageRequest) : Prop := from_option message_ok True (req_Message r) ∧ held_map (req_Metadata r).

Lemma dec_message_json m : message_ok m → dec_message zero_message (message_json m) = Some m.
Proof.
  intros (Hr & Hm & Hp). unfold dec_message, message_json, dec_struct. read_fields. cbn [zero_message m_ID m_ContextID m_Extensions m_Metadata m_Parts ReferenceTasks Role m_TaskID].
  rewrite !read_omitempty, !read_omit_texts, read_omit_map by done. cbn [read_member dec_string]. rewrite dec_parts_json by done. unfold dec_role, role_json.
  rewrite dec_enum_String by done. by destruct m.
Qed.
Lemma dec_artifact_json a : artifact_ok a → dec_artifact zero_artifact (artifact_json a) = Some a.
Proof.
  intros [Hm Hp]. unfold dec_artifact, artifact_json, dec_struct. read_fields. cbn [zero_artifact a_ID a_Description a_Extensions a_Metadata a_Name a_Parts].
  rewrite !read_omitempty, !read_omit_texts, read_omit_map by done. cbn [read_member dec_string]. rewrite dec_parts_json by done. by destruct a.
Qed.
(** A pointer to something that is written as an object or a string. *)
Lemma read_ptr {A} (f : A → json) (dec : A → json → option A) zero x : (∀ y, x = Some y → dec zero (f y) = Some y ∧ f y ≠ JNull) →
  read_member (dec_ptr dec zero) None (f <$> x) = Some x.
Proof.
  intros H. destruct x as [y|]; [|done]. destruct (H y eq_refl) as [E Hn]. cbn [fmap option_fmap option_map read_member dec_ptr].
  destruct (f y) eqn:Ef; try done; cbn [dec_ptr default from_option Datatypes.id]; unfold Datatypes.id; by rewrite E.
Qed.
Lemma dec_status_json s : status_ok s → dec_status zero_status (status_json s) = Some s.
Proof.
  intros (Hs & Hm & Ht). unfold dec_status, status_json, dec_struct. read_fields. cbn [zero_status s_Message State s_Timestamp].
  rewrite (read_ptr message_json) by (intros m Em; rewrite Em in Hm; split; [by apply dec_message_json|done]).
  rewrite (read_ptr time_json) by (intros t Et; rewrite Et in Ht; split; [by apply parse_format_rfc3339|done]).
  cbn [read_member]. unfold dec_state, state_json. rewrite dec_enum_String by done. by destruct s.
Qed.
Lemma dec_task_json t : task_ok t → dec_task zero_task (task_json t) = Some t.
Proof.
  intros (Hs & Hh & Ha & Hm). unfold dec_task, task_json, dec_struct. read_fields. cbn [zero_task t_ID Artifacts t_ContextID History t_Metadata Status].
  unfold dec_history. rewrite read_omit_map by done. rewrite read_omit_list, read_omit_list.
  - cbn [read_member dec_string]. rewrite dec_status_json by done. by destruct t.
  - eapply Forall_impl; [exact Ha|]. intros a. apply dec_artifact_json.
  - eapply Forall_impl; [exact Hh|]. intros m Hm'. apply dec_or_null. intros m' ->. split; [by apply dec_message_json|done].
Qed.
Lemma dec_status_event_json e : status_ok (se_Status e) ∧ held_map (se_Metadata e) →
  dec_status_event zero_status_event (status_event_json e) = Some e.
Proof.
  intros [Hs Hm]. unfold dec_status_event, status_event_json, dec_struct. read_fields. cbn [zero_status_event se_ContextID se_Status se_TaskID se_Metadata].
  rewrite read_omit_map by done. cbn [read_member dec_string]. rewrite dec_status_json by done. by destruct e.
Qed.
Lemma dec_artifact_event_json e : artifact_ok (e_Artifact e) ∧ held_map (ae_Metadata e) → dec_artifact_event (artifact_event_json e) = Some e.
Proof.
  intros [Ha Hm]. unfold dec_artifact_event, artifact_event_json. read_fields. rewrite !read_omit_false, read_omit_map by done. cbn [read_member dec_string].
  unfold dec_ptr. change (match artifact_json (e_Artifact e) with JNull => _ | _ => _ end) with (Some <$> dec_artifact zero_artifact (artifact_json (e_Artifact e))).
  rewrite dec_artifact_json by done. by destruct e.
Qed.
Lemma dec_request_json r : request_ok r → dec_request zero_request (request_json r) = Some r.
Proof.
  intros [Hr Hm]. unfold dec_request, request_json, dec_struct. read_fields. cbn [zero_request req_Tenant req_Message req_Metadata].
  rewrite read_omit_map, read_omitempty by done. cbn [read_member].
  assert (dec_ptr dec_message zero_message None (or_null message_json (req_Message r)) = Some (req_Message r)) as ->.
  { pose proof (read_ptr message_json dec_message zero_message (req_Message r)) as H. destruct (req_Message r) as [m|]; [|done].
    apply H. intros m' [= <-]. split; [by apply dec_message_json|done]. }
  by destruct r.
Qed.

Lemma dec_event_json e : event_ok e → dec_event (event_json e) = Some e.
Proof.
  intros H. destruct e as [m|t|s|a]; unfold event_json, dec_event, object_map; cbn [foldl fst snd]; rewrite ?lookup_insert_eq, ?lookup_insert_ne, ?lookup_empty by done.
  - by rewrite dec_message_json.
  - by rewrite dec_task_json.
  - by rewrite dec_status_event_json.
  - by rewrite dec_artifact_event_json.
Qed.

(** ** What has a wire format, and that reading undoes writing *)
Class Wire (A : Type) := {
  to_json : A → json;
  of_json : json → option A;
  wire_ok : A → Prop;
  of_to_json x : wire_ok x → of_json (to_json x) = Some x
}.
#[export] Instance part_wire : Wire Part := {| of_to_json := dec_part_json |}.
#[export] Instance artifact_wire : Wire Artifact := {| of_to_json := dec_artifact_json |}.
#[export] Instance message_wire : Wire Message := {| of_to_json := dec_message_json |}.
#[export] Instance task_wire : Wire Task := {| of_to_json := dec_task_json |}.
#[export] Instance request_wire : Wire SendMessageRequest := {| of_to_json := dec_request_json |}.
#[export] Instance event_wire : Wire Event := {| of_to_json := dec_event_json |}.

Definition Marshal `{Wire A} (x : A) : string := print true (to_json x).
Definition Unmarshal `{Wire A} (s : string) : option A := parse s ≫= of_json.
Definition sendable `{Wire A} (x : A) : Prop :=
  wire_ok x ∧ well_formed 0 (to_json x) = true ∧ all_valid (to_json x) = true.

Lemma Unmarshal_Marshal `{Wire A} (x : A) : sendable x → Unmarshal (Marshal x) = Some x.
Proof. intros (Hok & Hwf & Hutf8). unfold Unmarshal, Marshal. rewrite parse_print, clean_valid by done. cbn. by apply of_to_json. Qed.

(** C22.  An event sent over a stream is read back as it was, whatever its kind, its parts, its times and its
    metadata, when it has a wire format ([event_ok]: times within the years 0 to 9999, numbers in data and metadata as
    a [float64] is written), is nested at most 10,000 deep and its texts are UTF-8. *)
Theorem event_roundtrip (e : Event) (Hok : event_ok e) (Hwf : well_formed 0 (event_json e) = true) (Hutf8 : all_valid (event_json e) = true) :
  UnmarshalEvent (MarshalEvent e) = Some e.
Proof. by refine (Unmarshal_Marshal (A := Event) e _). Qed.

(** Numbers that are not [float64]s as they are written come back as those that are, and out of range they are an error. *)
Lemma other_numbers_change :
  let e n := EMessage {| m_ID := "m"; m_ContextID := ""; m_Extensions := []; m_Metadata := {["n" := JNumber n]}; m_Parts := [];
                         ReferenceTasks := []; Role := MessageRoleUser; m_TaskID := "" |} in
  UnmarshalEvent (MarshalEvent (e "9007199254740993")) = Some (e "9007199254740992") ∧ UnmarshalEvent (MarshalEvent (e "1e999")) = None.
Proof. vm_compute. done. Qed.

Definition demo_event : Event := ETask {|
  t_ID := "t1"; t_ContextID := "c1"; t_Metadata := {["n" := JNumber "0.1"]}; History := [];
  Artifacts := [{| a_ID := "a"; a_Description := ""; a_Name := "out"; a_Extensions := ["x"]; a_Metadata := ∅;
                   a_Parts := [Some (NewTextPart "<hi>"); Some (NewRawPart "bytes"); Some (NewDataPart (JArray [JNull; JBool true; JNumber "1e+21"])); None] |}];
  Status := {| State := TaskStateUnspecified; s_Timestamp := Some {| instant := unix_epoch + 1700000000123000000; offset := 120 |};
               s_Message := Some {| m_ID := "m"; m_ContextID := "c1"; m_Extensions := []; m_Metadata := ∅;
               m_Parts := []; ReferenceTasks := ["t0"]; Role := MessageRoleAgent; m_TaskID := "t1" |} |} |}.
Lemma event_roundtrip_witness : UnmarshalEvent (MarshalEvent demo_event) = Some demo_event.
Proof.
  apply event_roundtrip; [|vm_compute; reflexivity..].
  repeat first [split | constructor | discriminate]; apply (bool_decide_unpack _); vm_compute; exact I.
Defined.
