(* ===== verification/Multi.v ===== *)
(** The protocol gateway (src/gateway/multi): one HTTP endpoint that recognises the protocol of a request, decodes
    it with the protocol's adapter, calls the tool of the registry and answers in the same protocol.  Headers have
    canonical names; the texts of encoding/json's errors are a parameter. *)

From stdpp Require Import base tactics list gmap strings.
From Stdlib Require Import ZArith Lia.
From S2P Require Import Prelude Tool Truncate Registry Json A2a Number A2aJson Bridge.
From S2P Require LoopGuards.

Local Open Scope Z_scope.

Definition quoted (s : string) : string := dquote +:+ s +:+ dquote.

(** ** Requests *)
(** [first_read] is how many bytes the first read of the body yields; [body_error] is how the body ends, if not well. *)
Record Request := {
  Method : string; Path : string; header : string → string; ContentLength : Z; Body : string; first_read : nat;
  body_error : option error
}.

(** ** Protocols and confidence (adapter.go) *)
Definition Protocol := string.
Definition ProtocolMCP : Protocol := "mcp".
Definition ProtocolA2A : Protocol := "a2a".
Definition ProtocolOpenAI : Protocol := "openai".
Definition ProtocolUnknown : Protocol := "unknown".
Definition ConfidenceLow : Z := 0.
Definition ConfidenceMedium : Z := 1.
Definition ConfidenceHigh : Z := 2.
Definition ConfidenceDefinitive : Z := 3.

Record CanonicalRequest := {
  cr_Protocol : Protocol; ToolName : string; cr_Arguments : option (gmap string json); RequestID : string;
  Auth : option string; cr_Metadata : gmap string string
}.
Inductive ContentType := ContentTypeText | ContentTypeJSON | ContentTypeImage | ContentTypeData.
Record ContentPart := { cp_Type : ContentType; cp_Text : string; MimeType : string; cp_Data : option string; cp_JSON : json }.
Inductive ErrorCode :=
  ErrNone | ErrInvalidParams | ErrNotFound | ErrUnauthorized | ErrForbidden | ErrRateLimit | ErrTimeout | ErrInternal.
#[export] Instance ErrorCode_eq_dec : EqDecision ErrorCode.
Proof. solve_decision. Defined.
Record ErrorInfo := { Code : ErrorCode; ei_Message : string }.
Record CanonicalResponse := {
  Success : bool; rs_Content : list ContentPart; rs_Error : option ErrorInfo; rs_RequestID : string;
  rs_Metadata : gmap string string
}.

(** ** Recognising the protocol (detect.go) *)
Definition extractJSONRPCMethod (peek : string) : string :=
  match index_of (quoted "method") peek with
  | None => ""
  | Some idx =>
      match skip_ws (string_drop (idx + 8) peek) with
      | String c rest =>
          if negb (is_byte c 58) then "" else
          match skip_ws rest with
          | String q rest =>
              if negb (is_byte q 34) then "" else
              match index_of dquote rest with Some e => string_take e rest | None => "" end
          | EmptyString => ""
          end
      | EmptyString => ""
      end
  end.

Definition mcp_methods : list string := [
  "initialize"; "ping"; "tools/list"; "tools/call"; "resources/list"; "resources/read"; "resources/templates/list";
  "resources/subscribe"; "resources/unsubscribe"; "prompts/list"; "prompts/get"; "logging/setLevel"; "sampling/createMessage";
  "roots/list"; "completion/complete"; "elicitation/create"; "notifications/initialized"; "notifications/cancelled";
  "notifications/progress"; "notifications/message"; "notifications/resources/updated";
  "notifications/resources/list_changed"; "notifications/tools/list_changed"; "notifications/prompts/list_changed";
  "notifications/roots/list_changed"].
Definition isMCPMethod (m : string) : bool := bool_decide (m ∈ mcp_methods).
Definition a2a_methods : list string := [
  "a2a.sendMessage"; "a2a.sendStreamingMessage"; "a2a.getTask"; "a2a.cancelTask"; "a2a.listTasks";
  "a2a.getExtendedAgentCard"; "a2a.subscribeToTask"; "a2a.createPushNotificationConfig"; "a2a.getPushNotificationConfig";
  "a2a.listPushNotificationConfigs"; "a2a.deletePushNotificationConfig"].
Definition isA2AMethod (m : string) : bool := bool_decide (m ∈ a2a_methods).

Definition hasOpenAIStructure (peek : string) : bool :=
  contains (quoted "tool_calls") peek || contains (quoted "function_call") peek || contains (quoted "functions") peek.

Definition hasJSONContentType (r : Request) : bool :=
  let ct := header r "Content-Type" in has_prefix "application/json" ct || has_prefix "application/jsonrpc" ct.

Definition trim_slash (path : string) : string :=
  if has_suffix "/" path then string_take (String.length path - 1) path else path.
Definition mcp_path (path : string) : bool := bool_decide (trim_slash path = "/mcp") || has_prefix "/mcp/" path.
Definition a2a_path (path : string) : bool := bool_decide (trim_slash path = "/a2a") || has_prefix "/a2a/" path.
Definition openai_path (path : string) : bool := has_prefix "/openai/" path || has_prefix "/v1/chat/" path.

Definition detectByPathPrefix (path : string) : option Protocol :=
  if mcp_path path then Some ProtocolMCP else if a2a_path path then Some ProtocolA2A
  else if openai_path path then Some ProtocolOpenAI else None.

Definition mcp_headers (r : Request) : bool :=
  negb (bool_decide (header r "Mcp-Protocol-Version" = "")) || negb (bool_decide (header r "Mcp-Session-Id" = "")).
Definition well_known (path : string) : bool :=
  bool_decide (path = "/.well-known/agent-card.json") || bool_decide (path = "/agent-card:extended").

Definition DetectProtocol (r : Request) (bodyPeek : string) : Protocol * Z :=
  if mcp_headers r then (ProtocolMCP, ConfidenceDefinitive) else
  if well_known (Path r) then (ProtocolA2A, ConfidenceDefinitive) else
  match detectByPathPrefix (Path r) with
  | Some proto => (proto, ConfidenceHigh)
  | None =>
      if bool_decide (Method r = "POST") && hasJSONContentType r && negb (bool_decide (bodyPeek = "")) then
        let method := extractJSONRPCMethod bodyPeek in
        if isMCPMethod method then (ProtocolMCP, ConfidenceDefinitive)
        else if isA2AMethod method then (ProtocolA2A, ConfidenceDefinitive)
        else if hasOpenAIStructure bodyPeek then (ProtocolOpenAI, ConfidenceHigh)
        else (ProtocolUnknown, ConfidenceLow)
      else (ProtocolUnknown, ConfidenceLow)
  end.

(** Each adapter's own opinion (mcp_adapter.go, a2a_adapter.go, openai_adapter.go). *)
Definition mcp_Detect (r : Request) (peek : string) : bool * Z :=
  if mcp_headers r then (true, ConfidenceDefinitive)
  else if mcp_path (Path r) then (true, ConfidenceHigh)
  else if bool_decide (Method r = "POST") && negb (bool_decide (peek = "")) && isMCPMethod (extractJSONRPCMethod peek)
  then (true, ConfidenceDefinitive) else (false, ConfidenceLow).
Definition a2a_Detect (r : Request) (peek : string) : bool * Z :=
  if well_known (Path r) then (true, ConfidenceDefinitive)
  else if a2a_path (Path r) then (true, ConfidenceHigh)
  else if bool_decide (Method r = "POST") && negb (bool_decide (peek = "")) && isA2AMethod (extractJSONRPCMethod peek)
  then (true, ConfidenceDefinitive) else (false, ConfidenceLow).
Definition openai_Detect (r : Request) (peek : string) : bool * Z :=
  if bool_decide (Path r = "/v1/chat/completions") || bool_decide (Path r = "/openai/v1/chat/completions") then (true, ConfidenceHigh)
  else if openai_path (Path r) then (true, ConfidenceHigh)
  else if negb (bool_decide (peek = "")) && hasOpenAIStructure peek then (true, ConfidenceHigh) else (false, ConfidenceLow).

(** What is read of the body before it is decoded: the first read, cut at the limit. *)
Definition maxBodyPeek : nat := 512.
Definition peekRequestBody (r : Request) (n : nat) : error + string :=
  if ContentLength r =? 0 then inr "" else
  match Body r, body_error r with
  | EmptyString, Some err => inl (ErrWrap "peek body: " err "")
  | body, _ => inr (string_take (Nat.min n (Nat.max 1 (first_read r))) body)
  end.

Section Adapters.
(** The error of encoding/json for a text that does not decode. *)
Variable unmarshal_error : string → error.

Definition read_all (r : Request) : error + string :=
  match body_error r with Some err => inl err | None => inr (Body r) end.

(** ** MCP (mcp_adapter.go) *)
Definition dec_name (old : string) (x : raw) : option string := dec_string old x.1.
Definition dec_args (old : option (gmap string json)) (x : raw) : option (option (gmap string json)) := dec_map old x.1.

Record mcpJSONRPCRequest := { rpc_JSONRPC : string; rpc_Method : string; rpc_ID : option raw; rpc_Params : option raw }.
(** The envelope of a JSON-RPC request over one read before; a null changes nothing. *)
Definition dec_envelope (s : string) : option mcpJSONRPCRequest :=
  match parse s with
  | Some JNull => Some {| rpc_JSONRPC := ""; rpc_Method := ""; rpc_ID := None; rpc_Params := None |}
  | _ =>
      l ← object_members s;
      version ← field dec_name "" "jsonrpc" l;
      method ← field dec_name "" "method" l;
      id ← field dec_raw None "id" l;
      params ← field dec_raw None "params" l;
      Some {| rpc_JSONRPC := version; rpc_Method := method; rpc_ID := id; rpc_Params := params |}
  end.

Definition formatJSONRPCID (id : option raw) : string :=
  match id with
  | None => ""
  | Some (JString s, _) => s
  | Some (JNull, _) => ""
  | Some (_, text) => LoopGuards.TrimSpace text
  end.

(** A number in quotes would be a number too; one that starts with a digit is not in quotes. *)
Definition starts_with_digit (s : string) : bool := match s with String a _ => is_digit a | EmptyString => false end.
Definition marshalRequestID (id : string) : json :=
  if bool_decide (id = "") then JNull else
  if starts_with_digit id then match parse id with Some (JNumber n) => JNumber n | _ => JString id end
  else JString id.

Record mcpToolsCallParams := { p_Name : string; p_Arguments : option (gmap string json); p_Meta : option (option raw) }.
Definition dec_meta (old : option (option raw)) (x : raw) : option (option (option raw)) :=
  match x.1 with
  | JNull => Some None
  | _ => l ← object_members x.2; token ← field dec_raw (default None old) "progressToken" l; Some (Some token)
  end.
Definition dec_call_params (x : raw) : option mcpToolsCallParams :=
  match x.1 with
  | JNull => Some {| p_Name := ""; p_Arguments := None; p_Meta := None |}
  | _ =>
      l ← object_members x.2;
      name ← field dec_name "" "name" l;
      args ← field dec_args None "arguments" l;
      meta ← field dec_meta None "_meta" l;
      Some {| p_Name := name; p_Arguments := args; p_Meta := meta |}
  end.

Definition decodeToolsCall (params : option raw) (requestID : string) (metadata : gmap string string) : error + CanonicalRequest :=
  match params with
  | None => inl (Err "tools/call missing params")
  | Some x =>
      match dec_call_params x with
      | None => inl (ErrWrap "parse tools/call params: " (unmarshal_error x.2) "")
      | Some p =>
          if bool_decide (p_Name p = "") then inl (Err "tools/call params missing tool name")
          else inr {| cr_Protocol := ProtocolMCP; ToolName := p_Name p; cr_Arguments := p_Arguments p; RequestID := requestID; Auth := None;
                      cr_Metadata := match p_Meta p with Some (Some token) => <["mcp.progressToken" := token.2]> metadata | _ => metadata end |}
      end
  end.

Definition lifecycle_methods : list string := [
  "initialize"; "ping"; "tools/list"; "resources/list"; "resources/read"; "resources/templates/list"; "prompts/list"; "prompts/get";
  "logging/setLevel"; "completion/complete"].
Definition no_tool (p : Protocol) (requestID : string) (metadata : gmap string string) : CanonicalRequest := {|
  cr_Protocol := p; ToolName := ""; cr_Arguments := None; RequestID := requestID; Auth := None; cr_Metadata := metadata |}.

Definition mcp_Decode (r : Request) : error + CanonicalRequest :=
  match read_all r with
  | inl err => inl (ErrWrap "read request body: " err "")
  | inr body =>
      match dec_envelope body with
      | None => inl (ErrWrap "parse JSON-RPC request: " (unmarshal_error body) "")
      | Some q =>
          if negb (bool_decide (rpc_JSONRPC q = "2.0")) then inl (Err ("unsupported JSON-RPC version: " +:+ quote (rpc_JSONRPC q))) else
          let requestID := formatJSONRPCID (rpc_ID q) in
          let metadata := {["jsonrpc.method" := rpc_Method q]} in
          if bool_decide (rpc_Method q = "tools/call") then decodeToolsCall (rpc_Params q) requestID metadata
          else if bool_decide (rpc_Method q ∈ lifecycle_methods) || has_prefix "notifications/" (rpc_Method q)
          then inr (no_tool ProtocolMCP requestID metadata)
          else inl (Err ("unsupported MCP method: " +:+ quote (rpc_Method q)))
      end
  end.

Definition text_content (text : string) : json := JObject (members [("type", Some (JString "text")); ("text", omitempty text)]).
Definition canonicalToMCPContent (parts : list ContentPart) : list json :=
  omap (λ p,
    match cp_Type p with
    | ContentTypeText => Some (text_content (cp_Text p))
    | ContentTypeJSON => Some (text_content (print true (cp_JSON p)))
    | ContentTypeImage => Some (JObject (members [("type", Some (JString "image")); ("mimeType", omitempty (MimeType p));
                                                   ("data", omitempty (default "" (cp_Data p)))]))
    | ContentTypeData => if bool_decide (cp_Text p = "") then None else Some (text_content (cp_Text p))
    end) parts.

Definition rpc_response (id : json) (result : json) : json := JObject [("jsonrpc", JString "2.0"); ("id", id); ("result", result)].
Definition rpc_error (id : json) (code : Z) (message : string) : json := JObject [("jsonrpc", JString "2.0"); ("id", id);
  ("error", JObject [("code", JNumber (itoa code)); ("message", JString message)])].
Definition call_result (content : list json) (isError : bool) : json :=
  JObject (members [("content", Some (JArray content)); ("isError", omit_false isError)]).

Definition mcp_response (resp : CanonicalResponse) : json :=
  let id := marshalRequestID (rs_RequestID resp) in
  if Success resp then rpc_response id (call_result (canonicalToMCPContent (rs_Content resp)) false) else
  match rs_Error resp with
  | None => rpc_error id (-32603) "unknown error"
  | Some e =>
      match Code e with
      | ErrInvalidParams => rpc_error id (-32602) (ei_Message e)
      | ErrNotFound => rpc_error id (-32601) (ei_Message e)
      | _ =>
          let message := text_content (ei_Message e) in
          let content := match rs_Content resp with
                         | [] => [message]
                         | parts =>
                             match canonicalToMCPContent parts with
                             | JObject l :: rest =>
                                 if bool_decide (as_string (object_map l !! "text") = ei_Message e) then JObject l :: rest
                                 else message :: JObject l :: rest
                             | l => message :: l
                             end
                         end in
          rpc_response id (call_result content true)
      end
  end.
Definition mcp_Encode (resp : CanonicalResponse) : error + (string * string) := inr (print true (mcp_response resp), "application/json").

(** ** OpenAI function calling (openai_adapter.go) *)
Record openaiFunctionCall := { f_Name : string; f_Arguments : string }.
Record openaiToolCall := { tc_ID : string; tc_Type : string; Function_ : openaiFunctionCall }.
Record openaiMessage := { om_Role : string; ToolCalls : list openaiToolCall; FunctionCall : option openaiFunctionCall; ToolCallID : string }.
Record openaiRequest := { or_Model : string; Messages : list openaiMessage }.

Definition zero_function : openaiFunctionCall := {| f_Name := ""; f_Arguments := "" |}.
Definition dec_function : openaiFunctionCall → json → option openaiFunctionCall := dec_struct (λ old l,
  name ← field dec_string (f_Name old) "name" l;
  args ← field dec_string (f_Arguments old) "arguments" l;
  Some {| f_Name := name; f_Arguments := args |}).
Definition zero_tool_call : openaiToolCall := {| tc_ID := ""; tc_Type := ""; Function_ := zero_function |}.
Definition dec_tool_call : json → option openaiToolCall := dec_struct (λ old l,
  id ← field dec_string (tc_ID old) "id" l;
  type ← field dec_string (tc_Type old) "type" l;
  f ← field dec_function (Function_ old) "function" l;
  Some {| tc_ID := id; tc_Type := type; Function_ := f |}) zero_tool_call.
Definition zero_openai_message : openaiMessage := {| om_Role := ""; ToolCalls := []; FunctionCall := None; ToolCallID := "" |}.
Definition dec_openai_message : json → option openaiMessage := dec_struct (λ old l,
  role ← field dec_string (om_Role old) "role" l;
  calls ← field (dec_list dec_tool_call) (ToolCalls old) "tool_calls" l;
  fc ← field (dec_ptr dec_function zero_function) (FunctionCall old) "function_call" l;
  id ← field dec_string (ToolCallID old) "tool_call_id" l;
  Some {| om_Role := role; ToolCalls := calls; FunctionCall := fc; ToolCallID := id |}) zero_openai_message.
Definition dec_openai_request (v : json) : option openaiRequest := dec_struct (λ old l,
  model ← field dec_string (or_Model old) "model" l;
  msgs ← field (dec_list dec_openai_message) (Messages old) "messages" l;
  Some {| or_Model := model; Messages := msgs |}) {| or_Model := ""; Messages := [] |} v.

(** The call of the last assistant message that has one. *)
Definition message_call (m : openaiMessage) : option openaiToolCall :=
  if negb (bool_decide (om_Role m = "assistant")) then None else
  match ToolCalls m with
  | c :: _ => Some c
  | [] => match FunctionCall m with
          | Some f => Some {| tc_ID := "legacy_fc"; tc_Type := "function"; Function_ := f |}
          | None => None
          end
  end.
Definition extractToolCall (messages : list openaiMessage) : error + openaiToolCall :=
  match head (omap message_call (rev messages)) with
  | Some c => inr c
  | None => inl (Err "openai decode: no tool_calls found in assistant messages")
  end.

Definition parseArguments (argsJSON : string) : error + option (gmap string json) :=
  let argsJSON := LoopGuards.TrimSpace argsJSON in
  if bool_decide (argsJSON = "") || bool_decide (argsJSON = "{}") then inr (Some ∅) else
  match parse argsJSON ≫= dec_map None with
  | Some args => inr args
  | None => inl (ErrWrap "invalid arguments json: " (unmarshal_error argsJSON) "")
  end.

Definition openai_Decode (r : Request) : error + CanonicalRequest :=
  match read_all r with
  | inl err => inl (ErrWrap "openai decode: read body: " err "")
  | inr body =>
      match parse body ≫= dec_openai_request with
      | None => inl (ErrWrap "openai decode: parse json: " (unmarshal_error body) "")
      | Some req =>
          match extractToolCall (Messages req) with
          | inl err => inl err
          | inr call =>
              match parseArguments (f_Arguments (Function_ call)) with
              | inl err => inl (ErrWrap ("openai decode: parse arguments for " +:+ quote (f_Name (Function_ call)) +:+ ": ") err "")
              | inr args =>
                  let auth := header r "Authorization" in
                  inr {| cr_Protocol := ProtocolOpenAI; ToolName := f_Name (Function_ call); cr_Arguments := args; RequestID := tc_ID call;
                         Auth := if has_prefix "Bearer " auth then Some (trim_prefix auth "Bearer ") else None;
                         cr_Metadata := if bool_decide (or_Model req = "") then ∅ else {["openai_model" := or_Model req]} |}
              end
          end
      end
  end.

Definition content_string (c : ContentPart) : option string :=
  match cp_Type c with
  | ContentTypeText => Some (cp_Text c)
  | ContentTypeJSON => match cp_JSON c with JNull => None | v => Some (print true v) end
  | ContentTypeData =>
      Some ("[binary data: " +:+ itoa (Z.of_nat (String.length (default "" (cp_Data c)))) +:+ " bytes, type: " +:+ MimeType c +:+ "]")
  | ContentTypeImage => Some ("[image: " +:+ MimeType c +:+ "]")
  end.
Definition buildContentString (resp : CanonicalResponse) : string :=
  match (if Success resp then None else rs_Error resp) with
  | Some e => "Error: " +:+ ei_Message e
  | None => join newline (omap content_string (rs_Content resp))
  end.

(** The content is written with escaped HTML, the rest of the answer without. *)
Definition openai_Encode (modelName : string) (resp : CanonicalResponse) : error + (string * string) :=
  let toolCallID := or_else (rs_RequestID resp) "call_unknown" in
  let str s := json_string false s in
  inr ("{" +:+ quoted "id" +:+ ":" +:+ str ("chatcmpl-" +:+ toolCallID) +:+ "," +:+ quoted "object" +:+ ":" +:+ str "chat.completion" +:+ "," +:+
       quoted "model" +:+ ":" +:+ str modelName +:+ "," +:+ quoted "choices" +:+ ":[{" +:+ quoted "index" +:+ ":0," +:+
       quoted "message" +:+ ":{" +:+ quoted "role" +:+ ":" +:+ str "tool" +:+ "," +:+
       quoted "content" +:+ ":" +:+ json_string true (buildContentString resp) +:+ "," +:+
       quoted "tool_call_id" +:+ ":" +:+ str toolCallID +:+ "}," +:+ quoted "finish_reason" +:+ ":" +:+ str "stop" +:+ "}]}" +:+ newline,
       "application/json").

(** ** A2A (a2a_adapter.go) *)
Definition a2aSendMessageMethod : string := "a2a.sendMessage".
(** One JSON value at the start of the body; what follows it is not looked at. *)
Definition decode_first (r : Request) : option mcpJSONRPCRequest :=
  match read_value (Body r) with Some (_, rest) => dec_envelope (raw_text (Body r) rest) | None => None end.

Definition extractRequestID (id : option raw) : string :=
  match id with
  | None => ""
  | Some (JNull, _) => "null"
  | Some (JString s, _) => s
  | Some (_, text) => LoopGuards.TrimSpace text
  end.

(** The first text that is an object with a skill. *)
Fixpoint text_skill (parts : list (option Part)) : option (string * gmap string json) :=
  match parts with
  | [] => None
  | None :: parts => text_skill parts
  | Some p :: parts =>
      match (if bool_decide (part_Text p = "") then None else parse (part_Text p) ≫= dec_map None) with
      | Some m =>
          let m := default ∅ m in
          if bool_decide (as_string (m !! "skill") = "") then text_skill parts
          else Some (as_string (m !! "skill"), default ∅ (as_map (m !! "arguments")))
      | None => text_skill parts
      end
  end.
Definition extractSkillFromMessage (msg : Message) : error + (string * gmap string json) :=
  match m_Parts msg with
  | [] => inl (Err "no parts in message")
  | parts =>
      match skill_part parts with
      | Some x => inr x
      | None => match text_skill parts with
                | Some x => inr x
                | None => inl (Err "no skill identifier found in message: expected DataPart with 'skill' field")
                end
      end
  end.

Definition put_text (k v : string) (m : gmap string string) : gmap string string := if bool_decide (v = "") then m else <[k := v]> m.
Definition a2a_Decode (r : Request) : error + CanonicalRequest :=
  match decode_first r with
  | None => inl (ErrWrap "a2a: failed to decode JSON-RPC request: " (default (unmarshal_error (Body r)) (body_error r)) "")
  | Some q =>
      if bool_decide (rpc_Method q = "") then inl (Err "a2a: missing JSON-RPC method") else
      let requestID := extractRequestID (rpc_ID q) in
      let metadata := {["a2a.method" := rpc_Method q]} in
      if negb (bool_decide (rpc_Method q = a2aSendMessageMethod)) then inr (no_tool ProtocolA2A requestID metadata) else
      match rpc_Params q ≫= λ x, dec_request zero_request x.1 with
      | None => inl (ErrWrap "a2a: failed to decode SendMessageRequest params: "
                       (unmarshal_error (match rpc_Params q with Some x => x.2 | None => "" end)) "")
      | Some req =>
          match req_Message req with
          | None => inl (Err "a2a: SendMessageRequest has no message")
          | Some msg =>
              match extractSkillFromMessage msg with
              | inl err => inl (ErrWrap "a2a: " err "")
              | inr (toolName, args) =>
                  inr {| cr_Protocol := ProtocolA2A; ToolName := toolName; cr_Arguments := Some args; RequestID := requestID; Auth := None;
                         cr_Metadata := put_text "a2a.taskId" (m_TaskID msg) (put_text "a2a.contextId" (m_ContextID msg) metadata) |}
              end
          end
      end
  end.

Definition canonicalPartToA2A (c : ContentPart) : option Part :=
  match cp_Type c with
  | ContentTypeText => Some (NewTextPart (cp_Text c))
  | ContentTypeJSON => Some (NewDataPart (cp_JSON c))
  | ContentTypeData => match cp_Data c with Some d => Some (NewRawPart d) | None => None end
  | ContentTypeImage => match cp_Data c with Some d => Some (set_MediaType (MimeType c) (NewRawPart d)) | None => None end
  end.
Definition a2a_task (taskID contextID id : string) (resp : CanonicalResponse) : Task :=
  if Success resp then {|
    t_ID := taskID; t_ContextID := contextID; History := []; t_Metadata := ∅;
    Artifacts := [{| a_ID := id; a_Description := ""; a_Name := ""; a_Extensions := []; a_Metadata := ∅;
                     a_Parts := map Some (omap canonicalPartToA2A (rs_Content resp)) |}];
    Status := {| s_Message := None; State := TaskStateCompleted; s_Timestamp := None |} |}
  else {|
    t_ID := taskID; t_ContextID := contextID; History := []; t_Metadata := ∅; Artifacts := [];
    Status := {| State := TaskStateFailed; s_Timestamp := None;
                 s_Message := Some {| m_ID := id; m_ContextID := contextID; m_Extensions := []; m_Metadata := ∅; ReferenceTasks := [];
                   Role := MessageRoleAgent; m_TaskID := taskID;
                   m_Parts := [Some (NewTextPart (or_else (match rs_Error resp with Some e => ei_Message e | None => "" end) "unknown error"))] |} |} |}.

(** A raw JSON string in an encoded value: HTML and line separators are escaped; [skip] bytes are dropped. *)
Fixpoint compact_from (skip : nat) (s : string) : string :=
  match s with
  | EmptyString => EmptyString
  | String a r =>
      match skip with
      | S k => compact_from k r
      | O => if is_byte a 60 || is_byte a 62 || is_byte a 38 then escape_byte true a +:+ compact_from 0 r
             else match line_separator s with
                  | Some text => text +:+ compact_from 2 r
                  | None => String a (compact_from 0 r)
                  end
      end
  end.
Definition a2a_body (requestID : string) (task : Task) : option string :=
  match parse (quoted requestID) with
  | None => None
  | Some _ => Some ("{" +:+ quoted "jsonrpc" +:+ ":" +:+ quoted "2.0" +:+ "," +:+ quoted "id" +:+ ":" +:+ compact_from 0 (quoted requestID) +:+
                    "," +:+ quoted "result" +:+ ":" +:+ print true (task_json task) +:+ "}")
  end.

Context {W : Type}.
Variable new_uuid : W → string * W.
(** The task and the context that the answer's metadata name, or new ones. *)
Definition a2a_Encode (resp : CanonicalResponse) (w : W) : (error + (string * string)) * W :=
  let '(taskID, w) := new_uuid w in
  let '(contextID, w) := new_uuid w in
  let '(id, w) := new_uuid w in
  let taskID := or_else (default "" (rs_Metadata resp !! "a2a.taskId")) taskID in
  let contextID := or_else (default "" (rs_Metadata resp !! "a2a.contextId")) contextID in
  (match a2a_body (rs_RequestID resp) (a2a_task taskID contextID id resp) with
   | Some body => inr (body, "application/json")
   | None => inl (ErrWrap "a2a: failed to encode response: " (unmarshal_error (quoted (rs_RequestID resp))) "")
   end, w).

(** ** Adapters behind one interface (adapter.go) *)
Record Adapter := {
  a_Protocol : Protocol; Detect : Request → string → bool * Z; Decode : Request → error + CanonicalRequest;
  Encode : CanonicalResponse → W → (error + (string * string)) * W
}.
Definition MCPAdapter : Adapter := {|
  a_Protocol := ProtocolMCP; Detect := mcp_Detect; Decode := mcp_Decode; Encode := λ resp w, (mcp_Encode resp, w) |}.
Definition A2AAdapter : Adapter := {|
  a_Protocol := ProtocolA2A; Detect := a2a_Detect; Decode := a2a_Decode; Encode := a2a_Encode |}.
Definition OpenAIAdapter (modelName : string) : Adapter := {|
  a_Protocol := ProtocolOpenAI; Detect := openai_Detect; Decode := openai_Decode; Encode := λ resp w, (openai_Encode modelName resp, w) |}.

(** ** The router (router.go) *)
Context {Ctx : Type}.
(** A content block of the SDK other than text, as JSON. *)
Variable content_json : string → json.
Notation TD := (ToolDefinition (ToolHandlerFunc Ctx CallToolRequest W)).
(** Whether a handler is the nil function. *)
Variable is_nil : ToolHandlerFunc Ctx CallToolRequest W → bool.

Record Router := { adapters : gmap Protocol Adapter; rt_registry : ToolRegistry Ctx CallToolRequest W }.
Definition NewRouter (reg : ToolRegistry Ctx CallToolRequest W) : Router := {| adapters := ∅; rt_registry := reg |}.
Definition Register (a : Adapter) (r : Router) : Router :=
  {| adapters := <[a_Protocol a := a]> (adapters r); rt_registry := rt_registry r |}.

(** The adapter most sure of the request, the first of those equally sure; [order] is the walk of the map. *)
Definition best_of (r : Router) (req : Request) (peek : string) (order : list Protocol) : option (Adapter * Z) :=
  foldl (λ best p,
    match adapters r !! p with
    | None => best
    | Some a =>
        let '(matches, conf) := Detect a req peek in
        if matches && (match best with Some (_, c) => c | None => -1 end <? conf) then Some (a, conf) else best
    end) None order.
Definition resolveAdapter (r : Router) (req : Request) (peek : string) (detected : Protocol) (conf : Z) (order : list Protocol) : option Adapter :=
  match (if ConfidenceHigh <=? conf then adapters r !! detected else None) with
  | Some a => Some a
  | None =>
      match best_of r req peek order with
      | Some (a, c) => if ConfidenceMedium <=? c then Some a
                       else if bool_decide (detected = ProtocolUnknown) then None else adapters r !! detected
      | None => if bool_decide (detected = ProtocolUnknown) then None else adapters r !! detected
      end
  end.

Definition failure (code : ErrorCode) (message requestID : string) : CanonicalResponse := {|
  Success := false; rs_Content := []; rs_Error := Some {| Code := code; ei_Message := message |}; rs_RequestID := requestID;
  rs_Metadata := ∅ |}.
Definition part_of (c : Content) : ContentPart :=
  match c with
  | TextContent text => {| cp_Type := ContentTypeText; cp_Text := text; MimeType := ""; cp_Data := None; cp_JSON := JNull |}
  | OtherContent kind => {| cp_Type := ContentTypeJSON; cp_Text := ""; MimeType := ""; cp_Data := None; cp_JSON := content_json kind |}
  end.
(** The text of an error result: its first text that is not empty. *)
Fixpoint error_message (l : list Content) : string :=
  match l with
  | [] => "tool returned error"
  | TextContent text :: l => if bool_decide (text = "") then error_message l else text
  | _ :: l => error_message l
  end.
(** A nil result without an error panics. *)
Definition invokeTool (ctx : Ctx) (td : TD) (req : CanonicalRequest) (w : W) : (string + CanonicalResponse) * W :=
  if is_nil (Handler td) then (inr (failure ErrInternal ("tool " +:+ quote (ToolName req) +:+ " has no handler") (RequestID req)), w) else
  match Handler td ctx {| Params_Name := ToolName req; Arguments := cr_Arguments req |} w with
  | (Panics v, w) => (inl v, w)
  | (Returns _ (Some err), w) => (inr (failure ErrInternal (error_text err) (RequestID req)), w)
  | (Returns None None, w) => (inl "invalid memory address or nil pointer dereference", w)
  | (Returns (Some r) None, w) =>
      (inr {| Success := negb (IsError r); rs_RequestID := RequestID req; rs_Content := map part_of (r_Content r); rs_Metadata := ∅;
              rs_Error := if IsError r then Some {| Code := ErrInternal; ei_Message := error_message (r_Content r) |} else None |}, w)
  end.

Record Response := { status : Z; content_type : string; rs_Body : string }.
Definition http_error (text : string) (code : Z) : Response :=
  {| status := code; content_type := "text/plain; charset=utf-8"; rs_Body := text +:+ newline |}.
Definition status_of (resp : CanonicalResponse) : Z :=
  if Success resp then 200 else
  match rs_Error resp with
  | Some e => if bool_decide (Code e = ErrInvalidParams) || bool_decide (Code e = ErrNotFound) then 400 else 500
  | None => 500
  end.
Definition encodeAndWrite (a : Adapter) (resp : CanonicalResponse) (w : W) : Response * W :=
  match Encode a resp w with
  | (inl _, w) => (http_error "internal encoding error" 500, w)
  | (inr (body, ct), w) => ({| status := status_of resp; content_type := ct; rs_Body := body |}, w)
  end.
Definition writeUnsupportedProtocol (r : Router) (detected : Protocol) (order : list Protocol) : Response := {|
  status := 400; content_type := "application/json";
  rs_Body := print true (JObject [("detected_protocol", JString detected); ("error", JString "unsupported or undetectable protocol");
                                  ("supported_protocols", JArray (map JString order))]) +:+ newline |}.
Definition writeDecodeError (a : Adapter) (err : error) (w : W) : Response * W :=
  match Encode a (failure ErrInvalidParams (error_text err) "") w with
  | (inl _, w) => (http_error (error_text err) 400, w)
  | (inr (body, ct), w) => ({| status := 400; content_type := ct; rs_Body := body |}, w)
  end.

(** [order] is the walk of the adapters; a panic of the tool goes through. *)
Definition ServeHTTP (r : Router) (ctx : Ctx) (req : Request) (order : list Protocol) (w : W) : (string + Response) * W :=
  let answer := λ '(resp, w), (inr resp : string + Response, w : W) in
  match peekRequestBody req maxBodyPeek with
  | inl _ => answer (http_error "failed to read request body" 400, w)
  | inr peek =>
      let '(protocol, confidence) := DetectProtocol req peek in
      match resolveAdapter r req peek protocol confidence order with
      | None => answer (writeUnsupportedProtocol r protocol order, w)
      | Some a =>
          match Decode a req with
          | inl err => answer (writeDecodeError a err w)
          | inr canonical =>
              match GetTool (rt_registry r) (ToolName canonical) with
              | None => answer (encodeAndWrite a (failure ErrNotFound ("tool " +:+ quote (ToolName canonical) +:+ " not found") (RequestID canonical)) w)
              | Some td =>
                  match invokeTool ctx td canonical w with
                  | (inl v, w) => (inl v, w)
                  | (inr resp, w) => answer (encodeAndWrite a resp w)
                  end
              end
          end
      end
  end.
End Adapters.

(** ** Text without blanks at its ends *)
Lemma trim_left_start p s : match s with String a _ => p a = false | EmptyString => True end → LoopGuards.trim_left p s = s.
Proof. destruct s as [|a s]; [done|]. cbn. by intros ->. Qed.
Lemma trim_right_end p s b : p b = false → LoopGuards.trim_right p (s +:+ one b) = s +:+ one b.
Proof.
  intros Hb. induction s as [|a s IH]; cbn; [by rewrite Hb|]. rewrite IH. by destruct s.
Qed.
Lemma TrimSpace_ends a s b : is_space a = false → is_space b = false →
  LoopGuards.TrimSpace (String a s +:+ one b) = String a s +:+ one b.
Proof.
  intros Ha Hb. unfold LoopGuards.TrimSpace. rewrite (trim_left_start _ (String a s +:+ one b)) by done. by apply trim_right_end.
Qed.

Definition visible (s : string) : bool := LoopGuards.all_bytes (λ a, negb (is_space a)) s.
Lemma visible_app s t : visible (s +:+ t) = visible s && visible t.
Proof. unfold visible. induction s as [|a s IH]; [done|]. cbn. by rewrite IH, andb_assoc. Qed.
Lemma visible_TrimSpace s : visible s = true → LoopGuards.TrimSpace s = s.
Proof.
  destruct s as [|a s]; [done|]. intros [Ha Hs]%andb_true_iff. apply negb_true_iff in Ha. unfold LoopGuards.TrimSpace.
  rewrite trim_left_start by done. assert (H : visible (String a s) = true) by (cbn; by rewrite Ha). clear -H. revert H.
  generalize (String a s) as t. induction t as [|b t IH]; [done|]. intros [Hb Ht]%andb_true_iff. apply negb_true_iff in Hb. cbn [LoopGuards.trim_right].
  rewrite IH by done. destruct t; [by rewrite Hb|done].
Qed.

Lemma code_space a n : is_byte a n = true → n ∈ [43; 45; 46; 48; 69; 101] → is_space a = false.
Proof. intros H%is_byte_true Hn. rewrite <- (of_code_code a), H. clear H a. set_unfold in Hn. destruct_or? Hn; subst; (reflexivity || done). Qed.
Lemma digit_space a : is_digit a = true → is_space a = false.
Proof. intros H. destruct (is_space a) eqn:E; [|done]. exfalso. revert H E. all_bytes a; vm_compute; discriminate. Qed.
Lemma visible_digits s d r : digits s = (d, r) → visible d = true.
Proof.
  revert d r. induction s as [|a s IH]; intros d r; cbn; [by intros [= <- <-]|]. destruct (is_digit a) eqn:E; [|by intros [= <- <-]].
  destruct (digits s) as [d' r'] eqn:Ed. intros [= <- <-]. cbn. rewrite (digit_space a E). by eapply IH.
Qed.
Lemma visible_digits1 s d r : digits1 s = Some (d, r) → visible d = true.
Proof. unfold digits1. destruct (digits s) as [[|a d'] r'] eqn:E; [done|]. intros [= <- <-]. by eapply visible_digits. Qed.
(** A byte of a number literal other than a digit. *)
Ltac literal_byte E := eapply code_space; [exact E|by apply (bool_decide_unpack _)].

Lemma visible_number n m : number n = Some (m, "") → visible m = true.
Proof.
  assert (Hpre : ∀ a x t r, prepend (one a) x = Some (t, r) → is_space a = false → (∀ u v, x = Some (u, v) → visible u = true) → visible t = true).
  { intros a x t r H Ha Hx. destruct x as [[u v]|]; [|done]. injection H as <- <-. cbn. rewrite Ha. by eapply Hx. }
  unfold number. destruct (minus_sign n) as [s s1] eqn:Es. intros H. destruct (int_part s1) as [[i s2]|] eqn:Ei; [|done]. cbn in H.
  destruct (fraction s2) as [[f s3]|] eqn:Ef; [|done]. cbn in H. destruct (exponent s3) as [[e s4]|] eqn:Ee; [|done]. injection H as <- _.
  rewrite !visible_app. repeat (apply andb_true_iff; split).
  - destruct n as [|a n]; cbn in Es; [by injection Es as <- _|]. destruct (is_byte a 45) eqn:E; injection Es as <- _; [|done].
    cbn. assert (is_space a = false) as -> by literal_byte E. done.
  - destruct s1 as [|a s1]; [done|]. cbn [int_part] in Ei. destruct (is_byte a 48) eqn:E.
    + injection Ei as <- _. cbn. assert (is_space a = false) as -> by literal_byte E. done.
    + destruct (is_digit a) eqn:Ed; [|done]. assert (digits (String a s1) = (i, s2)) by congruence. by eapply visible_digits.
  - destruct s2 as [|a s2]; cbn [fraction] in Ef; [by injection Ef as <- _|]. destruct (is_byte a 46) eqn:E; [|by injection Ef as <- _].
    eapply Hpre; [exact Ef|literal_byte E|]. intros u v Hu. by eapply visible_digits1.
  - destruct s3 as [|a s3]; cbn [exponent] in Ee; [by injection Ee as <- _|]. destruct (is_byte a 101 || is_byte a 69) eqn:E; [|by injection Ee as <- _].
    eapply Hpre; [exact Ee|apply orb_true_iff in E as [E|E]; literal_byte E|]. clear Ee e E.
    intros u v Hu. destruct s3 as [|b s3]; [done|]. cbn [sign_and_digits] in Hu. destruct (is_byte b 43 || is_byte b 45) eqn:E; [|by eapply visible_digits1].
    eapply Hpre; [exact Hu|apply orb_true_iff in E as [E|E]; literal_byte E|]. intros ?? ?. by eapply visible_digits1.
Qed.

(** ** Identifiers come back *)
(** The identifiers that survive the canonical form: null, numbers that do not start with a sign, and the strings
    that are neither empty nor the text of such a number. *)
Definition echoes (id : json) : bool :=
  match id with
  | JNull => true
  | JNumber n => is_number n && starts_with_digit n
  | JString s => valid_utf8 s && negb (bool_decide (s = "")) &&
                 negb (starts_with_digit s && match parse s with Some (JNumber _) => true | _ => false end)
  | _ => false
  end.

Lemma parse_number n : is_number n = true → parse n = Some (JNumber n).
Proof. intros H. change n with (print true (JNumber n)) at 1. by rewrite parse_print. Qed.

Lemma id_echo html id : echoes id = true → marshalRequestID (formatJSONRPCID (Some (id, print html id))) = id.
Proof.
  destruct id as [|b|n|s| |]; cbn [echoes formatJSONRPCID print]; try done.
  - intros [Hn Hd]%andb_true_iff. rewrite visible_TrimSpace by (apply bool_decide_eq_true in Hn; by eapply visible_number).
    unfold marshalRequestID. rewrite Hd, parse_number by done. rewrite bool_decide_false; [done|]. by intros ->.
  - intros [[_ Hs%negb_true_iff]%andb_true_iff Hn%negb_true_iff]%andb_true_iff. unfold marshalRequestID. rewrite Hs.
    destruct (starts_with_digit s); [|done]. cbn in Hn. by destruct (parse s) as [[]|].
Qed.

(** ** Decoding what clients send *)
Lemma occurrences_found {A} name (x : A) l : NoDup (map fold_key (map fst l)) → (name, x) ∈ l → occurrences name l = [x].
Proof.
  induction l as [|[k v] l IH]; intros Hnd Hin; [by apply elem_of_nil in Hin|]. cbn [map fst] in Hnd. apply NoDup_cons in Hnd as [Hk Hnd].
  rewrite occurrences_cons. apply elem_of_cons in Hin as [[= -> ->]|Hin].
  - rewrite decide_True by done. cbn. f_equal. by apply occurrences_none.
  - rewrite decide_False; [by apply IH|]. intros E. apply Hk. rewrite E, map_map. apply list_elem_of_In, in_map_iff.
    exists (name, x). split; [done|]. by apply list_elem_of_In.
Qed.
Lemma field_found {A B} (dec : B → A → option B) zero name x l :
  NoDup (map fold_key (map fst l)) → (name, x) ∈ l → field dec zero name l = dec zero x.
Proof. intros Hnd Hin. unfold field. by rewrite (occurrences_found _ x). Qed.
Lemma field_missing {A B} (dec : B → A → option B) zero name (l : list (string * A)) :
  fold_key name ∉ map fold_key (map fst l) → field dec zero name l = Some zero.
Proof. intros H. unfold field. by rewrite occurrences_none. Qed.

Ltac read_raw := repeat first
  [erewrite field_found; [|apply (bool_decide_unpack _); vm_compute; exact I|by repeat first [apply list_elem_of_here | apply list_elem_of_further]]
  |rewrite field_missing by (apply (bool_decide_unpack _); vm_compute; exact I)].

(** The members of an object sent in valid UTF-8. *)
Definition sent (html : bool) (p : string * json) : string * raw := (p.1, (p.2, print html p.2)).
Lemma object_members_sent html l : well_formed 0 (JObject l) = true → all_valid (JObject l) = true →
  object_members (print html (JObject l)) = Some (map (sent html) l).
Proof.
  intros Hw Hv. rewrite object_members_print by done. f_equal. apply map_ext_in. intros [k v] Hin. cbn [all_valid] in Hv. rewrite forallb_forall in Hv.
  specialize (Hv _ Hin). apply andb_true_iff in Hv as [Hk%bool_decide_eq_true Hv]. cbn in *. unfold sent. cbn. by rewrite Hk, clean_valid.
Qed.
Lemma parse_sent html v : well_formed 0 v = true → all_valid v = true → parse (print html v) = Some v.
Proof. intros Hw Hv. by rewrite parse_print, clean_valid. Qed.
(** What can be sent: well-formed values in valid UTF-8, and so are their members. *)
Definition ok (v : json) : Prop := well_formed 0 v = true ∧ all_valid v = true.
Lemma ok_member l k v : ok (JObject l) → (k, v) ∈ l → ok v.
Proof.
  intros [Hw Hv] Hp%list_elem_of_In. cbn [well_formed all_valid] in *. apply andb_true_iff in Hw as [_ Hw]. rewrite forallb_forall in Hw, Hv.
  split; [by apply (well_formed_less _ 1); [apply (Hw (k, v))|]|]. specialize (Hv _ Hp). by apply andb_true_iff in Hv as [_ ?].
Qed.
Ltac member H := eapply ok_member; [exact H|by repeat first [apply list_elem_of_here | apply list_elem_of_further]].

Section Decoding.
Variable unmarshal_error : string → error.
Context (html : bool) (name : string) (args : gmap string json) (r : Request).
Hypothesis Hname : name ≠ "".
Hypothesis Hend : body_error r = None.

(** A [tools/call] request of an MCP client. *)
Definition mcp_call (id : json) : json := JObject [("jsonrpc", JString "2.0"); ("id", id); ("method", JString "tools/call");
  ("params", JObject [("name", JString name); ("arguments", json_of_map args)])].

Lemma mcp_decodes id decoded : ok (mcp_call id) → Body r = print html (mcp_call id) → dec_map None (json_of_map args) = Some (Some decoded) →
  mcp_Decode unmarshal_error r = inr {| cr_Protocol := ProtocolMCP; ToolName := name; cr_Arguments := Some decoded;
    RequestID := formatJSONRPCID (Some (id, print html id)); Auth := None; cr_Metadata := {["jsonrpc.method" := "tools/call"]} |}.
Proof using Hname Hend.
  intros Hok Hb Hdec. unfold mcp_Decode, read_all. rewrite Hend, Hb. unfold dec_envelope.
  assert (Hp : ok (JObject [("name", JString name); ("arguments", json_of_map args)])) by member Hok.
  destruct Hok as [Hw Hv]. rewrite parse_sent by done. unfold mcp_call. rewrite object_members_sent by done. cbn [map mbind option_bind sent fst snd].
  read_raw.
  unfold dec_name, dec_raw, sent. cbn [mbind option_bind dec_string fst snd rpc_JSONRPC rpc_Method rpc_ID rpc_Params].
  rewrite bool_decide_true, bool_decide_true by done. cbn [negb]. unfold decodeToolsCall, dec_call_params. cbn [fst snd].
  destruct Hp as [Hw' Hv']. rewrite object_members_sent by done. cbn [map mbind option_bind]. read_raw.
  unfold dec_name, dec_args, sent. cbn [mbind option_bind dec_string fst snd]. rewrite Hdec. cbn [mbind option_bind p_Name p_Arguments p_Meta].
  by rewrite bool_decide_false.
Qed.
Hypothesis Hheld : held_map args.

(** The same call sent by an agent: a message whose data part names the skill. *)
Definition call_message (mid : string) : Message := {|
  m_ID := mid; m_ContextID := ""; m_Extensions := []; m_Metadata := ∅; ReferenceTasks := []; Role := MessageRoleUser; m_TaskID := "";
  m_Parts := [Some (NewDataPart (json_of_map (<["skill" := JString name]> {["arguments" := json_of_map args]})))] |}.
Lemma call_message_ok mid : message_ok (call_message mid).
Proof using Hheld.
  split; [done|]. split; [done|]. apply Forall_singleton. split; [done|]. apply held_of_map, map_Forall_insert_2; [done|].
  by apply map_Forall_singleton, held_of_map.
Qed.
Definition a2a_call (mid id : string) : json := JObject [("jsonrpc", JString "2.0"); ("id", JString id); ("method", JString a2aSendMessageMethod);
  ("params", request_json {| req_Tenant := ""; req_Message := Some (call_message mid); req_Metadata := ∅ |})].

Lemma a2a_decodes mid id : ok (a2a_call mid id) → Body r = print html (a2a_call mid id) →
  a2a_Decode unmarshal_error r = inr {| cr_Protocol := ProtocolA2A; ToolName := name; cr_Arguments := Some args; RequestID := id; Auth := None;
    cr_Metadata := {["a2a.method" := a2aSendMessageMethod]} |}.
Proof using Hname Hheld.
  intros [Hw Hv] Hb. unfold a2a_Decode, decode_first. rewrite Hb. pose proof (read_value_print html (a2a_call mid id) "" Hw eq_refl) as Hr.
  rewrite string_app_nil_r in Hr. rewrite Hr. clear Hr. pose proof (raw_text_app (print html (a2a_call mid id)) "") as Ht. rewrite string_app_nil_r in Ht. rewrite Ht. clear Ht.
  unfold dec_envelope. rewrite parse_sent by done. unfold a2a_call. rewrite object_members_sent by done. cbn [map mbind option_bind sent fst snd]. read_raw.
  unfold dec_name, dec_raw, sent. cbn [mbind option_bind dec_string fst snd rpc_JSONRPC rpc_Method rpc_ID rpc_Params].
  rewrite (bool_decide_false (a2aSendMessageMethod = "")), bool_decide_true by done. cbn [negb].
  rewrite dec_request_json by (split; [apply call_message_ok|done]).
  cbn [req_Message]. unfold extractSkillFromMessage. cbn [m_Parts call_message]. rewrite skill_part_sent by done. done.
Qed.

(** The same call as the model's answer in a chat. *)
Definition openai_call (model id : string) : json := JObject [("model", JString model); ("messages", JArray [JObject [("role", JString "assistant");
  ("tool_calls", JArray [JObject [("id", JString id); ("type", JString "function");
    ("function", JObject [("name", JString name); ("arguments", JString (print true (json_of_map args)))])]])]])].

Lemma parseArguments_object : ok (json_of_map args) → parseArguments unmarshal_error (print true (json_of_map args)) = inr (Some args).
Proof using Hheld.
  intros [Hw Hv]. unfold parseArguments.
  assert (LoopGuards.TrimSpace (print true (json_of_map args)) = print true (json_of_map args)) as ->.
  { unfold json_of_map. cbn [print]. set (body := join _ _). by apply (TrimSpace_ends (Ascii.ascii_of_nat 123) body (Ascii.ascii_of_nat 125)). }
  pose proof (parse_sent true _ Hw Hv) as Hp. pose proof (object_map_of_map args) as Hm.
  destruct (decide (print true (json_of_map args) = "{}")) as [E|E].
  - rewrite E in Hp |- *. assert (Hj : json_of_map args = JObject []) by (vm_compute parse in Hp; congruence).
    cbn [bool_decide orb]. rewrite (bool_decide_true ("{}" = "{}")) by done. rewrite orb_true_r. unfold json_of_map in Hj. injection Hj as Hj. rewrite Hj in Hm.
    by rewrite <- Hm.
  - rewrite !bool_decide_false by (done || by unfold json_of_map). cbn [orb]. rewrite Hp. cbn [mbind option_bind]. by rewrite (proj2 (dec_map_of_map args Hheld)).
Qed.

Lemma openai_decodes model id : ok (openai_call model id) → ok (json_of_map args) → model ≠ "" → header r "Authorization" = "" →
  Body r = print html (openai_call model id) →
  openai_Decode unmarshal_error r = inr {| cr_Protocol := ProtocolOpenAI; ToolName := name; cr_Arguments := Some args; RequestID := id; Auth := None;
    cr_Metadata := {["openai_model" := model]} |}.
Proof using Hend Hheld.
  intros [Hw Hv] Ha Hm Hauth Hb. unfold openai_Decode, read_all. rewrite Hend, Hb, parse_sent by done. unfold openai_call, dec_openai_request.
  cbn [mbind option_bind dec_struct]. read_raw. cbn [mbind option_bind dec_string dec_list mapM dec_openai_message dec_struct].
  unfold dec_openai_message. cbn [dec_struct]. read_raw. cbn [mbind option_bind dec_string dec_list mapM zero_openai_message om_Role ToolCalls].
  unfold dec_tool_call. cbn [dec_struct]. read_raw. cbn [mbind option_bind dec_string zero_tool_call tc_ID tc_Type Function_].
  assert (dec_function zero_function (JObject [("name", JString name); ("arguments", JString (print true (json_of_map args)))]) =
    Some {| f_Name := name; f_Arguments := print true (json_of_map args) |}) as -> by (unfold dec_function; cbn [dec_struct]; by read_raw).
  pose proof (parseArguments_object Ha) as Hargs. revert Hargs. generalize (print true (json_of_map args)). intros t Hargs.
  cbn -[parseArguments bool_decide has_prefix extractToolCall quote String.append].
  match goal with |- context [extractToolCall ?l] => replace (extractToolCall l)
    with (inr {| tc_ID := id; tc_Type := "function"; Function_ := {| f_Name := name; f_Arguments := t |} |} : error + openaiToolCall) by reflexivity end.
  cbn [Function_ f_Arguments].
  rewrite Hargs, Hauth. by rewrite bool_decide_false.
Qed.
End Decoding.

(** What the canonical form keeps of a call. *)
Definition call_of (c : error + CanonicalRequest) : option (string * option (gmap string json) * string) :=
  match c with inr c => Some (ToolName c, cr_Arguments c, RequestID c) | inl _ => None end.
Definition with_body (r : Request) (body : string) : Request := {|
  Method := Method r; Path := Path r; header := header r; ContentLength := ContentLength r; Body := body; first_read := first_read r;
  body_error := body_error r |}.

(** One call, sent as an MCP request, as an agent's message or as a model's function call, decodes to the same
    tool, arguments and identifier. *)
Theorem one_call_in_three_protocols (unmarshal_error : string → error) (r : Request) (html : bool) (name id mid model : string) (args : gmap string json)
    (Hname : name ≠ "") (Hheld : held_map args) (Hmodel : model ≠ "") (Hend : body_error r = None) (Hauth : header r "Authorization" = "")
    (Hmcp : ok (mcp_call name args (JString id))) (Ha2a : ok (a2a_call name args mid id)) (Hopenai : ok (openai_call name args model id)) :
  let call := Some (name, Some args, id) in
  call_of (mcp_Decode unmarshal_error (with_body r (print html (mcp_call name args (JString id))))) = call ∧
  call_of (a2a_Decode unmarshal_error (with_body r (print html (a2a_call name args mid id)))) = call ∧
  call_of (openai_Decode unmarshal_error (with_body r (print html (openai_call name args model id)))) = call.
Proof.
  intros call. assert (ok (json_of_map args)) as Hargs.
  { assert (ok (JObject [("name", JString name); ("arguments", json_of_map args)])) as H by member Hmcp. member H. }
  rewrite (mcp_decodes _ html name args) with (id := JString id) (decoded := args) by (done || by apply dec_map_of_map). rewrite (a2a_decodes _ html name args) with (mid := mid) (id := id) by done.
  by rewrite (openai_decodes _ html name args) with (model := model) (id := id) by done.
Qed.

(** ** The answer of a tool call over MCP *)
Section Answers.
Context {Ctx W : Type}.
Variable unmarshal_error : string → error.
Variable content_json : string → json.
Variable is_nil : ToolHandlerFunc Ctx CallToolRequest W → bool.
Notation router := (@Router W Ctx).

(** The text of a block, and the blocks of an error result: its message, unless the first block says it already. *)
Definition content_text (c : Content) : string :=
  match c with TextContent text => text | OtherContent kind => print true (content_json kind) end.
Definition error_blocks (l : list Content) : list string :=
  let texts := map content_text l in
  match texts with
  | t :: _ => if bool_decide (t = error_message l) then texts else error_message l :: texts
  | [] => [error_message l]
  end.
(** The status and the result for an outcome of the handler; a panic, and a nil result, end the request. *)
Definition mcp_answer (o : outcome) : string + Z * json :=
  match o with
  | Panics v => inl v
  | Returns _ (Some err) => inr (500, call_result [text_content (error_text err)] true)
  | Returns None None => inl "invalid memory address or nil pointer dereference"
  | Returns (Some r) None =>
      if IsError r then inr (500, call_result (map text_content (error_blocks (r_Content r))) true)
      else inr (200, call_result (map text_content (map content_text (r_Content r))) false)
  end.

Lemma canonical_texts l : canonicalToMCPContent (map (part_of content_json) l) = map text_content (map content_text l).
Proof. induction l as [|[text|kind] l IH]; [done|..]; cbn; f_equal; exact IH. Qed.

Lemma text_content_text t : ∃ l, text_content t = JObject l ∧ as_string (object_map l !! "text") = t.
Proof.
  unfold text_content. eexists. split; [reflexivity|]. unfold omitempty. destruct (bool_decide (t = "")) eqn:E; [by apply bool_decide_eq_true in E|].
  cbn [members omap list_omap fmap option_fmap option_map snd fst]. unfold object_map. cbn [foldl fst snd]. by rewrite lookup_insert_eq.
Qed.

Lemma has_prefix_split p q s : has_prefix (p +:+ q) s = true → has_prefix p s = true.
Proof. intros [t ->]%has_prefix_spec. apply has_prefix_spec. exists (q +:+ t). by rewrite string_app_assoc. Qed.
Lemma trim_slash_prefix p path : trim_slash path = p → has_prefix p path = true.
Proof.
  unfold trim_slash. destruct (has_suffix "/" path) eqn:E; [|intros ->; apply has_prefix_spec; exists ""; by rewrite string_app_nil_r].
  intros <-. apply has_suffix_spec in E as [t ->]. rewrite string_length_app. cbn [String.length]. rewrite Nat.add_sub, take_prefix_app.
  apply has_prefix_spec. by eexists.
Qed.
Lemma mcp_path_prefix path : mcp_path path = true → has_prefix "/mcp" path = true.
Proof. intros [H%bool_decide_eq_true%trim_slash_prefix|H]%orb_true_iff; [done|]. by apply (has_prefix_split _ "/"). Qed.
Lemma a2a_path_prefix path : a2a_path path = true → has_prefix "/a2a" path = true.
Proof. intros [H%bool_decide_eq_true%trim_slash_prefix|H]%orb_true_iff; [done|]. by apply (has_prefix_split _ "/"). Qed.
Lemma mcp_path_other path : mcp_path path = true → well_known path = false ∧ a2a_path path = false.
Proof.
  intros H%mcp_path_prefix. split.
  - unfold well_known. apply orb_false_iff. split; apply bool_decide_eq_false; intros ->; by vm_compute in H.
  - destruct (a2a_path path) eqn:E; [|done]. apply a2a_path_prefix in E. apply has_prefix_spec in H as [t ->]. by vm_compute in E.
Qed.
Lemma detect_mcp r peek : mcp_headers r || mcp_path (Path r) = true →
  ∃ c, DetectProtocol r peek = (ProtocolMCP, c) ∧ (ConfidenceHigh <=? c) = true.
Proof.
  intros H. unfold DetectProtocol. destruct (mcp_headers r); [by eexists|]. cbn in H. destruct (mcp_path_other _ H) as [-> _].
  unfold detectByPathPrefix. rewrite H. by eexists.
Qed.
Lemma peek_ok r n : body_error r = None → ∃ peek, peekRequestBody r n = inr peek.
Proof. intros H. unfold peekRequestBody. rewrite H. destruct (_ =? 0); [by eexists|]. destruct (Body r); by eexists. Qed.

Lemma mcp_encodes res id :
  mcp_response {| Success := negb (IsError res); rs_RequestID := id; rs_Content := map (part_of content_json) (r_Content res); rs_Metadata := ∅;
    rs_Error := if IsError res then Some {| Code := ErrInternal; ei_Message := error_message (r_Content res) |} else None |} =
  rpc_response (marshalRequestID id) (call_result (map text_content (if IsError res then error_blocks (r_Content res) else map content_text (r_Content res))) (IsError res)).
Proof.
  unfold mcp_response. destruct (IsError res); cbn [Success negb rs_RequestID rs_Content rs_Error Code ei_Message]; [|by rewrite canonical_texts].
  f_equal. f_equal. destruct (r_Content res) as [|c l] eqn:E; [done|]. rewrite <- E. cbn [map part_of] in *.
  destruct (map (part_of content_json) (r_Content res)) as [|q qs] eqn:Eq; [by rewrite E in Eq|]. rewrite <- Eq, canonical_texts.
  unfold error_blocks. rewrite E. cbn [map]. destruct (text_content_text (content_text c)) as (t & Et & Ht). rewrite Et, Ht, <- Et. by case_bool_decide.
Qed.

(** A handler that is called, or is nil. *)
Definition called (td : ToolDefinition (ToolHandlerFunc Ctx CallToolRequest W)) (ctx : Ctx) (req : CallToolRequest) (w : W) : outcome * W :=
  if is_nil (Handler td) then (Returns None (Some (Err ("tool " +:+ quote (Params_Name req) +:+ " has no handler"))), w) else Handler td ctx req w.

(** C18.  A [tools/call] request on the MCP path, or with an MCP header, is answered with what the tool's handler makes of
    exactly its arguments as they decode: texts, errors, panics and a nil handler included; an unknown tool is refused and
    nothing runs.  The answer carries the identifier of the request when that is null, a number that does not begin
    with a sign, or a string that is neither empty nor such a number ([echoes]); another identifier comes back in
    another form (see [numeric_string_id_changes]). *)
Theorem mcp_call_answered (rt : router) (ctx : Ctx) (req : Request) (order : list Protocol) (w : W)
    (html : bool) (name : string) (given args : gmap string json) (id : json)
    (Hrt : adapters rt !! ProtocolMCP = Some (MCPAdapter unmarshal_error)) (Hend : body_error req = None)
    (Hreq : mcp_headers req || mcp_path (Path req) = true) (Hbody : Body req = print html (mcp_call name given id))
    (Hname : name ≠ "") (Hok : ok (mcp_call name given id)) (Hargs : dec_map None (json_of_map given) = Some (Some args)) :
  let answer code v := {| status := code; content_type := "application/json"; rs_Body := print true v |} in
  ∃ id', (echoes id = true → id' = id) ∧
  ServeHTTP content_json is_nil rt ctx req order w =
    match GetTool (rt_registry rt) name with
    | None => (inr (answer 400 (rpc_error id' (-32601) ("tool " +:+ quote name +:+ " not found"))), w)
    | Some td =>
        let '(o, w') := called td ctx {| Params_Name := name; Arguments := Some args |} w in
        (match mcp_answer o with inl v => inl v | inr (code, result) => inr (answer code (rpc_response id' result)) end, w')
    end.
Proof.
  intros answer. exists (marshalRequestID (formatJSONRPCID (Some (id, print html id)))). split; [apply id_echo|].
  unfold ServeHTTP. destruct (peek_ok req maxBodyPeek Hend) as [peek ->]. destruct (detect_mcp req peek Hreq) as (c & -> & Hc).
  unfold resolveAdapter. rewrite Hc, Hrt. cbn [Decode MCPAdapter].
  rewrite (mcp_decodes _ html name given) with (id := id) (decoded := args) by done. cbn [ToolName RequestID].
  destruct (GetTool _ name) as [td|]; [|done].
  unfold invokeTool, called. cbn [ToolName cr_Arguments RequestID Params_Name].
  change (@Handler (ToolHandlerFunc Ctx CallToolRequest W) td) with (Handler td). destruct (is_nil (Handler td)); [done|].
  destruct (Handler td ctx {| Params_Name := name; Arguments := Some args |} w) as [[[res|] [err|]|v] w']; cbn [mcp_answer]; try done.
  unfold encodeAndWrite. cbn [Encode MCPAdapter]. unfold mcp_Encode. rewrite mcp_encodes. unfold status_of. cbn [Success rs_Error]. by destruct (IsError res).
Qed.
End Answers.

(** ** The choice of the adapter does not depend on the walk of the map *)
Section Choice.
Context {Ctx W : Type}.
Notation router := (@Router W Ctx).
Notation Adapter := (@Adapter W).

Context (rt : router) (req : Request) (peek : string).

(** An adapter's claim on the request. *)
Definition claim (p : Protocol) : option (Adapter * Z) :=
  match adapters rt !! p with
  | Some a => if (Detect a req peek).1 then Some (a, (Detect a req peek).2) else None
  | None => None
  end.
Definition better (best : option (Adapter * Z)) (p : Protocol) : option (Adapter * Z) :=
  match claim p with
  | Some (a, c) => if match best with Some (_, d) => d | None => -1 end <? c then Some (a, c) else best
  | None => best
  end.
Lemma best_of_better order : best_of rt req peek order = foldl better None order.
Proof.
  unfold best_of. generalize (None : option (Adapter * Z)). induction order as [|p l IH]; intros best; [done|]. cbn [foldl]. rewrite <- IH. f_equal.
  unfold better, claim. destruct (adapters rt !! p) as [a|]; [|done]. destruct (Detect a req peek) as [[] c]; [|done]. cbn. by destruct (_ <? c).
Qed.

Definition top (order : list Protocol) (best : option (Adapter * Z)) : Prop :=
  match best with
  | None => ∀ p, p ∈ order → claim p = None
  | Some (a, c) => 0 <= c ∧ (∃ p, p ∈ order ∧ claim p = Some (a, c)) ∧ ∀ q b d, q ∈ order → claim q = Some (b, d) → d <= c
  end.
Hypothesis nonnegative : ∀ p a c, claim p = Some (a, c) → 0 <= c.
Lemma best_of_top order : top order (best_of rt req peek order).
Proof using nonnegative.
  rewrite best_of_better. induction order as [|p l IH] using rev_ind; [by intros p ?%elem_of_nil|]. rewrite foldl_snoc. unfold better at 1.
  destruct (claim p) as [[a c]|] eqn:Ep.
  - pose proof (nonnegative _ _ _ Ep). destruct (foldl better None l) as [[b d]|]; cbn in IH.
    + destruct IH as (Hd & (q & Hq & Eq) & Hmax). destruct (Z.ltb_spec d c); cbn.
      * split; [done|]. split; [exists p; split; [apply elem_of_app; right; by left|done]|]. intros q' b' d' [H'|H']%elem_of_app E'.
        -- specialize (Hmax _ _ _ H' E'). lia.
        -- apply list_elem_of_singleton in H' as ->. rewrite Ep in E'. injection E' as _ <-. lia.
      * split; [done|]. split; [exists q; split; [apply elem_of_app; by left|done]|]. intros q' b' d' [H'|H']%elem_of_app E'.
        -- by apply (Hmax _ _ _ H' E').
        -- apply list_elem_of_singleton in H' as ->. rewrite Ep in E'. by injection E' as _ <-.
    + destruct (Z.ltb_spec (-1) c); [|lia]. cbn. split; [done|]. split; [exists p; split; [apply elem_of_app; right; by left|done]|].
      intros q' b' d' [H'|H']%elem_of_app E'; [by rewrite IH in E'|]. apply list_elem_of_singleton in H' as ->. rewrite Ep in E'. injection E' as _ <-. lia.
  - destruct (foldl better None l) as [[b d]|]; cbn in IH |- *.
    + destruct IH as (Hd & (q & Hq & Eq) & Hmax). split; [done|]. split; [exists q; split; [apply elem_of_app; by left|done]|].
      intros q' b' d' [H'|H']%elem_of_app E'; [by apply (Hmax _ _ _ H' E')|]. apply list_elem_of_singleton in H' as ->. by rewrite Ep in E'.
    + intros q [H'|H']%elem_of_app; [by apply IH|]. by apply list_elem_of_singleton in H' as ->.
Qed.

(** With claims of different confidence the best is the same for every walk. *)
Lemma best_of_unique order order' : order ≡ₚ order' →
  (∀ p q a b c, claim p = Some (a, c) → claim q = Some (b, c) → p = q) → best_of rt req peek order = best_of rt req peek order'.
Proof using nonnegative.
  intros Hp Hdiff. pose proof (best_of_top order) as H. pose proof (best_of_top order') as H'. unfold top in H, H'.
  destruct (best_of rt req peek order) as [[a c]|], (best_of rt req peek order') as [[b d]|]; [..|done].
  - destruct H as (_ & (p & Hin & Ep) & Hmax), H' as (_ & (q & Hin' & Eq) & Hmax').
    assert (d = c) as ->. { specialize (Hmax q b d). rewrite Hp in Hmax. specialize (Hmax Hin' Eq). specialize (Hmax' p a c). rewrite <- Hp in Hmax'. specialize (Hmax' Hin Ep). lia. }
    rewrite (Hdiff _ _ _ _ _ Ep Eq) in Ep. congruence.
  - destruct H as (_ & (p & Hin & Ep) & _). rewrite Hp in Hin. by rewrite H' in Ep.
  - destruct H' as (_ & (p & Hin & Ep) & _). rewrite <- Hp in Hin. by rewrite H in Ep.
Qed.
End Choice.

Section Builtin.
Context {Ctx W : Type}.
Variable unmarshal_error : string → error.
Variable new_uuid : W → string * W.
Variable modelName : string.
Notation router := (@Router W Ctx).
Notation Adapter := (@Adapter W).

(** The adapters of the package under their names, any of them. *)
Definition builtin (p : Protocol) : option Adapter :=
  if bool_decide (p = ProtocolMCP) then Some (MCPAdapter unmarshal_error)
  else if bool_decide (p = ProtocolA2A) then Some (A2AAdapter unmarshal_error new_uuid)
  else if bool_decide (p = ProtocolOpenAI) then Some (OpenAIAdapter unmarshal_error modelName) else None.
Definition builtin_only (rt : router) : Prop := ∀ p a, adapters rt !! p = Some a → builtin p = Some a.

Lemma builtin_claim rt req peek p a c : builtin_only rt → claim rt req peek p = Some (a, c) →
  is_Some (adapters rt !! p) ∧
  (p = ProtocolMCP ∧ mcp_Detect req peek = (true, c) ∨ p = ProtocolA2A ∧ a2a_Detect req peek = (true, c) ∨
   p = ProtocolOpenAI ∧ openai_Detect req peek = (true, c)).
Proof.
  intros Hb. unfold claim. destruct (adapters rt !! p) as [a'|] eqn:E; [|done]. pose proof (Hb _ _ E) as Hp. unfold builtin in Hp.
  destruct (Detect a' req peek) as [[] c'] eqn:Ed; [|done]. cbn. intros [= <- <-]. split; [by eexists|].
  case_bool_decide; [injection Hp as <-; by left|]. case_bool_decide; [injection Hp as <-; by right; left|].
  case_bool_decide; [injection Hp as <-; by right; right|done].
Qed.

(** Who claims what, unless the request was recognised outright. *)
Lemma mcp_claims req peek c : mcp_Detect req peek = (true, c) →
  (DetectProtocol req peek).1 = ProtocolMCP ∧ ConfidenceHigh <= (DetectProtocol req peek).2 ∨
  c = ConfidenceDefinitive ∧ Method req = "POST" ∧ peek ≠ "" ∧ isMCPMethod (extractJSONRPCMethod peek) = true.
Proof.
  unfold mcp_Detect. destruct (mcp_headers req) eqn:Eh; [intros _; left; unfold DetectProtocol; by rewrite Eh|].
  destruct (mcp_path (Path req)) eqn:Ep.
  - intros _. left. destruct (detect_mcp req peek) as (d & E & Hd); [by rewrite Ep, orb_true_r|]. rewrite E. split; [done|]. cbn. lia.
  - destruct (_ && _) eqn:E; [|done]. intros [= <-]. right. apply andb_true_iff in E as [[E1%bool_decide_eq_true E2%negb_true_iff%bool_decide_eq_false]%andb_true_iff E3]. done.
Qed.
Lemma a2a_claims req peek c : mcp_headers req = false → a2a_Detect req peek = (true, c) →
  (DetectProtocol req peek).1 = ProtocolA2A ∧ ConfidenceHigh <= (DetectProtocol req peek).2 ∨
  c = ConfidenceDefinitive ∧ isA2AMethod (extractJSONRPCMethod peek) = true.
Proof.
  intros Eh. unfold a2a_Detect, DetectProtocol. rewrite Eh. destruct (well_known (Path req)); [by left|].
  destruct (a2a_path (Path req)) eqn:Ep.
  - intros _. left. unfold detectByPathPrefix. destruct (mcp_path (Path req)) eqn:Em; [apply mcp_path_other in Em as [_ Em]; congruence|]. by rewrite Ep.
  - destruct (_ && _) eqn:E; [|done]. intros [= <-]. right. by apply andb_true_iff in E as [_ E].
Qed.
Lemma openai_claims req peek c : openai_Detect req peek = (true, c) → c = ConfidenceHigh.
Proof. unfold openai_Detect. repeat case_match; congruence. Qed.
Lemma methods_disjoint m : isMCPMethod m = true → isA2AMethod m = false.
Proof.
  unfold isMCPMethod, isA2AMethod. intros H%bool_decide_eq_true. apply bool_decide_eq_false. intros H'. revert H'. 
  assert (Forall (λ m, m ∉ a2a_methods) mcp_methods) as HF by (apply (bool_decide_unpack _); vm_compute; exact I).
  rewrite Forall_forall in HF. by apply HF.
Qed.

(** Which adapter serves a request does not depend on the order in which the map of adapters is walked, for any choice of
    the package's adapters, unless the request has an MCP header that no adapter answers to. *)
Theorem resolution_is_order_free (rt : router) (req : Request) (peek : string) (order order' : list Protocol)
    (Hbuiltin : builtin_only rt) (Hperm : order ≡ₚ order') (Hheader : mcp_headers req = true → is_Some (adapters rt !! ProtocolMCP)) :
  let '(detected, conf) := DetectProtocol req peek in
  resolveAdapter rt req peek detected conf order = resolveAdapter rt req peek detected conf order'.
Proof.
  destruct (DetectProtocol req peek) as [detected conf] eqn:Ed. unfold resolveAdapter.
  destruct (if ConfidenceHigh <=? conf then adapters rt !! detected else None) as [a|] eqn:Er; [done|].
  assert (Hout : ∀ p, is_Some (adapters rt !! p) → ¬ (detected = p ∧ ConfidenceHigh <= conf)).
  { intros p [a Ha] [-> Hc]. rewrite (proj2 (Z.leb_le _ _) Hc), Ha in Er. done. }
  assert (Hh : mcp_headers req = false).
  { destruct (mcp_headers req) eqn:E; [|done]. exfalso. apply (Hout ProtocolMCP); [by apply Hheader|]. unfold DetectProtocol in Ed. rewrite E in Ed. by injection Ed as <- <-. }
  rewrite (best_of_unique rt req peek) with (order' := order'); [done|..|done|].
  - intros p a c Hc. apply builtin_claim in Hc as (_ & [(_ & H)|[(_ & H)|(_ & H)]]); [..|done].
    + unfold mcp_Detect in H. repeat case_match; by simplify_eq.
    + unfold a2a_Detect in H. repeat case_match; by simplify_eq.
    + apply openai_claims in H as ->. done.
  - intros p q a b c Hp Hq. apply builtin_claim in Hp as (Rp & Hp); [|done]. apply builtin_claim in Hq as (Rq & Hq); [|done].
    assert (HM : ∀ d, is_Some (adapters rt !! ProtocolMCP) → mcp_Detect req peek = (true, d) → d = ConfidenceDefinitive ∧ isMCPMethod (extractJSONRPCMethod peek) = true).
    { intros d R H. destruct (mcp_claims _ _ _ H) as [H'|(? & _ & _ & ?)]; [|done]. rewrite Ed in H'. by destruct (Hout ProtocolMCP R). }
    assert (HA : ∀ d, is_Some (adapters rt !! ProtocolA2A) → a2a_Detect req peek = (true, d) → d = ConfidenceDefinitive ∧ isA2AMethod (extractJSONRPCMethod peek) = true).
    { intros d R H. destruct (a2a_claims _ _ _ Hh H) as [H'|?]; [|done]. rewrite Ed in H'. by destruct (Hout ProtocolA2A R). }
    destruct Hp as [(-> & Hp)|[(-> & Hp)|(-> & Hp)]], Hq as [(-> & Hq)|[(-> & Hq)|(-> & Hq)]]; try done; exfalso.
    all: try (apply HM in Hp as [-> Hm]; [|done]); try (apply HM in Hq as [-> Hm]; [|done]); try (apply HA in Hp as [Hc Ha]; [|done]); try (apply HA in Hq as [Hc Ha]; [|done]).
    all: try (apply methods_disjoint in Hm; congruence).
    all: try (apply openai_claims in Hp); try (apply openai_claims in Hq); subst; done.
Qed.
End Builtin.

(** ** Where the gateway falls short of its protocols *)
(** A numeric string comes back as a number, a negative number as a string, a null of an agent as the string null. *)
Lemma numeric_string_id_changes :
  marshalRequestID (formatJSONRPCID (Some (JString "42", quoted "42"))) = JNumber "42" ∧
  marshalRequestID (formatJSONRPCID (Some (JNumber "-1", "-1"))) = JString "-1" ∧
  extractRequestID (Some (JNull, "null")) = "null".
Proof. by vm_compute. Qed.

(** An agent's identifier is put between quotes as it is: with a quote in it there is no answer. *)
Lemma quote_in_id_is_no_answer task : a2a_body dquote task = None.
Proof. reflexivity. Qed.

(** The first member called method counts, wherever it is. *)
Lemma nested_method_misroutes :
  extractJSONRPCMethod (print true (JObject [("params", JObject [("method", JString "tools/call")]); ("method", JString "a2a.sendMessage")])) = "tools/call".
Proof. by vm_compute. Qed.

Section Shortfalls.
Context {Ctx W : Type}.
Variable unmarshal_error : string → error.
Variable content_json : string → json.
Variable is_nil : ToolHandlerFunc Ctx CallToolRequest W → bool.
Notation router := (@Router W Ctx).

(** A lifecycle method names no tool: the handshake of an MCP client is answered with an error. *)
Lemma handshake_is_refused (rt : router) ctx req order w html id :
  adapters rt !! ProtocolMCP = Some (MCPAdapter unmarshal_error) → body_error req = None → mcp_headers req || mcp_path (Path req) = true →
  GetTool (rt_registry rt) "" = None → echoes id = true →
  ok (JObject [("jsonrpc", JString "2.0"); ("id", id); ("method", JString "initialize")]) →
  Body req = print html (JObject [("jsonrpc", JString "2.0"); ("id", id); ("method", JString "initialize")]) →
  ServeHTTP content_json is_nil rt ctx req order w =
    (inr {| status := 400; content_type := "application/json";
            rs_Body := print true (rpc_error id (-32601) ("tool " +:+ quote "" +:+ " not found")) |}, w).
Proof.
  intros Hrt Hend Hreq Htool Hid [Hw Hv] Hbody. unfold ServeHTTP. destruct (peek_ok req maxBodyPeek Hend) as [peek ->].
  destruct (detect_mcp req peek Hreq) as (c & -> & Hc). unfold resolveAdapter. rewrite Hc, Hrt. cbn [Decode MCPAdapter].
  assert (mcp_Decode unmarshal_error req = inr (no_tool ProtocolMCP (formatJSONRPCID (Some (id, print html id))) {["jsonrpc.method" := "initialize"]})) as ->.
  { unfold mcp_Decode, read_all, dec_envelope. rewrite Hend, Hbody, parse_sent, object_members_sent by done. cbn [map mbind option_bind]. read_raw.
    unfold dec_name, dec_raw, sent. cbn [mbind option_bind dec_string fst snd rpc_JSONRPC rpc_Method rpc_ID rpc_Params]. by rewrite bool_decide_true. }
  cbn [ToolName no_tool]. rewrite Htool. unfold encodeAndWrite. cbn [Encode MCPAdapter]. unfold mcp_Encode, mcp_response, failure, no_tool.
  cbn [Success rs_Error Code rs_RequestID ei_Message RequestID]. by rewrite id_echo.
Qed.

(** The handler of the definition is called: no middleware of the registry runs. *)
Lemma gateway_bypasses_middleware (rt : router) mws ctx req order w :
  ServeHTTP content_json is_nil {| adapters := adapters rt; rt_registry := SetMiddleware (rt_registry rt) mws |} ctx req order w =
  ServeHTTP content_json is_nil rt ctx req order w.
Proof. reflexivity. Qed.
End Shortfalls.

(** With an MCP header and no MCP adapter, an agent's path and a chat's body tie: the walk of the map decides. *)
Definition plain_error (s : string) : error := Err s.
Definition demo_request (headers : gmap string string) (path body : string) : Request := {|
  Method := "POST"; Path := path; header := λ k, default "" (headers !! k); ContentLength := Z.of_nat (String.length body); Body := body;
  first_read := 4096; body_error := None |}.
Definition demo_router (l : list (@Adapter nat)) : @Router nat unit :=
  foldr Register (NewRouter (registry echo_server)) l.
Lemma unanswered_header_ties :
  let rt := demo_router [A2AAdapter plain_error demo_uuid; OpenAIAdapter plain_error "m"] in
  let req := demo_request {["Mcp-Session-Id" := "s"]} "/a2a" (quoted "tool_calls") in
  let chosen order := a_Protocol <$> resolveAdapter rt req (Body req) ProtocolMCP ConfidenceDefinitive order in
  chosen [ProtocolA2A; ProtocolOpenAI] = Some ProtocolA2A ∧ chosen [ProtocolOpenAI; ProtocolA2A] = Some ProtocolOpenAI.
Proof. by vm_compute. Qed.

Lemma resolution_is_order_free_witness :
  let rt := demo_router [MCPAdapter plain_error; OpenAIAdapter plain_error "m"] in
  let req := demo_request ∅ "/" (quoted "tool_calls") in
  resolveAdapter rt req (Body req) ProtocolOpenAI ConfidenceHigh [ProtocolMCP; ProtocolOpenAI] =
  resolveAdapter rt req (Body req) ProtocolOpenAI ConfidenceHigh [ProtocolOpenAI; ProtocolMCP].
Proof.
  intros rt req.
  pose proof (resolution_is_order_free plain_error demo_uuid "m" rt req (Body req) [ProtocolMCP; ProtocolOpenAI] [ProtocolOpenAI; ProtocolMCP]) as H.
  apply H; [|apply perm_swap|intros _; by eexists].
  intros p a Ha. unfold rt, demo_router in Ha. cbn [foldr Register adapters a_Protocol MCPAdapter OpenAIAdapter NewRouter] in Ha. unfold builtin.
  apply lookup_insert_Some in Ha as [[<- <-]|[Hp Ha]]; [done|]. apply lookup_insert_Some in Ha as [[<- <-]|[Hp' Ha]]; [done|]. by rewrite lookup_empty in Ha.
Defined.

Lemma one_call_in_three_protocols_witness :
  let r := demo_request ∅ "/" "" in
  call_of (mcp_Decode plain_error (with_body r (print true (mcp_call "echo" demo_args (JString "id1"))))) = Some ("echo", Some demo_args, "id1").
Proof.
  intros r. destruct (one_call_in_three_protocols plain_error r true "echo" "id1" "m1" "gpt" demo_args) as [H _]; try done; [by apply (bool_decide_unpack _); vm_compute|by split; vm_compute..].
Defined.

Lemma mcp_call_answered_witness :
  let rt := demo_router [MCPAdapter plain_error] in
  let req := demo_request ∅ "/mcp" (print true (mcp_call "echo" (<["n" := JNumber "1e2"]> demo_args) (JNumber "7"))) in
  (ServeHTTP (λ _, JNull) (λ _, false) rt () req [ProtocolMCP] 0%nat).1 =
    inr {| status := 200; content_type := "application/json";
           rs_Body := print true (rpc_response (JNumber "7") (call_result [text_content "hi"] false)) |}.
Proof.
  intros rt req.
  destruct (mcp_call_answered plain_error (λ _, JNull) (λ _, false) rt () req [ProtocolMCP] 0%nat true "echo" (<["n" := JNumber "1e2"]> demo_args)
    (<["n" := JNumber "100"]> demo_args) (JNumber "7")) as (id' & Hid & H); [done..|by split; vm_compute|by vm_compute|].
  rewrite (Hid eq_refl) in H. rewrite H. by vm_compute.
Defined.
