(* ===== verification/A2aServer.v ===== *)
(** The agent-to-agent task server (src/a2a): the table of tasks, push notification settings, and the goroutines
    that dispatch tasks, as steps between the server's locks; agent cards; the tool that sends a task to another
    agent.  Requests are decoded and answers are values: the JSON around them is left out.  Notifications are
    collected in an outbox in no particular order: each is sent by a goroutine of its own. *)

From stdpp Require Import base tactics list gmap strings.
From Stdlib Require Import ZArith Lia.
From S2P Require Import Prelude.

Local Open Scope Z_scope.

(** ** Data (types.go) *)
Definition TaskState := string.
Definition TaskSubmitted : TaskState := "submitted".
Definition TaskWorking : TaskState := "working".
Definition TaskInputNeeded : TaskState := "input-needed".
Definition TaskCompleted : TaskState := "completed".
Definition TaskCanceled : TaskState := "canceled".
Definition TaskFailed : TaskState := "failed".
Definition IsTerminal (s : TaskState) : bool :=
  bool_decide (s = TaskCompleted) || bool_decide (s = TaskCanceled) || bool_decide (s = TaskFailed).

Record FileContent := { fc_Name : string; MIMEType : string; Bytes : string; URI : string }.
Record Part := { p_Type : string; p_Text : string; File : option FileContent; p_Data : option json; p_Metadata : gmap string string }.
Definition TextPart (text : string) : Part := {| p_Type := "text"; p_Text := text; File := None; p_Data := None; p_Metadata := ∅ |}.
Record Message := { Role : string; Parts : list Part }.
Record Artifact := {
  a_Name : string; a_Description : string; a_Parts : list Part; Index : Z; Append : bool; LastChunk : bool }.
Record Task := {
  t_ID : string; State : TaskState; Messages : list Message; Artifacts : list Artifact; Metadata : gmap string string;
  Created : time; Updated : time
}.
Record PushNotificationConfig := {
  pc_ID : string; pc_TaskID : string; pc_URL : string; Token : string; Authentication : option (string * string) }.
Record TaskSendParams := {
  sp_ID : string; sp_Messages : list Message; sp_Metadata : gmap string string; PushNotification : option PushNotificationConfig }.

(** A status update, as it is pushed. *)
Record TaskStatusUpdateEvent := { ev_TaskID : string; ev_State : TaskState; Timestamp : time; ev_Metadata : gmap string string }.
Record Notice := { n_Config : PushNotificationConfig; n_Event : TaskStatusUpdateEvent }.

Definition set_state (state : TaskState) (extra : list Message) (now : time) (t : Task) : Task := {|
  t_ID := t_ID t; State := state; Messages := Messages t ++ extra; Artifacts := Artifacts t; Metadata := Metadata t;
  Created := Created t; Updated := now |}.

(** ** The server (server.go) *)
Record Server := {
  tasks : gmap string Task; pushConfigs : gmap string (gmap string PushNotificationConfig); pushSupported : bool }.
Definition NewServer (push : bool) : Server := {| tasks := ∅; pushConfigs := ∅; pushSupported := push |}.
Definition set_tasks (m : gmap string Task) (s : Server) : Server :=
  {| tasks := m; pushConfigs := pushConfigs s; pushSupported := pushSupported s |}.
Definition set_configs (m : gmap string (gmap string PushNotificationConfig)) (s : Server) : Server :=
  {| tasks := tasks s; pushConfigs := m; pushSupported := pushSupported s |}.

(** JSON-RPC errors: a code and a text. *)
Definition RpcError : Type := Z * string.
Definition task_not_found : RpcError := (-32001, "task not found").
(** Errors of the configurations have an HTTP status as well. *)
Record pushError := { pe_code : Z; httpStatus : Z; message : string }.
Definition StatusBadRequest : Z := 400.
Definition StatusNotFound : Z := 404.
Definition invalid (text : string) : pushError := {| pe_code := -32602; httpStatus := StatusBadRequest; message := text |}.
Definition missing (text : string) : pushError := {| pe_code := -32001; httpStatus := StatusNotFound; message := text |}.
Definition not_supported : RpcError := (-32003, "push notifications not supported").

Section Server.
(** [url.Parse]: the scheme and the host. *)
Variable url_parse : string → option (string * string).

Definition normalizePushConfig (c : PushNotificationConfig) (fallbackTaskID uuid : string) : string + PushNotificationConfig :=
  let taskID := if bool_decide (pc_TaskID c = "") then fallbackTaskID else pc_TaskID c in
  if bool_decide (taskID = "") then inl "taskId is required"
  else if bool_decide (pc_URL c = "") then inl "url is required"
  else match url_parse (pc_URL c) with
       | None => inl "url must be an absolute HTTP(S) URL"
       | Some (scheme, host) =>
           if bool_decide (scheme = "") || bool_decide (host = "") then inl "url must be an absolute HTTP(S) URL"
           else if negb (bool_decide (scheme = "http")) && negb (bool_decide (scheme = "https")) then inl "url must use http or https"
           else inr {| pc_ID := if bool_decide (pc_ID c = "") then uuid else pc_ID c; pc_TaskID := taskID; pc_URL := pc_URL c;
                       Token := Token c; Authentication := Authentication c |}
       end.

Definition storePushConfigLocked (c : PushNotificationConfig) (s : Server) : Server :=
  set_configs (<[pc_TaskID c := <[pc_ID c := c]> (default ∅ (pushConfigs s !! pc_TaskID c))]> (pushConfigs s)) s.
Definition pushConfigsForTaskLocked (taskID : string) (s : Server) : list PushNotificationConfig :=
  (map_to_list (default ∅ (pushConfigs s !! taskID))).*2.
Definition clearPushConfigs (taskID : string) (s : Server) : Server := set_configs (delete taskID (pushConfigs s)) s.

(** A change of a task; [None] leaves it as it is.  The task afterwards, whether it changed, and who is to be told. *)
Definition updateTask (taskID : string) (mutate : Task → option Task) (s : Server) : option (Task * bool * list PushNotificationConfig) * Server :=
  match tasks s !! taskID with
  | None => (None, s)
  | Some t =>
      match mutate t with
      | Some t' => (Some (t', true, pushConfigsForTaskLocked taskID s), set_tasks (<[taskID := t']> (tasks s)) s)
      | None => (Some (t, false, pushConfigsForTaskLocked taskID s), s)
      end
  end.
(** A task that has not ended goes to a state, with messages. *)
Definition advance (state : TaskState) (extra : list Message) (now : time) (t : Task) : option Task :=
  if IsTerminal (State t) then None else Some (set_state state extra now t).

Definition status_event (t : Task) : TaskStatusUpdateEvent :=
  {| ev_TaskID := t_ID t; ev_State := State t; Timestamp := Updated t; ev_Metadata := Metadata t |}.
Definition notices (t : Task) (configs : list PushNotificationConfig) : list Notice :=
  map (λ c, {| n_Config := c; n_Event := status_event t |}) configs.

(** ** Requests *)
Definition handleTaskSend (params : TaskSendParams) (uuid config_uuid : string) (now : time) (s : Server) : (RpcError + Task) * Server :=
  let id := if bool_decide (sp_ID params = "") then uuid else sp_ID params in
  let t := {| t_ID := id; State := TaskSubmitted; Messages := sp_Messages params; Artifacts := []; Metadata := sp_Metadata params;
              Created := now; Updated := now |} in
  match PushNotification params with
  | None => (inr t, set_tasks (<[id := t]> (tasks s)) s)
  | Some c =>
      if negb (pushSupported s) then (inl not_supported, s) else
      match normalizePushConfig c id config_uuid with
      | inl err => (inl (-32602, err), s)
      | inr c =>
          let c := {| pc_ID := pc_ID c; pc_TaskID := id; pc_URL := pc_URL c; Token := Token c; Authentication := Authentication c |} in
          (inr t, storePushConfigLocked c (set_tasks (<[id := t]> (tasks s)) s))
      end
  end.
Definition handleTaskGet (id : string) (s : Server) : RpcError + Task :=
  match tasks s !! id with Some t => inr t | None => inl task_not_found end.
Definition cancel_task (now : time) : Task → option Task := advance TaskCanceled [] now.

Definition createPushConfig (c : PushNotificationConfig) (uuid : string) (s : Server) : (pushError + PushNotificationConfig) * Server :=
  match normalizePushConfig c (pc_TaskID c) uuid with
  | inl err => (inl (invalid err), s)
  | inr c => match tasks s !! pc_TaskID c with
             | None => (inl (missing "task not found"), s)
             | Some _ => (inr c, storePushConfigLocked c s)
             end
  end.
Definition getPushConfig (taskID configID : string) (s : Server) : pushError + PushNotificationConfig :=
  if bool_decide (taskID = "") || bool_decide (configID = "") then inl (invalid "taskId and id are required") else
  match pushConfigs s !! taskID with
  | None => match tasks s !! taskID with None => inl (missing "task not found") | Some _ => inl (missing "push notification config not found") end
  | Some configs => match configs !! configID with None => inl (missing "push notification config not found") | Some c => inr c end
  end.
Definition listPushConfigs (taskID : string) (s : Server) : pushError + list PushNotificationConfig :=
  if bool_decide (taskID = "") then inl (invalid "taskId is required") else
  match tasks s !! taskID with
  | None => inl (missing "task not found")
  | Some _ => inr (pushConfigsForTaskLocked taskID s)
  end.
Definition deletePushConfig (taskID configID : string) (s : Server) : (pushError + bool) * Server :=
  if bool_decide (taskID = "") || bool_decide (configID = "") then (inl (invalid "taskId and id are required"), s) else
  match tasks s !! taskID with
  | None => (inl (missing "task not found"), s)
  | Some _ =>
      match pushConfigs s !! taskID with
      | None => (inr true, s)
      | Some configs =>
          let configs := delete configID configs in
          (inr true, set_configs (if bool_decide (configs = ∅) then delete taskID (pushConfigs s) else <[taskID := configs]> (pushConfigs s)) s)
      end
  end.

(** ** Dispatching a task *)
Definition part_text (p : Part) : string := if bool_decide (p_Type p = "text") then p_Text p +:+ " " else "".
Definition task_text (messages : list Message) : string :=
  foldr String.append "" (concat (map (λ m, if bool_decide (Role m = "user") then map part_text (Parts m) else []) messages)).
(** The first tool of the sorted list. *)
Definition findBestTool (tools : list string) (taskText : string) : string := match tools with [] => "" | t :: _ => t end.
Definition agent_message (text : string) : Message := {| Role := "agent"; Parts := [TextPart text] |}.
Definition outcome_of (tools : list string) (messages : list Message) : TaskState * Message :=
  let taskText := task_text messages in
  let toolName := findBestTool tools taskText in
  if bool_decide (toolName = "") then (TaskFailed, agent_message "no matching tool found for this task")
  else (TaskCompleted, agent_message ("dispatched to tool: " +:+ toolName +:+ " (input: " +:+ taskText +:+ ")")).

(** ** The server at work: what its goroutines have still to do, and the notifications on their way *)
Inductive Phase :=
| Dispatching (id : string)
| Choosing (id : string) (snapshot : Task)
| Clearing (id : string).
Record System := { srv : Server; work : list Phase; outbox : list Notice }.
Definition start (push : bool) : System := {| srv := NewServer push; work := []; outbox := [] |}.

(** Telling those who asked to be told; after the last state their settings are to be cleared. *)
Definition notifyTaskUpdate (t : Task) (configs : list PushNotificationConfig) : list Notice * list Phase :=
  match configs with
  | [] => ([], [])
  | _ => (notices t configs, if IsTerminal (State t) then [Clearing (t_ID t)] else [])
  end.
Definition update_and_tell (id : string) (mutate : Task → option Task) (st : System) : option Task * System :=
  match updateTask id mutate (srv st) with
  | (None, _) => (None, st)
  | (Some (t, changed, configs), s) =>
      let '(sent, more) := if changed then notifyTaskUpdate t configs else ([], []) in
      (Some t, {| srv := s; work := work st ++ more; outbox := outbox st ++ sent |})
  end.
Definition add_work (ph : Phase) (st : System) : System := {| srv := srv st; work := work st ++ [ph]; outbox := outbox st |}.
Definition with_srv (s : Server) (st : System) : System := {| srv := s; work := work st; outbox := outbox st |}.

(** [tools] is the registry's list at the time the tool is chosen. *)
Definition dispatchTask (ph : Phase) (tools : list string) (now : time) (st : System) : System :=
  match ph with
  | Dispatching id =>
      match update_and_tell id (advance TaskWorking [] now) st with
      | (Some t, st) => if IsTerminal (State t) then st else add_work (Choosing id t) st
      | (None, st) => st
      end
  | Choosing id snapshot =>
      let '(state, message) := outcome_of tools (Messages snapshot) in
      (update_and_tell id (advance state [message] now) st).2
  | Clearing id => with_srv (clearPushConfigs id (srv st)) st
  end.

(** One step: a request that changes something, or the next step of one goroutine. *)
Inductive Step :=
| Send (params : TaskSendParams) (uuid config_uuid : string) (now : time)
| CancelTask (id : string) (now : time)
| CreateConfig (c : PushNotificationConfig) (uuid : string)
| DeleteConfig (taskID configID : string)
| Work (i : nat) (tools : list string) (now : time).
Definition exec (st : System) (l : Step) : System :=
  match l with
  | Send params uuid config_uuid now =>
      match handleTaskSend params uuid config_uuid now (srv st) with
      | (inl _, s) => with_srv s st
      | (inr t, s) => add_work (Dispatching (t_ID t)) (with_srv s st)
      end
  | CancelTask id now => (update_and_tell id (cancel_task now) st).2
  | CreateConfig c uuid => with_srv (createPushConfig c uuid (srv st)).2 st
  | DeleteConfig taskID configID => with_srv (deletePushConfig taskID configID (srv st)).2 st
  | Work i tools now =>
      match work st !! i with
      | Some ph => dispatchTask ph tools now {| srv := srv st; work := delete i (work st); outbox := outbox st |}
      | None => st
      end
  end.
Definition run (ls : list Step) (st : System) : System := foldl exec st ls.

(** ** What holds in every interleaving *)
Definition phase_id (ph : Phase) : string := match ph with Dispatching id | Choosing id _ | Clearing id => id end.
Definition dispatches (id : string) (ph : Phase) : Prop :=
  match ph with Dispatching i | Choosing i _ => i = id | Clearing _ => False end.
#[export] Instance dispatches_dec id ph : Decision (dispatches id ph).
Proof. destruct ph as [i|i t|i]; [exact (decide (i = id))..|right; by intros []]. Defined.
Definition of_task (id : string) (l : list Phase) : list Phase := filter (dispatches id) l.
(** How often the holder of a configuration was told that the task has ended. *)
Definition last_word (id cid : string) (n : Notice) : Prop :=
  ev_TaskID (n_Event n) = id ∧ IsTerminal (ev_State (n_Event n)) = true ∧ pc_ID (n_Config n) = cid.
#[export] Instance last_word_dec id cid n : Decision (last_word id cid n).
Proof. apply _. Defined.
Definition told (id cid : string) (st : System) : nat := length (filter (last_word id cid) (outbox st)).

Record sound (st : System) : Prop := {
  task_keys : ∀ k t, tasks (srv st) !! k = Some t → t_ID t = k;
  config_keys : ∀ k m c cfg, pushConfigs (srv st) !! k = Some m → m !! c = Some cfg → pc_ID cfg = c;
  work_known : ∀ ph, ph ∈ work st → is_Some (tasks (srv st) !! phase_id ph);
  notices_known : ∀ n, n ∈ outbox st → is_Some (tasks (srv st) !! ev_TaskID (n_Event n))
}.
Lemma sound_start push : sound (start push).
Proof. split; cbn; intros; try (by rewrite lookup_empty in *); by apply elem_of_nil in H. Qed.

Lemma elem_of_delete {A} (x : A) (l : list A) (i : nat) : x ∈ delete i l → x ∈ l.
Proof.
  rewrite delete_take_drop, elem_of_app. intros [H|H]; apply list_elem_of_lookup in H as [j H].
  - apply lookup_take_Some in H as [H _]. by eapply list_elem_of_lookup_2.
  - rewrite lookup_drop in H. by eapply list_elem_of_lookup_2.
Qed.
Ltac use_elem_of := match goal with H : _ ∈ _ ++ _ |- _ => apply elem_of_app in H as [H|H] end.

(** The tasks before are tasks afterwards. *)
Definition grows (st st' : System) : Prop := ∀ k, is_Some (tasks (srv st) !! k) → is_Some (tasks (srv st') !! k).

Lemma notify_known t configs : (∀ ph, ph ∈ (notifyTaskUpdate t configs).2 → ph = Clearing (t_ID t)) ∧
  ∀ n, n ∈ (notifyTaskUpdate t configs).1 → n_Event n = status_event t ∧ n_Config n ∈ configs.
Proof.
  unfold notifyTaskUpdate. destruct configs as [|c configs]; [split; intros ? H; by apply elem_of_nil in H|]. split.
  - intros ph H. cbn [snd] in H. destruct (IsTerminal _); [by apply list_elem_of_singleton in H|by apply elem_of_nil in H].
  - intros n H. cbn [fst] in H. unfold notices in H. apply list_elem_of_In, in_map_iff in H as (c' & <- & H). split; [done|]. by apply list_elem_of_In.
Qed.

Lemma update_sound id mutate st : sound st → (∀ t t', mutate t = Some t' → t_ID t' = t_ID t) →
  sound (update_and_tell id mutate st).2 ∧ grows st (update_and_tell id mutate st).2.
Proof.
  intros [Ht Hc Hw Hn] Hm. unfold update_and_tell, updateTask. destruct (tasks (srv st) !! id) as [t|] eqn:E; [|by split; [split|intros k]].
  destruct (mutate t) as [t'|] eqn:Em; cbn; [|rewrite !app_nil_r; by split; [split|intros k]].
  pose proof (notify_known t' (pushConfigsForTaskLocked id (srv st))) as [Hph Hno].
  destruct (notifyTaskUpdate t' _) as [sent more] eqn:En. cbn [fst snd] in *.
  assert (Hid : t_ID t' = id) by (rewrite (Hm t t' Em); by apply Ht).
  assert (Hgrow : ∀ k, is_Some (tasks (srv st) !! k) → is_Some (<[id := t']> (tasks (srv st)) !! k)).
  { intros k Hk. destruct (decide (id = k)) as [->|]; [rewrite lookup_insert_eq; by eexists|by rewrite lookup_insert_ne]. }
  split; [|intros k; apply Hgrow]. split; cbn [srv work outbox set_tasks tasks pushConfigs].
  - intros k t0 [[<- <-]|[? H]]%lookup_insert_Some; [done|by apply Ht].
  - apply Hc.
  - intros ph H. use_elem_of; [by apply Hgrow, Hw|]. apply Hph in H as ->. cbn. rewrite Hid, lookup_insert_eq. by eexists.
  - intros n H. use_elem_of; [by apply Hgrow, Hn|]. apply Hno in H as [-> _]. cbn. rewrite Hid, lookup_insert_eq. by eexists.
Qed.

Lemma store_config_keys c s k m i cfg : (∀ k m c cfg, pushConfigs s !! k = Some m → m !! c = Some cfg → pc_ID cfg = c) →
  pushConfigs (storePushConfigLocked c s) !! k = Some m → m !! i = Some cfg → pc_ID cfg = i.
Proof.
  intros Hc. unfold storePushConfigLocked, set_configs. cbn [pushConfigs]. intros [[<- <-]|[? H]]%lookup_insert_Some Hi; [|by eapply Hc].
  apply lookup_insert_Some in Hi as [[<- <-]|[? H]]; [done|]. destruct (pushConfigs s !! pc_TaskID c) as [m|] eqn:E; cbn in H; [by eapply Hc|done].
Qed.

Lemma sound_less_work st i : sound st → sound {| srv := srv st; work := delete i (work st); outbox := outbox st |}.
Proof. intros [Ht Hc Hw Hn]. split; cbn; [done..| |done]. intros ph H. apply Hw. by eapply elem_of_delete. Qed.
Lemma sound_add_work st ph : sound st → is_Some (tasks (srv st) !! phase_id ph) → sound (add_work ph st).
Proof. intros [Ht Hc Hw Hn] Hp. split; cbn; [done..| |done]. intros p H. use_elem_of; [by apply Hw|]. by apply list_elem_of_singleton in H as ->. Qed.

Lemma advance_id state extra now t t' : advance state extra now t = Some t' → t_ID t' = t_ID t.
Proof. unfold advance. destruct (IsTerminal _); [done|]. by intros [= <-]. Qed.
Lemma update_known id mutate st t : (update_and_tell id mutate st).1 = Some t → is_Some (tasks (srv st) !! id).
Proof. unfold update_and_tell, updateTask. destruct (tasks (srv st) !! id); [by eexists|done]. Qed.
Lemma grows_refl st : grows st st. Proof. by intros k. Qed.
Lemma grows_trans st1 st2 st3 : grows st1 st2 → grows st2 st3 → grows st1 st3.
Proof. intros H1 H2 k Hk. by apply H2, H1. Qed.
Hint Resolve grows_refl : core.

(** A change that leaves the tasks alone. *)
Lemma sound_srv st s : sound st → tasks s = tasks (srv st) →
  (∀ k m c cfg, pushConfigs s !! k = Some m → m !! c = Some cfg → pc_ID cfg = c) → sound (with_srv s st).
Proof. intros [Ht Hc Hw Hn] Hs Hk. split; cbn [with_srv srv work outbox]; rewrite ?Hs; done. Qed.
Lemma sound_new st s id t : sound st → tasks s = <[id := t]> (tasks (srv st)) → t_ID t = id →
  (∀ k m c cfg, pushConfigs s !! k = Some m → m !! c = Some cfg → pc_ID cfg = c) →
  sound (add_work (Dispatching id) (with_srv s st)) ∧ grows st (add_work (Dispatching id) (with_srv s st)).
Proof.
  intros [Ht Hc Hw Hn] Hs Hid Hk.
  assert (Hgrow : ∀ k, is_Some (tasks (srv st) !! k) → is_Some (tasks s !! k)).
  { intros k Hi. rewrite Hs. destruct (decide (id = k)) as [->|]; [rewrite lookup_insert_eq; by eexists|by rewrite lookup_insert_ne]. }
  split; [|exact Hgrow]. apply sound_add_work; [split; cbn [with_srv srv work outbox]|cbn; rewrite Hs, lookup_insert_eq; by eexists]; [|done|..].
  - rewrite Hs. intros k t0 [[<- <-]|[? H]]%lookup_insert_Some; [done|by apply Ht].
  - intros ph H. by apply Hgrow, Hw.
  - intros n H. by apply Hgrow, Hn.
Qed.

Definition task_id (params : TaskSendParams) (uuid : string) : string := if bool_decide (sp_ID params = "") then uuid else sp_ID params.
(** What an accepted task leaves behind. *)
Lemma handleTaskSend_spec params uuid cu now s :
  match handleTaskSend params uuid cu now s with
  | (inl _, s') => s' = s
  | (inr t, s') => t_ID t = task_id params uuid ∧ State t = TaskSubmitted ∧ Messages t = sp_Messages params ∧
      tasks s' = <[task_id params uuid := t]> (tasks s) ∧ (s' = set_tasks (tasks s') s ∨ ∃ c, s' = storePushConfigLocked c (set_tasks (tasks s') s))
  end.
Proof.
  unfold handleTaskSend. destruct (PushNotification params) as [c|]; [|by repeat split; left]. destruct (pushSupported s); [cbn [negb]|done].
  destruct (normalizePushConfig c _ cu) as [e|c']; [done|]. repeat split. right. by eexists.
Qed.

Lemma with_srv_same st : with_srv (srv st) st = st.
Proof. by destruct st. Qed.
Lemma exec_sound st l : sound st → sound (exec st l) ∧ grows st (exec st l).
Proof.
  intros Hst. destruct l as [p uuid cu now|id now|c uuid|t c|i tools now]; cbn [exec].
  - pose proof (handleTaskSend_spec p uuid cu now (srv st)) as Hs. destruct (handleTaskSend p uuid cu now (srv st)) as [[e|t] s].
    { subst. by rewrite with_srv_same. }
    destruct Hs as (Hid & _ & _ & Htasks & Hc). rewrite Hid. apply (sound_new st s _ t); [done..|].
    destruct Hc as [->|[c ->]]; [by apply Hst|]. intros k m i cfg. apply store_config_keys. by apply Hst.
  - apply update_sound; [done|]. intros t t'. apply advance_id.
  - unfold createPushConfig. destruct (normalizePushConfig _ _ _) as [e|c']; [by destruct st|]. destruct (tasks (srv st) !! _); [|by cbn [snd]; rewrite with_srv_same]. split; [|by intros k].
    apply sound_srv; [done..|]. intros k m i cfg. apply store_config_keys. by apply Hst.
  - unfold deletePushConfig. destruct (_ || _); [by destruct st|]. destruct (tasks (srv st) !! t); [|by cbn [snd]; rewrite with_srv_same].
    destruct (pushConfigs (srv st) !! t) as [m|] eqn:E; [|by cbn [snd]; rewrite with_srv_same]. split; [|by intros k]. apply sound_srv; [done..|].
    cbn. intros k m' i cfg. destruct (bool_decide _).
    + intros [? H]%lookup_delete_Some. by eapply (config_keys st).
    + intros [[<- <-]|[? H]]%lookup_insert_Some Hi; [|by eapply (config_keys st)]. apply lookup_delete_Some in Hi as [? Hi]. by eapply (config_keys st).
  - destruct (work st !! i) as [ph|] eqn:E; [|done]. pose proof (sound_less_work st i Hst) as Hl. destruct ph as [id|id snap|id]; cbn [dispatchTask].
    + match goal with |- context [update_and_tell id ?m ?s] => pose proof (update_sound id m s Hl (advance_id _ _ _)) as [Hs Hg]; pose proof (update_known id m s) as Hk end.
      destruct (update_and_tell id _ _) as [[t|] s]; cbn [fst snd] in *; [|done]. destruct (IsTerminal _); [done|].
      split; [apply sound_add_work; [done|]; by apply Hg, (Hk t)|done].
    + destruct (outcome_of tools (Messages snap)) as [state message]. exact (update_sound _ _ _ Hl (advance_id _ _ _)).
    + split; [|by intros k]. apply sound_srv; [done..|]. cbn. intros k m c cfg [? H]%lookup_delete_Some. by eapply (config_keys st).
Qed.
Lemma run_sound ls : ∀ st, sound st → sound (run ls st) ∧ grows st (run ls st).
Proof.
  induction ls as [|l ls IH]; intros st Hst; [by split|]. cbn [run foldl]. destruct (exec_sound st l Hst) as [H1 H2].
  destruct (IH _ H1) as [H3 H4]. split; [done|by eapply grows_trans].
Qed.

(** ** The life of one task *)
Lemma filter_rejects {A} (P : A → Prop) `{∀ x, Decision (P x)} (l : list A) : (∀ x, P x → x ∉ l) → filter P l = [].
Proof.
  induction l as [|x l IH]; [done|]. intros Hl. rewrite filter_cons_False by (intros Hx; by apply (Hl x Hx), list_elem_of_here).
  apply IH. intros z Hz Hin. by apply (Hl z Hz), list_elem_of_further.
Qed.
Lemma filter_key_unique {A} (f : A → string) (y : string) (l : list A) : NoDup (f <$> l) → (length (filter (λ x, f x = y) l) ≤ 1)%nat.
Proof.
  induction l as [|x l IH]; [cbn; lia|]. rewrite fmap_cons. intros [Hx Hl]%NoDup_cons. rewrite filter_cons. destruct (decide (f x = y)) as [<-|]; [|auto].
  cbn [length]. enough (filter (λ z, f z = f x) l = []) as -> by (cbn; lia).
  apply filter_rejects. intros z Hz Hin. apply Hx. rewrite <- Hz. by apply list_elem_of_fmap_2.
Qed.
Lemma told_once t configs (m : gmap string PushNotificationConfig) cid k :
  (∀ c cfg, m !! c = Some cfg → pc_ID cfg = c) → configs = (map_to_list m).*2 →
  (length (filter (last_word k cid) (notifyTaskUpdate t configs).1) ≤ if bool_decide (t_ID t = k) && IsTerminal (State t) then 1 else 0)%nat.
Proof.
  intros Hm ->. assert (Hf : ∀ l, length (filter (last_word k cid) (notices t l)) =
    if bool_decide (t_ID t = k) && IsTerminal (State t) then length (filter (λ c, pc_ID c = cid) l) else 0%nat).
  { induction l as [|c l IH]; [by destruct (_ && _)|]. unfold notices in *. cbn [map]. rewrite !filter_cons. unfold last_word at 1. cbn.
    repeat case_decide; destruct (bool_decide_reflect (t_ID t = k)), (IsTerminal (State t)) eqn:E; cbn [andb length] in *; naive_solver. }
  unfold notifyTaskUpdate. destruct ((map_to_list m).*2) as [|c l] eqn:E; [cbn; lia|]. cbn [fst]. rewrite Hf, <- E. destruct (_ && _); [|done].
  apply filter_key_unique. assert (pc_ID <$> (map_to_list m).*2 = (map_to_list m).*1) as ->; [|apply NoDup_fst_map_to_list].
  rewrite <- list_fmap_compose. apply list_fmap_ext. intros i [c' cfg] Hi. cbn. apply Hm. by eapply elem_of_map_to_list, list_elem_of_lookup_2.
Qed.

Lemma update_keep id mutate st : match tasks (srv st) !! id with Some t => mutate t = None | None => True end →
  update_and_tell id mutate st = (tasks (srv st) !! id, st).
Proof.
  unfold update_and_tell, updateTask. destruct (tasks (srv st) !! id) as [t|]; [intros ->|done]. rewrite !app_nil_r. by destruct st.
Qed.
Lemma update_change id mutate st t t' : sound st → tasks (srv st) !! id = Some t → mutate t = Some t' → t_ID t' = id →
  let '(r, st') := update_and_tell id mutate st in
  r = Some t' ∧ tasks (srv st') = <[id := t']> (tasks (srv st)) ∧ (∀ k, of_task k (work st') = of_task k (work st)) ∧
  ∀ k cid, (told k cid st' ≤ told k cid st + if bool_decide (id = k) && IsTerminal (State t') then 1 else 0)%nat.
Proof.
  intros Hst Ht Hm Hid. unfold update_and_tell, updateTask. rewrite Ht, Hm.
  pose proof (notify_known t' (pushConfigsForTaskLocked id (srv st))) as [Hph _].
  assert (Ho : ∀ k cid, (length (filter (last_word k cid) (notifyTaskUpdate t' (pushConfigsForTaskLocked id (srv st))).1) ≤
    if bool_decide (id = k) && IsTerminal (State t') then 1 else 0)%nat).
  { intros k cid. pose proof (told_once t' (pushConfigsForTaskLocked id (srv st)) (default ∅ (pushConfigs (srv st) !! id)) cid k) as Ho.
    rewrite Hid in Ho. apply Ho; [|done].
    intros c cfg. destruct (pushConfigs (srv st) !! id) as [m|] eqn:E; [by eapply (config_keys st)|done]. }
  destruct (notifyTaskUpdate t' _) as [sent more]. cbn [fst snd] in *. repeat split.
  - intros k. unfold of_task. cbn [work]. rewrite filter_app. replace (filter _ more) with (@nil Phase); [apply app_nil_r|].
    symmetry. apply filter_rejects. intros ph Hd Hin. by apply Hph in Hin as ->.
  - intros k cid. unfold told. cbn [outbox]. rewrite filter_app, length_app. specialize (Ho k cid). lia.
Qed.

Lemma of_task_delete k i l ph : l !! i = Some ph →
  of_task k (delete i l) = (if decide (dispatches k ph) then of_task k (take i l) ++ of_task k (drop (S i) l) else of_task k l) ∧
  (dispatches k ph → of_task k l = of_task k (take i l) ++ ph :: of_task k (drop (S i) l)).
Proof.
  intros E. rewrite delete_take_drop. unfold of_task. rewrite filter_app. pose proof (take_drop_middle l i ph E) as Hl.
  split; [|intros Hd; rewrite <- Hl at 1; by rewrite filter_app, filter_cons_True].
  case_decide as Hd; [done|]. rewrite <- Hl at 3. by rewrite filter_app, filter_cons_False.
Qed.
Lemma of_task_take k i l ph p : l !! i = Some ph → dispatches k ph → of_task k l = [p] → ph = p ∧ of_task k (delete i l) = [].
Proof.
  intros E Hd Hl. destruct (of_task_delete k i l ph E) as [H1 H2]. rewrite (decide_True _ _ Hd) in H1. rewrite (H2 Hd) in Hl. rewrite H1.
  destruct (of_task k (take i l)) as [|q m]; [by injection Hl as -> ->|]. injection Hl as _ Hl. by destruct m.
Qed.

(** Where a task can be, with what its dispatcher has still to do. *)
Inductive stage (id : string) (msgs : list Message) : Task → list Phase → Prop :=
| at_submitted t : State t = TaskSubmitted → Messages t = msgs → stage id msgs t [Dispatching id]
| at_working t snapshot : State t = TaskWorking → Messages t = msgs → Messages snapshot = msgs → stage id msgs t [Choosing id snapshot]
| at_canceled t l : State t = TaskCanceled → Messages t = msgs → stage id msgs t l
| at_the_end t tools m l : outcome_of tools msgs = (State t, m) → Messages t = msgs ++ [m] → stage id msgs t l.
Definition in_flight (id : string) (msgs : list Message) (st : System) : Prop :=
  ∃ t, tasks (srv st) !! id = Some t ∧ stage id msgs t (of_task id (work st)) ∧
    ∀ cid, (told id cid st ≤ if IsTerminal (State t) then 1 else 0)%nat.
Definition sends (id : string) (l : Step) : Prop := match l with Send p uuid _ _ => task_id p uuid = id | _ => False end.
Lemma outcome_ends tools msgs : IsTerminal (outcome_of tools msgs).1 = true.
Proof. unfold outcome_of. by destruct (bool_decide _). Qed.

Lemma stage_ended id msgs t l l' : stage id msgs t l → IsTerminal (State t) = true → stage id msgs t l'.
Proof. intros Hs Ht. inversion Hs; subst; try (by rewrite H in Ht); [by apply at_canceled|by eapply at_the_end]. Qed.
Lemma in_flight_mono id msgs st st' : tasks (srv st') !! id = tasks (srv st) !! id → of_task id (work st') = of_task id (work st) →
  (∀ cid, (told id cid st' ≤ told id cid st)%nat) → in_flight id msgs st → in_flight id msgs st'.
Proof. intros H1 H2 H3 (t & Ht & Hs & Ho). exists t. rewrite H1, H2. do 2 (split; [done|]). intros cid. by rewrite H3. Qed.
Lemma update_other id j mutate msgs st : sound st → j ≠ id → (∀ t t', mutate t = Some t' → t_ID t' = t_ID t) →
  in_flight id msgs st → in_flight id msgs (update_and_tell j mutate st).2.
Proof.
  intros Hst Hj Hm. destruct (tasks (srv st) !! j) as [t|] eqn:E; [destruct (mutate t) as [t'|] eqn:Em|].
  - assert (Hid : t_ID t' = j) by (rewrite (Hm _ _ Em); by apply (task_keys st)).
    pose proof (update_change j mutate st t t' Hst E Em Hid) as Hu. destruct (update_and_tell j mutate st) as [r st'].
    destruct Hu as (_ & H1 & H2 & H3). cbn [snd]. apply in_flight_mono; [by rewrite H1, lookup_insert_ne|done|].
    intros cid. specialize (H3 id cid). rewrite bool_decide_false in H3 by done. cbn [andb] in H3. lia.
  - rewrite update_keep; [done|]. by rewrite E.
  - rewrite update_keep; [done|]. by rewrite E.
Qed.
Lemma update_self id state extra now st t : sound st → tasks (srv st) !! id = Some t → IsTerminal (State t) = false →
  (∀ cid, told id cid st = 0%nat) →
  let '(r, st') := update_and_tell id (advance state extra now) st in let t' := set_state state extra now t in
  r = Some t' ∧ tasks (srv st') !! id = Some t' ∧ of_task id (work st') = of_task id (work st) ∧
  ∀ cid, (told id cid st' ≤ if IsTerminal state then 1 else 0)%nat.
Proof.
  intros Hst Ht Hn Ho. assert (Hm : advance state extra now t = Some (set_state state extra now t)) by (unfold advance; by rewrite Hn).
  pose proof (update_change id _ st t _ Hst Ht Hm (task_keys st Hst _ _ Ht)) as Hu. destruct (update_and_tell id _ st) as [r st'].
  destruct Hu as (-> & H1 & H2 & H3). rewrite H1, lookup_insert_eq. repeat split; [done|]. intros cid. specialize (H3 id cid).
  rewrite Ho, bool_decide_true in H3 by done. cbn [andb set_state State] in H3. lia.
Qed.
Lemma told_none id cid st : (told id cid st ≤ 0)%nat → told id cid st = 0%nat. Proof. lia. Qed.

(** A step of the dispatcher of the task. *)
Lemma dispatch_in_flight id msgs st i ph tools now : sound st → in_flight id msgs st → work st !! i = Some ph → dispatches id ph →
  in_flight id msgs (exec st (Work i tools now)).
Proof.
  intros Hst (t & Ht & Hs & Ho) Hi Hd. cbn [exec]. rewrite Hi. pose proof (sound_less_work st i Hst) as Hl.
  destruct (IsTerminal (State t)) eqn:En.
  - assert (Hf : in_flight id msgs {| srv := srv st; work := delete i (work st); outbox := outbox st |}).
    { exists t. rewrite En. split; [done|]. split; [by eapply stage_ended|done]. }
    assert (Hk : ∀ state extra, update_and_tell id (advance state extra now) {| srv := srv st; work := delete i (work st); outbox := outbox st |} =
      (Some t, {| srv := srv st; work := delete i (work st); outbox := outbox st |})).
    { intros state extra. rewrite update_keep; cbn [srv]; rewrite Ht; [done|]. unfold advance. by rewrite En. }
    destruct ph as [j|j snap|j]; [cbn in Hd; subst j..|done]; cbn [dispatchTask]; [by rewrite Hk, En|].
    destruct (outcome_of _ _) as [state m]. by rewrite Hk.
  - inversion Hs as [t0 Hstate Hmsgs Et Hw|t0 snap Hstate Hmsgs Hsnap Et Hw|t0 l Hstate Hmsgs Et|t0 tools0 m l Hout Hmsgs Et]; subst t0.
    + symmetry in Hw. destruct (of_task_take id i _ ph _ Hi Hd Hw) as [-> Hrest]. cbn [dispatchTask].
      pose proof (update_self id TaskWorking [] now _ t Hl Ht En (λ cid, told_none _ _ _ (Ho cid))) as Hu.
      destruct (update_and_tell id _ _) as [r st']. destruct Hu as (-> & H1 & H2 & H3). cbn [set_state State].
      change (IsTerminal TaskWorking) with false in *. cbn iota. eexists. split; [exact H1|]. split; [|exact H3].
      cbn [add_work work]. unfold of_task in *. cbn [work] in *. rewrite filter_app, H2, Hrest, filter_cons_True by done. cbn [app].
      apply at_working; [done|cbn; rewrite app_nil_r; done..].
    + symmetry in Hw. destruct (of_task_take id i _ ph _ Hi Hd Hw) as [-> Hrest]. cbn [dispatchTask].
      destruct (outcome_of tools (Messages snap)) as [state m] eqn:Eo. rewrite Hsnap in Eo.
      pose proof (update_self id state [m] now _ t Hl Ht En (λ cid, told_none _ _ _ (Ho cid))) as Hu.
      destruct (update_and_tell id _ _) as [r st']. destruct Hu as (-> & H1 & H2 & H3). eexists. split; [exact H1|]. split; [|exact H3].
      eapply at_the_end; [exact Eo|]. cbn. by rewrite Hmsgs.
    + by rewrite Hstate in En.
    + pose proof (outcome_ends tools0 msgs) as He. rewrite Hout in He. cbn in He. by rewrite He in En.
Qed.
(** A step of anything else. *)
Lemma other_in_flight id msgs st i ph tools now : sound st → in_flight id msgs st → work st !! i = Some ph → ¬ dispatches id ph →
  in_flight id msgs (exec st (Work i tools now)).
Proof.
  intros Hst Hf Hi Hd. cbn [exec]. rewrite Hi. pose proof (sound_less_work st i Hst) as Hl.
  assert (Hf' : in_flight id msgs {| srv := srv st; work := delete i (work st); outbox := outbox st |}).
  { apply (in_flight_mono id msgs st); [done| |done|done]. cbn [work]. destruct (of_task_delete id i _ ph Hi) as [-> _]. by rewrite decide_False. }
  destruct ph as [j|j snap|j]; cbn [dispatchTask].
  - pose proof (update_other id j (advance TaskWorking [] now) msgs _ Hl Hd (advance_id _ _ _) Hf') as Hu.
    destruct (update_and_tell j _ _) as [[t|] st']; cbn [snd] in Hu; [|done]. destruct (IsTerminal _); [done|].
    apply (in_flight_mono id msgs st'); [done| |done|done]. cbn [add_work work]. unfold of_task.
    by rewrite filter_app, (filter_rejects _ [_]), app_nil_r by (intros x Hx ->%list_elem_of_singleton; exact (Hd Hx)).
  - destruct (outcome_of _ _) as [state m]. exact (update_other id j _ msgs _ Hl Hd (advance_id _ _ _) Hf').
  - exact (in_flight_mono id msgs _ (with_srv _ _) eq_refl eq_refl (λ _, le_n _) Hf').
Qed.

Lemma exec_in_flight id msgs st l : sound st → ¬ sends id l → in_flight id msgs st → in_flight id msgs (exec st l).
Proof.
  intros Hst Hl Hf. destruct l as [p uuid cu now|j now|c uuid|j c|i tools now].
  - cbn [exec]. pose proof (handleTaskSend_spec p uuid cu now (srv st)) as Hs. destruct (handleTaskSend p uuid cu now (srv st)) as [[e|t] s].
    { subst s. by rewrite with_srv_same. }
    destruct Hs as (Hid & _ & _ & Htasks & _). cbn [sends] in Hl. revert Hf. apply in_flight_mono; [| |done].
    + cbn [add_work with_srv srv]. by rewrite Htasks, lookup_insert_ne.
    + cbn [add_work with_srv work]. unfold of_task. rewrite Hid.
      by rewrite filter_app, (filter_rejects _ [_]), app_nil_r by (intros x Hx ->%list_elem_of_singleton; exact (Hl Hx)).
  - cbn [exec]. destruct (decide (j = id)) as [->|]; [|apply update_other; [done..|apply advance_id|done]].
    destruct Hf as (t & Ht & Hs & Ho). destruct (IsTerminal (State t)) eqn:En.
    + rewrite update_keep; [exists t; by rewrite En|]. rewrite Ht. unfold cancel_task, advance. by rewrite En.
    + pose proof (update_self id TaskCanceled [] now st t Hst Ht En (λ cid, told_none _ _ _ (Ho cid))) as Hu.
      unfold cancel_task. destruct (update_and_tell id _ _) as [r st']. destruct Hu as (-> & H1 & H2 & H3). eexists. split; [exact H1|]. split; [|exact H3].
      apply at_canceled; [done|]. cbn. rewrite app_nil_r.
      inversion Hs as [t0 Hstate Hmsgs Et Hw|t0 snap Hstate Hmsgs Hsnap Et Hw|t0 l Hstate Hmsgs Et|t0 tools0 m l Hout Hmsgs Et]; [done..|].
      subst t0. pose proof (outcome_ends tools0 msgs) as He. rewrite Hout in He. cbn in He. by rewrite He in En.
  - revert Hf. apply in_flight_mono; [|done..]. cbn [exec with_srv srv]. unfold createPushConfig.
    destruct (normalizePushConfig _ _ _); [done|]. by destruct (tasks (srv st) !! _).
  - revert Hf. apply in_flight_mono; [|done..]. cbn [exec with_srv srv]. unfold deletePushConfig.
    destruct (_ || _); [done|]. destruct (tasks (srv st) !! j); [|done]. by destruct (pushConfigs (srv st) !! j).
  - destruct (work st !! i) as [ph|] eqn:Ei; [|by cbn [exec]; rewrite Ei].
    destruct (decide (dispatches id ph)); [by eapply dispatch_in_flight|by eapply other_in_flight].
Qed.
Lemma run_in_flight id msgs ls : ∀ st, sound st → Forall (λ l, ¬ sends id l) ls → in_flight id msgs st → in_flight id msgs (run ls st).
Proof.
  induction ls as [|l ls IH]; intros st Hst Hls Hf; [done|]. inversion Hls as [|? ? Hl Hls']; subst. cbn [run foldl].
  apply IH; [by apply exec_sound|done|by apply exec_in_flight].
Qed.

(** *** That it comes to an end *)
Definition ended (id : string) (st : System) : Prop := match tasks (srv st) !! id with Some t => IsTerminal (State t) = true | None => False end.
Fixpoint ends_within (n : nat) (id : string) (st : System) : Prop :=
  ended id st ∨ match n with O => False | S n => ∃ i, ∀ tools now, ends_within n id (exec st (Work i tools now)) end.
Lemma of_task_index id ph l : of_task id l = [ph] → ∃ i, l !! i = Some ph ∧ dispatches id ph.
Proof.
  intros H. assert (ph ∈ of_task id l) as [Hd Hi]%list_elem_of_filter by (rewrite H; by apply list_elem_of_singleton).
  apply list_elem_of_lookup in Hi as [i Hi]. by exists i.
Qed.
Lemma choosing_ends id snap st t i tools now : sound st → tasks (srv st) !! id = Some t → work st !! i = Some (Choosing id snap) →
  ended id (exec st (Work i tools now)).
Proof.
  intros Hst Ht Hi. cbn [exec]. rewrite Hi. cbn [dispatchTask]. destruct (outcome_of tools (Messages snap)) as [state m] eqn:Eo.
  pose proof (outcome_ends tools (Messages snap)) as He. rewrite Eo in He. cbn in He.
  pose proof (sound_less_work st i Hst) as Hl. destruct (IsTerminal (State t)) eqn:En.
  - rewrite update_keep; cbn [srv]; rewrite Ht; [|unfold advance; by rewrite En]. cbn. unfold ended. cbn [srv]. by rewrite Ht.
  - assert (Hm : advance state [m] now t = Some (set_state state [m] now t)) by (unfold advance; by rewrite En).
    pose proof (update_change id _ _ t _ Hl Ht Hm (task_keys st Hst _ _ Ht)) as Hu. destruct (update_and_tell id _ _) as [r st'].
    destruct Hu as (_ & H1 & _). unfold ended. cbn [snd]. rewrite H1, lookup_insert_eq. exact He.
Qed.
Lemma dispatching_moves id st t i tools now : sound st → tasks (srv st) !! id = Some t → IsTerminal (State t) = false →
  work st !! i = Some (Dispatching id) →
  let st' := exec st (Work i tools now) in ∃ j t', tasks (srv st') !! id = Some t' ∧ work st' !! j = Some (Choosing id t').
Proof.
  intros Hst Ht En Hi. cbn [exec]. rewrite Hi. cbn [dispatchTask]. pose proof (sound_less_work st i Hst) as Hl.
  assert (Hm : advance TaskWorking [] now t = Some (set_state TaskWorking [] now t)) by (unfold advance; by rewrite En).
  pose proof (update_change id _ _ t _ Hl Ht Hm (task_keys st Hst _ _ Ht)) as Hu. destruct (update_and_tell id _ _) as [r st'].
  destruct Hu as (-> & H1 & _). cbn [set_state State].
  change (IsTerminal TaskWorking) with false. cbn [add_work srv work]. exists (length (work st')). eexists. rewrite H1, lookup_insert_eq. split; [done|].
  by rewrite lookup_app_r, Nat.sub_diag.
Qed.
Lemma in_flight_ends id msgs st : sound st → in_flight id msgs st → ends_within 2 id st.
Proof.
  intros Hst (t & Ht & Hs & Ho). destruct (IsTerminal (State t)) eqn:En; [left; unfold ended; by rewrite Ht|].
  inversion Hs as [t0 Hstate Hmsgs Et Hw|t0 snap Hstate Hmsgs Hsnap Et Hw|t0 l Hstate Hmsgs Et|t0 tools0 m l Hout Hmsgs Et]; subst t0.
  - right. symmetry in Hw. destruct (of_task_index id _ _ Hw) as (i & Hi & Hd). exists i. intros tools now.
    destruct (dispatching_moves id st t i tools now Hst Ht En Hi) as (j & t' & Ht' & Hj).
    right. exists j. intros tools' now'. left. eapply choosing_ends; [by apply exec_sound|done|done].
  - right. symmetry in Hw. destruct (of_task_index id _ _ Hw) as (i & Hi & _). exists i. intros tools now. left. by eapply choosing_ends.
  - by rewrite Hstate in En.
  - pose proof (outcome_ends tools0 msgs) as He. rewrite Hout in He. cbn in He. by rewrite He in En.
Qed.

(** What can be seen of a task that was sent with [msgs]. *)
Definition life (msgs : list Message) (t : Task) : Prop :=
  (State t = TaskSubmitted ∨ State t = TaskWorking ∨ State t = TaskCanceled) ∧ Messages t = msgs ∨
  ∃ tools m, outcome_of tools msgs = (State t, m) ∧ Messages t = msgs ++ [m].
Lemma stage_life id msgs t l : stage id msgs t l → life msgs t.
Proof. intros []; [left; by auto..|right; by eauto]. Qed.
Lemma send_in_flight id params uuid cu now st t s : sound st → tasks (srv st) !! id = None → task_id params uuid = id →
  handleTaskSend params uuid cu now (srv st) = (inr t, s) → in_flight id (sp_Messages params) (exec st (Send params uuid cu now)).
Proof.
  intros Hst Hn Hid Hs. pose proof (handleTaskSend_spec params uuid cu now (srv st)) as Hp. cbn [exec]. rewrite Hs in *. rewrite Hid in Hp.
  destruct Hp as (Hi & H1 & H2 & H3 & _). exists t. cbn [add_work with_srv srv work]. rewrite H3, lookup_insert_eq. split; [done|]. split.
  - replace (of_task id (work st ++ [Dispatching (t_ID t)])) with [Dispatching id]; [by apply at_submitted|]. unfold of_task. rewrite filter_app, Hi.
    rewrite (filter_rejects _ (work st)), filter_cons_True; [done|done|]. intros ph Hd Hin. apply (work_known st Hst) in Hin.
    destruct ph; cbn in Hd, Hin; subst; [by rewrite Hn in Hin; destruct Hin..|done].
  - intros cid. assert (told id cid st = 0%nat) as Hz; [|rewrite H1; cbn; unfold told in *; cbn [outbox add_work with_srv]; by rewrite Hz].
    unfold told. rewrite filter_rejects; [done|]. intros n (He & _) Hin. apply (notices_known st Hst) in Hin. rewrite He, Hn in Hin. by destruct Hin.
Qed.
End Server.

(** C19.  In every interleaving of requests and dispatcher steps, a task accepted under a new id, and not sent again under it,
    is there under its id; it carries the messages that were sent, and nothing else while submitted, working or canceled, one
    answer of the agent for them when completed or failed; whoever asked to be told hears of its end at most once, and
    not before it; and, as long as it has not ended, one or two more steps of its own dispatcher end it. *)
Theorem task_runs_once url_parse push before params uuid cu now after id cid t s :
  let st := run url_parse before (start push) in
  let st' := run url_parse after (exec url_parse st (Send params uuid cu now)) in
  task_id params uuid = id → tasks (srv st) !! id = None →
  handleTaskSend url_parse params uuid cu now (srv st) = (inr t, s) →
  Forall (λ l, ¬ sends id l) after →
  ∃ t', tasks (srv st') !! id = Some t' ∧ t_ID t' = id ∧ life (sp_Messages params) t' ∧
    (told id cid st' ≤ if IsTerminal (State t') then 1 else 0)%nat ∧ ends_within url_parse 2 id st'.
Proof.
  intros st st' Hid Hn Hs Ha. assert (Hst : sound st) by (by apply run_sound, sound_start).
  assert (Hst1 : sound (exec url_parse st (Send params uuid cu now))) by (by apply exec_sound).
  pose proof (run_in_flight url_parse id _ after _ Hst1 Ha (send_in_flight url_parse id _ _ _ _ _ t s Hst Hn Hid Hs)) as Hf.
  assert (Hst' : sound st') by (by apply run_sound). pose proof Hf as (t' & Ht & Hg & Ho). exists t'. split; [exact Ht|].
  split; [by apply (task_keys st')|]. split; [by eapply stage_life|]. split; [apply Ho|by eapply in_flight_ends].
Qed.

Definition demo_parse (_ : string) : option (string * string) := Some ("https", "hook.example").
Definition user_says (text : string) : list Message := [{| Role := "user"; Parts := [TextPart text] |}].
Definition demo_config (id : string) : PushNotificationConfig :=
  {| pc_ID := id; pc_TaskID := "t"; pc_URL := "https://hook.example/h"; Token := ""; Authentication := None |}.
Definition demo_send (text : string) (c : option PushNotificationConfig) : TaskSendParams :=
  {| sp_ID := "t"; sp_Messages := user_says text; sp_Metadata := ∅; PushNotification := c |}.
Lemma task_runs_once_witness :
  let st := run demo_parse [Work 0 ["grep"] 4; CreateConfig (demo_config "d") ""; Work 0 ["grep"] 5; CancelTask "t" 6; Work 0 [] 7]
    (exec demo_parse (run demo_parse [] (start true)) (Send (demo_send "find it" (Some (demo_config "c"))) "" "" 3)) in
  ∃ t', tasks (srv st) !! "t" = Some t' ∧ t_ID t' = "t" ∧ life (user_says "find it") t' ∧
    (told "t" "d" st ≤ if IsTerminal (State t') then 1 else 0)%nat ∧ ends_within demo_parse 2 "t" st.
Proof. eapply (task_runs_once demo_parse true [] (demo_send "find it" (Some (demo_config "c"))) "" "" 3); [done..|]. repeat constructor; cbn; tauto. Defined.
Lemma demo_is_told :
  let st := run demo_parse [Work 0 ["grep"] 4; CreateConfig (demo_config "d") ""; Work 0 ["grep"] 5]
    (exec demo_parse (start true) (Send (demo_send "find it" (Some (demo_config "c"))) "" "" 3)) in
  told "t" "c" st = 1%nat ∧ told "t" "d" st = 1%nat ∧
  (Messages <$> tasks (srv st) !! "t") = Some (user_says "find it" ++ [agent_message "dispatched to tool: grep (input: find it )"]).
Proof. by vm_compute. Qed.

(** ** What the steps do besides *)

(** Sent again under its id, a task is replaced; the dispatcher of the first then answers the second, with the first's text. *)
Lemma resent_task_gets_the_first_answer :
  let st := run demo_parse [Send (demo_send "first" None) "" "" 1; Work 0 ["grep"] 2; Send (demo_send "second" None) "" "" 3; Work 0 ["grep"] 4]
    (start true) in
  (Messages <$> tasks (srv st) !! "t") = Some (user_says "second" ++ [agent_message "dispatched to tool: grep (input: first )"]).
Proof. by vm_compute. Qed.

(** A configuration made after the last update and before its clearing is dropped without a word. *)
Lemma config_made_late_is_dropped :
  let st := run demo_parse [Send (demo_send "x" (Some (demo_config "c"))) "" "" 1; Work 0 ["grep"] 2; Work 0 ["grep"] 3;
    CreateConfig (demo_config "d") ""; Work 0 ["grep"] 4] (start true) in
  told "t" "c" st = 1%nat ∧ told "t" "d" st = 0%nat ∧ pushConfigs (srv st) !! "t" = None ∧ work st = [].
Proof. by vm_compute. Qed.

(** One made when the task has ended is accepted and stays; nothing will be told. *)
Lemma config_of_ended_task_stays :
  let st := run demo_parse [Send (demo_send "x" None) "" "" 1; Work 0 ["grep"] 2; Work 0 ["grep"] 3; CreateConfig (demo_config "d") ""] (start true) in
  (State <$> tasks (srv st) !! "t") = Some TaskCompleted ∧ outbox st = [] ∧ work st = [] ∧
  getPushConfig "t" "d" (srv st) = inr (demo_config "d").
Proof. by vm_compute. Qed.

(** Whatever the task says, the first tool is named, and the task is completed without a call. *)
Lemma every_task_names_the_first_tool t ts msgs : t ≠ "" → (outcome_of (t :: ts) msgs).1 = TaskCompleted ∧
  ∃ text, (outcome_of (t :: ts) msgs).2 = agent_message ("dispatched to tool: " +:+ t +:+ " (input: " +:+ text +:+ ")").
Proof. intros Ht. unfold outcome_of, findBestTool. rewrite bool_decide_false by done. split; [done|by eexists]. Qed.

(** Canceling what has ended is no error and changes nothing. *)
Lemma cancel_of_ended_task st t now : tasks (srv st) !! t_ID t = Some t → IsTerminal (State t) = true →
  update_and_tell (t_ID t) (cancel_task now) st = (Some t, st).
Proof. intros Ht He. rewrite update_keep, Ht; [done|]. rewrite Ht. unfold cancel_task, advance. by rewrite He. Qed.

(** ** A task that has ended stays as it is *)
Lemma update_final id j state extra now st t : tasks (srv st) !! id = Some t → IsTerminal (State t) = true →
  tasks (srv (update_and_tell j (advance state extra now) st).2) !! id = Some t.
Proof.
  intros Ht He. unfold update_and_tell, updateTask, advance. destruct (tasks (srv st) !! j) as [t0|] eqn:Ej; [|done].
  destruct (IsTerminal (State t0)) eqn:E0; [done|]. destruct (notifyTaskUpdate _ _). cbn. rewrite lookup_insert_ne; [done|]. intros ->. congruence.
Qed.
Lemma dispatch_final url_parse id st t i tools now : tasks (srv st) !! id = Some t → IsTerminal (State t) = true →
  tasks (srv (exec url_parse st (Work i tools now))) !! id = Some t.
Proof.
  intros Ht He. cbn [exec]. destruct (work st !! i) as [ph|]; [|done]. destruct ph as [j|j snap|j]; cbn [dispatchTask].
  - pose proof (update_final id j TaskWorking [] now {| srv := srv st; work := delete i (work st); outbox := outbox st |} t Ht He) as Hu.
    destruct (update_and_tell j _ _) as [[t0|] st']; cbn [snd] in Hu; [|exact Hu]. destruct (IsTerminal (State t0)); exact Hu.
  - destruct (outcome_of _ _) as [state m].
    exact (update_final id j state [m] now {| srv := srv st; work := delete i (work st); outbox := outbox st |} t Ht He).
  - exact Ht.
Qed.

(** Only a task sent under the same id replaces a task that has ended. *)
Theorem ended_task_is_final url_parse id ls : ∀ st t, tasks (srv st) !! id = Some t → IsTerminal (State t) = true →
  Forall (λ l, ¬ sends id l) ls → tasks (srv (run url_parse ls st)) !! id = Some t.
Proof.
  induction ls as [|l ls IH]; intros st t Ht He Hls; [done|]. inversion Hls as [|? ? Hl Hls']; subst. cbn [run foldl]. apply IH; [|done..]. clear IH.
  destruct l as [p uuid cu now|j now|c uuid|j c|i tools now].
  - cbn [exec]. pose proof (handleTaskSend_spec url_parse p uuid cu now (srv st)) as Hs. destruct (handleTaskSend _ _ _ _ _ _) as [[e|t0] s]; [by subst s|].
    destruct Hs as (_ & _ & _ & Htasks & _). cbn. by rewrite Htasks, lookup_insert_ne.
  - by apply update_final.
  - cbn. unfold createPushConfig. destruct (normalizePushConfig _ _ _) as [e|c']; [done|]. destruct (tasks (srv st) !! pc_TaskID c'); exact Ht.
  - cbn. unfold deletePushConfig. destruct (_ || _); [done|]. destruct (tasks (srv st) !! j); [|done]. destruct (pushConfigs (srv st) !! j); exact Ht.
  - by apply dispatch_final.
Qed.
