(* ===== verification/A2aRpc.v ===== *)
(** The agent-to-agent server over HTTP (src/a2a/server.go, types.go) and its client (src/a2a/client.go): requests and
    results as JSON, the methods of the JSON-RPC end point, the REST paths of the push notification settings, and the
    client's calls.  How encoding/json writes and reads a time, and the texts of its errors, are parameters.  A list
    given twice in an object: the last one counts. *)

From stdpp Require Import base tactics list gmap strings.
From Stdlib Require Import ZArith Lia Ascii.
From S2P Require Import Prelude Json A2a A2aJson A2aServer.
From S2P Require Sanitize.

Local Open Scope Z_scope.

(** ** Writing (the tags of types.go) *)
Definition omit_texts (m : gmap string string) : option json := omit_map (JString <$> m).
Definition omit_ptr {A} (f : A → json) (x : option A) : option json := f <$> x.
Definition file_json (f : FileContent) : json := JObject (members [
  ("name", Some (JString (fc_Name f))); ("mimeType", omitempty (MIMEType f));
  ("bytes", if bool_decide (Bytes f = "") then None else Some (JString (base64 (Bytes f)))); ("uri", omitempty (URI f))]).
Definition piece_json (p : Part) : json := JObject (members [
  ("type", Some (JString (p_Type p))); ("text", omitempty (p_Text p)); ("file", omit_ptr file_json (File p));
  ("data", p_Data p); ("metadata", omit_texts (p_Metadata p))]).
Definition turn_json (m : Message) : json := JObject (members [
  ("role", Some (JString (Role m))); ("parts", Some (JArray (map piece_json (Parts m))))]).
Definition int_json (z : Z) : json := JNumber (itoa z).
Definition output_json (a : Artifact) : json := JObject (members [
  ("name", omitempty (a_Name a)); ("description", omitempty (a_Description a)); ("parts", Some (JArray (map piece_json (a_Parts a))));
  ("index", Some (int_json (Index a))); ("append", omit_false (Append a)); ("lastChunk", omit_false (LastChunk a))]).
Definition auth_json (a : string * string) : json := JObject (members [("scheme", Some (JString a.1)); ("credentials", omitempty a.2)]).
Definition config_json (c : PushNotificationConfig) : json := JObject (members [
  ("id", omitempty (pc_ID c)); ("taskId", omitempty (pc_TaskID c)); ("url", Some (JString (pc_URL c))); ("token", omitempty (Token c));
  ("authentication", omit_ptr auth_json (Authentication c))]).
Definition send_json (p : TaskSendParams) : json := JObject (members [
  ("id", Some (JString (sp_ID p))); ("message", Some (JArray (map turn_json (sp_Messages p)))); ("metadata", omit_texts (sp_Metadata p));
  ("pushNotificationConfig", omit_ptr config_json (PushNotification p))]).
Definition query_json (id : string) : json := JObject [("id", JString id)].
Definition config_ref_json (taskID id : string) : json := JObject [("taskId", JString taskID); ("id", JString id)].
Definition list_json (taskID : string) : json := JObject [("taskId", JString taskID)].
Definition configs_json (l : list PushNotificationConfig) : json := JObject (members [("configs", omit_list config_json l)]).
Definition deleted_json (b : bool) : json := JObject [("deleted", JBool b)].

(** ** Reading *)
Definition dec_texts (old : gmap string string) (v : json) : option (gmap string string) :=
  match v with
  | JNull => Some ∅
  | JObject l => foldl (λ m p, <[p.1 := p.2]> m) old <$> mapM (λ p, (p.1,.) <$> dec_string "" p.2) l
  | _ => None
  end.
Definition dec_bytes (old : string) (v : json) : option string :=
  match v with JString s => unbase64 s | JNull => Some "" | _ => None end.
(** A number without fraction and exponent that fits 64 bits. *)
Fixpoint digits_value (acc : Z) (s : string) : option Z :=
  match s with
  | EmptyString => Some acc
  | String a r => if is_digit a then digits_value (10 * acc + (code a - 48)) r else None
  end.
Definition int_value (s : string) : option Z :=
  z ← match s with
      | String a r => if is_byte a 45 then Z.opp <$> digits_value 0 r else digits_value 0 s
      | EmptyString => None
      end;
  if ((- 2 ^ 63 <=? z) && (z <? 2 ^ 63))%bool then Some z else None.
Definition dec_int (old : Z) (v : json) : option Z := match v with JNumber n => int_value n | JNull => Some old | _ => None end.

Definition zero_file : FileContent := {| fc_Name := ""; MIMEType := ""; Bytes := ""; URI := "" |}.
Definition dec_file : FileContent → json → option FileContent := dec_struct (λ old l,
  name ← field dec_string (fc_Name old) "name" l;
  mime ← field dec_string (MIMEType old) "mimeType" l;
  bytes ← field dec_bytes (Bytes old) "bytes" l;
  uri ← field dec_string (URI old) "uri" l;
  Some {| fc_Name := name; MIMEType := mime; Bytes := bytes; URI := uri |}).
Definition zero_piece : Part := {| p_Type := ""; p_Text := ""; File := None; p_Data := None; p_Metadata := ∅ |}.
Definition dec_piece : Part → json → option Part := dec_struct (λ old l,
  type ← field dec_string (p_Type old) "type" l;
  text ← field dec_string (p_Text old) "text" l;
  file ← field (dec_ptr dec_file zero_file) (File old) "file" l;
  data ← field (λ _ v, Some (Some v)) (p_Data old) "data" l;
  meta ← field dec_texts (p_Metadata old) "metadata" l;
  Some {| p_Type := type; p_Text := text; File := file; p_Data := data; p_Metadata := meta |}).
Definition zero_turn : Message := {| Role := ""; Parts := [] |}.
Definition dec_turn : Message → json → option Message := dec_struct (λ old l,
  role ← field dec_string (Role old) "role" l;
  parts ← field (dec_list (dec_piece zero_piece)) (Parts old) "parts" l;
  Some {| Role := role; Parts := parts |}).
Definition zero_output : Artifact := {| a_Name := ""; a_Description := ""; a_Parts := []; Index := 0; Append := false; LastChunk := false |}.
Definition dec_output : Artifact → json → option Artifact := dec_struct (λ old l,
  name ← field dec_string (a_Name old) "name" l;
  desc ← field dec_string (a_Description old) "description" l;
  parts ← field (dec_list (dec_piece zero_piece)) (a_Parts old) "parts" l;
  index ← field dec_int (Index old) "index" l;
  append ← field dec_bool (Append old) "append" l;
  last ← field dec_bool (LastChunk old) "lastChunk" l;
  Some {| a_Name := name; a_Description := desc; a_Parts := parts; Index := index; Append := append; LastChunk := last |}).
Definition dec_auth : string * string → json → option (string * string) := dec_struct (λ old l,
  scheme ← field dec_string old.1 "scheme" l;
  credentials ← field dec_string old.2 "credentials" l;
  Some (scheme, credentials)).
Definition zero_config : PushNotificationConfig := {| pc_ID := ""; pc_TaskID := ""; pc_URL := ""; Token := ""; Authentication := None |}.
Definition dec_config : PushNotificationConfig → json → option PushNotificationConfig := dec_struct (λ old l,
  id ← field dec_string (pc_ID old) "id" l;
  task ← field dec_string (pc_TaskID old) "taskId" l;
  url ← field dec_string (pc_URL old) "url" l;
  token ← field dec_string (Token old) "token" l;
  auth ← field (dec_ptr dec_auth ("", "")) (Authentication old) "authentication" l;
  Some {| pc_ID := id; pc_TaskID := task; pc_URL := url; Token := token; Authentication := auth |}).
Definition zero_send : TaskSendParams := {| sp_ID := ""; sp_Messages := []; sp_Metadata := ∅; PushNotification := None |}.
Definition dec_send : TaskSendParams → json → option TaskSendParams := dec_struct (λ old l,
  id ← field dec_string (sp_ID old) "id" l;
  messages ← field (dec_list (dec_turn zero_turn)) (sp_Messages old) "message" l;
  meta ← field dec_texts (sp_Metadata old) "metadata" l;
  push ← field (dec_ptr dec_config zero_config) (PushNotification old) "pushNotificationConfig" l;
  Some {| sp_ID := id; sp_Messages := messages; sp_Metadata := meta; PushNotification := push |}).
Definition dec_query : string → json → option string := dec_struct (λ old l, field dec_string old "id" l).
Definition dec_config_ref : string * string → json → option (string * string) := dec_struct (λ old l,
  task ← field dec_string old.1 "taskId" l;
  id ← field dec_string old.2 "id" l;
  Some (task, id)).
(** The page is not asked for: all settings are listed at once. *)
Definition dec_list_params : string → json → option string := dec_struct (λ old l,
  task ← field dec_string old "taskId" l;
  _ ← field dec_int 0 "pageSize" l;
  _ ← field dec_string "" "pageToken" l;
  Some task).
Definition dec_configs : list PushNotificationConfig → json → option (list PushNotificationConfig) := dec_struct (λ old l,
  configs ← field (dec_list (dec_config zero_config)) old "configs" l;
  _ ← field dec_string "" "nextPageToken" l;
  Some configs).
Definition dec_deleted : bool → json → option bool := dec_struct (λ old l, field dec_bool old "deleted" l).

(** ** The request of a call, and its answer *)
Definition any (_ : option json) (v : json) : option (option json) := Some (Some v).
Definition nullable (_ : json) (v : json) : option json := Some v.
Record Rpc := { rpc_ID : json; rpc_Method : string; rpc_Params : option json }.
Definition zero_rpc : Rpc := {| rpc_ID := JNull; rpc_Method := ""; rpc_Params := None |}.
Definition dec_rpc : Rpc → json → option Rpc := dec_struct (λ old l,
  _ ← field dec_string "" "jsonrpc" l;
  id ← field nullable (rpc_ID old) "id" l;
  method ← field dec_string (rpc_Method old) "method" l;
  params ← field any (rpc_Params old) "params" l;
  Some {| rpc_ID := id; rpc_Method := method; rpc_Params := params |}).
(** The id of a request that is not one of the right types. *)
Definition id_of (v : json) : json := match v with JObject l => default JNull (field nullable JNull "id" l) | _ => JNull end.
Definition rpc_json (r : Rpc) : json := JObject (members [
  ("jsonrpc", Some (JString "2.0")); ("id", Some (rpc_ID r)); ("method", Some (JString (rpc_Method r))); ("params", rpc_Params r)]).

Definition response_json (id : json) (r : RpcError + json) : json := JObject (members [
  ("jsonrpc", Some (JString "2.0")); ("id", Some id);
  ("result", match r with inr v => Some v | inl _ => None end);
  ("error", match r with
            | inl (code, text) => Some (JObject [("code", int_json code); ("message", JString text)])
            | inr _ => None
            end)]).
(** [Encoder.Encode] ends the line. *)
Definition respond (id : json) (r : RpcError + json) : string := print true (response_json id r) +:+ newline.
Definition dec_rpc_error : RpcError → json → option RpcError := dec_struct (λ old l,
  code ← field dec_int old.1 "code" l;
  text ← field dec_string old.2 "message" l;
  Some (code, text)).
Definition dec_response : option json * option RpcError → json → option (option json * option RpcError) := dec_struct (λ old l,
  _ ← field dec_string "" "jsonrpc" l;
  result ← field any old.1 "result" l;
  err ← field (dec_ptr dec_rpc_error (0, "")) old.2 "error" l;
  Some (result, err)).
(** [json.Unmarshal] of the raw text of a member, which may be absent. *)
Definition unmarshal_raw {A} (dec : A → json → option A) (zero : A) (v : option json) : option A := v ≫= dec zero.

(** ** Paths ([strings.Trim]) *)
Fixpoint trim_left_byte (b : ascii) (s : string) : string :=
  match s with String a r => if bool_decide (a = b) then trim_left_byte b r else s | EmptyString => "" end.
Fixpoint trim_right_byte (b : ascii) (s : string) : string :=
  match s with
  | String a r => let r := trim_right_byte b r in if bool_decide (a = b) && bool_decide (r = "") then "" else String a r
  | EmptyString => ""
  end.
Definition trim_byte (b : ascii) (s : string) : string := trim_right_byte b (trim_left_byte b s).
(** The task and the configuration, which may be empty. *)
Definition parsePushConfigPath (path : string) : option (string * string) :=
  match Sanitize.split Sanitize.slash (trim_byte Sanitize.slash (trim_prefix path "/tasks/")) with
  | [task; kind] => if negb (bool_decide (task = "")) && bool_decide (kind = "pushNotificationConfigs") then Some (task, "") else None
  | [task; kind; config] =>
      if negb (bool_decide (task = "")) && bool_decide (kind = "pushNotificationConfigs") && negb (bool_decide (config = "")) then Some (task, config) else None
  | _ => None
  end.

(** ** The end points *)
Section Rpc.
Variable url_parse : string → option (string * string).
Variable format_time : time → string.
Variable parse_time : string → option time.

Definition task_json (t : Task) : json := JObject (members [
  ("id", Some (JString (t_ID t))); ("state", Some (JString (State t))); ("messages", omit_list turn_json (Messages t));
  ("artifacts", omit_list output_json (Artifacts t)); ("metadata", omit_texts (Metadata t));
  ("created", Some (JString (format_time (Created t)))); ("updated", Some (JString (format_time (Updated t))))]).
Definition dec_time (old : time) (v : json) : option time := match v with JString s => parse_time s | JNull => Some old | _ => None end.
Definition zero_task (zero_time : time) : Task :=
  {| t_ID := ""; State := ""; Messages := []; Artifacts := []; Metadata := ∅; Created := zero_time; Updated := zero_time |}.
Definition dec_task : Task → json → option Task := dec_struct (λ old l,
  id ← field dec_string (t_ID old) "id" l;
  state ← field dec_string (State old) "state" l;
  messages ← field (dec_list (dec_turn zero_turn)) (Messages old) "messages" l;
  artifacts ← field (dec_list (dec_output zero_output)) (Artifacts old) "artifacts" l;
  meta ← field dec_texts (Metadata old) "metadata" l;
  created ← field dec_time (Created old) "created" l;
  updated ← field dec_time (Updated old) "updated" l;
  Some {| t_ID := id; State := state; Messages := messages; Artifacts := artifacts; Metadata := meta; Created := created; Updated := updated |}).

(** A status update as it is posted, and the headers of the post. *)
Definition update_json (e : TaskStatusUpdateEvent) : json := JObject [("statusUpdate", JObject (members [
  ("taskId", Some (JString (ev_TaskID e)));
  ("status", Some (JObject [("state", JString (ev_State e)); ("timestamp", JString (format_time (Timestamp e)))]));
  ("metadata", omit_texts (ev_Metadata e))]))].
Definition deliverPushNotification (n : Notice) : list (string * string) * string :=
  let c := n_Config n in
  ([("Content-Type", "application/json")] ++
   (if bool_decide (Token c = "") then [] else [("X-A2A-Notification-Token", Token c)]) ++
   match Authentication c with
   | Some (scheme, credentials) =>
       if bool_decide (scheme = "") || bool_decide (credentials = "") then [] else [("Authorization", scheme +:+ " " +:+ credentials)]
   | None => []
   end, print true (update_json (n_Event n))).

Definition invalid_params : RpcError := (-32602, "invalid params").
Definition rpc_result {A} (f : A → json) (r : pushError + A) : RpcError + json :=
  match r with inl e => inl (pe_code e, message e) | inr x => inr (f x) end.
(** The handlers; [uuid]s and the time are what the handler gets. *)
Definition with_params {A} (dec : A → json → option A) (zero : A) (params : option json) (st : System)
    (k : A → (RpcError + json) * System) : (RpcError + json) * System :=
  match unmarshal_raw dec zero params with Some p => k p | None => (inl invalid_params, st) end.
Definition pushSupportedRPC (st : System) (k : (RpcError + json) * System) : (RpcError + json) * System :=
  if pushSupported (srv st) then k else (inl not_supported, st).

Definition rpc_send (params : option json) (uuid config_uuid : string) (now : time) (st : System) : (RpcError + json) * System :=
  with_params dec_send zero_send params st (λ p,
    match handleTaskSend url_parse p uuid config_uuid now (srv st) with
    | (inl e, s) => (inl e, with_srv s st)
    | (inr t, s) => (inr (task_json t), add_work (Dispatching (t_ID t)) (with_srv s st))
    end).
Definition rpc_get (params : option json) (st : System) : (RpcError + json) * System :=
  with_params dec_query "" params st (λ id,
    (match handleTaskGet id (srv st) with inl e => inl e | inr t => inr (task_json t) end, st)).
Definition rpc_cancel (params : option json) (now : time) (st : System) : (RpcError + json) * System :=
  with_params dec_query "" params st (λ id,
    match update_and_tell id (cancel_task now) st with
    | (None, st) => (inl task_not_found, st)
    | (Some t, st) => (inr (task_json t), st)
    end).
Definition handlePushCreate (params : option json) (uuid : string) (st : System) : (RpcError + json) * System :=
  pushSupportedRPC st (with_params dec_config zero_config params st (λ c,
    let '(r, s) := createPushConfig url_parse c uuid (srv st) in (rpc_result config_json r, with_srv s st))).
Definition handlePushGet (params : option json) (st : System) : (RpcError + json) * System :=
  pushSupportedRPC st (with_params dec_config_ref ("", "") params st (λ p,
    (rpc_result config_json (getPushConfig p.1 p.2 (srv st)), st))).
Definition handlePushList (params : option json) (st : System) : (RpcError + json) * System :=
  pushSupportedRPC st (with_params dec_list_params "" params st (λ task,
    (rpc_result configs_json (listPushConfigs task (srv st)), st))).
Definition handlePushDelete (params : option json) (st : System) : (RpcError + json) * System :=
  pushSupportedRPC st (with_params dec_config_ref ("", "") params st (λ p,
    let '(r, s) := deletePushConfig p.1 p.2 (srv st) in (rpc_result deleted_json r, with_srv s st))).

Definition create_methods := ["CreateTaskPushNotificationConfig"; "tasks/pushNotificationConfig/create"; "tasks/pushNotificationConfig/set"].
Definition get_methods := ["GetTaskPushNotificationConfig"; "tasks/pushNotificationConfig/get"].
Definition list_methods := ["ListTaskPushNotificationConfigs"; "tasks/pushNotificationConfig/list"].
Definition delete_methods := ["DeleteTaskPushNotificationConfig"; "tasks/pushNotificationConfig/delete"].
Definition rpc_call (method : string) (params : option json) (uuid config_uuid : string) (now : time) (st : System) : (RpcError + json) * System :=
  if bool_decide (method = "tasks/send") then rpc_send params uuid config_uuid now st
  else if bool_decide (method = "tasks/get") then rpc_get params st
  else if bool_decide (method = "tasks/cancel") then rpc_cancel params now st
  else if bool_decide (method ∈ create_methods) then handlePushCreate params config_uuid st
  else if bool_decide (method ∈ get_methods) then handlePushGet params st
  else if bool_decide (method ∈ list_methods) then handlePushList params st
  else if bool_decide (method ∈ delete_methods) then handlePushDelete params st
  else (inl (-32601, "method not found: " +:+ method), st).

Definition Reply : Type := Z * string.
Definition plain (status : Z) (text : string) : Reply := (status, text +:+ newline).
Definition handleJSONRPC (post : bool) (body : string) (uuid config_uuid : string) (now : time) (st : System) : Reply * System :=
  if negb post then (plain 405 "method not allowed", st) else
  match read_value body with
  | None => ((200, respond JNull (inl (-32700, "parse error"))), st)
  | Some (v, _) =>
      match dec_rpc zero_rpc v with
      | None => ((200, respond (id_of v) (inl (-32700, "parse error"))), st)
      | Some r =>
          let '(result, st) := rpc_call (rpc_Method r) (rpc_Params r) uuid config_uuid now st in
          ((200, respond (rpc_ID r) result), st)
      end
  end.

Definition writeJSON (status : Z) (v : json) : Reply := (status, print true v +:+ newline).
Definition writeRESTError (status : Z) (text : string) : Reply := writeJSON status (JObject [("error", JString text)]).
Definition rest_result {A} (status : Z) (f : A → json) (r : pushError + A) : Reply :=
  match r with inl e => writeRESTError (httpStatus e) (message e) | inr x => writeJSON status (f x) end.
Definition with_task (task : string) (c : PushNotificationConfig) : PushNotificationConfig :=
  {| pc_ID := pc_ID c; pc_TaskID := task; pc_URL := pc_URL c; Token := Token c; Authentication := Authentication c |}.
Definition handleTaskREST (http_method path body uuid : string) (st : System) : Reply * System :=
  match parsePushConfigPath path with
  | None => (plain 404 "404 page not found", st)
  | Some (task, config) =>
      if negb (pushSupported (srv st)) then (writeRESTError 400 "push notifications not supported", st) else
      let all := bool_decide (config = "") in
      if bool_decide (http_method = "POST") && all then
        match '(v, _) ← read_value body; dec_config zero_config v with
        | None => (writeRESTError 400 "invalid push notification config", st)
        | Some c =>
            let '(r, s) := createPushConfig url_parse (with_task task c) uuid (srv st) in
            (rest_result 201 config_json r, with_srv s st)
        end
      else if bool_decide (http_method = "GET") && all then (rest_result 200 configs_json (listPushConfigs task (srv st)), st)
      else if bool_decide (http_method = "GET") then (rest_result 200 config_json (getPushConfig task config (srv st)), st)
      else if bool_decide (http_method = "DELETE") && negb all then
        let '(r, s) := deletePushConfig task config (srv st) in (rest_result 200 deleted_json r, with_srv s st)
      else (plain 405 "method not allowed", st)
  end.

(** ** The client (client.go) *)
Record Client := { baseURL : string; authToken : string }.
Definition setAuth (c : Client) : list (string * string) :=
  if bool_decide (authToken c = "") then [] else [("Authorization", "Bearer " +:+ authToken c)].

Section Calls.
(** Posting a body with headers to an address: the text of the answer, or an error. *)
Context {W : Type}.
Variable post : string → list (string * string) → string → W → (string + string) * W.
Variable decode_error : string → string.
Variable result_error : option json → string.

Definition callRPC {A} (c : Client) (method : string) (params : json) (dec : A → json → option A) (zero : A) (w : W) : (string + A) * W :=
  let body := print true (rpc_json {| rpc_ID := JNumber "1"; rpc_Method := method; rpc_Params := Some params |}) in
  match post (baseURL c) (("Content-Type", "application/json") :: setAuth c) body w with
  | (inl e, w) => (inl ("send request: " +:+ e), w)
  | (inr answer, w) =>
      let text := string_take (1024 * 1024) answer in
      (match parse text ≫= dec_response (None, None) with
       | None => inl ("decode response: " +:+ decode_error text +:+ " (body: " +:+ string_take 200 text +:+ ")")
       | Some (_, Some (code, text)) => inl ("A2A error " +:+ itoa code +:+ ": " +:+ text)
       | Some (result, None) =>
           match unmarshal_raw dec zero result with
           | Some x => inr x
           | None => inl ("decode result: " +:+ result_error result)
           end
       end, w)
  end.
Definition SendTask (zero_time : time) (c : Client) (p : TaskSendParams) : W → (string + Task) * W :=
  callRPC c "tasks/send" (send_json p) dec_task (zero_task zero_time).
Definition GetTask (zero_time : time) (c : Client) (id : string) : W → (string + Task) * W :=
  callRPC c "tasks/get" (query_json id) dec_task (zero_task zero_time).
Definition CancelTask (zero_time : time) (c : Client) (id : string) : W → (string + Task) * W :=
  callRPC c "tasks/cancel" (query_json id) dec_task (zero_task zero_time).
Definition CreateTaskPushNotificationConfig (c : Client) (config : PushNotificationConfig) : W → (string + PushNotificationConfig) * W :=
  callRPC c "CreateTaskPushNotificationConfig" (config_json config) dec_config zero_config.
Definition GetTaskPushNotificationConfig (c : Client) (task config : string) : W → (string + PushNotificationConfig) * W :=
  callRPC c "GetTaskPushNotificationConfig" (config_ref_json task config) dec_config zero_config.
Definition ListTaskPushNotificationConfigs (c : Client) (task : string) : W → (string + list PushNotificationConfig) * W :=
  callRPC c "ListTaskPushNotificationConfigs" (list_json task) dec_configs [].
Definition DeleteTaskPushNotificationConfig (c : Client) (task config : string) : W → (string + bool) * W :=
  callRPC c "DeleteTaskPushNotificationConfig" (config_ref_json task config) dec_deleted false.
End Calls.

(** ** Reading back what was written *)
Lemma foldl_insert_fmap (l : list (string * string)) : ∀ acc : gmap string string,
  JString <$> foldl (λ m p, <[p.1 := p.2]> m) acc l = foldl (λ m p, <[p.1 := p.2]> m) (JString <$> acc) (map (λ p, (p.1, JString p.2)) l).
Proof. induction l as [|[k v] l IH]; intros acc; [done|]. cbn. by rewrite IH, fmap_insert. Qed.
Lemma dec_texts_json m : dec_texts ∅ (json_of_map (JString <$> m)) = Some m.
Proof.
  unfold json_of_map, dec_texts. set (l := map (λ k, (k, default "" (m !! k))) (sorted_keys (JString <$> m))).
  assert (Hl : map (λ k, (k, default JNull ((JString <$> m) !! k))) (sorted_keys (JString <$> m)) = map (λ p, (p.1, JString p.2)) l).
  { unfold l. rewrite map_map. apply map_ext_in. intros k Hk. apply list_elem_of_In, elem_of_sorted_keys in Hk. rewrite lookup_fmap in *.
    by destruct (m !! k); [|destruct Hk]. }
  pose proof (object_map_of_map (JString <$> m)) as Ho. rewrite Hl in *. clearbody l. unfold object_map in Ho.
  assert (mapM (λ p : string * json, (p.1,.) <$> dec_string "" p.2) (map (λ p, (p.1, JString p.2)) l) = Some l) as ->.
  { clear. induction l as [|[k v] l IH]; [done|]. cbn. fold (mapM (λ p : string * json, (p.1,.) <$> dec_string "" p.2)). by rewrite IH. }
  cbn. f_equal. assert (Hinj : Inj (=) (=) JString) by (intros a b [= ->]; done).
  apply (inj (fmap (M := gmap string) JString)). rewrite foldl_insert_fmap, fmap_empty. exact Ho.
Qed.
Lemma read_omit_texts_map m : read_member dec_texts ∅ (omit_texts m) = Some m.
Proof.
  unfold omit_texts, omit_map. case_bool_decide as E; [by apply fmap_empty_inv in E as ->|]. apply dec_texts_json.
Qed.
Lemma read_omit_ptr {A} (f : A → json) (dec : A → json → option A) zero x : (∀ y, x = Some y → dec zero (f y) = Some y ∧ f y ≠ JNull) →
  read_member (dec_ptr dec zero) None (omit_ptr f x) = Some x.
Proof.
  intros H. destruct x as [y|]; [|done]. destruct (H y eq_refl) as [E Hn]. cbn [omit_ptr fmap option_fmap option_map read_member]. unfold dec_ptr.
  destruct (f y); cbn in *; by rewrite ?E.
Qed.
Ltac read_struct dec f zero := unfold dec, f, dec_struct; read_fields; unfold zero.
Lemma dec_file_json f : dec_file zero_file (file_json f) = Some f.
Proof.
  read_struct dec_file file_json zero_file. cbn [fc_Name MIMEType Bytes URI]. rewrite !read_omitempty.
  assert (read_member dec_bytes "" (if bool_decide (Bytes f = "") then None else Some (JString (base64 (Bytes f)))) = Some (Bytes f)) as ->.
  { case_bool_decide as E; cbn; [by rewrite E|apply unbase64_base64]. }
  by destruct f.
Qed.
Lemma dec_piece_json p : dec_piece zero_piece (piece_json p) = Some p.
Proof.
  read_struct dec_piece piece_json zero_piece. cbn [p_Type p_Text File p_Data p_Metadata].
  rewrite read_omitempty, read_omit_texts_map, read_omit_ptr by (intros f _; split; [apply dec_file_json|done]). destruct p as [ty tx fi [d|] me]; done.
Qed.
Lemma dec_pieces_json l : dec_list (dec_piece zero_piece) [] (JArray (map piece_json l)) = Some l.
Proof. cbn. apply mapM_map, Forall_true, dec_piece_json. Qed.
Lemma dec_turn_json m : dec_turn zero_turn (turn_json m) = Some m.
Proof.
  read_struct dec_turn turn_json zero_turn. cbn [Role Parts]. cbn [read_member dec_string]. rewrite dec_pieces_json. by destruct m.
Qed.
Definition output_ok (a : Artifact) : Prop := int_value (itoa (Index a)) = Some (Index a).
Lemma dec_output_json a : output_ok a → dec_output zero_output (output_json a) = Some a.
Proof.
  intros Ha. read_struct dec_output output_json zero_output. cbn [a_Name a_Description a_Parts Index Append LastChunk].
  rewrite !read_omitempty, !read_omit_false. cbn [read_member dec_int int_json]. rewrite dec_pieces_json, Ha. by destruct a.
Qed.
Lemma dec_auth_json a : dec_auth ("", "") (auth_json a) = Some a.
Proof. unfold dec_auth, auth_json, dec_struct. read_fields. cbn [fst snd]. rewrite read_omitempty. by destruct a. Qed.
Lemma dec_config_json c : dec_config zero_config (config_json c) = Some c.
Proof.
  read_struct dec_config config_json zero_config. cbn [pc_ID pc_TaskID pc_URL Token Authentication].
  rewrite !read_omitempty, read_omit_ptr by (intros a _; split; [apply dec_auth_json|done]). by destruct c.
Qed.
Lemma dec_send_json p : dec_send zero_send (send_json p) = Some p.
Proof.
  read_struct dec_send send_json zero_send. cbn [sp_ID sp_Messages sp_Metadata PushNotification].
  rewrite read_omit_texts_map, read_omit_ptr by (intros c _; split; [apply dec_config_json|done]). cbn [read_member dec_string].
  assert (dec_list (dec_turn zero_turn) [] (JArray (map turn_json (sp_Messages p))) = Some (sp_Messages p)) as ->; [|by destruct p].
  cbn. apply mapM_map, Forall_true, dec_turn_json.
Qed.
Lemma dec_query_json id : dec_query "" (query_json id) = Some id.
Proof. done. Qed.
Lemma dec_config_ref_json t c : dec_config_ref ("", "") (config_ref_json t c) = Some (t, c).
Proof. done. Qed.
Definition times_ok (t : Task) : Prop :=
  parse_time (format_time (Created t)) = Some (Created t) ∧ parse_time (format_time (Updated t)) = Some (Updated t).
Definition task_ok (t : Task) : Prop := times_ok t ∧ Forall output_ok (Artifacts t).
Lemma dec_task_back t z : task_ok t → dec_task (zero_task z) (task_json t) = Some t.
Proof.
  intros [[Hc Hu] Ha]. read_struct dec_task task_json zero_task. cbn [t_ID State Messages Artifacts Metadata Created Updated].
  rewrite read_omit_texts_map, !read_omit_list.
  - cbn [read_member dec_string dec_time]. rewrite Hc. cbn. rewrite Hu. by destruct t.
  - apply Forall_true, dec_turn_json.
  - eapply Forall_impl; [exact Ha|]. intros a. apply dec_output_json.
Qed.

Lemma dec_rpc_json r : dec_rpc zero_rpc (rpc_json r) = Some r.
Proof. read_struct dec_rpc rpc_json zero_rpc. destruct r as [id m [p|]]; done. Qed.
Lemma dec_response_result id v : dec_response (None, None) (response_json id (inr v)) = Some (Some v, None).
Proof. done. Qed.
Lemma dec_response_error id code text : int_value (itoa code) = Some code →
  dec_response (None, None) (response_json id (inl (code, text))) = Some (None, Some (code, text)).
Proof.
  intros H. unfold dec_response, response_json, dec_struct. read_fields. cbn [read_member fst snd mbind option_bind dec_string dec_ptr default option_fmap fmap].
  unfold dec_rpc_error, dec_struct.
  change (field dec_int (0, "").1 "code" [("code", int_json code); ("message", JString text)]) with (int_value (itoa code)). by rewrite H.
Qed.
Definition fits (v : json) : bool := well_formed 0 v && all_valid v.
Lemma parse_fits v : fits v = true → parse (print true v) = Some v.
Proof. unfold fits. intros [Hw Hv]%andb_true_iff. by rewrite parse_print, clean_valid. Qed.
Lemma parse_line v : fits v = true → parse (print true v +:+ newline) = Some v.
Proof. unfold fits, parse. intros [Hw Hv]%andb_true_iff. rewrite read_value_print by done. by rewrite clean_valid. Qed.
Lemma read_fits v : fits v = true → read_value (print true v) = Some (v, "").
Proof. unfold fits. intros [Hw Hv]%andb_true_iff. rewrite <- (string_app_nil_r (print true v)), read_value_print by done. by rewrite clean_valid. Qed.

(** A request that was written is handled as the call it is. *)
Lemma handleJSONRPC_call r uuid cu now st : fits (rpc_json r) = true →
  handleJSONRPC true (print true (rpc_json r)) uuid cu now st =
    let '(result, st) := rpc_call (rpc_Method r) (rpc_Params r) uuid cu now st in ((200, respond (rpc_ID r) result), st).
Proof. intros H. unfold handleJSONRPC. cbn [negb]. by rewrite read_fits, dec_rpc_json. Qed.

(** ** Every request is a step of the server, or none *)
Definition steps_to (st st' : System) : Prop := st' = st ∨ ∃ l, st' = exec url_parse st l.
Lemma steps_same st : steps_to st st. Proof. by left. Qed.
Hint Resolve steps_same : core.
Lemma with_params_steps {A} (dec : A → json → option A) zero params st k :
  (∀ p, steps_to st (k p).2) → steps_to st (with_params dec zero params st k).2.
Proof. intros H. unfold with_params. by destruct (unmarshal_raw dec zero params). Qed.
Lemma push_steps st k : steps_to st k.2 → steps_to st (pushSupportedRPC st k).2.
Proof. unfold pushSupportedRPC. by destruct (pushSupported (srv st)). Qed.
Lemma create_steps c uuid st : steps_to st (with_srv (createPushConfig url_parse c uuid (srv st)).2 st).
Proof. right. by exists (CreateConfig c uuid). Qed.
Lemma delete_steps task config st : steps_to st (with_srv (deletePushConfig task config (srv st)).2 st).
Proof. right. by exists (DeleteConfig task config). Qed.
Lemma rpc_call_steps method params uuid cu now st : steps_to st (rpc_call method params uuid cu now st).2.
Proof.
  unfold rpc_call. repeat case_bool_decide; try done;
    unfold handlePushCreate, handlePushGet, handlePushList, handlePushDelete, rpc_send, rpc_get, rpc_cancel;
    repeat apply push_steps; apply with_params_steps; intros p; try done.
  - right. exists (Send p uuid cu now). cbn [exec]. by destruct (handleTaskSend _ _ _ _ _ _) as [[]].
  - right. exists (A2aServer.CancelTask p now). cbn [exec]. by destruct (update_and_tell _ _ _) as [[]].
  - pose proof (create_steps p cu st) as Hs. by destruct (createPushConfig _ _ _ _).
  - pose proof (delete_steps p.1 p.2 st) as Hs. by destruct (deletePushConfig _ _ _).
Qed.
Lemma handleJSONRPC_steps post body uuid cu now st : steps_to st (handleJSONRPC post body uuid cu now st).2.
Proof.
  unfold handleJSONRPC. destruct post; [|done]. cbn [negb]. destruct (read_value body) as [[v r]|]; [|done]. destruct (dec_rpc zero_rpc v) as [q|]; [|done].
  pose proof (rpc_call_steps (rpc_Method q) (rpc_Params q) uuid cu now st) as H. by destruct (rpc_call _ _ _ _ _ _).
Qed.
Lemma handleTaskREST_steps http_method path body uuid st : steps_to st (handleTaskREST http_method path body uuid st).2.
Proof.
  unfold handleTaskREST. destruct (parsePushConfigPath path) as [[task config]|]; [|done]. destruct (pushSupported (srv st)); [|done]. cbn [negb].
  destruct (bool_decide (http_method = "POST") && _); [|destruct (bool_decide (http_method = "GET") && _); [done|]; destruct (bool_decide (http_method = "GET")); [done|]].
  - destruct (_ ≫= _) as [c|]; [|done]. pose proof (create_steps (with_task task c) uuid st) as H. by destruct (createPushConfig _ _ _ _).
  - destruct (_ && _); [|done]. pose proof (delete_steps task config st) as H. by destruct (deletePushConfig _ _ _).
Qed.

Lemma rpc_call_tasks params uuid cu now st :
  rpc_call "tasks/send" params uuid cu now st = rpc_send params uuid cu now st ∧
  rpc_call "tasks/get" params uuid cu now st = rpc_get params st ∧
  rpc_call "tasks/cancel" params uuid cu now st = rpc_cancel params now st.
Proof. done. Qed.

(** ** Calling the server over HTTP *)
Definition over_http (uuid cu : string) (now : time) (_ : string) (_ : list (string * string)) (body : string) (st : System) :
    (string + string) * System :=
  let '((_, text), st) := handleJSONRPC true body uuid cu now st in (inr text, st).
(** An answer is valid UTF-8, not too deep, and not longer than the client reads. *)
Definition answer_fits (r : RpcError + json) : Prop :=
  fits (response_json (JNumber "1") r) = true ∧ (String.length (respond (JNumber "1") r) <= 1024 * 1024)%nat.
Definition request_fits (method : string) (params : json) : bool :=
  fits (rpc_json {| rpc_ID := JNumber "1"; rpc_Method := method; rpc_Params := Some params |}).
Definition known_codes : list Z := [-32700; -32602; -32601; -32001; -32003].
Lemma known_code_value code : code ∈ known_codes → int_value (itoa code) = Some code.
Proof. unfold known_codes. rewrite !elem_of_cons, elem_of_nil. intros H. destruct_or? H; subst; first [by vm_compute | done]. Qed.
Definition codes_known (r : (RpcError + json) * System) : Prop := match r.1 with inl (code, _) => code ∈ known_codes | inr _ => True end.
Ltac known := cbn; unfold known_codes; rewrite !elem_of_cons; tauto.
Lemma with_params_codes {A} (dec : A → json → option A) zero params st k :
  (∀ p, codes_known (k p)) → codes_known (with_params dec zero params st k).
Proof. intros H. unfold with_params. destruct (unmarshal_raw dec zero params); [done|known]. Qed.
Lemma push_codes st k : codes_known k → codes_known (pushSupportedRPC st k).
Proof. unfold pushSupportedRPC. destruct (pushSupported (srv st)); [done|known]. Qed.
Lemma rpc_call_codes method params uuid cu now st : codes_known (rpc_call method params uuid cu now st).
Proof.
  unfold rpc_call. repeat case_bool_decide; try known;
    unfold handlePushCreate, handlePushGet, handlePushList, handlePushDelete, rpc_send, rpc_get, rpc_cancel;
    repeat apply push_codes; apply with_params_codes; intros p.
  - unfold handleTaskSend. destruct (PushNotification p) as [c|]; [|done]. destruct (negb _); [known|]. destruct (normalizePushConfig _ _ _); [known|done].
  - unfold handleTaskGet. destruct (tasks (srv st) !! p); [done|known].
  - destruct (update_and_tell _ _ _) as [[]]; [done|known].
  - unfold createPushConfig. destruct (normalizePushConfig _ _ _); [known|]. destruct (tasks (srv st) !! _); [done|known].
  - unfold getPushConfig. destruct (_ || _); [known|]. destruct (pushConfigs (srv st) !! _) as [m|]; [destruct (m !! _)|destruct (tasks (srv st) !! _)]; first [done|known].
  - unfold listPushConfigs. destruct (bool_decide _); [known|]. destruct (tasks (srv st) !! _); [done|known].
  - unfold deletePushConfig. destruct (_ || _); [known|]. destruct (tasks (srv st) !! _); [|known]. by destruct (pushConfigs (srv st) !! _).
Qed.

Section Remote.
Variable decode_error : string → string.
Variable result_error : option json → string.
Variables uuid cu : string.
Variable now : time.
Notation remote_call := (callRPC (over_http uuid cu now) decode_error result_error).

Lemma remote_call_spec {A} c method params (dec : A → json → option A) zero st : request_fits method params = true →
  answer_fits (rpc_call method (Some params) uuid cu now st).1 →
  remote_call c method params dec zero st =
    let '(result, st) := rpc_call method (Some params) uuid cu now st in
    (match result with
     | inl (code, text) => inl ("A2A error " +:+ itoa code +:+ ": " +:+ text)
     | inr v => match dec zero v with Some x => inr x | None => inl ("decode result: " +:+ result_error (Some v)) end
     end, st).
Proof.
  intros Hr Ha. unfold callRPC, over_http. rewrite handleJSONRPC_call by done. cbn [rpc_Method rpc_Params rpc_ID].
  pose proof (rpc_call_codes method (Some params) uuid cu now st) as Hc.
  destruct (rpc_call method (Some params) uuid cu now st) as [result st']. cbn [fst] in Ha. destruct Ha as [Hf Hl].
  assert (string_take (1024 * 1024) (respond (JNumber "1") result) = respond (JNumber "1") result) as ->.
  { pose proof (string_take_drop (1024 * 1024) (respond (JNumber "1") result)) as H.
    assert (String.length (string_drop (1024 * 1024) (respond (JNumber "1") result)) = 0)%nat as H0 by (rewrite string_length_drop; lia).
    destruct (string_drop _ _); [by rewrite string_app_nil_r in H|done]. }
  unfold respond. rewrite parse_line by done. cbn [mbind option_bind]. destruct result as [[code text]|v].
  - rewrite dec_response_error by (by apply known_code_value). done.
  - rewrite dec_response_result. cbn [unmarshal_raw mbind option_bind]. by destruct (dec zero v).
Qed.
End Remote.
End Rpc.

Definition error_text (e : RpcError) : string := "A2A error " +:+ itoa e.1 +:+ ": " +:+ e.2.
Definition remote {A} (r : RpcError + A) : string + A := match r with inl e => inl (error_text e) | inr x => inr x end.

(** C20.  Over HTTP a client gets what the server's operations give: sending a task, looking at one and canceling one
    answer with the task the server has, or its error, and take the server's step; provided the texts are
    valid UTF-8, the answers are no longer than the client reads, and the times of the tasks can be read back. *)
Theorem client_is_the_server url_parse format_time parse_time decode_error result_error uuid cu now zero_time c p id st
    (post := over_http url_parse format_time uuid cu now) (ok := task_ok format_time parse_time)
    (Hnow : parse_time (format_time now) = Some now)
    (Hold : ∀ t, tasks (srv st) !! id = Some t → ok t)
    (Hsend : request_fits "tasks/send" (send_json p) = true) (Hquery : request_fits "tasks/get" (query_json id) && request_fits "tasks/cancel" (query_json id) = true)
    (Asend : answer_fits (rpc_send url_parse format_time (Some (send_json p)) uuid cu now st).1)
    (Aget : answer_fits (rpc_get format_time (Some (query_json id)) st).1)
    (Acancel : answer_fits (rpc_cancel format_time (Some (query_json id)) now st).1) :
  SendTask parse_time post decode_error result_error zero_time c p st =
    (remote (handleTaskSend url_parse p uuid cu now (srv st)).1, exec url_parse st (Send p uuid cu now)) ∧
  GetTask parse_time post decode_error result_error zero_time c id st = (remote (handleTaskGet id (srv st)), st) ∧
  CancelTask parse_time post decode_error result_error zero_time c id st =
    (remote (match (update_and_tell id (cancel_task now) st).1 with Some t => inr t | None => inl task_not_found end),
     exec url_parse st (A2aServer.CancelTask id now)).
Proof.
  apply andb_true_iff in Hquery as [Hget Hcancel]. unfold post, ok in *.
  split; [|split]; unfold SendTask, GetTask, CancelTask; rewrite remote_call_spec by done;
    destruct (rpc_call_tasks url_parse format_time (Some (query_json id)) uuid cu now st) as (_ & E2 & E3);
    destruct (rpc_call_tasks url_parse format_time (Some (send_json p)) uuid cu now st) as (E1 & _ & _);
    rewrite ?E1, ?E2, ?E3; clear E1 E2 E3; cbn [exec].
  - unfold rpc_send, with_params, unmarshal_raw. cbn [mbind option_bind]. rewrite dec_send_json.
    pose proof (handleTaskSend_spec url_parse p uuid cu now (srv st)) as Hs. unfold handleTaskSend in *.
    set (t := {| t_ID := _ |}) in *. assert (Hr : dec_task parse_time (zero_task zero_time) (task_json format_time t) = Some t) by (by apply dec_task_back).
    destruct (PushNotification p) as [cfg|]; [|by rewrite Hr]. destruct (negb _); [done|]. destruct (normalizePushConfig _ _ _); [done|by rewrite Hr].
  - unfold rpc_get, with_params, unmarshal_raw. cbn [mbind option_bind]. rewrite dec_query_json. unfold handleTaskGet.
    destruct (tasks (srv st) !! id) as [t|]; [|done]. by rewrite dec_task_back by (by apply Hold).
  - unfold rpc_cancel, with_params, unmarshal_raw. cbn [mbind option_bind]. rewrite dec_query_json.
    destruct (update_and_tell id (cancel_task now) st) as [[t|] st'] eqn:E; [|done]. cbn [fst snd remote].
    rewrite dec_task_back; [done|]. unfold update_and_tell, updateTask in E. destruct (tasks (srv st) !! id) as [t0|] eqn:Et; [|done].
    destruct (Hold t0 eq_refl) as [[Hc Hu] Ha]. unfold cancel_task, advance in E. destruct (IsTerminal (State t0)).
    + injection E as <- <-. by split.
    + destruct (notifyTaskUpdate _ _). injection E as <- <-. by split.
Qed.

Definition demo_format (_ : time) : string := "2026-01-02T03:04:05Z".
Definition demo_time (_ : string) : option time := Some 5.
Definition demo_state : System := run demo_parse [Send (demo_send "find it" (Some (demo_config "c"))) "" "" 5; Work 0 ["grep"] 5] (start true).
Definition demo_client : Client := {| baseURL := "http://agent"; authToken := "secret" |}.
Definition demo_next : TaskSendParams := {| sp_ID := "u"; sp_Messages := user_says "more"; sp_Metadata := {["k" := "v"]}; PushNotification := Some (demo_config "d") |}.
Ltac fits_now := split; [by vm_compute|apply Nat.leb_le; by vm_compute].
Lemma client_is_the_server_witness :
  let post := over_http demo_parse demo_format "" "" 5 in
  SendTask demo_time post (λ _, "") (λ _, "") 0 demo_client demo_next demo_state =
    (remote (handleTaskSend demo_parse demo_next "" "" 5 (srv demo_state)).1, exec demo_parse demo_state (Send demo_next "" "" 5)) ∧
  GetTask demo_time post (λ _, "") (λ _, "") 0 demo_client "t" demo_state = (remote (handleTaskGet "t" (srv demo_state)), demo_state) ∧
  CancelTask demo_time post (λ _, "") (λ _, "") 0 demo_client "t" demo_state =
    (remote (match (update_and_tell "t" (cancel_task 5) demo_state).1 with Some t => inr t | None => inl task_not_found end),
     exec demo_parse demo_state (A2aServer.CancelTask "t" 5)).
Proof.
  apply (client_is_the_server demo_parse demo_format demo_time); [done| |by vm_compute..|fits_now|fits_now|fits_now].
  intros t H. vm_compute in H. injection H as <-. split; [done|constructor].
Defined.

(** ** The REST paths *)
Notation clean b s := (Sanitize.has_byte b s = false).
Lemma clean_head b a s : clean b (String a s) → a ≠ b.
Proof. intros H ->. cbn in H. by rewrite bool_decide_true in H. Qed.
Lemma trim_right_clean b t : clean b t → trim_right_byte b t = t.
Proof.
  induction t as [|a t IH]; [done|]. intros H. cbn [trim_right_byte]. rewrite bool_decide_false by (by eapply clean_head).
  cbn in H. apply orb_false_iff in H as [_ H]. by rewrite IH.
Qed.
Lemma trim_right_stays b s t : clean b t → t ≠ "" → trim_right_byte b (s +:+ t) = s +:+ t.
Proof.
  intros Ht Hn. induction s as [|c s IH]; [by apply trim_right_clean|]. cbn [String.append trim_right_byte].
  rewrite IH, (bool_decide_false (s +:+ t = "")) by (by destruct s, t). by rewrite andb_false_r.
Qed.
Lemma trim_stays b s t u : clean b s → s ≠ "" → clean b u → u ≠ "" → trim_byte b (s +:+ t +:+ u) = s +:+ t +:+ u.
Proof.
  intros Hs Hn Hu Hu0. unfold trim_byte. assert (trim_left_byte b (s +:+ t +:+ u) = s +:+ t +:+ u) as ->.
  { destruct s as [|a s]; [done|]. cbn [String.append trim_left_byte]. by rewrite bool_decide_false by (by eapply clean_head). }
  rewrite <- string_app_assoc. by apply trim_right_stays.
Qed.
Lemma split_clean b s : clean b s → Sanitize.split b s = [s].
Proof. intros H. unfold Sanitize.split. by rewrite Sanitize.split_aux_none. Qed.
Lemma trim_prefix_app p s : trim_prefix (p +:+ s) p = s.
Proof. unfold trim_prefix. rewrite (proj2 (has_prefix_spec _ _)) by (by eexists). apply string_drop_app. Qed.

Definition configs_path (task : string) : string := "/tasks/" +:+ task +:+ "/pushNotificationConfigs".
Definition config_path (task config : string) : string := "/tasks/" +:+ task +:+ "/pushNotificationConfigs/" +:+ config.
Definition segment (s : string) : Prop := s ≠ "" ∧ clean Sanitize.slash s.
Lemma configs_path_parses task : segment task → parsePushConfigPath (configs_path task) = Some (task, "").
Proof.
  intros [Hn Hs]. unfold parsePushConfigPath, configs_path. rewrite trim_prefix_app.
  change "/pushNotificationConfigs" with ("/" +:+ "pushNotificationConfigs"). rewrite trim_stays by done.
  change ("/" +:+ "pushNotificationConfigs") with (String Sanitize.slash "pushNotificationConfigs").
  rewrite Sanitize.split_app, split_clean by done. by rewrite bool_decide_false.
Qed.
Lemma config_path_parses task config : segment task → segment config → parsePushConfigPath (config_path task config) = Some (task, config).
Proof.
  intros [Hn Hs] [Hcn Hcs]. unfold parsePushConfigPath, config_path. rewrite trim_prefix_app, trim_stays by done.
  change ("/pushNotificationConfigs/" +:+ config) with (String Sanitize.slash ("pushNotificationConfigs" +:+ String Sanitize.slash config)).
  rewrite !Sanitize.split_app, split_clean by done.
  by rewrite (bool_decide_false (task = "")), (bool_decide_false (config = "")) by done.
Qed.

(** The two say the same: the same state, and the same value, or the same text of an error of the client. *)
Definition agree (status : Z) (rest : Reply * System) (rpc : (RpcError + json) * System) : Prop :=
  rest.2 = rpc.2 ∧ match rpc.1 with
                   | inr v => rest.1 = writeJSON status v
                   | inl e => ∃ code, rest.1 = writeRESTError code e.2 ∧ 400 <= code < 500
                   end.
Definition client_error {A} (r : pushError + A) : Prop := match r with inl e => 400 <= httpStatus e < 500 | inr _ => True end.
Lemma agree_result {A} status (f : A → json) (r : pushError + A) st : client_error r → agree status (rest_result status f r, st) (rpc_result f r, st).
Proof. intros Hr. split; [done|]. destruct r as [e|x]; [by exists (httpStatus e)|done]. Qed.
Lemma create_client_error url_parse c uuid s : client_error (createPushConfig url_parse c uuid s).1.
Proof. unfold createPushConfig. destruct (normalizePushConfig _ _ _); [done|]. by destruct (tasks s !! _). Qed.
Lemma get_client_error task config s : client_error (getPushConfig task config s).
Proof. unfold getPushConfig. destruct (_ || _); [done|]. destruct (pushConfigs s !! task) as [m|]; [by destruct (m !! _)|by destruct (tasks s !! _)]. Qed.
Lemma list_client_error task s : client_error (listPushConfigs task s).
Proof. unfold listPushConfigs. destruct (bool_decide _); [done|]. by destruct (tasks s !! _). Qed.
Lemma delete_client_error task config s : client_error (deletePushConfig task config s).1.
Proof. unfold deletePushConfig. destruct (_ || _); [done|]. destruct (tasks s !! _); [|done]. by destruct (pushConfigs s !! _). Qed.

Lemma rpc_call_push url_parse format_time uuid cu now st :
  (∀ params, rpc_call url_parse format_time "CreateTaskPushNotificationConfig" params uuid cu now st = handlePushCreate url_parse params cu st) ∧
  (∀ params, rpc_call url_parse format_time "ListTaskPushNotificationConfigs" params uuid cu now st = handlePushList params st) ∧
  (∀ params, rpc_call url_parse format_time "GetTaskPushNotificationConfig" params uuid cu now st = handlePushGet params st) ∧
  (∀ params, rpc_call url_parse format_time "DeleteTaskPushNotificationConfig" params uuid cu now st = handlePushDelete params st).
Proof. done. Qed.
(** Comparisons of literals. *)
Ltac decide_strings :=
  repeat match goal with
  | |- context [bool_decide (?a = ?b)] => first [rewrite (bool_decide_true (a = b)) by reflexivity | rewrite (bool_decide_false (a = b)) by discriminate]
  end.

(** The paths of a task's settings do what the methods of the JSON-RPC end point do, on the server and in the answer:
    what is an error there has the same text here. *)
Theorem rest_is_rpc url_parse format_time task config c uuid cu now st : segment task → segment config → fits (config_json c) = true →
  let rpc method params := rpc_call url_parse format_time method (Some params) uuid cu now st in
  agree 201 (handleTaskREST url_parse "POST" (configs_path task) (print true (config_json c)) cu st)
            (rpc "CreateTaskPushNotificationConfig" (config_json (with_task task c))) ∧
  agree 200 (handleTaskREST url_parse "GET" (configs_path task) "" cu st) (rpc "ListTaskPushNotificationConfigs" (list_json task)) ∧
  agree 200 (handleTaskREST url_parse "GET" (config_path task config) "" cu st) (rpc "GetTaskPushNotificationConfig" (config_ref_json task config)) ∧
  agree 200 (handleTaskREST url_parse "DELETE" (config_path task config) "" cu st) (rpc "DeleteTaskPushNotificationConfig" (config_ref_json task config)).
Proof.
  intros Ht Hc Hf rpc. unfold rpc, handleTaskREST. rewrite configs_path_parses, config_path_parses by done.
  rewrite (bool_decide_false (config = "")) by apply Hc. rewrite read_fits by done. cbn [mbind option_bind]. rewrite dec_config_json.
  destruct (rpc_call_push url_parse format_time uuid cu now st) as (-> & -> & -> & ->). decide_strings.
  unfold handlePushCreate, handlePushList, handlePushGet, handlePushDelete, with_params, unmarshal_raw. cbn [mbind option_bind].
  rewrite dec_config_json, dec_config_ref_json. change (dec_list_params "" (list_json task)) with (Some task). unfold pushSupportedRPC.
  destruct (pushSupported (srv st)); cbn [negb andb fst snd]; [|repeat split; by exists 400]. split; [|split; [|split]].
  - pose proof (create_client_error url_parse (with_task task c) cu (srv st)) as H. destruct (createPushConfig _ _ _ _). by apply agree_result.
  - apply agree_result, list_client_error.
  - apply agree_result, get_client_error.
  - pose proof (delete_client_error task config (srv st)) as H. destruct (deletePushConfig _ _ _). by apply agree_result.
Qed.
Lemma rest_is_rpc_witness :
  let rpc method params := rpc_call demo_parse demo_format method (Some params) "" "x" 5 demo_state in
  agree 201 (handleTaskREST demo_parse "POST" (configs_path "t") (print true (config_json (demo_config "d"))) "x" demo_state)
            (rpc "CreateTaskPushNotificationConfig" (config_json (with_task "t" (demo_config "d")))) ∧
  agree 200 (handleTaskREST demo_parse "GET" (configs_path "t") "" "x" demo_state) (rpc "ListTaskPushNotificationConfigs" (list_json "t")) ∧
  agree 200 (handleTaskREST demo_parse "GET" (config_path "t" "c") "" "x" demo_state) (rpc "GetTaskPushNotificationConfig" (config_ref_json "t" "c")) ∧
  agree 200 (handleTaskREST demo_parse "DELETE" (config_path "t" "c") "" "x" demo_state) (rpc "DeleteTaskPushNotificationConfig" (config_ref_json "t" "c")).
Proof. apply (rest_is_rpc demo_parse demo_format "t" "c" (demo_config "d")); by vm_compute. Defined.

(** ** What the end points do besides *)

(** Parameters that are null are no parameters at all: a task without a message is taken on. *)
Lemma null_params_send_a_task :
  let st := (rpc_call demo_parse demo_format "tasks/send" (Some JNull) "new" "" 5 demo_state).2 in
  (Messages <$> tasks (srv st) !! "new") = Some [] ∧
  (rpc_call demo_parse demo_format "tasks/send" None "new" "" 5 demo_state) = (inl invalid_params, demo_state).
Proof. by vm_compute. Qed.

(** The request is the first value of the body; what follows is not looked at. *)
Lemma text_after_the_request_is_ignored body rest r uuid cu now st : fits (rpc_json r) = true → body = print true (rpc_json r) +:+ " " +:+ rest →
  handleJSONRPC demo_parse demo_format true body uuid cu now st =
  handleJSONRPC demo_parse demo_format true (print true (rpc_json r)) uuid cu now st.
Proof.
  intros Hf ->. unfold handleJSONRPC. rewrite read_fits by done. unfold fits in Hf. apply andb_true_iff in Hf as [Hw Hv].
  rewrite read_value_print by done. by rewrite clean_valid.
Qed.
