(* ===== verification/Session.v ===== *)
(** Sessions (src/session/session.go, eviction.go, external.go, redis.go, migrate.go,
    migrate_stateful.go, middleware.go): session objects on a heap, the store
    interface as a class with the in-memory and the Redis stores as instances,
    migration between stores and the HTTP middleware.  Redis is a parameter; a session is written as JSON with the
    times of the process's zone. *)

From stdpp Require Import base tactics list gmap strings pretty.
From Stdlib Require Import ZArith Lia.
From S2P Require Import Prelude Json Rfc3339 Number A2aJson.
From S2P Require A2a A2aRpc.

Local Open Scope Z_scope.

(** ** Sessions (session.go) *)
Inductive State := StateActive | StateClosed | StateExpired.
#[export] Instance State_eq_dec : EqDecision State.
Proof. solve_decision. Defined.

Record session := {
  id : string;
  data : gmap string json;
  state : State;
  createdAt : time;
  expiresAt : time
}.

(** [generateID]: 16 random bytes in hexadecimal, or the error of the source. *)
Definition random := (error + string)%type.

Definition newSession (id_ : string) (ttl : duration) (now : time) : session := {|
  id := id_; data := ∅; state := StateActive; createdAt := now;
  expiresAt := if 0 <? ttl then time_add now ttl else time_zero |}.

Definition with_data (d : gmap string json) (s : session) : session := {|
  id := id s; data := d; state := state s; createdAt := createdAt s; expiresAt := expiresAt s |}.
Definition session_Get (key : string) (s : session) : option json := data s !! key.
Definition session_Set (key : string) (val : json) (s : session) : session :=
  with_data (<[key := val]> (data s)) s.
Definition session_Delete (key : string) (s : session) : session := with_data (delete key (data s)) s.
Definition session_Close (s : session) : session := {|
  id := id s; data := data s; state := StateClosed; createdAt := createdAt s;
  expiresAt := expiresAt s |}.
Definition isExpired (now : time) (s : session) : bool :=
  if time_is_zero (expiresAt s) then false else time_after now (expiresAt s).
Definition refresh (ttl : duration) (now : time) (s : session) : session :=
  if 0 <? ttl then {|
    id := id s; data := data s; state := state s; createdAt := createdAt s;
    expiresAt := time_add now ttl |} else s.

(** Session objects are shared by address. *)
Record Heap := { cell : nat → session; next : nat }.
Definition alloc (s : session) (h : Heap) : nat * Heap :=
  (next h, {| cell := λ q, if decide (q = next h) then s else cell h q; next := S (next h) |}).
Definition update (p : nat) (f : session → session) (h : Heap) : Heap :=
  {| cell := λ q, if decide (q = p) then f (cell h q) else cell h q; next := next h |}.

(** ** The store interface *)
Class SessionStore (T : Type) := {
  Create : random → time → T → Heap → (error + nat) * T * Heap;
  Get : time → string → T → Heap → (error + option nat) * T * Heap;
  Delete : string → T → option error * T;
  Refresh : time → string → T → Heap → option error * T * Heap
}.

(** A live store hands out the objects it keeps: what is written through a session
    is seen by the next [Get]. *)
Class LiveStore (T : Type) `{!SessionStore T} := {
  knows : T → string → nat → Prop;
  lifetime : T → duration;
  get_known t i p now h :
    knows t i p → isExpired now (cell h p) = false → Get now i t h = (inr (Some p), t, h);
  create_known t i now h :
    ∃ t', Create (inr i) now t h = (inr (next h), t', (alloc (newSession i (lifetime t) now) h).2) ∧
      knows t' i (next h);
  create_fails t e now h : Create (inl e) now t h = (inl e, t, h);
  delete_forgets t i now h :
    ∃ t', Delete i t = (None, t') ∧ (Get now i t' h).1.1 = inr None
}.

(** ** The in-memory store *)
Record MemStore := { sessions : gmap string nat; TTL : duration; done_ : bool }.
Definition NewMemStore (ttl : duration) : MemStore := {| sessions := ∅; TTL := ttl; done_ := false |}.
Definition set_sessions (m : gmap string nat) (ms : MemStore) : MemStore :=
  {| sessions := m; TTL := TTL ms; done_ := done_ ms |}.

(** How often the sweeper runs; zero means never. *)
Definition eviction_interval (ttl interval : duration) : duration :=
  if (interval =? 0) && (0 <? ttl) then Z.max (Z.quot ttl 2) Millisecond else Z.max interval 0.

Definition Mem_Create (gen : random) (now : time) (ms : MemStore) (h : Heap) :
    (error + nat) * MemStore * Heap :=
  match gen with
  | inl err => (inl err, ms, h)
  | inr i =>
      let '(p, h') := alloc (newSession i (TTL ms) now) h in
      (inr p, set_sessions (<[i := p]> (sessions ms)) ms, h')
  end.

Definition Mem_Get (now : time) (i : string) (ms : MemStore) (h : Heap) :
    (error + option nat) * MemStore * Heap :=
  match sessions ms !! i with
  | None => (inr None, ms, h)
  | Some p =>
      if isExpired now (cell h p) then (inr None, set_sessions (delete i (sessions ms)) ms, h)
      else (inr (Some p), ms, h)
  end.

Definition Mem_Delete (i : string) (ms : MemStore) : option error * MemStore :=
  (None, set_sessions (delete i (sessions ms)) ms).

Definition Mem_Refresh (now : time) (i : string) (ms : MemStore) (h : Heap) :
    option error * MemStore * Heap :=
  match sessions ms !! i with
  | None => (Some (Err "session not found"), ms, h)
  | Some p => (None, ms, update p (refresh (TTL ms) now) h)
  end.

Definition Evict (now : time) (ms : MemStore) (h : Heap) : MemStore :=
  set_sessions (filter (λ ip : string * nat, isExpired now (cell h ip.2) = false) (sessions ms)) ms.

Definition Mem_Len (ms : MemStore) : Z := Z.of_nat (size (sessions ms)).
Definition Mem_Close (ms : MemStore) : MemStore :=
  {| sessions := sessions ms; TTL := TTL ms; done_ := true |}.

#[export] Instance mem_store : SessionStore MemStore := {|
  Create := Mem_Create; Get := Mem_Get; Delete := Mem_Delete; Refresh := Mem_Refresh |}.

#[export] Instance mem_store_live : LiveStore MemStore.
Proof.
  refine {| knows := λ t i p, sessions t !! i = Some p; lifetime := TTL |}.
  - intros t i p now h Hk He. cbn. unfold Mem_Get. by rewrite Hk, He.
  - intros t i now h. eexists. split; [done|]. cbn. apply lookup_insert_eq.
  - done.
  - intros t i now h. eexists. split; [done|]. cbn. unfold Mem_Get. cbn. by rewrite lookup_delete_eq.
Defined.

(** ** Eviction policies (eviction.go) *)
Inductive EvictionPolicy :=
| TTLPolicy (ttl : duration)
| IdlePolicy
| StatePolicy
| CompositePolicy (policies : list EvictionPolicy).

Fixpoint ShouldEvict (now : time) (p : EvictionPolicy) (s : session) : bool :=
  match p with
  | TTLPolicy ttl => if ttl <=? 0 then false else ttl <? time_sub now (createdAt s)
  | IdlePolicy => isExpired now s
  | StatePolicy => bool_decide (state s = StateExpired) || bool_decide (state s = StateClosed)
  | CompositePolicy ps => existsb (λ p, ShouldEvict now p s) ps
  end.

Fixpoint RunEviction `{SessionStore T} (now : time) (h : Heap) (list_ : list nat) (policy : EvictionPolicy)
    (t : T) : option error * T :=
  match list_ with
  | [] => (None, t)
  | p :: rest =>
      if ShouldEvict now policy (cell h p)
      then match Delete (id (cell h p)) t with
           | (Some err, t') => (Some err, t')
           | (None, t') => RunEviction now h rest policy t'
           end
      else RunEviction now h rest policy t
  end.

(** ** Snapshots and Redis (external.go, redis.go) *)
Record SerializableSession := {
  ss_ID : string; ss_Data : gmap string json; ss_State : State; ss_CreatedAt : time; ss_ExpiresAt : time
}.
Definition Snapshot (s : session) : SerializableSession := {|
  ss_ID := id s; ss_Data := data s; ss_State := state s; ss_CreatedAt := createdAt s;
  ss_ExpiresAt := expiresAt s |}.
Definition Restore (ss : SerializableSession) : session := {|
  id := ss_ID ss; data := ss_Data ss; state := ss_State ss; createdAt := ss_CreatedAt ss;
  expiresAt := ss_ExpiresAt ss |}.

Definition ErrNotFound : error := ErrSentinel "session.ErrNotFound" "session: not found".

(** The commands a Redis client offers, on a client state [R]. *)
Class RedisAdapter (R : Type) := {
  redis_Set : string → string → duration → R → option error * R;
  redis_Get : string → R → error + string;
  redis_Del : string → R → option error * R;
  redis_Expire : string → duration → R → option error * R;
  redis_Ping : R → option error
}.

(** The zone of the process, in minutes east of UTC at an instant, and the text of encoding/json's errors. *)
Class Process := { zone : time → Z; decode_error : string → error }.

(** ** Snapshots as JSON *)
Section Encoding.
Context `{!Process}.
(** The zero time is in UTC. *)
Definition stamp (t : time) : Stamp := {| instant := t; offset := if time_is_zero t then 0 else zone t |}.
Definition state_int (s : State) : Z := match s with StateActive => 0 | StateClosed => 1 | StateExpired => 2 end.
Definition snapshot_json (ss : SerializableSession) : json := JObject (members [
  ("id", Some (JString (ss_ID ss))); ("data", Some (A2a.json_of_map (ss_Data ss))); ("state", Some (JNumber (itoa (state_int (ss_State ss)))));
  ("created_at", Some (time_json (stamp (ss_CreatedAt ss)))); ("expires_at", Some (time_json (stamp (ss_ExpiresAt ss))))]).
Definition marshal (ss : SerializableSession) : error + string :=
  if writable (stamp (ss_CreatedAt ss)) && writable (stamp (ss_ExpiresAt ss)) then inr (print true (snapshot_json ss))
  else inl (Err "json: error calling MarshalJSON for type time.Time").

(** A number that is none of the constants is refused here; the code keeps it. *)
Definition dec_session_state (old : State) (v : json) : option State :=
  z ← A2aRpc.dec_int (state_int old) v;
  if z =? 0 then Some StateActive else if z =? 1 then Some StateClosed else if z =? 2 then Some StateExpired else None.
Definition dec_instant (old : time) (v : json) : option time := instant <$> dec_stamp (stamp old) v.
Definition dec_snapshot : json → option SerializableSession := dec_struct (λ old l,
  i ← field dec_string (ss_ID old) "id" l;
  d ← field dec_value_map (ss_Data old) "data" l;
  st ← field dec_session_state (ss_State old) "state" l;
  c ← field dec_instant (ss_CreatedAt old) "created_at" l;
  e ← field dec_instant (ss_ExpiresAt old) "expires_at" l;
  Some {| ss_ID := i; ss_Data := d; ss_State := st; ss_CreatedAt := c; ss_ExpiresAt := e |})
  {| ss_ID := ""; ss_Data := ∅; ss_State := StateActive; ss_CreatedAt := time_zero; ss_ExpiresAt := time_zero |}.
Definition unmarshal (d : string) : error + SerializableSession :=
  match parse d ≫= dec_snapshot with Some ss => inr ss | None => inl (decode_error d) end.
End Encoding.

Section Redis.
Context {R : Type} `{!RedisAdapter R} `{!Process}.

(** [by_value]: the string client of redis.go, which has no EXPIRE or PING and
    compares errors by identity. *)
Record RedisStore := { client : R; redis_TTL : duration; keyPfx : string; by_value : bool }.
Definition NewRedisStore (c : R) (ttl : duration) (prefix : string) : RedisStore :=
  {| client := c; redis_TTL := ttl; by_value := false;
     keyPfx := if bool_decide (prefix = "") then "mcp:session:" else prefix |}.
(** The prefix is the last [WithPrefix] option, or the default. *)
Definition NewRedisStringStore (c : R) (ttl : duration) (prefix : option string) : RedisStore :=
  {| client := c; redis_TTL := ttl; by_value := true; keyPfx := default "mcp:session:" prefix |}.
Definition set_client (c : R) (r : RedisStore) : RedisStore :=
  {| client := c; redis_TTL := redis_TTL r; keyPfx := keyPfx r; by_value := by_value r |}.
Definition key (r : RedisStore) (i : string) : string := keyPfx r +:+ i.

Definition MarshalSession (s : session) : error + string := marshal (Snapshot s).
Definition UnmarshalSession (d : string) : error + session :=
  match unmarshal d with inl err => inl err | inr ss => inr (Restore ss) end.

Definition Save (s : session) (r : RedisStore) : option error * RedisStore :=
  match MarshalSession s with
  | inl err => (Some err, r)
  | inr d => let '(e, c) := redis_Set (key r (id s)) d (redis_TTL r) (client r) in (e, set_client c r)
  end.

(** A loaded session is a new object. *)
Definition Load (i : string) (r : RedisStore) (h : Heap) : (error + nat) * Heap :=
  match redis_Get (key r i) (client r) with
  | inl err => (inl err, h)
  | inr d => match UnmarshalSession d with
             | inl err => (inl err, h)
             | inr s => let '(p, h') := alloc s h in (inr p, h')
             end
  end.

Definition Redis_Create (gen : random) (now : time) (r : RedisStore) (h : Heap) :
    (error + nat) * RedisStore * Heap :=
  match gen with
  | inl err => (inl err, r, h)
  | inr i =>
      let s := newSession i (redis_TTL r) now in
      match Save s r with
      | (Some err, r') => (inl err, r', h)
      | (None, r') => let '(p, h') := alloc s h in (inr p, r', h')
      end
  end.

Definition is_not_found (r : RedisStore) (e : error) : bool :=
  if by_value r then bool_decide (e = ErrNotFound) else errors_is e ErrNotFound.

Definition Redis_Get (now : time) (i : string) (r : RedisStore) (h : Heap) :
    (error + option nat) * RedisStore * Heap :=
  match Load i r h with
  | (inl err, h') => if is_not_found r err then (inr None, r, h') else (inl err, r, h')
  | (inr p, h') => (inr (Some p), r, h')
  end.

Definition Redis_Delete (i : string) (r : RedisStore) : option error * RedisStore :=
  let '(e, c) := redis_Del (key r i) (client r) in (e, set_client c r).

Definition Redis_Refresh (now : time) (i : string) (r : RedisStore) (h : Heap) :
    option error * RedisStore * Heap :=
  if redis_TTL r =? 0 then (None, r, h)
  else if by_value r then
    match Load i r h with
    | (inl err, h') => (Some err, r, h')
    | (inr p, h') => let '(e, r') := Save (cell h' p) r in (e, r', h')
    end
  else let '(e, c) := redis_Expire (key r i) (redis_TTL r) (client r) in (e, set_client c r, h).

Definition Ping (r : RedisStore) : option error :=
  if by_value r then
    match redis_Get (keyPfx r +:+ "__ping__") (client r) with
    | inl err => if bool_decide (err = ErrNotFound) then None else Some err
    | inr _ => None
    end
  else redis_Ping (client r).

#[export] Instance redis_store : SessionStore RedisStore := {|
  Create := Redis_Create; Get := Redis_Get; Delete := Redis_Delete; Refresh := Redis_Refresh |}.
End Redis.
Arguments RedisStore : clear implicits.

(** ** Migration (migrate.go, migrate_stateful.go) *)
Definition MigrationFunc := nat → nat → Heap → option error * Heap.

Definition copy_key (old new_ : nat) (h : Heap) (k : string) : Heap :=
  match session_Get k (cell h old) with
  | Some v => update new_ (session_Set k v) h
  | None => h
  end.
Definition CopyKeys (keys : list string) : MigrationFunc :=
  λ old new_ h, (None, foldl (copy_key old new_) h keys).

Fixpoint apply_funcs (i : Z) (fns : list MigrationFunc) (old new_ : nat) (h : Heap) :
    option error * Heap :=
  match fns with
  | [] => (None, h)
  | fn :: fns =>
      match fn old new_ h with
      | (Some err, h') =>
          (Some (ErrWrap ("session migrate: migration func [" +:+ itoa i +:+ "]: ") err ""), h')
      | (None, h') => apply_funcs (i + 1) fns old new_ h'
      end
  end.

Section Migrate.
Context {S1 S2 : Type} `{!SessionStore S1} `{!SessionStore S2}.

Definition MigrateID (fns : list MigrationFunc) (now : time) (gen : random) (i : string)
    (src : S1) (dst : S2) (h : Heap) : (error + nat) * S1 * S2 * Heap :=
  match Get now i src h with
  | (inl err, src1, h1) =>
      (inl (ErrWrap ("session migrate: get source session " +:+ quote i +:+ ": ") err ""), src1, dst, h1)
  | (inr None, src1, h1) =>
      (inl (Err ("session migrate: source session " +:+ quote i +:+ " not found or expired")), src1, dst, h1)
  | (inr (Some old), src1, h1) =>
      match Create gen now dst h1 with
      | (inl err, dst1, h2) =>
          (inl (ErrWrap "session migrate: create destination session: " err ""), src1, dst1, h2)
      | (inr new_, dst1, h2) =>
          match apply_funcs 0 fns old new_ h2 with
          | (Some err, h3) => (inl err, src1, (Delete (id (cell h3 new_)) dst1).2, h3)
          | (None, h3) =>
              match Delete i src1 with
              | (Some err, src2) =>
                  (inl (ErrWrap ("session migrate: delete source session " +:+ quote i +:+ ": ") err ""),
                   src2, dst1, h3)
              | (None, src2) => (inr new_, src2, dst1, h3)
              end
          end
      end
  end.

(** [gens] are the random identifiers drawn, in the order the map is walked. *)
Fixpoint MigrateStatefulSessions (now : time) (legacy : list (string * list (string * json)))
    (gens : list random) (result : gmap string string) (store : S1) (h : Heap) :
    option error * gmap string string * S1 * Heap :=
  match legacy with
  | [] => (None, result, store, h)
  | (oldID, d) :: rest =>
      match Create (default (inl (Err "entropy")) (head gens)) now store h with
      | (inl err, store1, h1) => (Some err, result, store1, h1)
      | (inr p, store1, h1) =>
          let h2 := foldl (λ h (kv : string * json), update p (session_Set kv.1 kv.2) h) h1 d in
          MigrateStatefulSessions now rest (tail gens) (<[oldID := id (cell h2 p)]> result) store1 h2
      end
  end.

(** ** The HTTP middleware (middleware.go)

    What the handler is given: a session, whether a cookie is set, or a refusal. *)
Inductive served :=
| Serve (sess : option nat) (set_cookie : option string)
| Refuse (status : Z) (text : string).

Definition MiddlewareWithCookie (now : time) (gen : random) (cookie : option string)
    (store : S1) (h : Heap) : served * S1 * Heap :=
  let '(found, store1, h1) :=
    match cookie with
    | Some value =>
        if bool_decide (value = "") then (None, store, h)
        else match Get now value store h with
             | (inr (Some p), s1, h1) => (Some p, s1, h1)
             | (_, s1, h1) => (None, s1, h1)
             end
    | None => (None, store, h)
    end in
  match found with
  | Some p => (Serve (Some p) None, store1, h1)
  | None =>
      match Create gen now store1 h1 with
      | (inl _, store2, h2) => (Refuse 500 "session error", store2, h2)
      | (inr p, store2, h2) => (Serve (Some p) (Some (id (cell h2 p))), store2, h2)
      end
  end.

(** The header first, then the cookie, then the query parameter, each optional. *)
Definition first_token (header cookie query : option string) : string :=
  let token := default "" header in
  let token := if bool_decide (token = "") then default "" cookie else token in
  if bool_decide (token = "") then default "" query else token.

Definition TokenMiddleware (now : time) (header cookie query : option string) (store : S1) (h : Heap) :
    served * S1 * Heap :=
  let token := first_token header cookie query in
  if bool_decide (token = "") then (Serve None None, store, h)
  else match Get now token store h with
       | (inr (Some p), s1, h1) => (Serve (Some p) None, s1, h1)
       | (_, s1, h1) => (Serve None None, s1, h1)
       end.

Definition RequireSession (s : served) : served :=
  match s with
  | Serve None _ => Refuse 401 "session required"
  | _ => s
  end.
End Migrate.

(** ** Snapshots *)
Lemma restore_snapshot s : Restore (Snapshot s) = s.
Proof. by destruct s. Qed.

(** A client that keeps what it is given, as Redis documents, for a key not yet expired. *)
Class LawfulRedis (R : Type) `{!RedisAdapter R} : Prop := {
  redis_get_set k v ttl r r' : redis_Set k v ttl r = (None, r') → redis_Get k r' = inr v
}.

(** The values of a session as they are read back: numbers as [float64]s. *)
Definition decoded (s : session) : option (gmap string json) := dec_value_map ∅ (A2a.json_of_map (data s)).
Lemma decoded_held s : held_map (data s) → decoded s = Some (data s).
Proof. apply dec_value_map_json. Qed.

Section Codec.
Context `{!Process}.
(** Text in UTF-8, nested at most 10,000 deep. *)
Definition plain (s : session) : bool := well_formed 0 (snapshot_json (Snapshot s)) && all_valid (snapshot_json (Snapshot s)).
Lemma dec_instant_back t : writable (stamp t) = true → dec_instant time_zero (time_json (stamp t)) = Some t.
Proof. intros Ht. unfold dec_instant, time_json. cbn [dec_stamp]. by rewrite parse_format_rfc3339. Qed.
Lemma unmarshal_marshal s text d : plain s = true → MarshalSession s = inr text → decoded s = Some d →
  UnmarshalSession text = inr (with_data d s).
Proof.
  intros [Hw Hv]%andb_true_iff Hm Hd. unfold MarshalSession, marshal in Hm.
  destruct (writable (stamp (ss_CreatedAt (Snapshot s))) && writable _) eqn:Et; [|done].
  assert (text = print true (snapshot_json (Snapshot s))) as -> by congruence. apply andb_true_iff in Et as [Hc He].
  unfold UnmarshalSession, unmarshal. rewrite parse_print, clean_valid by done. unfold dec_snapshot, snapshot_json.
  cbn [mbind option_bind dec_struct]. read_fields. cbn [read_member dec_string mbind option_bind ss_ID ss_Data ss_State ss_CreatedAt ss_ExpiresAt Snapshot].
  unfold decoded in Hd. rewrite Hd. cbn [mbind option_bind]. rewrite !dec_instant_back by done.
  by destruct s as [i dt [] c e].
Qed.
End Codec.


(** ** The sweep and the lazy deletion are invisible to readers *)
Lemma isExpired_mono now now' s : now <= now' → isExpired now s = true → isExpired now' s = true.
Proof. unfold isExpired, time_after. case_match; [done|]. intros. to_prop. apply Z.ltb_lt. lia. Qed.

Lemma Evict_lookup now ms h i : sessions (Evict now ms h) !! i =
  match sessions ms !! i with
  | Some p => if isExpired now (cell h p) then None else Some p
  | None => None
  end.
Proof.
  unfold Evict. cbn [sessions set_sessions]. apply option_eq. intros p.
  rewrite map_lookup_filter_Some. cbn [snd]. destruct (sessions ms !! i) as [q|]; [|naive_solver].
  destruct (isExpired now (cell h q)) eqn:E; naive_solver congruence.
Qed.

(** The store serves a session exactly while it is stored and not past its expiry;
    whether the sweeper or an earlier lookup has already dropped an expired session
    makes no difference to any later lookup, and closing a session does not stop the
    store from serving it. *)
Theorem mem_store_serves_live_sessions now now' ms h i j :
  now <= now' →
  (Mem_Get now i ms h).1.1 =
    inr (match sessions ms !! i with
         | Some p => if isExpired now (cell h p) then None else Some p
         | None => None
         end) ∧
  (Mem_Get now' j (Evict now ms h) h).1.1 = (Mem_Get now' j ms h).1.1 ∧
  (Mem_Get now' j (Mem_Get now i ms h).1.2 h).1.1 = (Mem_Get now' j ms h).1.1 ∧
  (∀ p, (Mem_Get now i ms (update p session_Close h)).1.1 = (Mem_Get now i ms h).1.1).
Proof.
  intros Hle. split; [|split; [|split]].
  - unfold Mem_Get. destruct (sessions ms !! i); [|done]. by case_match.
  - unfold Mem_Get. rewrite Evict_lookup. destruct (sessions ms !! j) as [p|]; [|done].
    destruct (isExpired now (cell h p)) eqn:E; [|by case_match].
    by rewrite (isExpired_mono _ _ _ Hle E).
  - unfold Mem_Get at 2. destruct (sessions ms !! i) as [p|] eqn:Ei; [|done].
    destruct (isExpired now (cell h p)) eqn:E; [|done]. cbn [fst snd]. unfold Mem_Get.
    cbn [sessions set_sessions]. destruct (decide (i = j)) as [->|Hne].
    + rewrite lookup_delete_eq, Ei. by rewrite (isExpired_mono _ _ _ Hle E).
    + rewrite lookup_delete_ne by done. destruct (sessions ms !! j) as [q|]; [|done].
      by destruct (isExpired now' (cell h q)).
  - intros p. unfold Mem_Get. destruct (sessions ms !! i) as [q|]; [|done].
    replace (isExpired now (cell (update p session_Close h) q)) with (isExpired now (cell h q));
      [by case_match|]. cbn. by case_decide.
Qed.

(** No operation ever puts a session in the expired state; a refresh revives an
    expired session that the sweeper has not reached yet. *)
Lemma refresh_revives_expired :
  let h := (alloc (newSession "a" 10 0) {| cell := λ _, newSession "" 0 0; next := 0 |}).2 in
  let ms := set_sessions {["a" := 0%nat]} (NewMemStore 10) in
  isExpired 20 (cell h 0) = true ∧
  (let '(e, ms', h') := Mem_Refresh 20 "a" ms h in
   e = None ∧ (Mem_Get 21 "a" ms' h').1.1 = inr (Some 0%nat)) ∧
  (Mem_Refresh 20 "a" (Evict 20 ms h) h).1.1 = Some (Err "session not found").
Proof. by vm_compute. Qed.

(** ** Migration between live stores *)
Lemma cell_alloc s h q : cell (alloc s h).2 q = if decide (q = next h) then s else cell h q.
Proof. done. Qed.
Lemma cell_update p f h q : cell (update p f h) q = if decide (q = p) then f (cell h q) else cell h q.
Proof. done. Qed.

Lemma CopyKeys_spec keys old new_ h : old ≠ new_ →
  let h' := (CopyKeys keys old new_ h).2 in
  (∀ k, data (cell h' new_) !! k =
     if decide (k ∈ keys) then match data (cell h old) !! k with Some v => Some v | None => data (cell h new_) !! k end
     else data (cell h new_) !! k) ∧
  id (cell h' new_) = id (cell h new_) ∧ expiresAt (cell h' new_) = expiresAt (cell h new_) ∧
  (∀ q, q ≠ new_ → cell h' q = cell h q).
Proof.
  intros Hne. cbn [CopyKeys snd]. revert h. induction keys as [|k0 keys IH]; intros h.
  { cbn. split; [intros k; by rewrite decide_False by (apply not_elem_of_nil)|done]. }
  cbn [foldl]. destruct (IH (copy_key old new_ h k0)) as (Hd & Hi & He & Hq).
  assert (Hold : cell (copy_key old new_ h k0) old = cell h old).
  { unfold copy_key. case_match; [|done]. by rewrite cell_update, decide_False. }
  assert (Hnew : data (cell (copy_key old new_ h k0) new_) =
    match data (cell h old) !! k0 with
    | Some v => <[k0 := v]> (data (cell h new_)) | None => data (cell h new_) end).
  { unfold copy_key, session_Get. case_match; [|done]. by rewrite cell_update, decide_True. }
  assert (Hrest : id (cell (copy_key old new_ h k0) new_) = id (cell h new_) ∧
    expiresAt (cell (copy_key old new_ h k0) new_) = expiresAt (cell h new_) ∧
    ∀ q, q ≠ new_ → cell (copy_key old new_ h k0) q = cell h q).
  { unfold copy_key. destruct (session_Get k0 (cell h old)); [|done]. rewrite cell_update, decide_True by done.
    split; [done|]. split; [done|]. intros q Hqn. by rewrite cell_update, decide_False. }
  destruct Hrest as (Hi1 & He1 & Hq1). split; [|split; [congruence|split; [congruence|]]].
  - intros k. rewrite Hd, Hold, Hnew. destruct (decide (k = k0)) as [->|Hk].
    + rewrite (decide_True (P := k0 ∈ k0 :: keys)) by left.
      destruct (data (cell h old) !! k0); [rewrite lookup_insert_eq|]; by case_decide.
    + assert (Hiff : k ∈ k0 :: keys ↔ k ∈ keys) by (rewrite elem_of_cons; naive_solver).
      destruct (data (cell h old) !! k0); rewrite ?lookup_insert_ne by done;
        repeat case_decide; naive_solver.
  - intros q Hqn. by rewrite Hq, Hq1.
Qed.

Section MigrateProperties.
Context {S1 S2 : Type} `{!SessionStore S1} `{!SessionStore S2} `{!LiveStore S1} `{!LiveStore S2}.

(** A migration function works on the new session's data. *)
Definition quiet (fn : MigrationFunc) : Prop := ∀ old new_ h, old ≠ new_ →
  let h' := (fn old new_ h).2 in
  id (cell h' new_) = id (cell h new_) ∧ cell h' old = cell h old.

Lemma apply_funcs_quiet i fns old new_ h : old ≠ new_ → Forall quiet fns →
  let h' := (apply_funcs i fns old new_ h).2 in
  id (cell h' new_) = id (cell h new_) ∧ cell h' old = cell h old.
Proof.
  intros Hne HF. revert i h. induction HF as [|fn fns Hfn HF IH]; intros i h; [done|].
  cbn [apply_funcs]. pose proof (Hfn old new_ h Hne) as [H1 H2].
  destruct (fn old new_ h) as [[err|] h1]; [done|]. cbn [snd] in *.
  destruct (IH (i + 1) h1) as [H3 H4]. split; congruence.
Qed.

(** Against any pair of stores that hand out the sessions they keep, migrating a
    stored session is all or nothing: when every function succeeds the session is
    gone from the source and the destination serves the new one under its fresh
    identifier; when one fails the destination does not serve it and the source
    still serves the old one, unchanged. *)
Theorem migration_all_or_nothing (src : S1) (dst : S2) fns now i j p h :
  knows src i p → isExpired now (cell h p) = false → p ≠ next h → Forall quiet fns →
  let h2 := (alloc (newSession j (lifetime dst) now) h).2 in
  let '(r, src', dst', h') := MigrateID fns now (inr j) i src dst h in
  h' = (apply_funcs 0 fns p (next h) h2).2 ∧ cell h' p = cell h p ∧
  match (apply_funcs 0 fns p (next h) h2).1 with
  | None => r = inr (next h) ∧ id (cell h' (next h)) = j ∧
      (Get now i src' h').1.1 = inr None ∧
      ∀ now', isExpired now' (cell h' (next h)) = false →
        (Get now' j dst' h').1.1 = inr (Some (next h))
  | Some err => r = inl err ∧ (Get now j dst' h').1.1 = inr None ∧
      (Get now i src' h').1.1 = inr (Some p)
  end.
Proof.
  intros Hk He Hp HF h2. unfold MigrateID. rewrite (get_known _ _ _ _ _ Hk He).
  destruct (create_known dst j now h) as (dst1 & -> & Hk2). fold h2.
  destruct (apply_funcs_quiet 0 fns p (next h) h2 Hp HF) as [Hi Ho].
  assert (Hold : cell h2 p = cell h p) by (unfold h2; by rewrite cell_alloc, decide_False).
  assert (Hnew : id (cell h2 (next h)) = j) by (unfold h2; by rewrite cell_alloc, decide_True).
  destruct (apply_funcs 0 fns p (next h) h2) as [[err|] h3]; cbn [fst snd] in *.
  - split; [done|]. split; [congruence|]. split; [done|]. rewrite Hi, Hnew.
    destruct (delete_forgets dst1 j now h3) as (dst2 & -> & Hg). split; [done|].
    rewrite (get_known _ _ p); [done|done|]. by rewrite Ho, Hold.
  - destruct (delete_forgets src i now h3) as (src2 & -> & Hg).
    split; [done|]. split; [congruence|]. split; [done|]. split; [congruence|]. split; [done|].
    intros now' Hl. by rewrite (get_known _ _ (next h)).
Qed.

(** The HTTP middleware never adopts an identifier of the client's choosing: the
    session it serves is the one stored under the cookie, or a new one whose random
    identifier it sends back. *)
Theorem cookie_never_fixes_session (store : S1) now j cookie h :
  let '(r, _, h') := MiddlewareWithCookie now (inr j) cookie store h in
  (∃ v p, cookie = Some v ∧ v ≠ "" ∧ (Get now v store h).1.1 = inr (Some p) ∧ r = Serve (Some p) None) ∨
  (∃ p, r = Serve (Some p) (Some j) ∧ id (cell h' p) = j ∧ data (cell h' p) = ∅ ∧
     ∀ v q, cookie = Some v → v ≠ "" → (Get now v store h).1.1 ≠ inr (Some q)).
Proof.
  assert (Hnew : ∀ (s1 : S1) h1, ∃ s2 h2, Create (inr j) now s1 h1 = (inr (next h1), s2, h2) ∧
    id (cell h2 (next h1)) = j ∧ data (cell h2 (next h1)) = ∅).
  { intros s1 h1. destruct (create_known s1 j now h1) as (s2 & -> & _). eexists _, _.
    split; [done|]. by rewrite cell_alloc, decide_True. }
  unfold MiddlewareWithCookie. destruct cookie as [v|]; [case_bool_decide as Ev|].
  - destruct (Hnew store h) as (s2 & h2 & -> & Hi & Hd). right. exists (next h).
    rewrite Hi. repeat (split; [done|]). naive_solver.
  - destruct (Get now v store h) as [[[err|[p|]] s1] h1] eqn:Eg.
    + destruct (Hnew s1 h1) as (s2 & h2 & -> & Hi & Hd). right. exists (next h1).
      rewrite Hi. repeat (split; [done|]). intros v' q [= <-] _. by rewrite Eg.
    + left. exists v, p. by rewrite Eg.
    + destruct (Hnew s1 h1) as (s2 & h2 & -> & Hi & Hd). right. exists (next h1).
      rewrite Hi. repeat (split; [done|]). intros v' q [= <-] _. by rewrite Eg.
  - destruct (Hnew store h) as (s2 & h2 & -> & Hi & Hd). right. exists (next h).
    by rewrite Hi.
Qed.
End MigrateProperties.

(** ** Witnesses *)
Definition no_heap : Heap := {| cell := λ _, newSession "" 0 0; next := 0 |}.
(** A store with the session "a" holding a cart. *)
Definition cart_heap : Heap := update 0 (session_Set "cart" (JNumber "3")) (alloc (newSession "a" 10 0) no_heap).2.
Definition cart_store : MemStore := set_sessions {["a" := 0%nat]} (NewMemStore 10).

Lemma mem_store_serves_live_sessions_witness :
  (Mem_Get 20 "a" (Evict 11 cart_store cart_heap) cart_heap).1.1 = (Mem_Get 20 "a" cart_store cart_heap).1.1 ∧
  (Mem_Get 5 "a" cart_store cart_heap).1.1 = inr (Some 0%nat).
Proof.
  split; [|by vm_compute].
  apply (mem_store_serves_live_sessions 11 20 cart_store cart_heap "a" "a"). lia.
Defined.

Lemma migration_all_or_nothing_witness :
  let '(r, src', dst', h') := MigrateID [CopyKeys ["cart"]] 1 (inr "b") "a" cart_store (NewMemStore 0) cart_heap in
  r = inr 1%nat ∧ (Get 1 "a" src' h').1.1 = inr None ∧ (Get 9 "b" dst' h').1.1 = inr (Some 1%nat) ∧
  data (cell h' 1) !! "cart" = Some (JNumber "3").
Proof.
  pose proof (migration_all_or_nothing cart_store (NewMemStore 0) [CopyKeys ["cart"]] 1 "a" "b" 0 cart_heap) as H.
  destruct (MigrateID _ _ _ _ _ _ _) as [[[r src'] dst'] h'].
  destruct H as (-> & _ & H & _ & Hg & Hd).
  - reflexivity.
  - reflexivity.
  - discriminate.
  - apply Forall_cons_2; [|by apply Forall_nil_2]. intros old new_ h Hne.
    destruct (CopyKeys_spec ["cart"] old new_ h Hne) as (_ & Hi & _ & Hq). split; [exact Hi|by apply Hq].
  - split; [exact H|]. split; [exact Hg|]. split; [apply Hd; reflexivity|]. by vm_compute.
Defined.

(** A client that is a map, in a zone two hours east of UTC. *)
#[local] Instance map_redis : RedisAdapter (gmap string string) := {|
  redis_Set k v _ r := (None, <[k := v]> r);
  redis_Get k r := match r !! k with Some v => inr v | None => inl ErrNotFound end;
  redis_Del k r := (None, delete k r);
  redis_Expire _ _ r := (None, r);
  redis_Ping _ := None |}.
#[local] Instance map_redis_lawful : LawfulRedis (gmap string string).
Proof. constructor. intros k v ttl r r' [= <-]. cbn. by rewrite lookup_insert_eq. Qed.

#[local] Instance demo_process : Process := {| zone _ := 120; decode_error := Err |}.
Definition map_store : RedisStore (gmap string string) := NewRedisStore ∅ 0 "".
Definition full_session : session := {|
  id := "n"; state := StateClosed; createdAt := unix_epoch + 1700000000123000000; expiresAt := time_zero;
  data := <["total" := JNumber "1.50"]> {["cart" := JArray [JNumber "3"; JString "<&>"; JNull]]} |}.

(** The Redis store is not live: what is written to a session after Create is lost
    unless it is saved again, and the migration of legacy sessions never saves. *)
Lemma stateful_migration_loses_data_on_redis :
  let '(e, ids, r, h) := MigrateStatefulSessions 0 [("old", [("cart", JNumber "3")])] [inr "n"] ∅
    map_store no_heap in
  e = None ∧ ids !! "old" = Some "n" ∧
  match (Get 1 "n" r h) with
  | (inr (Some p), _, h') => data (cell h' p) !! "cart" = None
  | _ => False
  end.
Proof. by vm_compute. Qed.

Lemma stateful_migration_keeps_data_in_memory :
  let '(_, ids, ms, h) := MigrateStatefulSessions 0 [("old", [("cart", JNumber "3")])] [inr "n"] ∅
    (NewMemStore 0) no_heap in
  match (Get 1 "n" ms h) with
  | (inr (Some p), _, h') => data (cell h' p) !! "cart" = Some (JNumber "3")
  | _ => False
  end.
Proof. by vm_compute. Qed.
