(* ===== verification/A2aClient.v ===== *)
(** Using other agents (src/a2a/bridge.go, auth_interceptor.go, ratelimit_interceptor.go, agentcard.go, compat.go): the tool
    that sends a task to another agent and waits for its end, credentials, one token bucket per agent, and agent
    cards made from a registry and for the official SDK, of whose card only the fields that are used are modelled. *)

From stdpp Require Import base tactics list gmap strings.
From Stdlib Require Import ZArith Lia.
From S2P Require Import Prelude Float A2aServer A2aRpc.
From S2P Require RateLimit Registry Tool.

Local Open Scope Z_scope.

(** ** The tool (bridge.go) *)
Record BridgeToolInput := { AgentURL : string; i_Message : string; i_TaskID : string; Wait : bool }.
Record BridgeToolOutput := {
  TaskID : string; o_State : TaskState; o_AgentURL : string; Response : string; o_Artifacts : list string; Error : string }.

Definition last_agent (messages : list Message) : option Message := last (filter (λ m, Role m = "agent") messages).
Definition first_text (parts : list Part) : string :=
  match list_find (λ p, p_Type p = "text" ∧ p_Text p ≠ "") parts with Some (_, p) => p_Text p | None => "" end.
Definition taskToOutput (task : Task) (url : string) : BridgeToolOutput := {|
  TaskID := t_ID task; o_State := State task; o_AgentURL := url;
  Response := match last_agent (Messages task) with Some m => first_text (Parts m) | None => "" end;
  o_Artifacts := map a_Name (Artifacts task); Error := "" |}.
Definition failed_output (id : string) (state : TaskState) (url text : string) : BridgeToolOutput :=
  {| TaskID := id; o_State := state; o_AgentURL := url; Response := ""; o_Artifacts := []; Error := text |}.

(** What the tool needs of a client. *)
Class TaskClient (W : Type) := {
  send_task : TaskSendParams → W → (string + Task) * W;
  get_task : string → W → (string + Task) * W
}.
(** A wait: the world two seconds on, or when the context is done first. *)
Inductive Wake (W : Type) := Elapsed (later : W → W) | Done (later : W → W).
Arguments Elapsed {W}. Arguments Done {W}.
Section Tool.
Context `{TaskClient W}.
(** [None]: still waiting when the list of wakes ends. *)
Fixpoint poll (id url : string) (wakes : list (Wake W)) (task : Task) (w : W) : option BridgeToolOutput * W :=
  if IsTerminal (State task) then (Some (taskToOutput task url), w) else
  match wakes with
  | [] => (None, w)
  | Done later :: _ => (Some (failed_output id TaskCanceled url "context canceled while waiting"), later w)
  | Elapsed later :: wakes =>
      match get_task id (later w) with
      | (inl err, w) => (Some (failed_output id TaskFailed url ("poll failed: " +:+ err)), w)
      | (inr task, w) => poll id url wakes task w
      end
  end.
Definition bridge_params (input : BridgeToolInput) (uuid : string) : TaskSendParams := {|
  sp_ID := if bool_decide (i_TaskID input = "") then uuid else i_TaskID input;
  sp_Messages := [{| Role := "user"; Parts := [TextPart (i_Message input)] |}]; sp_Metadata := ∅; PushNotification := None |}.
Definition a2a_send_task (input : BridgeToolInput) (uuid : string) (wakes : list (Wake W)) (w : W) : option BridgeToolOutput * W :=
  let params := bridge_params input uuid in
  match send_task params w with
  | (inl err, w) => (Some (failed_output (sp_ID params) TaskFailed (AgentURL input) err), w)
  | (inr task, w) =>
      if Wait input then poll (sp_ID params) (AgentURL input) wakes task w else (Some (taskToOutput task (AgentURL input)), w)
  end.
End Tool.

(** ** Credentials (auth_interceptor.go) *)
Inductive CredentialType := CredentialBearer | CredentialAPIKey | CredentialOAuth2 | OtherCredential (n : Z).
Record Credential := { Type_ : CredentialType; Value : string; Header : string }.
Local Notation AuthInterceptor := (gmap string Credential).
Definition SetCredential (agentURL : string) (cred : Credential) (ai : AuthInterceptor) : AuthInterceptor := <[agentURL := cred]> ai.
Definition RemoveCredential (agentURL : string) (ai : AuthInterceptor) : AuthInterceptor := delete agentURL ai.
(** The header that is set, if any. *)
Definition Apply (host url : string) (ai : AuthInterceptor) : string + option (string * string) :=
  match (match ai !! host with Some c => Some c | None => ai !! url end) with
  | None => inr None
  | Some cred =>
      match Type_ cred with
      | CredentialBearer | CredentialOAuth2 => inr (Some ("Authorization", "Bearer " +:+ Value cred))
      | CredentialAPIKey => inr (Some (if bool_decide (Header cred = "") then "X-API-Key" else Header cred, Value cred))
      | OtherCredential n => inl ("unknown credential type: " +:+ itoa n)
      end
  end.

(** ** One token bucket per agent (ratelimit_interceptor.go) *)
Record RateLimitConfig := { DefaultRate : float64; DefaultBurst : Z }.
Record tokenBucket := { rate : float64; burst : Z; tokens : float64; lastTime : time }.
Definition newTokenBucket (rate : float64) (burst : Z) (now : time) : tokenBucket :=
  {| rate := rate; burst := burst; tokens := float_of_int burst; lastTime := now |}.
Definition allow (now : time) (tb : tokenBucket) : bool * tokenBucket :=
  let elapsed := RateLimit.Seconds (time_sub now (lastTime tb)) in
  let t := float_add (tokens tb) (float_mul elapsed (rate tb)) in
  let t := if float_lt (float_of_int (burst tb)) t then float_of_int (burst tb) else t in
  if float_le (float_of_int 1) t
  then (true, {| rate := rate tb; burst := burst tb; tokens := float_sub t (float_of_int 1); lastTime := now |})
  else (false, {| rate := rate tb; burst := burst tb; tokens := t; lastTime := now |}).
Record RateLimitInterceptor := { limiters : gmap string tokenBucket; config : RateLimitConfig }.
Definition NewRateLimitInterceptor (cfg : RateLimitConfig) : RateLimitInterceptor := {|
  limiters := ∅;
  config := {| DefaultRate := if float_le (DefaultRate cfg) (float_of_int 0) then float_of_int 10 else DefaultRate cfg;
               DefaultBurst := if (DefaultBurst cfg <=? 0) then 20 else DefaultBurst cfg |} |}.
(** [created] and [now]: the clock at the making of a bucket and at its use. *)
Definition Allow (agentURL : string) (created now : time) (r : RateLimitInterceptor) : bool * RateLimitInterceptor :=
  let tb := default (newTokenBucket (DefaultRate (config r)) (DefaultBurst (config r)) created) (limiters r !! agentURL) in
  let '(ok, tb) := allow now tb in (ok, {| limiters := <[agentURL := tb]> (limiters r); config := config r |}).
Definition SetAgentRate (agentURL : string) (rate : float64) (burst : Z) (now : time) (r : RateLimitInterceptor) : RateLimitInterceptor :=
  {| limiters := <[agentURL := newTokenBucket rate burst now]> (limiters r); config := config r |}.

(** ** Agent cards (agentcard.go, compat.go) *)
Record Provider := { Organization : string; p_URL : string }.
Record Capabilities := { Streaming : bool; PushNotifications : bool; StateTransitionHistory : bool }.
Record Skill := { sk_ID : string; sk_Name : string; sk_Description : string; sk_Tags : list string; Examples : list string }.
Record AgentCard := {
  c_Name : string; c_Description : string; c_URL : string; Version : string; c_Provider : option Provider;
  c_Capabilities : option Capabilities; Skills : list Skill; Auth : option (list string) }.
Record cardConfig := {
  name : string; description : string; url : string; version : string; organization : string; providerURL : string;
  streaming : bool; pushNotifications : bool; authSchemes : option (list string) }.
Inductive CardOption :=
| WithName (name : string) | WithDescription (desc : string) | WithURL (url : string) | WithVersion (version : string)
| WithOrganization (org url : string) | WithStreaming | WithPushNotifications | WithAuth (schemes : list string).
Definition apply_option (c : cardConfig) (o : CardOption) : cardConfig :=
  let '{| name := n; description := d; url := u; version := v; organization := g; providerURL := p; streaming := s;
          pushNotifications := b; authSchemes := a |} := c in
  match o with
  | WithName n => Build_cardConfig n d u v g p s b a
  | WithDescription d => Build_cardConfig n d u v g p s b a
  | WithURL u => Build_cardConfig n d u v g p s b a
  | WithVersion v => Build_cardConfig n d u v g p s b a
  | WithOrganization g p => Build_cardConfig n d u v g p s b a
  | WithStreaming => Build_cardConfig n d u v g p true b a
  | WithPushNotifications => Build_cardConfig n d u v g p s true a
  | WithAuth schemes => Build_cardConfig n d u v g p s b (match schemes with [] => None | _ => Some schemes end)
  end.
Definition default_card_config : cardConfig := Build_cardConfig "mcpkit-agent" "" "" "1.0.0" "" "" false false None.

Section Cards.
Context {Ctx Req W : Type}.
Local Abbreviation TD := (@Registry.TD Ctx Req W).
(** The tools of the catalog with their categories, in the order in which the maps happen to be walked. *)
Definition catalog_entries (catalog : gmap string (gmap string (list TD))) : list (string * TD) :=
  c ← map_to_list catalog; g ← map_to_list c.2; td ← g.2; [(c.1, td)].
Definition skill_of (entry : string * TD) : Skill :=
  let '(category, td) := entry in {|
  sk_ID := Tool.Name (Tool.td_Tool td); sk_Name := Tool.Name (Tool.td_Tool td); sk_Description := Tool.Description (Tool.td_Tool td);
  sk_Tags := (if bool_decide (category = "") then [] else [category]) ++ Tool.Tags td; Examples := [] |}.
Definition AgentCardFromRegistry (reg : @Registry.ToolRegistry Ctx Req W) (opts : list CardOption) : AgentCard :=
  let cfg := foldl apply_option default_card_config opts in {|
  c_Name := name cfg; c_Description := description cfg; c_URL := url cfg; Version := version cfg;
  c_Provider := if bool_decide (organization cfg = "") then None else Some {| Organization := organization cfg; p_URL := providerURL cfg |};
  c_Capabilities := Some {| Streaming := streaming cfg; PushNotifications := pushNotifications cfg; StateTransitionHistory := false |};
  Skills := map skill_of (catalog_entries (Registry.GetToolCatalog reg)); Auth := authSchemes cfg |}.
End Cards.

(** The fields of the SDK's card that the conversions use. *)
Record SDKSkill := { s_ID : string; s_Name : string; s_Description : string; s_Tags : list string }.
Record SDKAgentCard := {
  k_Name : string; k_Description : string; k_Version : string; k_Streaming : bool; k_PushNotifications : bool;
  k_Skills : list SDKSkill; SupportedInterfaces : list string }.
Definition ToSDKAgentCard (card : AgentCard) : SDKAgentCard := {|
  k_Name := c_Name card; k_Description := c_Description card; k_Version := Version card;
  k_Streaming := match c_Capabilities card with Some c => Streaming c | None => false end;
  k_PushNotifications := match c_Capabilities card with Some c => PushNotifications c | None => false end;
  k_Skills := map (λ s, {| s_ID := sk_ID s; s_Name := sk_Name s; s_Description := sk_Description s; s_Tags := sk_Tags s |}) (Skills card);
  SupportedInterfaces := if bool_decide (c_URL card = "") then [] else [c_URL card] |}.
Definition FromSDKAgentCard (card : SDKAgentCard) : AgentCard := {|
  c_Name := k_Name card; c_Description := k_Description card; c_URL := match SupportedInterfaces card with u :: _ => u | [] => "" end;
  Version := k_Version card; c_Provider := None;
  c_Capabilities := Some {| Streaming := k_Streaming card; PushNotifications := k_PushNotifications card; StateTransitionHistory := false |};
  Skills := map (λ s, {| sk_ID := s_ID s; sk_Name := s_Name s; sk_Description := s_Description s; sk_Tags := s_Tags s; Examples := [] |}) (k_Skills card);
  Auth := None |}.

(** ** The tool and the task server *)
(** How a request fares: it is answered, it is lost, or its answer is. *)
Inductive Link := Reaches | Lost (err : string) | Unanswered (err : string).
Definition hop (links : list Link) : Link * list Link := match links with [] => (Reaches, []) | x :: links => (x, links) end.
(** A client of the server over a line whose requests fare as listed, and well after that (what [client_is_the_server]
    makes of one over HTTP that reaches the server). *)
Definition Line : Type := list Link * System.
Definition over {A} (answer : System → A) (change : System → System) (w : Line) : (string + A) * Line :=
  let '(fate, links) := hop w.1 in
  match fate with
  | Reaches => (inr (answer w.2), (links, change w.2))
  | Lost err => (inl err, (links, w.2))
  | Unanswered err => (inl err, (links, change w.2))
  end.
Definition flat {A} (x : (string + (string + A)) * Line) : (string + A) * Line :=
  (match x.1 with inl err => inl err | inr y => y end, x.2).
#[export] Instance line_client (url_parse : string → option (string * string)) (now : time) : TaskClient Line := {|
  send_task p w := flat (over (λ st, remote (handleTaskSend url_parse p "" "" now (srv st)).1) (λ st, exec url_parse st (Send p "" "" now)) w);
  get_task id w := flat (over (λ st, remote (handleTaskGet id (srv st))) (λ st, st) w) |}.

Lemma last_agent_app msgs m : Role m = "agent" → last_agent (msgs ++ [m]) = Some m.
Proof. intros H. unfold last_agent. by rewrite filter_app, filter_cons_True, filter_nil, last_snoc by done. Qed.
Lemma outcome_role tools msgs : Role (outcome_of tools msgs).2 = "agent".
Proof. unfold outcome_of. by destruct (bool_decide _). Qed.

(** What the tool may say at the end of a task sent with [msgs]: nothing when it was canceled, the agent's answer otherwise. *)
Definition tells (msgs : list Message) (state : TaskState) (response : string) : Prop :=
  state = TaskCanceled ∧ response = "" ∨
  ∃ tools, state = (outcome_of tools msgs).1 ∧ response = first_text (Parts (outcome_of tools msgs).2).
Definition all_user (msgs : list Message) : Prop := Forall (λ m, Role m ≠ "agent") msgs.
Lemma stage_tells id msgs t l url : all_user msgs → stage id msgs t l → IsTerminal (State t) = true →
  tells msgs (State t) (Response (taskToOutput t url)).
Proof.
  intros Hu Hs He. inversion Hs as [t0 Hstate Hm|t0 snap Hstate Hm|t0 l0 Hstate Hm|t0 tools m l0 Ho Hm]; subst t0.
  - by rewrite Hstate in He.
  - by rewrite Hstate in He.
  - left. split; [done|]. cbn. rewrite Hm. unfold last_agent. rewrite filter_rejects; [done|].
    intros x Hx Hin. unfold all_user in Hu. rewrite Forall_forall in Hu. by apply (Hu x).
  - right. exists tools. rewrite Ho. split; [done|]. cbn. rewrite Hm, last_agent_app; [done|].
    pose proof (outcome_role tools msgs) as Hr. by rewrite Ho in Hr.
Qed.

Section Follow.
Variable url_parse : string → option (string * string).
Variable now : time.
#[local] Existing Instance line_client.
Notation the_client := (line_client url_parse now).
(** While the tool waits, the server goes on; nobody sends the task again. *)
Definition on_server (ls : list Step) (w : Line) : Line := (w.1, run url_parse ls w.2).
Definition wait_ends (w : Wake Line) : Line → Line := match w with Elapsed later | Done later => later end.
Definition goes_on (id : string) (w : Wake Line) : Prop := ∃ ls, wait_ends w = on_server ls ∧ Forall (λ l, ¬ sends id l) ls.
Definition elapsed (w : Wake Line) : Prop := match w with Elapsed _ => True | Done _ => False end.
(** The first request that fails, with its error. *)
Definition first_fault (links : list Link) (err : string) : Prop :=
  ∃ pre bad rest, links = pre ++ bad :: rest ∧ Forall (λ l, l = Reaches) pre ∧ (bad = Lost err ∨ bad = Unanswered err).
(** What a waiting tool says, and what is true of the task then. *)
Inductive says (id url : string) (msgs : list Message) (wakes : list (Wake Line)) (links : list Link) : option BridgeToolOutput → System → Prop :=
| still_waiting st : ¬ ended id st → Forall elapsed wakes → says id url msgs wakes links None st
| end_seen out st : ended id st → TaskID out = id → Error out = "" → tells msgs (o_State out) (Response out) →
    (State <$> tasks (srv st) !! id) = Some (o_State out) → says id url msgs wakes links (Some out) st
| gave_up st pre later rest : wakes = pre ++ Done later :: rest → Forall elapsed pre → in_flight id msgs st →
    says id url msgs wakes links (Some (failed_output id TaskCanceled url "context canceled while waiting")) st
| look_failed st err : first_fault links err → in_flight id msgs st →
    says id url msgs wakes links (Some (failed_output id TaskFailed url ("poll failed: " +:+ err))) st.

Lemma says_later id url msgs later wakes links out st : says id url msgs wakes links out st → says id url msgs (Elapsed later :: wakes) links out st.
Proof.
  intros [st' H Hw|out' st' ? ? ? ? ?|st' pre later' rest -> Hp ?|st' err ? ?].
  - by apply still_waiting; [|constructor].
  - by apply end_seen.
  - by eapply (gave_up _ _ _ _ _ _ (Elapsed later :: pre)); [|constructor|].
  - by apply look_failed.
Qed.
Lemma says_next id url msgs wakes links out st : says id url msgs wakes (hop links).2 out st → (hop links).1 = Reaches → says id url msgs wakes links out st.
Proof.
  intros [st' H Hw|out' st' ? ? ? ? ?|st' pre later' rest -> Hp ?|st' err (pre & bad & rest & E & Hp & Hb) ?] Hl.
  - by apply still_waiting.
  - by apply end_seen.
  - by eapply gave_up.
  - apply look_failed; [|done]. destruct links as [|x links]; [by destruct pre|]. cbn in E, Hl. subst x links.
    exists (Reaches :: pre), bad, rest. split_and!; [done|by constructor|done].
Qed.

Lemma poll_says id url msgs wakes : all_user msgs → ∀ t links st, sound st → in_flight id msgs st → tasks (srv st) !! id = Some t →
  Forall (goes_on id) wakes →
  let '(out, w') := poll (H := the_client) id url wakes t (links, st) in says id url msgs wakes links out w'.2.
Proof.
  intros Hu. induction wakes as [|w wakes IH]; intros t links st Hst Hf Ht Hw; cbn [poll]; destruct (IsTerminal (State t)) eqn:E.
  1, 3: pose proof Hf as (t' & Ht' & Hs & _); rewrite Ht in Ht'; injection Ht' as <-; cbn; apply end_seen; unfold ended; rewrite ?Ht;
    [done|by apply (task_keys st)|done|by eapply (stage_tells id _ _ _ url)|done].
  - cbn. apply still_waiting; [|done]. unfold ended. by rewrite Ht, E.
  - inversion Hw as [|? ? (ls & Hl & Hls) Hw']; subst.
    assert (Hst' : sound (run url_parse ls st)) by (by apply run_sound).
    pose proof (run_in_flight url_parse id msgs ls st Hst Hls Hf) as Hf'. pose proof Hf' as (t' & Ht' & _).
    destruct w as [later|later]; cbn [wait_ends] in Hl; subst later; cbn [on_server fst snd].
    + cbn [get_task the_client]. unfold flat, over, on_server. cbn [fst snd]. destruct (hop links) as [fate links'] eqn:El.
      destruct fate as [|err|err]; cbn [fst snd].
      * unfold handleTaskGet. rewrite Ht'. cbn [remote]. specialize (IH t' links' _ Hst' Hf' Ht' Hw').
        destruct (poll _ _ _ _ _) as [out w']. apply says_later, says_next; rewrite El; done.
      * destruct links as [|x links]; [done|]. injection El as -> <-. apply look_failed; [|done]. exists [], (Lost err), links. eauto.
      * destruct links as [|x links]; [done|]. injection El as -> <-. apply look_failed; [|done]. exists [], (Unanswered err), links. eauto.
    + by eapply (gave_up _ _ _ _ _ _ []).
Qed.
End Follow.

(** C21.  The tool that sends a task to another agent and waits, against the agent's server, over a line that may lose
    requests and answers, while whatever else happens on the server.  It waits only as long as the task has not ended; it
    ends with the state the task has and the agent's answer when it finds the task ended; it reports a canceled task,
    though the task goes on, only when its own context is done first, and a failed task only when a request fails, the first one
    that does: then the task goes on too, unless the request to start it was lost. *)
Theorem bridge_tool_follows_the_task url_parse push before input uuid now wakes links
    (st := run url_parse before (start push)) (params := bridge_params input uuid) (id := sp_ID params)
    (Hid : id ≠ "") (Hnew : tasks (srv st) !! id = None) (Hwait : Wait input = true)
    (Hw : Forall (goes_on url_parse id) wakes) :
  let '(out, (_, st')) := a2a_send_task (H := line_client url_parse now) input uuid wakes (links, st) in
  match hop links with
  | (Reaches, links') => says id (AgentURL input) (sp_Messages params) wakes links' out st'
  | (Lost err, _) => out = Some (failed_output id TaskFailed (AgentURL input) err) ∧ st' = st
  | (Unanswered err, _) => out = Some (failed_output id TaskFailed (AgentURL input) err) ∧ in_flight id (sp_Messages params) st'
  end.
Proof.
  assert (Hst : sound st) by (by apply run_sound, sound_start).
  unfold a2a_send_task. fold params. cbn [send_task line_client]. unfold flat, over. cbn [fst snd].
  assert (Htid : task_id params "" = id) by (unfold task_id; by rewrite bool_decide_false).
  destruct (handleTaskSend url_parse params "" "" now (srv st)) as [[e|t] s] eqn:E.
  { unfold handleTaskSend in E. cbn in E. done. }
  pose proof (send_in_flight url_parse id params "" "" now st t s Hst Hnew Htid E) as Hf.
  pose proof (handleTaskSend_spec url_parse params "" "" now (srv st)) as Hs. rewrite E in Hs. destruct Hs as (_ & _ & _ & Htasks & _).
  destruct (hop links) as [[|err|err] links']; cbn [fst snd remote]; [|done|done].
  rewrite Hwait. pose proof (poll_says url_parse now id (AgentURL input) (sp_Messages params) wakes) as Hp.
  specialize (Hp ltac:(by repeat constructor) t links' (exec url_parse st (Send params "" "" now)) ltac:(by apply exec_sound) Hf).
  destruct (poll _ _ _ _ _) as [out [links'' st']]. apply Hp; [|done]. cbn [exec]. rewrite E. cbn. by rewrite Htasks, Htid, lookup_insert_eq.
Qed.
Definition demo_input : BridgeToolInput := {| AgentURL := "http://agent"; i_Message := "find it"; i_TaskID := "t9"; Wait := true |}.
Definition demo_wakes : list (Wake Line) :=
  [Elapsed (on_server demo_parse [Work 0 ["grep"] 4]);
   Elapsed (on_server demo_parse [A2aServer.CancelTask "other" 5; Work 0 ["grep"] 6]); Done (on_server demo_parse [])].
Lemma bridge_tool_follows_the_task_witness :
  let '(out, (_, st')) := a2a_send_task (H := line_client demo_parse 3) demo_input "" demo_wakes ([Reaches; Reaches], start true) in
  says "t9" "http://agent" (sp_Messages (bridge_params demo_input "")) demo_wakes [Reaches] out st'.
Proof.
  apply (bridge_tool_follows_the_task demo_parse true [] demo_input "" 3 demo_wakes [Reaches; Reaches]); [done..|].
  repeat constructor; eexists; (split; [reflexivity|]); repeat constructor; cbn; tauto.
Defined.
Definition demo_says (wakes : list (Wake Line)) (links : list Link) : option BridgeToolOutput :=
  (a2a_send_task (H := line_client demo_parse 3) demo_input "" wakes (links, start true)).1.
Lemma demo_bridge_output :
  demo_says demo_wakes [] = Some {|
    TaskID := "t9"; o_State := TaskCompleted; o_AgentURL := "http://agent";
    Response := "dispatched to tool: grep (input: find it )"; o_Artifacts := []; Error := "" |}.
Proof. by vm_compute. Qed.
(** A tool whose context is done reports a canceled task, and one that cannot look a failed one; the task is still worked on. *)
Lemma demo_bridge_gives_up :
  demo_says [Done (on_server demo_parse [])] [] = Some (failed_output "t9" TaskCanceled "http://agent" "context canceled while waiting") ∧
  demo_says demo_wakes [Reaches; Lost "EOF"] = Some (failed_output "t9" TaskFailed "http://agent" "poll failed: EOF").
Proof. by vm_compute. Qed.

(** A client that does not go on answers for the tool: a failed look at the task is a failed task. *)
Lemma failed_poll_is_a_failed_task `{TaskClient W} id url later wakes task err (w w' : W) :
  IsTerminal (State task) = false → get_task id (later w) = (inl err, w') →
  poll id url (Elapsed later :: wakes) task w = (Some (failed_output id TaskFailed url ("poll failed: " +:+ err)), w').
Proof. intros Ht Hg. cbn [poll]. by rewrite Ht, Hg. Qed.

(** ** Credentials: the host first, then the whole address *)
Lemma Apply_host host url cred ai :
  Apply host url (SetCredential host cred ai) = Apply host url {[host := cred]}.
Proof. unfold Apply, SetCredential. by rewrite lookup_insert_eq, lookup_singleton_eq. Qed.
Lemma Apply_removed host url ai : Apply host url (RemoveCredential host (RemoveCredential url ai)) = inr None.
Proof.
  unfold Apply, RemoveCredential. rewrite lookup_delete_eq. destruct (decide (host = url)) as [->|]; [by rewrite lookup_delete_eq|].
  by rewrite lookup_delete_ne, lookup_delete_eq.
Qed.
Lemma Apply_other other cred host url ai : other ≠ host → other ≠ url → Apply host url (SetCredential other cred ai) = Apply host url ai.
Proof. intros. unfold Apply, SetCredential. by rewrite !lookup_insert_ne. Qed.

(** ** The token bucket is the one of the resilience package *)
Definition limiter (tb : tokenBucket) : RateLimit.RateLimiter :=
  {| RateLimit.rate := rate tb; RateLimit.burst := burst tb; RateLimit.tokens := tokens tb; RateLimit.lastTime := lastTime tb |}.
Lemma allow_limiter now tb : RateLimit.Allow now (limiter tb) = (let '(ok, tb) := allow now tb in (ok, limiter tb)).
Proof. unfold RateLimit.Allow, RateLimit.refill, allow. cbn. by destruct (float_le _ _). Qed.
Lemma new_limiter r b now : limiter (newTokenBucket r b now) = RateLimit.NewRateLimiter r b now.
Proof. done. Qed.

(** The answers an agent gets in a history of requests. *)
Inductive RateStep := AskFor (url : string) (created now : time) | Configure (url : string) (rate : float64) (burst : Z) (now : time).
Definition rate_step (r : RateLimitInterceptor) (l : RateStep) : option (string * bool) * RateLimitInterceptor :=
  match l with
  | AskFor url created now => let '(ok, r) := Allow url created now r in (Some (url, ok), r)
  | Configure url rate burst now => (None, SetAgentRate url rate burst now r)
  end.
Fixpoint rate_run (r : RateLimitInterceptor) (ls : list RateStep) : list (string * bool) :=
  match ls with
  | [] => []
  | l :: ls => let '(answer, r) := rate_step r l in option_list answer ++ rate_run r ls
  end.
Definition step_url (l : RateStep) : string := match l with AskFor url _ _ | Configure url _ _ _ => url end.
Definition same_agent (url : string) (r r' : RateLimitInterceptor) : Prop := config r = config r' ∧ limiters r !! url = limiters r' !! url.
Lemma rate_step_other url r l : step_url l ≠ url → same_agent url r (rate_step r l).2.
Proof.
  intros H. destruct l as [u c n|u rt b n]; cbn in *; [unfold Allow; destruct (allow n _)|]; (split; [done|]); symmetry; by apply lookup_insert_ne.
Qed.
Lemma rate_step_answer r l p : p ∈ option_list (rate_step r l).1 → p.1 = step_url l.
Proof.
  destruct l as [u c n|]; cbn; [|by intros ?%elem_of_nil]. unfold Allow. destruct (allow n _). by intros ->%list_elem_of_singleton.
Qed.
Lemma rate_step_same url r r' l : step_url l = url → same_agent url r r' →
  (rate_step r l).1 = (rate_step r' l).1 ∧ same_agent url (rate_step r l).2 (rate_step r' l).2.
Proof.
  intros <- [Hc Hl]. destruct l as [u c n|u rt b n]; cbn in *; [unfold Allow; rewrite <- Hc, <- Hl; destruct (allow n _)|]; (split; [done|split; [done|]]); etransitivity; (apply lookup_insert_eq || (symmetry; apply lookup_insert_eq)).
Qed.
(** Agents do not take from each other's buckets: what one is answered depends on its own requests and settings. *)
Theorem agents_are_limited_apart url ls : ∀ r r', same_agent url r r' →
  filter (λ p, p.1 = url) (rate_run r ls) = rate_run r' (filter (λ l, step_url l = url) ls).
Proof.
  induction ls as [|l ls IH]; intros r r' Hs; [done|]. cbn [rate_run]. pose proof (rate_step_answer r l) as Ha.
  destruct (decide (step_url l = url)) as [E|E].
  - rewrite filter_cons_True by done. cbn [rate_run]. destruct (rate_step_same url r r' l E Hs) as [H1 H2].
    destruct (rate_step r l) as [a r1], (rate_step r' l) as [a' r1']. cbn in H1, H2, Ha. subst a'. rewrite filter_app, (IH r1 r1') by done.
    rewrite filter_all; [done|]. intros p Hp. by rewrite (Ha p Hp).
  - rewrite filter_cons_False by done. pose proof (rate_step_other url r l E) as [H1 H2].
    destruct (rate_step r l) as [a r1]. cbn in H1, H2, Ha. rewrite filter_app, (IH r1 r') by (destruct Hs; split; congruence).
    rewrite filter_rejects; [done|]. intros p Hu Hp. apply E. by rewrite <- (Ha p Hp).
Qed.

(** ** Cards *)
Lemma to_from_card card : FromSDKAgentCard (ToSDKAgentCard card) = {|
  c_Name := c_Name card; c_Description := c_Description card; c_URL := c_URL card; Version := Version card; c_Provider := None;
  c_Capabilities := Some {| Streaming := k_Streaming (ToSDKAgentCard card); PushNotifications := k_PushNotifications (ToSDKAgentCard card);
                            StateTransitionHistory := false |};
  Skills := map (λ s, {| sk_ID := sk_ID s; sk_Name := sk_Name s; sk_Description := sk_Description s; sk_Tags := sk_Tags s; Examples := [] |}) (Skills card);
  Auth := None |}.
Proof. unfold FromSDKAgentCard, ToSDKAgentCard. cbn. rewrite map_map. f_equal. by case_bool_decide. Qed.
Lemma map_same {A} (f : A → A) l : (∀ x, f x = x) → map f l = l.
Proof. intros H. induction l as [|x l IH]; [done|]. cbn. by rewrite H, IH. Qed.
Lemma from_to_card k : (length (SupportedInterfaces k) ≤ 1)%nat → Forall (λ u, u ≠ "") (SupportedInterfaces k) →
  ToSDKAgentCard (FromSDKAgentCard k) = k.
Proof.
  intros Hl Hu. destruct k as [n d v s p sk [|u [|u' l]]]; cbn in Hl; [| |lia]; unfold ToSDKAgentCard, FromSDKAgentCard; cbn; rewrite map_map, map_same by (by intros []); [done|].
  inversion Hu; subst. by rewrite bool_decide_false.
Qed.

(** The catalog holds every tool once, under its category; so the skills of the card are the tools. *)
Section Catalog.
Context {Ctx Req W : Type}.
Local Abbreviation TD := (@Registry.TD Ctx Req W).
Definition entries_of {X Y} (f : string → X → list Y) (m : gmap string X) : list Y := c ← map_to_list m; f c.1 c.2.
Lemma entries_insert {X Y} (f : string → X → list Y) (m : gmap string X) k v : entries_of f (<[k := v]> m) ≡ₚ f k v ++ entries_of f (delete k m).
Proof.
  unfold entries_of. rewrite <- insert_delete_eq. rewrite map_to_list_insert by apply lookup_delete_eq. by rewrite bind_cons.
Qed.
Lemma entries_lookup {X Y} (f : string → X → list Y) (m : gmap string X) k v : m !! k = Some v → entries_of f m ≡ₚ f k v ++ entries_of f (delete k m).
Proof. intros H. rewrite <- (insert_id m k v) at 1 by done. apply entries_insert. Qed.
Lemma entries_none {X Y} (f : string → X → list Y) (m : gmap string X) k : m !! k = None → delete k m = m.
Proof. apply delete_id. Qed.
Definition group_entries (c : string) (m : gmap string (list TD)) : list (string * TD) := entries_of (λ _ l, map (c,.) l) m.
Lemma catalog_entries_of catalog : catalog_entries catalog = entries_of group_entries catalog.
Proof.
  unfold catalog_entries, entries_of, group_entries, entries_of. apply list_bind_ext; [|done]. intros [c m]. cbn. apply list_bind_ext; [|done]. intros [g l]. cbn.
  induction l as [|td l IH]; [done|]. cbn. by rewrite <- IH.
Qed.
Lemma group_entries_add c sub (td : TD) m :
  group_entries c (<[sub := default [] (m !! sub) ++ [td]]> m) ≡ₚ (c, td) :: group_entries c m.
Proof.
  unfold group_entries. rewrite entries_insert, map_app. cbn [map]. rewrite <- app_assoc. cbn [app]. destruct (m !! sub) as [l|] eqn:E; cbn [default].
  - rewrite (entries_lookup _ m sub l) by done. by rewrite <- Permutation_middle.
  - by rewrite delete_id.
Qed.
Lemma catalog_entries_add catalog (td : TD) sub :
  catalog_entries (<[Tool.Category td := <[sub := default [] (default ∅ (catalog !! Tool.Category td) !! sub) ++ [td]]> (default ∅ (catalog !! Tool.Category td))]> catalog)
  ≡ₚ (Tool.Category td, td) :: catalog_entries catalog.
Proof.
  rewrite !catalog_entries_of, entries_insert, group_entries_add. cbn [app]. constructor. destruct (catalog !! Tool.Category td) as [m|] eqn:E; cbn [default].
  - by rewrite (entries_lookup _ catalog (Tool.Category td) m) by done.
  - rewrite delete_id by done. unfold group_entries, entries_of at 1. by rewrite map_to_list_empty.
Qed.
Lemma catalog_entries_all (reg : @Registry.ToolRegistry Ctx Req W) :
  catalog_entries (Registry.GetToolCatalog reg) ≡ₚ map (λ td, (Tool.Category td, td)) (Registry.GetAllToolDefinitions reg).
Proof.
  unfold Registry.GetToolCatalog. generalize (Registry.GetAllToolDefinitions reg). intros l.
  assert (∀ catalog, catalog_entries (foldl (λ cat td,
      let sub := if bool_decide (Tool.Subcategory td = "") then "general" else Tool.Subcategory td in
      let m := default ∅ (cat !! Tool.Category td) in <[Tool.Category td := <[sub := default [] (m !! sub) ++ [td]]> m]> cat) catalog l)
    ≡ₚ map (λ td, (Tool.Category td, td)) l ++ catalog_entries catalog) as H.
  { induction l as [|td l IH]; intros catalog; [done|]. cbn [foldl map]. rewrite IH, catalog_entries_add. cbn [app]. by rewrite <- Permutation_middle. }
  rewrite H. unfold catalog_entries. rewrite map_to_list_empty. cbn. by rewrite app_nil_r.
Qed.

(** An agent's card offers the registry's tools, each once, with its category and its tags. *)
Theorem card_offers_the_tools (reg : @Registry.ToolRegistry Ctx Req W) opts :
  Skills (AgentCardFromRegistry reg opts) ≡ₚ map (λ td, skill_of (Tool.Category td, td)) (Registry.GetAllToolDefinitions reg).
Proof. unfold AgentCardFromRegistry. cbn [Skills]. rewrite catalog_entries_all. by rewrite map_map. Qed.
End Catalog.
