(* ===== verification/Auth.v ===== *)
(** Authentication (src/auth): JSON Web Tokens checked against a key set that is fetched and cached, DPoP proofs with
    their cache of identifiers, the two middlewares, the discovery of authorization servers and the OAuth client's
    tokens, and the middleware for workload identities.

    SHA-256, RSA and ECDSA verification, [url.Parse], the network, the text of a decoding error and the integer of a
    JSON number are parameters.  [strings.EqualFold] folds ASCII letters.  A key set is refreshed by one caller at a time. *)

From stdpp Require Import base tactics list gmap strings sorting.
From Stdlib Require Import ZArith Lia Ascii.
From S2P Require Import Prelude Tool Truncate Json A2a Paging.
From S2P Require A2aServer A2aRpc A2aJson Sanitize Bridge.

Local Open Scope Z_scope.

Definition EqualFold (a b : string) : bool := bool_decide (fold_key a = fold_key b).
Definition dot : ascii := of_code 46.
(** [%w] first, then text. *)
Definition wrap_with (e : error) (text : string) : error := ErrWrap "" e text.
(** [big.Int.SetBytes] and the exponent of a key, an [int]. *)
Definition big (s : string) : Z := foldl (λ z b, z * 256 + Z.of_nat b) 0 (string_bytes s).
Definition exponent_of (s : string) : Z := foldl (λ e b, wrap64 (wrap64 (Z.shiftl e 8) + Z.of_nat b)) 0 (string_bytes s).
Definition exponent_or (s : string) : Z := foldl (λ e b, Z.lor (wrap64 (Z.shiftl e 8)) (Z.of_nat b)) 0 (string_bytes s).

Record PublicKey := { N : Z; E : Z }.
Record ECKey := { X : Z; Y : Z }.

Section Auth.
Variable sha256 : string → string.
Variable rsa_verify : PublicKey → string → string → bool.
Variable ecdsa_verify : ECKey → string → Z → Z → bool.
Variable decode_error : string → string.

(** ** Tokens (jwt.go) *)
Record jwtHeader := { Alg : string; Typ : string; Kid : string }.
Record jwtPayload := { Sub : string; Iss : string; Aud : json; Exp : Z; Nbf : Z; Iat : Z }.
Definition dec_jwt_header : jwtHeader → json → option jwtHeader := A2aJson.dec_struct (λ old l,
  alg ← field dec_string (Alg old) "alg" l;
  typ ← field dec_string (Typ old) "typ" l;
  kid ← field dec_string (Kid old) "kid" l;
  Some {| Alg := alg; Typ := typ; Kid := kid |}).
Definition dec_jwt_payload : jwtPayload → json → option jwtPayload := A2aJson.dec_struct (λ old l,
  sub ← field dec_string (Sub old) "sub" l;
  iss ← field dec_string (Iss old) "iss" l;
  aud ← field (λ _ v, Some v) (Aud old) "aud" l;
  exp ← field A2aRpc.dec_int (Exp old) "exp" l;
  nbf ← field A2aRpc.dec_int (Nbf old) "nbf" l;
  iat ← field A2aRpc.dec_int (Iat old) "iat" l;
  Some {| Sub := sub; Iss := iss; Aud := aud; Exp := exp; Nbf := nbf; Iat := iat |}).
Definition zero_header : jwtHeader := {| Alg := ""; Typ := ""; Kid := "" |}.
Definition zero_payload : jwtPayload := {| Sub := ""; Iss := ""; Aud := JNull; Exp := 0; Nbf := 0; Iat := 0 |}.

(** The three parts of a token. *)
Definition token_parts (token : string) : option (string * string * string) :=
  match Sanitize.split dot token with [h; p; s] => Some (h, p, s) | _ => None end.
Definition decoded {A} (what : string) (dec : json → option A) (part : string) : error + A :=
  match DecodeString part with
  | None => inl (Err ("decode " +:+ what +:+ ": " +:+ decode_error part))
  | Some text => match parse text ≫= dec with
                 | None => inl (Err ("parse " +:+ what +:+ ": " +:+ decode_error text))
                 | Some x => inr x
                 end
  end.
Definition parseJWT (token : string) : error + (jwtHeader * jwtPayload) :=
  match token_parts token with
  | None => inl (Err ("expected 3 parts, got " +:+ itoa (Z.of_nat (length (Sanitize.split dot token)))))
  | Some (h, p, _) =>
      match decoded "header" (dec_jwt_header zero_header) h with
      | inl e => inl e
      | inr header =>
          match decoded "payload" (dec_jwt_payload zero_payload) p with
          | inl e => inl e
          | inr payload => inr (header, payload)
          end
      end
  end.
Definition verifyRS256 (token : string) (key : PublicKey) : bool :=
  match token_parts token with
  | None => false
  | Some (h, p, s) => match DecodeString s with None => false | Some sig => rsa_verify key (sha256 (h +:+ "." +:+ p)) sig end
  end.

(** ** Key sets (jwks.go) *)
Record jwkEntry := { Kty : string; Use : string; k_Kid : string; k_Alg : string; k_N : string; k_E : string }.
Definition zero_entry : jwkEntry := {| Kty := ""; Use := ""; k_Kid := ""; k_Alg := ""; k_N := ""; k_E := "" |}.
Definition dec_entry : jwkEntry → json → option jwkEntry := A2aJson.dec_struct (λ old l,
  kty ← field dec_string (Kty old) "kty" l;
  use ← field dec_string (Use old) "use" l;
  kid ← field dec_string (k_Kid old) "kid" l;
  alg ← field dec_string (k_Alg old) "alg" l;
  n ← field dec_string (k_N old) "n" l;
  e ← field dec_string (k_E old) "e" l;
  Some {| Kty := kty; Use := use; k_Kid := kid; k_Alg := alg; k_N := n; k_E := e |}).
Definition toRSAPublicKey (k : jwkEntry) : option PublicKey :=
  n ← DecodeString (k_N k); e ← DecodeString (k_E k); Some {| N := big n; E := exponent_of e |}.
Definition dec_jwks : json → option (list jwkEntry) := A2aJson.dec_struct (λ old l,
  field (A2aJson.dec_list (dec_entry zero_entry)) old "keys" l) [].
Definition add_key (keys : gmap string PublicKey) (k : jwkEntry) : gmap string PublicKey :=
  if bool_decide (Kty k = "RSA") && bool_decide (Use k = "sig")
  then match toRSAPublicKey k with Some pub => <[k_Kid k := pub]> keys | None => keys end
  else keys.
Record JWKSValidator := { keys : gmap string PublicKey; lastFetch : time; cacheTTL : duration }.
Definition NewJWKSValidator (ttl : duration) : JWKSValidator :=
  {| keys := ∅; lastFetch := time_zero; cacheTTL := if ttl =? 0 then 3600 * Second else ttl |}.
(** The answer of the end point: an error, or a status and a body. *)
Definition Fetched : Type := string + Z * string.
Definition fetchKeys (answer : Fetched) (now : time) (v : JWKSValidator) : error + JWKSValidator :=
  match answer with
  | inl e => inl (Err ("fetch JWKS: " +:+ e))
  | inr (status, body) =>
      if negb (status =? 200) then inl (Err ("JWKS endpoint returned " +:+ itoa status)) else
      match '(j, _) ← read_value body; dec_jwks j with
      | None => inl (Err ("decode JWKS: " +:+ decode_error body))
      | Some l => inr {| keys := foldl add_key ∅ l; lastFetch := now; cacheTTL := cacheTTL v |}
      end
  end.
(** [answer] is what a fetch would get, at [fetched]. *)
Definition getKey (kid : string) (answer : Fetched) (now fetched : time) (v : JWKSValidator) : (error + PublicKey) * JWKSValidator :=
  match keys v !! kid, (time_sub now (lastFetch v) <? cacheTTL v) with
  | Some key, true => (inr key, v)
  | _, _ =>
      match fetchKeys answer fetched v with
      | inl e => (inl e, v)
      | inr v => (match keys v !! kid with
                  | Some key => inr key
                  | None => inl (Err ("key " +:+ quote kid +:+ " not found in JWKS"))
                  end, v)
      end
  end.
(** Seconds since 1970, and back; the seconds since the zero time wrap. *)
Definition unixToInternal : Z := 62135596800.
Definition Unix (t : time) : Z := t / Second - unixToInternal.
Definition from_Unix (sec : Z) : time := wrap64 (sec + unixToInternal) * Second.
(** The checks of the claims, made with the clock at [now]. *)
Definition check_claims (p : jwtPayload) (now : time) : error + string :=
  if (0 <? Exp p) && (Exp p <? Unix now) then inl (Err "token expired")
  else if (0 <? Nbf p) && (Unix now <? Nbf p) then inl (Err "token not yet valid")
  else if bool_decide (Sub p = "") then inl (Err "token has no subject claim")
  else inr (Sub p).
Definition ValidateToken (token : string) (answer : Fetched) (now fetched checked : time) (v : JWKSValidator) : (error + string) * JWKSValidator :=
  match parseJWT token with
  | inl e => (inl (ErrWrap "invalid JWT: " e ""), v)
  | inr (header, payload) =>
      match getKey (Kid header) answer now fetched v with
      | (inl e, v) => (inl (ErrWrap "key lookup failed: " e ""), v)
      | (inr key, v) =>
          (if verifyRS256 token key then check_claims payload checked else inl (Err "signature verification failed"), v)
      end
  end.

(** ** Identifiers that have been seen (dpop_cache.go) *)
Record jtiCache := { entries : gmap string time; maxSize : Z; ttl : duration; checkCtr : Z }.
Definition newJTICache (maxSize : Z) (ttl : duration) : jtiCache := {| entries := ∅; maxSize := maxSize; ttl := ttl; checkCtr := 0 |}.
Definition with_entries (m : gmap string time) (c : jtiCache) : jtiCache :=
  {| entries := m; maxSize := maxSize c; ttl := ttl c; checkCtr := checkCtr c |}.
Definition count (c : jtiCache) : jtiCache := {| entries := entries c; maxSize := maxSize c; ttl := ttl c; checkCtr := checkCtr c + 1 |}.
Definition cleanup (now : time) (c : jtiCache) : jtiCache :=
  with_entries (filter (λ p, time_sub now p.2 <= ttl c) (entries c)) c.
(** A walk of the map, in any order: the first of the oldest. *)
Definition older (oldest : option (string * time)) (e : string * time) : option (string * time) :=
  match oldest with None => Some e | Some (_, t) => if time_before e.2 t then Some e else oldest end.
Definition evictOldest (walk : gmap string time → list (string * time)) (c : jtiCache) : jtiCache :=
  match foldl older None (walk (entries c)) with
  | Some (k, _) => if bool_decide (k = "") then c else with_entries (delete k (entries c)) c
  | None => c
  end.
Definition full (c : jtiCache) : bool := maxSize c <=? Z.of_nat (size (entries c)).
Definition cache_check (walk : gmap string time → list (string * time)) (jti : string) (now : time) (c : jtiCache) : bool * jtiCache :=
  let c := count c in
  let c := if checkCtr c mod 100 =? 0 then cleanup now c else c in
  match entries c !! jti with
  | Some _ => (false, c)
  | None =>
      let c := if full c then let c := cleanup now c in if full c then evictOldest walk c else c else c in
      (true, with_entries (<[jti := now]> (entries c)) c)
  end.

(** ** Proofs of possession (dpop.go) *)
Definition ErrDPoPInvalidProof := ErrSentinel "ErrDPoPInvalidProof" "invalid DPoP proof".
Definition ErrDPoPReplay := ErrSentinel "ErrDPoPReplay" "DPoP proof replay detected".
Definition ErrDPoPExpired := ErrSentinel "ErrDPoPExpired" "DPoP proof expired".
Definition ErrDPoPMethodMismatch := ErrSentinel "ErrDPoPMethodMismatch" "DPoP method mismatch".
Definition ErrDPoPURIMismatch := ErrSentinel "ErrDPoPURIMismatch" "DPoP URI mismatch".
Definition ErrDPoPATHMismatch := ErrSentinel "ErrDPoPATHMismatch" "DPoP access token hash mismatch".
Definition invalid_proof (detail : string) : error := wrap_with ErrDPoPInvalidProof (": " +:+ detail).

Record DPoPConfig := { MaxClockSkew : duration; MaxProofAge : duration; NonceRequired : bool }.
Record DPoPValidator := { d_config : DPoPConfig; d_cache : jtiCache }.
Definition NewDPoPValidator (cfg : DPoPConfig) : DPoPValidator :=
  let cfg := {| MaxClockSkew := if MaxClockSkew cfg =? 0 then 60 * Second else MaxClockSkew cfg;
                MaxProofAge := if MaxProofAge cfg =? 0 then 120 * Second else MaxProofAge cfg; NonceRequired := NonceRequired cfg |} in
  {| d_config := cfg; d_cache := newJTICache 10000 (wrap64 (MaxProofAge cfg + MaxClockSkew cfg)) |}.

(** [json.Unmarshal] into a nil [map[string]any]. *)
Definition any_map (v : json) : option (gmap string json) :=
  match v with JObject l => Some (object_map l) | JNull => Some ∅ | _ => None end.
Definition text_of (m : gmap string json) (k : string) : string := as_string (m !! k).
Definition dpop_part (what : string) (part : string) : error + gmap string json :=
  match DecodeString part with
  | None => inl (Err ("invalid " +:+ what +:+ " encoding: " +:+ decode_error part))
  | Some text => match parse text ≫= any_map with
                 | None => inl (Err ("invalid " +:+ what +:+ " JSON: " +:+ decode_error text))
                 | Some m => inr m
                 end
  end.
Definition parseDPoPJWT (token : string) : error + (gmap string json * gmap string json) :=
  match token_parts token with
  | None => inl (Err "invalid JWT format")
  | Some (h, p, _) =>
      match dpop_part "header" h with
      | inl e => inl e
      | inr header => match dpop_part "payload" p with inl e => inl e | inr payload => inr (header, payload) end
      end
  end.

Inductive AnyKey := RSAKey (k : PublicKey) | P256Key (k : ECKey).
Definition key_alg (k : AnyKey) : string := match k with RSAKey _ => "RS256" | P256Key _ => "ES256" end.
Definition parameter (name : string) (text : string) : error + string :=
  match DecodeString text with None => inl (Err ("invalid " +:+ name +:+ " parameter: " +:+ decode_error text)) | Some b => inr b end.
Definition parseRSAPublicJWK (jwk : gmap string json) : error + AnyKey :=
  let n := text_of jwk "n" in let e := text_of jwk "e" in
  if bool_decide (n = "") || bool_decide (e = "") then inl (Err "missing RSA key parameters") else
  match parameter "n" n with
  | inl err => inl err
  | inr n => match parameter "e" e with inl err => inl err | inr e => inr (RSAKey {| N := big n; E := exponent_or e |}) end
  end.
Definition parseECPublicJWK (jwk : gmap string json) : error + AnyKey :=
  let crv := text_of jwk "crv" in
  if negb (bool_decide (crv = "P-256")) then inl (Err ("unsupported curve: " +:+ crv)) else
  let x := text_of jwk "x" in let y := text_of jwk "y" in
  if bool_decide (x = "") || bool_decide (y = "") then inl (Err "missing EC key parameters") else
  match parameter "x" x with
  | inl err => inl err
  | inr x => match parameter "y" y with inl err => inl err | inr y => inr (P256Key {| X := big x; Y := big y |}) end
  end.
Definition parseJWKPublicKey (jwk : json) : error + AnyKey :=
  match any_map jwk with
  | None => inl (Err ("invalid JWK: " +:+ decode_error (print true jwk)))
  | Some jwk =>
      let kty := text_of jwk "kty" in
      if bool_decide (kty = "RSA") then parseRSAPublicJWK jwk
      else if bool_decide (kty = "EC") then parseECPublicJWK jwk
      else inl (Err ("unsupported key type: " +:+ kty))
  end.
Definition verifyES256 (token : string) (key : ECKey) : bool :=
  match token_parts token with
  | None => false
  | Some (h, p, s) =>
      match DecodeString s with
      | None => false
      | Some sig =>
          if (String.length sig =? 64)%nat
          then ecdsa_verify key (sha256 (h +:+ "." +:+ p)) (big (string_take 32 sig)) (big (string_drop 32 sig))
          else false
      end
  end.
Definition verify (token : string) (k : AnyKey) : bool :=
  match k with RSAKey k => verifyRS256 token k | P256Key k => verifyES256 token k end.
Definition computeATH (accessToken : string) : string := EncodeToString (sha256 accessToken).

(** [url.Parse]: the scheme, the host and the path. *)
Variable url_parse : string → string + (string * string * string).
Definition compareURIs (htu requestURI : string) : error + unit :=
  match url_parse htu with
  | inl e => inl (Err ("invalid htu: " +:+ e))
  | inr (s, h, p) =>
      match url_parse requestURI with
      | inl e => inl (Err ("invalid request URI: " +:+ e))
      | inr (s', h', p') =>
          if negb (EqualFold s s') || negb (EqualFold h h') || negb (bool_decide (p = p'))
          then inl (Err ("URI mismatch: " +:+ quote htu +:+ " vs " +:+ quote requestURI))
          else inr tt
      end
  end.
(** The integer part of a JSON number that was read as a float64. *)
Variable number_int64 : string → Z.

(** What a proof says, once its key and its signature are right. *)
Record Proof := { p_jti : string; p_htm : string; p_htu : string; p_iat : option Z; p_ath : string; p_nonce : string; p_key : AnyKey }.
Definition proof_of (payload : gmap string json) (key : AnyKey) : Proof := {|
  p_jti := text_of payload "jti"; p_htm := text_of payload "htm"; p_htu := text_of payload "htu";
  p_iat := match payload !! "iat" with Some (JNumber n) => Some (number_int64 n) | _ => None end;
  p_ath := text_of payload "ath"; p_nonce := text_of payload "nonce"; p_key := key |}.
Definition signed_proof (proof : string) : error + Proof :=
  match parseDPoPJWT proof with
  | inl e => inl (invalid_proof (error_text e))
  | inr (header, payload) =>
      let typ := text_of header "typ" in let alg := text_of header "alg" in
      if negb (EqualFold typ "dpop+jwt") then inl (invalid_proof ("invalid typ " +:+ quote typ))
      else if negb (bool_decide (alg = "RS256")) && negb (bool_decide (alg = "ES256")) then inl (invalid_proof ("unsupported algorithm " +:+ quote alg)) else
      match header !! "jwk" with
      | None => inl (invalid_proof "missing jwk in header")
      | Some jwk =>
          match parseJWKPublicKey jwk with
          | inl e => inl (invalid_proof (error_text e))
          | inr key =>
              if negb (bool_decide (alg = key_alg key)) then inl (invalid_proof ("algorithm mismatch: header " +:+ quote alg +:+ ", key " +:+ quote (key_alg key)))
              else if negb (verify proof key) then inl (invalid_proof "signature verification failed")
              else inr (proof_of payload key)
          end
      end
  end.
(** The claims, with the clock at [now]. *)
Definition check_proof (cfg : DPoPConfig) (p : Proof) (accessToken httpMethod httpURI : string) (now : time) : error + unit :=
  if bool_decide (p_jti p = "") then inl (invalid_proof "missing jti")
  else if negb (EqualFold (p_htm p) httpMethod) then inl (wrap_with ErrDPoPMethodMismatch (": expected " +:+ quote httpMethod +:+ ", got " +:+ quote (p_htm p)))
  else match compareURIs (p_htu p) httpURI with
  | inl e => inl (wrap_with ErrDPoPURIMismatch (": " +:+ error_text e))
  | inr _ =>
      match p_iat p with
      | None => inl (invalid_proof "missing iat")
      | Some iat =>
          if (wrap64 (MaxProofAge cfg + MaxClockSkew cfg) <? time_sub now (from_Unix iat)) then inl ErrDPoPExpired
          else if (MaxClockSkew cfg <? time_sub (from_Unix iat) now) then inl (invalid_proof "proof issued in the future")
          else if negb (bool_decide (accessToken = "")) && negb (bool_decide (p_ath p = computeATH accessToken)) then inl ErrDPoPATHMismatch
          else if NonceRequired cfg && bool_decide (p_nonce p = "") then inl (invalid_proof "missing required nonce")
          else inr tt
      end
  end.
(** The clock is read for the claims ([now]) and again by the cache ([seen]). *)
Definition ValidateProof (walk : gmap string time → list (string * time)) (proof accessToken httpMethod httpURI : string) (now seen : time)
    (v : DPoPValidator) : option error * DPoPValidator :=
  match signed_proof proof with
  | inl e => (Some e, v)
  | inr p =>
      match check_proof (d_config v) p accessToken httpMethod httpURI now with
      | inl e => (Some e, v)
      | inr _ =>
          let '(fresh, c) := cache_check walk (p_jti p) seen (d_cache v) in
          (if fresh then None else Some ErrDPoPReplay, {| d_config := d_config v; d_cache := c |})
      end
  end.

(** ** The middlewares (middleware.go, dpop_middleware.go) *)
Record HttpRequest := { Authorization : string; DPoP : string; Method : string; TLS : bool; Host : string; Path : string }.
(** What is answered, or whom the next handler is called for. *)
Inductive Outcome := Unauthorized | Rejected (text : string) | Served (subject : string).
Definition bearer (header : string) : option string :=
  if bool_decide (header = "") then None else
  match Bridge.index_of " " header with
  | None => None
  | Some i => if EqualFold (string_take i header) "Bearer" then Some (string_drop (i + 1) header) else None
  end.
Section Middleware.
Context {V : Type}.
Variable validator : string → V → (error + string) * V.
Definition Middleware (r : HttpRequest) (v : V) : Outcome * V :=
  match bearer (Authorization r) with
  | None => (Unauthorized, v)
  | Some token => match validator token v with (inl _, v) => (Unauthorized, v) | (inr subject, v) => (Served subject, v) end
  end.
Definition request_uri (r : HttpRequest) : string := (if TLS r then "https" else "http") +:+ "://" +:+ Host r +:+ Path r.
Definition DPoPMiddleware (requireDPoP : bool) (walk : gmap string time → list (string * time)) (r : HttpRequest) (now seen : time)
    (w : V * DPoPValidator) : Outcome * (V * DPoPValidator) :=
  match bearer (Authorization r) with
  | None => (Unauthorized, w)
  | Some token =>
      match validator token w.1 with
      | (inl _, v) => (Unauthorized, (v, w.2))
      | (inr subject, v) =>
          if bool_decide (DPoP r = "") then (if requireDPoP then Rejected "DPoP proof required" else Served subject, (v, w.2)) else
          match ValidateProof walk (DPoP r) token (Method r) (request_uri r) now seen w.2 with
          | (Some e, d) => (Rejected ("Invalid DPoP proof: " +:+ error_text e), (v, d))
          | (None, d) => (Served subject, (v, d))
          end
      end
  end.
End Middleware.

(** ** Authorization servers (discovery.go) *)
Record AuthServerMetadata := {
  Issuer : string; AuthorizationEndpoint : string; TokenEndpoint : string; JWKSURI : string;
  GrantTypesSupported : list string; CodeChallengeMethodsSupported : list string }.
Definition zero_metadata : AuthServerMetadata := {| Issuer := ""; AuthorizationEndpoint := ""; TokenEndpoint := ""; JWKSURI := "";
  GrantTypesSupported := []; CodeChallengeMethodsSupported := [] |}.
Definition dec_texts : list string → json → option (list string) := A2aJson.dec_list (dec_string "").
Definition dec_metadata : AuthServerMetadata → json → option AuthServerMetadata := A2aJson.dec_struct (λ old l,
  issuer ← field dec_string (Issuer old) "issuer" l;
  auth ← field dec_string (AuthorizationEndpoint old) "authorization_endpoint" l;
  token ← field dec_string (TokenEndpoint old) "token_endpoint" l;
  jwks ← field dec_string (JWKSURI old) "jwks_uri" l;
  _ ← field dec_string "" "registration_endpoint" l;
  _ ← field dec_texts [] "scopes_supported" l;
  _ ← field dec_texts [] "response_types_supported" l;
  grants ← field dec_texts (GrantTypesSupported old) "grant_types_supported" l;
  _ ← field dec_texts [] "token_endpoint_auth_methods_supported" l;
  challenges ← field dec_texts (CodeChallengeMethodsSupported old) "code_challenge_methods_supported" l;
  _ ← field dec_string "" "introspection_endpoint" l;
  _ ← field dec_string "" "revocation_endpoint" l;
  Some {| Issuer := issuer; AuthorizationEndpoint := auth; TokenEndpoint := token; JWKSURI := jwks; GrantTypesSupported := grants;
          CodeChallengeMethodsSupported := challenges |}).
Definition SupportsPKCE (m : AuthServerMetadata) : bool := bool_decide ("S256" ∈ CodeChallengeMethodsSupported m).
Definition SupportsGrant (g : string) (m : AuthServerMetadata) : bool := bool_decide (g ∈ GrantTypesSupported m).
Record MetadataDiscovery := { d_entries : gmap string (AuthServerMetadata * time); d_TTL : duration }.
Definition NewMetadataDiscovery (ttl : duration) : MetadataDiscovery := {| d_entries := ∅; d_TTL := if ttl =? 0 then 3600 * Second else ttl |}.
Definition fetchMetadata (url : string) (answer : Fetched) : error + AuthServerMetadata :=
  match answer with
  | inl e => inl (Err e)
  | inr (status, body) =>
      if negb (status =? 200) then inl (Err ("metadata endpoint " +:+ url +:+ " returned " +:+ itoa status)) else
      match '(j, _) ← read_value body; dec_metadata zero_metadata j with
      | None => inl (Err ("decode metadata: " +:+ decode_error body))
      | Some m => if bool_decide (Issuer m = "") then inl (Err "metadata missing issuer field") else inr m
      end
  end.
(** [net] is what a request to an address would get. *)
Definition Discover (net : string → Fetched) (issuerURL : string) (now fetched : time) (d : MetadataDiscovery) : (error + AuthServerMetadata) * MetadataDiscovery :=
  let issuer := A2aRpc.trim_right_byte Sanitize.slash issuerURL in
  let cached := match d_entries d !! issuer with
                | Some (m, t) => if time_sub now t <? d_TTL d then Some m else None
                | None => None
                end in
  match cached with
  | Some m => (inr m, d)
  | None =>
      let get path := fetchMetadata (issuer +:+ path) (net (issuer +:+ path)) in
      let keep m := (inr m, {| d_entries := <[issuer := (m, fetched)]> (d_entries d); d_TTL := d_TTL d |}) in
      match get "/.well-known/oauth-authorization-server" with
      | inr m => keep m
      | inl _ => match get "/.well-known/openid-configuration" with
                 | inr m => keep m
                 | inl e => (inl (ErrWrap ("discover auth server metadata for " +:+ issuer +:+ ": ") e ""), d)
                 end
      end
  end.

(** ** The OAuth client (pkce.go, oauth_client.go) *)
Definition PKCEVerifier (random : string) : string := EncodeToString random.
Definition PKCEChallenge (verifier : string) : string := EncodeToString (sha256 verifier).
Record OAuthClientConfig := { ClientID : string; ClientSecret : string; RedirectURI : string; Scopes : list string }.
Record TokenResponse := { AccessToken : string; TokenType : string; ExpiresIn : Z; tr_RefreshToken : string; tr_Scope : string }.
Definition zero_token : TokenResponse := {| AccessToken := ""; TokenType := ""; ExpiresIn := 0; tr_RefreshToken := ""; tr_Scope := "" |}.
Definition dec_token : TokenResponse → json → option TokenResponse := A2aJson.dec_struct (λ old l,
  access ← field dec_string (AccessToken old) "access_token" l;
  type ← field dec_string (TokenType old) "token_type" l;
  expires ← field A2aRpc.dec_int (ExpiresIn old) "expires_in" l;
  refresh ← field dec_string (tr_RefreshToken old) "refresh_token" l;
  scope ← field dec_string (tr_Scope old) "scope" l;
  Some {| AccessToken := access; TokenType := type; ExpiresIn := expires; tr_RefreshToken := refresh; tr_Scope := scope |}).
Definition dec_token_error : string * string → json → option (string * string) := A2aJson.dec_struct (λ old l,
  err ← field dec_string old.1 "error" l; text ← field dec_string old.2 "error_description" l; Some (err, text)).
Definition ErrTokenExpired := ErrSentinel "ErrTokenExpired" "token expired and no refresh token available".
Definition ErrTokenExchange := ErrSentinel "ErrTokenExchange" "token exchange failed".
Definition ErrNoPKCESupport := ErrSentinel "ErrNoPKCESupport" "authorization server does not support S256 PKCE".
Definition ErrNoGrantSupport := ErrSentinel "ErrNoGrantSupport" "authorization server does not support required grant type".
(** [url.QueryEscape] and [Values.Encode] on names in order. *)
Definition upper_hex (n : nat) : ascii := ascii_of_nat (if (n <? 10)%nat then 48 + n else 55 + n).
Definition escape_query_byte (a : ascii) : string :=
  let n := nat_of_ascii a in
  if is_digit a || between 65 90 (code a) || between 97 122 (code a) || bool_decide (n ∈ [45; 46; 95; 126]%nat) then one a
  else if (n =? 32)%nat then "+" else "%" +:+ String (upper_hex (n / 16)) (one (upper_hex (n mod 16))).
Definition QueryEscape (s : string) : string := foldr String.append "" (map escape_query_byte (String.list_ascii_of_string s)).
Definition encode_form (l : list (string * string)) : string := join "&" (map (λ p, QueryEscape p.1 +:+ "=" +:+ QueryEscape p.2) l).

(** What the authorization address is asked for: the parameters as they are set, one after the other. *)
Record AuthorizationParams := { CodeVerifier : string; p_State : string; Extra : list (string * string) }.
Definition required_parameters (cfg : OAuthClientConfig) (params : AuthorizationParams) : list (string * string) :=
  [("response_type", "code"); ("client_id", ClientID cfg); ("redirect_uri", RedirectURI cfg);
   ("code_challenge", PKCEChallenge (CodeVerifier params)); ("code_challenge_method", "S256")].
Definition AuthorizationURL (cfg : OAuthClientConfig) (params : AuthorizationParams) (found : error + AuthServerMetadata) :
    error + (string * list (string * string)) :=
  match found with
  | inl e => inl (ErrWrap "discover metadata: " e "")
  | inr meta =>
      if negb (SupportsPKCE meta) then inl ErrNoPKCESupport
      else if negb (SupportsGrant "authorization_code" meta) then inl ErrNoGrantSupport
      else match url_parse (AuthorizationEndpoint meta) with
      | inl e => inl (Err ("parse authorization endpoint: " +:+ e))
      | inr _ => inr (AuthorizationEndpoint meta,
          required_parameters cfg params ++
          (match Scopes cfg with [] => [] | l => [("scope", join " " l)] end) ++
          (if bool_decide (p_State params = "") then [] else [("state", p_State params)]) ++ Extra params)
      end
  end.
Definition token_answer (answer : Fetched) : error + TokenResponse :=
  match answer with
  | inl e => inl (Err ("token request: " +:+ e))
  | inr (status, body) =>
      if negb (status =? 200) then
        match parse body ≫= dec_token_error ("", "") with
        | Some (err, text) => if bool_decide (err = "") then inl (wrap_with ErrTokenExchange (": HTTP " +:+ itoa status))
                              else inl (wrap_with ErrTokenExchange (": " +:+ err +:+ ": " +:+ text))
        | None => inl (wrap_with ErrTokenExchange (": HTTP " +:+ itoa status))
        end
      else match parse body ≫= dec_token zero_token with
           | None => inl (Err ("decode token response: " +:+ decode_error body))
           | Some t => inr t
           end
  end.
(** [send] posts a form to an address, with the client's secret if there is one. *)
Definition doTokenRequest (cfg : OAuthClientConfig) (send : string → option (string * string) → string → Fetched) (endpoint : string)
    (form : list (string * string)) : error + TokenResponse :=
  token_answer (send endpoint (if bool_decide (ClientSecret cfg = "") then None else Some (ClientID cfg, ClientSecret cfg)) (encode_form form)).
Definition ExchangeCode (cfg : OAuthClientConfig) (send : string → option (string * string) → string → Fetched) (found : error + AuthServerMetadata)
    (code codeVerifier : string) : error + TokenResponse :=
  match found with
  | inl e => inl (ErrWrap "discover metadata: " e "")
  | inr meta => doTokenRequest cfg send (TokenEndpoint meta) [("client_id", ClientID cfg); ("code", code); ("code_verifier", codeVerifier);
      ("grant_type", "authorization_code"); ("redirect_uri", RedirectURI cfg)]
  end.
Definition RefreshToken (cfg : OAuthClientConfig) (send : string → option (string * string) → string → Fetched) (found : error + AuthServerMetadata)
    (refresh : string) : error + TokenResponse :=
  match found with
  | inl e => inl (ErrWrap "discover metadata: " e "")
  | inr meta => doTokenRequest cfg send (TokenEndpoint meta) [("client_id", ClientID cfg); ("grant_type", "refresh_token"); ("refresh_token", refresh)]
  end.

Record OAuthClient := { cachedToken : option TokenResponse; tokenExpiry : time; refreshToken : string }.
Definition NewOAuthClient : OAuthClient := {| cachedToken := None; tokenExpiry := time_zero; refreshToken := "" |}.
Definition expiryMargin : duration := 10 * Second.
Definition SetToken (t : TokenResponse) (now : time) (c : OAuthClient) : OAuthClient := {|
  cachedToken := Some t;
  tokenExpiry := time_add now (if 0 <? ExpiresIn t then wrap64 (wrap64 (ExpiresIn t * Second) - expiryMargin) else 3600 * Second);
  refreshToken := if bool_decide (tr_RefreshToken t = "") then refreshToken c else tr_RefreshToken t |}.
(** [refreshed] is what the exchange of a refresh token would give. *)
Definition Token_ (refreshed : string → error + TokenResponse) (now set_at : time) (c : OAuthClient) : (error + string) * OAuthClient :=
  let valid := match cachedToken c with Some t => if time_before now (tokenExpiry c) then Some t else None | None => None end in
  match valid with
  | Some t => (inr (AccessToken t), c)
  | None =>
      if bool_decide (refreshToken c = "") then (inl ErrTokenExpired, c) else
      match refreshed (refreshToken c) with
      | inr t => (inr (AccessToken t), SetToken t set_at c)
      | inl _ => (inl ErrTokenExpired, c)
      end
  end.

(** ** What the gate lets through *)
Lemma ValidateProof_accepts walk proof token method uri now seen v v' : ValidateProof walk proof token method uri now seen v = (None, v') →
  ∃ p, signed_proof proof = inr p ∧ check_proof (d_config v) p token method uri now = inr tt ∧
    cache_check walk (p_jti p) seen (d_cache v) = (true, d_cache v') ∧ d_config v' = d_config v.
Proof.
  unfold ValidateProof. destruct (signed_proof proof) as [e|p]; [done|]. destruct (check_proof _ _ _ _ _ _) as [e|[]] eqn:Ec; [done|].
  destruct (cache_check _ _ _ _) as [fresh c] eqn:Ech. destruct fresh; [|done]. intros [= <-]. by exists p.
Qed.
Lemma compareURIs_ok htu uri : compareURIs htu uri = inr tt → ∃ s h s' h' p, url_parse htu = inr (s, h, p) ∧ url_parse uri = inr (s', h', p) ∧
  EqualFold s s' = true ∧ EqualFold h h' = true.
Proof.
  unfold compareURIs. destruct (url_parse htu) as [e|[[s h] p]]; [done|]. destruct (url_parse uri) as [e|[[s' h'] p']]; [done|].
  destruct (EqualFold s s') eqn:E1, (EqualFold h h') eqn:E2, (decide (p = p')) as [->|Hp]; cbn; rewrite ?bool_decide_false by done; try done.
  intros _. by exists s, h, s', h', p'.
Qed.
(** What a proof that passes was made for. *)
Record made_for (cfg : DPoPConfig) (p : Proof) (token method uri : string) (now : time) : Prop := {
  mf_jti : p_jti p ≠ "";
  mf_method : EqualFold (p_htm p) method = true;
  mf_uri : compareURIs (p_htu p) uri = inr tt;
  mf_age : ∃ iat, p_iat p = Some iat ∧ time_sub now (from_Unix iat) <= wrap64 (MaxProofAge cfg + MaxClockSkew cfg) ∧
                  time_sub (from_Unix iat) now <= MaxClockSkew cfg;
  mf_token : token ≠ "" → p_ath p = computeATH token;
  mf_nonce : NonceRequired cfg = true → p_nonce p ≠ ""
}.
Lemma check_proof_spec cfg p token method uri now : check_proof cfg p token method uri now = inr tt ↔ made_for cfg p token method uri now.
Proof.
  unfold check_proof. split.
  - case_bool_decide as Hj; [done|]. destruct (EqualFold (p_htm p) method) eqn:Em; [|done]. cbn [negb].
    destruct (compareURIs (p_htu p) uri) as [e|[]] eqn:Eu; [done|]. destruct (p_iat p) as [iat|] eqn:Ei; [|done].
    destruct (_ <? time_sub now _) eqn:E1; [done|]. destruct (_ <? time_sub _ now) eqn:E2; [done|].
    destruct (negb (bool_decide (token = "")) && _) eqn:E3; [done|]. destruct (NonceRequired cfg && _) eqn:E4; [done|]. intros _.
    split; try done; [exists iat; split; [done|lia]|..].
    + intros Ht. rewrite bool_decide_false in E3 by done. cbn in E3. apply negb_false_iff, bool_decide_eq_true in E3. done.
    + intros Hn Hc. rewrite Hn, Hc in E4. done.
  - intros [Hj Hm Hu (iat & Hi & H1 & H2) Ht Hn]. rewrite bool_decide_false, Hm, Hu, Hi by done. cbn [negb].
    destruct (_ <? time_sub now _) eqn:E1; [lia|]. destruct (_ <? time_sub _ now) eqn:E2; [lia|].
    destruct (decide (token = "")) as [->|Ht']; [rewrite bool_decide_true by done|rewrite (bool_decide_false (token = "")), bool_decide_true by auto]; cbn [negb andb];
      (destruct (NonceRequired cfg) eqn:E; cbn [andb]; [rewrite bool_decide_false by auto|]; done).
Qed.

(** ** The cache remembers *)
Lemma cleanup_lookup now c k s : entries c !! k = Some s → entries (cleanup now c) !! k = Some s ∨ ttl c < time_sub now s.
Proof.
  intros H. destruct (decide (time_sub now s <= ttl c)) as [Hs|Hs]; [left|right; lia]. cbn. by apply map_lookup_filter_Some.
Qed.
Lemma cleanup_size now c : (size (entries (cleanup now c)) <= size (entries c))%nat.
Proof. cbn. apply map_subseteq_size, map_filter_subseteq. Qed.
Lemma foldl_older l : ∀ o k t, foldl older o l = Some (k, t) →
  (∀ e, e ∈ l → t <= e.2) ∧ (∀ e, o = Some e → t <= e.2) ∧ ((k, t) ∈ l ∨ o = Some (k, t)).
Proof.
  induction l as [|e l IH]; intros o k t H; cbn in H.
  - subst o. split; [by intros e ?%elem_of_nil|]. split; [|by right]. by intros e [= <-].
  - destruct (IH _ _ _ H) as (Hl & Ho & Hin).
    assert (He : t <= e.2 ∧ (∀ x, o = Some x → t <= x.2) ∧ ((k, t) = e ∨ (k, t) ∈ l ∨ o = Some (k, t))).
    { destruct o as [[k0 t0]|]; cbn [older] in *; unfold time_before in *.
      - destruct (e.2 <? t0) eqn:E.
        + pose proof (Ho e eq_refl). split; [done|]. split; [intros x [= <-]; cbn; lia|]. destruct Hin as [|[= ->]]; auto.
        + pose proof (Ho (k0, t0) eq_refl). cbn in *. split; [lia|]. split; [by intros x [= <-]|]. destruct Hin; auto.
      - split; [by apply Ho|]. split; [done|]. destruct Hin as [|[= ->]]; auto. }
    destruct He as (H1 & H2 & H3). split; [|split; [done|]].
    + intros x [->|Hx]%elem_of_cons; auto.
    + rewrite elem_of_cons. destruct H3 as [|[|]]; auto.
Qed.
(** A walk of a Go map meets every entry once. *)
Definition walks (walk : gmap string time → list (string * time)) : Prop := ∀ m, walk m ≡ₚ map_to_list m.
Lemma evictOldest_spec walk c k s : walks walk → entries c !! k = Some s →
  entries (evictOldest walk c) !! k = Some s ∨ ∀ k' s', entries c !! k' = Some s' → s <= s'.
Proof.
  intros Hw Hk. unfold evictOldest. destruct (foldl older None (walk (entries c))) as [[k0 t0]|] eqn:E; [|by left].
  apply foldl_older in E as (Hl & _ & Hin). destruct Hin as [Hin|?]; [|done].
  unfold walks in Hw. rewrite Hw in Hin. apply elem_of_map_to_list in Hin. case_bool_decide as Ek; [by left|]. destruct (decide (k = k0)) as [->|Hne].
  - right. intros k' s' H'.  pose proof (eq_trans (eq_sym Hk) Hin) as [= <-]. apply (Hl (k', s')). rewrite Hw. by apply elem_of_map_to_list.
  - left. cbn. by rewrite lookup_delete_ne.
Qed.
(** The cache is full of identifiers that were first seen at [s] or later. *)
Definition crowded (s : time) (c : jtiCache) : Prop := maxSize c <= Z.of_nat (size (filter (λ p, s <= p.2) (entries c))).
Lemma full_of_later c c0 s : maxSize c0 = maxSize c → entries c0 ⊆ entries c → full c0 = true →
  (∀ k' s', entries c0 !! k' = Some s' → s <= s') → crowded s c.
Proof.
  unfold full, crowded. intros <- Hsub Hf Hlate. assert (size (entries c0) <= size (filter (λ p, (s <= p.2)%Z) (entries c)))%nat; [|lia].
  apply map_subseteq_size, map_subseteq_spec. intros k' s' H'. apply map_lookup_filter_Some. split; [by eapply lookup_weaken|]. by eapply Hlate.
Qed.
Lemma check_step walk jti now c fresh c' k s : walks walk → cache_check walk jti now c = (fresh, c') →
  maxSize c' = maxSize c ∧ ttl c' = ttl c ∧
  (fresh = true → entries c' !! jti = Some now ∧ (entries c !! jti = Some s → ttl c < time_sub now s)) ∧
  (entries c !! k = Some s → k ≠ jti ∨ fresh = false → entries c' !! k = Some s ∨ ttl c < time_sub now s ∨ crowded s c).
Proof.
  intros Hw. unfold cache_check. set (c1 := if checkCtr (count c) mod 100 =? 0 then cleanup now (count c) else count c).
  assert (H1 : maxSize c1 = maxSize c ∧ ttl c1 = ttl c ∧ entries c1 ⊆ entries c ∧
    ∀ k s, entries c !! k = Some s → entries c1 !! k = Some s ∨ ttl c < time_sub now s).
  { unfold c1. destruct (_ =? 0); [|repeat split; auto]. split; [done|]. split; [done|]. split; [apply map_filter_subseteq|].
    intros k' s'. apply (cleanup_lookup now (count c)). }
  destruct H1 as (Hm & Ht & Hs & Hl). clearbody c1. destruct (entries c1 !! jti) as [s0|] eqn:Ej.
  - intros [= <- <-]. split; [done|]. split; [done|]. split; [done|]. intros H' _. destruct (Hl _ _ H'); auto.
  - set (c2 := if full c1 then _ else c1).
    assert (H2 : maxSize c2 = maxSize c ∧ ttl c2 = ttl c ∧
      ∀ k s, entries c1 !! k = Some s → entries c2 !! k = Some s ∨ ttl c < time_sub now s ∨ crowded s c).
    { unfold c2. destruct (full c1); [|by auto]. destruct (full (cleanup now c1)) eqn:Ef.
      - split; [unfold evictOldest; by repeat case_match|]. split; [unfold evictOldest; by repeat case_match|].
        intros k' s' H'. destruct (cleanup_lookup now c1 k' s' H') as [H2|]; [|rewrite <- Ht; auto].
        destruct (evictOldest_spec walk (cleanup now c1) k' s' Hw H2) as [|Hlate]; [auto|]. right. right.
        eapply (full_of_later c (cleanup now c1)); [done| |done|done]. etrans; [apply map_filter_subseteq|done].
      - split; [done|]. split; [done|]. intros k' s' H'. destruct (cleanup_lookup now c1 k' s' H'); [auto|rewrite <- Ht; auto]. }
    destruct H2 as (Hm2 & Ht2 & Hl2). clearbody c2. intros [= <- <-]. cbn [entries with_entries maxSize ttl]. split; [done|]. split; [done|]. split.
    + intros _. split; [by rewrite lookup_insert_eq|]. intros H'. destruct (Hl _ _ H') as [H0|]; [congruence|done].
    + intros H' [Hk|?]; [|done]. rewrite lookup_insert_ne by done. destruct (Hl _ _ H') as [H0|]; [|by auto]. by apply Hl2.
Qed.

(** ** A history of attempts *)
Record Attempt := { a_proof : string; a_token : string; a_method : string; a_uri : string; a_now : time; a_seen : time }.
Fixpoint validate_all (walk : gmap string time → list (string * time)) (v : DPoPValidator) (l : list Attempt) : list (option error) :=
  match l with
  | [] => []
  | a :: l => let '(r, v) := ValidateProof walk (a_proof a) (a_token a) (a_method a) (a_uri a) (a_now a) (a_seen a) v in r :: validate_all walk v l
  end.
Definition validator_after (walk : gmap string time → list (string * time)) : DPoPValidator → list Attempt → DPoPValidator :=
  foldl (λ v a, (ValidateProof walk (a_proof a) (a_token a) (a_method a) (a_uri a) (a_now a) (a_seen a) v).2).
(** The attempts in the order in which they take the cache's lock: the clock that is read under the lock goes forward; the one
    read before it is only not ahead. *)
Fixpoint clock_runs (t : time) (l : list Attempt) : Prop :=
  match l with [] => True | a :: l => a_now a <= a_seen a ∧ t <= a_seen a ∧ clock_runs (a_seen a) l end.
(** A validator whose cache keeps entries as long as its configuration allows proofs to be used. *)
Record ready (v : DPoPValidator) : Prop := {
  r_ttl : ttl (d_cache v) = wrap64 (MaxProofAge (d_config v) + MaxClockSkew (d_config v));
  r_range : 0 <= ttl (d_cache v) < max_int64
}.
Lemma ready_new cfg : let v := NewDPoPValidator cfg in
  0 <= wrap64 (MaxProofAge (d_config v) + MaxClockSkew (d_config v)) < max_int64 → ready v.
Proof. intros v Hr. by split. Qed.
Lemma clamp_gt x d : 0 <= x → x < clamp64 d → x < d.
Proof. assert (min_int64 < 0) by done. unfold clamp64. lia. Qed.
Lemma clamp_le x d : x < max_int64 → clamp64 d <= x → d <= x.
Proof. unfold clamp64. lia. Qed.

(** What an attempt does to an identifier that is in the cache since [s]. *)
Lemma attempt_step walk a v r v' k s : walks walk → ready v →
  ValidateProof walk (a_proof a) (a_token a) (a_method a) (a_uri a) (a_now a) (a_seen a) v = (r, v') →
  ready v' ∧ d_config v' = d_config v ∧
  (entries (d_cache v) !! k = Some s →
     entries (d_cache v') !! k = Some s ∨ ttl (d_cache v) < time_sub (a_seen a) s ∨ crowded s (d_cache v)) ∧
  (r = None → ∃ p, signed_proof (a_proof a) = inr p ∧ check_proof (d_config v) p (a_token a) (a_method a) (a_uri a) (a_now a) = inr tt ∧
     entries (d_cache v') !! p_jti p = Some (a_seen a) ∧
     (p_jti p = k → entries (d_cache v) !! k = Some s → ttl (d_cache v) < time_sub (a_seen a) s)).
Proof.
  intros Hw Hready Hv. destruct (Hready) as [H1 H2].
  unfold ValidateProof in Hv. destruct (signed_proof (a_proof a)) as [e|p]; [injection Hv as <- <-; split; [done|split; [done|split; [by left|done]]]|].
  destruct (check_proof _ _ _ _ _ _) as [e|[]] eqn:Ec; [injection Hv as <- <-; split; [done|split; [done|split; [by left|done]]]|].
  destruct (cache_check walk (p_jti p) (a_seen a) (d_cache v)) as [fresh c] eqn:Ech. injection Hv as <- <-. cbn [d_config d_cache].
  destruct (check_step walk (p_jti p) (a_seen a) (d_cache v) fresh c k s Hw Ech) as (Hm & Ht & Hf & Hk).
  split; [split; cbn; [by rewrite Ht|by rewrite Ht]|]. split; [done|]. split.
  - intros Hs. destruct (decide (k = p_jti p)) as [->|]; [|auto]. destruct fresh; [right; left; by apply Hf|auto].
  - intros Hn. destruct fresh; [|done]. destruct (Hf eq_refl) as [Hin Hold]. exists p. repeat split; [done|done|]. by intros <-.
Qed.
Lemma accepted_is_fresh cfg p token method uri now : check_proof cfg p token method uri now = inr tt → wrap64 (MaxProofAge cfg + MaxClockSkew cfg) < max_int64 →
  ∃ iat, p_iat p = Some iat ∧ now - from_Unix iat <= wrap64 (MaxProofAge cfg + MaxClockSkew cfg).
Proof.
  intros [_ _ _ (iat & Hi & H1 & _) _ _]%check_proof_spec Hr. exists iat. split; [done|]. by apply clamp_le.
Qed.
Definition dated_later (s : time) (aj : Attempt) (pj : Proof) : Prop := ∃ iat, p_iat pj = Some iat ∧ s + a_now aj < from_Unix iat + a_seen aj.
Lemma late_is_dated_later walk aj v v' pj s : walks walk → ready v →
  ValidateProof walk (a_proof aj) (a_token aj) (a_method aj) (a_uri aj) (a_now aj) (a_seen aj) v = (None, v') →
  signed_proof (a_proof aj) = inr pj → ttl (d_cache v) < a_seen aj - s → dated_later s aj pj.
Proof.
  intros Hw Hr Hv Hp Hlate. destruct (attempt_step walk aj v None v' "" 0 Hw Hr Hv) as (_ & _ & _ & Hacc).
  destruct (Hacc eq_refl) as (p & Hp' & Hchk & _). rewrite Hp in Hp'. injection Hp' as <-.
  destruct (accepted_is_fresh _ _ _ _ _ _ Hchk) as (iat & Hi & Hage); [rewrite <- (r_ttl v Hr); apply Hr|]. exists iat. split; [done|].
  rewrite <- (r_ttl v Hr) in Hage. lia.
Qed.
(** Once enough time has passed for the entry to be dropped. *)
Lemma too_late walk l : ∀ v t s j aj pj, walks walk → ready v → clock_runs t l → ttl (d_cache v) < t - s →
  l !! j = Some aj → validate_all walk v l !! j = Some None → signed_proof (a_proof aj) = inr pj → dated_later s aj pj.
Proof.
  induction l as [|a l IH]; intros v t s j aj pj Hw Hr Hc Ht Hj Hres Hp; [done|]. destruct Hc as (Hnow & Hmono & Hc). cbn [validate_all] in Hres.
  destruct (ValidateProof _ _ _ _ _ _ _ v) as [r v'] eqn:Ev.
  destruct (attempt_step walk a v r v' "" 0 Hw Hr Ev) as (Hr' & Hcfg & _). destruct j as [|j].
  - injection Hj as ->. injection Hres as ->. apply (late_is_dated_later walk aj v v'); [done..|lia].
  - assert (Hcfg' : ttl (d_cache v') = ttl (d_cache v)) by (by rewrite (r_ttl v' Hr'), (r_ttl v Hr), Hcfg).
    eapply (IH v' (a_seen a)); [done|done|done|rewrite Hcfg'; lia|done|done|done].
Qed.
Lemma remembered walk l : ∀ v t k s j aj pj, walks walk → ready v → clock_runs t l → entries (d_cache v) !! k = Some s →
  l !! j = Some aj → validate_all walk v l !! j = Some None → signed_proof (a_proof aj) = inr pj → p_jti pj = k →
  dated_later s aj pj ∨ ∃ m, (m < j)%nat ∧ crowded s (d_cache (validator_after walk v (take m l))).
Proof.
  induction l as [|a l IH]; intros v t k s j aj pj Hw Hr Hc Hk Hj Hres Hp Hjti; [done|]. destruct Hc as (Hnow & Hmono & Hc). cbn [validate_all] in Hres.
  destruct (ValidateProof _ _ _ _ _ _ _ v) as [r v'] eqn:Ev.
  destruct (attempt_step walk a v r v' k s Hw Hr Ev) as (Hr' & Hcfg & Hstay & Hacc). destruct j as [|j].
  - injection Hj as ->. injection Hres as ->. left. destruct (Hacc eq_refl) as (p & Hp' & _ & _ & Hold). rewrite Hp in Hp'. injection Hp' as <-.
    apply (late_is_dated_later walk aj v v'); [done..|]. apply (clamp_gt _ _ (proj1 (r_range v Hr))), (Hold Hjti Hk).
  - destruct (Hstay Hk) as [Hk'|[Hlate|Hcrowd]]; [|left|right; exists 0%nat; split; [lia|done]].
    + destruct (IH v' (a_seen a) k s j aj pj) as [|(m & Hm & Hcr)]; [done..|by left|].
      right. exists (S m). split; [lia|]. cbn. by rewrite Ev.
    + assert (Hcfg' : ttl (d_cache v') = ttl (d_cache v)) by (by rewrite (r_ttl v' Hr'), (r_ttl v Hr), Hcfg).
      apply clamp_gt in Hlate; [|apply Hr]. eapply (too_late walk l v' (a_seen a)); [done|done|done|by rewrite Hcfg'|done|done|done].
Qed.
Lemma used_once walk l : ∀ v t i j ai aj p q, walks walk → ready v → clock_runs t l → (i < j)%nat →
  l !! i = Some ai → l !! j = Some aj → validate_all walk v l !! i = Some None → validate_all walk v l !! j = Some None →
  signed_proof (a_proof ai) = inr p → signed_proof (a_proof aj) = inr q → p_jti p = p_jti q →
  dated_later (a_seen ai) aj q ∨ ∃ m, (i < m < j)%nat ∧ crowded (a_seen ai) (d_cache (validator_after walk v (take m l))).
Proof.
  induction l as [|a l IH]; intros v t i j ai aj p q Hw Hr Hc Hij Hi Hj Ri Rj Hp Hq Hpq; [done|]. destruct Hc as (Hnow & Hmono & Hc). cbn [validate_all] in Ri, Rj.
  destruct (ValidateProof _ _ _ _ _ _ _ v) as [r v'] eqn:Ev. destruct j as [|j]; [lia|].
  destruct (attempt_step walk a v r v' "" 0 Hw Hr Ev) as (Hr' & Hcfg & _ & Hacc). destruct i as [|i].
  - injection Hi as ->. injection Ri as ->. destruct (Hacc eq_refl) as (p' & Hp' & _ & Hin & _). rewrite Hp in Hp'. injection Hp' as <-.
    destruct (remembered walk l v' (a_seen ai) (p_jti p) (a_seen ai) j aj q) as [|(m & Hm & Hcr)]; [done..|by left|].
    right. exists (S m). split; [lia|]. cbn. by rewrite Ev.
  - destruct (IH v' (a_seen a) i j ai aj p q) as [|(m & Hm & Hcr)]; [done|done|done|lia|done..|by left|].
    right. exists (S m). split; [lia|]. cbn. by rewrite Ev.
Qed.


(** ** What a token must be *)
(** The three parts of a token, whose last part is a signature made with [key] over the first two. *)
Definition signed_parts (token h p s sig : string) : Prop :=
  token = h +:+ "." +:+ p +:+ "." +:+ s ∧ Sanitize.has_byte dot h = false ∧ Sanitize.has_byte dot p = false ∧ Sanitize.has_byte dot s = false ∧ DecodeString s = Some sig.
Lemma split_two cur s p l : Sanitize.split_aux dot cur s = p :: l →
  match l with
  | [] => cur +:+ s = p
  | _ => ∃ t, cur +:+ s = p +:+ "." +:+ t ∧ l = Sanitize.split_aux dot "" t
  end.
Proof.
  revert cur. induction s as [|a s IH]; intros cur; cbn [Sanitize.split_aux].
  - intros [= <- <-]. by rewrite string_app_nil_r.
  - case_bool_decide as Ea.
    + intros [= <- <-]. destruct (Sanitize.split_aux dot "" s) as [|x l] eqn:E; [by apply Sanitize.split_not_nil in E|].
      exists s. subst a. by rewrite E.
    + intros H. apply IH in H. rewrite Sanitize.app_String in H. exact H.
Qed.
Lemma token_parts_spec token h p s : token_parts token = Some (h, p, s) →
  token = h +:+ "." +:+ p +:+ "." +:+ s ∧ Sanitize.has_byte dot h = false ∧ Sanitize.has_byte dot p = false ∧ Sanitize.has_byte dot s = false.
Proof.
  unfold token_parts. destruct (Sanitize.split dot token) as [|h' [|p' [|s' [|? ?]]]] eqn:E; try done. intros [= <- <- <-].
  assert (Hb : ∀ c, c ∈ [h'; p'; s'] → Sanitize.has_byte dot c = false) by (intros c; rewrite <- E; by apply Sanitize.split_pieces).
  split; [|split; [|split]; apply Hb; set_solver]. unfold Sanitize.split in E.
  apply split_two in E as (t & Ht & E). symmetry in E. apply split_two in E as (u & Hu & E). symmetry in E. apply split_two in E.
  change (token = h' +:+ "." +:+ t) in Ht. change (t = p' +:+ "." +:+ u) in Hu. change (u = s') in E. by subst.
Qed.

(** The key with an identifier: held and not too old, or in the set that was just read. *)
Definition published_key (answer : Fetched) (kid : string) (key : PublicKey) : Prop :=
  ∃ body j rest l k n e, answer = inr (200, body) ∧ read_value body = Some (j, rest) ∧ dec_jwks j = Some l ∧ k ∈ l ∧
    Kty k = "RSA" ∧ Use k = "sig" ∧ k_Kid k = kid ∧ DecodeString (k_N k) = Some n ∧ DecodeString (k_E k) = Some e ∧
    key = {| N := big n; E := exponent_of e |}.
Lemma add_keys_lookup l : ∀ m kid key, foldl add_key m l !! kid = Some key → m !! kid = Some key ∨
  ∃ k n e, k ∈ l ∧ Kty k = "RSA" ∧ Use k = "sig" ∧ k_Kid k = kid ∧ DecodeString (k_N k) = Some n ∧ DecodeString (k_E k) = Some e ∧
    key = {| N := big n; E := exponent_of e |}.
Proof.
  induction l as [|k l IH]; intros m kid key H; [by left|]. cbn [foldl] in H. apply IH in H as [H|(k' & n & e & Hk & H)].
  2:{ right. exists k', n, e. split; [by right|done]. }
  unfold add_key in H. case_bool_decide as E1; [|by left]. case_bool_decide as E2; [|by left]. cbn [andb] in H.
  destruct (toRSAPublicKey k) as [pub|] eqn:Ek; [|by left]. destruct (decide (k_Kid k = kid)) as [<-|Hne].
  - rewrite lookup_insert_eq in H. injection H as <-. unfold toRSAPublicKey in Ek.
    destruct (DecodeString (k_N k)) as [n|] eqn:En; [|done]. cbn in Ek. destruct (DecodeString (k_E k)) as [e|] eqn:Ee; [|done]. cbn in Ek.
    injection Ek as <-. right. exists k, n, e. split; [by left|]. by repeat split.
  - rewrite lookup_insert_ne in H by done. by left.
Qed.
Lemma fetchKeys_lookup answer now v v' kid key : fetchKeys answer now v = inr v' → keys v' !! kid = Some key → published_key answer kid key.
Proof.
  unfold fetchKeys. destruct answer as [e|[status body]]; [done|]. destruct (status =? 200) eqn:Es; [|done]. cbn [negb].
  destruct (read_value body) as [[j rest]|] eqn:Er; [|done]. cbn. destruct (dec_jwks j) as [l|] eqn:El; [|done]. intros [= <-] H. cbn [keys] in H.
  apply add_keys_lookup in H as [H|(k & n & e & H)]; [by rewrite lookup_empty in H|]. apply Z.eqb_eq in Es as ->.
  exists body, j, rest, l, k, n, e. split; [done|]. split; [done|]. split; [done|]. exact H.
Qed.
Definition known_key (answer : Fetched) (now : time) (v : JWKSValidator) (kid : string) (key : PublicKey) : Prop :=
  keys v !! kid = Some key ∧ time_sub now (lastFetch v) < cacheTTL v ∨ published_key answer kid key.
Lemma getKey_known kid answer now fetched v key v' : getKey kid answer now fetched v = (inr key, v') → known_key answer now v kid key.
Proof.
  unfold getKey. destruct (keys v !! kid) as [k|] eqn:Ek; [destruct (time_sub now (lastFetch v) <? cacheTTL v) eqn:Et|].
  { intros [= -> ->]. left. split; [done|lia]. }
  all: destruct (fetchKeys answer fetched v) as [e|v1] eqn:Ef; [done|]; destruct (keys v1 !! kid) as [k1|] eqn:E1; [|done]; intros [= <- <-]; right;
    by eapply fetchKeys_lookup.
Qed.
(** A token for [subject]: its signature is one of its own text by a known key, and its claims hold now. *)
Definition valid_token (answer : Fetched) (now checked : time) (v : JWKSValidator) (token subject : string) : Prop :=
  ∃ h p s sig ht pt header payload key, signed_parts token h p s sig ∧
    DecodeString h = Some ht ∧ parse ht ≫= dec_jwt_header zero_header = Some header ∧
    DecodeString p = Some pt ∧ parse pt ≫= dec_jwt_payload zero_payload = Some payload ∧
    known_key answer now v (Kid header) key ∧ rsa_verify key (sha256 (h +:+ "." +:+ p)) sig = true ∧
    subject = Sub payload ∧ subject ≠ "" ∧ (0 < Exp payload → Unix checked <= Exp payload) ∧ (0 < Nbf payload → Nbf payload <= Unix checked).
Lemma decoded_ok {A} what (dec : json → option A) part x : decoded what dec part = inr x → ∃ text, DecodeString part = Some text ∧ parse text ≫= dec = Some x.
Proof.
  unfold decoded. destruct (DecodeString part) as [text|]; [|done]. destruct (parse text ≫= dec) as [y|] eqn:E; [|done]. intros [= <-]. by exists text.
Qed.
Lemma ValidateToken_accepts token answer now fetched checked v subject v' :
  ValidateToken token answer now fetched checked v = (inr subject, v') → valid_token answer now checked v token subject.
Proof.
  unfold ValidateToken, parseJWT. destruct (token_parts token) as [[[h p] s]|] eqn:Et; [|done].
  destruct (decoded "header" _ h) as [?|header] eqn:Eh; [done|]. destruct (decoded "payload" _ p) as [?|payload] eqn:Ep; [done|].
  destruct (getKey _ _ _ _ _) as [[e|key] v1] eqn:Ek; [done|]. apply getKey_known in Ek. unfold verifyRS256. rewrite Et.
  destruct (DecodeString s) as [sig|] eqn:Es; [|done]. destruct (rsa_verify _ _ _) eqn:Ev; [|done].
  unfold check_claims. destruct ((0 <? Exp payload) && _) eqn:E1; [done|]. destruct ((0 <? Nbf payload) && _) eqn:E2; [done|].
  case_bool_decide as E3; [done|]. intros [= <- <-]. apply decoded_ok in Eh as (ht & H1 & H2). apply decoded_ok in Ep as (pt & H3 & H4).
  apply token_parts_spec in Et as (Htok & D1 & D2 & D3). exists h, p, s, sig, ht, pt, header, payload, key.
  split; [by repeat split|]. do 6 (split; [done|]). split; [done|]. split; [done|]. split; intros; lia.
Qed.

(** A proof: signed with the key it carries, by the algorithm of that key. *)
Definition self_signed (proof : string) (claims : Proof) : Prop :=
  ∃ h p s sig ht pt header payload jwk, signed_parts proof h p s sig ∧
    DecodeString h = Some ht ∧ parse ht ≫= any_map = Some header ∧ DecodeString p = Some pt ∧ parse pt ≫= any_map = Some payload ∧
    EqualFold (text_of header "typ") "dpop+jwt" = true ∧ header !! "jwk" = Some jwk ∧ parseJWKPublicKey jwk = inr (p_key claims) ∧
    match p_key claims with
    | RSAKey k => text_of header "alg" = "RS256" ∧ rsa_verify k (sha256 (h +:+ "." +:+ p)) sig = true
    | P256Key k => text_of header "alg" = "ES256" ∧ String.length sig = 64%nat ∧
        ecdsa_verify k (sha256 (h +:+ "." +:+ p)) (big (string_take 32 sig)) (big (string_drop 32 sig)) = true
    end ∧ claims = proof_of payload (p_key claims).
Lemma dpop_part_ok what part m : dpop_part what part = inr m → ∃ text, DecodeString part = Some text ∧ parse text ≫= any_map = Some m.
Proof.
  unfold dpop_part. destruct (DecodeString part) as [text|]; [|done]. destruct (parse text ≫= any_map) as [y|] eqn:E; [|done]. intros [= <-]. by exists text.
Qed.
Lemma signed_proof_spec proof claims : signed_proof proof = inr claims → self_signed proof claims.
Proof.
  unfold signed_proof, parseDPoPJWT. destruct (token_parts proof) as [[[h p] s]|] eqn:Et; [|done].
  destruct (dpop_part "header" h) as [?|header] eqn:Eh; [done|]. destruct (dpop_part "payload" p) as [?|payload] eqn:Ep; [done|].
  destruct (EqualFold _ _) eqn:Etyp; [|done]. cbn [negb]. destruct (negb _ && negb _); [done|]. destruct (header !! "jwk") as [jwk|] eqn:Ej; [|done].
  destruct (parseJWKPublicKey jwk) as [?|key] eqn:Ek; [done|]. case_bool_decide as Ealg; [|done]. cbn [negb].
  destruct (verify proof key) eqn:Ev; [|done]. intros [= <-]. cbn [negb].
  apply dpop_part_ok in Eh as (ht & H1 & H2). apply dpop_part_ok in Ep as (pt & H3 & H4).
  assert (∃ sig, DecodeString s = Some sig ∧ match key with
    | RSAKey k => rsa_verify k (sha256 (h +:+ "." +:+ p)) sig = true
    | P256Key k => String.length sig = 64%nat ∧
        ecdsa_verify k (sha256 (h +:+ "." +:+ p)) (big (string_take 32 sig)) (big (string_drop 32 sig)) = true end) as (sig & Hs & Hv).
  { unfold verify, verifyRS256, verifyES256 in Ev. rewrite Et in Ev. destruct key; destruct (DecodeString s) as [sig|]; try done; exists sig; [done|].
    destruct (String.length sig =? 64)%nat eqn:El; [|done]. apply Nat.eqb_eq in El. done. }
  apply token_parts_spec in Et as (Htok & D1 & D2 & D3). exists h, p, s, sig, ht, pt, header, payload, jwk.
  split; [by repeat split|]. do 7 (split; [done|]). split; [|done]. cbn [proof_of p_key]. by destruct key.
Qed.
Lemma bearer_spec header token : bearer header = Some token → ∃ scheme, header = scheme +:+ " " +:+ token ∧ EqualFold scheme "Bearer" = true.
Proof.
  unfold bearer. case_bool_decide; [done|]. destruct (Bridge.index_of " " header) as [i|] eqn:Ei; [|done].
  destruct (EqualFold _ _) eqn:Ef; [|done]. intros [= <-]. exists (string_take i header). split; [|done]. clear Ef H.
  revert i Ei. induction header as [|a s IH]; intros i Ei; [done|]. cbn [Bridge.index_of has_prefix] in Ei. case_bool_decide as Ea; cbn [andb] in Ei.
  - injection Ei as <-. subst a. cbn. by destruct s.
  - destruct (Bridge.index_of " " s) as [k|]; [|done]. injection Ei as <-. cbn. f_equal. by apply IH.
Qed.

End Auth.

(** ** A concrete setting: signatures always verify, every address is the same *)
Definition demo_sha (_ : string) : string := "h".
Definition demo_rsa (_ : PublicKey) (_ _ : string) : bool := true.
Definition demo_ec (_ : ECKey) (_ : string) (_ _ : Z) : bool := true.
Definition demo_url (_ : string) : string + (string * string * string) := inr ("https", "host", "/p").
Definition demo_number (n : string) : Z := default 0 (A2aRpc.int_value n).
Definition demo_walk (m : gmap string time) : list (string * time) := map_to_list m.
Definition demo_jwk (n : string) : json := JObject [("kty", JString "RSA"); ("n", JString n); ("e", JString "AQ")].
Definition jwt_of (header payload : json) : string :=
  EncodeToString (print true header) +:+ "." +:+ EncodeToString (print true payload) +:+ "." +:+ "AA".
Definition demo_proof (key jti iat : string) : string := jwt_of
  (JObject [("typ", JString "dpop+jwt"); ("alg", JString "RS256"); ("jwk", demo_jwk key)])
  (JObject [("jti", JString jti); ("htm", JString "POST"); ("htu", JString "u"); ("iat", JNumber iat); ("ath", JString (EncodeToString "h"))]).
Definition demo_attempt (proof : string) (sec : Z) : Attempt :=
  {| a_proof := proof; a_token := "token"; a_method := "POST"; a_uri := "u"; a_now := from_Unix sec; a_seen := from_Unix sec |}.
(** A validator that has been asked 98 times. *)
Definition demo_validator : DPoPValidator :=
  let v := NewDPoPValidator {| MaxClockSkew := 0; MaxProofAge := 0; NonceRequired := false |} in
  {| d_config := d_config v; d_cache := {| entries := ∅; maxSize := maxSize (d_cache v); ttl := ttl (d_cache v); checkCtr := 98 |} |}.
Local Notation demo_validate := (validate_all demo_sha demo_rsa demo_ec (λ _, "") demo_url demo_number demo_walk).
Definition demo_attempts : list Attempt := [demo_attempt (demo_proof "AQ" "x" "1060") 1000; demo_attempt (demo_proof "AQ" "x" "1060") 1181].
Definition demo_claims : Proof :=
  {| p_jti := "x"; p_htm := "POST"; p_htu := "u"; p_iat := Some 1060; p_ath := EncodeToString "h"; p_nonce := ""; p_key := RSAKey {| N := 1; E := 1 |} |}.
Lemma demo_walks : walks demo_walk.
Proof. by intros m. Qed.
(** The other case: in a cache of one identifier, another proof in between makes room for a replay. *)
Definition small_validator : DPoPValidator :=
  {| d_config := d_config demo_validator; d_cache := {| entries := ∅; maxSize := 1; ttl := ttl (d_cache demo_validator); checkCtr := 0 |} |}.
Lemma evicted_proof_is_replayed :
  demo_validate small_validator [demo_attempt (demo_proof "AQ" "x" "1000") 1000; demo_attempt (demo_proof "AQ" "y" "1000") 1001;
    demo_attempt (demo_proof "AQ" "x" "1000") 1002] = [None; None; None].
Proof. by vm_compute. Qed.

(** A proof dated at the limit of the allowed skew is accepted, forgotten while it is still good, and accepted again. *)
Lemma future_dated_proof_is_replayed : demo_validate demo_validator demo_attempts = [None; None].
Proof. by vm_compute. Qed.

(** The key of a proof is nowhere compared with the token: a proof by any key will do. *)
Lemma any_key_proves_possession sha url cfg p k token method uri now :
  check_proof sha url cfg p token method uri now =
  check_proof sha url cfg {| p_jti := p_jti p; p_htm := p_htm p; p_htu := p_htu p; p_iat := p_iat p; p_ath := p_ath p; p_nonce := p_nonce p; p_key := k |}
    token method uri now.
Proof. done. Qed.
Lemma thief_with_a_key_of_his_own :
  demo_validate demo_validator [demo_attempt (demo_proof "AQ" "owner" "1000") 1000; demo_attempt (demo_proof "Ag" "thief" "1001") 1001] = [None; None].
Proof. by vm_compute. Qed.

(** Whom a token is for, and who issued it, is not looked at; one without an expiry never expires. *)
Lemma audience_is_not_checked p iss aud now :
  check_claims p now = check_claims {| Sub := Sub p; Iss := iss; Aud := aud; Exp := Exp p; Nbf := Nbf p; Iat := Iat p |} now.
Proof. done. Qed.
Lemma token_without_expiry_never_expires p now : Exp p <= 0 → Nbf p <= 0 → Sub p ≠ "" → check_claims p now = inr (Sub p).
Proof.
  intros He Hn Hs. unfold check_claims. destruct (0 <? Exp p) eqn:E1; [lia|]. destruct (0 <? Nbf p) eqn:E2; [lia|]. cbn. by rewrite bool_decide_false.
Qed.

Definition demo_token : string := jwt_of (JObject [("alg", JString "RS256"); ("kid", JString "k1")]) (JObject [("sub", JString "alice"); ("exp", JNumber "2000")]).
Definition demo_jwks : Fetched := inr (200, print true (JObject [("keys", JArray [JObject
  [("kty", JString "RSA"); ("use", JString "sig"); ("kid", JString "k1"); ("n", JString "AQ"); ("e", JString "AQ")]])])).
Definition demo_request : HttpRequest :=
  {| Authorization := "Bearer " +:+ demo_token; DPoP := demo_proof "AQ" "y" "1000"; Method := "POST"; TLS := true; Host := "host"; Path := "/p" |}.

(** ** The OAuth client *)
Lemma length_of_bytes l : String.length (String.string_of_list_ascii l) = length l.
Proof. induction l as [|a l IH]; [done|]. cbn. by rewrite IH. Qed.
Lemma length_to_bytes s : length (String.list_ascii_of_string s) = String.length s.
Proof. induction s as [|a s IH]; [done|]. cbn. by rewrite IH. Qed.
Lemma EncodeToString_length_32 s : String.length s = 32%nat → String.length (EncodeToString s) = 43%nat.
Proof.
  intros H. unfold EncodeToString, bytes_string, string_bytes. rewrite length_of_bytes, !length_fmap.
  rewrite <- length_to_bytes in H. revert H. generalize (String.list_ascii_of_string s). intros l H.
  do 32 (destruct l as [|? l]; [done|]). by destruct l.
Qed.
Lemma PKCEVerifier_length random : String.length random = 32%nat → String.length (PKCEVerifier random) = 43%nat.
Proof. apply EncodeToString_length_32. Qed.

(** The last value a parameter is set to. *)
Definition last_set (k : string) (l : list (string * string)) : option string := snd <$> last (filter (λ p, p.1 = k) l).
Ltac take_set H :=
  match type of H with inr (_, ?l) = inr (_, ?set) => let E := fresh in assert (E : set = l) by (by injection H); clear H; subst set end.
(** The challenge sent to the authorization server is the one the verifier of the exchange answers, unless the caller's
    extra parameters set another. *)
Lemma authorization_challenge sha256 url_parse cfg params meta address set :
  AuthorizationURL sha256 url_parse cfg params (inr meta) = inr (address, set) → "code_challenge" ∉ (Extra params).*1 →
  SupportsPKCE meta = true ∧ last_set "code_challenge" set = Some (PKCEChallenge sha256 (CodeVerifier params)).
Proof.
  unfold AuthorizationURL. destruct (SupportsPKCE meta); [|done]. destruct (SupportsGrant _ _); [|done]. destruct (url_parse _) as [e|u]; [done|].
  cbn [negb]. intros H Hx. split; [done|]. take_set H. unfold last_set. rewrite !filter_app.
  assert (filter (λ p, p.1 = "code_challenge") (Extra params) = []) as ->.
  { apply A2aServer.filter_rejects. intros [k v] Hk Hin. cbn in Hk. subst k. apply Hx. by eapply (list_elem_of_fmap_2 fst) in Hin. }
  rewrite app_nil_r. replace (filter _ (match Scopes cfg with [] => [] | _ => _ end)) with (@nil (string * string)) by (by destruct (Scopes cfg)).
  replace (filter _ (if bool_decide (p_State params = "") then [] else _)) with (@nil (string * string)) by (by destruct (bool_decide _)). done.
Qed.
Lemma extra_parameters_replace_the_challenge sha256 url_parse cfg verifier meta address set : 
  AuthorizationURL sha256 url_parse cfg {| CodeVerifier := verifier; p_State := ""; Extra := [("code_challenge", "mine")] |} (inr meta) = inr (address, set) →
  last_set "code_challenge" set = Some "mine".
Proof.
  unfold AuthorizationURL. destruct (SupportsPKCE meta); [|done]. destruct (SupportsGrant _ _); [|done]. destruct (url_parse _) as [e|u]; [done|].
  cbn [negb]. intros H. take_set H. unfold last_set. rewrite !app_assoc, filter_app. cbn [Extra]. by rewrite filter_cons_True, filter_nil, last_snoc.
Qed.

(** A token is handed out until ten seconds before its end, and then never without a new exchange. *)
Theorem token_is_current refreshed t set_at now again c (Hpos : 0 < ExpiresIn t) (Hrange : in64 (ExpiresIn t * Second)) :
  let c' := SetToken t set_at c in
  (now < set_at + ExpiresIn t * Second - expiryMargin → Token_ refreshed now again c' = (inr (AccessToken t), c')) ∧
  (set_at + ExpiresIn t * Second - expiryMargin <= now →
   match Token_ refreshed now again c' with
   | (inr a, c2) => ∃ t', refreshToken c' ≠ "" ∧ refreshed (refreshToken c') = inr t' ∧ a = AccessToken t' ∧ c2 = SetToken t' again c'
   | (inl e, c2) => e = ErrTokenExpired ∧ c2 = c' ∧ (refreshToken c' = "" ∨ ∃ e, refreshed (refreshToken c') = inl e)
   end).
Proof.
  intros c'. assert (Hexp : tokenExpiry c' = set_at + ExpiresIn t * Second - expiryMargin).
  { unfold c', SetToken, time_add. cbn [tokenExpiry]. destruct (0 <? ExpiresIn t) eqn:E0; [|lia]. rewrite (wrap64_id (_ * _)) by done.
    rewrite wrap64_id; [lia|]. unfold in64, min_int64, max_int64 in *. unfold expiryMargin, Second in *. lia. }
  assert (Hc : cachedToken c' = Some t) by done. clearbody c'. unfold Token_, time_before. rewrite Hc, Hexp. split; intros Hn.
  - destruct (now <? _) eqn:E0; [done|lia].
  - destruct (now <? _) eqn:E0; [lia|]. case_bool_decide as Er; [by auto|]. destruct (refreshed (refreshToken c')) as [e|t'] eqn:Ef; [by eauto|].
    exists t'. by auto.
Qed.
(** A lifetime of three centuries overflows: the token is never used. *)
Lemma long_lifetime_is_expired :
  let t := {| AccessToken := "a"; TokenType := "Bearer"; ExpiresIn := 9223372060; tr_RefreshToken := ""; tr_Scope := "" |} in
  (Token_ (λ _, inl ErrTokenExpired) (from_Unix 1001) (from_Unix 1001) (SetToken t (from_Unix 1000) NewOAuthClient)).1 = inl ErrTokenExpired.
Proof. by vm_compute. Qed.

(** What is known of a server is not asked for again within its time; a server may name any issuer. *)
Lemma Discover_cached decode_error net issuer m t now fetched d :
  d_entries d !! A2aRpc.trim_right_byte Sanitize.slash issuer = Some (m, t) → time_sub now t < d_TTL d →
  Discover decode_error net issuer now fetched d = (inr m, d).
Proof. intros H Ht. unfold Discover. rewrite H. destruct (time_sub now t <? d_TTL d) eqn:E0; [done|lia]. Qed.
Lemma other_issuer_is_believed :
  let net _ := inr (200, print true (JObject [("issuer", JString "https://evil"); ("token_endpoint", JString "https://evil/token")])) in
  (λ r, match r with inr m => Some (Issuer m, TokenEndpoint m) | inl _ => None end)
    (Discover (λ _, "") net "https://good/" 0 0 (NewMetadataDiscovery 0)).1 = Some ("https://evil", "https://evil/token").
Proof. by vm_compute. Qed.
(** An unknown key identifier is looked for anew on every request. *)
Lemma unknown_key_is_fetched_every_time decode_error kid answer now fetched v : keys v !! kid = None →
  getKey decode_error kid answer now fetched v =
  match fetchKeys decode_error answer fetched v with
  | inl e => (inl e, v)
  | inr v => (match keys v !! kid with Some key => inr key | None => inl (Err ("key " +:+ quote kid +:+ " not found in JWKS")) end, v)
  end.
Proof. intros H. unfold getKey. by rewrite H. Qed.
