(* ===== verification/Memory.v ===== *)
(** Memories (src/memory): the store in the process, with expiry, versions, filters and search, and the registry of
    stores.  Lower-casing is that of ASCII text.  The map is walked in any order. *)

From stdpp Require Import base tactics list gmap strings.
From Stdlib Require Import ZArith Lia.
From S2P Require Import Prelude.

Local Open Scope Z_scope.

(** ** Data (memory.go) *)
Definition Tier := string.
Definition TierEpisodic : Tier := "episodic".
Definition TierSemantic : Tier := "semantic".
Definition TierProcedural : Tier := "procedural".
Record MemoryEntry := {
  Key : string; Value : string; e_Tier : Tier; e_Tags : list string; Metadata : gmap string string; CreatedAt : time; UpdatedAt : time;
  ExpiresAt : option time; Version : Z }.
Record ListOptions := { lo_Tier : Tier; lo_Tags : list string; Prefix : string; lo_Limit : Z }.
Record SearchOptions := { so_Tier : Tier; so_Tags : list string; so_Limit : Z }.

(** ** The store (store_mem.go) *)
Notation InMemoryStore := (gmap string MemoryEntry).
Definition NewInMemoryStore : InMemoryStore := ∅.
Definition expired (now : time) (e : MemoryEntry) : bool := match ExpiresAt e with Some t => time_after now t | None => false end.
Definition Get (now : time) (key : string) (s : InMemoryStore) : option MemoryEntry * InMemoryStore :=
  match s !! key with
  | None => (None, s)
  | Some e => if expired now e then (None, delete key s) else (Some e, s)
  end.
Definition stamped (now created : time) (version : Z) (e : MemoryEntry) : MemoryEntry := {|
  Key := Key e; Value := Value e; e_Tier := e_Tier e; e_Tags := e_Tags e; Metadata := Metadata e; CreatedAt := created; UpdatedAt := now;
  ExpiresAt := ExpiresAt e; Version := version |}.
Definition Set_ (now : time) (e : MemoryEntry) (s : InMemoryStore) : InMemoryStore :=
  <[Key e := match s !! Key e with
             | Some old => stamped now (CreatedAt old) (add64 (Version old) 1) e
             | None => stamped now now 1 e
             end]> s.
Definition Delete (key : string) (s : InMemoryStore) : InMemoryStore := delete key s.

Definition hasAllTags (entryTags required : list string) : bool := forallb (λ t, bool_decide (t ∈ entryTags)) required.
Definition matchesQuery (e : MemoryEntry) (lq : string) : bool :=
  contains lq (to_lower (Key e)) || contains lq (to_lower (Value e)) ||
  existsb (λ t, contains lq (to_lower t)) (e_Tags e).
Definition of_tier (tier : Tier) (e : MemoryEntry) : bool := bool_decide (tier = "") || bool_decide (e_Tier e = tier).
Definition listed (o : ListOptions) (e : MemoryEntry) : bool :=
  of_tier (lo_Tier o) e && (bool_decide (Prefix o = "") || has_prefix (Prefix o) (Key e)) && hasAllTags (e_Tags e) (lo_Tags o).
Definition found (query : string) (o : SearchOptions) (e : MemoryEntry) : bool :=
  of_tier (so_Tier o) e && hasAllTags (e_Tags e) (so_Tags o) && matchesQuery e (to_lower query).

(** The walk of both: what has expired is dropped on the way, and the walk ends at the limit. *)
Fixpoint scan (now : time) (wanted : MemoryEntry → bool) (limit : Z) (walk : list MemoryEntry) (results : list MemoryEntry) (s : InMemoryStore) :
    list MemoryEntry * InMemoryStore :=
  match walk with
  | [] => (results, s)
  | e :: walk =>
      if expired now e then scan now wanted limit walk results (delete (Key e) s)
      else if negb (wanted e) then scan now wanted limit walk results s
      else let results := results ++ [e] in
           if (0 <? limit) && (limit <=? Z.of_nat (length results)) then (results, s) else scan now wanted limit walk results s
  end.
Definition List_ (now : time) (o : ListOptions) (walk : list MemoryEntry) (s : InMemoryStore) : list MemoryEntry * InMemoryStore :=
  scan now (listed o) (lo_Limit o) walk [] s.
Definition Search (now : time) (query : string) (o : SearchOptions) (walk : list MemoryEntry) (s : InMemoryStore) : list MemoryEntry * InMemoryStore :=
  scan now (found query o) (so_Limit o) walk [] s.

(** ** The registry of stores *)
Section Registry.
Context {Store : Type}.
Local Notation MemoryRegistry := (gmap string Store).
Definition NewMemoryRegistry (configs : list (option Store)) : MemoryRegistry :=
  match configs with Some s :: _ => {["default" := s]} | _ => ∅ end.
Definition Register (name : string) (s : Store) (r : MemoryRegistry) : MemoryRegistry := <[name := s]> r.
Definition Registry_Get (name : string) (r : MemoryRegistry) : option Store := r !! name.
Definition Names (r : MemoryRegistry) : list string := (map_to_list r).*1.
Definition Default (r : MemoryRegistry) : option Store := r !! "default".
Lemma register_get name s r name' : Registry_Get name' (Register name s r) = if decide (name = name') then Some s else Registry_Get name' r.
Proof. unfold Registry_Get, Register. destruct (decide (name = name')) as [->|]; [apply lookup_insert_eq|by apply lookup_insert_ne]. Qed.
End Registry.

(** ** What a store is: its live entries *)
Definition keyed (s : InMemoryStore) : Prop := ∀ k e, s !! k = Some e → Key e = k.
Definition live (now : time) (s : InMemoryStore) : gmap string MemoryEntry := filter (λ p, expired now p.2 = false) s.
Lemma live_lookup now s k e : live now s !! k = Some e ↔ s !! k = Some e ∧ expired now e = false.
Proof. unfold live. rewrite map_lookup_filter_Some. done. Qed.
Lemma live_delete now s k e : s !! k = Some e → expired now e = true → live now (delete k s) = live now s.
Proof.
  intros Hk He. apply map_eq. intros k'. apply option_eq. intros x. rewrite !live_lookup. rewrite lookup_delete_Some. split; [tauto|]. intros [H1 H2]. split; [split; [intros ->; congruence|done]|done].
Qed.

Section Scan.
Variables (now : time) (wanted : MemoryEntry → bool) (limit : Z).
Definition picks (e : MemoryEntry) : Prop := expired now e = false ∧ wanted e = true.
#[local] Instance picks_dec e : Decision (picks e). Proof. apply _. Defined.
(** The results are the first wanted entries of the walk. *)
Definition cut (n : nat) (l : list MemoryEntry) : list MemoryEntry := if 0 <? limit then take (Z.to_nat limit - n) l else l.
Lemma scan_spec walk : ∀ results s, keyed s → NoDup (Key <$> walk) → (∀ e, e ∈ walk → s !! Key e = Some e) →
  (0 < limit → Z.of_nat (length results) < limit) →
  let '(r, s') := scan now wanted limit walk results s in
  r = results ++ cut (length results) (filter picks walk) ∧ live now s' = live now s ∧ s' ⊆ s.
Proof.
  induction walk as [|e walk IH]; intros results s Hs Hnd Hin Hl; cbn [scan].
  { unfold cut. rewrite filter_nil. destruct (0 <? limit); [|by rewrite app_nil_r]. by rewrite take_nil, app_nil_r. }
  rewrite fmap_cons in Hnd. apply NoDup_cons in Hnd as [Hne Hnd]. assert (He : s !! Key e = Some e) by (apply Hin, list_elem_of_here).
  destruct (expired now e) eqn:Ee.
  - assert (Hs' : keyed (delete (Key e) s)) by (intros k x Hk; apply lookup_delete_Some in Hk as [_ Hk]; by apply Hs).
    assert (Hin' : ∀ x, x ∈ walk → delete (Key e) s !! Key x = Some x).
    { intros x Hx. apply lookup_delete_Some. split; [|by apply Hin, list_elem_of_further]. intros Hk. apply Hne. rewrite Hk. by apply list_elem_of_fmap_2. }
    specialize (IH results (delete (Key e) s) Hs' Hnd Hin' Hl). destruct (scan _ _ _ _ _ _) as [r s']. destruct IH as (-> & Hlive & Hsub).
    rewrite filter_cons_False by (intros [? _]; congruence). split; [done|]. split; [by rewrite Hlive, (live_delete now s (Key e) e)|].
    etransitivity; [exact Hsub|]. apply delete_subseteq.
  - assert (Hin' : ∀ x, x ∈ walk → s !! Key x = Some x) by (intros; by apply Hin, list_elem_of_further).
    destruct (wanted e) eqn:Ew; cbn [negb].
    + rewrite filter_cons_True by done. destruct ((0 <? limit) && (limit <=? Z.of_nat (length (results ++ [e])))) eqn:Elim.
      * apply andb_true_iff in Elim as [E1 E2]. rewrite length_app in E2. cbn [length] in E2. split; [|done]. f_equal. unfold cut. rewrite E1.
        pose proof (Hl ltac:(lia)) as Hl'.
        apply Z.leb_le in E2. assert (Z.to_nat limit - length results = 1)%nat as -> by (clear -E2 Hl'; lia). done.
      * specialize (IH (results ++ [e]) s Hs Hnd Hin'). rewrite length_app in IH, Elim. cbn [length] in IH, Elim.
        assert (Hl' : 0 < limit → Z.of_nat (length results + 1) < limit) by (apply andb_false_iff in Elim as [E1%Z.ltb_ge|E1%Z.leb_gt]; clear -E1; lia).
        specialize (IH Hl'). destruct (scan _ _ _ _ _ _) as [r s']. destruct IH as (-> & Hrest). split; [|done]. rewrite <- app_assoc. f_equal. cbn [app].
        unfold cut. destruct (0 <? limit) eqn:E1; [|done]. pose proof (Hl' (proj1 (Z.ltb_lt _ _) E1)) as Hl2.
        assert (Z.to_nat limit - length results = S (Z.to_nat limit - (length results + 1)))%nat as -> by (clear -Hl2; lia). done.
    + rewrite filter_cons_False by (intros [_ ?]; congruence). by apply IH.
Qed.
End Scan.

Definition walks (walk : list MemoryEntry) (s : InMemoryStore) : Prop := walk ≡ₚ (map_to_list s).*2.
Lemma walk_facts walk s : keyed s → walks walk s → NoDup (Key <$> walk) ∧ ∀ e, e ∈ walk ↔ s !! Key e = Some e.
Proof.
  intros Hs Hw. assert (Hk : Key <$> (map_to_list s).*2 = (map_to_list s).*1).
  { rewrite <- list_fmap_compose. apply list_fmap_ext. intros i [k e] Hi. cbn. apply Hs. by eapply elem_of_map_to_list, list_elem_of_lookup_2. }
  split.
  - unfold walks in Hw. rewrite (fmap_Permutation Key _ _ Hw), Hk. apply NoDup_fst_map_to_list.
  - intros e. unfold walks in Hw. rewrite Hw, list_elem_of_fmap. split.
    + intros ([k x] & -> & Hin). apply elem_of_map_to_list in Hin. cbn. by rewrite (Hs k x Hin).
    + intros H. exists (Key e, e). split; [done|]. by apply elem_of_map_to_list.
Qed.
Lemma length_scan_start limit : 0 < limit → Z.of_nat (length (@nil MemoryEntry)) < limit.
Proof. done. Qed.

(** A walk to the end finds what is live and wanted, each once; one that stops at the limit finds that many. *)
Lemma scan_finds now wanted limit walk s : keyed s → walks walk s →
  let '(r, s') := scan now wanted limit walk [] s in
  live now s' = live now s ∧ s' ⊆ s ∧ NoDup (Key <$> r) ∧ (∀ e, e ∈ r → live now s !! Key e = Some e ∧ wanted e = true) ∧
  (0 < limit → Z.of_nat (length r) <= limit) ∧
  (limit <= 0 ∨ Z.of_nat (length r) < limit → ∀ e, live now s !! Key e = Some e → wanted e = true → e ∈ r).
Proof.
  intros Hs Hw. destruct (walk_facts walk s Hs Hw) as [Hnd Hin].
  pose proof (scan_spec now wanted limit walk [] s Hs Hnd (λ e, proj1 (Hin e)) (length_scan_start limit)) as H.
  destruct (scan now wanted limit walk [] s) as [r s']. destruct H as (-> & Hlive & Hsub). cbn [app length]. split; [done|]. split; [done|].
  set (l := filter (picks now wanted) walk). assert (Hl : l `sublist_of` walk) by apply sublist_filter.
  assert (Hcut : cut limit 0 l `sublist_of` l) by (unfold cut; destruct (0 <? limit); [apply sublist_take|done]). split; [|split; [|split]].
  - eapply sublist_NoDup; [exact Hnd|]. apply fmap_sublist. by etransitivity.
  - intros e He. assert (e ∈ l) as He' by (by eapply elem_of_sublist). unfold l in He'. apply list_elem_of_filter in He' as [[H1 H2] He'].
    split; [|done]. apply live_lookup. split; [by apply Hin|done].
  - intros Hpos. unfold cut. rewrite (proj2 (Z.ltb_lt _ _) Hpos), length_take. clear -Hpos. lia.
  - intros Hlim e He Hwanted. apply live_lookup in He as [He Hex].
    assert (e ∈ l) by (unfold l; apply list_elem_of_filter; split; [done|by apply Hin]).
    enough (cut limit 0 l = l) as -> by done. unfold cut. destruct (0 <? limit) eqn:E; [|done]. apply Z.ltb_lt in E. apply take_ge.
    destruct Hlim as [Hlim|Hlim]; [clear -E Hlim; lia|]. unfold cut in Hlim. rewrite (proj2 (Z.ltb_lt _ _) E), length_take in Hlim. clear -Hlim E. lia.
Qed.

(** ** Histories *)
Inductive Op :=
| OpGet (key : string) | OpSet (e : MemoryEntry) | OpDelete (key : string)
| OpList (o : ListOptions) (walk : InMemoryStore → list MemoryEntry) | OpSearch (query : string) (o : SearchOptions) (walk : InMemoryStore → list MemoryEntry).
Definition step (s : InMemoryStore) (op : time * Op) : InMemoryStore :=
  match op.2 with
  | OpGet key => (Get op.1 key s).2
  | OpSet e => Set_ op.1 e s
  | OpDelete key => Delete key s
  | OpList o walk => (List_ op.1 o (walk s) s).2
  | OpSearch q o walk => (Search op.1 q o (walk s) s).2
  end.
(** Walks are walks of the map. *)
Definition fair (op : time * Op) : Prop :=
  match op.2 with OpList _ walk | OpSearch _ _ walk => ∀ s, walks (walk s) s | _ => True end.
Lemma keyed_subset s s' : keyed s → s' ⊆ s → keyed s'.
Proof. intros Hs Hsub k e Hk. apply Hs. by eapply lookup_weaken. Qed.
Lemma step_keyed s op : fair op → keyed s → keyed (step s op).
Proof.
  intros Hf Hs. destruct op as [now [key|e|key|o walk|q o walk]]; cbn [step fst snd] in *.
  - unfold Get. destruct (s !! key) as [x|]; [|done]. destruct (expired now x); [|done]. eapply keyed_subset; [exact Hs|]. apply delete_subseteq.
  - unfold Set_. intros k x [[<- <-]|[_ Hx]]%lookup_insert_Some; [by destruct (s !! Key e)|by apply Hs].
  - eapply keyed_subset; [exact Hs|]. apply delete_subseteq.
  - pose proof (scan_finds now (listed o) (lo_Limit o) (walk s) s Hs (Hf s)) as H. unfold List_. destruct (scan _ _ _ _ _ _). eapply keyed_subset; [exact Hs|]. apply H.
  - pose proof (scan_finds now (found q o) (so_Limit o) (walk s) s Hs (Hf s)) as H. unfold Search. destruct (scan _ _ _ _ _ _). eapply keyed_subset; [exact Hs|]. apply H.
Qed.
Lemma run_keyed ops : Forall fair ops → keyed (foldl step NewInMemoryStore ops).
Proof.
  assert (∀ s, keyed s → Forall fair ops → keyed (foldl step s ops)) as H.
  { induction ops as [|op ops IH]; intros s Hs Hf; [done|]. inversion Hf; subst. apply IH; [by apply step_keyed|done]. }
  apply H. intros k e Hk. unfold NewInMemoryStore in Hk. by rewrite lookup_empty in Hk.
Qed.

(** After any history the store is the map of its live entries: reading one gives the live entry, listing and searching
    give live entries that match, each once, as many as the limit allows and all of them below it, in whatever order
    the map is walked; none of them changes what is live; storing an entry changes that one entry, with the
    next version of the one that is there. *)
Theorem store_is_its_live_entries ops now (Hops : Forall fair ops) :
  let s := foldl step NewInMemoryStore ops in
  (∀ key, (Get now key s).1 = live now s !! key ∧ live now (Get now key s).2 = live now s) ∧
  (∀ wanted limit walk, walks walk s → let '(r, s') := scan now wanted limit walk [] s in
     live now s' = live now s ∧ NoDup (Key <$> r) ∧ (∀ e, e ∈ r → live now s !! Key e = Some e ∧ wanted e = true) ∧
     (0 < limit → Z.of_nat (length r) <= limit) ∧
     (limit <= 0 ∨ Z.of_nat (length r) < limit → ∀ e, live now s !! Key e = Some e → wanted e = true → e ∈ r)) ∧
  (∀ e, expired now e = false → live now (Set_ now e s) =
     <[Key e := match s !! Key e with Some old => stamped now (CreatedAt old) (add64 (Version old) 1) e | None => stamped now now 1 e end]> (live now s)).
Proof.
  intros s. assert (Hs : keyed s) by (by apply run_keyed). clearbody s. split; [|split].
  - intros key. unfold Get. destruct (s !! key) as [e|] eqn:E; [destruct (expired now e) eqn:Ee|].
    + cbn [fst snd]. split; [|by apply (live_delete now s key e)]. symmetry. apply eq_None_not_Some. intros [x Hx]. apply live_lookup in Hx as [Hx Hx']. congruence.
    + cbn [fst snd]. split; [|done]. symmetry. by apply live_lookup.
    + cbn [fst snd]. split; [|done]. symmetry. apply eq_None_not_Some. intros [x Hx]. apply live_lookup in Hx as [Hx _]. congruence.
  - intros wanted limit walk Hw. pose proof (scan_finds now wanted limit walk s Hs Hw) as H. destruct (scan _ _ _ _ _ _) as [r s']. tauto.
  - intros e He. unfold Set_. set (e' := match s !! Key e with Some old => _ | None => _ end).
    assert (He' : expired now e' = false) by (unfold e'; by destruct (s !! Key e)). clearbody e'.
    apply map_eq. intros k. apply option_eq. intros x. rewrite live_lookup, !lookup_insert_Some, live_lookup. split.
    + intros [[[<- <-]|[Hk Hx]] Hex]; [by left|right; done].
    + intros [[<- <-]|(Hk & Hx & Hex)]; [split; [by left|done]|split; [by right|done]].
Qed.
Definition demo_entry (key : string) (expires : option time) : MemoryEntry := {|
  Key := key; Value := "v"; e_Tier := TierSemantic; e_Tags := []; Metadata := ∅; CreatedAt := 0; UpdatedAt := 0; ExpiresAt := expires; Version := 0 |}.
Definition demo_ops : list (time * Op) :=
  [(1, OpSet (demo_entry "a" None)); (2, OpSet (demo_entry "b" (Some 3))); (4, OpGet "b"); (5, OpSet (demo_entry "a" (Some 9)));
   (6, OpList {| lo_Tier := ""; lo_Tags := []; Prefix := ""; lo_Limit := 1 |} (λ s, (map_to_list s).*2))].
Lemma store_is_its_live_entries_witness :
  let s := foldl step NewInMemoryStore demo_ops in
  (Version <$> s !! "a") = Some 2 ∧
  (∀ key, (Get 7 key s).1 = live 7 s !! key ∧ live 7 (Get 7 key s).2 = live 7 s).
Proof.
  split; [by vm_compute|]. refine (proj1 (store_is_its_live_entries demo_ops 7 _)). repeat constructor; try exact I. intros s0. unfold walks. reflexivity.
Defined.

(** An entry that has expired but was not looked at lends its creation time and its version to the one that replaces it. *)
Lemma expired_entry_lives_on :
  let s := Set_ 10 (demo_entry "a" None) (Set_ 1 (demo_entry "a" (Some 5)) NewInMemoryStore) in
  live 9 (Set_ 1 (demo_entry "a" (Some 5)) NewInMemoryStore) = ∅ ∧ (Version <$> s !! "a") = Some 2 ∧ (CreatedAt <$> s !! "a") = Some 1.
Proof. by vm_compute. Qed.
