(* ===== verification/Wire.v ===== *)
(** What the registries of resources (src/resources) and prompts (src/prompts) have in common: handlers that return or
    panic, the guard around them, tables published on a server, and the callback that keeps a server in step. *)

From stdpp Require Import base tactics list gmap strings sorting.
From Stdlib Require Import ZArith Lia.
From S2P Require Import Prelude.

Local Open Scope Z_scope.

(** ** Handlers *)
Inductive outcome (A : Type) := Returns (result : A) (err : option error) | Panics (value : string).
Arguments Returns {A}. Arguments Panics {A}.

Section Handlers.
Context {Ctx Req W A D : Type}.
Definition HandlerFunc := Ctx → Req → st W (outcome A).
Definition Middleware := string → D → HandlerFunc → HandlerFunc.

(** The chain, outermost first. *)
Definition chain (middleware : list Middleware) (name : string) (d : D) (handler : HandlerFunc) : HandlerFunc :=
  foldr (λ m next, m name d next) handler middleware.

(** The guard: a deadline when the caller brings none, and a panic turned into an error. *)
Definition guarded (has_deadline : Ctx → bool) (with_timeout : Ctx → duration → Ctx) (zero : A) (timeout : duration)
    (panic_text : string → string) (handler : HandlerFunc) (ctx : Ctx) (request : Req) (w : W) : (A * option error) * W :=
  let ctx := if has_deadline ctx then ctx else with_timeout ctx timeout in
  match handler ctx request w with
  | (Returns result err, w') => ((result, err), w')
  | (Panics v, w') => ((zero, Some (Err (panic_text v))), w')
  end.

(** A guarded handler always answers: what the chain returns, or an error that says what it panicked with; and the
    chain runs under a deadline. *)
Lemma guarded_answers hd wt zero timeout panic_text (handler : HandlerFunc) ctx request w :
  (∀ c d, hd (wt c d) = true) →
  ∃ ctx', hd ctx' = true ∧ (hd ctx = true → ctx' = ctx) ∧
    guarded hd wt zero timeout panic_text handler ctx request w =
    match handler ctx' request w with
    | (Returns result err, w') => ((result, err), w')
    | (Panics v, w') => ((zero, Some (Err (panic_text v))), w')
    end.
Proof. intros Hwt. exists (if hd ctx then ctx else wt ctx timeout). unfold guarded. destruct (hd ctx) eqn:E; rewrite ?E, ?Hwt; done. Qed.
End Handlers.
Arguments HandlerFunc : clear implicits.
Arguments Middleware : clear implicits.

(** ** Published tables *)
Section Published.
Context {D P : Type}.
Variable key : D → string.
Variable pub : D → P.

Definition keyed (table : gmap string D) : Prop := ∀ k d, table !! k = Some d → key d = k.
Definition walk_of (walk : list (string * D)) (table : gmap string D) : Prop := walk ≡ₚ map_to_list table.

Definition publish (s : gmap string P) (p : string * D) : gmap string P := <[key p.2 := pub p.2]> s.
Definition publish_new (known : gset string) (walk : list (string * D)) (s : gmap string P) : gmap string P :=
  foldl (λ s p, if decide (p.1 ∈ known) then s else publish s p) s walk.
Definition unpublish (gone : gset string) (s : gmap string P) : gmap string P := filter (λ p : string * P, p.1 ∉ gone) s.

Lemma keyed_empty : keyed ∅.
Proof. intros k d H. by rewrite lookup_empty in H. Qed.
Lemma keyed_insert table d : keyed table → keyed (<[key d := d]> table).
Proof. intros H k x [[<- <-]|[_ Hx]]%lookup_insert_Some; [done|by apply H]. Qed.
Lemma keyed_delete table k : keyed table → keyed (delete k table).
Proof. intros H k' x [_ Hx]%lookup_delete_Some. by apply H. Qed.
Lemma keyed_inserts table ds : keyed table → keyed (foldl (λ t d, <[key d := d]> t) table ds).
Proof. revert table. induction ds as [|d ds IH]; intros table H; [done|]. by apply IH, keyed_insert. Qed.

Lemma publish_new_fold known walk s k :
  NoDup walk.*1 → Forall (λ p, key p.2 = p.1) walk →
  publish_new known walk s !! k =
  if decide (k ∈ known) then s !! k
  else match list_to_map (M := gmap string D) walk !! k with Some d => Some (pub d) | None => s !! k end.
Proof.
  unfold publish_new. revert s. induction walk as [|[k' d] walk IH]; intros s Hnd Hk; cbn [foldl].
  { cbn. rewrite lookup_empty. by case_decide. }
  cbn in Hnd. apply NoDup_cons in Hnd as [Hnot Hnd]. inversion Hk as [|? ? Hk1 Hk2]; subst. cbn in Hk1. rewrite IH by done. cbn [list_to_map foldr fst snd uncurry].
  rewrite lookup_insert. unfold publish. cbn [fst snd]. rewrite Hk1. destruct (decide (k' = k)) as [->|Hne].
  - assert (list_to_map (M := gmap string D) walk !! k = None) as -> by by apply not_elem_of_list_to_map_1.
    case_decide; [done|]. by rewrite lookup_insert_eq.
  - repeat case_decide; try done; rewrite ?lookup_insert_ne by done; done.
Qed.
Lemma publish_new_lookup table walk known s k : keyed table → walk_of walk table →
  publish_new known walk s !! k =
  if decide (k ∈ known) then s !! k else match table !! k with Some d => Some (pub d) | None => s !! k end.
Proof.
  intros Hk Hw. unfold walk_of in Hw. assert (Hnd : NoDup walk.*1) by (rewrite Hw; apply NoDup_fst_map_to_list).
  rewrite publish_new_fold; [|done|].
  - rewrite (list_to_map_proper walk (map_to_list table)) by done. by rewrite list_to_map_to_list.
  - apply Forall_forall. intros [k' d] Hin. rewrite Hw in Hin. apply elem_of_map_to_list in Hin. by apply Hk.
Qed.
Lemma publish_all_lookup table walk s k : keyed table → walk_of walk table →
  foldl publish s walk !! k = match table !! k with Some d => Some (pub d) | None => s !! k end.
Proof.
  intros Hk Hw. assert (foldl publish s walk = publish_new ∅ walk s) as ->.
  { unfold publish_new. clear. revert s. induction walk as [|p walk IH]; intros s; [done|]. cbn [foldl]. by rewrite IH. }
  by rewrite (publish_new_lookup table).
Qed.
Lemma unpublish_lookup gone s k : unpublish gone s !! k = if decide (k ∈ gone) then None else s !! k.
Proof.
  unfold unpublish. case_decide.
  - apply map_lookup_filter_None. right. intros x _ Hx. by apply Hx.
  - destruct (s !! k) as [x|] eqn:E; [by apply map_lookup_filter_Some|]. apply map_lookup_filter_None. by left.
Qed.

(** ** The callback

    It publishes what is new since its last run and withdraws what is gone. *)
Definition synced (table : gmap string D) (known : gset string) (walk : list (string * D)) (s : gmap string P) : gmap string P :=
  unpublish (known ∖ dom table) (publish_new known walk s).

Lemma synced_lookup table known walk s k : keyed table → walk_of walk table → dom s = known →
  synced table known walk s !! k =
  match table !! k with Some d => if decide (k ∈ known) then s !! k else Some (pub d) | None => None end.
Proof.
  intros Hk Hw Hs. unfold synced. rewrite unpublish_lookup, (publish_new_lookup table) by done.
  destruct (table !! k) as [d|] eqn:E.
  - rewrite decide_False; [done|]. intros [_ Hd]%elem_of_difference. apply Hd, elem_of_dom. by eexists.
  - destruct (decide (k ∈ known)) as [Hin|Hin].
    + rewrite decide_True; [done|]. apply elem_of_difference. split; [done|]. by apply not_elem_of_dom.
    + rewrite decide_False by (intros [? _]%elem_of_difference; done). apply not_elem_of_dom. by rewrite Hs.
Qed.
Lemma synced_dom table known walk s : keyed table → walk_of walk table → dom s = known → dom (synced table known walk s) = dom table.
Proof.
  intros Hk Hw Hs. apply set_eq. intros k. rewrite !elem_of_dom, synced_lookup by done.
  destruct (table !! k) as [d|]; [|done]. split; [by eexists|]. intros _. case_decide as Hin; [|by eexists]. rewrite <- Hs in Hin. by apply elem_of_dom.
Qed.
(** What is published comes from what was published or from the table. *)
Lemma synced_from table known walk s k p : keyed table → walk_of walk table → dom s = known →
  synced table known walk s !! k = Some p → s !! k = Some p ∨ ∃ d, table !! k = Some d ∧ p = pub d.
Proof.
  intros Hk Hw Hs H. rewrite synced_lookup in H by done. destruct (table !! k) as [d|]; [|done].
  case_decide; [by left|]. right. exists d. split; [done|]. congruence.
Qed.
End Published.
