(* ===== verification/Resources.v ===== *)
(** Resources (src/resources): the registry of resources and templates, reads through its middleware, URI validation,
    handlers made from plain functions, and the dynamic registry that keeps a running server in step. *)

From stdpp Require Import base tactics list gmap strings sorting.
From Stdlib Require Import ZArith Lia.
From S2P Require Import Prelude Sanitize Wire.

Local Open Scope Z_scope.

(** ** Data (resources.go) *)
Record Resource := { URI : string; Name : string; Description : string; MIMEType : string }.
Record ResourceTemplate := { URITemplate : string; t_Name : string; t_Description : string; t_MIMEType : string }.
Record ReadResourceRequest := { Params_URI : string }.
Inductive ResourceContents := TextResourceContents (uri mimeType text : string) | BlobResourceContents (uri mimeType blob : string).

Section Resources.
Context {Ctx W : Type}.
Variable has_deadline : Ctx → bool.
Variable with_timeout : Ctx → duration → Ctx.
Variable stack : string.

Definition ResourceHandlerFunc := HandlerFunc Ctx ReadResourceRequest W (list ResourceContents).
Record ResourceDefinition := {
  rd_Resource : Resource; Handler : ResourceHandlerFunc; Category : string; Tags : list string; CacheTTL : duration }.
Record TemplateDefinition := {
  td_Template : ResourceTemplate; td_Handler : ResourceHandlerFunc; td_Category : string; td_Tags : list string }.
Definition Middleware := Wire.Middleware Ctx ReadResourceRequest W (list ResourceContents) ResourceDefinition.
Record ResourceModule := {
  mod_Name : string; mod_Description : string; mod_Resources : list ResourceDefinition; mod_Templates : list TemplateDefinition }.
Definition DefaultReadTimeout : duration := 30 * Second.
Record Config := { DefaultTimeout : duration; Subscribe : bool; ListChanged : bool; MiddlewareChain : list Middleware }.
Record ResourceRegistry := {
  modules : gmap string ResourceModule; resources : gmap string ResourceDefinition; templates : gmap string TemplateDefinition;
  config : Config }.
Definition zero_config : Config := {| DefaultTimeout := 0; Subscribe := false; ListChanged := false; MiddlewareChain := [] |}.

Definition rd_uri (rd : ResourceDefinition) : string := URI (rd_Resource rd).
Definition td_uri (td : TemplateDefinition) : string := URITemplate (td_Template td).

(** ** The registry *)
Definition NewResourceRegistry (configs : list Config) : ResourceRegistry :=
  let cfg := match configs with c :: _ => c | [] => zero_config end in
  {| modules := ∅; resources := ∅; templates := ∅;
     config := if DefaultTimeout cfg =? 0
               then {| DefaultTimeout := DefaultReadTimeout; Subscribe := Subscribe cfg; ListChanged := ListChanged cfg;
                       MiddlewareChain := MiddlewareChain cfg |}
               else cfg |}.
Definition set_tables (m : gmap string ResourceModule) (rs : gmap string ResourceDefinition) (ts : gmap string TemplateDefinition)
    (r : ResourceRegistry) : ResourceRegistry := {| modules := m; resources := rs; templates := ts; config := config r |}.
Definition RegisterModule (m : ResourceModule) (r : ResourceRegistry) : ResourceRegistry :=
  set_tables (<[mod_Name m := m]> (modules r))
    (foldl (λ t rd, <[rd_uri rd := rd]> t) (resources r) (mod_Resources m))
    (foldl (λ t td, <[td_uri td := td]> t) (templates r) (mod_Templates m)) r.
Definition GetResource (r : ResourceRegistry) (uri : string) : option ResourceDefinition := resources r !! uri.
Definition GetTemplate (r : ResourceRegistry) (uriTemplate : string) : option TemplateDefinition := templates r !! uriTemplate.
Definition GetModule (r : ResourceRegistry) (name : string) : option ResourceModule := modules r !! name.
Definition ListResources (r : ResourceRegistry) : list string := sorted_keys (resources r).
Definition ListTemplates (r : ResourceRegistry) : list string := sorted_keys (templates r).
Definition ListResourcesByCategory (r : ResourceRegistry) (category : string) : list string :=
  sorted_keys (filter (λ p : string * ResourceDefinition, Category p.2 = category) (resources r)).
Definition GetAllResourceDefinitions (r : ResourceRegistry) : list ResourceDefinition := (map_to_list (resources r)).*2.
Definition GetAllTemplateDefinitions (r : ResourceRegistry) : list TemplateDefinition := (map_to_list (templates r)).*2.
Definition ResourceCount (r : ResourceRegistry) : nat := size (resources r).
Definition TemplateCount (r : ResourceRegistry) : nat := size (templates r).
Definition ModuleCount (r : ResourceRegistry) : nat := size (modules r).

Definition matchesResource (rd : ResourceDefinition) (query : string) : bool :=
  contains query (to_lower (URI (rd_Resource rd))) || contains query (to_lower (Name (rd_Resource rd))) ||
  contains query (to_lower (Description (rd_Resource rd))) || same_fold (Category rd) query ||
  existsb (λ tag, contains query (to_lower tag)) (Tags rd).
Definition uri_le (a b : ResourceDefinition) : Prop := String.le (rd_uri a) (rd_uri b).
#[export] Instance uri_le_dec : RelDecision uri_le.
Proof. intros a b. unfold uri_le. apply _. Defined.
Definition SearchResources (r : ResourceRegistry) (query : string) : list ResourceDefinition :=
  let query := to_lower query in merge_sort uri_le (filter (λ rd, matchesResource rd query = true) (GetAllResourceDefinitions r)).

(** ** Reads *)
Definition panic_reading (what uri v : string) : string := "panic reading " +:+ what +:+ " " +:+ uri +:+ ": " +:+ v +:+ newline +:+ stack.
Notation Served := (Ctx → ReadResourceRequest → W → (list ResourceContents * option error) * W).
Definition wrapHandler (cfg : Config) (uri : string) (rd : ResourceDefinition) : Served :=
  guarded has_deadline with_timeout [] (DefaultTimeout cfg) (panic_reading "resource" uri) (chain (MiddlewareChain cfg) uri rd (Handler rd)).
(** Templates go through the same middleware, which sees them as a resource. *)
Definition as_resource (uriTemplate : string) (td : TemplateDefinition) : ResourceDefinition := {|
  rd_Resource := {| URI := uriTemplate; Name := t_Name (td_Template td); Description := t_Description (td_Template td);
                    MIMEType := t_MIMEType (td_Template td) |};
  Handler := td_Handler td; Category := td_Category td; Tags := td_Tags td; CacheTTL := 0 |}.
Definition wrapTemplateHandler (cfg : Config) (uriTemplate : string) (td : TemplateDefinition) : Served :=
  guarded has_deadline with_timeout [] (DefaultTimeout cfg) (panic_reading "resource template" uriTemplate)
    (chain (MiddlewareChain cfg) uriTemplate (as_resource uriTemplate td) (td_Handler td)).

(** ** Publication, on a server with a table for each kind *)
Record MCPServer := { s_resources : gmap string (Resource * Served); s_templates : gmap string (ResourceTemplate * Served) }.
Definition pub_resource (cfg : Config) (rd : ResourceDefinition) : Resource * Served := (rd_Resource rd, wrapHandler cfg (rd_uri rd) rd).
Definition pub_template (cfg : Config) (td : TemplateDefinition) : ResourceTemplate * Served :=
  (td_Template td, wrapTemplateHandler cfg (td_uri td) td).
Definition RegisterWithServer (r : ResourceRegistry) (walk : list (string * ResourceDefinition)) (twalk : list (string * TemplateDefinition))
    (s : MCPServer) : MCPServer := {|
  s_resources := foldl (publish rd_uri (pub_resource (config r))) (s_resources s) walk;
  s_templates := foldl (publish td_uri (pub_template (config r))) (s_templates s) twalk |}.

(** ** Validation of the requested URI (uri_middleware.go) *)
Definition URIValidationMiddleware (parse : string → error + URL) (policy : URIPolicy) : Middleware :=
  λ uri rd next ctx req w,
    let requestURI := if bool_decide (Params_URI req = "") then uri else Params_URI req in
    match ValidateURI parse requestURI policy with
    | inl err => (Returns [] (Some (ErrWrap "resource URI validation failed: " err "")), w)
    | inr _ => next ctx req w
    end.

(** ** Handlers from plain functions (handler_adapters.go), and their call (invoke.go) *)
Definition TextResourceHandler (fn : Ctx → string → st W (string * string * option error)) : ResourceHandlerFunc :=
  λ ctx req w,
    let '((mimeType, text, err), w) := fn ctx (Params_URI req) w in
    match err with
    | Some err => (Returns [] (Some err), w)
    | None => (Returns [TextResourceContents (Params_URI req) mimeType text] None, w)
    end.
Definition JSONResourceHandler {V} (marshal : V → error + string) (fn : Ctx → string → st W (V * option error)) : ResourceHandlerFunc :=
  λ ctx req w,
    let '((data, err), w) := fn ctx (Params_URI req) w in
    match err with
    | Some err => (Returns [] (Some err), w)
    | None => match marshal data with
              | inl err => (Returns [] (Some err), w)
              | inr b => (Returns [TextResourceContents (Params_URI req) "application/json" b] None, w)
              end
    end.
(** [None]: the handler panicked. *)
Definition CallHandlerText (ctx : Ctx) (h : ResourceHandlerFunc) (uri : string) (w : W) : option (error + string * string) * W :=
  match h ctx {| Params_URI := uri |} w with
  | (Panics _, w) => (None, w)
  | (Returns _ (Some err), w) => (Some (inl err), w)
  | (Returns [] None, w) => (Some (inl (Err ("resources: handler returned no contents for " +:+ quote uri))), w)
  | (Returns (TextResourceContents _ mimeType text :: _) None, w) => (Some (inr (mimeType, text)), w)
  | (Returns (BlobResourceContents _ _ _ :: _) None, w) =>
      (Some (inl (Err ("resources: first content for " +:+ quote uri +:+ " is mcp.BlobResourceContents, want TextResourceContents"))), w)
  end.

(** ** The dynamic registry (dynamic.go) and the wiring to a server (notify.go)

    A change takes effect under the lock of the tables; the listeners are called after it, so calls of several
    goroutines can be under way at once ([pending]) and the callback runs them one by one. *)
Record Live := {
  reg : ResourceRegistry; server : MCPServer; prevRes : gset string; prevTmpl : gset string; pending : nat }.

Definition AddResource (rd : ResourceDefinition) (r : ResourceRegistry) : ResourceRegistry :=
  set_tables (modules r) (<[rd_uri rd := rd]> (resources r)) (templates r) r.
Definition AddTemplate (td : TemplateDefinition) (r : ResourceRegistry) : ResourceRegistry :=
  set_tables (modules r) (resources r) (<[td_uri td := td]> (templates r)) r.
Definition RemoveResource (uri : string) (r : ResourceRegistry) : bool * ResourceRegistry :=
  if bool_decide (is_Some (resources r !! uri)) then (true, set_tables (modules r) (delete uri (resources r)) (templates r) r) else (false, r).
Definition RemoveTemplate (uriTemplate : string) (r : ResourceRegistry) : bool * ResourceRegistry :=
  if bool_decide (is_Some (templates r !! uriTemplate))
  then (true, set_tables (modules r) (resources r) (delete uriTemplate (templates r)) r) else (false, r).

Inductive change := CAddResource (rd : ResourceDefinition) | CRemoveResource (uri : string)
                  | CAddTemplate (td : TemplateDefinition) | CRemoveTemplate (uri : string) | CRegisterModule (m : ResourceModule).
(** The registry after a change, and whether the listeners are called. *)
Definition apply_change (c : change) (r : ResourceRegistry) : bool * ResourceRegistry :=
  match c with
  | CAddResource rd => (true, AddResource rd r)
  | CAddTemplate td => (true, AddTemplate td r)
  | CRemoveResource uri => RemoveResource uri r
  | CRemoveTemplate uri => RemoveTemplate uri r
  | CRegisterModule m => (false, RegisterModule m r)
  end.

Definition WireResourceListChanged (r : ResourceRegistry) (s : MCPServer) : Live :=
  {| reg := r; server := s; prevRes := dom (resources r); prevTmpl := dom (templates r); pending := 0 |}.
Definition Dynamic_RegisterWithServer (r : ResourceRegistry) walk twalk (s : MCPServer) : Live :=
  WireResourceListChanged r (RegisterWithServer r walk twalk s).
(** One run of the callback: resources come and go, templates only come. *)
Definition run_callback (walk : list (string * ResourceDefinition)) (twalk : list (string * TemplateDefinition)) (l : Live) : Live := {|
  reg := reg l;
  server := {|
    s_resources := synced rd_uri (pub_resource (config (reg l))) (resources (reg l)) (prevRes l) walk (s_resources (server l));
    s_templates := publish_new td_uri (pub_template (config (reg l))) (prevTmpl l) twalk (s_templates (server l)) |};
  prevRes := dom (resources (reg l)); prevTmpl := dom (templates (reg l)); pending := pred (pending l) |}.

Inductive live_step : Live → option change → Live → Prop :=
| LiveChange l c called r' : apply_change c (reg l) = (called, r') →
    live_step l (Some c) {| reg := r'; server := server l; prevRes := prevRes l; prevTmpl := prevTmpl l;
                            pending := if called then S (pending l) else pending l |}
| LiveNotify l walk twalk : (0 < pending l)%nat → walk_of walk (resources (reg l)) → walk_of twalk (templates (reg l)) →
    live_step l None (run_callback walk twalk l).
Inductive live_steps : Live → list (option change) → Live → Prop :=
| live_refl l : live_steps l [] l
| live_next l1 evs l2 ev l3 : live_steps l1 evs l2 → live_step l2 ev l3 → live_steps l1 (evs ++ [ev]) l3.
End Resources.
Arguments ResourceHandlerFunc : clear implicits.
Arguments ResourceDefinition : clear implicits.
Arguments TemplateDefinition : clear implicits.
Arguments ResourceRegistry : clear implicits.
Arguments ResourceModule : clear implicits.
Arguments Config : clear implicits.
Arguments MCPServer : clear implicits.
Arguments Live : clear implicits.
Arguments change : clear implicits.
Arguments Middleware : clear implicits.

(** ** What the registry lists and finds *)
Section Facts.
Context {Ctx W : Type}.
Implicit Types (r : ResourceRegistry Ctx W) (rd : ResourceDefinition Ctx W) (td : TemplateDefinition Ctx W).

Definition reg_keyed r : Prop := keyed rd_uri (resources r) ∧ keyed td_uri (templates r).
Lemma new_keyed cfgs : reg_keyed (NewResourceRegistry (Ctx := Ctx) (W := W) cfgs).
Proof. split; apply keyed_empty. Qed.
Lemma change_keyed c r : reg_keyed r → reg_keyed (apply_change c r).2.
Proof.
  intros [H1 H2]. destruct c; cbn; unfold RemoveResource, RemoveTemplate; repeat case_bool_decide; cbn; split; cbn;
    auto using keyed_insert, keyed_delete, keyed_inserts.
Qed.
Lemma changes_keyed cfgs cs : reg_keyed (foldl (λ r c, (apply_change c r).2) (NewResourceRegistry (Ctx := Ctx) (W := W) cfgs) cs).
Proof.
  assert (∀ r, reg_keyed r → reg_keyed (foldl (λ r c, (apply_change c r).2) r cs)) as H; [|apply H, new_keyed].
  induction cs as [|c cs IH]; intros r Hr; [done|]. by apply IH, change_keyed.
Qed.

(** A search finds exactly the registered resources that match, sorted by URI and each once. *)
Theorem search_resources_spec r query : reg_keyed r →
  Sorted uri_le (SearchResources r query) ∧ NoDup (rd_uri <$> SearchResources r query) ∧
  ∀ rd, rd ∈ SearchResources r query ↔ GetResource r (rd_uri rd) = Some rd ∧ matchesResource rd (to_lower query) = true.
Proof.
  intros [Hk _]. assert (Htot : Total (uri_le (Ctx := Ctx) (W := W))) by (intros a b; apply String.le_total).
  split; [apply (Sorted_merge_sort _)|]. unfold SearchResources.
  assert (Hnd : NoDup (rd_uri <$> GetAllResourceDefinitions r)).
  { unfold GetAllResourceDefinitions. rewrite <- list_fmap_compose.
    erewrite (list_fmap_ext _ fst); [apply NoDup_fst_map_to_list|]. intros i [k d] Hi. cbn. apply Hk. by eapply elem_of_map_to_list, list_elem_of_lookup_2. }
  split.
  - rewrite (fmap_Permutation rd_uri _ _ (merge_sort_Permutation _ _)). eapply sublist_NoDup; [exact Hnd|]. apply fmap_sublist, sublist_filter.
  - intros rd. rewrite merge_sort_Permutation, list_elem_of_filter. unfold GetResource, GetAllResourceDefinitions.
    enough (rd ∈ (map_to_list (resources r)).*2 ↔ resources r !! rd_uri rd = Some rd) by tauto. rewrite list_elem_of_fmap. split.
    + intros ([k d] & -> & Hin). apply elem_of_map_to_list in Hin. cbn. by rewrite (Hk k d Hin).
    + intros H. exists (rd_uri rd, rd). split; [done|]. by apply elem_of_map_to_list.
Qed.
End Facts.

(** ** Reads *)
Section Reads.
Context {Ctx W : Type} (hd : Ctx → bool) (wt : Ctx → duration → Ctx) (stack : string).

(** With URI validation as its outermost middleware, a resource or template never runs its handler for a URI the policy
    rejects, and reads of other URIs are those of the rest of the chain. *)
Theorem validated_reads parse policy cfg rest uri (rd : ResourceDefinition Ctx W) ctx req w
    (Hchain : MiddlewareChain cfg = URIValidationMiddleware parse policy :: rest) :
  let requested := if bool_decide (Params_URI req = "") then uri else Params_URI req in
  let ctx' := if hd ctx then ctx else wt ctx (DefaultTimeout cfg) in
  wrapHandler hd wt stack cfg uri rd ctx req w =
  match ValidateURI parse requested policy with
  | inl err => (([], Some (ErrWrap "resource URI validation failed: " err "")), w)
  | inr _ => match chain rest uri rd (Handler rd) ctx' req w with
             | (Returns result err, w') => ((result, err), w')
             | (Panics v, w') => (([], Some (Err (panic_reading stack "resource" uri v))), w')
             end
  end.
Proof.
  cbv zeta. unfold wrapHandler, guarded. rewrite Hchain. cbn [chain foldr]. unfold URIValidationMiddleware at 1.
  by destruct (ValidateURI _ _ _).
Qed.

(** What a text handler serves is what a direct call reads. *)
Theorem text_handler_reads_back (fn : Ctx → string → st W (string * string * option error)) ctx uri w :
  CallHandlerText ctx (TextResourceHandler fn) uri w =
  let '((mimeType, text, err), w') := fn ctx uri w in
  (Some (match err with Some err => inl err | None => inr (mimeType, text) end), w').
Proof. unfold CallHandlerText, TextResourceHandler. cbn. by destruct (fn ctx uri w) as [[[m t] [e|]] w']. Qed.
End Reads.

(** ** A wired server *)
Section Wired.
Context {Ctx W : Type} (hd : Ctx → bool) (wt : Ctx → duration → Ctx) (stack : string).
Variable r0 : ResourceRegistry Ctx W.
Notation pub_resource := (pub_resource hd wt stack (config r0)).
Notation pub_template := (pub_template hd wt stack (config r0)).
Notation steps := (live_steps hd wt stack).

(** The definitions a run was given. *)
Definition given (evs : list (option (change Ctx W))) (rd : ResourceDefinition Ctx W) : Prop :=
  (∃ k, resources r0 !! k = Some rd) ∨ Some (CAddResource rd) ∈ evs ∨ ∃ m, Some (CRegisterModule m) ∈ evs ∧ rd ∈ mod_Resources m.
Definition given_template (evs : list (option (change Ctx W))) (td : TemplateDefinition Ctx W) : Prop :=
  (∃ k, templates r0 !! k = Some td) ∨ Some (CAddTemplate td) ∈ evs ∨ ∃ m, Some (CRegisterModule m) ∈ evs ∧ td ∈ mod_Templates m.
Definition announced (evs : list (option (change Ctx W))) : Prop := ∀ m, Some (CRegisterModule m) ∉ evs.
Lemma given_mono evs evs' rd : given evs rd → given (evs ++ evs') rd.
Proof. intros [?|[?|(m & ? & ?)]]; [by left|right; left; set_solver|right; right; exists m; set_solver]. Qed.
Lemma given_template_mono evs evs' td : given_template evs td → given_template (evs ++ evs') td.
Proof. intros [?|[?|(m & ? & ?)]]; [by left|right; left; set_solver|right; right; exists m; set_solver]. Qed.

Record wired_ok (evs : list (option (change Ctx W))) (l : Live Ctx W) : Prop := {
  wk_keyed : reg_keyed (reg l); wk_config : config (reg l) = config r0;
  wk_dom : dom (s_resources (server l)) = prevRes l; wk_tdom : prevTmpl l ⊆ dom (s_templates (server l));
  wk_quiet : announced evs → pending l = 0%nat → prevRes l = dom (resources (reg l)) ∧ prevTmpl l = dom (templates (reg l));
  wk_table : ∀ k rd, resources (reg l) !! k = Some rd → given evs rd;
  wk_ttable : ∀ k td, templates (reg l) !! k = Some td → given_template evs td;
  wk_from : ∀ k p, s_resources (server l) !! k = Some p → ∃ rd, given evs rd ∧ rd_uri rd = k ∧ p = pub_resource rd;
  wk_tfrom : ∀ k p, s_templates (server l) !! k = Some p → ∃ td, given_template evs td ∧ td_uri td = k ∧ p = pub_template td }.

Lemma inserted_from {D} (key : D → string) ds (t : gmap string D) k d :
  foldl (λ t d, <[key d := d]> t) t ds !! k = Some d → t !! k = Some d ∨ d ∈ ds.
Proof.
  revert t. induction ds as [|x ds IH]; intros t H; [by left|]. apply IH in H as [H|H]; [|right; set_solver].
  apply lookup_insert_Some in H as [[_ <-]|[_ H]]; [right; set_solver|by left].
Qed.

Lemma fresh_ok walk twalk : reg_keyed r0 → walk_of walk (resources r0) → walk_of twalk (templates r0) →
  wired_ok [] (Dynamic_RegisterWithServer hd wt stack r0 walk twalk {| s_resources := ∅; s_templates := ∅ |}).
Proof.
  intros Hk Hw Ht. assert (Hr : ∀ k, foldl (publish rd_uri pub_resource) ∅ walk !! k = match resources r0 !! k with Some d => Some (pub_resource d) | None => None end).
  { intros k. rewrite (publish_all_lookup _ _ (resources r0)); [|apply Hk|done]. by destruct (resources r0 !! k). }
  assert (Htm : ∀ k, foldl (publish td_uri pub_template) ∅ twalk !! k = match templates r0 !! k with Some d => Some (pub_template d) | None => None end).
  { intros k. rewrite (publish_all_lookup _ _ (templates r0)); [|apply Hk|done]. by destruct (templates r0 !! k). }
  split; cbn; try done.
  - apply set_eq. intros k. rewrite !elem_of_dom, Hr. destruct (resources r0 !! k); [|done]. by split; eexists.
  - intros k. rewrite !elem_of_dom, Htm. intros [d ->]. by eexists.
  - intros k rd H. left. by exists k.
  - intros k td H. left. by exists k.
  - intros k p H. rewrite Hr in H. destruct (resources r0 !! k) as [rd|] eqn:E; [|done]. simplify_eq. exists rd. split; [left; by exists k|]. split; [by apply Hk|done].
  - intros k p H. rewrite Htm in H. destruct (templates r0 !! k) as [td|] eqn:E; [|done]. simplify_eq. exists td. split; [left; by exists k|]. split; [by apply Hk|done].
Qed.

Lemma change_tables c r called r' : apply_change (Ctx := Ctx) (W := W) c r = (called, r') →
  config r' = config r ∧
  (∀ k rd, resources r' !! k = Some rd → resources r !! k = Some rd ∨ c = CAddResource rd ∨ ∃ m, c = CRegisterModule m ∧ rd ∈ mod_Resources m) ∧
  (∀ k td, templates r' !! k = Some td → templates r !! k = Some td ∨ c = CAddTemplate td ∨ ∃ m, c = CRegisterModule m ∧ td ∈ mod_Templates m) ∧
  (called = false → r' = r ∨ ∃ m, c = CRegisterModule m).
Proof.
  intros H. destruct c as [rd|uri|td|uri|m]; cbn in H; unfold RemoveResource, RemoveTemplate in H; repeat case_bool_decide; simplify_eq; cbn;
    (split; [done|]); (split; [|split]); try (by intros; left); try (by intros; exfalso); try (by eauto).
  - intros k x [[_ <-]|[_ H]]%lookup_insert_Some; [right; by left|by left].
  - intros k x [_ H']%lookup_delete_Some. by left.
  - intros k x [[_ <-]|[_ H]]%lookup_insert_Some; [right; by left|by left].
  - intros k x [_ H']%lookup_delete_Some. by left.
  - intros k x [H|H]%inserted_from; [by left|right; right; by exists m].
  - intros k x [H|H]%inserted_from; [by left|right; right; by exists m].
Qed.

Lemma step_ok evs l ev l' : wired_ok evs l → live_step hd wt stack l ev l' → wired_ok (evs ++ [ev]) l'.
Proof.
  intros Hok Hstep. destruct Hstep as [l c called r' Hc|l walk twalk Hp Hw Ht].
  - destruct (change_tables _ _ _ _ Hc) as (Hcfg & Hres & Htmpl & Hquiet). pose proof (change_keyed c (reg l) (wk_keyed _ _ Hok)) as Hkeyed. rewrite Hc in Hkeyed.
    split; cbn; [done|by rewrite Hcfg; apply Hok|apply Hok|apply Hok| | | | |].
    + intros Ha Hp. destruct called; [done|]. destruct (Hquiet eq_refl) as [->|(m & ->)]; [|exfalso; apply (Ha m); set_solver].
      apply (wk_quiet _ _ Hok); [|done]. intros m Hm. apply (Ha m). set_solver.
    + intros k rd [H|[->|(m & -> & H)]]%Hres; [apply given_mono; by eapply wk_table|right; left; set_solver|right; right; exists m; set_solver].
    + intros k td [H|[->|(m & -> & H)]]%Htmpl; [apply given_template_mono; by eapply wk_ttable|right; left; set_solver|right; right; exists m; set_solver].
    + intros k p (rd & ? & ? & ?)%(wk_from _ _ Hok). exists rd. eauto using given_mono.
    + intros k p (td & ? & ? & ?)%(wk_tfrom _ _ Hok). exists td. eauto using given_template_mono.
  - destruct (wk_keyed _ _ Hok) as [Hk1 Hk2]. pose proof (wk_config _ _ Hok) as Hcfg. unfold run_callback.
    split; cbn [reg server s_resources s_templates prevRes prevTmpl pending]; rewrite ?Hcfg.
    + done.
    + done.
    + apply synced_dom; [done|done|apply Hok].
    + intros k [td Htd]%elem_of_dom. apply elem_of_dom. rewrite (publish_new_lookup _ _ (templates (reg l))) by done. case_decide as Hin; [|rewrite Htd; by eexists].
      by apply (wk_tdom _ _ Hok), elem_of_dom in Hin.
    + done.
    + intros k rd H. apply given_mono. by eapply wk_table.
    + intros k td H. apply given_template_mono. by eapply wk_ttable.
    + intros k p H. apply (synced_from _ _ (resources (reg l))) in H as [H|(rd & H & ->)]; [| |done|done|apply Hok].
      * apply (wk_from _ _ Hok) in H as (rd & ? & ? & ?). exists rd. eauto using given_mono.
      * exists rd. split; [apply given_mono; by eapply wk_table|]. split; [by apply Hk1|done].
    + intros k p H. rewrite (publish_new_lookup _ _ (templates (reg l))) in H by done.
      assert (s_templates (server l) !! k = Some p ∨ ∃ td, templates (reg l) !! k = Some td ∧ p = pub_template td) as [Hs|(td & Htd & ->)].
      { case_decide; [by left|]. destruct (templates (reg l) !! k) as [td|]; [right; exists td; split; [done|congruence]|by left]. }
      * apply (wk_tfrom _ _ Hok) in Hs as (td & ? & ? & ?). exists td. eauto using given_template_mono.
      * exists td. split; [apply given_template_mono; by eapply wk_ttable|]. split; [by apply Hk2|done].
Qed.
Lemma steps_ok l evs l' : steps l evs l' → wired_ok [] l → wired_ok evs l'.
Proof. induction 1 as [l|l1 evs l2 ev l3 H IH Hs]; intros H0; [done|]. eapply step_ok; [by apply IH|exact Hs]. Qed.
End Wired.

(** C39.  A wired server serves what the registry holds.  Whatever resources and templates come and go after the server was
    wired, from however many goroutines, the server never serves a resource under a URI with anything but the
    middleware around a definition that was given for that URI; and whenever no listener call is outstanding
    (and no whole module was registered behind its back) it lists exactly the registered
    resources and at least the registered templates. *)
Theorem resources_in_step {Ctx W : Type} (hd : Ctx → bool) (wt : Ctx → duration → Ctx) stack (r0 : ResourceRegistry Ctx W) walk twalk evs l
    (Hk : reg_keyed r0) (Hwalk : walk_of walk (resources r0)) (Htwalk : walk_of twalk (templates r0))
    (Hrun : live_steps hd wt stack (Dynamic_RegisterWithServer hd wt stack r0 walk twalk {| s_resources := ∅; s_templates := ∅ |}) evs l) :
  (∀ uri p, s_resources (server l) !! uri = Some p → ∃ rd, given r0 evs rd ∧ rd_uri rd = uri ∧ p = pub_resource hd wt stack (config r0) rd) ∧
  (∀ uri p, s_templates (server l) !! uri = Some p → ∃ td, given_template r0 evs td ∧ td_uri td = uri ∧ p = pub_template hd wt stack (config r0) td) ∧
  (announced evs → pending l = 0%nat →
     dom (s_resources (server l)) = dom (resources (reg l)) ∧ dom (templates (reg l)) ⊆ dom (s_templates (server l))).
Proof.
  pose proof (steps_ok hd wt stack r0 _ _ _ Hrun (fresh_ok hd wt stack r0 walk twalk Hk Hwalk Htwalk)) as Hok.
  split; [apply Hok|]. split; [apply Hok|]. intros Ha Hp. destruct (wk_quiet _ _ _ _ _ _ Hok Ha Hp) as [H1 H2]. split.
  - by rewrite (wk_dom _ _ _ _ _ _ Hok).
  - rewrite <- H2. apply Hok.
Qed.

(** ** Concrete runs *)
Definition demo_resource (uri text : string) : ResourceDefinition unit unit := {|
  rd_Resource := {| URI := uri; Name := "n"; Description := ""; MIMEType := "text/plain" |};
  Handler := TextResourceHandler (λ _ _ w, ((("text/plain", text), None), w)); Category := "docs"; Tags := []; CacheTTL := 0 |}.
Definition demo_registry : ResourceRegistry unit unit := AddResource (demo_resource "a://1" "one") (NewResourceRegistry []).
Definition demo_live (l : Live unit unit) (uri : string) : option (list ResourceContents * option error) :=
  (λ p : Resource * _, (p.2 () {| Params_URI := uri |} ()).1) <$> s_resources (server l) !! uri.
Notation demo_wired := (Dynamic_RegisterWithServer (λ _, true) (λ c _, c) "" demo_registry (map_to_list (resources demo_registry)) [] {| s_resources := ∅; s_templates := ∅ |}).
Definition demo_changed (c : change unit unit) (l : Live unit unit) : Live unit unit :=
  let '(called, r') := apply_change c (reg l) in
  {| reg := r'; server := server l; prevRes := prevRes l; prevTmpl := prevTmpl l; pending := if called then S (pending l) else pending l |}.
Definition demo_notified (l : Live unit unit) : Live unit unit :=
  run_callback (λ _, true) (λ c _, c) "" (map_to_list (resources (reg l))) (map_to_list (templates (reg l))) l.
Lemma demo_change_step c l : live_step (λ _, true) (λ c _, c) "" l (Some c) (demo_changed c l).
Proof. unfold demo_changed. destruct (apply_change c (reg l)) as [called r'] eqn:E. by constructor. Qed.

Lemma resources_in_step_witness :
  let l := demo_notified (demo_changed (CRemoveResource "a://1") (demo_notified (demo_changed (CAddResource (demo_resource "b://2" "two")) demo_wired))) in
  dom (s_resources (server l)) = dom (resources (reg l)) ∧ demo_live l "a://1" = None ∧
  demo_live l "b://2" = Some ([TextResourceContents "b://2" "text/plain" "two"], None).
Proof.
  intros l. split; [|by vm_compute].
  refine (proj1 (proj2 (proj2 (resources_in_step (λ _, true) (λ c _, c) "" demo_registry (map_to_list (resources demo_registry)) []
    ((([] ++ [Some (CAddResource (demo_resource "b://2" "two"))]) ++ [None]) ++ [Some (CRemoveResource "a://1")] ++ [None]) l
    _ (Permutation_refl _) (Permutation_refl _) _)) _ _)).
  - exact (change_keyed (CAddResource (demo_resource "a://1" "one")) _ (new_keyed [])).
  - rewrite (app_assoc _ [Some (CRemoveResource "a://1")] [None]). unfold l. unfold demo_notified.
    eapply live_next; [|apply LiveNotify; [by apply Nat.ltb_lt; vm_compute|apply Permutation_refl|apply Permutation_refl]].
    eapply live_next; [|apply demo_change_step].
    eapply live_next; [|apply LiveNotify; [by apply Nat.ltb_lt; vm_compute|apply Permutation_refl|apply Permutation_refl]].
    eapply live_next; [|apply demo_change_step]. constructor.
  - intros m Hm. by rewrite ?elem_of_app, ?list_elem_of_singleton in Hm; destruct Hm as [[[Hm|Hm]|Hm]|[Hm|Hm]]; try done; apply elem_of_nil in Hm.
  - by vm_compute.
Defined.

Lemma search_resources_spec_witness :
  let r := AddResource (demo_resource "b://2" "two") demo_registry in
  rd_uri <$> SearchResources r "DOCS" = ["a://1"; "b://2"] ∧ NoDup (rd_uri <$> SearchResources r "DOCS").
Proof.
  split; [by vm_compute|]. refine (proj1 (proj2 (search_resources_spec _ "DOCS" _))).
  exact (change_keyed (CAddResource (demo_resource "b://2" "two")) _ (change_keyed (CAddResource (demo_resource "a://1" "one")) _ (new_keyed []))).
Defined.

Definition demo_parse (raw : string) : error + URL := inr {| Scheme := "ftp"; Hostname := "h"; Path := "/"; RawPath := "" |}.
Definition demo_cfg : Config unit unit := {|
  DefaultTimeout := Second; Subscribe := false; ListChanged := false; MiddlewareChain := [URIValidationMiddleware demo_parse DefaultURIPolicy] |}.
Lemma validated_reads_witness :
  wrapHandler (λ _, true) (λ c _, c) "" demo_cfg "ftp://h/" (demo_resource "ftp://h/" "secret") () {| Params_URI := "" |} () =
  (([], Some (ErrWrap "resource URI validation failed: "
     (Err ("URI scheme " +:+ quote "ftp" +:+ " is not allowed (allowed: http, https, file)")) "")), ()).
Proof. exact (validated_reads (λ _, true) (λ c _, c) "" demo_parse DefaultURIPolicy demo_cfg [] "ftp://h/" (demo_resource "ftp://h/" "secret") () {| Params_URI := "" |} () eq_refl). Defined.

(** A module registered on a wired registry is listed by the registry and not by the server. *)
Lemma registered_module_is_not_announced :
  let l := demo_changed (CRegisterModule {| mod_Name := "m"; mod_Description := ""; mod_Resources := [demo_resource "b://2" "two"]; mod_Templates := [] |}) demo_wired in
  ListResources (reg l) = ["a://1"; "b://2"] ∧ pending l = 0%nat ∧ demo_live l "b://2" = None.
Proof. by vm_compute. Qed.
(** A resource that replaces another is announced, and the server goes on serving the old one. *)
Lemma replaced_resource_is_still_served :
  let l := demo_notified (demo_changed (CAddResource (demo_resource "a://1" "new")) demo_wired) in
  pending l = 0%nat ∧ demo_live l "a://1" = Some ([TextResourceContents "a://1" "text/plain" "one"], None).
Proof. by vm_compute. Qed.
(** A resource added after the registry was published and before the callback was wired is never served. *)
Lemma change_before_wiring_is_lost :
  let s := RegisterWithServer (λ _, true) (λ c _, c) "" demo_registry (map_to_list (resources demo_registry)) [] {| s_resources := ∅; s_templates := ∅ |} in
  let r := AddResource (demo_resource "b://2" "two") demo_registry in
  let l := demo_notified (demo_changed (CAddResource (demo_resource "c://3" "three")) (WireResourceListChanged r s)) in
  ListResources (reg l) = ["a://1"; "b://2"; "c://3"] ∧ demo_live l "b://2" = None ∧
  demo_live l "c://3" = Some ([TextResourceContents "c://3" "text/plain" "three"], None).
Proof. by vm_compute. Qed.
