(* ===== verification/Prompts.v ===== *)
(** Prompts (src/prompts): the registry of prompts, the dynamic registry that keeps a running server in step, and prompts
    put together from sections with a cacheable prefix. *)

From stdpp Require Import base tactics list gmap strings sorting.
From Stdlib Require Import ZArith Lia.
From S2P Require Import Prelude Sanitize Wire.

Local Open Scope Z_scope.

(** ** Data (prompts.go) *)
Record Prompt := { Name : string; Description : string }.
Record GetPromptRequest := { Params_Arguments : gmap string string }.
Record PromptMessage := { Role : string; Text : string }.
Record GetPromptResult := { r_Description : string; Messages : list PromptMessage }.

Section Prompts.
Context {Ctx W : Type}.
Variable has_deadline : Ctx → bool.
Variable with_timeout : Ctx → duration → Ctx.
Variable stack : string.

Definition PromptHandlerFunc := HandlerFunc Ctx GetPromptRequest W (option GetPromptResult).
Record PromptDefinition := { pd_Prompt : Prompt; Handler : PromptHandlerFunc; Category : string; Tags : list string; Version : string }.
Definition Middleware := Wire.Middleware Ctx GetPromptRequest W (option GetPromptResult) PromptDefinition.
Record PromptModule := { mod_Name : string; mod_Description : string; mod_Prompts : list PromptDefinition }.
Definition DefaultGetTimeout : duration := 30 * Second.
Record Config := { DefaultTimeout : duration; ListChanged : bool; MiddlewareChain : list Middleware }.
Record PromptRegistry := { modules : gmap string PromptModule; prompts : gmap string PromptDefinition; config : Config }.
Definition zero_config : Config := {| DefaultTimeout := 0; ListChanged := false; MiddlewareChain := [] |}.
Definition pd_name (pd : PromptDefinition) : string := Name (pd_Prompt pd).

Definition NewPromptRegistry (configs : list Config) : PromptRegistry :=
  let cfg := match configs with c :: _ => c | [] => zero_config end in
  {| modules := ∅; prompts := ∅;
     config := if DefaultTimeout cfg =? 0
               then {| DefaultTimeout := DefaultGetTimeout; ListChanged := ListChanged cfg; MiddlewareChain := MiddlewareChain cfg |} else cfg |}.
Definition RegisterModule (m : PromptModule) (r : PromptRegistry) : PromptRegistry := {|
  modules := <[mod_Name m := m]> (modules r); prompts := foldl (λ t pd, <[pd_name pd := pd]> t) (prompts r) (mod_Prompts m); config := config r |}.
Definition GetPrompt (r : PromptRegistry) (name : string) : option PromptDefinition := prompts r !! name.
Definition GetModule (r : PromptRegistry) (name : string) : option PromptModule := modules r !! name.
Definition ListPrompts (r : PromptRegistry) : list string := sorted_keys (prompts r).
Definition ListPromptsByCategory (r : PromptRegistry) (category : string) : list string :=
  sorted_keys (filter (λ p : string * PromptDefinition, Category p.2 = category) (prompts r)).
Definition GetAllPromptDefinitions (r : PromptRegistry) : list PromptDefinition := (map_to_list (prompts r)).*2.
Definition PromptCount (r : PromptRegistry) : nat := size (prompts r).
Definition ModuleCount (r : PromptRegistry) : nat := size (modules r).
Definition matchesPrompt (pd : PromptDefinition) (query : string) : bool :=
  contains query (to_lower (Name (pd_Prompt pd))) || contains query (to_lower (Description (pd_Prompt pd))) ||
  same_fold (Category pd) query || existsb (λ tag, contains query (to_lower tag)) (Tags pd).
Definition prompt_le (a b : PromptDefinition) : Prop := String.le (pd_name a) (pd_name b).
#[export] Instance prompt_le_dec : RelDecision prompt_le.
Proof. intros a b. unfold prompt_le. apply _. Defined.
Definition SearchPrompts (r : PromptRegistry) (query : string) : list PromptDefinition :=
  let query := to_lower query in merge_sort prompt_le (filter (λ pd, matchesPrompt pd query = true) (GetAllPromptDefinitions r)).

Notation Served := (Ctx → GetPromptRequest → W → (option GetPromptResult * option error) * W).
Definition panic_in (name v : string) : string := "panic in prompt " +:+ name +:+ ": " +:+ v +:+ newline +:+ stack.
Definition wrapHandler (cfg : Config) (name : string) (pd : PromptDefinition) : Served :=
  guarded has_deadline with_timeout None (DefaultTimeout cfg) (panic_in name) (chain (MiddlewareChain cfg) name pd (Handler pd)).

(** ** Handlers from plain functions (handler_adapters.go) *)
Definition TextPromptHandler (fn : Ctx → gmap string string → st W (string * string * option error)) : PromptHandlerFunc :=
  λ ctx req w,
    let '((description, text, err), w) := fn ctx (Params_Arguments req) w in
    match err with
    | Some err => (Returns None (Some err), w)
    | None => (Returns (Some {| r_Description := description; Messages := [{| Role := "user"; Text := text |}] |}) None, w)
    end.

(** ** Publication, the dynamic registry (dynamic.go) and its wiring (notify.go) *)
Notation MCPServer := (gmap string (Prompt * Served)).
Definition pub_prompt (cfg : Config) (pd : PromptDefinition) : Prompt * Served := (pd_Prompt pd, wrapHandler cfg (pd_name pd) pd).
Definition RegisterWithServer (r : PromptRegistry) (walk : list (string * PromptDefinition)) (s : MCPServer) : MCPServer :=
  foldl (publish pd_name (pub_prompt (config r))) s walk.
Definition with_prompts (t : gmap string PromptDefinition) (r : PromptRegistry) : PromptRegistry :=
  {| modules := modules r; prompts := t; config := config r |}.
Definition AddPrompt (pd : PromptDefinition) (r : PromptRegistry) : PromptRegistry := with_prompts (<[pd_name pd := pd]> (prompts r)) r.
Definition RemovePrompt (name : string) (r : PromptRegistry) : bool * PromptRegistry :=
  if bool_decide (is_Some (prompts r !! name)) then (true, with_prompts (delete name (prompts r)) r) else (false, r).

Record Live := { reg : PromptRegistry; server : MCPServer; prev : gset string; pending : nat }.
Definition WirePromptListChanged (r : PromptRegistry) (s : MCPServer) : Live :=
  {| reg := r; server := s; prev := dom (prompts r); pending := 0 |}.
Definition Dynamic_RegisterWithServer (r : PromptRegistry) walk (s : MCPServer) : Live := WirePromptListChanged r (RegisterWithServer r walk s).
Definition run_callback (walk : list (string * PromptDefinition)) (l : Live) : Live := {|
  reg := reg l; server := synced pd_name (pub_prompt (config (reg l))) (prompts (reg l)) (prev l) walk (server l);
  prev := dom (prompts (reg l)); pending := pred (pending l) |}.

(** As for resources: changes under the lock, calls of the callback one by one afterwards. *)
Inductive change := CAddPrompt (pd : PromptDefinition) | CRemovePrompt (name : string) | CRegisterModule (m : PromptModule).
Definition apply_change (c : change) (r : PromptRegistry) : bool * PromptRegistry :=
  match c with
  | CAddPrompt pd => (true, AddPrompt pd r)
  | CRemovePrompt name => RemovePrompt name r
  | CRegisterModule m => (false, RegisterModule m r)
  end.
Inductive live_step : Live → option change → Live → Prop :=
| LiveChange l c called r' : apply_change c (reg l) = (called, r') →
    live_step l (Some c) {| reg := r'; server := server l; prev := prev l; pending := if called then S (pending l) else pending l |}
| LiveNotify l walk : (0 < pending l)%nat → walk_of walk (prompts (reg l)) → live_step l None (run_callback walk l).
Inductive live_steps : Live → list (option change) → Live → Prop :=
| live_refl l : live_steps l [] l
| live_next l1 evs l2 ev l3 : live_steps l1 evs l2 → live_step l2 ev l3 → live_steps l1 (evs ++ [ev]) l3.
End Prompts.
Arguments PromptDefinition : clear implicits.
Arguments PromptRegistry : clear implicits.
Arguments PromptModule : clear implicits.
Arguments Live : clear implicits.
Arguments change : clear implicits.
Arguments Config : clear implicits.

(** ** Sections (section.go) *)
Record Section_ := { s_Name : string; s_Content : string; Cacheable : bool }.
Notation SectionedPrompt := (list Section_).
Definition NewSectionedPrompt : SectionedPrompt := [].
Definition Add (s : Section_) (sp : SectionedPrompt) : SectionedPrompt := sp ++ [s].
(** The loop: [i] sections are written, [boundary] is the offset once it is found. *)
Fixpoint build (i : nat) (b : string) (boundary : option Z) (sections : list Section_) : string * option Z :=
  match sections with
  | [] => (b, boundary)
  | s :: sections =>
      let found := match boundary with Some _ => true | None => false end in
      match i with
      | O => build (S i) (b +:+ s_Content s) (if negb (Cacheable s) && negb found then Some 0 else boundary) sections
      | S _ =>
          let boundary := if negb (Cacheable s) && negb found then Some (bytes b + 1) else boundary in
          build (S i) (b +:+ newline +:+ s_Content s) boundary sections
      end
  end.
Definition Build (sp : SectionedPrompt) : string * Z :=
  match sp with
  | [] => ("", 0)
  | _ => let '(prompt, boundary) := build 0 "" None sp in (prompt, match boundary with Some n => n | None => bytes prompt end)
  end.

(** The sections before the first that cannot be cached. *)
Fixpoint stable (sp : SectionedPrompt) : SectionedPrompt :=
  match sp with s :: sp => if Cacheable s then s :: stable sp else [] | [] => [] end.
Definition rendered (sp : SectionedPrompt) : string := join newline (s_Content <$> sp).

Definition tail_text (l : list Section_) : string := foldr (λ s t, newline +:+ s_Content s +:+ t) "" l.
Lemma rendered_cons s l : rendered (s :: l) = s_Content s +:+ tail_text l.
Proof.
  revert s. induction l as [|s' l IH]; intros s; [by rewrite string_app_nil_r|].
  change (rendered (s :: s' :: l)) with (s_Content s +:+ newline +:+ rendered (s' :: l)). by rewrite IH.
Qed.
Lemma tail_text_app l k : tail_text (l ++ k) = tail_text l +:+ tail_text k.
Proof. induction l as [|s l IH]; [done|]. cbn [app tail_text foldr]. fold (tail_text (l ++ k)). rewrite IH, !string_app_assoc. done. Qed.
Lemma bytes_cat s t : bytes (s +:+ t) = bytes s + bytes t.
Proof. unfold bytes. rewrite string_length_app. lia. Qed.
Lemma stable_prefix sp : ∃ rest, sp = stable sp ++ rest ∧ match rest with s :: _ => Cacheable s = false | [] => True end.
Proof.
  induction sp as [|s sp (rest & IH & Hr)]; [by exists []|]. cbn [stable]. destruct (Cacheable s) eqn:E; [|by exists (s :: sp)].
  exists rest. split; [|done]. cbn. by rewrite <- IH.
Qed.
Definition boundary_of (b : string) (bd : option Z) (l : list Section_) : option Z :=
  match bd with
  | Some n => Some n
  | None => if forallb Cacheable l then None else Some (bytes b + bytes (tail_text (stable l)) + 1)
  end.
Lemma build_later l : ∀ i b bd, build (S i) b bd l = (b +:+ tail_text l, boundary_of b bd l).
Proof.
  induction l as [|s l IH]; intros i b bd; [cbn; rewrite string_app_nil_r; by destruct bd|]. cbn [build]. rewrite IH. cbn [tail_text foldr].
  fold (tail_text l). rewrite !string_app_assoc. f_equal. unfold boundary_of. cbn [forallb stable].
  destruct bd as [n|]; [by rewrite andb_false_r|]. destruct (Cacheable s); cbn [negb andb tail_text foldr].
  - destruct (forallb Cacheable l); [done|]. f_equal. fold (tail_text (stable l)). rewrite !bytes_cat. lia.
  - change (bytes "") with 0. f_equal. lia.
Qed.
Lemma take_bytes s t : string_take (Z.to_nat (bytes s)) (s +:+ t) = s.
Proof. unfold bytes. rewrite Nat2Z.id. apply string_take_app. Qed.

(** The part that a run of a prompt can share with the next: the stable sections and the separator after them. *)
Definition shared_text (pre : list Section_) : string := match pre with [] => "" | _ => rendered pre +:+ newline end.
Lemma stable_all sp : forallb Cacheable sp = true → stable sp = sp.
Proof. induction sp as [|s sp IH]; [done|]. cbn. destruct (Cacheable s); [|done]. cbn. intros H. by rewrite IH. Qed.
Lemma stable_app pre x rest : forallb Cacheable pre = true → Cacheable x = false → stable (pre ++ x :: rest) = pre.
Proof. intros H Hx. induction pre as [|s pre IH]; cbn in *; [by rewrite Hx|]. destruct (Cacheable s); [|done]. by rewrite IH. Qed.
Lemma not_all pre x rest : Cacheable x = false → forallb Cacheable (pre ++ x :: rest) = false.
Proof. intros Hx. rewrite forallb_app. cbn. by rewrite Hx, andb_false_r. Qed.

(** A sectioned prompt is its sections in order, one per line, and its cache boundary marks exactly the stable prefix:
    the whole prompt when every section can be cached, and otherwise the text up to the first section that
    cannot, which does not change whatever comes from that section on. *)
Theorem prompt_cache_boundary (pre : SectionedPrompt) (Hpre : forallb Cacheable pre = true) :
  Build pre = (rendered pre, bytes (rendered pre)) ∧
  ∀ x rest, Cacheable x = false →
    let '(prompt, offset) := Build (pre ++ x :: rest) in
    prompt = rendered (pre ++ x :: rest) ∧ offset = bytes (shared_text pre) ∧ string_take (Z.to_nat offset) prompt = shared_text pre.
Proof.
  split.
  - destruct pre as [|s l]; [done|]. cbn in Hpre. apply andb_true_iff in Hpre as [Hs Hl]. unfold Build. cbn [build]. rewrite build_later, Hs. cbn [negb andb].
    unfold boundary_of. rewrite Hl. by rewrite rendered_cons.
  - intros x rest Hx. destruct pre as [|s l].
    + unfold Build. cbn [app build]. rewrite build_later, Hx. cbn [negb andb boundary_of]. rewrite rendered_cons. split; [done|]. split; [done|].
      by destruct (_ +:+ _).
    + cbn in Hpre. apply andb_true_iff in Hpre as [Hs Hl]. unfold Build. cbn [app build]. rewrite build_later, Hs. cbn [negb andb boundary_of].
      rewrite (not_all l x rest Hx), stable_app by done. change (s :: l ++ x :: rest) with ((s :: l) ++ x :: rest). cbn [app].
      assert (Hoff : bytes (s_Content s) + bytes (tail_text l) + 1 = bytes (shared_text (s :: l))).
      { unfold shared_text. rewrite rendered_cons, !bytes_cat. change (bytes newline) with 1. lia. }
      assert (Htext : s_Content s +:+ tail_text (l ++ x :: rest) = shared_text (s :: l) +:+ s_Content x +:+ tail_text rest).
      { unfold shared_text. rewrite rendered_cons, tail_text_app. cbn [tail_text foldr]. fold (tail_text rest). by rewrite !string_app_assoc. }
      change ("" +:+ s_Content s) with (s_Content s). rewrite rendered_cons. split; [done|]. split; [done|]. rewrite Hoff, Htext. apply take_bytes.
Qed.
Lemma prompt_cache_boundary_witness :
  let s c b := {| s_Name := "n"; s_Content := c; Cacheable := b |} in
  Build [s "rules" true; s "now" false] = ("rules" +:+ newline +:+ "now", 6) ∧
  string_take 6 ("rules" +:+ newline +:+ "now") = shared_text [s "rules" true].
Proof.
  intros s. split; [by vm_compute|].
  exact (proj2 (proj2 (proj2 (prompt_cache_boundary [s "rules" true] eq_refl) (s "now" false) [] eq_refl))).
Defined.

(** ** A wired server *)
Section Wired.
Context {Ctx W : Type} (hd : Ctx → bool) (wt : Ctx → duration → Ctx) (stack : string).
Variable r0 : PromptRegistry Ctx W.
Notation pub := (pub_prompt hd wt stack (config r0)).

Definition given (evs : list (option (change Ctx W))) (pd : PromptDefinition Ctx W) : Prop :=
  (∃ k, prompts r0 !! k = Some pd) ∨ Some (CAddPrompt pd) ∈ evs ∨ ∃ m, Some (CRegisterModule m) ∈ evs ∧ pd ∈ mod_Prompts m.
Definition announced (evs : list (option (change Ctx W))) : Prop := ∀ m, Some (CRegisterModule m) ∉ evs.
Lemma prompt_given_mono evs evs' pd : given evs pd → given (evs ++ evs') pd.
Proof. intros [?|[?|(m & ? & ?)]]; [by left|right; left; set_solver|right; right; exists m; set_solver]. Qed.

Record wired_ok (evs : list (option (change Ctx W))) (l : Live Ctx W) : Prop := {
  wk_keyed : keyed pd_name (prompts (reg l)); wk_config : config (reg l) = config r0; wk_dom : dom (server l) = prev l;
  wk_quiet : announced evs → pending l = 0%nat → prev l = dom (prompts (reg l));
  wk_table : ∀ k pd, prompts (reg l) !! k = Some pd → given evs pd;
  wk_from : ∀ k p, server l !! k = Some p → ∃ pd, given evs pd ∧ pd_name pd = k ∧ p = pub pd }.

Lemma change_table c r called r' : apply_change (Ctx := Ctx) (W := W) c r = (called, r') → keyed pd_name (prompts r) →
  config r' = config r ∧ keyed pd_name (prompts r') ∧
  (∀ k pd, prompts r' !! k = Some pd → prompts r !! k = Some pd ∨ c = CAddPrompt pd ∨ ∃ m, c = CRegisterModule m ∧ pd ∈ mod_Prompts m) ∧
  (called = false → r' = r ∨ ∃ m, c = CRegisterModule m).
Proof.
  intros H Hk. destruct c as [pd|name|m]; cbn in H; unfold RemovePrompt in H; repeat case_bool_decide; simplify_eq; cbn; (split; [done|]).
  - split; [by apply keyed_insert|]. split; [|done]. intros k x [[_ <-]|[_ H]]%lookup_insert_Some; [right; by left|by left].
  - split; [by apply keyed_delete|]. split; [|done]. intros k x [_ H']%lookup_delete_Some. by left.
  - split; [done|]. split; [by left|by left].
  - split; [by apply keyed_inserts|]. split; [|by eauto]. intros k x H.
    assert (prompts r !! k = Some x ∨ x ∈ mod_Prompts m) as [?|?]; [|by left|right; right; by exists m].
    revert H. generalize (prompts r). induction (mod_Prompts m) as [|d ds IH]; intros t H; [by left|]. apply IH in H as [H|H]; [|right; set_solver].
    apply lookup_insert_Some in H as [[_ <-]|[_ H]]; [right; set_solver|by left].
Qed.
Lemma prompt_fresh_ok walk : keyed pd_name (prompts r0) → walk_of walk (prompts r0) → wired_ok [] (Dynamic_RegisterWithServer hd wt stack r0 walk ∅).
Proof.
  intros Hk Hw. assert (Hr : ∀ k, foldl (publish pd_name pub) ∅ walk !! k = match prompts r0 !! k with Some d => Some (pub d) | None => None end).
  { intros k. rewrite (publish_all_lookup _ _ (prompts r0)) by done. by destruct (prompts r0 !! k). }
  split; cbn; try done.
  - apply set_eq. intros k. rewrite !elem_of_dom. unfold RegisterWithServer. rewrite Hr. destruct (prompts r0 !! k); [|done]. by split; eexists.
  - intros k pd H. left. by exists k.
  - intros k p H. unfold RegisterWithServer in H. rewrite Hr in H. destruct (prompts r0 !! k) as [pd|] eqn:E; [|done]. simplify_eq.
    exists pd. split; [left; by exists k|]. split; [by apply Hk|done].
Qed.
Lemma prompt_step_ok evs l ev l' : wired_ok evs l → live_step hd wt stack l ev l' → wired_ok (evs ++ [ev]) l'.
Proof.
  intros Hok Hstep. destruct Hstep as [l c called r' Hc|l walk Hp Hw].
  - destruct (change_table _ _ _ _ Hc (wk_keyed _ _ Hok)) as (Hcfg & Hkeyed & Hres & Hquiet).
    split; cbn; [done|by rewrite Hcfg; apply Hok|apply Hok| | |].
    + intros Ha Hp. destruct called; [done|]. destruct (Hquiet eq_refl) as [->|(m & ->)]; [|exfalso; apply (Ha m); set_solver].
      apply (wk_quiet _ _ Hok); [|done]. intros m Hm. apply (Ha m). set_solver.
    + intros k pd [H|[->|(m & -> & H)]]%Hres; [apply prompt_given_mono; by eapply wk_table|right; left; set_solver|right; right; exists m; set_solver].
    + intros k p (pd & ? & ? & ?)%(wk_from _ _ Hok). exists pd. eauto using prompt_given_mono.
  - pose proof (wk_config _ _ Hok) as Hcfg. pose proof (wk_keyed _ _ Hok) as Hk. unfold run_callback. split; cbn [reg server prev pending]; rewrite ?Hcfg; try done.
    + apply synced_dom; [done|done|apply Hok].
    + intros k pd H. apply prompt_given_mono. by eapply wk_table.
    + intros k p H. apply (synced_from _ _ (prompts (reg l))) in H as [H|(pd & H & ->)]; [| |done|done|apply Hok].
      * apply (wk_from _ _ Hok) in H as (pd & ? & ? & ?). exists pd. eauto using prompt_given_mono.
      * exists pd. split; [apply prompt_given_mono; by eapply wk_table|]. split; [by apply Hk|done].
Qed.

(** As for resources: the server's prompts are published definitions of their names, and once every listener call is
    through they are exactly the registry's. *)
Theorem prompts_in_step walk evs l (Hk : keyed pd_name (prompts r0)) (Hwalk : walk_of walk (prompts r0))
    (Hrun : live_steps hd wt stack (Dynamic_RegisterWithServer hd wt stack r0 walk ∅) evs l) :
  (∀ name p, server l !! name = Some p → ∃ pd, given evs pd ∧ pd_name pd = name ∧ p = pub pd) ∧
  (announced evs → pending l = 0%nat → dom (server l) = dom (prompts (reg l))).
Proof.
  assert (Hok : wired_ok evs l).
  { pose proof (prompt_fresh_ok walk Hk Hwalk) as H0. revert H0. induction Hrun as [l|l1 evs l2 ev l3 H IH Hs]; intros H0; [done|]. eapply prompt_step_ok; [by apply IH|exact Hs]. }
  split; [apply Hok|]. intros Ha Hp. rewrite (wk_dom _ _ Hok). by apply (wk_quiet _ _ Hok).
Qed.
End Wired.

Definition demo_prompt (name : string) : PromptDefinition unit unit := {|
  pd_Prompt := {| Name := name; Description := "" |}; Handler := TextPromptHandler (λ _ _ w, (("d", "hello", None), w));
  Category := ""; Tags := []; Version := "1.0.0" |}.
Definition demo_registry : PromptRegistry unit unit := AddPrompt (demo_prompt "a") (NewPromptRegistry []).
Lemma prompts_in_step_witness :
  let l0 := Dynamic_RegisterWithServer (λ _, true) (λ c _, c) "" demo_registry (map_to_list (prompts demo_registry)) ∅ in
  let l1 := {| reg := (RemovePrompt "a" (reg l0)).2; server := server l0; prev := prev l0; pending := 1 |} in
  let l := run_callback (λ _, true) (λ c _, c) "" (map_to_list (prompts (reg l1))) l1 in
  server l = ∅ ∧ dom (server l) = dom (prompts (reg l)).
Proof.
  intros l0 l1 l. split; [by vm_compute|].
  refine (proj2 (prompts_in_step (λ _, true) (λ c _, c) "" demo_registry (map_to_list (prompts demo_registry)) (([] ++ [Some (CRemovePrompt "a")]) ++ [None]) l
    _ (Permutation_refl _) _) _ _).
  - apply (keyed_insert pd_name ∅ (demo_prompt "a")), keyed_empty.
  - eapply live_next; [|apply LiveNotify; [by apply Nat.ltb_lt; vm_compute|apply Permutation_refl]].
    eapply live_next; [apply live_refl|]. apply (LiveChange _ _ _ l0 (CRemovePrompt "a") true). by vm_compute.
  - intros m Hm. rewrite ?elem_of_app, ?list_elem_of_singleton in Hm. destruct Hm as [[Hm|Hm]|Hm]; try done. by apply elem_of_nil in Hm.
  - by vm_compute.
Defined.
