(* ===== verification/Skills.v ===== *)
(** Skills (src/skills): bundles of tools that are taken out of a dynamic registry and put back while a skill is active,
    and the loader that activates them by what the context asks for. *)

From stdpp Require Import base tactics list gmap strings sorting.
From Stdlib Require Import ZArith Lia.
From S2P Require Import Prelude Tool Truncate Registry.

Local Open Scope Z_scope.

(** ** Data (skills.go) *)
Record SkillContext := { ActiveTools : list string; RecentCalls : list string; TaskHints : list string; sc_Tags : gmap string string }.
Definition TriggerFunc := SkillContext → bool.
Record Skill := { Name : string; Description : string; Tools : list string; Trigger : option TriggerFunc; Priority : Z }.

Section Skills.
Context {Ctx Req W : Type}.
Notation DynamicRegistry := (DynamicRegistry Ctx Req W).
Notation TD := (TD Ctx Req W).
Record SkillRegistry := { skills : gmap string Skill; active : gset string; dynReg : DynamicRegistry; allTools : gmap string TD }.
Definition NewSkillRegistry (reg : DynamicRegistry) : SkillRegistry := {| skills := ∅; active := ∅; dynReg := reg; allTools := ∅ |}.
Definition set_state (a : gset string) (d : DynamicRegistry) (s : SkillRegistry) : SkillRegistry :=
  {| skills := skills s; active := a; dynReg := d; allTools := allTools s |}.

(** A tool that is registered is stashed. *)
Definition stash (s : SkillRegistry) (toolName : string) : SkillRegistry :=
  match GetTool (d_reg (dynReg s)) toolName with
  | Some td => {| skills := skills s; active := active s; dynReg := (RemoveTool (dynReg s) toolName).2; allTools := <[toolName := td]> (allTools s) |}
  | None => s
  end.
Definition Register (skill : Skill) (s : SkillRegistry) : SkillRegistry :=
  foldl stash {| skills := <[Name skill := skill]> (skills s); active := active s; dynReg := dynReg s; allTools := allTools s |} (Tools skill).

Definition unknown_skill (name : string) : error := Err ("skills: unknown skill " +:+ quote name).
Definition unstash (s : SkillRegistry) (toolName : string) : SkillRegistry :=
  match allTools s !! toolName with Some td => set_state (active s) (AddTool (dynReg s) td) s | None => s end.
Definition Activate (name : string) (s : SkillRegistry) : option error * SkillRegistry :=
  match skills s !! name with
  | None => (Some (unknown_skill name), s)
  | Some skill =>
      if bool_decide (name ∈ active s) then (None, s)
      else (None, foldl unstash (set_state ({[name]} ∪ active s) (dynReg s) s) (Tools skill))
  end.
Definition toolClaimedByActive (s : SkillRegistry) (toolName : string) : bool :=
  existsb (λ p, bool_decide (p.1 ∈ active s) && bool_decide (toolName ∈ Tools p.2)) (map_to_list (skills s)).
Definition withdraw (s : SkillRegistry) (toolName : string) : SkillRegistry :=
  if toolClaimedByActive s toolName then s else set_state (active s) (RemoveTool (dynReg s) toolName).2 s.
Definition Deactivate (name : string) (s : SkillRegistry) : option error * SkillRegistry :=
  match skills s !! name with
  | None => (Some (unknown_skill name), s)
  | Some skill =>
      if negb (bool_decide (name ∈ active s)) then (None, s)
      else (None, foldl withdraw (set_state (active s ∖ {[name]}) (dynReg s) s) (Tools skill))
  end.
Definition ActiveSkills (s : SkillRegistry) : list string := sort_strings (elements (active s)).

Definition fires (sc : SkillContext) (skill : Skill) : bool := match Trigger skill with Some t => t sc | None => false end.
Definition before (a b : Skill) : Prop := Priority b < Priority a ∨ (Priority a = Priority b ∧ String.le (Name a) (Name b)).
#[export] Instance before_dec : RelDecision before.
Proof. intros a b. unfold before. apply _. Defined.
Definition Evaluate (sc : SkillContext) (s : SkillRegistry) : list string :=
  Name <$> merge_sort before (filter (λ skill, fires sc skill = true) (map_to_list (skills s)).*2).
Definition GetSkill (s : SkillRegistry) (name : string) : option Skill := skills s !! name.
Definition activeToolCount (s : SkillRegistry) : nat :=
  size (list_to_set (C := gset string) (filter (λ p : string * Skill, p.1 ∈ active s) (map_to_list (skills s)) ≫= λ p, Tools p.2)).

(** ** The loader (loader.go) *)
Record LoaderConfig := { MaxActiveTools : Z; AutoDeactivate : bool }.
Definition NewContextLoader (configs : list LoaderConfig) : LoaderConfig :=
  match configs with
  | [] => {| MaxActiveTools := 20; AutoDeactivate := false |}
  | c :: _ => if MaxActiveTools c <=? 0 then {| MaxActiveTools := 20; AutoDeactivate := AutoDeactivate c |} else c
  end.
(** The first pass; an error ends the update. *)
Fixpoint deactivate_stale (triggered : list string) (names : list string) (s : SkillRegistry) : option error * SkillRegistry :=
  match names with
  | [] => (None, s)
  | name :: names =>
      match GetSkill s name with
      | Some skill =>
          if match Trigger skill with Some _ => true | None => false end && negb (bool_decide (name ∈ triggered))
          then match Deactivate name s with (Some err, s) => (Some err, s) | (None, s) => deactivate_stale triggered names s end
          else deactivate_stale triggered names s
      | None => deactivate_stale triggered names s
      end
  end.
Definition new_tools (s : SkillRegistry) (skill : Skill) : nat := length (filter (λ t, is_Some (allTools s !! t)) (Tools skill)).
(** The second pass stops at the cap and skips what would go over it. *)
Fixpoint activate_triggered (cap : Z) (triggered : list string) (s : SkillRegistry) : option error * SkillRegistry :=
  match triggered with
  | [] => (None, s)
  | name :: triggered =>
      let current := Z.of_nat (activeToolCount s) in
      if cap <=? current then (None, s)
      else match GetSkill s name with
           | None => activate_triggered cap triggered s
           | Some skill =>
               if cap <? current + Z.of_nat (new_tools s skill) then activate_triggered cap triggered s
               else match Activate name s with (Some err, s) => (Some err, s) | (None, s) => activate_triggered cap triggered s end
           end
  end.
Definition Update (cfg : LoaderConfig) (sc : SkillContext) (s : SkillRegistry) : option error * SkillRegistry :=
  let triggered := Evaluate sc s in
  match (if AutoDeactivate cfg then deactivate_stale triggered (ActiveSkills s) s else (None, s)) with
  | (Some err, s) => (Some err, s)
  | (None, s) => activate_triggered (MaxActiveTools cfg) triggered s
  end.

(** ** Histories *)
Inductive sop :=
| SRegister (skill : Skill) | SActivate (name : string) | SDeactivate (name : string) | SUpdate (cfg : LoaderConfig) (sc : SkillContext)
| SAddTool (td : TD) | SRemoveTool (name : string).
Definition run_sop (s : SkillRegistry) (o : sop) : SkillRegistry :=
  match o with
  | SRegister skill => Register skill s
  | SActivate name => (Activate name s).2
  | SDeactivate name => (Deactivate name s).2
  | SUpdate cfg sc => (Update cfg sc s).2
  | SAddTool td => set_state (active s) (AddTool (dynReg s) td) s
  | SRemoveTool name => set_state (active s) (RemoveTool (dynReg s) name).2 s
  end.
End Skills.
Arguments SkillRegistry : clear implicits.
Arguments sop : clear implicits.

Section Facts.
Context {Ctx Req W : Type}.
Implicit Types (s : SkillRegistry Ctx Req W).

Definition claimed s (t : string) : Prop := ∃ n skill, n ∈ active s ∧ skills s !! n = Some skill ∧ t ∈ Tools skill.
Lemma claimed_spec s t : toolClaimedByActive s t = true ↔ claimed s t.
Proof.
  unfold toolClaimedByActive, claimed. rewrite existsb_exists. split.
  - intros ([n skill] & Hin & H). apply list_elem_of_In, elem_of_map_to_list in Hin. to_prop. naive_solver.
  - intros (n & skill & H1 & H2 & H3). exists (n, skill). split; [by apply list_elem_of_In, elem_of_map_to_list|]. cbn.
    rewrite andb_true_iff, !bool_decide_eq_true. done.
Qed.
#[export] Instance claimed_dec s t : Decision (claimed s t).
Proof. destruct (toolClaimedByActive s t) eqn:E; [left|right]; rewrite <- claimed_spec, E; done. Defined.
Lemma claimed_active s s' t : active s' = active s → skills s' = skills s → claimed s' t ↔ claimed s t.
Proof. intros H1 H2. unfold claimed. by rewrite H1, H2. Qed.

(** What the registry lists under a name. *)
Definition shown s (t : string) : option (TD Ctx Req W) := GetTool (d_reg (dynReg s)) t.
Definition restored s (td : TD Ctx Req W) : TD Ctx Req W := complete_definition (RuntimeGroupMapper (config (d_reg (dynReg s)))) td.

Lemma shown_remove s a n t :
  shown (set_state a (RemoveTool (dynReg s) n).2 s) t = if decide (n = t) then None else shown s t.
Proof.
  unfold shown, GetTool, RemoveTool. cbn. destruct (tools (d_reg (dynReg s)) !! n) as [td|] eqn:E; cbn.
  - rewrite lookup_delete. done.
  - case_decide; [by subst|done].
Qed.
Lemma shown_add s a td t :
  shown (set_state a (AddTool (dynReg s) td) s) t = if decide (tool_name td = t) then Some (restored s td) else shown s t.
Proof.
  unfold shown, GetTool, AddTool, restored. cbn. unfold tool_name. rewrite complete_definition_name. apply lookup_insert.
Qed.
Lemma mapper_remove s n : config (d_reg (RemoveTool (dynReg s) n).2) = config (d_reg (dynReg s)).
Proof. unfold RemoveTool. by destruct (tools (d_reg (dynReg s)) !! n). Qed.

Record skills_ok s : Prop := {
  so_wf : reg_wf (d_reg (dynReg s)); so_names : ∀ n skill, skills s !! n = Some skill → Name skill = n;
  so_active : ∀ n, n ∈ active s → is_Some (skills s !! n); so_stashed : ∀ t td, allTools s !! t = Some td → tool_name td = t;
  so_shown : ∀ t td, allTools s !! t = Some td → shown s t = if decide (claimed s t) then Some (restored s td) else None }.
Lemma remove_wf (d : DynamicRegistry Ctx Req W) n : reg_wf (d_reg d) → reg_wf (d_reg (RemoveTool d n).2).
Proof. apply (run_rop_wf d (OpRemoveTool n)). Qed.
Lemma add_wf (d : DynamicRegistry Ctx Req W) td : reg_wf (d_reg d) → reg_wf (d_reg (AddTool d td)).
Proof. apply (run_rop_wf d (OpAddTool td)). Qed.

(** One lemma per loop over the tools of a skill. *)
Lemma stash_all ts : ∀ s, reg_wf (d_reg (dynReg s)) →
  let s' := foldl stash s ts in
  skills s' = skills s ∧ active s' = active s ∧ config (d_reg (dynReg s')) = config (d_reg (dynReg s)) ∧ reg_wf (d_reg (dynReg s')) ∧
  (∀ t, shown s' t = if decide (t ∈ ts) then None else shown s t) ∧
  (∀ t, allTools s' !! t = if decide (t ∈ ts) then match shown s t with Some td => Some td | None => allTools s !! t end else allTools s !! t).
Proof.
  induction ts as [|n ts IH]; intros s Hwf; cbn [foldl].
  { split_and!; try done; intros t; by rewrite decide_False by (intros Ht; by apply elem_of_nil in Ht). }
  assert (H1 : skills (stash s n) = skills s ∧ active (stash s n) = active s ∧ config (d_reg (dynReg (stash s n))) = config (d_reg (dynReg s)) ∧
    reg_wf (d_reg (dynReg (stash s n))) ∧ (∀ t, shown (stash s n) t = if decide (n = t) then None else shown s t) ∧
    (∀ t, allTools (stash s n) !! t = if decide (n = t) then match shown s t with Some td => Some td | None => allTools s !! t end else allTools s !! t)).
  { unfold stash. fold (shown s n). destruct (shown s n) as [td|] eqn:E.
    - split; [done|]. split; [done|]. split; [apply mapper_remove|]. split; [by apply remove_wf|]. split.
      + intros t. rewrite <- (shown_remove s (active s) n t). done.
      + intros t. cbn. rewrite lookup_insert. case_decide; [subst; by rewrite E|done].
    - split_and!; try done; intros t; (case_decide as Hd; [subst; by rewrite E|done]). }
  destruct H1 as (H1 & H2 & H3 & H4 & H5 & H6). specialize (IH (stash s n) H4). cbv zeta in IH. destruct IH as (I1 & I2 & I3 & I4 & I5 & I6).
  split_and!; try congruence; try done; intros t.
  - rewrite I5, H5. destruct (decide (n = t)) as [->|Hne]; [rewrite (decide_True (P := t ∈ t :: ts)) by set_solver; by case_decide|].
    destruct (decide (t ∈ ts)); [rewrite decide_True by set_solver|rewrite decide_False by set_solver]; done.
  - rewrite I6, H5, H6. destruct (decide (n = t)) as [->|Hne]; [rewrite (decide_True (P := t ∈ t :: ts)) by set_solver; by case_decide|].
    destruct (decide (t ∈ ts)); [rewrite decide_True by set_solver|rewrite decide_False by set_solver]; done.
Qed.

Lemma unstash_all ts : ∀ s, reg_wf (d_reg (dynReg s)) → (∀ t td, allTools s !! t = Some td → tool_name td = t) →
  let s' := foldl unstash s ts in
  skills s' = skills s ∧ active s' = active s ∧ allTools s' = allTools s ∧ config (d_reg (dynReg s')) = config (d_reg (dynReg s)) ∧ reg_wf (d_reg (dynReg s')) ∧
  (∀ t, shown s' t = match allTools s !! t with Some td => if decide (t ∈ ts) then Some (restored s td) else shown s t | None => shown s t end).
Proof.
  induction ts as [|n ts IH]; intros s Hwf Hst; cbn [foldl].
  { split_and!; try done. intros t. destruct (allTools s !! t); [|done]. by rewrite decide_False by (intros Ht; by apply elem_of_nil in Ht). }
  assert (H1 : skills (unstash s n) = skills s ∧ active (unstash s n) = active s ∧ allTools (unstash s n) = allTools s ∧
    config (d_reg (dynReg (unstash s n))) = config (d_reg (dynReg s)) ∧ reg_wf (d_reg (dynReg (unstash s n))) ∧
    (∀ t, shown (unstash s n) t = match allTools s !! t with Some td => if decide (n = t) then Some (restored s td) else shown s t | None => shown s t end)).
  { unfold unstash. destruct (allTools s !! n) as [td|] eqn:E.
    - split_and!; try done; [by apply add_wf|]. intros t. rewrite shown_add, (Hst n td E). destruct (decide (n = t)) as [->|]; [by rewrite E|by destruct (allTools s !! t)].
    - split_and!; try done. intros t. destruct (allTools s !! t) eqn:Et; [|done]. by rewrite decide_False by congruence. }
  destruct H1 as (H1 & H2 & H3 & H4 & H5 & H6). specialize (IH (unstash s n) H5). rewrite H3 in IH. specialize (IH Hst). cbv zeta in IH.
  destruct IH as (I1 & I2 & I3 & I4 & I5 & I6). split_and!; try congruence; try done. intros t. rewrite I6, H6. destruct (allTools s !! t) as [td|]; [|done].
  unfold restored. rewrite H4. destruct (decide (n = t)) as [->|]; [rewrite (decide_True (P := t ∈ t :: ts)) by set_solver; by case_decide|].
  destruct (decide (t ∈ ts)); [rewrite decide_True by set_solver|rewrite decide_False by set_solver]; done.
Qed.

Lemma withdraw_all ts : ∀ s, reg_wf (d_reg (dynReg s)) →
  let s' := foldl withdraw s ts in
  skills s' = skills s ∧ active s' = active s ∧ allTools s' = allTools s ∧ config (d_reg (dynReg s')) = config (d_reg (dynReg s)) ∧ reg_wf (d_reg (dynReg s')) ∧
  (∀ t, shown s' t = if decide (t ∈ ts ∧ ¬ claimed s t) then None else shown s t).
Proof.
  induction ts as [|n ts IH]; intros s Hwf; cbn [foldl].
  { split_and!; done. }
  assert (H1 : skills (withdraw s n) = skills s ∧ active (withdraw s n) = active s ∧ allTools (withdraw s n) = allTools s ∧
    config (d_reg (dynReg (withdraw s n))) = config (d_reg (dynReg s)) ∧ reg_wf (d_reg (dynReg (withdraw s n))) ∧
    (∀ t, shown (withdraw s n) t = if decide (n = t ∧ ¬ claimed s t) then None else shown s t)).
  { unfold withdraw. destruct (toolClaimedByActive s n) eqn:E.
    - apply claimed_spec in E. split_and!; try done. intros t. rewrite decide_False; [done|]. intros [-> ?]. done.
    - assert (¬ claimed s n) by (intros H%claimed_spec; congruence). split_and!; try done; [apply mapper_remove|by apply remove_wf|]. intros t. rewrite shown_remove.
      destruct (decide (n = t)) as [->|]; [by rewrite decide_True|rewrite decide_False; [done|by intros [? _]]]. }
  destruct H1 as (H1 & H2 & H3 & H4 & H5 & H6). specialize (IH (withdraw s n) H5). cbv zeta in IH. destruct IH as (I1 & I2 & I3 & I4 & I5 & I6).
  split_and!; try congruence; try done. intros t. rewrite I6, H6. pose proof (claimed_active s (withdraw s n) t H2 H1) as Hc.
  repeat case_decide; try done; exfalso; set_solver.
Qed.
End Facts.

(** ** The operations keep the registry in step with the skills *)
Section Operations.
Context {Ctx Req W : Type}.
Implicit Types (s : SkillRegistry Ctx Req W).

Lemma register_ok skill s : skills_ok s → Name skill ∉ active s → (∀ t, t ∈ Tools skill → ¬ claimed s t) → skills_ok (Register skill s).
Proof.
  intros Hok Hn Hfree. unfold Register. set (s1 := {| skills := <[Name skill := skill]> (skills s); active := active s; dynReg := dynReg s; allTools := allTools s |}).
  assert (Hc : ∀ t, claimed s1 t ↔ claimed s t).
  { intros t. unfold claimed, s1. cbn. split; intros (n & k & H1 & H2 & H3); exists n, k; (split; [done|]); (split; [|done]).
    - apply lookup_insert_Some in H2 as [[<- _]|[_ H2]]; done.
    - apply lookup_insert_Some. right. split; [by intros <-|done]. }
  pose proof (stash_all (Tools skill) s1 (so_wf _ Hok)) as H. cbv zeta in H. destruct H as (H1 & H2 & H3 & H4 & H5 & H6).
  split; [done| | | |].
  - intros n k. rewrite H1. cbn. intros [[<- <-]|[_ H]]%lookup_insert_Some; [done|by apply (so_names _ Hok)].
  - intros n. rewrite H1, H2. cbn. intros H. apply lookup_insert_is_Some'. right. by apply (so_active _ Hok).
  - intros t td. rewrite H6. change (shown s1 t) with (shown s t). change (allTools s1) with (allTools s).
    intros H. destruct (decide (t ∈ Tools skill)); [|by apply (so_stashed _ Hok) in H]. destruct (shown s t) as [x|] eqn:E; [|by apply (so_stashed _ Hok) in H].
    simplify_eq. by apply (so_wf _ Hok) in E as [? _].
  - intros t td Ht. rewrite H5. unfold restored. rewrite H3. change (shown s1 t) with (shown s t). rewrite H6 in Ht. change (shown s1 t) with (shown s t) in Ht.
    assert (Hcl : claimed (foldl stash s1 (Tools skill)) t ↔ claimed s t) by (rewrite (claimed_active s1 _ t H2 H1); apply Hc).
    destruct (decide (t ∈ Tools skill)) as [Hin|Hin].
    + rewrite decide_False; [done|]. rewrite Hcl. by apply Hfree.
    + rewrite (so_shown _ Hok t td Ht). by repeat case_decide; try done; exfalso; naive_solver.
Qed.

Lemma activate_spec name s skill : skills_ok s → skills s !! name = Some skill → name ∉ active s →
  let s' := (Activate name s).2 in
  skills_ok s' ∧ skills s' = skills s ∧ allTools s' = allTools s ∧ active s' = {[name]} ∪ active s.
Proof.
  intros Hok Hs Hn. unfold Activate. rewrite Hs, bool_decide_false by done. cbn [snd]. set (s1 := set_state _ _ s).
  pose proof (unstash_all (Tools skill) s1 (so_wf _ Hok) (so_stashed _ Hok)) as H. cbv zeta in *. destruct H as (H1 & H2 & H3 & H4 & H5 & H6).
  split; [|by rewrite H1, H2, H3]. split; [done| | | |]; rewrite ?H1, ?H2, ?H3.
  - apply Hok.
  - intros n. cbn. intros [->%elem_of_singleton|Hin]%elem_of_union; [by eexists|by apply (so_active _ Hok)].
  - apply Hok.
  - intros t td Ht. rewrite H6. change (allTools s1) with (allTools s) in *. rewrite Ht. change (shown s1 t) with (shown s t). unfold restored. rewrite H4.
    change (dynReg s1) with (dynReg s). rewrite (so_shown _ Hok t td Ht). unfold restored.
    assert (Hcl : claimed (foldl unstash s1 (Tools skill)) t ↔ claimed s t ∨ t ∈ Tools skill).
    { rewrite (claimed_active s1 _ t H2 H1). unfold claimed, s1. cbn. split.
      - intros (n & k & [->%elem_of_singleton|Hin]%elem_of_union & Hk & Ht'); [right; congruence|left; by exists n, k].
      - intros [(n & k & Hin & Hk & Ht')|Ht']; [exists n, k; set_solver|exists name, skill; set_solver]. }
    repeat case_decide; try done; exfalso; naive_solver.
Qed.
Lemma activate_ok name s : skills_ok s → skills_ok (Activate name s).2.
Proof.
  intros Hok. unfold Activate. destruct (skills s !! name) as [skill|] eqn:E; [|done]. case_bool_decide; [done|].
  pose proof (activate_spec name s skill Hok E H) as H'. unfold Activate in H'. rewrite E, bool_decide_false in H' by done. by apply H'.
Qed.

Lemma deactivate_spec name s skill : skills_ok s → skills s !! name = Some skill → name ∈ active s →
  let s' := (Deactivate name s).2 in
  skills_ok s' ∧ skills s' = skills s ∧ allTools s' = allTools s ∧ active s' = active s ∖ {[name]}.
Proof.
  intros Hok Hs Hn. unfold Deactivate. rewrite Hs, bool_decide_true by done. cbn [negb snd]. set (s1 := set_state _ _ s).
  pose proof (withdraw_all (Tools skill) s1 (so_wf _ Hok)) as H. cbv zeta in *. destruct H as (H1 & H2 & H3 & H4 & H5 & H6).
  split; [|by rewrite H1, H2, H3]. split; [done| | | |]; rewrite ?H1, ?H2, ?H3.
  - apply Hok.
  - intros n. cbn. intros [Hin _]%elem_of_difference. by apply (so_active _ Hok).
  - apply Hok.
  - intros t td Ht. rewrite H6. change (allTools s1) with (allTools s) in *. change (shown s1 t) with (shown s t). unfold restored. rewrite H4.
    change (dynReg s1) with (dynReg s). rewrite (so_shown _ Hok t td Ht). unfold restored.
    assert (Hcl : claimed (foldl withdraw s1 (Tools skill)) t ↔ claimed s1 t) by by apply claimed_active.
    assert (Hsub : claimed s1 t → claimed s t) by (intros (n & k & Hin & Hk & Ht'); cbn in Hin; exists n, k; set_solver).
    assert (Hrest : claimed s t → claimed s1 t ∨ t ∈ Tools skill).
    { intros (n & k & Hin & Hk & Ht'). destruct (decide (n = name)) as [->|Hne]; [right; congruence|left]. exists n, k. cbn. set_solver. }
    repeat case_decide; try done; exfalso; naive_solver.
Qed.
Lemma deactivate_ok name s : skills_ok s → skills_ok (Deactivate name s).2.
Proof.
  intros Hok. unfold Deactivate. destruct (skills s !! name) as [skill|] eqn:E; [|done]. case_bool_decide as Hin; [|done].
  pose proof (deactivate_spec name s skill Hok E Hin) as H'. unfold Deactivate in H'. rewrite E, bool_decide_true in H' by done. by apply H'.
Qed.

(** The first pass of an update ends with no stale skill, and never with an error. *)
Lemma deactivate_stale_spec triggered names : ∀ s, skills_ok s → (∀ n, n ∈ names → is_Some (skills s !! n)) →
  let '(err, s') := deactivate_stale triggered names s in
  err = None ∧ skills_ok s' ∧ skills s' = skills s ∧ allTools s' = allTools s ∧ active s' ⊆ active s ∧
  (∀ n skill, n ∈ names → n ∈ active s' → skills s !! n = Some skill → Trigger skill ≠ None → n ∈ triggered).
Proof.
  induction names as [|n names IH]; intros s Hok Hin; cbn [deactivate_stale].
  { split_and!; try done. intros n skill Hn. by apply elem_of_nil in Hn. }
  destruct (Hin n) as [skill Hskill]; [set_solver|]. unfold GetSkill. rewrite Hskill.
  assert (Hrest : ∀ m, m ∈ names → is_Some (skills s !! m)) by set_solver.
  destruct (match Trigger skill with Some _ => true | None => false end && negb (bool_decide (n ∈ triggered))) eqn:Estale.
  - apply andb_true_iff in Estale as [Etr Enot]. to_prop.
    assert (H1 : (Deactivate n s).1 = None ∧ skills_ok (Deactivate n s).2 ∧ skills (Deactivate n s).2 = skills s ∧ allTools (Deactivate n s).2 = allTools s ∧
      active (Deactivate n s).2 = active s ∖ {[n]}).
    { split; [unfold Deactivate; rewrite Hskill; by case_bool_decide|]. destruct (decide (n ∈ active s)) as [Ha|Ha]; [by apply (deactivate_spec n s skill)|].
      unfold Deactivate. rewrite Hskill, bool_decide_false by done. cbn. split_and!; try done. set_solver. }
    destruct (Deactivate n s) as [err s1]. cbn in H1. destruct H1 as (-> & Hok1 & Hs1 & Ht1 & Ha1). rewrite <- Hs1 in Hrest. specialize (IH s1 Hok1 Hrest).
    destruct (deactivate_stale triggered names s1) as [err s']. destruct IH as (-> & ? & Hs' & Ht' & Ha' & Hall). split_and!; try done; try congruence; [set_solver|].
    intros m k Hm Hma Hmk Htr. rewrite Hs1 in Hall. destruct (decide (m = n)) as [->|Hne]; [exfalso; set_solver|]. apply (Hall m k); set_solver.
  - specialize (IH s Hok Hrest). destruct (deactivate_stale triggered names s) as [err s']. destruct IH as (-> & ? & Hs' & Ht' & Ha' & Hall). split_and!; try done.
    intros m k Hm Hma Hmk Htr. apply elem_of_cons in Hm as [->|Hm]; [|by apply (Hall m k)].
    assert (k = skill) as -> by congruence. destruct (Trigger skill); [|done]. apply andb_false_iff in Estale as [?|Estale]; [done|]. to_prop. done.
Qed.

(** ** The cap *)
Definition exposed s : gset string := filter (λ t, claimed s t) (dom (allTools s)).
Definition active_tools s : gset string := list_to_set (filter (λ p : string * Skill, p.1 ∈ active s) (map_to_list (skills s)) ≫= λ p, Tools p.2).
Lemma elem_of_active_tools s t : t ∈ active_tools s ↔ claimed s t.
Proof.
  unfold active_tools. rewrite elem_of_list_to_set, list_elem_of_bind. split.
  - intros ([n k] & Ht & Hin). apply list_elem_of_filter in Hin as [Ha Hin]. apply elem_of_map_to_list in Hin. by exists n, k.
  - intros (n & k & Ha & Hk & Ht). exists (n, k). split; [done|]. apply list_elem_of_filter. split; [done|]. by apply elem_of_map_to_list.
Qed.
Lemma exposed_count s : (size (exposed s) <= activeToolCount s)%nat.
Proof.
  change (activeToolCount s) with (size (active_tools s)). apply subseteq_size. intros t. unfold exposed. rewrite elem_of_filter, elem_of_active_tools. tauto.
Qed.
Lemma exposed_activate name s skill : skills_ok s → skills s !! name = Some skill → name ∉ active s →
  (size (exposed (Activate name s).2) <= activeToolCount s + new_tools s skill)%nat.
Proof.
  intros Hok Hs Hn. destruct (activate_spec name s skill Hok Hs Hn) as (_ & H1 & H2 & H3).
  transitivity (size (exposed s ∪ list_to_set (filter (λ t, is_Some (allTools s !! t)) (Tools skill)))).
  - apply subseteq_size. intros t. unfold exposed. rewrite elem_of_union, !elem_of_filter, elem_of_list_to_set, list_elem_of_filter, H2, !elem_of_dom. intros [Hc Ht].
    destruct Hc as (n & k & Ha & Hk & Htk). rewrite H3 in Ha. rewrite H1 in Hk. apply elem_of_union in Ha as [->%elem_of_singleton|Ha]; [right; split; [done|congruence]|].
    left. split; [|done]. by exists n, k.
  - rewrite size_union_alt. pose proof (exposed_count s).
    enough (size (list_to_set (C := gset string) (filter (λ t, is_Some (allTools s !! t)) (Tools skill)) ∖ exposed s) <= new_tools s skill)%nat by lia.
    transitivity (size (list_to_set (C := gset string) (filter (λ t, is_Some (allTools s !! t)) (Tools skill)))); [apply subseteq_size; set_solver|].
    unfold new_tools. generalize (filter (λ t, is_Some (allTools s !! t)) (Tools skill)). intros l. induction l as [|x l IH]; [done|].
    cbn [list_to_set length foldr]. pose proof (size_union_alt {[x]} (list_to_set (C := gset string) l)) as Hu. rewrite size_singleton in Hu. change (list_to_set (x :: l)) with ({[x]} ∪ list_to_set (C := gset string) l).
    pose proof (subseteq_size (list_to_set (C := gset string) l ∖ {[x]}) (list_to_set l) ltac:(set_solver)). lia.
Qed.

Lemma activate_triggered_spec cap triggered : ∀ s, skills_ok s → (∀ n, n ∈ triggered → is_Some (skills s !! n)) →
  let '(err, s') := activate_triggered cap triggered s in
  err = None ∧ skills_ok s' ∧ skills s' = skills s ∧ allTools s' = allTools s ∧ active s ⊆ active s' ∧
  (∀ n, n ∈ active s' → n ∈ active s ∨ n ∈ triggered) ∧
  (Z.of_nat (size (exposed s)) <= cap → Z.of_nat (size (exposed s')) <= cap).
Proof.
  induction triggered as [|n triggered IH]; intros s Hok Hin; cbn [activate_triggered]; [split_and!; auto|].
  destruct (Z.leb_spec cap (Z.of_nat (activeToolCount s))) as [Hfull|Hroom]; [split_and!; auto|].
  destruct (Hin n) as [skill Hskill]; [set_solver|]. unfold GetSkill. rewrite Hskill.
  assert (Hrest : ∀ m, m ∈ triggered → is_Some (skills s !! m)) by set_solver.
  destruct (Z.ltb_spec cap (Z.of_nat (activeToolCount s) + Z.of_nat (new_tools s skill))) as [Hover|Hfits].
  - specialize (IH s Hok Hrest). destruct (activate_triggered cap triggered s) as [err s']. destruct IH as (? & ? & ? & ? & ? & Hact & ?). split_and!; try done.
    intros m Hm. destruct (Hact m Hm); [by left|right; set_solver].
  - assert (H1 : (Activate n s).1 = None ∧ skills_ok (Activate n s).2 ∧ skills (Activate n s).2 = skills s ∧ allTools (Activate n s).2 = allTools s ∧
      active (Activate n s).2 = {[n]} ∪ active s ∧ (Z.of_nat (size (exposed s)) <= cap → Z.of_nat (size (exposed (Activate n s).2)) <= cap)).
    { split; [unfold Activate; rewrite Hskill; by case_bool_decide|]. destruct (decide (n ∈ active s)) as [Ha|Ha].
      - unfold Activate. rewrite Hskill, bool_decide_true by done. cbn. split_and!; try done. set_solver.
      - destruct (activate_spec n s skill Hok Hskill Ha) as (? & ? & ? & ?). split_and!; try done. intros _. pose proof (exposed_activate n s skill Hok Hskill Ha). lia. }
    destruct (Activate n s) as [err s1]. cbn in H1. destruct H1 as (-> & Hok1 & Hs1 & Ht1 & Ha1 & Hcap). rewrite <- Hs1 in Hrest. specialize (IH s1 Hok1 Hrest).
    destruct (activate_triggered cap triggered s1) as [err s']. destruct IH as (-> & ? & Hs' & Ht' & Hsub & Hact & Hcap'). split_and!; try done; try congruence; [set_solver| |tauto].
    intros m Hm. destruct (Hact m Hm) as [Hm'|Hm']; [rewrite Ha1 in Hm'; set_solver|right; set_solver].
Qed.
End Operations.

(** ** What the skills promise *)
Section Promises.
Context {Ctx Req W : Type}.
Implicit Types (s : SkillRegistry Ctx Req W).

Lemma evaluate_spec sc s : skills_ok s → ∀ n, n ∈ Evaluate sc s ↔ ∃ skill, skills s !! n = Some skill ∧ fires sc skill = true.
Proof.
  intros Hok n. unfold Evaluate. rewrite list_elem_of_fmap. split.
  - intros (skill & -> & Hin). rewrite merge_sort_Permutation, list_elem_of_filter, list_elem_of_fmap in Hin. destruct Hin as [Hf ([k x] & -> & Hin)].
    apply elem_of_map_to_list in Hin. exists x. cbn. by rewrite (so_names _ Hok k x Hin).
  - intros (skill & Hs & Hf). exists skill. split; [by rewrite (so_names _ Hok n skill Hs)|].
    rewrite merge_sort_Permutation, list_elem_of_filter, list_elem_of_fmap. split; [done|]. exists (n, skill). split; [done|]. by apply elem_of_map_to_list.
Qed.

Lemma update_ok cfg sc s : skills_ok s →
  let '(err, s') := Update cfg sc s in
  err = None ∧ skills_ok s' ∧ skills s' = skills s ∧ allTools s' = allTools s ∧
  (∀ n, n ∈ active s' → n ∈ active s ∨ n ∈ Evaluate sc s) ∧
  (Z.of_nat (size (exposed s)) <= MaxActiveTools cfg → Z.of_nat (size (exposed s')) <= MaxActiveTools cfg) ∧
  (AutoDeactivate cfg = true → ∀ n skill, n ∈ active s' → skills s !! n = Some skill → Trigger skill ≠ None → fires sc skill = true).
Proof.
  intros Hok. unfold Update. assert (Htr : ∀ n, n ∈ Evaluate sc s → is_Some (skills s !! n)) by (intros n (k & Hk & _)%evaluate_spec; [by eexists|done]).
  assert (Hpass : let '(err, s1) := (if AutoDeactivate cfg then deactivate_stale (Evaluate sc s) (ActiveSkills s) s else (None, s)) in
    err = None ∧ skills_ok s1 ∧ skills s1 = skills s ∧ allTools s1 = allTools s ∧ active s1 ⊆ active s ∧
    (AutoDeactivate cfg = true → ∀ n skill, n ∈ active s1 → skills s !! n = Some skill → Trigger skill ≠ None → n ∈ Evaluate sc s)).
  { destruct (AutoDeactivate cfg); [|split_and!; try done].
    assert (Hin : ∀ n, n ∈ ActiveSkills s ↔ n ∈ active s) by (intros n; unfold ActiveSkills; by rewrite elem_of_sort_strings, elem_of_elements).
    pose proof (deactivate_stale_spec (Evaluate sc s) (ActiveSkills s) s Hok) as H. destruct (deactivate_stale _ _ _) as [err s1].
    destruct H as (? & ? & ? & ? & Hsub & Hall); [intros n Hn; by apply (so_active _ Hok), Hin|]. split_and!; try done.
    intros _ n k Hn Hk Ht. apply (Hall n k); try done. apply Hin. by apply Hsub. }
  destruct (if AutoDeactivate cfg then _ else _) as [err s1]. destruct Hpass as (-> & Hok1 & Hs1 & Ht1 & Ha1 & Hstale). rewrite <- Hs1 in Htr.
  pose proof (activate_triggered_spec (MaxActiveTools cfg) (Evaluate sc s) s1 Hok1 Htr) as H. destruct (activate_triggered _ _ _) as [err s'].
  destruct H as (-> & ? & Hs' & Ht' & ? & Hact & Hcap). split_and!; try done; try congruence.
  - intros n Hn. destruct (Hact n Hn); [left; by apply Ha1|by right].
  - intros Hle. apply Hcap. enough (size (exposed s1) <= size (exposed s))%nat by lia. apply subseteq_size. intros t. unfold exposed. rewrite !elem_of_filter, Ht1.
    intros [(n & k & H1 & H2 & H3) ?]. split; [|done]. exists n, k. rewrite <- Hs1. split; [by apply Ha1|done].
  - intros Hauto n k Hn Hk Htrig. destruct (Hact n Hn) as [Hn1|Hn1]; [pose proof (Hstale Hauto n k Hn1 Hk Htrig) as Hn2|rename Hn1 into Hn2];
      apply evaluate_spec in Hn2 as (k' & Hk' & Hf); try done; congruence.
Qed.

(** *** The registry as it would be without skills
    The same additions and removals by hand, and the tools that some registered skill has taken: it named them when they were listed. *)
Record bystander := { plain : DynamicRegistry Ctx Req W; taken : gset string }.
Definition watch (g : bystander) (o : sop Ctx Req W) : bystander :=
  match o with
  | SRegister skill => {| plain := plain g; taken := taken g ∪ list_to_set (filter (λ t, is_Some (GetTool (d_reg (plain g)) t)) (Tools skill)) |}
  | SAddTool td => {| plain := AddTool (plain g) td; taken := taken g |}
  | SRemoveTool n => {| plain := (RemoveTool (plain g) n).2; taken := taken g |}
  | _ => g
  end.
Definition named s (t : string) : Prop := ∃ n skill, skills s !! n = Some skill ∧ t ∈ Tools skill.
(** What a client of the registry of skills has to keep to: a skill is not registered again while it is active, nor with a
    tool of an active skill; tools that a skill names, or has taken, are not added or removed by hand. *)
Definition allowed s (g : bystander) (o : sop Ctx Req W) : Prop :=
  match o with
  | SRegister skill => Name skill ∉ active s ∧ ∀ t, t ∈ Tools skill → ¬ claimed s t
  | SAddTool td => ¬ named s (tool_name td) ∧ tool_name td ∉ taken g
  | SRemoveTool n => ¬ named s n ∧ n ∉ taken g
  | _ => True
  end.
Fixpoint all_allowed s (g : bystander) (ops : list (sop Ctx Req W)) : Prop :=
  match ops with [] => True | o :: ops => allowed s g o ∧ all_allowed (run_sop s o) (watch g o) ops end.
Lemma allowed_register skill s g :
  bool_decide (Name skill ∈ active s) = false → forallb (λ t, negb (toolClaimedByActive s t)) (Tools skill) = true → allowed s g (SRegister skill).
Proof.
  intros H1 H2. split; [by apply bool_decide_eq_false in H1|]. intros t Ht Hc%claimed_spec. rewrite forallb_forall in H2.
  specialize (H2 t (proj1 (list_elem_of_In _ _) Ht)). by rewrite Hc in H2.
Qed.
(** Completing a definition again changes nothing. *)
Definition completed (d : DynamicRegistry Ctx Req W) : Prop :=
  ∀ t td, GetTool (d_reg d) t = Some td → complete_definition (RuntimeGroupMapper (config (d_reg d))) td = td.
Record in_step s (g : bystander) : Prop := {
  is_config : config (d_reg (dynReg s)) = config (d_reg (plain g));
  is_completed : completed (plain g);
  is_stashed : ∀ t, allTools s !! t = if decide (t ∈ taken g) then GetTool (d_reg (plain g)) t else None;
  is_taken : ∀ t, t ∈ taken g → is_Some (GetTool (d_reg (plain g)) t);
  is_listed : ∀ t, t ∉ taken g → shown s t = GetTool (d_reg (plain g)) t;
  is_named : ∀ t, named s t → t ∉ taken g → GetTool (d_reg (plain g)) t = None
}.
Lemma watch_taken skill g t : t ∈ taken (watch g (SRegister skill)) ↔ t ∈ taken g ∨ t ∈ Tools skill ∧ is_Some (GetTool (d_reg (plain g)) t).
Proof. cbn. rewrite elem_of_union, elem_of_list_to_set, list_elem_of_filter. tauto. Qed.
Lemma in_step_register skill s g : skills_ok s → in_step s g → (∀ t, t ∈ Tools skill → ¬ claimed s t) → in_step (Register skill s) (watch g (SRegister skill)).
Proof.
  intros Hok [I1 I2 I3 I4 I5 I6] Hfree. unfold Register. set (s1 := {| skills := <[Name skill := skill]> (skills s); active := active s; dynReg := dynReg s; allTools := allTools s |}).
  pose proof (stash_all (Tools skill) s1 (so_wf _ Hok)) as H. cbv zeta in H. destruct H as (H1 & H2 & H3 & H4 & H5 & H6).
  assert (Hhid : ∀ t, t ∈ Tools skill → t ∈ taken g → shown s t = None ∧ allTools s !! t = GetTool (d_reg (plain g)) t).
  { intros t Ht Htk. pose proof (I3 t) as Hs. rewrite decide_True in Hs by done. split; [|done]. destruct (I4 t Htk) as [td Htd].
    rewrite Htd in Hs. rewrite (so_shown _ Hok t td Hs). rewrite decide_False; [done|by apply Hfree]. }
  split; change (plain (watch g (SRegister skill))) with (plain g).
  - by rewrite H3.
  - done.
  - intros t. rewrite H6. change (shown s1 t) with (shown s t). change (allTools s1) with (allTools s). destruct (decide (t ∈ Tools skill)) as [Ht|Ht].
    + destruct (decide (t ∈ taken g)) as [Htk|Htk].
      * destruct (Hhid t Ht Htk) as [-> ->]. rewrite decide_True; [done|]. apply watch_taken. by left.
      * rewrite (I5 t Htk), I3, (decide_False (P := t ∈ taken g)) by done. destruct (GetTool (d_reg (plain g)) t) as [td|] eqn:E.
        -- rewrite decide_True; [done|]. apply watch_taken. right. split; [done|]. by exists td.
        -- by case_decide.
    + rewrite I3. assert (t ∈ taken (watch g (SRegister skill)) ↔ t ∈ taken g) as Hiff by (rewrite watch_taken; tauto).
      case_decide; case_decide; try done; tauto.
  - intros t [Ht|[_ Ht]]%watch_taken; [by apply I4|done].
  - intros t Ht. rewrite watch_taken in Ht. rewrite H5. change (shown s1 t) with (shown s t). destruct (decide (t ∈ Tools skill)) as [Hin|Hin]; [|apply I5; tauto].
    destruct (GetTool (d_reg (plain g)) t) as [td|] eqn:E; [|done]. exfalso. apply Ht. right. split; [done|]. by exists td.
  - intros t (n & k & Hk & Hin) Ht. rewrite watch_taken in Ht. rewrite H1 in Hk. cbn in Hk. apply lookup_insert_Some in Hk as [[<- <-]|[_ Hk]].
    + destruct (GetTool (d_reg (plain g)) t) as [td|] eqn:E; [|done]. exfalso. apply Ht. right. split; [done|]. by exists td.
    + apply I6; [by exists n, k|tauto].
Qed.
Lemma in_step_activate name s g : skills_ok s → in_step s g → in_step (Activate name s).2 g.
Proof.
  intros Hok [I1 I2 I3 I4 I5 I6]. unfold Activate. destruct (skills s !! name) as [skill|] eqn:Es; [|by split]. case_bool_decide as Ha; [by split|]. cbn [snd].
  set (s1 := set_state _ _ s). pose proof (unstash_all (Tools skill) s1 (so_wf _ Hok) (so_stashed _ Hok)) as H. cbv zeta in H. destruct H as (H1 & H2 & H3 & H4 & H5 & H6).
  split; rewrite ?H3, ?H4; try done.
  - intros t Ht. rewrite H6. change (allTools s1) with (allTools s). rewrite I3, decide_False by done. by apply I5.
  - intros t (n & k & Hk & Hin). rewrite H1 in Hk. apply I6. by exists n, k.
Qed.
Lemma in_step_deactivate name s g : skills_ok s → in_step s g → in_step (Deactivate name s).2 g.
Proof.
  intros Hok [I1 I2 I3 I4 I5 I6]. unfold Deactivate. destruct (skills s !! name) as [skill|] eqn:Es; [|by split]. case_bool_decide as Ha; [|by split]. cbn [negb snd].
  set (s1 := set_state _ _ s). pose proof (withdraw_all (Tools skill) s1 (so_wf _ Hok)) as H. cbv zeta in H. destruct H as (H1 & H2 & H3 & H4 & H5 & H6).
  split; rewrite ?H3, ?H4; try done.
  - intros t Ht. rewrite H6. change (shown s1 t) with (shown s t). case_decide as Hd; [|by apply I5]. symmetry. apply I6; [by exists name, skill; destruct Hd|done].
  - intros t (n & k & Hk & Hin). rewrite H1 in Hk. apply I6. by exists n, k.
Qed.
(** An update is activations and deactivations. *)
Lemma update_is_steps (P : SkillRegistry Ctx Req W → Prop) cfg sc s :
  (∀ n s, P s → P (Activate n s).2) → (∀ n s, P s → P (Deactivate n s).2) → P s → P (Update cfg sc s).2.
Proof.
  intros Ha Hd Hs. unfold Update. assert (∀ tr names s, P s → P (deactivate_stale tr names s).2) as H1.
  { intros tr names. induction names as [|n names IH]; intros s0 H0; [done|]. cbn. destruct (GetSkill s0 n) as [k|]; [|by apply IH].
    case_match; [|by apply IH]. specialize (Hd n s0 H0). destruct (Deactivate n s0) as [[e|] s2]; [done|by apply IH]. }
  assert (∀ cap tr s, P s → P (activate_triggered cap tr s).2) as H2.
  { intros cap tr. induction tr as [|n tr IH]; intros s0 H0; [done|]. cbn. case_match; [done|]. destruct (GetSkill s0 n) as [k|]; [|by apply IH].
    case_match; [by apply IH|]. specialize (Ha n s0 H0). destruct (Activate n s0) as [[e|] s2]; [done|by apply IH]. }
  destruct (AutoDeactivate cfg).
  - specialize (H1 (Evaluate sc s) (ActiveSkills s) s Hs). destruct (deactivate_stale _ _ _) as [[e|] s1]; [done|by apply H2].
  - by apply H2.
Qed.
Lemma GetTool_add (d : DynamicRegistry Ctx Req W) td t : GetTool (d_reg (AddTool d td)) t =
  if decide (tool_name td = t) then Some (complete_definition (RuntimeGroupMapper (config (d_reg d))) td) else GetTool (d_reg d) t.
Proof. unfold GetTool, AddTool. cbn. unfold tool_name. rewrite complete_definition_name. apply lookup_insert. Qed.
Lemma GetTool_remove (d : DynamicRegistry Ctx Req W) n t : GetTool (d_reg (RemoveTool d n).2) t = if decide (n = t) then None else GetTool (d_reg d) t.
Proof.
  unfold GetTool, RemoveTool. destruct (tools (d_reg d) !! n) as [td|] eqn:E; cbn; [by rewrite lookup_delete|]. case_decide; [by subst|done].
Qed.
Lemma config_remove (d : DynamicRegistry Ctx Req W) n : config (d_reg (RemoveTool d n).2) = config (d_reg d).
Proof. unfold RemoveTool. by destruct (tools (d_reg d) !! n). Qed.
Lemma complete_again m (td : TD Ctx Req W) lazy : complete_definition m (settled m td lazy) = settled m td lazy.
Proof.
  unfold complete_definition, settled, tool_name. generalize InferIsWrite. intros inf. destruct td as [t h c s tg st cx w dp to cg g os mr dl al su de io ro]; cbn.
  destruct m as [f|]; cbn; [destruct (decide (g = "")) as [->|Hg]; case_bool_decide; cbn in *; try done|];
    (destruct ro as [b|]; cbn; [done|]; destruct w; cbn; [done|]; destruct (inf (Tool.Name t)) eqn:E; cbn; by rewrite ?E).
Qed.
Lemma completed_add d td : completed d → completed (AddTool d td).
Proof.
  intros H t x. rewrite GetTool_add. case_decide; [|apply H]. intros [= <-]. cbn. rewrite (complete_is_settled _ td). apply complete_again.
Qed.
Lemma in_step_hand s g o : skills_ok s → in_step s g → allowed s g o → match o with SAddTool _ | SRemoveTool _ => True | _ => False end →
  in_step (run_sop s o) (watch g o).
Proof.
  intros Hok [I1 I2 I3 I4 I5 I6] Ha Ho. destruct o as [skill|name|name|cfg sc|td|n]; try done; cbn [run_sop watch allowed] in *; destruct Ha as [Hnn Hnt].
  - split; cbn [plain taken].
    + exact I1.
    + by apply completed_add.
    + intros t. rewrite GetTool_add. change (allTools s !! t = if decide (t ∈ taken g) then if decide (tool_name td = t) then Some (complete_definition (RuntimeGroupMapper (config (d_reg (plain g)))) td) else GetTool (d_reg (plain g)) t else None).
      rewrite I3. destruct (decide (t ∈ taken g)); [|done]. rewrite decide_False; [done|by intros <-].
    + intros t Ht. rewrite GetTool_add, decide_False by (by intros <-). by apply I4.
    + intros t Ht. rewrite shown_add, GetTool_add. unfold restored. rewrite I1. case_decide; [done|by apply I5].
    + intros t Ht Hnk. rewrite GetTool_add, decide_False by (by intros <-). by apply I6.
  - split; cbn [plain taken].
    + change (config (d_reg (RemoveTool (dynReg s) n).2) = config (d_reg (RemoveTool (plain g) n).2)). by rewrite !config_remove.
    + intros t x. rewrite GetTool_remove, config_remove. case_decide; [done|apply I2].
    + intros t. rewrite GetTool_remove. change (allTools s !! t = if decide (t ∈ taken g) then if decide (n = t) then None else GetTool (d_reg (plain g)) t else None).
      rewrite I3. destruct (decide (t ∈ taken g)); [|done]. rewrite decide_False; [done|by intros <-].
    + intros t Ht. rewrite GetTool_remove, decide_False by (by intros <-). by apply I4.
    + intros t Ht. rewrite shown_remove, GetTool_remove. case_decide; [done|by apply I5].
    + intros t Ht Hnk. rewrite GetTool_remove. case_decide; [done|]. by apply I6.
Qed.
Lemma run_sop_ok s g o : skills_ok s → in_step s g → allowed s g o → skills_ok (run_sop s o) ∧ in_step (run_sop s o) (watch g o).
Proof.
  intros Hok Hst Ha. destruct o as [skill|name|name|cfg sc|td|n].
  - split; [apply register_ok; [done|apply Ha|apply Ha]|]. apply in_step_register; [done|done|apply Ha].
  - split; [by apply activate_ok|by apply in_step_activate].
  - split; [by apply deactivate_ok|by apply in_step_deactivate].
  - apply (update_is_steps (λ s, skills_ok s ∧ in_step s g)); [..|done]; intros n s0 [H1 H2].
    + split; [by apply activate_ok|by apply in_step_activate].
    + split; [by apply deactivate_ok|by apply in_step_deactivate].
  - split; [|by apply in_step_hand]. cbn [run_sop]. assert (allTools s !! tool_name td = None) as Hno by (rewrite (is_stashed _ _ Hst), decide_False; [done|apply Ha]).
    split; [by apply add_wf, Hok|apply Hok|apply Hok|apply Hok|]. intros t x Hx. change (allTools s !! t = Some x) in Hx. rewrite shown_add, decide_False by (intros <-; by rewrite Hno in Hx). rewrite (so_shown _ Hok t x Hx). destruct (decide (claimed s t)); [rewrite decide_True by done|rewrite decide_False by done]; done.
  - split; [|by apply in_step_hand]. cbn [run_sop]. assert (allTools s !! n = None) as Hno by (rewrite (is_stashed _ _ Hst), decide_False; [done|apply Ha]).
    split; [by apply remove_wf, Hok|apply Hok|apply Hok|apply Hok|]. intros t x Hx. change (allTools s !! t = Some x) in Hx. rewrite shown_remove, decide_False by (intros ->; by rewrite Hno in Hx).
    unfold restored. cbn [dynReg set_state]. rewrite mapper_remove. rewrite (so_shown _ Hok t x Hx). destruct (decide (claimed s t)); [rewrite decide_True by done|rewrite decide_False by done]; done.
Qed.
Lemma new_ok (reg : DynamicRegistry Ctx Req W) : reg_wf (d_reg reg) → skills_ok (NewSkillRegistry reg).
Proof.
  intros Hwf. split; [done| | | |]; cbn; intros n.
  - intros skill H. by rewrite lookup_empty in H.
  - intros H. set_solver.
  - intros td H. by rewrite lookup_empty in H.
  - intros td H. by rewrite lookup_empty in H.
Qed.
Lemma new_in_step cfgs os : let d := foldl run_rop (NewDynamicRegistry cfgs) os in in_step (NewSkillRegistry d) {| plain := d; taken := ∅ |}.
Proof.
  intros d. split; cbn; try done.
  - intros t td H. destruct (tells_rops cfgs os) as [Hm Hn]. fold d in Hm, Hn. rewrite Hm. unfold GetTool in H. pose proof (eq_trans (eq_sym (proj1 (Hn t))) H) as E.
    apply fmap_Some in E as (x & _ & ->). apply complete_again.
  - intros t (n & k & H & _). cbn in H. by rewrite lookup_empty in H.
Qed.

(** C37.  A tool is hidden exactly while it belongs to skills none of which is active.  Compare a registry with skills, after any sequence
    of registrations, activations, deactivations and updates of the loader that keeps to the rules, with the registry as it would be
    without skills: a tool that a registered skill took (that it named while the tool was listed) is listed exactly while some active skill
    claims it, and then with exactly the definition it would have; every other tool is as it would be.  The rules: a skill is not registered again while active, nor with a tool
    of an active skill; tools that a registered skill names, or one has taken, are not added or removed by hand. *)
Theorem skill_tools_follow_skills (cfgs : list (Cfg Ctx Req W)) os ops t :
  let d := foldl run_rop (NewDynamicRegistry cfgs) os in
  all_allowed (NewSkillRegistry d) {| plain := d; taken := ∅ |} ops →
  let s := foldl run_sop (NewSkillRegistry d) ops in
  let g := foldl watch {| plain := d; taken := ∅ |} ops in
  GetTool (d_reg (dynReg s)) t = if decide (t ∈ taken g ∧ ¬ claimed s t) then None else GetTool (d_reg (plain g)) t.
Proof.
  intros d Hops s g. assert (skills_ok s ∧ in_step s g) as [Hok Hst].
  { unfold s, g. assert (H0 : skills_ok (NewSkillRegistry d)) by (apply new_ok, run_rops_wf). assert (H1 : in_step (NewSkillRegistry d) {| plain := d; taken := ∅ |}) by apply (new_in_step cfgs os).
    revert H0 H1 Hops. clear s g. generalize (NewSkillRegistry d). generalize {| plain := d; taken := ∅ |}. induction ops as [|o ops IH]; intros g s H0 H1 Hall; [done|].
    destruct Hall as [Ha Hall]. destruct (run_sop_ok s g o H0 H1 Ha).
    by apply IH. }
  fold (shown s t). destruct (decide (t ∈ taken g)) as [Ht|Ht].
  - pose proof (is_stashed _ _ Hst t) as Hs. rewrite decide_True in Hs by done. destruct (is_taken _ _ Hst t Ht) as [td Htd]. rewrite Htd in Hs.
    rewrite (so_shown _ Hok t td Hs), Htd. unfold restored. rewrite (is_config _ _ Hst), (is_completed _ _ Hst t td Htd).
    case_decide; [rewrite decide_False by tauto; done|rewrite decide_True by tauto; done].
  - rewrite decide_False by tauto. by apply (is_listed _ _ Hst).
Qed.

(** An update never fails; it activates only skills whose trigger fires, with automatic deactivation it leaves no skill
    active whose trigger has stopped firing, and it never takes the number of tools that skills have put into the
    registry above the cap. *)
Theorem loader_respects_cap cfg sc s (Hok : skills_ok s) :
  let '(err, s') := Update cfg sc s in
  err = None ∧ skills_ok s' ∧
  (∀ n, n ∈ active s' → n ∈ active s ∨ ∃ skill, skills s !! n = Some skill ∧ fires sc skill = true) ∧
  (AutoDeactivate cfg = true → ∀ n skill, n ∈ active s' → skills s !! n = Some skill → Trigger skill ≠ None → fires sc skill = true) ∧
  (Z.of_nat (size (exposed s)) <= MaxActiveTools cfg → Z.of_nat (size (exposed s')) <= MaxActiveTools cfg).
Proof.
  pose proof (update_ok cfg sc s Hok) as H. destruct (Update cfg sc s) as [err s']. destruct H as (? & ? & ? & ? & Hact & ? & ?).
  split_and!; try done. intros n Hn. destruct (Hact n Hn) as [|H']; [by left|right]. by apply (evaluate_spec sc s).
Qed.
End Promises.

(** ** Concrete skills *)
Definition demo_td (name : string) : TD unit unit unit :=
  plain_definition (λ _ _ w, (Returns None None, w)) {|
    Tool.Name := name; Title := ""; Tool.Description := ""; Annotations := Annotations plain_tool; InputSchema := InputSchema plain_tool;
    ToolOutputSchema := ToolOutputSchema plain_tool; Meta := None; ToolDeferLoading := false |}.
Definition demo_skill (name : string) (tools : list string) : Skill := {|
  Name := name; Description := ""; Tools := tools; Trigger := Some (λ sc, bool_decide (name ∈ TaskHints sc)); Priority := 1 |}.
Definition demo_context (hints : list string) : SkillContext := {| ActiveTools := []; RecentCalls := []; TaskHints := hints; sc_Tags := ∅ |}.
Definition demo_start : SkillRegistry unit unit unit :=
  NewSkillRegistry (foldl run_rop (NewDynamicRegistry []) [OpAddTool (demo_td "read"); OpAddTool (demo_td "write"); OpAddTool (demo_td "grep")]).
Definition demo_sops : list (sop unit unit unit) :=
  [SRegister (demo_skill "edit" ["read"; "write"]); SRegister (demo_skill "find" ["read"; "grep"]); SActivate "edit"; SActivate "find"; SDeactivate "edit"].
Definition listed (s : SkillRegistry unit unit unit) : list string := ListTools (d_reg (dynReg s)).

Lemma skill_tools_follow_skills_witness :
  let s := foldl run_sop demo_start demo_sops in
  listed s = ["grep"; "read"] ∧ shown s "read" = GetTool (d_reg (dynReg demo_start)) "read" ∧ is_Some (shown s "read") ∧ shown s "write" = None.
Proof.
  intros s. set (d := foldl run_rop (NewDynamicRegistry []) [OpAddTool (demo_td "read"); OpAddTool (demo_td "write"); OpAddTool (demo_td "grep")]).
  assert (Hall : all_allowed demo_start {| plain := d; taken := ∅ |} demo_sops).
  { split; [by apply allowed_register; vm_compute|]. split; [by apply allowed_register; vm_compute|]. repeat split. }
  pose proof (λ t, skill_tools_follow_skills [] _ demo_sops t Hall) as H. cbv zeta in H. change (foldl run_sop (NewSkillRegistry _) demo_sops) with s in H.
  split; [by vm_compute|]. split; [|split; [apply (bool_decide_unpack _); by vm_compute|]].
  - unfold shown. rewrite H, decide_False; [done|]. intros [_ Hc]. apply Hc, claimed_spec. by vm_compute.
  - unfold shown. rewrite H, decide_True; [done|]. split; [apply (bool_decide_unpack _); by vm_compute|]. rewrite <- claimed_spec. by vm_compute.
Defined.
Lemma loader_respects_cap_witness :
  let s := NewSkillRegistry (Ctx := unit) (Req := unit) (W := unit) (NewDynamicRegistry []) in
  let '(err, s') := Update {| MaxActiveTools := 0; AutoDeactivate := true |} (demo_context ["edit"]) s in
  err = None ∧ (Z.of_nat (size (exposed s)) <= 0 → Z.of_nat (size (exposed s')) <= 0).
Proof.
  intros s. assert (Hok : skills_ok s) by (apply new_ok; split; cbn; intros n; rewrite lookup_empty; [done|by intros [? ?]]).
  pose proof (loader_respects_cap {| MaxActiveTools := 0; AutoDeactivate := true |} (demo_context ["edit"]) s Hok) as H.
  destruct (Update _ _ s) as [err s']. split; [apply H|apply H].
Defined.

(** A skill registered with a tool of an active skill takes the tool away from it. *)
Lemma register_takes_tool_from_active :
  let s := foldl run_sop demo_start [SRegister (demo_skill "edit" ["read"]); SActivate "edit"] in
  listed s = ["grep"; "read"; "write"] ∧
  listed (Register (demo_skill "find" ["read"]) s) = ["grep"; "write"] ∧ "edit" ∈ active (Register (demo_skill "find" ["read"]) s).
Proof. split; [by vm_compute|]. split; [by vm_compute|]. by apply (bool_decide_unpack _); vm_compute. Qed.
(** An active skill that is registered again loses its tools, and activating it does not bring them back. *)
Lemma reregistered_skill_loses_tools :
  let s := foldl run_sop demo_start [SRegister (demo_skill "edit" ["read"]); SActivate "edit"; SRegister (demo_skill "edit" ["read"]); SActivate "edit"] in
  "edit" ∈ active s ∧ listed s = ["grep"; "write"].
Proof. split; [by apply (bool_decide_unpack _); vm_compute|by vm_compute]. Qed.
(** A tool that was registered after the skill that names it is removed for good when the skill is deactivated. *)
Lemma deactivate_loses_tool :
  let s := foldl run_sop demo_start [SRegister (demo_skill "edit" ["late"]); SActivate "edit"; SAddTool (demo_td "late"); SDeactivate "edit"] in
  listed s = ["grep"; "read"; "write"] ∧ listed (Activate "edit" s).2 = ["grep"; "read"; "write"].
Proof. by vm_compute. Qed.
