(* ===== verification/Sampling.v ===== *)
(** Sampling (src/sampling): the validation of a request for a completion, and the client that calls a Messages API with
    retries while it is told to slow down.

    The HTTP round trip and the waits are parameters; the texts on the wire are those of encoding/json (Json.v). *)

From stdpp Require Import base tactics list gmap strings.
From Stdlib Require Import ZArith Lia Floats.SpecFloat.
From S2P Require Import Prelude Truncate LoopGuards Json.
From S2P Require Sanitize A2aJson A2aRpc.
Import A2aJson(dec_struct, dec_list, dec_ptr, not_null).
Import A2aRpc(dec_int, trim_right_byte).

Local Open Scope Z_scope.

(** ** Requests (mcp.CreateMessageRequest, as src/sampling uses it) *)
Inductive AnyContent := ANil | AContent (c : Content) | AString (s : string) | AOther.
Record SamplingMessage := { Role : string; m_Content : AnyContent }.
Record ModelPreferences := { Hints : list string; CostPriority : float64; SpeedPriority : float64; IntelligencePriority : float64 }.
(** [Metadata] is [None] when it is not a map. *)
Record CreateMessageRequest := {
  Messages : list SamplingMessage; Preferences : option ModelPreferences; SystemPrompt : string; IncludeContext : string;
  Temperature : float64; MaxTokens : Z; StopSequences : list string; Metadata : option (gmap string json) }.
Record CreateMessageResult := { r_Role : string; r_Content : Content; r_Model : string; r_StopReason : string }.

(** ** Building a request (helpers.go, request.go) *)
Definition RequestOption := CreateMessageRequest → CreateMessageRequest.
Definition WithSystemPrompt (s : string) : RequestOption := λ p, {|
  Messages := Messages p; Preferences := Preferences p; SystemPrompt := s; IncludeContext := IncludeContext p; Temperature := Temperature p;
  MaxTokens := MaxTokens p; StopSequences := StopSequences p; Metadata := Metadata p |}.
Definition WithTemperature (t : float64) : RequestOption := λ p, {|
  Messages := Messages p; Preferences := Preferences p; SystemPrompt := SystemPrompt p; IncludeContext := IncludeContext p; Temperature := t;
  MaxTokens := MaxTokens p; StopSequences := StopSequences p; Metadata := Metadata p |}.
Definition WithModel (model : string) : RequestOption := λ p, {|
  Messages := Messages p; Preferences := Preferences p; SystemPrompt := SystemPrompt p; IncludeContext := IncludeContext p; Temperature := Temperature p;
  MaxTokens := MaxTokens p; StopSequences := StopSequences p; Metadata := Some {["preferredModel" := JString model]} |}.
Definition WithMaxTokens (n : Z) : RequestOption := λ p, {|
  Messages := Messages p; Preferences := Preferences p; SystemPrompt := SystemPrompt p; IncludeContext := IncludeContext p; Temperature := Temperature p;
  MaxTokens := n; StopSequences := StopSequences p; Metadata := Metadata p |}.
Definition TextMessage (role text : string) : SamplingMessage := {| Role := role; m_Content := AContent (MakeTextContent text) |}.
Definition CompletionRequest (messages : list SamplingMessage) (opts : list RequestOption) : CreateMessageRequest :=
  foldl (λ p opt, opt p) {| Messages := messages; Preferences := None; SystemPrompt := ""; IncludeContext := ""; Temperature := float_zero;
                            MaxTokens := 1024; StopSequences := []; Metadata := None |} opts.

(** ** Validation (validate.go) *)
Definition ErrNoMessages := ErrSentinel "ErrNoMessages" "sampling: messages must not be empty".
Definition ErrInvalidRole := ErrSentinel "ErrInvalidRole" "sampling: message role must be 'user' or 'assistant'".
Definition ErrNilContent := ErrSentinel "ErrNilContent" "sampling: message content must not be nil".
Definition ErrMaxTokensNegative := ErrSentinel "ErrMaxTokensNegative" "sampling: maxTokens must not be negative".
Definition ErrTemperatureRange := ErrSentinel "ErrTemperatureRange" "sampling: temperature must be between 0.0 and 1.0".
Definition ErrIncludeContextVal := ErrSentinel "ErrIncludeContextVal" "sampling: includeContext must be 'none', 'thisServer', or 'allServers'".
Definition ErrStopSequenceEmpty := ErrSentinel "ErrStopSequenceEmpty" "sampling: stop sequences must not contain empty strings".
Definition ErrFirstMessageRole := ErrSentinel "ErrFirstMessageRole" "sampling: first message must have role 'user'".
Definition ErrConsecutiveRoles := ErrSentinel "ErrConsecutiveRoles" "sampling: consecutive messages must not have the same role".
Definition ErrModelHintEmpty := ErrSentinel "ErrModelHintEmpty" "sampling: model preference hint name must not be empty".
Definition ErrCostPriorityRange := ErrSentinel "ErrCostPriorityRange" "sampling: costPriority must be between 0.0 and 1.0".
Definition ErrSpeedPriorityRange := ErrSentinel "ErrSpeedPriorityRange" "sampling: speedPriority must be between 0.0 and 1.0".
Definition ErrIntelPriorityRange := ErrSentinel "ErrIntelPriorityRange" "sampling: intelligencePriority must be between 0.0 and 1.0".

Definition when (b : bool) (e : error) : list error := if b then [e] else [].
Definition wrapped (e : error) (post : string) : error := ErrWrap "" e post.
Definition message_errors (i : nat) (prevRole : string) (msg : SamplingMessage) : list error :=
  let role := Role msg in
  let n := itoa (Z.of_nat i) in
  when (negb (bool_decide (role = "user")) && negb (bool_decide (role = "assistant"))) (wrapped ErrInvalidRole (": message[" +:+ n +:+ "] has role " +:+ quote role)) ++
  when (match m_Content msg with ANil => true | _ => false end) (wrapped ErrNilContent (": message[" +:+ n +:+ "]")) ++
  when ((i =? 0)%nat && negb (bool_decide (role = "user"))) ErrFirstMessageRole ++
  when ((0 <? i)%nat && bool_decide (role = prevRole))
    (wrapped ErrConsecutiveRoles (": messages[" +:+ itoa (Z.of_nat i - 1) +:+ "] and [" +:+ n +:+ "] both have role " +:+ quote role)).
Fixpoint messages_errors (i : nat) (prevRole : string) (msgs : list SamplingMessage) : list error :=
  match msgs with [] => [] | msg :: msgs => message_errors i prevRole msg ++ messages_errors (S i) (Role msg) msgs end.
Fixpoint indexed_errors {A} (bad : A → bool) (err : nat → error) (i : nat) (l : list A) : list error :=
  match l with [] => [] | x :: l => when (bad x) (err i) ++ indexed_errors bad err (S i) l end.
Definition float_one : float64 := float_of_int 1.
Definition outside (x : float64) : bool := float_lt x float_zero || float_lt float_one x.
Definition float_eqb (x y : float64) : bool := SFeqb x y.
(** The failures, in order; none of them when the request is valid ([errors.Join] of them otherwise). *)
Definition ValidateRequest (req : CreateMessageRequest) : list error :=
  when (bool_decide (length (Messages req) = 0%nat)) ErrNoMessages ++
  messages_errors 0 "" (Messages req) ++
  when (MaxTokens req <? 0) ErrMaxTokensNegative ++
  when (negb (float_eqb (Temperature req) float_zero) && outside (Temperature req)) ErrTemperatureRange ++
  when (negb (bool_decide (IncludeContext req = "")) && negb (bool_decide (IncludeContext req ∈ ["none"; "thisServer"; "allServers"])))
    (wrapped ErrIncludeContextVal (": got " +:+ quote (IncludeContext req))) ++
  indexed_errors (λ seq, bool_decide (TrimSpace seq = "")) (λ i, wrapped ErrStopSequenceEmpty (": index " +:+ itoa (Z.of_nat i))) 0 (StopSequences req) ++
  match Preferences req with
  | None => []
  | Some mp =>
      when (outside (CostPriority mp)) ErrCostPriorityRange ++ when (outside (SpeedPriority mp)) ErrSpeedPriorityRange ++
      when (outside (IntelligencePriority mp)) ErrIntelPriorityRange ++
      indexed_errors (λ hint, bool_decide (hint = "")) (λ i, wrapped ErrModelHintEmpty (": hint[" +:+ itoa (Z.of_nat i) +:+ "]")) 0 (Hints mp)
  end.
Definition MustValidateRequest : CreateMessageRequest → list error := ValidateRequest.

(** ** The client of the Messages API (api.go) *)
Record APISamplingClient := { APIKey : string; DefaultModel : string; BaseURL : string; AuthHeaderStrategy : string }.
Definition defaultAnthropicBaseURL : string := "https://api.anthropic.com".
Definition baseURL (c : APISamplingClient) : string :=
  let u := TrimSpace (BaseURL c) in trim_right_byte Sanitize.slash (if bool_decide (u = "") then defaultAnthropicBaseURL else u).
Definition messagesURL (c : APISamplingClient) : string :=
  let u := baseURL c in
  if has_suffix "/messages" u then u else if has_suffix "/v1" u then u +:+ "/messages" else u +:+ "/v1/messages".
Definition resolvedAPIKey (c : APISamplingClient) : string := TrimSpace (APIKey c).
Definition authHeaderStrategy (c : APISamplingClient) : string :=
  let s := TrimSpace (AuthHeaderStrategy c) in if bool_decide (s = "") then "anthropic" else to_lower s.

Record apiMessage := { am_Role : string; am_Content : string }.
Record apiRequest := { Model : string; ar_MaxTokens : Z; System : string; ar_Messages : list apiMessage }.
Record apiContent := { Type_ : string; Text : string }.
Record apiUsage := { InputTokens : Z; OutputTokens : Z }.
Record apiResponse := { ap_Content : list apiContent; ap_Model : string; StopReason : string; Usage : apiUsage; Error : option (string * string) }.

Definition message_json (m : apiMessage) : json := JObject [("role", JString (am_Role m)); ("content", JString (am_Content m))].
Definition request_json (r : apiRequest) : json :=
  JObject ([("model", JString (Model r)); ("max_tokens", JNumber (itoa (ar_MaxTokens r)))] ++
           (if bool_decide (System r = "") then [] else [("system", JString (System r))]) ++
           [("messages", match ar_Messages r with [] => JNull | l => JArray (map message_json l) end)]).
Definition dec_content : apiContent → json → option apiContent := dec_struct (λ old l,
  type ← field dec_string (Type_ old) "type" l; text ← field dec_string (Text old) "text" l; Some {| Type_ := type; Text := text |}).
Definition dec_usage : apiUsage → json → option apiUsage := dec_struct (λ old l,
  i ← field dec_int (InputTokens old) "input_tokens" l; o ← field dec_int (OutputTokens old) "output_tokens" l;
  Some {| InputTokens := i; OutputTokens := o |}).
Definition dec_error : string * string → json → option (string * string) := dec_struct (λ old l,
  t ← field dec_string old.1 "type" l; m ← field dec_string old.2 "message" l; Some (t, m)).
Definition zero_response : apiResponse :=
  {| ap_Content := []; ap_Model := ""; StopReason := ""; Usage := {| InputTokens := 0; OutputTokens := 0 |}; Error := None |}.
Definition dec_response : apiResponse → json → option apiResponse := dec_struct (λ old l,
  content ← field (dec_list (not_null dec_content {| Type_ := ""; Text := "" |})) (ap_Content old) "content" l;
  model ← field dec_string (ap_Model old) "model" l;
  stop ← field dec_string (StopReason old) "stop_reason" l;
  usage ← field dec_usage (Usage old) "usage" l;
  err ← field (dec_ptr dec_error ("", "")) (Error old) "error" l;
  Some {| ap_Content := content; ap_Model := model; StopReason := stop; Usage := usage; Error := err |}).

Definition pick_model (c : APISamplingClient) (req : CreateMessageRequest) : string :=
  let model := if bool_decide (DefaultModel c = "") then "claude-sonnet-5" else DefaultModel c in
  match md ← Metadata req; md !! "preferredModel" with
  | Some (JString pm) => if bool_decide (pm = "") then model else pm
  | _ => model
  end.
Definition message_text (m : SamplingMessage) : string :=
  match m_Content m with
  | AContent c => default "" (ExtractTextContent c)
  | AString s => s
  | _ => ""
  end.
Definition request_body (c : APISamplingClient) (req : CreateMessageRequest) : apiRequest := {|
  Model := pick_model c req; ar_MaxTokens := if MaxTokens req <=? 0 then 4096 else MaxTokens req; System := SystemPrompt req;
  ar_Messages := map (λ m, {| am_Role := Role m; am_Content := message_text m |}) (Messages req) |}.

Record HttpRequest := { Method : string; Url : string; Headers : list (string * string); Body : string }.
Definition auth_headers (c : APISamplingClient) : list (string * string) :=
  let apiKey := resolvedAPIKey c in
  let strategy := authHeaderStrategy c in
  let x_api_key := if bool_decide (apiKey = "") then [] else [("x-api-key", apiKey)] in
  let bearer := if bool_decide (apiKey = "") then [] else [("Authorization", "Bearer " +:+ apiKey)] in
  if bool_decide (strategy ∈ ["authorization"; "bearer"]) then bearer
  else if bool_decide (strategy = "both") then x_api_key ++ bearer
  else if bool_decide (strategy = "none") then [] else x_api_key.
Definition http_request (c : APISamplingClient) (body : apiRequest) : HttpRequest := {|
  Method := "POST"; Url := messagesURL c;
  Headers := auth_headers c ++ [("anthropic-version", "2023-06-01"); ("content-type", "application/json")]; Body := print true (request_json body) |}.

(** What the HTTP client makes of a request. *)
Inductive Reply := NotCreated (e : error) | NotSent (e : error) | Unreadable (e : error) | Answered (status : Z) (body : string).
Inductive ApiError := RateLimited (status : Z) (body : string) | Failed (e : error).
Definition api_error_text (e : ApiError) : string :=
  match e with
  | RateLimited status body => "api sampler: rate limited (status " +:+ itoa status +:+ "): " +:+ body
  | Failed e => error_text e
  end.
Definition isAPIRateLimitError (e : ApiError) : bool := match e with RateLimited _ _ => true | _ => false end.

Section Client.
Variable decode_error : string → string.
Definition read_reply (reply : Reply) : ApiError + apiResponse :=
  match reply with
  | NotCreated e => inl (Failed (ErrWrap "api sampler: create request: " e ""))
  | NotSent e => inl (Failed (ErrWrap "api sampler: http error: " e ""))
  | Unreadable e => inl (Failed (ErrWrap "api sampler: read response: " e ""))
  | Answered status body =>
      if status =? 429 then inl (RateLimited status body)
      else if negb (status =? 200) then inl (Failed (Err ("api sampler: API error (status " +:+ itoa status +:+ "): " +:+ body)))
      else match parse body ≫= dec_response zero_response with
           | None => inl (Failed (Err ("api sampler: unmarshal response: " +:+ decode_error body)))
           | Some resp => match Error resp with
                          | Some (t, m) => inl (Failed (Err ("api sampler: API error: " +:+ t +:+ ": " +:+ m)))
                          | None => inr resp
                          end
           end
  end.

Context {Ctx W : Type}.
(** [Client.Do], and the wait that the end of the context can cut short. *)
Variable send : Ctx → HttpRequest → W → Reply * W.
Variable wait : Ctx → duration → W → option error * W.
Definition doRequest (c : APISamplingClient) (ctx : Ctx) (body : apiRequest) (w : W) : (ApiError + apiResponse) * W :=
  let '(reply, w) := send ctx (http_request c body) w in (read_reply reply, w).

(** What the deferred call reports to the span. *)
Record Telemetry := { attempts : Z; callErr : option string; usage : option (Z * Z * string) }.
Inductive Failure := Invalid (errs : list error) | Stopped (e : error) | Api (e : ApiError) | Exhausted (e : ApiError).

(** The four attempts; [limited] is the error of the one before. *)
Fixpoint try_from (c : APISamplingClient) (ctx : Ctx) (body : apiRequest) (attempt : Z) (tries : nat) (limited : ApiError) (w : W) :
    (Failure + apiResponse) * Telemetry * W :=
  match tries with
  | O => (inl (Exhausted limited), {| attempts := attempt; callErr := Some ("api sampler: all retries exhausted: " +:+ api_error_text limited); usage := None |}, w)
  | S tries =>
      let '(stopped, w) := if 0 <? attempt then wait ctx (2 ^ attempt * Second) w else (None, w) in
      match stopped with
      | Some e => (inl (Stopped e), {| attempts := attempt + 1; callErr := Some (error_text e); usage := None |}, w)
      | None =>
          let '(r, w) := doRequest c ctx body w in
          match r with
          | inr resp => (inr resp, {| attempts := attempt + 1; callErr := None;
                                      usage := Some (InputTokens (Usage resp), OutputTokens (Usage resp), ap_Model resp) |}, w)
          | inl e => if negb (isAPIRateLimitError e)
                     then (inl (Api e), {| attempts := attempt + 1; callErr := None; usage := None |}, w)
                     else try_from c ctx body (attempt + 1) tries e w
          end
      end
  end.
Definition result_of (resp : apiResponse) : CreateMessageResult := {|
  r_Role := "assistant";
  r_Content := MakeTextContent (from_option (λ p : nat * apiContent, Text p.2) "" (list_find (λ ct, Type_ ct = "text") (ap_Content resp)));
  r_Model := ap_Model resp; r_StopReason := StopReason resp |}.
Definition CreateMessage (c : APISamplingClient) (ctx : Ctx) (req : CreateMessageRequest) (w : W) : (Failure + CreateMessageResult) * option Telemetry * W :=
  match ValidateRequest req with
  | [] => let '(r, t, w) := try_from c ctx (request_body c req) 0 4 (Failed (Err "")) w in
          (match r with inl f => inl f | inr resp => inr (result_of resp) end, Some t, w)
  | errs => (inl (Invalid errs), None, w)
  end.
End Client.

(** ** Validation is exact *)
Definition expected_role (i : nat) : string := if Nat.even i then "user" else "assistant".
Record valid_request (req : CreateMessageRequest) : Prop := {
  v_some : Messages req ≠ [];
  v_turns : ∀ i m, Messages req !! i = Some m → Role m = expected_role i ∧ m_Content m ≠ ANil;
  v_tokens : 0 <= MaxTokens req;
  v_temperature : float_eqb (Temperature req) float_zero = true ∨ outside (Temperature req) = false;
  v_context : IncludeContext req ∈ [""; "none"; "thisServer"; "allServers"];
  v_stops : ∀ s, s ∈ StopSequences req → TrimSpace s ≠ "";
  v_preferences : ∀ mp, Preferences req = Some mp →
    outside (CostPriority mp) = false ∧ outside (SpeedPriority mp) = false ∧ outside (IntelligencePriority mp) = false ∧ "" ∉ Hints mp }.

Lemma when_nil b e : when b e = [] ↔ b = false.
Proof. by destruct b. Qed.
Lemma indexed_nil {A} (bad : A → bool) err l : ∀ i, indexed_errors bad err i l = [] ↔ ∀ x, x ∈ l → bad x = false.
Proof.
  induction l as [|x l IH]; intros i; cbn [indexed_errors]; [split; [intros _ x H; by apply elem_of_nil in H|done]|].
  rewrite app_nil, when_nil, IH. split; [intros [H1 H2] y [->|Hy]%elem_of_cons; auto|intros H; split; [apply H, list_elem_of_here|intros y Hy; by apply H, list_elem_of_further]].
Qed.
Lemma message_nil i prev m : (∀ j, i = S j → prev = expected_role j) →
  message_errors i prev m = [] ↔ Role m = expected_role i ∧ m_Content m ≠ ANil.
Proof.
  intros Hprev. unfold message_errors. rewrite !app_nil, !when_nil.
  assert (Hc : match m_Content m with ANil => true | _ => false end = false ↔ m_Content m ≠ ANil) by (by destruct (m_Content m)).
  rewrite Hc. destruct i as [|j].
  - cbn [Nat.eqb Nat.ltb Nat.leb]. change (expected_role 0) with "user". clear Hprev Hc. repeat case_bool_decide; cbn; intuition congruence.
  - rewrite (Hprev j eq_refl). cbn [Nat.eqb Nat.ltb Nat.leb andb]. unfold expected_role. rewrite Nat.even_succ, <- Nat.negb_even.
    clear Hprev Hc. destruct (Nat.even j); repeat case_bool_decide; cbn; intuition congruence.
Qed.
Lemma next_turn i m : Role m = expected_role i → ∀ j, S i = S j → Role m = expected_role j.
Proof. by intros H j [= <-]. Qed.
Lemma messages_nil msgs : ∀ i prev, (∀ j, i = S j → prev = expected_role j) →
  messages_errors i prev msgs = [] ↔ ∀ k m, msgs !! k = Some m → Role m = expected_role (i + k) ∧ m_Content m ≠ ANil.
Proof.
  induction msgs as [|m msgs IH]; intros i prev Hprev; cbn [messages_errors]; [done|]. rewrite app_nil, message_nil by done. split.
  - intros [[Hr Hc] Hrest] [|k] x Hx; [simplify_eq/=; by rewrite Nat.add_0_r|]. rewrite Nat.add_succ_r.
    apply (proj1 (IH (S i) (Role m) (next_turn i m Hr)) Hrest k x Hx).
  - intros H. assert (Hm : Role m = expected_role i ∧ m_Content m ≠ ANil) by (rewrite <- (Nat.add_0_r i); by apply (H 0%nat)). split; [done|].
    apply IH; [by apply next_turn, Hm|]. intros k x Hx. rewrite Nat.add_succ_comm. by apply (H (S k)).
Qed.

(** A request passes validation exactly when it has a turn, its turns alternate from the user with content in each, and
    its numbers, context choice, stop sequences and preferences are in range. *)
Theorem ValidateRequest_exact req : ValidateRequest req = [] ↔ valid_request req.
Proof.
  unfold ValidateRequest. rewrite !app_nil, !when_nil, indexed_nil, messages_nil by done. split.
  - intros (Hm & Ht & Htok & Htemp & Hctx & Hstop & Hp). split; try done.
    + intros E. by rewrite E in Hm.
    + by apply Z.ltb_ge.
    + destruct (float_eqb _ _); [by left|right]. done.
    + destruct (decide (IncludeContext req = "")) as [->|Hn]; [apply list_elem_of_here|]. rewrite bool_decide_false in Hctx by done. cbn in Hctx.
      apply negb_false_iff, bool_decide_eq_true in Hctx. by apply list_elem_of_further.
    + intros s Hs. apply Hstop in Hs. by apply bool_decide_eq_false in Hs.
    + intros mp E. rewrite E, !app_nil, !when_nil, indexed_nil in Hp. destruct Hp as (? & ? & ? & Hh). split_and!; try done.
      intros Hin. apply Hh in Hin. by rewrite bool_decide_true in Hin.
  - intros [Hm Ht Htok Htemp Hctx Hstop Hp]. split_and!; try done.
    + apply bool_decide_eq_false. intros ?%nil_length_inv. done.
    + by apply Z.ltb_ge.
    + destruct Htemp as [->| ->]; [done|by rewrite andb_false_r].
    + apply elem_of_cons in Hctx as [->|Hin]; [done|]. rewrite (bool_decide_true (IncludeContext req ∈ _)) by done. by rewrite andb_false_r.
    + intros s Hs. apply bool_decide_eq_false. by apply Hstop.
    + destruct (Preferences req) as [mp|]; [|done]. destruct (Hp mp eq_refl) as (? & ? & ? & Hh). rewrite !app_nil, !when_nil, indexed_nil. split_and!; try done.
      intros x Hx. apply bool_decide_eq_false. by intros ->.
Qed.

(** ** The attempts

    The transport and the clock answer as they like, by how often they were asked; the log keeps what was asked. *)
Section Attempts.
Variables (decode_error : string → string) (answers : nat → Reply) (stops : nat → option error).
Record Log := { sent : list HttpRequest; waited : list duration }.
Definition log_send (_ : unit) (r : HttpRequest) (w : Log) : Reply * Log := (answers (length (sent w)), {| sent := sent w ++ [r]; waited := waited w |}).
Definition log_wait (_ : unit) (d : duration) (w : Log) : option error * Log := (stops (length (waited w)), {| sent := sent w; waited := waited w ++ [d] |}).
Definition answer (i : nat) : ApiError + apiResponse := read_reply decode_error (answers i).
(** The service was too busy. *)
Definition limited (i : nat) : Prop := ∃ body, answers i = Answered 429 body.
Lemma limited_spec i e : answer i = inl e → isAPIRateLimitError e = true ↔ limited i.
Proof.
  unfold answer, read_reply, limited. destruct (answers i) as [x|x|x|status body]; intros H; simplify_eq; try (split; [done|by intros [? ?]]).
  destruct (Z.eqb_spec status 429) as [->|Hs]; simplify_eq/=; [split; [by eexists|done]|]. split; [|intros [? ?]; congruence]. by repeat case_match; simplify_eq/=.
Qed.
Definition backoffs : list duration := [2 * Second; 4 * Second; 8 * Second].
Notation create c req := (CreateMessage decode_error log_send log_wait c () req {| sent := []; waited := [] |}).

Ltac finish := cbn; split_and!; try lia; try (by eauto with lia); try (intros i Hi; repeat (destruct i as [|i]; [done|]); lia).
Ltac literals :=
  change (0 + 1) with 1 in *; change (1 + 1) with 2 in *; change (2 + 1) with 3 in *; change (3 + 1) with 4 in *;
  change (0 <? 0) with false; change (0 <? 1) with true; change (0 <? 2) with true; change (0 <? 3) with true;
  change (2 ^ 1) with 2; change (2 ^ 2) with 4; change (2 ^ 3) with 8; cbv beta iota;
  unfold doRequest, log_send, log_wait; cbn [sent waited length app].
(** One answer, and one wait. *)
Ltac attempt i Hl :=
  literals; fold (answer i); let A := fresh "A" in let R := fresh "R" in let L := fresh "L" in
  destruct (answer i) as [?e|?resp] eqn:A; [|exists (S i); finish];
  match type of A with _ = inl ?e => destruct (isAPIRateLimitError e) eqn:R; cbn [negb]; [|exists (S i); finish]; pose proof (Hl _ _ A R) as L end.
Ltac stop i := literals; destruct (stops i) eqn:?; [exists (S i); finish|].

(** C35.  A valid request is sent at most four times, each time the same bytes to the same address, and again only after the
    service has said it is too busy and a wait of two, four and eight seconds has passed: the first answer that is
    not a refusal of that kind is the result, a cancelled wait ends the call, and four refusals end it with the last one. *)
Theorem retries_only_when_limited c req (Hvalid : ValidateRequest req = []) :
  let '(r, _, w) := create c req in
  ∃ n : nat, (1 <= n <= 4)%nat ∧ sent w = replicate n (http_request c (request_body c req)) ∧ (∀ i, (i < pred n)%nat → limited i) ∧
  match r with
  | inr result => waited w = take (pred n) backoffs ∧ ∃ resp, answer (pred n) = inr resp ∧ result = result_of resp
  | inl (Api e) => waited w = take (pred n) backoffs ∧ answer (pred n) = inl e ∧ ¬ limited (pred n)
  | inl (Exhausted e) => waited w = backoffs ∧ n = 4%nat ∧ answer 3 = inl e ∧ limited 3
  | inl (Stopped e) => waited w = take n backoffs ∧ (n < 4)%nat ∧ limited (pred n) ∧ stops (pred n) = Some e
  | inl (Invalid _) => False
  end.
Proof.
  unfold CreateMessage. rewrite Hvalid. cbn [try_from].
  assert (Hl : ∀ i e, answer i = inl e → isAPIRateLimitError e = true → limited i) by (by intros i e H1 H2; apply (limited_spec i e H1)).
  assert (Hn : ∀ i e, answer i = inl e → isAPIRateLimitError e = false → ¬ limited i) by (intros i e H1 H2 H3%(limited_spec i e H1); congruence).
  attempt 0%nat Hl. stop 0%nat. attempt 1%nat Hl. stop 1%nat. attempt 2%nat Hl. stop 2%nat. attempt 3%nat Hl.
  exists 4%nat. finish.
Qed.
End Attempts.

(** Without a key no credentials are sent, and every request names the version of the service. *)
Lemma no_key_no_credentials c body : resolvedAPIKey c = "" → auth_headers c = [] ∧ ("anthropic-version", "2023-06-01") ∈ Headers (http_request c body).
Proof.
  intros H. assert (auth_headers c = []) as E by (unfold auth_headers; rewrite H; cbn; by repeat case_bool_decide).
  split; [done|]. cbn. rewrite E. apply list_elem_of_here.
Qed.

(** ** Concrete calls *)
Definition demo_client : APISamplingClient := {| APIKey := " k "; DefaultModel := ""; BaseURL := "http://local/v1/"; AuthHeaderStrategy := "Both" |}.
Definition demo_request : CreateMessageRequest := CompletionRequest [TextMessage "user" "hi"] [WithModel "m"; WithMaxTokens 7].
Definition demo_answer : string :=
  print true (JObject [("content", JArray [JObject [("type", JString "text"); ("text", JString "hello")]]); ("model", JString "m"); ("stop_reason", JString "end_turn");
                       ("usage", JObject [("input_tokens", JNumber "3"); ("output_tokens", JNumber "2")])]).
Definition demo_answers (i : nat) : Reply := match i with O => Answered 429 "busy" | _ => Answered 200 demo_answer end.
Lemma retries_only_when_limited_witness :
  let r := CreateMessage (λ _, "") (log_send demo_answers) (log_wait (λ _, None)) demo_client () demo_request {| sent := []; waited := [] |} in
  r.1.1 = inr {| r_Role := "assistant"; r_Content := TextContent "hello"; r_Model := "m"; r_StopReason := "end_turn" |} ∧
  length (sent r.2) = 2%nat ∧ (∃ n, sent r.2 = replicate n (http_request demo_client (request_body demo_client demo_request))) ∧
  Url (http_request demo_client (request_body demo_client demo_request)) = "http://local/v1/messages".
Proof.
  intros r. split; [by vm_compute|]. split; [by vm_compute|]. split; [|by vm_compute].
  assert (Hv : ValidateRequest demo_request = []) by by vm_compute.
  pose proof (retries_only_when_limited (λ _, "") demo_answers (λ _, None) demo_client demo_request Hv) as H. fold r in H.
  destruct r as [[res t] w]. destruct H as (n & _ & H & _). by exists n.
Defined.

(** A call that fails for any other reason is reported to the span as a success. *)
Lemma failed_call_reported_ok :
  let r := CreateMessage (λ _, "") (log_send (λ _, Answered 500 "broken")) (log_wait (λ _, None)) demo_client () demo_request {| sent := []; waited := [] |} in
  r.1.1 = inl (Api (Failed (Err "api sampler: API error (status 500): broken"))) ∧ callErr <$> r.1.2 = Some None.
Proof. by vm_compute. Qed.
(** A temperature that is not a number is accepted. *)
Lemma nan_temperature_accepted : ValidateRequest (WithTemperature S754_nan demo_request) = [].
Proof. by vm_compute. Qed.
(** Content that is not text is sent as the empty text. *)
Lemma other_content_sent_empty : message_text {| Role := "user"; m_Content := AContent (OtherContent "image") |} = "".
Proof. done. Qed.
(** The temperature is validated and never sent. *)
Lemma temperature_never_sent c req t : http_request c (request_body c (WithTemperature t req)) = http_request c (request_body c req).
Proof. done. Qed.
