(* ===== verification/Handler.v ===== *)
(** What tool handlers are written with (src/handler): parameters, coded results, validation of arguments and of
    structured results against the tool's schemas, audiences, forms and examples.

    Arguments and structured content are values as encoding/json decodes them, so numbers are [float64]; [number] is
    the number a numeral stands for (strconv). *)

From stdpp Require Import base tactics list gmap strings pretty.
From Stdlib Require Import ZArith Lia Floats.SpecFloat.
From S2P Require Import Prelude Json Tool Truncate A2a.
From S2P Require Import Bridge.
From S2P Require A2aRpc.

Local Open Scope Z_scope.

(** ** Results (result.go, structured.go) *)
Definition ErrClientInit : string := "CLIENT_INIT_FAILED".
Definition ErrInvalidParam : string := "INVALID_PARAM".
Definition ErrTimeout : string := "TIMEOUT".
Definition ErrNotFound : string := "NOT_FOUND".
Definition ErrAPIError : string := "API_ERROR".
Definition ErrValidation : string := "OUTPUT_VALIDATION_FAILED".
Definition ErrRateLimited : string := "RATE_LIMITED".
Definition ErrUpstreamError : string := "UPSTREAM_ERROR".
Definition ErrConflict : string := "CONFLICT".

Definition TextResult (text : string) : CallToolResult := MakeTextResult text.
Definition ErrorResult (err : error) : CallToolResult := MakeErrorResult (error_text err).
Definition CodedErrorResult (code : string) (err : error) : CallToolResult := MakeErrorResult ("[" +:+ code +:+ "] " +:+ error_text err).
Definition bullet : string := byte_string 226 +:+ byte_string 128 +:+ byte_string 162.
Definition ActionableErrorResult (code : string) (err : error) (suggestions : list string) : CallToolResult :=
  MakeErrorResult ("[" +:+ code +:+ "] " +:+ error_text err +:+
    match suggestions with
    | [] => ""
    | _ => newline +:+ newline +:+ "Suggested actions:" +:+ foldr (λ s t, newline +:+ "  " +:+ bullet +:+ " " +:+ s +:+ t) "" suggestions
    end).
(** [json.MarshalIndent] with two blanks. *)
Definition line (depth : nat) : string := newline +:+ foldr (λ _ t, "  " +:+ t) "" (replicate depth tt).
Fixpoint indented (depth : nat) (v : json) : string :=
  match v with
  | JArray [] => "[]"
  | JArray l => "[" +:+ line (S depth) +:+ join ("," +:+ line (S depth)) (map (indented (S depth)) l) +:+ line depth +:+ "]"
  | JObject [] => "{}"
  | JObject l => "{" +:+ line (S depth) +:+
      join ("," +:+ line (S depth)) (map (λ p : string * json, json_string true p.1 +:+ ": " +:+ indented (S depth) p.2) l) +:+ line depth +:+ "}"
  | v => print true v
  end.
(** [inl]: the value cannot be marshalled. *)
Definition JSONResult (data : error + json) : CallToolResult :=
  match data with inl err => ErrorResult err | inr v => MakeTextResult (indented 0 v) end.
Definition StructuredResult (data : error + json) : CallToolResult :=
  match data with
  | inl err => ErrorResult (ErrWrap "failed to marshal structured result: " err "")
  | inr v => {| r_Content := [MakeTextContent (indented 0 v)]; StructuredContent := Some v; IsError := false |}
  end.

Section Handler.
Variable number : string → float64.
(** The text of an encoding/json error. *)
Variable decode_error : json → string.

(** ** Parameters (params.go) *)
Definition ExtractArguments (req : CallToolRequest) : option (gmap string json) := Arguments req.
Definition arg (req : CallToolRequest) (name : string) : option json := args ← ExtractArguments req; args !! name.
(** [int(num)] and [int64(num)] on amd64, where what does not fit is the least integer. *)
Definition to_int64 (f : float64) : Z :=
  match f with
  | S754_nan | S754_infinity _ => min_int64
  | _ => let z := int_of_float f in if (min_int64 <=? z) && (z <=? max_int64) then z else min_int64
  end.
Definition GetStringParam (req : CallToolRequest) (name : string) : string := match arg req name with Some (JString s) => s | _ => "" end.
Definition GetIntParam (req : CallToolRequest) (name : string) (defaultVal : Z) : Z :=
  match arg req name with Some (JNumber n) => to_int64 (number n) | _ => defaultVal end.
Definition GetFloatParam (req : CallToolRequest) (name : string) (defaultVal : float64) : float64 :=
  match arg req name with Some (JNumber n) => number n | _ => defaultVal end.
Definition GetBoolParam (req : CallToolRequest) (name : string) (defaultVal : bool) : bool :=
  match arg req name with Some (JBool b) => b | _ => defaultVal end.
Definition HasParam (req : CallToolRequest) (name : string) : bool := bool_decide (is_Some (arg req name)).
(** [None] is the nil slice. *)
Definition GetStringArrayParam (req : CallToolRequest) (name : string) : option (list string) :=
  match arg req name with Some (JArray l) => Some (omap (λ v, match v with JString s => Some s | _ => None end) l) | _ => None end.
Definition RequireStringParam (req : CallToolRequest) (name : string) : CallToolResult + string :=
  let val := GetStringParam req name in
  if bool_decide (val = "") then inl (CodedErrorResult ErrInvalidParam (Err ("required parameter " +:+ quote name +:+ " is missing or empty"))) else inr val.
Definition RequireIntParam (req : CallToolRequest) (name : string) : CallToolResult + Z :=
  match arg req name with
  | None => inl (CodedErrorResult ErrInvalidParam (Err ("required parameter " +:+ quote name +:+ " is missing")))
  | Some (JNumber n) => inr (to_int64 (number n))
  | Some _ => inl (CodedErrorResult ErrInvalidParam (Err ("parameter " +:+ quote name +:+ " must be a number")))
  end.

(** The level of detail asked for (structured.go). *)
Definition FormatDetailed : string := "detailed".
Definition FormatConcise : string := "concise".
Definition GetResponseFormat (req : CallToolRequest) : string :=
  if bool_decide (GetStringParam req "response_format" = FormatConcise) then FormatConcise else FormatDetailed.

(** ** Types (validation.go) *)
Definition isNumber (val : json) : bool := match val with JNumber _ => true | _ => false end.
Definition isInteger (val : json) : bool := match val with JNumber n => SFeqb (number n) (float_of_int (to_int64 (number n))) | _ => false end.
Definition describeType (val : json) : string :=
  match val with
  | JString _ => "string" | JNumber _ => "number" | JBool _ => "boolean" | JArray _ => "array" | JObject _ => "object" | JNull => "null"
  end.
(** [None]: a type the code does not know, which admits everything. *)
Definition type_test (expectedType : string) : option (json → bool) :=
  if bool_decide (expectedType = "string") then Some (λ v, match v with JString _ => true | _ => false end)
  else if bool_decide (expectedType = "number") then Some isNumber
  else if bool_decide (expectedType = "integer") then Some isInteger
  else if bool_decide (expectedType = "boolean") then Some (λ v, match v with JBool _ => true | _ => false end)
  else if bool_decide (expectedType = "array") then Some (λ v, match v with JArray _ => true | _ => false end)
  else if bool_decide (expectedType = "object") then Some (λ v, match v with JObject _ => true | _ => false end)
  else None.
Definition checkType (name : string) (val : json) (expectedType : string) : option error :=
  match val with
  | JNull => None
  | _ => match type_test expectedType with
         | None => None
         | Some valid => if valid val then None
                         else Some (Err ("field " +:+ quote name +:+ ": expected type " +:+ quote expectedType +:+ ", got " +:+ describeType val))
         end
  end.

(** The loops of both validations; [walk] lists the properties in the order the map is walked. *)
Fixpoint missing_field (data : gmap string json) (required : list string) : option error :=
  match required with
  | [] => None
  | field :: required =>
      match data !! field with None => Some (Err ("missing required field " +:+ quote field)) | Some _ => missing_field data required end
  end.
Definition declared_type (propSchema : json) : option string :=
  match propMap ← as_map (Some propSchema); propMap !! "type" with Some (JString t) => Some t | _ => None end.
Fixpoint wrong_type (data : gmap string json) (walk : list (string * json)) : option error :=
  match walk with
  | [] => None
  | (propName, propSchema) :: walk =>
      match data !! propName, declared_type propSchema with
      | Some val, Some expectedType =>
          match checkType propName val expectedType with Some err => Some err | None => wrong_type data walk end
      | _, _ => wrong_type data walk
      end
  end.
Definition violation (schema : Schema) (walk : list (string * json)) (data : gmap string json) : option error :=
  match missing_field data (sch_Required schema) with Some err => Some err | None => wrong_type data walk end.
(** Structured content that is not a map is read back from its JSON; null gives the nil map. *)
Definition validateStructuredContent (schema : Schema) (walk : list (string * json)) (data : json) : option error :=
  match data with
  | JNull => violation schema walk ∅
  | _ => match as_map (Some data) with
         | Some dataMap => violation schema walk dataMap
         | None => Some (ErrWrap "structured content is not an object: " (Err (decode_error data)) "")
         end
  end.

(** ** The middlewares (input_validation.go, validation.go) *)
Section Middleware.
Context {Ctx W : Type}.
Notation Middleware := (Middleware Ctx CallToolRequest W).
Variable walk : gmap string json → list (string * json).
Definition InputValidationMiddleware : Middleware := λ name td next,
  let schema := InputSchema (td_Tool td) in
  if bool_decide (sch_Properties schema = ∅) && bool_decide (sch_Required schema = []) then next
  else λ ctx request w,
    match violation schema (walk (sch_Properties schema)) (default ∅ (ExtractArguments request)) with
    | Some err => (Returns (Some (CodedErrorResult ErrInvalidParam err)) None, w)
    | None => next ctx request w
    end.
Definition OutputValidationMiddleware : Middleware := λ name td next,
  match OutputSchema td with
  | None => next
  | Some schema => λ ctx request w,
      match next ctx request w with
      | (Returns result None, w) =>
          if IsResultError result then (Returns result None, w)
          else match r ← result; StructuredContent r with
               | None => (Returns result None, w)
               | Some data => match validateStructuredContent schema (walk (sch_Properties schema)) data with
                              | Some err => (Returns (Some (CodedErrorResult ErrValidation err)) None, w)
                              | None => (Returns result None, w)
                              end
               end
      | other => other
      end
  end.
(** A handler over decoded arguments (typed.go): [decode] fills the input, [encode] marshals the output. *)
Definition TypedHandler {In Out} (zero : In) (decode : gmap string json → string + In) (encode : Out → error + json) (schema_text : string)
    (fn : Ctx → In → st W (Out * option error)) : ToolHandlerFunc Ctx CallToolRequest W := λ ctx req w,
  match (match Arguments req with None => inr zero | Some args => decode args end) with
  | inl err => (Returns (Some (CodedErrorResult ErrInvalidParam (Err ("failed to parse arguments: " +:+ err +:+ newline +:+ "Expected schema: " +:+ schema_text)))) None, w)
  | inr input =>
      let '((output, err), w) := fn ctx input w in
      (Returns (Some (match err with Some err => ErrorResult err | None => StructuredResult (encode output) end)) None, w)
  end.
End Middleware.
End Handler.

(** ** Audiences (content.go) *)
Record ContentBlock := { block : Content; Audience : option (list string) }.
Definition FilterByAudience (content : list ContentBlock) (audience : list string) : list ContentBlock :=
  filter (λ c, match Audience c with None | Some [] => true | Some l => existsb (λ a, bool_decide (a ∈ audience)) l end = true) content.
Definition EstimateTokens (text : string) : Z := (bytes text + 3) / 4.

(** ** Forms (elicit.go) *)
Record FormField := { f_Name : string; f_Type : string; f_Description : string; f_Required : bool; Enum : list string; Default : option json }.
Definition field_schema (f : FormField) : gmap string json :=
  match Default f with None => id | Some d => <["default" := d]> end
    (match Enum f with [] => id | l => <["enum" := JArray (map JString l)]> end
      ((if bool_decide (f_Description f = "") then id else <["description" := JString (f_Description f)]>) {["type" := JString (f_Type f)]})).
Definition required_fields (fields : list FormField) : list string := f_Name <$> filter (λ f, f_Required f = true) fields.
Definition form_properties (fields : list FormField) : gmap string (gmap string json) :=
  foldl (λ p f, <[f_Name f := field_schema f]> p) ∅ fields.
(** The properties, and the list of required fields when it is not empty. *)
Definition ElicitFormSchema (fields : list FormField) : gmap string (gmap string json) * option (list string) :=
  (form_properties fields, match required_fields fields with [] => None | l => Some l end).

(** ** Examples (examples.go) *)
Fixpoint digits_loop (fuel : nat) (n : Z) (s : string) : string :=
  match fuel with
  | O => s
  | S fuel => if 0 <? n then digits_loop fuel (n / 10) (String (Ascii.ascii_of_nat (Z.to_nat (48 + n mod 10))) s) else s
  end.
Definition intToStr (n : Z) : string :=
  if n =? 0 then "0"
  else let neg := n <? 0 in
       let n := if neg then wrap64 (- n) else n in
       let s := digits_loop 20 n "" in
       if neg then "-" +:+ s else s.
Definition floatToStr (f : float64) : string :=
  let n := to_int64 f in
  let frac := float_sub f (float_of_int n) in
  let s := intToStr n in
  if SFeqb frac float_zero then s
  else let frac := float_mul frac (float_of_int 100) in
       let frac := if float_lt frac float_zero then SFopp frac else frac in
       let fi := to_int64 (float_add frac (float_div (float_of_int 1) (float_of_int 2))) in
       s +:+ "." +:+ (if fi <? 10 then "0" else "") +:+ intToStr fi.
(** The Go values an example can hold. *)
Inductive any := AnyString (s : string) | AnyBool (b : bool) | AnyInt (n : Z) | AnyFloat (f : float64) | AnyNil | AnyOther.
Definition formatAny (v : any) : string := match v with AnyNil => "null" | _ => "..." end.
Definition formatKV (key : string) (value : any) : string :=
  let k := dquote +:+ key +:+ dquote +:+ ": " in
  match value with
  | AnyString v => k +:+ dquote +:+ v +:+ dquote
  | AnyBool b => k +:+ (if b then "true" else "false")
  | AnyInt n => k +:+ intToStr n
  | AnyFloat f => k +:+ floatToStr f
  | v => k +:+ dquote +:+ formatAny v +:+ dquote
  end.
(** [Input] lists the parameters in the order the map is walked. *)
Record ToolExample := { ex_Description : string; Input : list (string * any); Output : string }.
Definition format_example (ex : ToolExample) : string :=
  newline +:+ (if bool_decide (ex_Description ex = "") then "" else newline +:+ "  " +:+ ex_Description ex +:+ ":") +:+
  newline +:+ "  Input: {" +:+ join ", " (map (λ p, formatKV p.1 p.2) (Input ex)) +:+ "}" +:+
  (if bool_decide (Output ex = "") then "" else newline +:+ "  Output: " +:+ Output ex).
Definition FormatExamples (examples : list ToolExample) : string :=
  match examples with [] => "" | _ => newline +:+ newline +:+ "Examples:" +:+ foldr (λ ex t, format_example ex +:+ t) "" examples end.

(** ** Validation decides the schema *)
Section Validation.
Variable number : string → float64.
Variable decode_error : json → string.
Definition has_type (t : string) (v : json) : Prop := v = JNull ∨ match type_test number t with Some test => test v = true | None => True end.
(** Every required field is there, and what is there has its declared type. *)
Definition conforms (schema : Schema) (data : gmap string json) : Prop :=
  (∀ f, f ∈ sch_Required schema → is_Some (data !! f)) ∧
  (∀ p s t v, sch_Properties schema !! p = Some s → declared_type s = Some t → data !! p = Some v → has_type t v).

Lemma checkType_spec name v t : checkType number name v t = None ↔ has_type t v.
Proof.
  unfold checkType, has_type. destruct v; destruct (type_test number t) as [test|]; try (split; [tauto|done]); try (split; [by left|done]);
    match goal with |- context [test ?v] => destruct (test v) end; (split; [naive_solver|intros [?|?]; naive_solver]).
Qed.
Lemma missing_field_spec data required : missing_field data required = None ↔ ∀ f, f ∈ required → is_Some (data !! f).
Proof.
  induction required as [|f l IH]; cbn [missing_field]; [split; [intros _ f H; by apply elem_of_nil in H|done]|].
  destruct (data !! f) as [v|] eqn:E.
  - rewrite IH. split; [intros H g [->|Hg]%elem_of_cons; [by eexists|auto]|intros H g Hg; apply H; by apply list_elem_of_further].
  - split; [done|]. intros H. destruct (H f (list_elem_of_here _ _)); congruence.
Qed.
Lemma wrong_type_spec data walk : wrong_type number data walk = None ↔
  ∀ p s t v, (p, s) ∈ walk → declared_type s = Some t → data !! p = Some v → has_type t v.
Proof.
  induction walk as [|[p s] walk IH]; cbn [wrong_type]; [split; [intros _ p s t v H; by apply elem_of_nil in H|done]|].
  destruct (data !! p) as [v|] eqn:Ev; [destruct (declared_type s) as [t|] eqn:Et; [destruct (checkType number p v t) as [err|] eqn:Ec|]|].
  - split; [done|]. intros H. pose proof (H p s t v (list_elem_of_here _ _) Et Ev) as Ht. apply (checkType_spec p) in Ht. congruence.
  - rewrite IH. split; [intros H p' s' t' v' [[= -> ->]|Hin]%elem_of_cons; [|eauto]|intros H p' s' t' v' Hin; apply H; by apply list_elem_of_further].
    intros. simplify_eq. by apply (checkType_spec p).
  - rewrite IH. split; [intros H p' s' t' v' [[= -> ->]|Hin]%elem_of_cons; [congruence|eauto]|intros H p' s' t' v' Hin; apply H; by apply list_elem_of_further].
  - rewrite IH. split; [intros H p' s' t' v' [[= -> ->]|Hin]%elem_of_cons; [congruence|eauto]|intros H p' s' t' v' Hin; apply H; by apply list_elem_of_further].
Qed.

Definition walks (walk : gmap string json → list (string * json)) : Prop := ∀ m, walk m ≡ₚ map_to_list m.
Lemma violation_spec schema walk data : walks walk → violation number schema (walk (sch_Properties schema)) data = None ↔ conforms schema data.
Proof.
  intros Hw. unfold violation, conforms. rewrite <- missing_field_spec. destruct (missing_field data (sch_Required schema)) as [err|]; [naive_solver|].
  rewrite wrong_type_spec. pose proof (Hw (sch_Properties schema)) as Hperm. split.
  - intros H. split; [done|]. intros p s t v Hp. apply H. rewrite Hperm. by apply elem_of_map_to_list.
  - intros [_ H] p s t v Hin. apply H. rewrite Hperm in Hin. by apply elem_of_map_to_list.
Qed.
(** What structured content counts as. *)
Definition content_map (data : json) : option (gmap string json) := match data with JNull => Some ∅ | v => as_map (Some v) end.
Lemma validate_content_spec schema walk data : walks walk →
  validateStructuredContent number decode_error schema (walk (sch_Properties schema)) data = None ↔ ∃ m, content_map data = Some m ∧ conforms schema m.
Proof.
  intros Hw. unfold validateStructuredContent, content_map. destruct data; try (rewrite violation_spec by done; split; [eauto|naive_solver]);
    try (split; [done|by intros (m & ? & ?)]).
  cbn [as_map]. rewrite violation_spec by done. split; [eauto|naive_solver].
Qed.

(** ** Calls through both middlewares *)
Section Calls.
Context {Ctx W : Type}.
Variable walk : gmap string json → list (string * json).
Hypothesis Hwalk : walks walk.
Lemma input_middleware name td (next : ToolHandlerFunc Ctx CallToolRequest W) ctx request w :
  let args := default ∅ (Arguments request) in
  let o := InputValidationMiddleware number walk name td next ctx request w in
  (conforms (InputSchema (td_Tool td)) args ∧ o = next ctx request w) ∨
  (¬ conforms (InputSchema (td_Tool td)) args ∧ ∃ err, o = (Returns (Some (CodedErrorResult ErrInvalidParam err)) None, w)).
Proof.
  cbv zeta. unfold InputValidationMiddleware. case_bool_decide as H1; [case_bool_decide as H2|]; cbn [andb].
  - left. split; [|done]. split; [rewrite H2; intros f Hf; by apply elem_of_nil in Hf|]. rewrite H1. intros p s t v Hp. by rewrite lookup_empty in Hp.
  - unfold ExtractArguments. destruct (violation _ _ _ _) as [err|] eqn:E; [right|left; split; [by apply (violation_spec _ walk)|done]].
    split; [|by exists err]. intros Hc. apply (violation_spec _ walk) in Hc; [congruence|done].
  - unfold ExtractArguments. destruct (violation _ _ _ _) as [err|] eqn:E; [right|left; split; [by apply (violation_spec _ walk)|done]].
    split; [|by exists err]. intros Hc. apply (violation_spec _ walk) in Hc; [congruence|done].
Qed.

(** What may come back from a tool with an output schema. *)
Definition sound_output (td : ToolDefinition (ToolHandlerFunc Ctx CallToolRequest W)) (result : option CallToolResult) : Prop :=
  ∀ schema r data, OutputSchema td = Some schema → result = Some r → IsError r = false → StructuredContent r = Some data →
  ∃ m, content_map data = Some m ∧ conforms schema m.

(** C27.  Behind the validating middlewares a handler runs exactly when the arguments conform to the tool's input schema
    (otherwise the call ends in a coded error and nothing has happened), and a result without error that carries
    structured content conforms to the output schema: anything else the handler returns is replaced by a coded error, and what
    it does otherwise is left alone. *)
Theorem validated_calls name td next ctx request w :
  let args := default ∅ (Arguments request) in
  let o := InputValidationMiddleware number walk name td (OutputValidationMiddleware number decode_error walk name td next) ctx request w in
  (conforms (InputSchema (td_Tool td)) args →
     snd o = snd (next ctx request w) ∧
     match fst (next ctx request w) with
     | Returns result None => (sound_output td result ∧ fst o = Returns result None) ∨
                              (¬ sound_output td result ∧ ∃ err, fst o = Returns (Some (CodedErrorResult ErrValidation err)) None)
     | other => fst o = other
     end) ∧
  (¬ conforms (InputSchema (td_Tool td)) args → ∃ err, o = (Returns (Some (CodedErrorResult ErrInvalidParam err)) None, w)) ∧
  (∀ result, fst o = Returns result None → sound_output td result).
Proof.
  cbv zeta. set (inner := OutputValidationMiddleware number decode_error walk name td next).
  assert (Herr : ∀ code err, sound_output td (Some (CodedErrorResult code err))) by (intros code err schema r data _ [= <-]; done).
  assert (Hinner : snd (inner ctx request w) = snd (next ctx request w) ∧
    match fst (next ctx request w) with
    | Returns result None => (sound_output td result ∧ fst (inner ctx request w) = Returns result None) ∨
                             (¬ sound_output td result ∧ ∃ err, fst (inner ctx request w) = Returns (Some (CodedErrorResult ErrValidation err)) None)
    | other => fst (inner ctx request w) = other
    end).
  { unfold inner, OutputValidationMiddleware, sound_output. destruct (OutputSchema td) as [schema|] eqn:Es.
    2:{ split; [done|]. destruct (next ctx request w) as [[r [e|]|v] w']; cbn; try done. left. split; [|done]. by intros. }
    destruct (next ctx request w) as [[r [e|]|v] w']; cbn; try done. destruct r as [r|]; cbn; [|split; [done|]; left; split; [by intros|done]].
    destruct (IsError r) eqn:Ee; cbn; [split; [done|]; left; split; [intros; congruence|done]|].
    destruct (StructuredContent r) as [data|] eqn:Ed; cbn; [|split; [done|]; left; split; [intros; congruence|done]].
    destruct (validateStructuredContent _ _ _ _ _) as [err|] eqn:Ev; cbn; (split; [done|]).
    - right. split; [|by exists err]. intros H. destruct (H schema r data) as (m & ? & ?); try done.
      assert (validateStructuredContent number decode_error schema (walk (sch_Properties schema)) data = None) by (apply validate_content_spec; eauto). congruence.
    - left. split; [|done]. intros s' r' d' [= <-] [= <-] _ Hd. simplify_eq. by apply validate_content_spec in Ev. }
  pose proof (input_middleware name td inner ctx request w) as Hin. cbv zeta in Hin. split; [|split].
  - intros Hc. destruct Hin as [[_ ->]|[Hn _]]; [done|by exfalso].
  - intros Hn. destruct Hin as [[? _]|[_ H]]; [by exfalso|done].
  - intros result Ho. destruct Hin as [[_ Heq]|[_ (err & Heq)]]; rewrite Heq in Ho; [|cbn in Ho; simplify_eq; apply Herr].
    destruct Hinner as [_ H]. destruct (fst (next ctx request w)) as [r [e|]|v]; [rewrite H in Ho; done| |rewrite H in Ho; done].
    destruct H as [[Hs H]|[_ (err & H)]]; rewrite H in Ho; simplify_eq; [done|apply Herr].
Qed.
End Calls.

(** What a validated handler can rely on when it reads its parameters. *)
Theorem parameters_after_validation request field s name t
    (Hc : conforms s (default ∅ (Arguments request))) (Hreq : field ∈ sch_Required s)
    (Hdecl : (declared_type <$> sch_Properties s !! field) = Some (Some t)) (Hn : name = field) :
  HasParam request name = true ∧
  (t = "string" → arg request name = Some JNull ∨ arg request name = Some (JString (GetStringParam request name))) ∧
  (t = "integer" → arg request name = Some JNull ∨
     ∃ n, arg request name = Some (JNumber n) ∧ SFeqb (number n) (float_of_int (GetIntParam number request name 0)) = true ∧
          RequireIntParam number request name = inr (GetIntParam number request name 0)).
Proof.
  subst name. destruct Hc as [H1 H2]. destruct (H1 _ Hreq) as [v Hv]. assert (Harg : arg request field = Some v).
  { unfold arg, ExtractArguments. destruct (Arguments request) as [m|]; [exact Hv|]. cbn in Hv. by rewrite lookup_empty in Hv. }
  destruct (sch_Properties s !! field) as [ps|] eqn:Ep; [|done]. cbn in Hdecl. injection Hdecl as Hd. specialize (H2 _ _ _ _ Ep Hd Hv).
  unfold HasParam, GetStringParam, GetIntParam, RequireIntParam. rewrite Harg. split; [done|]. split; intros ->; (destruct H2 as [->|Hty]; [by left|right]);
    cbn in Hty; destruct v; try done. exists n. split; [done|]. split; [exact Hty|done].
Qed.
End Validation.

(** ** Digits *)
Lemma digits_loop_pretty fuel : ∀ n s, 0 <= n < 10 ^ Z.of_nat fuel → digits_loop fuel n s = pretty_N_go (Z.to_N n) s.
Proof.
  induction fuel as [|fuel IH]; intros n s Hn; cbn [digits_loop].
  - assert (n = 0) as -> by (cbn in Hn; lia). done.
  - destruct (Z.ltb_spec 0 n) as [Hpos|Hz]; [|assert (n = 0) as -> by lia; done].
    rewrite IH; [|split; [apply Z.div_pos; lia|apply Z.div_lt_upper_bound; [lia|]; rewrite <- Z.pow_succ_r by lia; rewrite <- Nat2Z.inj_succ; lia]].
    rewrite (pretty_N_go_step (Z.to_N n)) by lia. rewrite Z2N.inj_div by lia. f_equal. f_equal.
    change (Z.to_N n `mod` 10)%N with (Z.to_N n `mod` Z.to_N 10)%N. rewrite <- Z2N.inj_mod by lia.
    pose proof (Z.mod_pos_bound n 10 ltac:(lia)) as Hm. clear -Hm.
    assert (n `mod` 10 = 0 ∨ n `mod` 10 = 1 ∨ n `mod` 10 = 2 ∨ n `mod` 10 = 3 ∨ n `mod` 10 = 4 ∨ n `mod` 10 = 5 ∨ n `mod` 10 = 6 ∨ n `mod` 10 = 7 ∨ n `mod` 10 = 8 ∨ n `mod` 10 = 9) as H by lia.
    by repeat (destruct H as [->|H]); try rewrite H.
Qed.
(** The integers of an example are written in decimal, all but the least one. *)
Theorem intToStr_decimal n (Hn : in64 n) (Hmin : n ≠ min_int64) : intToStr n = itoa n.
Proof.
  unfold in64, min_int64, max_int64 in *. unfold intToStr. destruct (Z.eqb_spec n 0) as [->|Hz]; [done|].
  assert (Hpow : 2 ^ 63 < 10 ^ Z.of_nat 20) by (vm_compute; reflexivity).
  destruct (Z.ltb_spec n 0) as [Hneg|Hpos].
  - rewrite wrap64_id by (unfold in64, min_int64, max_int64; lia). rewrite digits_loop_pretty by lia.
    destruct n as [|p|p]; [lia|lia|]. cbn [Z.opp Z.to_N]. unfold itoa, pretty, pretty_Z, pretty, pretty_N. done.
  - rewrite digits_loop_pretty by lia. destruct n as [|p|p]; [lia| |lia]. done.
Qed.

(** ** Concrete calls *)
Definition demo_number (n : string) : float64 := float_of_int (default 0 (A2aRpc.int_value n)).
Definition demo_schema : Schema := {|
  sch_Type := "object"; sch_Properties := {["n" := JObject [("type", JString "integer")]]}; sch_Required := ["n"]; sch_Additional := None |}.
Definition demo_def : ToolDefinition (ToolHandlerFunc unit CallToolRequest nat) := {|
  td_Tool := {| Tool.Name := "get"; Title := ""; Tool.Description := ""; Annotations := Annotations plain_tool; InputSchema := demo_schema;
                ToolOutputSchema := ToolOutputSchema plain_tool; Meta := None; ToolDeferLoading := false |};
  Handler := λ _ req n, (Returns (Some (StructuredResult (inr (JObject [("n", default JNull (arg req "n"))])))) None, S n);
  Category := ""; Subcategory := ""; Tool.Tags := []; SearchTerms := []; Complexity := "simple"; IsWrite := false; Deprecated := false; td_Timeout := 0;
  CircuitBreakerGroup := ""; RuntimeGroup := ""; OutputSchema := Some demo_schema; MaxResultChars := 0; DeferLoading := false; AlwaysLoad := false;
  SkipRequiresUserInteraction := false; DestructiveOverride := None; IdempotentOverride := None; ReadOnlyOverride := None |}.
Definition demo_call (args : gmap string json) : outcome * nat :=
  InputValidationMiddleware demo_number map_to_list "get" demo_def
    (OutputValidationMiddleware demo_number (λ _, "") map_to_list "get" demo_def (Handler demo_def)) () (NewCallToolRequest "get" (Some args)) 0%nat.
Lemma validated_calls_witness :
  (demo_call {["n" := JNumber "7"]}).2 = 1%nat ∧ ∃ err, demo_call {["n" := JString "7"]} = (Returns (Some (CodedErrorResult ErrInvalidParam err)) None, 0%nat).
Proof.
  split; [by vm_compute|].
  apply (proj1 (proj2 (validated_calls demo_number (λ _, "") map_to_list (λ m, Permutation_refl _) "get" demo_def (Handler demo_def) ()
    (NewCallToolRequest "get" (Some {["n" := JString "7"]})) 0%nat))).
  intros [_ H]. destruct (H "n" (JObject [("type", JString "integer")]) "integer" (JString "7") eq_refl eq_refl eq_refl) as [|H']; [done|]. by vm_compute in H'.
Defined.
Lemma parameters_after_validation_witness :
  let req := NewCallToolRequest "get" (Some {["n" := JNumber "7"]}) in
  GetIntParam demo_number req "n" 0 = 7 ∧ HasParam req "n" = true.
Proof.
  intros req. split; [by vm_compute|]. refine (proj1 (parameters_after_validation demo_number req "n" demo_schema "n" "integer" _ _ _ eq_refl)).
  - apply (violation_spec demo_number demo_schema map_to_list); [intros m; apply Permutation_refl|by vm_compute].
  - apply list_elem_of_here.
  - done.
Defined.
Lemma intToStr_decimal_witness : intToStr (-120) = "-120" ∧ intToStr (-120) = itoa (-120).
Proof. split; [by vm_compute|]. apply intToStr_decimal; [by vm_compute|done]. Defined.

(** The least integer is written as a dash. *)
Lemma least_integer_is_a_dash : intToStr min_int64 = "-".
Proof. by vm_compute. Qed.
(** A fraction that rounds up to one is written as a hundred hundredths after the point. *)
Lemma fraction_rounds_to_hundred : floatToStr (float_div (float_of_int 999) (float_of_int 1000)) = "0.100".
Proof. by vm_compute. Qed.
(** A number between minus one and zero loses its sign. *)
Lemma negative_fraction_loses_sign : floatToStr (SFopp (float_div (float_of_int 1) (float_of_int 2))) = "0.50".
Proof. by vm_compute. Qed.
(** A text with a quote in it is written as it is. *)
Lemma example_text_not_escaped :
  let s := "a" +:+ dquote +:+ "b" in
  formatKV "k" (AnyString s) = dquote +:+ "k" +:+ dquote +:+ ": " +:+ dquote +:+ s +:+ dquote ∧ Json.parse ("{" +:+ formatKV "k" (AnyString s) +:+ "}") = None.
Proof. by vm_compute. Qed.
(** An explicit null passes for a required argument of any type, and the handler reads the default. *)
Lemma null_passes_for_required :
  (demo_call {["n" := JNull]}).2 = 1%nat ∧ GetIntParam demo_number (NewCallToolRequest "get" (Some {["n" := JNull]})) "n" 5 = 5.
Proof. by vm_compute. Qed.
