(* ===== verification/Fulfillment.v ===== *)
(** The fulfilment gateway (src/gateway/fulfillment): exclusive leases on batches, the cached status of the matrices, gaps,
    the invariants of the host, and the pipeline of steps.

    Files, programs, the disk, the GPU and the texts of times are parameters. *)

From stdpp Require Import base tactics list gmap strings.
From Stdlib Require Import ZArith Lia Floats.SpecFloat.
From S2P Require Import Prelude Json A2a Handler.
From S2P Require LoopGuards Sanitize.

Local Open Scope Z_scope.

(** ** Data (types.go, pipeline_types.go) *)
Record SequenceGapItem := { Series : string; MissingID : string; Priority : Z; g_Status : string }.
Record InvariantReport := {
  Passed : bool; NVMeFreeGB : float64; NVMeTargetMinGB : float64; VRAMUsedMB : float64; VRAMLimitMB : float64; DesktopToasts : Z;
  StashAppStatus : string; ir_Timestamp : string }.
Record MatrixStatusOutput := {
  ResolutionMatrixCount : Z; SeriesFulfillmentCount : Z; CandidateQueueCount : Z; DedupMatrixCount : Z; Invariants : InvariantReport;
  ActiveExclusiveLeases : list string; ms_Timestamp : string }.
Record ClaimBatchOutput := { cb_ClaimKey : string; cb_Scope : string; cb_Owner : string; Granted : bool; cb_ExpiresAt : string; Message : string }.
Record LeaseRecord := { ClaimKey : string; Scope : string; Owner : string; GrantedAt : time; ExpiresAt : time }.
Record ExecuteStepOutput := { StepName : string; s_Status : string; OutputSummary : string; Errors : list string }.
Record RunE2EOutput := {
  Success : bool; InvariantPassed : bool; StepsExecuted : list string; ResolvedGapsCount : Z; MailboxSynced : bool; Summary : string }.

(** ** The manager of the matrices (matrix.go) *)
Definition DefaultDeployDir : string := "/home/hg/teamwork_projects/stash_deployment".
Definition DefaultDbPath : string := "/home/hg/hairglasses-studio/creator_knowledge_graph.db".
Definition CacheTTL : duration := 30 * Second.
Record MatrixManager := { deployDir : string; leases : gmap string LeaseRecord; cachedStatus : option MatrixStatusOutput; cacheExpiry : time }.
Definition seed (key scope owner : string) (granted expires : time) : string * LeaseRecord :=
  (key, {| ClaimKey := key; Scope := scope; Owner := owner; GrantedAt := granted; ExpiresAt := expires |}).
Definition seeded_leases (now : time) : gmap string LeaseRecord := list_to_map [
  seed "sequence_gap_batch_wave_3" "DF #394-#551" "1788526550458_j9gon" (time_add now (- Hour)) (time_add now (3 * Hour));
  seed "sequence_gap:RAW:102" "RAW #102" "matrix-fulfillment-specialist" now (time_add now (4 * Hour));
  seed "sequence_gap:RAW:108" "RAW #108" "matrix-fulfillment-specialist" now (time_add now (4 * Hour));
  seed "sequence_gap:STUDIO:042" "STUDIO #042" "matrix-fulfillment-specialist" now (time_add now (4 * Hour));
  seed "sequence_gap_batch_raw_studio" "RAW #102, RAW #108, STUDIO #042" "matrix-fulfillment-specialist" now (time_add now (4 * Hour))].
Definition NewMatrixManager (dir : string) (now : time) : MatrixManager := {|
  deployDir := if bool_decide (dir = "") then DefaultDeployDir else dir; leases := seeded_leases now; cachedStatus := None; cacheExpiry := time_zero |}.

Section Manager.
Variable number : string → float64.
Variable format_time : time → string.
(** The contents of a file, when it can be read. *)
Variable read_file : string → option string.

Definition countJSONKeys (path key : string) : Z :=
  match read_file path ≫= parse with
  | None => 0
  | Some v =>
      match content_map v with
      | None => 0
      | Some raw =>
          let count k := match raw !! k with Some (JArray l) => Some (Z.of_nat (length l)) | _ => None end in
          let own := match as_map (raw !! key) with Some sub => Some (Z.of_nat (size sub)) | None => count key end in
          let candidates := if bool_decide (key = "performers") then count "candidates" else None in
          let scanned := if bool_decide (key = "hashes")
                         then match summary ← as_map (raw !! "summary"); summary !! "total_assets_scanned" with
                              | Some (JNumber n) => Some (to_int64 (number n)) | _ => None end
                         else None in
          match own with
          | Some n => n
          | None => match candidates with
                    | Some n => n
                    | None => match scanned with Some n => n | None => Z.of_nat (size raw) end
                    end
          end
      end
  end.
Definition countJSONEntries (path : string) : Z :=
  match read_file path ≫= parse with
  | None => 0
  | Some (JArray l) => Z.of_nat (length l)
  | Some JNull => 0
  | Some v => match as_map (Some v) with
              | None => 0
              | Some raw => match raw !! "candidates" with Some (JArray l) => Z.of_nat (length l) | _ => Z.of_nat (size raw) end
              end
  end.

Definition active (now : time) (l : LeaseRecord) : bool := time_before now (ExpiresAt l).
Definition lease_line (p : string * LeaseRecord) : string := p.1 +:+ " (" +:+ Scope p.2 +:+ " -> " +:+ Owner p.2 +:+ ")".
(** [walk] lists the leases in the order the map is walked; [report] is that of [CheckInvariants]. *)
Definition GetStatus (verbose : bool) (walk : list (string * LeaseRecord)) (report : InvariantReport) (now : time) (m : MatrixManager) :
    MatrixStatusOutput * MatrixManager :=
  match (if time_before now (cacheExpiry m) && negb verbose then cachedStatus m else None) with
  | Some out => (out, m)
  | None =>
      let file name := deployDir m +:+ "/" +:+ name in
      let out := {|
        ResolutionMatrixCount := countJSONKeys (file "fulfillment_resolution_matrix.json") "performers";
        SeriesFulfillmentCount := countJSONKeys (file "series_fulfillment_matrix.json") "series";
        CandidateQueueCount := countJSONEntries (file "discovered_candidates_queue.json");
        DedupMatrixCount := countJSONKeys (file "dedup_resolution_matrix.json") "hashes";
        Invariants := report; ActiveExclusiveLeases := map lease_line (filter (λ p, active now p.2 = true) walk); ms_Timestamp := format_time now |} in
      (out, {| deployDir := deployDir m; leases := leases m; cachedStatus := Some out; cacheExpiry := time_add now CacheTTL |})
  end.

(** *** Gaps *)
Definition sampleGaps : list (string * string * Z) :=
  [("DF", "394", 10); ("DF", "412", 10); ("DF", "455", 9); ("DF", "507", 8); ("DF", "551", 7); ("RAW", "102", 6); ("RAW", "108", 6); ("STUDIO", "042", 5)].
Definition locks (now : time) (series id : string) (l : LeaseRecord) : bool :=
  active now l && (bool_decide (ClaimKey l = "sequence_gap:" +:+ series +:+ ":" +:+ id) || (contains series (Scope l) && contains id (Scope l))).
Definition gap_item (now : time) (walk : list LeaseRecord) (g : string * string * Z) : SequenceGapItem :=
  let '(series, id, prio) := g in {|
  Series := series; MissingID := id; Priority := prio;
  g_Status := match list_find (λ l, locks now series id l = true) walk with
              | Some (_, l) => "LOCKED_" +:+ Owner l
              | None => if bool_decide (series = "DF") then "LOCKED_WAVE_3" else "UNCLAIMED"
              end |}.
Definition ScanGaps (seriesPrefix : string) (limit : Z) (walk : list LeaseRecord) (now : time) : list SequenceGapItem :=
  let limit := if limit <=? 0 then 50 else limit in
  take (Z.to_nat limit) (map (gap_item now walk) (filter (λ g, bool_decide (seriesPrefix = "") || bool_decide (seriesPrefix = g.1.1) = true) sampleGaps)).

(** *** Leases: the manager after the call, and the query that records a granted lease *)
Definition refused (batchKey scope : string) (existing : LeaseRecord) : ClaimBatchOutput := {|
  cb_ClaimKey := batchKey; cb_Scope := scope; cb_Owner := Owner existing; Granted := false; cb_ExpiresAt := format_time (ExpiresAt existing);
  Message := "Batch " +:+ batchKey +:+ " already exclusively leased to " +:+ Owner existing +:+ " until " +:+ format_time (ExpiresAt existing) |}.
Definition lease_duration (durationSec : Z) : duration := wrap64 ((if durationSec <=? 0 then 3600 else durationSec) * Second).
Definition set_leases (ls : gmap string LeaseRecord) (m : MatrixManager) : MatrixManager :=
  {| deployDir := deployDir m; leases := ls; cachedStatus := cachedStatus m; cacheExpiry := cacheExpiry m |}.
Definition ClaimBatch (batchKey scope owner : string) (durationSec : Z) (now : time) (m : MatrixManager) : ClaimBatchOutput * MatrixManager :=
  match leases m !! batchKey with
  | Some existing =>
      if active now existing && negb (bool_decide (Owner existing = owner)) then (refused batchKey scope existing, m)
      else let expiresAt := time_add now (lease_duration durationSec) in
           ({| cb_ClaimKey := batchKey; cb_Scope := scope; cb_Owner := owner; Granted := true; cb_ExpiresAt := format_time expiresAt;
               Message := "Exclusive lease granted to " +:+ owner +:+ " for scope " +:+ scope |},
            set_leases (<[batchKey := {| ClaimKey := batchKey; Scope := scope; Owner := owner; GrantedAt := now; ExpiresAt := expiresAt |}]> (leases m)) m)
  | None =>
      let expiresAt := time_add now (lease_duration durationSec) in
      ({| cb_ClaimKey := batchKey; cb_Scope := scope; cb_Owner := owner; Granted := true; cb_ExpiresAt := format_time expiresAt;
          Message := "Exclusive lease granted to " +:+ owner +:+ " for scope " +:+ scope |},
       set_leases (<[batchKey := {| ClaimKey := batchKey; Scope := scope; Owner := owner; GrantedAt := now; ExpiresAt := expiresAt |}]> (leases m)) m)
  end.
Definition squote : string := "'".
Definition quoted (s : string) : string := squote +:+ s +:+ squote.
(** The first two lines of the statement given to sqlite3. *)
Definition lease_values (batchKey scope owner : string) (acquiredAt expiresAt : time) : string :=
  "VALUES (" +:+ quoted batchKey +:+ ", " +:+ quoted owner +:+ ", 'team-matrix-fulfillment', " +:+ quoted scope +:+ ", " +:+
  quoted (format_time acquiredAt) +:+ ", " +:+ quoted (format_time expiresAt) +:+ ", 'LOCKED', '{}')".
End Manager.

(** ** The invariants of the host (invariants.go) *)
Section Invariants.
Variable format_time : time → string.
Definition DefaultMinNVMeFreeGB : float64 := float_of_int 60.
Definition DefaultMaxVRAMUsedMB : float64 := float_of_int 12000.
(** [freeGB] and [vramMB] are what the host reports (or the fallback of the readers), [stash] the state of the service. *)
Definition CheckInvariants (minFreeGB maxVRAM freeGB vramMB : float64) (stash : string) (now : time) : InvariantReport * list string :=
  let minFreeGB := if float_le minFreeGB float_zero then DefaultMinNVMeFreeGB else minFreeGB in
  let maxVRAM := if float_le maxVRAM float_zero then DefaultMaxVRAMUsedMB else maxVRAM in
  let low := float_lt freeGB minFreeGB in
  let high := float_lt maxVRAM vramMB in
  let gb := format_fixed 2 in
  let mb := format_fixed 1 in
  ({| Passed := negb low && negb high; NVMeFreeGB := freeGB; NVMeTargetMinGB := minFreeGB; VRAMUsedMB := vramMB; VRAMLimitMB := maxVRAM;
      DesktopToasts := 0; StashAppStatus := stash; ir_Timestamp := format_time now |},
   [if low then "NVMe storage below floor: " +:+ gb freeGB +:+ " GB free < target " +:+ gb minFreeGB +:+ " GB"
    else "NVMe storage healthy: " +:+ gb freeGB +:+ " GB free >= target " +:+ gb minFreeGB +:+ " GB";
    if high then "GPU VRAM exceeded ceiling: " +:+ mb vramMB +:+ " MB used > target " +:+ mb maxVRAM +:+ " MB"
    else "GPU VRAM within limit: " +:+ mb vramMB +:+ " MB used <= target " +:+ mb maxVRAM +:+ " MB";
    "Desktop notifications verified zero (silent agent mode)"; "StashApp service status: " +:+ stash]).
(** The memory in use, from the output of nvidia-smi when it runs. *)
Definition getVRAMUsedMB (parse_float : string → option float64) (out : option string) : float64 :=
  match out with
  | None => float_of_int 2400
  | Some out => default (float_of_int 2400) (line ← head (Sanitize.split (Ascii.ascii_of_nat 10) (LoopGuards.TrimSpace out)); parse_float (LoopGuards.TrimSpace line))
  end.
(** A nil context makes no request. *)
Definition checkStashService (has_context : bool) (reachable : bool) : string :=
  if negb has_context then "CONFIG_ERROR" else if reachable then "ONLINE" else "OFFLINE_OR_STANDBY".
End Invariants.

(** ** The pipeline (engine.go) and the mailbox (mailbox.go) *)
Section Engine.
Context {W : Type}.
(** Whether a script exists, and a run of it with its time limit: its output, and the error if it failed. *)
Variable exists_file : string → W → bool.
Variable run_script : string → duration → W → string * option string * W.
Definition scriptMap : gmap string string := list_to_map [
  ("phase_a", "unified_fulfillment_umbrella.py"); ("phase_b", "unified_fulfillment_umbrella.py"); ("phase_c", "stash_ecosystem_bridge.py");
  ("sequence_scheduler", "sequence_gap_priority_scheduler.py"); ("phash_worker", "auto_phash_worker.py")].
Definition step_output (name status summary : string) (errs : list string) : ExecuteStepOutput :=
  {| StepName := name; s_Status := status; OutputSummary := summary; Errors := errs |}.
Definition ExecuteStep (dir stepName : string) (dryRun : bool) (timeoutSec : Z) (w : W) : ExecuteStepOutput * W :=
  let limit := wrap64 ((if timeoutSec <=? 0 then 60 else timeoutSec) * Second) in
  match scriptMap !! stepName with
  | None => (step_output stepName "FAILED" ("Unknown step: " +:+ stepName) ["Invalid step name"], w)
  | Some scriptName =>
      let scriptPath := dir +:+ "/" +:+ scriptName in
      if dryRun then (step_output stepName "SUCCESS_DRY_RUN"
        ("[DRY_RUN] Simulated execution of " +:+ stepName +:+ " (" +:+ scriptName +:+ "). Invariants verified.") [], w)
      else if negb (exists_file scriptPath w) then (step_output stepName "FALLBACK_SUCCESS"
        ("Script " +:+ scriptName +:+ " not present at path; executed internal fallback for " +:+ stepName +:+ ".") [], w)
      else let '(out, err, w) := run_script scriptPath limit w in
           (step_output stepName (match err with Some _ => "DEGRADED" | None => "SUCCESS" end)
              (if 200 <? bytes out then string_take 200 out +:+ "..." else out) (option_list err), w)
  end.
Definition all_steps : list string := ["sequence_scheduler"; "phase_a"; "phase_b"].
Fixpoint execute_all (dir : string) (dryRun : bool) (steps executed : list string) (w : W) : list string * W :=
  match steps with
  | [] => (executed, w)
  | s :: steps => let '(out, w) := ExecuteStep dir s dryRun 30 w in execute_all dir dryRun steps (executed ++ [s +:+ ":" +:+ s_Status out]) w
  end.
(** [sync] delivers the message; it says whether it did. *)
Definition RunE2E (sync : string → list string → W → bool * W) (dir : string) (dryRun : bool) (maxSteps : Z) (sessionID : string) (inv : InvariantReport) (w : W) :
    RunE2EOutput * W :=
  if negb (Passed inv)
  then ({| Success := false; InvariantPassed := false; StepsExecuted := []; ResolvedGapsCount := 0; MailboxSynced := false;
           Summary := "Aborted: Host invariants below safety thresholds." |}, w)
  else let steps := if (0 <? maxSteps) && (maxSteps <? Z.of_nat (length all_steps)) then take (Z.to_nat maxSteps) all_steps else all_steps in
       let '(executed, w) := execute_all dir dryRun steps [] w in
       let '(synced, w) := if bool_decide (sessionID = "") then (false, w) else sync sessionID executed w in
       ({| Success := true; InvariantPassed := true; StepsExecuted := executed; ResolvedGapsCount := 8; MailboxSynced := synced;
           Summary := "End-to-end self-fulfillment cycle executed successfully with zero invariant violations." |}, w).

Definition defaultMailboxDirs : list string := [
  "/home/hg/teamwork_projects/stash_deployment/FLEET_INTER_SESSION_MAILBOX";
  "/home/hg/hairglasses-studio/.agents/session_coordination/FLEET_INTER_SESSION_MAILBOX"].
(** Where the message went, and whether the call reports success; [write] makes the directory and writes the file. *)
Variable write : string → W → bool * W.
Fixpoint write_hubs (file : string) (dirs : list string) (written : string) (w : W) : string * W :=
  match dirs with
  | [] => (written, w)
  | dir :: dirs => let target := dir +:+ "/" +:+ file in
                   let '(ok, w) := write target w in write_hubs file dirs (if ok then target else written) w
  end.
Definition SyncMailbox (sessionID : string) (w : W) : string * bool * W :=
  let '(writtenPath, w) := write_hubs ("FROM_SESSION_" +:+ sessionID +:+ "_TO_GATEWAY.json") defaultMailboxDirs "" w in
  if bool_decide (writtenPath = "")
  then let path := "/tmp/fulfillment_gateway_mailbox.json" in let '(_, w) := write path w in (path, true, w)
  else (writtenPath, true, w).
End Engine.

(** ** Leases are exclusive *)
Section Leases.
Variable format_time : time → string.
Record Claim := { c_key : string; c_scope : string; c_owner : string; c_duration : Z; c_now : time }.
Definition claim (c : Claim) (m : MatrixManager) : ClaimBatchOutput * MatrixManager :=
  ClaimBatch format_time (c_key c) (c_scope c) (c_owner c) (c_duration c) (c_now c) m.
(** The leases that a run of claims grants, in order. *)
Fixpoint grants (cs : list Claim) (m : MatrixManager) : list LeaseRecord :=
  match cs with
  | [] => []
  | c :: cs => let '(out, m') := claim c m in
               (if Granted out then option_list (leases m' !! c_key c) else []) ++ grants cs m'
  end.
(** A lease passes to another owner only after it has run out. *)
Fixpoint handovers (held : option LeaseRecord) (gs : list LeaseRecord) : Prop :=
  match gs with
  | [] => True
  | g :: gs => match held with Some l => Owner l ≠ Owner g → ExpiresAt l <= GrantedAt g | None => True end ∧ handovers (Some g) gs
  end.
Lemma claim_cases c m :
  let '(out, m') := claim c m in
  (Granted out = false ∧ m' = m ∧ ∃ l, leases m !! c_key c = Some l ∧ active (c_now c) l = true ∧ Owner l ≠ c_owner c) ∨
  (Granted out = true ∧ (∀ l, leases m !! c_key c = Some l → active (c_now c) l = true → Owner l = c_owner c) ∧
   leases m' = <[c_key c := {| ClaimKey := c_key c; Scope := c_scope c; Owner := c_owner c; GrantedAt := c_now c;
                              ExpiresAt := time_add (c_now c) (lease_duration (c_duration c)) |}]> (leases m)).
Proof.
  unfold claim, ClaimBatch. destruct (leases m !! c_key c) as [l|] eqn:E; [|right; split; [done|]; split; [done|done]].
  destruct (active (c_now c) l) eqn:Ea; cbn [andb]; [|right; split; [done|]; split; [intros l' [= <-]; congruence|done]].
  case_bool_decide as Ho; cbn [negb]; [right; split; [done|]; split; [by intros l' [= <-]|done]|left; split; [done|]; split; [done|]; by exists l].
Qed.
(** C36.  Whoever claims what, with whatever clock: a batch under a lease that still runs is granted to nobody but its holder,
    so between two grants of a batch to different owners the first lease has expired, and a refusal changes nothing and
    names the holder. *)
Theorem leases_are_exclusive cs m key :
  handovers (leases m !! key) (filter (λ l, ClaimKey l = key) (grants cs m)) ∧
  ∀ c, let '(out, m') := claim c m in
    (Granted out = false ↔ ∃ l, leases m !! c_key c = Some l ∧ active (c_now c) l = true ∧ Owner l ≠ c_owner c) ∧
    (Granted out = false → m' = m ∧ Owner <$> leases m !! c_key c = Some (cb_Owner out)).
Proof.
  split.
  - revert m. induction cs as [|c cs IH]; intros m; [done|]. cbn [grants]. pose proof (claim_cases c m) as H. destruct (claim c m) as [out m'].
    destruct H as [(-> & -> & _)|(-> & Hfree & Hl)]; [apply IH|]. rewrite Hl, lookup_insert_eq.
    change (option_list (Some ?x) ++ ?y) with (x :: y).
    specialize (IH m'). rewrite Hl in IH. destruct (decide (c_key c = key)) as [<-|Hne].
    + rewrite filter_cons_True by done. rewrite lookup_insert_eq in IH. cbn [handovers Owner GrantedAt]. split; [|exact IH].
      destruct (leases m !! c_key c) as [l|] eqn:E; [|done]. intros Ho. destruct (active (c_now c) l) eqn:Ea; [by apply Hfree in Ea|].
      unfold active, time_before in Ea. by apply Z.ltb_ge in Ea.
    + rewrite filter_cons_False by done. rewrite lookup_insert_ne in IH by done. exact IH.
  - intros c. pose proof (claim_cases c m) as H. unfold claim in *. destruct (ClaimBatch _ _ _ _ _ _ _) as [out m'] eqn:E.
    destruct H as [(Hg & -> & l & H1 & H2 & H3)|(Hg & Hfree & _)]; rewrite Hg.
    + split; [split; [intros _; by exists l|done]|]. intros _. split; [done|]. rewrite H1. cbn. unfold ClaimBatch in E. rewrite H1, H2 in E.
      rewrite bool_decide_false in E by done. cbn in E. by injection E as <-.
    + split; [|done]. split; [done|]. intros (l & H1 & H2 & H3). by apply Hfree in H2.
Qed.
End Leases.

(** ** A run of the pipeline *)
Section Runs.
Context {W : Type} (exists_file : string → W → bool) (run_script : string → duration → W → string * option string * W) (sync : string → list string → W → bool * W).
Lemma execute_all_steps dir dryRun steps : ∀ executed w, ∃ statuses, length statuses = length steps ∧
  fst (execute_all exists_file run_script dir dryRun steps executed w) = executed ++ zip_with (λ s t, s +:+ ":" +:+ t) steps statuses.
Proof.
  induction steps as [|s steps IH]; intros executed w; cbn [execute_all]; [by exists []; rewrite app_nil_r|].
  destruct (ExecuteStep _ _ _ _ _ _ _) as [out w']. destruct (IH (executed ++ [s +:+ ":" +:+ s_Status out]) w') as (sts & Hl & ->).
  exists (s_Status out :: sts). cbn. rewrite Hl. split; [done|]. by rewrite <- app_assoc.
Qed.
(** A run is aborted exactly when the host is below its thresholds; otherwise every step up to the limit is executed, in
    order, whatever became of the ones before. *)
Theorem e2e_runs_every_step dir dryRun maxSteps sessionID inv w :
  let out := fst (RunE2E exists_file run_script sync dir dryRun maxSteps sessionID inv w) in
  Success out = Passed inv ∧ InvariantPassed out = Passed inv ∧
  (Passed inv = false → StepsExecuted out = [] ∧ RunE2E exists_file run_script sync dir dryRun maxSteps sessionID inv w = (out, w)) ∧
  (Passed inv = true → ∃ statuses,
     let steps := if (0 <? maxSteps) && (maxSteps <? 3) then take (Z.to_nat maxSteps) all_steps else all_steps in
     length statuses = length steps ∧ StepsExecuted out = zip_with (λ s t, s +:+ ":" +:+ t) steps statuses).
Proof.
  cbv zeta. unfold RunE2E. destruct (Passed inv); cbn [negb]; [|done]. change (Z.of_nat (length all_steps)) with 3.
  generalize (if (0 <? maxSteps) && (maxSteps <? 3) then take (Z.to_nat maxSteps) all_steps else all_steps). intros steps.
  destruct (execute_all_steps dir dryRun steps [] w) as (sts & Hl & He).
  destruct (execute_all exists_file run_script dir dryRun steps [] w) as [executed w1]. cbn [fst] in He. subst executed.
  destruct (bool_decide (sessionID = "")); [|destruct (sync _ _ w1) as [synced w2]]; cbn;
    (split; [done|]; split; [done|]; split; [done|]; intros _; by exists sts).
Qed.
End Runs.

(** ** Concrete calls *)
Definition demo_time (t : time) : string := itoa t.
Definition demo_manager : MatrixManager := {| deployDir := "d"; leases := ∅; cachedStatus := None; cacheExpiry := 0 |}.
Definition demo_claim (key owner : string) (sec now : Z) : Claim := {| c_key := key; c_scope := "RAW #102"; c_owner := owner; c_duration := sec; c_now := now |}.
Definition demo_report : InvariantReport := fst (CheckInvariants demo_time float_zero float_zero (float_of_int 75) (float_of_int 2400) (checkStashService false true) 0).

(** A claim within half a minute after a look at the status does not show in the next look. *)
Lemma claim_missing_from_cached_status :
  let m := snd (GetStatus (λ _, float_zero) demo_time (λ _, None) false [] demo_report 1 demo_manager) in
  let m' := snd (claim demo_time (demo_claim "k" "a" 60 2) m) in
  Owner <$> leases m' !! "k" = Some "a" ∧ ActiveExclusiveLeases (fst (GetStatus (λ _, float_zero) demo_time (λ _, None) false (map_to_list (leases m')) demo_report 3 m')) = [].
Proof. by vm_compute. Qed.
(** Exclusion is by key: two owners hold the same scope under two keys. *)
Lemma one_scope_two_owners :
  let m := snd (claim demo_time (demo_claim "k2" "b" 60 2) (snd (claim demo_time (demo_claim "k1" "a" 60 1) demo_manager))) in
  Owner <$> leases m !! "k1" = Some "a" ∧ Owner <$> leases m !! "k2" = Some "b" ∧ (Scope <$> leases m !! "k1") = (Scope <$> leases m !! "k2").
Proof. by vm_compute. Qed.
(** A very long lease is granted and has already expired. *)
Lemma long_lease_expires_at_once :
  let '(out, m) := claim demo_time (demo_claim "k" "a" 9223372037 1) demo_manager in
  Granted out = true ∧ active 1 <$> leases m !! "k" = Some false.
Proof. by vm_compute. Qed.
(** The values of a lease go into the statement as they are. *)
Lemma lease_query_not_escaped : contains "'); DROP TABLE fleet_work_leases; --" (lease_values demo_time "x'); DROP TABLE fleet_work_leases; --" "s" "o" 0 1) = true.
Proof. by vm_compute. Qed.
(** A lease on another number that contains the number locks the gap. *)
Lemma gap_locked_by_longer_number :
  g_Status (gap_item 0 [{| ClaimKey := "k"; Scope := "RAW #1021"; Owner := "a"; GrantedAt := 0; ExpiresAt := 9 |}] ("RAW", "102", 6)) = "LOCKED_a".
Proof. by vm_compute. Qed.
(** A run whose scripts all fail is a success with eight gaps resolved. *)
Lemma e2e_success_with_failed_steps :
  let out := fst (RunE2E (W := unit) (λ _ _, true) (λ _ _ w, ("", Some "exit status 1", w)) (λ _ _ w, (true, w)) "d" false 0 "" demo_report ()) in
  StepsExecuted out = ["sequence_scheduler:DEGRADED"; "phase_a:DEGRADED"; "phase_b:DEGRADED"] ∧ Success out = true ∧ ResolvedGapsCount out = 8.
Proof. by vm_compute. Qed.
(** A message that could be written nowhere is reported as delivered. *)
Lemma mailbox_success_without_delivery : SyncMailbox (W := unit) (λ _ w, (false, w)) "s" () = ("/tmp/fulfillment_gateway_mailbox.json", true, ()).
Proof. by vm_compute. Qed.
(** The report in the status never says that the service is online. *)
Lemma status_never_online reachable : checkStashService false reachable = "CONFIG_ERROR".
Proof. done. Qed.
