(* ===== verification/Lifecycle.v ===== *)
(** The lifecycle of a server (src/lifecycle/lifecycle.go), its health end points (src/health/health.go) and the autonomy gates
    (src/health/gates.go).

    A run of the manager is a step relation: the goroutine of [Run] between its locks and calls, the goroutine of the serve
    function, signals, the end of the caller's context, and registrations by anybody at any time. *)

From stdpp Require Import base tactics list gmap strings relations.
From Stdlib Require Import ZArith Lia.
From S2P Require Import Prelude Json A2a.

Local Open Scope Z_scope.

(** ** The manager (lifecycle.go) *)
Section Manager.
(** A shutdown hook, by its identity, and the state that the callbacks act on. *)
Context {Hook W : Type}.
Record Config := { DrainTimeout : duration; Signals : list string; OnHealthy : option (W → W); OnDraining : option (W → W) }.
Definition applyDefaults (c : Config) : Config := {|
  DrainTimeout := if DrainTimeout c <=? 0 then 30 * Second else DrainTimeout c;
  Signals := if bool_decide (Signals c = []) then ["SIGTERM"; "SIGINT"] else Signals c;
  OnHealthy := OnHealthy c; OnDraining := OnDraining c |}.
Record Manager := { config : Config; hooks : list Hook; status : string }.
Definition New (cfg : option Config) : Manager := {|
  config := applyDefaults (default {| DrainTimeout := 0; Signals := []; OnHealthy := None; OnDraining := None |} cfg);
  hooks := []; status := "created" |}.
Definition OnShutdown (fn : Hook) (m : Manager) : Manager := {| config := config m; hooks := hooks m ++ [fn]; status := status m |}.
Definition setStatus (s : string) (m : Manager) : Manager := {| config := config m; hooks := hooks m; status := s |}.
Definition callback (f : option (W → W)) (w : W) : W := match f with Some f => f w | None => w end.

(** *** A run: where [Run] is, and what the serve function has come to *)
Inductive phase :=
| Created
| Starting                                           (* the signals are asked for *)
| Turning                                            (* healthy, the callback not yet called *)
| Launching                                          (* the serve function not yet started *)
| Waiting                                            (* in the select *)
| Leaving (err : option error)                       (* out of the select *)
| Draining (err : option error)                      (* the callback not yet called *)
| Collecting (err : option error)                    (* the hooks not yet copied *)
| Closing (copied : list Hook) (todo : nat) (err : option error)  (* so many hooks still to call *)
| Stopped (copied : list Hook) (err : option error).
Inductive serve := NotStarted | Serving | Returned (err : option error).
Record system := {
  mgr : Manager; at_ : phase; served : serve;
  pending : bool;                                    (* a signal is in the channel *)
  ended : option error;                              (* the caller's context is done, for this reason *)
  cancelled : bool;                                  (* Run has cancelled the context of the serve function *)
  registered : list Hook;                            (* the hooks given to OnShutdown, in order *)
  world : W;
  called : list (Hook * option error) }.             (* the hooks called, and what they answered *)
Definition with_phase (p : phase) (s : system) : system :=
  {| mgr := mgr s; at_ := p; served := served s; pending := pending s; ended := ended s; cancelled := cancelled s; registered := registered s; world := world s; called := called s |}.
Definition with_mgr (m : Manager) (s : system) : system :=
  {| mgr := m; at_ := at_ s; served := served s; pending := pending s; ended := ended s; cancelled := cancelled s; registered := registered s; world := world s; called := called s |}.
Definition with_world (w : W) (s : system) : system :=
  {| mgr := mgr s; at_ := at_ s; served := served s; pending := pending s; ended := ended s; cancelled := cancelled s; registered := registered s; world := w; called := called s |}.
Definition with_served (v : serve) (s : system) : system :=
  {| mgr := mgr s; at_ := at_ s; served := v; pending := pending s; ended := ended s; cancelled := cancelled s; registered := registered s; world := world s; called := called s |}.
Definition serveCancel (s : system) : system :=
  {| mgr := mgr s; at_ := at_ s; served := served s; pending := pending s; ended := ended s; cancelled := true; registered := registered s;
     world := world s; called := called s |}.
Definition registers (fn : Hook) (s : system) : system :=
  {| mgr := OnShutdown fn (mgr s); at_ := at_ s; served := served s; pending := pending s; ended := ended s; cancelled := cancelled s;
     registered := registered s ++ [fn]; world := world s; called := called s |}.
(** What the hook answered, and the error so far: the first one is kept. *)
Definition first_error (err answer : option error) : option error := match err with Some e => Some e | None => answer end.
Definition answered (copied : list Hook) (todo : nat) (h : Hook) (err answer : option error) (s : system) : system :=
  {| mgr := mgr s; at_ := Closing copied todo (first_error err answer); served := served s; pending := pending s; ended := ended s; cancelled := cancelled s; registered := registered s;
     world := world s; called := called s ++ [(h, answer)] |}.

(** The steps of [Run]. *)
Inductive run_step : system → system → Prop :=
| rs_start s : at_ s = Created → run_step s (with_phase Starting (with_mgr (setStatus "starting" (mgr s)) s))
| rs_healthy s : at_ s = Starting → run_step s (with_phase Turning (with_mgr (setStatus "healthy" (mgr s)) s))
| rs_on_healthy s : at_ s = Turning → run_step s (with_phase Launching (with_world (callback (OnHealthy (config (mgr s))) (world s)) s))
| rs_launch s : at_ s = Launching → run_step s (with_phase Waiting (with_served Serving s))
| rs_signal s : at_ s = Waiting → pending s = true → run_step s (serveCancel (with_phase (Leaving None) s))
| rs_returned s err : at_ s = Waiting → served s = Returned err → run_step s (with_phase (Leaving err) s)
| rs_ended s err : at_ s = Waiting → ended s = Some err → run_step s (serveCancel (with_phase (Leaving (Some err)) s))
| rs_drain s err : at_ s = Leaving err → run_step s (with_phase (Draining err) (with_mgr (setStatus "draining" (mgr s)) s))
| rs_on_draining s err : at_ s = Draining err →
    run_step s (with_phase (Collecting err) (with_world (callback (OnDraining (config (mgr s))) (world s)) s))
| rs_copy s err : at_ s = Collecting err → run_step s (with_phase (Closing (hooks (mgr s)) (length (hooks (mgr s))) err) s)
| rs_hook s copied i h err answer : at_ s = Closing copied (S i) err → copied !! i = Some h → run_step s (answered copied i h err answer s)
| rs_stop s copied err : at_ s = Closing copied 0 err → run_step s (serveCancel (with_phase (Stopped copied err) (with_mgr (setStatus "stopped" (mgr s)) s))).

(** [others w w'] says what the rest of the program may do to the state the callbacks act on. *)
Variable others : W → W → Prop.
Inductive step : system → system → Prop :=
| st_run s s' : run_step s s' → step s s'
| st_register s fn : step s (registers fn s)
| st_serve_returns s err : served s = Serving → step s (with_served (Returned err) s)
| st_signal s : at_ s ≠ Created →
    step s {| mgr := mgr s; at_ := at_ s; served := served s; pending := true; ended := ended s; cancelled := cancelled s; registered := registered s; world := world s; called := called s |}
| st_context_ends s err : ended s = None →
    step s {| mgr := mgr s; at_ := at_ s; served := served s; pending := pending s; ended := Some err; cancelled := cancelled s; registered := registered s; world := world s; called := called s |}
| st_others s w : others (world s) w → step s (with_world w s).
Definition start (cfg : option Config) (w : W) : system :=
  {| mgr := New cfg; at_ := Created; served := NotStarted; pending := false; ended := None; cancelled := false; registered := []; world := w; called := [] |}.

(** *** The invariant *)
Definition status_of (p : phase) : string :=
  match p with
  | Created => "created" | Starting => "starting" | Turning | Launching | Waiting | Leaving _ => "healthy"
  | Draining _ | Collecting _ | Closing _ _ _ => "draining" | Stopped _ _ => "stopped"
  end.
(** Where the error that ends the wait comes from. *)
Definition reason (s : system) (err : option error) : Prop :=
  (err = None ∧ pending s = true) ∨ served s = Returned err ∨ (∃ e, err = Some e ∧ ended s = Some e).
Definition lifecycle_inv (s : system) : Prop :=
  status (mgr s) = status_of (at_ s) ∧
  match at_ s with
  | Created | Starting | Turning | Launching => served s = NotStarted ∧ called s = []
  | Waiting => served s ≠ NotStarted ∧ called s = []
  | Leaving err | Draining err | Collecting err => reason s err ∧ called s = []
  | Closing copied todo err => ∃ cause, reason s cause ∧ (todo <= length copied)%nat ∧ copied `prefix_of` hooks (mgr s) ∧
      (called s).*1 = reverse (drop todo copied) ∧ err = foldl first_error cause (called s).*2
  | Stopped copied err => ∃ cause, reason s cause ∧ copied `prefix_of` hooks (mgr s) ∧
      (called s).*1 = reverse copied ∧ err = foldl first_error cause (called s).*2
  end.

Lemma reverse_drop_S {A} (l : list A) i h : l !! i = Some h → reverse (drop i l) = reverse (drop (S i) l) ++ [h].
Proof. intros H. rewrite (drop_S l h i H). by rewrite reverse_cons. Qed.
Lemma reason_mono s s' err : (pending s = true → pending s' = true) → (∀ e, served s = Returned e → served s' = Returned e) →
  (∀ e, ended s = Some e → ended s' = Some e) → reason s err → reason s' err.
Proof. unfold reason. naive_solver. Qed.
Lemma lc_run s s' : lifecycle_inv s → run_step s s' → lifecycle_inv s'.
Proof.
  unfold lifecycle_inv. intros [Hs Hp] H. destruct H as [s E|s E|s E|s E|s E Hpe|s err E Hr|s err E He|s err E|s err E|s err E|s copied i h err answer E Hh|s copied err E];
    rewrite E in *; cbn in *; (split; [done || (by rewrite Hs)|]).
  1-4: naive_solver.
  1-3: unfold reason; cbn; naive_solver.
  1-2: destruct Hp as [Hr Hc]; split; [exact Hr|done].
  - destruct Hp as [Hr Hc]. exists err. split; [exact Hr|]. split; [done|]. split; [done|]. by rewrite drop_all, Hc.
  - destruct Hp as (cause & Hr & Hl & Hpre & Hc & ->). exists cause. split; [exact Hr|]. split; [lia|]. split; [done|]. split.
    + rewrite fmap_app, Hc. cbn. symmetry. by apply reverse_drop_S.
    + by rewrite fmap_app, foldl_app.
  - destruct Hp as (cause & Hr & _ & Hpre & Hc & ->). exists cause. split; [exact Hr|]. split; [done|]. by rewrite drop_0 in Hc.
Qed.
(** A step of the others keeps what has been seen so far. *)
Lemma lc_keep s s' : status (mgr s') = status (mgr s) → at_ s' = at_ s → called s' = called s → hooks (mgr s) `prefix_of` hooks (mgr s') →
  (served s = NotStarted ↔ served s' = NotStarted) → (∀ err, reason s err → reason s' err) → lifecycle_inv s → lifecycle_inv s'.
Proof.
  unfold lifecycle_inv. intros Hst Hat Hca Hh Hsv Hr [Hs Hp]. rewrite Hst, Hat, Hca. split; [done|].
  destruct (at_ s) as [| | | | |err|err|err|copied todo err|copied err]; try naive_solver.
  - destruct Hp as (cause & Hc & Hl & Hpre & Hrest). exists cause. split; [auto|]. split; [done|]. split; [by etrans|done].
  - destruct Hp as (cause & Hc & Hpre & Hrest). exists cause. split; [auto|]. split; [by etrans|done].
Qed.
Lemma lc_step s s' : lifecycle_inv s → step s s' → lifecycle_inv s'.
Proof.
  intros Hi H. destruct H as [s s' H|s fn|s err Hv|s Hc|s err He|s w Ho]; [by eapply lc_run|..]; apply (lc_keep s); try done.
  - cbn. by apply prefix_app_r.
  - cbn. rewrite Hv. done.
  - intros e. apply reason_mono; cbn; [done| |done]. rewrite Hv. done.
  - intros e. by apply reason_mono.
  - intros e. apply reason_mono; cbn; [done|done|]. rewrite He. done.
Qed.
Lemma lc_reachable cfg w s : rtc step (start cfg w) s → lifecycle_inv s.
Proof. intros H. refine (rtc_ind_r lifecycle_inv (start cfg w) _ _ s H); [by split|intros; by eapply lc_step]. Qed.

(** The configuration never changes. *)
Lemma config_step s s' : step s s' → config (mgr s') = config (mgr s).
Proof. intros H. destruct H as [s s' H|s fn|s err Hv|s Hc|s err He|s w Ho]; try done. by destruct H. Qed.
Lemma config_reachable cfg w s : rtc step (start cfg w) s → config (mgr s) = config (New cfg).
Proof.
  intros H. refine (rtc_ind_r (λ s, config (mgr s) = config (New cfg)) (start cfg w) _ _ s H); [done|].
  intros y z _ Hz Hy. by rewrite (config_step _ _ Hz).
Qed.
Definition drained (p : phase) : Prop := match p with Collecting _ | Closing _ _ _ | Stopped _ _ => True | _ => False end.
(** What the draining callback brings about, and the others keep, holds from then on. *)
Lemma drained_holds cfg w s (P : W → Prop) : (∀ w, P (callback (OnDraining (config (New cfg))) w)) →
  (∀ w w', others w w' → P w → P w') → rtc step (start cfg w) s → drained (at_ s) → P (world s).
Proof.
  intros Hcb Ho H. assert (rtc step (start cfg w) s ∧ (drained (at_ s) → P (world s))) as [_ Hp]; [|exact Hp].
  refine (rtc_ind_r (λ s, rtc step (start cfg w) s ∧ (drained (at_ s) → P (world s))) (start cfg w) _ _ s H); [by split|].
  intros y z Hy Hz [_ IH]. split; [by eapply rtc_r|].
  destruct Hz as [y z Hz|y fn|y err Hv|y Hc|y err He|y w' Hw]; cbn; try done; [|intros Hd; eauto].
  destruct Hz as [y E|y E|y E|y E|y E Hpe|y err E Hr|y err E He|y err E|y err E|y err E|y copied i h err answer E Hh|y copied err E];
    rewrite E in IH; cbn in *; try done; auto.
  intros _. rewrite (config_reachable _ _ _ Hy). apply Hcb.
Qed.

(** *** What a run does *)
Definition rank (p : phase) : nat * nat :=
  match p with
  | Created => (9, 0) | Starting => (8, 0) | Turning => (7, 0) | Launching => (6, 0) | Waiting => (5, 0) | Leaving _ => (4, 0)
  | Draining _ => (3, 0) | Collecting _ => (2, 0) | Closing _ todo _ => (1, todo) | Stopped _ _ => (0, 0)
  end%nat.
Definition lower (a b : nat * nat) : Prop := (a.1 < b.1)%nat ∨ a.1 = b.1 ∧ (a.2 < b.2)%nat.
(** There is a reason to end. *)
Definition caused (s : system) : Prop := pending s = true ∨ (∃ err, served s = Returned err) ∨ is_Some (ended s).

(** *** What was collected, and what the serve function was told *)
(** The hooks were collected when these had been registered, the wait having ended for [cause]. *)
Definition collected (cfg : option Config) (w : W) (copied : list Hook) (cause : option error) (s : system) : Prop :=
  ∃ s1, rtc step (start cfg w) s1 ∧ at_ s1 = Collecting cause ∧ reason s1 cause ∧ registered s1 = copied ∧ rtc step s1 s.
(** The serve function has returned, or its context is cancelled. *)
Definition told (s : system) : Prop := cancelled s = true ∨ ∃ err, served s = Returned err.
Definition history (cfg : option Config) (w : W) (s : system) : Prop :=
  hooks (mgr s) = registered s ∧
  match at_ s with
  | Created | Starting | Turning | Launching | Waiting => True
  | Leaving err | Draining err | Collecting err => told s
  | Closing copied todo err => told s ∧ ∃ cause, collected cfg w copied cause s ∧
      (called s).*1 = reverse (drop todo copied) ∧ err = foldl first_error cause (called s).*2
  | Stopped copied err => cancelled s = true ∧ ∃ cause, collected cfg w copied cause s ∧
      (called s).*1 = reverse copied ∧ err = foldl first_error cause (called s).*2
  end.
Lemma collected_step cfg w copied cause s s' : step s s' → collected cfg w copied cause s → collected cfg w copied cause s'.
Proof. intros Hs (s1 & H1 & H2 & H3 & H4 & H5). exists s1. do 4 (split; [done|]). by eapply rtc_r. Qed.
Lemma history_keep cfg w s s' : step s s' → at_ s' = at_ s → called s' = called s → (cancelled s = true → cancelled s' = true) →
  (∀ err, served s = Returned err → served s' = Returned err) → hooks (mgr s') = registered s' → history cfg w s → history cfg w s'.
Proof.
  unfold history, told. intros Hst Hat Hc Hx Hv Hr [_ Hp]. rewrite Hat, Hc. split; [done|].
  destruct (at_ s); try done; try naive_solver eauto using collected_step.
Qed.
Lemma history_run cfg w s s' : rtc step (start cfg w) s → run_step s s' → history cfg w s → history cfg w s'.
Proof.
  intros Hreach H [Hh Hp]. pose proof (lc_reachable _ _ _ Hreach) as [_ Hi]. pose proof (st_run _ _ H) as Hst. unfold history, told in *.
  destruct H as [s E|s E|s E|s E|s E Hpe|s err E Hr|s err E He|s err E|s err E|s err E|s copied i h err answer E Hk|s copied err E];
    rewrite E in *; cbn in *; (split; [done|]); try done; eauto.
  - destruct Hi as [Hreason Hc]. split; [done|]. exists err. split; [|by rewrite drop_all, Hc]. exists s. split; [done|]. split; [done|].
    split; [done|]. split; [by rewrite Hh|]. by apply rtc_once.
  - destruct Hp as (Ht & cause & Hc & Hcalled & ->). split; [done|]. exists cause. split; [by eapply collected_step|]. split.
    + rewrite fmap_app, Hcalled. cbn. symmetry. by apply reverse_drop_S.
    + by rewrite fmap_app, foldl_app.
  - destruct Hp as (Ht & cause & Hc & Hcalled & ->). split; [done|]. exists cause. split; [by eapply collected_step|]. by rewrite drop_0 in Hcalled.
Qed.
Lemma history_reachable cfg w s : rtc step (start cfg w) s → history cfg w s.
Proof.
  intros H. refine (rtc_ind_r (history cfg w) (start cfg w) _ _ s H); [by split|]. intros y z Hy Hz Hi. pose proof Hz as Hz'.
  destruct Hz' as [y z Hr|y fn|y err Hv|y Hc|y err He|y w' Hw]; [by eapply history_run|..]; eapply (history_keep cfg w y _ Hz); try done; try apply Hi.
  - cbn. by rewrite (proj1 Hi).
  - cbn. intros e. by rewrite Hv.
Qed.

(** C30.  However signals, registrations, the serve function, the caller's context and the rest of the program interleave with
    a run, as long as no hook or callback panics: the status is the phase of the run; hooks are called one after the other, in the
    reverse order of registration, each once; a run that has stopped has called exactly the hooks that had been registered when
    it collected them, answers with the first error of the reason it ended and the hooks' answers, and has cancelled the
    context of the serve function, which before draining had returned or been cancelled; and a run that is not waiting for
    a reason to end can always go on, each of its steps, a hook's return included, bringing it closer to the end,
    which nobody else's step undoes. *)
Theorem shutdown_contract cfg w s : rtc step (start cfg w) s →
  status (mgr s) = status_of (at_ s) ∧
  (∀ copied todo err, at_ s = Closing copied todo err → ∃ s1 cause, rtc step (start cfg w) s1 ∧ at_ s1 = Collecting cause ∧
     registered s1 = copied ∧ rtc step s1 s ∧ (called s).*1 = reverse (drop todo copied)) ∧
  (∀ copied err, at_ s = Stopped copied err → ∃ s1 cause, rtc step (start cfg w) s1 ∧ at_ s1 = Collecting cause ∧ reason s1 cause ∧
     registered s1 = copied ∧ rtc step s1 s ∧ (called s).*1 = reverse copied ∧ err = foldl first_error cause (called s).*2 ∧
     cancelled s = true) ∧
  (∀ err, at_ s = Draining err → told s) ∧
  ((∃ copied err, at_ s = Stopped copied err) ∨ (at_ s = Waiting ∧ ¬ caused s) ∨ ∃ s', run_step s s') ∧
  (∀ s', step s s' → (run_step s s' ∧ lower (rank (at_ s')) (rank (at_ s))) ∨ (at_ s' = at_ s ∧ (caused s → caused s'))).
Proof.
  intros Hreach. pose proof (history_reachable _ _ _ Hreach) as [_ Hist]. apply lc_reachable in Hreach as [Hs Hp]. split; [done|].
  split. { intros copied todo err E. rewrite E in Hist. destruct Hist as (_ & cause & (s1 & H1 & H2 & H3 & H4 & H5) & Hc & _). by exists s1, cause. }
  split. { intros copied err E. rewrite E in Hist. destruct Hist as (Hx & cause & (s1 & H1 & H2 & H3 & H4 & H5) & Hc & He). by exists s1, cause. }
  split. { intros err E. by rewrite E in Hist. }
  split.
  - destruct (at_ s) as [| | | | |err|err|err|copied [|todo] err|copied err] eqn:E; try (by right; right; eexists; econstructor).
    + destruct (pending s) eqn:Ep; [right; right; eexists; by apply rs_signal|].
      destruct (served s) as [| |err] eqn:Ev; [naive_solver| |right; right; eexists; by eapply rs_returned].
      destruct (ended s) as [err|] eqn:Ee; [right; right; eexists; by eapply rs_ended|]. right; left. split; [done|].
      unfold caused. rewrite Ep, Ev, Ee. intros [H|[[err H]|[err H]]]; discriminate.
    + destruct Hp as (cause & _ & Hl & _). destruct (lookup_lt_is_Some_2 copied todo) as [h Hh]; [lia|].
      right; right. exists (answered copied todo h err None s). by apply rs_hook.
    + left. by exists copied, err.
  - intros s' H. destruct H as [s s' H|s fn|s err Hv|s Hc|s err He|s w' Ho].
    + left. split; [done|]. unfold lower.
      destruct H as [s E|s E|s E|s E|s E Hpe|s err E Hr|s err E He|s err E|s err E|s err E|s copied i h err answer E Hh|s copied err E];
        rewrite E; cbn; lia.
    + right. split; [done|]. by unfold caused.
    + right. split; [done|]. unfold caused. cbn. eauto.
    + right. split; [done|]. unfold caused. cbn. eauto.
    + right. split; [done|]. unfold caused. cbn. eauto.
    + right. split; [done|]. by unfold caused.
Qed.
End Manager.

(** ** Health (health.go) *)
Section Health.
(** The state that the functions given as options read. *)
Context {S : Type}.
Record Checker := {
  startedAt : time; c_status : string; toolCount : option (S → Z); taskCount : option (S → Z); circuits : option (S → gmap string string);
  sessionStore : option (S → option error); customCheckers : gmap string (S → json) }.
Definition NewChecker (now : time) : Checker :=
  {| startedAt := now; c_status := ""; toolCount := None; taskCount := None; circuits := None; sessionStore := None; customCheckers := ∅ |}.
Definition SetStatus (s : string) (c : Checker) : Checker := {|
  startedAt := startedAt c; c_status := s; toolCount := toolCount c; taskCount := taskCount c; circuits := circuits c;
  sessionStore := sessionStore c; customCheckers := customCheckers c |}.
Definition Checker_Status (c : Checker) : string := if bool_decide (c_status c = "") then "healthy" else c_status c.
Definition IsReady (c : Checker) : bool :=
  negb (bool_decide (Checker_Status c = "draining")) && negb (bool_decide (Checker_Status c = "stopped")).
Definition WithToolCount (fn : S → Z) (c : Checker) : Checker := {|
  startedAt := startedAt c; c_status := c_status c; toolCount := Some fn; taskCount := taskCount c; circuits := circuits c;
  sessionStore := sessionStore c; customCheckers := customCheckers c |}.
Definition WithTaskCount (fn : S → Z) (c : Checker) : Checker := {|
  startedAt := startedAt c; c_status := c_status c; toolCount := toolCount c; taskCount := Some fn; circuits := circuits c;
  sessionStore := sessionStore c; customCheckers := customCheckers c |}.
Definition WithCircuits (fn : S → gmap string string) (c : Checker) : Checker := {|
  startedAt := startedAt c; c_status := c_status c; toolCount := toolCount c; taskCount := taskCount c; circuits := Some fn;
  sessionStore := sessionStore c; customCheckers := customCheckers c |}.
Definition WithSessionStore (ping : S → option error) (c : Checker) : Checker := {|
  startedAt := startedAt c; c_status := c_status c; toolCount := toolCount c; taskCount := taskCount c; circuits := circuits c;
  sessionStore := Some ping; customCheckers := customCheckers c |}.
Definition WithCustomChecker (name : string) (fn : S → json) (c : Checker) : Checker := {|
  startedAt := startedAt c; c_status := c_status c; toolCount := toolCount c; taskCount := taskCount c; circuits := circuits c;
  sessionStore := sessionStore c; customCheckers := <[name := fn]> (customCheckers c) |}.

Record Status := {
  s_Status : string; Uptime : string; ToolCount : Z; s_Tasks : Z; Circuits : gmap string string; SessionStore : string; Custom : gmap string json }.
(** [uptime] is the text of a duration, cut to seconds. *)
Variable uptime : duration → string.
Definition Check_ (now : time) (st : S) (c : Checker) : Status := {|
  s_Status := "ok"; Uptime := uptime (time_sub now (startedAt c));
  ToolCount := match toolCount c with Some f => f st | None => 0 end;
  s_Tasks := match taskCount c with Some f => f st | None => 0 end;
  Circuits := match circuits c with Some f => f st | None => ∅ end;
  SessionStore := match sessionStore c with
                  | Some ping => match ping st with Some err => "unhealthy: " +:+ error_text err | None => "healthy" end
                  | None => ""
                  end;
  Custom := (λ f, f st) <$> customCheckers c |}.
Definition omit {A} (absent : bool) (name : string) (v : A) : list (string * A) := if absent then [] else [(name, v)].
Definition status_json (s : Status) : json := JObject (
  [("status", JString (s_Status s)); ("uptime", JString (Uptime s)); ("tool_count", JNumber (itoa (ToolCount s)))] ++
  omit (s_Tasks s =? 0) "active_tasks" (JNumber (itoa (s_Tasks s))) ++
  omit (bool_decide (Circuits s = ∅)) "circuit_breakers" (json_of_map (JString <$> Circuits s)) ++
  omit (bool_decide (SessionStore s = "")) "session_store" (JString (SessionStore s)) ++
  omit (bool_decide (size (Custom s) = 0%nat)) "custom" (json_of_map (Custom s))).
(** The status and the body of an answer; other paths are the multiplexer's to answer. *)
Definition encoded (v : json) : string := print true v +:+ newline.
Definition Handler (now : time) (st : S) (c : Checker) (path : string) : option (Z * string) :=
  if bool_decide (path = "/health") then Some (200, encoded (status_json (Check_ now st c)))
  else if bool_decide (path = "/ready") then
    if negb (IsReady c) then Some (503, encoded (JObject [("status", JString "not_ready")]))
    else Some (200, encoded (JObject [("status", JString "ready")]))
  else if bool_decide (path = "/live") then Some (200, encoded (JObject [("status", JString "alive")]))
  else None.
End Health.
Arguments Checker : clear implicits.

(** *** A server whose manager keeps the checker *)
Section Served.
Context {Hook S : Type} (uptime : duration → string).
(** A server whose draining callback tells the checker: from the moment the shutdown hooks are collected, whatever else
    happens, as long as nobody else declares the server healthy again, the readiness end point answers 503, while the
    liveness end point still answers 200; and before a run has begun to drain, a checker nobody else touched answers ready. *)
Theorem draining_is_not_ready cfg (others : Checker S → Checker S → Prop) (c0 : Checker S) (s : system (Hook := Hook)) now st :
  OnDraining cfg = Some (SetStatus "draining") →
  (∀ c c', others c c' → c_status c = "draining" → c_status c' = "draining") →
  rtc (step others) (start (Some cfg) c0) s → drained (at_ s) →
  Handler uptime now st (world s) "/ready" = Some (503, encoded (JObject [("status", JString "not_ready")])) ∧
  fst <$> Handler uptime now st (world s) "/live" = Some 200 ∧ IsReady (world s) = false.
Proof.
  intros Hcb Ho H Hd. assert (c_status (world s) = "draining") as Hs.
  { refine (drained_holds others (Some cfg) c0 s (λ c, c_status c = "draining") _ Ho H Hd). intros w. cbn. by rewrite Hcb. }
  assert (IsReady (world s) = false) as Hr by (unfold IsReady, Checker_Status; by rewrite Hs). split; [|split; [done|done]].
  unfold Handler. by rewrite Hr.
Qed.
End Served.

(** ** Autonomy gates (gates.go) *)
Section Gates.
Context {S : Type}.
Inductive GateStatus := GatePass | GateFail | GateUnmeasured.
Record AutonomyGate := { Name : string; Description : string; Threshold : float64; Measure : option (S → float64); Passing : option (S → bool) }.
Record GateResult := { r_Name : string; r_Description : string; Value : float64; r_Threshold : float64; r_Status : GateStatus }.
Record GateRegistry := { gates : gmap string AutonomyGate; order : list string }.
Definition NewGateRegistry : GateRegistry := {| gates := ∅; order := [] |}.
Definition Register (gate : AutonomyGate) (r : GateRegistry) : GateRegistry := {|
  gates := <[Name gate := gate]> (gates r);
  order := match gates r !! Name gate with Some _ => order r | None => order r ++ [Name gate] end |}.
Definition minus_one : float64 := float_of_int (-1).
Definition Check (name : string) (st : S) (r : GateRegistry) : float64 * bool :=
  match gates r !! name with
  | None => (minus_one, false)
  | Some g => match Measure g, Passing g with Some m, Some p => (m st, p st) | _, _ => (minus_one, false) end
  end.
Definition gate_result (st : S) (g : AutonomyGate) : GateResult :=
  match Measure g, Passing g with
  | Some m, Some p => {| r_Name := Name g; r_Description := Description g; Value := m st; r_Threshold := Threshold g;
                         r_Status := if p st then GatePass else GateFail |}
  | _, _ => {| r_Name := Name g; r_Description := Description g; Value := minus_one; r_Threshold := Threshold g; r_Status := GateUnmeasured |}
  end.
Definition CheckAll (st : S) (r : GateRegistry) : gmap string GateResult := gate_result st <$> gates r.
Definition gate_passing (st : S) (g : AutonomyGate) : bool := match Passing g with Some p => p st | None => false end.
Definition Score (st : S) (r : GateRegistry) : float64 :=
  if bool_decide (size (gates r) = 0%nat) then float_zero
  else float_div (float_of_int (Z.of_nat (length (filter (λ p, gate_passing st p.2 = true) (map_to_list (gates r))))))
                 (float_of_int (Z.of_nat (size (gates r)))).
Definition Gates_ (r : GateRegistry) : list string := order r.
Definition gate (name description : string) (threshold : float64) : AutonomyGate :=
  {| Name := name; Description := description; Threshold := threshold; Measure := None; Passing := None |}.
Definition hundredths (n : Z) : float64 := float_div (float_of_int n) (float_of_int 100).
Definition DefaultGates : list AutonomyGate := [
  gate "json_retry_rate" "JSON parse retry rate: percentage of planner/agent JSON outputs that fail parsing and require retry" (hundredths 5);
  gate "session_completion_rate"
    "Session completion rate: percentage of agent sessions that complete their intended task without manual intervention" (hundredths 95);
  gate "cost_per_task"
    "Cost per task: average USD cost per completed autonomous task, normalized to 0.0-1.0 scale where 1.0 = $0.00 and 0.0 = $1.00+" (hundredths 50);
  gate "crash_recovery_success" "Crash recovery success: percentage of agent crashes recovered without manual intervention" (hundredths 99);
  gate "budget_enforcement_compliance"
    "Budget enforcement compliance: fraction of marathons completing within budget (< 3 enforcement triggers)" (hundredths 100);
  gate "context_compaction_success" "Context compaction success: success rate of context window compaction events" (hundredths 90);
  gate "fleet_health_score" "Fleet health score: composite health score across all fleet components over a 24-hour window" (hundredths 80)].

Definition gates_ok (r : GateRegistry) : Prop :=
  NoDup (order r) ∧ (∀ k, k ∈ order r ↔ is_Some (gates r !! k)) ∧ ∀ k g, gates r !! k = Some g → Name g = k.
Lemma gates_ok_register g r : gates_ok r → gates_ok (Register g r).
Proof.
  intros (Hn & Ho & Hk). unfold gates_ok, Register; cbn. destruct (gates r !! Name g) as [g'|] eqn:E.
  - split; [done|]. split; [|intros k g0 [[<- <-]|[_ Hg]]%lookup_insert_Some; eauto]. intros k. rewrite Ho, lookup_insert_is_Some.
    destruct (decide (Name g = k)) as [<-|Hne]; rewrite ?E; naive_solver.
  - split; [apply NoDup_app; split; [done|]; split; [|apply NoDup_singleton]; intros x Hx ->%list_elem_of_singleton; apply Ho in Hx; rewrite E in Hx; by destruct Hx|].
    split; [|intros k g0 [[<- <-]|[_ Hg]]%lookup_insert_Some; eauto]. intros k. rewrite elem_of_app, list_elem_of_singleton, Ho, lookup_insert_is_Some.
    destruct (decide (Name g = k)) as [<-|Hne]; naive_solver.
Qed.
Definition wired (g : AutonomyGate) : Prop := is_Some (Passing g) → is_Some (Measure g).
Lemma gates_ok_registered gs : ∀ r, gates_ok r → gates_ok (foldl (λ r g, Register g r) r gs).
Proof. induction gs as [|g gs IH]; intros r H; [done|]. cbn. by apply IH, gates_ok_register. Qed.
Lemma gates_ok_new : gates_ok NewGateRegistry.
Proof. split; [apply NoDup_nil_2|]. split; [|done]. intros k. cbn. rewrite lookup_empty. split; [by intros ?%not_elem_of_nil|by intros []]. Qed.
(** Whether a gate passes, as [CheckAll] says. *)
Definition passes (res : GateResult) : bool := match r_Status res with GatePass => true | _ => false end.
Lemma result_passes st g : wired g → gate_passing st g = passes (gate_result st g).
Proof.
  unfold wired, gate_passing, gate_result, passes. destruct (Passing g) as [p|], (Measure g) as [m|]; cbn; try done.
  - by destruct (p st).
  - intros H. destruct H as [? H]; [by eexists|done].
Qed.
Lemma passing_count st (m : gmap string AutonomyGate) : (∀ k g, m !! k = Some g → wired g) →
  length (filter (λ p, gate_passing st p.2 = true) (map_to_list m)) = length (filter (λ p, passes p.2 = true) (map_to_list (gate_result st <$> m))).
Proof.
  intros Hw. rewrite map_to_list_fmap. assert (∀ p, p ∈ map_to_list m → wired p.2) as H.
  { intros [k g] Hp. apply elem_of_map_to_list in Hp. by eapply Hw. }
  clear Hw. induction (map_to_list m) as [|[k g] l IH]; [done|]. cbn [fmap list_fmap]. rewrite !filter_cons. cbn [prod_map fst snd].
  rewrite (result_passes st g) by (apply (H (k, g)); set_solver).
  destruct (decide (passes (gate_result st g) = true)); cbn [length]; by rewrite IH by (intros q Hq; apply H; set_solver).
Qed.
(** After any registrations: the listing names each gate once; looking at one gate and at all of them agree; and the score is
    the share of the gates that are listed as passing, if no gate has a verdict without a measurement. *)
Theorem gates_agree gs st : let r := foldl (λ r g, Register g r) NewGateRegistry gs in
  NoDup (Gates_ r) ∧ (∀ k, k ∈ Gates_ r ↔ k ∈ dom (CheckAll st r)) ∧
  (∀ k, Check k st r = match CheckAll st r !! k with Some res => (Value res, passes res) | None => (minus_one, false) end) ∧
  (Forall wired gs → Score st r =
     if bool_decide (size (CheckAll st r) = 0%nat) then float_zero
     else float_div (float_of_int (Z.of_nat (length (filter (λ p, passes p.2 = true) (map_to_list (CheckAll st r))))))
                    (float_of_int (Z.of_nat (size (CheckAll st r))))).
Proof.
  intros r. destruct (gates_ok_registered gs _ gates_ok_new) as (Hn & Ho & Hk). fold r in Hn, Ho, Hk.
  split; [done|]. split; [intros k; unfold Gates_, CheckAll; by rewrite Ho, dom_fmap, elem_of_dom|]. split.
  - intros k. unfold Check, CheckAll. rewrite lookup_fmap. destruct (gates r !! k) as [g|]; cbn; [|done].
    unfold gate_result, passes. destruct (Measure g) as [m|], (Passing g) as [p|]; cbn; try done. by destruct (p st).
  - intros Hw. unfold Score, CheckAll. rewrite map_size_fmap. rewrite passing_count; [done|]. intros k g Hg.
    assert (∀ r0, (∀ k g, gates r0 !! k = Some g → wired g) → ∀ k g, gates (foldl (λ r g, Register g r) r0 gs) !! k = Some g → wired g) as H.
    { clear -Hw. induction Hw as [|g0 gs H0 _ IH]; intros r0 Hr; [done|]. cbn. apply IH. intros k g Hg. cbn in Hg. apply lookup_insert_Some in Hg as [[_ <-]|[_ Hg]]; eauto. }
    eapply (H NewGateRegistry); [done|exact Hg].
Qed.
End Gates.

(** ** Concrete runs *)
Definition demo_config : Config (W := Checker unit) := {|
  DrainTimeout := 0; Signals := []; OnHealthy := Some (SetStatus "healthy"); OnDraining := Some (SetStatus "draining") |}.
Definition demo_start : system (Hook := string) := start (Some demo_config) (NewChecker 0).
Definition nobody (_ _ : Checker unit) : Prop := False.
Definition disk_full : error := ErrSentinel "disk" "disk full".
Ltac run_to := eapply rtc_l; [apply st_run; first
  [by eapply rs_start | by eapply rs_healthy | by eapply rs_on_healthy | by eapply rs_launch | by eapply rs_signal | by eapply rs_drain
  | by eapply rs_on_draining | by eapply rs_copy | by eapply rs_stop]|].
(** Two hooks are registered, a signal comes, the first registered hook fails and both have been called. *)
Lemma demo_run : ∃ s, rtc (step nobody) demo_start s ∧ at_ s = Stopped ["store"; "listener"] (Some disk_full) ∧
  called s = [("listener", None); ("store", Some disk_full)] ∧ served s = Serving ∧ hooks (mgr s) = ["store"; "listener"; "late"].
Proof.
  eexists. split.
  - eapply rtc_l; [apply (st_register _ _ "store")|]. eapply rtc_l; [apply (st_register _ _ "listener")|].
    do 4 run_to. eapply rtc_l; [by apply st_signal|]. do 4 run_to. eapply rtc_l; [apply (st_register _ _ "late")|].
    eapply rtc_l; [apply st_run, (rs_hook _ ["store"; "listener"] 1 "listener" None None); reflexivity|].
    eapply rtc_l; [apply st_run, (rs_hook _ ["store"; "listener"] 0 "store" None (Some disk_full)); reflexivity|]. run_to. apply rtc_refl.
  - done.
Qed.
Lemma shutdown_contract_witness : ∃ s, rtc (step nobody) demo_start s ∧ status (mgr s) = "stopped" ∧
  (called s).*1 = reverse ["store"; "listener"].
Proof.
  destruct demo_run as (s & H & Ha & _). exists s. split; [exact H|].
  destruct (shutdown_contract nobody (Some demo_config) (NewChecker 0) s H) as (Hs & _ & Hc & _).
  rewrite Ha in Hs. split; [exact Hs|]. by destruct (Hc _ _ Ha) as (s1 & cause & _ & _ & _ & _ & _ & Hcalled & _).
Defined.
Lemma draining_is_not_ready_witness : ∃ s, rtc (step nobody) demo_start s ∧ IsReady (world s) = false.
Proof.
  destruct demo_run as (s & H & Ha & _). exists s. split; [exact H|].
  apply (draining_is_not_ready (λ _, "") demo_config nobody (NewChecker 0) s 0 tt); [reflexivity|by intros c c' []|exact H|by rewrite Ha].
Defined.
(** A hook registered while the others run is never called, and Run does not wait for the serve function. *)
Lemma late_hook_never_called : ∃ s, rtc (step nobody) demo_start s ∧ at_ s = Stopped ["store"; "listener"] (Some disk_full) ∧
  "late" ∈ hooks (mgr s) ∧ "late" ∉ (called s).*1.
Proof. destruct demo_run as (s & H & Ha & Hc & _ & Hh). exists s. rewrite Hc, Hh. split; [exact H|]. split; [exact Ha|]. split; [set_solver|]. cbn. set_solver. Qed.
Lemma stopped_while_serving : ∃ s copied err, rtc (step nobody) demo_start s ∧ at_ s = Stopped copied err ∧ served s = Serving.
Proof. destruct demo_run as (s & H & Ha & _ & Hs & _). by exists s, ["store"; "listener"], (Some disk_full). Qed.
(** The time limit of the drain ends no step: with hooks left, the run goes on only by the return of the next one. *)
Lemma drain_waits_for_every_hook {Hook W} (s s' : system (Hook := Hook) (W := W)) copied n err : at_ s = Closing copied (S n) err →
  run_step s s' → ∃ h answer, copied !! n = Some h ∧ called s' = called s ++ [(h, answer)].
Proof. intros E H. destruct H; try congruence. replace n with i by congruence. replace copied with copied0 by congruence. by eexists _, _. Qed.
(** The health end point says ok, with status 200, on a server that is draining or has stopped. *)
Lemma health_ok_while_stopped now st (c : Checker unit) uptime : s_Status (Check_ uptime now st (SetStatus "stopped" c)) = "ok" ∧
  fst <$> Handler uptime now st (SetStatus "stopped" c) "/health" = Some 200.
Proof. done. Qed.
(** A gate with a verdict and no measurement is listed as unmeasured and counts in the score. *)
Lemma unmeasured_gate_scores :
  let g := {| Name := "g"; Description := ""; Threshold := float_zero; Measure := None; Passing := Some (λ _ : unit, true) |} in
  let r := Register g NewGateRegistry in
  r_Status <$> CheckAll tt r !! "g" = Some GateUnmeasured ∧ Score tt r = float_of_int 1.
Proof. by vm_compute. Qed.
